(* ===== verification/_CoqProject ===== *)
-Q . S2P
Prelude.v
Text.v
Cursor.v
PeerIdentity.v
SecurityWire.v
SecurityCodec.v
Association.v
AssociationInv.v
AssociationSteps.v
AssociationProofs.v
AssociationHistory.v
AssociationLive.v
CryptoIpc.v
CryptoIpcCodec.v
CryptoIpcProofs.v
PeerControl.v
PeerControlProofs.v
PeerFrame.v
PairWire.v
PairWireProofs.v
PairWireTrip.v
PeerState.v
PeerChannel.v
PeerTable.v
FreeList.v
PeerHoare.v
PeerChannelInv.v
PeerChannelRx.v
PeerChannelTx.v
PeerChannelReset.v
PeerChannelLife.v
PeerChannelStream.v
PeerChannelData.v
PeerChannelProgress.v
PeerTableInv.v
PeerReach.v
PeerProofs.v
PeerLedger.v
PeerTableProofs.v
ForwardRing.v
ForwardRingInv.v
ForwardRingProofs.v
Spans.v
WorkloadIdentity.v
WorkloadProofs.v
Topology.v
TopologyGrammar.v
TopologyParse.v
TopologyIntern.v
TopologyLookups.v
LocalControl.v
LocalControlProofs.v
ControlScope.v
Registration.v
RegistrationInv.v
RegistrationSteps.v
RegistrationProofs.v
RegistrationIds.v
RegistrationServe.v
PyText.v
Controller.v
ControllerText.v
ControllerProofs.v
ControllerRuns.v
FeedReceiver.v
FeedProofs.v
NodeFeed.v
NodeIdentity.v
NodeIdentityProofs.v
LocalClient.v
DaemonSlots.v
DaemonInv.v
DaemonTrace.v
DaemonProofs.v
DaemonRecovery.v
