(* ===== verification/Prelude.v ===== *)
(** * DPUmesh: admission of workloads and the authenticated data path

    DPUmesh moves Pod traffic between nodes through their DPUs.  This
    development verifies the part of it that decides who may talk, what a
    received byte means and when hardware may be programmed: the C modules
    [doca/peer_*.{c,h}]; the admission of workloads to a DPU, from the signed
    description of the cluster to the registered Pod; the Python programs that
    make that description and vouch for workloads - the controller, the host's
    daemon and the receiver on the DPU; and the lock-free ring by which host
    threads hand descriptors to the DPA.  Paths below are relative to the
    repository.

    ** The program and its model

    Two DPUs keep one control session ([doca/peer_control.c]) over mutual TLS
    ([doca/peer_tls.c]).  Over it they negotiate one security association per
    pair of Pods ([doca/peer_association.c]) with the messages of
    [doca/peer_security_wire.c]; the association manager turns every
    association into commands for the process that owns the NIC, reached over
    [doca/peer_crypto_ipc.c].  Pod traffic runs over channels
    ([doca/peer_channel.c]): streams, extents in custody, acknowledgements and
    credits, framed for the wire and, on a Pod-pair channel, translated by
    [doca/peer_pair_wire.c].  On the host, a Pod's traffic enters its DPU
    through forward rings in shared memory ([doca/ring.h], [dpumesh_enqueue]
    of [src/core/dmesh_core.c], [process_fwd_ring] of
    [doca/device/dpa_kernel.c]).

    Which workload a connection from the host is, and which nodes, Pods and
    Services exist, the DPU learns from two authorities.  A controller
    publishes signed generations of the cluster ([doca/topology.c]).  The
    paired host's daemon holds a TLS session with the DPU
    ([doca/local_control.c]) and seals under it the identity of each workload
    ([doca/workload_identity.c]) for the challenge the DPU sent to that
    connection.  The registration server ([doca/comch_server.c]) keeps the
    connections, checks the assertions, registers Pods under Services of the
    adopted generation, answers resolve queries and tears registrations down;
    it asks the controller about the scope of a Pod
    ([doca/control_scope.c]).

    On the other side of these interfaces, the controller
    ([controller/dpumesh_controller.py]) builds and signs generations from
    Kubernetes objects and node reports, and answers the scope queries.  The
    host's daemon ([node/dpumeshd.py]) fetches them and brings them to the
    receiver on the DPU ([dpu/feed_receiver.py]), from which the topology
    consumer reads.  It also owns the channel slots that Pods are given: it
    takes the identity of a connection from the kernel, starts a broker for it,
    resolves and seals the identity ([node/workload_identity.py],
    [node/local_registration.py]), and frees a slot only when the DPU says over
    the paired-host session that the broker's connection is cleaned up.

    - [Prelude]: machine integers, record update, byte strings and the generic
      lemmas and tactics every file uses.
    - [Text]: text given by pointer and length, decimal numbers, the order of
      [strcmp] with [qsort] and [bsearch].
    - [Cursor], [FreeList]: data structures the modules share.  The
      bounded cursor of the codecs with its writer and reader combinators; the
      fixed array with head and count used as a queue; the free list threaded
      through a table.
    - [PeerIdentity]: registration records of [doca/peer_identity.h]; handshake,
      pin and exporter of one TLS session.
    - [SecurityWire], [SecurityCodec]: the messages of
      [doca/peer_security_wire.c] and their exactness.
    - [Association] models [doca/peer_association.c]; [AssociationInv] its runs,
      log and invariant; [AssociationSteps] the preservation of the invariant;
      [AssociationProofs], [AssociationHistory], [AssociationLive] the theorems.
    - [CryptoIpc], [CryptoIpcCodec], [CryptoIpcProofs]: frames and adapter of
      [doca/peer_crypto_ipc.c].
    - [PeerControl], [PeerControlProofs]: [doca/peer_control.c].
    - [PeerFrame]: refusals, frame header and payload
      structures of [doca/peer_channel.h], the frame parser and builder.
    - [PairWire], [PairWireProofs], [PairWireTrip]: [doca/peer_pair_wire.c].
    - [PeerState], [PeerChannel], [PeerTable]: state, channel operations and
      table operations of [doca/peer_channel.c].  [PeerHoare] is a small
      program logic for them; [PeerChannelInv], [PeerChannelRx],
      [PeerChannelTx], [PeerChannelReset], [PeerChannelLife],
      [PeerChannelStream], [PeerChannelData], [PeerChannelProgress] and
      [PeerTableInv] carry the
      channel invariant through every operation; [PeerReach] defines reachable
      tables; [PeerProofs], [PeerLedger] and [PeerTableProofs] state what holds of
      them.
    - [ForwardRing], [ForwardRingInv], [ForwardRingProofs]: one forward ring
      with its host threads and its execution unit, as state machines whose
      steps are single accesses to shared memory.
    - [Spans], [Topology]: the field validators, the parser, adoption,
      polling, id interning and lookups of [doca/topology.c];
      [TopologyGrammar] the grammar of a document, [TopologyParse] the
      exactness of the parser, [TopologyIntern] the ids of Services and the
      refreshes and polls over time, [TopologyLookups] the answers of the
      lookups.
    - [WorkloadIdentity], [WorkloadProofs]: [doca/workload_identity.c].
    - [LocalControl], [LocalControlProofs]: [doca/local_control.c].
    - [ControlScope]: [doca/control_scope.c].
    - [Registration]: the connection table, its handlers and the callbacks of
      the paired-host session in [doca/comch_server.c], and
      [collect_live_hosts] of [doca/dpu_worker.c]; [RegistrationInv] and
      [RegistrationSteps] its invariant; [RegistrationProofs] the runs of the
      composed server (connection events, messages, polls, the paired-host
      session, topology refreshes) and who is registered; [RegistrationIds]
      Pod and Service ids; [RegistrationServe] teardown and resolution.
    - [PyText]: the [str], [dict] and [re] operations of the Python programs,
      with exceptions as results, and the objects of the Kubernetes API as far
      as the programs read them.
    - [Controller]: keys, node file, reports, the body of a generation, signing,
      publication, the Service map and the routes of the server, all of
      [controller/dpumesh_controller.py]; [ControllerText] its texts against the
      field grammar of the consumer and the records of a published body,
      [ControllerProofs] publication against [Topology],
      [ControllerRuns] runs of the controller, and scope queries against
      [ControlScope].
    - [FeedReceiver]: [dpu/feed_receiver.py] and the calls of
      [node/dpumeshd.py] that talk to it; [FeedProofs] deliveries; [NodeFeed] a
      turn of the daemon's feed loop ([DPUFeed.once]) from the controller to the
      consumer.
    - [NodeIdentity]: kernel evidence and hello of [node/dpumeshd.py],
      eligibility ([node/workload_identity.py]), record and seal
      ([node/local_registration.py]); [NodeIdentityProofs] the composition with
      [Registration], and what eligibility is.
    - [LocalClient]: the host's end of the paired-host session, against
      [LocalControl].
    - [DaemonSlots]: the channel slots of [node/dpumeshd.py] as a machine whose
      steps are those of the slot threads, of the threads that register and
      watch a broker, and of the threads that set readiness; [DaemonInv] its
      invariant, [DaemonTrace] the invariant over the events of a run and the
      requests of a run as calls of [LocalClient], [DaemonProofs] reuse and exclusion, [DaemonRecovery] recovery, readiness
      and allocation.

    Definitions keep the names of the functions and structures they model;
    where two modules use one name for different functions ([consume],
    [receive_frame], [header], [fault]) the model carries a prefix.  A piece
    of a long function that has a definition of its own is named after what it
    does, and the function composes the pieces in the order of the source.

    ** How the code is represented

    Integers are [Z] with wrap-around written out where the C arithmetic can
    wrap ([u32], [u64]); sizes and indices that the code bounds are [nat].  A
    byte buffer with a length is the list of its meaningful bytes; a [char]
    array is the list of all its bytes, compared by [strcmp] as in C.  Pointers
    into a table are indices of it.  A structure sent by [memcpy] is its
    little-endian image.  A function that may fail returns an [option], or its
    C status next to the output structure.

    The manager, the adapter and the control session pass their state
    explicitly.  Channel and table operations run in a state monad over the
    channel (or table) and a world; the seams of [struct dmesh_peer_transport]
    and [struct dmesh_peer_ops] are functions of that world, so their answers
    are arbitrary.  For the adapter the results of system calls, and for the
    control session what the carrier and OpenSSL answer in one turn, are inputs
    of each call; so are, for the topology consumer, the state and contents of
    the document and key files, for the paired-host session what its socket and
    TLS answer, and for the registration server the send results and the
    progress of the engines that release a Pod's memory.  A run of the
    registration server is any sequence of its events, of which one is a turn
    of the paired-host session with the server itself as the owner it calls.
    A run of the forward ring is any sequence of steps of its threads and its
    execution unit; memory is sequentially consistent.  A run of the daemon's
    slots is any sequence of steps of its threads, where a step is what a thread
    does between two locks or waits; [Worker] objects are shared by reference.
    Python text is ASCII, a list of bytes; what the API server, the kubelet, the
    files of [/proc], the file system and the sockets answer is an input.
    SHA-256, HMAC, Ed25519 and the TLS exporter are parameters.  Theorems
    quantify over all of these.

    ** What is shown

    - Codecs: every decoder accepts exactly the encodings of valid messages, so
      decoding inverts encoding and no two messages share an encoding
      ([SecurityCodec], [CryptoIpcCodec], [PeerFrame]); different
      directions and bindings use different key derivation contexts, and both
      ends derive the same keys.
    - Association manager: budgets equal sums over the table; SPIs, ids, Pod
      pairs, QPNs and operations never collide; each hardware command, and
      admission, waits for its protocol barrier; teardown is fenced, ordered
      and terminates; completions, tokens and revocations never come back.
    - Crypto adapter: each accepted request has exactly one outcome while the
      table suffices, and the frames are handled the same however the stream is
      split; when 256 completions wait, the next outcome is lost.
    - Control session: ready means authenticated, pinned, greeted and leased;
      messages are accepted in order, at most once, in their session; what is
      sent is what is handed to the owner.
    - Pair wire: two ends stay in agreement, a frame arrives as sent, a message
      is taken at most once.
    - Channels and table: every counter is the sum it stands for and within its
      bound; free lists, handles and states are consistent; the transmit table
      refines a ledger of extents with exactly one release per extent; streams,
      data and connections are admitted only under the stated rules; eviction
      and rebinding touch only what they may; the open rate is bounded, and its
      bucket never refills under attempts less than a millisecond apart.
    - Forward ring: under every interleaving each accepted descriptor is
      consumed at most once, unchanged and in its thread's order, and none is
      stuck behind a withdrawn ticket; threads can always finish; no copy
      leaves the registered buffers.  The number of slots divides [2^64], as
      [DMA_RING_SIZE] does, so that slots survive the wrap of the tickets.
    - Topology: the parser accepts exactly the documents of the grammar and
      represents their records; a refresh adopts exactly a signed, newer
      document; lookups answer what the document says; a Service keeps its id
      while it stays published.
    - Identity: envelopes and identity records are read exactly; a seal fixes
      every field of an assertion, up to a collision of HMAC.
    - Paired-host session: it opens only for the configured host; the exchange
      refines a request and response protocol with rising sequence numbers, in
      which a repetition is not dispatched again.
    - Registration: a registered Pod holds the identity of an assertion sealed
      under the session that is open; one daemon incarnation vouches for all;
      an unregistration is final; ids the server assigns are exact.  Ids that
      workloads choose can be unmapped while live, and the id of a departed
      Service carries its Pods over to the next one.
    - Controller: versions rise strictly through failures and restarts and what
      is served is what is installed; the answer about a Pod's scope is the one
      the DPU's own tables give.  A node port with leading zeros, or a key id
      that only the controller admits, makes every DPU refuse the generation.
    - Delivery: the receiver installs whole, announced documents only; a
      generation published from admitted objects and brought by the daemon is
      adopted, and the tables state exactly the objects it was made from.
    - Host registration: a Pod is found exactly if it is eligible; the bytes the
      daemon seals are accepted by the DPU that sent the challenge, and bind the
      slot to the Pod the kernel named.
    - Channel slots: one broker at a time, with rising generations; a slot is
      admitted to again only when the broker's cgroup is empty and the DPU's
      server has nothing outstanding for its connection; it comes back when the
      DPU answers.  A failure of the feed can be overwritten by the thread of
      the control session.

    ** Bounds and fuel

    Table sizes and limits are the constants of the headers.  [receive_frame]
    (the loop of [dmesh_peer_channel_progress] over a partial frame) runs with
    [receive_fuel], one step per byte the frame buffer can hold and two more;
    [peer_receive_terminates] shows that it never runs out.
    [ipc_consume] has one step per buffered byte and one more; every step takes
    at least a header, and [ipc_frames_exact] rests on it not running out.
    [control_consume] has the budget of 16 frames of the source.  [digits]
    has one step per decimal digit of the number it writes, [bsearch] one
    per element and one more ([bsearch_sorted] shows that this is enough on a
    sorted table) and [ipv4_loop] one per byte and one more.  Lists of system call
    results end where the call would block.

    ** What is not modelled

    Allocation failure is an input where the code tests for it.  Callers are
    taken to pass valid pointers, including the [reason] of the channel
    operations.  Erasing of key material from memory has no counterpart.  Not
    modelled are the file and OpenSSL calls that make node keys, certificates
    and TLS contexts, the free functions, diagnostic strings, and the modules
    around this path: carriers ([peer_wire_*.c], [peer_transport.c]), the lane
    commands of a worker ([peer_pair_transport.c]), the manager that negotiates
    Pod pairs and drives sessions, associations and lanes ([peer_manager.c]: that
    its message callback only queues messages on the session that calls it is a
    hypothesis of the theorem on control sessions), the NIC owner
    [peer_crypto_owner.c], the DPU proxy, the reverse ring, the rest of the
    host library and of the DPA kernel, the facades, the broker, the gRPC and
    Linkerd adapters.  Of the Python programs, the command lines, the HTTP, gRPC
    and TLS libraries with their connection threads, the watch on the API server
    and the tunnel are not modelled; starting a thread and writing to the log do
    not fail.  Of the registration server, the import of the memory a Pod exports and its release
    are an input (whether it has happened), and the DOCA Comch objects and send
    tasks have no counterpart beyond the messages. *)

From Stdlib Require Export ZArith Lia.
From Stdlib.Strings Require Export Byte.
From stdpp Require Export base tactics list numbers option sets relations.
#[global] Arguments Nat.ltb : simpl never.
#[global] Arguments Nat.leb : simpl never.
#[global] Arguments Nat.eqb : simpl never.
#[global] Arguments Nat.sub : simpl never.

Open Scope Z_scope.

(** ** Machine integers *)

Definition wrap (w z : Z) : Z := z mod 2 ^ w.
Abbreviation u8 := (wrap 8).
Abbreviation u16 := (wrap 16).
Abbreviation u32 := (wrap 32).
Abbreviation u64 := (wrap 64).
Definition in_width (w z : Z) : Prop := 0 <= z < 2 ^ w.
Definition UINT32_MAX : Z := 2 ^ 32 - 1.
Definition UINT64_MAX : Z := 2 ^ 64 - 1.

Lemma wrap_small w z : in_width w z -> wrap w z = z.
Proof. intros H. unfold wrap. by apply Z.mod_small. Qed.

Lemma wrap_in_width w z : 0 <= w -> in_width w (wrap w z).
Proof. intros H. apply Z.mod_pos_bound. by apply Z.pow_pos_nonneg. Qed.

(** ** Record update

    [r <| f := v |>] is the record [r] with the field [f] replaced.  A record
    type gives its eta expansion once, as an instance of [Eta]; the setter of
    a field is computed from it. *)

Class Eta (R : Type) := eta : R -> R.
Class Setter {R T : Type} (proj : R -> T) := set : (T -> T) -> R -> R.
Arguments set {R T} proj {_} _ _ / : assert.

Ltac solve_setter :=
  match goal with
  | |- @Setter ?R ?T ?proj =>
      let i := constr:(_ : Eta R) in
      let e := eval hnf in (i : R -> R) in
      let e := eval pattern proj in e in
      match e with
      | ?F _ => exact (fun (f : T -> T) (r : R) => F (fun x => f (proj x)) r)
      end
  end.
#[export] Hint Extern 1 (Setter _) => solve_setter : typeclass_instances.

Declare Scope record_scope.
Open Scope record_scope.
Notation "r <| f := v |>" := (set f (fun _ => v) r)
  (at level 1, left associativity, format "r  <| f  :=  v |>") : record_scope.
Notation "r <| f ::= g |>" := (set f g r)
  (at level 1, left associativity, format "r  <| f  ::=  g |>") : record_scope.

(** ** Bytes *)

Definition b2z (b : byte) : Z := Z.of_N (Byte.to_N b).
(** [(uint8_t)z] *)
Definition z2b (z : Z) : byte := default x00 (Byte.of_N (Z.to_N (z mod 256))).

Lemma b2z_range b : 0 <= b2z b < 256.
Proof. unfold b2z. pose proof (Byte.to_N_bounded b). lia. Qed.

Lemma b2z_z2b z : b2z (z2b z) = z mod 256.
Proof.
  unfold b2z, z2b. pose proof (Z.mod_pos_bound z 256 ltac:(lia)).
  destruct (Byte.of_N (Z.to_N (z mod 256))) eqn:E; cbn.
  - apply Byte.to_of_N in E. rewrite E. lia.
  - apply Byte.of_N_None_iff in E. lia.
Qed.

Lemma z2b_b2z b : z2b (b2z b) = b.
Proof. by destruct b. Qed.

Lemma b2z_inj b1 b2 : b2z b1 = b2z b2 -> b1 = b2.
Proof. intros H. by rewrite <-(z2b_b2z b1), <-(z2b_b2z b2), H. Qed.

#[export] Instance byte_eq_dec : EqDecision byte := Byte.byte_eq_dec.

(** ** Big-endian numbers

    [be_bytes w n] is the loop [b[width - 1 - i] = (uint8_t)(n >> (8 * i))];
    [be_num] is the loop [n = (n << 8) | b[i]] on a 64-bit accumulator. *)

Fixpoint be_bytes (width : nat) (n : Z) : list byte :=
  match width with
  | O => []
  | S w => be_bytes w (Z.shiftr n 8) ++ [z2b n]
  end.

Definition be_step (n : Z) (b : byte) : Z := Z.lor (u64 (Z.shiftl n 8)) (b2z b).
Definition be_num (l : list byte) : Z := fold_left be_step l 0.

Lemma length_be_bytes w n : length (be_bytes w n) = w.
Proof.
  revert n. induction w as [|w IH]; intros n; [done|].
  cbn. rewrite length_app, IH. cbn. lia.
Qed.

Lemma be_num_snoc l b : be_num (l ++ [b]) = be_step (be_num l) b.
Proof. unfold be_num. by rewrite fold_left_app. Qed.

(** Shifting in one byte is exact as long as the result fits 64 bits. *)
Lemma land_shiftl8_byte n b : Z.land (Z.shiftl n 8) (b2z b) = 0.
Proof.
  pose proof (b2z_range b) as Hb. apply Z.bits_inj'. intros i Hi.
  rewrite Z.land_spec, Z.bits_0.
  destruct (Z.lt_ge_cases i 8); [by rewrite Z.shiftl_spec_low|].
  rewrite <-(Z.mod_small (b2z b) (2 ^ 8)) by lia.
  by rewrite Z.mod_pow2_bits_high, andb_false_r by lia.
Qed.

Lemma be_step_arith n b : 0 <= n < 2 ^ 56 -> be_step n b = n * 256 + b2z b.
Proof.
  intros Hn. unfold be_step. rewrite wrap_small.
  - rewrite <-Z.lxor_lor, <-Z.add_nocarry_lxor by apply land_shiftl8_byte.
    by rewrite Z.shiftl_mul_pow2 by lia.
  - rewrite Z.shiftl_mul_pow2 by lia. unfold in_width. lia.
Qed.

Lemma be_num_bound l :
  (length l <= 8)%nat -> 0 <= be_num l < 2 ^ (8 * Z.of_nat (length l)).
Proof.
  induction l as [|b l IH] using rev_ind; intros Hl; [by cbn|].
  rewrite length_app in *; cbn in Hl.
  specialize (IH ltac:(lia)).
  assert (2 ^ (8 * Z.of_nat (length l)) <= 2 ^ 56) by (apply Z.pow_le_mono_r; lia).
  rewrite be_num_snoc, be_step_arith by lia.
  replace (8 * Z.of_nat (length l + length [b])) with
    (8 * Z.of_nat (length l) + 8) by (cbn; lia).
  rewrite Z.pow_add_r by lia. pose proof (b2z_range b). lia.
Qed.

Lemma be_num_be_bytes w n :
  (w <= 8)%nat -> be_num (be_bytes w n) = n mod 2 ^ (8 * Z.of_nat w).
Proof.
  revert n. induction w as [|w IH]; intros n Hw.
  { cbn. by rewrite Z.mod_1_r. }
  cbn [be_bytes]. rewrite be_num_snoc, IH by lia.
  assert (2 ^ (8 * Z.of_nat w) <= 2 ^ 56) by (apply Z.pow_le_mono_r; lia).
  assert (0 < 2 ^ (8 * Z.of_nat w)) by (apply Z.pow_pos_nonneg; lia).
  pose proof (Z.mod_pos_bound (Z.shiftr n 8) (2 ^ (8 * Z.of_nat w)) ltac:(lia)).
  rewrite be_step_arith, b2z_z2b, Z.shiftr_div_pow2 by lia.
  replace (8 * Z.of_nat (S w)) with (8 + 8 * Z.of_nat w) by lia.
  rewrite Z.pow_add_r by lia. change (2 ^ 8) with 256.
  rewrite Z.rem_mul_r by lia. lia.
Qed.

Lemma be_bytes_be_num l :
  (length l <= 8)%nat -> be_bytes (length l) (be_num l) = l.
Proof.
  induction l as [|b l IH] using rev_ind; intros Hl; [done|].
  rewrite length_app in *; cbn in Hl.
  pose proof (be_num_bound l ltac:(lia)) as Hb.
  assert (2 ^ (8 * Z.of_nat (length l)) <= 2 ^ 56) by (apply Z.pow_le_mono_r; lia).
  replace (length l + length [b])%nat with (S (length l)) by (cbn; lia).
  rewrite be_num_snoc, be_step_arith by lia. cbn [be_bytes].
  pose proof (b2z_range b). f_equal; [|f_equal].
  - rewrite Z.shiftr_div_pow2 by lia. change (2 ^ 8) with 256.
    rewrite Z.div_add_l, Z.div_small, Z.add_0_r by lia. apply IH. lia.
  - rewrite <-(z2b_b2z b) at 2. unfold z2b. do 3 f_equal.
    by rewrite Z.add_comm, Z.mod_add by lia.
Qed.

Lemma be_num_be_bytes_small w n :
  (w <= 8)%nat -> in_width (8 * Z.of_nat w) n -> be_num (be_bytes w n) = n.
Proof. intros Hw Hn. rewrite be_num_be_bytes by done. by apply Z.mod_small. Qed.

Lemma be_num_width w l :
  (w <= 8)%nat -> length l = w -> in_width (8 * Z.of_nat w) (be_num l).
Proof. intros Hw <-. by apply be_num_bound. Qed.

(** ** Little-endian numbers: the integers of a C structure in memory *)

Definition le_bytes (width : nat) (n : Z) : list byte := reverse (be_bytes width n).
Definition le_num (l : list byte) : Z := be_num (reverse l).

Lemma length_le_bytes w n : length (le_bytes w n) = w.
Proof. unfold le_bytes. by rewrite length_reverse, length_be_bytes. Qed.

Lemma le_num_le_bytes w n :
  (w <= 8)%nat -> in_width (8 * Z.of_nat w) n -> le_num (le_bytes w n) = n.
Proof.
  intros Hw Hn. unfold le_num, le_bytes. rewrite reverse_involutive. by apply be_num_be_bytes_small.
Qed.

Lemma le_bytes_le_num l : (length l <= 8)%nat -> le_bytes (length l) (le_num l) = l.
Proof.
  intros Hl. unfold le_num, le_bytes. rewrite <-(length_reverse l), be_bytes_be_num.
  - apply reverse_involutive.
  - by rewrite length_reverse.
Qed.

Lemma le_num_width w l :
  (w <= 8)%nat -> length l = w -> in_width (8 * Z.of_nat w) (le_num l).
Proof. intros Hw Hl. apply be_num_width; [done|]. by rewrite length_reverse. Qed.

(** ** C strings

    [strcmp] reads past no terminator: the end of the list stands for one. *)

Fixpoint strcmp (a b : list byte) : Z :=
  match a, b with
  | [], [] => 0
  | [], y :: _ => - b2z y
  | x :: _, [] => b2z x
  | x :: a', y :: b' =>
      if b2z x =? b2z y then (if b2z x =? 0 then 0 else strcmp a' b')
      else b2z x - b2z y
  end.

(** The characters before the terminator. *)
Fixpoint cstr (s : list byte) : list byte :=
  match s with
  | [] => []
  | b :: s' => if b2z b =? 0 then [] else b :: cstr s'
  end.

Definition str_eq (a b : list byte) : bool := strcmp a b =? 0.

Lemma strcmp_opp a b : strcmp b a = - strcmp a b.
Proof.
  revert b. induction a as [|x a IH]; intros [|y b]; cbn; try lia.
  rewrite (Z.eqb_sym (b2z y)). destruct (Z.eqb_spec (b2z x) (b2z y)) as [->|]; [|lia].
  destruct (b2z y =? 0); [lia|apply IH].
Qed.

Lemma strcmp_eq a b : strcmp a b = 0 <-> cstr a = cstr b.
Proof.
  revert b. induction a as [|x a IH]; intros [|y b]; cbn; try done.
  - destruct (Z.eqb_spec (b2z y) 0); split; intros; done || lia.
  - destruct (Z.eqb_spec (b2z x) 0); split; intros; done || lia.
  - destruct (Z.eqb_spec (b2z x) (b2z y)) as [E|E].
    + rewrite <-E. apply b2z_inj in E as ->.
      destruct (b2z y =? 0); [done|]. rewrite IH. split; [by intros ->|by injection 1].
    + split; [lia|]. destruct (Z.eqb_spec (b2z x) 0), (Z.eqb_spec (b2z y) 0); try done.
      * lia.
      * by intros [= -> _].
Qed.

(** Only the characters before the terminators count. *)
Lemma strcmp_cstr a b : strcmp a b = strcmp (cstr a) (cstr b).
Proof.
  revert b. induction a as [|x a IH]; intros [|y b]; cbn [strcmp cstr]; try done.
  - destruct (Z.eqb_spec (b2z y) 0) as [->|]; done.
  - destruct (Z.eqb_spec (b2z x) 0) as [->|]; done.
  - destruct (Z.eqb_spec (b2z x) (b2z y)) as [Exy|Hne].
    + destruct (Z.eqb_spec (b2z x) 0), (Z.eqb_spec (b2z y) 0); cbn [strcmp]; try done; try lia.
      rewrite Exy, Z.eqb_refl, IH. destruct (Z.eqb_spec (b2z y) 0); [lia|done].
    + destruct (Z.eqb_spec (b2z x) 0), (Z.eqb_spec (b2z y) 0); cbn [strcmp]; try lia.
      destruct (Z.eqb_spec (b2z x) (b2z y)); [lia|done].
Qed.

Lemma str_eq_spec a b : str_eq a b = true <-> cstr a = cstr b.
Proof. unfold str_eq. rewrite Z.eqb_eq. apply strcmp_eq. Qed.

Lemma strcmp_refl a : strcmp a a = 0.
Proof. by apply strcmp_eq. Qed.

(** ** Byte arrays compared and tested as the sources do *)

Definition bytes_eq (a b : list byte) : bool := bool_decide (a = b).

Definition or_bytes (bs : list byte) : Z := fold_left (fun n b => Z.lor n (b2z b)) bs 0.
Definition nonzero (bs : list byte) : bool := negb (or_bytes bs =? 0).

Lemma or_bytes_acc bs n :
  0 <= n -> fold_left (fun n b => Z.lor n (b2z b)) bs n = 0 <-> n = 0 /\ or_bytes bs = 0.
Proof.
  unfold or_bytes. revert n. induction bs as [|b bs IH]; intros n Hn; cbn; [lia|].
  pose proof (b2z_range b).
  rewrite (IH (Z.lor n (b2z b))), (IH (b2z b)) by (try apply Z.lor_nonneg; lia).
  rewrite Z.lor_eq_0_iff. tauto.
Qed.

Lemma nonzero_spec bs : nonzero bs = true <-> exists b, b ∈ bs /\ b <> x00.
Proof.
  unfold nonzero. rewrite negb_true_iff, Z.eqb_neq.
  induction bs as [|b bs IH].
  - split; [done|]. intros (b & Hb & _). set_solver.
  - change (or_bytes (b :: bs)) with
      (fold_left (fun n b => Z.lor n (b2z b)) bs (b2z b)).
    pose proof (b2z_range b).
    rewrite or_bytes_acc by lia. split.
    + intros Hn. destruct (Z.eq_dec (b2z b) 0) as [E|E].
      * destruct IH as [IH _]. destruct IH as (b' & ? & ?); [tauto|]. exists b'.
        split; [by right|done].
      * exists b. split; [by left|]. by intros ->.
    + intros (b' & [->|Hb]%elem_of_cons & Hne) [E1 E2].
      * apply Hne, b2z_inj. by rewrite E1.
      * by apply IH; [exists b'|].
Qed.

Lemma nonzero_repeat n : nonzero (repeat x00 n) = false.
Proof.
  destruct (nonzero (repeat x00 n)) eqn:E; [|done].
  apply nonzero_spec in E as (b & Hb & Hne). apply list_elem_of_In, repeat_spec in Hb. done.
Qed.

(** ** Arrays of two *)

Definition at2 {A} (i : nat) (p : A * A) : A := match i with O => p.1 | _ => p.2 end.

(** ** Sums over a table *)

Definition gsum {A} (w : A -> Z) (l : list A) : Z :=
  foldr (fun a n => w a + n) 0 l.

Lemma gsum_cons {A} (w : A -> Z) a l : gsum w (a :: l) = w a + gsum w l.
Proof. done. Qed.
Lemma gsum_insert {A} (w : A -> Z) l i a a' :
  l !! i = Some a -> gsum w (<[i := a']> l) = gsum w l - w a + w a'.
Proof.
  revert i. induction l as [|b l IH]; intros [|i] H; simplify_eq/=; [lia|].
  change (w b + gsum w (<[i := a']> l) = w b + gsum w l - w a + w a').
  rewrite (IH i H). lia.
Qed.
Lemma gsum_fmap {A} (w : A -> Z) (f : A -> A) l : (forall a, w (f a) = w a) -> gsum w (f <$> l) = gsum w l.
Proof. intros H. induction l as [|a l IH]; [done|].
  change (w (f a) + gsum w (f <$> l) = w a + gsum w l). by rewrite H, IH.
Qed.
Lemma gsum_bounds {A} (w : A -> Z) l k :
  (forall a, 0 <= w a <= k) -> 0 <= gsum w l <= k * Z.of_nat (length l).
Proof.
  intros H. induction l as [|a l IH]; cbn [gsum foldr length]; [lia|].
  fold (gsum w l). specialize (H a). lia.
Qed.
Lemma gsum_nonneg {A} (w : A -> Z) l : (forall i a, l !! i = Some a -> 0 <= w a) -> 0 <= gsum w l.
Proof.
  intros H. induction l as [|a l IH]; cbn [gsum foldr]; [lia|].
  fold (gsum w l). pose proof (H 0%nat a eq_refl). specialize (IH (fun i => H (S i))). lia.
Qed.
Lemma gsum_lookup {A} (w : A -> Z) l i a :
  (forall i a, l !! i = Some a -> 0 <= w a) -> l !! i = Some a -> w a <= gsum w l.
Proof.
  revert i. induction l as [|b l IH]; intros [|i] Hw H; simplify_eq/=; fold (gsum w l).
  - pose proof (gsum_nonneg w l (fun i => Hw (S i))). lia.
  - specialize (IH i (fun i => Hw (S i)) H). pose proof (Hw 0%nat b eq_refl). lia.
Qed.

(** Equal weights position by position. *)
Lemma gsum_Forall2 {A B} (w : A -> Z) (w' : B -> Z) l l' :
  Forall2 (fun a b => w a = w' b) l l' -> gsum w l = gsum w' l'.
Proof. induction 1 as [|a b l l' H _ IH]; [done|]. cbn [gsum foldr]. fold (gsum w l) (gsum w' l'). lia. Qed.

Lemma gsum_ext {A} (w w' : A -> Z) l :
  (forall i a, l !! i = Some a -> w a = w' a) -> gsum w l = gsum w' l.
Proof.
  intros H. apply gsum_Forall2, Forall2_same_length_lookup. split; [done|].
  intros i a b Ha Hb. simplify_eq. by eapply H.
Qed.

Lemma gsum_add {A} (w w' : A -> Z) l : gsum (fun a => w a + w' a) l = gsum w l + gsum w' l.
Proof. induction l as [|a l IH]; [done|]. cbn [gsum foldr] in *. fold (gsum w l) (gsum w' l) in *. unfold gsum in *. lia. Qed.

Lemma gsum_zero {A} (w : A -> Z) l : (forall i a, l !! i = Some a -> w a = 0) -> gsum w l = 0.
Proof.
  intros H. induction l as [|a l IH]; [done|]. cbn [gsum foldr]. fold (gsum w l).
  rewrite (H 0%nat a eq_refl), IH; [done|]. intros i b. apply (H (S i)).
Qed.

Lemma gsum_zero_inv {A} (w : A -> Z) l :
  (forall i a, l !! i = Some a -> 0 <= w a) -> gsum w l = 0 -> forall i a, l !! i = Some a -> w a = 0.
Proof. intros H Hz i a Ha. pose proof (gsum_lookup w l i a H Ha). specialize (H i a Ha). lia. Qed.

Lemma lookup_repeat {A} (x y : A) n i : repeat x n !! i = Some y -> y = x.
Proof. intros H%list_elem_of_lookup_2. apply list_elem_of_In in H. by eapply repeat_spec. Qed.
#[global] Arguments gsum : simpl never.
