(* ===== verification/Text.v ===== *)
(** * Text: characters, separators, decimal numbers, search and order

    What the sources use of the C library on text that is not terminated by a
    zero byte (a pointer and a length, here the list of its bytes), and the
    decimal numbers that [snprintf] writes and the parsers read.  The
    comparisons of [strcmp] form a total order, by which tables are sorted
    ([qsort]) and searched ([bsearch]). *)

From Stdlib Require Export String.
From stdpp Require Export sorting.
From S2P Require Import Prelude.

#[global] Open Scope byte_scope.
#[global] Open Scope Z_scope.

(** A string literal as its bytes. *)
Definition txt (s : string) : list byte := list_byte_of_string s.

Definition NL : byte := x0a.

Definition in_range (lo hi c : byte) : bool := (b2z lo <=? b2z c) && (b2z c <=? b2z hi).
Definition is_digit (c : byte) : bool := in_range "0" "9" c.
Definition char_eq (c d : byte) : bool := b2z c =? b2z d.

(** [memchr]: the index of the first occurrence. *)
Fixpoint memchr (s : list byte) (c : byte) : option nat :=
  match s with
  | [] => None
  | b :: s' => if char_eq b c then Some O else S <$> memchr s' c
  end.

(** [memcmp (s, p, strlen p) == 0] on a text at least as long as [p]. *)
Definition starts (p s : list byte) : bool := bytes_eq (take (length p) s) p.

(** The pieces between the occurrences of a separator, at least one. *)
Fixpoint split_on (sep : byte) (s : list byte) : list (list byte) :=
  match s with
  | [] => [[]]
  | c :: s' =>
      if char_eq c sep then [] :: split_on sep s'
      else match split_on sep s' with
           | f :: fs => (c :: f) :: fs
           | [] => [[c]]
           end
  end.

Fixpoint join_with (sep : byte) (fs : list (list byte)) : list byte :=
  match fs with
  | [] => []
  | [f] => f
  | f :: fs' => f ++ sep :: join_with sep fs'
  end.

Lemma char_eq_spec c d : reflect (c = d) (char_eq c d).
Proof.
  unfold char_eq. destruct (Z.eqb_spec (b2z c) (b2z d)) as [H|H]; constructor.
  - by apply b2z_inj.
  - by intros ->.
Qed.

Lemma in_range_spec lo hi c : in_range lo hi c = true <-> b2z lo <= b2z c <= b2z hi.
Proof. unfold in_range. rewrite andb_true_iff, !Z.leb_le. done. Qed.

Lemma split_on_cons sep s : exists f fs, split_on sep s = f :: fs.
Proof.
  induction s as [|c s (f & fs & IH)]; cbn [split_on]; [eauto|].
  destruct (char_eq c sep); [eauto|]. rewrite IH. eauto.
Qed.

Lemma join_split sep s : join_with sep (split_on sep s) = s.
Proof.
  induction s as [|c s IH]; [done|]. cbn [split_on].
  destruct (split_on_cons sep s) as (f & fs & E). rewrite E in *.
  destruct (char_eq_spec c sep) as [->|Hne].
  - change (sep :: join_with sep (f :: fs) = sep :: s). by rewrite IH.
  - destruct fs as [|g fs]; cbn in *; by rewrite IH.
Qed.

Lemma split_on_free sep s : Forall (fun f => sep ∉ f) (split_on sep s).
Proof.
  induction s as [|c s IH]; cbn [split_on]; [repeat constructor; apply not_elem_of_nil|].
  destruct (char_eq_spec c sep) as [->|Hne].
  - constructor; [apply not_elem_of_nil|done].
  - destruct (split_on_cons sep s) as (f & fs & E). rewrite E in *.
    inversion IH as [|? ? Hf Hfs]. constructor; [|done]. rewrite not_elem_of_cons. split; [congruence|done].
Qed.

Lemma split_on_app sep f s : sep ∉ f -> split_on sep (f ++ sep :: s) = f :: split_on sep s.
Proof.
  induction f as [|c f IH]; cbn [app split_on]; intros Hf.
  - by destruct (char_eq_spec sep sep).
  - rewrite not_elem_of_cons in Hf. destruct (char_eq_spec c sep) as [->|]; [tauto|]. by rewrite IH by tauto.
Qed.

Lemma split_on_one sep f : sep ∉ f -> split_on sep f = [f].
Proof.
  induction f as [|c f IH]; cbn [split_on]; [done|]. rewrite not_elem_of_cons. intros Hf.
  destruct (char_eq_spec c sep) as [->|]; [tauto|]. by rewrite IH by tauto.
Qed.

Lemma split_join sep fs : fs <> [] -> Forall (fun f => sep ∉ f) fs -> split_on sep (join_with sep fs) = fs.
Proof.
  induction fs as [|f fs IH]; [done|]. intros _ H. inversion H as [|? ? Hf Hfs]; subst.
  destruct fs as [|g fs]; [by apply split_on_one|].
  change (join_with sep (f :: g :: fs)) with (f ++ sep :: join_with sep (g :: fs)).
  rewrite split_on_app by done. f_equal. by apply IH.
Qed.

Lemma join_nonempty sep f fs : f <> [] -> join_with sep (f :: fs) <> [].
Proof. destruct f as [|c f]; [done|]. by destruct fs. Qed.

(** Text before the first separator is determined. *)
Lemma split_at_sep sep (a a' r r' : list byte) :
  sep ∉ a -> sep ∉ a' -> a ++ sep :: r = a' ++ sep :: r' -> a = a' /\ r = r'.
Proof.
  revert a'. induction a as [|x a IH]; intros [|y a']; cbn; rewrite ?not_elem_of_cons; intros Ha Ha' Heq.
  - by injection Heq as ->.
  - injection Heq as Hx _. by destruct Ha'.
  - injection Heq as Hx _. destruct Ha. congruence.
  - injection Heq as -> Heq. destruct (IH a') as [-> ->]; tauto.
Qed.

Lemma memchr_Some s c i : memchr s c = Some i <-> exists r, s = take i s ++ c :: r /\ length (take i s) = i /\ (c ∉ take i s) /\ drop (S i) s = r.
Proof.
  revert i. induction s as [|b s IH]; intros i; cbn [memchr].
  { split; [done|]. rewrite take_nil. intros (r & H & _). done. }
  destruct (char_eq_spec b c) as [->|Hne].
  - split.
    + intros [= <-]. exists s. cbn. split_and!; [done..|apply not_elem_of_nil|by rewrite drop_0].
    + intros (r & _ & _ & Hn & _). destruct i as [|i]; [done|]. cbn in Hn. rewrite not_elem_of_cons in Hn. tauto.
  - rewrite fmap_Some. split.
    + intros (j & Hj & ->). apply IH in Hj as (r & H1 & H2 & H3 & H4). exists r. cbn.
      split_and!; [by rewrite <-H1|by rewrite H2| |done]. rewrite not_elem_of_cons. split; [congruence|done].
    + intros (r & H1 & H2 & H3 & H4). destruct i as [|i]; cbn in H1, H2, H3, H4; [congruence|].
      exists i. split; [|done]. apply IH. exists r. rewrite not_elem_of_cons in H3. split_and!; [congruence|congruence|tauto|done].
Qed.

Lemma memchr_app c a r : c ∉ a -> memchr (a ++ c :: r) c = Some (length a).
Proof.
  induction a as [|b a IH]; cbn [app memchr]; intros Ha.
  - by destruct (char_eq_spec c c).
  - rewrite not_elem_of_cons in Ha. destruct (char_eq_spec b c) as [->|]; [tauto|]. by rewrite IH by tauto.
Qed.

Lemma memchr_None s c : memchr s c = None <-> c ∉ s.
Proof.
  induction s as [|b s IH]; cbn [memchr]; [split; [intros; apply not_elem_of_nil|done]|].
  rewrite not_elem_of_cons. destruct (char_eq_spec b c) as [->|]; [split; [done|tauto]|].
  rewrite fmap_None, IH. split; [|tauto]. intros ?. split; [congruence|done].
Qed.

Lemma starts_spec p s : starts p s = true <-> exists r, s = p ++ r.
Proof.
  unfold starts, bytes_eq. rewrite bool_decide_eq_true. split.
  - intros H. exists (drop (length p) s). by rewrite <-H at 1; rewrite take_drop.
  - intros [r ->]. apply take_app_length.
Qed.

(** ** Decimal numbers *)

(** The digits of [n], most significant first, in front of [acc]. *)
Fixpoint digits (fuel : nat) (n : Z) (acc : list byte) : list byte :=
  match fuel with
  | O => acc
  | S f => let acc' := z2b (48 + n mod 10) :: acc in
           if n / 10 =? 0 then acc' else digits f (n / 10) acc'
  end.

(** A 64-bit number has at most twenty digits. *)
Definition show (n : Z) : list byte := digits 20 n [].

Definition undecimal (l : list byte) (from : Z) : Z := fold_left (fun a b => 10 * a + (b2z b - 48)) l from.

Lemma digit_byte n : b2z (z2b (48 + n mod 10)) = 48 + n mod 10.
Proof. pose proof (Z.mod_pos_bound n 10 ltac:(lia)). rewrite b2z_z2b. apply Z.mod_small. lia. Qed.

Lemma digits_value fuel n acc :
  0 <= n < 10 ^ Z.of_nat fuel -> (0 < fuel)%nat -> undecimal (digits fuel n acc) 0 = undecimal acc n.
Proof.
  revert n acc. induction fuel as [|fuel IH]; intros n acc Hn Hf; [lia|]. cbn [digits].
  pose proof (digit_byte n) as Hd.
  pose proof (Z.div_mod n 10 ltac:(lia)) as Hdm. pose proof (Z.mod_pos_bound n 10 ltac:(lia)) as Hm.
  destruct (Z.eqb_spec (n / 10) 0) as [Hz|Hz].
  - unfold undecimal. cbn [fold_left]. rewrite Hd. f_equal. lia.
  - assert (0 < n / 10) as Hpos by (pose proof (Z.div_pos n 10); lia).
    destruct fuel as [|fuel]; [change (10 ^ Z.of_nat 1) with 10 in Hn; rewrite Z.div_small in Hz; lia|].
    rewrite IH; [|split; [lia|apply Z.div_lt_upper_bound; [lia|]; rewrite Nat2Z.inj_succ, Z.pow_succ_r in Hn by lia; lia]|lia].
    unfold undecimal. cbn [fold_left]. rewrite Hd. f_equal. lia.
Qed.

Lemma digits_length fuel n acc : (length (digits fuel n acc) <= fuel + length acc)%nat.
Proof.
  revert n acc. induction fuel as [|fuel IH]; intros n acc; cbn [digits]; [lia|].
  destruct (n / 10 =? 0); [cbn; lia|]. specialize (IH (n / 10) (z2b (48 + n mod 10) :: acc)). cbn [length] in IH. lia.
Qed.

Lemma digits_are_digits fuel n acc :
  0 <= n -> Forall (fun c => is_digit c = true) acc -> Forall (fun c => is_digit c = true) (digits fuel n acc).
Proof.
  revert n acc. induction fuel as [|fuel IH]; intros n acc Hn Ha; cbn [digits]; [done|].
  assert (Forall (fun c => is_digit c = true) (z2b (48 + n mod 10) :: acc)).
  { constructor; [|done]. apply in_range_spec. rewrite digit_byte. pose proof (Z.mod_pos_bound n 10 ltac:(lia)).
    change (b2z "0") with 48. change (b2z "9") with 57. lia. }
  destruct (n / 10 =? 0); [done|]. apply IH; [by apply Z.div_pos|done].
Qed.

Lemma digits_acc fuel n acc : digits fuel n acc = digits fuel n [] ++ acc.
Proof.
  revert n acc. induction fuel as [|fuel IH]; intros n acc; cbn [digits]; [done|].
  destruct (n / 10 =? 0); [done|]. rewrite (IH _ [_]), (IH _ (_ :: acc)). by rewrite <-app_assoc.
Qed.

(** Decimal text without superfluous zeros. *)
Definition canonical (s : list byte) : Prop :=
  s <> [] /\ Forall (fun c => is_digit c = true) s /\ (head s = Some "0"%byte -> length s = 1%nat).

Lemma undecimal_snoc s c from : undecimal (s ++ [c]) from = 10 * undecimal s from + (b2z c - 48).
Proof. unfold undecimal. by rewrite fold_left_app. Qed.

Lemma undecimal_nonneg s : Forall (fun c => is_digit c = true) s -> forall from, 0 <= from -> from <= undecimal s from.
Proof.
  induction 1 as [|c s Hc _ IH]; intros from Hf; [cbn; lia|]. apply in_range_spec in Hc.
  change (b2z "0") with 48 in Hc. change (undecimal (c :: s) from) with (undecimal s (10 * from + (b2z c - 48))).
  specialize (IH (10 * from + (b2z c - 48))). lia.
Qed.

Lemma undecimal_bound s : Forall (fun c => is_digit c = true) s -> undecimal s 0 < 10 ^ Z.of_nat (length s).
Proof.
  induction s as [|c s IH] using rev_ind; intros Hs; [done|]. rewrite Forall_app in Hs. destruct Hs as [Hs Hc].
  inversion Hc as [|? ? Hd _]. apply in_range_spec in Hd. change (b2z "9") with 57 in Hd.
  rewrite undecimal_snoc, length_app. cbn [length]. rewrite Nat2Z.inj_add, Z.pow_add_r by lia.
  change (10 ^ Z.of_nat 1) with 10. specialize (IH Hs). lia.
Qed.

Lemma canonical_pos s : canonical s -> (1 < length s)%nat -> 0 < undecimal s 0.
Proof.
  intros (_ & Hd & H0) Hl. destruct s as [|c s]; [cbn in Hl; lia|]. inversion Hd as [|? ? Hc Hs]; subst.
  apply in_range_spec in Hc. change (b2z "0") with 48 in Hc.
  assert (b2z c <> 48) as Hn.
  { intros E. cbn in H0. specialize (H0 ltac:(f_equal; by apply b2z_inj)). cbn in Hl. lia. }
  change (undecimal (c :: s) 0) with (undecimal s (10 * 0 + (b2z c - 48))).
  pose proof (undecimal_nonneg s Hs (10 * 0 + (b2z c - 48))). lia.
Qed.

Lemma digits_undecimal fuel s :
  canonical s -> (length s <= fuel)%nat -> digits fuel (undecimal s 0) [] = s.
Proof.
  revert fuel. induction s as [|c s IH] using rev_ind; intros fuel Hs Hl; [by destruct Hs|].
  rewrite length_app in Hl. cbn [length] in Hl. destruct fuel as [|fuel]; [lia|].
  assert (canonical s \/ s = []) as Hs'.
  { destruct Hs as (_ & Hd & H0). rewrite Forall_app in Hd. destruct s as [|b s]; [by right|left].
    split; [done|]. split; [tauto|]. intros Hb. cbn in *. specialize (H0 Hb). rewrite length_app in H0. cbn in H0. lia. }
  assert (48 <= b2z c <= 57) as Hc.
  { destruct Hs as (_ & Hd & _). rewrite Forall_app in Hd. destruct Hd as [_ Hd]. inversion Hd as [|? ? H _].
    by apply in_range_spec in H. }
  rewrite undecimal_snoc. cbn [digits].
  assert (z2b (48 + (10 * undecimal s 0 + (b2z c - 48)) mod 10) = c) as Hmod.
  { rewrite Z.add_comm with (n := 10 * _), Z.mul_comm, Z.mod_add, Z.mod_small by lia. rewrite <-(z2b_b2z c) at 2. f_equal. lia. }
  assert ((10 * undecimal s 0 + (b2z c - 48)) / 10 = undecimal s 0) as Hdiv.
  { rewrite Z.mul_comm, Z.div_add_l, Z.div_small by lia. lia. }
  rewrite Hmod, Hdiv. destruct Hs' as [Hc'| ->]; [|done].
  destruct (Z.eqb_spec (undecimal s 0) 0) as [Hz|Hz].
  - destruct (decide (1 < length s)%nat) as [H1|H1]; [pose proof (canonical_pos s Hc' H1); lia|].
    destruct Hc' as (Hne & Hd & _). destruct s as [|b [|]]; cbn in H1; [done| |lia].
    exfalso. inversion Hd as [|? ? Hb _]; subst. apply in_range_spec in Hb. change (b2z "0") with 48 in Hb.
    cbn in Hz. destruct Hs as (_ & _ & H0). assert (b = "0"%byte) as -> by (apply b2z_inj; cbn; lia).
    specialize (H0 eq_refl). cbn in H0. lia.
  - rewrite digits_acc, IH; [done..|lia].
Qed.

Lemma digits_canonical fuel n : 0 <= n < 10 ^ Z.of_nat fuel -> (0 < fuel)%nat -> canonical (digits fuel n []).
Proof.
  revert n. induction fuel as [|fuel IH]; intros n Hn Hf; [lia|]. cbn [digits].
  pose proof (Z.div_mod n 10 ltac:(lia)) as Hdm. pose proof (Z.mod_pos_bound n 10 ltac:(lia)) as Hm.
  pose proof (digits_are_digits 1 n [] ltac:(lia) (Forall_nil_2 _)) as Hd. cbn [digits] in Hd.
  replace (if n / 10 =? 0 then [z2b (48 + n mod 10)] else [z2b (48 + n mod 10)]) with [z2b (48 + n mod 10)] in Hd
    by by destruct (_ =? _).
  destruct (Z.eqb_spec (n / 10) 0) as [Hz|Hz]; [split; [done|]; split; [done|]; done|].
  assert (0 < n / 10) as Hp by (pose proof (Z.div_pos n 10); lia).
  assert (n / 10 < 10 ^ Z.of_nat fuel) as Hb.
  { apply Z.div_lt_upper_bound; [lia|]. rewrite Nat2Z.inj_succ, Z.pow_succ_r in Hn by lia. lia. }
  destruct fuel as [|fuel]; [change (10 ^ Z.of_nat 0) with 1 in Hb; lia|].
  destruct (IH (n / 10) ltac:(lia) ltac:(lia)) as (H1 & H2 & H3). rewrite digits_acc.
  split; [intros H%app_eq_nil; by destruct H|]. split; [by apply Forall_app|].
  pose proof (digits_value (S fuel) (n / 10) [] ltac:(lia) ltac:(lia)) as Hv.
  destruct (digits (S fuel) (n / 10) []) as [|b s]; [done|]. cbn [head app length]. intros Hb0. exfalso.
  cbn [head length] in H3. specialize (H3 Hb0). injection Hb0 as ->. destruct s; cbn in *; [lia|done].
Qed.

Lemma show_spec s n : in_width 64 n -> s = show n <-> canonical s /\ (length s <= 20)%nat /\ undecimal s 0 = n.
Proof.
  intros Hn. unfold in_width in Hn. assert (0 <= n < 10 ^ Z.of_nat 20) as Hb by (change (10 ^ Z.of_nat 20) with (10 ^ 20); lia).
  split.
  - intros ->. split; [apply digits_canonical; [done|lia]|]. split; [pose proof (digits_length 20 n []); cbn in *; unfold show; lia|].
    unfold show. rewrite digits_value by (done || lia). done.
  - intros (Hc & Hl & <-). unfold show. by rewrite digits_undecimal.
Qed.

Lemma show_inj n m : in_width 64 n -> in_width 64 m -> show n = show m -> n = m.
Proof. intros Hn Hm E. apply show_spec in E as (_ & _ & E); [|done]. rewrite <-E. symmetry. by apply (show_spec (show n) n). Qed.

(** ** The order of [strcmp] *)

Lemma strcmp_trans a b c : strcmp a b <= 0 -> strcmp b c <= 0 -> strcmp a c <= 0.
Proof.
  revert b c. induction a as [|x a IH]; intros [|y b] [|z c]; cbn [strcmp]; intros H1 H2;
    repeat match goal with b : byte |- _ => lazymatch goal with H : 0 <= b2z b < 256 |- _ => fail | _ => pose proof (b2z_range b) end end;
    repeat match goal with
      | |- context [?u =? ?v] => destruct (Z.eqb_spec u v)
      | H : context [?u =? ?v] |- _ => destruct (Z.eqb_spec u v)
      end; first [lia | eauto].
Qed.

Lemma strcmp_lt_trans a b c : strcmp a b < 0 -> strcmp b c < 0 -> strcmp a c < 0.
Proof.
  intros H1 H2. pose proof (strcmp_trans a b c ltac:(lia) ltac:(lia)).
  destruct (Z.eq_dec (strcmp a c) 0) as [E|]; [|lia]. exfalso.
  rewrite strcmp_eq in E. rewrite strcmp_cstr, E, <-strcmp_cstr in H1.
  pose proof (strcmp_opp b c). lia.
Qed.

(** Records ordered by a text. *)
Definition by_key {A} (key : A -> list byte) (x y : A) : Prop := strcmp (key x) (key y) <= 0.
#[export] Instance by_key_dec {A} (key : A -> list byte) : RelDecision (by_key key).
Proof. intros x y. unfold by_key. apply _. Defined.
#[export] Instance by_key_trans {A} (key : A -> list byte) : Transitive (by_key key).
Proof. intros x y z. apply strcmp_trans. Qed.
#[export] Instance by_key_total {A} (key : A -> list byte) : Total (by_key key).
Proof. intros x y. unfold by_key. rewrite (strcmp_opp (key x)). lia. Qed.

Definition key_lt {A} (key : A -> list byte) (x y : A) : Prop := strcmp (key x) (key y) < 0.

(** Neighbours with equal keys: the check for duplicates after a sort. *)
Fixpoint adjacent_equal {A} (key : A -> list byte) (l : list A) : bool :=
  match l with
  | x :: ((y :: _) as l') => str_eq (key x) (key y) || adjacent_equal key l'
  | _ => false
  end.

Lemma adjacent_distinct {A} (key : A -> list byte) l :
  StronglySorted (by_key key) l -> adjacent_equal key l = false -> StronglySorted (key_lt key) l.
Proof.
  intros Hs Ha. apply Sorted_StronglySorted; [intros x y z; apply strcmp_lt_trans|].
  apply StronglySorted_Sorted in Hs. induction Hs as [|x l Hs IH Hd]; [constructor|].
  constructor.
  - apply IH. destruct l as [|y l]; [done|]. cbn [adjacent_equal] in Ha. by apply orb_false_iff in Ha as [_ ?].
  - inversion Hd as [|y l' Hy]; subst; [constructor|]. constructor. cbn [adjacent_equal] in Ha.
    apply orb_false_iff in Ha as [Ha _]. unfold str_eq in Ha. apply Z.eqb_neq in Ha. unfold by_key in Hy.
    unfold key_lt. lia.
Qed.

Lemma distinct_adjacent {A} (key : A -> list byte) l :
  NoDup ((cstr ∘ key) <$> l) -> adjacent_equal key l = false.
Proof.
  induction l as [|x [|y l] IH]; intros H; [done..|]. cbn [adjacent_equal].
  rewrite !fmap_cons in H. apply NoDup_cons in H as [Hx H]. apply orb_false_iff. split; [|by apply IH].
  apply not_true_iff_false. rewrite str_eq_spec. intros E. apply Hx, elem_of_cons. by left.
Qed.

Lemma key_lt_NoDup {A} (key : A -> list byte) l : StronglySorted (key_lt key) l -> NoDup ((cstr ∘ key) <$> l).
Proof.
  induction 1 as [|x l Hs IH Hx]; [constructor|]. rewrite fmap_cons. constructor; [|done].
  intros (y & Hy & Hin)%list_elem_of_fmap. rewrite Forall_forall in Hx. specialize (Hx y Hin). unfold key_lt in Hx.
  cbn in Hy. apply strcmp_eq in Hy. lia.
Qed.

(** ** [bsearch]

    [cmp x] is the comparison of the key searched for with the element [x]. *)

Fixpoint bsearch_loop {A} (fuel : nat) (cmp : A -> Z) (base : list A) (l u : nat) : option nat :=
  match fuel with
  | O => None
  | S f =>
      if (l <? u)%nat then
        let idx := Nat.div2 (l + u) in
        match base !! idx with
        | None => None
        | Some x => if cmp x <? 0 then bsearch_loop f cmp base l idx
                    else if 0 <? cmp x then bsearch_loop f cmp base (S idx) u
                    else Some idx
        end
      else None
  end.
Definition bsearch {A} (cmp : A -> Z) (base : list A) : option nat :=
  bsearch_loop (S (length base)) cmp base 0 (length base).

Lemma bsearch_loop_found {A} fuel (cmp : A -> Z) base l u i :
  bsearch_loop fuel cmp base l u = Some i -> exists x, base !! i = Some x /\ cmp x = 0.
Proof.
  revert l u. induction fuel as [|fuel IH]; intros l u; cbn [bsearch_loop]; [done|].
  destruct (_ <? _)%nat; [|done]. destruct (base !! Nat.div2 (l + u)) as [x|] eqn:Hx; [|done].
  destruct (Z.ltb_spec (cmp x) 0); [apply IH|]. destruct (Z.ltb_spec 0 (cmp x)); [apply IH|].
  intros [= <-]. exists x. split; [done|lia].
Qed.

Lemma bsearch_loop_finds {A} fuel (cmp : A -> Z) base l u k :
  (forall i x, base !! i = Some x -> (i < k)%nat -> 0 < cmp x) ->
  (forall i x, base !! i = Some x -> (k < i)%nat -> cmp x < 0) ->
  (forall x, base !! k = Some x -> cmp x = 0) ->
  (l <= k < u)%nat -> (u <= length base)%nat -> (u - l < fuel)%nat ->
  bsearch_loop fuel cmp base l u = Some k.
Proof.
  intros Hlt Hgt Heq. revert l u. induction fuel as [|fuel IH]; intros l u Hk Hu Hf; [lia|]. cbn [bsearch_loop].
  destruct (Nat.ltb_spec l u); [|lia].
  pose proof (Nat.div2_odd (l + u)) as Hodd.
  assert (l <= Nat.div2 (l + u) < u)%nat as Hm by (destruct (Nat.odd (l + u)); cbn in Hodd; lia).
  destruct (lookup_lt_is_Some_2 base (Nat.div2 (l + u)) ltac:(lia)) as [x Hx]. rewrite Hx.
  destruct (lt_eq_lt_dec (Nat.div2 (l + u)) k) as [[Hc|<-]|Hc].
  - specialize (Hlt _ _ Hx Hc). destruct (Z.ltb_spec (cmp x) 0); [lia|]. destruct (Z.ltb_spec 0 (cmp x)); [|lia].
    apply IH; lia.
  - rewrite (Heq _ Hx). done.
  - specialize (Hgt _ _ Hx Hc). destruct (Z.ltb_spec (cmp x) 0); [|lia]. apply IH; lia.
Qed.

Lemma StronglySorted_lookup {A} (R : A -> A -> Prop) l i j x y :
  StronglySorted R l -> l !! i = Some x -> l !! j = Some y -> (i < j)%nat -> R x y.
Proof.
  intros Hs. revert i j. induction Hs as [|a l Hs IH Ha]; intros i j Hi Hj Hij; [done|].
  destruct i as [|i], j as [|j]; cbn in *; [lia| |lia|].
  - simplify_eq. rewrite Forall_lookup in Ha. eauto.
  - eapply IH; [done..|lia].
Qed.

(** In a table sorted by key the search finds exactly the element with that
    key. *)
Lemma bsearch_sorted {A} (key : A -> list byte) (probe : list byte) base k :
  StronglySorted (key_lt key) base ->
  bsearch (fun x => strcmp probe (key x)) base = Some k <->
  exists x, base !! k = Some x /\ cstr probe = cstr (key x).
Proof.
  intros Hs. split.
  - intros (x & Hx & H)%bsearch_loop_found. exists x. by rewrite strcmp_eq in H.
  - intros (x & Hx & E). apply strcmp_eq in E. apply bsearch_loop_finds.
    + intros i y Hy Hi. pose proof (StronglySorted_lookup _ _ i k y x Hs Hy Hx Hi) as Hyx. unfold key_lt in Hyx.
      rewrite strcmp_eq in E. rewrite strcmp_cstr, E, <-strcmp_cstr, strcmp_opp. lia.
    + intros i y Hy Hi. pose proof (StronglySorted_lookup _ _ k i x y Hs Hx Hy Hi) as Hyx. unfold key_lt in Hyx.
      rewrite strcmp_eq in E. rewrite strcmp_cstr, E, <-strcmp_cstr. lia.
    + intros y Hy. congruence.
    + apply lookup_lt_Some in Hx. lia.
    + lia.
    + lia.
Qed.

Lemma bsearch_sorted_None {A} (key : A -> list byte) (probe : list byte) base :
  StronglySorted (key_lt key) base ->
  bsearch (fun x => strcmp probe (key x)) base = None <-> forall x, x ∈ base -> cstr probe <> cstr (key x).
Proof.
  intros Hs. split.
  - intros HN x (k & Hk)%list_elem_of_lookup E. assert (bsearch (fun x => strcmp probe (key x)) base = Some k) as H.
    { apply bsearch_sorted; eauto. }
    congruence.
  - intros HN. destruct (bsearch _ _) as [k|] eqn:E; [|done]. apply bsearch_sorted in E as (x & Hx & E); [|done].
    exfalso. eapply HN; [by eapply list_elem_of_lookup_2|done].
Qed.
