(* ===== verification/Cursor.v ===== *)
(** * The bounded byte cursor of [doca/peer_security_wire.c]

    [struct cursor] is used in two ways.  A writing cursor appends to a caller
    buffer of a fixed capacity; it is modelled by the bytes written so far and
    the room left.  A reading cursor consumes a received buffer; it is modelled
    by the memory from [c->p] on and the count of readable bytes [c->left].
    Both latch [bad] on the first access that does not fit.

    The second half states what a field codec is: a byte format, a writer that
    emits it, and a reader that accepts exactly it. *)

From S2P Require Import Prelude.

Record wcursor := WCursor { w_out : list byte; w_left : nat; w_bad : bool }.
#[export] Instance eta_wcursor : Eta wcursor :=
  fun c => WCursor (w_out c) (w_left c) (w_bad c).

Record rcursor := RCursor { r_mem : list byte; r_left : nat; r_bad : bool }.
#[export] Instance eta_rcursor : Eta rcursor :=
  fun c => RCursor (r_mem c) (r_left c) (r_bad c).

(** A writer updates the cursor; a reader also returns what it stored. *)
Definition writer := wcursor -> wcursor.
Definition rd (A : Type) := rcursor -> A * rcursor.

Declare Scope cursor_scope.
Delimit Scope cursor_scope with cursor.
Open Scope cursor_scope.
(** Statement sequencing on one cursor. *)
Definition w_seq (w1 w2 : writer) : writer := fun c => w2 (w1 c).
Notation "w1 &> w2" := (w_seq w1 w2)
  (at level 61, left associativity) : cursor_scope.
#[export] Instance rd_ret : MRet rd := fun A a c => (a, c).
#[export] Instance rd_bind : MBind rd :=
  fun A B f m c => let '(a, c') := m c in f a c'.

(** ** The primitive accesses *)

Definition put (bs : list byte) : writer := fun c =>
  if w_bad c || (w_left c <? length bs)%nat then c <| w_bad := true |>
  else WCursor (w_out c ++ bs) (w_left c - length bs) false.

(** [get c p n]: the destination keeps its zero initialisation when the cursor
    is (or becomes) bad. *)
Definition get (n : nat) : rd (list byte) := fun c =>
  if r_bad c || (r_left c <? n)%nat then (repeat x00 n, c <| r_bad := true |>)
  else (take n (r_mem c), RCursor (drop n (r_mem c)) (r_left c - n) false).

Definition number (n : Z) (width : nat) : writer := put (be_bytes width n).
Definition take_number (width : nat) : rd Z := fun c =>
  let '(b, c') := get width c in (be_num b, c').

(** [c->bad = 1] *)
Definition r_fail : rcursor -> rcursor := fun c => c <| r_bad := true |>.

(** ** Text fields: NUL-terminated printable names in fixed arrays *)

Definition graphic (b : byte) : bool := (0x21 <=? b2z b) && (b2z b <=? 0x7e).

Fixpoint string_len_from (n left : nat) (s : list byte) {struct s} : nat :=
  match s, left with
  | b :: s', S left' =>
      if b2z b =? 0 then n
      else if negb (graphic b) then 0%nat
      else string_len_from (S n) left' s'
  | _, _ => 0%nat
  end.
Definition string_len (s : list byte) (cap : nat) : nat := string_len_from 0 cap s.

Definition string_put (s : list byte) (cap : nat) : writer := fun c =>
  let n := string_len s cap in
  if (n =? 0)%nat then c <| w_bad := true |>
  else (number (Z.of_nat n) 2 &> put (take n s)) c.

(** Reads into a zeroed array of [cap] bytes. *)
Definition string_get (cap : nat) : rd (list byte) := fun c =>
  let '(n, c1) := take_number 2 c in
  let n := Z.to_nat n in
  if (n =? 0)%nat || (cap <=? n)%nat || (r_left c1 <? n)%nat
  then (repeat x00 cap, r_fail c1)
  else
    let '(bs, c2) := get n c1 in
    let s := bs ++ repeat x00 (cap - n) in
    (s, if (string_len s cap =? n)%nat then c2 else r_fail c2).

(** ** What writers emit *)

Definition writes (w : writer) (bs : list byte) : Prop := forall c,
  (w_bad c = true -> w_bad (w c) = true) /\
  (w_bad c = false -> (length bs <= w_left c)%nat ->
     w c = WCursor (w_out c ++ bs) (w_left c - length bs) false) /\
  (w_bad c = false -> (w_left c < length bs)%nat -> w_bad (w c) = true).

Lemma writes_put bs : writes (put bs) bs.
Proof.
  intros [o l []]; split_and!; intros; try done; unfold put; cbn in *.
  - by rewrite (proj2 (Nat.ltb_ge _ _)).
  - by rewrite (proj2 (Nat.ltb_lt _ _)).
Qed.

Lemma writes_number n w : writes (number n w) (be_bytes w n).
Proof. apply writes_put. Qed.

Lemma writes_seq w1 w2 b1 b2 :
  writes w1 b1 -> writes w2 b2 -> writes (w1 &> w2) (b1 ++ b2).
Proof.
  intros H1 H2 c. unfold w_seq. destruct (H1 c) as (B1 & F1 & O1). rewrite length_app.
  split_and!; intros Hb.
  - destruct (H2 (w1 c)) as (B2 & _ & _). auto.
  - intros Hl. rewrite F1 by (done || lia).
    destruct (H2 (WCursor (w_out c ++ b1) (w_left c - length b1) false)) as (_ & F2 & _).
    cbn in F2. rewrite F2 by (done || lia). by rewrite app_assoc, Nat.sub_add_distr.
  - intros Hl. destruct (decide (w_left c < length b1)%nat) as [Hlt|Hge].
    + destruct (H2 (w1 c)) as (B2 & _ & _). auto.
    + rewrite F1 by (done || lia).
      apply (H2 (WCursor (w_out c ++ b1) (w_left c - length b1) false)); cbn; lia || done.
Qed.

Lemma writes_nil : writes (fun c => c) [].
Proof. intros [o l []]; split_and!; cbn; intros; try done; try lia. by rewrite app_nil_r, Nat.sub_0_r. Qed.

(** Running a writer into an empty buffer of capacity [cap]. *)
Definition run_writer (w : writer) (cap : nat) : option (list byte) :=
  let c := w (WCursor [] cap false) in if w_bad c then None else Some (w_out c).

Lemma run_writer_fmt w bs cap :
  writes w bs ->
  run_writer w cap = if (length bs <=? cap)%nat then Some bs else None.
Proof.
  intros H. destruct (H (WCursor [] cap false)) as (_ & F & O). unfold run_writer.
  destruct (Nat.leb_spec (length bs) cap).
  - by rewrite F.
  - by rewrite O.
Qed.

(** ** What readers accept *)

Definition reads {A} (m : rd A) (bs : list byte) (a : A) : Prop := forall rest k,
  m (RCursor (bs ++ rest) (length bs + k) false) = (a, RCursor rest k false).

(** [accepts m P]: a fault is never cleared, and whenever [m] ends without one
    it consumed, inside the readable bytes, some [bs] related by [P] to its
    result. *)
Definition accepts {A} (m : rd A) (P : A -> list byte -> Prop) : Prop := forall c,
  let '(a, c') := m c in
  (r_bad c = true -> r_bad c' = true) /\
  ((r_left c <= length (r_mem c))%nat -> r_bad c' = false ->
   exists bs, P a bs /\ r_mem c = bs ++ r_mem c' /\ r_left c = (length bs + r_left c')%nat).

Lemma reads_ret {A} (a : A) : reads (mret a) [] a.
Proof. done. Qed.

Lemma reads_bind {A B} (m : rd A) (f : A -> rd B) b1 b2 a b :
  reads m b1 a -> reads (f a) b2 b -> reads (m ≫= f) (b1 ++ b2) b.
Proof.
  intros H1 H2 rest k. unfold mbind, rd_bind.
  rewrite <-app_assoc, length_app, <-Nat.add_assoc, H1. apply H2.
Qed.

Lemma reads_get bs n : length bs = n -> reads (get n) bs bs.
Proof.
  intros <- rest k. unfold get. cbn.
  rewrite (proj2 (Nat.ltb_ge _ _)) by lia.
  rewrite take_app_length, drop_app_length. do 3 f_equal. lia.
Qed.

Lemma reads_number n w :
  (w <= 8)%nat -> in_width (8 * Z.of_nat w) n -> reads (take_number w) (be_bytes w n) n.
Proof.
  intros Hw Hn rest k. unfold take_number.
  pose proof (reads_get (be_bytes w n) w (length_be_bytes w n) rest k) as E.
  rewrite E. by rewrite be_num_be_bytes_small.
Qed.

Lemma accepts_ret {A} (a : A) : accepts (mret a) (fun b bs => b = a /\ bs = []).
Proof. intros [mem l bad]. cbn. split; [done|]. intros _ _. by exists []. Qed.

Lemma accepts_bind {A B} (m : rd A) (f : A -> rd B) P Q :
  accepts m P -> (forall a, accepts (f a) (Q a)) ->
  accepts (m ≫= f)
    (fun b bs => exists a b1 b2, P a b1 /\ Q a b b2 /\ bs = b1 ++ b2).
Proof.
  intros H1 H2 c. unfold mbind, rd_bind. specialize (H1 c).
  destruct (m c) as [a c1] eqn:E1. specialize (H2 a c1).
  destruct (f a c1) as [b c2] eqn:E2. destruct H1 as [L1 A1], H2 as [L2 A2].
  split; [auto|]. intros Hl Hb.
  assert (r_bad c1 = false) as Hb1.
  { destruct (r_bad c1); [|done]. by rewrite L2 in Hb. }
  destruct (A1 Hl Hb1) as (b1 & HP & Hm1 & Hl1).
  assert (r_left c1 <= length (r_mem c1))%nat as Hl'.
  { rewrite Hm1, length_app in Hl. lia. }
  destruct (A2 Hl' Hb) as (b2 & HQ & Hm2 & Hl2).
  exists (b1 ++ b2). split_and!; [by exists a, b1, b2|..].
  - by rewrite Hm1, Hm2, app_assoc.
  - rewrite length_app. lia.
Qed.

Lemma accepts_weaken {A} (m : rd A) (P Q : A -> list byte -> Prop) :
  accepts m P -> (forall a bs, P a bs -> Q a bs) -> accepts m Q.
Proof.
  intros H HPQ c. specialize (H c). destruct (m c) as [a c'].
  destruct H as [L H]. split; [done|]. intros Hl Hb.
  destruct (H Hl Hb) as (bs & HP & ?). exists bs. auto.
Qed.

Lemma accepts_get n : accepts (get n) (fun a bs => a = bs /\ length bs = n).
Proof.
  intros [mem l bad]. unfold get. cbn.
  destruct bad; cbn; [done|]. destruct (Nat.ltb_spec l n); cbn; [done|].
  split; [done|]. intros Hl _. exists (take n mem).
  rewrite take_drop, length_take. split_and!; [done|lia|done|lia].
Qed.

Lemma accepts_number w :
  (w <= 8)%nat ->
  accepts (take_number w)
    (fun n bs => in_width (8 * Z.of_nat w) n /\ bs = be_bytes w n).
Proof.
  intros Hw c. unfold take_number. pose proof (accepts_get w c) as H.
  destruct (get w c) as [b c']. destruct H as [L H]. split; [done|].
  intros Hl Hb. destruct (H Hl Hb) as (bs & (<- & Hn) & Hm & Hlen).
  exists b. split_and!; [|..|done|done].
  - by apply be_num_width.
  - rewrite <-Hn. symmetry. apply be_bytes_be_num. lia.
Qed.

(** ** Names *)

Lemma string_len_from_app k left t rest :
  forallb graphic t = true -> (length t < left)%nat ->
  string_len_from k left (t ++ x00 :: rest) = (k + length t)%nat.
Proof.
  revert k left. induction t as [|b t IH]; intros k [|left] Ht Hl; cbn in *; try lia.
  apply andb_prop in Ht as [Hb Ht]. rewrite Hb. cbn.
  assert ((b2z b =? 0) = false) as ->.
  { unfold graphic in Hb. lia. }
  rewrite IH by (done || lia). lia.
Qed.

Lemma string_len_from_inv k left s m :
  string_len_from k left s = m -> m <> 0%nat ->
  exists t rest, s = t ++ x00 :: rest /\ forallb graphic t = true /\
    m = (k + length t)%nat /\ (length t < left)%nat.
Proof.
  revert k s. induction left as [|left IH]; intros k [|b s] Hm Hnz; cbn in Hm; try congruence.
  destruct (b2z b =? 0) eqn:Hb.
  - exists [], s. apply Z.eqb_eq in Hb. replace b with x00 by (apply b2z_inj; by rewrite Hb).
    split_and!; cbn; lia || done.
  - destruct (graphic b) eqn:Hg; cbn in Hm; [|congruence].
    destruct (IH _ _ Hm Hnz) as (t & rest & -> & Ht & -> & Hl).
    exists (b :: t), rest. cbn. rewrite Hg. split_and!; done || lia.
Qed.

Lemma string_len_app t rest cap :
  forallb graphic t = true -> (length t < cap)%nat ->
  string_len (t ++ x00 :: rest) cap = length t.
Proof. intros. unfold string_len. by rewrite string_len_from_app. Qed.

Lemma string_len_inv s cap :
  string_len s cap <> 0%nat ->
  exists t rest, s = t ++ x00 :: rest /\ forallb graphic t = true /\
    string_len s cap = length t /\ (length t < cap)%nat.
Proof.
  intros H. destruct (string_len_from_inv 0 cap s _ eq_refl H) as (t & rest & E & ? & ? & ?).
  exists t, rest. split_and!; try done.
Qed.

(** The array holds its name followed by NULs only, as every array the module
    fills does (it is zeroed before the name is stored). *)
Definition padded (cap : nat) (s : list byte) : Prop :=
  s = take (string_len s cap) s ++ repeat x00 (cap - string_len s cap).
Definition name_ok (cap : nat) (s : list byte) : Prop :=
  string_len s cap <> 0%nat /\ padded cap s.
Definition name_fmt (cap : nat) (s : list byte) : list byte :=
  be_bytes 2 (Z.of_nat (string_len s cap)) ++ take (string_len s cap) s.

Lemma writes_string cap s :
  string_len s cap <> 0%nat -> writes (string_put s cap) (name_fmt cap s).
Proof.
  intros H. unfold string_put, name_fmt.
  pose proof (writes_seq _ _ _ _ (writes_number (Z.of_nat (string_len s cap)) 2)
                (writes_put (take (string_len s cap) s))) as W.
  intros c. rewrite (proj2 (Nat.eqb_neq _ _) H). apply W.
Qed.

Lemma padded_app cap t :
  forallb graphic t = true -> (0 < length t < cap)%nat ->
  name_ok cap (t ++ repeat x00 (cap - length t)) /\
  string_len (t ++ repeat x00 (cap - length t)) cap = length t.
Proof.
  intros Ht Hl.
  assert (string_len (t ++ repeat x00 (cap - length t)) cap = length t) as E.
  { destruct (cap - length t)%nat as [|z] eqn:?; [lia|]. apply string_len_app; [done|lia]. }
  unfold name_ok, padded. rewrite E, take_app_length. split_and!; try done. lia.
Qed.

Lemma name_ok_inv cap s :
  name_ok cap s ->
  exists t, s = t ++ repeat x00 (cap - length t) /\ forallb graphic t = true /\
    string_len s cap = length t /\ (0 < length t < cap)%nat.
Proof.
  intros [H P]. destruct (string_len_inv s cap H) as (t & rest & E & Ht & Hn & Hl).
  exists t. unfold padded in P. rewrite Hn in P, H. split_and!; try done; try lia.
  rewrite E, take_app_length in P. by rewrite E.
Qed.

Lemma name_ok_length cap s : name_ok cap s -> length s = cap.
Proof.
  intros (t & -> & _ & _ & ?)%name_ok_inv. rewrite length_app, repeat_length. lia.
Qed.

Lemma reads_string cap s :
  Z.of_nat cap <= 65536 -> name_ok cap s -> reads (string_get cap) (name_fmt cap s) s.
Proof.
  intros Hcap Hok rest k.
  destruct (name_ok_inv cap s Hok) as (t & Es & Ht & Hn & Hl).
  unfold name_fmt, string_get. rewrite Hn.
  assert (take (length t) s = t) as Etake by (rewrite Es; apply take_app_length).
  rewrite Etake, length_app, <-app_assoc, <-Nat.add_assoc.
  rewrite (reads_number (Z.of_nat (length t)) 2) by (unfold in_width; lia).
  rewrite Nat2Z.id. cbn [r_left].
  rewrite (proj2 (Nat.eqb_neq _ 0)), (proj2 (Nat.leb_gt cap _)), (proj2 (Nat.ltb_ge _ _)) by lia.
  cbn [orb]. rewrite (reads_get t) by done.
  by rewrite <-Es, Hn, Nat.eqb_refl.
Qed.

Lemma accepts_string cap :
  Z.of_nat cap <= 65536 ->
  accepts (string_get cap) (fun s bs => name_ok cap s /\ bs = name_fmt cap s).
Proof.
  intros Hcap c. unfold string_get.
  pose proof (accepts_number 2 ltac:(lia) c) as H1.
  destruct (take_number 2 c) as [n c1]. destruct H1 as [L1 A1].
  destruct (_ || _ || _) eqn:G; [done|].
  apply orb_false_elim in G as [[G1%Nat.eqb_neq G2%Nat.leb_gt]%orb_false_elim G3%Nat.ltb_ge].
  pose proof (accepts_get (Z.to_nat n) c1) as H2.
  destruct (get (Z.to_nat n) c1) as [bs c2]. destruct H2 as [L2 A2].
  destruct (Nat.eqb_spec (string_len (bs ++ repeat x00 (cap - Z.to_nat n)) cap) (Z.to_nat n))
    as [En|]; [|done]. split; [auto|]. intros Hl Hb.
  assert (r_bad c1 = false) as Hb1.
  { destruct (r_bad c1); [|done]. by rewrite L2 in Hb. }
  destruct (A1 Hl Hb1) as (bs1 & (Hw & ->) & Hm1 & Hl1).
  assert (r_left c1 <= length (r_mem c1))%nat as Hl'.
  { rewrite Hm1, length_app in Hl. lia. }
  destruct (A2 Hl' Hb) as (bs2 & (<- & Hbs) & Hm2 & Hl2).
  assert (take (Z.to_nat n) (bs ++ repeat x00 (cap - Z.to_nat n)) = bs) as Et.
  { rewrite <-Hbs. apply take_app_length. }
  exists (be_bytes 2 n ++ bs). split_and!.
  - split; [lia|]. unfold padded. by rewrite En, Et.
  - unfold name_fmt. rewrite En, Et, Z2Nat.id by (unfold in_width in Hw; lia). done.
  - by rewrite Hm1, Hm2, app_assoc.
  - rewrite length_app. lia.
Qed.

(** From here on names are reasoned about through the lemmas above. *)
#[global] Opaque string_len be_bytes be_num.
#[global] Arguments be_bytes : simpl never.
#[global] Arguments name_fmt : simpl never.

(** ** Loops over table entries *)

(** [for (i = 0; i < count; i++) w(entry[i])] *)
Definition w_each {A} (w : A -> writer) (l : list A) : writer :=
  fun c => fold_left (fun c a => w a c) l c.

Fixpoint r_times {A} (n : nat) (m : rd A) : rd (list A) :=
  match n with
  | O => mret []
  | S n => a ← m; l ← r_times n m; mret (a :: l)
  end.

Lemma writes_each {A} (w : A -> writer) (fmt : A -> list byte) l :
  (forall a, a ∈ l -> writes (w a) (fmt a)) -> writes (w_each w l) (concat (fmt <$> l)).
Proof.
  induction l as [|a l IH]; intros H; [apply writes_nil|].
  apply (writes_seq (w a) (w_each w l)); [apply H; set_solver|].
  apply IH. intros. apply H. set_solver.
Qed.

Lemma reads_times {A} (m : rd A) (fmt : A -> list byte) l :
  (forall a, a ∈ l -> reads m (fmt a) a) ->
  reads (r_times (length l) m) (concat (fmt <$> l)) l.
Proof.
  induction l as [|a l IH]; intros H; [apply reads_ret|].
  cbn. eapply reads_bind; [apply H; set_solver|].
  rewrite <-(app_nil_r (concat _)). eapply reads_bind; [|apply reads_ret].
  apply IH. intros. apply H. set_solver.
Qed.

Lemma accepts_times {A} (m : rd A) (ok : A -> Prop) (fmt : A -> list byte) n :
  accepts m (fun a bs => ok a /\ bs = fmt a) ->
  accepts (r_times n m)
    (fun l bs => (length l = n /\ Forall ok l) /\ bs = concat (fmt <$> l)).
Proof.
  intros Hm. induction n as [|n IH]; cbn.
  - eapply accepts_weaken; [apply accepts_ret|]. by intros ? ? [-> ->].
  - eapply accepts_weaken.
    + eapply accepts_bind; [done|]. intros a. eapply accepts_bind; [done|].
      intros l. apply accepts_ret.
    + intros l bs (a & b1 & b2 & [Ha ->] & (l' & b3 & b4 & [[Hl Hok] ->] & [-> ->] & ->) & ->).
      cbn. rewrite app_nil_r. split_and!; auto.
Qed.

Lemma reads_bind_ret {A B} (m : rd A) (g : A -> B) bs a :
  reads m bs a -> reads (m ≫= fun a => mret (g a)) bs (g a).
Proof. intros H rest k. unfold mbind, rd_bind. by rewrite H. Qed.

(** [c.bad || c.left] after the last field. *)
Definition unfinished (c : rcursor) : bool := r_bad c || negb (r_left c =? 0)%nat.

Lemma accepts_rest {A} (m : rd A) P c a c' :
  accepts m P -> m c = (a, c') -> r_left c = length (r_mem c) ->
  unfinished c' = false -> P a (r_mem c).
Proof.
  intros H E Hc [Hb Hl]%orb_false_elim. specialize (H c).
  rewrite E in H. destruct H as [_ H].
  destruct (H ltac:(lia) Hb) as (bs & HP & Hm & Hlen).
  apply negb_false_iff, Nat.eqb_eq in Hl. rewrite Hl, Nat.add_0_r in Hlen.
  rewrite Hc, Hm, length_app in Hlen. destruct (r_mem c'); cbn in Hlen; [|lia].
  by rewrite Hm, app_nil_r.
Qed.

Lemma accepts_all {A} (m : rd A) P buf a c :
  accepts m P -> m (RCursor buf (length buf) false) = (a, c) ->
  unfinished c = false -> P a buf.
Proof. intros H E. by apply (accepts_rest m P (RCursor buf (length buf) false)). Qed.

(** A decoder that stops between two groups of fields: what the first group
    took, and that the second starts on exactly what is left. *)
Lemma accepts_split {A} (m : rd A) P buf a c :
  accepts m P -> m (RCursor buf (length buf) false) = (a, c) -> r_bad c = false ->
  exists bs, P a bs /\ buf = bs ++ r_mem c /\ r_left c = length (r_mem c).
Proof.
  intros H E Hb. specialize (H (RCursor buf (length buf) false)). rewrite E in H.
  destruct H as [_ H]. destruct (H ltac:(cbn; lia) Hb) as (bs & HP & Hm & Hlen).
  cbn in Hm, Hlen. exists bs. split_and!; [done..|]. rewrite Hm, length_app in Hlen. lia.
Qed.

Lemma reads_all {A} (m : rd A) buf a :
  reads m buf a -> m (RCursor buf (length buf) false) = (a, RCursor [] 0 false).
Proof.
  intros H. specialize (H [] 0%nat). by rewrite app_nil_r, Nat.add_0_r in H.
Qed.

(** A reader of a fixed number of bytes never faults when they are there. *)
Definition sized {A} (m : rd A) (n : nat) : Prop := forall c,
  r_bad c = false -> (n <= r_left c)%nat ->
  r_bad (m c).2 = false /\ r_left (m c).2 = (r_left c - n)%nat.

Lemma sized_ret {A} (a : A) : sized (mret a) 0.
Proof. intros c Hb Hl. cbn. split; [done|lia]. Qed.

Lemma sized_get n : sized (get n) n.
Proof.
  intros c Hb Hl. unfold get. rewrite Hb. by rewrite (proj2 (Nat.ltb_ge _ _)).
Qed.

Lemma sized_number w : sized (take_number w) w.
Proof.
  intros c Hb Hl. unfold take_number. destruct (sized_get w c Hb Hl) as [? ?].
  by destruct (get w c).
Qed.

Lemma sized_bind {A B} (m : rd A) (f : A -> rd B) n1 n2 :
  sized m n1 -> (forall a, sized (f a) n2) -> sized (m ≫= f) (n1 + n2).
Proof.
  intros H1 H2 c Hb Hl. unfold mbind, rd_bind. specialize (H1 c Hb ltac:(lia)).
  destruct (m c) as [a c1]. cbn in H1. destruct H1 as [Hb1 Hl1].
  destruct (H2 a c1 Hb1 ltac:(lia)) as [-> ->]. split; [done|lia].
Qed.

(** A reader does not look past the readable bytes. *)
Definition framed {A} (m : rd A) : Prop := forall mem rest k bad,
  (k <= length mem)%nat ->
  let '(a, c) := m (RCursor mem k bad) in
  m (RCursor (mem ++ rest) k bad) = (a, RCursor (r_mem c ++ rest) (r_left c) (r_bad c)) /\
  (r_left c <= length (r_mem c))%nat.

Lemma framed_ret {A} (a : A) : framed (mret a).
Proof. by intros mem rest k bad Hk. Qed.

Lemma framed_get n : framed (get n).
Proof.
  intros mem rest k bad Hk. unfold get. cbn. destruct bad; [done|]. cbn.
  destruct (Nat.ltb_spec k n); [done|]. cbn.
  rewrite take_app_le, drop_app_le, length_drop by lia. split; [done|lia].
Qed.

Lemma framed_number w : framed (take_number w).
Proof.
  intros mem rest k bad Hk. unfold take_number. pose proof (framed_get w mem rest k bad Hk) as H.
  destruct (get w (RCursor mem k bad)) as [b c]. destruct H as [-> H]. done.
Qed.

Lemma framed_bind {A B} (m : rd A) (f : A -> rd B) :
  framed m -> (forall a, framed (f a)) -> framed (m ≫= f).
Proof.
  intros H1 H2 mem rest k bad Hk. unfold mbind, rd_bind.
  pose proof (H1 mem rest k bad Hk) as H. destruct (m (RCursor mem k bad)) as [a [mem' k' bad']].
  destruct H as [-> H]. by apply H2.
Qed.

Create HintDb wire discriminated.
#[export] Hint Constants Opaque : wire.
#[global] Opaque put get number take_number string_put string_get.
#[export] Hint Resolve sized_ret sized_get sized_number sized_bind : wire.
#[export] Hint Resolve framed_ret framed_get framed_number framed_bind : wire.
#[export] Hint Resolve writes_put writes_number writes_string reads_ret : wire.
#[export] Hint Extern 1 (_ <= _)%nat => lia : wire.
#[export] Hint Extern 1 (_ <= _)%Z => solve [lia | vm_compute; congruence] : wire.
#[export] Hint Resolve accepts_get accepts_number accepts_string accepts_ret : wire.

Lemma writes_eq w bs bs' : writes w bs -> bs = bs' -> writes w bs'.
Proof. by intros ? <-. Qed.
Lemma reads_eq {A} (m : rd A) bs bs' a : reads m bs a -> bs = bs' -> reads m bs' a.
Proof. by intros ? <-. Qed.

Lemma reads_val {A} (m : rd A) bs a b : reads m bs a -> a = b -> reads m bs b.
Proof. by intros ? <-. Qed.

(** [fmt_solve] compares two concatenations of fields. *)
Ltac fmt_solve := rewrite <-?app_assoc, ?app_nil_r; reflexivity.
(** [writes_tac] shows that a statement sequence emits its format. *)
Ltac writes_go :=
  lazymatch goal with
  | |- writes (_ &> _) _ => eapply writes_seq; [writes_go|writes_go]
  | |- _ => solve [eauto with wire]
  end.
Ltac writes_tac := eapply writes_eq; [writes_go|fmt_solve].
(** [reads_tac] runs a decoder over its format. *)
Ltac reads_field :=
  first
    [ apply reads_get; first [assumption | reflexivity]
    | apply reads_number; [lia | first [assumption | solve [split; vm_compute; congruence] | unfold in_width; lia]]
    | apply reads_string; [first [lia | solve [vm_compute; congruence]] | assumption]
    | eassumption ].
Ltac reads_tac :=
  cbn beta;
  lazymatch goal with
  | |- reads (_ ≫= (fun _ => mret _)) _ _ => eapply reads_bind_ret; reads_field
  | |- reads (_ ≫= _) _ _ => eapply reads_bind; [reads_field | reads_tac]
  | |- reads (mret _) _ _ => apply reads_ret
  end.
(** [accepts_tac] collects what each read of a decoder consumed. *)
Ltac accepts_go :=
  lazymatch goal with
  | |- accepts (mret _) _ => apply accepts_ret
  | |- accepts (_ ≫= _) _ => eapply accepts_bind; [solve [eauto with wire]|intros ?; accepts_go]
  end.
Ltac accepts_tac :=
  eapply accepts_weaken;
  [accepts_go
  |let H := fresh in intros ? ? H; cbn beta in H;
   repeat match goal with
     | H : exists _, _ |- _ => destruct H as [? H]
     | H : _ /\ _ |- _ => destruct H as [? H]
     end; subst; cbn beta iota].

(** ** Fixed arrays used as queues

    The control owner keeps completions ([pending] of [peer_crypto_ipc.c]) and
    outgoing frames ([queue] of [peer_control.c]) in fixed arrays with a head
    and a count, written at [(head + count) % N] and read at [head].  This file
    models that shape once and shows that it is a queue. *)

Record fifo (A : Type) := Fifo { ff_slots : list (option A); ff_head : nat; ff_count : nat }.
#[global] Arguments Fifo {A} _ _ _.
#[global] Arguments ff_slots {A} _.
#[global] Arguments ff_head {A} _.
#[global] Arguments ff_count {A} _.

Section fifo.
  Context {A : Type}.
  Implicit Types (f : fifo A) (a : A).

(** A zeroed array; an entry that was never written holds no value. *)
Definition fifo_new (cap : nat) : fifo A := Fifo (repeat None cap) 0 0.
Definition fifo_push (cap : nat) a f : fifo A :=
  Fifo (<[((ff_head f + ff_count f) mod cap)%nat := Some a]> (ff_slots f)) (ff_head f) (S (ff_count f)).
Definition fifo_first f : option A := mjoin (ff_slots f !! ff_head f).
Definition fifo_pop (cap : nat) f : fifo A :=
  Fifo (ff_slots f) ((ff_head f + 1) mod cap)%nat (ff_count f - 1).

Definition fifo_at (cap : nat) f (i : nat) : option A := mjoin (ff_slots f !! ((ff_head f + i) mod cap)%nat).
(** The queue the array stands for. *)
Definition contents (cap : nat) f : list A := omap (fifo_at cap f) (seq 0 (ff_count f)).

Definition fifo_ok (cap : nat) f : Prop :=
  (0 < cap)%nat /\ length (ff_slots f) = cap /\ (ff_head f < cap)%nat /\ (ff_count f <= cap)%nat /\
  forall i, (i < ff_count f)%nat -> is_Some (fifo_at cap f i).

Lemma fifo_new_ok cap : (0 < cap)%nat -> fifo_ok cap (fifo_new cap) /\ contents cap (fifo_new cap) = [].
Proof.
  intros Hc. unfold fifo_ok, fifo_new. cbn. rewrite repeat_length. split_and!; [lia..|intros; lia|done].
Qed.

Lemma length_omap_all {B C} (g : B -> option C) l :
  (forall x, x ∈ l -> is_Some (g x)) -> length (omap g l) = length l.
Proof.
  induction l as [|x l IH]; intros H; [done|]. cbn.
  destruct (H x ltac:(set_solver)) as [y ->]. cbn. f_equal. apply IH. set_solver.
Qed.

Lemma length_contents cap f : fifo_ok cap f -> length (contents cap f) = ff_count f.
Proof.
  intros (_ & _ & _ & _ & H). unfold contents. rewrite length_omap_all, length_seq; [done|].
  intros x Hx%elem_of_seq. apply H. lia.
Qed.

(** Two positions of one window are different slots. *)
Lemma window_neq cap h i j : (h < cap)%nat -> (i < j < cap)%nat -> ((h + i) mod cap <> (h + j) mod cap)%nat.
Proof.
  intros Hh Hij E.
  assert (forall k, (k < cap)%nat -> ((h + k) mod cap = if decide (h + k < cap) then h + k else h + k - cap)%nat) as M.
  { intros k Hk. case_decide; [by apply Nat.mod_small|].
    rewrite <-(Nat.mod_small (h + k - cap) cap) by lia.
    replace (h + k)%nat with (h + k - cap + 1 * cap)%nat at 1 by lia. apply Nat.Div0.mod_add. }
  rewrite !M in E by lia. repeat case_decide; lia.
Qed.

Lemma omap_seq_ext {C} (g g' : nat -> option C) k n :
  (forall i, (k <= i < k + n)%nat -> g i = g' i) -> omap g (seq k n) = omap g' (seq k n).
Proof.
  revert k. induction n as [|n IH]; intros k H; [done|]. cbn. rewrite H by lia.
  rewrite IH; [done|]. intros i Hi. apply H. lia.
Qed.

Lemma fifo_push_ok cap a f :
  fifo_ok cap f -> (ff_count f < cap)%nat ->
  fifo_ok cap (fifo_push cap a f) /\ contents cap (fifo_push cap a f) = contents cap f ++ [a].
Proof.
  intros (H0 & Hl & Hh & Hc & Hs) Hlt.
  assert ((ff_head f + ff_count f) mod cap < cap)%nat as Hm by (apply Nat.mod_upper_bound; lia).
  assert (fifo_at cap (fifo_push cap a f) (ff_count f) = Some a) as Hlast.
  { unfold fifo_at, fifo_push. cbn. by rewrite list_lookup_insert_eq by lia. }
  assert (forall i, (i < ff_count f)%nat -> fifo_at cap (fifo_push cap a f) i = fifo_at cap f i) as Hold.
  { intros i Hi. unfold fifo_at, fifo_push. cbn. rewrite list_lookup_insert_ne; [done|].
    apply not_eq_sym, window_neq; lia. }
  split.
  - unfold fifo_ok. cbn. rewrite length_insert. split_and!; [lia..|]. intros i Hi.
    destruct (decide (i = ff_count f)) as [->|]; [by rewrite Hlast|]. rewrite Hold by lia. apply Hs. lia.
  - unfold contents. cbn [ff_count fifo_push]. rewrite seq_S, omap_app. cbn. rewrite Hlast. f_equal.
    apply omap_seq_ext. intros i Hi. apply Hold. lia.
Qed.

Lemma omap_seq_shift {C} (g : nat -> option C) k n : omap g (seq (S k) n) = omap (fun i => g (S i)) (seq k n).
Proof. revert k. induction n as [|n IH]; intros k; [done|]. cbn. by rewrite IH. Qed.

Lemma fifo_pop_ok cap f :
  fifo_ok cap f -> (0 < ff_count f)%nat ->
  exists a, fifo_first f = Some a /\ contents cap f = a :: contents cap (fifo_pop cap f) /\
    fifo_ok cap (fifo_pop cap f).
Proof.
  intros (H0 & Hl & Hh & Hc & Hs) Hlt.
  assert (fifo_at cap f 0 = fifo_first f) as E0.
  { unfold fifo_at, fifo_first. by rewrite Nat.add_0_r, Nat.mod_small. }
  assert (forall i, fifo_at cap (fifo_pop cap f) i = fifo_at cap f (S i)) as Hold.
  { intros i. unfold fifo_at, fifo_pop. cbn. do 2 f_equal.
    rewrite Nat.Div0.add_mod_idemp_l. f_equal. lia. }
  destruct (Hs 0%nat Hlt) as [a Ha]. exists a. rewrite <-E0. split_and!; [done|..].
  - unfold contents. cbn [ff_count fifo_pop]. destruct (ff_count f) as [|n]; [lia|].
    replace (S n - 1)%nat with n by lia. change (seq 0 (S n)) with ([0%nat] ++ seq 1 n).
    rewrite omap_app, omap_seq_shift. cbn. rewrite Ha. cbn. f_equal. apply omap_seq_ext. intros. by rewrite Hold.
  - unfold fifo_ok. cbn. split_and!; [lia..|apply Nat.mod_upper_bound; lia|lia|].
    intros i Hi. rewrite Hold. apply Hs. lia.
Qed.

End fifo.
