(* ===== verification/PeerIdentity.v ===== *)
(** * Registration and Pod-pair identities ([doca/peer_identity.h])

    The host representation of a verified registration and of the Pod pair a
    channel carries, with the size limits of [doca/workload_limits.h]. *)

From S2P Require Import Prelude.

Definition DMESH_REG_NONCE_SIZE : nat := 32.
Definition DMESH_POD_UID_MAX : nat := 64.
Definition DMESH_K8S_NAMESPACE_MAX : nat := 64.
Definition DMESH_K8S_NAME_MAX : nat := 254.
Definition DMESH_SVC_NAME_MAX : nat := 64.
Definition DMESH_DAEMON_INCARNATION_SIZE : nat := 16.

Record dmesh_peer_registration := Registration {
  rg_daemon : list byte; rg_slot : Z; rg_generation : Z; rg_nonce : list byte }.
#[export] Instance eta_registration : Eta dmesh_peer_registration :=
  fun r => Registration (rg_daemon r) (rg_slot r) (rg_generation r) (rg_nonce r).

Definition zero_registration : dmesh_peer_registration :=
  Registration (repeat x00 DMESH_DAEMON_INCARNATION_SIZE) 0 0 (repeat x00 DMESH_REG_NONCE_SIZE).

Record dmesh_peer_pair := Pair {
  pr_local_uid : list byte; pr_remote_uid : list byte;
  pr_local : dmesh_peer_registration; pr_remote : dmesh_peer_registration;
  pr_association : list byte; pr_lane_id : Z; pr_lane_generation : Z }.
#[export] Instance eta_pair : Eta dmesh_peer_pair :=
  fun p => Pair (pr_local_uid p) (pr_remote_uid p) (pr_local p) (pr_remote p)
             (pr_association p) (pr_lane_id p) (pr_lane_generation p).

Definition zero_pair : dmesh_peer_pair :=
  Pair (repeat x00 DMESH_POD_UID_MAX) (repeat x00 DMESH_POD_UID_MAX)
    zero_registration zero_registration (repeat x00 16) 0 0.

Definition dmesh_peer_registration_valid (r : dmesh_peer_registration) : bool :=
  let daemon := or_bytes (rg_daemon r) in
  let nonce := or_bytes (rg_nonce r) in
  negb (rg_generation r =? 0) && negb (daemon =? 0) && negb (nonce =? 0).

Definition dmesh_peer_registration_equal (a b : dmesh_peer_registration) : bool :=
  (rg_slot a =? rg_slot b) && (rg_generation a =? rg_generation b) &&
  bytes_eq (rg_daemon a) (rg_daemon b) && bytes_eq (rg_nonce a) (rg_nonce b).

Lemma registration_equal_spec a b :
  dmesh_peer_registration_equal a b = true <-> a = b.
Proof.
  unfold dmesh_peer_registration_equal, bytes_eq. destruct a, b; cbn.
  rewrite !andb_true_iff, !Z.eqb_eq, !bool_decide_eq_true.
  split; [by intros [[[-> ->] ->] ->]|by intros [= -> -> -> ->]].
Qed.

Lemma zero_registration_invalid : dmesh_peer_registration_valid zero_registration = false.
Proof. reflexivity. Qed.

(** ** The authenticated session ([doca/peer_tls.c])

    A connection is its handshake state and the two static keys.  OpenSSL is a
    parameter: what [SSL_do_handshake] answers, the key it captured, and the
    RFC 8446 exporter [SSL_export_keying_material] of one session, as a
    function of label and context. *)

Definition PEER_TLS_IPSEC_MATERIAL_LEN : nat := 20.
Definition PEER_TLS_IPSEC_CONTEXT_MAX : nat := 4096.

Record peer_tls_conn := TlsConn {
  tc_exporter : list byte -> list byte -> option (list byte);
  tc_local_key : list byte; tc_peer_key : list byte;
  tc_established : bool; tc_faulted : bool; tc_pinned : bool }.
#[export] Instance eta_tls_conn : Eta peer_tls_conn := fun c =>
  TlsConn (tc_exporter c) (tc_local_key c) (tc_peer_key c)
    (tc_established c) (tc_faulted c) (tc_pinned c).

(** What one [SSL_do_handshake] step reports: finished with a captured peer
    key (or a capture failure), more bytes wanted, or an error. *)
Inductive handshake_result :=
  | HsDone (key : option (list byte)) | HsWant | HsError.

Definition peer_tls_handshake (c : peer_tls_conn) (step : handshake_result)
    : Z * peer_tls_conn :=
  if tc_faulted c then (-1, c)
  else if tc_established c then (1, c)
  else match step with
    | HsDone (Some key) => (1, c <| tc_peer_key := key |> <| tc_established := true |>)
    | HsDone None => (-1, c <| tc_faulted := true |>)
    | HsWant => (0, c)
    | HsError => (-1, c <| tc_faulted := true |>)
    end.

Definition peer_tls_established (c : peer_tls_conn) : bool :=
  tc_established c && negb (tc_faulted c).
Definition peer_tls_faulted (c : peer_tls_conn) : bool := tc_faulted c.

Definition peer_tls_peer_key (c : peer_tls_conn) : option (list byte) :=
  if negb (tc_established c) || tc_faulted c then None else Some (tc_peer_key c).
Definition peer_tls_local_key (c : peer_tls_conn) : option (list byte) :=
  if tc_faulted c then None else Some (tc_local_key c).

Definition peer_tls_pin (c : peer_tls_conn) (expected : list byte) : Z * peer_tls_conn :=
  if negb (peer_tls_established c) then (-1, c)
  else if negb (bytes_eq (tc_peer_key c) expected)
  then (-1, c <| tc_faulted := true |> <| tc_pinned := false |>)
  else (0, c <| tc_pinned := true |>).

(** "EXPORTER-DPUmesh-IPsec-v1" *)
Definition ipsec_label : list byte :=
  z2b <$> [69;88;80;79;82;84;69;82;45;68;80;85;109;101;115;104;45;73;80;115;101;99;45;118;49].

(** [None] is the failure return, with the output cleansed. *)
Definition peer_tls_export_ipsec (c : peer_tls_conn) (context : list byte)
    : option (list byte) :=
  if peer_tls_established c && tc_pinned c && (0 <? length context)%nat &&
     (length context <=? PEER_TLS_IPSEC_CONTEXT_MAX)%nat
  then tc_exporter c ipsec_label context
  else None.

Lemma export_requires_pin c context m :
  peer_tls_export_ipsec c context = Some m ->
  tc_pinned c = true /\ tc_established c = true /\ tc_faulted c = false.
Proof.
  unfold peer_tls_export_ipsec, peer_tls_established.
  destruct (tc_pinned c), (tc_established c), (tc_faulted c); cbn; done.
Qed.

(** States of one connection over its lifetime. *)
Inductive tls_step : peer_tls_conn -> peer_tls_conn -> Prop :=
  | tls_handshake c s : tls_step c (peer_tls_handshake c s).2
  | tls_pin c k : tls_step c (peer_tls_pin c k).2.

(** A connection that was created (neither established, faulted nor pinned). *)
Definition tls_fresh (c : peer_tls_conn) : Prop :=
  tc_established c = false /\ tc_faulted c = false /\ tc_pinned c = false.

Lemma tls_fault_permanent c c' :
  rtc tls_step c c' -> tc_faulted c = true -> tc_faulted c' = true.
Proof.
  induction 1 as [|c c1 c2 Hs _ IH]; [done|]. intros Hf. apply IH.
  destruct Hs as [c s|c k]; unfold peer_tls_handshake, peer_tls_pin, peer_tls_established;
    rewrite Hf; [done|]. by rewrite andb_false_r.
Qed.
