(* ===== verification/SecurityWire.v ===== *)
(** * Control and data messages of the peer security protocol
    ([doca/peer_security_wire.{h,c}])

    One record per host structure, its validity predicate, its encoder and its
    decoder.  A decoder takes the received bytes and returns the C status with
    the output structure, which is zeroed on failure.  [fmt_*] is the wire
    format each pair of functions agrees on. *)

From S2P Require Import Prelude Cursor PeerIdentity.

Definition PEER_SEC_VERSION : Z := 2.
Definition PEER_SEC_HEADER_LEN : nat := 64.
Definition PEER_SEC_BODY_MAX : Z := 16384.
Definition PEER_SEC_NAME_MAX : nat := 254.
Definition PEER_SEC_UID_MAX : nat := 128.
Definition PEER_SEC_CLUSTER_MAX : nat := 128.
Definition PEER_SEC_AES128_GCM : Z := 1.
Definition PEER_SEC_LANES_MAX : nat := 16.
Definition PEER_SEC_SERVICE_MAX : nat := DMESH_K8S_NAMESPACE_MAX + DMESH_SVC_NAME_MAX.
Definition PEER_SEC_LANE_LEN : nat := 66.

(** [enum peer_sec_type] *)
Definition PEER_SEC_HELLO : Z := 1.
Definition PEER_SEC_PROPOSE : Z := 2.
Definition PEER_SEC_ACCEPT : Z := 3.
Definition PEER_SEC_LANE_PREPARE : Z := 4.
Definition PEER_SEC_LANE_PARAMS : Z := 5.
Definition PEER_SEC_RX_READY : Z := 6.
Definition PEER_SEC_TX_READY : Z := 7.
Definition PEER_SEC_LANE_READY : Z := 8.
Definition PEER_SEC_ACTIVATE : Z := 9.
Definition PEER_SEC_ACTIVE_ACK : Z := 10.
Definition PEER_SEC_REKEY : Z := 11.
Definition PEER_SEC_QUIESCE : Z := 12.
Definition PEER_SEC_DRAINED : Z := 13.
Definition PEER_SEC_COMMIT : Z := 14.
Definition PEER_SEC_RETIRE : Z := 15.
Definition PEER_SEC_REVOKE : Z := 16.
Definition PEER_SEC_ERROR : Z := 17.
Definition PEER_SEC_PING : Z := 18.
Definition PEER_SEC_PONG : Z := 19.

Definition nz (z : Z) : bool := negb (z =? 0).
(** A name is valid when [string_len] is non-zero. *)
Definition named (s : list byte) (cap : nat) : bool := negb (string_len s cap =? 0)%nat.

Record peer_sec_header := SecHeader {
  sh_type : Z; sh_body_len : Z; sh_session : list byte;
  sh_operation : Z; sh_association : list byte; sh_epoch : Z }.

Definition zero_header : peer_sec_header := SecHeader 0 0 (repeat x00 16) 0 (repeat x00 16) 0.

Definition header_valid (h : peer_sec_header) : bool :=
  if (sh_type h <? PEER_SEC_HELLO) || (PEER_SEC_PONG <? sh_type h) ||
     (PEER_SEC_BODY_MAX <? sh_body_len h) || (sh_operation h =? 0) then false
  else
    let assoc := nonzero (sh_association h) in
    let sess := nonzero (sh_session h) in
    if sh_type h =? PEER_SEC_HELLO then negb sess && negb assoc && (sh_epoch h =? 0)
    else if (sh_type h =? PEER_SEC_PING) || (sh_type h =? PEER_SEC_PONG)
    then sess && negb assoc && (sh_epoch h =? 0) && (sh_body_len h =? 16)
    else sess && assoc && nz (sh_epoch h).

(** "DMSC" *)
Definition header_magic : list byte := z2b <$> [68; 77; 83; 67].

Definition header_put (h : peer_sec_header) : writer :=
  put header_magic &> number PEER_SEC_VERSION 2 &> number (sh_type h) 2 &>
  number 0 4 &> number (sh_body_len h) 4 &> put (sh_session h) &>
  number (sh_operation h) 8 &> put (sh_association h) &> number (sh_epoch h) 8.

Definition peer_sec_header_encode (h : peer_sec_header) : option (list byte) :=
  if negb (header_valid h) then None else run_writer (header_put h) PEER_SEC_HEADER_LEN.

Definition header_get : rd (list byte * Z * Z * peer_sec_header) :=
  m ← get 4; version ← take_number 2; ty ← take_number 2; flags ← take_number 4;
  len ← take_number 4; sess ← get 16; op ← take_number 8; assoc ← get 16;
  ep ← take_number 8; mret (m, version, flags, SecHeader ty len sess op assoc ep).

Definition peer_sec_header_decode (buf : list byte) : Z * peer_sec_header :=
  if (length buf <? 64)%nat then (1, zero_header)
  else
    let '(m, version, flags, out, _) := header_get (RCursor buf 64 false) in
    if negb (bytes_eq m header_magic) || negb (version =? 2) || nz flags || negb (header_valid out)
    then (-1, zero_header) else (0, out).

(** A [struct peer_sec_header] in memory. *)
Definition header_wf (h : peer_sec_header) : Prop :=
  in_width 16 (sh_type h) /\ in_width 32 (sh_body_len h) /\ length (sh_session h) = 16%nat /\
  in_width 64 (sh_operation h) /\ length (sh_association h) = 16%nat /\ in_width 64 (sh_epoch h).

Definition header_fmt (h : peer_sec_header) : list byte :=
  header_magic ++ be_bytes 2 PEER_SEC_VERSION ++ be_bytes 2 (sh_type h) ++ be_bytes 4 0 ++
  be_bytes 4 (sh_body_len h) ++ sh_session h ++ be_bytes 8 (sh_operation h) ++
  sh_association h ++ be_bytes 8 (sh_epoch h).

Record peer_sec_hello := SecHello {
  he_cluster : list byte; he_node : list byte; he_public_key : list byte;
  he_boot : list byte; he_nonce : list byte; he_workers : Z }.

Definition zero_hello : peer_sec_hello :=
  SecHello (repeat x00 PEER_SEC_CLUSTER_MAX) (repeat x00 PEER_SEC_NAME_MAX) (repeat x00 32)
    (repeat x00 16) (repeat x00 16) 0.

Definition hello_valid (h : peer_sec_hello) : bool :=
  named (he_cluster h) PEER_SEC_CLUSTER_MAX && named (he_node h) PEER_SEC_NAME_MAX &&
  nz (he_workers h) && (he_workers h <=? 16) && nonzero (he_public_key h) &&
  nonzero (he_boot h) && nonzero (he_nonce h).

Definition hello_put (h : peer_sec_hello) : writer :=
  string_put (he_cluster h) PEER_SEC_CLUSTER_MAX &> string_put (he_node h) PEER_SEC_NAME_MAX &>
  put (he_public_key h) &> put (he_boot h) &> put (he_nonce h) &>
  number (he_workers h) 2 &> number PEER_SEC_AES128_GCM 2.

Definition peer_sec_hello_encode (h : peer_sec_hello) (cap : nat) : option (list byte) :=
  if negb (hello_valid h) then None else run_writer (hello_put h) cap.

Definition hello_get : rd (peer_sec_hello * Z) :=
  cl ← string_get PEER_SEC_CLUSTER_MAX; nd ← string_get PEER_SEC_NAME_MAX;
  key ← get 32; bt ← get 16; nc ← get 16; wk ← take_number 2; suite ← take_number 2;
  mret (SecHello cl nd key bt nc wk, suite).

Definition peer_sec_hello_decode (buf : list byte) : Z * peer_sec_hello :=
  let '(h, suite, c) := hello_get (RCursor buf (length buf) false) in
  if unfinished c || negb (suite =? PEER_SEC_AES128_GCM) || negb (hello_valid h)
  then (-1, zero_hello) else (0, h).

Definition hello_wf (h : peer_sec_hello) : Prop :=
  padded PEER_SEC_CLUSTER_MAX (he_cluster h) /\ padded PEER_SEC_NAME_MAX (he_node h) /\
  length (he_public_key h) = 32%nat /\ length (he_boot h) = 16%nat /\
  length (he_nonce h) = 16%nat /\ in_width 16 (he_workers h).

Definition hello_fmt (h : peer_sec_hello) : list byte :=
  name_fmt PEER_SEC_CLUSTER_MAX (he_cluster h) ++ name_fmt PEER_SEC_NAME_MAX (he_node h) ++
  he_public_key h ++ he_boot h ++ he_nonce h ++ be_bytes 2 (he_workers h) ++
  be_bytes 2 PEER_SEC_AES128_GCM.

Record peer_sec_endpoint := SecEndpoint {
  ep_node : list byte; ep_public_key : list byte; ep_boot : list byte; ep_pod : list byte;
  ep_daemon : list byte; ep_channel_slot : Z; ep_channel_generation : Z;
  ep_registration_nonce : list byte }.

Record peer_sec_binding := SecBinding {
  bd_cluster : list byte; bd_endpoint : peer_sec_endpoint * peer_sec_endpoint;
  bd_session : list byte; bd_association : list byte; bd_epoch : Z; bd_spi : Z * Z }.
#[export] Instance eta_binding : Eta peer_sec_binding := fun b =>
  SecBinding (bd_cluster b) (bd_endpoint b) (bd_session b) (bd_association b) (bd_epoch b) (bd_spi b).

Definition zero_endpoint : peer_sec_endpoint :=
  SecEndpoint (repeat x00 PEER_SEC_NAME_MAX) (repeat x00 32) (repeat x00 16)
    (repeat x00 PEER_SEC_UID_MAX) (repeat x00 16) 0 0 (repeat x00 DMESH_REG_NONCE_SIZE).
Definition zero_binding : peer_sec_binding :=
  SecBinding (repeat x00 PEER_SEC_CLUSTER_MAX) (zero_endpoint, zero_endpoint)
    (repeat x00 16) (repeat x00 16) 0 (0, 0).

Definition endpoint_valid (e : peer_sec_endpoint) : bool :=
  named (ep_node e) PEER_SEC_NAME_MAX && named (ep_pod e) PEER_SEC_UID_MAX &&
  nonzero (ep_public_key e) && nonzero (ep_boot e) && nonzero (ep_daemon e) &&
  nz (ep_channel_generation e) && nonzero (ep_registration_nonce e).

Definition peer_sec_binding_valid (b : peer_sec_binding) : bool :=
  named (bd_cluster b) PEER_SEC_CLUSTER_MAX &&
  endpoint_valid (at2 0 (bd_endpoint b)) && endpoint_valid (at2 1 (bd_endpoint b)) &&
  (strcmp (ep_node (at2 0 (bd_endpoint b))) (ep_node (at2 1 (bd_endpoint b))) <? 0) &&
  negb (strcmp (ep_pod (at2 0 (bd_endpoint b))) (ep_pod (at2 1 (bd_endpoint b))) =? 0) &&
  nonzero (bd_session b) && nonzero (bd_association b) && nz (bd_epoch b) &&
  (256 <=? at2 0 (bd_spi b)) && (256 <=? at2 1 (bd_spi b)).

Definition endpoint_put (e : peer_sec_endpoint) : writer :=
  string_put (ep_node e) PEER_SEC_NAME_MAX &> put (ep_public_key e) &> put (ep_boot e) &>
  string_put (ep_pod e) PEER_SEC_UID_MAX &> put (ep_daemon e) &>
  number (ep_channel_slot e) 4 &> number (ep_channel_generation e) 8 &>
  put (ep_registration_nonce e).

Definition endpoint_get : rd peer_sec_endpoint :=
  nd ← string_get PEER_SEC_NAME_MAX; key ← get 32; bt ← get 16;
  pd ← string_get PEER_SEC_UID_MAX; dm ← get 16; slot ← take_number 4;
  gen ← take_number 8; nc ← get DMESH_REG_NONCE_SIZE;
  mret (SecEndpoint nd key bt pd dm slot gen nc).

Definition binding_put (b : peer_sec_binding) : writer :=
  number 2 2 &> number PEER_SEC_AES128_GCM 2 &>
  string_put (bd_cluster b) PEER_SEC_CLUSTER_MAX &>
  endpoint_put (at2 0 (bd_endpoint b)) &> endpoint_put (at2 1 (bd_endpoint b)) &>
  put (bd_session b) &> put (bd_association b) &> number (bd_epoch b) 8 &>
  number (at2 0 (bd_spi b)) 4 &> number (at2 1 (bd_spi b)) 4.

Definition peer_sec_binding_encode (b : peer_sec_binding) (cap : nat) : option (list byte) :=
  if negb (peer_sec_binding_valid b) then None else run_writer (binding_put b) cap.

Definition binding_get : rd (Z * Z * peer_sec_binding) :=
  version ← take_number 2; suite ← take_number 2;
  cl ← string_get PEER_SEC_CLUSTER_MAX; e0 ← endpoint_get; e1 ← endpoint_get;
  sess ← get 16; assoc ← get 16; ep ← take_number 8;
  s0 ← take_number 4; s1 ← take_number 4;
  mret (version, suite, SecBinding cl (e0, e1) sess assoc ep (s0, s1)).

Definition peer_sec_binding_decode (buf : list byte) : Z * peer_sec_binding :=
  let '(version, suite, b, c) := binding_get (RCursor buf (length buf) false) in
  if unfinished c || negb (version =? 2) || negb (suite =? 1) ||
     negb (peer_sec_binding_valid b)
  then (-1, zero_binding) else (0, b).

Definition endpoint_wf (e : peer_sec_endpoint) : Prop :=
  padded PEER_SEC_NAME_MAX (ep_node e) /\ length (ep_public_key e) = 32%nat /\
  length (ep_boot e) = 16%nat /\ padded PEER_SEC_UID_MAX (ep_pod e) /\
  length (ep_daemon e) = 16%nat /\ in_width 32 (ep_channel_slot e) /\
  in_width 64 (ep_channel_generation e) /\
  length (ep_registration_nonce e) = DMESH_REG_NONCE_SIZE.
Definition binding_wf (b : peer_sec_binding) : Prop :=
  padded PEER_SEC_CLUSTER_MAX (bd_cluster b) /\
  endpoint_wf (bd_endpoint b).1 /\ endpoint_wf (bd_endpoint b).2 /\
  length (bd_session b) = 16%nat /\ length (bd_association b) = 16%nat /\
  in_width 64 (bd_epoch b) /\ in_width 32 (bd_spi b).1 /\ in_width 32 (bd_spi b).2.

Definition endpoint_fmt (e : peer_sec_endpoint) : list byte :=
  name_fmt PEER_SEC_NAME_MAX (ep_node e) ++ ep_public_key e ++ ep_boot e ++
  name_fmt PEER_SEC_UID_MAX (ep_pod e) ++ ep_daemon e ++ be_bytes 4 (ep_channel_slot e) ++
  be_bytes 8 (ep_channel_generation e) ++ ep_registration_nonce e.
Definition binding_fmt (b : peer_sec_binding) : list byte :=
  be_bytes 2 2 ++ be_bytes 2 PEER_SEC_AES128_GCM ++
  name_fmt PEER_SEC_CLUSTER_MAX (bd_cluster b) ++
  endpoint_fmt (bd_endpoint b).1 ++ endpoint_fmt (bd_endpoint b).2 ++
  bd_session b ++ bd_association b ++ be_bytes 8 (bd_epoch b) ++
  be_bytes 4 (bd_spi b).1 ++ be_bytes 4 (bd_spi b).2.

(** ** Lanes *)

Record peer_sec_lane := SecLane {
  ln_id : Z; ln_generation : Z; ln_worker : Z * Z; ln_qpn : Z * Z; ln_psn : Z * Z;
  ln_gid : list byte * list byte; ln_mtu : Z }.

Definition zero_lane : peer_sec_lane :=
  SecLane 0 0 (0, 0) (0, 0) (0, 0) (repeat x00 16, repeat x00 16) 0.

Definition mtu_valid (mtu : Z) : bool :=
  (mtu =? 256) || (mtu =? 512) || (mtu =? 1024) || (mtu =? 2048) || (mtu =? 4096).

Definition lane_valid (l : peer_sec_lane) : bool :=
  if (ln_id l =? 0) || (ln_generation l =? 0) ||
     (16 <=? at2 0 (ln_worker l)) || (16 <=? at2 1 (ln_worker l)) ||
     (at2 0 (ln_qpn l) =? 0) || (at2 1 (ln_qpn l) =? 0) ||
     (0xffffff <? at2 0 (ln_qpn l)) || (0xffffff <? at2 1 (ln_qpn l)) ||
     (0xffffff <? at2 0 (ln_psn l)) || (0xffffff <? at2 1 (ln_psn l)) ||
     negb (nonzero (at2 0 (ln_gid l))) || negb (nonzero (at2 1 (ln_gid l)))
  then false
  else (ln_mtu l =? 256) || (ln_mtu l =? 512) || (ln_mtu l =? 1024) ||
       (ln_mtu l =? 2048) || (ln_mtu l =? 4096).

(** One turn of the loop over the two ends. *)
Definition lane_end_put (l : peer_sec_lane) (i : nat) : writer :=
  number (at2 i (ln_worker l)) 2 &> number (at2 i (ln_qpn l)) 3 &>
  number (at2 i (ln_psn l)) 3 &> put (at2 i (ln_gid l)).
Definition lane_put (l : peer_sec_lane) : writer :=
  number (ln_id l) 8 &> number (ln_generation l) 8 &>
  lane_end_put l 0 &> lane_end_put l 1 &> number (ln_mtu l) 2.

Definition peer_sec_lane_encode (l : peer_sec_lane) : option (list byte) :=
  if negb (lane_valid l) then None else
  let c := lane_put l (WCursor [] PEER_SEC_LANE_LEN false) in
  if w_bad c || negb (w_left c =? 0)%nat then None else Some (w_out c).

Record lane_end := LaneEnd { le_worker : Z; le_qpn : Z; le_psn : Z; le_gid : list byte }.
Definition lane_end_get : rd lane_end :=
  w ← take_number 2; q ← take_number 3; p ← take_number 3; g ← get 16;
  mret (LaneEnd w q p g).
Definition lane_get : rd peer_sec_lane :=
  id ← take_number 8; gen ← take_number 8; e0 ← lane_end_get; e1 ← lane_end_get;
  mtu ← take_number 2;
  mret (SecLane id gen (le_worker e0, le_worker e1) (le_qpn e0, le_qpn e1)
          (le_psn e0, le_psn e1) (le_gid e0, le_gid e1) mtu).

Definition peer_sec_lane_decode (buf : list byte) : Z * peer_sec_lane :=
  if negb (length buf =? PEER_SEC_LANE_LEN)%nat then (-1, zero_lane)
  else
    let '(l, c) := lane_get (RCursor buf (length buf) false) in
    if unfinished c || negb (lane_valid l) then (-1, zero_lane) else (0, l).

Definition lane_wf (l : peer_sec_lane) : Prop :=
  in_width 64 (ln_id l) /\ in_width 64 (ln_generation l) /\
  in_width 16 (ln_worker l).1 /\ in_width 16 (ln_worker l).2 /\
  in_width 32 (ln_qpn l).1 /\ in_width 32 (ln_qpn l).2 /\
  in_width 32 (ln_psn l).1 /\ in_width 32 (ln_psn l).2 /\
  length (ln_gid l).1 = 16%nat /\ length (ln_gid l).2 = 16%nat /\ in_width 16 (ln_mtu l).

Definition lane_end_fmt (l : peer_sec_lane) (i : nat) : list byte :=
  be_bytes 2 (at2 i (ln_worker l)) ++ be_bytes 3 (at2 i (ln_qpn l)) ++
  be_bytes 3 (at2 i (ln_psn l)) ++ at2 i (ln_gid l).
Definition lane_fmt (l : peer_sec_lane) : list byte :=
  be_bytes 8 (ln_id l) ++ be_bytes 8 (ln_generation l) ++
  lane_end_fmt l 0 ++ lane_end_fmt l 1 ++ be_bytes 2 (ln_mtu l).

(** ** Data envelope *)

Definition PEER_SEC_STREAM_OPEN : Z := 1.
Definition PEER_SEC_STREAM_OPEN_ACK : Z := 2.
Definition PEER_SEC_DATA : Z := 3.
Definition PEER_SEC_STREAM_ACK : Z := 4.
Definition PEER_SEC_STREAM_FIN : Z := 5.
Definition PEER_SEC_DATA_HEADER_LEN : nat := 64.
Definition PEER_SEC_DATA_MAX : Z := 65536.

Record peer_sec_data_header := SecData {
  dh_type : Z; dh_body_len : Z; dh_association : list byte; dh_lane_id : Z;
  dh_lane_generation : Z; dh_handle : Z; dh_stream_generation : Z; dh_sequence : Z }.

Definition zero_data : peer_sec_data_header := SecData 0 0 (repeat x00 16) 0 0 0 0 0.

Definition data_valid (h : peer_sec_data_header) : bool :=
  (PEER_SEC_STREAM_OPEN <=? dh_type h) && (dh_type h <=? PEER_SEC_STREAM_FIN) &&
  (dh_body_len h <=? PEER_SEC_DATA_MAX) && nonzero (dh_association h) &&
  nz (dh_lane_id h) && nz (dh_lane_generation h) && nz (dh_handle h) &&
  nz (dh_stream_generation h) &&
  (negb (dh_type h =? PEER_SEC_DATA) || (nz (dh_body_len h) && nz (dh_sequence h))).

(** "DMSD" *)
Definition data_magic : list byte := z2b <$> [68; 77; 83; 68].

Definition data_put (h : peer_sec_data_header) : writer :=
  put data_magic &> number PEER_SEC_VERSION 2 &> number (dh_type h) 2 &>
  number (dh_body_len h) 4 &> put (dh_association h) &> number (dh_lane_id h) 8 &>
  number (dh_lane_generation h) 8 &> number (dh_handle h) 4 &>
  number (dh_stream_generation h) 8 &> number (dh_sequence h) 8.

Definition peer_sec_data_encode (h : peer_sec_data_header) : option (list byte) :=
  if negb (data_valid h) then None else
  let c := data_put h (WCursor [] PEER_SEC_DATA_HEADER_LEN false) in
  if w_bad c || negb (w_left c =? 0)%nat then None else Some (w_out c).

Definition data_get : rd (list byte * Z * peer_sec_data_header) :=
  m ← get 4; version ← take_number 2; ty ← take_number 2; len ← take_number 4;
  assoc ← get 16; lid ← take_number 8; lgen ← take_number 8; hd ← take_number 4;
  sgen ← take_number 8; sq ← take_number 8;
  mret (m, version, SecData ty len assoc lid lgen hd sgen sq).

Definition peer_sec_data_decode (buf association : list byte) (lane_id lane_generation : Z)
    : Z * peer_sec_data_header :=
  if (length buf <? 64)%nat || (64 + PEER_SEC_DATA_MAX <? Z.of_nat (length buf))
  then (-1, zero_data)
  else
    let '(m, version, h, c) := data_get (RCursor buf 64 false) in
    if unfinished c || negb (bytes_eq m data_magic) || negb (version =? PEER_SEC_VERSION) ||
       negb (data_valid h) || negb (Z.of_nat (length buf) =? 64 + dh_body_len h) ||
       negb (bytes_eq (dh_association h) association) ||
       negb (dh_lane_id h =? lane_id) || negb (dh_lane_generation h =? lane_generation)
    then (-1, zero_data) else (0, h).

Definition data_wf (h : peer_sec_data_header) : Prop :=
  in_width 16 (dh_type h) /\ in_width 32 (dh_body_len h) /\
  length (dh_association h) = 16%nat /\ in_width 64 (dh_lane_id h) /\
  in_width 64 (dh_lane_generation h) /\ in_width 32 (dh_handle h) /\
  in_width 64 (dh_stream_generation h) /\ in_width 64 (dh_sequence h).

Definition data_fmt (h : peer_sec_data_header) : list byte :=
  data_magic ++ be_bytes 2 PEER_SEC_VERSION ++ be_bytes 2 (dh_type h) ++
  be_bytes 4 (dh_body_len h) ++ dh_association h ++ be_bytes 8 (dh_lane_id h) ++
  be_bytes 8 (dh_lane_generation h) ++ be_bytes 4 (dh_handle h) ++
  be_bytes 8 (dh_stream_generation h) ++ be_bytes 8 (dh_sequence h).

(** ** Pod-pair negotiation bodies *)

Record peer_sec_lane_map := LaneMap { lm_id : Z; lm_generation : Z; lm_worker : Z * Z }.
Definition zero_lane_map : peer_sec_lane_map := LaneMap 0 0 (0, 0).

(** [lane] is the whole array of [PEER_SEC_LANES_MAX] entries; [lane_count]
    says how many are meaningful. *)
Record peer_sec_propose := SecPropose {
  pp_cluster : list byte; pp_source_pod : list byte; pp_target_pod : list byte;
  pp_source : dmesh_peer_registration; pp_association : list byte; pp_rx_spi : Z;
  pp_incarnation : Z; pp_service : list byte; pp_port : Z; pp_mtu : Z;
  pp_lane_count : Z; pp_lane : list peer_sec_lane_map }.

Definition zero_propose : peer_sec_propose :=
  SecPropose (repeat x00 PEER_SEC_CLUSTER_MAX) (repeat x00 DMESH_POD_UID_MAX)
    (repeat x00 DMESH_POD_UID_MAX) zero_registration (repeat x00 16) 0 0
    (repeat x00 PEER_SEC_SERVICE_MAX) 0 0 0 (repeat zero_lane_map PEER_SEC_LANES_MAX).

Record peer_sec_half_lane := HalfLane {
  hl_id : Z; hl_generation : Z; hl_qpn : Z; hl_psn : Z; hl_gid : list byte }.
Definition zero_half_lane : peer_sec_half_lane := HalfLane 0 0 0 0 (repeat x00 16).

Record peer_sec_lane_params := SecLaneParams {
  lp_association : list byte; lp_rx_spi : Z; lp_registration : dmesh_peer_registration;
  lp_mtu : Z; lp_lane_count : Z; lp_lane : list peer_sec_half_lane }.
Definition zero_lane_params : peer_sec_lane_params :=
  SecLaneParams (repeat x00 16) 0 zero_registration 0 0
    (repeat zero_half_lane PEER_SEC_LANES_MAX).

Definition registration_put (r : dmesh_peer_registration) : writer :=
  put (rg_daemon r) &> number (rg_slot r) 4 &> number (rg_generation r) 8 &> put (rg_nonce r).
Definition registration_get : rd dmesh_peer_registration :=
  dm ← get DMESH_DAEMON_INCARNATION_SIZE; sl ← take_number 4; gen ← take_number 8;
  nc ← get DMESH_REG_NONCE_SIZE; mret (Registration dm sl gen nc).

(** [ids[i-1] >= ids[i]] is refused for consecutive entries. *)
Fixpoint ascending (prev : Z) (ids : list Z) : bool :=
  match ids with
  | [] => true
  | i :: ids' => (prev <? i) && ascending i ids'
  end.
Definition lane_ids_valid (count : Z) (ids generations : list Z) : bool :=
  if (count =? 0) || (Z.of_nat PEER_SEC_LANES_MAX <? count) then false
  else forallb nz ids && forallb nz generations &&
       match ids with [] => true | i :: ids' => ascending i ids' end.

(** The [j < i] scan for a worker that is already taken. *)
Fixpoint workers_distinct (seen : list (Z * Z)) (l : list peer_sec_lane_map) : bool :=
  match l with
  | [] => true
  | m :: l' =>
      let w := lm_worker m in
      (at2 0 w <? 16) && (at2 1 w <? 16) &&
      forallb (fun s => negb (at2 0 w =? at2 0 s) && negb (at2 1 w =? at2 1 s)) seen &&
      workers_distinct (seen ++ [w]) l'
  end.

(** The live prefix of a lane array. *)
Definition live_lanes {A} (count : Z) (l : list A) : list A := take (Z.to_nat count) l.

Definition propose_valid (p : peer_sec_propose) : bool :=
  if negb (named (pp_cluster p) PEER_SEC_CLUSTER_MAX) ||
     negb (named (pp_source_pod p) DMESH_POD_UID_MAX) ||
     negb (named (pp_target_pod p) DMESH_POD_UID_MAX) ||
     (strcmp (pp_source_pod p) (pp_target_pod p) =? 0) ||
     negb (dmesh_peer_registration_valid (pp_source p)) ||
     negb (nonzero (pp_association p)) || (pp_rx_spi p <? 256) || (pp_incarnation p =? 0) ||
     negb (named (pp_service p) PEER_SEC_SERVICE_MAX) || (pp_port p =? 0) ||
     negb (mtu_valid (pp_mtu p)) || (pp_lane_count p =? 0) ||
     (Z.of_nat PEER_SEC_LANES_MAX <? pp_lane_count p)
  then false
  else
    let l := live_lanes (pp_lane_count p) (pp_lane p) in
    workers_distinct [] l &&
    lane_ids_valid (pp_lane_count p) (lm_id <$> l) (lm_generation <$> l).

Definition lane_map_put (m : peer_sec_lane_map) : writer :=
  number (lm_id m) 8 &> number (lm_generation m) 8 &>
  number (at2 0 (lm_worker m)) 2 &> number (at2 1 (lm_worker m)) 2.
Definition lane_map_get : rd peer_sec_lane_map :=
  id ← take_number 8; gen ← take_number 8; w0 ← take_number 2; w1 ← take_number 2;
  mret (LaneMap id gen (w0, w1)).

Definition propose_put (p : peer_sec_propose) : writer :=
  number PEER_SEC_VERSION 2 &>
  string_put (pp_cluster p) PEER_SEC_CLUSTER_MAX &>
  string_put (pp_source_pod p) DMESH_POD_UID_MAX &>
  string_put (pp_target_pod p) DMESH_POD_UID_MAX &>
  registration_put (pp_source p) &>
  put (pp_association p) &> number (pp_rx_spi p) 4 &> number (pp_incarnation p) 4 &>
  string_put (pp_service p) PEER_SEC_SERVICE_MAX &>
  number (pp_port p) 2 &> number (pp_mtu p) 2 &> number (pp_lane_count p) 2 &>
  w_each lane_map_put (live_lanes (pp_lane_count p) (pp_lane p)).

Definition peer_sec_propose_encode (p : peer_sec_propose) (cap : nat) : option (list byte) :=
  if negb (propose_valid p) then None else run_writer (propose_put p) cap.

(** The fields before the lane table. *)
Definition propose_head_get : rd (Z * peer_sec_propose) :=
  version ← take_number 2;
  cl ← string_get PEER_SEC_CLUSTER_MAX; sp ← string_get DMESH_POD_UID_MAX;
  tp ← string_get DMESH_POD_UID_MAX; src ← registration_get; assoc ← get 16;
  spi ← take_number 4; inc ← take_number 4; svc ← string_get PEER_SEC_SERVICE_MAX;
  port ← take_number 2; mtu ← take_number 2; count ← take_number 2;
  mret (version, SecPropose cl sp tp src assoc spi inc svc port mtu count []).

Definition fill {A} (l : list A) (z : A) : list A := l ++ repeat z (PEER_SEC_LANES_MAX - length l).

Definition with_lanes (p : peer_sec_propose) (l : list peer_sec_lane_map) : peer_sec_propose :=
  SecPropose (pp_cluster p) (pp_source_pod p) (pp_target_pod p) (pp_source p)
    (pp_association p) (pp_rx_spi p) (pp_incarnation p) (pp_service p) (pp_port p)
    (pp_mtu p) (pp_lane_count p) l.

Definition peer_sec_propose_decode (buf : list byte) : Z * peer_sec_propose :=
  let '(version, p, c) := propose_head_get (RCursor buf (length buf) false) in
  if r_bad c || (Z.of_nat PEER_SEC_LANES_MAX <? pp_lane_count p) then (-1, zero_propose)
  else
    let '(l, c') := r_times (Z.to_nat (pp_lane_count p)) lane_map_get c in
    let p := with_lanes p (fill l zero_lane_map) in
    if unfinished c' || negb (version =? PEER_SEC_VERSION) || negb (propose_valid p)
    then (-1, zero_propose) else (0, p).

(** [peer_sec_nonzero(&p->registration, sizeof)]: the structure came from a
    zeroed object, so its padding is zero. *)
Definition registration_nonzero (r : dmesh_peer_registration) : bool :=
  nonzero (rg_daemon r) || nz (rg_slot r) || nz (rg_generation r) || nonzero (rg_nonce r).

Definition half_lane_valid (l : peer_sec_half_lane) : bool :=
  nz (hl_qpn l) && (hl_qpn l <=? 0xffffff) && (hl_psn l <=? 0xffffff) && nonzero (hl_gid l).

Definition lane_params_valid (p : peer_sec_lane_params) (accept : bool) : bool :=
  if negb (nonzero (lp_association p)) || negb (mtu_valid (lp_mtu p)) then false
  else if accept && ((lp_rx_spi p <? 256) ||
                     negb (dmesh_peer_registration_valid (lp_registration p))) then false
  else if negb accept && (nz (lp_rx_spi p) || registration_nonzero (lp_registration p)) then false
  else
    let l := live_lanes (lp_lane_count p) (lp_lane p) in
    forallb half_lane_valid l &&
    lane_ids_valid (lp_lane_count p) (hl_id <$> l) (hl_generation <$> l).

Definition half_lane_put (l : peer_sec_half_lane) : writer :=
  number (hl_id l) 8 &> number (hl_generation l) 8 &>
  number (hl_qpn l) 3 &> number (hl_psn l) 3 &> put (hl_gid l).
Definition half_lane_get : rd peer_sec_half_lane :=
  id ← take_number 8; gen ← take_number 8; q ← take_number 3; p ← take_number 3;
  g ← get 16; mret (HalfLane id gen q p g).

Definition accept_put (p : peer_sec_lane_params) (accept : bool) : writer :=
  if accept then number (lp_rx_spi p) 4 &> registration_put (lp_registration p)
  else fun c => c.
Definition lane_params_put (p : peer_sec_lane_params) (accept : bool) : writer :=
  number PEER_SEC_VERSION 2 &> number (if accept then 1 else 0) 2 &>
  put (lp_association p) &> accept_put p accept &>
  number (lp_mtu p) 2 &> number (lp_lane_count p) 2 &>
  w_each half_lane_put (live_lanes (lp_lane_count p) (lp_lane p)).

Definition peer_sec_lane_params_encode (p : peer_sec_lane_params) (accept : bool) (cap : nat)
    : option (list byte) :=
  if negb (lane_params_valid p accept) then None else run_writer (lane_params_put p accept) cap.

Definition accept_get (accept : bool) : rd (Z * dmesh_peer_registration) :=
  if accept then spi ← take_number 4; reg ← registration_get; mret (spi, reg)
  else mret (0, zero_registration).
Definition lane_params_head_get (accept : bool)
    : rd (Z * Z * list byte * (Z * dmesh_peer_registration) * Z * Z) :=
  version ← take_number 2; kind ← take_number 2; assoc ← get 16;
  ac ← accept_get accept; mtu ← take_number 2; count ← take_number 2;
  mret (version, kind, assoc, ac, mtu, count).

Definition peer_sec_lane_params_decode (buf : list byte) (accept : bool)
    : Z * peer_sec_lane_params :=
  let '(version, kind, assoc, ac, mtu, count, c) :=
    lane_params_head_get accept (RCursor buf (length buf) false) in
  if r_bad c || (Z.of_nat PEER_SEC_LANES_MAX <? count) then (-1, zero_lane_params)
  else
    let '(l, c') := r_times (Z.to_nat count) half_lane_get c in
    let p := SecLaneParams assoc ac.1 ac.2 mtu count (fill l zero_half_lane) in
    if unfinished c' || negb (version =? PEER_SEC_VERSION) ||
       negb (kind =? (if accept then 1 else 0)) || negb (lane_params_valid p accept)
    then (-1, zero_lane_params) else (0, p).

(** ** Rekey and error bodies *)

Definition PEER_SEC_REKEY_LEN : nat := 10.
Definition PEER_SEC_ERROR_LEN : nat := 4.

Definition rekey_spi_bad (a b : Z) : bool :=
  (nz a && (a <? 256)) || (nz b && (b <? 256)) || ((a =? 0) && (b =? 0)).

Definition rekey_put (spi : Z * Z) : writer :=
  number PEER_SEC_VERSION 2 &> number (at2 0 spi) 4 &> number (at2 1 spi) 4.
Definition peer_sec_rekey_encode (spi : Z * Z) : option (list byte) :=
  if rekey_spi_bad (at2 0 spi) (at2 1 spi) then None else
  let c := rekey_put spi (WCursor [] PEER_SEC_REKEY_LEN false) in
  if w_bad c || negb (w_left c =? 0)%nat then None else Some (w_out c).
Definition rekey_get : rd (Z * (Z * Z)) :=
  version ← take_number 2; a ← take_number 4; b ← take_number 4; mret (version, (a, b)).
Definition peer_sec_rekey_decode (buf : list byte) : Z * (Z * Z) :=
  if negb (length buf =? PEER_SEC_REKEY_LEN)%nat then (-1, (0, 0))
  else
    let '(version, spi, c) := rekey_get (RCursor buf (length buf) false) in
    if unfinished c || negb (version =? PEER_SEC_VERSION) ||
       rekey_spi_bad (at2 0 spi) (at2 1 spi)
    then (-1, (0, 0)) else (0, spi).

Definition PEER_SEC_ERR_REFUSED : Z := 1.
Definition PEER_SEC_ERR_MISMATCH : Z := 6.
Definition error_put (code : Z) : writer := number PEER_SEC_VERSION 2 &> number code 2.
Definition peer_sec_error_encode (code : Z) : option (list byte) :=
  if (code <? PEER_SEC_ERR_REFUSED) || (PEER_SEC_ERR_MISMATCH <? code) then None else
  let c := error_put code (WCursor [] PEER_SEC_ERROR_LEN false) in
  if w_bad c || negb (w_left c =? 0)%nat then None else Some (w_out c).
Definition error_get : rd (Z * Z) :=
  version ← take_number 2; value ← take_number 2; mret (version, value).
Definition peer_sec_error_decode (buf : list byte) : Z * Z :=
  if negb (length buf =? PEER_SEC_ERROR_LEN)%nat then (-1, 0)
  else
    let '(version, value, c) := error_get (RCursor buf (length buf) false) in
    if unfinished c || negb (version =? PEER_SEC_VERSION) ||
       (value <? PEER_SEC_ERR_REFUSED) || (PEER_SEC_ERR_MISMATCH <? value)
    then (-1, 0) else (0, value).

(** ** Key derivation and session identity *)

(** [CRYPTO_memcmp] of a key a session reports with the bound one. *)
Definition key_is (k : option (list byte)) (bound : list byte) : bool :=
  match k with Some k => bytes_eq k bound | None => false end.

Definition peer_sec_derive (tls : peer_tls_conn) (b : peer_sec_binding)
    (local direction : nat) : option (list byte) :=
  if (1 <? local)%nat || (1 <? direction)%nat || negb (peer_sec_binding_valid b) ||
     negb (key_is (peer_tls_local_key tls) (ep_public_key (at2 local (bd_endpoint b)))) ||
     negb (key_is (peer_tls_peer_key tls) (ep_public_key (at2 (1 - local) (bd_endpoint b))))
  then None
  else match peer_sec_binding_encode b (PEER_TLS_IPSEC_CONTEXT_MAX - 1) with
    | None => None
    | Some context => peer_tls_export_ipsec tls (context ++ [z2b (Z.of_nat direction)])
    end.

(** "DPUmesh-control-session-v2" with its terminator. *)
Definition session_domain : list byte :=
  z2b <$> [68;80;85;109;101;115;104;45;99;111;110;116;114;111;108;45;115;101;115;115;105;111;110;45;118;50;0].

Section session.
(** [EVP_Digest] with SHA-256; [None] when OpenSSL fails. *)
Variable sha256 : list byte -> option (list byte).

Definition peer_sec_session_id (a b : peer_sec_hello) : option (list byte) :=
  if negb (hello_valid a) || negb (hello_valid b) ||
     negb (strcmp (he_cluster a) (he_cluster b) =? 0) ||
     (strcmp (he_node a) (he_node b) =? 0) then None
  else
    let '(a, b) := if 0 <? strcmp (he_node a) (he_node b) then (b, a) else (a, b) in
    x ← peer_sec_hello_encode a (2048 - length session_domain);
    y ← peer_sec_hello_encode b (2048 - length session_domain - length x);
    digest ← sha256 (session_domain ++ x ++ y);
    if (length digest =? 32)%nat then Some (take 16 digest) else None.
End session.
