(* ===== verification/SecurityCodec.v ===== *)
(** * Correctness of the peer security codec

    For every message of [SecurityWire]: the encoder emits the wire format, the
    decoder inverts it, and the decoder accepts nothing else. *)

From S2P Require Import Prelude Cursor PeerIdentity SecurityWire.

(** ** Header *)

Lemma length_header_fmt h : header_wf h -> length (header_fmt h) = 64%nat.
Proof.
  intros (_ & _ & Hs & _ & Ha & _). unfold header_fmt.
  by rewrite !length_app, !length_be_bytes, Hs, Ha.
Qed.

Lemma writes_header h : writes (header_put h) (header_fmt h).
Proof. unfold header_put. writes_tac. Qed.

Lemma header_encode_fmt h :
  header_wf h -> header_valid h = true -> peer_sec_header_encode h = Some (header_fmt h).
Proof.
  intros Hw Hv. unfold peer_sec_header_encode. rewrite Hv. cbn.
  by rewrite (run_writer_fmt _ _ _ (writes_header h)), length_header_fmt.
Qed.

Lemma reads_header h :
  header_wf h -> reads header_get (header_fmt h) (header_magic, PEER_SEC_VERSION, 0, h).
Proof.
  intros (H1 & H2 & H3 & H4 & H5 & H6). unfold header_get, header_fmt.
  eapply reads_val; [reads_tac|by destruct h].
Qed.

Lemma accepts_header :
  accepts header_get (fun r bs => let '(m, version, flags, h) := r in
    header_wf h /\ bs = m ++ be_bytes 2 version ++ be_bytes 2 (sh_type h) ++ be_bytes 4 flags ++
      be_bytes 4 (sh_body_len h) ++ sh_session h ++ be_bytes 8 (sh_operation h) ++
      sh_association h ++ be_bytes 8 (sh_epoch h)).
Proof.
  unfold header_get. accepts_tac. split; [done|fmt_solve].
Qed.

Lemma sized_header : sized header_get 64.
Proof. change 64%nat with (4 + (2 + (2 + (4 + (4 + (16 + (8 + (16 + (8 + 0)))))))))%nat.
  unfold header_get. repeat (apply sized_bind; [eauto with wire|intros ?]). eauto with wire. Qed.

Lemma header_decode_inv buf h :
  peer_sec_header_decode buf = (0, h) ->
  header_wf h /\ header_valid h = true /\ (64 <= length buf)%nat /\ take 64 buf = header_fmt h.
Proof.
  unfold peer_sec_header_decode. destruct (Nat.ltb_spec (length buf) 64) as [|Hl]; [done|].
  pose proof (accepts_header (RCursor buf 64 false)) as A.
  pose proof (sized_header (RCursor buf 64 false) eq_refl ltac:(cbn; lia)) as [Hb Hleft].
  destruct (header_get (RCursor buf 64 false)) as [[[[m version] flags] h'] c'].
  destruct A as [_ A].
  destruct (A Hl Hb) as (bs & [Hw ->] & Hm & Hlen). cbn [r_mem r_left snd] in Hm, Hleft, Hlen.
  unfold bytes_eq, nz. case_bool_decide as Hmag; [|done].
  destruct (Z.eqb_spec version 2) as [->|]; [|done].
  destruct (Z.eqb_spec flags 0) as [->|]; [|done].
  destruct (header_valid h') eqn:Hv; [|done]. cbn. intros [= <-]. subst m.
  split_and!; [done..|]. rewrite Hm. apply take_app_length'.
  change (64%nat = length (header_fmt h')). by rewrite length_header_fmt.
Qed.

Lemma header_decode_fmt h body :
  header_wf h -> header_valid h = true -> peer_sec_header_decode (header_fmt h ++ body) = (0, h).
Proof.
  intros Hw Hv. unfold peer_sec_header_decode. pose proof (length_header_fmt h Hw) as Hl.
  rewrite length_app, (proj2 (Nat.ltb_ge _ _)) by lia.
  pose proof (reads_header h Hw body 0%nat) as R. rewrite Hl in R. cbn [Nat.add] in R.
  rewrite R. unfold bytes_eq. rewrite bool_decide_true by done. by rewrite Hv.
Qed.


(** ** Hello *)

Lemma named_spec s cap : named s cap = true <-> string_len s cap <> 0%nat.
Proof. unfold named. by rewrite negb_true_iff, Nat.eqb_neq. Qed.

Lemma named_ok s cap : named s cap = true -> padded cap s -> name_ok cap s.
Proof. intros H%named_spec P. by split. Qed.
#[export] Hint Resolve named_ok : wire.
#[global] Opaque named nonzero nz strcmp.

Lemma name_ok_named s cap : name_ok cap s -> named s cap = true.
Proof. intros [H _]. by apply named_spec. Qed.

(** Validity predicates are conjunctions of tests. *)
Ltac split_valid H := rewrite ?andb_true_iff in H; destruct_and? H.

Lemma hello_valid_names h :
  hello_valid h = true ->
  named (he_cluster h) PEER_SEC_CLUSTER_MAX = true /\ named (he_node h) PEER_SEC_NAME_MAX = true.
Proof. unfold hello_valid. intros H. split_valid H. split; assumption. Qed.

Lemma writes_hello h : hello_valid h = true -> writes (hello_put h) (hello_fmt h).
Proof.
  intros [Hc%named_spec Hn%named_spec]%hello_valid_names. unfold hello_put. writes_tac.
Qed.

Lemma reads_hello h :
  hello_wf h -> hello_valid h = true -> reads hello_get (hello_fmt h) (h, PEER_SEC_AES128_GCM).
Proof.
  intros (P1 & P2 & H3 & H4 & H5 & H6) [Hc Hn]%hello_valid_names. unfold hello_get, hello_fmt.
  pose proof (named_ok _ _ Hc P1) as NP1.
  pose proof (named_ok _ _ Hn P2) as NP2.
  eapply reads_val; [reads_tac|by destruct h].
Qed.

Lemma accepts_hello :
  accepts hello_get (fun r bs => hello_wf r.1 /\
    (r.2 = PEER_SEC_AES128_GCM -> bs = hello_fmt r.1)).
Proof.
  unfold hello_get. accepts_tac. unfold hello_wf. cbn.
  repeat match goal with H : name_ok _ _ |- _ => destruct H end.
  split; [done|]. intros ->. unfold hello_fmt. fmt_solve.
Qed.

Lemma hello_encode_fmt h cap :
  hello_valid h = true ->
  peer_sec_hello_encode h cap =
    if (length (hello_fmt h) <=? cap)%nat then Some (hello_fmt h) else None.
Proof.
  intros Hv. unfold peer_sec_hello_encode. rewrite Hv. by apply run_writer_fmt, writes_hello.
Qed.

Lemma hello_decode_fmt h :
  hello_wf h -> hello_valid h = true -> peer_sec_hello_decode (hello_fmt h) = (0, h).
Proof.
  intros Hw Hv. unfold peer_sec_hello_decode.
  rewrite (reads_all _ _ _ (reads_hello h Hw Hv)). cbn. by rewrite Hv.
Qed.

Lemma hello_decode_inv buf h :
  peer_sec_hello_decode buf = (0, h) ->
  hello_wf h /\ hello_valid h = true /\ buf = hello_fmt h.
Proof.
  unfold peer_sec_hello_decode.
  destruct (hello_get _) as [[h' suite] c] eqn:E.
  destruct (unfinished c) eqn:Hu; [done|].
  destruct (Z.eqb_spec suite PEER_SEC_AES128_GCM) as [->|]; [|done].
  destruct (hello_valid h') eqn:Hv; [|done]. cbn. intros [= <-].
  destruct (accepts_all _ _ _ _ _ accepts_hello E Hu) as [Hw Hb]. cbn in *. auto.
Qed.

(** ** Binding *)

Lemma writes_endpoint e : endpoint_valid e = true -> writes (endpoint_put e) (endpoint_fmt e).
Proof.
  intros H. unfold endpoint_valid in H. split_valid H.
  rewrite !named_spec in *.
  unfold endpoint_put. writes_tac.
Qed.

Lemma reads_endpoint e :
  endpoint_wf e -> endpoint_valid e = true -> reads endpoint_get (endpoint_fmt e) e.
Proof.
  intros (P1 & W1 & W2 & P2 & W3 & W4 & W5 & W6) H. unfold endpoint_valid in H. split_valid H.
  assert (name_ok PEER_SEC_NAME_MAX (ep_node e)) by by apply named_ok.
  assert (name_ok PEER_SEC_UID_MAX (ep_pod e)) by by apply named_ok.
  unfold endpoint_get, endpoint_fmt. eapply reads_val; [reads_tac|by destruct e].
Qed.

Lemma accepts_endpoint :
  accepts endpoint_get (fun e bs => endpoint_wf e /\ bs = endpoint_fmt e).
Proof.
  unfold endpoint_get. accepts_tac. unfold endpoint_wf. cbn.
  repeat match goal with H : name_ok _ _ |- _ => destruct H end.
  split; [done|]. unfold endpoint_fmt. fmt_solve.
Qed.
#[export] Hint Resolve writes_endpoint accepts_endpoint : wire.

Lemma binding_valid_parts b :
  peer_sec_binding_valid b = true ->
  named (bd_cluster b) PEER_SEC_CLUSTER_MAX = true /\
  endpoint_valid (bd_endpoint b).1 = true /\ endpoint_valid (bd_endpoint b).2 = true.
Proof. unfold peer_sec_binding_valid. intros H. split_valid H. done. Qed.

Lemma writes_binding b : peer_sec_binding_valid b = true -> writes (binding_put b) (binding_fmt b).
Proof.
  intros (H1%named_spec & H2 & H3)%binding_valid_parts. unfold binding_put. writes_tac.
Qed.

Lemma reads_binding b :
  binding_wf b -> peer_sec_binding_valid b = true ->
  reads binding_get (binding_fmt b) (2, PEER_SEC_AES128_GCM, b).
Proof.
  intros (P1 & W1 & W2 & ? & ? & ? & ? & ?) (Hc & V1 & V2)%binding_valid_parts.
  pose proof (named_ok _ _ Hc P1) as NP1.
  pose proof (reads_endpoint _ W1 V1). pose proof (reads_endpoint _ W2 V2).
  unfold binding_get, binding_fmt. eapply reads_val; [reads_tac|].
  destruct b as [? [] ? ? ? []]. done.
Qed.

Lemma accepts_binding :
  accepts binding_get (fun r bs => let '(version, suite, b) := r in
    binding_wf b /\ (version = 2 -> suite = 1 -> bs = binding_fmt b)).
Proof.
  unfold binding_get. accepts_tac. unfold binding_wf. cbn.
  repeat match goal with H : name_ok _ _ |- _ => destruct H end.
  split; [done|]. intros -> ->. unfold binding_fmt. fmt_solve.
Qed.

Lemma binding_encode_fmt b cap :
  peer_sec_binding_valid b = true ->
  peer_sec_binding_encode b cap =
    if (length (binding_fmt b) <=? cap)%nat then Some (binding_fmt b) else None.
Proof.
  intros Hv. unfold peer_sec_binding_encode. rewrite Hv. by apply run_writer_fmt, writes_binding.
Qed.

Lemma binding_decode_fmt b :
  binding_wf b -> peer_sec_binding_valid b = true ->
  peer_sec_binding_decode (binding_fmt b) = (0, b).
Proof.
  intros Hw Hv. unfold peer_sec_binding_decode.
  rewrite (reads_all _ _ _ (reads_binding b Hw Hv)). cbn. by rewrite Hv.
Qed.

Lemma binding_decode_inv buf b :
  peer_sec_binding_decode buf = (0, b) ->
  binding_wf b /\ peer_sec_binding_valid b = true /\ buf = binding_fmt b.
Proof.
  unfold peer_sec_binding_decode.
  destruct (binding_get _) as [[[version suite] b'] c] eqn:E.
  destruct (unfinished c) eqn:Hu; [done|].
  destruct (Z.eqb_spec version 2) as [->|]; [|done].
  destruct (Z.eqb_spec suite 1) as [->|]; [|done].
  destruct (peer_sec_binding_valid b') eqn:Hv; [|done]. cbn. intros [= <-].
  destruct (accepts_all _ _ _ _ _ accepts_binding E Hu) as [Hw Hb]. auto.
Qed.

(** ** Lanes *)

Lemma lane_end_writes l i : writes (lane_end_put l i) (lane_end_fmt l i).
Proof. unfold lane_end_put. writes_tac. Qed.
#[export] Hint Resolve lane_end_writes : wire.

Lemma writes_lane l : writes (lane_put l) (lane_fmt l).
Proof. unfold lane_put. writes_tac. Qed.

(** An encoder into a buffer of exactly the length of the format. *)
Lemma run_exact w bs n :
  writes w bs -> length bs = n ->
  (let c := w (WCursor [] n false) in
   if w_bad c || negb (w_left c =? 0)%nat then None else Some (w_out c)) = Some bs.
Proof.
  intros H <-. destruct (H (WCursor [] (length bs) false)) as (_ & F & _).
  rewrite F by done. cbn. by rewrite Nat.sub_diag.
Qed.

Lemma length_lane_fmt l :
  length (ln_gid l).1 = 16%nat -> length (ln_gid l).2 = 16%nat -> length (lane_fmt l) = 66%nat.
Proof.
  intros H1 H2. unfold lane_fmt, lane_end_fmt. cbn [at2].
  by rewrite !length_app, !length_be_bytes, H1, H2.
Qed.

Lemma lane_encode_fmt l :
  lane_wf l -> lane_valid l = true -> peer_sec_lane_encode l = Some (lane_fmt l).
Proof.
  intros Hw Hv. unfold peer_sec_lane_encode. rewrite Hv. cbn [negb].
  apply run_exact; [apply writes_lane|]. apply length_lane_fmt; apply Hw.
Qed.

Lemma accepts_lane_end :
  accepts lane_end_get (fun e bs =>
    (in_width 16 (le_worker e) /\ in_width 24 (le_qpn e) /\ in_width 24 (le_psn e) /\
     length (le_gid e) = 16%nat) /\
    bs = be_bytes 2 (le_worker e) ++ be_bytes 3 (le_qpn e) ++ be_bytes 3 (le_psn e) ++ le_gid e).
Proof. unfold lane_end_get. accepts_tac. split; [done|fmt_solve]. Qed.
#[export] Hint Resolve accepts_lane_end : wire.

Lemma reads_lane_end w q p g :
  in_width 16 w -> in_width 24 q -> in_width 24 p -> length g = 16%nat ->
  reads lane_end_get (be_bytes 2 w ++ be_bytes 3 q ++ be_bytes 3 p ++ g) (LaneEnd w q p g).
Proof. intros. unfold lane_end_get. reads_tac. Qed.

Lemma lane_valid_widths l :
  lane_valid l = true ->
  lane_wf l ->
  in_width 24 (ln_qpn l).1 /\ in_width 24 (ln_qpn l).2 /\
  in_width 24 (ln_psn l).1 /\ in_width 24 (ln_psn l).2.
Proof.
  unfold lane_valid, lane_wf, in_width, at2. destruct (_ || _) eqn:E; [done|].
  rewrite !orb_false_iff, !Z.ltb_ge in E. lia.
Qed.

Lemma reads_lane l :
  lane_wf l -> lane_valid l = true -> reads lane_get (lane_fmt l) l.
Proof.
  intros Hw Hv. destruct (lane_valid_widths l Hv Hw) as (Q1 & Q2 & S1 & S2).
  destruct Hw as (? & ? & W1 & W2 & _ & _ & _ & _ & G1 & G2 & ?).
  pose proof (reads_lane_end _ _ _ _ W1 Q1 S1 G1) as R1.
  pose proof (reads_lane_end _ _ _ _ W2 Q2 S2 G2) as R2.
  unfold lane_get, lane_fmt, lane_end_fmt. eapply reads_val; [reads_tac|].
  by destruct l as [id gen [w0 w1] [q0 q1] [p0 p1] [g0 g1] mtu].
Qed.

Lemma in_width_mono w v z : w <= v -> in_width w z -> in_width v z.
Proof.
  unfold in_width. intros H. destruct (Z.le_gt_cases 0 w).
  - pose proof (Z.pow_le_mono_r 2 w v). lia.
  - rewrite (Z.pow_neg_r 2 w) by lia. lia.
Qed.

Lemma accepts_lane : accepts lane_get (fun l bs => lane_wf l /\ bs = lane_fmt l).
Proof.
  unfold lane_get. accepts_tac. unfold lane_wf. cbn. split.
  - split_and!; try done; (eapply (in_width_mono 24); [lia|done]).
  - unfold lane_fmt, lane_end_fmt. fmt_solve.
Qed.

Lemma lane_decode_fmt l :
  lane_wf l -> lane_valid l = true -> peer_sec_lane_decode (lane_fmt l) = (0, l).
Proof.
  intros Hw Hv. unfold peer_sec_lane_decode.
  rewrite (length_lane_fmt l) by apply Hw. cbn [PEER_SEC_LANE_LEN Nat.eqb negb].
  pose proof (reads_all _ _ _ (reads_lane l Hw Hv)) as R.
  rewrite (length_lane_fmt l) in R by apply Hw. rewrite R. cbn. by rewrite Hv.
Qed.

Lemma lane_decode_inv buf l :
  peer_sec_lane_decode buf = (0, l) ->
  lane_wf l /\ lane_valid l = true /\ buf = lane_fmt l.
Proof.
  unfold peer_sec_lane_decode. destruct (_ =? _)%nat; [|done]. cbn [negb].
  destruct (lane_get _) as [l' c] eqn:E.
  destruct (unfinished c) eqn:Hu; [done|].
  destruct (lane_valid l') eqn:Hv; [|done]. cbn. intros [= <-].
  destruct (accepts_all _ _ _ _ _ accepts_lane E Hu) as [Hw Hb]. auto.
Qed.

(** ** Data envelope *)

Lemma length_data_fmt h : length (dh_association h) = 16%nat -> length (data_fmt h) = 64%nat.
Proof. intros H. unfold data_fmt. by rewrite !length_app, !length_be_bytes, H. Qed.

Lemma writes_data h : writes (data_put h) (data_fmt h).
Proof. unfold data_put. writes_tac. Qed.

Lemma data_encode_fmt h :
  data_wf h -> data_valid h = true -> peer_sec_data_encode h = Some (data_fmt h).
Proof.
  intros Hw Hv. unfold peer_sec_data_encode. rewrite Hv. cbn [negb].
  apply run_exact; [apply writes_data|]. apply length_data_fmt, Hw.
Qed.

Lemma reads_data h : data_wf h -> reads data_get (data_fmt h) (data_magic, PEER_SEC_VERSION, h).
Proof.
  intros (? & ? & ? & ? & ? & ? & ? & ?). unfold data_get, data_fmt.
  eapply reads_val; [reads_tac|by destruct h].
Qed.

Lemma accepts_data :
  accepts data_get (fun r bs => let '(m, version, h) := r in
    data_wf h /\ (m = data_magic -> version = PEER_SEC_VERSION -> bs = data_fmt h)).
Proof.
  unfold data_get. accepts_tac. unfold data_wf. cbn. split; [done|].
  intros -> ->. unfold data_fmt. fmt_solve.
Qed.

Lemma data_decode_inv buf assoc id gen h :
  peer_sec_data_decode buf assoc id gen = (0, h) ->
  data_wf h /\ data_valid h = true /\ take 64 buf = data_fmt h /\
  Z.of_nat (length buf) = 64 + dh_body_len h /\
  dh_association h = assoc /\ dh_lane_id h = id /\ dh_lane_generation h = gen.
Proof.
  unfold peer_sec_data_decode.
  destruct (Nat.ltb_spec (length buf) 64) as [|Hl]; [done|].
  destruct (_ <? _); [done|]. cbn [orb].
  pose proof (accepts_data (RCursor buf 64 false)) as A.
  destruct (data_get _) as [[[m version] h'] c] eqn:E.
  destruct (unfinished c) eqn:Hu; [done|]. unfold bytes_eq.
  case_bool_decide as Hm; [|done].
  destruct (Z.eqb_spec version PEER_SEC_VERSION) as [->|]; [|done].
  destruct (data_valid h') eqn:Hv; [|done].
  destruct (Z.eqb_spec (Z.of_nat (length buf)) (64 + dh_body_len h')) as [Hlen|]; [|done].
  case_bool_decide as Ha; [|done].
  destruct (Z.eqb_spec (dh_lane_id h') id) as [Hid|]; [|done].
  destruct (Z.eqb_spec (dh_lane_generation h') gen) as [Hgen|]; [|done].
  cbn. intros [= <-]. apply orb_false_elim in Hu as [Hb _].
  destruct A as [_ A]. destruct (A Hl Hb) as (bs & [Hw Hbs] & Hmem & _).
  specialize (Hbs Hm eq_refl). subst bs. cbn [r_mem] in Hmem.
  split_and!; [done..| |done|done|done|done].
  rewrite Hmem, <-(length_data_fmt h') by apply Hw. apply take_app_length.
Qed.

Lemma data_decode_fmt h body :
  data_wf h -> data_valid h = true -> Z.of_nat (length body) = dh_body_len h ->
  peer_sec_data_decode (data_fmt h ++ body) (dh_association h) (dh_lane_id h)
    (dh_lane_generation h) = (0, h).
Proof.
  intros Hw Hv Hb. unfold peer_sec_data_decode.
  assert (length (data_fmt h) = 64%nat) as Hl by apply length_data_fmt, Hw.
  assert (dh_body_len h <= PEER_SEC_DATA_MAX) as Hmax.
  { unfold data_valid in Hv. split_valid Hv. by apply Z.leb_le. }
  rewrite length_app, Hl, (proj2 (Nat.ltb_ge _ _)) by lia.
  rewrite (proj2 (Z.ltb_ge _ _)) by lia. cbn [orb].
  pose proof (reads_data h Hw body 0%nat) as R. rewrite Hl in R. cbn [Nat.add] in R. rewrite R.
  unfold bytes_eq. rewrite !bool_decide_true, Hv, !Z.eqb_refl by done.
  by rewrite (proj2 (Z.eqb_eq _ _)) by lia.
Qed.

(** ** Negotiation bodies *)

Definition registration_wf (r : dmesh_peer_registration) : Prop :=
  length (rg_daemon r) = DMESH_DAEMON_INCARNATION_SIZE /\ in_width 32 (rg_slot r) /\
  in_width 64 (rg_generation r) /\ length (rg_nonce r) = DMESH_REG_NONCE_SIZE.
Definition registration_fmt (r : dmesh_peer_registration) : list byte :=
  rg_daemon r ++ be_bytes 4 (rg_slot r) ++ be_bytes 8 (rg_generation r) ++ rg_nonce r.

Lemma writes_registration r : writes (registration_put r) (registration_fmt r).
Proof. unfold registration_put. writes_tac. Qed.
Lemma reads_registration r :
  registration_wf r -> reads registration_get (registration_fmt r) r.
Proof.
  intros (? & ? & ? & ?). unfold registration_get, registration_fmt.
  eapply reads_val; [reads_tac|by destruct r].
Qed.
Lemma accepts_registration :
  accepts registration_get (fun r bs => registration_wf r /\ bs = registration_fmt r).
Proof.
  unfold registration_get. accepts_tac. split; [done|]. unfold registration_fmt. fmt_solve.
Qed.
#[export] Hint Resolve writes_registration accepts_registration : wire.

Definition lane_map_wf (m : peer_sec_lane_map) : Prop :=
  in_width 64 (lm_id m) /\ in_width 64 (lm_generation m) /\
  in_width 16 (lm_worker m).1 /\ in_width 16 (lm_worker m).2.
Definition lane_map_fmt (m : peer_sec_lane_map) : list byte :=
  be_bytes 8 (lm_id m) ++ be_bytes 8 (lm_generation m) ++
  be_bytes 2 (lm_worker m).1 ++ be_bytes 2 (lm_worker m).2.

Lemma writes_lane_map m : writes (lane_map_put m) (lane_map_fmt m).
Proof. unfold lane_map_put. writes_tac. Qed.
Lemma reads_lane_map m : lane_map_wf m -> reads lane_map_get (lane_map_fmt m) m.
Proof.
  intros (? & ? & ? & ?). unfold lane_map_get, lane_map_fmt.
  eapply reads_val; [reads_tac|by destruct m as [? ? []]].
Qed.
Lemma accepts_lane_map : accepts lane_map_get (fun m bs => lane_map_wf m /\ bs = lane_map_fmt m).
Proof.
  unfold lane_map_get. accepts_tac. split; [done|]. unfold lane_map_fmt. fmt_solve.
Qed.

(** A lane array: its first [count] entries are meaningful, the rest zero. *)
Definition lanes_wf {A} (ok : A -> Prop) (zero : A) (count : Z) (l : list A) : Prop :=
  length l = PEER_SEC_LANES_MAX /\ Forall ok (live_lanes count l) /\
  drop (Z.to_nat count) l = repeat zero (PEER_SEC_LANES_MAX - Z.to_nat count).

Lemma fill_live {A} ok (z : A) count l :
  0 <= count <= 16 -> lanes_wf ok z count l ->
  fill (live_lanes count l) z = l /\ length (live_lanes count l) = Z.to_nat count.
Proof.
  intros Hc (Hl & _ & Hd). unfold fill, live_lanes in *.
  assert (length (take (Z.to_nat count) l) = Z.to_nat count) as E.
  { rewrite length_take, Hl. unfold PEER_SEC_LANES_MAX. lia. }
  split; [|done]. rewrite E, <-Hd. apply take_drop.
Qed.

Lemma live_fill {A} (ok : A -> Prop) (z : A) count l :
  0 <= count <= 16 -> length l = Z.to_nat count -> Forall ok l ->
  lanes_wf ok z count (fill l z) /\ live_lanes count (fill l z) = l.
Proof.
  intros Hc Hl Hok. unfold fill, lanes_wf, live_lanes. rewrite <-Hl.
  assert (length l <= PEER_SEC_LANES_MAX)%nat by (unfold PEER_SEC_LANES_MAX; lia).
  rewrite take_app_length, drop_app_length, length_app, repeat_length.
  split_and!; [lia|done..].
Qed.

Definition propose_wf (p : peer_sec_propose) : Prop :=
  padded PEER_SEC_CLUSTER_MAX (pp_cluster p) /\ padded DMESH_POD_UID_MAX (pp_source_pod p) /\
  padded DMESH_POD_UID_MAX (pp_target_pod p) /\ registration_wf (pp_source p) /\
  length (pp_association p) = 16%nat /\ in_width 32 (pp_rx_spi p) /\
  in_width 32 (pp_incarnation p) /\ padded PEER_SEC_SERVICE_MAX (pp_service p) /\
  in_width 16 (pp_port p) /\ in_width 16 (pp_mtu p) /\ in_width 16 (pp_lane_count p) /\
  lanes_wf lane_map_wf zero_lane_map (pp_lane_count p) (pp_lane p).

Definition propose_head_fmt (p : peer_sec_propose) : list byte :=
  be_bytes 2 PEER_SEC_VERSION ++ name_fmt PEER_SEC_CLUSTER_MAX (pp_cluster p) ++
  name_fmt DMESH_POD_UID_MAX (pp_source_pod p) ++
  name_fmt DMESH_POD_UID_MAX (pp_target_pod p) ++ registration_fmt (pp_source p) ++
  pp_association p ++ be_bytes 4 (pp_rx_spi p) ++ be_bytes 4 (pp_incarnation p) ++
  name_fmt PEER_SEC_SERVICE_MAX (pp_service p) ++ be_bytes 2 (pp_port p) ++
  be_bytes 2 (pp_mtu p) ++ be_bytes 2 (pp_lane_count p).
Definition propose_fmt (p : peer_sec_propose) : list byte :=
  propose_head_fmt p ++ concat (lane_map_fmt <$> live_lanes (pp_lane_count p) (pp_lane p)).

Lemma propose_valid_parts p :
  propose_valid p = true ->
  named (pp_cluster p) PEER_SEC_CLUSTER_MAX = true /\
  named (pp_source_pod p) DMESH_POD_UID_MAX = true /\
  named (pp_target_pod p) DMESH_POD_UID_MAX = true /\
  named (pp_service p) PEER_SEC_SERVICE_MAX = true /\ pp_lane_count p <= 16.
Proof.
  unfold propose_valid. destruct (_ || _) eqn:E; [done|]. intros _.
  rewrite !orb_false_iff, !negb_false_iff, !Z.ltb_ge in E. destruct_and? E.
  split_and!; done.
Qed.

Lemma writes_propose p : propose_valid p = true -> writes (propose_put p) (propose_fmt p).
Proof.
  intros (?%named_spec & ?%named_spec & ?%named_spec & ?%named_spec & _)%propose_valid_parts.
  unfold propose_put. eapply writes_eq.
  - eapply writes_seq; [writes_go|]. apply writes_each. intros. apply writes_lane_map.
  - unfold propose_fmt, propose_head_fmt. fmt_solve.
Qed.

Lemma propose_encode_fmt p cap :
  propose_valid p = true ->
  peer_sec_propose_encode p cap =
    if (length (propose_fmt p) <=? cap)%nat then Some (propose_fmt p) else None.
Proof.
  intros Hv. unfold peer_sec_propose_encode. rewrite Hv. by apply run_writer_fmt, writes_propose.
Qed.

Lemma reads_propose_head p :
  propose_wf p -> propose_valid p = true ->
  reads propose_head_get (propose_head_fmt p) (PEER_SEC_VERSION, with_lanes p []).
Proof.
  intros (P1 & P2 & P3 & R & ? & ? & ? & P4 & ? & ? & ? & _) (N1 & N2 & N3 & N4 & _)%propose_valid_parts.
  pose proof (named_ok _ _ N1 P1). pose proof (named_ok _ _ N2 P2).
  pose proof (named_ok _ _ N3 P3). pose proof (named_ok _ _ N4 P4).
  pose proof (reads_registration _ R).
  unfold propose_head_get, propose_head_fmt. eapply reads_val; [reads_tac|done].
Qed.

Lemma accepts_propose_head :
  accepts propose_head_get (fun r bs =>
    (r.1 = PEER_SEC_VERSION -> bs = propose_head_fmt r.2) /\
    in_width 16 (pp_lane_count r.2) /\
    forall l, lanes_wf lane_map_wf zero_lane_map (pp_lane_count r.2) l ->
      propose_wf (with_lanes r.2 l)).
Proof.
  unfold propose_head_get. accepts_tac. cbn [fst snd pp_lane_count]. split_and!.
  - intros ->. unfold propose_head_fmt. fmt_solve.
  - done.
  - intros l Hl. unfold propose_wf. cbn.
    repeat match goal with H : name_ok _ _ |- _ => destruct H end. done.
Qed.

Lemma propose_decode_fmt p :
  propose_wf p -> propose_valid p = true -> peer_sec_propose_decode (propose_fmt p) = (0, p).
Proof.
  intros Hw Hv. destruct (propose_valid_parts p Hv) as (_ & _ & _ & _ & Hc).
  pose proof Hw as (_ & _ & _ & _ & _ & _ & _ & _ & _ & _ & Hcw & Hl).
  assert (0 <= pp_lane_count p <= 16) as Hr by (unfold in_width in Hcw; lia).
  destruct (fill_live _ _ _ _ Hr Hl) as [Hfill Hlen].
  unfold peer_sec_propose_decode, propose_fmt. rewrite length_app.
  rewrite (reads_propose_head p Hw Hv). cbn [r_bad with_lanes pp_lane_count orb].
  rewrite (proj2 (Z.ltb_ge _ _)) by done. rewrite <-Hlen.
  rewrite (reads_all _ _ _ (reads_times lane_map_get lane_map_fmt (live_lanes (pp_lane_count p) (pp_lane p)) ltac:(
    intros m Hm; apply reads_lane_map; destruct Hl as (_ & Hf & _);
    by eapply Forall_forall in Hf))).
  unfold with_lanes at 1 2 3. cbn. rewrite Hfill. destruct p; cbn in *. by rewrite Hv.
Qed.

Lemma propose_decode_inv buf p :
  peer_sec_propose_decode buf = (0, p) ->
  propose_wf p /\ propose_valid p = true /\ buf = propose_fmt p.
Proof.
  unfold peer_sec_propose_decode.
  destruct (propose_head_get _) as [[version p0] c] eqn:E.
  destruct (r_bad c) eqn:Hb; [done|].
  destruct (accepts_split _ _ _ _ _ accepts_propose_head E Hb) as (bs & Hp & -> & Hleft).
  destruct (Z.ltb_spec (Z.of_nat PEER_SEC_LANES_MAX) (pp_lane_count p0)) as [|Hmax]; [done|].
  cbn [orb]. destruct (r_times _ lane_map_get c) as [l c'] eqn:E2.
  destruct (unfinished c') eqn:Hu; [done|].
  destruct (accepts_rest _ _ _ _ _ (accepts_times _ _ _ _ accepts_lane_map) E2 Hleft Hu)
    as [[Hl Hok] Hc].
  destruct (Z.eqb_spec version PEER_SEC_VERSION) as [->|]; [|done].
  destruct (propose_valid _) eqn:Hv; [|done]. cbn [orb negb]. intros [= <-].
  cbn [fst snd] in Hp. destruct Hp as (Hbs & Hcw & Hwf).
  assert (0 <= pp_lane_count p0 <= 16) as Hr.
  { change (Z.of_nat PEER_SEC_LANES_MAX) with 16 in Hmax. unfold in_width in Hcw. lia. }
  destruct (live_fill lane_map_wf zero_lane_map _ l Hr Hl Hok) as [Hw Hlive].
  split_and!; [by apply Hwf|done|]. unfold propose_fmt. cbn [with_lanes pp_lane pp_lane_count].
  rewrite Hlive, <-Hc. by rewrite Hbs.
Qed.

Definition half_lane_wf (l : peer_sec_half_lane) : Prop :=
  in_width 64 (hl_id l) /\ in_width 64 (hl_generation l) /\ in_width 32 (hl_qpn l) /\
  in_width 32 (hl_psn l) /\ length (hl_gid l) = 16%nat.
Definition half_lane_fmt (l : peer_sec_half_lane) : list byte :=
  be_bytes 8 (hl_id l) ++ be_bytes 8 (hl_generation l) ++
  be_bytes 3 (hl_qpn l) ++ be_bytes 3 (hl_psn l) ++ hl_gid l.

Lemma writes_half_lane l : writes (half_lane_put l) (half_lane_fmt l).
Proof. unfold half_lane_put. writes_tac. Qed.
Lemma reads_half_lane l :
  half_lane_wf l -> half_lane_valid l = true -> reads half_lane_get (half_lane_fmt l) l.
Proof.
  intros (? & ? & Q & P & ?) Hv. unfold half_lane_valid in Hv. split_valid Hv.
  rewrite Z.leb_le in *.
  assert (in_width 24 (hl_qpn l)) by (unfold in_width in *; lia).
  assert (in_width 24 (hl_psn l)) by (unfold in_width in *; lia).
  unfold half_lane_get, half_lane_fmt. eapply reads_val; [reads_tac|by destruct l].
Qed.
Lemma accepts_half_lane :
  accepts half_lane_get (fun l bs => half_lane_wf l /\ bs = half_lane_fmt l).
Proof.
  unfold half_lane_get. accepts_tac. split.
  - unfold half_lane_wf. cbn. split_and!; try done; (eapply (in_width_mono 24); [lia|done]).
  - unfold half_lane_fmt. fmt_solve.
Qed.

(** Outside ACCEPT the registration is absent and must be zero. *)
Definition lane_params_wf (p : peer_sec_lane_params) : Prop :=
  length (lp_association p) = 16%nat /\ in_width 32 (lp_rx_spi p) /\
  registration_wf (lp_registration p) /\ in_width 16 (lp_mtu p) /\
  in_width 16 (lp_lane_count p) /\
  lanes_wf half_lane_wf zero_half_lane (lp_lane_count p) (lp_lane p).

Definition accept_fmt (p : peer_sec_lane_params) (accept : bool) : list byte :=
  if accept then be_bytes 4 (lp_rx_spi p) ++ registration_fmt (lp_registration p) else [].
Definition lane_params_head_fmt (p : peer_sec_lane_params) (accept : bool) : list byte :=
  be_bytes 2 PEER_SEC_VERSION ++ be_bytes 2 (if accept then 1 else 0) ++ lp_association p ++
  accept_fmt p accept ++ be_bytes 2 (lp_mtu p) ++ be_bytes 2 (lp_lane_count p).
Definition lane_params_fmt (p : peer_sec_lane_params) (accept : bool) : list byte :=
  lane_params_head_fmt p accept ++
  concat (half_lane_fmt <$> live_lanes (lp_lane_count p) (lp_lane p)).

Lemma writes_accept p accept : writes (accept_put p accept) (accept_fmt p accept).
Proof. destruct accept; cbn; [writes_tac|apply writes_nil]. Qed.
#[export] Hint Resolve writes_accept : wire.

Lemma writes_lane_params p accept :
  writes (lane_params_put p accept) (lane_params_fmt p accept).
Proof.
  unfold lane_params_put. eapply writes_eq.
  - eapply writes_seq; [writes_go|]. apply writes_each. intros. apply writes_half_lane.
  - unfold lane_params_fmt, lane_params_head_fmt. fmt_solve.
Qed.

Lemma lane_params_encode_fmt p accept cap :
  lane_params_valid p accept = true ->
  peer_sec_lane_params_encode p accept cap =
    if (length (lane_params_fmt p accept) <=? cap)%nat
    then Some (lane_params_fmt p accept) else None.
Proof.
  intros Hv. unfold peer_sec_lane_params_encode. rewrite Hv.
  apply run_writer_fmt, writes_lane_params.
Qed.

Lemma zero_bytes n bs : length bs = n -> nonzero bs = false -> bs = repeat x00 n.
Proof.
  intros <- H. induction bs as [|b bs IH]; [done|].
  destruct (decide (b = x00)) as [->|Hne].
  - cbn. f_equal. apply IH. destruct (nonzero bs) eqn:E; [|done].
    rewrite <-H. symmetry. apply nonzero_spec. apply nonzero_spec in E as (b & ? & ?).
    exists b. split; [by right|done].
  - rewrite (proj2 (nonzero_spec (b :: bs))) in H; [done|]. exists b. split; [by left|done].
Qed.

Transparent nz.
Lemma registration_zero r :
  registration_wf r -> registration_nonzero r = false -> r = zero_registration.
Proof.
  intros (H1 & _ & _ & H4) H. unfold registration_nonzero, nz in H.
  rewrite !orb_false_iff, !negb_false_iff, !Z.eqb_eq in H.
  destruct H as [[[Hd Hs] Hg] Hn]. destruct r as [d s g n]; cbn in *. subst.
  by rewrite (zero_bytes _ d H1 Hd), (zero_bytes _ n H4 Hn).
Qed.
Opaque nz.

Lemma lane_params_valid_parts p accept :
  lane_params_valid p accept = true ->
  lp_lane_count p <= 16 /\ forallb half_lane_valid (live_lanes (lp_lane_count p) (lp_lane p)) = true /\
  (accept = false -> nz (lp_rx_spi p) = false /\ registration_nonzero (lp_registration p) = false).
Proof.
  unfold lane_params_valid, lane_ids_valid. destruct (_ || _); [done|].
  destruct (accept && _); [done|]. destruct (negb accept && _) eqn:Ha; [done|].
  intros [Hl Hi]%andb_true_iff. destruct ((_ =? 0) || _) eqn:E; [done|].
  rewrite orb_false_iff, Z.ltb_ge in E. destruct E as [_ E].
  change (Z.of_nat PEER_SEC_LANES_MAX) with 16 in E. split_and!; [done..|].
  intros ->. by apply orb_false_elim in Ha.
Qed.

Definition lane_params_head (p : peer_sec_lane_params) : Z * dmesh_peer_registration :=
  (lp_rx_spi p, lp_registration p).

Transparent nz.
Lemma reads_lane_params_head p accept :
  lane_params_wf p -> lane_params_valid p accept = true ->
  reads (lane_params_head_get accept) (lane_params_head_fmt p accept)
    (PEER_SEC_VERSION, if accept then 1 else 0, lp_association p,
     (lp_rx_spi p, lp_registration p), lp_mtu p, lp_lane_count p).
Proof.
  intros (? & ? & R & ? & ? & _) (_ & _ & Hz)%lane_params_valid_parts.
  pose proof (reads_registration _ R) as Hr.
  assert (reads (accept_get accept) (accept_fmt p accept) (lp_rx_spi p, lp_registration p)).
  { destruct accept; cbn; [eapply reads_val; [reads_tac|done]|].
    destruct (Hz eq_refl) as [Hs Hg]. rewrite (registration_zero _ R Hg).
    unfold nz in Hs. apply negb_false_iff, Z.eqb_eq in Hs as ->. apply reads_ret. }
  unfold lane_params_head_get, lane_params_head_fmt.
  destruct accept; (eapply reads_val; [reads_tac|done]).
Qed.
Opaque nz.

Lemma accepts_accept accept :
  accepts (accept_get accept) (fun r bs =>
    (in_width 32 r.1 /\ registration_wf r.2) /\
    bs = (if accept then be_bytes 4 r.1 ++ registration_fmt r.2 else []) /\
    (accept = false -> r = (0, zero_registration))).
Proof.
  destruct accept; unfold accept_get.
  - accepts_tac. cbn. split_and!; [done..|fmt_solve|done].
  - eapply accepts_weaken; [apply accepts_ret|]. intros ? ? [-> ->]. cbn.
    split_and!; try done; unfold in_width; cbn; lia.
Qed.
#[export] Hint Resolve accepts_accept : wire.

Lemma accepts_lane_params_head accept :
  accepts (lane_params_head_get accept) (fun r bs =>
    let '(version, kind, assoc, ac, mtu, count) := r in
    (version = PEER_SEC_VERSION -> kind = (if accept then 1 else 0) -> forall l,
       bs = lane_params_head_fmt (SecLaneParams assoc ac.1 ac.2 mtu count l) accept) /\
    in_width 16 count /\
    forall l, lanes_wf half_lane_wf zero_half_lane count l ->
      lane_params_wf (SecLaneParams assoc ac.1 ac.2 mtu count l)).
Proof.
  unfold lane_params_head_get. accepts_tac. split_and!.
  - intros -> -> l. unfold lane_params_head_fmt. destruct accept; fmt_solve.
  - done.
  - intros l Hl. unfold lane_params_wf. cbn. done.
Qed.

Lemma lane_params_decode_fmt p accept :
  lane_params_wf p -> lane_params_valid p accept = true ->
  peer_sec_lane_params_decode (lane_params_fmt p accept) accept = (0, p).
Proof.
  intros Hw Hv. destruct (lane_params_valid_parts p accept Hv) as (Hc & Hh & _).
  pose proof Hw as (_ & _ & _ & _ & Hcw & Hl).
  assert (0 <= lp_lane_count p <= 16) as Hr by (unfold in_width in Hcw; lia).
  destruct (fill_live _ _ _ _ Hr Hl) as [Hfill Hlen].
  unfold peer_sec_lane_params_decode, lane_params_fmt. rewrite length_app.
  rewrite (reads_lane_params_head p accept Hw Hv). cbn [r_bad orb].
  rewrite (proj2 (Z.ltb_ge _ _)) by done. rewrite <-Hlen.
  assert (forall m, m ∈ live_lanes (lp_lane_count p) (lp_lane p) ->
            reads half_lane_get (half_lane_fmt m) m) as Hrd.
  { intros m Hm. apply reads_half_lane.
    - destruct Hl as (_ & Hf & _). by eapply Forall_forall in Hf.
    - rewrite forallb_forall in Hh. by apply Hh, list_elem_of_In. }
  rewrite (reads_all _ _ _ (reads_times half_lane_get half_lane_fmt _ Hrd)).
  cbn [fst snd]. rewrite Hfill. destruct p; cbn in *. by rewrite Hv, Z.eqb_refl.
Qed.

Lemma lane_params_decode_inv buf accept p :
  peer_sec_lane_params_decode buf accept = (0, p) ->
  lane_params_wf p /\ lane_params_valid p accept = true /\ buf = lane_params_fmt p accept.
Proof.
  unfold peer_sec_lane_params_decode.
  destruct (lane_params_head_get _ _) as [[[[[[version kind] assoc] ac] mtu] count] c] eqn:E.
  destruct (r_bad c) eqn:Hb; [done|].
  destruct (accepts_split _ _ _ _ _ (accepts_lane_params_head accept) E Hb) as (bs & Hp & -> & Hleft).
  destruct (Z.ltb_spec (Z.of_nat PEER_SEC_LANES_MAX) count) as [|Hmax]; [done|].
  cbn [orb]. destruct (r_times _ half_lane_get c) as [l c'] eqn:E2.
  destruct (unfinished c') eqn:Hu; [done|].
  destruct (accepts_rest _ _ _ _ _ (accepts_times _ _ _ _ accepts_half_lane) E2 Hleft Hu)
    as [[Hl Hok] Hc].
  destruct (Z.eqb_spec version PEER_SEC_VERSION) as [->|]; [|done].
  destruct (Z.eqb_spec kind (if accept then 1 else 0)) as [->|]; [|done].
  destruct (lane_params_valid _ _) eqn:Hv; [|done]. cbn [orb negb]. intros [= <-].
  destruct Hp as (Hbs & Hcw & Hwf).
  assert (0 <= count <= 16) as Hr.
  { change (Z.of_nat PEER_SEC_LANES_MAX) with 16 in Hmax. unfold in_width in Hcw. lia. }
  destruct (live_fill half_lane_wf zero_half_lane _ l Hr Hl Hok) as [Hw Hlive].
  split_and!; [by apply Hwf|done|]. unfold lane_params_fmt. cbn [lp_lane lp_lane_count].
  rewrite Hlive, <-Hc. by rewrite (Hbs eq_refl eq_refl (fill l zero_half_lane)).
Qed.

(** ** Rekey and error bodies *)

Definition rekey_fmt (spi : Z * Z) : list byte :=
  be_bytes 2 PEER_SEC_VERSION ++ be_bytes 4 spi.1 ++ be_bytes 4 spi.2.
Lemma writes_rekey spi : writes (rekey_put spi) (rekey_fmt spi).
Proof. unfold rekey_put. writes_tac. Qed.
Lemma reads_rekey spi :
  in_width 32 spi.1 -> in_width 32 spi.2 -> reads rekey_get (rekey_fmt spi) (PEER_SEC_VERSION, spi).
Proof. intros. unfold rekey_get, rekey_fmt. eapply reads_val; [reads_tac|by destruct spi]. Qed.
Lemma accepts_rekey :
  accepts rekey_get (fun r bs => (in_width 32 r.2.1 /\ in_width 32 r.2.2) /\
    (r.1 = PEER_SEC_VERSION -> bs = rekey_fmt r.2)).
Proof.
  unfold rekey_get. accepts_tac. cbn. split; [done|]. intros ->. unfold rekey_fmt. fmt_solve.
Qed.
Lemma length_rekey_fmt spi : length (rekey_fmt spi) = PEER_SEC_REKEY_LEN.
Proof. unfold rekey_fmt. by rewrite !length_app, !length_be_bytes. Qed.

Lemma rekey_encode_fmt spi :
  rekey_spi_bad spi.1 spi.2 = false -> peer_sec_rekey_encode spi = Some (rekey_fmt spi).
Proof.
  intros H. unfold peer_sec_rekey_encode, at2. rewrite H.
  apply run_exact; [apply writes_rekey|apply length_rekey_fmt].
Qed.

Lemma rekey_decode_inv buf spi :
  peer_sec_rekey_decode buf = (0, spi) ->
  in_width 32 spi.1 /\ in_width 32 spi.2 /\ rekey_spi_bad spi.1 spi.2 = false /\
  buf = rekey_fmt spi.
Proof.
  unfold peer_sec_rekey_decode, at2. destruct (_ =? _)%nat; [|done]. cbn [negb].
  destruct (rekey_get _) as [[version spi'] c] eqn:E.
  destruct (unfinished c) eqn:Hu; [done|].
  destruct (Z.eqb_spec version PEER_SEC_VERSION) as [->|]; [|done]. cbn [orb negb].
  destruct (rekey_spi_bad _ _) eqn:Hb; [done|]. intros [= <-].
  destruct (accepts_all _ _ _ _ _ accepts_rekey E Hu) as [[? ?] Hbs]. cbn in *. auto.
Qed.

Lemma rekey_decode_fmt spi :
  in_width 32 spi.1 -> in_width 32 spi.2 -> rekey_spi_bad spi.1 spi.2 = false ->
  peer_sec_rekey_decode (rekey_fmt spi) = (0, spi).
Proof.
  intros H1 H2 Hb. unfold peer_sec_rekey_decode.
  rewrite (reads_all _ _ _ (reads_rekey spi H1 H2)), length_rekey_fmt. cbn. by rewrite Hb.
Qed.

Definition error_fmt (code : Z) : list byte := be_bytes 2 PEER_SEC_VERSION ++ be_bytes 2 code.
Lemma writes_error code : writes (error_put code) (error_fmt code).
Proof. unfold error_put. writes_tac. Qed.
Lemma length_error_fmt code : length (error_fmt code) = PEER_SEC_ERROR_LEN.
Proof. unfold error_fmt. by rewrite !length_app, !length_be_bytes. Qed.
Lemma reads_error code :
  in_width 16 code -> reads error_get (error_fmt code) (PEER_SEC_VERSION, code).
Proof. intros. unfold error_get, error_fmt. eapply reads_val; [reads_tac|done]. Qed.
Lemma accepts_error :
  accepts error_get (fun r bs => in_width 16 r.2 /\
    (r.1 = PEER_SEC_VERSION -> bs = error_fmt r.2)).
Proof.
  unfold error_get. accepts_tac. cbn. split; [done|]. intros ->. unfold error_fmt. fmt_solve.
Qed.

Lemma error_encode_fmt code :
  (code <? PEER_SEC_ERR_REFUSED) || (PEER_SEC_ERR_MISMATCH <? code) = false ->
  peer_sec_error_encode code = Some (error_fmt code).
Proof.
  intros H. unfold peer_sec_error_encode. rewrite H.
  apply run_exact; [apply writes_error|apply length_error_fmt].
Qed.

(** ** Exactness of the codecs

    Each decoder accepts a buffer exactly when it is the encoding of the
    structure it returns: encoding then decoding gives the structure back, and
    no message has two encodings. *)

Lemma header_decode_iff buf h :
  peer_sec_header_decode buf = (0, h) <->
  header_wf h /\ (64 <= length buf)%nat /\ peer_sec_header_encode h = Some (take 64 buf).
Proof.
  split.
  - intros (Hw & Hv & Hl & Ht)%header_decode_inv. split_and!; [done..|].
    by rewrite Ht, header_encode_fmt.
  - intros (Hw & Hl & He). destruct (header_valid h) eqn:Hv.
    + rewrite header_encode_fmt in He by done. injection He as He.
      rewrite <-(take_drop 64 buf), <-He. by apply header_decode_fmt.
    + unfold peer_sec_header_encode in He. by rewrite Hv in He.
Qed.

(** A control header is accepted exactly when the first 64 bytes are the encoding of the header returned; what follows belongs to the body. [peer_sec_header_decode] asks for more bytes exactly on a short read, its only other status is the malformed one, and it never exposes a partial header: every non-zero status comes with the zeroed structure. *)
Lemma header_decode_exact buf :
  (forall h, peer_sec_header_decode buf = (0, h) <->
     header_wf h /\ (64 <= length buf)%nat /\ peer_sec_header_encode h = Some (take 64 buf)) /\
  let '(status, h) := peer_sec_header_decode buf in
  (status = 1 <-> (length buf < 64)%nat) /\
  (status = 0 \/ status = 1 \/ status = -1) /\ (status <> 0 -> h = zero_header).
Proof.
  split; [apply header_decode_iff|].
  unfold peer_sec_header_decode. destruct (Nat.ltb_spec (length buf) 64) as [Hl|Hl].
  - repeat split; auto.
  - destruct (header_get _) as [[[[m v] f] h] c].
    destruct (_ || _); repeat split; auto; first [done | lia].
Qed.

(** HELLO bodies. *)
Lemma hello_decode_exact buf h :
  peer_sec_hello_decode buf = (0, h) <->
  hello_wf h /\ peer_sec_hello_encode h (length buf) = Some buf.
Proof.
  split.
  - intros (Hw & Hv & ->)%hello_decode_inv. rewrite hello_encode_fmt by done.
    by rewrite Nat.leb_refl.
  - intros [Hw He]. destruct (hello_valid h) eqn:Hv.
    + rewrite hello_encode_fmt in He by done. destruct (_ <=? _)%nat; [|done].
      injection He as <-. by apply hello_decode_fmt.
    + unfold peer_sec_hello_encode in He. by rewrite Hv in He.
Qed.

(** SA bindings. *)
Lemma binding_decode_exact buf b :
  peer_sec_binding_decode buf = (0, b) <->
  binding_wf b /\ peer_sec_binding_encode b (length buf) = Some buf.
Proof.
  split.
  - intros (Hw & Hv & ->)%binding_decode_inv. rewrite binding_encode_fmt by done.
    by rewrite Nat.leb_refl.
  - intros [Hw He]. destruct (peer_sec_binding_valid b) eqn:Hv.
    + rewrite binding_encode_fmt in He by done. destruct (_ <=? _)%nat; [|done].
      injection He as <-. by apply binding_decode_fmt.
    + unfold peer_sec_binding_encode in He. by rewrite Hv in He.
Qed.

(** Lanes. *)
Lemma lane_decode_exact buf l :
  peer_sec_lane_decode buf = (0, l) <-> lane_wf l /\ peer_sec_lane_encode l = Some buf.
Proof.
  split.
  - intros (Hw & Hv & ->)%lane_decode_inv. by rewrite lane_encode_fmt.
  - intros [Hw He]. destruct (lane_valid l) eqn:Hv.
    + rewrite lane_encode_fmt in He by done. injection He as <-. by apply lane_decode_fmt.
    + unfold peer_sec_lane_encode in He. by rewrite Hv in He.
Qed.

(** Data envelopes: the decoder accepts one RDMA message exactly when it is
    the encoding of a header for this association, lane and lane generation,
    followed by exactly the body it announces. *)
Lemma data_envelope_exact buf assoc id gen h :
  peer_sec_data_decode buf assoc id gen = (0, h) <->
  data_wf h /\ peer_sec_data_encode h = Some (take 64 buf) /\
  Z.of_nat (length buf) = 64 + dh_body_len h /\
  dh_association h = assoc /\ dh_lane_id h = id /\ dh_lane_generation h = gen.
Proof.
  split.
  - intros (Hw & Hv & Ht & Hr)%data_decode_inv. by rewrite data_encode_fmt, Ht by done.
  - intros (Hw & He & Hl & <- & <- & <-). destruct (data_valid h) eqn:Hv.
    + rewrite data_encode_fmt in He by done. injection He as He.
      destruct Hw as (H1 & H2 & H3).
      rewrite <-(take_drop 64 buf), <-He. apply data_decode_fmt; [done..|].
      rewrite length_drop. unfold in_width in H2. lia.
    + unfold peer_sec_data_encode in He. by rewrite Hv in He.
Qed.

(** PROPOSE bodies, with their table of lanes. *)
Lemma propose_decode_exact buf p :
  peer_sec_propose_decode buf = (0, p) <->
  propose_wf p /\ peer_sec_propose_encode p (length buf) = Some buf.
Proof.
  split.
  - intros (Hw & Hv & ->)%propose_decode_inv. rewrite propose_encode_fmt by done.
    by rewrite Nat.leb_refl.
  - intros [Hw He]. destruct (propose_valid p) eqn:Hv.
    + rewrite propose_encode_fmt in He by done. destruct (_ <=? _)%nat; [|done].
      injection He as <-. by apply propose_decode_fmt.
    + unfold peer_sec_propose_encode in He. by rewrite Hv in He.
Qed.

Lemma lane_params_status buf accept st p :
  peer_sec_lane_params_decode buf accept = (st, p) -> st = 0 \/ st = -1.
Proof.
  unfold peer_sec_lane_params_decode.
  destruct (lane_params_head_get _ _) as [[[[[[? ?] ?] ?] ?] ?] c].
  destruct (_ || _); [by intros [= <- _]; right|]. destruct (r_times _ _ _).
  destruct (_ || _); intros [= <- _]; auto.
Qed.

Lemma lane_params_kinds_differ p p' accept :
  lane_params_fmt p accept <> lane_params_fmt p' (negb accept).
Proof.
  unfold lane_params_fmt, lane_params_head_fmt. rewrite <-!app_assoc.
  intros [_ E]%app_inj_1; [|done].
  apply app_inj_1 in E as [E _]; [|by rewrite !length_be_bytes].
  apply (f_equal be_num) in E.
  rewrite !be_num_be_bytes_small in E by (lia || (destruct accept; split; vm_compute; congruence)).
  by destruct accept.
Qed.

(** ACCEPT and LANE_PARAMS bodies; the two layouts never decode as each
    other. *)
Lemma lane_params_decode_exact buf accept p :
  (peer_sec_lane_params_decode buf accept = (0, p) <->
   lane_params_wf p /\ peer_sec_lane_params_encode p accept (length buf) = Some buf) /\
  (peer_sec_lane_params_decode buf accept = (0, p) ->
   (peer_sec_lane_params_decode buf (negb accept)).1 = -1).
Proof.
  split; [split|].
  - intros (Hw & Hv & ->)%lane_params_decode_inv. rewrite lane_params_encode_fmt by done.
    by rewrite Nat.leb_refl.
  - intros [Hw He]. destruct (lane_params_valid p accept) eqn:Hv.
    + rewrite lane_params_encode_fmt in He by done. destruct (_ <=? _)%nat; [|done].
      injection He as <-. by apply lane_params_decode_fmt.
    + unfold peer_sec_lane_params_encode in He. by rewrite Hv in He.
  - intros (_ & _ & E)%lane_params_decode_inv.
    destruct (peer_sec_lane_params_decode buf (negb accept)) as [st p'] eqn:E'. cbn.
    destruct (lane_params_status buf (negb accept) st p' E') as [->|]; [|done].
    apply lane_params_decode_inv in E' as (_ & _ & E').
    exfalso. by apply (lane_params_kinds_differ p p' accept); rewrite <-E.
Qed.

(** REKEY and ERROR bodies. *)
Lemma rekey_error_decode_exact buf spi code :
  (peer_sec_rekey_decode buf = (0, spi) <->
   (in_width 32 spi.1 /\ in_width 32 spi.2) /\ peer_sec_rekey_encode spi = Some buf) /\
  (peer_sec_error_decode buf = (0, code) <-> peer_sec_error_encode code = Some buf).
Proof.
  split; split.
  - intros (H1 & H2 & Hb & ->)%rekey_decode_inv. split; [done|by apply rekey_encode_fmt].
  - intros [[H1 H2] He]. destruct (rekey_spi_bad spi.1 spi.2) eqn:Hb.
    + unfold peer_sec_rekey_encode, at2 in He. by rewrite Hb in He.
    + rewrite rekey_encode_fmt in He by done. injection He as <-. by apply rekey_decode_fmt.
  - unfold peer_sec_error_decode.
    destruct (_ =? _)%nat eqn:Hl; [|done]. cbn [negb].
    destruct (error_get _) as [[version value] c] eqn:E.
    destruct (unfinished c) eqn:Hu; [done|].
    destruct (Z.eqb_spec version PEER_SEC_VERSION) as [->|]; [|done]. cbn [orb negb].
    destruct (accepts_all _ _ _ _ _ accepts_error E Hu) as [Hw Hbs]. cbn [fst snd] in *.
    destruct (_ || _) eqn:Hr; [done|]. intros [= <-].
    by rewrite error_encode_fmt, (Hbs eq_refl).
  - intros He. destruct ((code <? PEER_SEC_ERR_REFUSED) || (PEER_SEC_ERR_MISMATCH <? code)) eqn:Hr.
    { unfold peer_sec_error_encode in He. by rewrite Hr in He. }
    rewrite error_encode_fmt in He by done. injection He as <-.
    unfold peer_sec_error_decode. rewrite length_error_fmt at 1. cbn [negb Nat.eqb].
    rewrite !orb_false_iff, !Z.ltb_ge in Hr.
    rewrite (reads_all _ _ _ (reads_error code ltac:(
      unfold in_width; change PEER_SEC_ERR_REFUSED with 1 in Hr;
      change PEER_SEC_ERR_MISMATCH with 6 in Hr; lia))). cbn [unfinished r_bad r_left orb].
    rewrite !(proj2 (Z.ltb_ge _ _)) by apply Hr. done.
Qed.

(** C40: The security codec is exact. The header decoder accepts exactly the encodings of valid headers, asks for more bytes exactly on a short read and exposes no partial header; the HELLO, binding, lane, PROPOSE, ACCEPT, LANE_PARAMS, REKEY and ERROR decoders accept a buffer exactly when it is the encoding of the well-formed message they return; a buffer never decodes both as ACCEPT and as LANE_PARAMS; and the data decoder accepts one RDMA message exactly when it is the encoding of a header for this association, lane and lane generation, followed by exactly the body it announces. *)
Theorem control_codec_exact :
  (forall buf,
     (forall h, peer_sec_header_decode buf = (0, h) <->
        header_wf h /\ (64 <= length buf)%nat /\ peer_sec_header_encode h = Some (take 64 buf)) /\
     let '(status, h) := peer_sec_header_decode buf in
     (status = 1 <-> (length buf < 64)%nat) /\
     (status = 0 \/ status = 1 \/ status = -1) /\ (status <> 0 -> h = zero_header)) /\
  (forall buf b, peer_sec_binding_decode buf = (0, b) <->
     binding_wf b /\ peer_sec_binding_encode b (length buf) = Some buf) /\
  (forall buf h, peer_sec_hello_decode buf = (0, h) <->
     hello_wf h /\ peer_sec_hello_encode h (length buf) = Some buf) /\
  (forall buf l, peer_sec_lane_decode buf = (0, l) <-> lane_wf l /\ peer_sec_lane_encode l = Some buf) /\
  (forall buf p, peer_sec_propose_decode buf = (0, p) <->
     propose_wf p /\ peer_sec_propose_encode p (length buf) = Some buf) /\
  (forall buf accept p, (peer_sec_lane_params_decode buf accept = (0, p) <->
     lane_params_wf p /\ peer_sec_lane_params_encode p accept (length buf) = Some buf) /\
     (peer_sec_lane_params_decode buf accept = (0, p) -> (peer_sec_lane_params_decode buf (negb accept)).1 = -1)) /\
  (forall buf spi, peer_sec_rekey_decode buf = (0, spi) <->
     (in_width 32 spi.1 /\ in_width 32 spi.2) /\ peer_sec_rekey_encode spi = Some buf) /\
  (forall buf code, peer_sec_error_decode buf = (0, code) <-> peer_sec_error_encode code = Some buf) /\
  (forall buf assoc id gen h, peer_sec_data_decode buf assoc id gen = (0, h) <->
     data_wf h /\ peer_sec_data_encode h = Some (take 64 buf) /\
     Z.of_nat (length buf) = 64 + dh_body_len h /\
     dh_association h = assoc /\ dh_lane_id h = id /\ dh_lane_generation h = gen).
Proof.
  split; [apply header_decode_exact|]. split; [apply binding_decode_exact|]. split_and!; intros.
  - apply hello_decode_exact.
  - apply lane_decode_exact.
  - apply propose_decode_exact.
  - apply lane_params_decode_exact.
  - apply (rekey_error_decode_exact _ _ 0).
  - apply (rekey_error_decode_exact _ (0, 0)).
  - apply data_envelope_exact.
Qed.

(** ** Key derivation *)

Lemma length_name_fmt cap s : string_len s cap <> 0%nat -> (length (name_fmt cap s) <= S cap)%nat.
Proof.
  intros (t & rest & -> & _ & Hn & Hl)%string_len_inv. unfold name_fmt.
  rewrite length_app, length_be_bytes, length_take, Hn. lia.
Qed.

(** A binding always fits the exporter context with the direction byte. *)
Lemma length_endpoint_fmt e :
  endpoint_wf e -> endpoint_valid e = true -> (length (endpoint_fmt e) <= 492)%nat.
Proof.
  intros (_ & H1 & H2 & _ & H3 & _ & _ & H4) Hv. unfold endpoint_valid in Hv. split_valid Hv.
  rewrite named_spec in *. unfold endpoint_fmt.
  rewrite !length_app, !length_be_bytes, H1, H2, H3, H4.
  pose proof (length_name_fmt PEER_SEC_NAME_MAX (ep_node e) ltac:(done)) as L1.
  pose proof (length_name_fmt PEER_SEC_UID_MAX (ep_pod e) ltac:(done)) as L2.
  unfold PEER_SEC_NAME_MAX, PEER_SEC_UID_MAX, DMESH_REG_NONCE_SIZE in *. lia.
Qed.

Lemma length_binding_fmt b :
  binding_wf b -> peer_sec_binding_valid b = true -> (length (binding_fmt b) <= 1165)%nat.
Proof.
  intros (_ & W1 & W2 & H1 & H2 & _) (V0%named_spec & V1 & V2)%binding_valid_parts.
  unfold binding_fmt. rewrite !length_app, !length_be_bytes, H1, H2.
  pose proof (length_name_fmt PEER_SEC_CLUSTER_MAX (bd_cluster b) V0).
  pose proof (length_endpoint_fmt _ W1 V1). pose proof (length_endpoint_fmt _ W2 V2).
  unfold PEER_SEC_CLUSTER_MAX in *. lia.
Qed.

Lemma binding_encode_context b :
  binding_wf b -> peer_sec_binding_valid b = true ->
  peer_sec_binding_encode b (PEER_TLS_IPSEC_CONTEXT_MAX - 1) = Some (binding_fmt b).
Proof.
  intros Hw Hv. rewrite binding_encode_fmt by done.
  pose proof (length_binding_fmt b Hw Hv).
  by rewrite (proj2 (Nat.leb_le _ _)) by (unfold PEER_TLS_IPSEC_CONTEXT_MAX; lia).
Qed.

Lemma binding_fmt_inj b1 b2 :
  binding_wf b1 -> peer_sec_binding_valid b1 = true ->
  binding_wf b2 -> peer_sec_binding_valid b2 = true ->
  binding_fmt b1 = binding_fmt b2 -> b1 = b2.
Proof.
  intros W1 V1 W2 V2 E. pose proof (binding_decode_fmt b1 W1 V1) as D1.
  rewrite E, (binding_decode_fmt b2 W2 V2) in D1. by injection D1.
Qed.

(** The exporter context of one directional key. *)
Definition derive_context (b : peer_sec_binding) (direction : nat) : list byte :=
  binding_fmt b ++ [z2b (Z.of_nat direction)].

Lemma derive_as_export tls b local direction :
  binding_wf b -> peer_sec_binding_valid b = true -> (local <= 1)%nat -> (direction <= 1)%nat ->
  peer_sec_derive tls b local direction =
    if key_is (peer_tls_local_key tls) (ep_public_key (at2 local (bd_endpoint b))) &&
       key_is (peer_tls_peer_key tls) (ep_public_key (at2 (1 - local) (bd_endpoint b)))
    then peer_tls_export_ipsec tls (derive_context b direction) else None.
Proof.
  intros Hw Hv Hl Hd. unfold peer_sec_derive. rewrite Hv, binding_encode_context by done.
  rewrite !(proj2 (Nat.ltb_ge _ _)) by done. cbn [orb negb].
  by do 2 destruct (key_is _ _).
Qed.

(** The two ends of one pinned session derive the same key for a
    direction: with the same exporter and mirrored static keys, endpoint 0 and
    endpoint 1 obtain equal material (whether or not it can be derived). *)
Lemma derive_agrees tls0 tls1 b direction :
  tc_exporter tls0 = tc_exporter tls1 ->
  tc_local_key tls0 = tc_peer_key tls1 -> tc_peer_key tls0 = tc_local_key tls1 ->
  peer_tls_established tls0 = true -> peer_tls_established tls1 = true ->
  tc_pinned tls0 = tc_pinned tls1 ->
  peer_sec_derive tls0 b 0 direction = peer_sec_derive tls1 b 1 direction.
Proof.
  intros He Hk1 Hk2 E0 E1 Hp. unfold peer_sec_derive, peer_tls_export_ipsec.
  rewrite E0, E1, Hp, He. unfold peer_tls_established in *. apply andb_true_iff in E0 as [A0 B0], E1 as [A1 B1].
  unfold peer_tls_local_key, peer_tls_peer_key. rewrite A0, A1.
  apply negb_true_iff in B0 as ->, B1 as ->. cbn [negb orb]. rewrite Hk1, Hk2.
  cbn [at2 Nat.sub key_is]. destruct (1 <? direction)%nat; [done|].
  destruct (peer_sec_binding_valid b); [|done]. cbn.
  by destruct (bytes_eq _ _), (bytes_eq _ _).
Qed.

(** ** Sample objects *)

Definition sample_name (cap : nat) (chars : list Z) : list byte :=
  (z2b <$> chars) ++ repeat x00 (cap - length chars).
Definition sample_key (n : Z) : list byte := z2b n :: repeat x00 31.
Definition sample_id (n : Z) : list byte := z2b n :: repeat x00 15.
Definition sample_endpoint (n : Z) : peer_sec_endpoint :=
  SecEndpoint (sample_name PEER_SEC_NAME_MAX [110; 48 + n]) (sample_key (1 + n)) (sample_id 7)
    (sample_name PEER_SEC_UID_MAX [112; 48 + n]) (sample_id 9) n (1 + n) (sample_key 5).
Definition sample_binding : peer_sec_binding :=
  SecBinding (sample_name PEER_SEC_CLUSTER_MAX [99]) (sample_endpoint 0, sample_endpoint 1)
    (sample_id 3) (sample_id 4) 1 (256, 257).
Definition sample_tls (n : Z) : peer_tls_conn :=
  TlsConn (fun label context => Some (take 20 (label ++ context)))
    (sample_key (1 + n)) (sample_key (2 - n)) true false true.
Definition sample_lane (n : Z) : peer_sec_lane :=
  SecLane (1 + n) 1 (n, n) (16 + n, 32 + n) (1, 2) (sample_id 1, sample_id 2) 1024.

Lemma sample_binding_ok :
  binding_wf sample_binding /\ peer_sec_binding_valid sample_binding = true.
Proof. split; [|by vm_compute]. repeat split; vm_compute; congruence. Qed.

(** No two directional keys of bindings share an exporter context: equal
    contexts mean the same binding and the same direction. *)
Lemma derive_context_injective b1 b2 d1 d2 :
  binding_wf b1 -> peer_sec_binding_valid b1 = true ->
  binding_wf b2 -> peer_sec_binding_valid b2 = true -> (d1 <= 1)%nat -> (d2 <= 1)%nat ->
  derive_context b1 d1 = derive_context b2 d2 -> b1 = b2 /\ d1 = d2.
Proof.
  intros W1 V1 W2 V2 D1 D2 E. unfold derive_context in E.
  apply app_inj_2 in E as [Eb Ed]; [|done]. split; [by apply binding_fmt_inj|].
  injection Ed as Ed. apply (f_equal b2z) in Ed. rewrite !b2z_z2b in Ed.
  rewrite !Z.mod_small in Ed by lia. lia.
Qed.

(** Directional keys agree between the ends and differ otherwise. With one exporter, mirrored static keys and pinned sessions, the two endpoints derive the same material for a direction; material exists only for a valid binding whose two keys are the ones of the session, and is exported for the context of that binding and direction; and the exporter contexts of different directions or different valid bindings are different, so no key serves two purposes. *)
Lemma derive_keys :
  (forall tls0 tls1 b direction,
     tc_exporter tls0 = tc_exporter tls1 ->
     tc_local_key tls0 = tc_peer_key tls1 -> tc_peer_key tls0 = tc_local_key tls1 ->
     peer_tls_established tls0 = true -> peer_tls_established tls1 = true -> tc_pinned tls0 = tc_pinned tls1 ->
     peer_sec_derive tls0 b 0 direction = peer_sec_derive tls1 b 1 direction) /\
  (forall tls b local direction material, binding_wf b -> peer_sec_derive tls b local direction = Some material ->
     peer_sec_binding_valid b = true /\ (direction <= 1)%nat /\
     key_is (peer_tls_local_key tls) (ep_public_key (at2 local (bd_endpoint b))) = true /\
     key_is (peer_tls_peer_key tls) (ep_public_key (at2 (1 - local) (bd_endpoint b))) = true /\
     peer_tls_export_ipsec tls (derive_context b direction) = Some material) /\
  (forall b1 b2 d1 d2,
     binding_wf b1 -> peer_sec_binding_valid b1 = true -> binding_wf b2 -> peer_sec_binding_valid b2 = true ->
     (d1 <= 1)%nat -> (d2 <= 1)%nat -> derive_context b1 d1 = derive_context b2 d2 -> b1 = b2 /\ d1 = d2).
Proof.
  split; [exact derive_agrees|]. split; [|exact derive_context_injective].
  intros tls b local direction material Hw Hd.
  destruct (peer_sec_binding_valid b) eqn:Hv;
    [|unfold peer_sec_derive in Hd; rewrite Hv, !orb_true_r in Hd; done].
  destruct (Nat.le_gt_cases direction 1) as [Hdir|Hdir];
    [|unfold peer_sec_derive in Hd; rewrite (proj2 (Nat.ltb_lt 1 direction) Hdir), orb_true_r in Hd; done].
  destruct (Nat.le_gt_cases local 1) as [Hl|Hl];
    [|unfold peer_sec_derive in Hd; rewrite (proj2 (Nat.ltb_lt 1 local) Hl) in Hd; done].
  rewrite derive_as_export in Hd by done. destruct (_ && _) eqn:Hk in Hd; [|done].
  by apply andb_true_iff in Hk as [-> ->].
Qed.

(** ** Session identity *)

(** Both ends of a control session compute the same session id, whichever
    HELLO they call their own. *)
Lemma session_id_symmetric sha256 a b :
  peer_sec_session_id sha256 a b = peer_sec_session_id sha256 b a.
Proof.
  unfold peer_sec_session_id.
  rewrite (strcmp_opp (he_cluster a)), (strcmp_opp (he_node a)).
  destruct (hello_valid a), (hello_valid b); try reflexivity.
  set (cl := strcmp (he_cluster a) (he_cluster b)). set (nd := strcmp (he_node a) (he_node b)).
  replace (- cl =? 0) with (cl =? 0) by (destruct (Z.eqb_spec cl 0), (Z.eqb_spec (- cl) 0); lia).
  replace (- nd =? 0) with (nd =? 0) by (destruct (Z.eqb_spec nd 0), (Z.eqb_spec (- nd) 0); lia).
  destruct (cl =? 0); [|reflexivity]. destruct (Z.eqb_spec nd 0); [reflexivity|].
  destruct (Z.ltb_spec 0 nd), (Z.ltb_spec 0 (- nd)); reflexivity || lia.
Qed.
