(* ===== verification/Association.v ===== *)
(** * Pod-pair association manager ([doca/peer_association.{h,c}])

    The control owner's table of security associations: it hands commands to
    the hardware owner, accepts completions only for the exact command it
    issued, and drives every pair through setup, activation, rekey and fenced
    teardown.

    A manager is a record holding its slots as a list.  TLS sessions are owned
    by the caller: an association keeps the session's name [a_tls], and every
    operation that consults a session takes the sessions' current states [env].
    SHA-256 is the parameter [sha256]. *)

From S2P Require Import Prelude Cursor PeerIdentity SecurityWire.

Definition PEER_ASSOC_LANES_MAX : nat := 16.

Inductive peer_crypto_action :=
  | INSTALL_RX | INSTALL_TX | ENABLE_QPS | QUIESCE | RESUME | REMOVE_OLD
  | BLOCK | DESTROY_QPS | REMOVE_ALL.
#[export] Instance action_eq_dec : EqDecision peer_crypto_action.
Proof. solve_decision. Defined.

Inductive peer_assoc_phase :=
  | PH_RX | PH_WAIT_RX | PH_TX | PH_WAIT_TX | PH_QP | PH_WAIT_QP | PH_DRAIN | PH_WAIT_DRAIN
  | PH_RESUME | PH_ACTIVE | PH_BLOCK | PH_DESTROY | PH_REMOVE | PH_QUARANTINED | PH_DEAD.
#[export] Instance phase_eq_dec : EqDecision peer_assoc_phase.
Proof. solve_decision. Defined.

Definition phase_is (p q : peer_assoc_phase) : bool := bool_decide (p = q).

Record peer_assoc_token := Token { tk_manager : Z; tk_generation : Z; tk_slot : nat }.
#[export] Instance token_eq_dec : EqDecision peer_assoc_token.
Proof. solve_decision. Defined.
Definition zero_token : peer_assoc_token := Token 0 0 0%nat.

Record peer_crypto_request := Request {
  rq_token : peer_assoc_token; rq_operation : Z; rq_action : peer_crypto_action;
  rq_binding : peer_sec_binding; rq_lanes : list peer_sec_lane; rq_local : nat;
  rq_old_epoch : Z; rq_material : list byte }.

#[export] Instance eta_request : Eta peer_crypto_request := fun r =>
  Request (rq_token r) (rq_operation r) (rq_action r) (rq_binding r) (rq_lanes r) (rq_local r)
    (rq_old_epoch r) (rq_material r).
Definition peer_crypto_request_cleanse (r : peer_crypto_request) : peer_crypto_request :=
  r <| rq_material := repeat x00 PEER_TLS_IPSEC_MATERIAL_LEN |>.

Record peer_assoc_event := Event {
  ev_token : peer_assoc_token; ev_type : Z; ev_association : list byte;
  ev_digest : list byte; ev_epoch : Z }.
#[export] Instance eta_event : Eta peer_assoc_event := fun e =>
  Event (ev_token e) (ev_type e) (ev_association e) (ev_digest e) (ev_epoch e).
Definition zero_event : peer_assoc_event :=
  Event zero_token 0 (repeat x00 16) (repeat x00 32) 0.

Record peer_assoc_limits := Limits {
  lim_pairs : Z; lim_lanes : Z; lim_sas : Z; lim_setup_timeout_ns : Z; lim_overlap_ns : Z }.
Record peer_assoc_stats := Stats {
  st_pairs : Z; st_lanes : Z; st_sas : Z; st_quarantined : Z }.
#[export] Instance eta_stats : Eta peer_assoc_stats := fun s =>
  Stats (st_pairs s) (st_lanes s) (st_sas s) (st_quarantined s).

Record peer_assoc_grant := Grant {
  gr_token : peer_assoc_token; gr_revision : Z; gr_epoch : Z; gr_pair : dmesh_peer_pair;
  gr_lane : peer_sec_lane; gr_deadline : list Z; gr_lease_generation : list Z }.

(** The lane array is its [lane_count] meaningful entries. *)
Record association := Assoc {
  a_token : peer_assoc_token; a_tls : nat; a_binding : peer_sec_binding;
  a_lanes : list peer_sec_lane; a_local : nat; a_reserved_sas : Z;
  a_phase : peer_assoc_phase; a_pending : Z; a_deadline : list Z;
  a_authority_generation : list Z; a_setup_deadline : Z;
  a_active_epoch : Z; a_old_epoch : Z; a_retire_deadline : Z; a_old_spi : Z * Z;
  a_action : option peer_crypto_action;
  a_used : bool; a_revoking : bool; a_quiesced : bool;
  a_peer_rx : bool; a_peer_tx : bool; a_peer_qp : bool; a_peer_drained : bool;
  a_peer_active : bool; a_digest : list byte; a_event : peer_assoc_event }.
#[export] Instance eta_association : Eta association := fun a =>
  Assoc (a_token a) (a_tls a) (a_binding a) (a_lanes a) (a_local a) (a_reserved_sas a)
    (a_phase a) (a_pending a) (a_deadline a) (a_authority_generation a) (a_setup_deadline a)
    (a_active_epoch a) (a_old_epoch a) (a_retire_deadline a) (a_old_spi a) (a_action a)
    (a_used a) (a_revoking a) (a_quiesced a) (a_peer_rx a) (a_peer_tx a) (a_peer_qp a)
    (a_peer_drained a) (a_peer_active a) (a_digest a) (a_event a).

(** A zeroed slot; [PEER_ASSOC_RX] is the zero of its enumeration. *)
Definition zero_association : association :=
  Assoc zero_token 0 zero_binding [] 0 0 PH_RX 0 [0; 0; 0] [0; 0; 0] 0 0 0 0 (0, 0) None
    false false false false false false false false (repeat x00 32) zero_event.

Record peer_associations := Manager {
  m_limits : peer_assoc_limits; m_stats : peer_assoc_stats; m_pairs : list association;
  m_id : Z; m_generation : Z; m_operation : Z; m_last_now : Z; m_grant_revision : Z;
  m_cursor : Z; m_event_cursor : Z }.
#[export] Instance eta_associations : Eta peer_associations := fun m =>
  Manager (m_limits m) (m_stats m) (m_pairs m) (m_id m) (m_generation m) (m_operation m)
    (m_last_now m) (m_grant_revision m) (m_cursor m) (m_event_cursor m).

Definition after (now delta : Z) : Z :=
  if UINT64_MAX - now <? delta then UINT64_MAX else now + delta.

(** [id] is what [RAND_bytes] drew; zero fails the call like a failed draw. *)
Definition peer_associations_new (limits : peer_assoc_limits) (id : Z)
    : option peer_associations :=
  if (lim_pairs limits =? 0) || (4096 <? lim_pairs limits) || (lim_lanes limits =? 0) ||
     (lim_sas limits <? 2) || (lim_setup_timeout_ns limits =? 0) ||
     (lim_overlap_ns limits =? 0) then None
  else if id =? 0 then None
  else Some (Manager limits (Stats 0 0 0 0)
               (repeat zero_association (Z.to_nat (lim_pairs limits))) id 0 0 0 0 0 0).

(** [true] when the table was freed. *)
Definition peer_associations_free (m : peer_associations) : bool := st_pairs (m_stats m) =? 0.

Definition find (m : peer_associations) (t : peer_assoc_token) : option association :=
  if negb (tk_manager t =? m_id m) || (lim_pairs (m_limits m) <=? Z.of_nat (tk_slot t)) then None
  else match m_pairs m !! tk_slot t with
    | Some a => if a_used a && (tk_generation (a_token a) =? tk_generation t)
                then Some a else None
    | None => None
    end.

(** [*a = ...] through the pointer [find] returned. *)
Definition store (m : peer_associations) (t : peer_assoc_token) (a : association)
    : peer_associations := m <| m_pairs ::= <[tk_slot t := a]> |>.

Section manager.
Context (env : nat -> peer_tls_conn) (sha256 : list byte -> option (list byte)).

Definition live (a : association) (now : Z) : bool :=
  negb (a_revoking a) && negb (phase_is (a_phase a) PH_QUARANTINED) &&
  negb (phase_is (a_phase a) PH_DEAD) &&
  forallb (fun d => now <? d) (a_deadline a) && negb (peer_tls_faulted (env (a_tls a))).

(** [digest(a)]: [None] is the -1 return. *)
Fixpoint lane_bytes (lanes : list peer_sec_lane) : option (list byte) :=
  match lanes with
  | [] => Some []
  | l :: lanes' => x ← peer_sec_lane_encode l; y ← lane_bytes lanes'; Some (x ++ y)
  end.
Definition digest (a : association) : option association :=
  b ← peer_sec_binding_encode (a_binding a)
        (PEER_TLS_IPSEC_CONTEXT_MAX + PEER_ASSOC_LANES_MAX * PEER_SEC_LANE_LEN);
  l ← lane_bytes (a_lanes a);
  d ← sha256 (b ++ l);
  if (length d =? 32)%nat then Some (a <| a_digest := d |>) else None.

Definition emit (a : association) (type : Z) : association :=
  a <| a_event := Event (a_token a) type (bd_association (a_binding a)) (a_digest a)
                    (bd_epoch (a_binding a)) |>.

Definition rx_spi (a : association) : Z := at2 (1 - a_local a) (bd_spi (a_binding a)).
Definition old_rx_spi (a : association) : Z := at2 (1 - a_local a) (a_old_spi a).
Definition spi_busy (m : peer_associations) (spi : Z) : bool :=
  existsb (fun a => a_used a &&
    ((rx_spi a =? spi) || (negb (a_old_epoch a =? 0) && (old_rx_spi a =? spi)))) (m_pairs m).

Definition endpoints_same (a b : peer_sec_binding) : bool :=
  str_eq (bd_cluster a) (bd_cluster b) &&
  str_eq (ep_pod (at2 0 (bd_endpoint a))) (ep_pod (at2 0 (bd_endpoint b))) &&
  str_eq (ep_pod (at2 1 (bd_endpoint a))) (ep_pod (at2 1 (bd_endpoint b))).

Definition revoke (a : association) : association :=
  let a := if negb (a_revoking a) && negb (phase_is (a_phase a) PH_DEAD) &&
              negb (phase_is (a_phase a) PH_QUARANTINED)
           then emit a PEER_SEC_REVOKE else a in
  let a := a <| a_revoking := true |> in
  if (a_pending a =? 0) && negb (phase_is (a_phase a) PH_DEAD) &&
     negb (phase_is (a_phase a) PH_QUARANTINED) && negb (phase_is (a_phase a) PH_DESTROY) &&
     negb (phase_is (a_phase a) PH_REMOVE)
  then a <| a_phase := PH_BLOCK |> else a.

(** The per-lane checks of [peer_association_open]: each lane encodes, ids
    ascend, local workers and QPNs are distinct. *)
Fixpoint open_lanes_ok (local : nat) (seen : list peer_sec_lane)
    (lanes : list peer_sec_lane) : bool :=
  match lanes with
  | [] => true
  | l :: lanes' =>
      match peer_sec_lane_encode l with Some _ => true | None => false end &&
      match last seen with Some p => ln_id p <? ln_id l | None => true end &&
      forallb (fun s => negb (at2 local (ln_worker l) =? at2 local (ln_worker s)) &&
                        negb (at2 local (ln_qpn l) =? at2 local (ln_qpn s))) seen &&
      open_lanes_ok local (seen ++ [l]) lanes'
  end.

(** A used slot the new association may not share its names with. *)
Definition conflicts (b : peer_sec_binding) (local : nat) (lanes : list peer_sec_lane)
    (a : association) : bool :=
  a_used a &&
  (bytes_eq (bd_association (a_binding a)) (bd_association b) ||
   endpoints_same (a_binding a) b ||
   existsb (fun l => existsb (fun k =>
     at2 (a_local a) (ln_qpn l) =? at2 local (ln_qpn k)) lanes) (a_lanes a)).

Fixpoint first_free (i : nat) (pairs : list association) : option nat :=
  match pairs with
  | [] => None
  | a :: pairs' => if a_used a then first_free (S i) pairs' else Some i
  end.

Definition peer_association_open (m : peer_associations) (tls : nat)
    (b : peer_sec_binding) (local : nat) (lanes : list peer_sec_lane)
    (deadlines : list Z) (now : Z) : Z * peer_assoc_token * peer_associations :=
  let count := Z.of_nat (length lanes) in
  if (count =? 0) || (Z.of_nat PEER_ASSOC_LANES_MAX <? count) || (1 <? local)%nat ||
     negb (peer_sec_binding_valid b) || negb (bd_epoch b =? 1) || (now <? m_last_now m) ||
     negb (forallb (fun d => now <? d) deadlines) ||
     (st_pairs (m_stats m) =? lim_pairs (m_limits m)) ||
     (u32 (lim_lanes (m_limits m) - st_lanes (m_stats m)) <? count) ||
     (u32 (lim_sas (m_limits m) - st_sas (m_stats m)) <? 2) ||
     (m_generation m =? UINT64_MAX) || spi_busy m (at2 (1 - local) (bd_spi b))
  then (-1, zero_token, m)
  else match peer_sec_derive (env tls) b local local with
    | None => (-1, zero_token, m)
    | Some _ =>
      if negb (open_lanes_ok local [] lanes) || existsb (conflicts b local lanes) (m_pairs m)
      then (-1, zero_token, m)
      else match first_free 0 (m_pairs m) with
        | None => (-1, zero_token, m)
        | Some slot =>
          let generation := m_generation m + 1 in
          let token := Token (m_id m) generation slot in
          let a := zero_association
            <| a_token := token |> <| a_binding := b |> <| a_tls := tls |>
            <| a_local := local |> <| a_lanes := lanes |> <| a_deadline := deadlines |>
            <| a_setup_deadline := after now (lim_setup_timeout_ns (m_limits m)) |>
            <| a_phase := PH_RX |> <| a_reserved_sas := 2 |> in
          let m := m <| m_generation := generation |> in
          match digest a with
          | None => (-1, zero_token, store m token zero_association)
          | Some a =>
            (0, token,
             (store m token (a <| a_used := true |>))
               <| m_stats := Stats (u32 (st_pairs (m_stats m) + 1))
                   (u32 (st_lanes (m_stats m) + count)) (u32 (st_sas (m_stats m) + 2))
                   (st_quarantined (m_stats m)) |>
               <| m_last_now := now |>)
          end
        end
    end.

(** [Some] is the 1 return. *)
Definition peer_associations_lookup (m : peer_associations) (session assoc : list byte)
    : option peer_assoc_token :=
  a_token <$> List.find (fun a => a_used a && bytes_eq (bd_session (a_binding a)) session &&
                           bytes_eq (bd_association (a_binding a)) assoc) (m_pairs m).

Definition tick_one (backwards : bool) (now : Z) (a : association) : association :=
  if negb (a_used a) || phase_is (a_phase a) PH_DEAD || phase_is (a_phase a) PH_QUARANTINED
  then a
  else if backwards || negb (live a now) ||
          ((negb (phase_is (a_phase a) PH_ACTIVE) || negb (a_peer_active a) ||
            negb (ev_type (a_event a) =? 0)) && (a_setup_deadline a <=? now))
  then revoke a else a.

Definition peer_associations_tick (m : peer_associations) (now : Z) : peer_associations :=
  let backwards := now <? m_last_now m in
  m <| m_last_now := if backwards then m_last_now m else now |>
    <| m_pairs ::= fmap (tick_one backwards now) |>.

(** Returns the action (0 is [None]) and the association, whose phase it may
    advance. *)
Definition next_action (a : association) (now : Z) : option peer_crypto_action * association :=
  let first := a_active_epoch a =? 0 in
  match a_phase a with
  | PH_RX => (Some INSTALL_RX, a)
  | PH_WAIT_RX =>
      if a_peer_rx a then
        if first then (Some INSTALL_TX, a <| a_phase := PH_TX |>)
        else (Some QUIESCE, a <| a_phase := PH_DRAIN |>)
      else (None, a)
  | PH_WAIT_DRAIN =>
      if a_peer_drained a then (Some INSTALL_TX, a <| a_phase := PH_TX |>) else (None, a)
  | PH_WAIT_TX =>
      if a_peer_tx a then
        if first then (Some ENABLE_QPS, a <| a_phase := PH_QP |>)
        else (Some RESUME, a <| a_phase := PH_RESUME |>)
      else (None, a)
  | PH_WAIT_QP =>
      if a_peer_qp a then (Some RESUME, a <| a_phase := PH_RESUME |>) else (None, a)
  | PH_ACTIVE =>
      if negb (a_old_epoch a =? 0) && a_peer_active a && (a_retire_deadline a <=? now)
      then (Some REMOVE_OLD, a) else (None, a)
  | PH_BLOCK => (Some BLOCK, a)
  | PH_DESTROY => (Some DESTROY_QPS, a)
  | PH_REMOVE => (Some REMOVE_ALL, a)
  | _ => (None, a)
  end.

Definition installs (action : peer_crypto_action) : bool :=
  match action with INSTALL_RX | INSTALL_TX => true | _ => false end.
Definition quiesces (action : peer_crypto_action) : bool :=
  match action with QUIESCE => true | _ => false end.
Definition install_direction (action : peer_crypto_action) (local : nat) : nat :=
  match action with INSTALL_TX => local | _ => (1 - local)%nat end.

(** One turn of the loop of [peer_associations_next] on slot [i]: [Some] ends
    it with a request. *)
Definition next_turn (m : peer_associations) (i : nat) (now : Z)
    : option peer_crypto_request * peer_associations :=
  match m_pairs m !! i with
  | None => (None, m)
  | Some a =>
    if negb (a_used a) || negb (a_pending a =? 0) ||
       (negb (ev_type (a_event a) =? 0) && negb (a_revoking a)) then (None, m)
    else match next_action a now with
      | (None, _) => (None, m)
      | (Some action, a) =>
        let put a m := m <| m_pairs ::= <[i := a]> |> in
        if m_operation m =? UINT64_MAX then
          (None, (put (a <| a_phase := PH_QUARANTINED |>) m)
                   <| m_stats ::= set st_quarantined (fun q => u32 (q + 1)) |>)
        else
          let key := if installs action
                     then peer_sec_derive (env (a_tls a)) (a_binding a) (a_local a)
                            (install_direction action (a_local a))
                     else Some (repeat x00 PEER_TLS_IPSEC_MATERIAL_LEN) in
          match key with
          | None => (None, put (revoke a) m)
          | Some material =>
            let operation := m_operation m + 1 in
            let a := if quiesces action then a <| a_quiesced := true |> else a in
            (Some (Request (a_token a) operation action (a_binding a) (a_lanes a) (a_local a)
                     (a_old_epoch a) material),
             (put (a <| a_pending := operation |> <| a_action := Some action |>) m)
               <| m_operation := operation |>)
          end
      end
  end.

Fixpoint next_loop (n : nat) (m : peer_associations) (now : Z)
    : option peer_crypto_request * peer_associations :=
  match n with
  | O => (None, m)
  | S n =>
    let i := Z.to_nat (m_cursor m mod lim_pairs (m_limits m)) in
    let m := m <| m_cursor ::= (fun c => u32 (c + 1)) |> in
    match next_turn m i now with
    | (Some r, m) => (Some r, m)
    | (None, m) => next_loop n m now
    end
  end.

Definition peer_associations_next (m : peer_associations) (now : Z)
    : option peer_crypto_request * peer_associations :=
  let m := peer_associations_tick m now in
  next_loop (Z.to_nat (lim_pairs (m_limits m))) m now.

(** [r->action < PEER_CRYPTO_BLOCK] *)
Definition before_block (action : peer_crypto_action) : bool :=
  match action with BLOCK | DESTROY_QPS | REMOVE_ALL => false | _ => true end.

(** The switch on a successful completion; the second result is what the
    completion returns to the SA budget. *)
Definition completed (m : peer_associations) (a : association) (action : peer_crypto_action)
    (now : Z) : association * Z :=
  match action with
  | INSTALL_RX => (emit (a <| a_phase := PH_WAIT_RX |>) PEER_SEC_RX_READY, 0)
  | INSTALL_TX => (emit (a <| a_phase := PH_WAIT_TX |>) PEER_SEC_TX_READY, 0)
  | ENABLE_QPS => (emit (a <| a_phase := PH_WAIT_QP |>) PEER_SEC_LANE_READY, 0)
  | QUIESCE => (emit (a <| a_phase := PH_WAIT_DRAIN |>) PEER_SEC_DRAINED, 0)
  | RESUME =>
      (emit (a <| a_active_epoch := bd_epoch (a_binding a) |> <| a_quiesced := false |>
               <| a_phase := PH_ACTIVE |>
               <| a_retire_deadline := after now (lim_overlap_ns (m_limits m)) |>)
         PEER_SEC_ACTIVE_ACK, 0)
  | REMOVE_OLD =>
      (a <| a_old_epoch := 0 |> <| a_old_spi := (0, 0) |>
         <| a_reserved_sas ::= (fun n => u32 (n - 2)) |>, 2)
  | BLOCK => (a <| a_phase := PH_DESTROY |>, 0)
  | DESTROY_QPS => (a <| a_phase := PH_REMOVE |>, 0)
  | REMOVE_ALL => (a <| a_phase := PH_DEAD |>, 0)
  end.

Definition completes (a : association) (r : peer_crypto_request) : bool :=
  negb (a_pending a =? 0) && (rq_operation r =? a_pending a) &&
  bool_decide (Some (rq_action r) = a_action a) &&
  (bd_epoch (rq_binding r) =? bd_epoch (a_binding a)) &&
  bytes_eq (bd_association (rq_binding r)) (bd_association (a_binding a)) &&
  bytes_eq (bd_session (rq_binding r)) (bd_session (a_binding a)).

Definition peer_association_complete (m : peer_associations) (r : peer_crypto_request)
    (status now : Z) : Z * peer_associations :=
  if (0 <? status) || (status <? -2) then (-1, m)
  else
    let m := peer_associations_tick m now in
    match find m (rq_token r) with
    | None => (1, m)
    | Some a =>
      if negb (completes a r) then (1, m)
      else
        let a := a <| a_pending := 0 |> in
        if (status =? -2) || (negb (status =? 0) && a_revoking a) then
          (0, (store m (rq_token r)
                 (a <| a_phase := PH_QUARANTINED |> <| a_revoking := true |>
                    <| a_event ::= set ev_type (fun _ => 0) |>))
              <| m_stats ::= set st_quarantined (fun q => u32 (q + 1)) |>)
        else if negb (status =? 0) then (0, store m (rq_token r) (revoke a))
        else if a_revoking a && before_block (rq_action r)
        then (0, store m (rq_token r) (revoke a))
        else
          let '(a, freed) := completed m a (rq_action r) now in
          (0, (store m (rq_token r) a) <| m_stats ::= set st_sas (fun s => u32 (s - freed)) |>)
    end.

(** The event cursor walk of [peer_associations_event]. *)
Fixpoint event_loop (n : nat) (m : peer_associations)
    : option peer_assoc_event * peer_associations :=
  match n with
  | O => (None, m)
  | S n =>
    let i := Z.to_nat (m_event_cursor m mod lim_pairs (m_limits m)) in
    let m := m <| m_event_cursor ::= (fun c => u32 (c + 1)) |> in
    match m_pairs m !! i with
    | Some a => if a_used a && negb (ev_type (a_event a) =? 0)
                then (Some (a_event a), m) else event_loop n m
    | None => event_loop n m
    end
  end.
Definition peer_associations_event (m : peer_associations)
    : option peer_assoc_event * peer_associations :=
  event_loop (Z.to_nat (lim_pairs (m_limits m))) m.

Definition peer_association_event_sent (m : peer_associations) (e : peer_assoc_event)
    : Z * peer_associations :=
  match find m (ev_token e) with
  | None => (1, m)
  | Some a =>
    if (ev_type (a_event a) =? 0) || negb (ev_type (a_event a) =? ev_type e) ||
       negb (ev_epoch (a_event a) =? ev_epoch e) ||
       negb (bytes_eq (ev_digest (a_event a)) (ev_digest e)) then (1, m)
    else (0, store m (ev_token e) (a <| a_event ::= set ev_type (fun _ => 0) |>))
  end.

(** The switch of [peer_association_signal]; [None] is its -1 return. *)
Definition signalled (a : association) (type : Z) : option association :=
  if type =? PEER_SEC_RX_READY then Some (a <| a_peer_rx := true |>)
  else if type =? PEER_SEC_TX_READY then
    if negb (a_peer_rx a) then None else Some (a <| a_peer_tx := true |>)
  else if type =? PEER_SEC_LANE_READY then
    if negb (a_peer_tx a) then None else Some (a <| a_peer_qp := true |>)
  else if type =? PEER_SEC_DRAINED then
    if (a_active_epoch a =? 0) || negb (a_peer_rx a) then None
    else Some (a <| a_peer_drained := true |>)
  else if type =? PEER_SEC_ACTIVE_ACK then
    if negb (a_peer_tx a) || ((a_active_epoch a =? 0) && negb (a_peer_qp a)) then None
    else Some (a <| a_peer_active := true |>)
  else if type =? PEER_SEC_REVOKE then Some (revoke a)
  else None.

Definition peer_association_signal (m : peer_associations) (t : peer_assoc_token)
    (type epoch : Z) (d : list byte) (now : Z) : Z * peer_associations :=
  let m := peer_associations_tick m now in
  match find m t with
  | None => (1, m)
  | Some a =>
    if negb (live a now) || (epoch <? bd_epoch (a_binding a)) then (1, m)
    else if negb (epoch =? bd_epoch (a_binding a)) || negb (bytes_eq d (a_digest a))
    then (-1, m)
    else match signalled a type with
      | None => (-1, m)
      | Some a => (0, store m t a)
      end
  end.

Definition admits (a : association) (now : Z) : bool :=
  live a now && phase_is (a_phase a) PH_ACTIVE && a_peer_active a && negb (a_quiesced a) &&
  (ev_type (a_event a) =? 0) && (a_active_epoch a =? bd_epoch (a_binding a)).

Definition peer_association_admit (m : peer_associations) (t : peer_assoc_token) (now : Z)
    : bool * peer_associations :=
  let m := peer_associations_tick m now in
  match find m t with
  | None => (false, m)
  | Some a => (admits a now, m)
  end.

(** [strcpy] into a zeroed array of [DMESH_POD_UID_MAX] characters. *)
Definition uid_copy (pod : list byte) : list byte :=
  cstr pod ++ repeat x00 (DMESH_POD_UID_MAX - length (cstr pod)).
Definition registration_of (e : peer_sec_endpoint) : dmesh_peer_registration :=
  Registration (ep_daemon e) (ep_channel_slot e) (ep_channel_generation e)
    (ep_registration_nonce e).

(** 1 with the snapshot, 0, or -1. *)
Definition peer_association_grant (m : peer_associations) (t : peer_assoc_token)
    (worker now : Z) : Z * option peer_assoc_grant * peer_associations :=
  match peer_association_admit m t now with
  | (false, m) => (0, None, m)
  | (true, m) =>
    match find m t with
    | None => (0, None, m)
    | Some a =>
      match List.find (fun l => at2 (a_local a) (ln_worker l) =? worker) (a_lanes a) with
      | None => (0, None, m)
      | Some lane =>
        if m_grant_revision m =? UINT64_MAX then (-1, None, store m t (revoke a))
        else
          let local := at2 (a_local a) (bd_endpoint (a_binding a)) in
          let remote := at2 (1 - a_local a) (bd_endpoint (a_binding a)) in
          if (DMESH_POD_UID_MAX <=? length (cstr (ep_pod local)))%nat ||
             (DMESH_POD_UID_MAX <=? length (cstr (ep_pod remote)))%nat
          then (-1, None, store m t (revoke a))
          else
            let revision := m_grant_revision m + 1 in
            (1, Some (Grant t revision (a_active_epoch a)
                  (Pair (uid_copy (ep_pod local)) (uid_copy (ep_pod remote))
                     (registration_of local) (registration_of remote)
                     (bd_association (a_binding a)) (ln_id lane) (ln_generation lane))
                  lane (a_deadline a) (a_authority_generation a)),
             m <| m_grant_revision := revision |>)
      end
    end
  end.

Definition peer_association_rekey (m : peer_associations) (t : peer_assoc_token)
    (spi : Z * Z) (now : Z) : Z * peer_associations :=
  match peer_association_admit m t now with
  | (false, m) => (-1, m)
  | (true, m) =>
    match find m t with
    | None => (-1, m)
    | Some a =>
      if negb (a_pending a =? 0) || negb (a_old_epoch a =? 0) ||
         (bd_epoch (a_binding a) =? UINT64_MAX) || (at2 0 spi <? 256) || (at2 1 spi <? 256) ||
         (at2 0 spi =? at2 0 (bd_spi (a_binding a))) ||
         (at2 1 spi =? at2 1 (bd_spi (a_binding a))) ||
         spi_busy m (at2 (1 - a_local a) spi) ||
         (u32 (lim_sas (m_limits m) - st_sas (m_stats m)) <? 2)
      then (-1, m)
      else
        let a := a
          <| a_old_epoch := bd_epoch (a_binding a) |> <| a_old_spi := bd_spi (a_binding a) |>
          <| a_binding ::= set bd_epoch (fun e => e + 1) |>
          <| a_binding ::= set bd_spi (fun _ => spi) |>
          <| a_peer_rx := false |> <| a_peer_tx := false |> <| a_peer_qp := false |>
          <| a_peer_drained := false |> <| a_peer_active := false |>
          <| a_phase := PH_RX |>
          <| a_setup_deadline := after now (lim_setup_timeout_ns (m_limits m)) |>
          <| a_reserved_sas ::= (fun n => u32 (n + 2)) |> in
        let m := m <| m_stats ::= set st_sas (fun s => u32 (s + 2)) |> in
        match digest a with
        | None => (-1, store m t (revoke a))
        | Some a => (0, store m t a)
        end
    end
  end.

Definition peer_association_revoke (m : peer_associations) (t : peer_assoc_token)
    : Z * peer_associations :=
  match find m t with
  | None => (-1, m)
  | Some a => (0, store m t (revoke a))
  end.

Definition peer_association_release (m : peer_associations) (t : peer_assoc_token)
    : Z * peer_associations :=
  match find m t with
  | None => (-1, m)
  | Some a =>
    if negb (a_pending a =? 0) || negb (phase_is (a_phase a) PH_DEAD) then (-1, m)
    else (0, (store m t zero_association)
               <| m_stats := Stats (u32 (st_pairs (m_stats m) - 1))
                   (u32 (st_lanes (m_stats m) - Z.of_nat (length (a_lanes a))))
                   (u32 (st_sas (m_stats m) - a_reserved_sas a))
                   (st_quarantined (m_stats m)) |>)
  end.

Definition peer_association_renew (m : peer_associations) (t : peer_assoc_token)
    (source : nat) (generation deadline now : Z) : Z * peer_associations :=
  if (2 <? source)%nat then (-1, m)
  else
    let m := peer_associations_tick m now in
    match find m t with
    | None => (-1, m)
    | Some a =>
      if negb (live a now) || (generation <=? nth source (a_authority_generation a) 0) ||
         (deadline <=? now) then (-1, m)
      else (0, store m t (a <| a_authority_generation ::= <[source := generation]> |>
                            <| a_deadline ::= <[source := deadline]> |>))
    end.

Definition peer_association_phase (m : peer_associations) (t : peer_assoc_token)
    : peer_assoc_phase :=
  match find m t with Some a => a_phase a | None => PH_DEAD end.

Definition peer_associations_stats (m : peer_associations) : peer_assoc_stats := m_stats m.

End manager.
