(* ===== verification/AssociationInv.v ===== *)
(** * Invariants of the association manager

    Runs of the manager as sequences of its operations, the ghost log of what
    a run observed (commands issued, commands the hardware owner confirmed,
    signals accepted from the peer), and the invariant that ties the table, its
    budgets and that log together. *)

From S2P Require Import Prelude Cursor PeerIdentity SecurityWire Association.

(** ** Operations, the log and runs *)

Inductive assoc_op :=
  | OpOpen (tls : nat) (b : peer_sec_binding) (local : nat) (lanes : list peer_sec_lane)
      (deadlines : list Z) (now : Z)
  | OpTick (now : Z)
  | OpNext (now : Z)
  | OpComplete (r : peer_crypto_request) (status now : Z)
  | OpEvent
  | OpEventSent (e : peer_assoc_event)
  | OpSignal (t : peer_assoc_token) (type epoch : Z) (d : list byte) (now : Z)
  | OpAdmit (t : peer_assoc_token) (now : Z)
  | OpGrant (t : peer_assoc_token) (worker now : Z)
  | OpRekey (t : peer_assoc_token) (spi : Z * Z) (now : Z)
  | OpRevoke (t : peer_assoc_token)
  | OpRelease (t : peer_assoc_token)
  | OpRenew (t : peer_assoc_token) (source : nat) (generation deadline now : Z).

Inductive entry :=
  | Issued (t : peer_assoc_token) (operation : Z) (action : peer_crypto_action) (epoch : Z)
  | Done (t : peer_assoc_token) (action : peer_crypto_action) (epoch : Z)
  | Heard (t : peer_assoc_token) (type epoch : Z).

Definition entry_token (e : entry) : peer_assoc_token :=
  match e with Issued t _ _ _ | Done t _ _ | Heard t _ _ => t end.

Section runs.
Context (sha256 : list byte -> option (list byte)).

(** One operation under the current session states: the new table and what the
    log gains.  A command counts as done when a completion with status 0 was
    accepted for it, a signal as heard when it was accepted. *)
Definition assoc_exec (env : nat -> peer_tls_conn) (o : assoc_op) (m : peer_associations)
    : peer_associations * list entry :=
  match o with
  | OpOpen tls b local lanes deadlines now =>
      ((peer_association_open env sha256 m tls b local lanes deadlines now).2, [])
  | OpTick now => (peer_associations_tick env m now, [])
  | OpNext now =>
      match peer_associations_next env m now with
      | (Some r, m) =>
          (m, [Issued (rq_token r) (rq_operation r) (rq_action r) (bd_epoch (rq_binding r))])
      | (None, m) => (m, [])
      end
  | OpComplete r status now =>
      match peer_association_complete env m r status now with
      | (code, m) => (m, if (code =? 0) && (status =? 0)
                         then [Done (rq_token r) (rq_action r) (bd_epoch (rq_binding r))]
                         else [])
      end
  | OpEvent => ((peer_associations_event m).2, [])
  | OpEventSent e => ((peer_association_event_sent m e).2, [])
  | OpSignal t type epoch d now =>
      match peer_association_signal env m t type epoch d now with
      | (code, m) => (m, if code =? 0 then [Heard t type epoch] else [])
      end
  | OpAdmit t now => ((peer_association_admit env m t now).2, [])
  | OpGrant t worker now => ((peer_association_grant env m t worker now).2, [])
  | OpRekey t spi now => ((peer_association_rekey env sha256 m t spi now).2, [])
  | OpRevoke t => ((peer_association_revoke m t).2, [])
  | OpRelease t => ((peer_association_release m t).2, [])
  | OpRenew t source generation deadline now =>
      ((peer_association_renew env m t source generation deadline now).2, [])
  end.

(** A run: every operation sees the session states of its own moment. *)
Fixpoint assoc_run (ops : list ((nat -> peer_tls_conn) * assoc_op))
    (m : peer_associations) (log : list entry) : peer_associations * list entry :=
  match ops with
  | [] => (m, log)
  | (env, o) :: ops =>
      let '(m, es) := assoc_exec env o m in assoc_run ops m (es ++ log)
  end.
End runs.

(** ** What the log says of one association, newest first *)

Definition dones (log : list entry) (t : peer_assoc_token) : list (peer_crypto_action * Z) :=
  omap (fun e => match e with
    | Done t' a n => if decide (t' = t) then Some (a, n) else None
    | _ => None end) log.
Definition hears (log : list entry) (t : peer_assoc_token) : list (Z * Z) :=
  omap (fun e => match e with
    | Heard t' ty n => if decide (t' = t) then Some (ty, n) else None
    | _ => None end) log.

Lemma dones_other es log t :
  Forall (fun e => entry_token e <> t) es -> dones (es ++ log) t = dones log t.
Proof.
  induction 1 as [|e es He Hes IH]; [done|]. cbn.
  destruct e; cbn in *; rewrite ?decide_False by done; apply IH.
Qed.
Lemma hears_other es log t :
  Forall (fun e => entry_token e <> t) es -> hears (es ++ log) t = hears log t.
Proof.
  induction 1 as [|e es He Hes IH]; [done|]. cbn.
  destruct e; cbn in *; rewrite ?decide_False by done; apply IH.
Qed.

(** ** Weights of the table *)

Definition w_pair (a : association) : Z := if a_used a then 1 else 0.
Definition w_lanes (a : association) : Z :=
  if a_used a then Z.of_nat (length (a_lanes a)) else 0.
Definition w_sas (a : association) : Z := if a_used a then a_reserved_sas a else 0.
Definition w_quar (a : association) : Z :=
  if a_used a && phase_is (a_phase a) PH_QUARANTINED then 1 else 0.
Definition stats_of (l : list association) : peer_assoc_stats :=
  Stats (gsum w_pair l) (gsum w_lanes l) (gsum w_sas l) (gsum w_quar l).

(** ** The invariant of one association

    [d] are the commands the log shows done for it, [h] the signals heard. *)

Section slot.
Context (d : list (peer_crypto_action * Z)) (h : list (Z * Z)).

Abbreviation epoch a := (bd_epoch (a_binding a)).

Definition fresh (a : association) : Prop :=
  a_active_epoch a = 0 /\ a_old_epoch a = 0 /\ epoch a = 1.
Definition rekeying (a : association) : Prop :=
  0 < a_active_epoch a /\ a_old_epoch a = a_active_epoch a /\
  epoch a = a_active_epoch a + 1 /\ (ENABLE_QPS, 1) ∈ d.
Definition drained (a : association) : Prop :=
  a_peer_drained a = true /\ a_quiesced a = true /\ (QUIESCE, epoch a) ∈ d.
Definition receiving (a : association) : Prop := (INSTALL_RX, epoch a) ∈ d.
Definition sending (a : association) : Prop :=
  receiving a /\ (INSTALL_TX, epoch a) ∈ d.

Definition phase_inv (a : association) : Prop :=
  match a_phase a with
  | PH_RX => fresh a \/ rekeying a
  | PH_WAIT_RX => (fresh a \/ rekeying a) /\ receiving a
  | PH_DRAIN => rekeying a /\ receiving a /\ a_peer_rx a = true /\ a_quiesced a = true
  | PH_WAIT_DRAIN =>
      rekeying a /\ receiving a /\ a_peer_rx a = true /\ a_quiesced a = true /\
      (QUIESCE, epoch a) ∈ d
  | PH_TX => (fresh a \/ rekeying a /\ drained a) /\ receiving a /\ a_peer_rx a = true
  | PH_WAIT_TX => (fresh a \/ rekeying a /\ drained a) /\ sending a /\ a_peer_rx a = true
  | PH_QP => fresh a /\ sending a /\ a_peer_tx a = true
  | PH_WAIT_QP => fresh a /\ sending a /\ a_peer_tx a = true /\ (ENABLE_QPS, 1) ∈ d
  | PH_RESUME =>
      (fresh a /\ a_peer_qp a = true \/ rekeying a /\ drained a) /\ sending a /\
      a_peer_tx a = true /\ (ENABLE_QPS, 1) ∈ d
  | PH_ACTIVE =>
      0 < epoch a /\ a_active_epoch a = epoch a /\
      (a_old_epoch a = 0 \/ 0 < a_old_epoch a /\ a_old_epoch a + 1 = epoch a) /\
      sending a /\ a_peer_tx a = true /\ (ENABLE_QPS, 1) ∈ d /\
      (RESUME, epoch a) ∈ d /\ a_quiesced a = false
  | PH_BLOCK => a_revoking a = true
  | PH_DESTROY => a_revoking a = true /\ exists e d', d = (BLOCK, e) :: d'
  | PH_REMOVE =>
      a_revoking a = true /\ exists e1 e2 d', d = (DESTROY_QPS, e1) :: (BLOCK, e2) :: d'
  | PH_QUARANTINED => True
  | PH_DEAD =>
      a_revoking a = true /\
      exists e1 e2 e3 d', d = (REMOVE_ALL, e1) :: (DESTROY_QPS, e2) :: (BLOCK, e3) :: d'
  end.

(** The peer's signals arrived in order, for the current epoch. *)
Definition flags_inv (a : association) : Prop :=
  (a_peer_rx a = true -> (PEER_SEC_RX_READY, epoch a) ∈ h) /\
  (a_peer_tx a = true -> a_peer_rx a = true /\ (PEER_SEC_TX_READY, epoch a) ∈ h) /\
  (a_peer_qp a = true -> a_peer_tx a = true /\ (PEER_SEC_LANE_READY, epoch a) ∈ h) /\
  (a_peer_drained a = true -> a_peer_rx a = true /\ (PEER_SEC_DRAINED, epoch a) ∈ h) /\
  (a_peer_active a = true -> a_peer_tx a = true /\ (PEER_SEC_ACTIVE_ACK, epoch a) ∈ h).
End slot.

(** The phase an action is outstanding in. *)
Definition issue_phase (x : peer_crypto_action) : peer_assoc_phase :=
  match x with
  | INSTALL_RX => PH_RX | INSTALL_TX => PH_TX | ENABLE_QPS => PH_QP | QUIESCE => PH_DRAIN
  | RESUME => PH_RESUME | REMOVE_OLD => PH_ACTIVE | BLOCK => PH_BLOCK
  | DESTROY_QPS => PH_DESTROY | REMOVE_ALL => PH_REMOVE
  end.
Definition tearing (p : peer_assoc_phase) : bool :=
  match p with PH_BLOCK | PH_DESTROY | PH_REMOVE | PH_QUARANTINED | PH_DEAD => true
  | _ => false end.
(** The phases that only exist while their command is outstanding. *)
Definition transient (p : peer_assoc_phase) : bool :=
  match p with PH_TX | PH_QP | PH_DRAIN | PH_RESUME => true | _ => false end.

Definition pending_inv (op : Z) (a : association) : Prop :=
  if a_pending a =? 0
  then transient (a_phase a) = false /\ (a_revoking a = true -> tearing (a_phase a) = true)
  else 0 < a_pending a <= op /\
       exists x, a_action a = Some x /\ a_phase a = issue_phase x /\
                 (x = REMOVE_OLD -> a_old_epoch a <> 0 /\ a_peer_active a = true).

Record slot_inv (id gen op : Z) (log : list entry) (i : nat) (a : association) : Prop := {
  sl_token : tk_manager (a_token a) = id /\ tk_slot (a_token a) = i /\
             0 < tk_generation (a_token a) <= gen;
  sl_local : (a_local a <= 1)%nat;
  sl_lanes : 1 <= Z.of_nat (length (a_lanes a)) <= 16;
  sl_reserved : a_reserved_sas a = if a_old_epoch a =? 0 then 2 else 4;
  sl_pending : pending_inv op a;
  sl_flags : flags_inv (hears log (a_token a)) a;
  sl_phase : phase_inv (dones log (a_token a)) a }.

(** ** The invariant of the table *)

Definition spis (a : association) : list Z :=
  rx_spi a :: if a_old_epoch a =? 0 then [] else [old_rx_spi a].
Definition qpns (a : association) : list Z :=
  (fun l => at2 (a_local a) (ln_qpn l)) <$> a_lanes a.

(** Two associations share no receive SPI, name, Pod pair, local QP or
    outstanding operation. *)
Record apart (a b : association) : Prop := {
  ap_spi : forall s, s ∈ spis a -> s ∈ spis b -> False;
  ap_name : bd_association (a_binding a) <> bd_association (a_binding b);
  ap_pods : endpoints_same (a_binding a) (a_binding b) = false;
  ap_qpn : forall q, q ∈ qpns a -> q ∈ qpns b -> False }.

Definition limits_ok (l : peer_assoc_limits) : Prop :=
  0 < lim_pairs l <= 4096 /\ 0 < lim_lanes l < 2 ^ 32 /\ 2 <= lim_sas l < 2 ^ 32 /\
  0 < lim_setup_timeout_ns l < 2 ^ 64 /\ 0 < lim_overlap_ns l < 2 ^ 64.

Record Inv_of (lim : peer_assoc_limits) (st : peer_assoc_stats) (l : list association)
    (id gen op : Z) (log : list entry) : Prop := {
  iv_limits : limits_ok lim;
  iv_length : Z.of_nat (length l) = lim_pairs lim;
  iv_gen : 0 <= gen <= UINT64_MAX;
  iv_op : 0 <= op <= UINT64_MAX;
  iv_log : Forall (fun e => tk_generation (entry_token e) <= gen) log;
  iv_stats : st = stats_of l;
  iv_budget : st_lanes st <= lim_lanes lim /\ st_sas st <= lim_sas lim;
  iv_slots : forall i a, l !! i = Some a -> a_used a = true -> slot_inv id gen op log i a;
  iv_apart : forall i j a b, l !! i = Some a -> l !! j = Some b ->
    a_used a = true -> a_used b = true -> i <> j -> apart a b;
  iv_pending : forall i j a b, l !! i = Some a -> l !! j = Some b ->
    a_used a = true -> a_used b = true -> i <> j -> a_pending a <> 0 ->
    a_pending a <> a_pending b }.

Definition Inv (m : peer_associations) (log : list entry) : Prop :=
  Inv_of (m_limits m) (m_stats m) (m_pairs m) (m_id m) (m_generation m) (m_operation m) log.

(** ** Updates of one slot *)

(** The part of an association the table's budgets and uniqueness depend on. *)
Definition frame (a : association) :=
  (a_token a, a_binding a, a_lanes a, a_local a, a_used a, a_reserved_sas a,
   (a_old_epoch a, a_old_spi a)).

Lemma phase_is_spec p q : phase_is p q = true <-> p = q.
Proof. apply bool_decide_eq_true. Qed.

Lemma apart_frame a b a' b' : frame a' = frame a -> frame b' = frame b -> apart a b -> apart a' b'.
Proof.
  unfold frame. intros [= _ Eb El Elo _ _ Eo Es] [= _ Fb Fl Flo _ _ Fo Fs] [H1 H2 H3 H4].
  split; unfold spis, qpns, rx_spi, old_rx_spi in *;
    rewrite ?Eb, ?El, ?Elo, ?Eo, ?Es, ?Fb, ?Fl, ?Flo, ?Fo, ?Fs; done.
Qed.

Lemma endpoints_same_spec a b : endpoints_same a b = true <->
  cstr (bd_cluster a) = cstr (bd_cluster b) /\
  cstr (ep_pod (at2 0 (bd_endpoint a))) = cstr (ep_pod (at2 0 (bd_endpoint b))) /\
  cstr (ep_pod (at2 1 (bd_endpoint a))) = cstr (ep_pod (at2 1 (bd_endpoint b))).
Proof. unfold endpoints_same. rewrite !andb_true_iff, !str_eq_spec. tauto. Qed.

Lemma apart_sym a b : apart a b -> apart b a.
Proof.
  intros [H1 H2 H3 H4]. split; [eauto|done| |eauto].
  rewrite <-not_true_iff_false in *. rewrite endpoints_same_spec in *.
  intros (? & ? & ?). by apply H3.
Qed.

Lemma frame_used a a' : frame a' = frame a -> a_used a' = a_used a.
Proof. by intros [= _ _ _ _ ? _ _]. Qed.
Lemma frame_token a a' : frame a' = frame a -> a_token a' = a_token a.
Proof. by intros [= ? _ _ _ _ _ _ _]. Qed.
Lemma frame_weights a a' : frame a' = frame a ->
  w_pair a' = w_pair a /\ w_lanes a' = w_lanes a /\ w_sas a' = w_sas a.
Proof.
  unfold frame, w_pair, w_lanes, w_sas. intros [= _ _ -> _ -> -> _ _]. done.
Qed.

(** [revoke] marks the association and, unless a command is outstanding or the
    teardown is already under way, moves it to the fence. *)
Lemma revoke_cases a : exists ev ph,
  revoke a = a <| a_event := ev |> <| a_revoking := true |> <| a_phase := ph |> /\
  (ph = a_phase a /\ (a_pending a <> 0 \/ tearing (a_phase a) = true) \/
   ph = PH_BLOCK /\ a_pending a = 0 /\ (a_phase a = PH_BLOCK \/ tearing (a_phase a) = false)).
Proof.
  unfold revoke. 
  set (a1 := if negb (a_revoking a) && negb (phase_is (a_phase a) PH_DEAD) &&
                negb (phase_is (a_phase a) PH_QUARANTINED)
             then emit a PEER_SEC_REVOKE else a).
  assert (E : exists ev, a1 = a <| a_event := ev |>).
  { subst a1. case_match; [by eexists|]. exists (a_event a). by destruct a. }
  destruct E as [ev E]. clearbody a1. subst a1. cbn.
  exists ev. destruct (Z.eqb_spec (a_pending a) 0) as [Hp|Hp]; [|exists (a_phase a); tauto].
  destruct (a_phase a); cbn; eexists; (split; [reflexivity|]); tauto.
Qed.

Lemma frame_revoke a : frame (revoke a) = frame a.
Proof. destruct (revoke_cases a) as (ev & ph & -> & _). reflexivity. Qed.
Lemma pending_revoke a : a_pending (revoke a) = a_pending a.
Proof. destruct (revoke_cases a) as (ev & ph & -> & _). reflexivity. Qed.
Lemma revoking_revoke a : a_revoking (revoke a) = true.
Proof. destruct (revoke_cases a) as (ev & ph & -> & _). reflexivity. Qed.

Lemma w_quar_revoke a : w_quar (revoke a) = w_quar a.
Proof.
  destruct (revoke_cases a) as (ev & ph & -> & H). unfold w_quar; cbn.
  destruct H as [[-> _]|(-> & _ & [->|H])]; [done|done|].
  by destruct (a_phase a).
Qed.

Lemma phase_inv_revoke d a : phase_inv d a -> phase_inv d (revoke a).
Proof.
  destruct (revoke_cases a) as (ev & ph & -> & [[-> _]|(-> & _ & _)]); [|done].
  unfold phase_inv; cbn. destruct (a_phase a); cbn; auto; intros [? ?]; done.
Qed.

Lemma pending_inv_revoke op a : pending_inv op a -> pending_inv op (revoke a).
Proof.
  destruct (revoke_cases a) as (ev & ph & -> & H). unfold pending_inv; cbn.
  destruct (Z.eqb_spec (a_pending a) 0) as [Hp|Hp].
  - intros [H1 H2]. destruct H as [[-> [?|H]]|(-> & _ & _)]; [done| |done].
    split; [done|]. intros _. done.
  - destruct H as [[-> _]|(-> & ? & _)]; [|done]. tauto.
Qed.

Lemma slot_inv_revoke id gen op log i a :
  slot_inv id gen op log i a -> slot_inv id gen op log i (revoke a).
Proof.
  intros [H1 H2 H3 H4 H5 H6 H7]. pose proof (pending_inv_revoke _ _ H5) as H5'.
  pose proof (phase_inv_revoke _ _ H7) as H7'. revert H5' H7'.
  destruct (revoke_cases a) as (ev & ph & -> & _). intros. by split.
Qed.

(** ** The table under an update *)

Lemma slot_inv_mono id gen gen' op op' log es i a :
  gen <= gen' -> op <= op' -> Forall (fun e => entry_token e <> a_token a) es ->
  slot_inv id gen op log i a -> slot_inv id gen' op' (es ++ log) i a.
Proof.
  intros Hgen Hop Hes [H1 H2 H3 H4 H5 H6 H7]. split; try done.
  - split_and!; try apply H1. lia.
  - unfold pending_inv in *. destruct (a_pending a =? 0); [done|].
    destruct H5 as [? ?]. split; [lia|done].
  - by rewrite hears_other.
  - by rewrite dones_other.
Qed.

(** What the invariant bounds: every counter, the SAs by a used slot's share. *)
Lemma Inv_counters lim st l id gen op log :
  Inv_of lim st l id gen op log ->
  0 <= st_pairs st <= lim_pairs lim /\ 0 <= st_lanes st <= lim_lanes lim /\
  0 <= st_sas st <= lim_sas lim /\ 0 <= st_quarantined st <= lim_pairs lim.
Proof.
  intros [H1 H2 H3 H4 H5 H6 H7 H8 H9 H10]. subst st. cbn in *.
  assert (0 <= gsum w_pair l <= 1 * Z.of_nat (length l)).
  { apply gsum_bounds. intros a. unfold w_pair. destruct (a_used a); lia. }
  assert (0 <= gsum w_quar l <= 1 * Z.of_nat (length l)).
  { apply gsum_bounds. intros a. unfold w_quar. destruct (a_used a && _); lia. }
  assert (0 <= gsum w_lanes l).
  { apply gsum_nonneg. intros i a Ha. unfold w_lanes. destruct (a_used a); lia. }
  assert (0 <= gsum w_sas l).
  { apply gsum_nonneg. intros i a Ha. unfold w_sas. destruct (a_used a) eqn:Hu; [|lia].
    rewrite (sl_reserved _ _ _ _ _ _ (H8 i a Ha Hu)). case_match; lia. }
  lia.
Qed.

Lemma Inv_share lim st l id gen op log i a :
  Inv_of lim st l id gen op log -> l !! i = Some a -> a_used a = true ->
  1 <= st_pairs st /\ Z.of_nat (length (a_lanes a)) <= st_lanes st /\ a_reserved_sas a <= st_sas st.
Proof.
  intros [H1 H2 H3 H4 H5 H6 H7 H8 H9 H10] Ha Hu. subst st. cbn in *.
  assert (H : forall w, (forall a, a_used a = false -> 0 <= w a) ->
                (forall a, a_used a = true -> 0 <= a_reserved_sas a -> 0 <= w a) -> w a <= gsum w l).
  { intros w Hw1 Hw2. eapply gsum_lookup; [|done]. intros j b Hb.
    destruct (a_used b) eqn:Hub; [|by apply Hw1]. apply Hw2; [done|].
    rewrite (sl_reserved _ _ _ _ _ _ (H8 j b Hb Hub)). case_match; lia. }
  pose proof (H w_pair) as P1. pose proof (H w_lanes) as P2. pose proof (H w_sas) as P3.
  unfold w_pair, w_lanes, w_sas in P1, P2, P3. rewrite Hu in P1, P2, P3.
  split_and!; [apply P1|apply P2|apply P3]; intros b Hb; rewrite Hb; lia.
Qed.

Section update.
Context (lim : peer_assoc_limits) (st : peer_assoc_stats) (l : list association)
  (id gen op : Z) (log : list entry) (HI : Inv_of lim st l id gen op log).

Lemma Inv_map (f : association -> association) :
  (forall a, f a = a \/ f a = revoke a) -> Inv_of lim st (f <$> l) id gen op log.
Proof.
  intros Hf. destruct HI as [H1 H2 H3 H4 H5 H6 H7 H8 H9 H10].
  assert (Hfr : forall a, frame (f a) = frame a).
  { intros a. destruct (Hf a) as [->| ->]; [done|apply frame_revoke]. }
  assert (Hp : forall a, a_pending (f a) = a_pending a).
  { intros a. destruct (Hf a) as [->| ->]; [done|apply pending_revoke]. }
  assert (Hw : stats_of (f <$> l) = stats_of l).
  { unfold stats_of. f_equal; apply gsum_fmap; intros a;
      destruct (frame_weights a (f a) (Hfr a)) as (? & ? & ?); try done.
    destruct (Hf a) as [->| ->]; [done|apply w_quar_revoke]. }
  split; rewrite ?length_fmap, ?Hw; try done.
  - intros i a' (a & -> & Ha)%list_lookup_fmap_Some Hu.
    rewrite (frame_used _ _ (Hfr a)) in Hu. specialize (H8 i a Ha Hu).
    destruct (Hf a) as [->| ->]; [done|by apply slot_inv_revoke].
  - intros i j a' b' (a & -> & Ha)%list_lookup_fmap_Some (b & -> & Hb)%list_lookup_fmap_Some Hu Hv Hij.
    rewrite (frame_used _ _ (Hfr a)) in Hu. rewrite (frame_used _ _ (Hfr b)) in Hv.
    eapply apart_frame; [apply Hfr..|eauto].
  - intros i j a' b' (a & -> & Ha)%list_lookup_fmap_Some (b & -> & Hb)%list_lookup_fmap_Some Hu Hv Hij.
    rewrite (frame_used _ _ (Hfr a)) in Hu. rewrite (frame_used _ _ (Hfr b)) in Hv.
    rewrite !Hp. eauto.
Qed.

(** Writing slot [i]: what the new content must satisfy on its own. *)
Lemma Inv_write i a a' gen' op' es :
  l !! i = Some a ->
  gen <= gen' <= UINT64_MAX -> op <= op' <= UINT64_MAX ->
  let st' := Stats (st_pairs st - w_pair a + w_pair a') (st_lanes st - w_lanes a + w_lanes a')
               (st_sas st - w_sas a + w_sas a') (st_quarantined st - w_quar a + w_quar a') in
  st_lanes st' <= lim_lanes lim -> st_sas st' <= lim_sas lim ->
  Forall (fun e => tk_slot (entry_token e) = i /\ tk_generation (entry_token e) <= gen') es ->
  (a_used a' = true ->
     slot_inv id gen' op' (es ++ log) i a' /\
     (a_pending a' <> 0 -> a_used a = true /\ a_pending a' = a_pending a \/ op < a_pending a') /\
     (forall j b, l !! j = Some b -> a_used b = true -> i <> j -> apart a' b)) ->
  Inv_of lim st' (<[i := a']> l) id gen' op' (es ++ log).
Proof.
  intros Ha Hgen Hop st' Hb1 Hb2 Hes Hnew. destruct HI as [H1 H2 H3 H4 H5 H6 H7 H8 H9 H10].
  pose proof (lookup_lt_Some _ _ _ Ha) as Hlt.
  assert (Hpl : forall j b, l !! j = Some b -> a_used b = true -> a_pending b <= op).
  { intros j b Hb Hub.
    pose proof (sl_pending _ _ _ _ _ _ (H8 j b Hb Hub)) as Hp. unfold pending_inv in Hp.
    destruct (Z.eqb_spec (a_pending b) 0); lia. }
  split; rewrite ?length_insert; try done; try lia.
  - apply Forall_app. split; (eapply Forall_impl; [eassumption|]); cbn; [tauto|lia].
  - unfold st', stats_of. rewrite !(gsum_insert _ _ i a a' Ha), H6. done.
  - intros j b [(<- & <- & _)|[Hne Hb]]%list_lookup_insert_Some Hub; [by apply Hnew|].
    apply slot_inv_mono with gen op; [lia|lia| |eauto].
    eapply Forall_impl; [exact Hes|]. cbn. intros e [He _] Heq.
    pose proof (sl_token _ _ _ _ _ _ (H8 j b Hb Hub)) as (_ & T2 & _). congruence.
  - intros j k b c [(<- & <- & _)|[Hne Hb]]%list_lookup_insert_Some
      [(<- & <- & _)|[Hne' Hc]]%list_lookup_insert_Some Hub Huc Hjk; try done.
    + destruct (Hnew Hub) as (_ & _ & Hap). eauto.
    + destruct (Hnew Huc) as (_ & _ & Hap). apply apart_sym. eauto.
    + eauto.
  - intros j k b c [(<- & <- & _)|[Hne Hb]]%list_lookup_insert_Some
      [(<- & <- & _)|[Hne' Hc]]%list_lookup_insert_Some Hub Huc Hjk Hp; try done.
    + destruct (Hnew Hub) as (_ & Hpend & _). specialize (Hpl _ _ Hc Huc).
      destruct (Hpend Hp) as [[E1 E2]|E]; [rewrite E2 in *; eauto|lia].
    + destruct (Hnew Huc) as (_ & Hpend & _). specialize (Hpl _ _ Hb Hub).
      destruct (Z.eq_dec (a_pending a') 0) as [E|E]; [congruence|].
      destruct (Hpend E) as [[E1 E2]|E']; [rewrite E2; eauto|lia].
    + eauto.
Qed.

(** Replacing a used slot by an association with the same frame. *)
Lemma Inv_put i a a' op' es st' :
  st' = Stats (st_pairs st) (st_lanes st) (st_sas st) (st_quarantined st - w_quar a + w_quar a') ->
  l !! i = Some a -> a_used a = true -> frame a' = frame a ->
  op <= op' <= UINT64_MAX ->
  (a_pending a' <> 0 -> a_pending a' = a_pending a \/ op < a_pending a') ->
  Forall (fun e => entry_token e = a_token a) es ->
  slot_inv id gen op' (es ++ log) i a' ->
  Inv_of lim st' (<[i := a']> l) id gen op' (es ++ log).
Proof.
  intros -> Ha Hu Hfr Hop Hpend Hes Hs'.
  destruct (frame_weights _ _ Hfr) as (W1 & W2 & W3).
  pose proof (iv_slots _ _ _ _ _ _ _ HI i a Ha Hu) as Hs.
  pose proof (sl_token _ _ _ _ _ _ Hs) as (_ & Hslot & Hg).
  pose proof (iv_gen _ _ _ _ _ _ _ HI). pose proof (iv_budget _ _ _ _ _ _ _ HI) as [B1 B2].
  pose proof (Inv_write i a a' gen op' es Ha ltac:(lia) Hop) as HW.
  rewrite W1, W2, W3 in HW. cbn in HW. rewrite !Z.sub_add in HW. apply HW; try done.
  - eapply Forall_impl; [exact Hes|]. cbn. intros e ->. split; [done|lia].
  - intros _. split_and!; [done|intros E; destruct (Hpend E); auto|]. intros j b Hb Hub Hij.
    eapply apart_frame; [exact Hfr|done|]. eapply (iv_apart _ _ _ _ _ _ _ HI); eauto.
Qed.
End update.

Lemma find_Some m t a :
  find m t = Some a ->
  m_pairs m !! tk_slot t = Some a /\ a_used a = true /\
  tk_manager t = m_id m /\ tk_generation (a_token a) = tk_generation t.
Proof.
  unfold find. destruct (_ || _) eqn:E; [done|].
  apply orb_false_iff in E as [E _]. apply negb_false_iff, Z.eqb_eq in E.
  destruct (m_pairs m !! tk_slot t) as [b|]; [|done].
  destruct (a_used b && _) eqn:E2; [|done]. intros [= ->].
  apply andb_true_iff in E2 as [? ?%Z.eqb_eq]. done.
Qed.

Lemma Inv_find m log t a : Inv m log -> find m t = Some a ->
  m_pairs m !! tk_slot t = Some a /\ a_used a = true /\ a_token a = t /\
  slot_inv (m_id m) (m_generation m) (m_operation m) log (tk_slot t) a.
Proof.
  intros HI (Ha & Hu & Hm & Hg)%find_Some. pose proof (iv_slots _ _ _ _ _ _ _ HI _ _ Ha Hu) as Hs.
  split_and!; try done. pose proof (sl_token _ _ _ _ _ _ Hs) as (? & ? & _).
  destruct (a_token a), t; cbn in *; congruence.
Qed.

(** The same slot, no command issued or completed. *)
Lemma Inv_store m log t a a' es :
  Inv m log -> find m t = Some a -> frame a' = frame a -> a_pending a' = a_pending a ->
  w_quar a' = w_quar a -> Forall (fun e => entry_token e = t) es ->
  slot_inv (m_id m) (m_generation m) (m_operation m) (es ++ log) (tk_slot t) a' ->
  Inv (store m t a') (es ++ log).
Proof.
  intros HI Hf Hfr Hp Hq Hes Hs. destruct (Inv_find _ _ _ _ HI Hf) as (Ha & Hu & Ht & _).
  pose proof (iv_op _ _ _ _ _ _ _ HI) as Hop. rewrite <-Ht in Hes.
  assert (Hmono : m_operation m <= m_operation m <= UINT64_MAX) by lia.
  eapply (Inv_put _ _ _ _ _ _ _ HI); eauto.
  change (m_stats (store m t a')) with (m_stats m). destruct (m_stats m); cbn. f_equal. lia.
Qed.

Lemma Inv_tick env m log now : Inv m log -> Inv (peer_associations_tick env m now) log.
Proof.
  intros HI. apply (Inv_map _ _ _ _ _ _ _ HI). intros a. unfold tick_one.
  repeat case_match; auto.
Qed.

Lemma slot_inv_frame_only id gen op log i a a' :
  slot_inv id gen op log i a -> frame a' = frame a ->
  pending_inv op a' -> flags_inv (hears log (a_token a)) a' ->
  phase_inv (dones log (a_token a)) a' -> slot_inv id gen op log i a'.
Proof.
  unfold frame. intros [H1 H2 H3 H4 _ _ _] [= Et Eb El Elo Eu Er Eo Es] H5 H6 H7.
  split; rewrite ?Et, ?El, ?Elo, ?Er, ?Eo; done.
Qed.
