(* ===== verification/AssociationSteps.v ===== *)
(** * Every operation of the association manager preserves its invariant *)

From S2P Require Import Prelude Cursor PeerIdentity SecurityWire SecurityCodec Association AssociationInv.

(** ** Operations that leave the phase alone *)

Lemma event_loop_core n m : exists c, (event_loop n m).2 = m <| m_event_cursor := c |>.
Proof.
  revert m. induction n as [|n IH]; intros m; cbn [event_loop].
  - exists (m_event_cursor m). by destruct m.
  - destruct (_ !! _) as [a|] eqn:E; [destruct (a_used a && _)|].
    + eexists. reflexivity.
    + destruct (IH (m <| m_event_cursor ::= (fun c => u32 (c + 1)) |>)) as [c ->]. by eexists.
    + destruct (IH (m <| m_event_cursor ::= (fun c => u32 (c + 1)) |>)) as [c ->]. by eexists.
Qed.

Lemma Inv_event m log : Inv m log -> Inv (peer_associations_event m).2 log.
Proof.
  intros HI. unfold peer_associations_event.
  destruct (event_loop_core (Z.to_nat (lim_pairs (m_limits m))) m) as [c ->]. exact HI.
Qed.

Lemma Inv_event_sent m log e : Inv m log -> Inv (peer_association_event_sent m e).2 log.
Proof.
  intros HI. unfold peer_association_event_sent.
  destruct (find m (ev_token e)) as [a|] eqn:Hf; [|done].
  destruct (_ || _); [done|]. cbn [snd].
  apply (Inv_store m log _ a _ []); try done.
  destruct (Inv_find _ _ _ _ HI Hf) as (_ & _ & _ & []). by split.
Qed.

Lemma Inv_revoke_slot m log t a : Inv m log -> find m t = Some a -> Inv (store m t (revoke a)) log.
Proof.
  intros HI Hf. apply (Inv_store m log t a _ []); try done.
  - apply frame_revoke.
  - apply pending_revoke.
  - apply w_quar_revoke.
  - destruct (Inv_find _ _ _ _ HI Hf) as (_ & _ & _ & Hs). by apply slot_inv_revoke.
Qed.

Lemma Inv_revoke m log t : Inv m log -> Inv (peer_association_revoke m t).2 log.
Proof.
  intros HI. unfold peer_association_revoke.
  destruct (find m t) as [a|] eqn:Hf; [|done]. by apply Inv_revoke_slot.
Qed.

Section ops.
Context (env : nat -> peer_tls_conn).

Lemma Inv_renew m log t source generation deadline now :
  Inv m log -> Inv (peer_association_renew env m t source generation deadline now).2 log.
Proof.
  intros HI. unfold peer_association_renew. destruct (2 <? source)%nat; [done|].
  apply (Inv_tick env _ _ now) in HI. destruct (find _ t) as [a|] eqn:Hf; [|done].
  destruct (_ || _); [done|]. cbn [snd].
  apply (Inv_store _ log _ a _ []); try done.
  destruct (Inv_find _ _ _ _ HI Hf) as (_ & _ & _ & []). by split.
Qed.

Lemma Inv_admit m log t now : Inv m log -> Inv (peer_association_admit env m t now).2 log.
Proof.
  intros HI. unfold peer_association_admit. apply (Inv_tick env _ _ now) in HI.
  by destruct (find _ t).
Qed.

Lemma Inv_grant m log t worker now :
  Inv m log -> Inv (peer_association_grant env m t worker now).2 log.
Proof.
  intros HI%(Inv_admit m log t now). unfold peer_association_grant.
  destruct (peer_association_admit env m t now) as [[] m']; [|done]. cbn [snd] in HI.
  destruct (find m' t) as [a|] eqn:Hf; [|done].
  destruct (List.find _ _) as [lane|]; [|done].
  destruct (m_grant_revision m' =? UINT64_MAX); [by apply Inv_revoke_slot|].
  destruct (_ || _); [by apply Inv_revoke_slot|]. exact HI.
Qed.

(** ** Signals *)

Lemma flags_mono h h' a : (forall x, x ∈ h -> x ∈ h') -> flags_inv h a -> flags_inv h' a.
Proof.
  intros Hh (H1 & H2 & H3 & H4 & H5). unfold flags_inv.
  split_and!; intros H; [by apply Hh, H1|
    destruct (H2 H)|destruct (H3 H)|destruct (H4 H)|destruct (H5 H)]; auto.
Qed.

(** What the peer has signalled only ever helps. *)
Lemma phase_inv_raise d a a' :
  (a_phase a', a_binding a', a_active_epoch a', a_old_epoch a', a_quiesced a', a_revoking a') =
  (a_phase a, a_binding a, a_active_epoch a, a_old_epoch a, a_quiesced a, a_revoking a) ->
  (a_peer_rx a = true -> a_peer_rx a' = true) -> (a_peer_tx a = true -> a_peer_tx a' = true) ->
  (a_peer_qp a = true -> a_peer_qp a' = true) ->
  (a_peer_drained a = true -> a_peer_drained a' = true) ->
  phase_inv d a -> phase_inv d a'.
Proof.
  intros [= E1 E2 E3 E4 E5 E6] H1 H2 H3 H4.
  unfold phase_inv, fresh, rekeying, drained, sending, receiving.
  rewrite E1, E2, E3, E4, E5, E6. destruct (a_phase a); tauto.
Qed.


Lemma slot_inv_heard id gen op log i a t ty e :
  slot_inv id gen op log i a -> slot_inv id gen op (Heard t ty e :: log) i a.
Proof.
  intros [H1 H2 H3 H4 H5 H6 H7]. split; try done.
  eapply flags_mono; [|exact H6]. intros x Hx. cbn. destruct (decide _); [by right|done].
Qed.

Lemma hears_here log t ty e : hears (Heard t ty e :: log) t = (ty, e) :: hears log t.
Proof. cbn. by rewrite decide_True. Qed.

Lemma signalled_inv id gen op log i a a' type :
  slot_inv id gen op log i a -> signalled a type = Some a' ->
  slot_inv id gen op (Heard (a_token a) type (bd_epoch (a_binding a)) :: log) i a' /\
  frame a' = frame a /\ a_pending a' = a_pending a /\ w_quar a' = w_quar a.
Proof.
  intros Hs Hsig. assert (HF := sl_flags _ _ _ _ _ _ Hs). assert (HP := sl_phase _ _ _ _ _ _ Hs).
  apply (slot_inv_heard _ _ _ _ _ _ (a_token a) type (bd_epoch (a_binding a))) in Hs.
  unfold signalled in Hsig.
  destruct (Z.eqb_spec type PEER_SEC_RX_READY) as [->|]; [injection Hsig as <-|
  destruct (Z.eqb_spec type PEER_SEC_TX_READY) as [->|];
    [destruct (a_peer_rx a) eqn:Ef; [|done]; injection Hsig as <-|
  destruct (Z.eqb_spec type PEER_SEC_LANE_READY) as [->|];
    [destruct (a_peer_tx a) eqn:Ef; [|done]; injection Hsig as <-|
  destruct (Z.eqb_spec type PEER_SEC_DRAINED) as [->|];
    [destruct (a_active_epoch a =? 0), (a_peer_rx a) eqn:Ef; try done; injection Hsig as <-|
  destruct (Z.eqb_spec type PEER_SEC_ACTIVE_ACK) as [->|];
    [destruct (a_peer_tx a) eqn:Ef; [|done]; cbn in Hsig;
     destruct (_ && _); [done|]; injection Hsig as <-|
  destruct (Z.eqb_spec type PEER_SEC_REVOKE) as [->|]; [injection Hsig as <-|done]]]]]].
  6: { split_and!; [by apply slot_inv_revoke|apply frame_revoke|apply pending_revoke|
        apply w_quar_revoke]. }
  all: split; [|done].
  all: eapply slot_inv_frame_only; [exact Hs|done|
         pose proof (sl_pending _ _ _ _ _ _ Hs) as HQ; unfold pending_inv in *; cbn;
         destruct (a_pending a =? 0); [exact HQ|]; destruct HQ as (? & x & ? & ? & ?);
         split; [done|]; exists x; tauto| |
         eapply phase_inv_raise; [..|exact HP]; done].
  all: rewrite hears_here; revert HF; unfold flags_inv; cbn; rewrite ?Ef.
  all: rewrite !elem_of_cons; intuition.
Qed.

Lemma Inv_signal m log t type epoch d now :
  Inv m log ->
  let '(code, m') := peer_association_signal env m t type epoch d now in
  Inv m' ((if code =? 0 then [Heard t type epoch] else []) ++ log).
Proof.
  intros HI. unfold peer_association_signal. apply (Inv_tick env _ _ now) in HI.
  destruct (find _ t) as [a|] eqn:Hf; [|done].
  destruct (negb (live env a now) || _); [done|].
  destruct (negb (epoch =? bd_epoch (a_binding a)) || _) eqn:E; [done|].
  apply orb_false_iff in E as [->%negb_false_iff%Z.eqb_eq _].
  destruct (signalled a type) as [a'|] eqn:Hsig; [|done]. cbn [Z.eqb].
  destruct (Inv_find _ _ _ _ HI Hf) as (_ & _ & Ht & Hs).
  destruct (signalled_inv _ _ _ _ _ _ _ _ Hs Hsig) as (Hs' & Hfr & Hp & Hq).
  rewrite Ht in Hs'. apply (Inv_store _ log t a); try done. by constructor.
Qed.

(** ** Completions *)

(** An outstanding command is the one its phase waits for. *)
Lemma pending_phase id gen op log i a x :
  slot_inv id gen op log i a -> a_pending a <> 0 -> Some x = a_action a ->
  a_phase a = issue_phase x /\ (x = REMOVE_OLD -> a_old_epoch a <> 0 /\ a_peer_active a = true).
Proof.
  intros Hs Hp Hx. pose proof (sl_pending _ _ _ _ _ _ Hs) as H. unfold pending_inv in H.
  destruct (Z.eqb_spec (a_pending a) 0); [done|]. destruct H as (_ & y & Hy & H1 & H2).
  assert (x = y) as -> by congruence. done.
Qed.

Lemma w_quar_pending id gen op log i a x :
  slot_inv id gen op log i a -> a_pending a <> 0 -> Some x = a_action a -> w_quar a = 0.
Proof.
  intros Hs Hp Hx. destruct (pending_phase _ _ _ _ _ _ _ Hs Hp Hx) as [E _].
  unfold w_quar. rewrite E. by destruct x, (a_used a).
Qed.

(** Revoking once the outstanding command is settled. *)
Lemma settled_revoke id gen op log i a :
  slot_inv id gen op log i a -> slot_inv id gen op log i (revoke (a <| a_pending := 0 |>)).
Proof.
  intros [H1 H2 H3 H4 H5 H6 H7].
  assert (H7' : phase_inv (dones log (a_token a)) (a <| a_pending := 0 |>)) by exact H7.
  apply phase_inv_revoke in H7'. revert H7'.
  destruct (revoke_cases (a <| a_pending := 0 |>)) as (ev & ph & -> & Hph). intros H7'.
  split; try done. unfold pending_inv; cbn.
  destruct Hph as [[-> [?|E]]|(-> & _ & _)]; [done| |done].
  cbn in E. cbn. by destruct (a_phase a).
Qed.

Lemma settled_revoke_done id gen op log i a x e :
  slot_inv id gen op log i a -> a_pending a <> 0 -> Some x = a_action a -> before_block x = true ->
  slot_inv id gen op (Done (a_token a) x e :: log) i (revoke (a <| a_pending := 0 |>)).
Proof.
  intros Hs Hp Hx Hb. destruct (pending_phase _ _ _ _ _ _ _ Hs Hp Hx) as [E _].
  pose proof (settled_revoke _ _ _ _ _ _ Hs) as [H1 H2 H3 H4 H5 H6 H7]. split; try done.
  revert H7. destruct (revoke_cases (a <| a_pending := 0 |>)) as (ev & ph & -> & Hph).
  intros _. destruct Hph as [[-> [?|Ht]]|(-> & _ & _)]; [done| |done].
  cbn in Ht. rewrite E in Ht. by destruct x.
Qed.

Lemma quarantine_inv id gen op log i a ev :
  slot_inv id gen op log i a ->
  slot_inv id gen op log i (a <| a_pending := 0 |> <| a_phase := PH_QUARANTINED |>
    <| a_revoking := true |> <| a_event := ev |>).
Proof. intros [H1 H2 H3 H4 H5 H6 H7]. by split. Qed.

Lemma dones_here log t x e : dones (Done t x e :: log) t = (x, e) :: dones log t.
Proof. cbn. by rewrite decide_True. Qed.

(** A successful completion moves to the next phase of the protocol. *)
Lemma completed_inv id gen op log i m a x now :
  slot_inv id gen op log i a -> a_pending a <> 0 -> Some x = a_action a ->
  a_revoking a && before_block x = false -> x <> REMOVE_OLD ->
  let a' := (completed m (a <| a_pending := 0 |>) x now).1 in
  slot_inv id gen op (Done (a_token a) x (bd_epoch (a_binding a)) :: log) i a' /\
  frame a' = frame a /\ a_pending a' = 0 /\ w_quar a' = 0.
Proof.
  intros Hs Hp Hx Hr Ho. destruct (pending_phase _ _ _ _ _ _ _ Hs Hp Hx) as [E _].
  destruct Hs as [H1 H2 H3 H4 H5 H6 H7]. cbv zeta.
  unfold phase_inv in H7. rewrite E in H7.
  split; [|destruct x; try done; (split_and!; [done..|unfold w_quar; cbn; by destruct (a_used a)])].
  assert (Hp' : forall a', a_pending a' = 0 -> a_revoking a' = a_revoking a ->
    transient (a_phase a') = false -> (before_block x = false -> tearing (a_phase a') = true) ->
    pending_inv op a').
  { intros a' P1 P2 P3 P4. unfold pending_inv. rewrite P1, P2; cbn. split; [done|].
    intros Hr'. apply P4. by rewrite Hr' in Hr. }
  destruct x; try done; (split; [done|done|done|exact H4|by apply Hp'|exact H6|]);
    unfold phase_inv; rewrite dones_here; cbn; cbn in H7;
    unfold fresh, rekeying, drained, sending, receiving in *; cbn;
    rewrite ?elem_of_cons.
  6: by eauto. 6: by destruct H7 as (? & e & d' & ->); eauto.
  6: by destruct H7 as (? & e & e' & d' & ->); eauto 6.
  all: intuition (lia || congruence).
Qed.

(** Retiring the old epoch returns its two SAs and its receive SPI. *)
Lemma retired_inv id gen op log i m a now :
  slot_inv id gen op log i a -> a_pending a <> 0 -> Some REMOVE_OLD = a_action a ->
  a_revoking a = false ->
  let a' := (completed m (a <| a_pending := 0 |>) REMOVE_OLD now).1 in
  slot_inv id gen op (Done (a_token a) REMOVE_OLD (bd_epoch (a_binding a)) :: log) i a' /\
  a_reserved_sas a' = a_reserved_sas a - 2.
Proof.
  intros Hs Hp Hx Hr. destruct (pending_phase _ _ _ _ _ _ _ Hs Hp Hx) as [E Ho].
  destruct (Ho eq_refl) as [Ho' _]. clear Ho. rename Ho' into Ho. destruct Hs as [H1 H2 H3 H4 H5 H6 H7]. cbv zeta.
  apply Z.eqb_neq in Ho. rewrite Ho in H4.
  split; [|by cbn; rewrite H4]. unfold phase_inv in H7. rewrite E in H7. cbn in H7.
  split; try done.
  - cbn. by rewrite H4.
  - unfold pending_inv. cbn. rewrite E, Hr. done.
  - unfold phase_inv. rewrite dones_here. cbn. rewrite E. cbn.
    unfold sending, receiving in *. cbn. rewrite !elem_of_cons. tauto.
Qed.

Lemma completes_spec a r : completes a r = true ->
  a_pending a <> 0 /\ rq_operation r = a_pending a /\ Some (rq_action r) = a_action a /\
  bd_epoch (rq_binding r) = bd_epoch (a_binding a).
Proof.
  unfold completes. rewrite !andb_true_iff, negb_true_iff, !Z.eqb_eq, Z.eqb_neq, bool_decide_eq_true.
  tauto.
Qed.

(** Settling the outstanding command of [t] without touching the frame. *)
Lemma Inv_settle m log t a a' es q :
  Inv m log -> find m t = Some a -> a_pending a <> 0 ->
  frame a' = frame a -> a_pending a' = 0 ->
  w_quar a = 0 -> w_quar a' = q -> Forall (fun e => entry_token e = t) es ->
  slot_inv (m_id m) (m_generation m) (m_operation m) (es ++ log) (tk_slot t) a' ->
  Inv ((store m t a') <| m_stats ::= set st_quarantined (fun n => u32 (n + q)) |>) (es ++ log).
Proof.
  intros HI Hf Hp Hfr Hp' Hq Hq' Hes Hs. destruct (Inv_find _ _ _ _ HI Hf) as (Ha & Hu & Ht & _).
  pose proof (iv_op _ _ _ _ _ _ _ HI) as Hop. rewrite <-Ht in Hes.
  assert (Hmono : m_operation m <= m_operation m <= UINT64_MAX) by lia.
  assert (Hpend : a_pending a' <> 0 -> a_pending a' = a_pending a \/ m_operation m < a_pending a')
    by lia.
  pose proof (Inv_counters _ _ _ _ _ _ _ HI) as HB.
  pose proof (iv_limits _ _ _ _ _ _ _ HI) as (HL & _).
  assert (0 <= q <= 1) by (subst q; unfold w_quar; case_match; lia).
  eapply (Inv_put _ _ _ _ _ _ _ HI); eauto. cbn.
  rewrite Hq, Hq', Z.sub_0_r, wrap_small by (unfold in_width; lia). done.
Qed.

Lemma Inv_settle_plain m log t a a' es :
  Inv m log -> find m t = Some a -> a_pending a <> 0 ->
  frame a' = frame a -> a_pending a' = 0 ->
  w_quar a = 0 -> w_quar a' = 0 -> Forall (fun e => entry_token e = t) es ->
  slot_inv (m_id m) (m_generation m) (m_operation m) (es ++ log) (tk_slot t) a' ->
  Inv (store m t a') (es ++ log) /\
  Inv ((store m t a') <| m_stats ::= set st_sas (fun s => u32 (s - 0)) |>) (es ++ log).
Proof.
  intros HI Hf Hp Hfr Hp' Hq Hq' Hes Hs.
  pose proof (Inv_settle _ _ _ _ _ _ _ HI Hf Hp Hfr Hp' Hq Hq' Hes Hs) as H.
  pose proof (Inv_counters _ _ _ _ _ _ _ HI) as HB.
  pose proof (iv_limits _ _ _ _ _ _ _ HI) as (HL1 & HL2 & HL3 & _).
  unfold Inv in *; cbn in *. rewrite Z.add_0_r, Z.sub_0_r in *.
  rewrite wrap_small in H by (unfold in_width; lia).
  rewrite wrap_small by (unfold in_width; lia). by destruct (m_stats m).
Qed.

Lemma Inv_retire m log t a now :
  Inv m log -> find m t = Some a -> a_pending a <> 0 -> Some REMOVE_OLD = a_action a ->
  a_revoking a = false ->
  Inv ((store m t (completed m (a <| a_pending := 0 |>) REMOVE_OLD now).1)
         <| m_stats ::= set st_sas (fun s => u32 (s - 2)) |>)
    (Done t REMOVE_OLD (bd_epoch (a_binding a)) :: log).
Proof.
  intros HI Hf Hp Hx Hr. destruct (Inv_find _ _ _ _ HI Hf) as (Ha & Hu & Ht & Hs).
  pose proof (w_quar_pending _ _ _ _ _ _ _ Hs Hp Hx) as Hq.
  destruct (pending_phase _ _ _ _ _ _ _ Hs Hp Hx) as [Hph _].
  destruct (retired_inv _ _ _ _ _ m _ now Hs Hp Hx Hr) as (Hs' & Hres). cbv zeta in *.
  set (a' := (completed m (a <| a_pending := 0 |>) REMOVE_OLD now).1) in *.
  destruct (Inv_share _ _ _ _ _ _ _ _ _ HI Ha Hu) as (_ & _ & Hsh).
  pose proof (sl_reserved _ _ _ _ _ _ Hs) as Hres0.
  pose proof (Inv_counters _ _ _ _ _ _ _ HI) as HB.
  pose proof (iv_limits _ _ _ _ _ _ _ HI) as (HL1 & HL2 & HL3 & _).
  pose proof (iv_op _ _ _ _ _ _ _ HI). pose proof (iv_gen _ _ _ _ _ _ _ HI).
  assert (W : w_pair a' = w_pair a /\ w_lanes a' = w_lanes a /\ w_quar a' = w_quar a /\
              w_sas a' = w_sas a - 2).
  { split_and!; [done|done|done|]. unfold w_sas.
    change (a_used a') with (a_used a). by rewrite Hu. }
  destruct W as (W1 & W2 & W3 & W4).
  pose proof (Inv_write _ _ _ _ _ _ _ HI _ a a' (m_generation m) (m_operation m)
    [Done t REMOVE_OLD (bd_epoch (a_binding a))] Ha ltac:(lia) ltac:(lia)) as HW.
  rewrite W1, W2, W3, W4 in HW. cbn in HW. rewrite !Z.sub_add in HW.
  unfold Inv; cbn. rewrite wrap_small by (unfold in_width; destruct (a_old_epoch a =? 0); lia).
  replace (st_sas (m_stats m) - 2)
    with (st_sas (m_stats m) - w_sas a + (w_sas a - 2)) by lia.
  apply HW; [lia|lia| |].
  - constructor; [|done]. cbn. split; [done|].
    pose proof (sl_token _ _ _ _ _ _ Hs) as (_ & _ & Hg). rewrite Ht in Hg. lia.
  - intros _. rewrite Ht in Hs'. split_and!; [exact Hs'|by intros []|].
    intros j b Hb Hub Hij. destruct (iv_apart _ _ _ _ _ _ _ HI _ _ _ _ Ha Hb Hu Hub Hij).
    split; try done. intros x Hx1 Hx2. eapply ap_spi; [|done].
    unfold spis in *. cbn in Hx1. apply list_elem_of_singleton in Hx1 as ->. by left.
Qed.

Lemma Inv_complete m log r status now :
  Inv m log ->
  let '(code, m') := peer_association_complete env m r status now in
  Inv m' ((if (code =? 0) && (status =? 0)
           then [Done (rq_token r) (rq_action r) (bd_epoch (rq_binding r))] else []) ++ log).
Proof.
  intros HI. unfold peer_association_complete.
  destruct (_ || _); [done|]. apply (Inv_tick env _ _ now) in HI.
  destruct (find _ (rq_token r)) as [a|] eqn:Hf; [|done].
  destruct (completes a r) eqn:Hc; [|done]. cbn [negb].
  apply completes_spec in Hc as (Hp & _ & Hx & ->).
  destruct (Inv_find _ _ _ _ HI Hf) as (_ & Hu & Ht & Hs).
  pose proof (w_quar_pending _ _ _ _ _ _ _ Hs Hp Hx) as Hq.
  change (a_revoking (a <| a_pending := 0 |>)) with (a_revoking a).
  destruct ((status =? -2) || _) eqn:E1.
  { assert ((status =? 0) = false) as -> by (destruct (Z.eqb_spec status 0); subst; done).
    rewrite andb_false_r. eapply (Inv_settle _ _ _ _ _ [] 1); try done.
    - unfold w_quar; cbn. by rewrite Hu.
    - by apply quarantine_inv. }
  destruct (Z.eqb_spec status 0) as [->|Hst]; cbn [negb].
  2: { eapply (Inv_settle_plain _ _ _ _ _ []); try done.
       - by rewrite frame_revoke.
       - apply pending_revoke.
       - rewrite w_quar_revoke. exact Hq.
       - by apply settled_revoke. }
  destruct (a_revoking a && before_block (rq_action r)) eqn:Hr.
  { apply andb_true_iff in Hr as [_ Hb].
    eapply (Inv_settle_plain _ _ _ _ _ [_]); try done.
    - by rewrite frame_revoke.
    - apply pending_revoke.
    - rewrite w_quar_revoke. exact Hq.
    - by constructor.
    - rewrite <-Ht at 1. by apply settled_revoke_done. }
  destruct (decide (rq_action r = REMOVE_OLD)) as [Ho|Ho].
  { rewrite Ho in *. rewrite andb_true_r in Hr. exact (Inv_retire _ _ _ _ now HI Hf Hp Hx Hr). }
  destruct (completed_inv _ _ _ _ _ (peer_associations_tick env m now) _ _ now Hs Hp Hx Hr Ho)
    as (Hs' & Hfr & Hp' & Hq'). cbv zeta in *.
  destruct (completed _ _ (rq_action r) now) as [a' freed] eqn:Ec. cbn [fst] in *.
  assert (freed = 0) as -> by (destruct (rq_action r); cbn in Ec; congruence).
  rewrite Ht in Hs'. eapply (Inv_settle_plain _ _ _ _ _ [_]); try done. by constructor.
Qed.

(** ** Issuing commands *)

Definition issued (a : association) (x : peer_crypto_action) (operation : Z) : association :=
  (if quiesces x then a <| a_quiesced := true |> else a)
    <| a_pending := operation |> <| a_action := Some x |>.

Lemma next_action_spec d a a' now x :
  phase_inv d a -> next_action a now = (Some x, a') ->
  a' = a <| a_phase := issue_phase x |> /\
  (forall n, phase_inv d (issued a' x n)) /\
  (x = REMOVE_OLD -> a_old_epoch a <> 0 /\ a_peer_active a = true) /\ phase_is (a_phase a) PH_QUARANTINED = false.
Proof.
  unfold next_action, phase_inv. intros HP H.
  destruct (a_phase a) eqn:Eph; repeat case_match; try discriminate;
    injection H as Hx Ha; subst a' x;
    (split; [by destruct a; simplify_eq/=|]); (split; [intros n|try done]);
    repeat match goal with
      | H : _ && _ = true |- _ => apply andb_true_iff in H as [? ?]
      | H : (_ =? _) = _ |- _ => apply Z.eqb_eq in H || apply Z.eqb_neq in H
      end.
  all: unfold issued, fresh, rekeying, drained, sending, receiving in *; cbn in *; rewrite ?Eph; try tauto.
  all: intuition lia.
Qed.

(** A failed key derivation fences the association instead. *)
Lemma revoke_setup id gen op log i a p :
  slot_inv id gen op log i a -> a_pending a = 0 -> tearing p = false ->
  slot_inv id gen op log i (revoke (a <| a_phase := p |>)) /\
  w_quar (revoke (a <| a_phase := p |>)) = 0.
Proof.
  intros [H1 H2 H3 H4 H5 H6 H7] Hp Ht.
  destruct (revoke_cases (a <| a_phase := p |>)) as (ev & ph & -> & Hph). cbn in Hph.
  destruct Hph as [[_ [?|?]]|(-> & _ & _)]; [congruence|congruence|].
  split; [split; try done|unfold w_quar; cbn; by destruct (a_used a)].
  unfold pending_inv; cbn. by rewrite Hp.
Qed.

Lemma issued_inv id gen op log i a x n t k e :
  slot_inv id gen op log i a ->
  phase_inv (dones log (a_token a)) (issued (a <| a_phase := issue_phase x |>) x n) ->
  (x = REMOVE_OLD -> a_old_epoch a <> 0 /\ a_peer_active a = true) -> 0 < n ->
  slot_inv id gen n (Issued t k x e :: log) i (issued (a <| a_phase := issue_phase x |>) x n).
Proof.
  intros [H1 H2 H3 H4 H5 H6 H7] HP Ho Hn. revert HP.
  unfold issued. destruct (quiesces x) eqn:Q; intros HP; split; try done.
  all: unfold pending_inv; cbn; destruct (Z.eqb_spec n 0); [lia|]; split; [lia|]; eauto.
Qed.

Definition issue_entry (r : option peer_crypto_request) : list entry :=
  match r with
  | Some r => [Issued (rq_token r) (rq_operation r) (rq_action r) (bd_epoch (rq_binding r))]
  | None => []
  end.

Lemma Inv_next_turn m log i now :
  Inv m log ->
  Inv (next_turn env m i now).2 (issue_entry (next_turn env m i now).1 ++ log).
Proof.
  intros HI. unfold next_turn. destruct (m_pairs m !! i) as [a|] eqn:Ha; [|done].
  destruct (_ || _) eqn:E; [done|].
  apply orb_false_iff in E as [[Hu%negb_false_iff Hp%negb_false_iff%Z.eqb_eq]%orb_false_iff _].
  destruct (next_action a now) as [[x|] a'] eqn:En; [|done].
  pose proof (iv_slots _ _ _ _ _ _ _ HI _ _ Ha Hu) as Hs.
  destruct (next_action_spec _ _ _ _ _ (sl_phase _ _ _ _ _ _ Hs) En) as (-> & HP & Ho & Hq).
  assert (Hq0 : w_quar a = 0) by (unfold w_quar; by rewrite Hq, andb_false_r).
  pose proof (Inv_counters _ _ _ _ _ _ _ HI) as HB.
  pose proof (iv_limits _ _ _ _ _ _ _ HI) as (HL & _). pose proof (iv_op _ _ _ _ _ _ _ HI) as Hop.
  destruct (Z.eqb_spec (m_operation m) UINT64_MAX) as [Hmax|Hmax].
  { eapply (Inv_put _ _ _ _ _ _ _ HI i a _ (m_operation m) []); eauto; [|lia|].
    - cbn. rewrite Hq0, Z.sub_0_r, wrap_small by (unfold in_width; lia).
      unfold w_quar; cbn. by rewrite Hu.
    - destruct Hs as [H1 H2 H3 H4 H5 H6 H7]. split; try done.
      unfold pending_inv; cbn. by rewrite Hp. }
  assert (Hst : forall s a', w_quar a' = 0 -> s = m_stats m ->
    s = Stats (st_pairs (m_stats m)) (st_lanes (m_stats m)) (st_sas (m_stats m))
          (st_quarantined (m_stats m) - w_quar a + w_quar a')).
  { intros s a' W ->. rewrite Hq0, W, Z.sub_0_r, Z.add_0_r. by destruct (m_stats m). }
  destruct (if installs x then _ else _) as [material|] eqn:Ek.
  - refine (Inv_put _ _ _ _ _ _ _ HI i a
      (issued (a <| a_phase := issue_phase x |>) x (m_operation m + 1)) (m_operation m + 1)
      [Issued _ (m_operation m + 1) x _] _ (Hst _ _ _ eq_refl) Ha Hu _ _ _ _ _).
    + unfold w_quar; destruct x; cbn; by destruct (a_used a).
    + by destruct x.
    + lia.
    + intros _. right. destruct x; cbn; lia.
    + constructor; [|done]. by destruct x.
    + eapply issued_inv; eauto. lia.
  - destruct (revoke_setup _ _ _ _ _ _ (issue_phase x) Hs Hp) as [Hs' Hq']; [by destruct x|].
    refine (Inv_put _ _ _ _ _ _ _ HI i a (revoke (a <| a_phase := issue_phase x |>))
      (m_operation m) [] _ (Hst _ _ Hq' eq_refl) Ha Hu _ _ _ _ Hs').
    + by rewrite frame_revoke.
    + lia.
    + rewrite pending_revoke. by left.
    + done.
Qed.

Lemma Inv_next_loop n m log now :
  Inv m log ->
  Inv (next_loop env n m now).2 (issue_entry (next_loop env n m now).1 ++ log).
Proof.
  revert m. induction n as [|n IH]; intros m HI; [done|]. cbn [next_loop].
  set (m1 := m <| m_cursor ::= (fun c => u32 (c + 1)) |>).
  assert (HI1 : Inv m1 log) by exact HI.
  pose proof (Inv_next_turn m1 log (Z.to_nat (m_cursor m mod lim_pairs (m_limits m))) now HI1) as HT.
  destruct (next_turn env m1 _ now) as [[r|] m2]; [exact HT|]. by apply IH.
Qed.

Lemma Inv_next m log now :
  Inv m log ->
  Inv (peer_associations_next env m now).2 (issue_entry (peer_associations_next env m now).1 ++ log).
Proof. intros HI. unfold peer_associations_next. by apply Inv_next_loop, Inv_tick. Qed.

(** ** Opening, rekeying, releasing *)

Lemma spi_busy_false m spi : spi_busy m spi = false <->
  forall i a, m_pairs m !! i = Some a -> a_used a = true -> spi ∉ spis a.
Proof.
  unfold spi_busy. rewrite <-not_true_iff_false, existsb_exists. split.
  - intros H i a Ha Hu Hin. apply H. exists a. split; [by eapply list_elem_of_In, list_elem_of_lookup_2|].
    rewrite Hu. cbn. unfold spis in Hin. apply orb_true_iff.
    apply elem_of_cons in Hin as [->|Hin]; [left; apply Z.eqb_refl|right].
    destruct (a_old_epoch a =? 0); [by apply elem_of_nil in Hin|].
    apply list_elem_of_singleton in Hin as ->. apply Z.eqb_refl.
  - intros H (a & Hin & Hb). apply list_elem_of_In, list_elem_of_lookup in Hin as [i Ha].
    apply andb_true_iff in Hb as [Hu Hb]. apply (H i a Ha Hu). unfold spis.
    apply orb_true_iff in Hb as [<-%Z.eqb_eq|[Ho <-%Z.eqb_eq]%andb_true_iff]; [by left|].
    right. apply negb_true_iff in Ho. rewrite Ho. by left.
Qed.

Lemma conflicts_false m b local lanes :
  existsb (conflicts b local lanes) (m_pairs m) = false <->
  forall i a, m_pairs m !! i = Some a -> a_used a = true ->
    bd_association (a_binding a) <> bd_association b /\
    endpoints_same (a_binding a) b = false /\
    (forall q, q ∈ qpns a -> q ∈ ((fun l => at2 local (ln_qpn l)) <$> lanes) -> False).
Proof.
  rewrite <-not_true_iff_false, existsb_exists. split.
  - intros H i a Ha Hu. assert (Hc : conflicts b local lanes a <> true).
    { intros Hc. apply H. exists a. split; [by eapply list_elem_of_In, list_elem_of_lookup_2|done]. }
    unfold conflicts in Hc. rewrite Hu in Hc. cbn in Hc.
    apply not_true_iff_false in Hc. apply orb_false_iff in Hc as [[H1 H2]%orb_false_iff H3].
    split_and!; [|done|].
    + intros E. unfold bytes_eq in H1. by rewrite E, bool_decide_true in H1.
    + intros q (l & -> & Hl)%list_elem_of_fmap (k & E & Hk)%list_elem_of_fmap.
      apply not_true_iff_false in H3. apply H3. apply existsb_exists. exists l.
      split; [by apply list_elem_of_In|]. apply existsb_exists. exists k.
      split; [by apply list_elem_of_In|]. by apply Z.eqb_eq.
  - intros H (a & Hin & Hb). apply list_elem_of_In, list_elem_of_lookup in Hin as [i Ha].
    apply andb_true_iff in Hb as [Hu Hb]. destruct (H i a Ha Hu) as (H1 & H2 & H3).
    apply orb_true_iff in Hb as [[Hb|Hb]%orb_true_iff|Hb].
    + apply bool_decide_eq_true in Hb. done.
    + congruence.
    + apply existsb_exists in Hb as (l & Hl & Hk). apply existsb_exists in Hk as (k & Hk & E%Z.eqb_eq).
      eapply H3; [eapply list_elem_of_fmap_2; by apply list_elem_of_In|]. unfold compose. rewrite E.
      apply (list_elem_of_fmap_2 (fun l => at2 local (ln_qpn l))). by apply list_elem_of_In.
Qed.

(** The table has a free slot whenever the pair budget is not exhausted. *)
Lemma first_free_spec k l :
  match first_free k l with
  | Some i => exists j a, i = (k + j)%nat /\ l !! j = Some a /\ a_used a = false
  | None => gsum w_pair l = Z.of_nat (length l)
  end.
Proof.
  revert k. induction l as [|a l IH]; intros k; cbn [first_free]; [done|].
  destruct (a_used a) eqn:Hu.
  - specialize (IH (S k)). destruct (first_free (S k) l) as [i|].
    + destruct IH as (j & b & -> & Hj & Hb). exists (S j), b. split; [lia|done].
    + cbn [length]. rewrite gsum_cons. unfold w_pair at 1. rewrite Hu. lia.
  - exists 0%nat, a. split; [lia|done].
Qed.

Lemma digest_Some sha256 a a' :
  digest sha256 a = Some a' -> exists d, a' = a <| a_digest := d |>.
Proof.
  unfold digest. intros (b & _ & H)%bind_Some. apply bind_Some in H as (l & _ & H).
  apply bind_Some in H as (d & _ & H). case_match; [|done]. injection H as <-. eauto.
Qed.

Lemma Inv_release m log t : Inv m log -> Inv (peer_association_release m t).2 log.
Proof.
  intros HI. unfold peer_association_release. destruct (find m t) as [a|] eqn:Hf; [|done].
  destruct (_ || _) eqn:E; [done|].
  apply orb_false_iff in E as [_ Hd%negb_false_iff]. apply phase_is_spec in Hd.
  destruct (Inv_find _ _ _ _ HI Hf) as (Ha & Hu & Ht & Hs).
  destruct (Inv_share _ _ _ _ _ _ _ _ _ HI Ha Hu) as (S1 & S2 & S3).
  pose proof (Inv_counters _ _ _ _ _ _ _ HI) as HB.
  pose proof (sl_reserved _ _ _ _ _ _ Hs) as Hr. pose proof (sl_lanes _ _ _ _ _ _ Hs) as Hl.
  assert (0 <= a_reserved_sas a) by (rewrite Hr; case_match; lia).
  pose proof (iv_limits _ _ _ _ _ _ _ HI) as (HL1 & HL2 & HL3 & _).
  pose proof (iv_op _ _ _ _ _ _ _ HI). pose proof (iv_gen _ _ _ _ _ _ _ HI).
  unfold Inv. cbn [snd]. pose proof (Inv_write _ _ _ _ _ _ _ HI _ a zero_association
    (m_generation m) (m_operation m) [] Ha ltac:(lia) ltac:(lia)) as HW.
  unfold w_pair, w_lanes, w_sas, w_quar in HW. rewrite Hu, Hd in HW. cbn in HW.
  rewrite !Z.add_0_r, Z.sub_0_r in HW.
  cbn. rewrite !wrap_small by (unfold in_width; lia).
  by apply HW; [lia|lia| |].
Qed.

Lemma admit_true m t now m' :
  peer_association_admit env m t now = (true, m') ->
  m' = peer_associations_tick env m now /\
  exists a, find m' t = Some a /\ admits env a now = true.
Proof.
  unfold peer_association_admit. destruct (find _ t) as [a|] eqn:Hf; [|done].
  intros [= Had <-]. eauto.
Qed.

Lemma admits_spec a now : admits env a now = true ->
  live env a now = true /\ a_phase a = PH_ACTIVE /\ a_peer_active a = true /\
  a_quiesced a = false /\ ev_type (a_event a) = 0 /\ a_active_epoch a = bd_epoch (a_binding a).
Proof.
  unfold admits. rewrite !andb_true_iff, phase_is_spec, negb_true_iff, !Z.eqb_eq. tauto.
Qed.

Lemma live_spec a now : live env a now = true ->
  a_revoking a = false /\ Forall (fun d => now < d) (a_deadline a) /\
  peer_tls_faulted (env (a_tls a)) = false.
Proof.
  unfold live. rewrite !andb_true_iff, !negb_true_iff, forallb_forall.
  intros ((((H1 & _) & _) & H2) & H3). split_and!; [done| |done].
  apply Forall_forall. intros d Hd. apply Z.ltb_lt, H2. by apply list_elem_of_In.
Qed.

(** The association a rekey prepares. *)
Definition rekeyed (a : association) (spi : Z * Z) (deadline : Z) (d : list byte) : association :=
  a <| a_old_epoch := bd_epoch (a_binding a) |> <| a_old_spi := bd_spi (a_binding a) |>
    <| a_binding ::= set bd_epoch (fun e => e + 1) |> <| a_binding ::= set bd_spi (fun _ => spi) |>
    <| a_peer_rx := false |> <| a_peer_tx := false |> <| a_peer_qp := false |>
    <| a_peer_drained := false |> <| a_peer_active := false |> <| a_phase := PH_RX |>
    <| a_setup_deadline := deadline |> <| a_reserved_sas ::= (fun n => u32 (n + 2)) |>
    <| a_digest := d |>.

Lemma rekeyed_inv id gen op log i a spi deadline d :
  slot_inv id gen op log i a -> a_phase a = PH_ACTIVE -> a_pending a = 0 ->
  a_old_epoch a = 0 -> a_revoking a = false ->
  slot_inv id gen op log i (rekeyed a spi deadline d) /\
  a_reserved_sas (rekeyed a spi deadline d) = a_reserved_sas a + 2.
Proof.
  intros [H1 H2 H3 H4 H5 H6 H7] Hph Hp Ho Hr. unfold phase_inv in H7. rewrite Hph in H7.
  rewrite Ho in H4. cbn in H4. destruct H7 as (P1 & P2 & P3 & P4 & P5 & P6 & P7 & P8).
  split; [|cbn; by rewrite H4]. split; try done.
  - cbn. rewrite H4. destruct (Z.eqb_spec (bd_epoch (a_binding a)) 0); [lia|done].
  - unfold pending_inv; cbn. by rewrite Hp, Hr.
  - unfold phase_inv; cbn. right. unfold rekeying; cbn. by rewrite P2.
Qed.

Lemma Inv_write_rekeyed m log t a spi deadline d a' :
  Inv m log -> find m t = Some a -> a_phase a = PH_ACTIVE -> a_pending a = 0 ->
  a_old_epoch a = 0 -> a_revoking a = false ->
  spi_busy m (at2 (1 - a_local a) spi) = false ->
  st_sas (m_stats m) + 2 <= lim_sas (m_limits m) ->
  (a' = rekeyed a spi deadline d \/ a' = revoke (rekeyed a spi deadline d)) ->
  Inv (store (m <| m_stats ::= set st_sas (fun s => u32 (s + 2)) |>) t a') log.
Proof.
  intros HI Hf Hph Hp Ho Hr Hspi Hsas Ha'.
  destruct (Inv_find _ _ _ _ HI Hf) as (Ha & Hu & Ht & Hs).
  pose proof (Inv_counters _ _ _ _ _ _ _ HI) as HB.
  pose proof (iv_limits _ _ _ _ _ _ _ HI) as (HL1 & HL2 & HL3 & _).
  pose proof (iv_op _ _ _ _ _ _ _ HI). pose proof (iv_gen _ _ _ _ _ _ _ HI).
  pose proof (iv_budget _ _ _ _ _ _ _ HI) as [B1 _].
  destruct (rekeyed_inv _ _ _ _ _ _ spi deadline d Hs Hph Hp Ho Hr) as [Hs0 Hres].
  set (a0 := rekeyed a spi deadline d) in *.
  assert (Hfr : frame a' = frame a0) by (destruct Ha' as [->| ->]; [done|apply frame_revoke]).
  assert (Hq : w_quar a' = w_quar a).
  { destruct Ha' as [->| ->]; [|rewrite w_quar_revoke];
      unfold w_quar; change (a_used a0) with (a_used a); cbn; by rewrite Hph. }
  assert (Hs' : slot_inv (m_id m) (m_generation m) (m_operation m) log (tk_slot t) a')
    by (destruct Ha' as [->| ->]; [done|by apply slot_inv_revoke]).
  assert (Hp' : a_pending a' = 0) by (destruct Ha' as [->| ->]; [|rewrite pending_revoke]; exact Hp).
  destruct (frame_weights _ _ Hfr) as (W1 & W2 & W3).
  assert (W4 : w_sas a' = w_sas a + 2) by (rewrite W3; unfold w_sas; cbn; rewrite Hu; exact Hres).
  change (w_pair a0) with (w_pair a) in W1. change (w_lanes a0) with (w_lanes a) in W2.
  pose proof (Inv_write _ _ _ _ _ _ _ HI _ a a' (m_generation m) (m_operation m) [] Ha
    ltac:(lia) ltac:(lia)) as HW.
  rewrite W1, W2, W4, Hq in HW. cbv zeta in HW. rewrite !Z.sub_add in HW.
  unfold Inv; cbn. rewrite wrap_small by (unfold in_width; lia).
  replace (st_sas (m_stats m) + 2) with (st_sas (m_stats m) - w_sas a + (w_sas a + 2)) by lia.
  apply HW; [cbn; lia|cbn; lia|done|].
  intros _. split_and!; [exact Hs'|by rewrite Hp'|].
  intros j b Hb Hub Hij. apply (apart_frame a0 b); [done|done|].
  destruct (iv_apart _ _ _ _ _ _ _ HI _ _ _ _ Ha Hb Hu Hub Hij).
  split; try done. intros x Hx1 Hx2. unfold spis in Hx1. apply elem_of_cons in Hx1 as [->|Hx1].
  - by eapply spi_busy_false.
  - case_match; [by apply elem_of_nil in Hx1|]. apply list_elem_of_singleton in Hx1 as ->.
    eapply ap_spi; [|done]. by left.
Qed.

Lemma Inv_rekey sha256 m log t spi now :
  Inv m log -> Inv (peer_association_rekey env sha256 m t spi now).2 log.
Proof.
  intros HI. unfold peer_association_rekey. pose proof (Inv_admit m log t now HI) as HI'.
  destruct (peer_association_admit env m t now) as [[] m'] eqn:Had; [|exact HI']. cbn in HI'.
  apply admit_true in Had as (_ & a & Hf & (Hlive & Hph & _)%admits_spec). rewrite Hf.
  apply live_spec in Hlive as (Hr & _).
  destruct (_ || _) eqn:E; [done|].
  rewrite !orb_false_iff in E. destruct E as ((((((((E1 & E2) & E3) & E4) & E5) & E6) & E7) & E8) & E9).
  apply negb_false_iff, Z.eqb_eq in E1, E2. apply Z.ltb_ge in E9.
  pose proof (Inv_counters _ _ _ _ _ _ _ HI') as HB.
  pose proof (iv_limits _ _ _ _ _ _ _ HI') as (HL1 & HL2 & HL3 & _).
  rewrite wrap_small in E9 by (unfold in_width; lia).
  set (deadline := after now (lim_setup_timeout_ns (m_limits m'))).
  destruct (digest sha256 _) as [a'|] eqn:Hd; cbn [snd].
  - apply digest_Some in Hd as [d ->].
    apply (Inv_write_rekeyed _ _ _ a spi deadline d); try done; [lia|]. by left.
  - apply (Inv_write_rekeyed _ _ _ a spi deadline (a_digest a)); try done; [lia|]. by right.
Qed.

(** The association [peer_association_open] installs. *)
Definition opened (token : peer_assoc_token) (b : peer_sec_binding) (tls local : nat)
    (lanes : list peer_sec_lane) (deadlines : list Z) (setup : Z) (d : list byte) : association :=
  zero_association
    <| a_token := token |> <| a_binding := b |> <| a_tls := tls |>
    <| a_local := local |> <| a_lanes := lanes |> <| a_deadline := deadlines |>
    <| a_setup_deadline := setup |> <| a_phase := PH_RX |> <| a_reserved_sas := 2 |>
    <| a_digest := d |> <| a_used := true |>.

(** What the guards of [peer_association_open] establish. *)
Definition open_ok (m : peer_associations) (b : peer_sec_binding) (local : nat)
    (lanes : list peer_sec_lane) : Prop :=
  1 <= Z.of_nat (length lanes) <= 16 /\ (local <= 1)%nat /\ bd_epoch b = 1 /\
  st_pairs (m_stats m) <> lim_pairs (m_limits m) /\
  st_lanes (m_stats m) + Z.of_nat (length lanes) <= lim_lanes (m_limits m) /\
  st_sas (m_stats m) + 2 <= lim_sas (m_limits m) /\ m_generation m <> UINT64_MAX /\
  spi_busy m (at2 (1 - local) (bd_spi b)) = false /\
  existsb (conflicts b local lanes) (m_pairs m) = false.

Lemma Inv_write_opened m log b tls local lanes deadlines setup d i a :
  Inv m log -> open_ok m b local lanes -> m_pairs m !! i = Some a -> a_used a = false ->
  let token := Token (m_id m) (m_generation m + 1) i in
  Inv ((store (m <| m_generation := m_generation m + 1 |>) token
          (opened token b tls local lanes deadlines setup d))
        <| m_stats := Stats (u32 (st_pairs (m_stats m) + 1))
             (u32 (st_lanes (m_stats m) + Z.of_nat (length lanes)))
             (u32 (st_sas (m_stats m) + 2)) (st_quarantined (m_stats m)) |>) log.
Proof.
  intros HI (O1 & O2 & O3 & O4 & O5 & O6 & O7 & O8 & O9) Ha Hu token.
  pose proof (Inv_counters _ _ _ _ _ _ _ HI) as HB.
  pose proof (iv_limits _ _ _ _ _ _ _ HI) as (HL1 & HL2 & HL3 & _).
  pose proof (iv_op _ _ _ _ _ _ _ HI). pose proof (iv_gen _ _ _ _ _ _ _ HI).
  set (a' := opened token b tls local lanes deadlines setup d).
  assert (W : w_pair a' = 1 /\ w_lanes a' = Z.of_nat (length lanes) /\ w_sas a' = 2 /\ w_quar a' = 0)
    by done.
  destruct W as (W1 & W2 & W3 & W4).
  assert (V : w_pair a = 0 /\ w_lanes a = 0 /\ w_sas a = 0 /\ w_quar a = 0)
    by (unfold w_pair, w_lanes, w_sas, w_quar; by rewrite Hu).
  destruct V as (V1 & V2 & V3 & V4).
  pose proof (Inv_write _ _ _ _ _ _ _ HI _ a a' (m_generation m + 1) (m_operation m) [] Ha
    ltac:(lia) ltac:(lia)) as HW.
  rewrite W1, W2, W3, W4, V1, V2, V3, V4, !Z.sub_0_r, Z.add_0_r in HW.
  rewrite !wrap_small by (unfold in_width; lia). apply HW; [cbn; lia|cbn; lia|done|].
  intros _. split_and!; [split; try done|done|].
  - unfold token; cbn. lia.
  - by left.
  - intros j c Hc Huc Hij. destruct (proj1 (conflicts_false _ _ _ _) O9 j c Hc Huc) as (C1 & C2 & C3).
    apply apart_sym. split; [|exact C1|exact C2|exact C3].
    intros x Hx1 Hx2. apply list_elem_of_singleton in Hx2 as ->. by eapply spi_busy_false.
Qed.

Lemma Inv_write_zero m log i a g :
  Inv m log -> m_pairs m !! i = Some a -> a_used a = false ->
  m_generation m <= g <= UINT64_MAX ->
  Inv (m <| m_generation := g |> <| m_pairs ::= <[i := zero_association]> |>) log.
Proof.
  intros HI Ha Hu Hg. pose proof (iv_op _ _ _ _ _ _ _ HI).
  pose proof (iv_budget _ _ _ _ _ _ _ HI) as [B1 B2].
  pose proof (Inv_write _ _ _ _ _ _ _ HI _ a zero_association g (m_operation m) [] Ha
    ltac:(lia) ltac:(lia)) as HW.
  unfold w_pair, w_lanes, w_sas, w_quar in HW. rewrite Hu in HW. cbn in HW.
  rewrite !Z.sub_0_r, !Z.add_0_r in HW. unfold Inv; cbn.
  destruct (m_stats m); cbn in *. by apply HW.
Qed.

Lemma open_guards m b local lanes deadlines now :
  limits_ok (m_limits m) ->
  0 <= st_lanes (m_stats m) <= lim_lanes (m_limits m) ->
  0 <= st_sas (m_stats m) <= lim_sas (m_limits m) ->
  let count := Z.of_nat (length lanes) in
  (count =? 0) || (Z.of_nat PEER_ASSOC_LANES_MAX <? count) || (1 <? local)%nat ||
     negb (peer_sec_binding_valid b) || negb (bd_epoch b =? 1) || (now <? m_last_now m) ||
     negb (forallb (fun d => now <? d) deadlines) ||
     (st_pairs (m_stats m) =? lim_pairs (m_limits m)) ||
     (u32 (lim_lanes (m_limits m) - st_lanes (m_stats m)) <? count) ||
     (u32 (lim_sas (m_limits m) - st_sas (m_stats m)) <? 2) ||
     (m_generation m =? UINT64_MAX) || spi_busy m (at2 (1 - local) (bd_spi b)) = false ->
  existsb (conflicts b local lanes) (m_pairs m) = false ->
  open_ok m b local lanes.
Proof.
  intros (_ & HL2 & HL3 & _) HB1 HB2 count. subst count.
  rewrite !wrap_small by (unfold in_width; lia). change (Z.of_nat PEER_ASSOC_LANES_MAX) with 16.
  rewrite !orb_false_iff, !negb_false_iff, !Z.eqb_neq, !Z.ltb_ge, Z.eqb_eq, Nat.ltb_ge.
  intros H Hc. unfold open_ok. intuition lia.
Qed.

Lemma Inv_open sha256 m log tls b local lanes deadlines now :
  Inv m log -> Inv (peer_association_open env sha256 m tls b local lanes deadlines now).2 log.
Proof.
  intros HI. unfold peer_association_open.
  destruct ((Z.of_nat (length lanes) =? 0) || _ || _ || _ || _ || _ || _ || _ || _ || _ || _ || _) eqn:G; [done|].
  destruct (peer_sec_derive _ _ _ _); [|done].
  destruct (negb _ || _) eqn:C; [done|]. apply orb_false_iff in C as [_ C].
  pose proof (Inv_counters _ _ _ _ _ _ _ HI) as HB.
  assert (HO : open_ok m b local lanes).
  { eapply open_guards; eauto; [apply (iv_limits _ _ _ _ _ _ _ HI)|lia|lia]. }
  pose proof (first_free_spec 0 (m_pairs m)) as HF.
  destruct (first_free 0 (m_pairs m)) as [i|]; [|done].
  destruct HF as (j & a & -> & Ha & Hu). cbn [Nat.add].
  pose proof (iv_gen _ _ _ _ _ _ _ HI).
  destruct (digest sha256 _) as [a'|] eqn:Hd; cbn [snd].
  - apply digest_Some in Hd as [d ->].
    exact (Inv_write_opened m log b tls local lanes deadlines
      (after now (lim_setup_timeout_ns (m_limits m))) d j a HI HO Ha Hu).
  - apply (Inv_write_zero m log j a); try done.
    destruct HO as (_ & _ & _ & _ & _ & _ & O7 & _). lia.
Qed.
End ops.

(** ** Runs *)

Section run.
Context (sha256 : list byte -> option (list byte)).

Lemma Inv_exec env o m log :
  Inv m log ->
  let '(m', es) := assoc_exec sha256 env o m in Inv m' (es ++ log).
Proof.
  intros HI. destruct o; cbn [assoc_exec].
  - by apply Inv_open.
  - by apply Inv_tick.
  - pose proof (Inv_next env m log now HI) as H.
    by destruct (peer_associations_next env m now) as [[r|] m'].
  - pose proof (Inv_complete env m log r status now HI) as H.
    by destruct (peer_association_complete env m r status now).
  - by apply Inv_event.
  - by apply Inv_event_sent.
  - pose proof (Inv_signal env m log t type epoch d now HI) as H.
    by destruct (peer_association_signal env m t type epoch d now).
  - by apply Inv_admit.
  - by apply Inv_grant.
  - by apply Inv_rekey.
  - by apply Inv_revoke.
  - by apply Inv_release.
  - by apply Inv_renew.
Qed.

Lemma Inv_run ops m log m' log' :
  Inv m log -> assoc_run sha256 ops m log = (m', log') -> Inv m' log'.
Proof.
  revert m log. induction ops as [|[env o] ops IH]; intros m log HI; cbn [assoc_run].
  - by intros [= <- <-].
  - pose proof (Inv_exec env o m log HI) as H. destruct (assoc_exec sha256 env o m) as [m1 es].
    by apply IH.
Qed.
End run.

(** The fields of the limits are C integers. *)
Definition limits_width (l : peer_assoc_limits) : Prop :=
  in_width 32 (lim_pairs l) /\ in_width 32 (lim_lanes l) /\ in_width 32 (lim_sas l) /\
  in_width 64 (lim_setup_timeout_ns l) /\ in_width 64 (lim_overlap_ns l).

Lemma Inv_new limits id m :
  limits_width limits -> peer_associations_new limits id = Some m -> Inv m [].
Proof.
  unfold limits_width, in_width. intros HW. unfold peer_associations_new.
  destruct (_ || _) eqn:E; [done|]. rewrite !orb_false_iff, !Z.eqb_neq, !Z.ltb_ge in E.
  destruct (id =? 0); [done|]. intros [= <-].
  assert (Hz : forall i a, repeat zero_association (Z.to_nat (lim_pairs limits)) !! i = Some a ->
               a_used a = true -> False).
  { intros i a Ha%list_elem_of_lookup_2%list_elem_of_In%repeat_spec. by subst a. }
  assert (Hg : forall w, w zero_association = 0 ->
    gsum w (repeat zero_association (Z.to_nat (lim_pairs limits))) = 0).
  { intros w Hw. clear Hz. induction (Z.to_nat (lim_pairs limits)) as [|n IH]; [done|].
    change (w zero_association + gsum w (repeat zero_association n) = 0). lia. }
  split; cbn [m_limits m_stats m_pairs m_id m_generation m_operation].
  - unfold limits_ok. lia.
  - rewrite repeat_length. lia.
  - unfold UINT64_MAX. lia.
  - unfold UINT64_MAX. lia.
  - constructor.
  - unfold stats_of. by rewrite !Hg.
  - cbn. lia.
  - intros i a Ha Hu. by destruct (Hz i a).
  - intros i j a b Ha _ Hu. by destruct (Hz i a).
  - intros i j a b Ha _ Hu. by destruct (Hz i a).
Qed.

(** Everything a run of a fresh manager reaches satisfies the invariant. *)
Lemma Inv_reach sha256 limits id m0 ops m log :
  limits_width limits -> peer_associations_new limits id = Some m0 ->
  assoc_run sha256 ops m0 [] = (m, log) -> Inv m log.
Proof. intros HW HN HR. eapply Inv_run; [by eapply Inv_new|exact HR]. Qed.
