(* ===== verification/AssociationProofs.v ===== *)
(** * What the association manager guarantees

    Budgets and uniqueness of the table, the protocol barriers in front of
    every hardware command and of admission, the order of the teardown, tokens
    and operations that never come back, and progress of the teardown. *)

From S2P Require Import Prelude Cursor PeerIdentity SecurityWire SecurityCodec Association AssociationInv AssociationSteps.

(** ** A sample run used by the witnesses

    One pair is opened, set up with its peer and admitted. *)

Definition demo_sha (_ : list byte) : option (list byte) := Some (sample_key 9).
Definition demo_env (_ : nat) : peer_tls_conn := sample_tls 0.
Definition demo_limits : peer_assoc_limits := Limits 2 4 4 1000 10.
Definition demo_token : peer_assoc_token := Token 77 1 0.
Definition demo_request (operation : Z) (action : peer_crypto_action) : peer_crypto_request :=
  Request demo_token operation action sample_binding [] 0 0 [].
Definition demo_event (type : Z) : peer_assoc_event :=
  Event demo_token type (sample_id 4) (sample_key 9) 1.
Definition demo_turn (operation : Z) (action : peer_crypto_action) (sent heard : Z)
    : list assoc_op :=
  [OpNext 1; OpComplete (demo_request operation action) 0 1; OpEventSent (demo_event sent);
   OpSignal demo_token heard 1 (sample_key 9) 1].
Definition demo_open : list assoc_op :=
  [OpOpen 0 sample_binding 0 [sample_lane 0; sample_lane 1] [100; 100; 100] 1].
Definition demo_binding : peer_sec_binding :=
  SecBinding (bd_cluster sample_binding)
    (SecEndpoint (sample_name PEER_SEC_NAME_MAX [110; 48]) (sample_key 1) (sample_id 7)
       (sample_name PEER_SEC_UID_MAX [113; 48]) (sample_id 9) 0 1 (sample_key 5), sample_endpoint 1)
    (sample_id 3) (sample_id 5) 1 (258, 259).
(** Two pairs opened side by side. *)
Definition demo_two : list assoc_op :=
  demo_open ++ [OpOpen 0 demo_binding 0 [sample_lane 2] [100; 100; 100] 1].
Definition demo_setup : list assoc_op :=
  demo_open ++
  demo_turn 1 INSTALL_RX PEER_SEC_RX_READY PEER_SEC_RX_READY ++
  demo_turn 2 INSTALL_TX PEER_SEC_TX_READY PEER_SEC_TX_READY ++
  demo_turn 3 ENABLE_QPS PEER_SEC_LANE_READY PEER_SEC_LANE_READY ++
  demo_turn 4 RESUME PEER_SEC_ACTIVE_ACK PEER_SEC_ACTIVE_ACK.
Definition demo_teardown : list assoc_op :=
  demo_setup ++ [OpRevoke demo_token] ++
  [OpNext 1; OpComplete (demo_request 5 BLOCK) 0 1; OpNext 1;
   OpComplete (demo_request 6 DESTROY_QPS) 0 1; OpNext 1;
   OpComplete (demo_request 7 REMOVE_ALL) 0 1].
Definition demo_start : peer_associations :=
  default (Manager demo_limits (Stats 0 0 0 0) [] 0 0 0 0 0 0 0)
    (peer_associations_new demo_limits 77).
Definition demo_run (ops : list assoc_op) : peer_associations * list entry :=
  assoc_run demo_sha ((fun o => (demo_env, o)) <$> ops) demo_start [].

Lemma demo_limits_width : limits_width demo_limits.
Proof. unfold limits_width, in_width; cbn. lia. Qed.
Lemma demo_started : peer_associations_new demo_limits 77 = Some demo_start.
Proof. reflexivity. Qed.

Lemma demo_run_eq ops :
  assoc_run demo_sha ((fun o => (demo_env, o)) <$> ops) demo_start [] =
  ((demo_run ops).1, (demo_run ops).2).
Proof. apply surjective_pairing. Qed.

(** ** Claims about every run *)

Section claims.
Context (sha256 : list byte -> option (list byte)) (limits : peer_assoc_limits) (id : Z)
  (m0 : peer_associations) (ops : list ((nat -> peer_tls_conn) * assoc_op))
  (m : peer_associations) (log : list entry).
Context (HW : limits_width limits) (HN : peer_associations_new limits id = Some m0)
  (HR : assoc_run sha256 ops m0 [] = (m, log)).

Lemma reached_inv : Inv m log.
Proof using HW HN HR. exact (Inv_reach sha256 limits id m0 ops m log HW HN HR). Qed.

(** In every state a fresh manager can reach, the pair, lane, SA and
    quarantine counters are exactly the sums over the occupied slots and stay
    within the configured limits, so no counter wraps and none leaks; and the
    manager can be freed exactly when no slot is occupied. *)
Lemma budgets_sum :
  m_stats m = stats_of (m_pairs m) /\
  st_pairs (m_stats m) <= lim_pairs (m_limits m) /\
  st_lanes (m_stats m) <= lim_lanes (m_limits m) /\
  st_sas (m_stats m) <= lim_sas (m_limits m) /\
  (peer_associations_free m = true <->
     forall i a, m_pairs m !! i = Some a -> a_used a = false).
Proof using HW HN HR.
  pose proof reached_inv as HI.
  pose proof (Inv_counters _ _ _ _ _ _ _ HI) as HB. pose proof (iv_stats _ _ _ _ _ _ _ HI) as HS.
  split_and!; [done|lia..|]. unfold peer_associations_free. rewrite Z.eqb_eq. split.
  - intros H0 i a Ha. destruct (a_used a) eqn:Hu; [|done].
    destruct (Inv_share _ _ _ _ _ _ _ _ _ HI Ha Hu) as [? _]. lia.
  - intros H. rewrite HS. cbn. clear -H. induction (m_pairs m) as [|a l IH]; [done|].
    rewrite gsum_cons. unfold w_pair at 1. rewrite (H 0%nat a eq_refl).
    rewrite IH; [done|]. intros i b Hb. by apply (H (S i)).
Qed.

(** Two different occupied slots never share a local receive SPI (current
    or retiring), an association name, a Pod pair, a local QP number or an
    outstanding operation number. *)
Lemma slots_apart i j a b :
  m_pairs m !! i = Some a -> m_pairs m !! j = Some b ->
  a_used a = true -> a_used b = true -> i <> j ->
  apart a b /\ (a_pending a <> 0 -> a_pending a <> a_pending b).
Proof using HW HN HR.
  pose proof reached_inv as HI.
  intros Ha Hb Hu Hv Hij. split; [by eapply (iv_apart _ _ _ _ _ _ _ HI)|].
  by eapply (iv_pending _ _ _ _ _ _ _ HI).
Qed.

(** The table of associations.  In every state a fresh manager can reach, the pair,
    lane, SA and quarantine counters are exactly the sums over the occupied slots
    and stay within the configured limits, so no counter wraps and none leaks; the
    manager can be freed exactly when no slot is occupied; and two different
    occupied slots never share a local receive SPI (current or retiring), an
    association name, a Pod pair, a local QP number or an outstanding operation
    number. *)
Lemma budgets_exact :
  m_stats m = stats_of (m_pairs m) /\
  st_pairs (m_stats m) <= lim_pairs (m_limits m) /\
  st_lanes (m_stats m) <= lim_lanes (m_limits m) /\
  st_sas (m_stats m) <= lim_sas (m_limits m) /\
  (peer_associations_free m = true <->
     forall i a, m_pairs m !! i = Some a -> a_used a = false) /\
  (forall i j a b, m_pairs m !! i = Some a -> m_pairs m !! j = Some b ->
     a_used a = true -> a_used b = true -> i <> j ->
     apart a b /\ (a_pending a <> 0 -> a_pending a <> a_pending b)).
Proof using HW HN HR. destruct budgets_sum as (H1 & H2 & H3 & H4 & H5). split_and!; try done. apply slots_apart. Qed.

(** C18: Admission is fail-closed.  When [peer_association_admit] answers yes,
    no lease has expired and the TLS session is intact, the hardware owner has
    confirmed the receive and transmit SAs and the resume of the current epoch
    and has once enabled the QPs, and the peer has reported its own receive,
    transmit and active barriers for that epoch. *)
Theorem admit_barrier env t now m' :
  peer_association_admit env m t now = (true, m') ->
  exists a, find m' t = Some a /\
    let e := bd_epoch (a_binding a) in
    Forall (fun d => now < d) (a_deadline a) /\
    peer_tls_faulted (env (a_tls a)) = false /\
    (INSTALL_RX, e) ∈ dones log t /\ (INSTALL_TX, e) ∈ dones log t /\
    (ENABLE_QPS, 1) ∈ dones log t /\ (RESUME, e) ∈ dones log t /\
    (PEER_SEC_RX_READY, e) ∈ hears log t /\ (PEER_SEC_TX_READY, e) ∈ hears log t /\
    (PEER_SEC_ACTIVE_ACK, e) ∈ hears log t.
Proof using HW HN HR.
  pose proof reached_inv as HI.
  intros (-> & a & Hf & (Hl & Hph & Hact & _)%admits_spec)%admit_true.
  apply live_spec in Hl as (_ & Hd & Htls). exists a. split; [done|]. cbv zeta.
  destruct (Inv_find _ _ _ _ (Inv_tick env _ _ now HI) Hf) as (_ & _ & <- & Hs).
  pose proof (sl_phase _ _ _ _ _ _ Hs) as HP. unfold phase_inv in HP. rewrite Hph in HP.
  destruct HP as (_ & _ & _ & [H1 H2] & _ & H3 & H4 & _).
  destruct (sl_flags _ _ _ _ _ _ Hs) as (F1 & F2 & _ & _ & F5).
  destruct (F5 Hact) as [Htx F5']. destruct (F2 Htx) as [Hrx F2']. specialize (F1 Hrx).
  split_and!; done.
Qed.

(** A slot in the DEAD phase has been fenced, had its QPs destroyed with
    DMA fenced, and had all flows and SAs removed, in that order, and nothing
    was confirmed for it after that; only such a slot is ever released. *)
Lemma dead_fenced t a :
  find m t = Some a ->
  (a_phase a = PH_DEAD ->
     exists e1 e2 e3 rest,
       dones log t = (REMOVE_ALL, e1) :: (DESTROY_QPS, e2) :: (BLOCK, e3) :: rest) /\
  ((peer_association_release m t).1 = 0 <-> a_phase a = PH_DEAD).
Proof using HW HN HR.
  pose proof reached_inv as HI.
  intros Hf. destruct (Inv_find _ _ _ _ HI Hf) as (_ & _ & <- & Hs). split.
  - intros Hph. pose proof (sl_phase _ _ _ _ _ _ Hs) as HP. unfold phase_inv in HP.
    rewrite Hph in HP. apply HP.
  - unfold peer_association_release. rewrite Hf.
    pose proof (sl_pending _ _ _ _ _ _ Hs) as HP. unfold pending_inv in HP.
    destruct (Z.eqb_spec (a_pending a) 0) as [E|E]; cbn [negb orb].
    + destruct (phase_is (a_phase a) PH_DEAD) eqn:Ed; cbn; [by apply phase_is_spec in Ed|].
      split; [done|]. intros Hd. by rewrite Hd in Ed.
    + cbn. split; [done|]. intros Hd. destruct HP as (_ & x & _ & Hx & _).
      rewrite Hd in Hx. by destruct x.
Qed.

(** What the log must show before a command of an epoch may be issued. *)
Definition issue_allowed (t : peer_assoc_token) (e : Z) (x : peer_crypto_action) : Prop :=
  let d := dones log t in let h := hears log t in
  match x with
  | INSTALL_RX | BLOCK => True
  | QUIESCE => 1 < e /\ (INSTALL_RX, e) ∈ d /\ (PEER_SEC_RX_READY, e) ∈ h
  | INSTALL_TX =>
      (INSTALL_RX, e) ∈ d /\ (PEER_SEC_RX_READY, e) ∈ h /\
      (1 < e -> (QUIESCE, e) ∈ d /\ (PEER_SEC_DRAINED, e) ∈ h)
  | ENABLE_QPS =>
      e = 1 /\ (INSTALL_RX, e) ∈ d /\ (INSTALL_TX, e) ∈ d /\ (PEER_SEC_TX_READY, e) ∈ h
  | RESUME =>
      (INSTALL_RX, e) ∈ d /\ (INSTALL_TX, e) ∈ d /\ (ENABLE_QPS, 1) ∈ d /\
      (PEER_SEC_TX_READY, e) ∈ h /\
      (e = 1 -> (PEER_SEC_LANE_READY, e) ∈ h) /\ (1 < e -> (PEER_SEC_DRAINED, e) ∈ h)
  | REMOVE_OLD => (RESUME, e) ∈ d /\ (PEER_SEC_ACTIVE_ACK, e) ∈ h
  | DESTROY_QPS => exists e' d', d = (BLOCK, e') :: d'
  | REMOVE_ALL => exists e1 e2 d', d = (DESTROY_QPS, e1) :: (BLOCK, e2) :: d'
  end.
End claims.

(** An outstanding command was allowed. *)
Lemma outstanding_allowed id gen op log i a x :
  slot_inv id gen op log i a -> a_pending a <> 0 -> a_action a = Some x ->
  issue_allowed log (a_token a) (bd_epoch (a_binding a)) x.
Proof.
  intros Hs Hp Hx. destruct (pending_phase _ _ _ _ _ _ _ Hs Hp (eq_sym Hx)) as [Hph Ho].
  pose proof (sl_phase _ _ _ _ _ _ Hs) as HP. unfold phase_inv in HP. rewrite Hph in HP.
  destruct (sl_flags _ _ _ _ _ _ Hs) as (F1 & F2 & F3 & F4 & F5).
  unfold fresh, rekeying, drained, sending, receiving in HP.
  destruct x; cbn in *; try done; try tauto.
  all: intuition lia.
Qed.

Lemma Inv_lookup_find m log i a :
  Inv m log -> m_pairs m !! i = Some a -> a_used a = true -> find m (a_token a) = Some a.
Proof.
  intros HI Ha Hu. pose proof (iv_slots _ _ _ _ _ _ _ HI _ _ Ha Hu) as Hs.
  pose proof (sl_token _ _ _ _ _ _ Hs) as (T1 & T2 & _).
  pose proof (iv_length _ _ _ _ _ _ _ HI) as HL. apply lookup_lt_Some in Ha as Hlt.
  unfold find. rewrite T1, T2, Z.eqb_refl, Ha, Hu, Z.eqb_refl.
  destruct (Z.leb_spec (lim_pairs (m_limits m)) (Z.of_nat i)); [lia|done].
Qed.

Section requests.
Context (env : nat -> peer_tls_conn).

(** The request handed out describes the slot it left outstanding. *)
Definition describes (m : peer_associations) (r : peer_crypto_request) (i : nat) : Prop :=
  exists a, m_pairs m !! i = Some a /\ a_used a = true /\
    a_token a = rq_token r /\ a_pending a = rq_operation r /\
    a_action a = Some (rq_action r) /\ a_binding a = rq_binding r /\
    a_lanes a = rq_lanes r /\ a_local a = rq_local r /\
    (if installs (rq_action r)
     then peer_sec_derive (env (a_tls a)) (a_binding a) (a_local a)
            (install_direction (rq_action r) (a_local a)) = Some (rq_material r)
     else rq_material r = repeat x00 PEER_TLS_IPSEC_MATERIAL_LEN).

Lemma next_turn_request m i now r m' :
  next_turn env m i now = (Some r, m') ->
  describes m' r i /\ rq_operation r = m_operation m + 1.
Proof.
  unfold next_turn. destruct (m_pairs m !! i) as [a|] eqn:Ha; [|done].
  destruct (_ || _) eqn:E; [done|].
  apply orb_false_iff in E as [[Hu%negb_false_iff _]%orb_false_iff _].
  destruct (next_action a now) as [[x|] a'] eqn:En; [|done].
  assert (Hfr : frame a' = frame a /\ a_tls a' = a_tls a).
  { unfold next_action in En. repeat case_match; simplify_eq; done. }
  destruct Hfr as [Hfr Htls]. pose proof (frame_used _ _ Hfr) as Hu'. rewrite Hu in Hu'.
  destruct (m_operation m =? UINT64_MAX); [done|].
  destruct (if installs x then _ else _) as [key|] eqn:Ek; [|done].
  intros [= <- <-]. split; [|done]. unfold describes.
  exists (issued a' x (m_operation m + 1)). unfold issued. split.
  { cbn. rewrite list_lookup_insert_eq; [by destruct (quiesces x)|by apply lookup_lt_Some in Ha]. }
  destruct (quiesces x) eqn:Q; cbn; (split_and!; [done..|]).
  all: destruct x; cbn in *; congruence.
Qed.

Lemma next_turn_idle m i now m' :
  next_turn env m i now = (None, m') -> m_operation m' = m_operation m.
Proof. unfold next_turn. intros H. repeat case_match; simplify_eq; done. Qed.

Lemma next_loop_request n m now r m' :
  next_loop env n m now = (Some r, m') ->
  (exists i, describes m' r i) /\ rq_operation r = m_operation m + 1.
Proof.
  revert m. induction n as [|n IH]; intros m; cbn [next_loop]; [done|].
  destruct (next_turn env _ _ now) as [[r'|] m1] eqn:Et.
  - intros [= <- <-]. apply next_turn_request in Et as [Hd Ho]. eauto.
  - apply next_turn_idle in Et. intros H%IH. by rewrite Et in H.
Qed.
End requests.

(** C2: [peer_associations_next] issues every hardware command only behind its
    protocol barrier: transmit keys only after both ends can receive (and, in a
    rekey, after both ends have drained), QPs only after both ends can
    transmit, resume only after everything is installed and both ends are
    ready, the old epoch is removed only after the peer runs the new one, and
    QPs and SAs are destroyed only behind the fence.  The request carries key
    material only for an install, derived for its direction, and the slot it
    names is the one left outstanding under its operation number. *)
Theorem next_behind_barrier sha256 limits id m0 ops m log env now r m' :
  limits_width limits -> peer_associations_new limits id = Some m0 ->
  assoc_run sha256 ops m0 [] = (m, log) ->
  peer_associations_next env m now = (Some r, m') ->
  issue_allowed log (rq_token r) (bd_epoch (rq_binding r)) (rq_action r) /\
  exists i, describes env m' r i.
Proof.
  intros HW HN HR Hn. pose proof (reached_inv _ _ _ _ _ _ _ HW HN HR) as HI.
  pose proof (Inv_next env m log now HI) as HI'. rewrite Hn in HI'. cbn in HI'.
  destruct (next_loop_request _ _ _ _ _ _ Hn) as [[i Hd] Ho]. split; [|eauto].
  destruct Hd as (a & Ha & Hu & Ht & Hp & Hx & Hb & _).
  pose proof (iv_slots _ _ _ _ _ _ _ HI' _ _ Ha Hu) as Hs. rewrite <-Ht, <-Hb.
  apply (outstanding_allowed _ _ _ _ _ _ _ Hs); [|done].
  pose proof (iv_op _ _ _ _ _ _ _ HI). cbn in Ho. lia.
Qed.

Lemma admit_barrier_witness : exists a,
  find (demo_run demo_setup).1 demo_token = Some a /\ Forall (fun d => 1 < d) (a_deadline a) /\
  (ENABLE_QPS, 1) ∈ dones (demo_run demo_setup).2 demo_token.
Proof.
  assert (Hadmit : peer_association_admit demo_env (demo_run demo_setup).1 demo_token 1 =
                   (true, (demo_run demo_setup).1)) by (vm_compute; reflexivity).
  pose proof (admit_barrier demo_sha demo_limits 77 demo_start _ _ _
    demo_limits_width demo_started (demo_run_eq demo_setup) demo_env demo_token 1 _ Hadmit)
    as (a & Hf & Hd & _ & _ & _ & Hq & _).
  exists a. split; [exact Hf|]. split; [exact Hd|exact Hq].
Defined.

Lemma next_behind_barrier_witness : exists r,
  rq_action r = ENABLE_QPS /\
  issue_allowed (demo_run (take 9 demo_setup)).2 (rq_token r) (bd_epoch (rq_binding r)) ENABLE_QPS.
Proof.
  set (m := (demo_run (take 9 demo_setup)).1).
  set (r := default (demo_request 0 BLOCK) (peer_associations_next demo_env m 1).1).
  assert (Hn : peer_associations_next demo_env m 1 =
               (Some r, (peer_associations_next demo_env m 1).2)) by (vm_compute; reflexivity).
  pose proof (next_behind_barrier demo_sha demo_limits 77 demo_start _ _ _ demo_env 1 r _
    demo_limits_width demo_started (demo_run_eq (take 9 demo_setup)) Hn) as [H _].
  assert (Hx : rq_action r = ENABLE_QPS) by (vm_compute; reflexivity).
  exists r. split; [exact Hx|]. rewrite Hx in H. exact H.
Defined.

Lemma budgets_exact_witness :
  st_sas (m_stats (demo_run demo_two).1) <= lim_sas (m_limits (demo_run demo_two).1) /\
  exists a b, m_pairs (demo_run demo_two).1 !! 0%nat = Some a /\ m_pairs (demo_run demo_two).1 !! 1%nat = Some b /\ rx_spi a <> rx_spi b.
Proof.
  pose proof (budgets_exact demo_sha demo_limits 77 demo_start _ _ _ demo_limits_width
    demo_started (demo_run_eq demo_two)) as (_ & _ & _ & H & _ & HA). split; [exact H|].
  set (a := nth 0 (m_pairs (demo_run demo_two).1) zero_association).
  set (b := nth 1 (m_pairs (demo_run demo_two).1) zero_association).
  assert (Ha : m_pairs (demo_run demo_two).1 !! 0%nat = Some a) by (vm_compute; reflexivity).
  assert (Hb : m_pairs (demo_run demo_two).1 !! 1%nat = Some b) by (vm_compute; reflexivity).
  assert (Hu : a_used a = true) by (vm_compute; reflexivity).
  assert (Hv : a_used b = true) by (vm_compute; reflexivity).
  destruct (HA 0%nat 1%nat a b Ha Hb Hu Hv ltac:(lia)) as [Hab _].
  exists a, b. split; [exact Ha|]. split; [exact Hb|]. intros E.
  apply (ap_spi _ _ Hab (rx_spi a)); [left|rewrite E; left].
Defined.
