(* ===== verification/AssociationHistory.v ===== *)
(** * What never comes back in the association manager

    How the table may change over time, whatever the sequence of operations:
    tokens and operation numbers are never reused, and a revoked or dead
    association stays so. *)

From S2P Require Import Prelude Cursor PeerIdentity SecurityWire SecurityCodec Association AssociationInv AssociationSteps AssociationProofs.

(** A slot's content after a step: the same association, with its command
    kept, settled or replaced by a newer one, or a newer association. *)
Definition slot_evolves (gen op : Z) (old : option association) (a' : association) : Prop :=
  (exists a, old = Some a /\ a_used a = true /\ a_token a' = a_token a /\
     (a_pending a' = a_pending a \/ a_pending a' = 0 \/ op < a_pending a') /\
     (a_revoking a = true -> a_revoking a' = true) /\
     (a_phase a = PH_DEAD -> a_phase a' = PH_DEAD)) \/
  (gen < tk_generation (a_token a') /\ (a_pending a' = 0 \/ op < a_pending a')).

Record evolves (m m' : peer_associations) : Prop := {
  ev_id : m_id m' = m_id m;
  ev_limits : m_limits m' = m_limits m;
  ev_gen : m_generation m <= m_generation m';
  ev_op : m_operation m <= m_operation m';
  ev_slots : forall i a', m_pairs m' !! i = Some a' -> a_used a' = true ->
    slot_evolves (m_generation m) (m_operation m) (m_pairs m !! i) a' }.

Lemma slot_evolves_same gen op a : a_used a = true -> slot_evolves gen op (Some a) a.
Proof. intros Hu. left. exists a. tauto. Qed.

#[export] Instance evolves_refl : Reflexive evolves.
Proof.
  intros m. split; try done. intros i a Ha Hu. rewrite Ha. by apply slot_evolves_same.
Qed.

#[export] Instance evolves_trans : Transitive evolves.
Proof.
  intros m1 m2 m3 [A1 A2 A3 A4 A5] [B1 B2 B3 B4 B5]. split; try congruence; try lia.
  intros i c Hc Hu. destruct (B5 i c Hc Hu) as [(b & Hb & Hub & Ht & Hp & Hr & Hd)|[Hg Hp]].
  - destruct (A5 i b Hb Hub) as [(a & Ha & Hua & Ht' & Hp' & Hr' & Hd')|[Hg' Hp']].
    + left. exists a. split_and!; try done; [congruence| |tauto..].
      destruct Hp as [Hp|[Hp|Hp]], Hp' as [Hp'|[Hp'|Hp']]; try lia; rewrite Hp; auto.
    + right. rewrite Ht. split; [done|].
      destruct Hp as [Hp|[Hp|Hp]], Hp' as [Hp'|Hp']; try lia; rewrite Hp; auto.
  - right. split; [lia|]. destruct Hp; [by left|right; lia].
Qed.

Lemma dead_revoke a : a_phase a = PH_DEAD -> a_phase (revoke a) = PH_DEAD.
Proof.
  intros E. destruct (revoke_cases a) as (ev & ph & -> & H). cbn.
  destruct H as [[-> _]|(-> & _ & [H|H])]; [done|congruence|by rewrite E in H].
Qed.

Lemma slot_evolves_revoke gen op a :
  a_used a = true -> slot_evolves gen op (Some a) (revoke a).
Proof.
  intros Hu. left. exists a. split_and!; try done.
  - by apply frame_token, frame_revoke.
  - left. apply pending_revoke.
  - intros _. apply revoking_revoke.
  - apply dead_revoke.
Qed.

Lemma evolves_tick env m now : evolves m (peer_associations_tick env m now).
Proof.
  split; try done. intros i a' Ha' Hu. cbn in Ha'.
  apply list_lookup_fmap_Some in Ha' as (a & -> & Ha). rewrite Ha.
  assert (H : tick_one env (now <? m_last_now m) now a = a \/
              tick_one env (now <? m_last_now m) now a = revoke a).
  { unfold tick_one. repeat case_match; auto. }
  destruct H as [H|H]; rewrite H in *; [by apply slot_evolves_same|].
  apply slot_evolves_revoke. by rewrite (frame_used _ _ (frame_revoke a)) in Hu.
Qed.

(** Steps that write one slot, whatever else of the record they change. *)
Lemma evolves_write m m' i a' :
  m_id m' = m_id m -> m_limits m' = m_limits m ->
  m_generation m <= m_generation m' -> m_operation m <= m_operation m' ->
  m_pairs m' = <[i := a']> (m_pairs m) ->
  (a_used a' = true -> slot_evolves (m_generation m) (m_operation m) (m_pairs m !! i) a') ->
  evolves m m'.
Proof.
  intros H1 H2 H3 H4 H5 H6. split; try done. intros j b Hb Hu. rewrite H5 in Hb.
  apply list_lookup_insert_Some in Hb as [(<- & <- & _)|[_ Hb]]; [by apply H6|].
  rewrite Hb. by apply slot_evolves_same.
Qed.

Lemma evolves_store m t a a' st rev :
  find m t = Some a -> slot_evolves (m_generation m) (m_operation m) (Some a) a' ->
  evolves m ((store m t a') <| m_stats := st |> <| m_grant_revision := rev |>).
Proof.
  intros (Ha & _)%find_Some He. apply evolves_write with (tk_slot t) a'; try done.
  by rewrite Ha.
Qed.

Lemma evolves_store_plain m t a a' :
  find m t = Some a -> slot_evolves (m_generation m) (m_operation m) (Some a) a' ->
  evolves m (store m t a').
Proof.
  intros (Ha & _)%find_Some He. apply evolves_write with (tk_slot t) a'; try done.
  by rewrite Ha.
Qed.

Lemma evolves_pairs m m' :
  m_id m' = m_id m -> m_limits m' = m_limits m -> m_generation m' = m_generation m ->
  m_operation m' = m_operation m -> m_pairs m' = m_pairs m -> evolves m m'.
Proof.
  intros H1 H2 H3 H4 H5. split; try done; try lia. intros i a Ha Hu.
  rewrite H5 in Ha. rewrite Ha. by apply slot_evolves_same.
Qed.

Section exec.
Context (sha256 : list byte -> option (list byte)) (env : nat -> peer_tls_conn).

Lemma evolves_admit m t now : evolves m (peer_association_admit env m t now).2.
Proof.
  unfold peer_association_admit.
  destruct (find _ t); apply evolves_tick.
Qed.

Lemma evolves_revoke_slot m t a : find m t = Some a -> evolves m (store m t (revoke a)).
Proof.
  intros Hf. eapply evolves_store_plain; [done|]. apply slot_evolves_revoke.
  by apply find_Some in Hf as (_ & ? & _).
Qed.

Lemma evolves_signal m t type epoch d now :
  evolves m (peer_association_signal env m t type epoch d now).2.
Proof.
  unfold peer_association_signal. etrans; [apply (evolves_tick env m now)|].
  destruct (find _ t) as [a|] eqn:Hf; [|done]. destruct (_ || _); [done|]. destruct (_ || _); [done|].
  destruct (signalled a type) as [a'|] eqn:Hs; [|done]. cbn [snd].
  eapply evolves_store_plain; [done|]. apply find_Some in Hf as (_ & Hu & _).
  unfold signalled in Hs. repeat case_match; simplify_eq;
    try (by apply slot_evolves_revoke); left; exists a; cbn; tauto.
Qed.

Lemma evolves_grant m t worker now : evolves m (peer_association_grant env m t worker now).2.
Proof.
  unfold peer_association_grant. pose proof (evolves_admit m t now) as H.
  destruct (peer_association_admit env m t now) as [[] m']; [|done]. cbn [snd] in H.
  etrans; [exact H|]. destruct (find m' t) as [a|] eqn:Hf; [|done].
  destruct (List.find _ _); [|done].
  destruct (_ =? _); [by apply evolves_revoke_slot|].
  destruct (_ || _); [by apply evolves_revoke_slot|]. by apply evolves_pairs.
Qed.

Lemma evolves_event_sent m e : evolves m (peer_association_event_sent m e).2.
Proof.
  unfold peer_association_event_sent. destruct (find m (ev_token e)) as [a|] eqn:Hf; [|done].
  destruct (_ || _); [done|]. eapply evolves_store_plain; [done|].
  apply find_Some in Hf as (_ & Hu & _). left. exists a. cbn. tauto.
Qed.

Lemma evolves_renew m t source generation deadline now :
  evolves m (peer_association_renew env m t source generation deadline now).2.
Proof.
  unfold peer_association_renew. destruct (2 <? source)%nat; [done|].
  etrans; [apply (evolves_tick env m now)|]. destruct (find _ t) as [a|] eqn:Hf; [|done].
  destruct (_ || _); [done|]. eapply evolves_store_plain; [done|].
  apply find_Some in Hf as (_ & Hu & _). left. exists a. cbn. tauto.
Qed.

Lemma evolves_release m t : evolves m (peer_association_release m t).2.
Proof.
  unfold peer_association_release. destruct (find m t) as [a|] eqn:Hf; [|done].
  destruct (_ || _); [done|]. by apply evolves_write with (tk_slot t) zero_association.
Qed.

Lemma evolves_open m tls b local lanes deadlines now :
  evolves m (peer_association_open env sha256 m tls b local lanes deadlines now).2.
Proof.
  unfold peer_association_open. destruct (_ || _); [done|].
  destruct (peer_sec_derive _ _ _ _); [|done]. destruct (_ || _); [done|].
  destruct (first_free 0 (m_pairs m)) as [i|]; [|done].
  destruct (digest sha256 _) as [a'|] eqn:Hd; cbn [snd].
  - apply digest_Some in Hd as [d ->].
    eapply evolves_write with i _; [done|done|cbn; lia|done|reflexivity|].
    intros _. right. cbn. split; [lia|auto].
  - by eapply evolves_write with i zero_association; [..|cbn; lia| | |].
Qed.

Lemma evolves_rekey m t spi now : evolves m (peer_association_rekey env sha256 m t spi now).2.
Proof.
  unfold peer_association_rekey. pose proof (evolves_admit m t now) as H.
  destruct (peer_association_admit env m t now) as [[] m'] eqn:Had; [|done]. cbn [snd] in H.
  etrans; [exact H|]. apply admit_true in Had as (_ & a & Hf & (Hl & Hph & _)%admits_spec).
  apply live_spec in Hl as (Hr & _). rewrite Hf. destruct (_ || _); [done|].
  apply find_Some in Hf as (Ha & Hu & _).
  assert (He : forall a', frame a' = frame a \/ a_token a' = a_token a -> a_pending a' = a_pending a ->
    slot_evolves (m_generation m') (m_operation m') (m_pairs m' !! tk_slot t) a').
  { intros a' Ht Hp. left. exists a. split_and!; try done; [|by left|congruence|congruence].
    destruct Ht as [Ht|Ht]; [by apply frame_token|done]. }
  destruct (digest sha256 _) as [a'|] eqn:Hd; cbn [snd].
  - apply digest_Some in Hd as [d ->].
    eapply evolves_write with (tk_slot t) _; [done..|reflexivity|]. intros _.
    apply He; [by right|done].
  - eapply evolves_write with (tk_slot t) _; [done..|reflexivity|]. intros _.
    apply He; [right; rewrite (frame_token _ _ (frame_revoke _)); done|by rewrite pending_revoke].
Qed.

Lemma evolves_complete m log r status now :
  Inv m log -> evolves m (peer_association_complete env m r status now).2.
Proof.
  intros HI. unfold peer_association_complete. destruct (_ || _); [done|].
  etrans; [apply (evolves_tick env m now)|]. apply (Inv_tick env _ _ now) in HI.
  set (mt := peer_associations_tick env m now) in *.
  destruct (find mt (rq_token r)) as [a|] eqn:Hf; [|done].
  destruct (completes a r) eqn:Hc; [|done]. cbn [negb].
  apply completes_spec in Hc as (Hp & _ & Hx & _).
  destruct (Inv_find _ _ _ _ HI Hf) as (Ha & Hu & _ & Hs).
  destruct (pending_phase _ _ _ _ _ _ _ Hs Hp Hx) as [Hph _].
  assert (Hd : a_phase a <> PH_DEAD) by (rewrite Hph; by destruct (rq_action r)).
  assert (He : forall a' m', a_token a' = a_token a -> a_pending a' = 0 ->
    (a_revoking a = true -> a_revoking a' = true) ->
    m_id m' = m_id mt -> m_limits m' = m_limits mt -> m_generation m' = m_generation mt ->
    m_operation m' = m_operation mt -> m_pairs m' = <[tk_slot (rq_token r) := a']> (m_pairs mt) ->
    evolves mt m').
  { intros a' m' E1 E2 E3 F1 F2 F3 F4 F5.
    eapply evolves_write with (tk_slot (rq_token r)) a'; try done; try lia.
    intros _. rewrite Ha. left. exists a. split_and!; try done. auto. }
  change (a_revoking (a <| a_pending := 0 |>)) with (a_revoking a).
  destruct (_ || _).
  { by apply (He (a <| a_pending := 0 |> <| a_phase := PH_QUARANTINED |> <| a_revoking := true |>
                    <| a_event ::= set ev_type (fun _ => 0) |>)). }
  assert (Hrev : a_token (revoke (a <| a_pending := 0 |>)) = a_token a)
    by (by rewrite (frame_token _ _ (frame_revoke _))).
  destruct (negb _);
    [apply (He (revoke (a <| a_pending := 0 |>))); [exact Hrev|apply pending_revoke|by rewrite revoking_revoke|reflexivity..]|].
  destruct (_ && _);
    [apply (He (revoke (a <| a_pending := 0 |>))); [exact Hrev|apply pending_revoke|by rewrite revoking_revoke|reflexivity..]|].
  destruct (completed mt _ (rq_action r) now) as [a' freed] eqn:Ec.
  eapply (He a'); try done; destruct (rq_action r); cbn in Ec; simplify_eq; done.
Qed.

Lemma evolves_turn m i now : evolves m (next_turn env m i now).2.
Proof.
  unfold next_turn. destruct (m_pairs m !! i) as [a|] eqn:Ha; [|done].
  destruct (_ || _) eqn:E; [done|].
  apply orb_false_iff in E as [[Hu%negb_false_iff Hp%negb_false_iff%Z.eqb_eq]%orb_false_iff _].
  destruct (next_action a now) as [[x|] a'] eqn:En; [|done].
  assert (Hn : a_token a' = a_token a /\ a_pending a' = 0 /\ a_revoking a' = a_revoking a /\
               a_phase a <> PH_DEAD).
  { unfold next_action in En. rewrite <-Hp. repeat case_match; simplify_eq; done. }
  destruct Hn as (N1 & N2 & N3 & N4).
  assert (He : forall b, a_token b = a_token a -> a_pending b = 0 \/ m_operation m < a_pending b ->
    (a_revoking a = true -> a_revoking b = true) ->
    slot_evolves (m_generation m) (m_operation m) (m_pairs m !! i) b).
  { intros b E1 E2 E3. rewrite Ha. left. exists a. split_and!; try done. auto. }
  destruct (m_operation m =? UINT64_MAX).
  { eapply evolves_write with i _; [done..|reflexivity|]. intros _. apply He; cbn; [done|by left|congruence]. }
  destruct (if installs x then _ else _); cbn [snd].
  - eapply evolves_write with i _; [done|done|done|cbn; lia|reflexivity|]. intros _.
    apply He; destruct (quiesces x); cbn; try done; try (right; lia); congruence.
  - eapply evolves_write with i _; [done..|reflexivity|]. intros _.
    apply He; [by rewrite (frame_token _ _ (frame_revoke _))|rewrite pending_revoke; by left|
      by rewrite revoking_revoke].
Qed.

Lemma evolves_next m now : evolves m (peer_associations_next env m now).2.
Proof.
  unfold peer_associations_next. etrans; [apply (evolves_tick env m now)|].
  generalize (peer_associations_tick env m now) as mt. intros mt.
  generalize (Z.to_nat (lim_pairs (m_limits mt))). intros n. revert mt.
  induction n as [|n IH]; intros mt; [done|]. cbn [next_loop].
  set (m1 := mt <| m_cursor ::= (fun c => u32 (c + 1)) |>).
  etrans; [by apply (evolves_pairs mt m1)|].
  pose proof (evolves_turn m1 (Z.to_nat (m_cursor mt mod lim_pairs (m_limits mt))) now) as H.
  destruct (next_turn env m1 _ now) as [[r|] m2]; [exact H|]. etrans; [exact H|apply IH].
Qed.

Lemma evolves_exec o m log : Inv m log -> evolves m (assoc_exec sha256 env o m).1.
Proof.
  intros HI. destruct o; cbn [assoc_exec fst].
  - apply evolves_open.
  - apply evolves_tick.
  - pose proof (evolves_next m now). by destruct (peer_associations_next env m now) as [[r|] m'].
  - pose proof (evolves_complete m log r status now HI).
    by destruct (peer_association_complete env m r status now).
  - unfold peer_associations_event.
    destruct (event_loop_core (Z.to_nat (lim_pairs (m_limits m))) m) as [c ->]. by apply evolves_pairs.
  - apply evolves_event_sent.
  - pose proof (evolves_signal m t type epoch d now).
    by destruct (peer_association_signal env m t type epoch d now).
  - apply evolves_admit.
  - apply evolves_grant.
  - apply evolves_rekey.
  - unfold peer_association_revoke. destruct (find m t) eqn:Hf; [|done]. by apply evolves_revoke_slot.
  - apply evolves_release.
  - apply evolves_renew.
Qed.
End exec.

Lemma evolves_run sha256 ops m log m' log' :
  Inv m log -> assoc_run sha256 ops m log = (m', log') -> evolves m m' /\ Inv m' log'.
Proof.
  revert m log. induction ops as [|[env o] ops IH]; intros m log HI; cbn [assoc_run].
  - by intros [= <- <-].
  - pose proof (Inv_exec sha256 env o m log HI) as H1. pose proof (evolves_exec sha256 env o m log HI) as H2.
    destruct (assoc_exec sha256 env o m) as [m1 es]. intros [H3 H4]%IH; [|done].
    split; [by etrans|done].
Qed.

(** ** Consequences *)

Lemma complete_accepted env m r status now m1 :
  peer_association_complete env m r status now = (0, m1) ->
  exists a a', find (peer_associations_tick env m now) (rq_token r) = Some a /\
    completes a r = true /\ a_pending a' = 0 /\ m_operation m1 = m_operation m /\
    m_pairs m1 = <[tk_slot (rq_token r) := a']> (m_pairs (peer_associations_tick env m now)).
Proof.
  unfold peer_association_complete. destruct (_ || _); [done|].
  set (mt := peer_associations_tick env m now).
  destruct (find mt (rq_token r)) as [a|] eqn:Hf; [|done].
  destruct (completes a r) eqn:Hc; [|done]. cbn [negb]. intros H. exists a.
  destruct (_ || _); [injection H as <-; eexists; split_and!; [done|done|..|reflexivity]; done|].
  destruct (negb _);
    [injection H as <-; eexists; split_and!; [done|done|..|reflexivity]; [apply pending_revoke|done]|].
  destruct (_ && _);
    [injection H as <-; eexists; split_and!; [done|done|..|reflexivity]; [apply pending_revoke|done]|].
  destruct (completed mt _ (rq_action r) now) as [a' freed] eqn:Ec. injection H as <-.
  exists a'. split_and!; try done. destruct (rq_action r); cbn in Ec; by simplify_eq.
Qed.

(** An operation number no slot is waiting for. *)
Definition retired (m : peer_associations) (k : Z) : Prop :=
  0 < k <= m_operation m /\
  forall i a, m_pairs m !! i = Some a -> a_used a = true -> a_pending a <> k.

Lemma accepted_retired env m log r status now m1 :
  Inv m log -> peer_association_complete env m r status now = (0, m1) ->
  retired m1 (rq_operation r).
Proof.
  intros HI (a & a' & Hf & Hc & Hp' & Hop & Hl)%complete_accepted.
  apply (Inv_tick env _ _ now) in HI. apply completes_spec in Hc as (Hp & Ho & _).
  destruct (Inv_find _ _ _ _ HI Hf) as (Ha & Hu & _ & Hs).
  pose proof (sl_pending _ _ _ _ _ _ Hs) as Hpi. unfold pending_inv in Hpi.
  destruct (Z.eqb_spec (a_pending a) 0) as [|_]; [done|]. destruct Hpi as [Hle _]. cbn in Hle.
  split; [lia|]. intros i b Hb Hub. rewrite Hl in Hb. rewrite Ho.
  apply list_lookup_insert_Some in Hb as [(_ & <- & _)|[Hne Hb]]; [lia|].
  intros E. eapply (iv_pending _ _ _ _ _ _ _ HI _ _ _ _ Ha Hb Hu Hub Hne Hp). by rewrite E.
Qed.

Lemma retired_evolves m m' k : evolves m m' -> retired m k -> retired m' k.
Proof.
  intros [E1 E2 E3 E4 E5] [Hk Hr]. split; [lia|]. intros i a' Ha' Hu.
  destruct (E5 i a' Ha' Hu) as [(a & Ha & Hua & _ & Hp & _)|[_ Hp]]; [|lia].
  specialize (Hr i a Ha Hua). lia.
Qed.

(** Where a token of the past leads after further steps. *)
Lemma find_evolves m m' t a' :
  evolves m m' -> tk_generation t <= m_generation m -> find m' t = Some a' ->
  exists a, find m t = Some a /\ (a_revoking a = true -> a_revoking a' = true) /\
            (a_phase a = PH_DEAD -> a_phase a' = PH_DEAD).
Proof.
  intros [E1 E2 E3 E4 E5] Hg Hf'. pose proof Hf' as (Ha' & Hu' & Hm & Hgen)%find_Some.
  destruct (E5 _ _ Ha' Hu') as [(a & Ha & Hu & Ht & _ & Hr & Hd)|[Hg' _]]; [|lia].
  exists a. split; [|done]. unfold find in *. rewrite E1, E2 in Hf'.
  destruct (_ || _); [done|]. rewrite Ha, Hu, <-Ht, Hgen, Z.eqb_refl. done.
Qed.

Lemma token_generation m log t a : Inv m log -> find m t = Some a -> tk_generation t <= m_generation m.
Proof.
  intros HI Hf. destruct (Inv_find _ _ _ _ HI Hf) as (_ & _ & <- & Hs).
  apply (sl_token _ _ _ _ _ _ Hs).
Qed.

Section claims.
Context (sha256 : list byte -> option (list byte)) (limits : peer_assoc_limits) (id : Z)
  (m0 : peer_associations) (ops ops' : list ((nat -> peer_tls_conn) * assoc_op))
  (m m1 m2 : peer_associations) (log es log2 : list entry) (env : nat -> peer_tls_conn).
Context (HW : limits_width limits) (HN : peer_associations_new limits id = Some m0)
  (HR : assoc_run sha256 ops m0 [] = (m, log)).

(** Exactly once: after a completion has been accepted, no later
    completion for the same operation number is ever accepted, whatever
    happens in between. *)
Lemma completion_once r status now env' r' status' now' :
  peer_association_complete env m r status now = (0, m1) ->
  assoc_exec sha256 env (OpComplete r status now) m = (m1, es) ->
  assoc_run sha256 ops' m1 (es ++ log) = (m2, log2) ->
  rq_operation r' = rq_operation r ->
  (peer_association_complete env' m2 r' status' now').1 <> 0.
Proof using HW HN HR.
  intros Hc Hx Hr Ho Hacc. pose proof (reached_inv _ _ _ _ _ _ _ HW HN HR) as HI.
  pose proof (Inv_exec sha256 env (OpComplete r status now) m log HI) as HI1. rewrite Hx in HI1.
  destruct (evolves_run _ _ _ _ _ _ HI1 Hr) as [He HI2].
  pose proof (retired_evolves _ _ _ He (accepted_retired _ _ _ _ _ _ _ HI Hc)) as Hret.
  destruct (peer_association_complete env' m2 r' status' now') as [code m3] eqn:E. cbn in Hacc. subst code.
  apply complete_accepted in E as (a & _ & Hf & (_ & Hp & _)%completes_spec & _).
  apply find_Some in Hf as (Ha & Hu & _).
  destruct (retired_evolves _ _ _ (evolves_tick env' m2 now') Hret) as [_ H].
  apply (H _ _ Ha Hu). congruence.
Qed.

(** A released token is never valid again: whatever operations follow, no
    later association is found under it. *)
Lemma released_token_dead t :
  (peer_association_release m t).1 = 0 ->
  assoc_run sha256 ops' (peer_association_release m t).2 log = (m2, log2) ->
  find m2 t = None.
Proof using HW HN HR.
  intros Hrel Hr. pose proof (reached_inv _ _ _ _ _ _ _ HW HN HR) as HI.
  pose proof (Inv_release m log t HI) as HI1.
  destruct (evolves_run _ _ _ _ _ _ HI1 Hr) as [He _].
  destruct (find m t) as [a|] eqn:Hf; [|by unfold peer_association_release in Hrel; rewrite Hf in Hrel].
  pose proof (token_generation _ _ _ _ HI Hf) as Hg.
  destruct (find m2 t) as [a2|] eqn:Hf2; [|done].
  unfold peer_association_release in *. rewrite Hf in *. destruct (_ || _); [done|].
  destruct (find_evolves _ _ _ _ He Hg Hf2) as (a1 & Hf1 & _).
  apply find_Some in Hf1 as (Ha1 & Hu1 & _). apply find_Some in Hf as (Ha & _).
  cbn in Ha1. rewrite list_lookup_insert_eq in Ha1 by (by apply lookup_lt_Some in Ha).
  by simplify_eq.
Qed.

(** Revocation is permanent: once an association is revoked, no later
    admission, grant, rekey, renewal or peer signal for its token succeeds. *)
Lemma revoked_forever t a env' now worker spi source generation deadline ty epoch d :
  find m t = Some a -> a_revoking a = true ->
  assoc_run sha256 ops' m log = (m2, log2) ->
  (peer_association_admit env' m2 t now).1 = false /\
  (peer_association_grant env' m2 t worker now).1 = (0, None) /\
  (peer_association_rekey env' sha256 m2 t spi now).1 = -1 /\
  (peer_association_renew env' m2 t source generation deadline now).1 = -1 /\
  (peer_association_signal env' m2 t ty epoch d now).1 = 1.
Proof using HW HN HR.
  intros Hf Hrev Hr. pose proof (reached_inv _ _ _ _ _ _ _ HW HN HR) as HI.
  pose proof (token_generation _ _ _ _ HI Hf) as Hg.
  destruct (evolves_run _ _ _ _ _ _ HI Hr) as [He _].
  assert (Hlive : forall b, find (peer_associations_tick env' m2 now) t = Some b ->
                  live env' b now = false).
  { intros b Hb. pose proof (transitivity He (evolves_tick env' m2 now)) as He'.
    destruct (find_evolves _ _ _ _ He' Hg Hb) as (a1 & Hf1 & Hr1 & _). rewrite Hf in Hf1.
    injection Hf1 as <-. unfold live. by rewrite Hr1. }
  assert (Had : peer_association_admit env' m2 t now = (false, peer_associations_tick env' m2 now)).
  { unfold peer_association_admit. destruct (find (peer_associations_tick env' m2 now) t) as [b|] eqn:Hb; [|done].
    unfold admits. by rewrite (Hlive b eq_refl). }
  unfold peer_association_grant, peer_association_rekey, peer_association_renew,
    peer_association_signal. rewrite Had. split_and!; try done.
  - destruct (2 <? source)%nat; [done|]. destruct (find (peer_associations_tick env' m2 now) t) as [b|] eqn:Hb; [|done].
    by rewrite (Hlive b eq_refl).
  - destruct (find (peer_associations_tick env' m2 now) t) as [b|] eqn:Hb; [|done]. by rewrite (Hlive b eq_refl).
Qed.

(** C35: What is over stays over.  After a completion has been accepted, no later
    completion for the same operation number is ever accepted, whatever happens in
    between.  Once an association is revoked, no later admission, grant, rekey,
    renewal or peer signal for its token succeeds; and once a token is released,
    no later association is found under it, whatever operations follow. *)
Theorem retired_forever t :
  (forall r status now env' r' status' now',
     peer_association_complete env m r status now = (0, m1) ->
     assoc_exec sha256 env (OpComplete r status now) m = (m1, es) ->
     assoc_run sha256 ops' m1 (es ++ log) = (m2, log2) ->
     rq_operation r' = rq_operation r ->
     (peer_association_complete env' m2 r' status' now').1 <> 0) /\
  (forall a env' now worker spi source generation deadline ty epoch d,
     find m t = Some a -> a_revoking a = true -> assoc_run sha256 ops' m log = (m2, log2) ->
     (peer_association_admit env' m2 t now).1 = false /\
     (peer_association_grant env' m2 t worker now).1 = (0, None) /\
     (peer_association_rekey env' sha256 m2 t spi now).1 = -1 /\
     (peer_association_renew env' m2 t source generation deadline now).1 = -1 /\
     (peer_association_signal env' m2 t ty epoch d now).1 = 1) /\
  ((peer_association_release m t).1 = 0 ->
   assoc_run sha256 ops' (peer_association_release m t).2 log = (m2, log2) -> find m2 t = None).
Proof using HW HN HR. split; [apply completion_once|]. split; [intros; by eapply revoked_forever|apply released_token_dead]. Qed.
End claims.

Lemma retired_forever_witness :
  (peer_association_complete demo_env (demo_run demo_setup).1 (demo_request 1 INSTALL_RX) 0 1).1 <> 0 /\
  (peer_association_admit demo_env (demo_run demo_teardown).1 demo_token 1).1 = false.
Proof.
  split.
  - set (m := (demo_run (take 2 demo_setup)).1). set (log := (demo_run (take 2 demo_setup)).2).
    set (r := demo_request 1 INSTALL_RX).
    set (m1 := (peer_association_complete demo_env m r 0 1).2).
    set (es := (assoc_exec demo_sha demo_env (OpComplete r 0 1) m).2).
    set (rest := (fun o => (demo_env, o)) <$> drop 3 demo_setup).
    assert (Hr : assoc_run demo_sha rest m1 (es ++ log) =
                 ((demo_run demo_setup).1, (demo_run demo_setup).2)) by (vm_compute; reflexivity).
    refine (proj1 (retired_forever demo_sha demo_limits 77 demo_start _ rest m m1 _ log es _ demo_env
      demo_limits_width demo_started (demo_run_eq (take 2 demo_setup)) demo_token) r 0 1 demo_env r 0 1 _ _ Hr _);
      vm_compute; reflexivity.
  - set (ops := demo_setup ++ [OpRevoke demo_token]).
    set (a := default zero_association (find (demo_run ops).1 demo_token)).
    set (rest := (fun o => (demo_env, o)) <$> drop 18 demo_teardown).
    assert (Hf : find (demo_run ops).1 demo_token = Some a) by (vm_compute; reflexivity).
    assert (Hrev : a_revoking a = true) by (vm_compute; reflexivity).
    assert (Hr : assoc_run demo_sha rest (demo_run ops).1 (demo_run ops).2 =
                 ((demo_run demo_teardown).1, (demo_run demo_teardown).2)) by (vm_compute; reflexivity).
    pose proof (proj1 (proj2 (retired_forever demo_sha demo_limits 77 demo_start _ rest _ (demo_run ops).1 _ _ [] _ demo_env
      demo_limits_width demo_started (demo_run_eq ops) demo_token)) a demo_env 1 0 (0, 0) 0%nat 0 0 0 0 [] Hf Hrev Hr) as [H _].
    exact H.
Defined.
