(* ===== verification/AssociationLive.v ===== *)
(** * Progress of the association manager

    A fenced teardown never gets stuck: the round-robin scan reaches every slot
    that has a command to issue, and a revoked association whose commands
    complete is dead after three of them. *)

From S2P Require Import Prelude Cursor PeerIdentity SecurityWire SecurityCodec Association AssociationInv AssociationSteps AssociationProofs AssociationHistory.

(** A revoked association in the teardown phase of command [x]. *)
Definition torn (x : peer_crypto_action) (a : association) : Prop :=
  before_block x = false /\ a_used a = true /\ a_revoking a = true /\ a_phase a = issue_phase x.

(** The part of an association that identifies its outstanding command. *)
Definition command (a : association) := (a_pending a, a_action a, a_token a, a_binding a).

Definition w_idle (a : association) : Z := if a_pending a =? 0 then 1 else 0.
Definition idle (m : peer_associations) : Z := gsum w_idle (m_pairs m).

Section progress.
Context (env : nat -> peer_tls_conn) (now : Z).

Lemma torn_revoke x a : torn x a -> torn x (revoke a) /\ command (revoke a) = command a.
Proof.
  intros (Hx & Hu & Hr & Hp). destruct (revoke_cases a) as (ev & ph & -> & H).
  split; [|done]. split_and!; try done. cbn.
  destruct H as [[-> _]|(-> & _ & [H|H])]; [done|congruence|].
  rewrite Hp in H. by destruct x.
Qed.

Lemma torn_tick x a backwards :
  torn x a -> torn x (tick_one env backwards now a) /\
              command (tick_one env backwards now a) = command a.
Proof. intros H. unfold tick_one. repeat case_match; auto using torn_revoke. Qed.

Lemma idle_tick m : idle (peer_associations_tick env m now) = idle m.
Proof.
  apply gsum_fmap. intros a. unfold w_idle, tick_one. repeat case_match; try done;
    rewrite pending_revoke in *; congruence.
Qed.

Lemma tick_lookup m i x a :
  m_pairs m !! i = Some a -> torn x a ->
  exists a', m_pairs (peer_associations_tick env m now) !! i = Some a' /\ torn x a' /\
             command a' = command a.
Proof.
  intros Ha Ht. eexists. cbn. rewrite list_lookup_fmap, Ha. split; [reflexivity|].
  by apply torn_tick.
Qed.

(** ** One turn *)

Lemma turn_other m j i : i <> j -> m_pairs (next_turn env m j now).2 !! i = m_pairs m !! i.
Proof.
  intros Hij. unfold next_turn. repeat case_match; try done; cbn;
    by rewrite list_lookup_insert_ne by done.
Qed.

Lemma turn_fields m j :
  let m' := (next_turn env m j now).2 in
  m_limits m' = m_limits m /\ m_cursor m' = m_cursor m /\
  length (m_pairs m') = length (m_pairs m).
Proof. unfold next_turn. repeat case_match; cbn; rewrite ?length_insert; done. Qed.

Lemma turn_self m i a x :
  m_pairs m !! i = Some a -> torn x a -> a_pending a = 0 -> m_operation m <> UINT64_MAX ->
  exists r a', (next_turn env m i now).1 = Some r /\
    m_pairs (next_turn env m i now).2 !! i = Some a' /\ torn x a' /\
    command a' = (m_operation m + 1, Some x, a_token a, a_binding a).
Proof.
  intros Ha (Hx & Hu & Hr & Hph) Hp Hop. unfold next_turn.
  rewrite Ha, Hu, Hr, Hp, andb_false_r. cbn [negb orb Z.eqb].
  assert (En : next_action a now = (Some x, a)) by (unfold next_action; rewrite Hph; by destruct x).
  rewrite En. apply Z.eqb_neq in Hop. rewrite Hop.
  assert (Hi : installs x = false) by (by destruct x).
  assert (Hq : quiesces x = false) by (by destruct x). rewrite Hi, Hq.
  eexists _, _. split; [reflexivity|]. cbn [snd].
  split; [cbn; by rewrite list_lookup_insert_eq by (by apply lookup_lt_Some in Ha)|].
  split; [|done]. by split_and!.
Qed.

Lemma turn_idle m j :
  0 <= m_operation m -> m_operation m <> UINT64_MAX ->
  match next_turn env m j now with
  | (Some _, m') => idle m' = idle m - 1 /\ m_operation m' = m_operation m + 1
  | (None, m') => idle m' = idle m /\ m_operation m' = m_operation m
  end.
Proof.
  intros Hop Hmax. unfold next_turn. destruct (m_pairs m !! j) as [a|] eqn:Ha; [|done].
  destruct (_ || _) eqn:E; [done|].
  apply orb_false_iff in E as [[_ Hp%negb_false_iff%Z.eqb_eq]%orb_false_iff _].
  destruct (next_action a now) as [[x|] a'] eqn:En; [|done].
  assert (Hp' : a_pending a' = 0) by (unfold next_action in En; repeat case_match; simplify_eq; done).
  apply Z.eqb_neq in Hmax. rewrite Hmax.
  destruct (if installs x then _ else _); (split; [|done]);
    (etrans; [exact (gsum_insert w_idle (m_pairs m) j a _ Ha)|]); fold (idle m); unfold w_idle.
  - cbn. rewrite Hp. destruct (Z.eqb_spec (m_operation m + 1) 0); cbn; lia.
  - rewrite pending_revoke, Hp, Hp'. cbn. lia.
Qed.

(** ** One call *)

(** The slots the scan visits in [n] turns. *)
Fixpoint visited (n : nat) (c pairs : Z) : list nat :=
  match n with
  | O => []
  | S n => Z.to_nat (c mod pairs) :: visited n (u32 (c + 1)) pairs
  end.

Lemma scan n m i a x :
  m_pairs m !! i = Some a -> torn x a -> a_pending a = 0 ->
  0 <= m_operation m -> m_operation m <> UINT64_MAX ->
  match next_loop env n m now with
  | (Some r, m') =>
      idle m' = idle m - 1 /\ m_operation m' = m_operation m + 1 /\
      exists a', m_pairs m' !! i = Some a' /\ torn x a' /\
        (command a' = command a \/
         command a' = (m_operation m + 1, Some x, a_token a, a_binding a))
  | (None, m') =>
      idle m' = idle m /\ m_operation m' = m_operation m /\
      m_pairs m' !! i = Some a /\ (i ∉ visited n (m_cursor m) (lim_pairs (m_limits m))) /\
      m_cursor m' = Nat.iter n (fun c => u32 (c + 1)) (m_cursor m) /\
      m_limits m' = m_limits m
  end.
Proof.
  intros Ha Ht Hp Hop Hmax. revert m Ha Hop Hmax. induction n as [|n IH]; intros m Ha Hop Hmax.
  { cbn. split_and!; try done. by apply not_elem_of_nil. }
  cbn [next_loop visited]. set (m1 := m <| m_cursor ::= (fun c => u32 (c + 1)) |>).
  set (j := Z.to_nat (m_cursor m mod lim_pairs (m_limits m))).
  pose proof (turn_idle m1 j Hop Hmax) as Hi.
  destruct (decide (i = j)) as [<-|Hij].
  - destruct (turn_self m1 i a x Ha Ht Hp Hmax) as (r & a' & Hr & Ha' & Ht' & Hc).
    destruct (next_turn env m1 i now) as [o m2]. cbn in Hr, Ha'. subst o.
    destruct Hi as [Hi1 Hi2]. split_and!; [done|done|]. exists a'. auto.
  - pose proof (turn_other m1 j i Hij) as Ho. pose proof (turn_fields m1 j) as (F1 & F2 & _).
    destruct (next_turn env m1 j now) as [[r|] m2]; cbn in Ho, F1, F2; destruct Hi as [Hi1 Hi2].
    + split_and!; [done|done|]. exists a. rewrite Ho. auto.
    + specialize (IH m2 ltac:(by rewrite Ho) ltac:(by rewrite Hi2) ltac:(by rewrite Hi2)).
      destruct (next_loop env n m2 now) as [[r|] m3].
      * rewrite Hi1, Hi2 in IH. exact IH.
      * destruct IH as (I1 & I2 & I3 & I4 & I5 & I6). rewrite F1, F2 in *.
        split_and!; [by rewrite I1, Hi1|by rewrite I2, Hi2|done| | |done].
        -- apply not_elem_of_cons. done.
        -- rewrite I5. clear. change (u32 (m_cursor m + 1)) with ((fun c => u32 (c + 1)) (m_cursor m)).
           by rewrite <-Nat.iter_succ_r.
Qed.

Lemma visited_elem n c pairs k :
  0 <= c -> c + Z.of_nat n <= 2 ^ 32 -> (k < n)%nat ->
  Z.to_nat ((c + Z.of_nat k) mod pairs) ∈ visited n c pairs.
Proof.
  revert c k. induction n as [|n IH]; intros c k Hc Hn Hk; [lia|]. cbn [visited].
  destruct k as [|k]; [rewrite Z.add_0_r; by left|]. right.
  rewrite wrap_small by (unfold in_width; lia).
  replace (c + Z.of_nat (S k)) with (c + 1 + Z.of_nat k) by lia. apply IH; lia.
Qed.

Lemma visited_all i c pairs :
  0 <= c -> c + pairs <= 2 ^ 32 -> Z.of_nat i < pairs -> i ∈ visited (Z.to_nat pairs) c pairs.
Proof.
  intros Hc Hw Hi. pose proof (Z.mod_pos_bound (Z.of_nat i - c) pairs ltac:(lia)) as Hb.
  pose proof (visited_elem (Z.to_nat pairs) c pairs (Z.to_nat ((Z.of_nat i - c) mod pairs)) Hc
    ltac:(lia) ltac:(lia)) as H.
  rewrite Z2Nat.id in H by lia. rewrite Zplus_mod_idemp_r, Zplus_minus, Z.mod_small in H by lia.
  by rewrite Nat2Z.id in H.
Qed.

Lemma cursor_iter n c : (0 < n)%nat -> Nat.iter n (fun c => u32 (c + 1)) c = u32 (c + Z.of_nat n).
Proof.
  intros Hn. destruct n as [|n]; [lia|]. clear Hn. induction n as [|n IH]; [done|].
  rewrite Nat.iter_succ, IH. unfold wrap. rewrite Zplus_mod_idemp_l. f_equal. lia.
Qed.

Lemma cursor_width n m :
  in_width 32 (m_cursor m) -> in_width 32 (m_cursor (next_loop env n m now).2) /\
  m_limits (next_loop env n m now).2 = m_limits m.
Proof.
  revert m. induction n as [|n IH]; intros m Hc; [done|]. cbn [next_loop].
  set (m1 := m <| m_cursor ::= (fun c => u32 (c + 1)) |>).
  assert (H1 : in_width 32 (m_cursor m1)) by (apply wrap_in_width; lia).
  pose proof (turn_fields m1 (Z.to_nat (m_cursor m mod lim_pairs (m_limits m)))) as (F1 & F2 & _).
  destruct (next_turn env m1 _ now) as [[r|] m2]; cbn [snd] in *.
  - by rewrite F1, F2.
  - destruct (IH m2) as [I1 I2]; [by rewrite F2|]. by rewrite I2, F1.
Qed.

(** A state in which slot [i] waits for command [x] of the teardown. *)
Record waiting (m : peer_associations) (i : nat) (x : peer_crypto_action)
    (t : peer_assoc_token) (b : peer_sec_binding) (budget : Z) : Prop := {
  wt_slot : exists a, m_pairs m !! i = Some a /\ torn x a /\ a_pending a = 0 /\
                      a_token a = t /\ a_binding a = b;
  wt_index : Z.of_nat i < lim_pairs (m_limits m) <= 4096;
  wt_cursor : in_width 32 (m_cursor m);
  wt_op : 0 <= m_operation m /\ m_operation m + budget <= UINT64_MAX }.

(** The command has been issued. *)
Definition underway (m : peer_associations) (i : nat) (x : peer_crypto_action)
    (t : peer_assoc_token) (b : peer_sec_binding) : Prop :=
  exists a, m_pairs m !! i = Some a /\ torn x a /\ a_pending a = m_operation m /\
    a_pending a <> 0 /\ a_action a = Some x /\ a_token a = t /\ a_binding a = b.

Lemma call_next m i x t b budget :
  waiting m i x t b budget -> 1 <= budget ->
  let m' := (peer_associations_next env m now).2 in
  m_limits m' = m_limits m /\ in_width 32 (m_cursor m') /\
  match (peer_associations_next env m now).1 with
  | Some _ =>
      idle m' = idle m - 1 /\ m_operation m' = m_operation m + 1 /\
      (underway m' i x t b \/ waiting m' i x t b (budget - 1))
  | None =>
      idle m' = idle m /\ waiting m' i x t b budget /\
      m_cursor m' + lim_pairs (m_limits m) <= 2 ^ 32 /\
      2 ^ 32 < m_cursor m + lim_pairs (m_limits m)
  end.
Proof.
  intros [(a & Ha & Ht & Hp & Htok & Hbind) Hi Hc Hop] Hb. cbv zeta.
  unfold peer_associations_next.
  destruct (tick_lookup m i x a Ha Ht) as (a1 & Ha1 & Ht1 & Hcmd). unfold command in Hcmd.
  injection Hcmd as C1 C2 C3 C4.
  set (m1 := peer_associations_tick env m now) in *.
  set (n := Z.to_nat (lim_pairs (m_limits m1))).
  destruct (cursor_width n m1 Hc) as [Hc' HL].
  pose proof (scan n m1 i a1 x Ha1 Ht1 ltac:(congruence) ltac:(apply Hop)
    ltac:(change (m_operation m1) with (m_operation m); lia)) as HS.
  pose proof (idle_tick m) as Hidle. fold m1 in Hidle.
  destruct (next_loop env n m1 now) as [[r|] m'] eqn:En; cbn [fst snd] in *;
    (split; [exact HL|split; [exact Hc'|]]).
  - destruct HS as (S1 & S2 & a2 & Ha2 & Ht2 & HC). change (m_operation m1) with (m_operation m) in *.
    split; [lia|]. split; [done|]. unfold command in HC.
    destruct HC as [HC|HC]; injection HC as D1 D2 D3 D4.
    + right. split; [exists a2; split_and!; try done; congruence|by rewrite HL|done|lia].
    + left. exists a2. split_and!; try done; congruence || lia.
  - destruct HS as (S1 & S2 & S3 & S4 & S5 & S6). change (m_operation m1) with (m_operation m) in *.
    assert (Hwrap : 2 ^ 32 < m_cursor m + lim_pairs (m_limits m)).
    { destruct (Z.lt_ge_cases (2 ^ 32) (m_cursor m + lim_pairs (m_limits m))); [done|].
      destruct S4. apply visited_all; [apply Hc|done|apply Hi]. }
    split; [lia|]. split_and!; [|  |done].
    + split; [exists a1; split_and!; try done; congruence|by rewrite HL|done|lia].
    + subst n. change (m_limits m1) with (m_limits m) in *. rewrite S5, cursor_iter by lia.
      change (m_cursor m1) with (m_cursor m). rewrite Z2Nat.id by lia.
      unfold in_width in Hc. unfold wrap.
      rewrite <-(Z.mod_unique_pos _ _ 1 (m_cursor m + lim_pairs (m_limits m) - 2 ^ 32)); lia.
Qed.

(** ** Stages of the teardown *)

Context (sha256 : list byte -> option (list byte)).

Lemma run_app ops1 ops2 m log :
  assoc_run sha256 (ops1 ++ ops2) m log =
  assoc_run sha256 ops2 (assoc_run sha256 ops1 m log).1 (assoc_run sha256 ops1 m log).2.
Proof.
  revert m log. induction ops1 as [|[e o] ops1 IH]; intros m log; [done|]. cbn [app assoc_run].
  destruct (assoc_exec sha256 e o m). apply IH.
Qed.

Definition next_ops (n : nat) : list ((nat -> peer_tls_conn) * assoc_op) :=
  repeat (env, OpNext now) n.

Lemma run_next m log : exists es,
  assoc_run sha256 (next_ops 1) m log = ((peer_associations_next env m now).2, es ++ log).
Proof.
  cbn. destruct (peer_associations_next env m now) as [[r|] m']; eexists; [|by instantiate (1 := [])].
  by instantiate (1 := [_]).
Qed.

(** At most two calls issue some command: the waiting one or another slot's. *)
Lemma two_calls m log i x t b budget :
  waiting m i x t b budget -> 1 <= budget ->
  exists n m' log', (n <= 2)%nat /\ assoc_run sha256 (next_ops n) m log = (m', log') /\
    m_limits m' = m_limits m /\ in_width 32 (m_cursor m') /\
    m_operation m' = m_operation m + 1 /\ idle m' = idle m - 1 /\
    (underway m' i x t b \/ waiting m' i x t b (budget - 1)).
Proof.
  intros Hw Hb. pose proof (call_next m i x t b budget Hw Hb) as (L1 & C1 & H1).
  destruct (run_next m log) as [es Hr].
  destruct (peer_associations_next env m now) as [[r|] m1] eqn:E1; cbn [fst snd] in *.
  { destruct H1 as (I1 & O1 & D1). exists 1%nat, m1, (es ++ log). split_and!; try done; lia. }
  destruct H1 as (I1 & W1 & Nw & _). pose proof (wt_op _ _ _ _ _ _ W1) as Hop1.
  pose proof (call_next m1 i x t b budget W1 Hb) as (L2 & C2 & H2).
  destruct (run_next m1 (es ++ log)) as [es2 Hr2].
  assert (Hsame : m_operation m1 = m_operation m).
  { unfold peer_associations_next in E1. clear -E1. revert E1.
    generalize (Z.to_nat (lim_pairs (m_limits (peer_associations_tick env m now)))) as n.
    change (m_operation m) with (m_operation (peer_associations_tick env m now)).
    generalize (peer_associations_tick env m now) as mt. intros mt n. revert mt.
    induction n as [|n IH]; intros mt; cbn [next_loop]; [by intros [= <-]|].
    destruct (next_turn env _ _ now) as [[r|] m2] eqn:Et; [done|].
    apply next_turn_idle in Et. intros H%IH. by rewrite H, Et. }
  destruct (peer_associations_next env m1 now) as [[r|] m2] eqn:E2; cbn [fst snd] in *; [|exfalso].
  - destruct H2 as (I2 & O2 & D2). exists 2%nat, m2, (es2 ++ es ++ log).
    split_and!; [done| |congruence|done|lia|lia|done].
    change (next_ops 2) with (next_ops 1 ++ next_ops 1). by rewrite run_app, Hr.
  - destruct H2 as (_ & _ & _ & Hbad). rewrite L1 in Hbad. lia.
Qed.

Lemma idle_waiting m i x t b budget : waiting m i x t b budget -> 1 <= idle m.
Proof.
  intros [(a & Ha & _ & Hp & _) _ _ _]. unfold idle.
  assert (w_idle a = 1) as <- by (unfold w_idle; by rewrite Hp).
  eapply gsum_lookup; [|done]. intros j c _. unfold w_idle. case_match; lia.
Qed.

(** The scan reaches the waiting slot within twice the number of idle slots. *)
Lemma issue_within k m log i x t b budget :
  waiting m i x t b budget -> idle m <= Z.of_nat k -> Z.of_nat k <= budget ->
  exists n m' log', (n <= 2 * k)%nat /\ assoc_run sha256 (next_ops n) m log = (m', log') /\
    underway m' i x t b /\ m_limits m' = m_limits m /\ in_width 32 (m_cursor m') /\
    0 <= m_operation m' <= m_operation m + Z.of_nat k.
Proof.
  revert m log budget. induction k as [|k IH]; intros m log budget Hw Hi Hk.
  { pose proof (idle_waiting _ _ _ _ _ _ Hw). lia. }
  pose proof (wt_op _ _ _ _ _ _ Hw) as Hop.
  destruct (two_calls m log i x t b budget Hw ltac:(lia))
    as (n & m1 & log1 & Hn & Hr & HL & HC & HO & HI & [D|D]).
  { exists n, m1, log1. split_and!; try done; lia. }
  destruct (IH m1 log1 (budget - 1) D ltac:(lia) ltac:(lia))
    as (n2 & m2 & log2 & Hn2 & Hr2 & Hu2 & HL2 & HC2 & HO2).
  exists (n + n2)%nat, m2, log2. split_and!; try done; [lia| |congruence|lia|lia].
  unfold next_ops. rewrite repeat_app, run_app. fold (next_ops n) (next_ops n2). by rewrite Hr.
Qed.

Definition stage_after (x : peer_crypto_action) : peer_assoc_phase :=
  match x with BLOCK => PH_DESTROY | DESTROY_QPS => PH_REMOVE | _ => PH_DEAD end.

Definition settle_request (t : peer_assoc_token) (op : Z) (x : peer_crypto_action)
    (b : peer_sec_binding) : peer_crypto_request := Request t op x b [] 0 0 [].

(** Completing the outstanding command advances the stage. *)
Lemma settle m log i x t b :
  Inv m log -> underway m i x t b ->
  let o := OpComplete (settle_request t (m_operation m) x b) 0 now in
  exists m' es a', assoc_exec sha256 env o m = (m', es) /\
    m_pairs m' !! i = Some a' /\ a_used a' = true /\ a_revoking a' = true /\ a_pending a' = 0 /\
    a_token a' = t /\ a_binding a' = b /\ a_phase a' = stage_after x /\
    m_limits m' = m_limits m /\ m_cursor m' = m_cursor m /\ m_operation m' = m_operation m.
Proof.
  intros HI (a & Ha & Ht & Hp & Hp0 & Hx & Htok & Hb). cbv zeta.
  destruct (tick_lookup m i x a Ha Ht) as (a1 & Ha1 & Ht1 & Hcmd). unfold command in Hcmd.
  injection Hcmd as C1 C2 C3 C4. pose proof (Inv_tick env _ _ now HI) as HI1.
  pose proof Ht1 as (Hbb & Hu1 & Hr1 & Hph1).
  pose proof (Inv_lookup_find _ _ _ _ HI1 Ha1 Hu1) as Hf. rewrite C3, Htok in Hf.
  pose proof (iv_slots _ _ _ _ _ _ _ HI1 _ _ Ha1 Hu1) as Hs1.
  destruct (sl_token _ _ _ _ _ _ Hs1) as (_ & Hslot & _). rewrite C3, Htok in Hslot.
  assert (Hlt : (i < length (m_pairs (peer_associations_tick env m now)))%nat)
    by (by apply lookup_lt_Some in Ha1).
  cbn [assoc_exec]. unfold peer_association_complete. cbn [Z.ltb orb rq_token settle_request].
  rewrite Hf.
  assert (Hc : completes a1 (settle_request t (m_operation m) x b) = true).
  { unfold completes, settle_request; cbn. rewrite C1, C2, C4, Hx, Hb, Hp.
    rewrite Hp in Hp0. apply Z.eqb_neq in Hp0.
    rewrite Hp0, !Z.eqb_refl, bool_decide_true by done. unfold bytes_eq. by rewrite !bool_decide_true. }
  rewrite Hc. cbn [negb Z.eqb orb andb rq_action settle_request].
  change (a_revoking (a1 <| a_pending := 0 |>)) with (a_revoking a1). rewrite Hbb, andb_false_r.
  destruct x; try discriminate Hbb; cbn [completed]; eexists _, _, _;
    (split; [reflexivity|]);
    (split; [cbn; rewrite Hslot, list_lookup_insert_eq by done; reflexivity|]); cbn.
  all: split_and!; first [reflexivity|done|congruence].
Qed.

(** What drives a teardown: asking for commands and confirming the pair's own. *)
Definition teardown_op (t : peer_assoc_token) (p : (nat -> peer_tls_conn) * assoc_op) : Prop :=
  p.1 = env /\
  match p.2 with
  | OpNext n => n = now
  | OpComplete r status n => rq_token r = t /\ status = 0 /\ n = now
  | _ => False
  end.

(** A slot of the table somewhere in the teardown, with [budget] operation
    numbers left. *)
Record at_stage (m : peer_associations) (i : nat) (p : peer_assoc_phase)
    (t : peer_assoc_token) (b : peer_sec_binding) (budget : Z) : Prop := {
  as_slot : exists a, m_pairs m !! i = Some a /\ a_used a = true /\ a_revoking a = true /\
                      a_phase a = p /\ a_pending a = 0 /\ a_token a = t /\ a_binding a = b;
  as_cursor : in_width 32 (m_cursor m);
  as_op : 0 <= m_operation m /\ m_operation m + budget <= UINT64_MAX }.

Lemma stage m log i x t b budget :
  Inv m log -> before_block x = false -> at_stage m i (issue_phase x) t b budget -> 4096 <= budget ->
  exists ops m' log', Forall (teardown_op t) ops /\ Z.of_nat (length ops) <= 8193 /\
    assoc_run sha256 ops m log = (m', log') /\ Inv m' log' /\
    at_stage m' i (stage_after x) t b (budget - 4096).
Proof.
  intros HI Hx [(a & Ha & Hu & Hr & Hph & Hp & Ht & Hb) Hc Hop] Hbud.
  pose proof (iv_limits _ _ _ _ _ _ _ HI) as (HL & _). pose proof (iv_length _ _ _ _ _ _ _ HI) as Hlen.
  pose proof (lookup_lt_Some _ _ _ Ha) as Hlt.
  assert (Hw : waiting m i x t b 4096).
  { split; [exists a; by split_and!|lia|done|lia]. }
  assert (Hidle : idle m <= Z.of_nat (Z.to_nat 4096)).
  { pose proof (gsum_bounds w_idle (m_pairs m) 1) as G. unfold idle.
    destruct G; [intros c; unfold w_idle; case_match; lia|lia]. }
  destruct (issue_within (Z.to_nat 4096) m log i x t b 4096 Hw Hidle ltac:(lia))
    as (n & m1 & log1 & Hn & Hrun & Hund & HL1 & HC1 & HO1).
  pose proof (Inv_run sha256 _ _ _ _ _ HI Hrun) as HI1.
  destruct (settle m1 log1 i x t b HI1 Hund)
    as (m2 & es & a2 & Hex & S1 & S2 & S3 & S4 & S5 & S6 & S7 & S8 & S9 & S10).
  pose proof (Inv_exec sha256 env (OpComplete (settle_request t (m_operation m1) x b) 0 now) _ _ HI1) as HI2. rewrite Hex in HI2.
  exists (next_ops n ++ [(env, OpComplete (settle_request t (m_operation m1) x b) 0 now)]), m2, (es ++ log1).
  split_and!; [| | |done|].
  - apply Forall_app. split; [|by repeat constructor]. clear. induction n; by repeat constructor.
  - unfold next_ops. rewrite length_app, repeat_length. cbn [length]. lia.
  - rewrite run_app, Hrun. cbn [assoc_run fst snd]. by rewrite Hex.
  - split; [exists a2; by split_and!|by rewrite S9|rewrite S10; lia].
Qed.

Lemma stage_trans m log i p q t b budget budget' :
  Inv m log ->
  (exists ops m' log', Forall (teardown_op t) ops /\ Z.of_nat (length ops) <= 8193 /\
     assoc_run sha256 ops m log = (m', log') /\ Inv m' log' /\ at_stage m' i p t b budget) ->
  forall k,
  (forall m' log', Inv m' log' -> at_stage m' i p t b budget ->
     exists ops m'' log'', Forall (teardown_op t) ops /\ Z.of_nat (length ops) <= k /\
       assoc_run sha256 ops m' log' = (m'', log'') /\ Inv m'' log'' /\ at_stage m'' i q t b budget') ->
  exists ops m' log', Forall (teardown_op t) ops /\ Z.of_nat (length ops) <= 8193 + k /\
    assoc_run sha256 ops m log = (m', log') /\ Inv m' log' /\ at_stage m' i q t b budget'.
Proof.
  intros HI (ops1 & m1 & log1 & F1 & L1 & R1 & I1 & A1) k H.
  destruct (H m1 log1 I1 A1) as (ops2 & m2 & log2 & F2 & L2 & R2 & I2 & A2).
  exists (ops1 ++ ops2), m2, log2. split_and!; try done.
  - by apply Forall_app.
  - rewrite length_app. lia.
  - by rewrite run_app, R1.
Qed.

Lemma teardown_from m log i p t b :
  Inv m log -> tearing p = true -> p <> PH_QUARANTINED -> at_stage m i p t b 12288 ->
  exists ops m' log', Forall (teardown_op t) ops /\ Z.of_nat (length ops) <= 24579 /\
    assoc_run sha256 ops m log = (m', log') /\ Inv m' log' /\ at_stage m' i PH_DEAD t b 0.
Proof.
  intros HI Hp Hq HA.
  assert (Hweak : forall m p n n', n' <= n -> at_stage m i p t b n -> at_stage m i p t b n').
  { intros ? ? ? ? ? []. split; try done. lia. }
  assert (H3 : forall m log, Inv m log -> at_stage m i PH_REMOVE t b 4096 -> _)
    by exact (fun m log HI HA => stage m log i REMOVE_ALL t b 4096 HI eq_refl HA ltac:(lia)).
  assert (H2 : forall m log, Inv m log -> at_stage m i PH_DESTROY t b 8192 -> _)
    by exact (fun m log HI HA => stage_trans m log i PH_REMOVE PH_DEAD t b 4096 0 HI
      (stage m log i DESTROY_QPS t b 8192 HI eq_refl HA ltac:(lia)) _ H3).
  assert (H1 : forall m log, Inv m log -> at_stage m i PH_BLOCK t b 12288 -> _)
    by exact (fun m log HI HA => stage_trans m log i PH_DESTROY PH_DEAD t b 8192 0 HI
      (stage m log i BLOCK t b 12288 HI eq_refl HA ltac:(lia)) _ H2).
  destruct p; try done.
  - destruct (H1 m log HI HA) as (o & m' & l' & ? & ? & ? & ? & ?). eexists o, m', l'. by split_and!.
  - destruct (H2 m log HI (Hweak _ _ 12288 8192 ltac:(lia) HA)) as (o & m' & l' & ? & ? & ? & ? & ?).
    exists o, m', l'. split_and!; try done. lia.
  - destruct (H3 m log HI (Hweak _ _ 12288 4096 ltac:(lia) HA)) as (o & m' & l' & ? & ? & ? & ? & ?).
    exists o, m', l'. split_and!; try done. lia.
  - exists [], m, log. split_and!; try done. exact (Hweak _ _ 12288 0 ltac:(lia) HA).
Qed.
End progress.

(** Teardown never gets stuck.  From every reachable state, a revoked
    association that is not quarantined and has no command outstanding is
    driven to DEAD, and then released, by a bounded number of calls that only
    ask for commands and confirm the association's own: the round-robin scan
    reaches its slot whatever the other slots do, including across a wrap of
    the cursor. *)
Lemma revoked_reaches_dead sha256 limits id m0 ops m log env now t a :
  limits_width limits -> peer_associations_new limits id = Some m0 ->
  assoc_run sha256 ops m0 [] = (m, log) ->
  find m t = Some a -> a_revoking a = true -> a_pending a = 0 -> a_phase a <> PH_QUARANTINED ->
  in_width 32 (m_cursor m) -> m_operation m + 12288 <= UINT64_MAX ->
  exists ops' m' log', Forall (teardown_op env now t) ops' /\ Z.of_nat (length ops') <= 24579 /\
    assoc_run sha256 ops' m log = (m', log') /\
    peer_association_phase m' t = PH_DEAD /\ (peer_association_release m' t).1 = 0.
Proof.
  intros HW HN HR Hf Hr Hp Hq Hc Hop. pose proof (reached_inv _ _ _ _ _ _ _ HW HN HR) as HI.
  destruct (Inv_find _ _ _ _ HI Hf) as (Ha & Hu & Ht & Hs).
  pose proof (sl_pending _ _ _ _ _ _ Hs) as HP. unfold pending_inv in HP. rewrite Hp in HP.
  destruct HP as [_ HP]. specialize (HP Hr). pose proof (iv_op _ _ _ _ _ _ _ HI).
  destruct (teardown_from env now sha256 m log (tk_slot t) (a_phase a) t (a_binding a) HI HP Hq)
    as (ops' & m' & log' & F & L & R & HI' & [(a' & A1 & A2 & A3 & A4 & A5 & A6 & A7) _ _]).
  { split; [exists a; by split_and!|done|lia]. }
  exists ops', m', log'. split_and!; try done.
  - unfold peer_association_phase. rewrite <-A6 at 1. by rewrite (Inv_lookup_find _ _ _ _ HI' A1 A2).
  - unfold peer_association_release. rewrite <-A6 at 1. rewrite (Inv_lookup_find _ _ _ _ HI' A1 A2).
    by rewrite A4, A5.
Qed.


