(* ===== verification/CryptoIpc.v ===== *)
(** * The wire to the crypto owner ([doca/peer_crypto_ipc.{h,c}], [doca/peer_crypto.h])

    The process that holds the NIC is reached over a UNIX stream socket that
    carries framed requests one way and completions the other.  The first half
    models the frame codec, the second the runtime-side adapter: its buffers,
    the table of requests in flight, the queue of completions and the pump that
    connects, flushes and receives.

    The operating system is the caller's: a call receives the results of the
    system calls it makes ([syscalls]).  A list of results ends where the call
    would block. *)

From S2P Require Import Prelude Cursor PeerIdentity SecurityWire Association.

(** ** Codec *)

Definition PEER_CRYPTO_IPC_VERSION : Z := 1.
Definition PEER_CRYPTO_IPC_HEADER_LEN : nat := 16.
Definition PEER_CRYPTO_IPC_BODY_MAX : Z := 2048.
Definition PEER_CRYPTO_IPC_FRAME_MAX : nat := PEER_CRYPTO_IPC_HEADER_LEN + Z.to_nat PEER_CRYPTO_IPC_BODY_MAX.
Definition PEER_CRYPTO_IPC_HELLO : Z := 1.
Definition PEER_CRYPTO_IPC_REQUEST : Z := 2.
Definition PEER_CRYPTO_IPC_COMPLETION : Z := 3.

Record peer_crypto_completion := Completion {
  cp_token : peer_assoc_token; cp_operation : Z; cp_action : peer_crypto_action;
  cp_session : list byte; cp_association : list byte; cp_epoch : Z; cp_status : Z }.
#[export] Instance eta_completion : Eta peer_crypto_completion := fun d =>
  Completion (cp_token d) (cp_operation d) (cp_action d) (cp_session d) (cp_association d)
    (cp_epoch d) (cp_status d).

Definition action_code (a : peer_crypto_action) : Z :=
  match a with
  | INSTALL_RX => 1 | INSTALL_TX => 2 | ENABLE_QPS => 3 | QUIESCE => 4 | RESUME => 5
  | REMOVE_OLD => 6 | BLOCK => 7 | DESTROY_QPS => 8 | REMOVE_ALL => 9
  end.
(** [None]: outside [PEER_CRYPTO_INSTALL_RX .. PEER_CRYPTO_REMOVE_ALL]. *)
Definition action_of (n : Z) : option peer_crypto_action :=
  match n with
  | 1 => Some INSTALL_RX | 2 => Some INSTALL_TX | 3 => Some ENABLE_QPS | 4 => Some QUIESCE
  | 5 => Some RESUME | 6 => Some REMOVE_OLD | 7 => Some BLOCK | 8 => Some DESTROY_QPS
  | 9 => Some REMOVE_ALL | _ => None
  end.

(** "DMCR" *)
Definition ipc_magic : list byte := [x44; x4d; x43; x52].

Definition ipc_header (type body_len : Z) : writer :=
  put ipc_magic &> number PEER_CRYPTO_IPC_VERSION 2 &> number type 2 &> number body_len 4 &> number 0 4.
Definition ipc_header_get : rd (list byte * Z * Z * Z * Z) :=
  magic ← get 4; version ← take_number 2; type ← take_number 2; body_len ← take_number 4;
  reserved ← take_number 4; mret (magic, version, type, body_len, reserved).

(** Status, type and body length. *)
Definition peer_crypto_ipc_header_decode (buf : list byte) : Z * (Z * Z) :=
  if (length buf <? PEER_CRYPTO_IPC_HEADER_LEN)%nat then (1, (0, 0))
  else
    let '(magic, version, type, body_len, reserved, c) :=
      ipc_header_get (RCursor buf PEER_CRYPTO_IPC_HEADER_LEN false) in
    if r_bad c || negb (bytes_eq magic ipc_magic) || negb (version =? PEER_CRYPTO_IPC_VERSION) ||
       negb (reserved =? 0) || (type <? PEER_CRYPTO_IPC_HELLO) || (PEER_CRYPTO_IPC_COMPLETION <? type) ||
       (PEER_CRYPTO_IPC_BODY_MAX <? body_len)
    then (-1, (0, 0)) else (0, (type, body_len)).

Definition hello_body (major minor : Z) : writer := number major 2 &> number minor 2.
Definition peer_crypto_ipc_hello_encode (major minor : Z) (cap : nat) : option (list byte) :=
  if (0xffff <? major) || (0xffff <? minor) then None
  else run_writer (ipc_header PEER_CRYPTO_IPC_HELLO 4 &> hello_body major minor) cap.
Definition hello_numbers_get : rd (Z * Z) := major ← take_number 2; minor ← take_number 2; mret (major, minor).
Definition peer_crypto_ipc_hello_decode (body : list byte) : option (Z * Z) :=
  if negb (length body =? 4)%nat then None
  else let '(v, c) := hello_numbers_get (RCursor body (length body) false) in
       if r_bad c then None else Some v.

Definition request_valid (r : peer_crypto_request) : bool :=
  negb (tk_manager (rq_token r) =? 0) && negb (tk_generation (rq_token r) =? 0) &&
  negb (rq_operation r =? 0) && (rq_local r <=? 1)%nat && negb (length (rq_lanes r) =? 0)%nat &&
  (length (rq_lanes r) <=? PEER_ASSOC_LANES_MAX)%nat && negb (bd_epoch (rq_binding r) =? 0).

Definition request_body_len (lanes : nat) : Z :=
  8 + 8 + 4 + 8 + 2 + 2 + 8 + 8 + 16 + 16 + 4 + 4 + 20 + 2 + Z.of_nat lanes * (8 + 3 + 3 + 16 + 16).
Definition token_put (t : peer_assoc_token) : writer :=
  number (tk_manager t) 8 &> number (tk_generation t) 8 &> number (Z.of_nat (tk_slot t)) 4.
Definition token_get : rd peer_assoc_token :=
  manager ← take_number 8; generation ← take_number 8; slot ← take_number 4;
  mret (Token manager generation (Z.to_nat slot)).
Definition ipc_lane_put (l : peer_sec_lane) : writer :=
  number (ln_id l) 8 &> number (ln_qpn l).1 3 &> number (ln_qpn l).2 3 &> put (ln_gid l).1 &> put (ln_gid l).2.
(** The other lane fields stay zero. *)
Definition ipc_lane_get : rd peer_sec_lane :=
  id ← take_number 8; q0 ← take_number 3; q1 ← take_number 3; g0 ← get 16; g1 ← get 16;
  mret (SecLane id 0 (0, 0) (q0, q1) (0, 0) (g0, g1) 0).
Definition request_head_put (r : peer_crypto_request) : writer :=
  token_put (rq_token r) &> number (rq_operation r) 8 &> number (action_code (rq_action r)) 2 &>
  number (Z.of_nat (rq_local r)) 2 &> number (bd_epoch (rq_binding r)) 8 &> number (rq_old_epoch r) 8 &>
  put (bd_session (rq_binding r)) &> put (bd_association (rq_binding r)) &>
  number (bd_spi (rq_binding r)).1 4 &> number (bd_spi (rq_binding r)).2 4 &>
  put (rq_material r) &> number (Z.of_nat (length (rq_lanes r))) 2.
Definition request_body (r : peer_crypto_request) : writer :=
  request_head_put r &> w_each ipc_lane_put (rq_lanes r).

Definition peer_crypto_ipc_request_encode (r : peer_crypto_request) (cap : nat) : option (list byte) :=
  if negb (request_valid r) then None
  else run_writer (ipc_header PEER_CRYPTO_IPC_REQUEST (request_body_len (length (rq_lanes r))) &>
                   request_body r) cap.

(** The fields before the lanes; the action is still its wire number. *)
Record request_head := RequestHead {
  qh_token : peer_assoc_token; qh_operation : Z; qh_action : Z; qh_local : Z; qh_epoch : Z;
  qh_old_epoch : Z; qh_session : list byte; qh_association : list byte; qh_spi : Z * Z;
  qh_material : list byte; qh_lane_count : Z }.
Definition request_head_get : rd request_head :=
  token ← token_get; operation ← take_number 8; action ← take_number 2; local ← take_number 2;
  epoch ← take_number 8; old_epoch ← take_number 8; session ← get 16; association ← get 16;
  spi0 ← take_number 4; spi1 ← take_number 4; material ← get 20; lanes ← take_number 2;
  mret (RequestHead token operation action local epoch old_epoch session association (spi0, spi1) material lanes).
(** A zeroed binding with the fields the wire carries. *)
Definition wire_binding (epoch : Z) (session association : list byte) (spi : Z * Z) : peer_sec_binding :=
  SecBinding (bd_cluster zero_binding) (bd_endpoint zero_binding) session association epoch spi.
Definition request_of (h : request_head) (action : peer_crypto_action) (lanes : list peer_sec_lane)
    : peer_crypto_request :=
  Request (qh_token h) (qh_operation h) action
    (wire_binding (qh_epoch h) (qh_session h) (qh_association h) (qh_spi h)) lanes
    (Z.to_nat (qh_local h)) (qh_old_epoch h) (qh_material h).

Definition peer_crypto_ipc_request_decode (body : list byte) : option peer_crypto_request :=
  let '(h, c) := request_head_get (RCursor body (length body) false) in
  if r_bad c || (Z.of_nat PEER_ASSOC_LANES_MAX <? qh_lane_count h) then None
  else
    let '(lanes, c') := r_times (Z.to_nat (qh_lane_count h)) ipc_lane_get c in
    if unfinished c' then None
    else match action_of (qh_action h) with
      | None => None
      | Some action => let r := request_of h action lanes in if request_valid r then Some r else None
      end.

(** [(uint16_t)(int16_t)status] and back. *)
Definition status_code (s : Z) : Z := u16 s.
Definition status_of (n : Z) : Z := if n <? 2 ^ 15 then n else n - 2 ^ 16.

Definition completion_body (d : peer_crypto_completion) : writer :=
  token_put (cp_token d) &> number (cp_operation d) 8 &> number (action_code (cp_action d)) 2 &>
  number (status_code (cp_status d)) 2 &> put (cp_session d) &> put (cp_association d) &>
  number (cp_epoch d) 8.
Definition completion_body_len : Z := 8 + 8 + 4 + 8 + 2 + 2 + 16 + 16 + 8.
Definition status_final (s : Z) : bool := (s <=? 0) && (-2 <=? s).
Definition peer_crypto_ipc_completion_encode (d : peer_crypto_completion) (cap : nat) : option (list byte) :=
  if negb (status_final (cp_status d)) then None
  else run_writer (ipc_header PEER_CRYPTO_IPC_COMPLETION completion_body_len &> completion_body d) cap.

Definition completion_get : rd (peer_assoc_token * Z * Z * Z * list byte * list byte * Z) :=
  token ← token_get; operation ← take_number 8; action ← take_number 2; status ← take_number 2;
  session ← get 16; association ← get 16; epoch ← take_number 8;
  mret (token, operation, action, status, session, association, epoch).
Definition peer_crypto_ipc_completion_decode (body : list byte) : option peer_crypto_completion :=
  let '(token, operation, action, status, session, association, epoch, c) :=
    completion_get (RCursor body (length body) false) in
  if unfinished c || negb (status_final (status_of status)) then None
  else match action_of action with
    | None => None
    | Some action => Some (Completion token operation action session association epoch (status_of status))
    end.

(** ** The adapter *)

Definition INFLIGHT_MAX : nat := 256.
Definition TX_MAX : nat := 8 * PEER_CRYPTO_IPC_FRAME_MAX.
Definition RECONNECT_NS : Z := 1000000000.

(** A used entry of [inflight] holds the key of its request; [tx] and [rx] are
    the meaningful bytes of their arrays. *)
Record peer_crypto_ipc := Ipc {
  ip_fd : option nat; ip_ready : bool; ip_next_connect_ns : Z;
  ip_tx : list byte; ip_rx : list byte;
  ip_inflight : list (option peer_crypto_completion); ip_pending : fifo peer_crypto_completion }.
#[export] Instance eta_ipc : Eta peer_crypto_ipc := fun c =>
  Ipc (ip_fd c) (ip_ready c) (ip_next_connect_ns c) (ip_tx c) (ip_rx c) (ip_inflight c) (ip_pending c).

Inductive send_result := Sent (n : nat) | SendInterrupted | SendFailed.
Inductive recv_result := Received (bytes : list byte) | RecvInterrupted | RecvFailed.

(** What the system answers one call: the clock when a connection attempt is
    considered, when it is made and when a connection is dropped; the connected
    descriptor; the results of [send] and [recv], would-block at their end. *)
Record syscalls := Syscalls {
  sc_now_check : Z; sc_now_attempt : Z; sc_now_drop : Z; sc_connect : option nat;
  sc_sends : list send_result; sc_recvs : list recv_result }.

Definition queue_completion (d : peer_crypto_completion) (p : fifo peer_crypto_completion)
    : fifo peer_crypto_completion :=
  if (ff_count p =? INFLIGHT_MAX)%nat then p else fifo_push INFLIGHT_MAX d p.

Definition lose (p : fifo peer_crypto_completion) (slot : option peer_crypto_completion)
    : fifo peer_crypto_completion :=
  match slot with Some key => queue_completion (key <| cp_status := -2 |>) p | None => p end.
Definition ipc_disconnect (now : Z) (c : peer_crypto_ipc) : peer_crypto_ipc :=
  Ipc None false (u64 (now + RECONNECT_NS)) [] [] (repeat None (length (ip_inflight c)))
    (fold_left lose (ip_inflight c) (ip_pending c)).

Definition try_connect (sc : syscalls) (c : peer_crypto_ipc) : peer_crypto_ipc :=
  match ip_fd c with
  | Some _ => c
  | None =>
    if sc_now_check sc <? ip_next_connect_ns c then c
    else (c <| ip_next_connect_ns := u64 (sc_now_attempt sc + RECONNECT_NS) |>) <| ip_fd := sc_connect sc |>
  end.

(** [false]: the connection failed. *)
Fixpoint flush_tx (sends : list send_result) (tx : list byte) : bool * list byte :=
  match tx, sends with
  | [], _ | _, [] => (true, tx)
  | _, SendInterrupted :: sends => flush_tx sends tx
  | _, SendFailed :: _ => (false, tx)
  | _, Sent n :: sends => flush_tx sends (drop n tx)
  end.

Definition answers (d key : peer_crypto_completion) : bool :=
  (cp_operation key =? cp_operation d) && (tk_manager (cp_token key) =? tk_manager (cp_token d)) &&
  (tk_generation (cp_token key) =? tk_generation (cp_token d)) &&
  (tk_slot (cp_token key) =? tk_slot (cp_token d))%nat &&
  bool_decide (cp_action key = cp_action d).
(** The first request in flight the completion answers is done; an unknown one
    is dropped. *)
Fixpoint settle_first (d : peer_crypto_completion) (l : list (option peer_crypto_completion))
    : option (list (option peer_crypto_completion)) :=
  match l with
  | [] => None
  | Some key :: l' =>
    if answers d key then Some (None :: l') else (fun l'' => Some key :: l'') <$> settle_first d l'
  | None :: l' => (fun l'' => None :: l'') <$> settle_first d l'
  end.
Definition ipc_completed (d : peer_crypto_completion) (c : peer_crypto_ipc) : peer_crypto_ipc :=
  match settle_first d (ip_inflight c) with
  | Some l => (c <| ip_inflight := l |>) <| ip_pending := queue_completion d (ip_pending c) |>
  | None => c
  end.

(** One frame of the owner; [None] is a protocol fault. *)
Definition ipc_frame (type : Z) (body : list byte) (c : peer_crypto_ipc) : option peer_crypto_ipc :=
  if type =? PEER_CRYPTO_IPC_HELLO then
    match peer_crypto_ipc_hello_decode body with
    | None => None
    | Some _ => Some (c <| ip_ready := true |>)
    end
  else if type =? PEER_CRYPTO_IPC_COMPLETION then
    match peer_crypto_ipc_completion_decode body with
    | None => None
    | Some d => Some (ipc_completed d c)
    end
  else None.

(** The loop over whole frames in [rx]; [false] is a fault.  Every iteration
    that continues takes at least a header out of the buffer. *)
Fixpoint ipc_consume_loop (fuel : nat) (c : peer_crypto_ipc) : bool * peer_crypto_ipc :=
  match fuel with
  | O => (true, c)
  | S fuel' =>
    let '(rc, (type, body_len)) := peer_crypto_ipc_header_decode (ip_rx c) in
    if rc <? 0 then (false, c)
    else if (0 <? rc) || (length (ip_rx c) <? PEER_CRYPTO_IPC_HEADER_LEN + Z.to_nat body_len)%nat
    then (true, c)
    else
      let body := take (Z.to_nat body_len) (drop PEER_CRYPTO_IPC_HEADER_LEN (ip_rx c)) in
      match ipc_frame type body c with
      | None => (false, c)
      | Some c' =>
        ipc_consume_loop fuel'
          (c' <| ip_rx := drop (PEER_CRYPTO_IPC_HEADER_LEN + Z.to_nat body_len) (ip_rx c) |>)
      end
  end.
Definition ipc_consume (c : peer_crypto_ipc) : bool * peer_crypto_ipc :=
  ipc_consume_loop (S (length (ip_rx c))) c.

(** [recv] stores at most the room left in [rx]; zero bytes is the end of the
    stream. *)
Fixpoint ipc_receive (recvs : list recv_result) (now : Z) (c : peer_crypto_ipc) : peer_crypto_ipc :=
  match recvs with
  | [] => c
  | RecvInterrupted :: recvs => ipc_receive recvs now c
  | RecvFailed :: _ => ipc_disconnect now c
  | Received bytes :: recvs =>
    match take (PEER_CRYPTO_IPC_FRAME_MAX - length (ip_rx c)) bytes with
    | [] => ipc_disconnect now c
    | got =>
      let '(fine, c) := ipc_consume (c <| ip_rx ::= fun old => old ++ got |>) in
      if negb fine then ipc_disconnect now c
      else if (length (ip_rx c) =? PEER_CRYPTO_IPC_FRAME_MAX)%nat then ipc_disconnect now c
      else ipc_receive recvs now c
    end
  end.

Definition pump (sc : syscalls) (c : peer_crypto_ipc) : peer_crypto_ipc :=
  let c := try_connect sc c in
  match ip_fd c with
  | None => c
  | Some _ =>
    let '(fine, tx) := flush_tx (sc_sends sc) (ip_tx c) in
    let c := c <| ip_tx := tx |> in
    if negb fine then ipc_disconnect (sc_now_drop sc) c
    else ipc_receive (sc_recvs sc) (sc_now_drop sc) c
  end.

Definition request_key (r : peer_crypto_request) : peer_crypto_completion :=
  Completion (rq_token r) (rq_operation r) (rq_action r) (bd_session (rq_binding r))
    (bd_association (rq_binding r)) (bd_epoch (rq_binding r)) 0.
Fixpoint unused_slot (i : nat) (l : list (option peer_crypto_completion)) : option nat :=
  match l with
  | [] => None
  | None :: _ => Some i
  | Some _ :: l' => unused_slot (S i) l'
  end.

(** [sc] serves the pump, [sc'] the flush after the request is queued. *)
Definition ipc_submit (sc sc' : syscalls) (r : peer_crypto_request) (c : peer_crypto_ipc) : Z * peer_crypto_ipc :=
  let c := pump sc c in
  match ip_fd c with
  | None => (-1, c)
  | Some _ =>
    if negb (ip_ready c) || negb (request_valid r) then (-1, c)
    else match unused_slot 0 (ip_inflight c) with
      | None => (0, c)
      | Some slot =>
        match peer_crypto_ipc_request_encode r PEER_CRYPTO_IPC_FRAME_MAX with
        | None => (-1, c)
        | Some frame =>
          if (TX_MAX - length (ip_tx c) <? length frame)%nat then (0, c)
          else
            let '(fine, tx) := flush_tx (sc_sends sc') (ip_tx c ++ frame) in
            let c := (c <| ip_tx := tx |>) <| ip_inflight ::= <[slot := Some (request_key r)]> |> in
            (1, if fine then c else ipc_disconnect (sc_now_drop sc') c)
        end
      end
  end.

Definition ipc_poll (sc : syscalls) (c : peer_crypto_ipc) : option peer_crypto_completion * peer_crypto_ipc :=
  let c := pump sc c in
  if (ff_count (ip_pending c) =? 0)%nat then (None, c)
  else (fifo_first (ip_pending c), c <| ip_pending ::= fifo_pop INFLIGHT_MAX |>).

Definition ipc_healthy (sc : syscalls) (c : peer_crypto_ipc) : bool * peer_crypto_ipc :=
  let c := pump sc c in
  (match ip_fd c with Some _ => ip_ready c | None => false end, c).

Definition zero_ipc : peer_crypto_ipc :=
  Ipc None false 0 [] [] (repeat None INFLIGHT_MAX) (fifo_new INFLIGHT_MAX).
(** [made]: the object and its epoll descriptor could be made. *)
Definition peer_crypto_ipc_new (path : list byte) (made : bool) (sc : syscalls) : option peer_crypto_ipc :=
  if (length (cstr path) =? 0)%nat || (108 <=? length (cstr path))%nat then None
  else if negb made then None
  else Some (try_connect sc zero_ipc).
