(* ===== verification/CryptoIpcCodec.v ===== *)
(** * Correctness of the crypto-owner frame codec

    Encoders emit the frame format, decoders accept exactly the bodies they
    emit, and what the owner decodes of a request is the part of it that the
    wire carries. *)

From S2P Require Import Prelude Cursor PeerIdentity SecurityWire SecurityCodec Association CryptoIpc.

(** ** Headers *)

Definition ipc_header_fmt (type body_len : Z) : list byte :=
  ipc_magic ++ be_bytes 2 PEER_CRYPTO_IPC_VERSION ++ be_bytes 2 type ++ be_bytes 4 body_len ++ be_bytes 4 0.
Definition ipc_header_ok (type body_len : Z) : Prop :=
  PEER_CRYPTO_IPC_HELLO <= type <= PEER_CRYPTO_IPC_COMPLETION /\ 0 <= body_len <= PEER_CRYPTO_IPC_BODY_MAX.

Lemma length_ipc_header_fmt type body_len : length (ipc_header_fmt type body_len) = 16%nat.
Proof. unfold ipc_header_fmt. by rewrite !length_app, !length_be_bytes. Qed.

Lemma writes_ipc_header type body_len : writes (ipc_header type body_len) (ipc_header_fmt type body_len).
Proof. unfold ipc_header. writes_tac. Qed.
#[export] Hint Resolve writes_ipc_header : wire.

Lemma reads_ipc_header type body_len :
  ipc_header_ok type body_len ->
  reads ipc_header_get (ipc_header_fmt type body_len) (ipc_magic, PEER_CRYPTO_IPC_VERSION, type, body_len, 0).
Proof.
  unfold ipc_header_ok, PEER_CRYPTO_IPC_HELLO, PEER_CRYPTO_IPC_COMPLETION, PEER_CRYPTO_IPC_BODY_MAX.
  intros [Ht Hb].
  assert (in_width (8 * Z.of_nat 2) type) by (unfold in_width; lia).
  assert (in_width (8 * Z.of_nat 4) body_len) by (unfold in_width; lia).
  unfold ipc_header_get, ipc_header_fmt. reads_tac.
Qed.

Lemma accepts_ipc_header :
  accepts ipc_header_get (fun r bs => let '(magic, version, type, body_len, reserved) := r in
    (0 <= type /\ 0 <= body_len) /\
    bs = magic ++ be_bytes 2 version ++ be_bytes 2 type ++ be_bytes 4 body_len ++ be_bytes 4 reserved).
Proof.
  unfold ipc_header_get. accepts_tac. unfold in_width in *. split; [lia|fmt_solve].
Qed.

Lemma sized_ipc_header : sized ipc_header_get 16.
Proof.
  change 16%nat with (4 + (2 + (2 + (4 + (4 + 0)))))%nat. unfold ipc_header_get.
  repeat (apply sized_bind; [eauto with wire|intros ?]). eauto with wire.
Qed.

Lemma ipc_header_decode_fmt type body_len rest :
  ipc_header_ok type body_len ->
  peer_crypto_ipc_header_decode (ipc_header_fmt type body_len ++ rest) = (0, (type, body_len)).
Proof.
  intros Hok. unfold peer_crypto_ipc_header_decode, PEER_CRYPTO_IPC_HEADER_LEN.
  pose proof (length_ipc_header_fmt type body_len) as Hl.
  rewrite length_app, (proj2 (Nat.ltb_ge _ _)) by lia.
  pose proof (reads_ipc_header type body_len Hok rest 0%nat) as R. rewrite Hl in R. cbn [Nat.add] in R.
  rewrite R. unfold bytes_eq. rewrite bool_decide_true by done.
  destruct Hok as [Ht Hb]. cbn [r_bad]. rewrite !Z.eqb_refl. cbn [negb orb].
  by rewrite !(proj2 (Z.ltb_ge _ _)) by lia.
Qed.

Lemma ipc_header_decode_inv buf type body_len :
  peer_crypto_ipc_header_decode buf = (0, (type, body_len)) ->
  ipc_header_ok type body_len /\ (16 <= length buf)%nat /\ take 16 buf = ipc_header_fmt type body_len.
Proof.
  unfold peer_crypto_ipc_header_decode, PEER_CRYPTO_IPC_HEADER_LEN.
  destruct (Nat.ltb_spec (length buf) 16) as [|Hl]; [done|].
  pose proof (accepts_ipc_header (RCursor buf 16 false)) as A.
  pose proof (sized_ipc_header (RCursor buf 16 false) eq_refl ltac:(cbn; lia)) as [Hb _].
  destruct (ipc_header_get (RCursor buf 16 false)) as [[[[[magic version] t] b] reserved] c'].
  destruct A as [_ A]. cbn [snd] in Hb.
  destruct (A Hl Hb) as (bs & [Hw ->] & Hm & _). cbn [r_mem] in Hm.
  unfold bytes_eq. rewrite Hb. cbn [orb].
  case_bool_decide as Hmag; [subst magic|done].
  destruct (Z.eqb_spec version PEER_CRYPTO_IPC_VERSION) as [->|]; [|done].
  destruct (Z.eqb_spec reserved 0) as [->|]; [|done]. cbn [negb orb].
  destruct (Z.ltb_spec t PEER_CRYPTO_IPC_HELLO); [done|].
  destruct (Z.ltb_spec PEER_CRYPTO_IPC_COMPLETION t); [done|].
  destruct (Z.ltb_spec PEER_CRYPTO_IPC_BODY_MAX b); [done|]. cbn [orb]. intros [= <- <-].
  split; [unfold ipc_header_ok; lia|]. split; [done|]. rewrite Hm. apply take_app_length'.
  by rewrite <-(length_ipc_header_fmt t b).
Qed.

(** Every status but success comes with zeroed outputs; a short read is the
    only request for more bytes. *)
Lemma ipc_header_decode_status buf :
  let '(rc, out) := peer_crypto_ipc_header_decode buf in
  (rc = 1 <-> (length buf < 16)%nat) /\ (rc = 0 \/ rc = 1 \/ rc = -1) /\ (rc <> 0 -> out = (0, 0)).
Proof.
  unfold peer_crypto_ipc_header_decode, PEER_CRYPTO_IPC_HEADER_LEN.
  destruct (Nat.ltb_spec (length buf) 16) as [Hl|Hl]; [repeat split; auto|].
  destruct (ipc_header_get _) as [[[[[magic version] t] b] reserved] c'].
  destruct (_ || _); repeat split; auto; first [done|lia].
Qed.

(** The decision is made on the first sixteen bytes. *)
Lemma ipc_header_decode_app buf rest :
  (16 <= length buf)%nat -> peer_crypto_ipc_header_decode (buf ++ rest) = peer_crypto_ipc_header_decode buf.
Proof.
  intros Hl. assert (framed ipc_header_get) as HF by (unfold ipc_header_get; eauto 10 with wire).
  unfold peer_crypto_ipc_header_decode, PEER_CRYPTO_IPC_HEADER_LEN.
  rewrite length_app, !(proj2 (Nat.ltb_ge _ _)) by lia.
  specialize (HF buf rest 16%nat false Hl).
  destruct (ipc_header_get (RCursor buf 16 false)) as [[[[[magic version] t] b] reserved] c].
  by destruct HF as [-> _].
Qed.

(** ** Bodies *)

Definition token_wf (t : peer_assoc_token) : Prop :=
  in_width 64 (tk_manager t) /\ in_width 64 (tk_generation t) /\ in_width 32 (Z.of_nat (tk_slot t)).
Definition token_fmt (t : peer_assoc_token) : list byte :=
  be_bytes 8 (tk_manager t) ++ be_bytes 8 (tk_generation t) ++ be_bytes 4 (Z.of_nat (tk_slot t)).

Lemma writes_token t : writes (token_put t) (token_fmt t).
Proof. unfold token_put. writes_tac. Qed.
Lemma reads_token t : token_wf t -> reads token_get (token_fmt t) t.
Proof.
  intros (H1 & H2 & H3). unfold token_get, token_fmt.
  eapply reads_val; [reads_tac|]. rewrite Nat2Z.id. by destruct t.
Qed.
Lemma accepts_token : accepts token_get (fun t bs => token_wf t /\ bs = token_fmt t).
Proof.
  unfold token_get. accepts_tac. unfold token_wf, token_fmt. cbn [tk_manager tk_generation tk_slot].
  rewrite !Z2Nat.id by (unfold in_width in *; lia). split; [done|fmt_solve].
Qed.
#[export] Hint Resolve writes_token accepts_token : wire.

Lemma length_token_fmt t : length (token_fmt t) = 20%nat.
Proof. unfold token_fmt. by rewrite !length_app, !length_be_bytes. Qed.

Definition ipc_lane_wf (l : peer_sec_lane) : Prop :=
  in_width 64 (ln_id l) /\ in_width 24 (ln_qpn l).1 /\ in_width 24 (ln_qpn l).2 /\
  length (ln_gid l).1 = 16%nat /\ length (ln_gid l).2 = 16%nat.
Definition ipc_lane_fmt (l : peer_sec_lane) : list byte :=
  be_bytes 8 (ln_id l) ++ be_bytes 3 (ln_qpn l).1 ++ be_bytes 3 (ln_qpn l).2 ++ (ln_gid l).1 ++ (ln_gid l).2.
(** What the wire carries of a lane. *)
Definition wire_lane (l : peer_sec_lane) : peer_sec_lane :=
  SecLane (ln_id l) 0 (0, 0) (ln_qpn l) (0, 0) (ln_gid l) 0.

Lemma writes_ipc_lane l : writes (ipc_lane_put l) (ipc_lane_fmt l).
Proof. unfold ipc_lane_put. writes_tac. Qed.
Lemma reads_ipc_lane l : ipc_lane_wf l -> reads ipc_lane_get (ipc_lane_fmt l) (wire_lane l).
Proof.
  intros (H1 & H2 & H3 & H4 & H5). unfold ipc_lane_get, ipc_lane_fmt.
  eapply reads_val; [reads_tac|]. unfold wire_lane. by destruct l as [? ? ? [] ? [] ?].
Qed.
Lemma accepts_ipc_lane :
  accepts ipc_lane_get (fun l bs => (ipc_lane_wf l /\ wire_lane l = l) /\ bs = ipc_lane_fmt l).
Proof. unfold ipc_lane_get. accepts_tac. split; [done|]. unfold ipc_lane_fmt. cbn. fmt_solve. Qed.
#[export] Hint Resolve writes_ipc_lane accepts_ipc_lane : wire.

Lemma length_ipc_lane_fmt l : ipc_lane_wf l -> length (ipc_lane_fmt l) = 46%nat.
Proof.
  intros (_ & _ & _ & H4 & H5). unfold ipc_lane_fmt. by rewrite !length_app, !length_be_bytes, H4, H5.
Qed.

(** ** Requests *)

Definition request_wf (r : peer_crypto_request) : Prop :=
  token_wf (rq_token r) /\ in_width 64 (rq_operation r) /\ in_width 64 (bd_epoch (rq_binding r)) /\
  in_width 64 (rq_old_epoch r) /\ length (bd_session (rq_binding r)) = 16%nat /\
  length (bd_association (rq_binding r)) = 16%nat /\ in_width 32 (bd_spi (rq_binding r)).1 /\
  in_width 32 (bd_spi (rq_binding r)).2 /\ length (rq_material r) = 20%nat /\ Forall ipc_lane_wf (rq_lanes r).
Definition request_head_fmt (r : peer_crypto_request) : list byte :=
  token_fmt (rq_token r) ++ be_bytes 8 (rq_operation r) ++ be_bytes 2 (action_code (rq_action r)) ++
  be_bytes 2 (Z.of_nat (rq_local r)) ++ be_bytes 8 (bd_epoch (rq_binding r)) ++ be_bytes 8 (rq_old_epoch r) ++
  bd_session (rq_binding r) ++ bd_association (rq_binding r) ++ be_bytes 4 (bd_spi (rq_binding r)).1 ++
  be_bytes 4 (bd_spi (rq_binding r)).2 ++ rq_material r ++ be_bytes 2 (Z.of_nat (length (rq_lanes r))).
Definition request_fmt (r : peer_crypto_request) : list byte :=
  request_head_fmt r ++ concat (ipc_lane_fmt <$> rq_lanes r).
(** What the wire carries of a request. *)
Definition request_wire (r : peer_crypto_request) : peer_crypto_request :=
  r <| rq_binding := wire_binding (bd_epoch (rq_binding r)) (bd_session (rq_binding r))
                       (bd_association (rq_binding r)) (bd_spi (rq_binding r)) |>
    <| rq_lanes ::= fmap wire_lane |>.

Lemma action_of_code a : action_of (action_code a) = Some a.
Proof. by destruct a. Qed.
Lemma action_code_of n a : action_of n = Some a -> action_code a = n.
Proof.
  unfold action_of. intros H.
  repeat match type of H with (match ?x with _ => _ end) = _ => destruct x; try discriminate end; by simplify_eq.
Qed.
Lemma action_code_width a : in_width (8 * Z.of_nat 2) (action_code a).
Proof. destruct a; split; vm_compute; congruence. Qed.

Lemma request_valid_parts r :
  request_valid r = true -> (rq_local r <= 1)%nat /\ (0 < length (rq_lanes r) <= PEER_ASSOC_LANES_MAX)%nat.
Proof.
  unfold request_valid. intros H. split_valid H.
  repeat match goal with
    | H : (_ <=? _)%nat = true |- _ => apply Nat.leb_le in H
    | H : negb (_ =? _)%nat = true |- _ => apply negb_true_iff, Nat.eqb_neq in H end. lia.
Qed.

Lemma writes_request_body r : writes (request_body r) (request_fmt r).
Proof.
  unfold request_body, request_head_put. eapply writes_eq.
  - eapply writes_seq; [writes_go|]. apply (writes_each _ ipc_lane_fmt). intros. apply writes_ipc_lane.
  - unfold request_fmt, request_head_fmt. fmt_solve.
Qed.

Lemma request_encode_fmt r cap :
  request_valid r = true ->
  let frame := ipc_header_fmt PEER_CRYPTO_IPC_REQUEST (request_body_len (length (rq_lanes r))) ++ request_fmt r in
  peer_crypto_ipc_request_encode r cap = if (length frame <=? cap)%nat then Some frame else None.
Proof.
  intros Hv frame. unfold peer_crypto_ipc_request_encode. rewrite Hv. cbn [negb].
  apply run_writer_fmt, writes_seq; [apply writes_ipc_header|apply writes_request_body].
Qed.

Lemma length_concat_const {A B} (f : A -> list B) n l :
  Forall (fun a => length (f a) = n) l -> length (concat (f <$> l)) = (n * length l)%nat.
Proof. induction 1 as [|a l H _ IH]; cbn; [lia|]. rewrite length_app, H, IH. lia. Qed.

Lemma length_request_fmt r :
  request_wf r -> Z.of_nat (length (request_fmt r)) = request_body_len (length (rq_lanes r)).
Proof.
  intros (_ & _ & _ & _ & H1 & H2 & _ & _ & H3 & Hl). unfold request_fmt, request_head_fmt, request_body_len.
  rewrite length_app, (length_concat_const _ 46).
  - rewrite !length_app, !length_be_bytes, length_token_fmt, H1, H2, H3. lia.
  - eapply Forall_impl; [done|]. apply length_ipc_lane_fmt.
Qed.

(** The head as the decoder keeps it. *)
Definition head_of (r : peer_crypto_request) : request_head :=
  RequestHead (rq_token r) (rq_operation r) (action_code (rq_action r)) (Z.of_nat (rq_local r))
    (bd_epoch (rq_binding r)) (rq_old_epoch r) (bd_session (rq_binding r)) (bd_association (rq_binding r))
    (bd_spi (rq_binding r)) (rq_material r) (Z.of_nat (length (rq_lanes r))).

Lemma reads_request_head r :
  request_wf r -> request_valid r = true -> reads request_head_get (request_head_fmt r) (head_of r).
Proof.
  intros (T & H1 & H2 & H3 & H4 & H5 & H6 & H7 & H8 & _) [Hlo Hc]%request_valid_parts.
  unfold PEER_ASSOC_LANES_MAX in Hc.
  pose proof (reads_token _ T). pose proof (action_code_width (rq_action r)).
  assert (in_width (8 * Z.of_nat 2) (Z.of_nat (rq_local r))) by (unfold in_width; lia).
  assert (in_width (8 * Z.of_nat 2) (Z.of_nat (length (rq_lanes r)))) by (unfold in_width; lia).
  unfold request_head_get, request_head_fmt. eapply reads_val; [reads_tac|].
  unfold head_of. by destruct (bd_spi (rq_binding r)).
Qed.

Lemma reads_lanes l :
  Forall ipc_lane_wf l ->
  reads (r_times (length l) ipc_lane_get) (concat (ipc_lane_fmt <$> l)) (wire_lane <$> l).
Proof.
  intros Hl. assert (concat (ipc_lane_fmt <$> l) = concat (ipc_lane_fmt <$> (wire_lane <$> l))) as ->.
  { by rewrite <-list_fmap_compose. }
  rewrite <-(length_fmap wire_lane l). apply reads_times. intros a (b & -> & Hb)%list_elem_of_fmap.
  rewrite Forall_forall in Hl. by apply (reads_ipc_lane b), Hl.
Qed.

Lemma request_wire_valid r : request_valid (request_wire r) = request_valid r.
Proof. unfold request_valid. cbn. by rewrite length_fmap. Qed.

Lemma request_decode_fmt r :
  request_wf r -> request_valid r = true -> peer_crypto_ipc_request_decode (request_fmt r) = Some (request_wire r).
Proof.
  intros Hw Hv. destruct (request_valid_parts r Hv) as [Hlo Hc]. unfold PEER_ASSOC_LANES_MAX in Hc.
  unfold peer_crypto_ipc_request_decode, request_fmt. rewrite length_app.
  rewrite (reads_request_head r Hw Hv). cbn [r_bad head_of qh_lane_count orb].
  rewrite (proj2 (Z.ltb_ge _ _)) by (unfold PEER_ASSOC_LANES_MAX; lia). rewrite Nat2Z.id.
  destruct Hw as (_ & _ & _ & _ & _ & _ & _ & _ & _ & Hl).
  rewrite (reads_all _ _ _ (reads_lanes _ Hl)). cbn [unfinished r_bad r_left orb negb Nat.eqb].
  change (qh_action (head_of r)) with (action_code (rq_action r)). rewrite action_of_code.
  assert (request_of (head_of r) (rq_action r) (wire_lane <$> rq_lanes r) = request_wire r) as ->.
  { unfold request_of, head_of. cbn [qh_local qh_token qh_operation qh_epoch qh_session qh_association qh_spi qh_old_epoch qh_material].
    rewrite Nat2Z.id. by destruct r. }
  by rewrite request_wire_valid, Hv.
Qed.

Lemma accepts_request_head :
  accepts request_head_get (fun h bs =>
    (0 <= qh_local h /\ 0 <= qh_lane_count h) /\
    forall action lanes, action_of (qh_action h) = Some action -> Z.of_nat (length lanes) = qh_lane_count h ->
      Forall ipc_lane_wf lanes ->
      request_wf (request_of h action lanes) /\ bs = request_head_fmt (request_of h action lanes)).
Proof.
  unfold request_head_get. accepts_tac.
  cbn [qh_local qh_lane_count qh_action]. split; [unfold in_width in *; lia|].
  intros action lanes Ha Hl Hlanes. apply action_code_of in Ha. split; [done|].
  unfold request_head_fmt, request_of. cbn. rewrite Ha, Hl, Z2Nat.id by (unfold in_width in *; lia). fmt_solve.
Qed.

Lemma wire_lane_id l : Forall (fun l => ipc_lane_wf l /\ wire_lane l = l) l -> wire_lane <$> l = l.
Proof. induction 1 as [|a l [_ H] _ IH]; cbn; [done|]. by rewrite H, IH. Qed.

Lemma request_decode_inv body r :
  peer_crypto_ipc_request_decode body = Some r ->
  request_wf r /\ request_valid r = true /\ request_wire r = r /\ body = request_fmt r.
Proof.
  unfold peer_crypto_ipc_request_decode.
  destruct (request_head_get _) as [h c] eqn:E. destruct (r_bad c) eqn:Hb; [done|]. cbn [orb].
  destruct (Z.ltb_spec (Z.of_nat PEER_ASSOC_LANES_MAX) (qh_lane_count h)); [done|].
  destruct (accepts_split _ _ _ _ _ accepts_request_head E Hb) as (bs & [Hpos Hh] & -> & Hleft).
  destruct (r_times _ ipc_lane_get c) as [lanes c'] eqn:E'.
  destruct (unfinished c') eqn:Hu; [done|]. destruct (action_of (qh_action h)) as [action|] eqn:Ha; [|done].
  destruct (request_valid _) eqn:Hv; [|done]. intros [= <-].
  destruct (accepts_rest _ _ _ _ _ (accepts_times _ _ _ _ accepts_ipc_lane) E' Hleft Hu) as [[Hn Hl] Hm].
  destruct (Hh action lanes eq_refl ltac:(lia)) as [Hw ->].
  { eapply Forall_impl; [done|]. by intros ? []. }
  split; [done|]. split; [done|]. split.
  - unfold request_wire. cbn. by rewrite (wire_lane_id _ Hl).
  - unfold request_fmt. by rewrite Hm.
Qed.

(** ** Hello and completions *)

Definition hello_numbers_fmt (v : Z * Z) : list byte := be_bytes 2 v.1 ++ be_bytes 2 v.2.
Definition hello_numbers_ok (v : Z * Z) : Prop := 0 <= v.1 <= 0xffff /\ 0 <= v.2 <= 0xffff.

Lemma hello_decode_numbers body v :
  peer_crypto_ipc_hello_decode body = Some v <-> hello_numbers_ok v /\ body = hello_numbers_fmt v.
Proof.
  unfold peer_crypto_ipc_hello_decode, hello_numbers_ok. split.
  - destruct (Nat.eqb_spec (length body) 4) as [Hl|]; [|done]. cbn [negb].
    destruct (hello_numbers_get _) as [v' c] eqn:E. destruct (r_bad c) eqn:Hb; [done|]. intros [= <-].
    assert (accepts hello_numbers_get (fun v bs => (in_width 16 v.1 /\ in_width 16 v.2) /\ bs = hello_numbers_fmt v)) as A.
    { unfold hello_numbers_get. accepts_tac. unfold hello_numbers_fmt. split; [done|fmt_solve]. }
    destruct (accepts_split _ _ _ _ _ A E Hb) as (bs & [[H1 H2] Hbs] & -> & _).
    unfold in_width in *. split; [lia|].
    rewrite Hbs in Hl |- *. unfold hello_numbers_fmt in Hl. rewrite !length_app, !length_be_bytes in Hl.
    destruct (r_mem c); [by rewrite app_nil_r|cbn in Hl; lia].
  - intros [[H1 H2] ->].
    assert (length (hello_numbers_fmt v) = 4%nat) as Hl.
    { unfold hello_numbers_fmt. by rewrite length_app, !length_be_bytes. }
    rewrite Hl. cbn [Nat.eqb negb]. rewrite <-Hl.
    assert (in_width (8 * Z.of_nat 2) v.1) by (unfold in_width; lia).
    assert (in_width (8 * Z.of_nat 2) v.2) by (unfold in_width; lia).
    assert (reads hello_numbers_get (hello_numbers_fmt v) v) as R.
    { unfold hello_numbers_get, hello_numbers_fmt. eapply reads_val; [reads_tac|by destruct v]. }
    by rewrite (reads_all _ _ _ R).
Qed.

Definition completion_wf (d : peer_crypto_completion) : Prop :=
  token_wf (cp_token d) /\ in_width 64 (cp_operation d) /\ length (cp_session d) = 16%nat /\
  length (cp_association d) = 16%nat /\ in_width 64 (cp_epoch d).
Definition completion_fmt (d : peer_crypto_completion) : list byte :=
  token_fmt (cp_token d) ++ be_bytes 8 (cp_operation d) ++ be_bytes 2 (action_code (cp_action d)) ++
  be_bytes 2 (status_code (cp_status d)) ++ cp_session d ++ cp_association d ++ be_bytes 8 (cp_epoch d).

Lemma status_round s : status_final s = true -> status_of (status_code s) = s /\ in_width 16 (status_code s).
Proof.
  unfold status_final, status_of, status_code, wrap. rewrite andb_true_iff, !Z.leb_le. intros H.
  assert (s = 0 \/ s = -1 \/ s = -2) as [-> | [-> | ->]] by lia; by vm_compute.
Qed.
Lemma status_back n : in_width 16 n -> status_final (status_of n) = true -> status_code (status_of n) = n.
Proof.
  unfold in_width, status_final, status_of, status_code, wrap. rewrite andb_true_iff, !Z.leb_le. intros Hn H.
  destruct (Z.ltb_spec n (2 ^ 15)).
  - by apply Z.mod_small.
  - symmetry. apply Z.mod_unique with (-1); lia.
Qed.

Lemma completion_encode_fmt d cap :
  status_final (cp_status d) = true ->
  let frame := ipc_header_fmt PEER_CRYPTO_IPC_COMPLETION completion_body_len ++ completion_fmt d in
  peer_crypto_ipc_completion_encode d cap = if (length frame <=? cap)%nat then Some frame else None.
Proof.
  intros Hs frame. unfold peer_crypto_ipc_completion_encode. rewrite Hs. cbn [negb].
  apply run_writer_fmt, writes_seq; [apply writes_ipc_header|].
  unfold completion_body, completion_fmt. writes_tac.
Qed.

Lemma length_completion_fmt d : completion_wf d -> Z.of_nat (length (completion_fmt d)) = completion_body_len.
Proof.
  intros (_ & _ & H1 & H2 & _). unfold completion_fmt.
  by rewrite !length_app, !length_be_bytes, length_token_fmt, H1, H2.
Qed.

Lemma completion_decode_fmt body d :
  peer_crypto_ipc_completion_decode body = Some d <->
  completion_wf d /\ status_final (cp_status d) = true /\ body = completion_fmt d.
Proof.
  unfold peer_crypto_ipc_completion_decode. split.
  - destruct (completion_get _) as [[[[[[[token op] action] status] session] assoc] epoch] c] eqn:E.
    destruct (unfinished c) eqn:Hu; [done|]. cbn [orb].
    destruct (status_final _) eqn:Hs; [|done]. cbn [negb].
    destruct (action_of action) as [a|] eqn:Ha; [|done]. intros [= <-].
    assert (accepts completion_get (fun r bs => let '(token, op, action, status, session, assoc, epoch) := r in
      (token_wf token /\ in_width 64 op /\ in_width 16 status /\ length session = 16%nat /\
       length assoc = 16%nat /\ in_width 64 epoch) /\
      bs = token_fmt token ++ be_bytes 8 op ++ be_bytes 2 action ++ be_bytes 2 status ++ session ++ assoc ++ be_bytes 8 epoch)) as A.
    { unfold completion_get. accepts_tac. split; [done|fmt_solve]. }
    destruct (accepts_all _ _ _ _ _ A E Hu) as [(H1 & H2 & H3 & H4 & H5 & H6) ->].
    split; [done|]. split; [done|]. unfold completion_fmt. cbn.
    by rewrite (action_code_of _ _ Ha), status_back.
  - intros ((T & H1 & H2 & H3 & H4) & Hs & ->). destruct (status_round _ Hs) as [Hr Hw].
    pose proof (reads_token _ T). pose proof (action_code_width (cp_action d)).
    assert (reads completion_get (completion_fmt d)
      (cp_token d, cp_operation d, action_code (cp_action d), status_code (cp_status d), cp_session d, cp_association d, cp_epoch d)) as R.
    { unfold completion_get, completion_fmt. reads_tac. }
    rewrite (reads_all _ _ _ R). cbn [unfinished r_bad r_left orb negb Nat.eqb].
    rewrite Hr, Hs. cbn [negb]. rewrite action_of_code. by destruct d.
Qed.

(** The frames between the runtime and the crypto owner are exact. A header is accepted exactly when it is the encoding of a known type with a body within the bound; a request body exactly when it is the encoding of the valid request it yields, a completion body exactly when it is the encoding of the completion it yields, with a final status 0, -1 or -2; and whatever valid request the runtime encodes, the owner reads back the type, the whole body length and, from the body, every field of the request the wire carries (token, operation, action, epochs, session, association, SPIs, key material and lanes). *)
Lemma frames_exact :
  (forall buf type body_len, peer_crypto_ipc_header_decode buf = (0, (type, body_len)) <->
     ipc_header_ok type body_len /\ (16 <= length buf)%nat /\ take 16 buf = ipc_header_fmt type body_len) /\
  (forall body r, peer_crypto_ipc_request_decode body = Some r <->
     request_wf r /\ request_valid r = true /\ request_wire r = r /\ body = request_fmt r) /\
  (forall body d, peer_crypto_ipc_completion_decode body = Some d <->
     completion_wf d /\ status_final (cp_status d) = true /\ body = completion_fmt d) /\
  (forall r rest, request_wf r -> request_valid r = true ->
     exists frame, peer_crypto_ipc_request_encode r PEER_CRYPTO_IPC_FRAME_MAX = Some frame /\
       let len := request_body_len (length (rq_lanes r)) in
       peer_crypto_ipc_header_decode (frame ++ rest) = (0, (PEER_CRYPTO_IPC_REQUEST, len)) /\
       length frame = (16 + Z.to_nat len)%nat /\
       peer_crypto_ipc_request_decode (drop 16 frame) = Some (request_wire r)).
Proof.
  split_and!.
  - intros buf type body_len. split; [apply ipc_header_decode_inv|].
    intros (Hok & _ & Ht). rewrite <-(take_drop 16 buf), Ht. by apply ipc_header_decode_fmt.
  - intros body r. split; [apply request_decode_inv|]. intros (Hw & Hv & Hr & ->).
    rewrite <-Hr at 2. by apply request_decode_fmt.
  - apply completion_decode_fmt.
  - intros r rest Hw Hv. pose proof (request_encode_fmt r PEER_CRYPTO_IPC_FRAME_MAX Hv) as He.
    pose proof (length_request_fmt r Hw) as Hl.
    destruct (request_valid_parts r Hv) as [_ Hc]. unfold PEER_ASSOC_LANES_MAX in Hc.
    assert (110 <= request_body_len (length (rq_lanes r)) <= 846) as Hb by (unfold request_body_len; lia).
    eexists. rewrite He, length_app, length_ipc_header_fmt.
    rewrite (proj2 (Nat.leb_le _ _)).
    2: { unfold PEER_CRYPTO_IPC_FRAME_MAX, PEER_CRYPTO_IPC_HEADER_LEN, PEER_CRYPTO_IPC_BODY_MAX. lia. }
    split; [done|]. cbv zeta. split_and!.
    + rewrite <-app_assoc. apply ipc_header_decode_fmt.
      unfold ipc_header_ok, PEER_CRYPTO_IPC_HELLO, PEER_CRYPTO_IPC_REQUEST, PEER_CRYPTO_IPC_COMPLETION, PEER_CRYPTO_IPC_BODY_MAX. lia.
    + rewrite length_app, length_ipc_header_fmt. lia.
    + rewrite drop_app_length' by by rewrite length_ipc_header_fmt. by apply request_decode_fmt.
Qed.
