(* ===== verification/CryptoIpcProofs.v ===== *)
(** * The crypto-owner adapter keeps account of every request

    Every request the adapter accepts is at any moment in flight, unpolled as a
    completion, or handed to the manager, never twice and, within the bound of
    the table, never lost; the frames of the owner are handled the same way
    however the stream is split. *)

From S2P Require Import Prelude Cursor PeerIdentity SecurityWire SecurityCodec Association CryptoIpc CryptoIpcCodec.

(** ** The account *)

(** What identifies a request and its completion. *)
Definition key_of (d : peer_crypto_completion) : peer_assoc_token * Z * peer_crypto_action :=
  (cp_token d, cp_operation d, cp_action d).
Definition in_flight (c : peer_crypto_ipc) : list peer_crypto_completion := omap id (ip_inflight c).
Definition unpolled (c : peer_crypto_ipc) : list peer_crypto_completion := contents INFLIGHT_MAX (ip_pending c).
Definition ipc_held (c : peer_crypto_ipc) := key_of <$> (in_flight c ++ unpolled c).

(** Nothing ipc_held is invented, and nothing is lost while all of it fits. *)
Definition moves (c c' : peer_crypto_ipc) : Prop :=
  ipc_held c' ⊆+ ipc_held c /\ ((length (ipc_held c) <= INFLIGHT_MAX)%nat -> ipc_held c' ≡ₚ ipc_held c).

Lemma moves_refl c : moves c c.
Proof. by split. Qed.
Lemma moves_trans c1 c2 c3 : moves c1 c2 -> moves c2 c3 -> moves c1 c3.
Proof.
  intros [S1 P1] [S2 P2]. split; [by etrans|]. intros Hl.
  etrans; [apply P2|by apply P1]. by rewrite (P1 Hl).
Qed.
(** Only the table and the queue count. *)
Lemma moves_same c c' :
  ip_inflight c' = ip_inflight c -> ip_pending c' = ip_pending c -> moves c c'.
Proof. intros E1 E2. unfold moves, ipc_held, in_flight, unpolled. by rewrite E1, E2. Qed.

Definition tables_ok (c : peer_crypto_ipc) : Prop :=
  length (ip_inflight c) = INFLIGHT_MAX /\ fifo_ok INFLIGHT_MAX (ip_pending c).
Definition ipc_ok (c : peer_crypto_ipc) : Prop :=
  tables_ok c /\
  (ip_fd c = None -> in_flight c = [] /\ ip_ready c = false /\ ip_tx c = [] /\ ip_rx c = []) /\
  (length (ip_rx c) < PEER_CRYPTO_IPC_FRAME_MAX)%nat /\ (length (ip_tx c) <= TX_MAX)%nat.

(** ** Queueing *)

Lemma queue_ok d p :
  fifo_ok INFLIGHT_MAX p ->
  fifo_ok INFLIGHT_MAX (queue_completion d p) /\
  contents INFLIGHT_MAX (queue_completion d p) =
    if (length (contents INFLIGHT_MAX p) =? INFLIGHT_MAX)%nat then contents INFLIGHT_MAX p
    else contents INFLIGHT_MAX p ++ [d].
Proof.
  intros Hp. unfold queue_completion. rewrite (length_contents _ _ Hp).
  destruct (Nat.eqb_spec (ff_count p) INFLIGHT_MAX) as [|Hn]; [done|].
  apply fifo_push_ok; [done|]. destruct Hp as (_ & _ & _ & Hc & _). lia.
Qed.

(** The queue with one more key: at most that, and exactly that with room. *)
Lemma queue_keys d p :
  fifo_ok INFLIGHT_MAX p ->
  let keys q := key_of <$> contents INFLIGHT_MAX q in
  keys (queue_completion d p) ⊆+ key_of d :: keys p /\
  ((length (keys p) < INFLIGHT_MAX)%nat -> keys (queue_completion d p) ≡ₚ key_of d :: keys p).
Proof.
  intros Hp keys. unfold keys. destruct (queue_ok d p Hp) as [_ ->]. rewrite length_fmap.
  destruct (Nat.eqb_spec (length (contents INFLIGHT_MAX p)) INFLIGHT_MAX) as [->|Hn].
  - split; [by apply submseteq_cons|lia].
  - rewrite fmap_app. cbn. rewrite Permutation_app_comm. by split.
Qed.

Lemma lose_all l p :
  fifo_ok INFLIGHT_MAX p ->
  let keys q := key_of <$> contents INFLIGHT_MAX q in
  let lost := key_of <$> omap id l in
  fifo_ok INFLIGHT_MAX (fold_left lose l p) /\
  keys (fold_left lose l p) ⊆+ lost ++ keys p /\
  ((length lost + length (keys p) <= INFLIGHT_MAX)%nat -> keys (fold_left lose l p) ≡ₚ lost ++ keys p).
Proof.
  revert p. induction l as [|[d|] l IH]; intros p Hp; cbn.
  - by split_and!.
  - destruct (queue_ok (d <| cp_status := -2 |>) p Hp) as [Hq _].
    destruct (queue_keys (d <| cp_status := -2 |>) p Hp) as [S1 P1].
    change (key_of (d <| cp_status := -2 |>)) with (key_of d) in S1, P1.
    destruct (IH _ Hq) as (Hf & S2 & P2). cbn in S2, P2. split_and!; [done|..].
    + etrans; [exact S2|]. rewrite Permutation_middle. by apply submseteq_skips_l.
    + intros Hl. specialize (P1 ltac:(lia)). rewrite P2 by (rewrite P1; cbn; lia).
      rewrite P1. by rewrite Permutation_middle.
  - apply IH, Hp.
Qed.

Lemma disconnect_moves now c :
  tables_ok c -> moves c (ipc_disconnect now c) /\ ipc_ok (ipc_disconnect now c).
Proof.
  intros [Hl Hp]. destruct (lose_all (ip_inflight c) (ip_pending c) Hp) as (Hf & S & P).
  assert (forall n, omap id (repeat (@None peer_crypto_completion) n) = []) as Hnone by (induction n; done).
  split.
  - unfold moves, ipc_held, in_flight, unpolled. cbn. rewrite Hnone. cbn. rewrite fmap_app.
    split; [done|]. intros Hc. rewrite length_app in Hc. by apply P.
  - split; [split; [cbn; by rewrite repeat_length|done]|]. split.
    + intros _. split_and!; [apply Hnone|done..].
    + cbn. unfold PEER_CRYPTO_IPC_FRAME_MAX, PEER_CRYPTO_IPC_HEADER_LEN. lia.
Qed.

(** ** Completions of the owner *)

Lemma settle_first_spec d l l' :
  settle_first d l = Some l' ->
  length l' = length l /\ exists key, answers d key = true /\ omap id l ≡ₚ key :: omap id l'.
Proof.
  revert l'. induction l as [|[key|] l IH]; intros l' H; cbn in H; [done|..].
  - destruct (answers d key) eqn:Ha.
    + injection H as <-. split; [done|]. by exists key.
    + destruct (settle_first d l) as [m|]; [|done]. injection H as <-.
      destruct (IH m eq_refl) as (Hl & k & Hk & HP). split; [cbn; by rewrite Hl|].
      exists k. split; [done|]. cbn. rewrite HP. apply Permutation_swap.
  - destruct (settle_first d l) as [m|]; [|done]. injection H as <-.
    destruct (IH m eq_refl) as (Hl & k & Hk & HP). split; [cbn; by rewrite Hl|]. by exists k.
Qed.

Lemma answers_key d key : answers d key = true -> key_of key = key_of d.
Proof.
  unfold answers. rewrite !andb_true_iff, !Z.eqb_eq, Nat.eqb_eq, bool_decide_eq_true.
  intros ((((H1 & H2) & H3) & H4) & H5). unfold key_of. destruct (cp_token key), (cp_token d). cbn in *. congruence.
Qed.

Lemma completed_moves d c :
  tables_ok c ->
  tables_ok (ipc_completed d c) /\ moves c (ipc_completed d c) /\
  ip_fd (ipc_completed d c) = ip_fd c /\ ip_tx (ipc_completed d c) = ip_tx c.
Proof.
  intros [Hl Hp]. unfold ipc_completed. destruct (settle_first d (ip_inflight c)) as [l|] eqn:E.
  2: { by split_and!. }
  destruct (settle_first_spec _ _ _ E) as (Hl' & key & Ha%answers_key & HP).
  destruct (queue_keys d (ip_pending c) Hp) as [S P].
  split; [split; [cbn; congruence|by apply queue_ok]|]. split; [|done].
  unfold moves, ipc_held, in_flight, unpolled. cbn. rewrite !fmap_app, HP. cbn. rewrite Ha.
  split.
  - rewrite Permutation_middle. by apply submseteq_skips_l.
  - rewrite length_app, !length_fmap. intros Hc.
    rewrite P by (rewrite length_fmap; lia). by rewrite Permutation_middle.
Qed.

Lemma frame_moves type body c c' :
  tables_ok c -> ipc_frame type body c = Some c' ->
  tables_ok c' /\ moves c c' /\ ip_fd c' = ip_fd c /\ ip_tx c' = ip_tx c.
Proof.
  intros Ht. unfold ipc_frame.
  destruct (_ =? PEER_CRYPTO_IPC_HELLO).
  - destruct (peer_crypto_ipc_hello_decode body); [|done]. intros [= <-].
    split; [done|]. split; [by apply moves_same|done].
  - destruct (_ =? PEER_CRYPTO_IPC_COMPLETION); [|done].
    destruct (peer_crypto_ipc_completion_decode body); [|done]. intros [= <-]. by apply completed_moves.
Qed.

(** ** The loop over frames *)

(** No whole frame is left. *)
Definition rx_drained (c : peer_crypto_ipc) : Prop :=
  let '(rc, (_, body_len)) := peer_crypto_ipc_header_decode (ip_rx c) in
  0 <= rc /\ (0 < rc \/ (length (ip_rx c) < PEER_CRYPTO_IPC_HEADER_LEN + Z.to_nat body_len)%nat).

Lemma drained_short c : rx_drained c -> (length (ip_rx c) < PEER_CRYPTO_IPC_FRAME_MAX)%nat.
Proof.
  unfold rx_drained. pose proof (ipc_header_decode_status (ip_rx c)) as Hs.
  destruct (peer_crypto_ipc_header_decode (ip_rx c)) as [rc [type len]] eqn:E.
  destruct Hs as (H1 & H2 & _). intros [H0 H].
  unfold PEER_CRYPTO_IPC_FRAME_MAX, PEER_CRYPTO_IPC_HEADER_LEN, PEER_CRYPTO_IPC_BODY_MAX in *.
  destruct H2 as [-> | [-> | ->]]; [|destruct H1 as [H1 _]; specialize (H1 eq_refl); lia|lia].
  destruct (ipc_header_decode_inv _ _ _ E) as [[_ Hb] _]. unfold PEER_CRYPTO_IPC_BODY_MAX in Hb. lia.
Qed.

(** One turn of the loop: the buffer is rx_drained, a fault, or one whole frame
    is taken out of it. *)
Inductive consumed (c : peer_crypto_ipc) : bool -> peer_crypto_ipc -> Prop :=
  | consumed_all : rx_drained c -> consumed c true c
  | consumed_fault : consumed c false c
  | consumed_frame type body n c1 b c2 :
      (16 <= n <= length (ip_rx c))%nat -> ipc_frame type body c = Some c1 ->
      consumed (c1 <| ip_rx := drop n (ip_rx c) |>) b c2 -> consumed c b c2.

Lemma consume_loop_consumed fuel c :
  (length (ip_rx c) < fuel)%nat ->
  consumed c (ipc_consume_loop fuel c).1 (ipc_consume_loop fuel c).2.
Proof.
  revert c. induction fuel as [|fuel IH]; intros c Hf; [lia|]. cbn [ipc_consume_loop].
  pose proof (ipc_header_decode_status (ip_rx c)) as Hs.
  destruct (peer_crypto_ipc_header_decode (ip_rx c)) as [rc [type len]] eqn:E.
  destruct Hs as (H1 & H2 & _).
  destruct (Z.ltb_spec rc 0); [apply consumed_fault|].
  destruct (_ || _) eqn:Hg.
  - apply consumed_all. unfold rx_drained. cbn [snd]. rewrite E.
    apply orb_true_iff in Hg as [Hg%Z.ltb_lt|Hg%Nat.ltb_lt]; auto.
  - apply orb_false_iff in Hg as [_ Hg%Nat.ltb_ge]. unfold PEER_CRYPTO_IPC_HEADER_LEN in *.
    destruct (ipc_frame type _ c) as [c1|] eqn:Ef; [|apply consumed_fault].
    eapply consumed_frame; [|exact Ef|apply IH; cbn; rewrite length_drop; lia]. lia.
Qed.

Lemma consumed_moves c b c' :
  consumed c b c' -> tables_ok c ->
  tables_ok c' /\ moves c c' /\ ip_fd c' = ip_fd c /\ ip_tx c' = ip_tx c /\ (b = true -> rx_drained c').
Proof.
  induction 1 as [c Hd|c|c type body n c1 b c2 Hn Hf _ IH]; intros Ht.
  - by split_and!.
  - by split_and!.
  - destruct (frame_moves _ _ _ _ Ht Hf) as (T1 & M1 & F1 & X1).
    destruct (IH T1) as (T2 & M2 & F2 & X2 & D). split_and!; [done| |by rewrite F2|by rewrite X2|done].
    eapply moves_trans; [exact M1|]. eapply moves_trans; [|exact M2]. by apply moves_same.
Qed.

Lemma consume_moves c :
  tables_ok c ->
  let '(fine, c') := ipc_consume c in
  tables_ok c' /\ moves c c' /\ ip_fd c' = ip_fd c /\ ip_tx c' = ip_tx c /\
  (fine = true -> (length (ip_rx c') < PEER_CRYPTO_IPC_FRAME_MAX)%nat).
Proof.
  intros Ht. unfold ipc_consume.
  pose proof (consume_loop_consumed (S (length (ip_rx c))) c ltac:(lia)) as H.
  destruct (ipc_consume_loop _ c) as [fine c']. cbn [fst snd] in H.
  destruct (consumed_moves _ _ _ H Ht) as (T & M & F & X & D). split_and!; [done..|].
  intros Hb. by apply drained_short, D.
Qed.

Lemma receive_moves recvs now c :
  ipc_ok c -> is_Some (ip_fd c) -> moves c (ipc_receive recvs now c) /\ ipc_ok (ipc_receive recvs now c).
Proof.
  revert c. induction recvs as [|[bytes| |] recvs IH]; intros c Hok Hfd; cbn [ipc_receive].
  - by split; [apply moves_refl|].
  - destruct Hok as (Ht & Hn & Hr & Hx).
    destruct (take _ bytes) as [|b got] eqn:Eg; [by apply disconnect_moves|].
    set (c0 := c <| ip_rx ::= fun old => old ++ b :: got |>).
    pose proof (consume_moves c0 Ht) as H. destruct (ipc_consume c0) as [fine c1].
    destruct H as (T1 & M1 & F1 & X1 & D1).
    assert (moves c c1) as M by (eapply moves_trans; [by apply (moves_same c c0)|done]).
    assert (forall c2, moves c1 c2 /\ ipc_ok c2 -> moves c c2 /\ ipc_ok c2) as Hgo.
    { intros c2 [M2 O2]. split; [by eapply moves_trans|done]. }
    destruct fine; cbn [negb]; [|apply Hgo; by apply disconnect_moves].
    destruct (_ =? _)%nat; apply Hgo; [by apply disconnect_moves|].
    apply IH; [|by rewrite F1]. split; [done|]. rewrite F1, X1. split_and!; [|by apply D1|done].
    intros Hno. cbn in Hno. destruct Hfd as [? Hfd]. congruence.
  - by apply IH.
  - apply disconnect_moves, Hok.
Qed.

Lemma flush_tx_shorter sends tx : (length (flush_tx sends tx).2 <= length tx)%nat.
Proof.
  revert tx. induction sends as [|[n| |] sends IH]; intros [|b tx]; cbn [flush_tx snd]; try lia; [|apply IH].
  etrans; [apply IH|]. rewrite length_drop. lia.
Qed.

Lemma pump_moves sc c : ipc_ok c -> moves c (pump sc c) /\ ipc_ok (pump sc c).
Proof.
  intros Hok. unfold pump.
  assert (ipc_ok (try_connect sc c) /\ moves c (try_connect sc c)) as [O1 M1].
  { unfold try_connect. destruct (ip_fd c) as [fd|] eqn:E; [by split; [|apply moves_refl]|].
    destruct (_ <? _); [by split; [|apply moves_refl]|]. destruct Hok as (Ht & Hn & Hr & Hx).
    split; [|by apply moves_same]. split; [done|]. split; [|done]. intros _. by apply Hn. }
  set (c1 := try_connect sc c) in *. clearbody c1.
  destruct (ip_fd c1) as [fd|] eqn:E; [|done].
  pose proof (flush_tx_shorter (sc_sends sc) (ip_tx c1)) as Hs.
  destruct (flush_tx (sc_sends sc) (ip_tx c1)) as [fine tx]. cbn [snd] in Hs.
  set (c2 := c1 <| ip_tx := tx |>). destruct O1 as (Ht & Hn & Hr & Hx).
  assert (moves c c2) as M2 by (eapply moves_trans; [exact M1|by apply moves_same]).
  destruct fine; cbn [negb].
  - destruct (receive_moves (sc_recvs sc) (sc_now_drop sc) c2) as [M3 O3]; [|cbn; by rewrite E|].
    { split; [done|]. split; [cbn; congruence|]. split; [exact Hr|exact (Nat.le_trans _ _ _ Hs Hx)]. }
    split; [by eapply moves_trans|done].
  - destruct (disconnect_moves (sc_now_drop sc) c2 Ht) as [M3 O3]. split; [by eapply moves_trans|done].
Qed.

(** ** Calls *)

Lemma unused_slot_spec i l k :
  unused_slot i l = Some k -> exists j, k = (i + j)%nat /\ l !! j = Some None.
Proof.
  revert i. induction l as [|[d|] l IH]; intros i H; cbn in H; [done|..].
  - destruct (IH _ H) as (j & -> & Hj). exists (S j). split; [lia|done].
  - injection H as <-. exists 0%nat. split; [lia|done].
Qed.

Lemma omap_insert_unused {A} (l : list (option A)) j a :
  l !! j = Some None -> omap id (<[j := Some a]> l) ≡ₚ a :: omap id l.
Proof.
  revert j. induction l as [|x l IH]; intros [|j] H; cbn in *; [done|done| |].
  - by injection H as ->.
  - destruct x as [x|]; cbn; [|by apply IH]. rewrite (IH j H). apply Permutation_swap.
Qed.

(** Keys added to the account and taken from it by a call. *)
Definition adds (k : list (peer_assoc_token * Z * peer_crypto_action)) (c c' : peer_crypto_ipc) : Prop :=
  ipc_held c' ⊆+ k ++ ipc_held c /\
  ((length k + length (ipc_held c) <= INFLIGHT_MAX)%nat -> ipc_held c' ≡ₚ k ++ ipc_held c).

Lemma moves_adds c c' : moves c c' -> adds [] c c'.
Proof. intros [H1 H2]. by split. Qed.
Lemma adds_trans k c1 c2 c3 c4 : moves c1 c2 -> adds k c2 c3 -> moves c3 c4 -> adds k c1 c4.
Proof.
  intros [S1 P1] [S2 P2] [S3 P3]. split.
  - etrans; [exact S3|]. etrans; [exact S2|]. by apply submseteq_skips_l.
  - intros Hl. specialize (P1 ltac:(lia)). rewrite P1 in P2. specialize (P2 Hl).
    rewrite P2, length_app in P3. by apply P3.
Qed.

Lemma submit_adds sc sc' r c :
  ipc_ok c ->
  let '(rc, c') := ipc_submit sc sc' r c in
  ipc_ok c' /\ adds (if rc =? 1 then [key_of (request_key r)] else []) c c'.
Proof.
  intros Hok. destruct (pump_moves sc c Hok) as [M O]. unfold ipc_submit.
  set (c1 := pump sc c) in *. clearbody c1.
  destruct (ip_fd c1) as [fd|] eqn:E; [|by split; [|apply moves_adds]].
  destruct (_ || _); [by split; [|apply moves_adds]|].
  destruct (unused_slot 0 (ip_inflight c1)) as [slot|] eqn:Es; [|by split; [|apply moves_adds]].
  destruct (peer_crypto_ipc_request_encode _ _) as [frame|]; [|by split; [|apply moves_adds]].
  destruct (Nat.ltb_spec (TX_MAX - length (ip_tx c1)) (length frame)); [by split; [|apply moves_adds]|].
  pose proof (flush_tx_shorter (sc_sends sc') (ip_tx c1 ++ frame)) as Hs.
  destruct (flush_tx _ _) as [fine tx]. cbn [snd] in Hs. rewrite length_app in Hs.
  destruct (unused_slot_spec _ _ _ Es) as (j & -> & Hj). cbn [Nat.add].
  set (c2 := (c1 <| ip_tx := tx |>) <| ip_inflight ::= <[j := Some (request_key r)]> |>).
  destruct O as ((Hl & Hp) & Hn & Hr & Hx).
  assert (tables_ok c2) as T2 by (split; [cbn; by rewrite length_insert|done]).
  assert (ipc_held c2 ≡ₚ key_of (request_key r) :: ipc_held c1) as HP.
  { unfold ipc_held, in_flight, unpolled, c2. cbn. rewrite !fmap_app, omap_insert_unused by done. done. }
  assert (adds [key_of (request_key r)] c1 c2) as HA by (split; [by rewrite HP|by intros _; rewrite HP]).
  assert (moves c2 (if fine then c2 else ipc_disconnect (sc_now_drop sc') c2) /\
          ipc_ok (if fine then c2 else ipc_disconnect (sc_now_drop sc') c2)) as [M3 O3].
  { destruct fine; [split; [apply moves_refl|]|by apply disconnect_moves].
    split; [done|]. split; [cbn; congruence|]. split; [exact Hr|].
    change (length tx <= TX_MAX)%nat. lia. }
  split; [done|]. cbn [Z.eqb Pos.eqb]. by eapply adds_trans.
Qed.

Lemma poll_takes sc c :
  ipc_ok c ->
  let '(d, c') := ipc_poll sc c in
  ipc_ok c' /\ exists c1, moves c c1 /\ ipc_held c1 ≡ₚ (key_of <$> option_list d) ++ ipc_held c'.
Proof.
  intros Hok. destruct (pump_moves sc c Hok) as [M O]. unfold ipc_poll.
  set (c1 := pump sc c) in *. clearbody c1.
  destruct (Nat.eqb_spec (ff_count (ip_pending c1)) 0); [split; [done|]; by exists c1|].
  destruct O as ((Hl & Hp) & Hn & Hr & Hx).
  destruct (fifo_pop_ok _ _ Hp ltac:(lia)) as (a & Ha & Hc & Hp'). rewrite Ha. split.
  - split; [done|]. by split_and!.
  - exists c1. split; [done|]. unfold ipc_held, in_flight, unpolled. cbn. rewrite Hc, !fmap_app. cbn.
    by rewrite Permutation_middle.
Qed.

(** ** Runs *)

Inductive ipc_call :=
  | CallSubmit (sc sc' : syscalls) (r : peer_crypto_request)
  | CallPoll (sc : syscalls)
  | CallHealthy (sc : syscalls).

(** The adapter with the requests it accepted and the completions it gave. *)
Record ipc_book := Book {
  bk_ipc : peer_crypto_ipc; bk_accepted : list peer_crypto_request; bk_polled : list peer_crypto_completion }.

Definition ipc_exec (b : ipc_book) (call : ipc_call) : ipc_book :=
  match call with
  | CallSubmit sc sc' r =>
    let '(rc, c) := ipc_submit sc sc' r (bk_ipc b) in
    Book c (if rc =? 1 then r :: bk_accepted b else bk_accepted b) (bk_polled b)
  | CallPoll sc =>
    let '(d, c) := ipc_poll sc (bk_ipc b) in Book c (bk_accepted b) (option_list d ++ bk_polled b)
  | CallHealthy sc => Book (ipc_healthy sc (bk_ipc b)).2 (bk_accepted b) (bk_polled b)
  end.
Definition ipc_run (b : ipc_book) (calls : list ipc_call) : ipc_book := fold_left ipc_exec calls b.

(** Requests accepted and not yet answered to the manager. *)
Definition outstanding_requests (b : ipc_book) : nat := length (bk_accepted b) - length (bk_polled b).
(** After no call of the run are there more of them than the table has slots. *)
Fixpoint within_table (b : ipc_book) (calls : list ipc_call) : Prop :=
  match calls with
  | [] => True
  | call :: calls => (outstanding_requests (ipc_exec b call) <= INFLIGHT_MAX)%nat /\ within_table (ipc_exec b call) calls
  end.

Definition accepted_keys (b : ipc_book) := (fun r => key_of (request_key r)) <$> bk_accepted b.
Definition answered (b : ipc_book) := (key_of <$> bk_polled b) ++ ipc_held (bk_ipc b).

Lemma exec_account b call :
  ipc_ok (bk_ipc b) -> answered b ⊆+ accepted_keys b ->
  let b' := ipc_exec b call in
  ipc_ok (bk_ipc b') /\ answered b' ⊆+ accepted_keys b' /\
  (answered b ≡ₚ accepted_keys b -> (outstanding_requests b <= INFLIGHT_MAX)%nat ->
   (outstanding_requests b' <= INFLIGHT_MAX)%nat -> answered b' ≡ₚ accepted_keys b').
Proof.
  intros Hok HS.
  assert (answered b ≡ₚ accepted_keys b -> length (ipc_held (bk_ipc b)) = outstanding_requests b) as Hlen.
  { intros HP%Permutation_length. unfold answered, accepted_keys in HP. rewrite length_app, !length_fmap in HP.
    unfold outstanding_requests. lia. }
  destruct call as [sc sc' r|sc|sc]; cbn [ipc_exec].
  - pose proof (submit_adds sc sc' r _ Hok) as H. destruct (ipc_submit sc sc' r (bk_ipc b)) as [rc c].
    destruct H as [O [S P]]. cbn [bk_ipc].
    set (k := if rc =? 1 then [key_of (request_key r)] else []) in *.
    assert (accepted_keys (Book c (if rc =? 1 then r :: bk_accepted b else bk_accepted b) (bk_polled b)) = k ++ accepted_keys b) as ->.
    { unfold accepted_keys, k. cbn. by destruct (rc =? 1). }
    split; [done|]. unfold answered in *. cbn [bk_ipc bk_polled]. split.
    + etrans; [by apply submseteq_skips_l|]. rewrite Permutation_app_swap_app. by apply submseteq_skips_l.
    + intros HP Ho Ho'. rewrite P; [by rewrite Permutation_app_swap_app, HP|]. rewrite (Hlen HP).
      apply Permutation_length in HP. unfold accepted_keys in HP. rewrite length_app, !length_fmap in HP.
      unfold outstanding_requests in *. cbn in *. unfold k. destruct (rc =? 1); cbn in *; lia.
  - pose proof (poll_takes sc _ Hok) as H. destruct (ipc_poll sc (bk_ipc b)) as [d c].
    destruct H as (O & c1 & [S P] & HC). split; [done|]. unfold answered, accepted_keys in *.
    cbn [bk_ipc bk_polled bk_accepted]. rewrite fmap_app.
    assert ((key_of <$> option_list d) ++ (key_of <$> bk_polled b) ++ ipc_held c ≡ₚ (key_of <$> bk_polled b) ++ ipc_held c1) as E.
    { rewrite HC. apply Permutation_app_swap_app. }
    rewrite <-app_assoc, E. split.
    + etrans; [by apply submseteq_skips_l|done].
    + intros HP Ho _. rewrite P; [done|]. rewrite (Hlen HP). exact Ho.
  - destruct (pump_moves sc _ Hok) as [[S P] O]. split; [done|].
    unfold answered, accepted_keys in *. cbn [bk_ipc bk_polled bk_accepted ipc_healthy snd]. split.
    + etrans; [by apply submseteq_skips_l|done].
    + intros HP Ho _. rewrite P; [done|]. rewrite (Hlen HP). exact Ho.
Qed.

Lemma run_account calls b :
  ipc_ok (bk_ipc b) -> answered b ⊆+ accepted_keys b ->
  let b' := ipc_run b calls in
  ipc_ok (bk_ipc b') /\ answered b' ⊆+ accepted_keys b' /\
  (answered b ≡ₚ accepted_keys b -> (outstanding_requests b <= INFLIGHT_MAX)%nat -> within_table b calls ->
   answered b' ≡ₚ accepted_keys b').
Proof.
  revert b. induction calls as [|call calls IH]; intros b Hok HS; [by split_and!|]. cbn.
  destruct (exec_account b call Hok HS) as (O & S & P). destruct (IH _ O S) as (O' & S' & P').
  split_and!; [done..|]. intros HP Ho [H1 H2]. apply P'; auto.
Qed.

Lemma new_ok path made sc c : peer_crypto_ipc_new path made sc = Some c -> ipc_ok c /\ ipc_held c = [].
Proof.
  unfold peer_crypto_ipc_new. destruct (_ || _); [done|]. destruct (negb made); [done|]. intros [= <-].
  destruct (@fifo_new_ok peer_crypto_completion INFLIGHT_MAX ltac:(unfold INFLIGHT_MAX; lia)) as [Hp Hc].
  assert (omap id (repeat (@None peer_crypto_completion) INFLIGHT_MAX) = []) as Hnone by done.
  assert (tables_ok zero_ipc) as Ht by (split; [done|exact Hp]).
  assert (ipc_held zero_ipc = []) as Hh.
  { unfold ipc_held, in_flight, unpolled, zero_ipc. cbn [ip_inflight ip_pending]. by rewrite Hnone, Hc. }
  assert (forall c, ip_inflight c = ip_inflight zero_ipc -> ip_pending c = ip_pending zero_ipc ->
    ip_tx c = [] -> ip_rx c = [] -> ip_ready c = false -> ipc_ok c /\ ipc_held c = []) as Hgo.
  { intros c E1 E2 E3 E4 E5. unfold ipc_ok, tables_ok, in_flight. unfold ipc_held, in_flight, unpolled in *.
    rewrite E1, E2, E3, E4, E5. split; [|done]. split; [done|]. split; [intros _; by split_and!|].
    split; [|cbn; lia]. unfold PEER_CRYPTO_IPC_FRAME_MAX, PEER_CRYPTO_IPC_HEADER_LEN. cbn. lia. }
  unfold try_connect. cbn [ip_fd zero_ipc]. destruct (_ <? _); by apply Hgo.
Qed.

(** Exactly one outcome per request. On any run of the adapter, whatever the socket and the owner do, the completions handed to the manager, those unpolled in its queue and the requests still in flight are together at most the requests it accepted, each by its token, operation and action: no completion is invented or reported twice. While no more requests are outstanding than its table has slots, they are together exactly the requests accepted: none is ever lost, and once the owner is disconnected nothing is left in flight, so every unanswered request waits in the queue. *)
Lemma outcomes_accounted path made sc c calls :
  peer_crypto_ipc_new path made sc = Some c ->
  let b := ipc_run (Book c [] []) calls in
  answered b ⊆+ accepted_keys b /\
  (within_table (Book c [] []) calls -> answered b ≡ₚ accepted_keys b) /\
  (ip_fd (bk_ipc b) = None -> in_flight (bk_ipc b) = [] /\ ip_tx (bk_ipc b) = []).
Proof.
  intros Hnew b. destruct (new_ok _ _ _ _ Hnew) as [Hok Hh].
  destruct (run_account calls (Book c [] []) Hok) as (O & S & P).
  { unfold answered. cbn. by rewrite Hh. }
  split; [done|]. split.
  - intros Hw. apply P; [|apply Nat.le_0_l|done]. unfold answered. cbn. by rewrite Hh.
  - intros Hf. destruct O as (_ & Hn & _). destruct (Hn Hf) as (H1 & _ & H2 & _). done.
Qed.

(** ** Splitting the stream *)

Definition appended (b : list byte) (c : peer_crypto_ipc) : peer_crypto_ipc := c <| ip_rx ::= fun old => old ++ b |>.
(** What arrives with one [recv]. *)
Definition feed (bytes : list byte) (c : peer_crypto_ipc) : bool * peer_crypto_ipc := ipc_consume (appended bytes c).

Lemma frame_append type body b c :
  ipc_frame type body (appended b c) = appended b <$> ipc_frame type body c.
Proof.
  unfold ipc_frame, ipc_completed. destruct (_ =? PEER_CRYPTO_IPC_HELLO).
  - by destruct (peer_crypto_ipc_hello_decode body).
  - destruct (_ =? PEER_CRYPTO_IPC_COMPLETION); [|done].
    destruct (peer_crypto_ipc_completion_decode body) as [d|]; [|done]. cbn.
    by destruct (settle_first d (ip_inflight c)).
Qed.

Lemma consume_fuel f1 f2 c :
  (length (ip_rx c) < f1)%nat -> (length (ip_rx c) < f2)%nat -> ipc_consume_loop f1 c = ipc_consume_loop f2 c.
Proof.
  revert f2 c. induction f1 as [|f1 IH]; intros [|f2] c H1 H2; [lia..|]. cbn [ipc_consume_loop].
  destruct (peer_crypto_ipc_header_decode (ip_rx c)) as [rc [type len]].
  destruct (rc <? 0); [done|]. destruct (_ || _) eqn:Hg; [done|].
  apply orb_false_iff in Hg as [_ Hg%Nat.ltb_ge]. unfold PEER_CRYPTO_IPC_HEADER_LEN in *.
  destruct (ipc_frame type _ c); [|done]. apply IH; cbn; rewrite length_drop; lia.
Qed.

Lemma consume_more f b c :
  (length (ip_rx c) < f)%nat ->
  let '(fine, c1) := ipc_consume_loop f c in
  ipc_consume_loop (f + length b) (appended b c) =
    if fine then ipc_consume (appended b c1) else (false, appended b c1).
Proof.
  revert c. induction f as [|f IH]; intros c Hf; [lia|]. cbn [ipc_consume_loop Nat.add].
  assert (forall c, (length (ip_rx c) < S f)%nat ->
    ipc_consume_loop (S (f + length b)) (appended b c) = ipc_consume (appended b c)) as Hsame.
  { intros c0 H0. apply consume_fuel; cbn; rewrite ?length_app; lia. }
  pose proof (Hsame c Hf) as Hc. cbn [ipc_consume_loop] in Hc.
  change (ip_rx (appended b c)) with (ip_rx c ++ b) in *.
  pose proof (ipc_header_decode_status (ip_rx c)) as Hs.
  destruct (peer_crypto_ipc_header_decode (ip_rx c)) as [rc [type len]] eqn:E. destruct Hs as (H1 & H2 & _).
  destruct (Z.ltb_spec 0 rc).
  { destruct (Z.ltb_spec rc 0); [lia|]. exact Hc. }
  assert (16 <= length (ip_rx c))%nat as H16.
  { destruct (decide (length (ip_rx c) < 16)%nat) as [Hl|]; [|lia]. apply H1 in Hl. lia. }
  rewrite (ipc_header_decode_app _ b H16), E in Hc |- *. cbn beta iota in Hc |- *.
  destruct (Z.ltb_spec rc 0); [done|]. cbn [orb].
  destruct (Z.ltb_spec 0 rc); [lia|]. cbn [orb] in Hc |- *. unfold PEER_CRYPTO_IPC_HEADER_LEN in *.
  destruct (Nat.ltb_spec (length (ip_rx c)) (16 + Z.to_nat len)) as [|Hlen]; [exact Hc|].
  rewrite length_app, (proj2 (Nat.ltb_ge _ _)) by lia.
  rewrite (drop_app_le (ip_rx c) b 16) by lia.
  rewrite take_app_le by (rewrite length_drop; lia).
  rewrite frame_append. destruct (ipc_frame type _ c) as [c1|]; [|done]. cbn [fmap option_fmap option_map].
  rewrite (drop_app_le (ip_rx c) b) by lia.
  set (rest := drop (16 + Z.to_nat len) (ip_rx c)).
  change ((appended b c1) <| ip_rx := rest ++ b |>) with (appended b (c1 <| ip_rx := rest |>)).
  apply IH. cbn. unfold rest. rewrite length_drop. lia.
Qed.

(** How the stream from the owner is split does not matter: taking in some bytes and then more has the same outcome, the same completions and the same state as taking them in at once; and when the first part is already a protocol fault, so is the whole, with the same completions accepted before it. *)
Lemma feed_chunks a b c :
  let '(fine, c1) := feed a c in
  feed (a ++ b) c = if fine then feed b c1 else (false, appended b c1).
Proof.
  unfold feed. unfold ipc_consume at 1.
  pose proof (consume_more (S (length (ip_rx (appended a c)))) b (appended a c) ltac:(lia)) as H.
  destruct (ipc_consume_loop _ (appended a c)) as [fine c1]. rewrite <-H.
  assert (appended (a ++ b) c = appended b (appended a c)) as ->.
  { unfold appended. cbn. by rewrite app_assoc. }
  unfold ipc_consume. apply consume_fuel; cbn; rewrite !length_app; lia.
Qed.

(** The stream between the runtime and the crypto owner.  A header is accepted
    exactly when it is the encoding of a known type with a body within the bound;
    a request body exactly when it is the encoding of the valid request it yields,
    a completion body exactly when it is the encoding of the completion it yields,
    with a final status 0, -1 or -2; and whatever valid request the runtime
    encodes, the owner reads back the type, the whole body length and, from the
    body, every field of the request the wire carries.  How the stream from the
    owner is split does not matter: taking in some bytes and then more has the
    same outcome, the same completions and the same state as taking them in at
    once; and when the first part is already a protocol fault, so is the whole,
    with the same completions accepted before it. *)
Lemma ipc_frames_exact :
  (forall buf type body_len, peer_crypto_ipc_header_decode buf = (0, (type, body_len)) <->
     ipc_header_ok type body_len /\ (16 <= length buf)%nat /\ take 16 buf = ipc_header_fmt type body_len) /\
  (forall body r, peer_crypto_ipc_request_decode body = Some r <->
     request_wf r /\ request_valid r = true /\ request_wire r = r /\ body = request_fmt r) /\
  (forall body d, peer_crypto_ipc_completion_decode body = Some d <->
     completion_wf d /\ status_final (cp_status d) = true /\ body = completion_fmt d) /\
  (forall r rest, request_wf r -> request_valid r = true ->
     exists frame, peer_crypto_ipc_request_encode r PEER_CRYPTO_IPC_FRAME_MAX = Some frame /\
       let len := request_body_len (length (rq_lanes r)) in
       peer_crypto_ipc_header_decode (frame ++ rest) = (0, (PEER_CRYPTO_IPC_REQUEST, len)) /\
       length frame = (16 + Z.to_nat len)%nat /\
       peer_crypto_ipc_request_decode (drop 16 frame) = Some (request_wire r)) /\
  (forall a b c, let '(fine, c1) := feed a c in feed (a ++ b) c = if fine then feed b c1 else (false, appended b c1)).
Proof. destruct frames_exact as (H1 & H2 & H3 & H4). split_and!; try done. apply feed_chunks. Qed.

(** ** Concrete runs *)

Definition ipc_demo_request (n : Z) : peer_crypto_request :=
  Request (Token 1 1 0) n INSTALL_RX sample_binding [sample_lane 1] 0 0 (repeat x07 20).
Definition demo_hello : list byte := default [] (peer_crypto_ipc_hello_encode 3 1 64).
Definition demo_answer (n : Z) : list byte :=
  default [] (peer_crypto_ipc_completion_encode (request_key (ipc_demo_request n)) 256).
(** A healthy system: connected, everything sent, [bytes] received. *)
Definition quiet : syscalls := Syscalls 5 5 5 (Some 3%nat) [Sent 4096] [].
Definition recv_only (bytes : list byte) : syscalls := Syscalls 5 5 5 (Some 3%nat) [Sent 4096] [Received bytes].
Definition breaks : syscalls := Syscalls 5 5 5 None [SendFailed] [].
Definition demo_path : list byte := [x2f; x78].

Definition ipc_demo_calls : list ipc_call :=
  [CallHealthy (recv_only demo_hello); CallSubmit quiet quiet (ipc_demo_request 1);
   CallSubmit quiet quiet (ipc_demo_request 2); CallPoll (recv_only (demo_answer 2)); CallSubmit quiet breaks (ipc_demo_request 3)].

(** 256 requests answered and not polled, then one more that is in flight when
    the owner is lost. *)
Definition flood_calls : list ipc_call :=
  CallHealthy (recv_only demo_hello) ::
  (concat ((fun n => [CallSubmit quiet quiet (ipc_demo_request (Z.of_nat n));
                      CallHealthy (recv_only (demo_answer (Z.of_nat n)))]) <$> seq 1 256)) ++
  [CallSubmit quiet breaks (ipc_demo_request 257)].

(** Beyond the table's bound a completion is dropped: with 256 completions not yet polled, one more accepted request that is in flight when the owner is lost ends without any outcome. *)
Lemma completion_dropped :
  exists c, peer_crypto_ipc_new demo_path true quiet = Some c /\
    let b := ipc_run (Book c [] []) flood_calls in
    (length (bk_accepted b), bk_polled b, in_flight (bk_ipc b), length (unpolled (bk_ipc b))) = (257, [], [], 256)%nat.
Proof. eexists. split; [reflexivity|]. vm_compute. reflexivity. Qed.

(** C22: Exactly one outcome per request.  On any run of the adapter, whatever the socket
    and the owner do, the completions handed to the manager, those unpolled in its
    queue and the requests still in flight are together at most the requests it
    accepted, each by its token, operation and action: no completion is invented
    or reported twice.  While no more requests are outstanding than its table has
    slots, they are together exactly the requests accepted: none is ever lost, and
    once the owner is disconnected nothing is left in flight, so every unanswered
    request waits in the queue.  Beyond that bound the code drops one: with 256
    completions not yet polled, one more accepted request that is in flight when
    the owner is lost ends without any outcome. *)
Theorem ipc_exactly_once :
  (forall path made sc c calls, peer_crypto_ipc_new path made sc = Some c ->
     let b := ipc_run (Book c [] []) calls in
     answered b ⊆+ accepted_keys b /\
     (within_table (Book c [] []) calls -> answered b ≡ₚ accepted_keys b) /\
     (ip_fd (bk_ipc b) = None -> in_flight (bk_ipc b) = [] /\ ip_tx (bk_ipc b) = [])) /\
  (exists c, peer_crypto_ipc_new demo_path true quiet = Some c /\
     let b := ipc_run (Book c [] []) flood_calls in
     (length (bk_accepted b), bk_polled b, in_flight (bk_ipc b), length (unpolled (bk_ipc b))) = (257, [], [], 256)%nat).
Proof. split; [apply outcomes_accounted|exact completion_dropped]. Qed.

Lemma ipc_exactly_once_witness :
  exists c, peer_crypto_ipc_new demo_path true quiet = Some c /\
    let b := ipc_run (Book c [] []) ipc_demo_calls in
    length (bk_accepted b) = 3%nat /\ length (bk_polled b) = 1%nat /\ length (unpolled (bk_ipc b)) = 2%nat /\
    answered b ≡ₚ accepted_keys b.
Proof.
  eexists. split; [reflexivity|]. cbv zeta.
  match goal with |- context [Book ?c [] []] =>
    pose proof (proj1 ipc_exactly_once demo_path true quiet c ipc_demo_calls eq_refl) as (_ & H & _) end.
  split; [vm_compute; reflexivity|]. split; [vm_compute; reflexivity|]. split; [vm_compute; reflexivity|].
  apply H. cbn [within_table ipc_demo_calls]. repeat split; vm_compute; repeat constructor.
Defined.
