(* ===== verification/PeerControl.v ===== *)
(** * The control session between two nodes ([doca/peer_control.{h,c}])

    One connection over the authenticated session: a bounded queue of outgoing
    frames, in-order receipt of the peer's frames, the HELLO exchange that
    names the session, and the lease that a challenge answered in time renews.

    The carrier below and OpenSSL are the caller's: one call of
    [peer_control_progress] receives what they answer during that call
    ([control_turn]).  The owner's callbacks and SHA-256 are parameters. *)

From S2P Require Import Prelude Cursor PeerIdentity SecurityWire Association.

Definition CONTROL_QUEUE : nat := 8.
Definition SECOND_NS : Z := 1000000000.
Definition PEER_SEC_FRAME_MAX : nat := PEER_SEC_HEADER_LEN + Z.to_nat PEER_SEC_BODY_MAX.
Definition CONTROL_BUDGET : nat := 16.

Record peer_control_config := ControlConfig {
  cc_local : peer_sec_hello; cc_remote_node : list byte; cc_remote_key : list byte;
  cc_authority_deadline_ns : Z; cc_setup_timeout_ns : Z; cc_control_lease_ns : Z }.
#[export] Instance eta_control_config : Eta peer_control_config := fun c =>
  ControlConfig (cc_local c) (cc_remote_node c) (cc_remote_key c) (cc_authority_deadline_ns c)
    (cc_setup_timeout_ns c) (cc_control_lease_ns c).

(** Buffers are their meaningful bytes; [pc_queue] holds whole frames. *)
Record peer_control := Control {
  pc_config : peer_control_config; pc_remote : peer_sec_hello; pc_tls : peer_tls_conn;
  pc_setup_deadline : Z; pc_lease_deadline : Z; pc_next_ping : Z; pc_last_now : Z;
  pc_authority_generation : Z; pc_sent : Z; pc_received : Z;
  pc_session : list byte; pc_challenge : list byte; pc_last_digest : list byte;
  pc_faulted : bool; pc_hello_sent : bool; pc_ready : bool; pc_ping_pending : bool; pc_rx_blocked : bool;
  pc_queue : fifo (list byte); pc_cipher : list byte; pc_plain : list byte }.
#[export] Instance eta_control : Eta peer_control := fun c =>
  Control (pc_config c) (pc_remote c) (pc_tls c) (pc_setup_deadline c) (pc_lease_deadline c)
    (pc_next_ping c) (pc_last_now c) (pc_authority_generation c) (pc_sent c) (pc_received c)
    (pc_session c) (pc_challenge c) (pc_last_digest c) (pc_faulted c) (pc_hello_sent c) (pc_ready c)
    (pc_ping_pending c) (pc_rx_blocked c) (pc_queue c) (pc_cipher c) (pc_plain c).

Definition INT_MAX : Z := 0x7fffffff.
Definition PEER_WIRE_MSG_MAX : Z := 73728.
(** What OpenSSL makes of one read: plaintext, nothing yet, or a lost peer. *)
Inductive tls_read_result := TlsBytes (bytes : list byte) | TlsWant | TlsLost.
Definition peer_tls_read (c : peer_tls_conn) (cap : Z) (r : tls_read_result)
    : option (list byte) * peer_tls_conn :=
  if tc_faulted c then (None, c)
  else if negb (tc_established c) || (cap =? 0) then (Some [], c)
  else match r with
    | TlsBytes bytes => (Some (take (Z.to_nat (Z.min cap INT_MAX)) bytes), c)
    | TlsWant => (Some [], c)
    | TlsLost => (None, c <| tc_faulted := true |>)
    end.
Definition peer_tls_write (c : peer_tls_conn) (buf : list byte) (taken : bool) : bool * peer_tls_conn :=
  if tc_faulted c || negb (tc_established c) || (length buf =? 0)%nat || (INT_MAX <? Z.of_nat (length buf)) then (false, c)
  else if taken then (true, c) else (false, c <| tc_faulted := true |>).
Definition peer_tls_in (c : peer_tls_conn) (buf : list byte) (taken : bool) : bool * peer_tls_conn :=
  if tc_faulted c then (false, c)
  else if (length buf =? 0)%nat then (true, c)
  else if (INT_MAX <? Z.of_nat (length buf)) || negb taken then (false, c <| tc_faulted := true |>) else (true, c).
(** [bytes]: the ciphertext waiting. *)
Definition peer_tls_out (c : peer_tls_conn) (cap : Z) (bytes : list byte) : option (list byte) :=
  if tc_faulted c then None else Some (take (Z.to_nat (Z.min cap INT_MAX)) bytes).

(** The answers of one turn: the carrier's faulted and established; one
    [recv_msg] ([None] is a fault, the empty list nothing); whether OpenSSL
    takes ciphertext and plaintext; its handshake step; what it reads; pending
    input and output; drawn random bytes; its ciphertext; [send_msg]. *)
Record control_turn := Turn {
  tn_wire_faulted : bool; tn_wire_established : bool; tn_recv : option (list byte); tn_in_taken : bool;
  tn_in_pending : bool; tn_handshake : handshake_result; tn_read : tls_read_result;
  tn_rand : option (list byte); tn_out : list byte; tn_send : Z; tn_write_taken : bool; tn_out_pending : bool }.

Section control.
  Context {W : Type}.
  (** [EVP_Digest] with SHA-256; [None] is a failure. *)
  Context (sha256 : list byte -> option (list byte)).
  (** [config.message] and [config.resolve].  The first runs inside a turn and
      may call back into the connection it is called from, so it takes and
      returns it; the second names the node bound to a key, or refuses. *)
  Context (message : option (W -> peer_control -> peer_sec_header -> list byte -> Z * peer_control * W)).
  Context (resolve : W -> list byte -> option (list byte) * W).

Definition control_fault (c : peer_control) : Z * peer_control := (-1, c <| pc_faulted := true |>).
Definition peer_control_faulted (c : peer_control) (wire_faulted : bool) : bool :=
  pc_faulted c || peer_tls_faulted (pc_tls c) || wire_faulted.
Definition peer_control_ready (c : peer_control) (wire_faulted : bool) (now : Z) : bool :=
  negb (peer_control_faulted c wire_faulted) && pc_ready c && (pc_last_now c <=? now) &&
  (now <? pc_lease_deadline c) && (now <? cc_authority_deadline_ns (pc_config c)).
Definition peer_control_session (c : peer_control) : option (list byte) :=
  if pc_ready c then Some (pc_session c) else None.
Definition peer_control_remote (c : peer_control) : option peer_sec_hello :=
  if pc_ready c then Some (pc_remote c) else None.
Definition peer_control_tls (c : peer_control) (wire_faulted : bool) (now : Z) : option peer_tls_conn :=
  if peer_control_ready c wire_faulted now then Some (pc_tls c) else None.
Definition peer_control_lease_deadline (c : peer_control) : Z :=
  if pc_ready c && negb (pc_faulted c) then pc_lease_deadline c else 0.

Definition endpoint_is (e : peer_sec_endpoint) (h : peer_sec_hello) : bool :=
  str_eq (ep_node e) (he_node h) && bytes_eq (ep_public_key e) (he_public_key h) && bytes_eq (ep_boot e) (he_boot h).
Definition peer_control_binding_valid (c : peer_control) (b : peer_sec_binding) (local : nat)
    (wire_faulted : bool) (now : Z) : bool :=
  if (1 <? local)%nat || negb (peer_control_ready c wire_faulted now) || negb (peer_sec_binding_valid b) ||
     negb (str_eq (bd_cluster b) (he_cluster (cc_local (pc_config c)))) || negb (bytes_eq (bd_session b) (pc_session c))
  then false
  else
    let h := if (local =? 0)%nat then (cc_local (pc_config c), pc_remote c) else (pc_remote c, cc_local (pc_config c)) in
    endpoint_is (at2 0 (bd_endpoint b)) (at2 0 h) && endpoint_is (at2 1 (bd_endpoint b)) (at2 1 h).

(** The local HELLO with the nonce just drawn; [public_key] is the TLS context's. *)
Definition control_hello (h : peer_sec_hello) (nonce : list byte) : peer_sec_hello :=
  SecHello (he_cluster h) (he_node h) (he_public_key h) (he_boot h) nonce (he_workers h).
Definition terminated (s : list byte) : bool := existsb (fun b => b2z b =? 0) s.
Definition unnamed (s : list byte) : bool := match s with [] => true | b :: _ => b2z b =? 0 end.
Definition fresh_tls (exporter : list byte -> list byte -> option (list byte)) (key : list byte) : peer_tls_conn :=
  TlsConn exporter key (repeat x00 32) false false false.
Definition peer_control_new (cfg : peer_control_config) (can_resolve : bool) (public_key : list byte)
    (nonce : option (list byte)) (tls : option peer_tls_conn) (now : Z) : option peer_control :=
  if (cc_authority_deadline_ns cfg <=? now) || negb (terminated (cc_remote_node cfg)) ||
     (if unnamed (cc_remote_node cfg) then negb can_resolve else negb (nonzero (cc_remote_key cfg)))
  then None
  else match nonce with
    | None => None
    | Some nonce =>
      let local := control_hello (cc_local cfg) nonce in
      match peer_sec_hello_encode local 1024 with
      | None => None
      | Some _ =>
        if (negb (unnamed (cc_remote_node cfg)) && str_eq (he_node local) (cc_remote_node cfg)) ||
           negb (bytes_eq public_key (he_public_key (cc_local cfg)))
        then None
        else
          let setup := if cc_setup_timeout_ns cfg =? 0 then 5 * SECOND_NS else cc_setup_timeout_ns cfg in
          let lease := if cc_control_lease_ns cfg =? 0 then 5 * SECOND_NS else cc_control_lease_ns cfg in
          if lease <? 4 then None
          else match tls with
            | None => None
            | Some tls =>
              Some (Control (cfg <| cc_local := local |> <| cc_setup_timeout_ns := setup |>
                                 <| cc_control_lease_ns := lease |>)
                      zero_hello tls (after now setup) 0 0 now 0 0 0 (repeat x00 16) (repeat x00 16) (repeat x00 32)
                      false false false false false (fifo_new CONTROL_QUEUE) [] [])
            end
      end
    end.

(** 1 queued, 0 full, -1 refused. *)
Definition enqueue (type : Z) (association : option (list byte)) (epoch : Z) (body : list byte)
    (c : peer_control) : Z * peer_control :=
  if (PEER_SEC_BODY_MAX <? Z.of_nat (length body)) || (pc_sent c =? UINT64_MAX) then (-1, c)
  else if (ff_count (pc_queue c) =? CONTROL_QUEUE)%nat then (0, c)
  else
    let h := SecHeader type (Z.of_nat (length body))
               (if type =? PEER_SEC_HELLO then repeat x00 16 else pc_session c) (pc_sent c + 1)
               (default (repeat x00 16) association) epoch in
    match peer_sec_header_encode h with
    | None => (-1, c)
    | Some header =>
      (1, (c <| pc_queue ::= fifo_push CONTROL_QUEUE (header ++ body) |>) <| pc_sent ::= fun n => n + 1 |>)
    end.

Definition peer_control_send (type : Z) (association : option (list byte)) (epoch : Z) (body : list byte)
    (wire_faulted : bool) (now : Z) (c : peer_control) : Z * peer_control :=
  if negb (peer_control_ready c wire_faulted now) || (type =? PEER_SEC_HELLO) || (type =? PEER_SEC_PING) ||
     (type =? PEER_SEC_PONG) then (-1, c)
  else enqueue type association epoch body c.

(** The first frame: the peer's HELLO under the pinned key. *)
Definition control_greet (h : peer_sec_header) (body : list byte) (now : Z) (c : peer_control) : Z * peer_control :=
  if negb (sh_type h =? PEER_SEC_HELLO) || negb (sh_operation h =? 1) then (-1, c)
  else
    let '(rc, remote) := peer_sec_hello_decode body in
    let c := c <| pc_remote := remote |> in
    let cfg := pc_config c in
    if negb (rc =? 0) || negb (str_eq (he_cluster remote) (he_cluster (cc_local cfg))) ||
       negb (str_eq (he_node remote) (cc_remote_node cfg)) ||
       negb (bytes_eq (he_public_key remote) (cc_remote_key cfg)) then (-1, c)
    else match peer_sec_session_id sha256 (cc_local cfg) remote with
      | None => (-1, c)
      | Some session =>
        (0, (((c <| pc_session := session |>) <| pc_ready := true |>)
               <| pc_lease_deadline := after now (cc_control_lease_ns cfg) |>) <| pc_next_ping := now |>)
      end.

Definition control_receive (h : peer_sec_header) (body : list byte) (now : Z) (c : peer_control) (w : W)
    : Z * peer_control * W :=
  if negb (pc_ready c) then (control_greet h body now c, w)
  else if (sh_type h =? PEER_SEC_HELLO) || negb (bytes_eq (sh_session h) (pc_session c)) then (-1, c, w)
  else if sh_type h =? PEER_SEC_PING then
    let '(rc, c) := enqueue PEER_SEC_PONG None 0 (take 16 body) c in
    (if rc <? 0 then -1 else if rc =? 0 then 1 else 0, c, w)
  else if sh_type h =? PEER_SEC_PONG then
    if negb (pc_ping_pending c) || negb (bytes_eq (take 16 body) (pc_challenge c)) then (-1, c, w)
    else
      let lease := cc_control_lease_ns (pc_config c) in
      (0, ((c <| pc_ping_pending := false |>) <| pc_lease_deadline := after now lease |>)
            <| pc_next_ping := after now (lease / 3) |>, w)
  else match message with
    | Some f => f w c h body
    | None => (-1, c, w)
    end.

(** Up to [budget] whole frames of [plain]: each the next operation, or a
    repetition of the last one. *)
Fixpoint control_consume (budget : nat) (now : Z) (c : peer_control) (w : W) : Z * peer_control * W :=
  match budget with
  | O => (0, c, w)
  | S budget =>
    let '(rc, h) := peer_sec_header_decode (pc_plain c) in
    if rc <? 0 then (-1, c, w)
    else
      let len := (64 + Z.to_nat (sh_body_len h))%nat in
      if (0 <? rc) || (length (pc_plain c) <? len)%nat then (0, c, w)
      else match sha256 (take len (pc_plain c)) with
        | None => (-1, c, w)
        | Some digest =>
          if negb (length digest =? 32)%nat then (-1, c, w)
          else if sh_operation h =? pc_received c then
            if negb (bytes_eq digest (pc_last_digest c)) then (-1, c, w)
            else control_consume budget now (c <| pc_plain ::= drop len |>) w
          else if (pc_received c =? UINT64_MAX) || negb (sh_operation h =? pc_received c + 1) then (-1, c, w)
          else
            let '(rc, c, w) := control_receive h (take (Z.to_nat (sh_body_len h)) (drop 64 (pc_plain c))) now c w in
            if negb (rc =? 0) then (rc, c, w)
            else control_consume budget now
                   (((c <| pc_received := sh_operation h |>) <| pc_last_digest := digest |>) <| pc_plain ::= drop len |>) w
        end
  end.

(** *** Progress *)

(** [inl]: the turn ends with that status; [inr]: it goes on. *)
Definition cstep := (Z * peer_control * W + peer_control * W)%type.
Definition faults (c : peer_control) (w : W) : cstep := inl (control_fault c, w).
Definition cthen (r : cstep) (f : peer_control -> W -> cstep) : cstep :=
  match r with inl r => inl r | inr (c, w) => f c w end.

Definition turn_expired (t : control_turn) (now : Z) (c : peer_control) : bool :=
  peer_control_faulted c (tn_wire_faulted t) || (now <? pc_last_now c) ||
  (cc_authority_deadline_ns (pc_config c) <=? now) || (negb (pc_ready c) && (pc_setup_deadline c <=? now)) ||
  (pc_ready c && (pc_lease_deadline c <=? now)).

(** At most one carrier message is taken in. *)
Definition turn_receive (t : control_turn) (c : peer_control) (w : W) : cstep :=
  if pc_rx_blocked c || tn_in_pending t || negb (length (pc_plain c) <? PEER_SEC_FRAME_MAX)%nat then inr (c, w)
  else match tn_recv t with
    | None => faults c w
    | Some [] => inr (c, w)
    | Some bytes =>
      let '(taken, tls) := peer_tls_in (pc_tls c) bytes (tn_in_taken t) in
      let c := c <| pc_tls := tls |> in
      if taken : bool then inr (c, w) else faults c w
    end.

(** An inbound peer is named by the key it proved. *)
Definition turn_resolve (c : peer_control) (w : W) : cstep :=
  if negb (unnamed (cc_remote_node (pc_config c))) then inr (c, w)
  else match peer_tls_peer_key (pc_tls c) with
    | None => faults c w
    | Some key =>
      match resolve w key with
      | (None, w) => faults c w
      | (Some node, w) =>
        let c := c <| pc_config ::= fun cfg => cfg <| cc_remote_node := node |> |> in
        if negb (terminated node) || unnamed node || str_eq node (he_node (cc_local (pc_config c))) then faults c w
        else inr (c <| pc_config ::= fun cfg => cfg <| cc_remote_key := key |> |>, w)
      end
    end.

Definition turn_handshake (t : control_turn) (c : peer_control) (w : W) : cstep :=
  if peer_tls_established (pc_tls c) then inr (c, w)
  else
    let '(rc, tls) := peer_tls_handshake (pc_tls c) (tn_handshake t) in
    let c := c <| pc_tls := tls |> in
    if rc <? 0 then faults c w
    else if negb (rc =? 1) then inr (c, w)
    else cthen (turn_resolve c w) (fun c w =>
      let '(rc, tls) := peer_tls_pin (pc_tls c) (cc_remote_key (pc_config c)) in
      let c := c <| pc_tls := tls |> in
      if negb (rc =? 0) then faults c w else inr (c, w)).

Definition turn_hello (c : peer_control) (w : W) : cstep :=
  if pc_hello_sent c then inr (c, w)
  else match peer_sec_hello_encode (cc_local (pc_config c)) 1024 with
    | None => faults c w
    | Some body =>
      let '(rc, c) := enqueue PEER_SEC_HELLO None 0 body c in
      if negb (rc =? 1) then faults c w else inr (c <| pc_hello_sent := true |>, w)
    end.

(** One run over the buffer; status 1 leaves it blocked on the owner. *)
Definition turn_consume (now : Z) (c : peer_control) (w : W) : Z * cstep :=
  let '(rc, c, w) := control_consume CONTROL_BUDGET now c w in
  (rc, if rc <? 0 then faults c w else inr (c <| pc_rx_blocked := (rc =? 1) |>, w)).
Definition turn_frames (t : control_turn) (now : Z) (c : peer_control) (w : W) : cstep :=
  let '(rc, r) := turn_consume now c w in
  if negb (rc =? 0) then r
  else cthen r (fun c w =>
    if negb (length (pc_plain c) <? PEER_SEC_FRAME_MAX)%nat then inr (c, w)
    else
      let '(got, tls) := peer_tls_read (pc_tls c) (Z.of_nat (PEER_SEC_FRAME_MAX - length (pc_plain c))) (tn_read t) in
      let c := c <| pc_tls := tls |> in
      match got with
      | None => faults c w
      | Some bytes => (turn_consume now (c <| pc_plain ::= fun old => old ++ bytes |>) w).2
      end).

Definition turn_ping (t : control_turn) (now : Z) (c : peer_control) (w : W) : cstep :=
  if negb (pc_ready c) || pc_ping_pending c || (now <? pc_next_ping c) ||
     negb (ff_count (pc_queue c) <? CONTROL_QUEUE)%nat then inr (c, w)
  else match tn_rand t with
    | None => faults c w
    | Some challenge =>
      let c := c <| pc_challenge := challenge |> in
      let '(rc, c) := enqueue PEER_SEC_PING None 0 challenge c in
      if negb (rc =? 1) then faults c w else inr (c <| pc_ping_pending := true |>, w)
    end.

Definition turn_session (t : control_turn) (now : Z) (c : peer_control) (w : W) : cstep :=
  if negb (peer_tls_established (pc_tls c)) then inr (c, w)
  else cthen (turn_hello c w) (fun c w => cthen (turn_frames t now c w) (turn_ping t now)).

(** Ciphertext the carrier refused is kept as it is. *)
Definition turn_cipher (t : control_turn) (c : peer_control) (w : W) : cstep :=
  let out := if (length (pc_cipher c) =? 0)%nat
             then (fun bytes => c <| pc_cipher := bytes |>) <$> peer_tls_out (pc_tls c) PEER_WIRE_MSG_MAX (tn_out t)
             else Some c in
  match out with
  | None => faults c w
  | Some c =>
    if (length (pc_cipher c) =? 0)%nat then inr (c, w)
    else if tn_send t <? 0 then faults c w
    else if tn_send t =? 0 then inl (0, c, w)
    else inr (c <| pc_cipher := [] |>, w)
  end.

Definition turn_write (t : control_turn) (c : peer_control) (w : W) : cstep :=
  if negb (peer_tls_established (pc_tls c)) || tn_out_pending t || (ff_count (pc_queue c) =? 0)%nat then inr (c, w)
  else
    let '(taken, tls) := peer_tls_write (pc_tls c) (default [] (fifo_first (pc_queue c))) (tn_write_taken t) in
    let c := c <| pc_tls := tls |> in
    if taken : bool then inr (c <| pc_queue ::= fifo_pop CONTROL_QUEUE |>, w) else faults c w.

Definition peer_control_progress (t : control_turn) (now : Z) (c : peer_control) (w : W) : Z * peer_control * W :=
  if turn_expired t now c then (control_fault c, w)
  else
    let c := c <| pc_last_now := now |> in
    if negb (tn_wire_established t) then (0, c, w)
    else
      match cthen (cthen (cthen (cthen (turn_receive t c w) (turn_handshake t)) (turn_session t now)) (turn_cipher t))
                  (turn_write t) with
      | inl r => r
      | inr (c, w) => (0, c, w)
      end.

Definition peer_control_authority (generation deadline : Z) (wire_faulted : bool) (now : Z) (c : peer_control)
    : Z * peer_control :=
  if peer_control_faulted c wire_faulted || (now <? pc_last_now c) ||
     (cc_authority_deadline_ns (pc_config c) <=? now) || (pc_ready c && (pc_lease_deadline c <=? now)) ||
     (generation <=? pc_authority_generation c) || (negb (pc_ready c) && (pc_setup_deadline c <=? now)) ||
     (deadline <=? now) then (-1, c)
  else (0, (c <| pc_authority_generation := generation |>
              <| pc_config ::= fun cfg => cfg <| cc_authority_deadline_ns := deadline |> |>) <| pc_last_now := now |>).
End control.
