(* ===== verification/PeerControlProofs.v ===== *)
(** * The control session is authentic, leased and in order

    Invariants of one control connection over every sequence of turns, sends
    and authority refreshes, whatever the carrier, OpenSSL, the peer and the
    owner's callbacks answer.  The message callback runs inside a turn and may
    queue messages on the connection that called it. *)

From Stdlib Require Import Sorting.Sorted.
From S2P Require Import Prelude Cursor PeerIdentity SecurityWire SecurityCodec Association PeerControl.

Lemma after_mono a b d : a <= b -> after a d <= after b d.
Proof.
  unfold after. intros H. destruct (Z.ltb_spec (UINT64_MAX - a) d), (Z.ltb_spec (UINT64_MAX - b) d); lia.
Qed.

(** What a callback may do with the connection that called it: queue messages. *)
Inductive sends (c : peer_control) : peer_control -> Prop :=
  | sends_none : sends c c
  | sends_one c' type association epoch body wf now :
      sends c c' -> sends c (peer_control_send type association epoch body wf now c').2.
Definition only_sends {W} (message : option (W -> peer_control -> peer_sec_header -> list byte -> Z * peer_control * W)) : Prop :=
  forall f, message = Some f -> forall w c h body, sends c (f w c h body).1.2.

Section control.
  Context {W : Type} (sha256 : list byte -> option (list byte)).
  Context (message : option (W -> peer_control -> peer_sec_header -> list byte -> Z * peer_control * W)).
  Context (resolve : W -> list byte -> option (list byte) * W).
  (** The configuration the connection was made with. *)
  Context (cfg0 : peer_control_config).
  Context (Hsends : only_sends message).

(** The owner's callback with the messages it accepted. *)
Definition logged : Type := W * list (peer_sec_header * list byte).
Definition logging : option (logged -> peer_control -> peer_sec_header -> list byte -> Z * peer_control * logged) :=
  (fun f w c h body => let '(rc, c, w') := f w.1 c h body in
     (rc, c, (w', if rc =? 0 then w.2 ++ [(h, body)] else w.2))) <$> message.
Definition resolving (w : logged) (key : list byte) : option (list byte) * logged :=
  let '(r, w') := resolve w.1 key in (r, (w', w.2)).

(** What the owner can do with a connection. *)
Inductive control_call :=
  | CallProgress (t : control_turn) (now : Z)
  | CallSend (type : Z) (association : option (list byte)) (epoch : Z) (body : list byte) (wire_faulted : bool) (now : Z)
  | CallAuthority (generation deadline : Z) (wire_faulted : bool) (now : Z).
Definition control_exec (s : peer_control * logged) (call : control_call) : peer_control * logged :=
  let '(c, w) := s in
  match call with
  | CallProgress t now => let '(_, c, w) := peer_control_progress sha256 logging resolving t now c w in (c, w)
  | CallSend type association epoch body wf now => ((peer_control_send type association epoch body wf now c).2, w)
  | CallAuthority generation deadline wf now => ((peer_control_authority generation deadline wf now c).2, w)
  end.
Definition control_run (s : peer_control * logged) (calls : list control_call) : peer_control * logged :=
  fold_left control_exec calls s.

(** ** Invariant *)

Definition operations (w : logged) : list Z := sh_operation ∘ fst <$> w.2.
(** The accepted messages: in order, each once, all of the current session. *)
Definition log_ok (c : peer_control) (w : logged) : Prop :=
  StronglySorted Z.lt (operations w) /\ Forall (fun n => n <= pc_received c) (operations w) /\
  Forall (fun m => sh_session m.1 = pc_session c) w.2 /\ (w.2 <> [] -> pc_ready c = true).

(** The peer proved the key it is pinned to. *)
Definition pinned_to (tls : peer_tls_conn) (key : list byte) : Prop := tc_pinned tls = true /\ tc_peer_key tls = key.
(** The HELLO that made the session is the pinned node's. *)
Definition greeted (c : peer_control) : Prop :=
  let cfg := pc_config c in
  str_eq (he_cluster (pc_remote c)) (he_cluster (cc_local cfg)) = true /\
  str_eq (he_node (pc_remote c)) (cc_remote_node cfg) = true /\
  he_public_key (pc_remote c) = cc_remote_key cfg /\
  peer_sec_session_id sha256 (cc_local cfg) (pc_remote c) = Some (pc_session c).

Record live_control (c : peer_control) : Prop := LiveControl {
  k_faulted : pc_faulted c = false;
  k_tls : tc_faulted (pc_tls c) = false;
  k_pinned : tc_established (pc_tls c) = true -> pinned_to (pc_tls c) (cc_remote_key (pc_config c));
  k_ready : pc_ready c = true -> tc_established (pc_tls c) = true /\ greeted c;
  k_lease : pc_ready c = true -> pc_lease_deadline c <= after (pc_last_now c) (cc_control_lease_ns (pc_config c));
  k_queue : fifo_ok CONTROL_QUEUE (pc_queue c);
  k_config : unnamed (cc_remote_node cfg0) = false ->
    cc_remote_key (pc_config c) = cc_remote_key cfg0 /\ cc_remote_node (pc_config c) = cc_remote_node cfg0 }.

(** [goes] is kept by a part of a turn, [ended] by the whole of it. *)
Definition goes (now : Z) (c : peer_control) (w : logged) : Prop :=
  log_ok c w /\ live_control c /\ pc_last_now c = now.
Definition ended (c : peer_control) (w : logged) : Prop :=
  log_ok c w /\ (pc_faulted c = true \/ live_control c).
Definition turn_keeps (now : Z) (r : @cstep logged) : Prop :=
  match r with inl (_, c, w) => ended c w | inr (c, w) => goes now c w end.

Lemma keeps_then now r f :
  turn_keeps now r -> (forall c w, goes now c w -> turn_keeps now (f c w)) -> turn_keeps now (cthen r f).
Proof. destruct r as [[[rc c] w]|[c w]]; cbn; auto. Qed.

(** A fault turn_keeps what was accepted. *)
Lemma keeps_fault now c w : log_ok c w -> turn_keeps now (faults c w).
Proof. intros H. split; [exact H|]. by left. Qed.

(** Fields the invariant does not read. *)
Lemma goes_same now c c' w :
  goes now c w -> pc_config c' = pc_config c -> pc_remote c' = pc_remote c -> pc_tls c' = pc_tls c ->
  pc_lease_deadline c' = pc_lease_deadline c -> pc_last_now c' = pc_last_now c -> pc_received c' = pc_received c ->
  pc_session c' = pc_session c -> pc_faulted c' = pc_faulted c -> pc_ready c' = pc_ready c ->
  fifo_ok CONTROL_QUEUE (pc_queue c') -> goes now c' w.
Proof.
  intros (L & [K1 K2 K3 K4 K5 K6 K7] & N) E1 E2 E3 E4 E5 E6 E7 E8 E9 Q. unfold log_ok in L.
  split; [unfold log_ok; by rewrite E6, E7, E9|]. split; [|congruence].
  unfold greeted in *. rewrite <-?E1, <-?E2, <-?E3, <-?E4, <-?E5, <-?E7, <-?E9 in *.
  split; unfold greeted; try done. congruence.
Qed.

Lemma enqueue_queue type association epoch body c :
  fifo_ok CONTROL_QUEUE (pc_queue c) ->
  let '(rc, c') := enqueue type association epoch body c in
  fifo_ok CONTROL_QUEUE (pc_queue c') /\
  exists sent q, c' = (c <| pc_queue := q |>) <| pc_sent := sent |>.
Proof.
  intros Hq. unfold enqueue.
  assert (exists sent q, c = (c <| pc_queue := q |>) <| pc_sent := sent |>) as Hs by (exists (pc_sent c), (pc_queue c); by destruct c).
  destruct (_ || _); [done|]. destruct (Nat.eqb_spec (ff_count (pc_queue c)) CONTROL_QUEUE); [done|].
  destruct (peer_sec_header_encode _) as [h|]; [|done].
  split; [|by eexists _, _].
  apply fifo_push_ok; [done|]. destruct Hq as (_ & _ & _ & Hc & _). lia.
Qed.

Lemma goes_enqueue now type association epoch body c w :
  goes now c w -> goes now (enqueue type association epoch body c).2 w.
Proof.
  intros H. pose proof (enqueue_queue type association epoch body c) as E.
  destruct (enqueue type association epoch body c) as [rc c'].
  destruct E as (Q & sent & q & ->); [apply H|]. by apply (goes_same now c).
Qed.

Lemma goes_sends now c c' w : sends c c' -> goes now c w ->
  goes now c' w /\ exists sent q, c' = (c <| pc_queue := q |>) <| pc_sent := sent |>.
Proof.
  induction 1 as [|c' type association epoch body wf t _ IH]; intros G.
  - split; [done|]. exists (pc_sent c), (pc_queue c). by destruct c.
  - destruct (IH G) as (G' & sent & q & E). unfold peer_control_send. destruct (_ || _); [by eauto|].
    pose proof (goes_enqueue now type association epoch body c' w G') as G2.
    pose proof (enqueue_queue type association epoch body c' (k_queue _ (proj1 (proj2 G')))) as Q.
    destruct (enqueue type association epoch body c') as [rc c2]. destruct Q as (_ & sent2 & q2 & E2).
    split; [exact G2|]. exists sent2, q2. cbn [snd]. rewrite E2, E. by destruct c.
Qed.

(** ** Frames *)

(** Advancing the counter of received operations. *)
Lemma log_received c w n : log_ok c w -> pc_received c <= n -> log_ok (c <| pc_received := n |>) w.
Proof.
  intros (S & F & H & R) Hn. split_and!; [done| |done|done].
  eapply Forall_impl; [exact F|]. cbn. lia.
Qed.
Lemma goes_received now c w n : goes now c w -> pc_received c <= n -> goes now (c <| pc_received := n |>) w.
Proof. intros (L & K & N) Hn. split; [by apply log_received|]. split; [by destruct K|done]. Qed.

Lemma goes_greet now h body c w :
  goes now c w -> tc_established (pc_tls c) = true -> pc_ready c = false ->
  let '(rc, c') := control_greet sha256 h body now c in
  goes now c' w /\ pc_tls c' = pc_tls c /\ pc_received c' = pc_received c.
Proof.
  intros (L & [K1 K2 K3 K4 K5 K6 K7] & N) He Hr. unfold control_greet.
  assert (w.2 = []) as Hw.
  { destruct L as (_ & _ & _ & R). destruct w.2; [done|]. rewrite R in Hr by done. done. }
  destruct (_ || _); [by split_and!|]. destruct (peer_sec_hello_decode body) as [rc remote].
  set (c1 := c <| pc_remote := remote |>).
  assert (goes now c1 w) as G1.
  { split; [exact L|]. split; [|exact N]. split; try done; cbn; intros; congruence. }
  destruct (_ || _) eqn:Hg; [done|].
  rewrite !orb_false_iff, !negb_false_iff in Hg. destruct Hg as (((_ & Hcl) & Hnd) & Hk).
  destruct (peer_sec_session_id sha256 _ remote) as [session|] eqn:Es; [|done].
  split; [|done]. split.
  - unfold log_ok, operations. rewrite Hw. cbn. split_and!; constructor.
  - split; [|exact N]. split; try done; cbn.
    + intros _. split; [done|]. unfold greeted. cbn.
      split_and!; [exact Hcl|exact Hnd| |exact Es]. by apply bool_decide_eq_true in Hk.
    + intros _. cbn in N. rewrite N. done.
Qed.

Lemma goes_log now c w rc w' h body :
  goes now c w -> pc_ready c = true -> sh_session h = pc_session c -> sh_operation h = pc_received c + 1 ->
  w'.2 = (if rc =? 0 then w.2 ++ [(h, body)] else w.2) ->
  goes now (if rc =? 0 then c <| pc_received := sh_operation h |> else c) w'.
Proof.
  intros (L & K & N) Hr Hs Ho Hw.
  assert (log_ok (if rc =? 0 then c <| pc_received := sh_operation h |> else c) w').
  { destruct L as (S & F & H & R). unfold log_ok, operations in *. destruct (rc =? 0); rewrite Hw; [|done]. cbn.
    rewrite fmap_app. cbn. split_and!.
    - assert (forall l : list Z, StronglySorted Z.lt l -> Forall (fun n => n <= pc_received c) l ->
        StronglySorted Z.lt (l ++ [sh_operation h])) as Happ.
      { induction 1 as [|x l HS IH HF]; intros HA; cbn; [by repeat constructor|].
        inversion HA; subst. constructor; [by apply IH|]. apply Forall_app. split; [done|]. repeat constructor. lia. }
      by apply Happ.
    - apply Forall_app. split; [|repeat constructor; lia]. eapply Forall_impl; [exact F|]. cbn. lia.
    - apply Forall_app. by split; [|constructor].
    - done. }
  split; [done|]. destruct (rc =? 0); [|done]. split; [by destruct K|done].
Qed.

Lemma goes_frame now h body c w :
  goes now c w -> tc_established (pc_tls c) = true -> sh_operation h = pc_received c + 1 ->
  let '(rc, c', w') := control_receive sha256 logging h body now c w in
  goes now (if rc =? 0 then c' <| pc_received := sh_operation h |> else c') w' /\
  pc_tls c' = pc_tls c /\ pc_received c' = pc_received c.
Proof.
  intros G He Ho. unfold control_receive.
  assert (forall (rc : Z) c', goes now c' w -> pc_tls c' = pc_tls c -> pc_received c' = pc_received c ->
    goes now (if rc =? 0 then c' <| pc_received := sh_operation h |> else c') w /\
    pc_tls c' = pc_tls c /\ pc_received c' = pc_received c) as Hdone.
  { intros rc c' G' E1 E2. split; [|done]. destruct (rc =? 0); [|done]. apply goes_received; [done|lia]. }
  destruct (pc_ready c) eqn:Hr; cbn [negb].
  2: { pose proof (goes_greet now h body c w G He Hr) as H. destruct (control_greet _ _ _ _ _) as [rc c'].
       apply Hdone; apply H. }
  destruct (_ || _) eqn:Hg; [by apply Hdone|]. apply orb_false_iff in Hg as [_ Hs].
  apply negb_false_iff in Hs. apply bool_decide_eq_true in Hs.
  destruct (sh_type h =? PEER_SEC_PING).
  { pose proof (goes_enqueue now PEER_SEC_PONG None 0 (take 16 body) c w G) as G'.
    pose proof (enqueue_queue PEER_SEC_PONG None 0 (take 16 body) c) as E.
    destruct (enqueue _ _ _ _ c) as [rc c']. destruct E as (_ & sent & q & ->); [apply G|]. by apply Hdone. }
  destruct (sh_type h =? PEER_SEC_PONG).
  { destruct (_ || _); [by apply Hdone|]. apply Hdone; [|done..]. destruct G as (L & [K1 K2 K3 K4 K5 K6 K7] & N).
    split; [exact L|]. split; [|exact N]. split; try done. cbn. intros _. cbn in N. rewrite N. done. }
  unfold logging. destruct message as [f|]; cbn [fmap option_fmap option_map]; [|by apply Hdone].
  pose proof (Hsends f eq_refl w.1 c h body) as Hc. destruct (f w.1 c h body) as [[rc c1] w1].
  destruct (goes_sends now c c1 w Hc G) as (G1 & sent & q & E). subst c1. split; [|done].
  by apply (goes_log now _ w rc _ h body).
Qed.

Lemma goes_consume budget now c w :
  goes now c w -> tc_established (pc_tls c) = true ->
  let '(rc, c', w') := control_consume sha256 logging budget now c w in
  goes now c' w' /\ tc_established (pc_tls c') = true.
Proof.
  revert c w. induction budget as [|budget IH]; intros c w G He; cbn [control_consume]; [done|].
  destruct (peer_sec_header_decode (pc_plain c)) as [rc h]. destruct (rc <? 0); [done|].
  destruct (_ || _); [done|]. destruct (sha256 _) as [digest|]; [|done].
  destruct (negb _); [done|].
  destruct (Z.eqb_spec (sh_operation h) (pc_received c)).
  { destruct (negb _); [done|]. apply IH; [|done]. apply (goes_same now c); [done..|apply G]. }
  destruct (_ || _) eqn:Hg; [done|]. apply orb_false_iff in Hg as [_ Ho%negb_false_iff%Z.eqb_eq].
  pose proof (goes_frame now h (take (Z.to_nat (sh_body_len h)) (drop 64 (pc_plain c))) c w G He Ho) as H.
  destruct (control_receive _ _ _ _ _ _ _) as [[rc' c'] w']. destruct H as (G' & E1 & E2).
  destruct (rc' =? 0); cbn [negb]; [|by rewrite E1].
  apply IH; [|cbn; by rewrite E1]. eapply goes_same; [exact G'|done..|apply G'].
Qed.

(** ** Turns *)

(** A call on the session that reports no fault leaves it as it was. *)
Lemma goes_tls now c w tls : goes now c w -> tls = pc_tls c -> goes now (c <| pc_tls := tls |>) w.
Proof. intros G ->. apply (goes_same now c); [done..|apply G]. Qed.
Lemma log_of now c w : goes now c w -> log_ok c w.
Proof. by intros [L _]. Qed.

(** A fault after fields were set that the account does not read. *)
Ltac faulty := apply keeps_fault; match goal with G : goes _ _ _ |- _ => exact (log_of _ _ _ G) end.

Lemma keeps_receive t now c w : goes now c w -> turn_keeps now (turn_receive t c w).
Proof.
  intros G. unfold turn_receive. destruct (_ || _); [done|].
  destruct (tn_recv t) as [[|b bytes]|]; [done| |faulty].
  unfold peer_tls_in. destruct (tc_faulted (pc_tls c)); [faulty|].
  change (length (b :: bytes) =? 0)%nat with false. cbn iota.
  destruct (_ || _); [faulty|by apply goes_tls].
Qed.

(** Before the session is established nothing was greeted. *)
Lemma goes_unready now c w : goes now c w -> tc_established (pc_tls c) = false -> pc_ready c = false.
Proof.
  intros (_ & K & _) He. destruct (pc_ready c) eqn:Hr; [|done]. destruct (k_ready c K Hr) as [H _]. congruence.
Qed.

(** The whole of naming and pinning: either a fault, or the key the handshake
    proved is the one the configuration names. *)
Lemma keeps_handshake t now c w : goes now c w -> turn_keeps now (turn_handshake resolving t c w).
Proof.
  intros G. unfold turn_handshake, peer_tls_established. pose proof G as (L & [K1 K2 K3 K4 K5 K6 K7] & N).
  rewrite K2. destruct (tc_established (pc_tls c)) eqn:He; [done|]. cbn [andb negb].
  pose proof (goes_unready now c w G He) as Hr. unfold peer_tls_handshake. rewrite K2, He.
  destruct (tn_handshake t) as [[key|]| |]; cbn [Z.ltb Z.compare negb Z.eqb Pos.eqb].
  2: by apply keeps_fault.
  2: { apply goes_tls; [done|]. by destruct (pc_tls c). }
  2: by apply keeps_fault.
  set (tls := (pc_tls c) <| tc_peer_key := key |> <| tc_established := true |>).
  assert (forall c1 w1, log_ok c1 w1 -> pc_tls c1 = tls -> pc_faulted c1 = false -> pc_ready c1 = false ->
    pc_last_now c1 = now -> fifo_ok CONTROL_QUEUE (pc_queue c1) ->
    (unnamed (cc_remote_node cfg0) = false -> cc_remote_key (pc_config c1) = cc_remote_key cfg0 /\
       cc_remote_node (pc_config c1) = cc_remote_node cfg0) ->
    turn_keeps now (let '(rc, tls) := peer_tls_pin (pc_tls c1) (cc_remote_key (pc_config c1)) in
               let c := c1 <| pc_tls := tls |> in if negb (rc =? 0) then faults c w1 else inr (c, w1))) as Hpin.
  { intros c1 w1 L1 E1 E2 E3 E4 E5 E6. rewrite E1. unfold peer_tls_pin, peer_tls_established, tls. cbn. rewrite K2. cbn.
    unfold bytes_eq. case_bool_decide as Hk; cbn; [|by split; [exact L1|left]].
    split; [exact L1|]. split; [|exact E4]. split; try done; cbn; congruence. }
  unfold turn_resolve. destruct (unnamed (cc_remote_node (pc_config (c <| pc_tls := tls |>)))) eqn:Hu; cbn [negb cthen]; [|by apply Hpin].
  destruct (peer_tls_peer_key _) as [k|]; [|by apply keeps_fault].
  unfold resolving at 1. destruct (resolve w.1 k) as [[node|] w1]; [|by apply keeps_fault].
  destruct (_ || _); [by apply keeps_fault|]. apply Hpin; try done.
  intros Hn. destruct (K7 Hn) as [_ E]. cbn in Hu. rewrite E in Hu. congruence.
Qed.

Lemma keeps_hello now c w : goes now c w -> turn_keeps now (turn_hello c w).
Proof.
  intros G. unfold turn_hello. destruct (pc_hello_sent c); [done|].
  destruct (peer_sec_hello_encode _ _) as [body|]; [|faulty].
  pose proof (goes_enqueue now PEER_SEC_HELLO None 0 body c w G) as G'.
  destruct (enqueue _ _ _ _ c) as [rc c']. cbn [snd] in G'.
  destruct (negb _); [faulty|]. apply (goes_same now c'); [done..|apply G'].
Qed.

Lemma keeps_ping t now c w : goes now c w -> turn_keeps now (turn_ping t now c w).
Proof.
  intros G. unfold turn_ping. destruct (_ || _); [done|].
  destruct (tn_rand t) as [challenge|]; [|faulty].
  assert (goes now (c <| pc_challenge := challenge |>) w) as G1 by (apply (goes_same now c); [done..|apply G]).
  pose proof (goes_enqueue now PEER_SEC_PING None 0 challenge _ w G1) as G'.
  destruct (enqueue _ _ _ _ _) as [rc c']. cbn [snd] in G'.
  destruct (negb _); [faulty|]. apply (goes_same now c'); [done..|apply G'].
Qed.

Lemma keeps_consume now c w :
  goes now c w -> tc_established (pc_tls c) = true ->
  let '(rc, r) := turn_consume sha256 logging now c w in
  turn_keeps now r /\ match r with inr (c, _) => tc_established (pc_tls c) = true | _ => True end.
Proof.
  intros G He. unfold turn_consume. pose proof (goes_consume CONTROL_BUDGET now c w G He) as H.
  destruct (control_consume _ _ _ _ _ _) as [[rc c'] w']. destruct H as [G' He'].
  destruct (rc <? 0); [split; [faulty|done]|]. split; [|done].
  apply (goes_same now c'); [done..|apply G'].
Qed.

Lemma keeps_frames t now c w :
  goes now c w -> tc_established (pc_tls c) = true -> turn_keeps now (turn_frames sha256 logging t now c w).
Proof.
  intros G He. unfold turn_frames. pose proof (keeps_consume now c w G He) as H.
  destruct (turn_consume sha256 logging now c w) as [rc r]. destruct H as [K He'].
  destruct (negb _); [done|]. destruct r as [[[rc' c'] w']|[c' w']]; [done|]. cbn [cthen turn_keeps] in *.
  destruct (negb _); [done|]. unfold peer_tls_read.
  destruct (tc_faulted (pc_tls c')); [faulty|]. rewrite He'. cbn [negb orb].
  assert (forall bytes, turn_keeps now (turn_consume sha256 logging now
    ((c' <| pc_tls := pc_tls c' |>) <| pc_plain ::= fun old => old ++ bytes |>) w').2) as Hgo.
  { intros bytes. set (c2 := (c' <| pc_tls := pc_tls c' |>) <| pc_plain ::= fun old => old ++ bytes |>).
    assert (goes now c2 w') as G2 by (apply (goes_same now c'); [done..|apply K]).
    pose proof (keeps_consume now c2 w' G2 He') as H. destruct (turn_consume _ _ _ c2 w'). by destruct H. }
  destruct (_ =? 0); [by apply Hgo|].
  destruct (tn_read t); [apply Hgo|apply Hgo|]. faulty.
Qed.

Lemma keeps_session t now c w : goes now c w -> turn_keeps now (turn_session sha256 logging t now c w).
Proof.
  intros G. unfold turn_session. destruct (peer_tls_established (pc_tls c)) eqn:He; cbn [negb]; [|done].
  unfold peer_tls_established in He. apply andb_true_iff in He as [He _].
  assert (match turn_hello c w with inr (c, _) => tc_established (pc_tls c) = true | _ => True end) as Hh.
  { unfold turn_hello. destruct (pc_hello_sent c); [done|]. destruct (peer_sec_hello_encode _ _) as [body|]; [|done].
    pose proof (enqueue_queue PEER_SEC_HELLO None 0 body c) as E.
    destruct (enqueue _ _ _ _ c) as [rc c']. destruct E as (_ & sent & q & ->); [apply G|]. by destruct (negb _). }
  pose proof (keeps_hello now c w G) as K. destruct (turn_hello c w) as [[[rc c'] w']|[c' w']]; [done|].
  cbn [cthen turn_keeps] in *. apply keeps_then; [by apply keeps_frames|]. intros. by apply keeps_ping.
Qed.

Lemma keeps_cipher t now c w : goes now c w -> turn_keeps now (turn_cipher t c w).
Proof.
  intros G. unfold turn_cipher.
  assert (forall c', goes now c' w -> turn_keeps now (if (length (pc_cipher c') =? 0)%nat then inr (c', w)
    else if tn_send t <? 0 then faults c' w else if tn_send t =? 0 then inl (0, c', w)
    else inr (c' <| pc_cipher := [] |>, w))) as Hgo.
  { intros c' G'. destruct (_ =? 0)%nat; [done|]. destruct (_ <? 0); [faulty|].
    destruct (_ =? 0); [split; [apply G'|right; apply G']|]. apply (goes_same now c'); [done..|apply G']. }
  destruct (_ =? 0)%nat; [|by apply Hgo]. unfold peer_tls_out.
  destruct (tc_faulted (pc_tls c)); cbn [fmap option_fmap option_map]; [faulty|].
  apply Hgo. apply (goes_same now c); [done..|apply G].
Qed.

Lemma keeps_write t now c w : goes now c w -> turn_keeps now (turn_write t c w).
Proof.
  intros G. unfold turn_write. destruct (_ || _) eqn:Hg; [done|].
  apply orb_false_iff in Hg as [_ Hc%Nat.eqb_neq]. unfold peer_tls_write.
  destruct (_ || _); [faulty|].
  destruct (tn_write_taken t); [|faulty].
  destruct (fifo_pop_ok CONTROL_QUEUE (pc_queue c)) as (a & _ & _ & Hq); [apply G|lia|].
  by apply (goes_same now c).
Qed.

Lemma progress_keeps t now c w :
  ended c w -> let '(_, c', w') := peer_control_progress sha256 logging resolving t now c w in ended c' w'.
Proof.
  intros [L K]. unfold peer_control_progress. destruct (turn_expired t now c) eqn:Ht; [by split; [|left]|].
  unfold turn_expired, peer_control_faulted in Ht. rewrite !orb_false_iff in Ht.
  destruct Ht as ((((((Hf & _) & _) & Hl%Z.ltb_ge) & _) & _) & _).
  destruct K as [K|K]; [congruence|].
  set (c1 := c <| pc_last_now := now |>).
  assert (goes now c1 w) as G.
  { split; [exact L|]. split; [|done]. destruct K as [K1 K2 K3 K4 K5 K6 K7]. split; try done. cbn.
    intros Hr. specialize (K5 Hr). etrans; [exact K5|]. by apply after_mono. }
  destruct (tn_wire_established t); cbn [negb]; [|split; [exact L|right; apply G]].
  assert (turn_keeps now (cthen (cthen (cthen (cthen (turn_receive t c1 w) (turn_handshake resolving t))
    (turn_session sha256 logging t now)) (turn_cipher t)) (turn_write t))) as KP.
  { repeat (apply keeps_then; [|intros]); [by apply keeps_receive|by apply keeps_handshake|by apply keeps_session|
      by apply keeps_cipher|by apply keeps_write]. }
  destruct (cthen _ _) as [[[rc c'] w']|[c' w']]; [done|]. split; [apply KP|right; apply KP].
Qed.

(** ** Runs *)

Lemma exec_keeps s call : ended s.1 s.2 -> ended (control_exec s call).1 (control_exec s call).2.
Proof.
  destruct s as [c w]. cbn [fst snd]. intros H. destruct call as [t now|type association epoch body wf now|generation deadline wf now];
    cbn [control_exec].
  - pose proof (progress_keeps t now c w H) as P. by destruct (peer_control_progress _ _ _ _ _ _ _) as [[rc c'] w'].
  - unfold peer_control_send. destruct (_ || _) eqn:Hg; [done|].
    apply orb_false_iff in Hg as [[[Hr _]%orb_false_iff _]%orb_false_iff _]. apply negb_false_iff in Hr.
    destruct H as [L [Hf|K]].
    { unfold peer_control_ready, peer_control_faulted in Hr. rewrite Hf in Hr. done. }
    destruct (goes_enqueue (pc_last_now c) type association epoch body c w) as (L' & K' & _); [done|].
    split; [done|by right].
  - unfold peer_control_authority, peer_control_faulted. destruct (_ || _) eqn:Hg; [done|]. rewrite !orb_false_iff in Hg.
    destruct Hg as ((((((((Hf & _) & _) & Hl%Z.ltb_ge) & _) & _) & _) & _) & _).
    destruct H as [L [Hf'|K]]; [congruence|]. split; [exact L|right].
    destruct K as [K1 K2 K3 K4 K5 K6 K7]. split; try done. cbn. intros Hr. etrans; [by apply K5|]. by apply after_mono.
Qed.
Lemma run_keeps calls s : ended s.1 s.2 -> ended (control_run s calls).1 (control_run s calls).2.
Proof. revert s. induction calls as [|call calls IH]; intros s H; [done|]. apply IH, exec_keeps, H. Qed.

Lemma exec_faulted s call : pc_faulted s.1 = true -> pc_faulted (control_exec s call).1 = true.
Proof.
  destruct s as [c w]. cbn [fst]. intros Hf.
  destruct call as [t now|type association epoch body wf now|generation deadline wf now]; cbn [control_exec].
  - unfold peer_control_progress, turn_expired, peer_control_faulted. rewrite Hf. done.
  - unfold peer_control_send, peer_control_ready, peer_control_faulted. by rewrite Hf.
  - unfold peer_control_authority, peer_control_faulted. by rewrite Hf.
Qed.
Lemma run_faulted calls s : pc_faulted s.1 = true -> pc_faulted (control_run s calls).1 = true.
Proof. revert s. induction calls as [|call calls IH]; intros s H; [done|]. apply IH, exec_faulted, H. Qed.

Lemma new_ended can key nonce tls now c w :
  peer_control_new cfg0 can key nonce (Some tls) now = Some c -> tls_fresh tls -> ended c (w, []).
Proof.
  unfold peer_control_new. destruct (_ || _); [done|]. destruct nonce as [nonce|]; [|done].
  destruct (peer_sec_hello_encode _ _); [|done]. destruct (_ || _); [done|].
  set (lease := if cc_control_lease_ns cfg0 =? 0 then _ else _). destruct (lease <? 4); [done|].
  intros [= <-] (F1 & F2 & F3). split.
  - unfold log_ok, operations. cbn. split_and!; [constructor|constructor|constructor|done].
  - right. split; try done; cbn; try congruence. apply fifo_new_ok. unfold CONTROL_QUEUE. lia.
Qed.
End control.

(** A control session counts as ready only while it is authentic and leased. On any run of a connection whose message callback only queues messages on it, whatever the carrier, OpenSSL and the peer do, whenever [peer_control_ready] holds the TLS session is established and pinned to the key its peer proved; that key, the configured one when the configuration names the node, is the one in the HELLO received; the HELLO names the pinned node and the local cluster; the session id is the one both HELLOs determine; and the time is before the authority deadline and before a lease that reaches at most the configured duration beyond the last turn. A connection that faulted is never ready again. *)
Lemma ready_authentic {W} sha256 message resolve cfg can key nonce tls start c (w : W) calls :
  only_sends message -> peer_control_new cfg can key nonce (Some tls) start = Some c -> tls_fresh tls ->
  let s := control_run sha256 message resolve (c, (w, [])) calls in
  let cfg' := pc_config s.1 in
  (forall wire_faulted now, peer_control_ready s.1 wire_faulted now = true ->
     peer_tls_established (pc_tls s.1) = true /\ pinned_to (pc_tls s.1) (cc_remote_key cfg') /\
     (unnamed (cc_remote_node cfg) = false ->
        cc_remote_key cfg' = cc_remote_key cfg /\ cc_remote_node cfg' = cc_remote_node cfg) /\
     greeted sha256 s.1 /\ now < cc_authority_deadline_ns cfg' /\
     now < pc_lease_deadline s.1 <= after (pc_last_now s.1) (cc_control_lease_ns cfg')) /\
  (pc_faulted s.1 = true -> forall calls' wire_faulted now,
     peer_control_ready (control_run sha256 message resolve s calls').1 wire_faulted now = false).
Proof.
  intros Hsends Hnew Hfresh s cfg'. split.
  - pose proof (new_ended sha256 cfg can key nonce tls start c w Hnew Hfresh) as H.
    apply (run_keeps sha256 message resolve cfg Hsends calls (c, (w, []))) in H. fold s in H.
    intros wf now Hr. unfold peer_control_ready, peer_control_faulted in Hr.
    rewrite !andb_true_iff, negb_true_iff, !orb_false_iff in Hr.
    destruct Hr as ((((((Hf & Ht) & _) & Hr) & _) & Hl%Z.ltb_lt) & Ha%Z.ltb_lt).
    destruct H as [_ [H|[K1 K2 K3 K4 K5 K6 K7]]]; [congruence|]. destruct (K4 Hr) as [He Hg].
    unfold peer_tls_established. rewrite He, K2. split; [done|]. split; [by apply K3|]. split; [exact K7|].
    split; [exact Hg|]. split; [exact Ha|]. split; [exact Hl|by apply K5].
  - intros Hf calls' wf now. unfold peer_control_ready, peer_control_faulted.
    by rewrite (run_faulted sha256 message resolve calls' s Hf).
Qed.

(** The header [enqueue] gives the next frame. *)
Definition next_header (type : Z) (association : list byte) (epoch : Z) (body : list byte) (c : peer_control) : peer_sec_header :=
  SecHeader type (Z.of_nat (length body)) (pc_session c) (pc_sent c + 1) association epoch.
(** A receiver that took one whole frame of [len] bytes. *)
Definition took (h : peer_sec_header) (digest : list byte) (len : nat) (c : peer_control) : peer_control :=
  ((c <| pc_received := sh_operation h |>) <| pc_last_digest := digest |>) <| pc_plain ::= drop len |>.

(** What one end sends the other receives. When [peer_control_send] takes a message, exactly one frame is appended to the queue; when that frame arrives, followed by anything, at the other end of the same session, which has received as many frames as were sent before, [control_consume] hands the owner exactly the header and body that were sent, and goes on behind the frame, or stops with the owner's status. *)
Lemma control_delivers {W} sha256 (f : W -> peer_control -> peer_sec_header -> list byte -> Z * peer_control * W) type association epoch body wf sent_at p p' c rest digest n now w :
  peer_control_send type (Some association) epoch body wf sent_at p = (1, p') -> fifo_ok CONTROL_QUEUE (pc_queue p) ->
  let h := next_header type association epoch body p in
  header_wf h -> pc_ready c = true -> pc_session c = pc_session p -> pc_received c = pc_sent p ->
  exists frame, contents CONTROL_QUEUE (pc_queue p') = contents CONTROL_QUEUE (pc_queue p) ++ [frame] /\
    (sha256 frame = Some digest -> length digest = 32%nat -> pc_plain c = frame ++ rest ->
     control_consume sha256 (Some f) (S n) now c w =
       let '(rc, c', w') := f w c h body in
       if rc =? 0 then control_consume sha256 (Some f) n now (took h digest (length frame) c') w' else (rc, c', w')).
Proof.
  intros He Hq h Hw Hr Hs Hrec. unfold peer_control_send in He. destruct (negb _ || _ || _ || _) eqn:Hty; [done|].
  rewrite !orb_false_iff, !Z.eqb_neq in Hty. destruct Hty as [[[_ T1] T2] T3].
  assert (pc_sent p < UINT64_MAX) as Hmax by (destruct Hw as (_ & _ & _ & [_ Hm] & _); cbn in Hm; unfold UINT64_MAX; lia).
  unfold enqueue in He.
  destruct (_ || _) eqn:Hg; [done|]. destruct (Nat.eqb_spec (ff_count (pc_queue p)) CONTROL_QUEUE); [done|].
  apply orb_false_iff in Hg as [Hlen%Z.ltb_ge _].
  rewrite (proj2 (Z.eqb_neq type PEER_SEC_HELLO) T1) in He. cbn [default from_option id] in He. fold (next_header type association epoch body p) in He. fold h in He.
  destruct (header_valid h) eqn:Hv; [|unfold peer_sec_header_encode in He; rewrite Hv in He; done].
  rewrite (header_encode_fmt h Hw Hv) in He. injection He as <-.
  exists (header_fmt h ++ body). split.
  { apply (fifo_push_ok CONTROL_QUEUE (header_fmt h ++ body) (pc_queue p)); [done|].
    destruct Hq as (_ & _ & _ & Hc & _). lia. }
  intros Hd Hdl Hp. cbn [control_consume]. rewrite Hp, <-app_assoc, (header_decode_fmt h _ Hw Hv).
  cbn [Z.ltb Z.compare]. pose proof (length_header_fmt h Hw) as Hh.
  assert (Z.to_nat (sh_body_len h) = length body) as Hb by (cbn; lia). rewrite Hb.
  rewrite !length_app, Hh, (proj2 (Nat.ltb_ge _ _)) by lia. cbn [orb].
  assert (take (64 + length body) (header_fmt h ++ body ++ rest) = header_fmt h ++ body) as ->.
  { rewrite app_assoc. apply take_app_length'. rewrite length_app, Hh. done. }
  rewrite Hd, Hdl. cbn [Nat.eqb negb].
  rewrite (proj2 (Z.eqb_neq (sh_operation h) (pc_received c))) by (cbn; lia).
  rewrite (proj2 (Z.eqb_neq (pc_received c) UINT64_MAX)) by lia.
  replace (sh_operation h =? pc_received c + 1) with true by (symmetry; apply Z.eqb_eq; cbn; lia). cbn [orb negb].
  rewrite drop_app_length' by done. rewrite take_app_length.
  unfold control_receive. rewrite Hr. cbn [negb sh_type].
  change (sh_type h) with type. rewrite (proj2 (Z.eqb_neq type _) T1), (proj2 (Z.eqb_neq type _) T2), (proj2 (Z.eqb_neq type _) T3).
  assert (bytes_eq (sh_session h) (pc_session c) = true) as -> by (apply bool_decide_eq_true; by rewrite Hs).
  cbn [orb negb]. destruct (f w c h body) as [[rc c'] w']. destruct (rc =? 0); cbn [negb]; done.
Qed.

(** Messages of the peer reach the owner at most once and in order. On any run of a connection the messages its owner's callback accepted have strictly increasing operation numbers, none beyond the number last received, and all carry the id of the current session: no message is accepted twice, out of order, before the session is named, or from another session, whatever the peer sends and however often a message is retried. *)
Lemma accepted_in_order {W} sha256 message resolve cfg can key nonce tls start c (w : W) calls :
  only_sends message -> peer_control_new cfg can key nonce (Some tls) start = Some c -> tls_fresh tls ->
  let s := control_run sha256 message resolve (c, (w, [])) calls in
  StronglySorted Z.lt (operations s.2) /\
  Forall (fun m => sh_operation m.1 <= pc_received s.1 /\ sh_session m.1 = pc_session s.1) s.2.2 /\
  (s.2.2 <> [] -> pc_ready s.1 = true).
Proof.
  intros Hsends Hnew Hfresh s. pose proof (new_ended sha256 cfg can key nonce tls start c w Hnew Hfresh) as H.
  apply (run_keeps sha256 message resolve cfg Hsends calls (c, (w, []))) in H. fold s in H.
  destruct H as [(S & F & E & R) _]. split; [done|]. split; [|done].
  unfold operations in F. rewrite Forall_fmap in F. apply Forall_and. split; done.
Qed.

(** C21: A control session is authentic, leased and in order.  On any run of a connection,
    whatever the carrier, OpenSSL and the peer do, and whatever the owner's
    callbacks do short of touching the connection other than by queueing messages
    on it ([only_sends]), whenever
    [peer_control_ready] holds the TLS session is established and pinned to the
    key its peer proved; that key, the configured one when the configuration names
    the node, is the one in the HELLO received; the HELLO names the pinned node
    and the local cluster; the session id is the one both HELLOs determine; and
    the time is before the authority deadline and before a lease that reaches at
    most the configured duration beyond the last turn.  A connection that faulted
    is never ready again.  The messages the owner's callback accepted have
    strictly increasing operation numbers, none beyond the number last received,
    and all carry the id of the current session: no message is accepted twice, out
    of order, before the session is named, or from another session, whatever the
    peer sends and however often a message is retried. *)
Theorem control_ready_authentic {W} sha256 message resolve cfg can key nonce tls start c (w : W) calls :
  only_sends message -> peer_control_new cfg can key nonce (Some tls) start = Some c -> tls_fresh tls ->
  let s := control_run sha256 message resolve (c, (w, [])) calls in
  let cfg' := pc_config s.1 in
  (forall wire_faulted now, peer_control_ready s.1 wire_faulted now = true ->
     peer_tls_established (pc_tls s.1) = true /\ pinned_to (pc_tls s.1) (cc_remote_key cfg') /\
     (unnamed (cc_remote_node cfg) = false ->
        cc_remote_key cfg' = cc_remote_key cfg /\ cc_remote_node cfg' = cc_remote_node cfg) /\
     greeted sha256 s.1 /\ now < cc_authority_deadline_ns cfg' /\
     now < pc_lease_deadline s.1 <= after (pc_last_now s.1) (cc_control_lease_ns cfg')) /\
  (pc_faulted s.1 = true -> forall calls' wire_faulted now,
     peer_control_ready (control_run sha256 message resolve s calls').1 wire_faulted now = false) /\
  StronglySorted Z.lt (operations s.2) /\
  Forall (fun m => sh_operation m.1 <= pc_received s.1 /\ sh_session m.1 = pc_session s.1) s.2.2 /\
  (s.2.2 <> [] -> pc_ready s.1 = true).
Proof.
  intros Hsends Hnew Hfresh s cfg'. destruct (ready_authentic sha256 message resolve cfg can key nonce tls start c w calls Hsends Hnew Hfresh) as [H1 H2].
  split; [exact H1|]. split; [exact H2|]. exact (accepted_in_order sha256 message resolve cfg can key nonce tls start c w calls Hsends Hnew Hfresh).
Qed.

(** ** A session between two nodes *)

Definition session_sha (buf : list byte) : option (list byte) := Some (take 32 (drop 20 buf ++ repeat x01 32)).
(** An owner that answers a message with an ERROR of its own. *)
Definition demo_message (w : nat) (c : peer_control) (h : peer_sec_header) (body : list byte) : Z * peer_control * nat :=
  (0, (peer_control_send PEER_SEC_ERROR (Some (sh_association h)) 1 [x00; x05] false 2 c).2, S w).
Lemma demo_message_sends : only_sends (Some demo_message).
Proof. intros f [= <-] w c h body. apply sends_one, sends_none. Qed.
Definition demo_resolve (w : nat) (key : list byte) : option (list byte) * nat := (None, w).
Definition demo_local (n : Z) : peer_sec_hello :=
  SecHello (sample_name PEER_SEC_CLUSTER_MAX [99]) (sample_name PEER_SEC_NAME_MAX [110; 48 + n])
    (sample_key (1 + n)) (sample_id 7) (sample_id 1) 4.
Definition demo_config (n : Z) : peer_control_config :=
  ControlConfig (demo_local n) (he_node (demo_local (1 - n))) (he_public_key (demo_local (1 - n))) (100 * SECOND_NS) 0 0.
Definition demo_tls (n : Z) : peer_tls_conn := fresh_tls (fun _ _ => None) (sample_key (1 + n)).
Definition demo_end (n : Z) : option peer_control :=
  peer_control_new (demo_config n) false (sample_key (1 + n)) (Some (sample_id (5 + n))) (Some (demo_tls n)) 1.
(** A turn in which OpenSSL reads [bytes]. *)
Definition session_turn (n : Z) (bytes : list byte) : control_call :=
  CallProgress (Turn false true (Some [x01]) true false (HsDone (Some (sample_key (2 - n)))) (TlsBytes bytes)
    (Some (sample_id 6)) [] 1 true false) 2.
(** The frame [session_run n] wrote last. *)
Definition written (c : peer_control) : list byte := default [] (fifo_first (pc_queue c)).
Definition session_run (n : Z) (calls : list control_call) : peer_control * logged :=
  match demo_end n with
  | Some c => control_run session_sha (Some demo_message) demo_resolve (c, (0%nat, [])) calls
  | None => (Control (demo_config n) zero_hello (demo_tls n) 0 0 0 0 0 0 0 [] [] [] true false false false false (fifo_new CONTROL_QUEUE) [] [], (0%nat, []))
  end.
(** The first frame each end queues: its HELLO. *)
Definition demo_greeting (n : Z) : list byte :=
  match demo_end n with
  | Some c =>
    match peer_sec_hello_encode (cc_local (pc_config c)) 1024 with
    | Some body => written (enqueue PEER_SEC_HELLO None 0 body c).2
    | None => []
    end
  | None => []
  end.
Definition demo_greeted (n : Z) : list control_call := [session_turn n (demo_greeting (1 - n))].
(** An end that greeted, pinged and sent one ERROR message. *)
Definition demo_sender : peer_control * logged :=
  session_run 1 (demo_greeted 1 ++ [CallSend PEER_SEC_ERROR (Some (sample_id 4)) 1 [x00; x01] false 2]).
Definition demo_frames : list byte := concat (contents CONTROL_QUEUE (pc_queue demo_sender.1)).
Definition control_demo_calls : list control_call := demo_greeted 0 ++ [session_turn 0 demo_frames].

Lemma control_ready_authentic_witness :
  exists c, demo_end 0 = Some c /\
    (let s := control_run session_sha (Some demo_message) demo_resolve (c, (0%nat, [])) (demo_greeted 0) in
     peer_control_ready s.1 false 3 = true /\ greeted session_sha s.1) /\
    let s := control_run session_sha (Some demo_message) demo_resolve (c, (0%nat, [])) control_demo_calls in
    length s.2.2 = 1%nat /\ StronglySorted Z.lt (operations s.2).
Proof.
  eexists. split; [vm_compute; reflexivity|]. cbv zeta.
  match goal with |- context [control_run _ _ _ (?c, _) (demo_greeted 0)] =>
    pose proof (fun calls => control_ready_authentic session_sha (Some demo_message) demo_resolve (demo_config 0) false (sample_key 1)
      (Some (sample_id 5)) (demo_tls 0) 1 c 0%nat calls demo_message_sends ltac:(vm_compute; reflexivity) ltac:(repeat split; vm_compute; reflexivity)) as H end.
  split.
  - assert (forall P Q : Prop, P -> (P -> Q) -> P /\ Q) as both by tauto. apply both; [vm_compute; reflexivity|].
    intros E. apply (proj1 (H (demo_greeted 0)) _ _ E).
  - split; [vm_compute; reflexivity|]. exact (proj1 (proj2 (proj2 (H control_demo_calls)))).
Defined.
