(* ===== verification/PeerFrame.v ===== *)
(** * Frames between two DPUs ([doca/peer_channel.{h,c}], wire part)

    The refusal codes, the framing header and the payload structures of the
    DPU-to-DPU channel.  A structure that crosses the wire by [memcpy] is its
    in-memory image: little-endian fields at the offsets of the C layout, whose
    size the header file asserts. *)

From S2P Require Import Prelude Cursor PeerIdentity.

(** ** Parameters *)

Definition DMESH_CHANNEL_IDLE_NS : Z := 60 * 1000000000.
Definition DMESH_CHANNEL_MAX : Z := 256.
Definition DMESH_PEER_STREAMS_MAX : Z := 4096.
Definition DMESH_PEER_STAGING_MAX : Z := 16 * 1024 * 1024.
Definition DMESH_PEER_OPEN_RATE : Z := 1000.
Definition DMESH_PEER_TX_INFLIGHT_MAX : Z := 16 * 1024 * 1024.
Definition DMESH_STREAM_ACK_BATCH : Z := 64.
Definition DMESH_PEER_TX_SLOTS : Z := 8192.
Definition DMESH_PEER_TX_NIL : Z := 0xFFFFFFFF.
Definition DMESH_PEER_HANDLE_OWNER_BIT : Z := 0x80000000.
Definition DMESH_PEER_HANDLE_INDEX_MASK : Z := 0x1FFF.
Definition DMESH_PEER_EXTENT_MAX : Z := 64 * 1024.
Definition DMESH_PEER_FRAME_MAX : Z := DMESH_PEER_EXTENT_MAX + 64.
Definition DMESH_PEER_WIRE_VERSION : Z := 1.
(** [sizeof(struct dmesh_peer_msg_header)] and its largest frame. *)
Definition HEADER_LEN : Z := 16.
Definition FRAME_CAP : Z := HEADER_LEN + DMESH_PEER_FRAME_MAX.

(** [enum dmesh_peer_msg_type] *)
Definition DMESH_PEER_MSG_INVALID : Z := 0.
Definition DMESH_PEER_MSG_STREAM_OPEN : Z := 1.
Definition DMESH_PEER_MSG_STREAM_OPEN_ACK : Z := 2.
Definition DMESH_PEER_MSG_STREAM_FIN : Z := 3.
Definition DMESH_PEER_MSG_STREAM_ACK : Z := 4.
Definition DMESH_PEER_MSG_POD_GONE : Z := 5.
Definition DMESH_PEER_MSG_DATA : Z := 6.

Inductive dmesh_peer_refusal :=
  | OK | REFUSE_INCARNATION | REFUSE_STATE | REFUSE_MALFORMED | REFUSE_NOT_ON_PEER
  | REFUSE_NO_POD | REFUSE_STREAMS | REFUSE_STAGING | REFUSE_RATE | REFUSE_HANDLE
  | REFUSE_INFLIGHT | REFUSE_NODE_UNBOUND | REFUSE_NODE_KEY | REFUSE_TRANSPORT
  | REFUSE_PAIR | REFUSE_REGISTRATION.
#[export] Instance refusal_eq_dec : EqDecision dmesh_peer_refusal.
Proof. solve_decision. Defined.
Definition REFUSE_MAX : Z := 16.
Definition refusal_code (r : dmesh_peer_refusal) : Z :=
  match r with
  | OK => 0 | REFUSE_INCARNATION => 1 | REFUSE_STATE => 2 | REFUSE_MALFORMED => 3
  | REFUSE_NOT_ON_PEER => 4 | REFUSE_NO_POD => 5 | REFUSE_STREAMS => 6 | REFUSE_STAGING => 7
  | REFUSE_RATE => 8 | REFUSE_HANDLE => 9 | REFUSE_INFLIGHT => 10 | REFUSE_NODE_UNBOUND => 11
  | REFUSE_NODE_KEY => 12 | REFUSE_TRANSPORT => 13 | REFUSE_PAIR => 14
  | REFUSE_REGISTRATION => 15
  end.
Definition ok (r : dmesh_peer_refusal) : bool := match r with OK => true | _ => false end.

(** ** Structures *)

Record dmesh_peer_msg_header := MsgHeader {
  mh_type : Z; mh_version : Z; mh_reserved : Z; mh_length : Z;
  mh_incarnation : Z; mh_handle : Z }.

Record dmesh_peer_stream_open := StreamOpen {
  so_src_pod_uid : list byte; so_dst_pod_uid : list byte; so_src_service_key : list byte;
  so_dst_port : Z; so_reserved : Z; so_source_token : Z; so_src_generation : Z }.

Record dmesh_peer_stream_open_ack := OpenAck {
  oa_source_token : Z; oa_handle : Z; oa_status : Z; oa_reserved : Z }.

Record dmesh_peer_data_prefix := DataPrefix { px_seq : Z; px_reserved : Z }.

Record dmesh_peer_ack_entry := AckEntry {
  ae_handle : Z; ae_seq_first : Z; ae_seq_count : Z; ae_reserved : Z }.
#[export] Instance eta_ack_entry : Eta dmesh_peer_ack_entry := fun e =>
  AckEntry (ae_handle e) (ae_seq_first e) (ae_seq_count e) (ae_reserved e).

(** The field of [w] bytes at offset [off] of a structure's image. *)
Definition field (off w : nat) (bs : list byte) : list byte := take w (drop off bs).
Definition num_field (off w : nat) (bs : list byte) : Z := le_num (field off w bs).

Definition header_image (h : dmesh_peer_msg_header) : list byte :=
  le_bytes 1 (mh_type h) ++ le_bytes 1 (mh_version h) ++ le_bytes 2 (mh_reserved h) ++
  le_bytes 4 (mh_length h) ++ le_bytes 4 (mh_incarnation h) ++ le_bytes 4 (mh_handle h).
Definition header_of (bs : list byte) : dmesh_peer_msg_header :=
  MsgHeader (num_field 0 1 bs) (num_field 1 1 bs) (num_field 2 2 bs)
    (num_field 4 4 bs) (num_field 8 4 bs) (num_field 12 4 bs).

Definition SERVICE_KEY_MAX : nat := DMESH_K8S_NAMESPACE_MAX + DMESH_SVC_NAME_MAX.
Definition OPEN_LEN : Z := 272.
Definition open_image (o : dmesh_peer_stream_open) : list byte :=
  so_src_pod_uid o ++ so_dst_pod_uid o ++ so_src_service_key o ++
  le_bytes 2 (so_dst_port o) ++ le_bytes 2 (so_reserved o) ++
  le_bytes 4 (so_source_token o) ++ le_bytes 8 (so_src_generation o).
Definition open_of (bs : list byte) : dmesh_peer_stream_open :=
  StreamOpen (field 0 64 bs) (field 64 64 bs) (field 128 128 bs)
    (num_field 256 2 bs) (num_field 258 2 bs) (num_field 260 4 bs) (num_field 264 8 bs).

(** [status] is a signed field: its image is the two's complement. *)
Definition s32 (z : Z) : Z := if z <? 2 ^ 31 then z else z - 2 ^ 32.
Definition OPEN_ACK_LEN : Z := 16.
Definition open_ack_image (a : dmesh_peer_stream_open_ack) : list byte :=
  le_bytes 4 (oa_source_token a) ++ le_bytes 4 (oa_handle a) ++
  le_bytes 4 (u32 (oa_status a)) ++ le_bytes 4 (oa_reserved a).
Definition open_ack_of (bs : list byte) : dmesh_peer_stream_open_ack :=
  OpenAck (num_field 0 4 bs) (num_field 4 4 bs) (s32 (num_field 8 4 bs)) (num_field 12 4 bs).

Definition PREFIX_LEN : Z := 8.
Definition prefix_image (p : dmesh_peer_data_prefix) : list byte :=
  le_bytes 4 (px_seq p) ++ le_bytes 4 (px_reserved p).
Definition prefix_of (bs : list byte) : dmesh_peer_data_prefix :=
  DataPrefix (num_field 0 4 bs) (num_field 4 4 bs).

Definition ACK_ENTRY_LEN : Z := 16.
Definition ack_entry_image (e : dmesh_peer_ack_entry) : list byte :=
  le_bytes 4 (ae_handle e) ++ le_bytes 4 (ae_seq_first e) ++
  le_bytes 4 (ae_seq_count e) ++ le_bytes 4 (ae_reserved e).
Definition ack_entry_of (bs : list byte) : dmesh_peer_ack_entry :=
  AckEntry (num_field 0 4 bs) (num_field 4 4 bs) (num_field 8 4 bs) (num_field 12 4 bs).
(** [count] consecutive entries of a payload. *)
Fixpoint ack_entries_of (count : nat) (bs : list byte) : list dmesh_peer_ack_entry :=
  match count with
  | O => []
  | S n => ack_entry_of (take 16 bs) :: ack_entries_of n (drop 16 bs)
  end.

Definition POD_GONE_LEN : Z := 64.

(** ** Names in fixed-size fields *)

Fixpoint text_scan (i : nat) (field : list byte) : bool :=
  match field with
  | [] => false
  | b :: rest => if b2z b =? 0 then (0 <? i)%nat else text_scan (S i) rest
  end.
Definition peer_text_ok (field : list byte) : bool := text_scan 0 field.

Lemma text_scan_spec i field :
  text_scan i field = true <-> (length (cstr field) < length field)%nat /\ (0 < i + length (cstr field))%nat.
Proof.
  revert i. induction field as [|b rest IH]; intros i; cbn [text_scan cstr length]; [lia|].
  destruct (b2z b =? 0); cbn [length].
  - rewrite Nat.ltb_lt. lia.
  - rewrite IH. lia.
Qed.

(** A field is a name when it is not empty and is terminated inside its bound. *)
Lemma peer_text_ok_spec field :
  peer_text_ok field = true <-> cstr field <> [] /\ (length (cstr field) < length field)%nat.
Proof.
  unfold peer_text_ok. rewrite text_scan_spec. destruct (cstr field); cbn; split; intros H.
  - lia.
  - by destruct H.
  - split; [done|lia].
  - lia.
Qed.

(** ** Parsing and building frames *)

Inductive parsed := Incomplete | Malformed | Frame (h : dmesh_peer_msg_header) (payload : list byte).

Definition dmesh_peer_frame_parse (buf : list byte) : parsed :=
  if Z.of_nat (length buf) <? HEADER_LEN then Incomplete
  else
    let header := header_of buf in
    if negb (mh_version header =? DMESH_PEER_WIRE_VERSION) ||
       (mh_type header =? DMESH_PEER_MSG_INVALID) || (DMESH_PEER_MSG_DATA <? mh_type header) ||
       negb (mh_reserved header =? 0) || (DMESH_PEER_FRAME_MAX <? mh_length header)
    then Malformed
    else if Z.of_nat (length buf) <? HEADER_LEN + mh_length header then Incomplete
    else Frame header (take (Z.to_nat (mh_length header)) (drop (Z.to_nat HEADER_LEN) buf)).

(** The bytes a whole frame takes. *)
Definition frame_size (h : dmesh_peer_msg_header) : Z := HEADER_LEN + mh_length h.

Definition dmesh_peer_frame_build (out_len : Z) (type incarnation handle : Z)
    (payload : list byte) : option (list byte) :=
  let payload_len := Z.of_nat (length payload) in
  if (type =? DMESH_PEER_MSG_INVALID) || (DMESH_PEER_MSG_DATA <? type) || (incarnation =? 0) ||
     (DMESH_PEER_FRAME_MAX <? payload_len) || (out_len <? HEADER_LEN + payload_len)
  then None
  else Some (header_image (MsgHeader type DMESH_PEER_WIRE_VERSION 0 payload_len incarnation handle)
               ++ payload).

(** ** Frames: images, round trips and stability of the parser *)

(** ** Fields of concatenations *)

Lemma field_skip off w a b :
  (length a <= off)%nat -> field off w (a ++ b) = field (off - length a) w b.
Proof. intros H. unfold field. by rewrite drop_app_ge by done. Qed.

Lemma field_head w a b : length a = w -> field 0 w (a ++ b) = a.
Proof. intros <-. unfold field. by rewrite drop_0, take_app_length. Qed.

Lemma field_whole w a : length a = w -> field 0 w a = a.
Proof. intros <-. unfold field. by rewrite drop_0, firstn_all. Qed.

Lemma field_app off w1 w2 bs : field off w1 bs ++ field (off + w1) w2 bs = field off (w1 + w2) bs.
Proof. unfold field. rewrite <-drop_drop. apply (take_take_drop (drop off bs)). Qed.

Lemma field_prefix off w bs more :
  (off + w <= length bs)%nat -> field off w (bs ++ more) = field off w bs.
Proof.
  intros H. unfold field. rewrite drop_app_le by lia. apply take_app_le.
  rewrite length_drop. lia.
Qed.

Lemma length_field off w bs : (off + w <= length bs)%nat -> length (field off w bs) = w.
Proof. intros H. unfold field. rewrite length_take, length_drop. lia. Qed.

Lemma le_bytes_field off w bs :
  (w <= 8)%nat -> (off + w <= length bs)%nat -> le_bytes w (num_field off w bs) = field off w bs.
Proof.
  intros Hw Hl. pose proof (length_field off w bs Hl) as Hf. unfold num_field.
  rewrite <-Hf at 1. apply le_bytes_le_num. lia.
Qed.

Lemma num_field_width off w bs :
  (w <= 8)%nat -> (off + w <= length bs)%nat -> in_width (8 * Z.of_nat w) (num_field off w bs).
Proof. intros Hw Hl. apply le_num_width; [done|]. by apply length_field. Qed.

Lemma num_field_head w n b :
  (w <= 8)%nat -> in_width (8 * Z.of_nat w) n -> num_field 0 w (le_bytes w n ++ b) = n.
Proof.
  intros Hw Hn. unfold num_field. rewrite field_head by apply length_le_bytes.
  by apply le_num_le_bytes.
Qed.

Lemma num_field_skip off w w' n b :
  (w' <= off)%nat -> num_field off w (le_bytes w' n ++ b) = num_field (off - w') w b.
Proof.
  intros H. unfold num_field. rewrite field_skip by (by rewrite length_le_bytes).
  by rewrite length_le_bytes.
Qed.

(** Reads the fields of a structure out of its image. *)
Ltac nat_norm :=
  repeat match goal with
  | |- context [Nat.sub ?a ?b] => let c := eval vm_compute in (Nat.sub a b) in
                                  change (Nat.sub a b) with c
  end.
Ltac read_fields :=
  repeat (first
    [ rewrite num_field_head by (lia || assumption)
    | rewrite num_field_skip by lia; nat_norm ]).

(** ** Headers *)

Definition frame_header_wf (h : dmesh_peer_msg_header) : Prop :=
  in_width 8 (mh_type h) /\ in_width 8 (mh_version h) /\ in_width 16 (mh_reserved h) /\
  in_width 32 (mh_length h) /\ in_width 32 (mh_incarnation h) /\ in_width 32 (mh_handle h).

Lemma length_header_image h : length (header_image h) = 16%nat.
Proof. unfold header_image. by rewrite !length_app, !length_le_bytes. Qed.

Lemma header_of_image h rest : frame_header_wf h -> header_of (header_image h ++ rest) = h.
Proof.
  intros (H1 & H2 & H3 & H4 & H5 & H6). unfold header_of, header_image. rewrite <-!app_assoc.
  read_fields. by destruct h.
Qed.

Lemma header_image_of bs : (16 <= length bs)%nat -> header_image (header_of bs) = take 16 bs.
Proof.
  intros Hl. unfold header_image, header_of; cbn [mh_type mh_version mh_reserved mh_length mh_incarnation mh_handle].
  rewrite !le_bytes_field by lia.
  rewrite (field_app 8 4 4), (field_app 4 4 (4 + 4)), (field_app 2 2 (4 + (4 + 4))),
    (field_app 1 1 (2 + (4 + (4 + 4)))), (field_app 0 1). unfold field. by rewrite drop_0.
Qed.

Lemma header_of_wf bs : (16 <= length bs)%nat -> frame_header_wf (header_of bs).
Proof.
  intros Hl. unfold header_of, frame_header_wf; cbn.
  split_and!; apply (num_field_width _ 1) || apply (num_field_width _ 2) || apply (num_field_width _ 4); lia.
Qed.

(** A header the parser admits. *)
Definition header_ok (h : dmesh_peer_msg_header) : Prop :=
  frame_header_wf h /\ mh_version h = DMESH_PEER_WIRE_VERSION /\
  DMESH_PEER_MSG_INVALID < mh_type h <= DMESH_PEER_MSG_DATA /\ mh_reserved h = 0 /\
  mh_length h <= DMESH_PEER_FRAME_MAX.

Lemma header_ok_bool h : frame_header_wf h ->
  negb (mh_version h =? DMESH_PEER_WIRE_VERSION) || (mh_type h =? DMESH_PEER_MSG_INVALID) ||
  (DMESH_PEER_MSG_DATA <? mh_type h) || negb (mh_reserved h =? 0) ||
  (DMESH_PEER_FRAME_MAX <? mh_length h) = false <-> header_ok h.
Proof.
  intros Hwf. pose proof Hwf as (H1 & _). unfold in_width in H1. unfold header_ok.
  rewrite !orb_false_iff, !negb_false_iff, !Z.eqb_eq, Z.eqb_neq, !Z.ltb_ge.
  unfold DMESH_PEER_MSG_INVALID in *. intuition lia.
Qed.

Lemma frame_parse_inv buf h payload :
  dmesh_peer_frame_parse buf = Frame h payload ->
  header_ok h /\ Z.of_nat (length payload) = mh_length h /\
  exists rest, buf = header_image h ++ payload ++ rest.
Proof.
  unfold dmesh_peer_frame_parse. unfold HEADER_LEN. change (Z.to_nat 16) with 16%nat.
  destruct (Z.ltb_spec (Z.of_nat (length buf)) 16) as [|Hl]; [done|].
  assert (Hl' : (16 <= length buf)%nat) by lia.
  destruct (_ || _) eqn:E; [done|]. apply header_ok_bool in E; [|by apply header_of_wf].
  destruct (Z.ltb_spec (Z.of_nat (length buf)) (16 + mh_length (header_of buf))) as [|Hn]; [done|].
  intros [= <- <-]. split; [done|].
  pose proof (header_of_wf buf Hl') as (_ & _ & _ & Hw & _). unfold in_width in Hw.
  split.
  { change (mh_length (header_of buf)) with (num_field 4 4 buf) in *.
    rewrite length_take, length_drop. lia. }
  eexists. rewrite header_image_of by done. by rewrite !take_drop.
Qed.

Lemma frame_parse_image h payload rest :
  header_ok h -> Z.of_nat (length payload) = mh_length h ->
  dmesh_peer_frame_parse (header_image h ++ payload ++ rest) = Frame h payload.
Proof.
  intros Hok Hl. pose proof Hok as (Hwf & _). unfold dmesh_peer_frame_parse, HEADER_LEN.
  rewrite !length_app, length_header_image.
  destruct (Z.ltb_spec (Z.of_nat (16 + (length payload + length rest))) 16); [lia|].
  rewrite header_of_image by done. apply header_ok_bool in Hok; [|done]. rewrite Hok.
  destruct (Z.ltb_spec (Z.of_nat (16 + (length payload + length rest))) (16 + mh_length h)); [lia|].
  rewrite drop_app_length' by (by rewrite length_header_image).
  by rewrite take_app_length' by lia.
Qed.

Lemma frame_build_parse cap type incarnation handle payload frame rest :
  in_width 32 incarnation -> in_width 32 handle -> 0 <= type ->
  dmesh_peer_frame_build cap type incarnation handle payload = Some frame ->
  dmesh_peer_frame_parse (frame ++ rest) =
    Frame (MsgHeader type DMESH_PEER_WIRE_VERSION 0 (Z.of_nat (length payload)) incarnation handle)
      payload /\
  Z.of_nat (length frame) = HEADER_LEN + Z.of_nat (length payload).
Proof.
  intros Hi Hh Ht. unfold dmesh_peer_frame_build. destruct (_ || _) eqn:E; [done|].
  intros [= <-]. rewrite !orb_false_iff, !Z.eqb_neq, !Z.ltb_ge in E.
  unfold DMESH_PEER_MSG_INVALID, DMESH_PEER_MSG_DATA in E.
  assert (DMESH_PEER_FRAME_MAX = 65600) as HF by reflexivity.
  split; [|rewrite length_app, length_header_image; unfold HEADER_LEN; lia].
  rewrite <-app_assoc. apply frame_parse_image; [|done].
  unfold header_ok, frame_header_wf; cbn. unfold in_width in *.
  unfold DMESH_PEER_MSG_INVALID, DMESH_PEER_MSG_DATA, DMESH_PEER_WIRE_VERSION. lia.
Qed.

(** The frame codec is exact. The parser returns a header and payload precisely when the buffer starts with the image of that header, admissible and within the frame bound, followed by exactly the announced payload bytes; and what is built parses: a frame built by [dmesh_peer_frame_build], followed by anything, parses to its own header and payload. *)
Lemma frame_codec_exact :
  (forall buf h payload,
     dmesh_peer_frame_parse buf = Frame h payload <->
     header_ok h /\ Z.of_nat (length payload) = mh_length h /\
     exists rest, buf = header_image h ++ payload ++ rest) /\
  (forall cap type incarnation handle payload frame rest,
     in_width 32 incarnation -> in_width 32 handle -> 0 <= type ->
     dmesh_peer_frame_build cap type incarnation handle payload = Some frame ->
     dmesh_peer_frame_parse (frame ++ rest) =
       Frame (MsgHeader type DMESH_PEER_WIRE_VERSION 0 (Z.of_nat (length payload)) incarnation handle) payload /\
     Z.of_nat (length frame) = HEADER_LEN + Z.of_nat (length payload)).
Proof.
  split; [|exact frame_build_parse]. intros buf h payload.
  split; [apply frame_parse_inv|]. intros (Hok & Hl & rest & ->). by apply frame_parse_image.
Qed.

(** ** Stability: later bytes never change an answer *)

Lemma header_of_app bs more : (16 <= length bs)%nat -> header_of (bs ++ more) = header_of bs.
Proof.
  intros Hl. unfold header_of, num_field. by rewrite !field_prefix by lia.
Qed.

Lemma frame_parse_app buf more :
  dmesh_peer_frame_parse buf <> Incomplete ->
  dmesh_peer_frame_parse (buf ++ more) = dmesh_peer_frame_parse buf.
Proof.
  destruct (dmesh_peer_frame_parse buf) as [| |h p] eqn:E; [done| |]; intros _.
  - revert E. unfold dmesh_peer_frame_parse, HEADER_LEN.
    destruct (Z.ltb_spec (Z.of_nat (length buf)) 16) as [|Hl]; [done|].
    rewrite length_app, header_of_app by lia.
    destruct (Z.ltb_spec (Z.of_nat (length buf + length more)) 16); [lia|].
    destruct (_ || _); [done|]. by destruct (_ <? _).
  - apply frame_parse_inv in E as (Hok & Hl & rest & ->). rewrite <-!app_assoc.
    by apply frame_parse_image.
Qed.

(** An undecided buffer is shorter than the largest frame. *)
Lemma frame_parse_incomplete buf :
  dmesh_peer_frame_parse buf = Incomplete -> Z.of_nat (length buf) < FRAME_CAP.
Proof.
  unfold dmesh_peer_frame_parse, FRAME_CAP.
  destruct (Z.ltb_spec (Z.of_nat (length buf)) HEADER_LEN);
    [unfold DMESH_PEER_FRAME_MAX, DMESH_PEER_EXTENT_MAX; lia|].
  destruct (_ || _) eqn:E; [done|]. rewrite !orb_false_iff in E. destruct E as [_ E%Z.ltb_ge].
  destruct (Z.ltb_spec (Z.of_nat (length buf)) (HEADER_LEN + mh_length (header_of buf))); [lia|done].
Qed.
