(* ===== verification/PairWire.v ===== *)
(** * Pod-pair wire translation ([doca/peer_pair_wire.{h,c}])

    On a Pod-pair channel the host frames of [PeerFrame] are translated into
    the canonical big-endian data messages of [SecurityWire], which carry a
    stream generation: both ends keep, per handle, the generation of the stream
    that owns it, so that a late message of a previous stream is refused. *)

From S2P Require Import Prelude Cursor PeerIdentity SecurityWire PeerFrame.

Definition OPEN_BODY : Z := 2 * 64 + 64 + 64 + 10.
Definition ACK_ENTRY : Z := 20.

Record pending_open := PendingOpen { po_token : Z; po_generation : Z }.
Definition zero_pending : pending_open := PendingOpen 0 0.
Record stream_state := StreamState {
  ss_generation : Z; ss_rx_sequence : Z; ss_rx_fin : bool; ss_tx_fin : bool }.
#[export] Instance eta_stream_state : Eta stream_state := fun s =>
  StreamState (ss_generation s) (ss_rx_sequence s) (ss_rx_fin s) (ss_tx_fin s).
Definition zero_stream : stream_state := StreamState 0 0 false false.

Record peer_pair_wire := PairWire {
  pw_pair : dmesh_peer_pair; pw_next_generation : Z; pw_remote_generation : Z;
  pw_received_generation : Z; pw_received_token : Z;
  pw_pending : list pending_open; pw_streams : list stream_state }.
#[export] Instance eta_pair_wire : Eta peer_pair_wire := fun w =>
  PairWire (pw_pair w) (pw_next_generation w) (pw_remote_generation w)
    (pw_received_generation w) (pw_received_token w) (pw_pending w) (pw_streams w).

(** [strnlen], then printable characters only, then zero padding. *)
Definition text_valid (p : list byte) : bool :=
  let n := length (cstr p) in
  negb (n =? 0)%nat && negb (n =? length p)%nat &&
  forallb (fun b => (32 <=? b2z b) && (b2z b <=? 126)) (take n p) &&
  forallb (fun b => b2z b =? 0) (drop n p).

(** The bits a wire handle may have besides its index and owner bit. *)
Definition handle_stray (handle : Z) : Z :=
  Z.ldiff handle (Z.lor DMESH_PEER_HANDLE_OWNER_BIT DMESH_PEER_HANDLE_INDEX_MASK).

Definition stream_index (handle : Z) : option nat :=
  let index := Z.land handle DMESH_PEER_HANDLE_INDEX_MASK in
  if (index =? 0) || (DMESH_PEER_STREAMS_MAX <? index) || negb (handle_stray handle =? 0)
  then None
  else Some (Z.to_nat (index - 1 +
    if Z.land handle DMESH_PEER_HANDLE_OWNER_BIT =? 0 then 0 else DMESH_PEER_STREAMS_MAX)).

Definition stream (w : peer_pair_wire) (handle : Z) : option stream_state :=
  i ← stream_index handle; pw_streams w !! i.
Definition set_stream (handle : Z) (s : stream_state) (w : peer_pair_wire) : peer_pair_wire :=
  match stream_index handle with
  | Some i => w <| pw_streams ::= <[i := s]> |>
  | None => w
  end.

(** [allocated]: whether [calloc] gave the object. *)
Definition peer_pair_wire_new (allocated : bool) (p : dmesh_peer_pair) : option peer_pair_wire :=
  if negb (nonzero (pr_association p)) || (pr_lane_id p =? 0) || (pr_lane_generation p =? 0) ||
     negb allocated
  then None
  else Some (PairWire p 0 0 0 0 (repeat zero_pending (Z.to_nat DMESH_PEER_STREAMS_MAX))
               (repeat zero_stream (Z.to_nat (2 * DMESH_PEER_STREAMS_MAX)))).

(** ** Encoding *)

(** A message of stream [s] (or none) and its sequence, with its body. *)
Definition data_header (w : peer_pair_wire) (type handle generation sequence : Z)
    (body : list byte) : peer_sec_data_header :=
  SecData type (Z.of_nat (length body)) (pr_association (pw_pair w)) (pr_lane_id (pw_pair w))
    (pr_lane_generation (pw_pair w)) handle generation sequence.

Fixpoint first_pending (i : nat) (l : list pending_open) : option nat :=
  match l with
  | [] => None
  | p :: l' => if po_token p =? 0 then Some i else first_pending (S i) l'
  end.

Definition open_fields_ok (o : dmesh_peer_stream_open) : bool :=
  text_valid (so_src_pod_uid o) && text_valid (so_dst_pod_uid o) &&
  text_valid (so_src_service_key o).

Definition open_body (o : dmesh_peer_stream_open) : list byte :=
  so_src_pod_uid o ++ so_dst_pod_uid o ++ so_src_service_key o ++
  be_bytes 2 (so_dst_port o) ++ be_bytes 8 (so_src_generation o).

Definition ack_wire (generation : Z) (a : dmesh_peer_ack_entry) : list byte :=
  be_bytes 4 (ae_handle a) ++ be_bytes 4 (ae_seq_first a) ++ be_bytes 4 (ae_seq_count a) ++
  be_bytes 8 generation.

(** The loop over acknowledgement entries; [None] is the -1 return. *)
Fixpoint acks_wire (w : peer_pair_wire) (entries : list dmesh_peer_ack_entry)
    : option (list byte) :=
  match entries with
  | [] => Some []
  | a :: rest =>
    match stream w (ae_handle a) with
    | None => None
    | Some s =>
      if (ss_generation s =? 0) || negb (ae_reserved a =? 0) || (ae_seq_count a =? 0) ||
         (DMESH_PEER_TX_SLOTS <? ae_seq_count a) then None
      else out ← acks_wire w rest; Some (ack_wire (ss_generation s) a ++ out)
    end
  end.

(** The switch of [peer_pair_wire_encode]: the header and body of the message
    and the mutated state; a refusal leaves the state as it was. *)
Definition pair_message (w : peer_pair_wire) (inh : dmesh_peer_msg_header) (body : list byte)
    (capacity : Z) : option (peer_sec_data_header * list byte * peer_pair_wire) :=
  let s := stream w (mh_handle inh) in
  if mh_type inh =? DMESH_PEER_MSG_STREAM_OPEN then
    if negb (mh_handle inh =? 0) || negb (mh_length inh =? OPEN_LEN) || (capacity <? 64 + OPEN_BODY)
    then None
    else
      let o := open_of body in
      if negb (open_fields_ok o) || (so_source_token o =? 0) || (so_dst_port o =? 0) ||
         negb (so_reserved o =? 0) || (so_src_generation o =? 0) ||
         (pw_next_generation w =? UINT64_MAX) ||
         existsb (fun p => po_token p =? so_source_token o) (pw_pending w) then None
      else match first_pending 0 (pw_pending w) with
        | None => None
        | Some i =>
          let generation := pw_next_generation w + 1 in
          Some (data_header w PEER_SEC_STREAM_OPEN (so_source_token o) generation 0 (open_body o),
                open_body o,
                w <| pw_next_generation := generation |>
                  <| pw_pending ::= <[i := PendingOpen (so_source_token o) generation]> |>)
        end
  else if mh_type inh =? DMESH_PEER_MSG_STREAM_OPEN_ACK then
    if negb (mh_handle inh =? 0) || negb (mh_length inh =? OPEN_ACK_LEN) || (capacity <? 72) then None
    else
      let a := open_ack_of body in
      if (pw_received_token w =? 0) || negb (oa_source_token a =? pw_received_token w) ||
         negb (oa_reserved a =? 0) || (oa_status a <? 0) || (REFUSE_MAX <=? oa_status a) ||
         (if oa_status a =? 0 then match stream w (oa_handle a) with None => true | _ => false end
          else negb (oa_handle a =? 0)) then None
      else
        let out := be_bytes 4 (oa_handle a) ++ be_bytes 4 (oa_status a) in
        let generation := pw_received_generation w in
        let w' := if oa_status a =? 0
                  then set_stream (oa_handle a) (zero_stream <| ss_generation := generation |>) w
                  else w in
        Some (data_header w PEER_SEC_STREAM_OPEN_ACK (oa_source_token a) generation 0 out, out,
              w' <| pw_received_token := 0 |> <| pw_received_generation := 0 |>)
  else if mh_type inh =? DMESH_PEER_MSG_DATA then
    match s with
    | None => None
    | Some s =>
      if (ss_generation s =? 0) || ss_tx_fin s || (mh_length inh <=? PREFIX_LEN) then None
      else
        let p := prefix_of body in
        let out := drop 8 body in
        if negb (px_reserved p =? 0) || (PEER_SEC_DATA_MAX <? Z.of_nat (length out)) ||
           (capacity <? 64 + Z.of_nat (length out)) then None
        else Some (data_header w PEER_SEC_DATA (mh_handle inh) (ss_generation s) (px_seq p + 1) out,
                   out, w)
    end
  else if mh_type inh =? DMESH_PEER_MSG_STREAM_FIN then
    match s with
    | None => None
    | Some s =>
      if (ss_generation s =? 0) || ss_tx_fin s || negb (mh_length inh =? 0) then None
      else Some (data_header w PEER_SEC_STREAM_FIN (mh_handle inh) (ss_generation s) 0 [], [],
                 set_stream (mh_handle inh) (s <| ss_tx_fin := true |>) w)
    end
  else if mh_type inh =? DMESH_PEER_MSG_STREAM_ACK then
    if negb (mh_handle inh =? 0) || (mh_length inh =? 0) ||
       negb (mh_length inh mod ACK_ENTRY_LEN =? 0) then None
    else
      let count := mh_length inh / ACK_ENTRY_LEN in
      if (DMESH_STREAM_ACK_BATCH <? count) || (capacity <? 64 + count * ACK_ENTRY) then None
      else
        let entries := ack_entries_of (Z.to_nat count) body in
        match entries, acks_wire w entries with
        | a :: _, Some out =>
            let generation := match stream w (ae_handle a) with
                              | Some s => ss_generation s | None => 0 end in
            Some (data_header w PEER_SEC_STREAM_ACK (ae_handle a) generation 0 out, out, w)
        | _, _ => None
        end
  else None.

Definition peer_pair_wire_encode (w : peer_pair_wire) (input : list byte) (capacity : Z)
    : option (list byte) * peer_pair_wire :=
  if (Z.of_nat (length input) <? HEADER_LEN) || (capacity <? 64) then (None, w)
  else
    let inh := header_of input in
    if negb (mh_version inh =? 1) || negb (mh_reserved inh =? 0) ||
       negb (Z.of_nat (length input) =? HEADER_LEN + mh_length inh) then (None, w)
    else match pair_message w inh (drop 16 input) capacity with
      | None => (None, w)
      | Some (h, body, w') =>
        match peer_sec_data_encode h with
        | None => (None, w')
        | Some bytes => (Some (bytes ++ body), w')
        end
      end.

(** ** Decoding *)

Definition be_field (off w : nat) (bs : list byte) : Z := be_num (take w (drop off bs)).

Definition wire_open (token : Z) (body : list byte) : dmesh_peer_stream_open :=
  StreamOpen (field 0 64 body) (field 64 64 body) (field 128 128 body)
    (u16 (be_field 256 2 body)) 0 token (be_field 258 8 body).

(** One 20-byte entry: the host entry and the generation it names. *)
Definition wire_ack (bs : list byte) : dmesh_peer_ack_entry * Z :=
  (AckEntry (be_field 0 4 bs) (be_field 4 4 bs) (be_field 8 4 bs) 0, be_field 12 8 bs).

Fixpoint acks_host (w : peer_pair_wire) (first : option Z) (count : nat) (body : list byte)
    : option (list byte) :=
  match count with
  | O => Some []
  | S n =>
    let '(a, generation) := wire_ack (take 20 body) in
    match stream w (ae_handle a) with
    | None => None
    | Some s =>
      if (ss_generation s =? 0) || negb (ss_generation s =? generation) || (ae_seq_count a =? 0) ||
         (DMESH_PEER_TX_SLOTS <? ae_seq_count a) ||
         match first with Some handle => negb (ae_handle a =? handle) | None => false end
      then None
      else out ← acks_host w None n (drop 20 body); Some (ack_entry_image a ++ out)
    end
  end.

Fixpoint find_pending (i : nat) (l : list pending_open) (token generation : Z) : option nat :=
  match l with
  | [] => None
  | p :: l' => if (po_token p =? token) && (po_generation p =? generation) then Some i
               else find_pending (S i) l' token generation
  end.

(** The switch of [peer_pair_wire_decode]: the host frame's type, handle and
    payload and the mutated state. *)
Definition pair_frame (w : peer_pair_wire) (h : peer_sec_data_header) (body : list byte)
    (capacity : Z) : option (Z * Z * list byte * peer_pair_wire) :=
  let length := dh_body_len h in
  let s := stream w (dh_handle h) in
  if negb (dh_type h =? PEER_SEC_STREAM_OPEN) && negb (dh_type h =? PEER_SEC_STREAM_OPEN_ACK) &&
     match s with
     | None => true
     | Some s => (ss_generation s =? 0) || negb (ss_generation s =? dh_stream_generation h)
     end then None
  else if negb (dh_type h =? PEER_SEC_DATA) && negb (dh_sequence h =? 0) then None
  else if dh_type h =? PEER_SEC_STREAM_OPEN then
    if negb (length =? OPEN_BODY) || (capacity <? OPEN_LEN) || negb (pw_received_token w =? 0) ||
       (dh_stream_generation h <=? pw_remote_generation w) then None
    else
      let o := wire_open (dh_handle h) body in
      if negb (open_fields_ok o) || (so_dst_port o =? 0) || (so_src_generation o =? 0) then None
      else Some (DMESH_PEER_MSG_STREAM_OPEN, 0, open_image o,
                 w <| pw_received_token := dh_handle h |>
                   <| pw_received_generation := dh_stream_generation h |>
                   <| pw_remote_generation := dh_stream_generation h |>)
  else if dh_type h =? PEER_SEC_STREAM_OPEN_ACK then
    if negb (length =? 8) || (capacity <? OPEN_ACK_LEN) then None
    else match find_pending 0 (pw_pending w) (dh_handle h) (dh_stream_generation h) with
      | None => None
      | Some i =>
        let handle := be_field 0 4 body in
        let status := be_field 4 4 body in
        if (REFUSE_MAX <=? status) ||
           (if status =? 0 then match stream w handle with None => true | _ => false end
            else negb (handle =? 0)) then None
        else
          let w' := if status =? 0
                    then set_stream handle (zero_stream <| ss_generation := dh_stream_generation h |>) w
                    else w in
          Some (DMESH_PEER_MSG_STREAM_OPEN_ACK, 0,
                open_ack_image (OpenAck (dh_handle h) handle status 0),
                w' <| pw_pending ::= <[i := zero_pending]> |>)
      end
  else if dh_type h =? PEER_SEC_DATA then
    match s with
    | None => None
    | Some s =>
      if ss_rx_fin s || (dh_sequence h <=? ss_rx_sequence s) || (UINT32_MAX + 1 <? dh_sequence h) ||
         (capacity <? PREFIX_LEN + length) then None
      else Some (DMESH_PEER_MSG_DATA, dh_handle h,
                 prefix_image (DataPrefix (u32 (dh_sequence h - 1)) 0) ++ body,
                 set_stream (dh_handle h) (s <| ss_rx_sequence := dh_sequence h |>) w)
    end
  else if dh_type h =? PEER_SEC_STREAM_FIN then
    match s with
    | None => None
    | Some s =>
      if negb (length =? 0) || ss_rx_fin s then None
      else Some (DMESH_PEER_MSG_STREAM_FIN, dh_handle h, [],
                 set_stream (dh_handle h) (s <| ss_rx_fin := true |>) w)
    end
  else if dh_type h =? PEER_SEC_STREAM_ACK then
    if (length =? 0) || negb (length mod ACK_ENTRY =? 0) then None
    else
      let count := length / ACK_ENTRY in
      if (DMESH_STREAM_ACK_BATCH <? count) || (capacity <? count * ACK_ENTRY_LEN) then None
      else out ← acks_host w (Some (dh_handle h)) (Z.to_nat count) body;
           Some (DMESH_PEER_MSG_STREAM_ACK, 0, out, w)
  else None.

(** The result with the bytes a whole message took. *)
Definition peer_pair_wire_decode (w : peer_pair_wire) (input : list byte) (incarnation capacity : Z)
    : parsed * Z * peer_pair_wire :=
  if incarnation =? 0 then (Malformed, 0, w)
  else if (Datatypes.length input <? 64)%nat then (Incomplete, 0, w)
  else
    let length := be_field 8 4 input in
    if negb (bytes_eq (take 4 input) data_magic) || (PEER_SEC_DATA_MAX <? length)
    then (Malformed, 0, w)
    else if Z.of_nat (Datatypes.length input) <? 64 + length then (Incomplete, 0, w)
    else
      let message := take (Z.to_nat (64 + length)) input in
      match peer_sec_data_decode message (pr_association (pw_pair w)) (pr_lane_id (pw_pair w))
              (pr_lane_generation (pw_pair w)) with
      | (0, h) =>
        match pair_frame w h (drop 64 message) capacity with
        | None => (Malformed, 0, w)
        | Some (type, handle, payload, w') =>
            (Frame (MsgHeader type 1 0 (Z.of_nat (Datatypes.length payload)) incarnation handle) payload,
             64 + length, w')
        end
      | _ => (Malformed, 0, w)
      end.
