(* ===== verification/PairWireProofs.v ===== *)
(** * Pod-pair wire: what each message does, round trip and replay *)

From S2P Require Import Prelude Cursor PeerIdentity SecurityWire SecurityCodec PeerFrame PairWire.

(** ** Images of the payload structures *)

Lemma open_image_of bs : length bs = 272%nat -> open_image (open_of bs) = bs.
Proof.
  intros Hl. unfold open_image, open_of;
    cbn [so_src_pod_uid so_dst_pod_uid so_src_service_key so_dst_port so_reserved so_source_token so_src_generation].
  rewrite !le_bytes_field by lia.
  rewrite (field_app 260 4 8), (field_app 258 2 12), (field_app 256 2 14), (field_app 128 128 16),
    (field_app 64 64 144), (field_app 0 64 208). apply field_whole. lia.
Qed.

Lemma s32_u32 z : in_width 32 z -> u32 (s32 z) = z.
Proof.
  unfold in_width, u32, wrap, s32. intros H. destruct (Z.ltb_spec z (2 ^ 31)).
  - apply Z.mod_small. lia.
  - rewrite <-(Z.mod_small z (2 ^ 32)) at 2 by lia.
    rewrite <-(Z_mod_plus_full (z - 2 ^ 32) 1 (2 ^ 32)). f_equal. lia.
Qed.

Lemma open_ack_image_of bs : length bs = 16%nat -> open_ack_image (open_ack_of bs) = bs.
Proof.
  intros Hl. unfold open_ack_image, open_ack_of; cbn [oa_source_token oa_handle oa_status oa_reserved].
  rewrite s32_u32 by (apply (num_field_width 8 4); lia). rewrite !le_bytes_field by lia.
  rewrite (field_app 8 4 4), (field_app 4 4 8), (field_app 0 4 12). apply field_whole. lia.
Qed.

Lemma prefix_image_of bs : (8 <= length bs)%nat -> prefix_image (prefix_of bs) ++ drop 8 bs = bs.
Proof.
  intros Hl. unfold prefix_image, prefix_of; cbn [px_seq px_reserved].
  rewrite !le_bytes_field, (field_app 0 4 4) by lia. unfold field. by rewrite drop_0, take_drop.
Qed.

Lemma ack_entry_image_of bs : length bs = 16%nat -> ack_entry_image (ack_entry_of bs) = bs.
Proof.
  intros Hl. unfold ack_entry_image, ack_entry_of; cbn [ae_handle ae_seq_first ae_seq_count ae_reserved].
  rewrite !le_bytes_field by lia.
  rewrite (field_app 8 4 4), (field_app 4 4 8), (field_app 0 4 12). apply field_whole. lia.
Qed.

Definition entry_wf (a : dmesh_peer_ack_entry) : Prop :=
  in_width 32 (ae_handle a) /\ in_width 32 (ae_seq_first a) /\ in_width 32 (ae_seq_count a).

Lemma ack_entry_of_wf bs : length bs = 16%nat -> entry_wf (ack_entry_of bs).
Proof. intros Hl. unfold entry_wf, ack_entry_of; cbn. split_and!; apply (num_field_width _ 4); lia. Qed.

Lemma ack_entries_image n bs :
  length bs = (16 * n)%nat ->
  concat (ack_entry_image <$> ack_entries_of n bs) = bs /\
  Forall entry_wf (ack_entries_of n bs) /\ length (ack_entries_of n bs) = n.
Proof.
  revert bs. induction n as [|n IH]; intros bs Hl; cbn [ack_entries_of].
  - by destruct bs.
  - destruct (IH (drop 16 bs)) as (H1 & H2 & H3); [rewrite length_drop; lia|].
    assert (length (take 16 bs) = 16%nat) as Ht by (rewrite length_take; lia).
    rewrite fmap_cons; cbn [concat length]. rewrite H1, H3, ack_entry_image_of, take_drop by done.
    split_and!; [done| |done]. constructor; [by apply ack_entry_of_wf|done].
Qed.

(** ** Big-endian fields *)

Lemma be_field_head w n rest :
  (w <= 8)%nat -> in_width (8 * Z.of_nat w) n -> be_field 0 w (be_bytes w n ++ rest) = n.
Proof.
  intros Hw Hn. unfold be_field. rewrite drop_0, take_app_length' by (by rewrite length_be_bytes).
  by apply be_num_be_bytes_small.
Qed.

Lemma be_field_skip off w a rest :
  (length a <= off)%nat -> be_field off w (a ++ rest) = be_field (off - length a) w rest.
Proof. intros H. unfold be_field. by rewrite drop_app_ge. Qed.

Lemma be_field_whole w n : (w <= 8)%nat -> in_width (8 * Z.of_nat w) n -> be_field 0 w (be_bytes w n) = n.
Proof. intros. rewrite <-(app_nil_r (be_bytes w n)). by apply be_field_head. Qed.

Lemma be_field_skip_num off w w' n rest :
  (w' <= off)%nat -> be_field off w (be_bytes w' n ++ rest) = be_field (off - w') w rest.
Proof. intros H. rewrite be_field_skip by (by rewrite length_be_bytes). by rewrite length_be_bytes. Qed.

Lemma be_field_width off w bs :
  (w <= 8)%nat -> (off + w <= length bs)%nat -> in_width (8 * Z.of_nat w) (be_field off w bs).
Proof. intros Hw Hl. apply be_num_width; [done|]. rewrite length_take, length_drop. lia. Qed.

Ltac be_fields :=
  repeat (first
    [ rewrite be_field_head by (lia || assumption)
    | rewrite be_field_whole by (lia || assumption)
    | rewrite be_field_skip_num by lia; nat_norm ]).

(** ** What a message does to the sender's and the receiver's state *)

Ltac bool_facts :=
  repeat match goal with
  | H : _ || _ = false |- _ => apply orb_false_iff in H; destruct H
  | H : negb _ = false |- _ => apply negb_false_iff in H
  | H : negb _ = true |- _ => apply negb_true_iff in H
  | H : (_ =? _) = false |- _ => apply Z.eqb_neq in H
  | H : (_ =? _) = true |- _ => apply Z.eqb_eq in H
  | H : (_ <? _) = false |- _ => apply Z.ltb_ge in H
  | H : (_ <=? _) = false |- _ => apply Z.leb_gt in H
  end.
(** Leaves the accepting branch of a chain of refusals. *)
Ltac accepting :=
  repeat match goal with
  | |- (if ?b then None else _) = Some _ -> _ => destruct b eqn:?; [discriminate|]
  | |- match ?x with None => None | Some _ => _ end = Some _ -> _ => destruct x eqn:?; [|discriminate]
  end; bool_facts.

Lemma first_pending_Some k l i :
  first_pending k l = Some i -> exists p, l !! (i - k)%nat = Some p /\ po_token p = 0 /\ (k <= i)%nat.
Proof.
  revert k. induction l as [|p l IH]; intros k; cbn [first_pending]; [done|].
  destruct (Z.eqb_spec (po_token p) 0).
  - intros [= <-]. exists p. by rewrite Nat.sub_diag.
  - intros (q & H & ? & ?)%IH. exists q. replace (i - k)%nat with (S (i - S k)) by lia.
    split_and!; [done..|lia].
Qed.

Lemma find_pending_Some k l token generation i :
  find_pending k l token generation = Some i ->
  (k <= i)%nat /\ l !! (i - k)%nat = Some (PendingOpen token generation).
Proof.
  revert k. induction l as [|p l IH]; intros k; cbn [find_pending]; [done|].
  destruct (_ && _) eqn:E.
  - intros [= <-]. apply andb_true_iff in E as [E1%Z.eqb_eq E2%Z.eqb_eq].
    rewrite Nat.sub_diag. split; [done|]. cbn. by destruct p; cbn in *; subst.
  - intros (? & H)%IH. replace (i - k)%nat with (S (i - S k)) by lia. split; [lia|done].
Qed.

(** The sender's side: a host frame with header [inh] and payload [body]
    becomes the data header, wire body and state named last. *)
Inductive sent (w : peer_pair_wire) (inh : dmesh_peer_msg_header) (body : list byte)
    : peer_sec_data_header -> list byte -> peer_pair_wire -> Prop :=
  | sent_open o i :
      mh_type inh = DMESH_PEER_MSG_STREAM_OPEN -> mh_handle inh = 0 -> mh_length inh = OPEN_LEN ->
      o = open_of body -> open_fields_ok o = true -> so_source_token o <> 0 -> so_dst_port o <> 0 ->
      so_reserved o = 0 -> so_src_generation o <> 0 -> pw_next_generation w <> UINT64_MAX ->
      existsb (fun p => po_token p =? so_source_token o) (pw_pending w) = false ->
      first_pending 0 (pw_pending w) = Some i ->
      sent w inh body
        (data_header w PEER_SEC_STREAM_OPEN (so_source_token o) (pw_next_generation w + 1) 0 (open_body o))
        (open_body o)
        (w <| pw_next_generation := pw_next_generation w + 1 |>
           <| pw_pending ::= <[i := PendingOpen (so_source_token o) (pw_next_generation w + 1)]> |>)
  | sent_refused a :
      mh_type inh = DMESH_PEER_MSG_STREAM_OPEN_ACK -> mh_handle inh = 0 ->
      mh_length inh = OPEN_ACK_LEN -> a = open_ack_of body -> pw_received_token w <> 0 ->
      oa_source_token a = pw_received_token w -> oa_reserved a = 0 -> 0 < oa_status a < REFUSE_MAX ->
      oa_handle a = 0 ->
      sent w inh body
        (data_header w PEER_SEC_STREAM_OPEN_ACK (oa_source_token a) (pw_received_generation w) 0
           (be_bytes 4 (oa_handle a) ++ be_bytes 4 (oa_status a)))
        (be_bytes 4 (oa_handle a) ++ be_bytes 4 (oa_status a))
        (w <| pw_received_token := 0 |> <| pw_received_generation := 0 |>)
  | sent_accepted a s :
      mh_type inh = DMESH_PEER_MSG_STREAM_OPEN_ACK -> mh_handle inh = 0 ->
      mh_length inh = OPEN_ACK_LEN -> a = open_ack_of body -> pw_received_token w <> 0 ->
      oa_source_token a = pw_received_token w -> oa_reserved a = 0 -> oa_status a = 0 ->
      stream w (oa_handle a) = Some s ->
      sent w inh body
        (data_header w PEER_SEC_STREAM_OPEN_ACK (oa_source_token a) (pw_received_generation w) 0
           (be_bytes 4 (oa_handle a) ++ be_bytes 4 (oa_status a)))
        (be_bytes 4 (oa_handle a) ++ be_bytes 4 (oa_status a))
        ((set_stream (oa_handle a) (StreamState (pw_received_generation w) 0 false false) w)
           <| pw_received_token := 0 |> <| pw_received_generation := 0 |>)
  | sent_data s :
      mh_type inh = DMESH_PEER_MSG_DATA -> stream w (mh_handle inh) = Some s ->
      ss_generation s <> 0 -> ss_tx_fin s = false -> PREFIX_LEN < mh_length inh ->
      px_reserved (prefix_of body) = 0 -> Z.of_nat (length (drop 8 body)) <= PEER_SEC_DATA_MAX ->
      sent w inh body
        (data_header w PEER_SEC_DATA (mh_handle inh) (ss_generation s) (px_seq (prefix_of body) + 1) (drop 8 body))
        (drop 8 body) w
  | sent_fin s :
      mh_type inh = DMESH_PEER_MSG_STREAM_FIN -> stream w (mh_handle inh) = Some s ->
      ss_generation s <> 0 -> ss_tx_fin s = false -> mh_length inh = 0 ->
      sent w inh body (data_header w PEER_SEC_STREAM_FIN (mh_handle inh) (ss_generation s) 0 []) []
        (set_stream (mh_handle inh) (s <| ss_tx_fin := true |>) w)
  | sent_acks count a rest s out :
      mh_type inh = DMESH_PEER_MSG_STREAM_ACK -> mh_handle inh = 0 ->
      mh_length inh = ACK_ENTRY_LEN * count -> 0 < count <= DMESH_STREAM_ACK_BATCH ->
      ack_entries_of (Z.to_nat count) body = a :: rest -> acks_wire w (a :: rest) = Some out ->
      stream w (ae_handle a) = Some s ->
      sent w inh body (data_header w PEER_SEC_STREAM_ACK (ae_handle a) (ss_generation s) 0 out) out w.

Lemma pair_message_sent w inh body capacity h out w' :
  0 <= mh_length inh ->
  pair_message w inh body capacity = Some (h, out, w') -> sent w inh body h out w'.
Proof.
  intros Hlen. unfold pair_message.
  destruct (Z.eqb_spec (mh_type inh) DMESH_PEER_MSG_STREAM_OPEN).
  { remember (open_of body) as o eqn:Ho. accepting. intros [= <- <- <-].
    by apply (sent_open w inh body o). }
  destruct (Z.eqb_spec (mh_type inh) DMESH_PEER_MSG_STREAM_OPEN_ACK).
  { remember (open_ack_of body) as a eqn:Ha. accepting. destruct (Z.eqb_spec (oa_status a) 0).
    - destruct (stream w (oa_handle _)) as [s|] eqn:?; [|done]. intros [= <- <- <-].
      by apply (sent_accepted w inh body a s).
    - bool_facts. intros [= <- <- <-]. apply (sent_refused w inh body a); try done; lia. }
  destruct (Z.eqb_spec (mh_type inh) DMESH_PEER_MSG_DATA).
  { accepting. intros [= <- <- <-]. eapply sent_data; try done; lia. }
  destruct (Z.eqb_spec (mh_type inh) DMESH_PEER_MSG_STREAM_FIN).
  { accepting. intros [= <- <- <-]. by eapply sent_fin. }
  destruct (Z.eqb_spec (mh_type inh) DMESH_PEER_MSG_STREAM_ACK); [|done].
  accepting. destruct (ack_entries_of _ _) as [|a rest] eqn:Ha; [done|].
  destruct (acks_wire w (a :: rest)) as [out'|] eqn:Ho; [|done]. intros [= <- <- <-].
  pose proof (Z.div_mod (mh_length inh) ACK_ENTRY_LEN).
  unfold ACK_ENTRY_LEN in *.
  destruct (stream w (ae_handle a)) as [s|] eqn:Hs; [|cbn in Ho; by rewrite Hs in Ho].
  eapply sent_acks; [done..| | |done|done|done]; unfold ACK_ENTRY_LEN; lia.
Qed.

(** The receiver's side: a data header and body become the host frame's type,
    handle and payload and the state named last. *)
Inductive taken (w : peer_pair_wire) (h : peer_sec_data_header) (body : list byte)
    : Z -> Z -> list byte -> peer_pair_wire -> Prop :=
  | taken_open o :
      dh_type h = PEER_SEC_STREAM_OPEN -> dh_sequence h = 0 -> dh_body_len h = OPEN_BODY ->
      pw_received_token w = 0 -> pw_remote_generation w < dh_stream_generation h ->
      o = wire_open (dh_handle h) body -> open_fields_ok o = true -> so_dst_port o <> 0 ->
      so_src_generation o <> 0 ->
      taken w h body DMESH_PEER_MSG_STREAM_OPEN 0 (open_image o)
        (w <| pw_received_token := dh_handle h |>
           <| pw_received_generation := dh_stream_generation h |>
           <| pw_remote_generation := dh_stream_generation h |>)
  | taken_refused i status :
      dh_type h = PEER_SEC_STREAM_OPEN_ACK -> dh_sequence h = 0 -> dh_body_len h = 8 ->
      find_pending 0 (pw_pending w) (dh_handle h) (dh_stream_generation h) = Some i ->
      be_field 0 4 body = 0 -> be_field 4 4 body = status -> status <> 0 -> status < REFUSE_MAX ->
      taken w h body DMESH_PEER_MSG_STREAM_OPEN_ACK 0
        (open_ack_image (OpenAck (dh_handle h) 0 status 0))
        (w <| pw_pending ::= <[i := zero_pending]> |>)
  | taken_accepted i handle s :
      dh_type h = PEER_SEC_STREAM_OPEN_ACK -> dh_sequence h = 0 -> dh_body_len h = 8 ->
      find_pending 0 (pw_pending w) (dh_handle h) (dh_stream_generation h) = Some i ->
      be_field 0 4 body = handle -> be_field 4 4 body = 0 -> stream w handle = Some s ->
      taken w h body DMESH_PEER_MSG_STREAM_OPEN_ACK 0
        (open_ack_image (OpenAck (dh_handle h) handle 0 0))
        ((set_stream handle (StreamState (dh_stream_generation h) 0 false false) w)
           <| pw_pending ::= <[i := zero_pending]> |>)
  | taken_data s :
      dh_type h = PEER_SEC_DATA -> stream w (dh_handle h) = Some s -> ss_generation s <> 0 ->
      ss_generation s = dh_stream_generation h -> ss_rx_fin s = false ->
      ss_rx_sequence s < dh_sequence h -> dh_sequence h <= UINT32_MAX + 1 ->
      taken w h body DMESH_PEER_MSG_DATA (dh_handle h)
        (prefix_image (DataPrefix (u32 (dh_sequence h - 1)) 0) ++ body)
        (set_stream (dh_handle h) (s <| ss_rx_sequence := dh_sequence h |>) w)
  | taken_fin s :
      dh_type h = PEER_SEC_STREAM_FIN -> dh_sequence h = 0 -> stream w (dh_handle h) = Some s ->
      ss_generation s <> 0 -> ss_generation s = dh_stream_generation h -> dh_body_len h = 0 ->
      ss_rx_fin s = false ->
      taken w h body DMESH_PEER_MSG_STREAM_FIN (dh_handle h) []
        (set_stream (dh_handle h) (s <| ss_rx_fin := true |>) w)
  | taken_acks s count out :
      dh_type h = PEER_SEC_STREAM_ACK -> dh_sequence h = 0 -> stream w (dh_handle h) = Some s ->
      ss_generation s <> 0 -> ss_generation s = dh_stream_generation h ->
      dh_body_len h = ACK_ENTRY * count -> 0 < count <= DMESH_STREAM_ACK_BATCH ->
      acks_host w (Some (dh_handle h)) (Z.to_nat count) body = Some out ->
      taken w h body DMESH_PEER_MSG_STREAM_ACK 0 out w.

(** The generation check before the switch. *)
Definition stream_stale (w : peer_pair_wire) (h : peer_sec_data_header) : bool :=
  negb (dh_type h =? PEER_SEC_STREAM_OPEN) && negb (dh_type h =? PEER_SEC_STREAM_OPEN_ACK) &&
  match stream w (dh_handle h) with
  | None => true
  | Some s => (ss_generation s =? 0) || negb (ss_generation s =? dh_stream_generation h)
  end.

Lemma pair_frame_taken w h body capacity type handle payload w' :
  0 <= dh_body_len h ->
  pair_frame w h body capacity = Some (type, handle, payload, w') ->
  taken w h body type handle payload w'.
Proof.
  intros Hlen. unfold pair_frame. fold (stream_stale w h).
  destruct (stream_stale w h) eqn:Hst; [done|]. unfold stream_stale in Hst.
  destruct (negb (dh_type h =? PEER_SEC_DATA) && _) eqn:Hq; [done|].
  destruct (Z.eqb_spec (dh_type h) PEER_SEC_STREAM_OPEN).
  { rewrite e in Hq. cbn in Hq. bool_facts. remember (wire_open _ _) as o eqn:Ho. accepting.
    intros [= <- <- <- <-]. by apply taken_open. }
  destruct (Z.eqb_spec (dh_type h) PEER_SEC_STREAM_OPEN_ACK).
  { rewrite e in Hq. cbn in Hq. bool_facts. accepting. destruct (Z.eqb_spec (be_field 4 4 body) 0) as [E|].
    - destruct (stream w (be_field 0 4 body)) as [s|] eqn:?; [|done]. intros [= <- <- <- <-]. rewrite E.
      by apply (taken_accepted w h body n0 _ s).
    - bool_facts. intros [= <- <- <- <-]. rewrite H0. by apply taken_refused. }
  cbn in Hst. destruct (stream w (dh_handle h)) as [s|] eqn:Hs; [|done]. bool_facts.
  destruct (Z.eqb_spec (dh_type h) PEER_SEC_DATA).
  { accepting. intros [= <- <- <- <-]. apply (taken_data w h body s); done || lia. }
  cbn in Hq. bool_facts.
  destruct (Z.eqb_spec (dh_type h) PEER_SEC_STREAM_FIN).
  { accepting. intros [= <- <- <- <-]. by apply (taken_fin w h body s). }
  destruct (Z.eqb_spec (dh_type h) PEER_SEC_STREAM_ACK); [|done].
  accepting. destruct (acks_host _ _ _ _) as [out|] eqn:Ha; [|done]. intros [= <- <- <- <-].
  pose proof (Z.div_mod (dh_body_len h) ACK_ENTRY). unfold ACK_ENTRY in *.
  eapply (taken_acks w h body s (dh_body_len h / 20)); try done; unfold ACK_ENTRY; lia.
Qed.

Lemma taken_pair_frame w h body capacity type handle payload w' :
  DMESH_PEER_FRAME_MAX <= capacity -> dh_body_len h <= PEER_SEC_DATA_MAX ->
  taken w h body type handle payload w' ->
  pair_frame w h body capacity = Some (type, handle, payload, w').
Proof.
  intros Hc Hm HT. assert (65600 <= capacity) by exact Hc. unfold PEER_SEC_DATA_MAX in Hm.
  destruct HT as [o Ht Hq Hl Hr Hg -> Hf Hp Hs | i st Ht Hq Hl Hf H0 <- Hz Hm'
    | i hd s Ht Hq Hl Hf <- Hz Hs | s Ht Hs Hz Hg Hf Hq Hq' | s Ht Hq Hs Hz Hg Hl Hf
    | s count out Ht Hq Hs Hz Hg Hl Hn Ha];
    unfold pair_frame; rewrite Ht, ?Hq, ?Hl, ?Hs; cbn -[wire_open open_image Z.add u32 Z.mul stream].
  - by rewrite Hr, (proj2 (Z.ltb_ge _ _)), (proj2 (Z.leb_gt _ _)), Hf, (proj2 (Z.eqb_neq _ _) Hp),
      (proj2 (Z.eqb_neq _ _) Hs) by (unfold OPEN_LEN; lia).
  - rewrite (proj2 (Z.ltb_ge _ _)), Hf, (proj2 (Z.leb_gt _ _)), H0 by (unfold OPEN_ACK_LEN; lia).
    by rewrite (proj2 (Z.eqb_neq _ _) Hz).
  - rewrite (proj2 (Z.ltb_ge _ _)), Hf, Hz by (unfold OPEN_ACK_LEN; lia). done.
  - rewrite <-Hg, (proj2 (Z.eqb_neq _ _) Hz), Z.eqb_refl, Hf. cbn -[stream Z.add u32].
    by rewrite (proj2 (Z.leb_gt _ _)), !(proj2 (Z.ltb_ge _ _)) by (unfold PREFIX_LEN; lia).
  - by rewrite <-Hg, (proj2 (Z.eqb_neq _ _) Hz), Z.eqb_refl, Hf.
  - rewrite <-Hg, (proj2 (Z.eqb_neq _ _) Hz), Z.eqb_refl. cbn -[Z.mul].
    unfold ACK_ENTRY, DMESH_STREAM_ACK_BATCH in *.
    rewrite (proj2 (Z.eqb_neq _ _)), Z.mul_comm, Z.mod_mul, Z.div_mul by lia. cbn -[Z.mul].
    rewrite !(proj2 (Z.ltb_ge _ _)) by (unfold ACK_ENTRY_LEN; lia). cbn. by rewrite Ha.
Qed.

(** ** Well-formed state *)

Record wire_wf (w : peer_pair_wire) : Prop := {
  ww_association : length (pr_association (pw_pair w)) = 16%nat;
  ww_lane : in_width 64 (pr_lane_id (pw_pair w));
  ww_lane_generation : in_width 64 (pr_lane_generation (pw_pair w));
  ww_next : in_width 64 (pw_next_generation w);
  ww_received : in_width 64 (pw_received_generation w);
  ww_streams : Forall (fun s => in_width 64 (ss_generation s)) (pw_streams w);
}.

Lemma stream_set_same handle s t w : stream w handle = Some t -> stream (set_stream handle s w) handle = Some s.
Proof.
  unfold stream, set_stream. destruct (stream_index handle) as [i|] eqn:E; [|done]. cbn. intros H.
  apply list_lookup_insert_eq, (lookup_lt_Some _ _ _ H).
Qed.

Lemma stream_wf w handle s : wire_wf w -> stream w handle = Some s -> in_width 64 (ss_generation s).
Proof.
  intros W. unfold stream. destruct (stream_index handle); [|done]. cbn. intros H.
  exact (proj1 (Forall_forall _ _) (ww_streams w W) s (list_elem_of_lookup_2 _ _ _ H)).
Qed.

Lemma set_stream_wf w handle s :
  wire_wf w -> in_width 64 (ss_generation s) -> wire_wf (set_stream handle s w).
Proof.
  intros [] Hs. unfold set_stream. destruct (stream_index handle); constructor; cbn; try done.
  by apply Forall_insert.
Qed.

Lemma set_stream_pair handle s w : pw_pair (set_stream handle s w) = pw_pair w.
Proof. unfold set_stream. by destruct (stream_index handle). Qed.

(** The shape of an accepted host frame. *)
Record host_frame (inh : dmesh_peer_msg_header) (body : list byte) : Prop := {
  hf_wf : frame_header_wf inh;
  hf_version : mh_version inh = 1;
  hf_reserved : mh_reserved inh = 0;
  hf_length : mh_length inh = Z.of_nat (length body);
}.

Lemma length_acks_wire w entries out :
  acks_wire w entries = Some out -> length out = (20 * length entries)%nat.
Proof.
  revert out. induction entries as [|a rest IH]; intros out; cbn [acks_wire]; [by intros [= <-]|].
  destruct (stream w _) as [s|]; [|done]. destruct (_ || _); [done|].
  destruct (acks_wire w rest) as [o|]; [|done]. cbn. intros [= <-].
  unfold ack_wire. rewrite !length_app, !length_be_bytes, (IH o) by done. cbn. lia.
Qed.

Lemma length_open_body bs : length bs = 272%nat -> length (open_body (open_of bs)) = 266%nat.
Proof.
  intros H. unfold open_body, open_of; cbn [so_src_pod_uid so_dst_pod_uid so_src_service_key so_dst_port so_src_generation].
  by rewrite !length_app, !length_be_bytes, !length_field by lia.
Qed.

Lemma data_header_wf w type handle generation sequence out :
  wire_wf w -> in_width 16 type -> Z.of_nat (length out) <= PEER_SEC_DATA_MAX -> in_width 32 handle ->
  in_width 64 generation -> in_width 64 sequence ->
  data_wf (data_header w type handle generation sequence out).
Proof.
  intros [] ? Hl ? ? ?. unfold data_wf, data_header; cbn. unfold PEER_SEC_DATA_MAX in Hl.
  split_and!; try done. unfold in_width. lia.
Qed.

Lemma sent_body_len w inh body h out w' :
  sent w inh body h out w' -> dh_body_len h = Z.of_nat (length out) /\
  dh_association h = pr_association (pw_pair w) /\ dh_lane_id h = pr_lane_id (pw_pair w) /\
  dh_lane_generation h = pr_lane_generation (pw_pair w).
Proof. by destruct 1. Qed.

Lemma sent_wf w inh body h out w' :
  wire_wf w -> host_frame inh body -> sent w inh body h out w' -> data_wf h /\ wire_wf w'.
Proof.
  intros W [(H1 & H2 & H3 & H4 & H5 & H6) _ _ Hlen] HS. pose proof W as [].
  assert (Hz : in_width 64 0) by (unfold in_width; lia).
  destruct HS as [o i Ht Hh Hl -> Hf Hp ? ? ? Hn|a Ht Hh Hl -> Hr Ha ? ? Hh0|a s Ht Hh Hl -> Hr Ha ? Hst Hs
    |s Ht Hs ? ? Hl ? Hd|s Ht Hs ? ? Hl|count a rest s out Ht Hh Hl Hc Ha Ho Hs].
  - assert (length body = 272%nat) as L by (unfold OPEN_LEN in Hl; lia).
    assert (in_width 64 (pw_next_generation w + 1)) as Hg.
    { unfold in_width, UINT64_MAX in *. lia. }
    split; [apply data_header_wf; try done|by constructor; cbn].
    + rewrite length_open_body by done. done.
    + apply (num_field_width 260 4); lia.
  - assert (length body = 16%nat) as L by (unfold OPEN_ACK_LEN in Hl; lia).
    split; [apply data_header_wf; try done|by constructor; cbn]. apply (num_field_width 0 4); lia.
  - assert (length body = 16%nat) as L by (unfold OPEN_ACK_LEN in Hl; lia).
    split; [apply data_header_wf; try done; apply (num_field_width 0 4); lia|].
    destruct (set_stream_wf w (oa_handle (open_ack_of body)) (StreamState (pw_received_generation w) 0 false false) W)
      as []; [done|]. by constructor.
  - split; [|done]. apply data_header_wf; try done; [eapply stream_wf; eassumption|].
    unfold PREFIX_LEN in Hl. pose proof (num_field_width 0 4 body ltac:(lia) ltac:(lia)) as Hw.
    change (num_field 0 4 body) with (px_seq (prefix_of body)) in Hw. unfold in_width in *. lia.
  - split; [apply data_header_wf; try done; eapply stream_wf; eassumption|].
    apply set_stream_wf; [done|]. by apply (stream_wf w (mh_handle inh) s).
  - split; [|done]. unfold ACK_ENTRY_LEN, DMESH_STREAM_ACK_BATCH in *.
    destruct (ack_entries_image (Z.to_nat count) body) as (_ & Hwf & Hn); [lia|].
    rewrite Ha in Hwf, Hn. apply Forall_cons in Hwf as [(Hw & _) _].
    apply data_header_wf; try done; [|eapply stream_wf; eassumption].
    rewrite (length_acks_wire _ _ _ Ho), Hn. unfold PEER_SEC_DATA_MAX. lia.
Qed.

Lemma pair_encode_inv w input capacity bytes w' :
  wire_wf w -> peer_pair_wire_encode w input capacity = (Some bytes, w') ->
  host_frame (header_of input) (drop 16 input) /\
  exists h out, sent w (header_of input) (drop 16 input) h out w' /\
    data_wf h /\ data_valid h = true /\ wire_wf w' /\ bytes = data_fmt h ++ out.
Proof.
  intros W. unfold peer_pair_wire_encode, HEADER_LEN.
  destruct ((_ <? 16) || _) eqn:E1; [done|]. cbn zeta.
  destruct (negb (mh_version _ =? 1) || _ || _) eqn:E2; [done|]. bool_facts.
  destruct (pair_message _ _ _ _) as [[[h out] w1]|] eqn:Em; [|done].
  destruct (peer_sec_data_encode h) as [hb|] eqn:Eh; [|done]. intros [= <- <-].
  pose proof (header_of_wf input ltac:(lia)) as Hw.
  apply pair_message_sent in Em; [|by apply Hw].
  assert (host_frame (header_of input) (drop 16 input)) as HF.
  { constructor; try done. rewrite length_drop. lia. }
  destruct (sent_wf _ _ _ _ _ _ W HF Em) as [Hd W'].
  split; [done|]. exists h, out. split_and!; try done.
  - unfold peer_sec_data_encode in Eh. by destruct (data_valid h).
  - destruct (data_valid h) eqn:V.
    + rewrite data_encode_fmt in Eh by done. by injection Eh as <-.
    + unfold peer_sec_data_encode in Eh. by rewrite V in Eh.
Qed.

(** ** Decoding a formatted message *)

Lemma be_field_body_len h rest :
  data_wf h -> be_field 8 4 (data_fmt h ++ rest) = dh_body_len h.
Proof.
  intros (_ & H & _). unfold data_fmt. rewrite <-!app_assoc. rewrite be_field_skip by (cbn; lia).
  change (8 - length data_magic)%nat with 4%nat. by be_fields.
Qed.

(** What the decoder answers to the outcome of the switch. *)
Definition decoded (w : peer_pair_wire) (h : peer_sec_data_header) (incarnation : Z)
    (r : option (Z * Z * list byte * peer_pair_wire)) : parsed * Z * peer_pair_wire :=
  match r with
  | None => (Malformed, 0, w)
  | Some (type, handle, payload, w') =>
      (Frame (MsgHeader type 1 0 (Z.of_nat (length payload)) incarnation handle) payload,
       64 + dh_body_len h, w')
  end.

Definition on_lane (w : peer_pair_wire) (h : peer_sec_data_header) : Prop :=
  dh_association h = pr_association (pw_pair w) /\ dh_lane_id h = pr_lane_id (pw_pair w) /\
  dh_lane_generation h = pr_lane_generation (pw_pair w).

Lemma pair_decode_fmt w h body rest incarnation capacity :
  data_wf h -> data_valid h = true -> Z.of_nat (length body) = dh_body_len h -> on_lane w h ->
  incarnation <> 0 ->
  peer_pair_wire_decode w (data_fmt h ++ body ++ rest) incarnation capacity =
    decoded w h incarnation (pair_frame w h body capacity).
Proof.
  intros Hw Hv Hb (La & Li & Lg) Hi. unfold peer_pair_wire_decode.
  assert (length (data_fmt h) = 64%nat) as Hl by apply length_data_fmt, Hw.
  rewrite (proj2 (Z.eqb_neq _ _) Hi), !length_app, Hl, (proj2 (Nat.ltb_ge _ _)) by lia.
  rewrite be_field_body_len by done.
  change (data_fmt h ++ body ++ rest) with (data_magic ++ drop 4 (data_fmt h) ++ body ++ rest) at 1.
  rewrite take_app_length' by done. unfold bytes_eq at 1. rewrite bool_decide_true by done.
  assert (dh_body_len h <= PEER_SEC_DATA_MAX) as Hm.
  { unfold data_valid in Hv. split_valid Hv. by apply Z.leb_le. }
  rewrite (proj2 (Z.ltb_ge PEER_SEC_DATA_MAX _)) by lia. cbn [negb orb].
  rewrite (proj2 (Z.ltb_ge _ _)) by lia.
  rewrite app_assoc, take_app_length' by (rewrite length_app; lia).
  rewrite <-La, <-Li, <-Lg, data_decode_fmt, drop_app_length' by done.
  unfold decoded. by destruct (pair_frame w h body capacity) as [[[[? ?] ?] ?]|].
Qed.

Lemma pair_decode_inv w input incarnation capacity inh payload n w' :
  peer_pair_wire_decode w input incarnation capacity = (Frame inh payload, n, w') ->
  exists h body rest, input = data_fmt h ++ body ++ rest /\ data_wf h /\ data_valid h = true /\
    Z.of_nat (length body) = dh_body_len h /\ on_lane w h /\ incarnation <> 0 /\
    n = 64 + dh_body_len h /\
    inh = MsgHeader (mh_type inh) 1 0 (Z.of_nat (length payload)) incarnation (mh_handle inh) /\
    taken w h body (mh_type inh) (mh_handle inh) payload w'.
Proof.
  unfold peer_pair_wire_decode. destruct (Z.eqb_spec incarnation 0); [done|].
  destruct (Nat.ltb_spec (length input) 64); [done|]. destruct (negb _ || _); [done|].
  destruct (Z.ltb_spec (Z.of_nat (length input)) (64 + be_field 8 4 input)) as [|Hn]; [done|].
  set (message := take _ input).
  destruct (peer_sec_data_decode message _ _ _) as [r h] eqn:E. destruct r; try done.
  apply data_decode_inv in E as (Hw & Hv & Ht & Hl & La & Li & Lg).
  destruct (pair_frame _ _ _ _) as [[[[type handle] payload'] w1]|] eqn:Ef; [|done].
  apply pair_frame_taken in Ef; [|by apply Hw]. intros [= <- <- <- <-]. cbn [mh_type mh_handle].
  assert (0 <= be_field 8 4 input) by (apply (be_field_width 8 4); lia).
  assert (length message = Z.to_nat (64 + be_field 8 4 input)) as Hm
    by (unfold message; rewrite length_take; lia).
  exists h, (drop 64 message), (drop (Z.to_nat (64 + be_field 8 4 input)) input).
  split_and!; try done.
  - rewrite <-Ht, app_assoc, take_drop. unfold message. by rewrite take_drop.
  - rewrite length_drop. lia.
  - lia.
Qed.

(** ** A fresh state, and a sample lane *)

Lemma wire_wf_blank p n m :
  length (pr_association p) = 16%nat -> in_width 64 (pr_lane_id p) -> in_width 64 (pr_lane_generation p) ->
  wire_wf (PairWire p 0 0 0 0 (repeat zero_pending n) (repeat zero_stream m)).
Proof.
  intros. constructor; try done; cbn [pw_streams]. apply Forall_forall. intros s Hs.
  apply list_elem_of_In, repeat_spec in Hs as ->. unfold in_width; cbn; lia.
Qed.

Lemma wire_wf_new p w :
  length (pr_association p) = 16%nat -> in_width 64 (pr_lane_id p) -> in_width 64 (pr_lane_generation p) ->
  peer_pair_wire_new true p = Some w -> wire_wf w.
Proof.
  intros H1 H2 H3. unfold peer_pair_wire_new. destruct (_ || _); [done|]. intros H%(inj Some).
  rewrite <-H. by apply wire_wf_blank.
Qed.

Definition demo_lane : dmesh_peer_pair :=
  zero_pair <| pr_association := repeat x07 16 |> <| pr_lane_id := 3 |> <| pr_lane_generation := 9 |>.
Definition demo_wire : peer_pair_wire :=
  default (PairWire demo_lane 0 0 0 0 [] []) (peer_pair_wire_new true demo_lane).
Lemma demo_wire_new : peer_pair_wire_new true demo_lane = Some demo_wire.
Proof. reflexivity. Qed.

Definition demo_name (size : nat) : list byte := x61 :: repeat x00 (size - 1).
Definition demo_open_frame : list byte :=
  header_image (MsgHeader DMESH_PEER_MSG_STREAM_OPEN 1 0 OPEN_LEN 5 0) ++
  open_image (StreamOpen (demo_name 64) (demo_name 64) (demo_name 128) 80 0 42 6).
(** The answer to it, accepting the stream on [handle]. *)
Definition demo_accept_frame (handle : Z) : list byte :=
  header_image (MsgHeader DMESH_PEER_MSG_STREAM_OPEN_ACK 1 0 OPEN_ACK_LEN 5 0) ++
  open_ack_image (OpenAck 42 handle 0 0).
Definition demo_encode (w : peer_pair_wire) (frame : list byte) : list byte :=
  default [] (peer_pair_wire_encode w frame FRAME_CAP).1.

(** ** Lengths *)

Lemma length_data_encode h bytes : peer_sec_data_encode h = Some bytes -> length bytes = 64%nat.
Proof.
  unfold peer_sec_data_encode. destruct (data_valid h); cbn [negb]; [|done].
  destruct (writes_data h (WCursor [] PEER_SEC_DATA_HEADER_LEN false)) as (_ & F & O).
  destruct (decide (length (data_fmt h) <= 64)%nat) as [Hl|Hl].
  - rewrite F by done. cbn [w_bad w_left w_out orb app].
    destruct (PEER_SEC_DATA_HEADER_LEN - length (data_fmt h) =? 0)%nat eqn:E0; [|done]. intros <-%(inj Some).
    apply Nat.eqb_eq in E0. unfold PEER_SEC_DATA_HEADER_LEN in E0. lia.
  - rewrite O; [done|done|cbn [w_left]; unfold PEER_SEC_DATA_HEADER_LEN; lia].
Qed.

Lemma length_pair_message w inh body capacity h out w' :
  pair_message w inh body capacity = Some (h, out, w') ->
  Z.of_nat (length body) = mh_length inh -> 64 <= capacity -> 64 + Z.of_nat (length out) <= capacity.
Proof.
  intros H Hl Hc. unfold pair_message in H. repeat case_match; simplify_eq; bool_facts;
    unfold OPEN_LEN, OPEN_BODY, OPEN_ACK_LEN, ACK_ENTRY_LEN, ACK_ENTRY in *.
  all: try (rewrite length_open_body by lia; lia).
  all: try (rewrite length_app, !length_be_bytes; lia).
  all: try (cbn [length]; lia).
  all: erewrite length_acks_wire by eassumption; pose proof (Z.div_mod (mh_length inh) 16 ltac:(lia));
    destruct (ack_entries_image (Z.to_nat (mh_length inh / 16)) body) as (_ & _ & Hn); [lia|];
    match goal with H : ack_entries_of _ _ = _ |- _ => rewrite H in Hn end; lia.
Qed.

(** What encoding returns fits the buffer it was given. *)
Lemma length_pair_encode w input capacity bytes w' :
  peer_pair_wire_encode w input capacity = (Some bytes, w') -> Z.of_nat (length bytes) <= capacity.
Proof.
  unfold peer_pair_wire_encode. destruct (_ || _) eqn:E1; [done|]. cbn zeta.
  destruct (_ || _ || _) eqn:E2; [done|]. unfold HEADER_LEN in *. bool_facts.
  destruct (pair_message _ _ _ _) as [[[h out] w1]|] eqn:Em; [|done].
  destruct (peer_sec_data_encode h) as [hb|] eqn:Eh; [|done]. intros [= <- <-].
  apply length_data_encode in Eh. rewrite length_app, Eh.
  apply length_pair_message in Em; [lia| |lia]. rewrite length_drop. lia.
Qed.
