(* ===== verification/PairWireTrip.v ===== *)
(** * Pod-pair wire: the two ends agree

    A frame one end accepts for sending is exactly the frame the other end
    reads, and the generations both ends hold for a stream stay equal. *)

From S2P Require Import Prelude Cursor PeerIdentity SecurityWire SecurityCodec PeerFrame PairWire PairWireProofs.

(** ** Agreement of the generation tables *)

Definition gen_at (w : peer_pair_wire) (handle : Z) : option Z := ss_generation <$> stream w handle.

Lemma stream_set handle s t w handle' :
  stream w handle = Some t ->
  stream (set_stream handle s w) handle' =
    if bool_decide (stream_index handle' = stream_index handle) then Some s else stream w handle'.
Proof.
  intros H. case_bool_decide as E.
  - transitivity (stream (set_stream handle s w) handle).
    + unfold stream. by rewrite E.
    + by eapply stream_set_same.
  - unfold stream, set_stream. destruct (stream_index handle) as [i|]; [|done].
    destruct (stream_index handle') as [j|]; [|done]. cbn. apply list_lookup_insert_ne. congruence.
Qed.

Lemma gen_at_set handle s t w handle' :
  stream w handle = Some t ->
  gen_at (set_stream handle s w) handle' =
    if bool_decide (stream_index handle' = stream_index handle) then Some (ss_generation s)
    else gen_at w handle'.
Proof. intros H. unfold gen_at. rewrite (stream_set _ _ _ _ _ H). by case_bool_decide. Qed.

Lemma gen_at_keep handle s t w handle' :
  stream w handle = Some t -> ss_generation s = ss_generation t ->
  gen_at (set_stream handle s w) handle' = gen_at w handle'.
Proof.
  intros H E. rewrite (gen_at_set _ _ _ _ _ H). case_bool_decide as D; [|done].
  unfold gen_at, stream in *. rewrite D, H. cbn. by rewrite E.
Qed.

(** Two ends of one lane. *)
Record ends (a b : peer_pair_wire) : Prop := {
  en_association : pr_association (pw_pair a) = pr_association (pw_pair b);
  en_lane : pr_lane_id (pw_pair a) = pr_lane_id (pw_pair b);
  en_lane_generation : pr_lane_generation (pw_pair a) = pr_lane_generation (pw_pair b);
  en_streams : length (pw_streams a) = length (pw_streams b);
}.

Lemma ends_stream a b handle s :
  ends a b -> stream a handle = Some s -> exists t, stream b handle = Some t.
Proof.
  intros [_ _ _ L]. unfold stream. destruct (stream_index handle) as [i|]; [|done]. cbn.
  intros H%lookup_lt_Some. apply lookup_lt_is_Some. by rewrite <-L.
Qed.

(** What the receiver [b] must hold for the frame that [a] sends to be in
    order: the conditions the peer's protocol establishes. *)
Definition in_order (a b : peer_pair_wire) (inh : dmesh_peer_msg_header) (body : list byte) : Prop :=
  let type := mh_type inh in let handle := mh_handle inh in
  (type = DMESH_PEER_MSG_STREAM_OPEN ->
     pw_received_token b = 0 /\ pw_remote_generation b <= pw_next_generation a) /\
  (type = DMESH_PEER_MSG_STREAM_OPEN_ACK ->
     is_Some (find_pending 0 (pw_pending b) (pw_received_token a) (pw_received_generation a))) /\
  (type = DMESH_PEER_MSG_DATA \/ type = DMESH_PEER_MSG_STREAM_FIN ->
     gen_at a handle = gen_at b handle /\
     exists t, stream b handle = Some t /\ ss_rx_fin t = false /\
       (type = DMESH_PEER_MSG_DATA -> ss_rx_sequence t <= px_seq (prefix_of body))) /\
  (type = DMESH_PEER_MSG_STREAM_ACK ->
     Forall (fun e => gen_at a (ae_handle e) = gen_at b (ae_handle e))
       (ack_entries_of (Z.to_nat (mh_length inh / ACK_ENTRY_LEN)) body)).

Lemma wire_open_body o :
  length (so_src_pod_uid o) = 64%nat -> length (so_dst_pod_uid o) = 64%nat ->
  length (so_src_service_key o) = 128%nat -> in_width 16 (so_dst_port o) ->
  in_width 64 (so_src_generation o) -> so_reserved o = 0 ->
  wire_open (so_source_token o) (open_body o) = o.
Proof.
  intros H1 H2 H3 H4 H5 H6. unfold wire_open, open_body.
  rewrite field_head by done. rewrite field_skip by (rewrite H1; lia). rewrite H1, field_head by done.
  rewrite (field_skip 128) by (rewrite H1; lia). rewrite H1, (field_skip (128 - 64)) by (rewrite H2; lia).
  rewrite H2, field_head by done.
  rewrite !app_assoc. rewrite <-(app_assoc _ (be_bytes 2 _)).
  assert (length ((so_src_pod_uid o ++ so_dst_pod_uid o) ++ so_src_service_key o) = 256%nat) as L
    by (rewrite !length_app; lia).
  rewrite (be_field_skip 256), (be_field_skip 258) by (rewrite L; lia). rewrite L. nat_norm. be_fields.
  rewrite wrap_small by done. destruct o; cbn in *. by rewrite H6.
Qed.

Lemma open_of_wf bs : length bs = 272%nat -> so_reserved (open_of bs) = 0 ->
  wire_open (so_source_token (open_of bs)) (open_body (open_of bs)) = open_of bs.
Proof.
  intros L R. apply wire_open_body; try done; cbn;
    first [apply length_field | apply (num_field_width _ 2) | apply (num_field_width _ 8)]; lia.
Qed.

Lemma acks_trip a b entries first out :
  Forall entry_wf entries -> ends a b ->
  Forall (fun e => gen_at a (ae_handle e) = gen_at b (ae_handle e)) entries ->
  wire_wf a -> acks_wire a entries = Some out ->
  match first, entries with Some hd, e :: _ => ae_handle e = hd | _, _ => True end ->
  acks_host b first (length entries) out = Some (concat (ack_entry_image <$> entries)).
Proof.
  intros HF HE HG W. revert first out.
  induction entries as [|e rest IH]; intros first out; cbn [acks_wire length]; [by intros [= <-]|].
  apply Forall_cons in HF as [(F1 & F2 & F3) HF]. apply Forall_cons in HG as [G HG].
  destruct (stream a (ae_handle e)) as [s|] eqn:Hs; [|done].
  destruct (_ || _) eqn:E; [done|]. bool_facts.
  destruct (acks_wire a rest) as [o|] eqn:Ho; [|done]. cbn [mbind option_bind]. intros [= <-] Hfirst.
  cbn [acks_host]. assert (length (ack_wire (ss_generation s) e) = 20%nat) as L
    by (unfold ack_wire; by rewrite !length_app, !length_be_bytes).
  rewrite take_app_length', drop_app_length' by done.
  pose proof (stream_wf _ _ _ W Hs) as Hg.
  assert (wire_ack (ack_wire (ss_generation s) e) = (e, ss_generation s)) as ->.
  { unfold wire_ack, ack_wire. be_fields. destruct e; cbn in *. by subst. }
  unfold gen_at in G. rewrite Hs in G. destruct (stream b (ae_handle e)) as [t|]; [|done].
  cbn in G. injection G as <-.
  rewrite (proj2 (Z.eqb_neq _ _)), Z.eqb_refl, (proj2 (Z.eqb_neq _ _)), (proj2 (Z.ltb_ge _ _)) by done.
  rewrite (IH HF HG None o) by done. destruct first as [hd|]; cbn; [|done].
  by rewrite Hfirst, Z.eqb_refl.
Qed.

(** ** One message across the lane *)

Definition keeps (w w' : peer_pair_wire) : Prop :=
  pw_pair w' = pw_pair w /\ length (pw_streams w') = length (pw_streams w).

Lemma keeps_set handle s w : keeps w (set_stream handle s w).
Proof.
  unfold keeps, set_stream. destruct (stream_index handle); cbn; [|done]. by rewrite length_insert.
Qed.

Lemma sent_keeps w inh body h out w' : sent w inh body h out w' -> keeps w w'.
Proof.
  destruct 1; done || apply keeps_set.
Qed.

Lemma taken_keeps w h body type handle payload w' : taken w h body type handle payload w' -> keeps w w'.
Proof.
  destruct 1; done || apply keeps_set.
Qed.

Lemma ends_keeps a b a' b' : ends a b -> keeps a a' -> keeps b b' -> ends a' b'.
Proof. intros [] [Ka La] [Kb Lb]. constructor; rewrite ?Ka, ?Kb, ?La, ?Lb; done. Qed.

(** The generations [a'] and [b'] hold are as equal as they were, and an
    accepted stream has the same generation at both ends. *)
Definition agreement (a b a' b' : peer_pair_wire) (inh : dmesh_peer_msg_header) (body : list byte) : Prop :=
  (forall handle, gen_at a handle = gen_at b handle -> gen_at a' handle = gen_at b' handle) /\
  (mh_type inh = DMESH_PEER_MSG_STREAM_OPEN_ACK -> oa_status (open_ack_of body) = 0 ->
     gen_at a' (oa_handle (open_ack_of body)) = Some (pw_received_generation a) /\
     gen_at b' (oa_handle (open_ack_of body)) = Some (pw_received_generation a)).

Section message.
  Context (a b : peer_pair_wire) (inh : dmesh_peer_msg_header) (body : list byte).
  Hypothesis (W : wire_wf a) (HF : host_frame inh body) (HE : ends a b) (HO : in_order a b inh body).

Lemma trip_open o i :
  mh_type inh = DMESH_PEER_MSG_STREAM_OPEN -> mh_handle inh = 0 -> mh_length inh = OPEN_LEN ->
  o = open_of body -> open_fields_ok o = true -> so_dst_port o <> 0 -> so_reserved o = 0 ->
  so_src_generation o <> 0 ->
  let h := data_header a PEER_SEC_STREAM_OPEN (so_source_token o) (pw_next_generation a + 1) 0 (open_body o) in
  let a' := a <| pw_next_generation := pw_next_generation a + 1 |>
     <| pw_pending ::= <[i := PendingOpen (so_source_token o) (pw_next_generation a + 1)]> |> in
  exists b', taken b h (open_body o) (mh_type inh) (mh_handle inh) body b' /\ agreement a b a' b' inh body.
Proof using HF HO.
  intros Ht Hh Hl -> Hok Hp Hr Hg h a'. destruct HF as [_ _ _ Hlen].
  assert (length body = 272%nat) as L by (unfold OPEN_LEN in Hl; lia).
  destruct HO as (Ho & _). destruct (Ho Ht) as [Ho1 Ho2]. rewrite Ht, Hh.
  eexists. split.
  - rewrite <-(open_image_of body L) at 2.
    apply taken_open; try done; unfold h; cbn [data_header dh_type dh_body_len dh_stream_generation dh_handle].
    + by rewrite length_open_body.
    + lia.
    + symmetry. by apply open_of_wf.
  - split; [done|]. by rewrite Ht.
Qed.

Lemma trip_ack_body (ack : dmesh_peer_stream_open_ack) :
  mh_length inh = OPEN_ACK_LEN -> ack = open_ack_of body -> 0 <= oa_status ack < REFUSE_MAX ->
  oa_reserved ack = 0 ->
  be_field 0 4 (be_bytes 4 (oa_handle ack) ++ be_bytes 4 (oa_status ack)) = oa_handle ack /\
  be_field 4 4 (be_bytes 4 (oa_handle ack) ++ be_bytes 4 (oa_status ack)) = oa_status ack /\
  open_ack_image (OpenAck (oa_source_token ack) (oa_handle ack) (oa_status ack) 0) = body.
Proof using HF.
  intros Hl -> Hs Hr. destruct HF as [_ _ _ Hlen].
  assert (length body = 16%nat) as L by (unfold OPEN_ACK_LEN in Hl; lia).
  assert (in_width 32 (oa_handle (open_ack_of body))) as Hw by (apply (num_field_width 4 4); lia).
  assert (in_width 32 (oa_status (open_ack_of body))) by (unfold in_width, REFUSE_MAX in *; lia).
  be_fields. split_and!; [done|done|]. rewrite <-(open_ack_image_of body L) at 4.
  destruct (open_ack_of body); cbn in *. by rewrite Hr.
Qed.

Lemma trip_acks count e rest s out :
  mh_type inh = DMESH_PEER_MSG_STREAM_ACK -> mh_handle inh = 0 ->
  mh_length inh = ACK_ENTRY_LEN * count -> 0 < count <= DMESH_STREAM_ACK_BATCH ->
  ack_entries_of (Z.to_nat count) body = e :: rest -> acks_wire a (e :: rest) = Some out ->
  stream a (ae_handle e) = Some s ->
  taken b (data_header a PEER_SEC_STREAM_ACK (ae_handle e) (ss_generation s) 0 out) out
    (mh_type inh) (mh_handle inh) body b.
Proof using W HF HE HO.
  intros Ht Hh Hl Hc Ha Ho Hs. destruct HF as [_ _ _ Hlen]. unfold ACK_ENTRY_LEN in *.
  destruct HO as (_ & _ & _ & Hgen). specialize (Hgen Ht). unfold ACK_ENTRY_LEN in Hgen.
  rewrite Hl, Z.mul_comm, Z.div_mul, Ha in Hgen by done.
  destruct (ack_entries_image (Z.to_nat count) body) as (Hi & Hwf & Hn); [lia|].
  rewrite Ha in Hi, Hwf, Hn.
  assert (ss_generation s <> 0) as Hz.
  { cbn [acks_wire] in Ho. rewrite Hs in Ho. by destruct (Z.eqb_spec (ss_generation s) 0). }
  pose proof Hgen as [G _]%Forall_cons. unfold gen_at in G. rewrite Hs in G.
  destruct (stream b (ae_handle e)) as [t|] eqn:Hb; [|done]. cbn in G. injection G as G.
  rewrite Ht, Hh. eapply (taken_acks _ _ _ t count); try done; cbn [dh_stream_generation dh_handle data_header].
  - by rewrite <-G.
  - cbn. rewrite (length_acks_wire _ _ _ Ho), Hn. unfold ACK_ENTRY. lia.
  - rewrite <-Hn, <-Hi. by apply (acks_trip a b).
Qed.

Lemma trip_stream s :
  mh_type inh = DMESH_PEER_MSG_DATA \/ mh_type inh = DMESH_PEER_MSG_STREAM_FIN ->
  stream a (mh_handle inh) = Some s ->
  exists t, stream b (mh_handle inh) = Some t /\ ss_generation t = ss_generation s /\ ss_rx_fin t = false /\
    (mh_type inh = DMESH_PEER_MSG_DATA -> ss_rx_sequence t <= px_seq (prefix_of body)).
Proof using HO.
  intros Ht Hs. destruct HO as (_ & _ & H & _). destruct (H Ht) as (G & t & Hb & Hf & Hq).
  exists t. unfold gen_at in G. rewrite Hs, Hb in G. by injection G as ->.
Qed.

Lemma trip_data s :
  mh_type inh = DMESH_PEER_MSG_DATA -> stream a (mh_handle inh) = Some s -> ss_generation s <> 0 ->
  PREFIX_LEN < mh_length inh -> px_reserved (prefix_of body) = 0 ->
  exists b', taken b (data_header a PEER_SEC_DATA (mh_handle inh) (ss_generation s)
                        (px_seq (prefix_of body) + 1) (drop 8 body)) (drop 8 body)
               (mh_type inh) (mh_handle inh) body b' /\ agreement a b a b' inh body.
Proof using HF HO.
  intros Ht Hs Hz Hl Hres.
  destruct (trip_stream s) as (t & Hb & Hg & Hf & Hq); [by left|done|]. specialize (Hq Ht).
  destruct HF as [_ _ _ Hlen]. unfold PREFIX_LEN in Hl.
  assert (in_width 32 (px_seq (prefix_of body))) as Hw by (apply (num_field_width 0 4); lia).
  exists (set_stream (mh_handle inh) (t <| ss_rx_sequence := px_seq (prefix_of body) + 1 |>) b). split.
  - rewrite Ht. rewrite <-(prefix_image_of body) at 4 by lia.
    replace (prefix_of body) with (DataPrefix (u32 (px_seq (prefix_of body) + 1 - 1)) 0) at 2.
    2:{ rewrite Z.add_simpl_r, wrap_small by done. destruct (prefix_of body); cbn in *. by subst. }
    match goal with |- taken _ ?h ?o _ _ _ _ => apply (taken_data b h o t) end; try done;
      cbn [dh_sequence data_header]; [by rewrite Hg|lia|].
    unfold in_width, UINT32_MAX in *. lia.
  - split; [|by rewrite Ht]. intros handle E. by rewrite (gen_at_keep _ _ _ _ _ Hb).
Qed.

Lemma sent_taken h out a' :
  sent a inh body h out a' ->
  exists b', taken b h out (mh_type inh) (mh_handle inh) body b' /\ agreement a b a' b' inh body.
Proof using W HF HE HO.
  destruct 1 as [o i Ht Hh Hl Eo Hf Hp Hport Hres Hsg Hn Hex Hfirst|ack Ht Hh Hl Ea Hr Htok Hres Hst Hz
    |ack s Ht Hh Hl Ea Hr Htok Hres Hst Hs|s Ht Hs Hz Hfin Hl Hres Hd|s Ht Hs Hz Hfin Hl
    |count e rest s out Ht Hh Hl Hc He Ho Hs].
  - by apply trip_open.
  - destruct (trip_ack_body ack) as (B1 & B2 & B3); [done|done|lia|done|].
    destruct HO as (_ & Hpend & _). destruct (Hpend Ht) as [i Hi]. rewrite Htok in *.
    exists (b <| pw_pending ::= <[i := zero_pending]> |>). split.
    + rewrite Hz in *. rewrite Ht, Hh, <-B3.
      match goal with |- taken _ ?h ?o _ _ _ _ => apply (taken_refused b h o i (oa_status ack)) end;
        try done; lia.
    + split; [done|]. rewrite <-Ea. intros _ E. lia.
  - destruct (trip_ack_body ack) as (B1 & B2 & B3); [done|done|rewrite Hst; done|done|].
    destruct HO as (_ & Hpend & _). destruct (Hpend Ht) as [i Hi]. rewrite Htok in *.
    destruct (ends_stream a b _ _ HE Hs) as [t Hb].
    exists ((set_stream (oa_handle ack) (StreamState (pw_received_generation a) 0 false false) b)
              <| pw_pending ::= <[i := zero_pending]> |>). split.
    + rewrite Hst in *. rewrite Ht, Hh, <-B3.
      match goal with |- taken _ ?h ?o _ _ _ _ => by apply (taken_accepted b h o i (oa_handle ack) t) end.
    + split.
      * intros handle E. cbn. change (gen_at (set_stream (oa_handle ack) (StreamState (pw_received_generation a) 0 false false) a) handle =
          gen_at (set_stream (oa_handle ack) (StreamState (pw_received_generation a) 0 false false) b) handle).
        rewrite (gen_at_set _ _ _ _ _ Hs), (gen_at_set _ _ _ _ _ Hb). by case_bool_decide.
      * intros _ _. rewrite <-Ea. unfold gen_at.
        split; [pose proof (stream_set_same _ (StreamState (pw_received_generation a) 0 false false) _ _ Hs) as E
               |pose proof (stream_set_same _ (StreamState (pw_received_generation a) 0 false false) _ _ Hb) as E];
          exact (f_equal (fmap ss_generation) E).
  - by apply trip_data.
  - destruct (trip_stream s) as (t & Hb & Hg & Hf & _); [by right|done|].
    destruct HF as [_ _ _ Hlen]. assert (body = []) as -> by (apply length_zero_iff_nil; lia).
    exists (set_stream (mh_handle inh) (t <| ss_rx_fin := true |>) b). split.
    + rewrite Ht. match goal with |- taken _ ?h ?o _ _ _ _ => apply (taken_fin b h o t) end; try done.
      by rewrite Hg.
    + split; [|by rewrite Ht]. intros handle E.
      by rewrite (gen_at_keep _ _ _ _ _ Hb), (gen_at_keep _ _ _ _ _ Hs).
  - exists b. split; [by eapply trip_acks|]. split; [done|]. by rewrite Ht.
Qed.
End message.

(** C34: One message across a Pod-pair lane.  Whatever host frame an end accepts
    for encoding, the other end of the lane, when it is in order for it, reads
    back exactly that frame (type, handle and payload, under its own channel
    incarnation), whatever bytes follow; it consumes exactly the encoded bytes;
    the two ends still describe the same lane; every handle on which the
    generations agreed still agrees, and an accepted stream has one generation
    at both ends. *)
Theorem pair_wire_trip a b frame capacity bytes a' rest incarnation capacity' :
  wire_wf a -> ends a b -> incarnation <> 0 -> DMESH_PEER_FRAME_MAX <= capacity' ->
  peer_pair_wire_encode a frame capacity = (Some bytes, a') ->
  in_order a b (header_of frame) (drop 16 frame) ->
  exists b',
    peer_pair_wire_decode b (bytes ++ rest) incarnation capacity' =
      (Frame (MsgHeader (mh_type (header_of frame)) 1 0 (mh_length (header_of frame)) incarnation
                (mh_handle (header_of frame))) (drop 16 frame),
       Z.of_nat (length bytes), b') /\
    ends a' b' /\ agreement a b a' b' (header_of frame) (drop 16 frame).
Proof.
  intros W HE Hi Hc Henc HO.
  apply pair_encode_inv in Henc as (HF & h & out & HS & Hw & Hv & W' & ->); [|done].
  destruct (sent_taken a b _ _ W HF HE HO _ _ _ HS) as (b' & HT & HA).
  destruct (sent_body_len _ _ _ _ _ _ HS) as (Hb & La & Li & Lg).
  assert (dh_body_len h <= PEER_SEC_DATA_MAX) as Hm.
  { unfold data_valid in Hv. split_valid Hv. by apply Z.leb_le. }
  exists b'. split_and!; [|by eapply ends_keeps; [done|eapply sent_keeps|eapply taken_keeps]|done].
  rewrite <-app_assoc, pair_decode_fmt; try done.
  - rewrite (taken_pair_frame _ _ _ _ _ _ _ _ Hc Hm HT). cbn [decoded].
    rewrite (hf_length _ _ HF), length_app, length_data_fmt by apply Hw. do 2 f_equal. lia.
  - destruct HE. split_and!; congruence.
Qed.

Lemma pair_wire_trip_witness :
  exists b', peer_pair_wire_decode demo_wire (demo_encode demo_wire demo_open_frame ++ [x01]) 8 FRAME_CAP =
    (Frame (MsgHeader DMESH_PEER_MSG_STREAM_OPEN 1 0 OPEN_LEN 8 0) (drop 16 demo_open_frame),
     Z.of_nat (length (demo_encode demo_wire demo_open_frame)), b').
Proof.
  assert (wire_wf demo_wire) as W.
  { apply (wire_wf_new demo_lane); [done|unfold in_width; cbn; lia..|apply demo_wire_new]. }
  assert (ends demo_wire demo_wire) as E by done.
  assert (8 <> 0) as Hi by lia.
  assert (DMESH_PEER_FRAME_MAX <= FRAME_CAP) as Hc by (vm_compute; discriminate).
  assert (peer_pair_wire_encode demo_wire demo_open_frame FRAME_CAP =
    (Some (demo_encode demo_wire demo_open_frame), (peer_pair_wire_encode demo_wire demo_open_frame FRAME_CAP).2))
    as He by (vm_compute; reflexivity).
  assert (in_order demo_wire demo_wire (header_of demo_open_frame) (drop 16 demo_open_frame)) as HO.
  { assert (mh_type (header_of demo_open_frame) = 1) as Ht by reflexivity.
    unfold in_order. rewrite Ht. split_and!.
    - intros _. split; [reflexivity|vm_compute; discriminate].
    - intros H; discriminate H.
    - intros [H|H]; discriminate H.
    - intros H; discriminate H. }
  destruct (pair_wire_trip demo_wire demo_wire demo_open_frame FRAME_CAP _ _ [x01] 8 FRAME_CAP W E Hi Hc He HO)
    as (b' & H & _). exists b'. exact H.
Defined.

(** ** Pod-pair wire: a message is taken at most once

    Over every run of encodings and decodings of one end, a message that was
    taken once is refused ever after: the generations of streams are never
    reused on a handle. *)

(** ** Runs of one end *)

Inductive pair_op :=
  | Encode (frame : list byte) (capacity : Z)
  | Decode (bytes : list byte) (incarnation capacity : Z).

Definition pair_exec (w : peer_pair_wire) (op : pair_op) : peer_pair_wire :=
  match op with
  | Encode frame capacity => (peer_pair_wire_encode w frame capacity).2
  | Decode bytes incarnation capacity => (peer_pair_wire_decode w bytes incarnation capacity).2
  end.
Definition pair_run (w : peer_pair_wire) (ops : list pair_op) : peer_pair_wire := foldl pair_exec w ops.

(** The half of the handle namespace a handle is in. *)
Definition owner_of (handle : Z) : bool := negb (Z.land handle DMESH_PEER_HANDLE_OWNER_BIT =? 0).

(** The two ends allocate in disjoint halves of the namespace: this end accepts
    streams on handles of its half [own], and its own opens are accepted by the
    peer on handles of the other half. *)
Definition accepts_on (half : bool) (type : Z) (body : list byte) : Prop :=
  type = DMESH_PEER_MSG_STREAM_OPEN_ACK -> oa_status (open_ack_of body) = 0 ->
  owner_of (oa_handle (open_ack_of body)) = half.
Definition disciplined (own : bool) (w : peer_pair_wire) (op : pair_op) : Prop :=
  match op with
  | Encode frame _ => accepts_on own (mh_type (header_of frame)) (drop 16 frame)
  | Decode bytes incarnation capacity =>
    match peer_pair_wire_decode w bytes incarnation capacity with
    | (Frame h payload, _, _) => accepts_on (negb own) (mh_type h) payload
    | _ => True
    end
  end.
Fixpoint disciplined_run (own : bool) (w : peer_pair_wire) (ops : list pair_op) : Prop :=
  match ops with
  | [] => True
  | op :: rest => disciplined own w op /\ disciplined_run own (pair_exec w op) rest
  end.

(** ** Generations that cannot come back *)

(** A generation of the peer's opens that no received open still carries. *)
Definition retired_remote (w : peer_pair_wire) (g : Z) : Prop :=
  g <= pw_remote_generation w /\ (pw_received_token w <> 0 -> g < pw_received_generation w).
(** A generation of this end's opens that is no longer pending. *)
Definition retired_local (w : peer_pair_wire) (g : Z) : Prop :=
  g <= pw_next_generation w /\
  forall i p, pw_pending w !! i = Some p -> po_token p <> 0 -> po_generation p <> g.

Definition slot_half (i : nat) : bool := DMESH_PEER_STREAMS_MAX <=? Z.of_nat i.
Definition gen_retired (own : bool) (w : peer_pair_wire) (i : nat) (g : Z) : Prop :=
  if Bool.eqb (slot_half i) own then retired_remote w g else retired_local w g.

Lemma stream_index_half handle i : stream_index handle = Some i -> slot_half i = owner_of handle.
Proof.
  unfold stream_index. destruct (_ || _) eqn:E; [done|]. bool_facts. intros [= <-].
  assert (0 <= Z.land handle DMESH_PEER_HANDLE_INDEX_MASK) by (apply Z.land_nonneg; by right).
  unfold slot_half, owner_of, DMESH_PEER_STREAMS_MAX in *.
  destruct (_ =? 0) eqn:Eo; cbn [negb]; [apply Z.leb_gt|apply Z.leb_le]; lia.
Qed.

Record pair_inv (own : bool) (w : peer_pair_wire) : Prop := {
  pi_received : pw_received_token w <> 0 -> pw_received_generation w <= pw_remote_generation w;
  pi_pending : forall i p, pw_pending w !! i = Some p -> po_token p <> 0 ->
    po_generation p <= pw_next_generation w;
  pi_distinct : forall i j p q, pw_pending w !! i = Some p -> pw_pending w !! j = Some q ->
    po_token p <> 0 -> po_token q <> 0 -> po_generation p = po_generation q -> i = j;
  pi_streams : forall i s, pw_streams w !! i = Some s -> ss_generation s <> 0 ->
    gen_retired own w i (ss_generation s);
}.

(** What a run may do: retired generations stay retired, the peer's newest
    generation only grows, and a stream slot either keeps its stream, with more
    of it received, or holds a stream whose generation was not retired. *)
Record wire_evolves (own : bool) (w w' : peer_pair_wire) : Prop := {
  ev_remote : forall g, retired_remote w g -> retired_remote w' g;
  ev_local : forall g, retired_local w g -> retired_local w' g;
  ev_newest : pw_remote_generation w <= pw_remote_generation w';
  ev_pair : pw_pair w' = pw_pair w;
  ev_streams : forall i s', pw_streams w' !! i = Some s' ->
    (exists s, pw_streams w !! i = Some s /\ ss_generation s' = ss_generation s /\
       ss_rx_sequence s <= ss_rx_sequence s' /\ (ss_rx_fin s = true -> ss_rx_fin s' = true)) \/
    ~ gen_retired own w i (ss_generation s');
}.

Lemma ev_retired own w w' i g : wire_evolves own w w' -> gen_retired own w i g -> gen_retired own w' i g.
Proof. intros [H1 H2 _ _ _]. unfold gen_retired. destruct (Bool.eqb _ _); [apply H1|apply H2]. Qed.

#[export] Instance wire_evolves_refl own : Reflexive (wire_evolves own).
Proof. intros w. constructor; try done. intros i s Hs. left. by exists s. Qed.

#[export] Instance wire_evolves_trans own : Transitive (wire_evolves own).
Proof.
  intros a b c Hab Hbc. constructor.
  - intros g H. by apply (ev_remote _ _ _ Hbc), (ev_remote _ _ _ Hab).
  - intros g H. by apply (ev_local _ _ _ Hbc), (ev_local _ _ _ Hab).
  - etrans; [apply (ev_newest _ _ _ Hab)|apply (ev_newest _ _ _ Hbc)].
  - by rewrite (ev_pair _ _ _ Hbc), (ev_pair _ _ _ Hab).
  - intros i s2 H2. destruct (ev_streams _ _ _ Hbc i s2 H2) as [(s1 & H1 & G1 & Q1 & F1)|N].
    + destruct (ev_streams _ _ _ Hab i s1 H1) as [(s & H0 & G0 & Q0 & F0)|N].
      * left. exists s. split_and!; [done|congruence|lia|auto].
      * right. by rewrite G1.
    + right. intros R. by apply N, (ev_retired _ _ _ _ _ Hab).
Qed.

(** A step that changes no stream slot but [i], which becomes [s']. *)
Lemma wire_evolves_slot own w w' i s s' :
  (forall g, retired_remote w g -> retired_remote w' g) ->
  (forall g, retired_local w g -> retired_local w' g) ->
  pw_remote_generation w <= pw_remote_generation w' -> pw_pair w' = pw_pair w ->
  pw_streams w' = <[i := s']> (pw_streams w) -> pw_streams w !! i = Some s ->
  (ss_generation s' = ss_generation s /\ ss_rx_sequence s <= ss_rx_sequence s' /\
     (ss_rx_fin s = true -> ss_rx_fin s' = true)) \/ ~ gen_retired own w i (ss_generation s') ->
  wire_evolves own w w'.
Proof.
  intros H1 H2 H3 H4 E Hs HC. constructor; [done..|]. intros j t. rewrite E.
  destruct (decide (i = j)) as [->|Hne].
  - rewrite list_lookup_insert_eq by (by eapply lookup_lt_Some). intros [= <-].
    destruct HC as [HC|HC]; [left; by exists s|by right].
  - rewrite list_lookup_insert_ne by done. intros Ht. left. by exists t.
Qed.

Lemma wire_evolves_same own w w' :
  (forall g, retired_remote w g -> retired_remote w' g) ->
  (forall g, retired_local w g -> retired_local w' g) ->
  pw_remote_generation w <= pw_remote_generation w' -> pw_pair w' = pw_pair w ->
  pw_streams w' = pw_streams w -> wire_evolves own w w'.
Proof. intros. constructor; try done. intros i s. rewrite H3. intros Hs. left. by exists s. Qed.

Lemma stream_slot w handle s :
  stream w handle = Some s ->
  exists i, stream_index handle = Some i /\ pw_streams w !! i = Some s /\
    forall t, set_stream handle t w = w <| pw_streams ::= <[i := t]> |>.
Proof.
  unfold stream, set_stream. destruct (stream_index handle) as [i|]; [|done]. cbn. intros H. by exists i.
Qed.

(** ** Every operation evolves the state and keeps the invariant *)

(** The stream clause of the invariant after a write to slot [i]. *)
Lemma pair_inv_slot own w w' i s' :
  pair_inv own w -> wire_evolves own w w' -> pw_streams w' = <[i := s']> (pw_streams w) ->
  is_Some (pw_streams w !! i) -> (ss_generation s' <> 0 -> gen_retired own w' i (ss_generation s')) ->
  forall j t, pw_streams w' !! j = Some t -> ss_generation t <> 0 -> gen_retired own w' j (ss_generation t).
Proof.
  intros I E Hw Hi Hs j t. rewrite Hw. destruct (decide (i = j)) as [->|Hne].
  - rewrite list_lookup_insert_eq by (by apply lookup_lt_is_Some). by intros [= <-].
  - rewrite list_lookup_insert_ne by done. intros Ht Hz. by eapply ev_retired, (pi_streams _ _ I).
Qed.

(** Steps that leave the pending table and the received open alone. *)
Lemma pair_inv_kept own w w' :
  pair_inv own w -> wire_evolves own w w' -> pw_pending w' = pw_pending w ->
  pw_next_generation w' = pw_next_generation w -> pw_received_token w' = pw_received_token w ->
  pw_received_generation w' = pw_received_generation w ->
  pw_remote_generation w' = pw_remote_generation w ->
  (forall i s', pw_streams w' !! i = Some s' -> ss_generation s' <> 0 ->
     gen_retired own w' i (ss_generation s')) -> pair_inv own w'.
Proof. intros [] E Hp Hn Ht Hg Hr Hs. constructor; rewrite ?Hp, ?Hn, ?Ht, ?Hg, ?Hr; done. Qed.

Lemma step_stream own w handle s s' :
  pair_inv own w -> stream w handle = Some s -> ss_generation s' = ss_generation s ->
  ss_rx_sequence s <= ss_rx_sequence s' -> (ss_rx_fin s = true -> ss_rx_fin s' = true) ->
  wire_evolves own w (set_stream handle s' w) /\ pair_inv own (set_stream handle s' w).
Proof.
  intros I Hs Hg Hq Hf. destruct (stream_slot _ _ _ Hs) as (i & Hi & Hl & ->).
  assert (wire_evolves own w (w <| pw_streams ::= <[i := s']> |>)) as E.
  { eapply (wire_evolves_slot _ _ _ i s s'); try done. by left. }
  split; [done|]. apply (pair_inv_kept _ w); try done.
  apply (pair_inv_slot _ w _ i s'); [done..|]. rewrite Hg. intros Hz.
  by eapply ev_retired, (pi_streams _ _ I).
Qed.

Lemma step_open_out own w i p token :
  pair_inv own w -> pw_pending w !! i = Some p -> po_token p = 0 ->
  let w' := w <| pw_next_generation := pw_next_generation w + 1 |>
              <| pw_pending ::= <[i := PendingOpen token (pw_next_generation w + 1)]> |> in
  wire_evolves own w w' /\ pair_inv own w'.
Proof.
  intros I Hp Hz w'.
  assert (forall j q, pw_pending w' !! j = Some q -> po_token q <> 0 ->
    (j = i /\ po_generation q = pw_next_generation w + 1) \/ pw_pending w !! j = Some q) as Hcase.
  { intros j q. cbn. destruct (decide (i = j)) as [->|Hne].
    - rewrite list_lookup_insert_eq by (by eapply lookup_lt_Some). intros [= <-] _. by left.
    - rewrite list_lookup_insert_ne by done. by right. }
  assert (wire_evolves own w w') as E.
  { apply wire_evolves_same; try done. intros g [Hg Hn]. split; [cbn; lia|].
    intros j q Hq Ht. destruct (Hcase j q Hq Ht) as [[_ ->]|Hq']; [lia|by eapply Hn]. }
  split; [done|]. destruct I as [I1 I2 I3 I4]. constructor; try done.
  - intros j q Hq Ht. destruct (Hcase j q Hq Ht) as [[_ ->]|Hq']; [done|].
    specialize (I2 j q Hq' Ht). cbn. lia.
  - intros j k q r Hq Hr Tq Tr Eg.
    destruct (Hcase j q Hq Tq) as [[-> Gq]|Hq'], (Hcase k r Hr Tr) as [[-> Gr]|Hr']; try done.
    + specialize (I2 k r Hr' Tr). lia.
    + specialize (I2 j q Hq' Tq). lia.
    + by eapply I3.
  - intros j s Hs Hg. eapply ev_retired; [done|]. by apply I4.
Qed.

Lemma step_open_in own w token g :
  pair_inv own w -> pw_remote_generation w < g ->
  let w' := w <| pw_received_token := token |> <| pw_received_generation := g |>
              <| pw_remote_generation := g |> in
  wire_evolves own w w' /\ pair_inv own w'.
Proof.
  intros I Hg w'.
  assert (wire_evolves own w w') as E.
  { apply wire_evolves_same; try done; [|cbn; lia]. intros g' [H1 H2]. split; cbn; lia. }
  split; [done|]. pose proof I as [I1 I2 I3 I4]. constructor; try done.
  intros j s Hs Hz. eapply ev_retired; [done|]. by apply I4.
Qed.

(** Answering a received open: refused, or accepted on slot [i] of this half. *)
Lemma step_ack_out own w :
  pair_inv own w ->
  let w' := w <| pw_received_token := 0 |> <| pw_received_generation := 0 |> in
  wire_evolves own w w' /\ pair_inv own w'.
Proof.
  intros I w'. assert (wire_evolves own w w') as E.
  { apply wire_evolves_same; try done. intros g [H1 H2]. by split. }
  split; [done|]. pose proof I as [I1 I2 I3 I4]. constructor; try done.
  intros j s Hs Hz. eapply ev_retired; [done|]. by apply I4.
Qed.

Lemma step_accept_out own w handle s :
  pair_inv own w -> stream w handle = Some s -> owner_of handle = own -> pw_received_token w <> 0 ->
  let w' := (set_stream handle (StreamState (pw_received_generation w) 0 false false) w)
              <| pw_received_token := 0 |> <| pw_received_generation := 0 |> in
  wire_evolves own w w' /\ pair_inv own w'.
Proof.
  intros I Hs Ho Ht. destruct (stream_slot _ _ _ Hs) as (i & Hi & Hl & ->). intros w'.
  assert (slot_half i = own) as Hh by (by rewrite (stream_index_half _ _ Hi)).
  assert (wire_evolves own w w') as E.
  { eapply (wire_evolves_slot _ _ _ i s); try done.
    - intros g [H1 H2]. by split.
    - right. unfold gen_retired. rewrite Hh, Bool.eqb_reflx. cbn. intros [_ H]. specialize (H Ht). lia. }
  split; [done|]. pose proof I as [I1 I2 I3 I4]. constructor; try done.
  apply (pair_inv_slot _ w _ i (StreamState (pw_received_generation w) 0 false false)); [done..|].
  intros _. unfold gen_retired. rewrite Hh, Bool.eqb_reflx. split; cbn; [by apply I1|done].
Qed.

(** The peer's answer to open [i]: the entry is cleared, and a stream may be
    accepted on a slot of the peer's half. *)
Lemma cleared_local w i p g :
  pw_pending w !! i = Some p -> retired_local w g ->
  retired_local (w <| pw_pending ::= <[i := zero_pending]> |>) g.
Proof.
  intros Hp [H1 H2]. split; [done|]. intros j q. cbn. destruct (decide (i = j)) as [->|Hne].
  - rewrite list_lookup_insert_eq by (by eapply lookup_lt_Some). by intros [= <-].
  - rewrite list_lookup_insert_ne by done. apply H2.
Qed.

Lemma cleared_pending w i p j q :
  pw_pending w !! i = Some p -> <[i := zero_pending]> (pw_pending w) !! j = Some q ->
  po_token q <> 0 -> i <> j /\ pw_pending w !! j = Some q.
Proof.
  intros Hp. destruct (decide (i = j)) as [->|Hne].
  - rewrite list_lookup_insert_eq by (by eapply lookup_lt_Some). by intros [= <-].
  - by rewrite list_lookup_insert_ne.
Qed.

Lemma step_ack_in own w i p :
  pair_inv own w -> pw_pending w !! i = Some p ->
  let w' := w <| pw_pending ::= <[i := zero_pending]> |> in
  wire_evolves own w w' /\ pair_inv own w'.
Proof.
  intros I Hp w'. assert (wire_evolves own w w') as E.
  { apply wire_evolves_same; try done. intros g. by apply (cleared_local w i p). }
  split; [done|]. pose proof I as [I1 I2 I3 I4]. constructor; try done.
  - intros j q Hq Ht. destruct (cleared_pending w i p j q Hp Hq Ht). by eapply I2.
  - intros j k q r Hq Hr Tq Tr. destruct (cleared_pending w i p j q Hp Hq Tq).
    destruct (cleared_pending w i p k r Hp Hr Tr). by eapply I3.
  - intros j s Hs Hz. eapply ev_retired; [done|]. by apply I4.
Qed.

Lemma step_accept_in own w handle s i p :
  pair_inv own w -> stream w handle = Some s -> owner_of handle = negb own ->
  pw_pending w !! i = Some p -> po_token p <> 0 ->
  let w' := (set_stream handle (StreamState (po_generation p) 0 false false) w)
              <| pw_pending ::= <[i := zero_pending]> |> in
  wire_evolves own w w' /\ pair_inv own w'.
Proof.
  intros I Hs Ho Hp Ht. destruct (stream_slot _ _ _ Hs) as (k & Hk & Hl & ->). intros w'.
  assert (Bool.eqb (slot_half k) own = false) as Hh.
  { rewrite (stream_index_half _ _ Hk), Ho. by destruct own. }
  assert (wire_evolves own w w') as E.
  { eapply (wire_evolves_slot _ _ _ k s); try done.
    - intros g. by apply (cleared_local w i p).
    - right. unfold gen_retired. rewrite Hh. cbn. intros [_ H]. by eapply H. }
  split; [done|]. pose proof I as [I1 I2 I3 I4]. constructor; try done.
  - intros j q Hq Tq. destruct (cleared_pending w i p j q Hp Hq Tq). by eapply I2.
  - intros j m q r Hq Hr Tq Tr. destruct (cleared_pending w i p j q Hp Hq Tq).
    destruct (cleared_pending w i p m r Hp Hr Tr). by eapply I3.
  - apply (pair_inv_slot _ w _ k (StreamState (po_generation p) 0 false false)); [done..|].
    intros _. unfold gen_retired. rewrite Hh. split; cbn; [by eapply I2|].
    intros j q Hq Tq Eg. destruct (cleared_pending w i p j q Hp Hq Tq) as [Hne Hq'].
    apply Hne. by eapply I3.
Qed.

(** ** Runs *)

Lemma sent_step own w inh body h out w' :
  pair_inv own w -> accepts_on own (mh_type inh) body -> sent w inh body h out w' ->
  wire_evolves own w w' /\ pair_inv own w'.
Proof.
  intros I HA HS. destruct HS as [o i ? ? ? ? ? ? ? ? ? ? ? Hf|a|a s Ht ? ? -> Hr ? ? Hst Hs|s|s|].
  - apply first_pending_Some in Hf as (p & Hp & Hz & _). rewrite Nat.sub_0_r in Hp.
    by apply (step_open_out own w i p).
  - by apply step_ack_out.
  - apply (step_accept_out own w _ s); try done. by apply HA.
  - done.
  - by apply (step_stream own w _ s).
  - done.
Qed.

Lemma open_ack_of_image a :
  in_width 32 (oa_source_token a) -> in_width 32 (oa_handle a) -> 0 <= oa_status a < 2 ^ 31 ->
  in_width 32 (oa_reserved a) -> open_ack_of (open_ack_image a) = a.
Proof.
  intros H1 H2 H3 H4. unfold open_ack_of, open_ack_image.
  rewrite (wrap_small 32 (oa_status a)) by (unfold in_width; lia).
  assert (in_width 32 (oa_status a)) by (unfold in_width; lia).
  rewrite <-(app_nil_r (le_bytes 4 (oa_reserved a))). read_fields.
  unfold s32. rewrite (proj2 (Z.ltb_lt _ _)) by lia. by destruct a.
Qed.

Lemma taken_step own w h body type handle payload w' :
  pair_inv own w -> data_wf h -> data_valid h = true -> Z.of_nat (length body) = dh_body_len h ->
  accepts_on (negb own) type payload -> taken w h body type handle payload w' ->
  wire_evolves own w w' /\ pair_inv own w'.
Proof.
  intros I (_ & _ & _ & _ & _ & Hh & _) Hv Hl HA HT.
  assert (dh_handle h <> 0) as Hz.
  { unfold data_valid in Hv. split_valid Hv. intros E. by rewrite E in *. }
  destruct HT as [o ? ? ? ? Hg|i st ? ? Hb Hf|i hd s ? ? Hb Hf Hhd Hst Hs|s ? Hs ? ? ? Hq|s|].
  - by apply step_open_in.
  - apply find_pending_Some in Hf as [_ Hp]. rewrite Nat.sub_0_r in Hp. by eapply step_ack_in.
  - apply find_pending_Some in Hf as [_ Hp]. rewrite Nat.sub_0_r in Hp.
    apply (step_accept_in own w hd s i (PendingOpen (dh_handle h) (dh_stream_generation h))); try done.
    assert (in_width 32 hd) as Hw by (rewrite <-Hhd; apply (be_field_width 0 4); lia).
    specialize (HA eq_refl). rewrite open_ack_of_image in HA by (cbn; unfold in_width in *; lia).
    by apply HA.
  - apply (step_stream own w _ s); try done; cbn. lia.
  - by apply (step_stream own w _ s).
  - done.
Qed.

Lemma exec_step own w op :
  pair_inv own w -> disciplined own w op ->
  wire_evolves own w (pair_exec w op) /\ pair_inv own (pair_exec w op).
Proof.
  intros I. destruct op as [frame capacity|bytes inc capacity]; cbn [pair_exec disciplined]; intros HD.
  - unfold peer_pair_wire_encode, HEADER_LEN.
    destruct ((_ <? 16) || _) eqn:E; [done|]. cbn zeta. bool_facts.
    destruct (negb (mh_version _ =? 1) || _ || _); [done|].
    destruct (pair_message _ _ _ _) as [[[h out] w1]|] eqn:Em; [|done].
    apply pair_message_sent in Em; [|by apply (header_of_wf frame); lia].
    assert (wire_evolves own w w1 /\ pair_inv own w1) by (by eapply sent_step).
    by destruct (peer_sec_data_encode h).
  - destruct (peer_pair_wire_decode w bytes inc capacity) as [[r n] w1] eqn:E.
    destruct r as [| |inh payload].
    3:{ apply pair_decode_inv in E as (h & body & rest & _ & Hw & Hv & Hl & _ & _ & _ & _ & HT).
        by eapply taken_step. }
    all: replace w1 with w; [done|].
    all: revert E; unfold peer_pair_wire_decode.
    all: destruct (inc =? 0); [by intros [= <-]|].
    all: destruct (_ <? 64)%nat; [by intros [= <-]|].
    all: destruct (negb _ || _); [by intros [= <-]|].
    all: destruct (_ <? _); [by intros [= <-]|].
    all: destruct (peer_sec_data_decode _ _ _ _) as [z h]; destruct z; try by intros [= <-].
    all: destruct (pair_frame _ _ _ _) as [[[[? ?] ?] ?]|]; by intros [= <-].
Qed.

Lemma run_step own w ops :
  pair_inv own w -> disciplined_run own w ops ->
  wire_evolves own w (pair_run w ops) /\ pair_inv own (pair_run w ops).
Proof.
  revert w. induction ops as [|op ops IH]; intros w I; [done|]. intros [HD HR].
  destruct (exec_step own w op I HD) as [E I']. destruct (IH _ I' HR) as [E' I''].
  split; [by etrans|done].
Qed.

Lemma pair_inv_blank own p n m :
  pair_inv own (PairWire p 0 0 0 0 (repeat zero_pending n) (repeat zero_stream m)).
Proof.
  constructor; cbn [pw_received_token pw_pending pw_streams]; try done.
  - intros i q ->%lookup_repeat Hq. done.
  - intros i j q r ->%lookup_repeat _ Hq. done.
  - intros i s ->%lookup_repeat Hz. done.
Qed.

Lemma pair_inv_new own p w : peer_pair_wire_new true p = Some w -> pair_inv own w.
Proof.
  unfold peer_pair_wire_new. destruct (_ || _); [done|]. intros H%(inj Some). rewrite <-H.
  apply pair_inv_blank.
Qed.

(** ** Messages already taken *)

(** Taking the message with header [h] again is out of the question. *)
Definition spent (own : bool) (w : peer_pair_wire) (h : peer_sec_data_header) : Prop :=
  let g := dh_stream_generation h in
  if dh_type h =? PEER_SEC_STREAM_OPEN then g <= pw_remote_generation w
  else if dh_type h =? PEER_SEC_STREAM_OPEN_ACK then retired_local w g
  else forall i, stream_index (dh_handle h) = Some i ->
    gen_retired own w i g /\
    forall s, pw_streams w !! i = Some s -> ss_generation s = g ->
      ss_rx_fin s = true \/ (dh_type h = PEER_SEC_DATA /\ dh_sequence h <= ss_rx_sequence s).

Lemma spent_stays own w w' h : wire_evolves own w w' -> spent own w h -> spent own w' h.
Proof.
  intros E. unfold spent. destruct (dh_type h =? PEER_SEC_STREAM_OPEN).
  { pose proof (ev_newest _ _ _ E). lia. }
  destruct (dh_type h =? PEER_SEC_STREAM_OPEN_ACK); [apply (ev_local _ _ _ E)|].
  intros H i Hi. destruct (H i Hi) as [HR HS]. split; [by eapply ev_retired|].
  intros s' Hs' Hg. destruct (ev_streams _ _ _ E i s' Hs') as [(s & Hs & G & Q & F)|N].
  - destruct (HS s Hs) as [?|[? ?]]; [congruence|left; auto|right; split; [done|lia]].
  - by rewrite Hg in N.
Qed.

Lemma spent_not_taken own w h body type handle payload w' :
  spent own w h -> type <> DMESH_PEER_MSG_STREAM_ACK -> dh_handle h <> 0 ->
  ~ taken w h body type handle payload w'.
Proof.
  intros HS Hne Hz HT. unfold spent in HS.
  destruct HT as [o Ht ? ? ? Hg|i st Ht ? Hb Hf|i hd s Ht ? Hb Hf|s Ht Hs Hz' Hg Hf Hq|s Ht ? Hs Hz' Hg ? Hf|];
    try done; rewrite Ht in HS; cbn in HS.
  - lia.
  - apply find_pending_Some in Hf as [_ Hp]. by eapply (proj2 HS).
  - apply find_pending_Some in Hf as [_ Hp]. by eapply (proj2 HS).
  - destruct (stream_slot _ _ _ Hs) as (i & Hi & Hl & _). destruct (HS i Hi) as [_ HN].
    destruct (HN s Hl Hg) as [?|[_ ?]]; [congruence|lia].
  - destruct (stream_slot _ _ _ Hs) as (i & Hi & Hl & _). destruct (HS i Hi) as [_ HN].
    destruct (HN s Hl Hg) as [?|[? _]]; [congruence|done].
Qed.

Lemma taken_ack_type w h body type handle payload w' :
  taken w h body type handle payload w' ->
  dh_type h = PEER_SEC_STREAM_ACK <-> type = DMESH_PEER_MSG_STREAM_ACK.
Proof. destruct 1 as [o Ht|i st Ht|i hd s Ht|s Ht|s Ht|s c out Ht]; by rewrite Ht. Qed.

Lemma taken_spent_stream own w handle s s' h :
  dh_type h = PEER_SEC_DATA \/ dh_type h = PEER_SEC_STREAM_FIN ->
  pair_inv own (set_stream handle s' w) -> stream w handle = Some s -> dh_handle h = handle ->
  ss_generation s' = dh_stream_generation h -> dh_stream_generation h <> 0 ->
  ss_rx_fin s' = true \/ (dh_type h = PEER_SEC_DATA /\ dh_sequence h <= ss_rx_sequence s') ->
  spent own (set_stream handle s' w) h.
Proof.
  intros Ht I Hs <- Hg Hz HC. unfold spent.
  rewrite !(proj2 (Z.eqb_neq _ _)) by (destruct Ht as [-> | ->]; done). intros i Hi.
  pose proof (stream_set_same _ s' _ _ Hs) as Hn.
  destruct (stream_slot _ _ _ Hn) as (j & Hj & Hl & _). assert (j = i) as -> by congruence.
  split; [|intros t Ht'; by assert (t = s') as -> by congruence].
  rewrite <-Hg. apply (pi_streams _ _ I i s' Hl). by rewrite Hg.
Qed.

Lemma taken_spent own w h body type handle payload w' :
  pair_inv own w -> pair_inv own w' -> type <> DMESH_PEER_MSG_STREAM_ACK -> dh_handle h <> 0 ->
  taken w h body type handle payload w' -> spent own w' h.
Proof.
  intros I I' Hne Hz HT.
  assert (forall i g w1, pw_pending w !! i = Some (PendingOpen (dh_handle h) g) ->
    pw_next_generation w1 = pw_next_generation w ->
    pw_pending w1 = <[i := zero_pending]> (pw_pending w) -> retired_local w1 g) as Hcl.
  { intros i g w1 Hp Hn Hw. split.
    - rewrite Hn. by apply (pi_pending _ _ I i _ Hp).
    - intros j q. rewrite Hw. intros Hq Tq Eg. destruct (cleared_pending w i _ j q Hp Hq Tq) as [Hij Hq'].
      apply Hij. by eapply (pi_distinct _ _ I). }
  destruct HT as [o Ht ? ? ? Hg|i st Ht ? Hb Hf|i hd s Ht ? Hb Hf ? ? Hs|s Ht Hs Hz' Hg Hf Hq|s Ht ? Hs Hz' Hg ? Hf|];
    try done.
  - unfold spent. rewrite Ht. cbn. lia.
  - unfold spent. rewrite Ht. apply find_pending_Some in Hf as [_ Hp]. rewrite Nat.sub_0_r in Hp. by eapply Hcl.
  - unfold spent. rewrite Ht. apply find_pending_Some in Hf as [_ Hp]. rewrite Nat.sub_0_r in Hp.
    destruct (stream_slot _ _ _ Hs) as (k & _ & _ & ->). by eapply Hcl.
  - eapply taken_spent_stream; try done; [by left|congruence|]. right. by split.
  - eapply taken_spent_stream; try done; [by right|congruence|]. by left.
Qed.


Definition demo_bytes : list byte := demo_encode demo_wire demo_open_frame.
Definition demo_after : list pair_op := [Encode (demo_accept_frame 1) FRAME_CAP].

