(* ===== verification/PeerState.v ===== *)
(** * State of a DPU-to-DPU channel ([doca/peer_channel.h])

    The handles, receive and transmit slots and the channel itself, the seams
    to the transport and to the node, and the state monad in which the channel
    operations of [PeerChannel] run.

    What the seams answer depends on a world [W] they may change: connections,
    Pods, clocks, memory.  The two reference counters of a channel are written
    by other components (the proxy's DMA custody, the transport's retirement)
    and are read from the world.  An optional callback is an [option]; the
    callbacks the code calls without a null check are not. *)

From stdpp Require Import strings.
From S2P Require Import Prelude Cursor PeerIdentity PeerFrame PairWire.

(** ** Structures *)

Record dmesh_peer_handle := Handle {
  hd_incarnation : Z; hd_wire_handle : Z; hd_dst_pod_idx : Z; hd_dst_pod_generation : Z;
  hd_dst_port : Z; hd_up_port : Z; hd_src_pod_uid : list byte; hd_in_use : bool;
  hd_staging_bytes : Z; hd_tx_inflight_bytes : Z; hd_rx_ack_pending : Z; hd_rx_seq : Z;
  hd_rx_seq_valid : bool; hd_rx_fin : bool; hd_tx_fin : bool }.
#[export] Instance eta_handle : Eta dmesh_peer_handle := fun h =>
  Handle (hd_incarnation h) (hd_wire_handle h) (hd_dst_pod_idx h) (hd_dst_pod_generation h)
    (hd_dst_port h) (hd_up_port h) (hd_src_pod_uid h) (hd_in_use h) (hd_staging_bytes h)
    (hd_tx_inflight_bytes h) (hd_rx_ack_pending h) (hd_rx_seq h) (hd_rx_seq_valid h)
    (hd_rx_fin h) (hd_tx_fin h).
Definition zero_handle : dmesh_peer_handle :=
  Handle 0 0 0 0 0 0 (repeat x00 DMESH_POD_UID_MAX) false 0 0 0 0 false false false.

Record dmesh_peer_rxslot := RxSlot {
  rs_next : Z; rs_handle : Z; rs_seq : Z; rs_bytes : Z; rs_source_side : bool;
  rs_completed : bool; rs_in_use : bool }.
#[export] Instance eta_rxslot : Eta dmesh_peer_rxslot := fun r =>
  RxSlot (rs_next r) (rs_handle r) (rs_seq r) (rs_bytes r) (rs_source_side r) (rs_completed r)
    (rs_in_use r).
Definition zero_rxslot : dmesh_peer_rxslot := RxSlot 0 0 0 0 false false false.

Definition DMESH_PEER_CUSTODY_L4 : Z := 0.
Definition DMESH_PEER_CUSTODY_L7 : Z := 1.

(** A cookie is an opaque pointer; zero is NULL. *)
Record dmesh_peer_txslot := TxSlot {
  tx_next : Z; tx_seq : Z; tx_bytes : Z; tx_handle : Z; tx_cookie : Z; tx_kind : Z; tx_in_use : bool }.
#[export] Instance eta_txslot : Eta dmesh_peer_txslot := fun t =>
  TxSlot (tx_next t) (tx_seq t) (tx_bytes t) (tx_handle t) (tx_cookie t) (tx_kind t) (tx_in_use t).
Definition zero_txslot : dmesh_peer_txslot := TxSlot 0 0 0 0 0 0 false.

Inductive dmesh_peer_state := CLOSED | AUTHENTICATING | OPEN.
#[export] Instance peer_state_eq_dec : EqDecision dmesh_peer_state.
Proof. solve_decision. Defined.
Definition is_open (s : dmesh_peer_state) : bool := match s with OPEN => true | _ => false end.
Definition is_closed (s : dmesh_peer_state) : bool := match s with CLOSED => true | _ => false end.
Definition is_authenticating (s : dmesh_peer_state) : bool :=
  match s with AUTHENTICATING => true | _ => false end.

(** A table or frame buffer is [None] while its pointer is NULL.  The frame
    buffers hold the [rx_len] bytes not yet parsed and the [tx_len] bytes of a
    frame the transport did not take; [ack_stage] holds the [ack_staged] staged
    entries.  The two pair buffers are only scratch: their presence is kept. *)
Record dmesh_peer_channel := Channel {
  ch_node_name : list byte; ch_pair : dmesh_peer_pair; ch_pair_scoped : bool;
  ch_pair_wire : option peer_pair_wire; ch_pair_tx_frame : bool; ch_pair_rx_payload : bool;
  ch_bound_key : list byte; ch_ip_be : Z; ch_port : Z; ch_in_use : bool;
  ch_state : dmesh_peer_state; ch_initiated_local : bool; ch_incarnation : Z;
  ch_last_active_ns : Z; ch_conn : option nat;
  ch_handles : option (list dmesh_peer_handle); ch_handle_count : Z; ch_staging_bytes : Z;
  ch_open_tokens_milli : Z; ch_open_refill_ns : Z;
  ch_tx : option (list dmesh_peer_txslot); ch_tx_free : Z; ch_inflight_bytes : Z; ch_stalled : bool;
  ch_rx : option (list dmesh_peer_rxslot); ch_rx_free : Z;
  ch_ack_stage : list dmesh_peer_ack_entry;
  ch_rx_frame : option (list byte); ch_tx_frame : option (list byte);
  ch_refused : list Z; ch_poisoned : Z; ch_opened : Z; ch_handshakes : Z }.
#[export] Instance eta_channel : Eta dmesh_peer_channel := fun c =>
  Channel (ch_node_name c) (ch_pair c) (ch_pair_scoped c) (ch_pair_wire c) (ch_pair_tx_frame c)
    (ch_pair_rx_payload c) (ch_bound_key c) (ch_ip_be c) (ch_port c) (ch_in_use c) (ch_state c)
    (ch_initiated_local c) (ch_incarnation c) (ch_last_active_ns c) (ch_conn c) (ch_handles c)
    (ch_handle_count c) (ch_staging_bytes c) (ch_open_tokens_milli c) (ch_open_refill_ns c) (ch_tx c)
    (ch_tx_free c) (ch_inflight_bytes c) (ch_stalled c) (ch_rx c) (ch_rx_free c) (ch_ack_stage c)
    (ch_rx_frame c) (ch_tx_frame c) (ch_refused c) (ch_poisoned c) (ch_opened c) (ch_handshakes c).

Definition zero_refused : list Z := repeat 0 (Z.to_nat REFUSE_MAX).
Definition zero_channel : dmesh_peer_channel :=
  Channel (repeat x00 DMESH_K8S_NAME_MAX) zero_pair false None false false (repeat x00 32) 0 0 false
    CLOSED false 0 0 None None 0 0 0 0 None 0 0 false None 0 [] None None zero_refused 0 0 0.

Definition rx_len (c : dmesh_peer_channel) : Z := Z.of_nat (length (default [] (ch_rx_frame c))).
Definition tx_len (c : dmesh_peer_channel) : Z := Z.of_nat (length (default [] (ch_tx_frame c))).
Definition ack_staged (c : dmesh_peer_channel) : Z := Z.of_nat (length (ch_ack_stage c)).

(** ** Seams *)

(** A binding the held generation gives a node: key, address and port. *)
Record node_binding_t := Binding { nb_key : option (list byte); nb_ip : Z; nb_port : Z }.

Record dmesh_peer_transport (W : Type) := Transport {
  tr_connect : option (W -> Z -> Z -> list byte -> (Z * option nat) * W);
  tr_peer_key : option (W -> nat -> option (list byte) * W);
  tr_send : option (W -> nat -> list byte -> Z * W);
  tr_recv : option (W -> nat -> Z -> option (list byte) * W);
  tr_close : option (W -> nat -> W);
  tr_connect_pair : option (W -> list byte -> list byte -> Z -> Z -> Z -> dmesh_peer_pair ->
                            option dmesh_peer_stream_open -> (Z * option nat) * W);
  tr_pair_ready : option (W -> nat -> (Z * dmesh_peer_pair) * W);
  tr_pair_admit : option (W -> nat -> Z * W);
}.
Arguments Transport {W}. Arguments tr_connect {W}. Arguments tr_peer_key {W}. Arguments tr_send {W}.
Arguments tr_recv {W}. Arguments tr_close {W}. Arguments tr_connect_pair {W}.
Arguments tr_pair_ready {W}. Arguments tr_pair_admit {W}.

(** Callbacks that take the channel get its index and its contents. *)
Record dmesh_peer_ops (W : Type) := Ops {
  op_node_binding : option (W -> list byte -> option node_binding_t * W);
  op_pod_on_node : W -> list byte -> list byte -> bool * W;
  op_local_pod : W -> list byte -> (Z * Z) * W;
  op_local_registration : option (W -> list byte -> (Z * dmesh_peer_registration) * W);
  op_upstream_for : option (W -> Z -> Z -> Z * W);
  op_destination_opened : option (W -> nat -> dmesh_peer_channel -> Z -> dmesh_peer_stream_open -> Z -> Z * W);
  op_pod_generation : option (W -> Z -> Z * W);
  op_deliver : W -> dmesh_peer_handle -> list byte -> Z -> Z * W;
  op_source_deliver : option (W -> nat -> dmesh_peer_channel -> Z -> list byte -> Z -> Z * W);
  op_destination_fin : option (W -> dmesh_peer_handle -> Z * W);
  op_release : option (W -> Z -> Z -> Z -> W);
  op_poison : option (W -> dmesh_peer_handle -> W);
  op_source_opened : option (W -> nat -> dmesh_peer_channel -> Z -> Z -> Z -> W);
  op_source_fin : option (W -> nat -> dmesh_peer_channel -> Z -> bool * W);
  op_source_reset : option (W -> nat -> dmesh_peer_channel -> W);
  op_event : option (W -> dmesh_peer_refusal -> W);
  op_now_ns : option (W -> Z * W);
}.
Arguments Ops {W}. Arguments op_node_binding {W}. Arguments op_pod_on_node {W}. Arguments op_local_pod {W}.
Arguments op_local_registration {W}. Arguments op_upstream_for {W}. Arguments op_destination_opened {W}.
Arguments op_pod_generation {W}. Arguments op_deliver {W}. Arguments op_source_deliver {W}.
Arguments op_destination_fin {W}. Arguments op_release {W}. Arguments op_poison {W}.
Arguments op_source_opened {W}. Arguments op_source_fin {W}. Arguments op_source_reset {W}.
Arguments op_event {W}. Arguments op_now_ns {W}.

(** What the operations are run against: this DPU's name, the seams, the
    reference counters of a channel slot, and whether an allocation succeeds. *)
Record peer_env (W : Type) := PeerEnv {
  pe_node_name : list byte;
  pe_transport : dmesh_peer_transport W;
  pe_ops : dmesh_peer_ops W;
  pe_local_refs : W -> nat -> Z;
  pe_retirement_refs : W -> nat -> Z;
  pe_clear_refs : W -> nat -> W;
  pe_alloc : W -> bool * W;
}.
Arguments PeerEnv {W}. Arguments pe_node_name {W}. Arguments pe_transport {W}. Arguments pe_ops {W}.
Arguments pe_local_refs {W}. Arguments pe_retirement_refs {W}. Arguments pe_clear_refs {W}.
Arguments pe_alloc {W}.

(** ** The monad of channel operations *)

Record pstate (W : Type) := PState {
  ps_self : nat; ps_channel : dmesh_peer_channel; ps_refused : list Z; ps_world : W }.
Arguments PState {W}. Arguments ps_self {W}. Arguments ps_channel {W}. Arguments ps_refused {W}.
Arguments ps_world {W}.

Definition pm (W A : Type) : Type := pstate W -> A * pstate W.
#[export] Instance pm_ret W : MRet (pm W) := fun A a s => (a, s).
#[export] Instance pm_bind W : MBind (pm W) := fun A B f m s => let '(a, s') := m s in f a s'.

Definition channel_of {W} : pm W dmesh_peer_channel := fun s => (ps_channel s, s).
Definition channel_set {W} (f : dmesh_peer_channel -> dmesh_peer_channel) : pm W unit :=
  fun s => (tt, PState (ps_self s) (f (ps_channel s)) (ps_refused s) (ps_world s)).
(** A callback with a result, and one without. *)
Definition ask {W A} (f : W -> A * W) : pm W A :=
  fun s => let '(a, w) := f (ps_world s) in (a, PState (ps_self s) (ps_channel s) (ps_refused s) w).
Definition tell {W} (f : W -> W) : pm W unit :=
  fun s => (tt, PState (ps_self s) (ps_channel s) (ps_refused s) (f (ps_world s))).
Definition self_of {W} : pm W nat := fun s => (ps_self s, s).
Definition table_refused {W} (reason : dmesh_peer_refusal) : pm W unit :=
  fun s => (tt, PState (ps_self s) (ps_channel s)
    (alter (fun n => u64 (n + 1)) (Z.to_nat (refusal_code reason)) (ps_refused s)) (ps_world s)).

(** [for (i = from; i < from + n; i++) body(i)] *)
Fixpoint for_each {W} (from n : nat) (body : nat -> pm W unit) : pm W unit :=
  match n with
  | O => mret tt
  | S n' => body from;; for_each (S from) n' body
  end.
(** The same with an early return: a body that answers ends the loop. *)
Fixpoint for_until {W A} (from n : nat) (body : nat -> pm W (option A)) : pm W (option A) :=
  match n with
  | O => mret None
  | S n' => r ← body from; match r with Some a => mret (Some a) | None => for_until (S from) n' body end
  end.

(** The tables and their entries. *)
Definition handles_of (c : dmesh_peer_channel) : list dmesh_peer_handle := default [] (ch_handles c).
Definition tx_of (c : dmesh_peer_channel) : list dmesh_peer_txslot := default [] (ch_tx c).
Definition rx_of (c : dmesh_peer_channel) : list dmesh_peer_rxslot := default [] (ch_rx c).
Definition set_handle (i : nat) (h : dmesh_peer_handle) (c : dmesh_peer_channel) : dmesh_peer_channel :=
  c <| ch_handles ::= fmap <[i := h]> |>.
Definition set_tx (i : nat) (t : dmesh_peer_txslot) (c : dmesh_peer_channel) : dmesh_peer_channel :=
  c <| ch_tx ::= fmap <[i := t]> |>.
Definition set_rx (i : nat) (r : dmesh_peer_rxslot) (c : dmesh_peer_channel) : dmesh_peer_channel :=
  c <| ch_rx ::= fmap <[i := r]> |>.
Lemma ch_handles_set i h c l : ch_handles c = Some l -> ch_handles (set_handle i h c) = Some (<[i := h]> l).
Proof. unfold set_handle. cbn. by intros ->. Qed.
Lemma ch_tx_set i t c l : ch_tx c = Some l -> ch_tx (set_tx i t c) = Some (<[i := t]> l).
Proof. unfold set_tx. cbn. by intros ->. Qed.
Definition handle_at (c : dmesh_peer_channel) (i : nat) : dmesh_peer_handle := default zero_handle (handles_of c !! i).
Definition tx_at (c : dmesh_peer_channel) (i : nat) : dmesh_peer_txslot := default zero_txslot (tx_of c !! i).
Definition rx_at (c : dmesh_peer_channel) (i : nat) : dmesh_peer_rxslot := default zero_rxslot (rx_of c !! i).
