(* ===== verification/PeerChannel.v ===== *)
(** * Operations of a DPU-to-DPU channel ([doca/peer_channel.c])

    Every operation that works on one channel, in the order of the source,
    except where a callee must come first.  Diagnostic strings are not
    modelled.  Pointers into a table are indices of it. *)

From stdpp Require Import strings.
From S2P Require Import Prelude Cursor PeerIdentity PeerFrame PairWire PeerState.

Definition PEER_REFUSAL_NAME (reason : dmesh_peer_refusal) : string :=
  match reason with
  | OK => "ok" | REFUSE_INCARNATION => "incarnation" | REFUSE_STATE => "state"
  | REFUSE_MALFORMED => "malformed" | REFUSE_NOT_ON_PEER => "not-on-peer" | REFUSE_NO_POD => "no-pod"
  | REFUSE_STREAMS => "streams" | REFUSE_STAGING => "staging" | REFUSE_RATE => "open-rate"
  | REFUSE_HANDLE => "handle" | REFUSE_INFLIGHT => "tx-inflight" | REFUSE_NODE_UNBOUND => "node-unbound"
  | REFUSE_NODE_KEY => "node-key" | REFUSE_TRANSPORT => "transport" | REFUSE_PAIR => "pod-pair"
  | REFUSE_REGISTRATION => "registration"
  end%string.

Definition STREAMS : nat := Z.to_nat DMESH_PEER_STREAMS_MAX.
Definition SLOTS : nat := Z.to_nat DMESH_PEER_TX_SLOTS.

(** The free list a fresh or reset table starts with: every slot, in order. *)
Definition next_index (i : Z) : Z :=
  if i =? DMESH_PEER_TX_SLOTS - 1 then DMESH_PEER_TX_NIL else i + 1.
Fixpoint link_tx_from (i : Z) (l : list dmesh_peer_txslot) : list dmesh_peer_txslot :=
  match l with
  | [] => []
  | t :: rest => t <| tx_next := next_index i |> :: link_tx_from (i + 1) rest
  end.
Definition link_tx : list dmesh_peer_txslot -> list dmesh_peer_txslot := link_tx_from 0.
Fixpoint link_rx_from (i : Z) (l : list dmesh_peer_rxslot) : list dmesh_peer_rxslot :=
  match l with
  | [] => []
  | r :: rest => r <| rs_next := next_index i |> :: link_rx_from (i + 1) rest
  end.
Definition link_rx : list dmesh_peer_rxslot -> list dmesh_peer_rxslot := link_rx_from 0.

(** ** Pure lookups in one channel *)

Definition peer_handle_wire_ok (handle : Z) : bool :=
  let index := Z.land handle DMESH_PEER_HANDLE_INDEX_MASK in
  (0 <? index) && (index <=? DMESH_PEER_STREAMS_MAX) && (handle_stray handle =? 0).

Definition peer_handle_of (c : dmesh_peer_channel) (handle : Z) : option nat :=
  let index := Z.land handle DMESH_PEER_HANDLE_INDEX_MASK in
  if (index =? 0) || (DMESH_PEER_STREAMS_MAX <? index) || negb (handle_stray handle =? 0) then None
  else
    let i := Z.to_nat (index - 1) in
    match handles_of c !! i with
    | None => None
    | Some slot =>
      if negb (hd_in_use slot) || negb (hd_incarnation slot =? ch_incarnation c) ||
         negb (hd_wire_handle slot =? handle) then None
      else Some i
    end.

Fixpoint rx_find_from (i : nat) (l : list dmesh_peer_rxslot) (handle seq : Z) (source_side : bool)
    : option nat :=
  match l with
  | [] => None
  | slot :: rest =>
    if rs_in_use slot && (rs_handle slot =? handle) && (rs_seq slot =? seq) &&
       Bool.eqb (rs_source_side slot) source_side then Some i
    else rx_find_from (S i) rest handle seq source_side
  end.
Definition peer_rx_find (c : dmesh_peer_channel) (handle seq : Z) (source_side : bool) : option nat :=
  rx_find_from 0 (rx_of c) handle seq source_side.

(** Staging one acknowledged sequence: it extends the last run or starts one. *)
Definition peer_ack_append (handle seq : Z) (c : dmesh_peer_channel) : dmesh_peer_channel :=
  match last (ch_ack_stage c) with
  | Some l =>
    if (ae_handle l =? handle) && (u32 (ae_seq_first l + ae_seq_count l) =? seq)
    then c <| ch_ack_stage ::= fun st =>
           <[(length st - 1)%nat := l <| ae_seq_count := u32 (ae_seq_count l + 1) |>]> st |>
    else c <| ch_ack_stage ::= fun st => st ++ [AckEntry handle seq 1 0] |>
  | None => c <| ch_ack_stage := [AckEntry handle seq 1 0] |>
  end.

(** ** Receive slots and handles *)

Definition peer_rx_alloc (handle seq bytes : Z) (source_side : bool) (c : dmesh_peer_channel)
    : option nat * dmesh_peer_channel :=
  match ch_rx c with
  | None => (None, c)
  | Some _ =>
    if ch_rx_free c =? DMESH_PEER_TX_NIL then (None, c)
    else
      let index := Z.to_nat (ch_rx_free c) in
      let c1 := set_rx index (RxSlot DMESH_PEER_TX_NIL handle seq bytes source_side false true)
                  (c <| ch_rx_free := rs_next (rx_at c index) |>) in
      let owner := if source_side then None else peer_handle_of c1 handle in
      (Some index,
       match owner with
       | Some h => let o := handle_at c1 h in
                   set_handle h (o <| hd_rx_ack_pending := u32 (hd_rx_ack_pending o + 1) |>) c1
       | None => c1
       end)
  end.

Definition peer_rx_free_slot (index : nat) (c : dmesh_peer_channel) : dmesh_peer_channel :=
  let slot := rx_at c index in
  let owner := if rs_source_side slot then None else peer_handle_of c (rs_handle slot) in
  let c1 := match owner with
            | Some h => let o := handle_at c h in
                        if negb (rs_completed slot) && negb (hd_rx_ack_pending o =? 0)
                        then set_handle h (o <| hd_rx_ack_pending := hd_rx_ack_pending o - 1 |>) c
                        else c
            | None => c
            end in
  (set_rx index (zero_rxslot <| rs_next := ch_rx_free c1 |>) c1) <| ch_rx_free := Z.of_nat index |>.

(** The loops over a table that need no callback. *)
Fixpoint sweep (from n : nat) (body : nat -> dmesh_peer_channel -> dmesh_peer_channel)
    (c : dmesh_peer_channel) : dmesh_peer_channel :=
  match n with
  | O => c
  | S n' => sweep (S from) n' body (body from c)
  end.

Definition peer_rx_abandon_handle (handle : Z) (completed_too : bool) (c : dmesh_peer_channel)
    : dmesh_peer_channel :=
  match ch_rx c with
  | None => c
  | Some _ =>
    sweep 0 SLOTS (fun i c =>
      let slot := rx_at c i in
      if negb (rs_in_use slot) || rs_source_side slot || negb (rs_handle slot =? handle) ||
         (negb completed_too && rs_completed slot) then c
      else peer_rx_free_slot i c) c
  end.

Definition peer_handle_release (h : nat) (c : dmesh_peer_channel) : dmesh_peer_channel :=
  if negb (hd_in_use (handle_at c h)) then c
  else
    let c := peer_rx_abandon_handle (hd_wire_handle (handle_at c h)) false c in
    let o := handle_at c h in
    let c := c <| ch_staging_bytes ::= fun n => u64 (n - hd_staging_bytes o) |> in
    let c := set_handle h (o <| hd_staging_bytes := 0 |> <| hd_in_use := false |>) c in
    if ch_handle_count c =? 0 then c else c <| ch_handle_count ::= Z.pred |>.

Definition peer_handle_maybe_release (h : nat) (c : dmesh_peer_channel) : dmesh_peer_channel :=
  let o := handle_at c h in
  if negb (hd_in_use o) || negb (hd_rx_fin o) || negb (hd_tx_fin o) || negb (hd_staging_bytes o =? 0)
  then c
  else if ch_pair_scoped c && (negb (hd_tx_inflight_bytes o =? 0) || negb (hd_rx_ack_pending o =? 0))
  then c
  else peer_handle_release h c.

(** ** Transmit slots *)

Definition dmesh_peer_tx_charge (handle seq bytes kind cookie : Z) (c : dmesh_peer_channel)
    : dmesh_peer_refusal * dmesh_peer_channel :=
  if negb (is_open (ch_state c)) then (REFUSE_STATE, c)
  else if (DMESH_PEER_TX_INFLIGHT_MAX <? u64 (ch_inflight_bytes c + bytes)) ||
          (ch_tx_free c =? DMESH_PEER_TX_NIL) then
    (REFUSE_INFLIGHT,
     c <| ch_stalled := true |>
       <| ch_refused ::= alter (fun n => u64 (n + 1)) (Z.to_nat (refusal_code REFUSE_INFLIGHT)) |>)
  else
    let index := Z.to_nat (ch_tx_free c) in
    let c1 := (set_tx index (TxSlot DMESH_PEER_TX_NIL seq bytes handle cookie kind true)
                 (c <| ch_tx_free := tx_next (tx_at c index) |>))
              <| ch_inflight_bytes ::= fun n => u64 (n + bytes) |> in
    (OK, match peer_handle_of c1 handle with
         | Some h => let o := handle_at c1 h in
                     set_handle h (o <| hd_tx_inflight_bytes := u32 (hd_tx_inflight_bytes o + bytes) |>) c1
         | None => c1
         end).

Definition peer_tx_free_slot (index : nat) (c : dmesh_peer_channel) : dmesh_peer_channel :=
  let slot := tx_at c index in
  let c := c <| ch_inflight_bytes ::= fun n => u64 (n - tx_bytes slot) |> in
  let c := match peer_handle_of c (tx_handle slot) with
           | Some h => let o := handle_at c h in
                       if tx_bytes slot <=? hd_tx_inflight_bytes o
                       then peer_handle_maybe_release h
                              (set_handle h (o <| hd_tx_inflight_bytes := hd_tx_inflight_bytes o - tx_bytes slot |>) c)
                       else c
           | None => c
           end in
  let c := (set_tx index (slot <| tx_in_use := false |> <| tx_cookie := 0 |> <| tx_next := ch_tx_free c |>) c)
             <| ch_tx_free := Z.of_nat index |> in
  if ch_inflight_bytes c <? DMESH_PEER_TX_INFLIGHT_MAX then c <| ch_stalled := false |> else c.

Fixpoint tx_uncharge_from (i : nat) (l : list dmesh_peer_txslot) (handle seq cookie : Z) : option nat :=
  match l with
  | [] => None
  | slot :: rest =>
    if tx_in_use slot && (tx_handle slot =? handle) && (tx_seq slot =? seq) && (tx_cookie slot =? cookie)
    then Some i else tx_uncharge_from (S i) rest handle seq cookie
  end.
Definition peer_tx_uncharge (handle seq cookie : Z) (c : dmesh_peer_channel) : dmesh_peer_channel :=
  match tx_uncharge_from 0 (tx_of c) handle seq cookie with
  | Some i => peer_tx_free_slot i c
  | None => c
  end.

(** ** Operations with callbacks *)

Section channel.
  Context {W : Type} (E : peer_env W).
  Local Abbreviation ops := (pe_ops E).
  Local Abbreviation transport := (pe_transport E).

Definition peer_event (reason : dmesh_peer_refusal) : pm W unit :=
  match op_event ops with Some f => tell (fun w => f w reason) | None => mret tt end.

(** Counted against the channel and for the node. *)
Definition peer_refuse (reason : dmesh_peer_refusal) : pm W dmesh_peer_refusal :=
  channel_set (fun c => c <| ch_refused ::= alter (fun n => u64 (n + 1)) (Z.to_nat (refusal_code reason)) |>);;
  table_refused reason;;
  peer_event reason;;
  mret reason.

Definition peer_now : pm W Z :=
  match op_now_ns ops with Some f => ask f | None => mret 0 end.
Definition touch : pm W unit :=
  now ← peer_now; channel_set (fun c => c <| ch_last_active_ns := now |>).

Definition peer_close (conn : nat) : pm W unit :=
  match tr_close transport with Some f => tell (fun w => f w conn) | None => mret tt end.

(** *** Pod pairs *)

Definition peer_pair_local (node : list byte) (p : dmesh_peer_pair) : pm W dmesh_peer_refusal :=
  if negb (peer_text_ok (pr_local_uid p)) || negb (peer_text_ok (pr_remote_uid p)) ||
     str_eq (pr_local_uid p) (pr_remote_uid p) then mret REFUSE_PAIR
  else
    here ← ask (fun w => op_pod_on_node ops w (pr_local_uid p) (pe_node_name E));
    if negb here then mret REFUSE_NOT_ON_PEER
    else
      there ← ask (fun w => op_pod_on_node ops w (pr_remote_uid p) node);
      if negb there then mret REFUSE_NOT_ON_PEER
      else match op_local_registration ops with
        | None => mret REFUSE_REGISTRATION
        | Some f =>
          r ← ask (fun w => f w (pr_local_uid p));
          let '(found, current) := r in
          if negb (found =? 1) || negb (dmesh_peer_registration_valid current) ||
             negb (dmesh_peer_registration_equal current (pr_local p)) then mret REFUSE_REGISTRATION
          else mret OK
        end.

(** Whether the transport's certified pair is the one of the channel. *)
Definition pair_matches (certified pair : dmesh_peer_pair) : bool :=
  bytes_eq (pr_local_uid certified) (pr_local_uid pair) &&
  bytes_eq (pr_remote_uid certified) (pr_remote_uid pair) &&
  dmesh_peer_registration_equal (pr_local certified) (pr_local pair) &&
  dmesh_peer_registration_valid (pr_remote certified) &&
  (negb (dmesh_peer_registration_valid (pr_remote pair)) ||
   dmesh_peer_registration_equal (pr_remote certified) (pr_remote pair)).
Definition lane_matches (certified pair : dmesh_peer_pair) : bool :=
  negb (or_bytes (pr_association certified) =? 0) && negb (pr_lane_id certified =? 0) &&
  negb (pr_lane_generation certified =? 0) &&
  ((or_bytes (pr_association pair) =? 0) ||
   (bytes_eq (pr_association certified) (pr_association pair) &&
    (pr_lane_id certified =? pr_lane_id pair) &&
    (pr_lane_generation certified =? pr_lane_generation pair))).

Definition peer_pair_live : pm W dmesh_peer_refusal :=
  c ← channel_of;
  if negb (ch_pair_scoped c) then mret OK
  else
    r ← peer_pair_local (ch_node_name c) (ch_pair c);
    if negb (ok r) then mret r
    else match op_node_binding ops with
      | None => mret REFUSE_NODE_UNBOUND
      | Some f =>
        b ← ask (fun w => f w (ch_node_name c));
        match b ≫= nb_key with
        | None => mret REFUSE_NODE_UNBOUND
        | Some key =>
          if negb (bytes_eq key (ch_bound_key c)) then mret REFUSE_NODE_KEY
          else match tr_pair_ready transport, tr_pair_admit transport, ch_conn c with
            | Some ready, Some _, Some conn =>
              r ← ask (fun w => ready w conn);
              let '(status, certified) := r in
              if negb (status =? 1) then mret REFUSE_STATE
              else if negb (pair_matches certified (ch_pair c)) then mret REFUSE_PAIR
              else if negb (lane_matches certified (ch_pair c)) then mret REFUSE_PAIR
              else
                channel_set (fun c => c <| ch_pair ::= fun p =>
                  p <| pr_remote := pr_remote certified |>
                    <| pr_association := pr_association certified |>
                    <| pr_lane_id := pr_lane_id certified |>
                    <| pr_lane_generation := pr_lane_generation certified |> |>);;
                mret OK
            | _, _, _ => mret REFUSE_STATE
            end
        end
      end.

(** *** Lifetime *)

Definition poison_handle (i : nat) : pm W unit :=
  c ← channel_of;
  match op_poison ops with Some f => tell (fun w => f w (handle_at c i)) | None => mret tt end;;
  channel_set (fun c => c <| ch_poisoned ::= fun n => u64 (n + 1) |>).

Definition release_tx (i : nat) : pm W unit :=
  c ← channel_of;
  let slot := tx_at c i in
  match op_release ops with
  | Some f => tell (fun w => f w (tx_kind slot) (tx_cookie slot) (tx_bytes slot))
  | None => mret tt
  end.

Definition reset_handles : pm W unit :=
  c ← channel_of;
  match ch_handles c with
  | None => mret tt
  | Some _ =>
    for_each 0 STREAMS (fun i =>
      c ← channel_of;
      if negb (hd_in_use (handle_at c i)) then mret tt
      else poison_handle i;;
           channel_set (fun c => set_handle i ((handle_at c i) <| hd_in_use := false |>) c))
  end.

Definition reset_tx : pm W unit :=
  c ← channel_of;
  match ch_tx c with
  | None => mret tt
  | Some _ =>
    for_each 0 SLOTS (fun i =>
      c ← channel_of;
      if negb (tx_in_use (tx_at c i)) then mret tt
      else release_tx i;;
           channel_set (fun c => set_tx i ((tx_at c i) <| tx_in_use := false |>) c));;
    channel_set (fun c => c <| ch_tx ::= fmap link_tx |> <| ch_tx_free := 0 |>)
  end.

Definition reset_rx (c : dmesh_peer_channel) : dmesh_peer_channel :=
  match ch_rx c with
  | None => c
  | Some _ => c <| ch_rx := Some (link_rx (repeat zero_rxslot SLOTS)) |> <| ch_rx_free := 0 |>
  end.

Definition dmesh_peer_reset : pm W unit :=
  self ← self_of;
  c ← channel_of;
  match op_source_reset ops with Some f => tell (fun w => f w self c) | None => mret tt end;;
  reset_handles;;
  channel_set (fun c => c <| ch_handle_count := 0 |> <| ch_staging_bytes := 0 |>);;
  reset_tx;;
  channel_set (fun c => (reset_rx (c <| ch_inflight_bytes := 0 |> <| ch_stalled := false |>
                                     <| ch_ack_stage := [] |>))
                 <| ch_rx_frame ::= fmap (fun _ => []) |> <| ch_tx_frame ::= fmap (fun _ => []) |>);;
  c ← channel_of;
  match ch_conn c with Some conn => peer_close conn | None => mret tt end;;
  channel_set (fun c => c <| ch_conn := None |> <| ch_state := CLOSED |> <| ch_pair_wire := None |>).

Definition dmesh_peer_transport_failed : pm W unit :=
  c ← channel_of;
  if negb (ch_in_use c) then mret tt
  else peer_refuse REFUSE_TRANSPORT;; dmesh_peer_reset.

(** [present c] tells whether a table is there already; [install] allocates it. *)
Definition alloc_one (present : dmesh_peer_channel -> bool)
    (install : dmesh_peer_channel -> dmesh_peer_channel) : pm W bool :=
  c ← channel_of;
  if present c then mret true
  else
    got ← ask (pe_alloc E);
    if got : bool then channel_set install;; mret true else mret false.

Definition is_there {A} (o : option A) : bool := match o with Some _ => true | None => false end.

(** [true] is the zero return. *)
Definition peer_channel_alloc_tables : pm W bool :=
  a ← alloc_one (fun c => is_there (ch_handles c))
        (fun c => c <| ch_handles := Some (repeat zero_handle STREAMS) |>);
  if negb a then mret false else
  a ← alloc_one (fun c => is_there (ch_tx c))
        (fun c => c <| ch_tx := Some (link_tx (repeat zero_txslot SLOTS)) |> <| ch_tx_free := 0 |>);
  if negb a then mret false else
  a ← alloc_one (fun c => is_there (ch_rx c))
        (fun c => c <| ch_rx := Some (link_rx (repeat zero_rxslot SLOTS)) |> <| ch_rx_free := 0 |>);
  if negb a then mret false else
  a ← alloc_one (fun c => is_there (ch_rx_frame c)) (fun c => c <| ch_rx_frame := Some [] |>);
  if negb a then mret false else
  alloc_one (fun c => is_there (ch_tx_frame c)) (fun c => c <| ch_tx_frame := Some [] |>).

(** The wire state and scratch buffers a Pod-pair channel needs to open. *)
Definition alloc_pair : pm W bool :=
  c ← channel_of;
  wire ← (if negb (nonzero (pr_association (ch_pair c))) || (pr_lane_id (ch_pair c) =? 0) ||
             (pr_lane_generation (ch_pair c) =? 0) then mret None
          else got ← ask (pe_alloc E); mret (peer_pair_wire_new got (ch_pair c)));
  channel_set (fun c => c <| ch_pair_wire := wire |>);;
  tx ← alloc_one ch_pair_tx_frame (fun c => c <| ch_pair_tx_frame := true |>);
  rx ← alloc_one ch_pair_rx_payload (fun c => c <| ch_pair_rx_payload := true |>);
  mret (is_there wire && tx && rx).

Definition dmesh_peer_authenticated (peer_key : list byte) : pm W dmesh_peer_refusal :=
  c ← channel_of;
  if negb (is_authenticating (ch_state c)) then peer_refuse REFUSE_STATE
  else if negb (bytes_eq (ch_bound_key c) peer_key) then
    peer_refuse REFUSE_NODE_KEY;; dmesh_peer_reset;; mret REFUSE_NODE_KEY
  else
    pair ← peer_pair_live;
    if negb (ok pair) then peer_refuse pair;; dmesh_peer_reset;; mret pair
    else
      c ← channel_of;
      ready ← (if ch_pair_scoped c then alloc_pair else mret true);
      if negb ready then dmesh_peer_reset;; peer_refuse REFUSE_STATE
      else
        channel_set (fun c => c <| ch_state := OPEN |>);;
        touch;;
        channel_set (fun c => c <| ch_opened ::= fun n => u64 (n + 1) |>);;
        mret OK.

(** *** Destination *)

Definition peer_live (incarnation : Z) : pm W dmesh_peer_refusal :=
  c ← channel_of;
  if negb (is_open (ch_state c)) then peer_refuse REFUSE_STATE
  else if negb (incarnation =? ch_incarnation c) then peer_refuse REFUSE_INCARNATION
  else
    pair ← peer_pair_live;
    if negb (ok pair) then peer_refuse pair;; dmesh_peer_reset;; mret pair
    else mret OK.

(** The bucket after its refill at time [now]. *)
Definition refill (now : Z) (c : dmesh_peer_channel) : dmesh_peer_channel :=
  let elapsed := u64 (now - ch_open_refill_ns c) in
  if elapsed =? 0 then c
  else
    let gained := u64 (elapsed / 1000000 * DMESH_PEER_OPEN_RATE) in
    let ceiling := DMESH_PEER_OPEN_RATE * 1000 in
    c <| ch_open_refill_ns := now |>
      <| ch_open_tokens_milli ::= fun n => if ceiling <? u64 (n + gained) then ceiling else u64 (n + gained) |>.

Definition peer_open_allowed : pm W bool :=
  now ← peer_now;
  channel_set (refill now);;
  c ← channel_of;
  if ch_open_tokens_milli c <? 1000 then mret false
  else channel_set (fun c => c <| ch_open_tokens_milli ::= fun n => n - 1000 |>);; mret true.

Definition peer_local_owner_bit (c : dmesh_peer_channel) : Z :=
  if 0 <? strcmp (pe_node_name E) (ch_node_name c) then DMESH_PEER_HANDLE_OWNER_BIT else 0.
Definition locally_owned (c : dmesh_peer_channel) (handle : Z) : bool :=
  Z.land handle DMESH_PEER_HANDLE_OWNER_BIT =? peer_local_owner_bit c.

Definition open_well_formed (open : dmesh_peer_stream_open) : bool :=
  peer_text_ok (so_src_pod_uid open) && peer_text_ok (so_dst_pod_uid open) &&
  peer_text_ok (so_src_service_key open) && (so_reserved open =? 0) &&
  negb (so_source_token open =? 0) && negb (so_dst_port open =? 0).

(** The body of the slot loop of [dmesh_peer_stream_open] at slot [i]. *)
Definition open_at (open : dmesh_peer_stream_open) (dst_pod_idx pod_generation : Z) (i : nat)
    : pm W (option (dmesh_peer_refusal * Z)) :=
  c ← channel_of;
  if hd_in_use (handle_at c i) then mret None
  else
    let wire_handle := Z.lor (Z.of_nat i + 1) (peer_local_owner_bit c) in
    channel_set (set_handle i (zero_handle <| hd_incarnation := ch_incarnation c |>
      <| hd_dst_pod_idx := dst_pod_idx |> <| hd_dst_pod_generation := pod_generation |>
      <| hd_dst_port := so_dst_port open |> <| hd_wire_handle := wire_handle |>));;
    self ← self_of;
    c ← channel_of;
    up_port ← match op_destination_opened ops with
              | Some f => ask (fun w => f w self c wire_handle open dst_pod_idx)
              | None => match op_upstream_for ops with
                        | Some f => ask (fun w => f w dst_pod_idx (so_dst_port open))
                        | None => mret 0
                        end
              end;
    if up_port =? 0 then
      channel_set (set_handle i zero_handle);;
      r ← peer_refuse REFUSE_NO_POD; mret (Some (r, 0))
    else
      channel_set (fun c => (set_handle i ((handle_at c i) <| hd_up_port := up_port |>
        <| hd_src_pod_uid := take 63 (so_src_pod_uid open) ++ [x00] |> <| hd_in_use := true |>) c)
        <| ch_handle_count ::= fun n => u32 (n + 1) |>);;
      touch;;
      mret (Some (OK, wire_handle)).

(** The function [dmesh_peer_stream_open], which shares its name with the
    structure: the refusal and the handle of the stream, zero when refused. *)
Definition dmesh_peer_stream_open_op (incarnation : Z) (open : dmesh_peer_stream_open)
    : pm W (dmesh_peer_refusal * Z) :=
  live ← peer_live incarnation;
  if negb (ok live) then mret (live, 0)
  else if negb (open_well_formed open) then r ← peer_refuse REFUSE_MALFORMED; mret (r, 0)
  else
    allowed ← peer_open_allowed;
    if negb allowed then r ← peer_refuse REFUSE_RATE; mret (r, 0)
    else
      c ← channel_of;
      if ch_pair_scoped c &&
         (negb (str_eq (so_src_pod_uid open) (pr_remote_uid (ch_pair c))) ||
          negb (str_eq (so_dst_pod_uid open) (pr_local_uid (ch_pair c))) ||
          negb (so_src_generation open =? rg_generation (pr_remote (ch_pair c))))
      then r ← peer_refuse REFUSE_PAIR; mret (r, 0)
      else if DMESH_PEER_STREAMS_MAX <=? ch_handle_count c then
        r ← peer_refuse REFUSE_STREAMS; mret (r, 0)
      else
        placed ← ask (fun w => op_pod_on_node ops w (so_src_pod_uid open) (ch_node_name c));
        if negb placed then r ← peer_refuse REFUSE_NOT_ON_PEER; mret (r, 0)
        else
          d ← ask (fun w => op_local_pod ops w (so_dst_pod_uid open));
          let '(dst_pod_idx, pod_generation) := d in
          if dst_pod_idx <? 0 then r ← peer_refuse REFUSE_NO_POD; mret (r, 0)
          else
            found ← for_until 0 STREAMS (open_at open dst_pod_idx pod_generation);
            match found with
            | Some r => mret r
            | None => r ← peer_refuse REFUSE_STREAMS; mret (r, 0)
            end.

(** *** The ordered writer *)

Definition peer_encode_frame (built : option (list byte)) : pm W (option (list byte)) :=
  c ← channel_of;
  match built with
  | None => mret None
  | Some frame =>
    if negb (ch_pair_scoped c) then mret (Some frame)
    else match ch_pair_wire c with
      | None => mret None
      | Some wire =>
        if negb (ch_pair_tx_frame c) then mret None
        else
          let '(encoded, wire') := peer_pair_wire_encode wire frame FRAME_CAP in
          channel_set (fun c => c <| ch_pair_wire := Some wire' |>);;
          mret encoded
      end
  end.

(** [table->transport->send] on the channel's connection, negative without one. *)
Definition peer_send (frame : list byte) : pm W Z :=
  c ← channel_of;
  match tr_send transport, ch_conn c with
  | Some send, Some conn => ask (fun w => send w conn frame)
  | _, _ => mret (-1)
  end.

(** 0 sent or retained, 1 busy with an earlier frame, -1 failed. *)
Definition peer_wire_send (type handle : Z) (payload : list byte) : pm W Z :=
  c ← channel_of;
  if negb (tx_len c =? 0) then mret 1
  else
    let built := if is_there (ch_tx_frame c)
                 then dmesh_peer_frame_build FRAME_CAP type (ch_incarnation c) handle payload
                 else None in
    encoded ← peer_encode_frame built;
    match encoded with
    | None => c ← channel_of;
              if ch_pair_scoped c then dmesh_peer_transport_failed;; mret (-1) else mret (-1)
    | Some frame =>
      sent ← peer_send frame;
      if sent =? Z.of_nat (length frame) then mret 0
      else if sent =? 0 then channel_set (fun c => c <| ch_tx_frame := Some frame |>);; mret 0
      else mret (-1)
    end.

(** The handle's share of one acknowledgement that went out. *)
Definition ack_published (entry : dmesh_peer_ack_entry) (c : dmesh_peer_channel) : dmesh_peer_channel :=
  match peer_handle_of c (ae_handle entry) with
  | Some h =>
    let o := handle_at c h in
    if ae_seq_count entry <=? hd_rx_ack_pending o
    then peer_handle_maybe_release h
           (set_handle h (o <| hd_rx_ack_pending := hd_rx_ack_pending o - ae_seq_count entry |>) c)
    else c
  | None => c
  end.

Definition dmesh_peer_ack_flush : pm W Z :=
  c ← channel_of;
  if ack_staged c =? 0 then mret 0
  else
    sent ← peer_wire_send DMESH_PEER_MSG_STREAM_ACK 0 (concat (ack_entry_image <$> ch_ack_stage c));
    if sent =? 0 then
      channel_set (fun c => (fold_left (fun c e => ack_published e c) (ch_ack_stage c) c) <| ch_ack_stage := [] |>);;
      mret sent
    else mret sent.

Definition ack_full (c : dmesh_peer_channel) : bool := ack_staged c =? DMESH_STREAM_ACK_BATCH.

(** The loop stops when a full batch cannot be flushed. *)
Definition peer_ack_drain : pm W unit :=
  c ← channel_of;
  match ch_rx c with
  | None => mret tt
  | Some _ =>
    stopped ← for_until 0 SLOTS (fun i =>
      c ← channel_of;
      if negb (rs_in_use (rx_at c i)) || negb (rs_completed (rx_at c i)) then mret None
      else
        flushed ← (if ack_full c then dmesh_peer_ack_flush else mret 0);
        if negb (flushed =? 0) then mret (Some tt)
        else
          channel_set (fun c => peer_rx_free_slot i
            (peer_ack_append (rs_handle (rx_at c i)) (rs_seq (rx_at c i)) c));;
          mret None);
    match stopped with
    | Some _ => mret tt
    | None => c ← channel_of; if ack_full c then dmesh_peer_ack_flush;; mret tt else mret tt
    end
  end.

Definition staging_add (len : Z) (c : dmesh_peer_channel) : dmesh_peer_channel :=
  c <| ch_staging_bytes ::= fun n => u64 (n + len) |>.
Definition staging_sub (len : Z) (c : dmesh_peer_channel) : dmesh_peer_channel :=
  c <| ch_staging_bytes ::= fun n => u64 (n - len) |>.
Definition handle_add (h : nat) (len : Z) (c : dmesh_peer_channel) : dmesh_peer_channel :=
  set_handle h ((handle_at c h) <| hd_staging_bytes ::= fun n => u32 (n + len) |>) c.
Definition handle_sub (h : nat) (len : Z) (c : dmesh_peer_channel) : dmesh_peer_channel :=
  set_handle h ((handle_at c h) <| hd_staging_bytes ::= fun n => u32 (n - len) |>) c.
Definition complete_rx (i : nat) (c : dmesh_peer_channel) : dmesh_peer_channel :=
  set_rx i ((rx_at c i) <| rs_completed := true |>) c.
Definition rx_alloc (handle seq bytes : Z) (source_side : bool) : pm W (option nat) :=
  fun s => let '(r, c) := peer_rx_alloc handle seq bytes source_side (ps_channel s) in
           (r, PState (ps_self s) c (ps_refused s) (ps_world s)).

(** The reverse direction of a stream this DPU opened. *)
Definition data_source (handle seq : Z) (bytes : list byte) : pm W dmesh_peer_refusal :=
  let len := Z.of_nat (length bytes) in
  c ← channel_of;
  if locally_owned c handle then peer_refuse REFUSE_HANDLE
  else match op_source_deliver ops with
    | None => peer_refuse REFUSE_HANDLE
    | Some deliver =>
      if DMESH_PEER_STAGING_MAX <? u64 (ch_staging_bytes c + len) then peer_refuse REFUSE_STAGING
      else
        rx ← rx_alloc handle seq len true;
        match rx with
        | None => peer_refuse REFUSE_STAGING
        | Some rx =>
          channel_set (staging_add len);;
          self ← self_of;
          c ← channel_of;
          delivered ← ask (fun w => deliver w self c handle bytes seq);
          if delivered <? 0 then
            channel_set (fun c => peer_rx_free_slot rx (staging_sub len c));;
            peer_refuse REFUSE_HANDLE
          else
            touch;;
            if 0 <? delivered then mret OK
            else channel_set (fun c => complete_rx rx (staging_sub len c));; peer_ack_drain;; mret OK
        end
    end.

(** A stream this DPU is the destination of, held by handle slot [h]. *)
Definition data_destination (h : nat) (handle seq : Z) (bytes : list byte) : pm W dmesh_peer_refusal :=
  let len := Z.of_nat (length bytes) in
  c ← channel_of;
  let slot := handle_at c h in
  stale ← match op_pod_generation ops with
          | Some f => g ← ask (fun w => f w (hd_dst_pod_idx slot)); mret (negb (g =? hd_dst_pod_generation slot))
          | None => mret false
          end;
  if stale : bool then
    peer_refuse REFUSE_HANDLE;; channel_set (peer_handle_release h);; mret REFUSE_HANDLE
  else if DMESH_PEER_STAGING_MAX <? u64 (ch_staging_bytes c + len) then peer_refuse REFUSE_STAGING
  else if hd_rx_seq_valid slot && negb (seq =? u32 (hd_rx_seq slot + 1)) then peer_refuse REFUSE_MALFORMED
  else if hd_rx_fin slot then peer_refuse REFUSE_STATE
  else
    rx ← rx_alloc handle seq len false;
    match rx with
    | None => peer_refuse REFUSE_STAGING
    | Some rx =>
      channel_set (fun c => handle_add h len (staging_add len c));;
      c ← channel_of;
      delivered ← ask (fun w => op_deliver ops w (handle_at c h) bytes seq);
      if delivered <? 0 then
        channel_set (fun c => peer_rx_free_slot rx (handle_sub h len (staging_sub len c)));;
        peer_refuse REFUSE_NO_POD;;
        poison_handle h;;
        channel_set (peer_handle_release h);;
        mret REFUSE_NO_POD
      else
        channel_set (fun c => set_handle h ((handle_at c h) <| hd_rx_seq := seq |> <| hd_rx_seq_valid := true |>) c);;
        touch;;
        if 0 <? delivered then mret OK
        else
          channel_set (fun c => complete_rx rx (handle_sub h len (staging_sub len c)));;
          peer_ack_drain;;
          mret OK
    end.

Definition dmesh_peer_data (incarnation handle seq : Z) (bytes : list byte) : pm W dmesh_peer_refusal :=
  let len := Z.of_nat (length bytes) in
  live ← peer_live incarnation;
  if negb (ok live) then mret live
  else if (len =? 0) || (DMESH_PEER_EXTENT_MAX <? len) then peer_refuse REFUSE_MALFORMED
  else if negb (peer_handle_wire_ok handle) then peer_refuse REFUSE_HANDLE
  else
    c ← channel_of;
    match peer_handle_of c handle with
    | None => data_source handle seq bytes
    | Some h => data_destination h handle seq bytes
    end.

Definition dmesh_peer_delivered (handle seq len : Z) : pm W unit :=
  c ← channel_of;
  if negb (is_open (ch_state c)) || negb (peer_handle_wire_ok handle) || negb (locally_owned c handle)
  then mret tt
  else match peer_handle_of c handle, peer_rx_find c handle seq false with
    | Some h, Some rx =>
      if rs_completed (rx_at c rx) || negb (rs_bytes (rx_at c rx) =? len) then mret tt
      else
        channel_set (fun c => complete_rx rx (staging_sub len (handle_sub h len c)));;
        peer_ack_drain;;
        channel_set (peer_handle_maybe_release h);;
        touch
    | _, _ => mret tt
    end.

Definition dmesh_peer_source_delivered (handle seq len : Z) : pm W unit :=
  c ← channel_of;
  if negb (is_open (ch_state c)) || negb (peer_handle_wire_ok handle) || locally_owned c handle
  then mret tt
  else match peer_rx_find c handle seq true with
    | Some rx =>
      if rs_completed (rx_at c rx) || negb (rs_bytes (rx_at c rx) =? len) then mret tt
      else
        channel_set (fun c => complete_rx rx (staging_sub len c));;
        peer_ack_drain;;
        touch
    | None => mret tt
    end.

Definition dmesh_peer_stream_fin (incarnation handle : Z) : pm W dmesh_peer_refusal :=
  live ← peer_live incarnation;
  if negb (ok live) then mret live
  else
    c ← channel_of;
    match peer_handle_of c handle with
    | None => peer_refuse REFUSE_HANDLE
    | Some h =>
      if hd_rx_fin (handle_at c h) then peer_refuse REFUSE_STATE
      else
        channel_set (fun c => set_handle h ((handle_at c h) <| hd_rx_fin := true |>) c);;
        c ← channel_of;
        told ← match op_destination_fin ops with
               | Some f => ask (fun w => f w (handle_at c h))
               | None => mret 0
               end;
        if told <? 0 then peer_refuse REFUSE_NO_POD
        else channel_set (peer_handle_maybe_release h);; touch;; mret OK
    end.

Definition dmesh_peer_pod_gone (incarnation : Z) (pod_uid : list byte) : pm W dmesh_peer_refusal :=
  live ← peer_live incarnation;
  if negb (ok live) then mret live
  else if (length (cstr pod_uid) =? 0)%nat then peer_refuse REFUSE_MALFORMED
  else
    c ← channel_of;
    if ch_pair_scoped c then
      if negb (str_eq pod_uid (pr_remote_uid (ch_pair c))) then peer_refuse REFUSE_PAIR
      else dmesh_peer_reset;; mret OK
    else
      for_each 0 STREAMS (fun i =>
        c ← channel_of;
        if negb (hd_in_use (handle_at c i)) || negb (str_eq (hd_src_pod_uid (handle_at c i)) pod_uid)
        then mret tt
        else
          poison_handle i;;
          channel_set (fun c => peer_handle_release i
            (peer_rx_abandon_handle (hd_wire_handle (handle_at c i)) true c)));;
      touch;;
      mret OK.

(** *** Source *)

(** One slot of the run [entry] names: released and freed. *)
Definition in_run (entry : dmesh_peer_ack_entry) (slot : dmesh_peer_txslot) : bool :=
  tx_in_use slot && (tx_handle slot =? ae_handle entry) &&
  (u32 (tx_seq slot - ae_seq_first entry) <? ae_seq_count entry).
Definition retire_tx (i : nat) : pm W unit :=
  release_tx i;; channel_set (peer_tx_free_slot i).

(** [for] with a counter of the iterations that did something. *)
Fixpoint for_count (from n : nat) (body : nat -> pm W bool) : pm W nat :=
  match n with
  | O => mret O
  | S n' => b ← body from; k ← for_count (S from) n' body; mret (if b : bool then S k else k)
  end.

Definition dmesh_peer_tx_ack (incarnation : Z) (entry : dmesh_peer_ack_entry) : pm W dmesh_peer_refusal :=
  live ← peer_live incarnation;
  if negb (ok live) then mret live
  else if negb (peer_handle_wire_ok (ae_handle entry)) then peer_refuse REFUSE_MALFORMED
  else if (ae_seq_count entry =? 0) || (DMESH_PEER_TX_SLOTS <? ae_seq_count entry)
  then peer_refuse REFUSE_MALFORMED
  else
    retired ← for_count 0 SLOTS (fun i =>
      c ← channel_of;
      if in_run entry (tx_at c i) then retire_tx i;; mret true else mret false);
    if (retired =? 0)%nat then peer_refuse REFUSE_HANDLE
    else touch;; mret OK.

Definition dmesh_peer_tx_drop (handle : Z) : pm W unit :=
  c ← channel_of;
  match ch_tx c with
  | None => mret tt
  | Some _ =>
    for_each 0 SLOTS (fun i =>
      c ← channel_of;
      if negb (tx_in_use (tx_at c i)) || negb (tx_handle (tx_at c i) =? handle) then mret tt
      else retire_tx i)
  end.

(** Whether the pair transport admits new streams and data, on a channel whose
    liveness was just checked. *)
Definition pair_admits : pm W bool :=
  c ← channel_of;
  if negb (ch_pair_scoped c) then mret true
  else match tr_pair_admit transport, ch_conn c with
    | Some f, Some conn => r ← ask (fun w => f w conn); mret (r =? 1)
    | _, _ => mret false
    end.

(** The refusal a send result stands for. *)
Definition send_refusal (sent : Z) : dmesh_peer_refusal :=
  if 0 <? sent then REFUSE_INFLIGHT else REFUSE_TRANSPORT.

Definition dmesh_peer_stream_request (open : dmesh_peer_stream_open) : pm W dmesh_peer_refusal :=
  c ← channel_of;
  if negb (is_open (ch_state c)) then peer_refuse REFUSE_STATE
  else
    live ← peer_live (ch_incarnation c);
    if negb (ok live) then mret live
    else
      admits ← pair_admits;
      if negb admits then peer_refuse REFUSE_INFLIGHT
      else if negb (open_well_formed open) then peer_refuse REFUSE_MALFORMED
      else
        c ← channel_of;
        if ch_pair_scoped c &&
           (negb (str_eq (so_src_pod_uid open) (pr_local_uid (ch_pair c))) ||
            negb (str_eq (so_dst_pod_uid open) (pr_remote_uid (ch_pair c))) ||
            negb (so_src_generation open =? rg_generation (pr_local (ch_pair c))))
        then peer_refuse REFUSE_PAIR
        else
          sent ← peer_wire_send DMESH_PEER_MSG_STREAM_OPEN 0 (open_image open);
          if sent =? 0 then mret OK else peer_refuse (send_refusal sent).

Definition tx_charge (handle seq bytes kind cookie : Z) : pm W dmesh_peer_refusal :=
  fun s => let '(r, c) := dmesh_peer_tx_charge handle seq bytes kind cookie (ps_channel s) in
           (r, PState (ps_self s) c (ps_refused s) (ps_world s)).

(** From the charge on: encoding, sending, and giving the charge back. *)
Definition data_push (handle seq : Z) (bytes : list byte) (cookie : Z) : pm W dmesh_peer_refusal :=
  c ← channel_of;
  let payload := prefix_image (DataPrefix seq 0) ++ bytes in
  let header := MsgHeader DMESH_PEER_MSG_DATA DMESH_PEER_WIRE_VERSION 0
                  (Z.of_nat (length payload)) (ch_incarnation c) handle in
  encoded ← peer_encode_frame (Some (header_image header ++ payload));
  match encoded with
  | None =>
    channel_set (peer_tx_uncharge handle seq cookie);;
    dmesh_peer_transport_failed;;
    mret REFUSE_TRANSPORT
  | Some frame =>
    sent ← peer_send frame;
    if sent =? Z.of_nat (length frame) then mret OK
    else if sent =? 0 then channel_set (fun c => c <| ch_tx_frame := Some frame |>);; mret OK
    else
      channel_set (peer_tx_uncharge handle seq cookie);;
      peer_refuse REFUSE_TRANSPORT;;
      dmesh_peer_reset;;
      mret REFUSE_TRANSPORT
  end.

Definition dmesh_peer_stream_data_send (handle seq : Z) (bytes : list byte) (custody_kind cookie : Z)
    : pm W dmesh_peer_refusal :=
  let len := Z.of_nat (length bytes) in
  c ← channel_of;
  if negb (is_open (ch_state c)) then peer_refuse REFUSE_STATE
  else
    live ← peer_live (ch_incarnation c);
    if negb (ok live) then mret live
    else
      admits ← pair_admits;
      if negb admits then peer_refuse REFUSE_INFLIGHT
      else if negb (peer_handle_wire_ok handle) || (len =? 0) || (DMESH_PEER_EXTENT_MAX <? len) ||
              (DMESH_PEER_CUSTODY_L7 <? custody_kind) || (cookie =? 0) then peer_refuse REFUSE_MALFORMED
      else
        c ← channel_of;
        if locally_owned c handle && negb (is_there (peer_handle_of c handle)) then peer_refuse REFUSE_HANDLE
        else if negb (tx_len c =? 0) then peer_refuse REFUSE_INFLIGHT
        else
          charged ← tx_charge handle seq len custody_kind cookie;
          if negb (ok charged) then peer_refuse charged;; mret charged
          else data_push handle seq bytes cookie.

Definition dmesh_peer_stream_fin_send (handle : Z) : pm W dmesh_peer_refusal :=
  c ← channel_of;
  if negb (is_open (ch_state c)) then peer_refuse REFUSE_STATE
  else if negb (peer_handle_wire_ok handle) then peer_refuse REFUSE_MALFORMED
  else if locally_owned c handle && negb (is_there (peer_handle_of c handle)) then peer_refuse REFUSE_HANDLE
  else
    sent ← peer_wire_send DMESH_PEER_MSG_STREAM_FIN handle [];
    if sent =? 0 then
      channel_set (fun c => match peer_handle_of c handle with
                            | Some h => peer_handle_maybe_release h
                                (set_handle h ((handle_at c h) <| hd_tx_fin := true |>) c)
                            | None => c
                            end);;
      mret OK
    else peer_refuse (send_refusal sent).

Definition dmesh_peer_pod_gone_send (pod_uid : list byte) : pm W dmesh_peer_refusal :=
  c ← channel_of;
  if negb (is_open (ch_state c)) then peer_refuse REFUSE_STATE
  else if negb (peer_text_ok (take DMESH_POD_UID_MAX pod_uid)) then peer_refuse REFUSE_MALFORMED
  else
    let uid := cstr pod_uid in
    sent ← peer_wire_send DMESH_PEER_MSG_POD_GONE 0 (uid ++ repeat x00 (DMESH_POD_UID_MAX - length uid));
    if sent =? 0 then mret OK else peer_refuse (send_refusal sent).

(** *** Frames *)

(** [true] is the zero return, [false] the -1. *)
Definition refuse_frame (reason : dmesh_peer_refusal) : pm W bool := peer_refuse reason;; mret false.
Definition passed (m : pm W dmesh_peer_refusal) : pm W bool := r ← m; mret (ok r).

Definition dispatch_open (header : dmesh_peer_msg_header) (payload : list byte) : pm W bool :=
  if negb (mh_handle header =? 0) || negb (mh_length header =? OPEN_LEN)
  then refuse_frame REFUSE_MALFORMED
  else
    let open := open_of payload in
    r ← dmesh_peer_stream_open_op (mh_incarnation header) open;
    let '(status, handle) := r in
    let ack := OpenAck (so_source_token open) handle (refusal_code status) 0 in
    sent ← peer_wire_send DMESH_PEER_MSG_STREAM_OPEN_ACK 0 (open_ack_image ack);
    if negb (sent =? 0) then refuse_frame REFUSE_TRANSPORT else mret true.

Definition dispatch_open_ack (header : dmesh_peer_msg_header) (payload : list byte) : pm W bool :=
  if negb (mh_handle header =? 0) || negb (mh_length header =? OPEN_ACK_LEN)
  then refuse_frame REFUSE_MALFORMED
  else
    let ack := open_ack_of payload in
    c ← channel_of;
    if (oa_source_token ack =? 0) || negb (oa_reserved ack =? 0) || (oa_status ack <? 0) ||
       (REFUSE_MAX <=? oa_status ack) ||
       (if oa_status ack =? 0
        then negb (peer_handle_wire_ok (oa_handle ack)) || locally_owned c (oa_handle ack)
        else negb (oa_handle ack =? 0))
    then refuse_frame REFUSE_MALFORMED
    else
      self ← self_of;
      match op_source_opened ops with
      | Some f => tell (fun w => f w self c (oa_source_token ack) (oa_handle ack) (oa_status ack))
      | None => mret tt
      end;;
      mret true.

Definition dispatch_data (header : dmesh_peer_msg_header) (payload : list byte) : pm W bool :=
  if (mh_handle header =? 0) || (mh_length header <=? PREFIX_LEN) then refuse_frame REFUSE_MALFORMED
  else
    let prefix := prefix_of payload in
    if negb (px_reserved prefix =? 0) then refuse_frame REFUSE_MALFORMED
    else passed (dmesh_peer_data (mh_incarnation header) (mh_handle header) (px_seq prefix) (drop 8 payload)).

Definition dispatch_fin (header : dmesh_peer_msg_header) : pm W bool :=
  if (mh_handle header =? 0) || negb (mh_length header =? 0) then refuse_frame REFUSE_MALFORMED
  else if negb (peer_handle_wire_ok (mh_handle header)) then refuse_frame REFUSE_HANDLE
  else
    c ← channel_of;
    if locally_owned c (mh_handle header)
    then passed (dmesh_peer_stream_fin (mh_incarnation header) (mh_handle header))
    else
      self ← self_of;
      known ← match op_source_fin ops with
              | Some f => ask (fun w => f w self c (mh_handle header))
              | None => mret false
              end;
      if known : bool then mret true else refuse_frame REFUSE_HANDLE.

Fixpoint ack_each (incarnation : Z) (entries : list dmesh_peer_ack_entry) : pm W bool :=
  match entries with
  | [] => mret true
  | entry :: rest =>
    if negb (ae_reserved entry =? 0) then mret false
    else
      r ← dmesh_peer_tx_ack incarnation entry;
      if negb (ok r) then mret false else ack_each incarnation rest
  end.

Definition dispatch_ack (header : dmesh_peer_msg_header) (payload : list byte) : pm W bool :=
  if negb (mh_handle header =? 0) || (mh_length header =? 0) ||
     negb (mh_length header mod ACK_ENTRY_LEN =? 0) ||
     (DMESH_STREAM_ACK_BATCH * ACK_ENTRY_LEN <? mh_length header)
  then refuse_frame REFUSE_MALFORMED
  else ack_each (mh_incarnation header)
         (ack_entries_of (Z.to_nat (mh_length header / ACK_ENTRY_LEN)) payload).

Definition dispatch_gone (header : dmesh_peer_msg_header) (payload : list byte) : pm W bool :=
  if negb (mh_handle header =? 0) || negb (mh_length header =? POD_GONE_LEN)
  then refuse_frame REFUSE_MALFORMED
  else
    let pod_uid := take 64 payload in
    if negb (peer_text_ok pod_uid) then refuse_frame REFUSE_MALFORMED
    else passed (dmesh_peer_pod_gone (mh_incarnation header) pod_uid).

Definition peer_dispatch_frame (header : dmesh_peer_msg_header) (payload : list byte) : pm W bool :=
  c ← channel_of;
  if negb (mh_incarnation header =? ch_incarnation c) then refuse_frame REFUSE_INCARNATION
  else if mh_type header =? DMESH_PEER_MSG_STREAM_OPEN then dispatch_open header payload
  else if mh_type header =? DMESH_PEER_MSG_STREAM_OPEN_ACK then dispatch_open_ack header payload
  else if mh_type header =? DMESH_PEER_MSG_DATA then dispatch_data header payload
  else if mh_type header =? DMESH_PEER_MSG_STREAM_FIN then dispatch_fin header
  else if mh_type header =? DMESH_PEER_MSG_STREAM_ACK then dispatch_ack header payload
  else if mh_type header =? DMESH_PEER_MSG_POD_GONE then dispatch_gone header payload
  else refuse_frame REFUSE_MALFORMED.

(** *** Progress *)

Inductive incoming :=
  | Idle                     (* nothing more to read: [break] *)
  | Faulted                  (* the channel was reset: [return -1] *)
  | Arrived (h : dmesh_peer_msg_header) (payload : list byte) (parsed : Z)
  | Exhausted.               (* out of fuel; see [receive_fuel] *)

(** One parse of the receive buffer. *)
Definition parse_rx : pm W (parsed * Z) :=
  c ← channel_of;
  let bytes := default [] (ch_rx_frame c) in
  if ch_pair_scoped c then
    match ch_pair_wire c with
    | Some wire =>
      if negb (ch_pair_rx_payload c) || negb (is_there (ch_rx_frame c)) then mret (Malformed, 0)
      else
        let '(r, n, wire') := peer_pair_wire_decode wire bytes (ch_incarnation c) DMESH_PEER_FRAME_MAX in
        channel_set (fun c => c <| ch_pair_wire := Some wire' |>);;
        mret (r, n)
    | None => mret (Malformed, 0)
    end
  else
    let r := dmesh_peer_frame_parse bytes in
    mret (r, match r with Frame h _ => frame_size h | _ => 0 end).

Definition fault (reason : dmesh_peer_refusal) : pm W incoming :=
  peer_refuse reason;; dmesh_peer_reset;; mret Faulted.

(** The iterations of the loop up to a whole frame: parse, or read more. *)
Fixpoint receive_frame (fuel : nat) : pm W incoming :=
  match fuel with
  | O => mret Exhausted
  | S fuel' =>
    p ← parse_rx;
    match p with
    | (Malformed, _) => fault REFUSE_MALFORMED
    | (Frame h payload, n) => mret (Arrived h payload n)
    | (Incomplete, _) =>
      c ← channel_of;
      if rx_len c =? FRAME_CAP then fault REFUSE_MALFORMED
      else
        received ← match tr_recv transport, ch_conn c with
                   | Some recv, Some conn => ask (fun w => recv w conn (FRAME_CAP - rx_len c))
                   | _, _ => mret None
                   end;
        match received with
        | None => fault REFUSE_TRANSPORT
        | Some [] => mret Idle
        | Some bytes =>
          if FRAME_CAP - rx_len c <? Z.of_nat (length bytes) then fault REFUSE_TRANSPORT
          else channel_set (fun c => c <| ch_rx_frame ::= fmap (fun old => old ++ bytes) |>);;
               receive_frame fuel'
        end
    end
  end.
(** Every read but the last adds a byte to a buffer of [FRAME_CAP] bytes. *)
Definition receive_fuel : nat := Z.to_nat (FRAME_CAP + 2).

(** [inl]: the loop ended with that many frames; [inr]: the function returned. *)
Fixpoint progress_loop (budget : nat) (progressed : Z) : pm W (Z + Z) :=
  match budget with
  | O => mret (inl progressed)
  | S budget' =>
    i ← receive_frame receive_fuel;
    match i with
    | Idle => mret (inl progressed)
    | Faulted | Exhausted => mret (inr (-1))
    | Arrived h payload n =>
      fine ← peer_dispatch_frame h payload;
      if negb fine then dmesh_peer_reset;; mret (inr (-1))
      else
        c ← channel_of;
        if is_closed (ch_state c) then mret (inr (progressed + 1))
        else
          channel_set (fun c => c <| ch_rx_frame ::= fmap (drop (Z.to_nat n)) |>);;
          touch;;
          c ← channel_of;
          if negb (tx_len c =? 0) then mret (inl (progressed + 1))
          else progress_loop budget' (progressed + 1)
    end
  end.

(** The handshake part; [Some r] returns [r]. *)
Definition progress_handshake : pm W (option Z) :=
  c ← channel_of;
  if negb (is_authenticating (ch_state c)) then mret None
  else match tr_peer_key transport, ch_conn c with
    | Some peer_key, Some conn =>
      key ← ask (fun w => peer_key w conn);
      match key with
      | None => mret (Some 0)
      | Some key =>
        ready ← (if ch_pair_scoped c then
                   match tr_pair_ready transport with
                   | Some f => r ← ask (fun w => f w conn); mret (fst r)
                   | None => mret 0
                   end
                 else mret 1);
        if ready =? 0 then mret (Some 0)
        else if ready <? 0 then dmesh_peer_transport_failed;; mret (Some (-1))
        else
          r ← dmesh_peer_authenticated key;
          if negb (ok r) then mret (Some (-1)) else mret None
      end
    | _, _ => mret (Some (-1))
    end.

(** Flushing the retained frame; [Some r] returns [r]. *)
Definition progress_flush : pm W (option Z) :=
  c ← channel_of;
  if tx_len c =? 0 then mret None
  else
    sent ← peer_send (default [] (ch_tx_frame c));
    if sent =? 0 then mret (Some 0)
    else if negb (sent =? tx_len c) then peer_refuse REFUSE_TRANSPORT;; dmesh_peer_reset;; mret (Some (-1))
    else channel_set (fun c => c <| ch_tx_frame ::= fmap (fun _ => []) |>);; mret None.

(** The acknowledgements after the loop. *)
Definition progress_acks (progressed : Z) : pm W Z :=
  c ← channel_of;
  if negb (is_open (ch_state c)) || negb (tx_len c =? 0) then mret progressed
  else
    peer_ack_drain;;
    c ← channel_of;
    if ack_staged c =? 0 then mret progressed
    else
      sent ← dmesh_peer_ack_flush;
      if sent <? 0 then peer_refuse REFUSE_TRANSPORT;; dmesh_peer_reset;; mret (-1)
      else mret progressed.

Definition dmesh_peer_channel_progress (frame_budget : Z) : pm W Z :=
  c ← channel_of;
  if negb (ch_in_use c) || (frame_budget <=? 0) then mret (-1)
  else
    h ← progress_handshake;
    match h with
    | Some r => mret r
    | None =>
      c ← channel_of;
      if negb (is_open (ch_state c)) then mret 0
      else
        live ← peer_live (ch_incarnation c);
        if negb (ok live) then mret (-1)
        else
          f ← progress_flush;
          match f with
          | Some r => mret r
          | None =>
            l ← progress_loop (Z.to_nat frame_budget) 0;
            match l with
            | inr r => mret r
            | inl progressed => progress_acks progressed
            end
          end
    end.

End channel.
