(* ===== verification/PeerTable.v ===== *)
(** * The channel table ([doca/peer_channel.c], table and lifetime part)

    The fixed table of channels: lookup, eviction, rebinding to a new topology
    generation, opening and accepting channels, and the custody references
    that keep a channel slot from being reused. *)

From S2P Require Import Prelude Text Cursor PeerIdentity PeerFrame PairWire PeerState PeerChannel.

Definition CHANNELS : nat := Z.to_nat DMESH_CHANNEL_MAX.

Record dmesh_peer_table (W : Type) := Table {
  tb_channels : list dmesh_peer_channel; tb_evictions : Z; tb_refused : list Z; tb_world : W }.
Arguments Table {W}. Arguments tb_channels {W}. Arguments tb_evictions {W}. Arguments tb_refused {W}.
Arguments tb_world {W}.
#[export] Instance eta_table {W} : Eta (dmesh_peer_table W) := fun t =>
  Table (tb_channels t) (tb_evictions t) (tb_refused t) (tb_world t).

(** ** Names and the prologue *)

(** A C string copied into a zeroed array of [size] bytes. *)
Definition copied (size : nat) (s : list byte) : list byte :=
  let t := take (size - 1) (cstr s) in t ++ repeat x00 (size - length t).

(** [%u]: a 32-bit number has at most ten digits. *)
Definition decimal (n : Z) : list byte := digits 10 n [].

(** "dpumesh-peer-v1\n" *)
Definition prologue_magic : list byte :=
  z2b <$> [100; 112; 117; 109; 101; 115; 104; 45; 112; 101; 101; 114; 45; 118; 49; 10].
Definition DMESH_PEER_PROLOGUE_MAX : Z :=
  Z.of_nat (length prologue_magic) + 2 * Z.of_nat DMESH_K8S_NAME_MAX + 11 + 1.
Definition dmesh_peer_prologue (local_node peer_node : list byte) (incarnation out_len : Z)
    : option (list byte) :=
  let text := prologue_magic ++ cstr local_node ++ [NL] ++ cstr peer_node ++ [NL] ++
              decimal incarnation ++ [NL] in
  if out_len <=? Z.of_nat (length text) then None else Some text.

(** ** Custody references

    The counter is an atomic the proxy's threads share; a successful
    compare-and-exchange replaces the value it read, so an operation is one
    update of the counter: the new value, or a refusal. *)

Definition dmesh_peer_channel_hold (c : dmesh_peer_channel) (incarnation n : Z) : option Z :=
  if negb (ch_in_use c) || negb (is_open (ch_state c)) || negb (ch_incarnation c =? incarnation) then None
  else if n =? UINT32_MAX then None else Some (n + 1).
Definition dmesh_peer_channel_release (c : dmesh_peer_channel) (incarnation n : Z) : option Z :=
  if negb (ch_in_use c) || negb (ch_incarnation c =? incarnation) then None
  else if n =? 0 then None else Some (n - 1).
Definition dmesh_peer_channel_dma_fenced (c : dmesh_peer_channel) (incarnation n : Z) : bool :=
  ch_in_use c && (ch_incarnation c =? incarnation) && (n =? 0).

(** ** The monad of table operations *)

Definition tm (W A : Type) : Type := dmesh_peer_table W -> A * dmesh_peer_table W.
#[export] Instance tm_ret W : MRet (tm W) := fun A a t => (a, t).
#[export] Instance tm_bind W : MBind (tm W) := fun A B f m t => let '(a, t') := m t in f a t'.

Definition channel_at {W} (t : dmesh_peer_table W) (i : nat) : dmesh_peer_channel :=
  default zero_channel (tb_channels t !! i).
Definition look {W A} (f : dmesh_peer_table W -> A) : tm W A := fun t => (f t, t).
Definition table_set {W} (f : dmesh_peer_table W -> dmesh_peer_table W) : tm W unit := fun t => (tt, f t).
(** A channel operation on slot [i]. *)
Definition on {W A} (i : nat) (m : pm W A) : tm W A := fun t =>
  let '(a, s) := m (PState i (channel_at t i) (tb_refused t) (tb_world t)) in
  (a, Table (<[i := ps_channel s]> (tb_channels t)) (tb_evictions t) (ps_refused s) (ps_world s)).
(** A callback on behalf of no channel. *)
Definition on_table {W A} (f : W -> A * W) : tm W A := fun t =>
  let '(a, w) := f (tb_world t) in (a, Table (tb_channels t) (tb_evictions t) (tb_refused t) w).

Fixpoint each {W} (from n : nat) (body : nat -> tm W unit) : tm W unit :=
  match n with
  | O => mret tt
  | S n' => body from;; each (S from) n' body
  end.

Section table.
  Context {W : Type} (E : peer_env W).
  Local Abbreviation ops := (pe_ops E).
  Local Abbreviation transport := (pe_transport E).

(** [peer_refuse(table, channel, reason)] with a channel that may be NULL. *)
Definition refuse_at (channel : option nat) (reason : dmesh_peer_refusal) : tm W dmesh_peer_refusal :=
  match channel with
  | Some i => on i (peer_refuse E reason)
  | None =>
    table_set (fun t => t <| tb_refused ::= alter (fun n => u64 (n + 1)) (Z.to_nat (refusal_code reason)) |>);;
    match op_event ops with
    | Some f => on_table (fun w => (tt, f w reason))
    | None => mret tt
    end;;
    mret reason
  end.

Definition table_now : tm W Z :=
  match op_now_ns ops with Some f => on_table f | None => mret 0 end.
Definition close_conn (conn : nat) : tm W unit :=
  match tr_close transport with Some f => on_table (fun w => (tt, f w conn)) | None => mret tt end.

Definition peer_channel_free : pm W unit :=
  c ← channel_of;
  match ch_conn c with Some conn => peer_close E conn | None => mret tt end;;
  channel_set (fun c => c <| ch_conn := None |> <| ch_pair_wire := None |>
    <| ch_pair_tx_frame := false |> <| ch_pair_rx_payload := false |> <| ch_handles := None |>
    <| ch_tx := None |> <| ch_rx := None |> <| ch_rx_frame := None |> <| ch_tx_frame := None |>
    <| ch_in_use := false |> <| ch_state := CLOSED |>).

Definition local_refs (i : nat) (t : dmesh_peer_table W) : Z := pe_local_refs E (tb_world t) i.
Definition retirement_refs (i : nat) (t : dmesh_peer_table W) : Z := pe_retirement_refs E (tb_world t) i.
Definition peer_channel_referenced (i : nat) (t : dmesh_peer_table W) : bool :=
  negb (retirement_refs i t =? 0) || negb (local_refs i t =? 0).

(** The first loop of [dmesh_peer_table_fini]; the answer is [held]. *)
Fixpoint fini_reset (from n : nat) : tm W bool :=
  match n with
  | O => mret false
  | S n' =>
    c ← look (fun t => channel_at t from);
    (if ch_in_use c && (negb (is_closed (ch_state c)) || is_there (ch_conn c))
     then on from (dmesh_peer_reset E) else mret tt);;
    held ← look (peer_channel_referenced from);
    rest ← fini_reset (S from) n';
    mret (held || rest)
  end.

(** [true] is the zero return. *)
Definition dmesh_peer_table_fini : tm W bool :=
  held ← fini_reset 0 CHANNELS;
  if held : bool then mret false
  else
    each 0 CHANNELS (fun i =>
      c ← look (fun t => channel_at t i);
      if ch_in_use c then on i peer_channel_free else mret tt);;
    mret true.

Definition dmesh_peer_table_init (w : W) : dmesh_peer_table W :=
  Table (repeat zero_channel CHANNELS) 0 zero_refused w.

(** The first channel of the table that satisfies [p]. *)
Fixpoint first_channel (p : dmesh_peer_channel -> bool) (i : nat) (l : list dmesh_peer_channel) : option nat :=
  match l with
  | [] => None
  | c :: rest => if p c then Some i else first_channel p (S i) rest
  end.

Definition dmesh_peer_find (node_name : list byte) (t : dmesh_peer_table W) : option nat :=
  first_channel (fun c => ch_in_use c && negb (ch_pair_scoped c) && str_eq (ch_node_name c) node_name)
    0 (tb_channels t).
Definition dmesh_peer_find_pair (node_name local_uid remote_uid : list byte) (t : dmesh_peer_table W)
    : option nat :=
  first_channel (fun c => ch_in_use c && ch_pair_scoped c && str_eq (ch_node_name c) node_name &&
                   str_eq (pr_local_uid (ch_pair c)) local_uid &&
                   str_eq (pr_remote_uid (ch_pair c)) remote_uid) 0 (tb_channels t).
Definition find_for (node_name : list byte) (pair : option dmesh_peer_pair) (t : dmesh_peer_table W)
    : option nat :=
  match pair with
  | Some p => dmesh_peer_find_pair node_name (pr_local_uid p) (pr_remote_uid p) t
  | None => dmesh_peer_find node_name t
  end.

(** ** Eviction *)

(** Streams, in-flight bytes or proxy custody pin a channel. *)
Definition pinned (i : nat) (t : dmesh_peer_table W) : bool :=
  let c := channel_at t i in
  negb (ch_handle_count c =? 0) || negb (ch_inflight_bytes c =? 0) || negb (local_refs i t =? 0).

(** The scan of [peer_channel_slot]: a free slot, or the oldest evictable one. *)
Fixpoint slot_scan (i : nat) (l : list dmesh_peer_channel) (oldest : option nat) (t : dmesh_peer_table W)
    : nat + option nat :=
  match l with
  | [] => inr oldest
  | c :: rest =>
    if negb (ch_in_use c) then inl i
    else if pinned i t || (is_closed (ch_state c) && negb (retirement_refs i t =? 0))
    then slot_scan (S i) rest oldest t
    else
      let older := match oldest with
                   | None => true
                   | Some o => ch_last_active_ns c <? ch_last_active_ns (channel_at t o)
                   end in
      slot_scan (S i) rest (if older then Some i else oldest) t
  end.

Definition evict (i : nat) : tm W bool :=
  on i (dmesh_peer_reset E);;
  held ← look (peer_channel_referenced i);
  if held : bool then mret false
  else
    on i peer_channel_free;;
    table_set (fun t => t <| tb_evictions ::= fun n => u64 (n + 1) |>);;
    mret true.

Definition peer_channel_slot : tm W (option nat) :=
  r ← look (fun t => slot_scan 0 (tb_channels t) None t);
  match r with
  | inl i => mret (Some i)
  | inr None => mret None
  | inr (Some i) => evicted ← evict i; mret (if evicted : bool then Some i else None)
  end.

Definition dmesh_peer_evict_idle : tm W unit :=
  now ← table_now;
  each 0 CHANNELS (fun i =>
    c ← look (fun t => channel_at t i);
    if negb (ch_in_use c) || is_closed (ch_state c) then mret tt
    else if u64 (now - ch_last_active_ns c) <? DMESH_CHANNEL_IDLE_NS then mret tt
    else
      busy ← look (pinned i);
      if busy : bool then mret tt else evict i;; mret tt).

(** ** A new topology generation *)

Definition refuse_reset (reason : dmesh_peer_refusal) : pm W unit :=
  peer_refuse E reason;; dmesh_peer_reset E.

Definition rebind_channel (binding : W -> list byte -> option node_binding_t * W) : pm W unit :=
  c ← channel_of;
  if negb (ch_in_use c) || is_closed (ch_state c) then mret tt
  else
    b ← ask (fun w => binding w (ch_node_name c));
    match b ≫= nb_key with
    | None => refuse_reset REFUSE_NODE_UNBOUND
    | Some key =>
      if negb (bytes_eq (ch_bound_key c) key) then refuse_reset REFUSE_NODE_KEY
      else if ch_pair_scoped c then
        r ← peer_pair_local E (ch_node_name c) (ch_pair c);
        if negb (ok r) then refuse_reset r else mret tt
      else mret tt
    end.

Definition dmesh_peer_table_rebind : tm W unit :=
  match op_node_binding ops with
  | None => mret tt
  | Some binding => each 0 CHANNELS (fun i => on i (rebind_channel binding))
  end.

(** ** Opening *)

(** A taken slot, zeroed and named, with a full bucket. *)
Definition claim_slot (i : nat) (node_name : list byte) (pair : option dmesh_peer_pair) : tm W unit :=
  on_table (fun w => (tt, pe_clear_refs E w i));;
  on i (channel_set (fun _ => zero_channel <| ch_node_name := copied DMESH_K8S_NAME_MAX node_name |>
          <| ch_in_use := true |>
          <| ch_pair := default zero_pair pair |> <| ch_pair_scoped := is_there pair |>
          <| ch_open_tokens_milli := DMESH_PEER_OPEN_RATE * 1000 |>));;
  now ← table_now;
  on i (channel_set (fun c => c <| ch_open_refill_ns := now |>)).

(** [table->transport->connect] or [connect_pair], by the kind of channel. *)
Definition connect (node_name key : list byte) (ip_be port incarnation : Z) (prologue : list byte)
    (pair : option dmesh_peer_pair) (intent : option dmesh_peer_stream_open) : pm W (Z * option nat) :=
  match pair, tr_connect_pair transport, tr_pair_ready transport, tr_pair_admit transport with
  | Some p, Some f, Some _, Some _ => ask (fun w => f w node_name key ip_be port incarnation p intent)
  | Some _, _, _, _ => mret (-1, None)
  | None, _, ready, _ =>
    match tr_connect transport, ready with
    | Some f, None => ask (fun w => f w ip_be port prologue)
    | _, _ => mret (-1, None)
    end
  end.

(** From the binding on, once the channel slot exists: [OK] when it dials. *)
Definition dial (node_name key : list byte) (ip_be port : Z) (pair : option dmesh_peer_pair)
    (intent : option dmesh_peer_stream_open) : pm W dmesh_peer_refusal :=
  got ← peer_channel_alloc_tables E;
  if negb got then peer_refuse E REFUSE_STATE
  else
    channel_set (fun c => (match pair with Some p => c <| ch_pair := p |> | None => c end)
      <| ch_bound_key := key |> <| ch_ip_be := ip_be |> <| ch_port := port |>);;
    c ← channel_of;
    if ch_incarnation c =? UINT32_MAX then peer_refuse E REFUSE_INCARNATION
    else
      channel_set (fun c => c <| ch_incarnation ::= fun n => n + 1 |> <| ch_initiated_local := true |>
                              <| ch_state := AUTHENTICATING |>);;
      touch E;;
      c ← channel_of;
      match ch_conn c, tr_close transport with
      | Some conn, Some f => tell (fun w => f w conn);; channel_set (fun c => c <| ch_conn := None |>)
      | _, _ => mret tt
      end;;
      match dmesh_peer_prologue (pe_node_name E) node_name (ch_incarnation c) DMESH_PEER_PROLOGUE_MAX with
      | None =>
        r ← peer_refuse E REFUSE_MALFORMED;
        channel_set (fun c => c <| ch_state := CLOSED |>);; mret r
      | Some prologue =>
        r ← connect node_name key ip_be port (ch_incarnation c) prologue pair intent;
        let '(connected, conn) := r in
        match conn with
        | Some k =>
          if connected =? 0 then
            channel_set (fun c => c <| ch_conn := Some k |> <| ch_handshakes ::= fun n => u64 (n + 1) |>);;
            mret OK
          else
            peer_close E k;;
            r ← peer_refuse E REFUSE_TRANSPORT;
            channel_set (fun c => c <| ch_state := CLOSED |>);; mret r
        | None =>
          r ← peer_refuse E REFUSE_TRANSPORT;
          channel_set (fun c => c <| ch_state := CLOSED |>);; mret r
        end
      end.

(** The tail of [peer_open]: the binding, the slot and the dialling. *)
Definition open_fresh (node_name : list byte) (pair : option dmesh_peer_pair)
    (intent : option dmesh_peer_stream_open) (channel : option nat)
    : tm W (option nat * dmesh_peer_refusal) :=
  b ← match op_node_binding ops with
      | Some f => on_table (fun w => f w node_name)
      | None => mret None
      end;
  match b with
  | Some (Binding (Some key) ip_be port) =>
    slot ← match channel with
           | Some i => mret (Some i)
           | None =>
             s ← peer_channel_slot;
             match s with
             | Some i => claim_slot i node_name pair;; mret (Some i)
             | None => mret None
             end
           end;
    match slot with
    | None => r ← refuse_at None REFUSE_STATE; mret (None, r)
    | Some i =>
      r ← on i (dial node_name key ip_be port pair intent);
      mret (if ok r then Some i else None, r)
    end
  | _ => r ← refuse_at channel REFUSE_NODE_UNBOUND; mret (None, r)
  end.

Definition peer_open (node_name : list byte) (pair : option dmesh_peer_pair)
    (intent : option dmesh_peer_stream_open) : tm W (option nat * dmesh_peer_refusal) :=
  channel ← look (find_for node_name pair);
  match channel with
  | None => open_fresh node_name pair intent None
  | Some i =>
    c ← look (fun t => channel_at t i);
    match pair with
    | Some p => if negb (dmesh_peer_registration_equal (pr_local p) (pr_local (ch_pair c)))
                then on i (dmesh_peer_reset E) else mret tt
    | None => mret tt
    end;;
    c ← look (fun t => channel_at t i);
    match ch_state c with
    | OPEN => on i (touch E);; mret (Some i, OK)
    | AUTHENTICATING => mret (Some i, OK)
    | CLOSED =>
      held ← look (peer_channel_referenced i);
      if held : bool then r ← refuse_at (Some i) REFUSE_STATE; mret (None, r)
      else open_fresh node_name pair intent (Some i)
    end
  end.

(** [peer_pair_local] reads and writes no channel: it runs on a blank one. *)
Definition check_pair (node : list byte) (p : dmesh_peer_pair) : tm W dmesh_peer_refusal := fun t =>
  let '(r, s) := peer_pair_local E node p (PState 0 zero_channel (tb_refused t) (tb_world t)) in
  (r, t <| tb_refused := ps_refused s |> <| tb_world := ps_world s |>).

(** Any callback of the pair group; all of them. *)
Definition pair_any : bool :=
  is_there (tr_connect_pair transport) || is_there (tr_pair_ready transport) || is_there (tr_pair_admit transport).
Definition pair_all : bool :=
  is_there (tr_connect_pair transport) && is_there (tr_pair_ready transport) && is_there (tr_pair_admit transport).
Definition empty_name (s : list byte) : bool := (length (cstr s) =? 0)%nat.

Definition dmesh_peer_open (node : list byte) : tm W (option nat * dmesh_peer_refusal) :=
  if empty_name node || pair_any then mret (None, REFUSE_PAIR) else peer_open node None None.

Definition open_intent_ok (node : list byte) (intent : dmesh_peer_stream_open) : bool :=
  negb (empty_name node) && negb (so_dst_port intent =? 0) && (so_reserved intent =? 0) &&
  peer_text_ok (so_src_pod_uid intent) && peer_text_ok (so_dst_pod_uid intent) &&
  peer_text_ok (so_src_service_key intent).

Definition dmesh_peer_open_stream (node : list byte) (intent : dmesh_peer_stream_open)
    : tm W (option nat * dmesh_peer_refusal) :=
  let fail reason := r ← refuse_at None reason; mret (None, r) in
  if negb pair_any then dmesh_peer_open node
  else if negb (open_intent_ok node intent) || negb pair_all then fail REFUSE_PAIR
  else
    let named := zero_pair <| pr_local_uid := copied DMESH_POD_UID_MAX (so_src_pod_uid intent) |>
                           <| pr_remote_uid := copied DMESH_POD_UID_MAX (so_dst_pod_uid intent) |> in
    match op_local_registration ops with
    | None => fail REFUSE_REGISTRATION
    | Some f =>
      r ← on_table (fun w => f w (pr_local_uid named));
      let '(found, current) := r in
      if negb (found =? 1) || negb (so_src_generation intent =? rg_generation current)
      then fail REFUSE_REGISTRATION
      else
        let pair := named <| pr_local := current |> in
        r ← check_pair node pair;
        if negb (ok r) then fail r else peer_open node (Some pair) (Some intent)
    end.

(** ** Accepting *)

(** The adopted channel is initialized and authenticated against its binding. *)
Definition adopt (incarnation : Z) (conn : nat) (bound peer_key : list byte) (ip_be port : Z)
    (pair : option dmesh_peer_pair) : pm W dmesh_peer_refusal :=
  got ← peer_channel_alloc_tables E;
  if negb got then r ← peer_refuse E REFUSE_STATE; peer_close E conn;; mret r
  else
    channel_set (fun c => (match pair with Some p => c <| ch_pair := p |> <| ch_pair_scoped := true |> | None => c end)
      <| ch_bound_key := bound |> <| ch_ip_be := ip_be |> <| ch_port := port |>
      <| ch_incarnation := incarnation |> <| ch_initiated_local := false |> <| ch_conn := Some conn |>
      <| ch_state := AUTHENTICATING |>);;
    touch E;;
    channel_set (fun c => c <| ch_handshakes ::= fun n => u64 (n + 1) |>);;
    dmesh_peer_authenticated E peer_key.

(** Simultaneous opens and custody still held: [Some r] refuses the connection. *)
Definition accept_contend (node_name : list byte) (conn : nat) (channel : option nat)
    : tm W (option dmesh_peer_refusal) :=
  match channel with
  | None => mret None
  | Some i =>
    c ← look (fun t => channel_at t i);
    lost ← (if is_closed (ch_state c) then mret false
            else
              let local_is_initiator := strcmp (pe_node_name E) node_name <? 0 in
              if Bool.eqb (ch_initiated_local c) local_is_initiator || local_is_initiator then mret true
              else on i (dmesh_peer_reset E);; mret false);
    if lost : bool then close_conn conn;; r ← refuse_at channel REFUSE_STATE; mret (Some r)
    else
      held ← look (peer_channel_referenced i);
      if held : bool then r ← refuse_at channel REFUSE_STATE; close_conn conn;; mret (Some r)
      else mret None
  end.

Definition peer_accept (node_name : list byte) (incarnation : Z) (conn : nat) (peer_key : list byte)
    (pair : option dmesh_peer_pair) : tm W (option nat * dmesh_peer_refusal) :=
  let fail channel reason := r ← refuse_at channel reason; close_conn conn;; mret (None, r) in
  if empty_name node_name || (incarnation =? 0) then fail None REFUSE_MALFORMED
  else
    b ← match op_node_binding ops with
        | Some f => on_table (fun w => f w node_name)
        | None => mret None
        end;
    match b with
    | Some (Binding (Some bound) ip_be port) =>
      if negb (bytes_eq bound peer_key) then fail None REFUSE_NODE_KEY
      else
        channel ← look (find_for node_name pair);
        contend ← accept_contend node_name conn channel;
        match contend with
        | Some r => mret (None, r)
        | None =>
          slot ← match channel with
                 | Some i => mret (Some i)
                 | None =>
                   s ← peer_channel_slot;
                   match s with
                   | Some i => claim_slot i node_name None;; mret (Some i)
                   | None => mret None
                   end
                 end;
          match slot with
          | None => fail None REFUSE_STATE
          | Some i =>
            r ← on i (adopt incarnation conn bound peer_key ip_be port pair);
            mret (if ok r then Some i else None, r)
          end
        end
    | _ => fail None REFUSE_NODE_UNBOUND
    end.

Definition dmesh_peer_accept (node : list byte) (incarnation : Z) (conn : nat) (key : list byte)
    : tm W (option nat * dmesh_peer_refusal) :=
  if pair_any then close_conn conn;; r ← refuse_at None REFUSE_PAIR; mret (None, r)
  else peer_accept node incarnation conn key None.

Definition dmesh_peer_accept_pair (node : list byte) (incarnation : Z) (conn : nat) (key : list byte)
    : tm W (option nat * dmesh_peer_refusal) :=
  let fail reason := close_conn conn;; r ← refuse_at None reason; mret (None, r) in
  match tr_connect_pair transport, tr_pair_ready transport, tr_pair_admit transport with
  | Some _, Some ready, Some _ =>
    p ← on_table (fun w => ready w conn);
    let '(status, certified) := p in
    if negb (status =? 1) || negb (dmesh_peer_registration_valid (pr_remote certified)) then fail REFUSE_PAIR
    else
      r ← check_pair node certified;
      if negb (ok r) then fail r else peer_accept node incarnation conn key (Some certified)
  | _, _, _ => fail REFUSE_PAIR
  end.
End table.
