(* ===== verification/FreeList.v ===== *)
(** * Free lists threaded through a table

    A table of slots whose unused slots are linked by index: allocation pops
    the head, release pushes a slot.  The list always runs through exactly the
    unused slots, each once. *)

From S2P Require Import Prelude PeerFrame.

Section free_list.
  Context {A : Type} (used : A -> bool) (next : A -> Z).
  Implicit Types l : list A.

Fixpoint linked l (start : Z) (idxs : list nat) : Prop :=
  match idxs with
  | [] => start = DMESH_PEER_TX_NIL
  | i :: rest => start = Z.of_nat i /\ exists a, l !! i = Some a /\ linked l (next a) rest
  end.

Definition free_ok l (free : Z) : Prop :=
  Z.of_nat (length l) <= DMESH_PEER_TX_NIL /\
  exists idxs, linked l free idxs /\ NoDup idxs /\
    forall i, i ∈ idxs <-> exists a, l !! i = Some a /\ used a = false.

Lemma linked_frame l start idxs i a :
  i ∉ idxs -> linked l start idxs -> linked (<[i := a]> l) start idxs.
Proof.
  revert start. induction idxs as [|j rest IH]; intros start Hi; [done|].
  rewrite not_elem_of_cons in Hi. destruct Hi as [Hij Hi]. intros [Hs (b & Hb & Hl)].
  split; [done|]. exists b. rewrite list_lookup_insert_ne by done. split; [done|]. by apply IH.
Qed.

Lemma free_pop l free :
  free_ok l free -> free <> DMESH_PEER_TX_NIL ->
  exists i a, free = Z.of_nat i /\ l !! i = Some a /\ used a = false /\
    forall a', used a' = true -> free_ok (<[i := a']> l) (next a).
Proof.
  intros (Hl & idxs & HL & HN & HI) Hf. destruct idxs as [|i rest]; [done|].
  destruct HL as [Hs (a & Ha & HL)]. apply NoDup_cons in HN as [Hi HN].
  assert (used a = false) as Hu.
  { destruct (proj1 (HI i)) as (b & Hb & Hu); [left|]. congruence. }
  exists i, a. split_and!; [done..|]. intros a' Hu'. split; [by rewrite length_insert|].
  exists rest. split_and!; [by apply linked_frame|done|]. intros j. split.
  - intros Hj. destruct (proj1 (HI j)) as (b & Hb & Hub); [by right|]. exists b.
    rewrite list_lookup_insert_ne; [done|]. by intros ->.
  - destruct (decide (i = j)) as [->|Hne].
    + rewrite list_lookup_insert_eq by (by eapply lookup_lt_Some). intros (b & [= <-] & Hb). congruence.
    + rewrite list_lookup_insert_ne by done. intros Hb. apply HI in Hb.
      by apply elem_of_cons in Hb as [->|Hb].
Qed.

Lemma free_push l free i a a' :
  free_ok l free -> l !! i = Some a -> used a = true -> used a' = false -> next a' = free ->
  free_ok (<[i := a']> l) (Z.of_nat i).
Proof.
  intros (Hl & idxs & HL & HN & HI) Ha Hu Hu' Hn. split; [by rewrite length_insert|].
  assert (i ∉ idxs) as Hi.
  { intros Hi. apply HI in Hi as (b & Hb & Hub). congruence. }
  exists (i :: idxs). split_and!; [|by constructor|].
  - split; [done|]. exists a'. rewrite list_lookup_insert_eq by (by eapply lookup_lt_Some).
    split; [done|]. rewrite Hn. by apply linked_frame.
  - intros j. rewrite elem_of_cons. destruct (decide (i = j)) as [->|Hne].
    + rewrite list_lookup_insert_eq by (by eapply lookup_lt_Some). split; [by exists a'|by left].
    + rewrite list_lookup_insert_ne by done. rewrite <-HI. split; [by intros [->|?]|by right].
Qed.

(** A write to a used slot that keeps it used. *)
Lemma free_keep l free i a a' :
  free_ok l free -> l !! i = Some a -> used a = true -> used a' = true -> free_ok (<[i := a']> l) free.
Proof.
  intros (Hl & idxs & HL & HN & HI) Ha Hu Hu'. split; [by rewrite length_insert|].
  assert (i ∉ idxs) as Hi.
  { intros Hi. apply HI in Hi as (b & Hb & Hub). congruence. }
  exists idxs. split_and!; [by apply linked_frame|done|]. intros j. rewrite HI.
  destruct (decide (i = j)) as [->|Hne].
  - rewrite list_lookup_insert_eq by (by eapply lookup_lt_Some). split; intros (b & Hb & Hub); [congruence|].
    injection Hb as <-. congruence.
  - by rewrite list_lookup_insert_ne.
Qed.

Lemma free_empty l : free_ok l DMESH_PEER_TX_NIL -> forall i a, l !! i = Some a -> used a = true.
Proof.
  intros (Hl & idxs & HL & HN & HI) i a Ha. destruct (used a) eqn:Hu; [done|].
  assert (i ∈ idxs) as Hi by (apply HI; eauto). destruct idxs as [|j rest]; [by apply elem_of_nil in Hi|].
  destruct HL as [Hs (b & Hb & _)]. apply lookup_lt_Some in Hb. lia.
Qed.

(** A table whose slots are all unused and linked in order. *)
Lemma linked_seq l i n :
  (forall j a, l !! j = Some a -> next a = if (j =? i + n - 1)%nat then DMESH_PEER_TX_NIL else Z.of_nat j + 1) ->
  length l = (i + n)%nat -> (0 < n)%nat -> linked l (Z.of_nat i) (seq i n).
Proof.
  revert i. induction n as [|n IH]; intros i Hn Hl Hp; [lia|]. cbn [seq linked]. split; [done|].
  destruct (lookup_lt_is_Some_2 l i) as [a Ha]; [lia|]. exists a. split; [done|].
  rewrite (Hn i a Ha). destruct (Nat.eqb_spec i (i + S n - 1)).
  - assert (n = 0%nat) as -> by lia. done.
  - replace (Z.of_nat i + 1) with (Z.of_nat (S i)) by lia. apply IH; [|lia|lia].
    intros j b Hb. rewrite (Hn j b Hb). by replace (S i + n - 1)%nat with (i + S n - 1)%nat by lia.
Qed.

Lemma free_fresh l :
  Z.of_nat (length l) <= DMESH_PEER_TX_NIL -> (0 < length l)%nat ->
  (forall j a, l !! j = Some a ->
     used a = false /\ next a = if (j =? length l - 1)%nat then DMESH_PEER_TX_NIL else Z.of_nat j + 1) ->
  free_ok l 0.
Proof.
  intros Hl Hp H. split; [done|]. exists (seq 0 (length l)). split_and!.
  - apply (linked_seq l 0 (length l)); [|done|done]. intros j a Ha. by apply H.
  - apply NoDup_ListNoDup, seq_NoDup.
  - intros i. rewrite elem_of_seq. split.
    + intros [_ Hi]. destruct (lookup_lt_is_Some_2 l i Hi) as [a Ha]. exists a. split; [done|]. by eapply H.
    + intros (a & Ha & _). apply lookup_lt_Some in Ha. lia.
Qed.
End free_list.
