(* ===== verification/PeerHoare.v ===== *)
(** * Reasoning about channel operations

    [wp m Q c]: whatever the world answers, running [m] on a channel [c] ends
    with a result and a channel that satisfy [Q].  The rules below execute an
    operation symbolically: the channel is a term, only the answers of the
    seams are unknown. *)

From S2P Require Import Prelude PeerIdentity PeerFrame PairWire PeerState.

Section wp.
  Context {W : Type}.

Definition wp {A} (m : pm W A) (Q : A -> dmesh_peer_channel -> Prop) (c : dmesh_peer_channel) : Prop :=
  forall s, ps_channel s = c -> Q (m s).1 (ps_channel (m s).2).

Lemma wp_ret {A} (a : A) Q c : Q a c -> wp (mret a) Q c.
Proof. by intros H s <-. Qed.

Lemma wp_bind {A B} (m : pm W A) (f : A -> pm W B) Q c :
  wp m (fun a c' => wp (f a) Q c') c -> wp (m ≫= f) Q c.
Proof.
  intros H s Hs. specialize (H s Hs). unfold mbind, pm_bind.
  destruct (m s) as [a s'] eqn:E. by apply H.
Qed.

Lemma wp_mono {A} (m : pm W A) (Q Q' : A -> dmesh_peer_channel -> Prop) c :
  wp m Q c -> (forall a c', Q a c' -> Q' a c') -> wp m Q' c.
Proof. intros H HQ s Hs. by apply HQ, H. Qed.

Lemma wp_channel_of Q c : Q c c -> wp channel_of Q c.
Proof. by intros H s <-. Qed.

Lemma wp_self_of Q c : (forall n, Q n c) -> wp self_of Q c.
Proof. by intros H s <-. Qed.

Lemma wp_channel_set f Q c : Q tt (f c) -> wp (channel_set f) Q c.
Proof. by intros H s <-. Qed.

Lemma wp_ask {A} (f : W -> A * W) Q c : (forall a, Q a c) -> wp (ask f) Q c.
Proof. intros H s <-. unfold ask. by destruct (f (ps_world s)). Qed.

(** The same, keeping that some world gave the answer. *)
Lemma wp_ask_world {A} (f : W -> A * W) Q c : (forall w, Q (f w).1 c) -> wp (ask f) Q c.
Proof. intros H s <-. unfold ask. specialize (H (ps_world s)). by destruct (f (ps_world s)). Qed.

Lemma wp_tell (f : W -> W) Q c : Q tt c -> wp (tell f) Q c.
Proof. by intros H s <-. Qed.

Lemma wp_table_refused reason Q c : Q tt c -> wp (table_refused reason) Q c.
Proof. by intros H s <-. Qed.

(** Loops, by an invariant of the index. *)
Lemma wp_for_each (I : nat -> dmesh_peer_channel -> Prop) n from (body : nat -> pm W unit) (Q : unit -> dmesh_peer_channel -> Prop) c :
  I from c ->
  (forall i c, (from <= i < from + n)%nat -> I i c -> wp (body i) (fun _ => I (S i)) c) ->
  (forall c, I (from + n)%nat c -> Q tt c) -> wp (for_each from n body) Q c.
Proof.
  revert from c. induction n as [|n IH]; intros from c Hi Hb HQ; cbn [for_each].
  - apply wp_ret, HQ. by rewrite Nat.add_0_r.
  - apply wp_bind. eapply wp_mono; [apply Hb; [lia|done]|]. intros [] c' Hc'. cbn in Hc'.
    apply (IH (S from)); [done| |].
    + intros i d Hr. apply Hb. lia.
    + intros d Hd. apply HQ. by replace (from + S n)%nat with (S from + n)%nat by lia.
Qed.

Lemma wp_for_until {A} (I : nat -> dmesh_peer_channel -> Prop) n from (body : nat -> pm W (option A)) Q c :
  I from c ->
  (forall i c, (from <= i < from + n)%nat -> I i c ->
     wp (body i) (fun r c' => match r with Some a => Q (Some a) c' | None => I (S i) c' end) c) ->
  (forall c, I (from + n)%nat c -> Q None c) -> wp (for_until from n body) Q c.
Proof.
  revert from c. induction n as [|n IH]; intros from c Hi Hb HQ; cbn [for_until].
  - apply wp_ret, HQ. by rewrite Nat.add_0_r.
  - apply wp_bind. eapply wp_mono; [apply Hb; [lia|done]|]. intros [a|] c' Hc'; cbn in Hc'.
    + by apply wp_ret.
    + apply (IH (S from)); [done| |].
      * intros i d Hr. apply Hb. lia.
      * intros d Hd. apply HQ. by replace (from + S n)%nat with (S from + n)%nat by lia.
Qed.
End wp.

(** One symbolic step. *)
Ltac wp_step :=
  lazymatch goal with
  | |- wp (mbind _ _) _ _ => apply wp_bind
  | |- wp (mret _) _ _ => apply wp_ret
  | |- wp channel_of _ _ => apply wp_channel_of
  | |- wp self_of _ _ => apply wp_self_of; intros ?
  | |- wp (channel_set _) _ _ => apply wp_channel_set
  | |- wp (ask _) _ _ => apply wp_ask; intros ?
  | |- wp (tell _) _ _ => apply wp_tell
  | |- wp (table_refused _) _ _ => apply wp_table_refused
  end.
Ltac wp_go := repeat (wp_step; cbv beta).
(** The case of the conditional an operation starts with. *)
Ltac wp_if := lazymatch goal with |- wp (if ?b then _ else _) _ _ => destruct b eqn:? end.
