(* ===== verification/PeerChannelInv.v ===== *)
(** * The invariant of a channel

    Every counter of a channel is exactly the sum it stands for, within its
    bound; the free lists run through exactly the unused slots; a live handle
    is where its wire handle says; a channel that is not open holds nothing. *)

From S2P Require Import Prelude Cursor PeerIdentity PeerFrame PairWire PeerState PeerChannel FreeList.

#[global] Opaque STREAMS SLOTS.
Lemma STREAMS_eq : Z.of_nat STREAMS = 4096.
Proof. reflexivity. Qed.
Lemma SLOTS_eq : Z.of_nat SLOTS = 8192.
Proof. reflexivity. Qed.

(** The fields of a handle the invariant is about. *)
Record hcore := HCore { k_incarnation : Z; k_wire : Z; k_use : bool; k_staging : Z }.
Definition core (h : dmesh_peer_handle) : hcore :=
  HCore (hd_incarnation h) (hd_wire_handle h) (hd_in_use h) (hd_staging_bytes h).
Definition cores (hs : option (list dmesh_peer_handle)) : list hcore := core <$> default [] hs.

(** ** Weights *)

Definition w_use (k : hcore) : Z := if k_use k then 1 else 0.
(** A receive slot whose bytes have not landed. *)
Definition held (r : dmesh_peer_rxslot) : bool := rs_in_use r && negb (rs_completed r).
Definition w_held (r : dmesh_peer_rxslot) : Z := if held r then rs_bytes r else 0.
Definition of_handle (wh : Z) (r : dmesh_peer_rxslot) : bool :=
  held r && negb (rs_source_side r) && (rs_handle r =? wh).
Definition w_of (wh : Z) (r : dmesh_peer_rxslot) : Z := if of_handle wh r then rs_bytes r else 0.
Definition w_tx (t : dmesh_peer_txslot) : Z := if tx_in_use t then tx_bytes t else 0.

(** What the staging of handle [h] counts beyond its held slots: zero except
    while the handle is being released. *)
Definition excess (ex : option nat) (hl : list hcore) (rl : list dmesh_peer_rxslot) : Z :=
  match ex with
  | Some h => match hl !! h with Some k => k_staging k - gsum (w_of (k_wire k)) rl | None => 0 end
  | None => 0
  end.

Definition tokens_max : Z := DMESH_PEER_OPEN_RATE * 1000.
Definition opt_len {A} (o : option (list A)) : Z := Z.of_nat (length (default [] o)).

#[local] Set Implicit Arguments.
Record inv_of (bit inc : Z) (st : dmesh_peer_state) (ex : option nat)
    (hs : option (list dmesh_peer_handle)) (count staging tokens : Z)
    (tx : option (list dmesh_peer_txslot)) (tx_free inflight : Z)
    (rx : option (list dmesh_peer_rxslot)) (rx_free : Z) (acks : list dmesh_peer_ack_entry)
    (rx_frame tx_frame : option (list byte)) (conn : option nat) (scoped : bool)
    (wire : option peer_pair_wire) (ptx prx : bool) : Prop := {
  v_handles : forall l, hs = Some l -> length l = STREAMS;
  v_count : count = gsum w_use (cores hs);
  v_wire : forall i k, cores hs !! i = Some k -> k_use k = true ->
    k_incarnation k = inc /\ k_wire k = Z.lor (Z.of_nat i + 1) bit;
  v_tx : forall l, tx = Some l -> length l = SLOTS /\ free_ok tx_in_use tx_next l tx_free;
  v_rx : forall l, rx = Some l -> length l = SLOTS /\ free_ok rs_in_use rs_next l rx_free;
  v_bytes : forall i r, default [] rx !! i = Some r -> rs_in_use r = true ->
    0 < rs_bytes r <= DMESH_PEER_EXTENT_MAX;
  v_staging : staging = gsum w_held (default [] rx) + excess ex (cores hs) (default [] rx);
  v_staging_max : 0 <= staging <= DMESH_PEER_STAGING_MAX;
  v_hstaging : forall i k, cores hs !! i = Some k -> k_use k = true -> ex <> Some i ->
    k_staging k = gsum (w_of (k_wire k)) (default [] rx);
  v_owned : forall i r, default [] rx !! i = Some r -> held r = true -> rs_source_side r = false ->
    exists j k, cores hs !! j = Some k /\ k_use k = true /\ k_wire k = rs_handle r;
  v_inflight : inflight = gsum w_tx (default [] tx);
  v_inflight_max : inflight <= DMESH_PEER_TX_INFLIGHT_MAX;
  v_txbytes : forall i t, default [] tx !! i = Some t -> tx_in_use t = true -> 0 <= tx_bytes t;
  v_acks : Z.of_nat (length acks) <= DMESH_STREAM_ACK_BATCH;
  v_tokens : 0 <= tokens <= tokens_max;
  v_frames : opt_len rx_frame <= FRAME_CAP /\ opt_len tx_frame <= FRAME_CAP;
  v_live : st <> CLOSED ->
    is_Some hs /\ is_Some tx /\ is_Some rx /\ is_Some rx_frame /\ is_Some tx_frame /\ is_Some conn;
  v_open : st = OPEN -> scoped = true -> is_Some wire /\ ptx = true /\ prx = true;
  v_quiet : st <> OPEN -> count = 0 /\ inflight = 0 /\
    (forall i r, default [] rx !! i = Some r -> rs_in_use r = false) /\
    (forall i t, default [] tx !! i = Some t -> tx_in_use t = false) /\ acks = [] /\
    opt_len rx_frame = 0 /\ opt_len tx_frame = 0;
  v_closed : st = CLOSED -> conn = None /\ wire = None;
}.
#[local] Unset Implicit Arguments.

Section inv.
  Context {W : Type} (E : peer_env W).

Definition inv_for (ex : option nat) (c : dmesh_peer_channel) : Prop :=
  inv_of (peer_local_owner_bit E c) (ch_incarnation c) (ch_state c) ex (ch_handles c)
    (ch_handle_count c) (ch_staging_bytes c) (ch_open_tokens_milli c) (ch_tx c) (ch_tx_free c)
    (ch_inflight_bytes c) (ch_rx c) (ch_rx_free c) (ch_ack_stage c) (ch_rx_frame c) (ch_tx_frame c)
    (ch_conn c) (ch_pair_scoped c) (ch_pair_wire c) (ch_pair_tx_frame c) (ch_pair_rx_payload c).
Definition ch_inv : dmesh_peer_channel -> Prop := inv_for None.

(** ** Wire handles *)

Lemma owner_bit_cases c : peer_local_owner_bit E c = 0 \/ peer_local_owner_bit E c = DMESH_PEER_HANDLE_OWNER_BIT.
Proof. unfold peer_local_owner_bit. destruct (_ <? _); auto. Qed.

Lemma wire_index i bit :
  0 <= i < 4096 -> bit = 0 \/ bit = DMESH_PEER_HANDLE_OWNER_BIT ->
  Z.land (Z.lor (i + 1) bit) DMESH_PEER_HANDLE_INDEX_MASK = i + 1.
Proof.
  intros Hi Hb. rewrite Z.land_lor_distr_l.
  assert (Z.land bit DMESH_PEER_HANDLE_INDEX_MASK = 0) as -> by (by destruct Hb as [-> | ->]).
  rewrite Z.lor_0_r. change DMESH_PEER_HANDLE_INDEX_MASK with (Z.ones 13).
  rewrite Z.land_ones by lia. apply Z.mod_small. lia.
Qed.

Lemma handle_of_Some c handle h :
  peer_handle_of c handle = Some h ->
  exists o, handles_of c !! h = Some o /\ hd_in_use o = true /\ hd_incarnation o = ch_incarnation c /\
    hd_wire_handle o = handle /\ handle_at c h = o.
Proof.
  unfold peer_handle_of. destruct (_ || _ || _); [done|].
  destruct (handles_of c !! _) as [o|] eqn:Ho; [|done].
  destruct (negb (hd_in_use o) || _ || _) eqn:Eb; [done|]. intros [= <-].
  rewrite !orb_false_iff, !negb_false_iff, !Z.eqb_eq in Eb. destruct Eb as [[H1 H2] H3].
  exists o. unfold handle_at. by rewrite Ho.
Qed.

Lemma cores_lookup hs i k :
  cores hs !! i = Some k <-> exists o, default [] hs !! i = Some o /\ core o = k.
Proof. unfold cores. rewrite list_lookup_fmap_Some. split; intros (o & H1 & H2); exists o; by split. Qed.

Lemma handle_at_lookup c i o : handles_of c !! i = Some o -> handle_at c i = o.
Proof. unfold handle_at. by intros ->. Qed.

Lemma core_range ex c i k : inv_for ex c -> cores (ch_handles c) !! i = Some k -> 0 <= Z.of_nat i < 4096.
Proof.
  intros I Hn. pose proof STREAMS_eq. apply lookup_lt_Some in Hn. unfold cores in Hn.
  rewrite length_fmap in Hn. destruct (ch_handles c) as [l|] eqn:Hh; cbn in Hn; [|lia].
  pose proof (v_handles I Hh). lia.
Qed.

(** Two live handles with one wire handle are one. *)
Lemma wire_inj ex c i j k k' :
  inv_for ex c -> cores (ch_handles c) !! i = Some k -> cores (ch_handles c) !! j = Some k' ->
  k_use k = true -> k_use k' = true -> k_wire k = k_wire k' -> i = j.
Proof.
  intros I Hi Hj Ui Uj Hw.
  destruct (v_wire I i Hi Ui) as [_ Wi].
  destruct (v_wire I j Hj Uj) as [_ Wj].
  pose proof (wire_index _ _ (core_range ex c i k I Hi) (owner_bit_cases c)) as Ei.
  pose proof (wire_index _ _ (core_range ex c j k' I Hj) (owner_bit_cases c)) as Ej.
  rewrite <-Wi, Hw, Wj in Ei. lia.
Qed.

(** ** Writing a receive slot *)

Definition ident (k : hcore) : Z * Z * bool := (k_incarnation k, k_wire k, k_use k).

Lemma ident_lookup hs hs' i k' :
  ident <$> cores hs' = ident <$> cores hs -> cores hs' !! i = Some k' ->
  exists k, cores hs !! i = Some k /\ k_incarnation k = k_incarnation k' /\ k_wire k = k_wire k' /\
    k_use k = k_use k'.
Proof.
  intros E' H. assert ((ident <$> cores hs) !! i = Some (ident k')) as Hi.
  { rewrite <-E', list_lookup_fmap, H. done. }
  rewrite list_lookup_fmap_Some in Hi. destruct Hi as (k & Hid & Hk). exists k.
  unfold ident in Hid. by injection Hid as -> -> ->.
Qed.

Lemma ident_count hs hs' :
  ident <$> cores hs' = ident <$> cores hs -> gsum w_use (cores hs') = gsum w_use (cores hs).
Proof.
  intros E'. apply gsum_Forall2, Forall2_same_length_lookup. split.
  - apply (f_equal length) in E'. by rewrite !length_fmap in E'.
  - intros i a b Ha Hb. destruct (ident_lookup _ _ _ _ E' Ha) as (k & Hk & _ & _ & U).
    simplify_eq. unfold w_use. by rewrite U.
Qed.

(** Handle tables that differ in staging only. *)
Definition same_ident (hs hs' : option (list dmesh_peer_handle)) : Prop :=
  ident <$> cores hs' = ident <$> cores hs /\ (is_Some hs <-> is_Some hs') /\
  length (default [] hs') = length (default [] hs).

Lemma inv_rx_write c i r r' free' hs' :
  ch_inv c -> ch_state c = OPEN -> rx_of c !! i = Some r ->
  free_ok rs_in_use rs_next (<[i := r']> (rx_of c)) free' ->
  (rs_in_use r' = true -> 0 < rs_bytes r' <= DMESH_PEER_EXTENT_MAX) ->
  (held r' = true -> rs_source_side r' = false ->
     exists j k, cores (ch_handles c) !! j = Some k /\ k_use k = true /\ k_wire k = rs_handle r') ->
  same_ident (ch_handles c) hs' ->
  (forall j k k', cores (ch_handles c) !! j = Some k -> cores hs' !! j = Some k' -> k_use k = true ->
     k_staging k' = k_staging k + w_of (k_wire k) r' - w_of (k_wire k) r) ->
  0 <= ch_staging_bytes c + w_held r' - w_held r <= DMESH_PEER_STAGING_MAX ->
  ch_inv ((set_rx i r' c) <| ch_rx_free := free' |> <| ch_handles := hs' |>
            <| ch_staging_bytes := ch_staging_bytes c + w_held r' - w_held r |>).
Proof.
  intros I Ho Hr Hf Hb Hown (Hid & Hsome & Hlen) Hst Hmax. pose proof I as [].
  unfold rx_of in Hr, Hf.
  destruct (ch_rx c) as [rl|] eqn:Erx; [cbn in Hr, Hf|done].
  unfold ch_inv, inv_for, set_rx. cbn. rewrite Erx, Ho in *. cbn in *.
  constructor; cbn; try done.
  - intros l ->. cbn in Hlen. rewrite Hlen. destruct (ch_handles c) as [l0|]; [by apply v_handles0|].
    destruct (proj2 Hsome) as [? ?]; [by eexists|done].
  - by rewrite (ident_count _ _ Hid).
  - intros j k' Hk' Uk'. destruct (ident_lookup _ _ _ _ Hid Hk') as (k & Hk & <- & <- & U).
    apply v_wire0; [done|congruence].
  - intros l [= <-]. rewrite length_insert. split; [by apply v_rx0|done].
  - intros j q. destruct (decide (i = j)) as [->|Hne].
    + rewrite list_lookup_insert_eq by (by eapply lookup_lt_Some). by intros [= <-].
    + rewrite list_lookup_insert_ne by done. apply v_bytes0.
  - rewrite (gsum_insert _ _ _ _ _ Hr), v_staging0. lia.
  - intros j k' Hk' Uk' _. destruct (ident_lookup _ _ _ _ Hid Hk') as (k & Hk & _ & Hw & U).
    rewrite (Hst j k k' Hk Hk'), <-Hw, (gsum_insert _ _ _ _ _ Hr) by congruence.
    rewrite (v_hstaging0 j k Hk) by (done || congruence). lia.
  - intros j q Hq Hh Hs.
    assert (exists j k, cores (ch_handles c) !! j = Some k /\ k_use k = true /\ k_wire k = rs_handle q)
      as (m & k & Hk & Uk & Wk).
    { destruct (decide (i = j)) as [->|Hne].
      - rewrite list_lookup_insert_eq in Hq by (by eapply lookup_lt_Some). injection Hq as <-. by apply Hown.
      - rewrite list_lookup_insert_ne in Hq by done. by eapply v_owned0. }
    assert ((ident <$> cores hs') !! m = Some (ident k)) as Hm by (by rewrite Hid, list_lookup_fmap, Hk).
    rewrite list_lookup_fmap_Some in Hm. destruct Hm as (k2 & Hk2 & Hm). unfold ident in Hk2.
    injection Hk2 as _ E2 E3. exists m, k2. split_and!; congruence.
  - intros H. destruct (v_live0 H) as (A1 & A2 & A3 & A4). split_and!; try apply A4; try done.
    by apply Hsome.
Qed.

(** ** Handles that change outside their core *)

Lemma cores_set h o' hs : cores (fmap <[h := o']> hs) = <[h := core o']> (cores hs).
Proof. unfold cores. destruct hs as [l|]; cbn; [apply list_fmap_insert|done]. Qed.

Lemma length_set h (o' : dmesh_peer_handle) hs :
  length (default [] (fmap <[h := o']> hs)) = length (default [] hs).
Proof. destruct hs; cbn; [apply length_insert|done]. Qed.

Lemma cores_keep h o o' hs :
  default [] hs !! h = Some o -> core o' = core o -> cores (fmap <[h := o']> hs) = cores hs.
Proof.
  intros Ho E'. rewrite cores_set, E'. apply list_insert_id. apply cores_lookup. by exists o.
Qed.

Lemma some_fmap {A B} (f : A -> B) o : is_Some o <-> is_Some (fmap f o).
Proof. destruct o; cbn; [by split; eexists|by split; intros []]. Qed.

(** The handle table of [c] with at most non-core changes. *)
Definition same_cores (hs hs' : option (list dmesh_peer_handle)) : Prop :=
  cores hs' = cores hs /\ (is_Some hs <-> is_Some hs') /\ length (default [] hs') = length (default [] hs).

Lemma same_cores_refl hs : same_cores hs hs.
Proof. by split_and!. Qed.
Lemma same_cores_ident hs hs' : same_cores hs hs' -> same_ident hs hs'.
Proof. intros (H1 & H2 & H3). split_and!; [by rewrite H1|exact H2|done]. Qed.
Lemma same_cores_set h o o' hs :
  default [] hs !! h = Some o -> core o' = core o -> same_cores hs (fmap <[h := o']> hs).
Proof.
  intros Ho E'. split_and!; [by eapply cores_keep|by apply some_fmap|apply length_set].
Qed.
Lemma same_ident_set h o o' hs :
  default [] hs !! h = Some o -> ident (core o') = ident (core o) -> same_ident hs (fmap <[h := o']> hs).
Proof.
  intros Ho E'. split_and!; [|by apply some_fmap|apply length_set].
  rewrite cores_set, list_fmap_insert, E'. apply list_insert_id.
  rewrite list_lookup_fmap. unfold cores. by rewrite list_lookup_fmap, Ho.
Qed.

Lemma inv_same_cores ex c hs' :
  inv_for ex c -> same_cores (ch_handles c) hs' -> inv_for ex (c <| ch_handles := hs' |>).
Proof.
  intros [] (Hc & Hs & Hl). unfold inv_for. cbn.
  constructor; cbn; rewrite ?Hc; try done.
  - intros l ->. cbn in Hl. rewrite Hl. destruct (ch_handles c) as [l0|]; [by apply v_handles0|].
    destruct (proj2 Hs) as [? ?]; [by eexists|done].
  - intros H. destruct (v_live0 H) as (A1 & A2). split; [by apply Hs|done].
Qed.

(** A write to the handle [peer_handle_of] found, outside its core. *)
Lemma inv_set_handle ex c handle h o' :
  inv_for ex c -> peer_handle_of c handle = Some h -> core o' = core (handle_at c h) ->
  inv_for ex (set_handle h o' c).
Proof.
  intros I Hh E'. apply handle_of_Some in Hh as (o & Ho & _ & _ & _ & Ha). rewrite Ha in E'.
  exact (inv_same_cores ex c _ I (same_cores_set h o o' _ Ho E')).
Qed.

(** ** Freeing a receive slot *)

Lemma rx_free_slot_shape i c :
  exists hs', same_cores (ch_handles c) hs' /\
    peer_rx_free_slot i c =
      (set_rx i (zero_rxslot <| rs_next := ch_rx_free c |>) c)
        <| ch_rx_free := Z.of_nat i |> <| ch_handles := hs' |>.
Proof.
  unfold peer_rx_free_slot.
  destruct (if rs_source_side (rx_at c i) then None else _) as [h|] eqn:Eo.
  - destruct (rs_source_side (rx_at c i)); [done|].
    apply handle_of_Some in Eo as (o & Ho & _ & _ & _ & Ha). rewrite Ha.
    destruct (_ && _).
    + exists (fmap <[h := o <| hd_rx_ack_pending := hd_rx_ack_pending o - 1 |>]> (ch_handles c)).
      split; [by apply (same_cores_set h o)|done].
    + exists (ch_handles c). split; [apply same_cores_refl|by destruct c].
  - exists (ch_handles c). split; [apply same_cores_refl|by destruct c].
Qed.

Lemma rx_open ex c i r : inv_for ex c -> rx_of c !! i = Some r -> rs_in_use r = true -> ch_state c = OPEN.
Proof.
  intros I Hr Hu. destruct (ch_state c) eqn:Es; [| |done];
    destruct (v_quiet I) as (_ & _ & H & _); try (by rewrite Es); specialize (H i r Hr); congruence.
Qed.

Lemma rx_free_ok ex c : inv_for ex c -> is_Some (ch_rx c) -> free_ok rs_in_use rs_next (rx_of c) (ch_rx_free c).
Proof. intros I [l Hl]. unfold rx_of. rewrite Hl. by apply (v_rx I). Qed.

Lemma rx_some c i r : rx_of c !! i = Some r -> is_Some (ch_rx c).
Proof. unfold rx_of. by destruct (ch_rx c). Qed.

Lemma rx_at_lookup c i r : rx_of c !! i = Some r -> rx_at c i = r.
Proof. unfold rx_at. by intros ->. Qed.

(** A landed slot is freed: no counter moves. *)
Lemma inv_free_landed c i r :
  ch_inv c -> rx_of c !! i = Some r -> rs_in_use r = true -> rs_completed r = true ->
  ch_inv (peer_rx_free_slot i c).
Proof.
  intros I Hr Hu Hc. destruct (rx_free_slot_shape i c) as (hs' & Hs & ->).
  assert (w_held r = 0 /\ forall wh, w_of wh r = 0) as [H1 H2].
  { unfold w_held, w_of, of_handle, held. by rewrite Hu, Hc. }
  pose proof (inv_rx_write c i r (zero_rxslot <| rs_next := ch_rx_free c |>) (Z.of_nat i) hs' I
    (rx_open _ _ _ _ I Hr Hu) Hr) as Hw.
  replace (ch_staging_bytes c + _ - _) with (ch_staging_bytes c) in Hw by (rewrite H1; cbn; lia).
  apply Hw; try done.
  - eapply free_push; [by eapply rx_free_ok, rx_some|done..].
  - by apply same_cores_ident.
  - intros j k k' Hk Hk' _. destruct Hs as (Hs & _). rewrite Hs in Hk'. simplify_eq. rewrite H2. cbn. lia.
  - apply (v_staging_max I).
Qed.

(** ** Slots whose bytes are still held *)

Lemma held_le c i r :
  ch_inv c -> rx_of c !! i = Some r -> held r = true -> rs_bytes r <= ch_staging_bytes c.
Proof.
  intros I Hr Hh. rewrite (v_staging I). cbn [excess]. fold (rx_of c).
  assert (w_held r = rs_bytes r) as <- by (unfold w_held; by rewrite Hh).
  pose proof (gsum_lookup w_held (rx_of c) i r) as H. rewrite Z.add_0_r. apply H; [|done].
  intros j q Hq. unfold w_held, held. destruct (rs_in_use q) eqn:U; [|done]. destruct (rs_completed q); [done|].
  cbn. pose proof (v_bytes I j Hq U). lia.
Qed.

Lemma u64_staging z : 0 <= z <= DMESH_PEER_STAGING_MAX -> u64 z = z.
Proof. intros H. apply wrap_small. unfold in_width, DMESH_PEER_STAGING_MAX in *. lia. Qed.

(** The slot at [i] is held for the source side, or for the live handle [h]. *)
Definition held_source (c : dmesh_peer_channel) (i : nat) (len : Z) : Prop :=
  exists r, rx_of c !! i = Some r /\ held r = true /\ rs_source_side r = true /\ rs_bytes r = len.
Definition held_dest (c : dmesh_peer_channel) (i h : nat) (len : Z) : Prop :=
  exists r o, rx_of c !! i = Some r /\ held r = true /\ rs_source_side r = false /\ rs_bytes r = len /\
    handles_of c !! h = Some o /\ hd_in_use o = true /\ hd_wire_handle o = rs_handle r.

Lemma held_in_use r : held r = true -> rs_in_use r = true.
Proof. unfold held. by destruct (rs_in_use r). Qed.

(** A slot that stops being held, with its bytes taken off the counters. *)
Lemma inv_unhold_source c i len r' free' hs' :
  ch_inv c -> held_source c i len -> held r' = false ->
  (rs_in_use r' = true -> rs_bytes r' = len) -> same_cores (ch_handles c) hs' ->
  free_ok rs_in_use rs_next (<[i := r']> (rx_of c)) free' ->
  ch_inv ((set_rx i r' (staging_sub len c)) <| ch_rx_free := free' |> <| ch_handles := hs' |>).
Proof.
  intros I (r & Hr & Hh & Hsrc & Hb) Hn Hb' Hs Hf. pose proof (held_in_use r Hh) as Hu.
  assert (w_held r = len) as H1 by (unfold w_held; by rewrite Hh).
  assert (w_held r' = 0) as H2 by (unfold w_held; by rewrite Hn).
  assert (forall wh, w_of wh r = 0 /\ w_of wh r' = 0) as H3.
  { intros wh. unfold w_of, of_handle. rewrite Hh, Hsrc, Hn. done. }
  pose proof (held_le c i r I Hr Hh) as Hle. pose proof (v_staging_max I) as Hm.
  pose proof (v_bytes I i Hr Hu) as Hbr.
  pose proof (inv_rx_write c i r r' free' hs' I (rx_open _ _ _ _ I Hr Hu) Hr Hf) as Hw.
  replace (ch_staging_bytes c + _ - _) with (u64 (ch_staging_bytes c - len)) in Hw
    by (rewrite H1, H2, u64_staging; lia).
  apply Hw; try done.
  - intros Hu'. rewrite (Hb' Hu'). by rewrite <-Hb.
  - congruence.
  - by apply same_cores_ident.
  - intros j k k' Hk Hk' _. destruct Hs as (Hs & _). rewrite Hs in Hk'. simplify_eq.
    destruct (H3 (k_wire k)) as [-> ->]. lia.
  - rewrite u64_staging; lia.
Qed.

(** The handle's counter moves with the channel's. *)
Lemma u32_staging z : 0 <= z <= DMESH_PEER_STAGING_MAX -> u32 z = z.
Proof. intros H. apply wrap_small. unfold in_width, DMESH_PEER_STAGING_MAX in *. lia. Qed.

Lemma handle_share c h o :
  ch_inv c -> handles_of c !! h = Some o -> hd_in_use o = true ->
  hd_staging_bytes o = gsum (w_of (hd_wire_handle o)) (rx_of c) /\
  0 <= hd_staging_bytes o <= ch_staging_bytes c.
Proof.
  intros I Ho Hu. assert (cores (ch_handles c) !! h = Some (core o)) as Hk by (apply cores_lookup; by exists o).
  pose proof (v_hstaging I Hk Hu) as E'. cbn in E'. fold (rx_of c) in E'. split; [by apply E'|].
  rewrite E', (v_staging I) by done. cbn [excess]. fold (rx_of c). rewrite Z.add_0_r.
  assert (forall i r, rx_of c !! i = Some r -> rs_in_use r = true -> 0 <= rs_bytes r) as HB.
  { intros i r Hr Hur. pose proof (v_bytes I i Hr Hur). lia. }
  clear -HB. induction (rx_of c) as [|r l IH]; [done|]. rewrite !gsum_cons.
  specialize (IH (fun i => HB (S i))). pose proof (HB 0%nat r eq_refl) as H0.
  unfold w_of at 1 3, w_held at 1, of_handle at 1 2, held. destruct (rs_in_use r); [|cbn; lia].
  specialize (H0 eq_refl). destruct (rs_completed r), (rs_source_side r), (rs_handle r =? _); cbn; lia.
Qed.
End inv.
