(* ===== verification/PeerChannelRx.v ===== *)
(** * Receive slots and handles keep the invariant *)

From S2P Require Import Prelude Cursor PeerIdentity PeerFrame PairWire PeerState PeerChannel FreeList PeerChannelInv.

Section rx.
  Context {W : Type} (E : peer_env W).
  Local Abbreviation ch_inv := (ch_inv E).
  Local Abbreviation inv_for := (inv_for E).

(** Which live handle a wire handle names. *)
Lemma wire_names c h o j k :
  ch_inv c -> handles_of c !! h = Some o -> hd_in_use o = true ->
  cores (ch_handles c) !! j = Some k -> k_use k = true ->
  (hd_wire_handle o =? k_wire k) = bool_decide (j = h).
Proof.
  intros I Ho Hu Hk Uk.
  assert (cores (ch_handles c) !! h = Some (core o)) as Hko by (apply cores_lookup; by exists o).
  case_bool_decide as Ej.
  - subst j. simplify_eq. apply Z.eqb_refl.
  - apply Z.eqb_neq. intros Ew. apply Ej. by eapply (wire_inj E None c j h k (core o)).
Qed.

(** The weight of a slot for the handles, when it belongs to [o] if it is held. *)
Lemma w_of_owner o r wh :
  (held r = true -> rs_source_side r = false /\ rs_handle r = hd_wire_handle o) ->
  w_of wh r = if hd_wire_handle o =? wh then w_held r else 0.
Proof.
  intros H. unfold w_of, w_held, of_handle. destruct (held r); [|by destruct (hd_wire_handle o =? wh)].
  destruct (H eq_refl) as [-> ->]. done.
Qed.

(** Writing a slot of handle [h], its counter and the channel's together. *)
Lemma inv_rx_dest c i h o r r' free' hs' :
  ch_inv c -> ch_state c = OPEN -> rx_of c !! i = Some r ->
  handles_of c !! h = Some o -> hd_in_use o = true ->
  (held r = true -> rs_source_side r = false /\ rs_handle r = hd_wire_handle o) ->
  (held r' = true -> rs_source_side r' = false /\ rs_handle r' = hd_wire_handle o) ->
  (rs_in_use r' = true -> 0 < rs_bytes r' <= DMESH_PEER_EXTENT_MAX) ->
  free_ok rs_in_use rs_next (<[i := r']> (rx_of c)) free' ->
  0 <= ch_staging_bytes c + w_held r' - w_held r <= DMESH_PEER_STAGING_MAX ->
  same_cores (fmap <[h := o <| hd_staging_bytes := hd_staging_bytes o + w_held r' - w_held r |>]> (ch_handles c)) hs' ->
  ch_inv ((set_rx i r' c) <| ch_rx_free := free' |> <| ch_handles := hs' |>
            <| ch_staging_bytes := ch_staging_bytes c + w_held r' - w_held r |>).
Proof.
  intros I Hopen Hr Ho Hu Hro Hr' Hb' Hf Hm (Hc & Hsome & Hlen).
  set (o' := o <| hd_staging_bytes := hd_staging_bytes o + w_held r' - w_held r |>) in *.
  assert (cores (ch_handles c) !! h = Some (core o)) as Hko by (apply cores_lookup; by exists o).
  pose proof (same_ident_set h o o' (ch_handles c) Ho eq_refl) as (S1 & S2 & S3).
  apply (inv_rx_write E c i r r' free' hs'); try done.
  - intros Hh Hs'. destruct (Hr' Hh) as [_ ->]. exists h, (core o). by split_and!.
  - split_and!; [by rewrite Hc|by rewrite S2|congruence].
  - intros j k k' Hk Hk' Uk. rewrite Hc, cores_set in Hk'.
    rewrite (w_of_owner o r), (w_of_owner o r'), (wire_names c h o j k) by done.
    destruct (decide (h = j)) as [<-|Hne].
    + rewrite bool_decide_true by done.
      rewrite list_lookup_insert_eq in Hk' by (by eapply lookup_lt_Some). injection Hk' as <-.
      assert (k = core o) as -> by congruence. done.
    + rewrite bool_decide_false by done. rewrite list_lookup_insert_ne in Hk' by done. simplify_eq. lia.
Qed.

(** ** Allocation *)

Lemma rx_alloc_Some handle seq len src c i c' :
  ch_inv c -> peer_rx_alloc handle seq len src c = (Some i, c') ->
  exists a, rx_of c !! i = Some a /\ rs_in_use a = false /\
    free_ok rs_in_use rs_next (<[i := RxSlot DMESH_PEER_TX_NIL handle seq len src false true]> (rx_of c)) (rs_next a) /\
    c' = let c1 := set_rx i (RxSlot DMESH_PEER_TX_NIL handle seq len src false true)
                     (c <| ch_rx_free := rs_next a |>) in
         match (if src then None else peer_handle_of c handle) with
         | Some h => set_handle h ((handle_at c h) <| hd_rx_ack_pending := u32 (hd_rx_ack_pending (handle_at c h) + 1) |>) c1
         | None => c1
         end.
Proof.
  intros I. unfold peer_rx_alloc. destruct (ch_rx c) as [l|] eqn:El; [|done].
  destruct (Z.eqb_spec (ch_rx_free c) DMESH_PEER_TX_NIL) as [|Hf]; [done|].
  pose proof (rx_free_ok E None c I) as HF. destruct (free_pop _ _ _ _ (HF (ex_intro _ l El)) Hf)
    as (j & a & Ej & Ha & Hu & Hpop).
  rewrite Ej, Nat2Z.id, (rx_at_lookup c j a Ha). intros [= <- <-].
  exists a. split; [done|]. split; [done|]. split; [by apply Hpop|done].
Qed.

Lemma inv_alloc_source handle seq len c i c' :
  ch_inv c -> ch_state c = OPEN -> 0 < len <= DMESH_PEER_EXTENT_MAX ->
  ch_staging_bytes c + len <= DMESH_PEER_STAGING_MAX ->
  peer_rx_alloc handle seq len true c = (Some i, c') ->
  ch_inv (staging_add len c') /\ held_source (staging_add len c') i len.
Proof.
  intros I Ho Hlen Hmax Ha. destruct (rx_alloc_Some _ _ _ _ _ _ _ I Ha) as (a & Hr & Hu & Hf & ->).
  set (r' := RxSlot DMESH_PEER_TX_NIL handle seq len true false true) in *.
  assert (held a = false) as Hna by (unfold held; by rewrite Hu).
  assert (w_held a = 0 /\ forall wh, w_of wh a = 0) as [H1 H2].
  { unfold w_held, w_of, of_handle. by rewrite Hna. }
  pose proof (v_staging_max I) as Hm. split.
  - pose proof (inv_rx_write E c i a r' (rs_next a) (ch_handles c) I Ho Hr Hf) as Hw.
    replace (ch_staging_bytes c + _ - _) with (u64 (ch_staging_bytes c + len)) in Hw
      by (rewrite H1, u64_staging; cbn; lia).
    apply Hw; try done.
    + intros j k k' Hk Hk' _. simplify_eq. rewrite H2. cbn. lia.
    + rewrite u64_staging; lia.
  - exists r'. split_and!; try done. unfold rx_of, staging_add, set_rx in *. cbn.
    destruct (ch_rx c); [|done]. cbn in *. apply list_lookup_insert_eq. by eapply lookup_lt_Some.
Qed.

Lemma inv_alloc_dest handle seq len c i h c' :
  ch_inv c -> ch_state c = OPEN -> 0 < len <= DMESH_PEER_EXTENT_MAX ->
  ch_staging_bytes c + len <= DMESH_PEER_STAGING_MAX -> peer_handle_of c handle = Some h ->
  peer_rx_alloc handle seq len false c = (Some i, c') ->
  ch_inv (handle_add h len (staging_add len c')) /\ held_dest (handle_add h len (staging_add len c')) i h len.
Proof.
  intros I Hopen Hlen Hmax Hh Ha. destruct (rx_alloc_Some _ _ _ _ _ _ _ I Ha) as (a & Hr & Hu & Hf & Ec).
  rewrite Hh in Ec. cbn zeta in Ec. apply handle_of_Some in Hh as (o & Ho & Uo & Io & Wo & Ao). rewrite Ao in Ec.
  set (r' := RxSlot DMESH_PEER_TX_NIL handle seq len false false true) in *.
  assert (held a = false) as Hna by (unfold held; by rewrite Hu).
  assert (w_held a = 0) as H1 by (unfold w_held; by rewrite Hna).
  pose proof (v_staging_max I) as Hm. destruct (handle_share E c h o I Ho Uo) as [_ Hshare].
  set (o1 := o <| hd_rx_ack_pending := u32 (hd_rx_ack_pending o + 1) |>) in *.
  assert (handles_of (staging_add len c') !! h = Some o1) as Ho1.
  { subst c'. unfold handles_of, staging_add, set_handle, set_rx. cbn. unfold handles_of in Ho.
    destruct (ch_handles c); [|done]. cbn in *. apply list_lookup_insert_eq. by eapply lookup_lt_Some. }
  assert (handle_add h len (staging_add len c') =
    set_handle h (o1 <| hd_staging_bytes := hd_staging_bytes o + len |>) (staging_add len c')) as ->.
  { unfold handle_add. rewrite (handle_at_lookup _ _ _ Ho1). cbn. rewrite u32_staging by lia. done. }
  split.
  - pose proof (inv_rx_dest c i h o a r' (rs_next a)
      (fmap <[h := o1 <| hd_staging_bytes := hd_staging_bytes o + len |>]> (fmap <[h := o1]> (ch_handles c)))
      I Hopen Hr Ho Uo) as Hw.
    replace (ch_staging_bytes c + w_held r' - w_held a) with (u64 (ch_staging_bytes c + len)) in Hw
      by (rewrite H1, u64_staging; cbn; lia).
    subst c'. apply Hw; try done.
    + rewrite Hna. done.
    + rewrite u64_staging; lia.
    + replace (hd_staging_bytes o + w_held r' - w_held a) with (hd_staging_bytes o + len)
        by (rewrite H1; cbn; lia).
      unfold same_cores. rewrite !cores_set, !length_set, list_insert_insert_eq. split_and!; [done| |done].
      rewrite <-!some_fmap. done.
  - exists r', (o1 <| hd_staging_bytes := hd_staging_bytes o + len |>). subst c'. split_and!; try done.
    + unfold rx_of, set_handle, staging_add, set_rx in *. cbn.
      destruct (ch_rx c); [|done]. cbn in *. apply list_lookup_insert_eq. by eapply lookup_lt_Some.
    + unfold handles_of, set_handle in *. cbn in *. destruct (ch_handles c); [|done]. cbn in *.
      apply list_lookup_insert_eq. rewrite length_insert. by eapply lookup_lt_Some.
Qed.

(** ** Giving a held slot back, or landing it *)

Lemma inv_free_source c i len :
  ch_inv c -> held_source c i len -> ch_inv (peer_rx_free_slot i (staging_sub len c)).
Proof.
  intros I HS. pose proof HS as (r & Hr & Hh & _).
  destruct (rx_free_slot_shape i (staging_sub len c)) as (hs' & Hs & ->).
  apply (inv_unhold_source E c i len); try done.
  eapply free_push; [by eapply rx_free_ok, rx_some|done|by apply held_in_use|done..].
Qed.

Lemma inv_complete_source c i len :
  ch_inv c -> held_source c i len -> ch_inv (complete_rx i (staging_sub len c)).
Proof.
  intros I HS. pose proof HS as (r & Hr & Hh & _ & Hb). pose proof (held_in_use r Hh) as Hu.
  assert (rx_at (staging_sub len c) i = r) as Ha by (exact (rx_at_lookup c i r Hr)).
  unfold complete_rx. rewrite Ha.
  apply (inv_unhold_source E c i len (r <| rs_completed := true |>) (ch_rx_free c) (ch_handles c)); try done.
  - unfold held. cbn. by rewrite Hu.
  - eapply free_keep; [by eapply rx_free_ok, rx_some|done..].
Qed.

(** A slot of handle [h] that stops being held. *)
Lemma inv_unhold_dest c i h len r' free' hs' :
  ch_inv c -> held_dest c i h len -> held r' = false ->
  (rs_in_use r' = true -> rs_bytes r' = len) ->
  same_cores (ch_handles (handle_sub h len c)) hs' ->
  free_ok rs_in_use rs_next (<[i := r']> (rx_of c)) free' ->
  ch_inv ((set_rx i r' (staging_sub len c)) <| ch_rx_free := free' |> <| ch_handles := hs' |>).
Proof.
  intros I (r & o & Hr & Hh & Hsrc & Hb & Ho & Uo & Wo) Hn Hb' Hs Hf. pose proof (held_in_use r Hh) as Hu.
  assert (w_held r = len) as H1 by (unfold w_held; by rewrite Hh).
  assert (w_held r' = 0) as H2 by (unfold w_held; by rewrite Hn).
  pose proof (held_le E c i r I Hr Hh) as Hle. pose proof (v_staging_max I) as Hm.
  pose proof (v_bytes I i Hr Hu) as Hbr.
  destruct (handle_share E c h o I Ho Uo) as [Hsum Hshare].
  assert (len <= hd_staging_bytes o) as Hlo.
  { rewrite Hsum. assert (w_of (hd_wire_handle o) r = len) as <-.
    { unfold w_of, of_handle. by rewrite Hh, Hsrc, <-Wo, Z.eqb_refl. }
    apply (gsum_lookup _ _ i); [|done]. intros j q Hq. unfold w_of, of_handle, held.
    destruct (rs_in_use q) eqn:Uq; [|done]. pose proof (v_bytes I j Hq Uq).
    destruct (rs_completed q), (rs_source_side q), (rs_handle q =? _); cbn; lia. }
  pose proof (inv_rx_dest c i h o r r' free' hs' I (rx_open E _ _ _ _ I Hr Hu) Hr Ho Uo) as Hw.
  replace (ch_staging_bytes c + w_held r' - w_held r) with (u64 (ch_staging_bytes c - len)) in Hw
    by (rewrite H1, H2, u64_staging; lia).
  apply Hw; try done.
  - by rewrite Hn.
  - intros Hu'. rewrite (Hb' Hu'). by rewrite <-Hb.
  - rewrite u64_staging; lia.
  - replace (hd_staging_bytes o + w_held r' - w_held r) with (u32 (hd_staging_bytes o - len))
      by (rewrite H1, H2, u32_staging; lia).
    unfold handle_sub in Hs. rewrite (handle_at_lookup c h o Ho) in Hs. exact Hs.
Qed.

Lemma inv_free_dest c i h len :
  ch_inv c -> held_dest c i h len -> ch_inv (peer_rx_free_slot i (handle_sub h len (staging_sub len c))).
Proof.
  intros I HS. pose proof HS as (r & o & Hr & Hh & _).
  destruct (rx_free_slot_shape i (handle_sub h len (staging_sub len c))) as (hs' & Hs & ->).
  apply (inv_unhold_dest c i h len _ _ hs'); try done.
  eapply free_push; [by eapply rx_free_ok, rx_some|done|by apply held_in_use|done..].
Qed.

Lemma inv_complete_dest c i h len :
  ch_inv c -> held_dest c i h len -> ch_inv (complete_rx i (handle_sub h len (staging_sub len c))).
Proof.
  intros I HS. pose proof HS as (r & o & Hr & Hh & _ & Hb & _). pose proof (held_in_use r Hh) as Hu.
  assert (rx_at (handle_sub h len (staging_sub len c)) i = r) as Ha by (exact (rx_at_lookup c i r Hr)).
  unfold complete_rx. rewrite Ha.
  apply (inv_unhold_dest c i h len (r <| rs_completed := true |>) (ch_rx_free c)
           (ch_handles (handle_sub h len c))); try done.
  - unfold held. cbn. by rewrite Hu.
  - eapply free_keep; [by eapply rx_free_ok, rx_some|done..].
Qed.
End rx.

(** ** Releasing a handle keeps the invariant

    While a handle is released its slots are detached one by one; the
    invariant then holds with that handle excused, and again without excuse
    once the handle's charge is taken off the channel. *)

Lemma sweep_ind (J : nat -> dmesh_peer_channel -> Prop) from n body c :
  J from c -> (forall i c, J i c -> J (S i) (body i c)) -> J (from + n)%nat (sweep from n body c).
Proof.
  intros H0 HS. revert from c H0. induction n as [|n IH]; intros from c H0; cbn [sweep].
  - by rewrite Nat.add_0_r.
  - replace (from + S n)%nat with (S from + n)%nat by lia. apply IH. by apply HS.
Qed.

Section release.
  Context {W : Type} (E : peer_env W).
  Local Abbreviation ch_inv := (ch_inv E).
  Local Abbreviation inv_for := (inv_for E).

Lemma core_lookup c h o : handles_of c !! h = Some o -> cores (ch_handles c) !! h = Some (core o).
Proof. intros H. apply cores_lookup. by exists o. Qed.

Lemma inv_detach c h o :
  ch_inv c -> handles_of c !! h = Some o -> hd_in_use o = true -> inv_for (Some h) c.
Proof.
  intros I Ho Uo. destruct (handle_share E c h o I Ho Uo) as [Hs _]. pose proof (core_lookup c h o Ho) as Hk.
  destruct I. constructor; try done.
  - rewrite v_staging. cbn [excess]. rewrite Hk. cbn. fold (rx_of c). rewrite Hs. lia.
  - intros i k Hi Uk _. by eapply v_hstaging.
Qed.

Lemma live_open ex c h o : inv_for ex c -> handles_of c !! h = Some o -> hd_in_use o = true -> ch_state c = OPEN.
Proof.
  intros I Ho Uo. pose proof (core_lookup c h o Ho) as Hk.
  assert (ch_handle_count c <> 0) as Hc.
  { rewrite (v_count I). pose proof (gsum_lookup w_use (cores (ch_handles c)) h (core o)) as H.
    assert (w_use (core o) = 1) as E1 by (unfold w_use; cbn; by rewrite Uo).
    rewrite E1 in H. specialize (H ltac:(intros i k _; unfold w_use; destruct (k_use k); lia) Hk). lia. }
  destruct (ch_state c) eqn:Es; [| |done]; destruct (v_quiet I) as (H & _); rewrite ?Es; done.
Qed.

(** A slot of the excused handle is detached. *)
Lemma inv_detach_slot c h o i r :
  inv_for (Some h) c -> handles_of c !! h = Some o -> hd_in_use o = true ->
  rx_of c !! i = Some r -> rs_in_use r = true -> rs_source_side r = false ->
  rs_handle r = hd_wire_handle o ->
  inv_for (Some h) (peer_rx_free_slot i c).
Proof.
  intros I Ho Uo Hr Hu Hs Hw. pose proof (core_lookup c h o Ho) as Hk.
  destruct (rx_free_slot_shape i c) as (hs' & HC & ->).
  set (r' := zero_rxslot <| rs_next := ch_rx_free c |>).
  apply (inv_same_cores E (Some h) ((set_rx i r' c) <| ch_rx_free := Z.of_nat i |>) hs'); [|done].
  pose proof (rx_free_ok E _ c I (rx_some c i r Hr)) as HF.
  pose proof (free_push _ _ _ _ i r r' HF Hr Hu eq_refl eq_refl) as HP.
  pose proof (live_open _ _ _ _ I Ho Uo) as Hopen.
  assert (w_of (hd_wire_handle o) r = w_held r) as H1.
  { unfold w_of, w_held, of_handle. by rewrite Hs, Hw, Z.eqb_refl, !andb_true_r. }
  pose proof (fun j k Hj Uk => wire_inj E (Some h) c j h k (core o) I Hj Hk Uk Uo) as Hinj.
  unfold rx_of in Hr, HP. pose proof (v_rx I) as Vrx.
  unfold inv_for, PeerChannelInv.inv_for, set_rx. cbn. destruct (ch_rx c) as [rl|] eqn:Erx; [|done]. cbn in *.
  unfold inv_for, PeerChannelInv.inv_for in I. rewrite Erx, Hopen in *. destruct I. cbn in *.
  assert (forall wh, w_of wh r' = 0) as H0 by done. assert (w_held r' = 0) as H0' by done.
  constructor; cbn; try done.
  - intros l [= <-]. rewrite length_insert. split; [by apply Vrx|done].
  - intros j q. destruct (decide (i = j)) as [->|Hne].
    + rewrite list_lookup_insert_eq by (by eapply lookup_lt_Some). by intros [= <-].
    + rewrite list_lookup_insert_ne by done. apply v_bytes.
  - rewrite Hk in *. cbn [core k_wire k_staging] in *. rewrite !(gsum_insert _ _ _ _ _ Hr), H0, H0', H1. lia.
  - intros j k Hj Uk Hne. rewrite (gsum_insert _ _ _ _ _ Hr), H0.
    assert (w_of (k_wire k) r = 0) as ->.
    { unfold w_of, of_handle. rewrite Hw. destruct (Z.eqb_spec (hd_wire_handle o) (k_wire k)) as [Ew|].
      - exfalso. apply Hne. f_equal. symmetry. by apply (Hinj j k).
      - by rewrite andb_false_r. }
    rewrite (v_hstaging j k Hj Uk Hne). lia.
  - intros j q Hq Hh Hsq. destruct (decide (i = j)) as [->|Hne].
    + rewrite list_lookup_insert_eq in Hq by (by eapply lookup_lt_Some). by injection Hq as <-.
    + rewrite list_lookup_insert_ne in Hq by done. by eapply v_owned.
  - intros H. destruct (v_live H) as (A1 & A2 & _ & A4). by split_and!; try apply A4.
Qed.

(** The sweep over the receive slots of one handle: before slot [k], no slot of
    the handle is held; its core and the channel's counter are as they were. *)
Definition detached (h : nat) (o : dmesh_peer_handle) (staging : Z) (k : nat) (c : dmesh_peer_channel) : Prop :=
  inv_for (Some h) c /\ ch_staging_bytes c = staging /\
  (exists o', handles_of c !! h = Some o' /\ core o' = core o) /\
  forall j r, (j < k)%nat -> rx_of c !! j = Some r -> of_handle (hd_wire_handle o) r = false.

Lemma detached_free h o staging i d r :
  hd_in_use o = true -> detached h o staging i d -> rx_of d !! i = Some r -> rs_in_use r = true ->
  rs_source_side r = false -> rs_handle r = hd_wire_handle o ->
  detached h o staging (S i) (peer_rx_free_slot i d).
Proof.
  intros Uo (ID & SD & (o' & Ho' & Eo') & ND) Hr Hu Hs Hw.
  assert (hd_in_use o' = true /\ hd_wire_handle o' = hd_wire_handle o) as [Uo' Wo'].
  { unfold core in Eo'. injection Eo' as _ -> -> _. done. }
  assert (inv_for (Some h) (peer_rx_free_slot i d)) as ID'.
  { apply (inv_detach_slot d h o' i r); try done. congruence. }
  destruct (rx_free_slot_shape i d) as (hs' & (HC & _) & Es). rewrite Es in *.
  split_and!; [done|done| |].
  - assert (cores hs' !! h = Some (core o')) as Hk by (rewrite HC; by apply core_lookup).
    apply cores_lookup in Hk as (o2 & Ho2 & E2). exists o2. split; [done|congruence].
  - intros j q Hj. unfold rx_of in *. unfold set_rx. cbn. destruct (ch_rx d) as [rl|]; [|done]. cbn in *.
    destruct (decide (i = j)) as [->|Hne].
    + rewrite list_lookup_insert_eq by (by eapply lookup_lt_Some). by intros [= <-].
    + rewrite list_lookup_insert_ne by done. apply ND. lia.
Qed.

Lemma detached_skip h o staging i d :
  detached h o staging i d ->
  (forall r, rx_of d !! i = Some r -> of_handle (hd_wire_handle o) r = false) ->
  detached h o staging (S i) d.
Proof.
  intros (ID & SD & HO & ND) Hi. split_and!; try done. intros j r Hj Hr.
  destruct (decide (j = i)) as [->|]; [by apply Hi|]. apply (ND j r); [lia|done].
Qed.

Lemma detached_abandon h o staging c completed_too :
  hd_in_use o = true -> detached h o staging 0 c ->
  detached h o staging SLOTS (peer_rx_abandon_handle (hd_wire_handle o) completed_too c).
Proof.
  intros Uo HD. unfold peer_rx_abandon_handle. destruct (ch_rx c) as [l|] eqn:El.
  - apply (sweep_ind (detached h o staging) 0 SLOTS); [done|]. intros i d Hd.
    destruct (_ || _ || _ || _) eqn:Eb.
    + apply detached_skip; [done|]. intros r Hr. rewrite (rx_at_lookup d i r Hr) in Eb.
      unfold of_handle, held.
      destruct (rs_in_use r), (rs_source_side r), (rs_handle r =? hd_wire_handle o),
        completed_too, (rs_completed r); done.
    + apply orb_false_iff in Eb as [[[Eb1 Eb2]%orb_false_iff Eb3]%orb_false_iff _].
      apply negb_false_iff in Eb1, Eb3. apply Z.eqb_eq in Eb3.
      destruct (rx_of d !! i) as [r|] eqn:Hr; [|unfold rx_at in Eb1; by rewrite Hr in Eb1].
      rewrite (rx_at_lookup d i r Hr) in *. by apply (detached_free h o staging i d r).
  - destruct HD as (ID & SD & HO & _). split_and!; try done. unfold rx_of. by rewrite El.
Qed.

Lemma detached_restart h o staging k c : detached h o staging k c -> detached h o staging 0 c.
Proof. intros (ID & SD & HO & _). split_and!; [done..|lia]. Qed.

(** ** The release itself *)

Lemma detached_none h o staging c :
  detached h o staging SLOTS c -> gsum (w_of (hd_wire_handle o)) (rx_of c) = 0.
Proof.
  intros (ID & _ & _ & ND). apply gsum_zero. intros i r Hr. unfold w_of. rewrite (ND i r); [done| |done].
  destruct (rx_some _ _ _ Hr) as [rl Hrl]. pose proof (proj1 (v_rx ID Hrl)) as Hlen.
  unfold rx_of in Hr. rewrite Hrl in Hr. apply lookup_lt_Some in Hr. cbn in Hr. lia.
Qed.

(** Once no slot of the handle is held, taking its charge off and freeing the
    handle restores the invariant. *)
Lemma inv_retire c h o :
  inv_for (Some h) c -> handles_of c !! h = Some o -> hd_in_use o = true ->
  0 <= hd_staging_bytes o -> gsum (w_of (hd_wire_handle o)) (rx_of c) = 0 ->
  ch_inv (set_handle h (o <| hd_staging_bytes := 0 |> <| hd_in_use := false |>)
            (c <| ch_staging_bytes ::= fun n => u64 (n - hd_staging_bytes o) |>)
            <| ch_handle_count := ch_handle_count c - 1 |>).
Proof.
  intros I Ho Uo Hpos Hz. pose proof (core_lookup c h o Ho) as Hk.
  pose proof (live_open _ _ _ _ I Ho Uo) as Hopen.
  pose proof (v_staging I) as Vs. pose proof (v_staging_max I) as Vm. cbn [excess] in Vs. rewrite Hk in Vs.
  cbn [core k_wire k_staging] in Vs. fold (rx_of c) in Vs. rewrite Hz in Vs.
  assert (0 <= gsum w_held (rx_of c)) as Hn.
  { apply gsum_nonneg. intros j r Hr. unfold w_held, held. destruct (rs_in_use r) eqn:U; [|done].
    pose proof (v_bytes I j Hr U). destruct (rs_completed r); cbn; lia. }
  assert (w_use (core o) = 1) as U1 by (unfold w_use; cbn; by rewrite Uo).
  unfold ch_inv, PeerChannelInv.ch_inv, PeerChannelInv.inv_for in *. cbn.
  rewrite u64_staging by lia. rewrite Hopen in *. destruct I.
  constructor; cbn [excess]; rewrite ?cores_set; try done.
  - intros l Hl. destruct (ch_handles c) as [l0|]; [|done]. cbn in Hl. injection Hl as <-.
    rewrite length_insert. by apply v_handles.
  - rewrite (gsum_insert _ _ _ _ _ Hk), U1, v_count. cbn. lia.
  - intros j k. destruct (decide (h = j)) as [->|Hne].
    + rewrite list_lookup_insert_eq by (by eapply lookup_lt_Some). by intros [= <-].
    + rewrite list_lookup_insert_ne by done. apply v_wire.
  - fold (rx_of c). lia.
  - lia.
  - intros j k. destruct (decide (h = j)) as [->|Hne].
    + rewrite list_lookup_insert_eq by (by eapply lookup_lt_Some). by intros [= <-].
    + rewrite list_lookup_insert_ne by done. intros Hj Uk _. apply (v_hstaging j k Hj Uk). congruence.
  - intros j r Hr Hh Hs. destruct (v_owned j r Hr Hh Hs) as (m & k & Hm & Uk & Wk). exists m, k.
    split; [|done]. destruct (decide (h = m)) as [->|Hne]; [|by rewrite list_lookup_insert_ne].
    exfalso. assert (k = core o) as -> by congruence. cbn in Wk.
    assert (forall j r, rx_of c !! j = Some r -> 0 <= w_of (hd_wire_handle o) r) as Hnn.
    { intros j' q Hq. unfold w_of, of_handle, held. destruct (rs_in_use q) eqn:U; [|done].
      pose proof (v_bytes j' q Hq U). destruct (rs_completed q), (rs_source_side q), (rs_handle q =? _); cbn; lia. }
    pose proof (gsum_zero_inv _ _ Hnn Hz j r Hr) as H0. unfold w_of, of_handle in H0.
    rewrite Hh, Hs, Wk, Z.eqb_refl in H0. cbn in H0. pose proof (v_bytes j r Hr (held_in_use r Hh)). lia.
  - intros H. destruct (v_live H) as (A1 & A2). split; [by apply some_fmap|done].
Qed.

Lemma detached_start c h o :
  ch_inv c -> handles_of c !! h = Some o -> hd_in_use o = true -> detached h o (ch_staging_bytes c) 0 c.
Proof. intros I Ho Uo. split_and!; [by eapply inv_detach|done|by exists o|lia]. Qed.

Lemma release_detached c h o staging :
  hd_in_use o = true -> 0 <= hd_staging_bytes o -> detached h o staging 0 c ->
  ch_inv (peer_handle_release h c).
Proof.
  intros Uo Hpos HD. pose proof HD as (_ & _ & (o1 & Ho1 & E1) & _).
  assert (hd_in_use o1 = true /\ hd_wire_handle o1 = hd_wire_handle o) as [U1 W1].
  { unfold core in E1. injection E1 as _ -> -> _. done. }
  unfold peer_handle_release. rewrite (handle_at_lookup c h o1 Ho1), U1, W1. cbn [negb].
  pose proof (detached_abandon h o staging c false Uo HD) as HA. pose proof HA as (I & _ & (o2 & Ho2 & E2) & _).
  assert (hd_in_use o2 = true /\ hd_wire_handle o2 = hd_wire_handle o /\ hd_staging_bytes o2 = hd_staging_bytes o)
    as (U2 & W2 & S2).
  { unfold core in E2. injection E2 as _ -> -> ->. done. }
  set (d := peer_rx_abandon_handle (hd_wire_handle o) false c) in *.
  rewrite (handle_at_lookup d h o2 Ho2).
  pose proof (inv_retire d h o2 I Ho2 U2) as HR. rewrite S2, W2 in HR.
  specialize (HR Hpos (detached_none _ _ _ _ HA)).
  assert (ch_handle_count d <> 0) as Hc.
  { intros Hz. rewrite (v_count I) in Hz. pose proof (core_lookup d h o2 Ho2) as Hk.
    pose proof (gsum_zero_inv w_use _ ltac:(intros i k _; unfold w_use; destruct (k_use k); lia) Hz h _ Hk) as H0.
    unfold w_use in H0. cbn in H0. by rewrite U2 in H0. }
  cbn zeta. match goal with |- context [if ?b then _ else _] => replace b with false by (symmetry; by apply Z.eqb_neq) end.
  rewrite S2. exact HR.
Qed.

Lemma not_in_use_release c h : hd_in_use (handle_at c h) = false -> peer_handle_release h c = c.
Proof. intros H. unfold peer_handle_release. by rewrite H. Qed.

Lemma inv_release c h : ch_inv c -> ch_inv (peer_handle_release h c).
Proof.
  intros I. destruct (hd_in_use (handle_at c h)) eqn:U; [|by rewrite not_in_use_release].
  unfold handle_at in U. destruct (handles_of c !! h) as [o|] eqn:Ho; [|done]. cbn in U.
  eapply (release_detached c h o); [done| |by apply detached_start].
  by destruct (handle_share E c h o I Ho U) as [_ [? _]].
Qed.

(** The order of [dmesh_peer_pod_gone]: landed slots go as well. *)
Lemma inv_release_gone c h :
  ch_inv c -> hd_in_use (handle_at c h) = true ->
  ch_inv (peer_handle_release h (peer_rx_abandon_handle (hd_wire_handle (handle_at c h)) true c)).
Proof.
  intros I U. unfold handle_at in *. destruct (handles_of c !! h) as [o|] eqn:Ho; [|done]. cbn in *.
  eapply (release_detached _ h o); [done| |].
  - by destruct (handle_share E c h o I Ho U) as [_ [? _]].
  - eapply detached_restart, detached_abandon; [done|]. by apply detached_start.
Qed.

Lemma inv_maybe_release c h : ch_inv c -> ch_inv (peer_handle_maybe_release h c).
Proof.
  intros I. unfold peer_handle_maybe_release. destruct (_ || _); [done|]. destruct (_ && _); [done|].
  by apply inv_release.
Qed.
End release.
