(* ===== verification/PeerChannelTx.v ===== *)
(** * Transmit slots, handles and staged acknowledgements keep the invariant *)

From S2P Require Import Prelude Cursor PeerIdentity PeerFrame PairWire PeerState PeerChannel FreeList PeerChannelInv PeerChannelRx.

(** ** What a release leaves alone *)

(** Same channel but for the handles, the receive slots and their counters. *)
Definition rx_side (c c' : dmesh_peer_channel) : Prop :=
  exists hs rx free staging count,
    c' = c <| ch_handles := hs |> <| ch_rx := rx |> <| ch_rx_free := free |>
           <| ch_staging_bytes := staging |> <| ch_handle_count := count |>.

Lemma rx_side_refl c : rx_side c c.
Proof. exists (ch_handles c), (ch_rx c), (ch_rx_free c), (ch_staging_bytes c), (ch_handle_count c). by destruct c. Qed.

Lemma rx_side_trans a b c : rx_side a b -> rx_side b c -> rx_side a c.
Proof.
  intros (h1 & r1 & f1 & s1 & n1 & ->) (h2 & r2 & f2 & s2 & n2 & ->). by exists h2, r2, f2, s2, n2.
Qed.

Lemma rx_side_free_slot i c : rx_side c (peer_rx_free_slot i c).
Proof.
  destruct (rx_free_slot_shape i c) as (hs' & _ & ->).
  by exists hs', (fmap <[i := zero_rxslot <| rs_next := ch_rx_free c |>]> (ch_rx c)), (Z.of_nat i),
    (ch_staging_bytes c), (ch_handle_count c).
Qed.

Lemma rx_side_abandon wh too c : rx_side c (peer_rx_abandon_handle wh too c).
Proof.
  unfold peer_rx_abandon_handle. destruct (ch_rx c); [|apply rx_side_refl].
  apply (sweep_ind (fun _ d => rx_side c d) 0 SLOTS); [apply rx_side_refl|]. intros i d Hd.
  destruct (_ || _); [done|]. eapply rx_side_trans; [done|apply rx_side_free_slot].
Qed.

Lemma rx_side_write h o x n c :
  rx_side c ((set_handle h o (c <| ch_staging_bytes := x |>)) <| ch_handle_count := n |>).
Proof. by exists (fmap <[h := o]> (ch_handles c)), (ch_rx c), (ch_rx_free c), x, n. Qed.

Lemma rx_side_release h c : rx_side c (peer_handle_release h c).
Proof.
  unfold peer_handle_release. destruct (negb _); [apply rx_side_refl|]. cbn zeta.
  set (d := peer_rx_abandon_handle _ false c).
  assert (rx_side c d) as Hd by apply rx_side_abandon. eapply rx_side_trans; [exact Hd|].
  clearbody d. set (o := _ <| hd_in_use := false |>). set (x := u64 (ch_staging_bytes d - hd_staging_bytes (handle_at d h))).
  destruct (_ =? 0).
  - exact (rx_side_write h o x (ch_handle_count d) d).
  - exact (rx_side_write h o x (Z.pred (ch_handle_count d)) d).
Qed.

Lemma rx_side_maybe h c : rx_side c (peer_handle_maybe_release h c).
Proof.
  unfold peer_handle_maybe_release. destruct (_ || _); [apply rx_side_refl|].
  destruct (_ && _); [apply rx_side_refl|apply rx_side_release].
Qed.

(** A release does not read the in-flight counter. *)
Lemma free_slot_inflight i c x :
  peer_rx_free_slot i (c <| ch_inflight_bytes := x |>) = (peer_rx_free_slot i c) <| ch_inflight_bytes := x |>.
Proof.
  unfold peer_rx_free_slot. change (rx_at (c <| ch_inflight_bytes := x |>) i) with (rx_at c i).
  destruct (rs_source_side _); [done|].
  change (peer_handle_of (c <| ch_inflight_bytes := x |>) ?a) with (peer_handle_of c a).
  destruct (peer_handle_of c _) as [h|]; [|done].
  change (handle_at (c <| ch_inflight_bytes := x |>) h) with (handle_at c h). by destruct (_ && _).
Qed.

Lemma abandon_inflight wh too c x :
  peer_rx_abandon_handle wh too (c <| ch_inflight_bytes := x |>) =
    (peer_rx_abandon_handle wh too c) <| ch_inflight_bytes := x |>.
Proof.
  unfold peer_rx_abandon_handle. change (ch_rx (c <| ch_inflight_bytes := x |>)) with (ch_rx c).
  destruct (ch_rx c) as [l|]; [|done]. generalize 0%nat at 1 2 as from. generalize SLOTS as n. intros n from.
  revert from c. induction n as [|n IH]; intros from c; cbn [sweep]; [done|].
  change (rx_at (c <| ch_inflight_bytes := x |>) from) with (rx_at c from).
  destruct (_ || _); [apply IH|]. rewrite free_slot_inflight. apply IH.
Qed.

Lemma release_inflight h c x :
  peer_handle_release h (c <| ch_inflight_bytes := x |>) = (peer_handle_release h c) <| ch_inflight_bytes := x |>.
Proof.
  unfold peer_handle_release. change (handle_at (c <| ch_inflight_bytes := x |>) h) with (handle_at c h).
  destruct (negb _); [done|]. rewrite abandon_inflight. cbn zeta.
  set (d := peer_rx_abandon_handle _ _ c). clearbody d.
  change (handle_at (d <| ch_inflight_bytes := x |>) h) with (handle_at d h).
  set (o := _ <| hd_in_use := false |>).
  change (ch_handle_count (set_handle h o ((d <| ch_inflight_bytes := x |>)
    <| ch_staging_bytes ::= fun n => u64 (n - hd_staging_bytes (handle_at d h)) |>))) with (ch_handle_count d).
  change (ch_handle_count (set_handle h o (d
    <| ch_staging_bytes ::= fun n => u64 (n - hd_staging_bytes (handle_at d h)) |>))) with (ch_handle_count d).
  by destruct (ch_handle_count d =? 0).
Qed.

Lemma maybe_release_inflight h c x :
  peer_handle_maybe_release h (c <| ch_inflight_bytes := x |>) =
    (peer_handle_maybe_release h c) <| ch_inflight_bytes := x |>.
Proof.
  unfold peer_handle_maybe_release.
  change (handle_at (c <| ch_inflight_bytes := x |>) h) with (handle_at c h).
  change (ch_pair_scoped (c <| ch_inflight_bytes := x |>)) with (ch_pair_scoped c).
  cbn zeta. rewrite release_inflight. destruct (_ || _); [done|]. by destruct (_ && _).
Qed.

Section tx.
  Context {W : Type} (E : peer_env W).
  Local Abbreviation ch_inv := (ch_inv E).

(** ** Transmit slots *)

(** A write to one transmit slot, with the counter following. *)
Lemma inv_tx_write c i t t' free' :
  ch_inv c -> ch_state c = OPEN -> tx_of c !! i = Some t ->
  free_ok tx_in_use tx_next (<[i := t']> (tx_of c)) free' ->
  (tx_in_use t' = true -> 0 <= tx_bytes t') ->
  ch_inflight_bytes c + w_tx t' - w_tx t <= DMESH_PEER_TX_INFLIGHT_MAX ->
  ch_inv ((set_tx i t' c) <| ch_tx_free := free' |>
            <| ch_inflight_bytes := ch_inflight_bytes c + w_tx t' - w_tx t |>).
Proof.
  intros I Ho Ht Hf Hb Hm. unfold tx_of in Ht, Hf. pose proof (v_tx I) as Vtx.
  unfold PeerChannelInv.ch_inv, PeerChannelInv.inv_for, set_tx in *. cbn.
  destruct (ch_tx c) as [l|] eqn:El; [|done]. cbn in *. rewrite Ho in *. destruct I. cbn in *.
  constructor; cbn; try done.
  - intros l' [= <-]. rewrite length_insert. split; [by apply Vtx|done].
  - rewrite (gsum_insert _ _ _ _ _ Ht), v_inflight. lia.
  - intros j q. destruct (decide (i = j)) as [->|Hne].
    + rewrite list_lookup_insert_eq by (by eapply lookup_lt_Some). by intros [= <-].
    + rewrite list_lookup_insert_ne by done. apply v_txbytes.
  - intros H. destruct (v_live H) as (A1 & _ & A3). split; [done|]. split; [by eexists|done].
Qed.

Lemma tx_free_ok c l : ch_inv c -> ch_tx c = Some l -> free_ok tx_in_use tx_next (tx_of c) (ch_tx_free c).
Proof. intros I Hl. unfold tx_of. rewrite Hl. by apply (v_tx I). Qed.

Lemma tx_at_lookup c i t : tx_of c !! i = Some t -> tx_at c i = t.
Proof. unfold tx_at. by intros ->. Qed.

Lemma tx_nonneg c : ch_inv c -> forall i t, tx_of c !! i = Some t -> 0 <= w_tx t.
Proof. intros I i t Ht. unfold w_tx. destruct (tx_in_use t) eqn:U; [|done]. by apply (v_txbytes I i Ht). Qed.

Lemma inflight_nonneg c : ch_inv c -> 0 <= ch_inflight_bytes c.
Proof. intros I. rewrite (v_inflight I). apply gsum_nonneg. by apply tx_nonneg. Qed.

Lemma u64_inflight z : 0 <= z < 2 ^ 63 -> u64 z = z.
Proof. intros H. apply wrap_small. unfold in_width. lia. Qed.

Lemma inv_tx_charge c handle seq bytes kind cookie :
  ch_inv c -> in_width 32 bytes -> ch_inv (dmesh_peer_tx_charge handle seq bytes kind cookie c).2.
Proof.
  intros I Hb. unfold dmesh_peer_tx_charge. destruct (is_open (ch_state c)) eqn:Eo; [|done]. cbn [negb].
  assert (ch_state c = OPEN) as Ho by (by destruct (ch_state c)).
  pose proof (inflight_nonneg c I) as Hn. pose proof (v_inflight_max I) as Hx.
  unfold in_width, DMESH_PEER_TX_INFLIGHT_MAX in *.
  rewrite u64_inflight by lia. destruct (_ || _) eqn:Eb; [exact I|].
  apply orb_false_iff in Eb as [Eb1%Z.ltb_ge Eb2%Z.eqb_neq].
  destruct (v_live I) as (_ & [l Hl] & _); [by rewrite Ho|].
  destruct (free_pop _ _ _ _ (tx_free_ok c l I Hl) Eb2) as (i & t & Ei & Ht & Hu & Hpop).
  rewrite Ei, Nat2Z.id, (tx_at_lookup c i t Ht). cbn [snd].
  set (t' := TxSlot DMESH_PEER_TX_NIL seq bytes handle cookie kind true).
  assert (w_tx t = 0) as H0 by (unfold w_tx; by rewrite Hu).
  pose proof (inv_tx_write c i t t' (tx_next t) I Ho Ht (Hpop t' eq_refl)) as Hw.
  replace (ch_inflight_bytes c + w_tx t' - w_tx t) with (u64 (ch_inflight_bytes c + bytes)) in Hw
    by (rewrite H0, u64_inflight by lia; cbn; lia).
  assert (ch_inv ((set_tx i t' (c <| ch_tx_free := tx_next t |>))
                    <| ch_inflight_bytes ::= fun n => u64 (n + bytes) |>)) as I1.
  { apply Hw; [intros _; cbn; lia|rewrite u64_inflight by lia]. unfold DMESH_PEER_TX_INFLIGHT_MAX. lia. }
  destruct (peer_handle_of _ handle) as [h|] eqn:Eh; [|exact I1].
  by apply (inv_set_handle E None _ handle h).
Qed.

Lemma tx_open c i t : ch_inv c -> tx_of c !! i = Some t -> tx_in_use t = true -> ch_state c = OPEN.
Proof.
  intros I Ht Hu. destruct (ch_state c) eqn:Es; [| |done];
    destruct (v_quiet I) as (_ & _ & _ & H & _); try (by rewrite Es); specialize (H i t Ht); congruence.
Qed.

(** The slot goes back to the free list, its bytes off the counter. *)
Lemma inv_tx_back c i t :
  ch_inv c -> tx_of c !! i = Some t -> tx_in_use t = true ->
  ch_inv ((set_tx i (t <| tx_in_use := false |> <| tx_cookie := 0 |> <| tx_next := ch_tx_free c |>)
            (c <| ch_inflight_bytes := u64 (ch_inflight_bytes c - tx_bytes t) |>)) <| ch_tx_free := Z.of_nat i |>).
Proof.
  intros I Ht Hu. set (t' := t <| tx_in_use := false |> <| tx_cookie := 0 |> <| tx_next := ch_tx_free c |>).
  assert (w_tx t' = 0) as H0 by done. assert (w_tx t = tx_bytes t) as H1 by (unfold w_tx; by rewrite Hu).
  pose proof (gsum_lookup w_tx _ i t (tx_nonneg c I) Ht) as Hle. unfold tx_of in Hle. rewrite <-(v_inflight I), H1 in Hle.
  pose proof (v_txbytes I i Ht Hu) as Hb. pose proof (v_inflight_max I) as Hx. unfold DMESH_PEER_TX_INFLIGHT_MAX in Hx.
  destruct (ch_tx c) as [l|] eqn:El; [|unfold tx_of in Ht; by rewrite El in Ht].
  pose proof (inv_tx_write c i t t' (Z.of_nat i) I (tx_open c i t I Ht Hu) Ht) as Hw.
  replace (ch_inflight_bytes c + w_tx t' - w_tx t) with (u64 (ch_inflight_bytes c - tx_bytes t)) in Hw
    by (rewrite H0, H1, u64_inflight by lia; lia).
  apply Hw.
  - by apply (free_push _ _ _ _ i t t' (tx_free_ok c l I El)).
  - done.
  - rewrite u64_inflight by lia. unfold DMESH_PEER_TX_INFLIGHT_MAX. lia.
Qed.

(** The handle's part of [peer_tx_free_slot]. *)
Definition tx_owner_freed (t : dmesh_peer_txslot) (c : dmesh_peer_channel) : dmesh_peer_channel :=
  match peer_handle_of c (tx_handle t) with
  | Some h => if tx_bytes t <=? hd_tx_inflight_bytes (handle_at c h)
              then peer_handle_maybe_release h (set_handle h ((handle_at c h) <| hd_tx_inflight_bytes :=
                     hd_tx_inflight_bytes (handle_at c h) - tx_bytes t |>) c)
              else c
  | None => c
  end.

Lemma tx_owner_freed_inv t c :
  ch_inv c -> ch_inv (tx_owner_freed t c) /\ ch_tx (tx_owner_freed t c) = ch_tx c /\
    ch_tx_free (tx_owner_freed t c) = ch_tx_free c /\
    ch_inflight_bytes (tx_owner_freed t c) = ch_inflight_bytes c.
Proof.
  intros I. unfold tx_owner_freed. destruct (peer_handle_of c (tx_handle t)) as [h|] eqn:Eh; [|done].
  destruct (_ <=? _); [|done]. split; [by apply inv_maybe_release, (inv_set_handle E None c (tx_handle t) h)|].
  match goal with |- context [peer_handle_maybe_release h ?e] =>
    destruct (rx_side_maybe h e) as (? & ? & ? & ? & ? & ->) end. done.
Qed.

Lemma tx_owner_freed_inflight t c x :
  tx_owner_freed t (c <| ch_inflight_bytes := x |>) = (tx_owner_freed t c) <| ch_inflight_bytes := x |>.
Proof.
  unfold tx_owner_freed.
  change (peer_handle_of (c <| ch_inflight_bytes := x |>) (tx_handle t)) with (peer_handle_of c (tx_handle t)).
  destruct (peer_handle_of c (tx_handle t)) as [h|]; [|done].
  change (handle_at (c <| ch_inflight_bytes := x |>) h) with (handle_at c h). destruct (_ <=? _); [|done].
  by rewrite <-maybe_release_inflight.
Qed.

Lemma inv_stalled b c : ch_inv c -> ch_inv (c <| ch_stalled := b |>).
Proof. done. Qed.

Lemma tx_free_slot_eq i c :
  peer_tx_free_slot i c =
    let slot := tx_at c i in
    let d := tx_owner_freed slot (c <| ch_inflight_bytes := u64 (ch_inflight_bytes c - tx_bytes slot) |>) in
    let e := (set_tx i (slot <| tx_in_use := false |> <| tx_cookie := 0 |> <| tx_next := ch_tx_free d |>) d)
               <| ch_tx_free := Z.of_nat i |> in
    if ch_inflight_bytes e <? DMESH_PEER_TX_INFLIGHT_MAX then e <| ch_stalled := false |> else e.
Proof. reflexivity. Qed.

Lemma inv_tx_free_slot c i t :
  ch_inv c -> tx_of c !! i = Some t -> tx_in_use t = true -> ch_inv (peer_tx_free_slot i c).
Proof.
  intros I Ht Hu. rewrite tx_free_slot_eq, (tx_at_lookup c i t Ht). cbn zeta.
  set (x := u64 (ch_inflight_bytes c - tx_bytes t)). rewrite tx_owner_freed_inflight.
  destruct (tx_owner_freed_inv t c I) as (Id & T1 & T2 & T3). set (d := tx_owner_freed t c) in *. clearbody d.
  assert (tx_of d !! i = Some t) as Ht' by (unfold tx_of; rewrite T1; exact Ht).
  pose proof (inv_tx_back d i t Id Ht' Hu) as HB. rewrite T3 in HB. fold x in HB.
  set (e := set ch_tx_free _ _). assert (ch_inv e) as HI by exact HB. clearbody e.
  destruct (_ <? _); [by apply inv_stalled|done].
Qed.

Lemma uncharge_Some i l handle seq cookie j :
  tx_uncharge_from i l handle seq cookie = Some j ->
  (i <= j)%nat /\ exists t, l !! (j - i)%nat = Some t /\ tx_in_use t = true.
Proof.
  revert i. induction l as [|t l IH]; intros i; cbn [tx_uncharge_from]; [done|].
  destruct (_ && _) eqn:Eb.
  - intros [= <-]. rewrite Nat.sub_diag. split; [done|]. exists t. split; [done|]. by destruct (tx_in_use t).
  - intros (Hj & t' & Ht' & Hu)%IH. split; [lia|]. exists t'. by replace (j - i)%nat with (S (j - S i)) by lia.
Qed.

Lemma inv_tx_uncharge c handle seq cookie : ch_inv c -> ch_inv (peer_tx_uncharge handle seq cookie c).
Proof.
  intros I. unfold peer_tx_uncharge. destruct (tx_uncharge_from _ _ _ _ _) as [i|] eqn:Eu; [|done].
  apply uncharge_Some in Eu as (_ & t & Ht & Hu). rewrite Nat.sub_0_r in Ht. by eapply inv_tx_free_slot.
Qed.

(** ** Acknowledgements and the bucket *)

Lemma inv_ack_append c handle seq :
  ch_inv c -> ch_state c = OPEN -> ack_full c = false -> ch_inv (peer_ack_append handle seq c).
Proof.
  intros I Ho Hf. unfold ack_full, ack_staged in Hf. apply Z.eqb_neq in Hf. pose proof (v_acks I) as Ha.
  assert (forall st, Z.of_nat (length st) <= DMESH_STREAM_ACK_BATCH -> ch_inv (c <| ch_ack_stage := st |>)) as H.
  { intros st Hst. unfold PeerChannelInv.ch_inv, PeerChannelInv.inv_for in *. cbn. rewrite Ho in *.
    destruct I. by constructor. }
  unfold peer_ack_append. destruct (last (ch_ack_stage c)) as [l|].
  - destruct (_ && _).
    + apply (H (<[(length (ch_ack_stage c) - 1)%nat := _]> (ch_ack_stage c))). by rewrite length_insert.
    + apply (H (ch_ack_stage c ++ _)). rewrite length_app. cbn. lia.
  - by apply H.
Qed.

Lemma inv_ack_published c entry : ch_inv c -> ch_inv (ack_published entry c).
Proof.
  intros I. unfold ack_published. destruct (peer_handle_of c _) as [h|] eqn:Eh; [|done].
  destruct (_ <=? _); [|done]. by apply inv_maybe_release, (inv_set_handle E None c (ae_handle entry) h).
Qed.

Lemma inv_tokens c x y :
  ch_inv c -> 0 <= x <= tokens_max ->
  ch_inv (c <| ch_open_refill_ns := y |> <| ch_open_tokens_milli := x |>).
Proof. intros [] Hx. by constructor. Qed.

Lemma inv_refill c now : ch_inv c -> ch_inv (refill now c).
Proof.
  intros I. unfold refill. destruct (_ =? 0); [done|]. apply (inv_tokens c _ now I).
  unfold tokens_max. destruct (_ <? _) eqn:El.
  - unfold DMESH_PEER_OPEN_RATE. lia.
  - split; [|by apply Z.ltb_ge]. apply (wrap_in_width 64). lia.
Qed.
End tx.
