(* ===== verification/PeerChannelReset.v ===== *)
(** * Resetting a channel and allocating its tables *)

From S2P Require Import Prelude Cursor PeerIdentity PeerFrame PairWire PeerState PeerChannel FreeList PeerHoare PeerChannelInv.

(** ** Fresh free lists *)

Lemma next_index_last n j :
  n = SLOTS -> (j < n)%nat ->
  next_index (Z.of_nat j) = if (j =? n - 1)%nat then DMESH_PEER_TX_NIL else Z.of_nat j + 1.
Proof.
  intros -> Hj. unfold next_index, DMESH_PEER_TX_SLOTS. pose proof SLOTS_eq as HS.
  destruct (Z.eqb_spec (Z.of_nat j) (8192 - 1)), (Nat.eqb_spec j (SLOTS - 1)); [reflexivity|lia|lia|reflexivity].
Qed.

Lemma slots_range (n : nat) : n = SLOTS -> Z.of_nat n <= DMESH_PEER_TX_NIL /\ (0 < n)%nat.
Proof. intros ->. pose proof SLOTS_eq. unfold DMESH_PEER_TX_NIL. lia. Qed.

Lemma link_tx_lookup k l i :
  link_tx_from k l !! i = (fun t => t <| tx_next := next_index (k + Z.of_nat i) |>) <$> l !! i.
Proof.
  revert k i. induction l as [|t l IH]; intros k [|i]; [done..| |].
  - cbn. by rewrite Z.add_0_r.
  - change (link_tx_from (k + 1) l !! i = (fun t => t <| tx_next := next_index (k + Z.of_nat (S i)) |>) <$> l !! i).
    rewrite IH. by replace (k + 1 + Z.of_nat i) with (k + Z.of_nat (S i)) by lia.
Qed.
Lemma link_rx_lookup k l i :
  link_rx_from k l !! i = (fun r => r <| rs_next := next_index (k + Z.of_nat i) |>) <$> l !! i.
Proof.
  revert k i. induction l as [|t l IH]; intros k [|i]; [done..| |].
  - cbn. by rewrite Z.add_0_r.
  - change (link_rx_from (k + 1) l !! i = (fun t => t <| rs_next := next_index (k + Z.of_nat (S i)) |>) <$> l !! i).
    rewrite IH. by replace (k + 1 + Z.of_nat i) with (k + Z.of_nat (S i)) by lia.
Qed.
Lemma length_link_tx k l : length (link_tx_from k l) = length l.
Proof. revert k. induction l as [|t l IH]; intros k; cbn; [done|]. by rewrite IH. Qed.
Lemma length_link_rx k l : length (link_rx_from k l) = length l.
Proof. revert k. induction l as [|t l IH]; intros k; cbn; [done|]. by rewrite IH. Qed.

Lemma link_tx_fresh l :
  length l = SLOTS -> (forall i t, l !! i = Some t -> tx_in_use t = false) ->
  length (link_tx l) = SLOTS /\ free_ok tx_in_use tx_next (link_tx l) 0 /\
  (forall i t, link_tx l !! i = Some t -> tx_in_use t = false).
Proof.
  intros Hl Hu.
  assert (length (link_tx l) = SLOTS) as Hl' by (unfold link_tx; by rewrite length_link_tx).
  assert (forall i t, link_tx l !! i = Some t -> tx_in_use t = false /\ tx_next t = next_index (Z.of_nat i)) as H.
  { intros i t. unfold link_tx. rewrite link_tx_lookup. destruct (l !! i) as [t0|] eqn:E; [|done].
    cbn. intros [= <-]. cbn. split; [by eapply Hu|done]. }
  split; [done|]. split; [|intros i t Ht; by apply (H i t)]. destruct (slots_range _ Hl') as [HR HP].
  apply free_fresh; [done..|]. intros j t Ht. destruct (H j t Ht) as [Ha Hb]. split; [done|].
  rewrite Hb. apply next_index_last; [done|]. by eapply lookup_lt_Some.
Qed.

Lemma link_rx_fresh l :
  length l = SLOTS -> (forall i r, l !! i = Some r -> rs_in_use r = false) ->
  length (link_rx l) = SLOTS /\ free_ok rs_in_use rs_next (link_rx l) 0 /\
  (forall i r, link_rx l !! i = Some r -> rs_in_use r = false).
Proof.
  intros Hl Hu.
  assert (length (link_rx l) = SLOTS) as Hl' by (unfold link_rx; by rewrite length_link_rx).
  assert (forall i r, link_rx l !! i = Some r -> rs_in_use r = false /\ rs_next r = next_index (Z.of_nat i)) as H.
  { intros i r. unfold link_rx. rewrite link_rx_lookup. destruct (l !! i) as [r0|] eqn:E; [|done].
    cbn. intros [= <-]. cbn. split; [by eapply Hu|done]. }
  split; [done|]. split; [|intros i r Hr; by apply (H i r)]. destruct (slots_range _ Hl') as [HR HP].
  apply free_fresh; [done..|]. intros j r Hr. destruct (H j r Hr) as [Ha Hb]. split; [done|].
  rewrite Hb. apply next_index_last; [done|]. by eapply lookup_lt_Some.
Qed.

Lemma zero_rx_fresh :
  length (repeat zero_rxslot SLOTS) = SLOTS /\
  forall i r, repeat zero_rxslot SLOTS !! i = Some r -> rs_in_use r = false.
Proof. split; [apply repeat_length|]. by intros i r ->%lookup_repeat. Qed.
Lemma zero_tx_fresh :
  length (repeat zero_txslot SLOTS) = SLOTS /\
  forall i t, repeat zero_txslot SLOTS !! i = Some t -> tx_in_use t = false.
Proof. split; [apply repeat_length|]. by intros i t ->%lookup_repeat. Qed.

(** ** Empty tables *)

Definition no_handle (hs : option (list dmesh_peer_handle)) : Prop :=
  forall i k, cores hs !! i = Some k -> k_use k = false.

Lemma no_handle_count hs : no_handle hs <-> gsum w_use (cores hs) = 0.
Proof.
  split.
  - intros H. apply gsum_zero. intros i k Hk. unfold w_use. by rewrite (H i k Hk).
  - intros H i k Hk. destruct (k_use k) eqn:U; [|done].
    pose proof (gsum_zero_inv w_use _ ltac:(intros j q _; unfold w_use; destruct (k_use q); lia) H i k Hk) as H0.
    unfold w_use in H0. by rewrite U in H0.
Qed.

Lemma unused_held rl : (forall i r, rl !! i = Some r -> rs_in_use r = false) -> gsum w_held rl = 0.
Proof. intros H. apply gsum_zero. intros i r Hr. unfold w_held, held. by rewrite (H i r Hr). Qed.
Lemma unused_of rl wh : (forall i r, rl !! i = Some r -> rs_in_use r = false) -> gsum (w_of wh) rl = 0.
Proof. intros H. apply gsum_zero. intros i r Hr. unfold w_of, of_handle, held. by rewrite (H i r Hr). Qed.
Lemma unused_tx tl : (forall i t, tl !! i = Some t -> tx_in_use t = false) -> gsum w_tx tl = 0.
Proof. intros H. apply gsum_zero. intros i t Ht. unfold w_tx. by rewrite (H i t Ht). Qed.

Section reset.
  Context {W : Type} (E : peer_env W).
  Local Abbreviation ch_inv := (ch_inv E).

(** A channel that holds nothing satisfies the invariant. *)
Lemma inv_empty c :
  ch_state c <> OPEN ->
  (forall l, ch_handles c = Some l -> length l = STREAMS) -> no_handle (ch_handles c) ->
  (forall l, ch_tx c = Some l -> length l = SLOTS /\ free_ok tx_in_use tx_next l (ch_tx_free c)) ->
  (forall i t, tx_of c !! i = Some t -> tx_in_use t = false) ->
  (forall l, ch_rx c = Some l -> length l = SLOTS /\ free_ok rs_in_use rs_next l (ch_rx_free c)) ->
  (forall i r, rx_of c !! i = Some r -> rs_in_use r = false) ->
  ch_handle_count c = 0 -> ch_staging_bytes c = 0 -> ch_inflight_bytes c = 0 -> ch_ack_stage c = [] ->
  0 <= ch_open_tokens_milli c <= tokens_max -> opt_len (ch_rx_frame c) = 0 -> opt_len (ch_tx_frame c) = 0 ->
  (ch_state c <> CLOSED -> is_Some (ch_handles c) /\ is_Some (ch_tx c) /\ is_Some (ch_rx c) /\
     is_Some (ch_rx_frame c) /\ is_Some (ch_tx_frame c) /\ is_Some (ch_conn c)) ->
  (ch_state c = CLOSED -> ch_conn c = None /\ ch_pair_wire c = None) -> ch_inv c.
Proof.
  intros Hst Hh Hn Htx Htu Hrx Hru Hc Hs Hi Ha Htok Hrf Htf Hlive Hclosed.
  assert (FRAME_CAP = 65616) as HF by reflexivity.
  constructor; rewrite ?Hc, ?Hs, ?Hi, ?Ha, ?Hrf, ?Htf; cbn [excess]; try done.
  - symmetry. by apply no_handle_count.
  - intros i k Hk U. by rewrite (Hn i k Hk) in U.
  - intros i r Hr U. by rewrite (Hru i r Hr) in U.
  - rewrite unused_held; done.
  - intros i k Hk U. by rewrite (Hn i k Hk) in U.
  - intros i r Hr Hhd. unfold held in Hhd. by rewrite (Hru i r Hr) in Hhd.
  - by rewrite unused_tx.
  - intros i t Ht U. by rewrite (Htu i t Ht) in U.
Qed.

(** ** The loops of a reset *)

(** What a reset keeps: everything but what it clears. *)
Definition reset_keeps (c c' : dmesh_peer_channel) : Prop :=
  ch_node_name c' = ch_node_name c /\ ch_pair c' = ch_pair c /\ ch_pair_scoped c' = ch_pair_scoped c /\
  ch_pair_tx_frame c' = ch_pair_tx_frame c /\ ch_pair_rx_payload c' = ch_pair_rx_payload c /\
  ch_bound_key c' = ch_bound_key c /\ ch_in_use c' = ch_in_use c /\ ch_initiated_local c' = ch_initiated_local c /\
  ch_incarnation c' = ch_incarnation c /\ ch_last_active_ns c' = ch_last_active_ns c /\
  ch_open_tokens_milli c' = ch_open_tokens_milli c /\ ch_open_refill_ns c' = ch_open_refill_ns c.

#[local] Instance reset_keeps_refl : Reflexive reset_keeps.
Proof. done. Qed.
Lemma reset_keeps_trans a b c : reset_keeps a b -> reset_keeps b c -> reset_keeps a c.
Proof. unfold reset_keeps. intuition congruence. Qed.

Lemma wp_reset_handles c :
  (forall l, ch_handles c = Some l -> length l = STREAMS) ->
  wp (reset_handles E) (fun _ c' => reset_keeps c c' /\ no_handle (ch_handles c') /\
    (forall l, ch_handles c' = Some l -> length l = STREAMS) /\
    ch_tx c' = ch_tx c /\ ch_rx c' = ch_rx c /\ ch_rx_frame c' = ch_rx_frame c /\ ch_tx_frame c' = ch_tx_frame c /\
    (is_Some (ch_handles c) <-> is_Some (ch_handles c'))) c.
Proof.
  intros Hl. unfold reset_handles. wp_go. destruct (ch_handles c) as [l|] eqn:Ec.
  2:{ wp_go. rewrite Ec. split_and!; try done. }
  apply (wp_for_each (fun i d => exists l', ch_handles d = Some l' /\ length l' = STREAMS /\ reset_keeps c d /\
    ch_tx d = ch_tx c /\ ch_rx d = ch_rx c /\ ch_rx_frame d = ch_rx_frame c /\ ch_tx_frame d = ch_tx_frame c /\
    forall j o, (j < i)%nat -> l' !! j = Some o -> hd_in_use o = false)).
  - exists l. split_and!; try done; [by apply Hl|lia].
  - intros i d Hi (l' & Hl' & Hlen & HK & H1 & H2 & H3 & H4 & HU). wp_go.
    destruct (hd_in_use (handle_at d i)) eqn:U; cbn [negb]; wp_go.
    + unfold poison_handle. wp_go.
      assert (forall o0, hd_in_use o0 = false ->
                exists l2, ch_handles (set_handle i o0 (d <| ch_poisoned ::= fun n => u64 (n + 1) |>)) = Some l2 /\
                length l2 = STREAMS /\ forall j o, (j < S i)%nat -> l2 !! j = Some o -> hd_in_use o = false) as HX.
      { intros o0 Ho0. exists (<[i := o0]> l'). split; [by apply ch_handles_set|]. split; [by rewrite length_insert|].
        intros j o Hj. destruct (decide (i = j)) as [->|Hne].
        - rewrite list_lookup_insert_eq by lia. by intros [= <-].
        - rewrite list_lookup_insert_ne by done. apply HU. lia. }
      destruct (op_poison _); wp_go; (edestruct HX as (l2 & ? & ? & ?); [|exists l2; by split_and!]; done).
    + exists l'. split_and!; try done. intros j o Hj Ho. destruct (decide (i = j)) as [->|Hne]; [|apply (HU j); [lia|done]].
      unfold handle_at, handles_of in U. rewrite Hl' in U. cbn in U. by rewrite Ho in U.
  - intros d (l' & Hl' & Hlen & HK & H1 & H2 & H3 & H4 & HU). rewrite Hl'.
    split_and!; try done.
    + intros i k Hk. apply cores_lookup in Hk as (o & Ho & <-). cbn in *. apply (HU i o); [|done].
      apply lookup_lt_Some in Ho. lia.
    + by intros l2 [= <-].
Qed.

Lemma wp_reset_tx c :
  (forall l, ch_tx c = Some l -> length l = SLOTS) ->
  wp (reset_tx E) (fun _ c' => reset_keeps c c' /\
    (forall l, ch_tx c' = Some l -> length l = SLOTS /\ free_ok tx_in_use tx_next l (ch_tx_free c')) /\
    (forall i t, tx_of c' !! i = Some t -> tx_in_use t = false) /\
    ch_handles c' = ch_handles c /\ ch_rx c' = ch_rx c /\ ch_rx_frame c' = ch_rx_frame c /\
    ch_tx_frame c' = ch_tx_frame c /\ ch_handle_count c' = ch_handle_count c /\
    ch_staging_bytes c' = ch_staging_bytes c) c.
Proof.
  intros Hl. unfold reset_tx. wp_go. destruct (ch_tx c) as [l|] eqn:Ec.
  2:{ wp_go. unfold tx_of. rewrite Ec. by split_and!. }
  wp_go. apply (wp_for_each (fun i d => exists l', ch_tx d = Some l' /\ length l' = SLOTS /\ reset_keeps c d /\
    ch_handles d = ch_handles c /\ ch_rx d = ch_rx c /\ ch_rx_frame d = ch_rx_frame c /\ ch_tx_frame d = ch_tx_frame c /\
    ch_handle_count d = ch_handle_count c /\ ch_staging_bytes d = ch_staging_bytes c /\
    forall j t, (j < i)%nat -> l' !! j = Some t -> tx_in_use t = false)).
  - exists l. split_and!; try done; [by apply Hl|lia].
  - intros i d Hi (l' & Hl' & Hlen & HK & H1 & H2 & H3 & H4 & H5 & H6 & HU). wp_go.
    destruct (tx_in_use (tx_at d i)) eqn:U; cbn [negb]; wp_go.
    + unfold release_tx. wp_go.
      assert (forall o0, tx_in_use o0 = false ->
                exists l2, ch_tx (set_tx i o0 d) = Some l2 /\
                length l2 = SLOTS /\ forall j o, (j < S i)%nat -> l2 !! j = Some o -> tx_in_use o = false) as HX.
      { intros o0 Ho0. exists (<[i := o0]> l'). split; [by apply ch_tx_set|]. split; [by rewrite length_insert|].
        intros j o Hj. destruct (decide (i = j)) as [->|Hne].
        - rewrite list_lookup_insert_eq by lia. by intros [= <-].
        - rewrite list_lookup_insert_ne by done. apply HU. lia. }
      destruct (op_release _); wp_go; (edestruct HX as (l2 & ? & ? & ?); [|exists l2; by split_and!]; done).
    + exists l'. split_and!; try done. intros j o Hj Ho. destruct (decide (i = j)) as [->|Hne]; [|apply (HU j); [lia|done]].
      unfold tx_at, tx_of in U. rewrite Hl' in U. cbn in U. by rewrite Ho in U.
  - intros d (l' & Hl' & Hlen & HK & H1 & H2 & H3 & H4 & H5 & H6 & HU). wp_go.
    destruct (link_tx_fresh l' Hlen) as (L1 & L2 & L3).
    { intros i t Ht. apply (HU i t); [|done]. apply lookup_lt_Some in Ht. lia. }
    set (d' := d <| ch_tx ::= _ |> <| ch_tx_free := _ |>).
    assert (ch_tx d' = Some (link_tx l')) as HT by (unfold d'; cbn; by rewrite Hl').
    unfold tx_of. rewrite HT. split_and!; try done. by intros l2 [= <-].
Qed.

(** A reset, of a channel whose tables have their sizes: closed and empty. *)
Lemma wp_reset_raw c :
  (forall l, ch_handles c = Some l -> length l = STREAMS) ->
  (forall l, ch_tx c = Some l -> length l = SLOTS) ->
  0 <= ch_open_tokens_milli c <= tokens_max ->
  wp (dmesh_peer_reset E) (fun _ c' => ch_inv c' /\ ch_state c' = CLOSED /\ reset_keeps c c') c.
Proof.
  intros Hh Ht Htok. unfold dmesh_peer_reset. wp_step. wp_step. wp_go.
  assert (forall (m : pm W unit) Q, wp m Q c ->
    wp (match op_source_reset (pe_ops E) with Some f => tell (fun w => f w n c) | None => mret tt end)
      (fun _ => wp m Q) c) as Hsrc.
  { intros m Q Hm. destruct (op_source_reset _); wp_go; done. }
  apply Hsrc. clear Hsrc n. wp_step.
  eapply wp_mono; [by apply wp_reset_handles|]. intros [] d1 (K1 & N1 & L1 & T1 & R1 & F1 & G1 & _).
  wp_go. eapply wp_mono.
  { apply wp_reset_tx. intros l. change (ch_tx d1 = Some l -> length l = SLOTS). rewrite T1. apply Ht. }
  intros [] d2 (K2 & TX & TU & H2 & R2 & F2 & G2 & C2 & S2).
  change (reset_keeps d1 d2) in K2. change (ch_handles d2 = ch_handles d1) in H2.
  change (ch_handle_count d2 = 0) in C2. change (ch_staging_bytes d2 = 0) in S2.
  pose proof (reset_keeps_trans _ _ _ K1 K2) as K. clear K1 K2.
  rewrite <-H2 in N1, L1.
  wp_go.
  set (d3 := reset_rx _).
  set (d4 := d3 <| ch_rx_frame ::= _ |> <| ch_tx_frame ::= _ |>).
  assert (wp (channel_set (W := W) (fun c0 => c0 <| ch_conn := None |> <| ch_state := CLOSED |> <| ch_pair_wire := None |>))
    (fun _ c' => ch_inv c' /\ ch_state c' = CLOSED /\ reset_keeps c c') d4) as HF.
  2:{ destruct (ch_conn d4) as [k|]; [unfold peer_close; destruct (tr_close _)|]; wp_step; exact HF. }
  wp_go.
  assert (exists rx rxf, d3 = d2 <| ch_inflight_bytes := 0 |> <| ch_stalled := false |> <| ch_ack_stage := [] |>
    <| ch_rx := rx |> <| ch_rx_free := rxf |> /\
    (forall l, rx = Some l -> length l = SLOTS /\ free_ok rs_in_use rs_next l rxf) /\
    (forall i r, default [] rx !! i = Some r -> rs_in_use r = false)) as (rx & rxf & E3 & RX & RU).
  { unfold d3, reset_rx. change (ch_rx (_ <| ch_ack_stage := [] |>)) with (ch_rx d2).
    destruct (ch_rx d2) as [l|] eqn:Er.
    - destruct zero_rx_fresh as [Z1 Z2]. destruct (link_rx_fresh _ Z1 Z2) as (A1 & A2 & A3).
      exists (Some (link_rx (repeat zero_rxslot SLOTS))), 0. split; [reflexivity|].
      split; [|exact A3]. intros l2 <-%(inj Some). by split.
    - exists None, (ch_rx_free d2). split; [|done]. rewrite <-Er. by destruct d2. }
  unfold d4. clearbody d3. subst d3. clear d4.
  split; [|split; [done|exact K]].
  destruct K as (_ & _ & _ & _ & _ & _ & _ & _ & _ & _ & K11 & _).
  apply inv_empty; try done; cbn.
  - by rewrite K11.
  - by destruct (ch_rx_frame d2).
  - by destruct (ch_tx_frame d2).
Qed.

Lemma wp_reset c :
  ch_inv c -> wp (dmesh_peer_reset E) (fun _ c' => ch_inv c' /\ ch_state c' = CLOSED /\ reset_keeps c c') c.
Proof.
  intros I. apply wp_reset_raw; [apply (v_handles I)| |apply (v_tokens I)].
  intros l Hl. by apply (v_tx I).
Qed.

(** ** Allocation *)

Lemma zero_cores_unused : no_handle (Some (repeat zero_handle STREAMS)).
Proof. intros i k (o & Ho & <-)%cores_lookup. cbn in Ho. by apply lookup_repeat in Ho as ->. Qed.

Lemma inv_alloc_handles c :
  ch_inv c -> ch_handles c = None -> ch_inv (c <| ch_handles := Some (repeat zero_handle STREAMS) |>).
Proof.
  intros I Hn. unfold PeerChannelInv.ch_inv, inv_for in *. rewrite Hn in I.
  change (inv_of (peer_local_owner_bit E c) (ch_incarnation c) (ch_state c) None (Some (repeat zero_handle STREAMS))
    (ch_handle_count c) (ch_staging_bytes c) (ch_open_tokens_milli c) (ch_tx c) (ch_tx_free c)
    (ch_inflight_bytes c) (ch_rx c) (ch_rx_free c) (ch_ack_stage c) (ch_rx_frame c) (ch_tx_frame c)
    (ch_conn c) (ch_pair_scoped c) (ch_pair_wire c) (ch_pair_tx_frame c) (ch_pair_rx_payload c)).
  pose proof zero_cores_unused as ZU. pose proof (proj1 (no_handle_count _) ZU) as ZC.
  assert (length (repeat zero_handle STREAMS) = STREAMS) as ZL by apply repeat_length.
  set (hs := repeat zero_handle STREAMS) in *. clearbody hs.
  destruct I. constructor; try done.
  - by intros l <-%(inj Some).
  - rewrite ZC. exact v_count.
  - intros i k Hk U. by rewrite (ZU i k Hk) in U.
  - intros i k Hk U. by rewrite (ZU i k Hk) in U.
  - intros i r Hr Hhd Hs. by destruct (v_owned i r Hr Hhd Hs) as (j & k & Hk & _).
  - intros H. destruct (v_live H) as [[l Hl] _]. done.
Qed.

Lemma inv_alloc_tx c :
  ch_inv c -> ch_tx c = None -> ch_inv (c <| ch_tx := Some (link_tx (repeat zero_txslot SLOTS)) |> <| ch_tx_free := 0 |>).
Proof.
  intros I Hn. unfold PeerChannelInv.ch_inv, inv_for in *. rewrite Hn in I.
  change (inv_of (peer_local_owner_bit E c) (ch_incarnation c) (ch_state c) None (ch_handles c)
    (ch_handle_count c) (ch_staging_bytes c) (ch_open_tokens_milli c) (Some (link_tx (repeat zero_txslot SLOTS))) 0
    (ch_inflight_bytes c) (ch_rx c) (ch_rx_free c) (ch_ack_stage c) (ch_rx_frame c) (ch_tx_frame c)
    (ch_conn c) (ch_pair_scoped c) (ch_pair_wire c) (ch_pair_tx_frame c) (ch_pair_rx_payload c)).
  destruct zero_tx_fresh as [Z1 Z2]. destruct (link_tx_fresh _ Z1 Z2) as (A1 & A2 & A3).
  pose proof (unused_tx _ A3) as A4. clear Z1 Z2. set (tx := link_tx _) in *. clearbody tx.
  destruct I. constructor; try done.
  - by intros l <-%(inj Some).
  - change (ch_inflight_bytes c = gsum w_tx tx). rewrite A4. exact v_inflight.
  - intros i t Ht U. by rewrite (A3 i t Ht) in U.
  - intros H. destruct (v_live H) as (_ & [l Hl] & _). done.
  - intros H. destruct (v_quiet H) as (B1 & B2 & B3 & B4 & B5). by split_and!; try apply B5.
Qed.

Lemma inv_alloc_rx c :
  ch_inv c -> ch_rx c = None -> ch_inv (c <| ch_rx := Some (link_rx (repeat zero_rxslot SLOTS)) |> <| ch_rx_free := 0 |>).
Proof.
  intros I Hn. unfold PeerChannelInv.ch_inv, inv_for in *. rewrite Hn in I.
  change (inv_of (peer_local_owner_bit E c) (ch_incarnation c) (ch_state c) None (ch_handles c)
    (ch_handle_count c) (ch_staging_bytes c) (ch_open_tokens_milli c) (ch_tx c) (ch_tx_free c)
    (ch_inflight_bytes c) (Some (link_rx (repeat zero_rxslot SLOTS))) 0 (ch_ack_stage c) (ch_rx_frame c) (ch_tx_frame c)
    (ch_conn c) (ch_pair_scoped c) (ch_pair_wire c) (ch_pair_tx_frame c) (ch_pair_rx_payload c)).
  destruct zero_rx_fresh as [Z1 Z2]. destruct (link_rx_fresh _ Z1 Z2) as (A1 & A2 & A3).
  pose proof (unused_held _ A3) as A4.
  pose proof (fun wh => unused_of _ wh A3) as A5.
  clear Z1 Z2. set (rx := link_rx _) in *. clearbody rx.
  destruct I. constructor; try done.
  - by intros l <-%(inj Some).
  - intros i r Hr U. by rewrite (A3 i r Hr) in U.
  - change (ch_staging_bytes c = gsum w_held rx + 0). rewrite A4. exact v_staging.
  - intros i k Hk U Hx. change (k_staging k = gsum (w_of (k_wire k)) rx). rewrite A5. by apply (v_hstaging i k).
  - intros i r Hr Hhd. unfold held in Hhd. by rewrite (A3 i r Hr) in Hhd.
  - intros H. destruct (v_live H) as (_ & _ & [l Hl] & _). done.
  - intros H. destruct (v_quiet H) as (B1 & B2 & B3 & B4). by split_and!; try apply B4.
Qed.

Lemma inv_alloc_frame c :
  ch_inv c -> (ch_rx_frame c = None -> ch_inv (c <| ch_rx_frame := Some [] |>)) /\
              (ch_tx_frame c = None -> ch_inv (c <| ch_tx_frame := Some [] |>)).
Proof.
  intros I. split; intros Hn; destruct I; constructor; try done.
  - split; [done|apply v_frames].
  - intros H. destruct (v_live H) as (_ & _ & _ & [x Hx] & _). congruence.
  - intros H. destruct (v_quiet H) as (B1 & B2 & B3 & B4 & B5 & B6 & B7). by split_and!.
  - split; [apply v_frames|done].
  - intros H. destruct (v_live H) as (_ & _ & _ & _ & [x Hx] & _). congruence.
  - intros H. destruct (v_quiet H) as (B1 & B2 & B3 & B4 & B5 & B6 & B7). by split_and!.
Qed.
End reset.
