(* ===== verification/PeerChannelLife.v ===== *)
(** * The life of a channel keeps the invariant

    Whatever the seams answer: symbolic execution of the operations that
    refuse, allocate, authenticate and check a channel, from a channel that
    satisfies [ch_inv]. *)

From S2P Require Import Prelude Cursor PeerIdentity PeerFrame PairWire PairWireProofs PeerState PeerChannel FreeList PeerHoare PeerChannelInv PeerChannelRx PeerChannelTx PeerChannelReset.

Section steps.
  Context {W : Type} (E : peer_env W).
  Local Abbreviation ch_inv := (ch_inv E).

(** ** Rules of the small operations *)

Definition refused_once (r : dmesh_peer_refusal) (c : dmesh_peer_channel) : dmesh_peer_channel :=
  c <| ch_refused ::= alter (fun n => u64 (n + 1)) (Z.to_nat (refusal_code r)) |>.

Lemma wp_refuse r Q c : Q r (refused_once r c) -> wp (peer_refuse E r) Q c.
Proof. intros H. unfold peer_refuse, peer_event. wp_go. destruct (op_event _); by wp_go. Qed.

Lemma wp_now Q c : (forall n, Q n c) -> wp (peer_now E) Q c.
Proof. intros H. unfold peer_now. destruct (op_now_ns _); by wp_go. Qed.

Lemma wp_touch Q c : (forall n, Q tt (c <| ch_last_active_ns := n |>)) -> wp (touch E) Q c.
Proof. intros H. unfold touch. wp_go. apply wp_now. intros n. by wp_go. Qed.

Lemma wp_close conn Q c : Q tt c -> wp (peer_close E conn) Q c.
Proof. intros H. unfold peer_close. destruct (tr_close _); by wp_go. Qed.

Lemma wp_poison i Q c : Q tt (c <| ch_poisoned ::= fun n => u64 (n + 1) |>) -> wp (poison_handle E i) Q c.
Proof. intros H. unfold poison_handle. wp_go. destruct (op_poison _); by wp_go. Qed.

Lemma wp_release_tx i Q c : Q tt c -> wp (release_tx E i) Q c.
Proof. intros H. unfold release_tx. wp_go. destruct (op_release _); by wp_go. Qed.

Lemma wp_pair_local node p Q c : (forall r, Q r c) -> wp (peer_pair_local E node p) Q c.
Proof.
  intros H. unfold peer_pair_local. destruct (_ || _ || _); wp_go; [done|].
  destruct (negb a); wp_go; [done|]. destruct (negb a0); wp_go; [done|].
  destruct (op_local_registration _); wp_go; [|done]. destruct a1 as [found current].
  destruct (_ || _ || _); by wp_go.
Qed.

(** The pair of the channel is completed by the certified one. *)
Lemma wp_pair_live Q c :
  (forall r, r <> OK -> Q r c) -> Q OK c ->
  (forall p, pr_local_uid p = pr_local_uid (ch_pair c) -> pr_remote_uid p = pr_remote_uid (ch_pair c) ->
     Q OK (c <| ch_pair := p |>)) -> wp (peer_pair_live E) Q c.
Proof.
  intros HN HO HP. unfold peer_pair_live. wp_go. destruct (negb (ch_pair_scoped c)); wp_go; [done|].
  apply wp_pair_local. intros r. destruct (ok r) eqn:Er; cbn [negb]; wp_go; [|apply HN; by intros ->].
  destruct (op_node_binding _); wp_go; [|by apply HN]. destruct (_ ≫= _) as [key|]; wp_go; [|by apply HN].
  destruct (negb _); wp_go; [by apply HN|].
  destruct (tr_pair_ready (pe_transport E)) as [ready|], (tr_pair_admit (pe_transport E)), (ch_conn c); wp_go; try (by apply HN).
  destruct a0 as [status certified]. destruct (negb _); wp_go; [by apply HN|].
  destruct (negb _); wp_go; [by apply HN|]. destruct (negb _); wp_go; [by apply HN|]. by apply HP.
Qed.

(** ** Lifetime *)

Lemma wp_transport_failed c :
  ch_inv c -> wp (dmesh_peer_transport_failed E) (fun _ c' => ch_inv c' /\ (c' = c \/ ch_state c' = CLOSED)) c.
Proof.
  intros I. unfold dmesh_peer_transport_failed. wp_go. destruct (ch_in_use c) eqn:U; cbn [negb]; wp_go; [|auto].
  apply wp_refuse. eapply wp_mono; [by apply wp_reset|]. intros [] d (H1 & H2 & _). auto.
Qed.

Lemma wp_alloc_one present install (Q : bool -> dmesh_peer_channel -> Prop) c :
  (present c = true -> Q true c) -> (present c = false -> Q true (install c)) -> Q false c ->
  wp (alloc_one E present install) Q c.
Proof.
  intros H1 H2 H3. unfold alloc_one. wp_go. destruct (present c); wp_go; [by apply H1|].
  destruct a; wp_go; [by apply H2|done].
Qed.

Lemma is_there_false {A} (o : option A) : is_there o = false -> o = None.
Proof. by destruct o. Qed.
Lemma is_there_true {A} (o : option A) : is_there o = true -> is_Some o.
Proof. by destruct o; eauto. Qed.

(** What allocation keeps. *)
Definition alloc_keeps (c c' : dmesh_peer_channel) : Prop :=
  ch_node_name c' = ch_node_name c /\ ch_pair c' = ch_pair c /\ ch_pair_scoped c' = ch_pair_scoped c /\
  ch_state c' = ch_state c /\ ch_conn c' = ch_conn c /\ ch_incarnation c' = ch_incarnation c /\
  ch_pair_wire c' = ch_pair_wire c /\ ch_in_use c' = ch_in_use c.
Definition tables_there (c : dmesh_peer_channel) : Prop :=
  is_Some (ch_handles c) /\ is_Some (ch_tx c) /\ is_Some (ch_rx c) /\ is_Some (ch_rx_frame c) /\ is_Some (ch_tx_frame c).

Lemma wp_alloc_step present install m (Q : bool -> dmesh_peer_channel -> Prop) c :
  (forall d, present c = true /\ d = c \/ present c = false /\ d = install c -> wp m Q d) -> Q false c ->
  wp (a ← alloc_one E present install; if negb a then mret false else m) Q c.
Proof.
  intros Hm Hf. wp_step. apply wp_alloc_one; cbn [negb]; [intros H; apply Hm; by left| |by wp_go].
  intros H. apply Hm. by right.
Qed.

Lemma wp_alloc_tables c :
  ch_inv c ->
  wp (peer_channel_alloc_tables E) (fun b c' => ch_inv c' /\ alloc_keeps c c' /\ (b = true -> tables_there c')) c.
Proof.
  intros I. unfold peer_channel_alloc_tables. assert (alloc_keeps c c) as K by (by unfold alloc_keeps).
  apply wp_alloc_step; [|done]. intros d1 H1.
  assert (ch_inv d1 /\ alloc_keeps c d1 /\ is_Some (ch_handles d1)) as (I1 & K1 & T1).
  { destruct H1 as [[H ->]|[H ->]]; [by apply is_there_true in H|]. apply is_there_false in H.
    split; [by apply inv_alloc_handles|by split]. }
  clear H1. apply wp_alloc_step; [|done]. intros d2 H2.
  assert (ch_inv d2 /\ alloc_keeps c d2 /\ is_Some (ch_handles d2) /\ is_Some (ch_tx d2)) as (I2 & K2 & T2).
  { destruct H2 as [[H ->]|[H ->]]; [by apply is_there_true in H|]. apply is_there_false in H.
    split; [by apply inv_alloc_tx|by split]. }
  clear H2. apply wp_alloc_step; [|done]. intros d3 H3.
  assert (ch_inv d3 /\ alloc_keeps c d3 /\ is_Some (ch_handles d3) /\ is_Some (ch_tx d3) /\ is_Some (ch_rx d3)) as (I3 & K3 & T3).
  { destruct H3 as [[H ->]|[H ->]]; [apply is_there_true in H; by destruct T2|]. apply is_there_false in H.
    split; [by apply inv_alloc_rx|]. split; [done|]. by destruct T2. }
  clear H3. apply wp_alloc_step; [|done]. intros d4 H4.
  assert (ch_inv d4 /\ alloc_keeps c d4 /\ is_Some (ch_handles d4) /\ is_Some (ch_tx d4) /\ is_Some (ch_rx d4) /\
    is_Some (ch_rx_frame d4)) as (I4 & K4 & T4).
  { destruct T3 as (A1 & A2 & A3). destruct H4 as [[H ->]|[H ->]]; [by apply is_there_true in H|]. apply is_there_false in H.
    split; [by apply inv_alloc_frame|by split]. }
  clear H4. destruct T4 as (A1 & A2 & A3 & A4). apply wp_alloc_one; [intros H%is_there_true|intros H%is_there_false|done].
  - by split_and!.
  - split; [by apply inv_alloc_frame|]. split; [done|]. by unfold tables_there.
Qed.

Lemma inv_wire c wire :
  ch_inv c -> ch_state c = AUTHENTICATING -> ch_inv (c <| ch_pair_wire := wire |>).
Proof. intros I Hs. destruct I. constructor; try done; cbn; rewrite Hs; done. Qed.
Lemma inv_pair_tx c : ch_inv c -> ch_inv (c <| ch_pair_tx_frame := true |>).
Proof. intros I. destruct I. constructor; try done. cbn. intros H1 H2. by destruct (v_open H1 H2) as (? & ? & ?). Qed.
Lemma inv_pair_rx c : ch_inv c -> ch_inv (c <| ch_pair_rx_payload := true |>).
Proof. intros I. destruct I. constructor; try done. cbn. intros H1 H2. by destruct (v_open H1 H2) as (? & ? & ?). Qed.

Lemma wp_alloc_pair c :
  ch_inv c -> ch_state c = AUTHENTICATING ->
  wp (alloc_pair E) (fun b c' => ch_inv c' /\ ch_state c' = AUTHENTICATING /\ reset_keeps c (c' <| ch_pair_tx_frame := ch_pair_tx_frame c |>
        <| ch_pair_rx_payload := ch_pair_rx_payload c |>) /\
    (b = true -> is_Some (ch_pair_wire c') /\ ch_pair_tx_frame c' = true /\ ch_pair_rx_payload c' = true)) c.
Proof.
  intros I Hs. unfold alloc_pair. wp_go.
  assert (forall wire, wp (
    tx ← alloc_one E ch_pair_tx_frame (fun c => c <| ch_pair_tx_frame := true |>);
    rx ← alloc_one E ch_pair_rx_payload (fun c => c <| ch_pair_rx_payload := true |>);
    mret (is_there wire && tx && rx)) (fun b c' => ch_inv c' /\ ch_state c' = AUTHENTICATING /\
      reset_keeps c (c' <| ch_pair_tx_frame := ch_pair_tx_frame c |> <| ch_pair_rx_payload := ch_pair_rx_payload c |>) /\
    (b = true -> is_Some (ch_pair_wire c') /\ ch_pair_tx_frame c' = true /\ ch_pair_rx_payload c' = true)) (c <| ch_pair_wire := wire |>)) as HW.
  2:{ destruct (_ || _ || _); repeat (first [apply HW | wp_step; cbv beta]). }
  intros wire. wp_step. pose proof (inv_wire c wire I Hs) as I1. set (d := c <| ch_pair_wire := wire |>) in *.
  apply wp_alloc_one; intros; wp_go; apply wp_alloc_one; intros; wp_go;
    rewrite ?andb_true_r, ?andb_false_r; (split; [auto using inv_pair_tx, inv_pair_rx|]); (split; [done|]); (split; [done|]);
    try done; intros Hw%is_there_true; by split_and!.
Qed.

Lemma inv_to_open c :
  ch_inv c -> ch_state c = AUTHENTICATING ->
  (ch_pair_scoped c = true -> is_Some (ch_pair_wire c) /\ ch_pair_tx_frame c = true /\ ch_pair_rx_payload c = true) ->
  ch_inv (c <| ch_state := OPEN |>).
Proof. intros I Hs Hp. destruct I. constructor; try done. intros _. apply v_live. by rewrite Hs. Qed.
(** Refuse, reset, return: what every fatal refusal does. *)
Lemma wp_refuse_reset {A} r (a : A) c :
  ch_inv c ->
  wp (peer_refuse E r;; dmesh_peer_reset E;; mret a) (fun a' c' => a' = a /\ ch_inv c' /\ ch_state c' = CLOSED /\ reset_keeps c c') c.
Proof.
  intros I. wp_step. apply wp_refuse. wp_step.
  eapply wp_mono; [by apply wp_reset|]. intros [] d (H1 & H2 & H3). by wp_step.
Qed.

Lemma wp_authenticated key c :
  ch_inv c ->
  wp (dmesh_peer_authenticated E key) (fun r c' => ch_inv c' /\
    (r = OK -> ch_state c = AUTHENTICATING /\ ch_state c' = OPEN /\ bytes_eq (ch_bound_key c) key = true /\
       ch_node_name c' = ch_node_name c /\ ch_incarnation c' = ch_incarnation c) /\
    (r <> OK -> ch_state c = AUTHENTICATING -> ch_state c' = CLOSED) /\
    (ch_state c <> AUTHENTICATING -> c' = refused_once REFUSE_STATE c)) c.
Proof.
  intros I. unfold dmesh_peer_authenticated. wp_go.
  destruct (is_authenticating (ch_state c)) eqn:Hs; cbn [negb].
  2:{ apply wp_refuse. split; [done|]. split; [done|]. split; [|done]. intros _ H. by rewrite H in Hs. }
  assert (ch_state c = AUTHENTICATING) as HA by (by destruct (ch_state c)).
  destruct (bytes_eq (ch_bound_key c) key) eqn:Hk; cbn [negb].
  2:{ eapply wp_mono; [by apply wp_refuse_reset|]. by intros r d (-> & H1 & H2 & _). }
  assert (forall d r, (d = c \/ exists p, d = c <| ch_pair := p |>) ->
    wp (if negb (ok r) then peer_refuse E r;; dmesh_peer_reset E;; mret r
        else c0 ← channel_of; ready ← (if ch_pair_scoped c0 then alloc_pair E else mret true);
          if negb ready then dmesh_peer_reset E;; peer_refuse E REFUSE_STATE
          else channel_set (fun c => c <| ch_state := OPEN |>);; touch E;;
               channel_set (fun c => c <| ch_opened ::= fun n => u64 (n + 1) |>);; mret OK)
      (fun r c' => ch_inv c' /\
        (r = OK -> ch_state c = AUTHENTICATING /\ ch_state c' = OPEN /\ true = true /\
          ch_node_name c' = ch_node_name c /\ ch_incarnation c' = ch_incarnation c) /\
        (r <> OK -> ch_state c = AUTHENTICATING -> ch_state c' = CLOSED) /\
        (ch_state c <> AUTHENTICATING -> c' = refused_once REFUSE_STATE c)) d) as HX.
  2:{ wp_step. apply wp_pair_live; [intros r _|..]; [|intros|intros p _ _]; apply HX; eauto. }
  intros d r Hd.
  assert (ch_inv d /\ ch_state d = AUTHENTICATING /\ ch_node_name d = ch_node_name c /\ ch_incarnation d = ch_incarnation c)
    as (Id & Sd & Nd & Cd) by (destruct Hd as [->|[p ->]]; by split_and!). clear Hd.
  destruct (ok r) eqn:Er; cbn [negb].
  2:{ eapply wp_mono; [by apply wp_refuse_reset|]. intros r' e (-> & H1 & H2 & _). split_and!; try done.
      intros ->. done. }
  wp_step. wp_step. wp_step.
  assert (wp (if ch_pair_scoped d then alloc_pair E else mret true) (fun b e => ch_inv e /\ ch_state e = AUTHENTICATING /\
    ch_node_name e = ch_node_name c /\ ch_incarnation e = ch_incarnation c /\ ch_pair_scoped e = ch_pair_scoped d /\
    (b = true -> ch_pair_scoped e = true -> is_Some (ch_pair_wire e) /\ ch_pair_tx_frame e = true /\ ch_pair_rx_payload e = true)) d) as HR.
  { destruct (ch_pair_scoped d) eqn:Hsc; [|wp_step; split_and!; try done; congruence].
    eapply wp_mono; [by apply wp_alloc_pair|]. intros b e (H1 & H2 & H3 & H4).
    destruct H3 as (K1 & _ & K3 & _ & _ & _ & _ & _ & K9 & _). cbn in K1, K3, K9.
    rewrite K1, K3, K9. split_and!; try done. intros Hb _. by apply H4. }
  eapply wp_mono; [exact HR|]. clear HR. intros b e (H1 & H2 & H3 & H4 & H5 & H6).
  destruct b; cbn [negb].
  - wp_go. apply wp_touch. intros n. wp_go. split; [|by split_and!].
    apply (inv_to_open e H1 H2 (H6 eq_refl)).
  - wp_step. eapply wp_mono; [by apply wp_reset|]. intros [] f (J1 & J2 & _). apply wp_refuse. by split_and!.
Qed.

(** ** Liveness *)

Lemma wp_live inc c :
  ch_inv c ->
  wp (peer_live E inc) (fun r c' => ch_inv c' /\
    (r = OK -> ch_state c = OPEN /\ ch_state c' = OPEN /\ inc = ch_incarnation c /\
       (c' = c \/ exists p, pr_local_uid p = pr_local_uid (ch_pair c) /\ pr_remote_uid p = pr_remote_uid (ch_pair c) /\
          c' = c <| ch_pair := p |>)) /\
    (ch_state c = OPEN -> ch_state c' = OPEN \/ ch_state c' = CLOSED) /\
    (ch_state c <> OPEN -> r = REFUSE_STATE /\ c' = refused_once REFUSE_STATE c) /\
    (ch_state c = OPEN -> inc <> ch_incarnation c -> r = REFUSE_INCARNATION /\ c' = refused_once REFUSE_INCARNATION c)) c.
Proof.
  intros I. unfold peer_live. wp_go. destruct (is_open (ch_state c)) eqn:Hs; cbn [negb].
  2:{ apply wp_refuse. split_and!; try done; intros H; by rewrite H in Hs. }
  assert (ch_state c = OPEN) as HO by (by destruct (ch_state c)).
  destruct (Z.eqb_spec inc (ch_incarnation c)) as [->|Hne]; cbn [negb].
  2:{ apply wp_refuse. split_and!; try done; tauto. }
  wp_step. apply wp_pair_live.
  - intros r Hr. destruct (ok r) eqn:Er; [by destruct r|]. cbn [negb].
    eapply wp_mono; [by apply wp_refuse_reset|]. intros r' d (-> & H1 & H2 & _). by split_and!; auto.
  - cbn [ok negb]. wp_step. split_and!; auto; done.
  - intros p Hl Hr. cbn [ok negb]. wp_step. split; [done|]. split; [|by split_and!; auto]. intros _.
    split; [done|]. split; [done|]. split; [done|]. right. by exists p.
Qed.

Lemma wp_open_allowed c :
  ch_inv c -> wp (peer_open_allowed E) (fun b c' => ch_inv c' /\ ch_state c' = ch_state c /\ reset_keeps c
    (c' <| ch_open_tokens_milli := ch_open_tokens_milli c |> <| ch_open_refill_ns := ch_open_refill_ns c |>) /\
    ch_handles c' = ch_handles c /\ ch_handle_count c' = ch_handle_count c) c.
Proof.
  intros I. unfold peer_open_allowed. wp_step. apply wp_now. intros now. wp_go.
  assert (forall d, (d = c \/ exists y x, d = c <| ch_open_refill_ns := y |> <| ch_open_tokens_milli := x |>) ->
    ch_state d = ch_state c /\ reset_keeps c
    (d <| ch_open_tokens_milli := ch_open_tokens_milli c |> <| ch_open_refill_ns := ch_open_refill_ns c |>) /\
    ch_handles d = ch_handles c /\ ch_handle_count d = ch_handle_count c) as HX.
  { intros d [->|(y & x & ->)]; by split_and!. }
  pose proof (inv_refill E c now I) as I1.
  assert (refill now c = c \/ exists y x, refill now c = c <| ch_open_refill_ns := y |> <| ch_open_tokens_milli := x |>) as HR.
  { unfold refill. destruct (_ =? 0); [by left|]. right. by eexists _, _. }
  destruct (ch_open_tokens_milli (refill now c) <? 1000) eqn:Ht; wp_go.
  - split; [done|]. by apply HX.
  - apply Z.ltb_ge in Ht. pose proof (v_tokens I1) as HT. split.
    + pose proof (inv_tokens E (refill now c) (ch_open_tokens_milli (refill now c) - 1000) (ch_open_refill_ns (refill now c)) I1 ltac:(lia)) as H.
      by destruct (refill now c).
    + destruct HR as [->|(y & x & ->)]; [apply HX|apply HX]; right; [|by eexists _, _].
      eexists (ch_open_refill_ns c), _. by destruct c.
Qed.
End steps.
