(* ===== verification/PeerChannelStream.v ===== *)
(** * Stream operations keep the invariant

    Opening, data, completions, closing, acknowledgements and sends, each from
    a channel that satisfies [ch_inv], whatever the seams answer. *)

From S2P Require Import Prelude Cursor PeerIdentity PeerFrame PairWire PairWireProofs PeerState PeerChannel FreeList PeerHoare PeerChannelInv PeerChannelRx PeerChannelTx PeerChannelReset PeerChannelLife.

Section streams.
  Context {W : Type} (E : peer_env W).
  Local Abbreviation ch_inv := (ch_inv E).

(** ** Opening *)

(** An unused handle is rewritten, possibly into a live one without staging. *)
Lemma inv_handle_fill c i o o' :
  ch_inv c -> handles_of c !! i = Some o -> hd_in_use o = false ->
  (hd_in_use o' = true -> ch_state c = OPEN /\ hd_incarnation o' = ch_incarnation c /\
     hd_wire_handle o' = Z.lor (Z.of_nat i + 1) (peer_local_owner_bit E c) /\ hd_staging_bytes o' = 0) ->
  ch_inv ((set_handle i o' c) <| ch_handle_count := ch_handle_count c + w_use (core o') |>).
Proof.
  intros I Ho Uo Ho'. pose proof (core_lookup c i o Ho) as Hk.
  assert (w_use (core o) = 0) as U0 by (unfold w_use; cbn; by rewrite Uo).
  assert (forall j k, <[i := core o']> (cores (ch_handles c)) !! j = Some k -> k_use k = true ->
    j = i /\ k = core o' /\ hd_in_use o' = true \/ cores (ch_handles c) !! j = Some k) as HL.
  { intros j k. destruct (decide (i = j)) as [->|Hne].
    - rewrite list_lookup_insert_eq by (by eapply lookup_lt_Some). intros [= <-] H. by left.
    - rewrite list_lookup_insert_ne by done. by right. }
  assert (forall j r, rx_of c !! j = Some r -> held r = true -> rs_source_side r = false ->
    exists m k, m <> i /\ cores (ch_handles c) !! m = Some k /\ k_use k = true /\ k_wire k = rs_handle r) as HO.
  { intros j r Hr Hh Hs. destruct (v_owned I j Hr Hh Hs) as (m & k & Hm & Uk & Wk). exists m, k.
    split; [|done]. intros ->. rewrite Hk in Hm. injection Hm as <-. cbn in Uk. congruence. }
  pose proof I as I0. destruct I.
  change (inv_of (peer_local_owner_bit E c) (ch_incarnation c) (ch_state c) None (<[i := o']> <$> ch_handles c)
    (ch_handle_count c + w_use (core o')) (ch_staging_bytes c) (ch_open_tokens_milli c) (ch_tx c) (ch_tx_free c)
    (ch_inflight_bytes c) (ch_rx c) (ch_rx_free c) (ch_ack_stage c) (ch_rx_frame c) (ch_tx_frame c)
    (ch_conn c) (ch_pair_scoped c) (ch_pair_wire c) (ch_pair_tx_frame c) (ch_pair_rx_payload c)).
  constructor; rewrite ?cores_set; try done.
  - intros l Hl. cbn in Hl. destruct (ch_handles c) as [l0|]; [|done]. cbn in Hl. injection Hl as <-.
    rewrite length_insert. by apply v_handles.
  - rewrite (gsum_insert _ _ _ _ _ Hk), U0, v_count. lia.
  - intros j k Hj U. destruct (HL j k Hj U) as [(-> & -> & U')|Hj']; [|by apply v_wire].
    destruct (Ho' U') as (_ & H1 & H2 & _). by split.
  - intros j k Hj U _. destruct (HL j k Hj U) as [(-> & -> & U')|Hj'];
      [|by apply (v_hstaging j k Hj' U)].
    destruct (Ho' U') as (_ & _ & Hw & Hz). cbn. rewrite Hz. symmetry. apply gsum_zero. intros m r Hr.
    unfold w_of, of_handle. destruct (held r) eqn:Hh; [|done]. destruct (rs_source_side r) eqn:Hs; [done|]. cbn.
    destruct (Z.eqb_spec (rs_handle r) (hd_wire_handle o')) as [Heq|]; [|done]. exfalso.
    destruct (HO m r Hr Hh Hs) as (n & k & Hn & Hnk & Uk & Wk).
    destruct (v_wire n k Hnk Uk) as [_ Hwk]. rewrite Wk, Heq, Hw in Hwk.
    pose proof (wire_index _ _ (core_range E None c i _ I0 Hk) (owner_bit_cases E c)) as E1.
    pose proof (wire_index _ _ (core_range E None c n _ I0 Hnk) (owner_bit_cases E c)) as E2. rewrite <-Hwk in E2. lia.
  - intros j r Hr Hh Hs. destruct (HO j r Hr Hh Hs) as (m & k & Hm & Hmk & Uk & Wk). exists m, k.
    rewrite list_lookup_insert_ne by done. done.
  - intros H. destruct (v_live H) as (A1 & A2). split; [by apply some_fmap|done].
  - intros H. destruct (v_quiet H) as (A1 & A2). split; [|done].
    destruct (hd_in_use o') eqn:U'; [by destruct (Ho' eq_refl) as [HS _]|]. rewrite A1. unfold w_use. cbn. by rewrite U'.
Qed.

Lemma handle_at_in c i o : ch_handles c = Some o -> (i < length o)%nat -> handles_of c !! i = Some (handle_at c i).
Proof.
  intros Ho Hi. unfold handle_at, handles_of. rewrite Ho. cbn.
  destruct (lookup_lt_is_Some_2 o i Hi) as [x Hx]. by rewrite Hx.
Qed.

Lemma handle_at_set c i o l :
  ch_handles c = Some l -> (i < length l)%nat -> handle_at (set_handle i o c) i = o.
Proof.
  intros Hl Hi. unfold handle_at, handles_of. rewrite (ch_handles_set i o c l Hl). cbn.
  by rewrite list_lookup_insert_eq.
Qed.

Lemma set_handle_twice c i o o' : set_handle i o' (set_handle i o c) = set_handle i o' c.
Proof.
  unfold set_handle. destruct c. cbn. f_equal. match goal with |- _ <$> (_ <$> ?x) = _ => destruct x end; cbn; [|done].
  by rewrite list_insert_insert_eq.
Qed.

Lemma handles_there c : ch_inv c -> ch_state c = OPEN -> exists l, ch_handles c = Some l /\ length l = STREAMS.
Proof.
  intros I HO. destruct (v_live I) as [[l Hl] _]; [by rewrite HO|]. exists l. split; [done|]. by apply (v_handles I).
Qed.

(** The fresh handle of a stream. *)
Definition opened_handle (c : dmesh_peer_channel) (i : nat) (open : dmesh_peer_stream_open) (o : dmesh_peer_handle) : Prop :=
  hd_in_use o = true /\ hd_incarnation o = ch_incarnation c /\
  hd_wire_handle o = Z.lor (Z.of_nat i + 1) (peer_local_owner_bit E c) /\ hd_staging_bytes o = 0 /\
  hd_dst_port o = so_dst_port open /\ hd_up_port o <> 0 /\ hd_src_pod_uid o = take 63 (so_src_pod_uid open) ++ [x00] /\
  hd_rx_fin o = false /\ hd_tx_fin o = false /\ hd_rx_seq_valid o = false.

(** What opening at slot [i] does to the channel. *)
Definition opened_at (open : dmesh_peer_stream_open) (i : nat) (c : dmesh_peer_channel)
    (r : dmesh_peer_refusal * Z) (c' : dmesh_peer_channel) : Prop :=
  (i < STREAMS)%nat /\ hd_in_use (handle_at c i) = false /\
  (r.1 = OK -> exists o, opened_handle c i open o /\ r.2 = hd_wire_handle o /\
     ch_handles c' = fmap <[i := o]> (ch_handles c) /\ ch_handle_count c' = ch_handle_count c + 1 /\
     ch_state c' = OPEN /\ ch_incarnation c' = ch_incarnation c).

Lemma count_range c : ch_inv c -> 0 <= ch_handle_count c <= 4096.
Proof.
  intros I. rewrite (v_count I). pose proof STREAMS_eq.
  assert (Z.of_nat (length (cores (ch_handles c))) <= 4096) as Hl.
  { unfold cores. rewrite length_fmap. destruct (ch_handles c) as [l|] eqn:Hh; cbn; [|lia].
    pose proof (v_handles I Hh). lia. }
  pose proof (gsum_bounds w_use (cores (ch_handles c)) 1) as HB.
  destruct HB; [|lia]. intros k. unfold w_use. destruct (k_use k); lia.
Qed.

Lemma wp_open_at open dst gen i c :
  ch_inv c -> ch_state c = OPEN -> (i < STREAMS)%nat ->
  wp (open_at E open dst gen i) (fun r c' => match r with
    | None => c' = c
    | Some r => ch_inv c' /\ opened_at open i c r c' /\ ch_state c' = OPEN /\ (r.1 <> OK -> r.2 = 0)
    end) c.
Proof.
  intros I HO Hi. unfold open_at. wp_go. destruct (hd_in_use (handle_at c i)) eqn:Ui; wp_go; [done|].
  destruct (handles_there c I HO) as (l & Hl & Hlen). assert (i < length l)%nat as Hil by lia.
  pose proof (handle_at_in c i l Hl Hil) as Hat.
  set (o1 := zero_handle <| hd_incarnation := _ |> <| hd_dst_pod_idx := _ |> <| hd_dst_pod_generation := _ |>
    <| hd_dst_port := _ |> <| hd_wire_handle := _ |>).
  assert (forall up, wp (if up =? 0 then channel_set (set_handle i zero_handle);; r ← peer_refuse E REFUSE_NO_POD; mret (Some (r, 0))
    else channel_set (fun c => (set_handle i ((handle_at c i) <| hd_up_port := up |>
        <| hd_src_pod_uid := take 63 (so_src_pod_uid open) ++ [x00] |> <| hd_in_use := true |>) c)
        <| ch_handle_count ::= fun n => u32 (n + 1) |>);;
      touch E;; mret (Some (OK, hd_wire_handle o1)))
    (fun r c' => match r with
    | None => c' = c
    | Some r => ch_inv c' /\ opened_at open i c r c' /\ ch_state c' = OPEN /\ (r.1 <> OK -> r.2 = 0)
    end) (set_handle i o1 c)) as HX.
  2:{ destruct (op_destination_opened _); [|destruct (op_upstream_for _)]; wp_go; apply HX. }
  intros up. destruct (Z.eqb_spec up 0) as [->|Hup]; wp_go.
  - rewrite set_handle_twice. apply wp_refuse. wp_go. split; [|by split_and!].
    pose proof (inv_handle_fill c i _ zero_handle I Hat Ui ltac:(done)) as H. cbn [w_use core k_use] in H.
    change (w_use (core zero_handle)) with 0 in H. rewrite Z.add_0_r in H. exact H.
  - apply wp_touch. intros t. wp_go. rewrite (handle_at_set c i o1 l Hl Hil), set_handle_twice.
    set (o2 := o1 <| hd_up_port := up |> <| hd_src_pod_uid := _ |> <| hd_in_use := true |>).
    assert (opened_handle c i open o2) as Hop by (by unfold opened_handle).
    pose proof (inv_handle_fill c i _ o2 I Hat Ui ltac:(by intros _)) as H.
    change (w_use (core o2)) with 1 in H. pose proof (count_range c I).
    assert (u32 (ch_handle_count c + 1) = ch_handle_count c + 1) as Hc by (apply wrap_small; unfold in_width; lia).
    split; [|split; [|done]].
    + change (inv_for E None ((set_handle i o2 c) <| ch_handle_count := u32 (ch_handle_count c + 1) |>)).
      rewrite Hc. exact H.
    + split; [done|]. split; [done|]. intros _. exists o2. split_and!; done.
Qed.

(** What the admission of a stream required of the request and of the answers. *)
Definition admitted (c : dmesh_peer_channel) (open : dmesh_peer_stream_open) : Prop :=
  open_well_formed open = true /\ ch_handle_count c < DMESH_PEER_STREAMS_MAX /\
  (exists w, (op_pod_on_node (pe_ops E) w (so_src_pod_uid open) (ch_node_name c)).1 = true) /\
  (exists w, 0 <= (op_local_pod (pe_ops E) w (so_dst_pod_uid open)).1.1) /\
  (ch_pair_scoped c = true -> str_eq (so_src_pod_uid open) (pr_remote_uid (ch_pair c)) = true /\
     str_eq (so_dst_pod_uid open) (pr_local_uid (ch_pair c)) = true).

Lemma wp_stream_open inc open c :
  ch_inv c ->
  wp (dmesh_peer_stream_open_op E inc open) (fun r c' => ch_inv c' /\ (r.1 <> OK -> r.2 = 0) /\
    (ch_state c' = AUTHENTICATING -> ch_state c = AUTHENTICATING) /\
    (r.1 = OK -> ch_state c = OPEN /\ inc = ch_incarnation c /\ admitted c open /\ exists i c0,
       ch_inv c0 /\ ch_state c0 = OPEN /\ ch_handles c0 = ch_handles c /\ ch_handle_count c0 = ch_handle_count c /\
       ch_incarnation c0 = ch_incarnation c /\ ch_node_name c0 = ch_node_name c /\
       ch_handle_count c < DMESH_PEER_STREAMS_MAX /\ opened_at open i c0 r c')) c.
Proof.
  intros I. unfold dmesh_peer_stream_open_op. wp_step.
  eapply wp_mono; [by apply wp_live|]. intros r d (I1 & Hok & HS & HN & _).
  assert (ch_state d = AUTHENTICATING -> ch_state c = AUTHENTICATING) as HA.
  { intros Hd. destruct (decide (ch_state c = OPEN)) as [Ho|Ho]; [destruct (HS Ho); congruence|].
    destruct (HN Ho) as [_ ->]. exact Hd. }
  destruct (ok r) eqn:Er; cbn [negb].
  2:{ wp_step. split_and!; try done. cbn. by intros ->. }
  assert (r = OK) as -> by (by destruct r). destruct (Hok eq_refl) as (Hopen & Hod & Hinc & Hd). clear Hok HS HN.
  assert (ch_handles d = ch_handles c /\ ch_handle_count d = ch_handle_count c /\ ch_incarnation d = ch_incarnation c /\
    ch_node_name d = ch_node_name c /\ ch_pair_scoped d = ch_pair_scoped c /\
    pr_local_uid (ch_pair d) = pr_local_uid (ch_pair c) /\ pr_remote_uid (ch_pair d) = pr_remote_uid (ch_pair c)) as Hkeep
    by (destruct Hd as [->|(p & Hlu & Hru & ->)]; by split_and!). clear Hd.
  destruct (open_well_formed open) eqn:Hwf; cbn [negb]; wp_step; [|apply wp_refuse; by wp_go].
  eapply wp_mono; [by apply wp_open_allowed|]. intros allowed e (I2 & S2 & K2 & H2 & C2).
  assert (ch_state e = OPEN) as HOe by congruence.
  assert (ch_state e = AUTHENTICATING -> ch_state c = AUTHENTICATING) as HA2 by congruence.
  assert (ch_handles e = ch_handles c /\ ch_handle_count e = ch_handle_count c /\ ch_incarnation e = ch_incarnation c /\
    ch_node_name e = ch_node_name c /\ ch_pair_scoped e = ch_pair_scoped c /\
    pr_local_uid (ch_pair e) = pr_local_uid (ch_pair c) /\ pr_remote_uid (ch_pair e) = pr_remote_uid (ch_pair c))
    as (K3 & K4 & K5 & K6 & K7 & K8 & K9).
  { destruct K2 as (A1 & A2 & A3 & _ & _ & _ & _ & _ & A9 & _). cbn in A1, A2, A3, A9.
    destruct Hkeep as (? & ? & ? & ? & ? & ? & ?). split_and!; congruence. }
  clear K2 Hkeep.
  destruct allowed; cbn [negb]; wp_step; [|apply wp_refuse; by wp_go]. wp_go.
  wp_if; [wp_step; apply wp_refuse; by wp_go|]. rename Heqb into Hpair.
  destruct (Z.leb_spec DMESH_PEER_STREAMS_MAX (ch_handle_count e)) as [Hc|Hc]; [wp_step; apply wp_refuse; by wp_go|].
  wp_step. apply wp_ask_world. intros w1. destruct (op_pod_on_node _ w1 _ _).1 eqn:Hpod; cbn [negb]; [|wp_step; apply wp_refuse; by wp_go].
  wp_step. apply wp_ask_world. intros w2. destruct (op_local_pod _ w2 _).1 as [dst gen] eqn:Hdst.
  destruct (Z.ltb_spec dst 0) as [|Hdst0]; [wp_step; apply wp_refuse; by wp_go|]. wp_step.
  assert (admitted c open) as Hadm.
  { rewrite K4 in Hc. rewrite K6 in Hpod. rewrite K7, K8, K9 in Hpair.
    split_and!; [done|done|by exists w1|exists w2; by rewrite Hdst|]. intros Hsc. rewrite Hsc in Hpair. cbn [andb] in Hpair.
    rewrite !orb_false_iff, !negb_false_iff in Hpair. by destruct Hpair as [[? ?] _]. }
  apply (wp_for_until (fun _ d => d = e)); [done| |].
  - intros i d' Hi ->. eapply wp_mono; [apply wp_open_at; [done|done|lia]|]. intros [q|] f; [|done].
    intros (F1 & F2 & F3 & F4). wp_go. split_and!; try done; [congruence|].
    intros Hq. split; [done|]. split; [done|]. split; [done|]. exists i, e. rewrite K4 in Hc. by split_and!.
  - intros d' ->. wp_step. apply wp_refuse. by wp_go.
Qed.
End streams.

(** ** The ordered writer and the acknowledgement stage keep the invariant *)

Section send.
  Context {W : Type} (E : peer_env W).
  Local Abbreviation ch_inv := (ch_inv E).

(** ** Frames *)

Lemma length_frame_build cap type inc handle payload f :
  dmesh_peer_frame_build cap type inc handle payload = Some f -> Z.of_nat (length f) <= cap.
Proof.
  unfold dmesh_peer_frame_build. destruct (_ || _ || _ || _ || _) eqn:Eb; [done|]. intros <-%(inj Some).
  unfold HEADER_LEN in Eb. bool_facts. rewrite length_app, length_header_image. lia.
Qed.

Lemma inv_wire_some c w w' :
  ch_inv c -> ch_pair_wire c = Some w -> ch_inv (c <| ch_pair_wire := Some w' |>).
Proof.
  intros I Hw. destruct I. constructor; try done.
  - intros H1 H2. destruct (v_open H1 H2) as (_ & A2). cbn. split; [by eexists|done].
  - intros H. destruct (v_closed H) as [_ A2]. congruence.
Qed.

(** The wire state moved on. *)
Definition wired (c c' : dmesh_peer_channel) : Prop :=
  c' = c \/ exists w w', ch_pair_wire c = Some w /\ c' = c <| ch_pair_wire := Some w' |>.
Lemma inv_wired c c' : ch_inv c -> wired c c' -> ch_inv c'.
Proof. intros I [->|(w & w' & Hw & ->)]; [done|]. by eapply inv_wire_some. Qed.

Lemma wp_encode_frame built c :
  (forall f, built = Some f -> Z.of_nat (length f) <= FRAME_CAP) ->
  wp (W := W) (peer_encode_frame built) (fun e c' => wired c c' /\ (forall f, e = Some f -> Z.of_nat (length f) <= FRAME_CAP)) c.
Proof.
  intros Hb. unfold peer_encode_frame. wp_go. destruct built as [f|]; wp_go; [|by split; [left|]].
  destruct (negb (ch_pair_scoped c)); wp_go; [by split; [left|]|].
  destruct (ch_pair_wire c) as [w|] eqn:Hw; wp_go; [|by split; [left|]].
  destruct (negb (ch_pair_tx_frame c)); wp_go; [by split; [left|]|].
  destruct (peer_pair_wire_encode w f FRAME_CAP) as [enc w'] eqn:Ee. wp_go.
  split; [right; by exists w, w'|]. intros g ->. by eapply length_pair_encode.
Qed.

Lemma wp_send frame Q c :
  (forall conn n, ch_conn c = Some conn -> Q n c) -> Q (-1) c -> wp (peer_send E frame) Q c.
Proof.
  intros H1 H2. unfold peer_send. wp_go.
  destruct (tr_send (pe_transport E)), (ch_conn c) eqn:Hc; wp_go; try done. by eapply H1.
Qed.

Lemma inv_tx_frame c f :
  ch_inv c -> ch_state c = OPEN -> Z.of_nat (length f) <= FRAME_CAP -> ch_inv (c <| ch_tx_frame := Some f |>).
Proof.
  intros I HO Hf. destruct I. constructor; try done; cbn; rewrite ?HO; try done.
  - split; [apply v_frames|done].
  - intros H. destruct v_live as (A1 & A2 & A3 & A4 & A5 & A6); [by rewrite HO|]. by split_and!.
Qed.

(** A frame was sent or retained: nothing but the writer's state changed. *)
Definition sent_on (c c' : dmesh_peer_channel) : Prop :=
  exists w f, c' = c <| ch_pair_wire := w |> <| ch_tx_frame := f |>.
Lemma sent_on_refl c : sent_on c c.
Proof. exists (ch_pair_wire c), (ch_tx_frame c). by destruct c. Qed.
Lemma wired_sent c c' : wired c c' -> sent_on c c'.
Proof.
  intros [->|(w & w' & _ & ->)]; [apply sent_on_refl|]. exists (Some w'), (ch_tx_frame c). by destruct c.
Qed.

(** Sent on, or reset. *)
Definition sent_or_closed (c c' : dmesh_peer_channel) : Prop := sent_on c c' \/ ch_state c' = CLOSED.

Lemma wp_wire_send type handle payload c :
  ch_inv c -> ch_state c <> AUTHENTICATING ->
  wp (peer_wire_send E type handle payload) (fun r c' => ch_inv c' /\ sent_or_closed c c' /\
    (r = 0 -> ch_state c = OPEN /\ sent_on c c')) c.
Proof.
  intros I HA. unfold peer_wire_send. wp_go. destruct (negb (tx_len c =? 0)); wp_go.
  { split_and!; try done. left. apply sent_on_refl. }
  eapply wp_mono.
  { apply wp_encode_frame. intros f. destruct (is_there _); [|done]. apply length_frame_build. }
  intros enc d (Hw & Hl). pose proof (inv_wired c d I Hw) as Id. pose proof (wired_sent c d Hw) as Hs.
  assert (ch_state d = ch_state c) as Sd by (by destruct Hs as (w & f & ->)).
  destruct enc as [f|]; wp_go.
  - apply wp_send.
    2:{ destruct (Z.eqb_spec (-1) (Z.of_nat (length f))); [lia|]. cbn [Z.eqb]. wp_go. by split_and!; [done|left|]. }
    intros conn n Hconn.
    assert (ch_state c = OPEN) as Ho.
    { destruct (ch_state c) eqn:Ec; try done. destruct (v_closed Id Sd) as [Hn _]. congruence. }
    destruct (n =? _); wp_go; [by split_and!; [done|left|]|]. destruct (n =? 0); wp_go; [|by split_and!; [done|left|]].
    assert (sent_on c (d <| ch_tx_frame := Some f |>)) as Hs'.
    { destruct Hs as (w & g & ->). by exists w, (Some f). }
    split_and!; [|by left|done]. apply inv_tx_frame; [done|congruence|by apply Hl].
  - destruct (ch_pair_scoped d); wp_go; [|by split_and!; [done|left|]].
    eapply wp_mono; [by apply wp_transport_failed|]. intros [] e (Ie & Ce). wp_go. split; [done|]. split; [|done].
    destruct Ce as [->|Ce]; [by left|by right].
Qed.

(** ** Acknowledgements *)

(** Completed receive slots survive the release of their handle. *)
Definition landed_kept (c c' : dmesh_peer_channel) : Prop :=
  ch_state c' = ch_state c /\ forall i r, rx_of c !! i = Some r -> rs_in_use r = true -> rs_completed r = true ->
    rx_of c' !! i = Some r.
Lemma landed_kept_refl c : landed_kept c c.
Proof. done. Qed.
Lemma landed_kept_trans a b c : landed_kept a b -> landed_kept b c -> landed_kept a c.
Proof. intros [S1 H1] [S2 H2]. split; [congruence|]. eauto. Qed.

Lemma landed_free_slot i c :
  rs_completed (rx_at c i) = false -> landed_kept c (peer_rx_free_slot i c).
Proof.
  intros Hc. destruct (rx_free_slot_shape i c) as (hs & _ & ->). split; [done|]. intros j r Hr _ Hd.
  unfold rx_of in *. cbn. destruct (ch_rx c) as [l|] eqn:Hl; [|done]. cbn in *.
  rewrite list_lookup_insert_ne; [done|]. intros ->. unfold rx_at, rx_of in Hc. rewrite Hl in Hc. cbn in Hc.
  rewrite Hr in Hc. cbn in Hc. congruence.
Qed.

Lemma landed_abandon wh c : landed_kept c (peer_rx_abandon_handle wh false c).
Proof.
  unfold peer_rx_abandon_handle. destruct (ch_rx c); [|apply landed_kept_refl].
  apply (sweep_ind (fun _ d => landed_kept c d)); [apply landed_kept_refl|]. intros i d Hd.
  destruct (_ || _) eqn:Eb; [done|]. eapply landed_kept_trans; [done|]. apply landed_free_slot.
  cbn [negb andb] in Eb. bool_facts. done.
Qed.

Lemma landed_release h c : landed_kept c (peer_handle_release h c).
Proof.
  unfold peer_handle_release. destruct (negb _); [apply landed_kept_refl|].
  eapply landed_kept_trans; [apply (landed_abandon (hd_wire_handle (handle_at c h)))|].
  cbv zeta. set (d := peer_rx_abandon_handle _ _ _). clearbody d. by destruct (ch_handle_count _ =? 0).
Qed.

Lemma landed_maybe h c : landed_kept c (peer_handle_maybe_release h c).
Proof.
  unfold peer_handle_maybe_release. cbv zeta. destruct (_ || _); [apply landed_kept_refl|].
  destruct (_ && _); [apply landed_kept_refl|apply landed_release].
Qed.

Lemma landed_published e c : landed_kept c (ack_published e c).
Proof.
  unfold ack_published. destruct (peer_handle_of _ _); [|apply landed_kept_refl].
  cbv zeta. destruct (_ <=? _); [|apply landed_kept_refl].
  eapply landed_kept_trans; [|apply landed_maybe]. done.
Qed.

Lemma inv_published_all l c :
  ch_inv c -> ch_inv (fold_left (fun c e => ack_published e c) l c) /\
    landed_kept c (fold_left (fun c e => ack_published e c) l c).
Proof.
  revert c. induction l as [|e l IH]; intros c I; cbn [fold_left]; [by split|].
  destruct (IH (ack_published e c) (inv_ack_published E c e I)) as [I1 K1]. split; [done|].
  eapply landed_kept_trans; [apply landed_published|done].
Qed.

Lemma inv_ack_clear c : ch_inv c -> ch_inv (c <| ch_ack_stage := [] |>).
Proof.
  intros I. destruct I. constructor; try done. intros H. destruct (v_quiet H) as (A1 & A2 & A3 & A4 & A5 & A6). by split_and!; try apply A6.
Qed.

Lemma staged_open c : ch_inv c -> ack_staged c <> 0 -> ch_state c = OPEN.
Proof.
  intros I Ha. destruct (decide (ch_state c = OPEN)) as [|Hn]; [done|].
  destruct (v_quiet I Hn) as (_ & _ & _ & _ & A5 & _). unfold ack_staged in Ha. by rewrite A5 in Ha.
Qed.

Lemma wp_ack_flush c :
  ch_inv c ->
  wp (dmesh_peer_ack_flush E) (fun r c' => ch_inv c' /\ (ch_state c' = ch_state c \/ ch_state c' = CLOSED) /\
    (r = 0 -> ack_staged c' = 0 /\ landed_kept c c')) c.
Proof.
  intros I. unfold dmesh_peer_ack_flush. wp_go. destruct (Z.eqb_spec (ack_staged c) 0) as [Hz|Hz]; wp_go.
  { split_and!; auto. intros _. split; [done|apply landed_kept_refl]. }
  pose proof (staged_open c I Hz) as HO.
  eapply wp_mono; [apply wp_wire_send; [done|by rewrite HO]|]. intros r d (Id & Sd & Hr).
  assert (ch_state d = ch_state c \/ ch_state d = CLOSED) as Hst.
  { destruct Sd as [(w & f & ->)|]; auto. }
  destruct (Z.eqb_spec r 0) as [->|Hn]; wp_go; [|by split_and!].
  destruct (Hr eq_refl) as (_ & Hs). destruct (inv_published_all (ch_ack_stage d) d Id) as [I2 [K1 K2]].
  split; [by apply inv_ack_clear|]. split; [cbn; rewrite K1; done|]. intros _. split; [done|].
  split; [cbn; rewrite K1; by destruct Hs as (w & f & ->)|].
  intros i q Hq. apply K2. by destruct Hs as (w & f & ->).
Qed.

Lemma rx_at_in c i : rs_in_use (rx_at c i) = true -> rx_of c !! i = Some (rx_at c i).
Proof. unfold rx_at. by destruct (rx_of c !! i). Qed.

Lemma append_rx handle seq c :
  rx_of (peer_ack_append handle seq c) = rx_of c /\ ch_rx (peer_ack_append handle seq c) = ch_rx c.
Proof. unfold peer_ack_append. destruct (last _); [|done]. by destruct (_ && _). Qed.

Lemma inv_drain_one i c :
  ch_inv c -> rs_in_use (rx_at c i) = true -> rs_completed (rx_at c i) = true -> ack_full c = false ->
  ch_inv (peer_rx_free_slot i (peer_ack_append (rs_handle (rx_at c i)) (rs_seq (rx_at c i)) c)).
Proof.
  intros I U C F. pose proof (rx_at_in c i U) as Hr. pose proof (rx_open E None c i _ I Hr U) as HO.
  apply (inv_free_landed E _ i (rx_at c i)); [by apply inv_ack_append| |done|done]. by rewrite (proj1 (append_rx _ _ _)).
Qed.

Lemma free_slot_state i c : ch_state (peer_rx_free_slot i c) = ch_state c.
Proof. destruct (rx_free_slot_shape i c) as (hs & _ & ->). done. Qed.
Lemma append_state handle seq c : ch_state (peer_ack_append handle seq c) = ch_state c.
Proof. unfold peer_ack_append. destruct (last _); [|done]. by destruct (_ && _). Qed.

Lemma wp_ack_drain c :
  ch_inv c -> wp (peer_ack_drain E) (fun _ c' => ch_inv c' /\ (ch_state c' = ch_state c \/ ch_state c' = CLOSED)) c.
Proof.
  intros I. unfold peer_ack_drain. wp_go. destruct (ch_rx c); wp_go; [|auto].
  apply (wp_for_until (fun _ d => ch_inv d /\ (ch_state d = ch_state c \/ ch_state d = CLOSED))); [auto| |].
  - intros i d _ [Id Sd]. wp_go. destruct (negb (rs_in_use (rx_at d i)) || _) eqn:Eb; wp_go; [done|].
    rewrite orb_false_iff, !negb_false_iff in Eb. destruct Eb as [U C].
    assert (forall e, ch_inv e -> ch_state e = ch_state c \/ ch_state e = CLOSED -> landed_kept d e -> ack_full e = false ->
      wp (channel_set (W := W) (fun c => peer_rx_free_slot i (peer_ack_append (rs_handle (rx_at c i)) (rs_seq (rx_at c i)) c));; mret None)
        (fun r c' => match r with
          | Some a => wp (match Some a : option unit with Some _ => mret tt | None => c ← channel_of; if ack_full c then dmesh_peer_ack_flush E;; mret tt else mret tt end)
              (fun _ c' => ch_inv c' /\ (ch_state c' = ch_state c \/ ch_state c' = CLOSED)) c'
          | None => ch_inv c' /\ (ch_state c' = ch_state c \/ ch_state c' = CLOSED) end) e) as HF.
    { intros e Ie Se [_ K] F. pose proof (K i _ (rx_at_in d i U) U C) as Hi.
      assert (rx_at e i = rx_at d i) as Heq by (unfold rx_at at 1; by rewrite Hi).
      wp_go. split; [apply inv_drain_one; rewrite ?Heq; done|]. by rewrite free_slot_state, append_state. }
    destruct (ack_full d) eqn:F.
    + eapply wp_mono; [by apply wp_ack_flush|]. intros r e (Ie & Se & He).
      assert (ch_state e = ch_state c \/ ch_state e = CLOSED) as Se' by (destruct Se as [->|Se]; auto).
      destruct (Z.eqb_spec r 0) as [->|Hn]; cbn [negb]; [|by wp_go].
      destruct (He eq_refl) as [Hz K]. apply HF; try done. unfold ack_full. by rewrite Hz.
    + wp_go. apply HF; try done.
  - intros d [Id Sd]. wp_go. destruct (ack_full d); wp_go; [|done].
    eapply wp_mono; [by apply wp_ack_flush|]. intros r e (Ie & Se & _). wp_go. split; [done|].
    destruct Se as [->|Se]; auto.
Qed.
End send.
