(* ===== verification/PeerChannelData.v ===== *)
(** * Data, completions, closing and sending keep the invariant *)

From S2P Require Import Prelude Cursor PeerIdentity PeerFrame PairWire PairWireProofs PeerState PeerChannel FreeList PeerHoare PeerChannelInv PeerChannelRx PeerChannelTx PeerChannelReset PeerChannelLife PeerChannelStream.

Section data.
  Context {W : Type} (E : peer_env W).
  Local Abbreviation ch_inv := (ch_inv E).

(** What every operation of a channel guarantees: the invariant, and no
    channel starts authenticating by itself. *)
Definition steps (c c' : dmesh_peer_channel) : Prop :=
  ch_inv c' /\ (ch_state c' = AUTHENTICATING -> ch_state c = AUTHENTICATING).

Lemma steps_same c c' : ch_inv c' -> ch_state c' = ch_state c -> steps c c'.
Proof. intros I Hs. split; [done|congruence]. Qed.
Lemma steps_closed c c' : ch_inv c' -> ch_state c' = CLOSED -> steps c c'.
Proof. intros I Hs. split; [done|congruence]. Qed.
Lemma steps_either c c' : ch_inv c' -> ch_state c' = ch_state c \/ ch_state c' = CLOSED -> steps c c'.
Proof. intros I [Hs|Hs]; [by apply steps_same|by apply steps_closed]. Qed.
Lemma steps_trans a b c : steps a b -> steps b c -> steps a c.
Proof. intros [_ H1] [I H2]. split; auto. Qed.
Lemma steps_refused c r : ch_inv c -> steps c (refused_once r c).
Proof. intros I. by apply steps_same. Qed.

Lemma wp_steps_refuse {A} r c d (f : dmesh_peer_refusal -> A) :
  steps c d -> wp (x ← peer_refuse E r; mret (f x)) (fun _ => steps c) d.
Proof. intros H. wp_step. apply wp_refuse. wp_go. eapply steps_trans; [done|]. apply steps_refused, H. Qed.
Lemma wp_steps_refuse1 r c d : steps c d -> wp (peer_refuse E r) (fun _ => steps c) d.
Proof. intros H. apply wp_refuse. eapply steps_trans; [done|]. apply steps_refused, H. Qed.

Lemma wp_steps_touch {A} (a : A) c d : steps c d -> wp (touch E;; mret a) (fun _ => steps c) d.
Proof. intros H. wp_step. apply wp_touch. intros n. wp_go. exact H. Qed.

Lemma wp_steps_drain Q c d :
  steps c d -> (forall e, steps c e -> Q tt e) -> wp (peer_ack_drain E) Q d.
Proof.
  intros H Hm. eapply wp_mono; [apply wp_ack_drain, H|]. intros [] e [Ie Se]. apply Hm.
  eapply steps_trans; [done|]. by apply steps_either.
Qed.

(** Past the liveness check. *)
Lemma wp_steps_live inc (m : pm W dmesh_peer_refusal) c :
  ch_inv c ->
  (forall d, steps c d -> ch_state d = OPEN -> ch_incarnation d = ch_incarnation c -> wp m (fun _ => steps c) d) ->
  wp (live ← peer_live E inc; if negb (ok live) then mret live else m) (fun _ => steps c) c.
Proof.
  intros I Hm. wp_step. eapply wp_mono; [by apply wp_live|]. intros r d (I1 & Hok & HS & HN & _).
  assert (steps c d) as Hd.
  { split; [done|]. intros H. destruct (decide (ch_state c = OPEN)) as [Ho|Ho].
    - destruct (HS Ho); congruence.
    - destruct (HN Ho) as [_ ->]. exact H. }
  destruct (ok r) eqn:Er; cbn [negb]; [|by wp_go]. assert (r = OK) as -> by (by destruct r).
  destruct (Hok eq_refl) as (H1 & H2 & H3 & H4). apply Hm; [done|done|].
  by destruct H4 as [->|(p & _ & _ & ->)].
Qed.

(** ** Receiving data *)

Lemma wp_rx_alloc handle seq bytes src Q c :
  (forall r c', peer_rx_alloc handle seq bytes src c = (r, c') -> Q r c') ->
  wp (rx_alloc (W := W) handle seq bytes src) Q c.
Proof. intros H s <-. unfold rx_alloc. destruct (peer_rx_alloc _ _ _ _ _) as [r c'] eqn:Ea. by apply H. Qed.

Lemma rx_alloc_None handle seq bytes src c c' : peer_rx_alloc handle seq bytes src c = (None, c') -> c' = c.
Proof. unfold peer_rx_alloc. destruct (ch_rx c); [|congruence]. destruct (_ =? _); [congruence|]. cbv zeta. congruence. Qed.

Lemma rx_alloc_state handle seq bytes src c i c' :
  ch_inv c -> peer_rx_alloc handle seq bytes src c = (Some i, c') -> ch_state c' = ch_state c.
Proof.
  intros I (a & _ & _ & _ & ->)%(rx_alloc_Some E); [|done]. cbv zeta. by destruct (if src then None else _).
Qed.

Lemma staging_fits c len :
  ch_inv c -> 0 < len <= DMESH_PEER_EXTENT_MAX -> (DMESH_PEER_STAGING_MAX <? u64 (ch_staging_bytes c + len)) = false ->
  ch_staging_bytes c + len <= DMESH_PEER_STAGING_MAX.
Proof.
  intros I Hl H. apply Z.ltb_ge in H. pose proof (v_staging_max I) as Hm.
  rewrite wrap_small in H; [done|]. unfold in_width, DMESH_PEER_STAGING_MAX, DMESH_PEER_EXTENT_MAX in *. lia.
Qed.

Lemma wp_data_source handle seq bytes c :
  ch_inv c -> ch_state c = OPEN -> 0 < Z.of_nat (length bytes) <= DMESH_PEER_EXTENT_MAX ->
  wp (data_source E handle seq bytes) (fun _ => steps c) c.
Proof.
  intros I HO Hlen. assert (steps c c) as S0 by (by apply steps_same). unfold data_source. cbv zeta. wp_go.
  destruct (locally_owned E c handle); [by apply wp_steps_refuse1|].
  destruct (op_source_deliver _); [|by apply wp_steps_refuse1].
  destruct (_ <? u64 _) eqn:Hf; [by apply wp_steps_refuse1|]. apply staging_fits in Hf; [|done|done].
  wp_step. apply wp_rx_alloc. intros [i|] c' Ha.
  2:{ apply rx_alloc_None in Ha as ->. by apply wp_steps_refuse1. }
  pose proof (rx_alloc_state _ _ _ _ _ _ _ I Ha) as Hst.
  destruct (inv_alloc_source E _ _ _ _ _ _ I HO Hlen Hf Ha) as [I1 H1].
  wp_go. set (d := staging_add _ c') in *. assert (ch_state d = ch_state c) as Sd by exact Hst.
  destruct (a <? 0).
  - wp_go. apply wp_steps_refuse1, steps_same; [by apply inv_free_source|]. by rewrite free_slot_state.
  - wp_go. apply wp_touch. intros t. destruct (0 <? a); wp_go; [by apply steps_same|].
    apply (wp_steps_drain _ c); [|intros; by wp_go].
    apply steps_same; [|done]. by apply (inv_complete_source E (d <| ch_last_active_ns := t |>)).
Qed.

Lemma held_dest_touch c i h len o :
  held_dest c i h len -> hd_in_use o = hd_in_use (handle_at c h) -> hd_wire_handle o = hd_wire_handle (handle_at c h) ->
  held_dest (set_handle h o c) i h len.
Proof.
  intros (r & o0 & H1 & H2 & H3 & H4 & H5 & H6 & H7) U Hw. exists r, o.
  rewrite (handle_at_lookup c h o0 H5) in U, Hw. split_and!; try done; try congruence.
  unfold handles_of in *. cbn. destruct (ch_handles c) as [l|]; [|done]. cbn in *.
  apply list_lookup_insert_eq. by eapply lookup_lt_Some.
Qed.

Lemma release_state h c : ch_state (peer_handle_release h c) = ch_state c.
Proof. destruct (rx_side_release h c) as (? & ? & ? & ? & ? & ->). done. Qed.
Lemma maybe_release_state h c : ch_state (peer_handle_maybe_release h c) = ch_state c.
Proof. destruct (rx_side_maybe h c) as (? & ? & ? & ? & ? & ->). done. Qed.

Lemma steps_release h c d : steps c d -> steps c (peer_handle_release h d).
Proof. intros H. eapply steps_trans; [done|]. apply steps_same; [apply inv_release, H|apply release_state]. Qed.
Lemma steps_maybe_release h c d : steps c d -> steps c (peer_handle_maybe_release h d).
Proof. intros H. eapply steps_trans; [done|]. apply steps_same; [apply inv_maybe_release, H|apply maybe_release_state]. Qed.

Lemma sub_state h len c : ch_state (handle_sub h len (staging_sub len c)) = ch_state c.
Proof. done. Qed.

(** The destination refused the bytes: slot, charge and handle are given back. *)
Lemma wp_data_undelivered h i len c d :
  ch_inv d -> held_dest d i h len -> ch_state d = ch_state c ->
  wp (channel_set (fun c => peer_rx_free_slot i (handle_sub h len (staging_sub len c)));;
      peer_refuse E REFUSE_NO_POD;; poison_handle E h;; channel_set (peer_handle_release h);; mret REFUSE_NO_POD)
    (fun _ => steps c) d.
Proof.
  intros I1 H1 Sd. assert (steps c (peer_rx_free_slot i (handle_sub h len (staging_sub len d)))) as HS.
  { apply steps_same; [by apply inv_free_dest|]. by rewrite free_slot_state, sub_state. }
  wp_step. wp_step. cbv beta. revert HS. generalize (peer_rx_free_slot i (handle_sub h len (staging_sub len d))). intros e HS.
  wp_step. apply wp_refuse. wp_step. apply wp_poison. wp_go. by apply steps_release.
Qed.

Lemma wp_data_destination h handle seq bytes c :
  ch_inv c -> ch_state c = OPEN -> 0 < Z.of_nat (length bytes) <= DMESH_PEER_EXTENT_MAX ->
  peer_handle_of c handle = Some h ->
  wp (data_destination E h handle seq bytes) (fun _ => steps c) c.
Proof.
  intros I HO Hlen Hh. assert (steps c c) as S0 by (by apply steps_same). unfold data_destination. cbv zeta. wp_go.
  match goal with |- wp (match _ with Some _ => _ | None => _ end) (fun a c' => wp (@?f a) ?Q c') c =>
    assert (forall stale, wp (f stale) Q c) as HX end.
  2:{ cbv beta in HX. destruct (op_pod_generation _); [wp_go; exact (HX (negb _))|wp_step; exact (HX false)]. }
  cbv beta. intros [].
  { wp_step. apply wp_refuse. wp_go. apply steps_release. by apply steps_refused. }
  destruct (_ <? u64 _) eqn:Hf; [by apply wp_steps_refuse1|]. apply staging_fits in Hf; [|done|done].
  destruct (_ && _); [by apply wp_steps_refuse1|]. destruct (hd_rx_fin _); [by apply wp_steps_refuse1|].
  wp_step. apply wp_rx_alloc. intros [i|] c' Ha.
  2:{ apply rx_alloc_None in Ha as ->. by apply wp_steps_refuse1. }
  pose proof (rx_alloc_state _ _ _ _ _ _ _ I Ha) as Hst.
  destruct (inv_alloc_dest E _ _ _ _ _ _ _ I HO Hlen Hf Hh Ha) as [I1 H1].
  wp_go. set (d := handle_add _ _ _) in *. assert (ch_state d = ch_state c) as Sd by exact Hst. clearbody d.
  destruct (a <? 0).
  - by apply (wp_data_undelivered h i _ c).
  - wp_go. apply wp_touch. intros t.
    set (o := (handle_at d h) <| hd_rx_seq := seq |> <| hd_rx_seq_valid := true |>).
    set (e := (set_handle h o d) <| ch_last_active_ns := t |>).
    assert (ch_inv e) as Ie.
    { destruct H1 as (r & o0 & _ & _ & _ & _ & H5 & _).
      apply (inv_same_cores E None d _ I1). eapply same_cores_set; [exact H5|].
      unfold o. by rewrite (handle_at_lookup d h o0 H5). }
    assert (held_dest e i h (Z.of_nat (length bytes))) as He by (by apply (held_dest_touch d)).
    assert (ch_state e = ch_state c) as Se by done. clearbody e.
    destruct (0 <? a); wp_go; [by apply steps_same|].
    apply (wp_steps_drain _ c); [|intros; by wp_go]. apply steps_same; [|done]. by apply (inv_complete_dest E e).
Qed.

Lemma wp_data inc handle seq bytes c :
  ch_inv c -> wp (dmesh_peer_data E inc handle seq bytes) (fun _ => steps c) c.
Proof.
  intros I. unfold dmesh_peer_data. cbv zeta. apply wp_steps_live; [done|]. intros d Sd HO _.
  destruct (_ || _) eqn:El; [by apply wp_steps_refuse1|].
  assert (0 < Z.of_nat (length bytes) <= DMESH_PEER_EXTENT_MAX) as Hl by (bool_facts; lia).
  destruct (negb _); [by apply wp_steps_refuse1|]. wp_go.
  destruct (peer_handle_of d handle) as [h|] eqn:Hh; (eapply wp_mono; [|intros r e; by apply steps_trans]).
  - apply wp_data_destination; try done. apply Sd.
  - apply wp_data_source; try done. apply Sd.
Qed.

(** ** Completions *)

Lemma rx_find_from_Some i l handle seq src j :
  rx_find_from i l handle seq src = Some j ->
  (i <= j)%nat /\ exists r, l !! (j - i)%nat = Some r /\ rs_in_use r = true /\ rs_handle r = handle /\ rs_seq r = seq /\
    rs_source_side r = src.
Proof.
  revert i. induction l as [|r l IH]; intros i; cbn [rx_find_from]; [done|].
  destruct (_ && _) eqn:Eb.
  - intros [= <-]. split; [lia|]. exists r. rewrite Nat.sub_diag.
    rewrite !andb_true_iff, !Z.eqb_eq, eqb_true_iff in Eb. destruct Eb as [[[? ?] ?] ?]. by split_and!.
  - intros (Hle & q & Hq & H)%IH. split; [lia|]. exists q.
    replace (j - i)%nat with (S (j - S i))%nat by lia. done.
Qed.

Lemma rx_find_Some c handle seq src j :
  peer_rx_find c handle seq src = Some j ->
  exists r, rx_of c !! j = Some r /\ rs_in_use r = true /\ rs_handle r = handle /\ rs_seq r = seq /\ rs_source_side r = src.
Proof. intros (_ & r & Hr & H)%rx_find_from_Some. rewrite Nat.sub_0_r in Hr. by exists r. Qed.

Lemma sub_comm h len c : staging_sub len (handle_sub h len c) = handle_sub h len (staging_sub len c).
Proof. by destruct c. Qed.

Lemma wp_delivered handle seq len c :
  ch_inv c -> wp (dmesh_peer_delivered E handle seq len) (fun _ => steps c) c.
Proof.
  intros I. assert (steps c c) as S0 by (by apply steps_same). unfold dmesh_peer_delivered. wp_go.
  destruct (_ || _ || _); wp_go; [done|].
  destruct (peer_handle_of c handle) as [h|] eqn:Hh; [|by wp_go].
  destruct (peer_rx_find c handle seq false) as [rx|] eqn:Hrx; [|by wp_go].
  apply rx_find_Some in Hrx as (r & Hr & U & Hw & _ & Hs). rewrite (rx_at_lookup c rx r Hr).
  destruct (rs_completed r) eqn:Hc; cbn [orb]; [by wp_go|].
  destruct (Z.eqb_spec (rs_bytes r) len) as [Hb|]; cbn [negb]; [|by wp_go].
  assert (held_dest c rx h len) as HD.
  { apply handle_of_Some in Hh as (o & Ho & Uo & _ & Wo & _). exists r, o.
    split_and!; try done; [|congruence]. unfold held. by rewrite U, Hc. }
  wp_step. wp_step. rewrite sub_comm. pose proof (inv_complete_dest E c rx h len I HD) as I1.
  assert (steps c (complete_rx rx (handle_sub h len (staging_sub len c)))) as S1 by (by apply steps_same).
  revert S1. generalize (complete_rx rx (handle_sub h len (staging_sub len c))). intros d S1.
  wp_step. apply (wp_steps_drain _ c); [done|]. intros e Se. wp_go. apply wp_touch. intros t.
  pose proof (steps_maybe_release h c e Se) as S2. exact S2.
Qed.

Lemma wp_source_delivered handle seq len c :
  ch_inv c -> wp (dmesh_peer_source_delivered E handle seq len) (fun _ => steps c) c.
Proof.
  intros I. assert (steps c c) as S0 by (by apply steps_same). unfold dmesh_peer_source_delivered. wp_go.
  destruct (_ || _ || _); wp_go; [done|].
  destruct (peer_rx_find c handle seq true) as [rx|] eqn:Hrx; [|by wp_go].
  apply rx_find_Some in Hrx as (r & Hr & U & Hw & _ & Hs). rewrite (rx_at_lookup c rx r Hr).
  destruct (rs_completed r) eqn:Hc; cbn [orb]; [by wp_go|].
  destruct (Z.eqb_spec (rs_bytes r) len) as [Hb|]; cbn [negb]; [|by wp_go].
  assert (held_source c rx len) as HD.
  { exists r. split_and!; try done. unfold held. by rewrite U, Hc. }
  wp_go. pose proof (inv_complete_source E c rx len I HD) as I1.
  apply (wp_steps_drain _ c); [by apply steps_same|]. intros e Se. wp_go. apply wp_touch. intros t. exact Se.
Qed.

(** ** Closing *)

Lemma wp_stream_fin inc handle c :
  ch_inv c -> wp (dmesh_peer_stream_fin E inc handle) (fun _ => steps c) c.
Proof.
  intros I. unfold dmesh_peer_stream_fin. apply wp_steps_live; [done|]. intros d Sd HO _. wp_go.
  destruct (peer_handle_of d handle) as [h|] eqn:Hh; [|by apply wp_steps_refuse1].
  destruct (hd_rx_fin (handle_at d h)); [by apply wp_steps_refuse1|]. wp_go.
  match goal with |- wp _ _ ?x => assert (steps c x) as Se; [|revert Se; generalize x; intros e Se] end.
  { eapply steps_trans; [done|]. apply steps_same; [|done]. by apply (inv_set_handle E None d handle h _ (proj1 Sd) Hh). }
  assert (forall told, wp (if told <? 0 then peer_refuse E REFUSE_NO_POD else
    channel_set (peer_handle_maybe_release h);; touch E;; mret OK) (fun _ => steps c) e) as HX.
  2:{ destruct (op_destination_fin _); wp_go; [exact (HX _)|exact (HX 0)]. }
  intros told. destruct (told <? 0); [by apply wp_steps_refuse1|]. wp_go. apply wp_touch. intros t. wp_go.
  pose proof (steps_maybe_release h c e Se) as S2. exact S2.
Qed.

Lemma abandon_state wh too c : ch_state (peer_rx_abandon_handle wh too c) = ch_state c.
Proof. destruct (rx_side_abandon wh too c) as (? & ? & ? & ? & ? & ->). done. Qed.

Lemma steps_release_gone i c d :
  steps c d -> hd_in_use (handle_at d i) = true ->
  steps c (peer_handle_release i (peer_rx_abandon_handle (hd_wire_handle (handle_at d i)) true d)).
Proof.
  intros Sd U. eapply steps_trans; [done|]. apply steps_same; [by apply inv_release_gone; [apply Sd|]|].
  by rewrite release_state, abandon_state.
Qed.

Lemma wp_pod_gone inc uid c :
  ch_inv c -> wp (dmesh_peer_pod_gone E inc uid) (fun _ => steps c) c.
Proof.
  intros I. unfold dmesh_peer_pod_gone. apply wp_steps_live; [done|]. intros d Sd HO _.
  destruct (_ =? 0)%nat; [by apply wp_steps_refuse1|]. wp_go. destruct (ch_pair_scoped d).
  - destruct (negb _); [by apply wp_steps_refuse1|]. wp_step. eapply wp_mono; [apply wp_reset, Sd|].
    intros [] e (Ie & Se & _). wp_go. by apply steps_closed.
  - wp_step. apply (wp_for_each (fun _ => steps c)); [done| |intros; by apply wp_steps_touch].
    intros i e _ Se. wp_go. destruct (hd_in_use (handle_at e i)) eqn:U; cbn [negb orb]; [|by wp_go].
    destruct (negb _); wp_go; [done|]. apply wp_poison. wp_go.
    apply steps_release_gone; [exact Se|exact U].
Qed.

(** ** Acknowledged and dropped sends *)

Lemma tx_at_in c i : tx_in_use (tx_at c i) = true -> tx_of c !! i = Some (tx_at c i).
Proof. unfold tx_at. by destruct (tx_of c !! i). Qed.

Lemma tx_owner_freed_state t c : ch_state (tx_owner_freed t c) = ch_state c.
Proof.
  unfold tx_owner_freed. destruct (peer_handle_of _ _); [|done]. destruct (_ <=? _); [|done]. by rewrite maybe_release_state.
Qed.
Lemma tx_free_slot_state i c : ch_state (peer_tx_free_slot i c) = ch_state c.
Proof.
  rewrite tx_free_slot_eq. cbv zeta. set (d := tx_owner_freed _ _).
  assert (ch_state d = ch_state c) as Hd by (unfold d; by rewrite tx_owner_freed_state). clearbody d.
  destruct (_ <? _); exact Hd.
Qed.
Lemma steps_tx_free i c d : steps c d -> tx_in_use (tx_at d i) = true -> steps c (peer_tx_free_slot i d).
Proof.
  intros Sd U. eapply steps_trans; [done|]. apply steps_same; [|apply tx_free_slot_state].
  eapply inv_tx_free_slot; [apply Sd|by apply tx_at_in|done].
Qed.

Lemma wp_retire_tx i c d : steps c d -> tx_in_use (tx_at d i) = true -> wp (retire_tx E i) (fun _ => steps c) d.
Proof. intros Sd U. unfold retire_tx. wp_step. apply wp_release_tx. wp_go. by apply steps_tx_free. Qed.

Lemma wp_for_count (J : dmesh_peer_channel -> Prop) from n (body : nat -> pm W bool) c :
  J c -> (forall i d, J d -> wp (body i) (fun _ => J) d) -> wp (for_count from n body) (fun _ => J) c.
Proof.
  intros Hc Hb. revert from c Hc. induction n as [|n IH]; intros from c Hc; cbn [for_count]; [by wp_go|].
  wp_step. eapply wp_mono; [by apply Hb|]. intros b d Hd. wp_step. eapply wp_mono; [by apply IH|].
  intros k e He. by wp_go.
Qed.

Lemma wp_tx_ack inc entry c :
  ch_inv c -> wp (dmesh_peer_tx_ack E inc entry) (fun _ => steps c) c.
Proof.
  intros I. unfold dmesh_peer_tx_ack. apply wp_steps_live; [done|]. intros d Sd HO _.
  destruct (negb _); [by apply wp_steps_refuse1|]. destruct (_ || _); [by apply wp_steps_refuse1|].
  wp_step. eapply wp_mono.
  - apply (wp_for_count (steps c)); [done|]. intros i e Se. wp_go. destruct (in_run entry (tx_at e i)) eqn:Hi; wp_go; [|done].
    eapply wp_mono; [apply wp_retire_tx; [done|]|intros [] f Hf; by wp_go].
    unfold in_run in Hi. rewrite !andb_true_iff in Hi. apply Hi.
  - intros n e Se. cbv beta. destruct (n =? 0)%nat; [by apply wp_steps_refuse1|by apply wp_steps_touch].
Qed.

Lemma wp_tx_drop handle c : ch_inv c -> wp (dmesh_peer_tx_drop E handle) (fun _ => steps c) c.
Proof.
  intros I. assert (steps c c) as S0 by (by apply steps_same). unfold dmesh_peer_tx_drop. wp_go.
  destruct (ch_tx c); [|by wp_go]. apply (wp_for_each (fun _ => steps c)); [done| |done].
  intros i e _ Se. wp_go. destruct (tx_in_use (tx_at e i)) eqn:U; cbn [negb orb]; [|by wp_go].
  destruct (negb _); [by wp_go|]. by apply wp_retire_tx.
Qed.
End data.
