(* ===== verification/PeerChannelProgress.v ===== *)
(** * Sending, dispatch and progress keep the invariant; receiving terminates *)

From S2P Require Import Prelude Cursor PeerIdentity PeerFrame PairWire PairWireProofs PeerState PeerChannel FreeList PeerHoare PeerChannelInv PeerChannelRx PeerChannelTx PeerChannelReset PeerChannelLife PeerChannelStream PeerChannelData.

Section progress.
  Context {W : Type} (E : peer_env W).
  Local Abbreviation ch_inv := (ch_inv E).
  Local Abbreviation steps := (steps E).

(** ** Sends *)

Lemma wp_pair_admits Q c : (forall b, Q b c) -> wp (pair_admits E) Q c.
Proof.
  intros H. unfold pair_admits. wp_go. destruct (negb _); wp_go; [done|].
  destruct (tr_pair_admit (pe_transport E)), (ch_conn c); wp_go; done.
Qed.

Lemma open_not_auth c : ch_state c = OPEN -> ch_state c <> AUTHENTICATING.
Proof. congruence. Qed.

Lemma steps_sent_or_closed c c' : ch_inv c' -> sent_or_closed c c' -> steps c c'.
Proof. intros I [(w & f & ->)|H]; [by apply steps_same|by apply steps_closed]. Qed.

(** A frame is sent; what follows may use the result. *)
Lemma wp_steps_send {A} type handle payload (m : Z -> pm W A) c d :
  steps c d -> ch_state d = OPEN ->
  (forall r e, steps c e -> (r = 0 -> sent_on d e) -> wp (m r) (fun _ => steps c) e) ->
  wp (r ← peer_wire_send E type handle payload; m r) (fun _ => steps c) d.
Proof.
  intros Sd HO Hm. wp_step. eapply wp_mono; [apply wp_wire_send; [apply Sd|by apply open_not_auth]|].
  intros r e (Ie & Se & Hr). apply Hm; [|intros H; by apply Hr].
  eapply steps_trans; [done|]. by apply steps_sent_or_closed.
Qed.

Lemma wp_stream_request open c :
  ch_inv c -> wp (dmesh_peer_stream_request E open) (fun _ => steps c) c.
Proof.
  intros I. unfold dmesh_peer_stream_request. wp_step. wp_step. destruct (negb _); [by apply wp_steps_refuse1, steps_same|].
  apply wp_steps_live; [done|]. intros d Sd HO _. wp_step. apply wp_pair_admits. intros [] ; cbn [negb]; [|by apply wp_steps_refuse1].
  destruct (negb _); [by apply wp_steps_refuse1|]. wp_step. wp_step. destruct (_ && _); [by apply wp_steps_refuse1|].
  apply wp_steps_send; [done|done|]. intros r e Se _. destruct (r =? 0); [by wp_go|by apply wp_steps_refuse1].
Qed.

Lemma wp_tx_charge handle seq bytes kind cookie Q c :
  (forall r c', dmesh_peer_tx_charge handle seq bytes kind cookie c = (r, c') -> Q r c') ->
  wp (tx_charge (W := W) handle seq bytes kind cookie) Q c.
Proof. intros H s <-. unfold tx_charge. destruct (dmesh_peer_tx_charge _ _ _ _ _ _) as [r c'] eqn:Ea. by apply H. Qed.

Lemma tx_charge_state handle seq bytes kind cookie c :
  ch_state (dmesh_peer_tx_charge handle seq bytes kind cookie c).2 = ch_state c.
Proof.
  unfold dmesh_peer_tx_charge. destruct (negb _); [done|]. destruct (_ || _); [done|]. cbv zeta.
  by destruct (peer_handle_of _ _).
Qed.

Lemma steps_uncharge handle seq cookie c d : steps c d -> steps c (peer_tx_uncharge handle seq cookie d).
Proof.
  intros Sd. eapply steps_trans; [done|]. apply steps_same; [apply inv_tx_uncharge, Sd|].
  unfold peer_tx_uncharge. destruct (tx_uncharge_from _ _ _ _ _); [|done]. apply tx_free_slot_state.
Qed.

Lemma wp_steps_failed {A} (a : A) c d : steps c d -> wp (dmesh_peer_transport_failed E;; mret a) (fun _ => steps c) d.
Proof.
  intros Sd. wp_step. eapply wp_mono; [apply wp_transport_failed, Sd|]. intros [] e [Ie He]. wp_go.
  eapply steps_trans; [done|]. apply steps_either; [done|]. destruct He as [->|He]; auto.
Qed.
Lemma wp_steps_fatal {A} r (a : A) c d :
  steps c d -> wp (peer_refuse E r;; dmesh_peer_reset E;; mret a) (fun _ => steps c) d.
Proof.
  intros Sd. eapply wp_mono; [apply wp_refuse_reset, Sd|]. intros a' e (_ & Ie & Se & _). by apply steps_closed.
Qed.

Lemma length_prefix_image p : length (prefix_image p) = 8%nat.
Proof. unfold prefix_image. by rewrite length_app, !length_le_bytes. Qed.

Lemma wp_data_push handle seq bytes cookie c d :
  steps c d -> ch_state d = OPEN -> Z.of_nat (length bytes) <= DMESH_PEER_EXTENT_MAX ->
  wp (data_push E handle seq bytes cookie) (fun _ => steps c) d.
Proof.
  intros Sd HO Hl. unfold data_push. cbv zeta. wp_step. wp_step. wp_step. eapply wp_mono.
  { apply wp_encode_frame. intros f <-%(inj Some).
    rewrite !length_app, length_header_image, length_prefix_image.
    unfold FRAME_CAP, HEADER_LEN, DMESH_PEER_FRAME_MAX. lia. }
  intros enc e (Hw & Hf). pose proof (inv_wired E d e (proj1 Sd) Hw) as Ie. pose proof (wired_sent d e Hw) as Hs.
  assert (ch_state e = OPEN) as Oe by (by destruct Hs as (w & f & ->)).
  assert (steps c e) as Se.
  { eapply steps_trans; [done|]. apply steps_same; [done|]. congruence. }
  clear Hw Hs. destruct enc as [f|].
  - wp_step. apply wp_send.
    + intros conn n _. destruct (n =? _); [by wp_go|]. destruct (n =? 0); wp_step; wp_step.
      * wp_go. eapply steps_trans; [done|]. apply steps_same; [|done]. apply inv_tx_frame; [done|done|by apply Hf].
      * apply wp_steps_fatal. by apply steps_uncharge.
    + destruct (Z.eqb_spec (-1) (Z.of_nat (length f))); [lia|]. cbn [Z.eqb]. wp_step. wp_step.
      apply wp_steps_fatal. by apply steps_uncharge.
  - wp_step. wp_step. apply wp_steps_failed. by apply steps_uncharge.
Qed.

Lemma wp_stream_data_send handle seq bytes kind cookie c :
  ch_inv c -> wp (dmesh_peer_stream_data_send E handle seq bytes kind cookie) (fun _ => steps c) c.
Proof.
  intros I. unfold dmesh_peer_stream_data_send. cbv zeta. wp_step. wp_step.
  wp_if; [by apply wp_steps_refuse1, steps_same|].
  apply wp_steps_live; [done|]. intros d Sd HO _. wp_step. apply wp_pair_admits. intros []; cbn [negb]; [|by apply wp_steps_refuse1].
  destruct (_ || _) eqn:Eg; [by apply wp_steps_refuse1|].
  assert (Z.of_nat (length bytes) <= DMESH_PEER_EXTENT_MAX) as Hl.
  { rewrite !orb_false_iff, Z.ltb_ge in Eg. apply Eg. }
  wp_step. wp_step. wp_if; [by apply wp_steps_refuse1|]. wp_if; [by apply wp_steps_refuse1|].
  wp_step. apply wp_tx_charge. intros r e He.
  pose proof (inv_tx_charge E d handle seq (Z.of_nat (length bytes)) kind cookie (proj1 Sd)) as Ie.
  pose proof (tx_charge_state handle seq (Z.of_nat (length bytes)) kind cookie d) as Hst. rewrite He in Ie, Hst. cbn [snd] in Ie, Hst.
  assert (steps c e) as Se.
  { eapply steps_trans; [done|]. apply steps_same; [|done]. apply Ie.
    unfold in_width, DMESH_PEER_EXTENT_MAX in *. lia. }
  wp_if; [by apply (wp_steps_refuse E r c e (fun _ => r))|]. apply wp_data_push; [done|congruence|done].
Qed.

Lemma wp_stream_fin_send handle c :
  ch_inv c -> wp (dmesh_peer_stream_fin_send E handle) (fun _ => steps c) c.
Proof.
  intros I. assert (steps c c) as S0 by (by apply steps_same). unfold dmesh_peer_stream_fin_send. wp_step. wp_step.
  destruct (is_open (ch_state c)) eqn:HO; cbn [negb]; [|by apply wp_steps_refuse1].
  wp_if; [by apply wp_steps_refuse1|]. wp_if; [by apply wp_steps_refuse1|].
  apply wp_steps_send; [done|by destruct (ch_state c)|]. intros r e Se _.
  destruct (r =? 0); [|by apply wp_steps_refuse1]. wp_go.
  destruct (peer_handle_of e handle) as [h|] eqn:Hh; [|done]. apply steps_maybe_release.
  eapply steps_trans; [done|]. apply steps_same; [|done]. by apply (inv_set_handle E None e handle h _ (proj1 Se) Hh).
Qed.

Lemma wp_pod_gone_send uid c : ch_inv c -> wp (dmesh_peer_pod_gone_send E uid) (fun _ => steps c) c.
Proof.
  intros I. assert (steps c c) as S0 by (by apply steps_same). unfold dmesh_peer_pod_gone_send. wp_step. wp_step.
  destruct (is_open (ch_state c)) eqn:HO; cbn [negb]; [|by apply wp_steps_refuse1].
  wp_if; [by apply wp_steps_refuse1|]. cbv zeta. apply wp_steps_send; [done|by destruct (ch_state c)|].
  intros r e Se _. destruct (r =? 0); [by wp_go|by apply wp_steps_refuse1].
Qed.

(** ** Dispatch *)

Lemma wp_refuse_frame r c d : steps c d -> wp (refuse_frame E r) (fun _ => steps c) d.
Proof. intros H. by apply (wp_steps_refuse E r c d (fun _ => false)). Qed.
Lemma wp_passed m c : wp m (fun _ => steps c) c -> wp (passed (W := W) m) (fun _ => steps c) c.
Proof. intros H. unfold passed. wp_step. eapply wp_mono; [done|]. intros r d Hd. by wp_go. Qed.

Lemma wp_dispatch_open h payload c :
  ch_inv c -> ch_state c <> AUTHENTICATING -> wp (dispatch_open E h payload) (fun _ => steps c) c.
Proof.
  intros I HA. unfold dispatch_open. wp_if; [by apply wp_refuse_frame, steps_same|]. cbv zeta.
  wp_step. eapply wp_mono; [by apply wp_stream_open|]. intros [status handle] d (Id & _ & Hd & _).
  assert (steps c d) as Sd by done. wp_step. eapply wp_mono; [apply wp_wire_send; [done|tauto]|].
  intros r e (Ie & Se & _). assert (steps c e) as Se'.
  { eapply steps_trans; [done|]. by apply steps_sent_or_closed. }
  wp_if; [by apply wp_refuse_frame|by wp_go].
Qed.

Lemma wp_dispatch_open_ack h payload c : ch_inv c -> wp (dispatch_open_ack E h payload) (fun _ => steps c) c.
Proof.
  intros I. assert (steps c c) as S0 by (by apply steps_same). unfold dispatch_open_ack. wp_if; [by apply wp_refuse_frame|].
  cbv zeta. wp_step. wp_step. wp_if; [by apply wp_refuse_frame|]. wp_go. destruct (op_source_opened _); by wp_go.
Qed.

Lemma wp_dispatch_data h payload c : ch_inv c -> wp (dispatch_data E h payload) (fun _ => steps c) c.
Proof.
  intros I. assert (steps c c) as S0 by (by apply steps_same). unfold dispatch_data. wp_if; [by apply wp_refuse_frame|].
  cbv zeta. wp_if; [by apply wp_refuse_frame|]. by apply wp_passed, wp_data.
Qed.

Lemma wp_dispatch_fin h c : ch_inv c -> wp (dispatch_fin E h) (fun _ => steps c) c.
Proof.
  intros I. assert (steps c c) as S0 by (by apply steps_same). unfold dispatch_fin. wp_if; [by apply wp_refuse_frame|].
  wp_if; [by apply wp_refuse_frame|]. wp_step. wp_step. destruct (locally_owned E c (mh_handle h)).
  - by apply wp_passed, wp_stream_fin.
  - wp_go. destruct (op_source_fin _); wp_go; [destruct a; [by wp_go|]|]; by apply wp_refuse_frame.
Qed.

Lemma wp_ack_each inc entries c d : steps c d -> wp (ack_each E inc entries) (fun _ => steps c) d.
Proof.
  revert d. induction entries as [|e l IH]; intros d Sd; cbn [ack_each]; [by wp_go|].
  wp_if; [by wp_go|]. wp_step. eapply wp_mono; [apply wp_tx_ack, Sd|]. intros r f Sf.
  pose proof (steps_trans E _ _ _ Sd Sf). wp_if; [by wp_go|]. by apply IH.
Qed.

Lemma wp_dispatch_frame h payload c :
  ch_inv c -> ch_state c <> AUTHENTICATING -> wp (peer_dispatch_frame E h payload) (fun _ => steps c) c.
Proof.
  intros I HA. assert (steps c c) as S0 by (by apply steps_same). unfold peer_dispatch_frame. wp_step. wp_step.
  wp_if; [by apply wp_refuse_frame|].
  wp_if; [by apply wp_dispatch_open|]. wp_if; [by apply wp_dispatch_open_ack|].
  wp_if; [by apply wp_dispatch_data|]. wp_if; [by apply wp_dispatch_fin|].
  wp_if.
  { unfold dispatch_ack. wp_if; [by apply wp_refuse_frame|]. by apply wp_ack_each. }
  wp_if; [|by apply wp_refuse_frame].
  unfold dispatch_gone. wp_if; [by apply wp_refuse_frame|]. cbv zeta.
  wp_if; [by apply wp_refuse_frame|]. by apply wp_passed, wp_pod_gone.
Qed.

(** ** Receiving *)

Lemma wp_parse_rx Q c :
  (forall r n d, wired c d -> Q (r, n) d) -> wp (parse_rx (W := W)) Q c.
Proof.
  intros H. unfold parse_rx. wp_step. wp_step. cbv zeta. destruct (ch_pair_scoped c).
  - destruct (ch_pair_wire c) as [w|] eqn:Hw; [|wp_go; apply H; by left].
    wp_if; [wp_go; apply H; by left|]. destruct (peer_pair_wire_decode _ _ _ _) as [[r n] w']. wp_go.
    apply H. right. by exists w, w'.
  - wp_go. apply H. by left.
Qed.

Lemma inv_rx_frame c f :
  ch_inv c -> ch_state c = OPEN -> Z.of_nat (length f) <= FRAME_CAP -> ch_inv (c <| ch_rx_frame := Some f |>).
Proof.
  intros I HO Hf. destruct I. constructor; try done; cbn; rewrite ?HO; try done.
  - split; [done|apply v_frames].
  - intros H. destruct v_live as (A1 & A2 & A3 & A4 & A5 & A6); [by rewrite HO|]. by split_and!.
Qed.

(** What a receive ends with. *)
Definition received (c : dmesh_peer_channel) (r : incoming) (c' : dmesh_peer_channel) : Prop :=
  steps c c' /\ r <> Exhausted /\
  match r with Faulted => ch_state c' = CLOSED | _ => ch_state c' = OPEN /\ ch_incarnation c' = ch_incarnation c end.

Lemma wp_fault reason c d : steps c d -> wp (fault E reason) (received c) d.
Proof.
  intros Sd. unfold fault. eapply wp_mono; [apply wp_refuse_reset, Sd|].
  intros a e (-> & Ie & Se & _). by split; [apply steps_closed|].
Qed.

Lemma wp_receive_frame fuel c d :
  steps c d -> ch_state d = OPEN -> ch_incarnation d = ch_incarnation c -> FRAME_CAP - rx_len d < Z.of_nat fuel ->
  wp (receive_frame E fuel) (received c) d.
Proof.
  revert d. induction fuel as [|fuel IH]; intros d Sd HO HI Hf.
  { pose proof (proj1 (v_frames (proj1 Sd))). unfold rx_len, opt_len in *. lia. }
  cbn [receive_frame]. wp_step. apply wp_parse_rx. intros r n e Hw.
  assert (steps c e /\ ch_state e = OPEN /\ ch_incarnation e = ch_incarnation c /\ rx_len e = rx_len d) as (Se & Oe & Ce & Le).
  { split; [|destruct Hw as [->|(w & w' & _ & ->)]; by split_and!].
    eapply steps_trans; [done|]. apply steps_same; [eapply inv_wired; [apply Sd|done]|].
    by destruct Hw as [->|(w & w' & _ & ->)]. }
  clear Hw Sd HO HI. destruct r as [| |h payload]; [|by apply wp_fault|by wp_go].
  wp_step. wp_step. wp_if; [by apply wp_fault|].
  wp_step.
  match goal with |- wp _ (fun a c' => wp (@?f a) ?Q c') e => assert (forall a, wp (f a) Q e) as HX; [cbv beta|cbv beta in HX] end.
  2:{ destruct (tr_recv (pe_transport E)), (ch_conn e); wp_go; [exact (HX _)|exact (HX None)..]. }
  intros [[|b bs]|]; [by wp_go| |by apply wp_fault]. wp_if; [by apply wp_fault|].
  rewrite Z.ltb_ge in *. wp_go. destruct (v_live (proj1 Se)) as (_ & _ & _ & [old Hold] & _); [by rewrite Oe|].
  assert (rx_len e = Z.of_nat (length old)) as Hro by (unfold rx_len; by rewrite Hold).
  assert (e <| ch_rx_frame ::= fmap (fun old => old ++ b :: bs) |> = e <| ch_rx_frame := Some (old ++ b :: bs) |>) as ->.
  { destruct e. cbn in Hold |- *. by rewrite Hold. }
  assert (Z.of_nat (length (old ++ b :: bs)) <= FRAME_CAP) as Hl by (rewrite length_app; lia).
  apply IH; try done.
  - eapply steps_trans; [exact Se|]. apply steps_same; [|done]. apply inv_rx_frame; [apply Se|done|done].
  - unfold rx_len at 1. change (ch_rx_frame (_ <| ch_rx_frame := _ |>)) with (Some (old ++ b :: bs)).
    change (default [] (Some (old ++ b :: bs))) with (old ++ b :: bs). rewrite length_app. cbn [length]. lia.
Qed.

(** ** Progress *)

Lemma open_or_closed c d : ch_state c = OPEN -> steps c d -> is_closed (ch_state d) = false -> ch_state d = OPEN.
Proof. intros HO [_ Hd] Hc. destruct (ch_state d); try done. by rewrite HO in Hd; specialize (Hd eq_refl). Qed.

Lemma inv_consumed c n : ch_inv c -> ch_inv (c <| ch_rx_frame ::= fmap (drop n) |>).
Proof.
  intros I. assert (opt_len (drop n <$> ch_rx_frame c) <= opt_len (ch_rx_frame c)) as Hd.
  { unfold opt_len. destruct (ch_rx_frame c); cbn; [|done]. rewrite length_drop. lia. }
  assert (0 <= opt_len (drop n <$> ch_rx_frame c)) as H0 by (unfold opt_len; lia).
  destruct I. constructor; try done.
  - cbn. destruct v_frames. split; [lia|done].
  - intros H. destruct (v_live H) as (A1 & A2 & A3 & A4 & A5). cbn. split_and!; try done; [|apply A5..]. by apply some_fmap.
  - intros H. destruct (v_quiet H) as (A1 & A2 & A3 & A4 & A5 & A6 & A7). cbn. split_and!; try done. lia.
Qed.

Lemma wp_progress_loop budget progressed c d :
  steps c d -> ch_state d = OPEN ->
  wp (progress_loop E budget progressed) (fun r c' => steps c c' /\ (forall n, r = inl n -> ch_state c' = OPEN)) d.
Proof.
  revert progressed d. induction budget as [|budget IH]; intros progressed d Sd HO; cbn [progress_loop]; [by wp_go|].
  wp_step. eapply wp_mono.
  { apply (wp_receive_frame receive_fuel d d); [by apply steps_same; [apply Sd|]|done|done|].
    unfold receive_fuel, rx_len. change (FRAME_CAP + 2) with 65618. unfold FRAME_CAP, HEADER_LEN, DMESH_PEER_FRAME_MAX, DMESH_PEER_EXTENT_MAX. lia. }
  intros r e (Se & Hx & Hr). pose proof (steps_trans E _ _ _ Sd Se) as Sce.
  destruct r as [| |h payload n|]; [by wp_go; destruct Hr|by wp_go| |done]. destruct Hr as [Oe _].
  wp_step. eapply wp_mono; [apply wp_dispatch_frame; [apply Se|congruence]|]. intros fine f Sf.
  pose proof (steps_trans E _ _ _ Sce Sf) as Scf. destruct fine; cbn [negb].
  2:{ wp_step. eapply wp_mono; [apply wp_reset, Sf|]. intros [] g (Ig & Sg & _). wp_go. split; [by apply steps_closed|done]. }
  wp_step. wp_step. wp_if; [by wp_go|]. pose proof (open_or_closed e f Oe Sf ltac:(done)) as Of.
  wp_step. wp_step. wp_step. apply wp_touch. intros t. wp_step. wp_step.
  match goal with |- wp _ _ ?x => assert (steps c x) as Sg; [|assert (ch_state x = OPEN) as Og by exact Of; revert Sg Og; generalize x; intros g Sg Og] end.
  { eapply steps_trans; [exact Scf|]. apply steps_same; [|done]. exact (inv_consumed f (Z.to_nat n) (proj1 Sf)). }
  wp_if; [by wp_go|]. by apply IH.
Qed.

Lemma wp_handshake c :
  ch_inv c -> wp (progress_handshake E) (fun r c' => ch_inv c' /\ (r = None -> ch_state c' = AUTHENTICATING -> False)) c.
Proof.
  intros I. unfold progress_handshake. wp_step. wp_step. destruct (is_authenticating (ch_state c)) eqn:HA; cbn [negb].
  2:{ wp_go. split; [done|]. intros _ H. by rewrite H in HA. }
  destruct (tr_peer_key (pe_transport E)), (ch_conn c); try (by wp_go).
  wp_step. wp_step. destruct a as [key|]; [|by wp_go]. wp_step.
  match goal with |- wp _ (fun a c' => wp (@?f a) ?Q c') c => assert (forall a, wp (f a) Q c) as HX; [cbv beta|cbv beta in HX] end.
  2:{ destruct (ch_pair_scoped c); [destruct (tr_pair_ready (pe_transport E))|]; wp_go; [exact (HX _)|exact (HX 0)|exact (HX 1)]. }
  intros ready. wp_if; [by wp_go|]. wp_if.
  - wp_step. eapply wp_mono; [by apply wp_transport_failed|]. intros [] e [Ie _]. by wp_go.
  - wp_step. eapply wp_mono; [by apply wp_authenticated|]. intros r e (Ie & Hok & _). wp_if; [by wp_go|]. wp_go.
    split; [done|]. intros _. destruct r; try done. destruct (Hok eq_refl) as (_ & H & _). congruence.
Qed.

Lemma inv_tx_emptied c : ch_inv c -> ch_inv (c <| ch_tx_frame ::= fmap (fun _ => []) |>).
Proof.
  intros I. assert (opt_len ((fun _ => @nil byte) <$> ch_tx_frame c) = 0) as H0 by (by destruct (ch_tx_frame c)).
  destruct I. constructor; try done.
  - cbn. rewrite H0. destruct v_frames. split; [done|]. by change FRAME_CAP with 65616.
  - intros H. destruct (v_live H) as (A1 & A2 & A3 & A4 & A5 & A6). cbn. split_and!; try done. by apply some_fmap.
  - intros H. destruct (v_quiet H) as (A1 & A2 & A3 & A4 & A5 & A6 & A7). cbn. by split_and!.
Qed.

Lemma wp_progress_flush c :
  ch_inv c -> wp (progress_flush E) (fun r c' => steps c c' /\ (r = None -> ch_state c' = ch_state c)) c.
Proof.
  intros I. unfold progress_flush. wp_step. wp_step. wp_if; [by wp_go; split; [apply steps_same|]|].
  wp_step. assert (forall sent, wp (if sent =? 0 then mret (Some 0)
    else if negb (sent =? tx_len c) then peer_refuse E REFUSE_TRANSPORT;; dmesh_peer_reset E;; mret (Some (-1))
    else channel_set (fun c => c <| ch_tx_frame ::= fmap (fun _ => []) |>);; mret None)
    (fun r c' => steps c c' /\ (r = None -> ch_state c' = ch_state c)) c) as HX.
  2:{ apply wp_send; [intros _ n _; exact (HX n)|exact (HX (-1))]. }
  intros sent. wp_if; [by wp_go; split; [apply steps_same|]|]. wp_if.
  - eapply wp_mono; [by apply wp_refuse_reset|]. intros a e (-> & Ie & Se & _). split; [by apply steps_closed|done].
  - wp_go. split; [|done]. apply steps_same; [|done]. by apply inv_tx_emptied.
Qed.

Lemma wp_progress_acks n c : ch_inv c -> wp (progress_acks E n) (fun _ => steps c) c.
Proof.
  intros I. assert (steps c c) as S0 by (by apply steps_same). unfold progress_acks. wp_step. wp_step. wp_if; [by wp_go|].
  wp_step. apply (wp_steps_drain E _ c); [done|]. intros d Sd. wp_step. wp_step. wp_if; [by wp_go|].
  wp_step. eapply wp_mono; [apply wp_ack_flush, Sd|]. intros r e (Ie & Se & _).
  assert (steps c e) by (eapply steps_trans; [done|]; by apply steps_either).
  wp_if; [by apply wp_steps_fatal|by wp_go].
Qed.

Lemma wp_progress budget c : ch_inv c -> wp (dmesh_peer_channel_progress E budget) (fun _ => ch_inv) c.
Proof.
  intros I. unfold dmesh_peer_channel_progress. wp_step. wp_step. wp_if; [by wp_go|]. wp_step.
  eapply wp_mono; [by apply wp_handshake|]. intros [r|] d [Id _]; [by wp_go|]. wp_step. wp_step.
  destruct (is_open (ch_state d)) eqn:HO; cbn [negb]; [|by wp_go]. wp_step.
  eapply wp_mono; [by apply wp_live|]. intros r e (Ie & Hok & _). wp_if; [by wp_go|].
  assert (r = OK) as -> by (by destruct r). destruct (Hok eq_refl) as (_ & Oe & _).
  wp_step. eapply wp_mono; [by apply wp_progress_flush|]. intros [q|] f (Sf & Hf); [by wp_go; apply Sf|].
  wp_step. eapply wp_mono; [apply (wp_progress_loop _ _ f f); [by apply steps_same; [apply Sf|]|by rewrite Hf]|].
  intros [n|q] g [Sg _]; [|by wp_go; apply Sg]. eapply wp_mono; [apply wp_progress_acks, Sg|]. by intros a k [Ik _].
Qed.
End progress.
