(* ===== verification/PeerTableInv.v ===== *)
(** * Every operation of the channel table keeps every channel's invariant

    The same symbolic execution as for one channel, on the list of channels of
    a table: [twp m Q cs] holds when, whatever the world is and answers, [m]
    run on a table with channels [cs] ends with a result and channels that
    satisfy [Q]. *)

From S2P Require Import Prelude Cursor PeerIdentity PeerFrame PairWire PeerState PeerChannel PeerTable FreeList PeerHoare PeerChannelInv PeerChannelTx PeerChannelReset PeerChannelLife PeerChannelStream PeerChannelData PeerChannelProgress.

Section twp.
  Context {W : Type}.

Definition twp {A} (m : tm W A) (Q : A -> list dmesh_peer_channel -> Prop) (cs : list dmesh_peer_channel) : Prop :=
  forall t, tb_channels t = cs -> Q (m t).1 (tb_channels (m t).2).

Lemma twp_ret {A} (a : A) Q cs : Q a cs -> twp (mret a) Q cs.
Proof. by intros H t <-. Qed.
Lemma twp_bind {A B} (m : tm W A) (f : A -> tm W B) Q cs :
  twp m (fun a cs' => twp (f a) Q cs') cs -> twp (m ≫= f) Q cs.
Proof.
  intros H t Ht. specialize (H t Ht). unfold mbind, tm_bind. destruct (m t) as [a t'] eqn:E. by apply H.
Qed.
Lemma twp_mono {A} (m : tm W A) (Q Q' : A -> list dmesh_peer_channel -> Prop) cs :
  twp m Q cs -> (forall a cs', Q a cs' -> Q' a cs') -> twp m Q' cs.
Proof. intros H HQ t Ht. by apply HQ, H. Qed.
Lemma twp_look {A} (f : dmesh_peer_table W -> A) Q cs :
  (forall t, tb_channels t = cs -> Q (f t) cs) -> twp (look f) Q cs.
Proof. intros H t Ht. cbn. rewrite Ht. by apply H. Qed.
Lemma twp_look_at i Q cs : Q (default zero_channel (cs !! i)) cs -> twp (look (fun t => channel_at t i)) Q cs.
Proof. intros H. apply twp_look. intros t Ht. unfold channel_at. by rewrite Ht. Qed.
Lemma twp_on {A} i (m : pm W A) Q cs :
  wp m (fun a c => Q a (<[i := c]> cs)) (default zero_channel (cs !! i)) -> twp (on i m) Q cs.
Proof.
  intros H t Ht. unfold on, channel_at. rewrite Ht.
  specialize (H (PState i (default zero_channel (cs !! i)) (tb_refused t) (tb_world t)) eq_refl).
  destruct (m _) as [a s]. exact H.
Qed.
Lemma twp_on_table {A} (f : W -> A * W) Q cs : (forall a, Q a cs) -> twp (on_table f) Q cs.
Proof. intros H t <-. unfold on_table. destruct (f _). apply H. Qed.
Lemma twp_table_set f Q cs :
  (forall t, tb_channels (f t) = tb_channels t) -> Q tt cs -> twp (table_set f) Q cs.
Proof. intros Hf H t <-. cbn. by rewrite Hf. Qed.
Lemma twp_each (J : list dmesh_peer_channel -> Prop) from n (body : nat -> tm W unit) cs :
  J cs -> (forall i cs, (from <= i < from + n)%nat -> J cs -> twp (body i) (fun _ => J) cs) -> twp (each from n body) (fun _ => J) cs.
Proof.
  revert from cs. induction n as [|n IH]; intros from cs Hc Hb; cbn [each]; [by apply twp_ret|].
  apply twp_bind. eapply twp_mono; [apply Hb; [lia|done]|]. intros [] cs' H. apply IH; [done|].
  intros i ds Hi. apply Hb. lia.
Qed.
End twp.

Ltac twp_step :=
  lazymatch goal with
  | |- twp (mbind _ _) _ _ => apply twp_bind
  | |- twp (mret _) _ _ => apply twp_ret
  | |- twp (look (fun t => channel_at t _)) _ _ => apply twp_look_at
  | |- twp (look _) _ _ => apply twp_look; intros ? ?
  | |- twp (on_table _) _ _ => apply twp_on_table; intros ?
  | |- twp (table_set _) _ _ => apply twp_table_set; [done|]
  end.
Ltac twp_go := repeat (twp_step; cbv beta).
Ltac twp_if := lazymatch goal with |- twp (if ?b then _ else _) _ _ => destruct b eqn:? end.

Section table.
  Context {W : Type} (E : peer_env W).
  Local Abbreviation ch_inv := (ch_inv E).

(** Every slot of the table satisfies the invariant. *)
Definition table_inv (cs : list dmesh_peer_channel) : Prop :=
  length cs = CHANNELS /\ forall i c, cs !! i = Some c -> ch_inv c.

Lemma inv_zero : ch_inv zero_channel.
Proof. apply inv_empty; try done. Qed.

Lemma at_inv cs i : table_inv cs -> ch_inv (default zero_channel (cs !! i)).
Proof. intros [_ H]. destruct (cs !! i) as [c|] eqn:Hc; [by eapply H|apply inv_zero]. Qed.

Lemma insert_inv cs i c : table_inv cs -> ch_inv c -> table_inv (<[i := c]> cs).
Proof.
  intros [Hl H] Hc. split; [by rewrite length_insert|]. intros j d.
  rewrite list_lookup_insert_Some. intros [(_ & -> & _)|(_ & Hd)]; [done|by eapply H].
Qed.

(** A channel operation that keeps the invariant of its channel. *)
Lemma twp_keeps {A} i (m : pm W A) cs :
  (forall c, ch_inv c -> wp m (fun _ => ch_inv) c) -> table_inv cs -> twp (on i m) (fun _ => table_inv) cs.
Proof.
  intros Hm Hc. apply twp_on. eapply wp_mono; [apply Hm, at_inv, Hc|]. intros a c Hi. by apply insert_inv.
Qed.

Lemma wp_reset_keeps c : ch_inv c -> wp (dmesh_peer_reset E) (fun _ => ch_inv) c.
Proof. intros I. eapply wp_mono; [by apply wp_reset|]. by intros [] d (H & _). Qed.
Lemma wp_refuse_keeps r c : ch_inv c -> wp (peer_refuse E r) (fun _ => ch_inv) c.
Proof. intros I. by apply wp_refuse. Qed.
Lemma wp_touch_keeps c : ch_inv c -> wp (touch E) (fun _ => ch_inv) c.
Proof. intros I. by apply wp_touch. Qed.

Lemma twp_refuse_at channel r cs : table_inv cs -> twp (refuse_at E channel r) (fun _ => table_inv) cs.
Proof.
  intros H. destruct channel as [i|]; cbn [refuse_at]; [by apply twp_keeps; [apply wp_refuse_keeps|]|].
  twp_go. destruct (op_event _); by twp_go.
Qed.
Lemma twp_refuse_none r Q cs : (forall x, Q x cs) -> twp (refuse_at E None r) Q cs.
Proof. intros H. cbn [refuse_at]. twp_go. destruct (op_event _); by twp_go. Qed.
Lemma twp_table_now Q cs : (forall n, Q n cs) -> twp (table_now E) Q cs.
Proof. intros H. unfold table_now. destruct (op_now_ns _); by twp_go. Qed.
Lemma twp_close_conn conn Q cs : Q tt cs -> twp (close_conn E conn) Q cs.
Proof. intros H. unfold close_conn. destruct (tr_close _); twp_go; [by destruct a|done]. Qed.

(** ** Lifetime *)

(** Freeing the tables of a closed channel. *)
Lemma wp_channel_free c :
  ch_inv c -> ch_state c = CLOSED -> wp (peer_channel_free E) (fun _ c' => ch_inv c' /\ ch_in_use c' = false /\ ch_state c' = CLOSED) c.
Proof.
  intros I Hs. unfold peer_channel_free. wp_step. wp_step. wp_step.
  assert (wp (channel_set (W := W) (fun c => c <| ch_conn := None |> <| ch_pair_wire := None |>
    <| ch_pair_tx_frame := false |> <| ch_pair_rx_payload := false |> <| ch_handles := None |>
    <| ch_tx := None |> <| ch_rx := None |> <| ch_rx_frame := None |> <| ch_tx_frame := None |>
    <| ch_in_use := false |> <| ch_state := CLOSED |>)) (fun _ c' => ch_inv c' /\ ch_in_use c' = false /\ ch_state c' = CLOSED) c) as HX.
  2:{ destruct (ch_conn c) as [k|]; [apply wp_close|wp_step]; exact HX. }
  wp_step. split; [|done]. destruct (v_quiet I ltac:(by rewrite Hs)) as (Q1 & Q2 & Q3 & Q4 & Q5 & Q6 & Q7).
  apply inv_empty; try done; cbn.
  - rewrite (v_staging I), (unused_held _ Q3). done.
  - apply (v_tokens I).
Qed.

(** After a reset every channel in use is closed. *)
Definition all_closed (k : nat) (cs : list dmesh_peer_channel) : Prop :=
  table_inv cs /\ forall i c, (i < k)%nat -> cs !! i = Some c -> ch_in_use c = true -> ch_state c = CLOSED.

Lemma at_insert (cs : list dmesh_peer_channel) i c : (i < length cs)%nat -> default zero_channel (<[i := c]> cs !! i) = c.
Proof. intros H. by rewrite list_lookup_insert_eq. Qed.

Lemma closed_insert k cs i c :
  all_closed k cs -> ch_inv c -> (ch_in_use c = true -> ch_state c = CLOSED) -> all_closed k (<[i := c]> cs).
Proof.
  intros [HT Hk] I Hc. split; [by apply insert_inv|]. intros j d Hj.
  rewrite list_lookup_insert_Some. intros [(_ & -> & _)|(_ & Hd)]; [done|]. by eapply Hk.
Qed.
Lemma closed_next k cs :
  all_closed k cs -> (ch_in_use (default zero_channel (cs !! k)) = true -> ch_state (default zero_channel (cs !! k)) = CLOSED) ->
  all_closed (S k) cs.
Proof.
  intros [HT Hk] Hn. split; [done|]. intros j d Hj Hd. destruct (decide (j = k)) as [->|].
  - by rewrite Hd in Hn.
  - apply (Hk j); [lia|done].
Qed.

Lemma twp_fini_closed from n cs :
  all_closed from cs -> twp (fini_reset E from n) (fun _ => all_closed (from + n)) cs.
Proof.
  revert from cs. induction n as [|n IH]; intros from cs H; cbn [fini_reset].
  { twp_go. by rewrite Nat.add_0_r. }
  twp_step. twp_step. twp_step. set (c := default zero_channel (cs !! from)).
  eapply (twp_mono _ (fun _ => all_closed (S from))).
  - destruct (ch_in_use c && (negb (is_closed (ch_state c)) || is_there (ch_conn c))) eqn:Eb.
    + apply twp_on. eapply wp_mono; [apply wp_reset, at_inv, H|]. intros [] d (Id & Sd & _).
      apply closed_next; [by apply closed_insert|]. destruct H as [[Hl _] _].
      destruct (decide (from < length cs)%nat) as [Hlt|Hge]; [by rewrite at_insert|].
      rewrite lookup_ge_None_2; [done|]. rewrite length_insert. lia.
    + twp_go. apply closed_next; [done|]. fold c. intros U. rewrite U in Eb. cbn in Eb.
      rewrite orb_false_iff, negb_false_iff in Eb. destruct Eb as [Eb _]. by destruct (ch_state c).
  - intros [] ds Hd. twp_step. twp_step. twp_step. eapply twp_mono; [by apply IH|]. intros b es He. twp_go.
    by replace (from + S n)%nat with (S from + n)%nat by lia.
Qed.

Lemma twp_table_fini cs : table_inv cs -> twp (dmesh_peer_table_fini E) (fun _ => table_inv) cs.
Proof.
  intros H. unfold dmesh_peer_table_fini. twp_step. eapply twp_mono.
  { apply (twp_fini_closed 0 CHANNELS). split; [done|lia]. }
  intros held ds Hd. destruct held; [twp_go; apply Hd|]. twp_step.
  eapply twp_mono; [apply (twp_each (all_closed CHANNELS)); [exact Hd|]|intros [] es He; twp_go; apply He].
  intros i es Hi He. twp_step. twp_step. twp_if; [|by twp_go]. apply twp_on.
  eapply wp_mono.
  { apply wp_channel_free; [apply at_inv, He|].
    destruct (es !! i) as [c|] eqn:Hc; [|done]. cbn in *. apply (proj2 He i c); [lia|done|done]. }
  intros [] c (Ic & Uc & _). apply closed_insert; [done|done|congruence].
Qed.

(** ** Eviction and rebinding *)

Lemma twp_evict i cs :
  table_inv cs -> twp (evict E i) (fun b cs' => table_inv cs' /\ (b = true -> (i < length cs)%nat ->
    exists c, cs' !! i = Some c /\ ch_in_use c = false)) cs.
Proof.
  intros H. unfold evict. twp_step. apply twp_on. eapply wp_mono; [apply wp_reset, at_inv, H|].
  intros [] d (Id & Sd & _). pose proof (insert_inv cs i d H Id) as H1. twp_step. twp_step. twp_if; [by twp_go|].
  twp_step. apply twp_on. eapply wp_mono.
  { apply wp_channel_free; [apply at_inv, H1|]. destruct (decide (i < length cs)%nat) as [Hi|Hi]; [by rewrite at_insert|].
    rewrite lookup_ge_None_2; [done|]. rewrite length_insert. lia. }
  intros [] e (Ie & Ue & _). twp_go. split; [by apply insert_inv|]. intros _ Hi. exists e. split; [|done].
  apply list_lookup_insert_eq. by rewrite length_insert.
Qed.

Lemma twp_channel_slot cs : table_inv cs -> twp (peer_channel_slot E) (fun _ => table_inv) cs.
Proof.
  intros H. unfold peer_channel_slot. twp_step. twp_step. destruct (slot_scan _ _ _ _ _) as [i|[i|]]; [by twp_go| |by twp_go].
  twp_step. eapply twp_mono; [by apply twp_evict|]. intros b ds [Hd _]. by twp_go.
Qed.

Lemma twp_evict_idle cs : table_inv cs -> twp (dmesh_peer_evict_idle E) (fun _ => table_inv) cs.
Proof.
  intros H. unfold dmesh_peer_evict_idle. twp_step. apply twp_table_now. intros now. apply twp_each; [done|].
  intros i ds _ Hd. twp_step. twp_step. twp_if; [by twp_go|]. twp_if; [by twp_go|]. twp_step. twp_step.
  twp_if; [by twp_go|]. twp_step. eapply twp_mono; [by apply twp_evict|]. intros b es [He _]. by twp_go.
Qed.

Lemma wp_rebind binding c : ch_inv c -> wp (rebind_channel E binding) (fun _ => ch_inv) c.
Proof.
  intros I.
  assert (forall r, wp (refuse_reset E r) (fun _ => ch_inv) c) as HR.
  { intros r. unfold refuse_reset. wp_step. apply wp_refuse. by apply wp_reset_keeps. }
  unfold rebind_channel. wp_step. wp_step. wp_if; [by wp_go|]. wp_go. destruct (_ ≫= _); [|done]. wp_if; [done|].
  wp_if; [|by wp_go]. wp_step. apply wp_pair_local. intros r. wp_if; [done|by wp_go].
Qed.

Lemma twp_rebind cs : table_inv cs -> twp (dmesh_peer_table_rebind E) (fun _ => table_inv) cs.
Proof.
  intros H. unfold dmesh_peer_table_rebind. destruct (op_node_binding _); [|by twp_go].
  apply twp_each; [done|]. intros i ds _ Hd. apply twp_keeps; [apply wp_rebind|done].
Qed.

(** ** Opening and accepting *)

(** A channel with the tables of an empty one is empty. *)
Lemma inv_requiet d c :
  ch_inv d -> ch_state d = CLOSED -> ch_state c <> OPEN ->
  (ch_handles c, ch_handle_count c, ch_staging_bytes c, ch_open_tokens_milli c, ch_tx c, ch_tx_free c, ch_inflight_bytes c) =
  (ch_handles d, ch_handle_count d, ch_staging_bytes d, ch_open_tokens_milli d, ch_tx d, ch_tx_free d, ch_inflight_bytes d) ->
  (ch_rx c, ch_rx_free c, ch_ack_stage c, ch_rx_frame c, ch_tx_frame c) =
  (ch_rx d, ch_rx_free d, ch_ack_stage d, ch_rx_frame d, ch_tx_frame d) ->
  (ch_state c <> CLOSED -> tables_there d /\ is_Some (ch_conn c)) ->
  (ch_state c = CLOSED -> ch_conn c = None /\ ch_pair_wire c = None) -> ch_inv c.
Proof.
  intros I Hd Hc [= H1 H2 H3 H4 H5 H6 H7] [= H8 H9 H10 H11 H12] Hl Hcl.
  destruct (v_quiet I ltac:(by rewrite Hd)) as (Q1 & Q2 & Q3 & Q4 & Q5 & Q6 & Q7).
  apply inv_empty; unfold tx_of, rx_of; rewrite ?H1, ?H2, ?H3, ?H4, ?H5, ?H6, ?H7, ?H8, ?H9, ?H10, ?H11, ?H12; try done.
  - apply (v_handles I).
  - apply no_handle_count. by rewrite <-(v_count I).
  - apply (v_tx I).
  - apply (v_rx I).
  - rewrite (v_staging I), (unused_held _ Q3). done.
  - apply (v_tokens I).
  - intros Hn. destruct (Hl Hn) as [(A1 & A2 & A3 & A4 & A5) A6]. by split_and!.
Qed.

Lemma wp_connect node key ip port inc prologue pair intent Q c :
  (forall r, Q r c) -> wp (connect E node key ip port inc prologue pair intent) Q c.
Proof.
  intros H. unfold connect. destruct pair.
  - destruct (tr_connect_pair (pe_transport E)), (tr_pair_ready (pe_transport E)), (tr_pair_admit (pe_transport E)); by wp_go.
  - destruct (tr_connect (pe_transport E)), (tr_pair_ready (pe_transport E)); by wp_go.
Qed.

Lemma wp_dial node key ip port pair intent c :
  ch_inv c -> ch_state c = CLOSED -> wp (dial E node key ip port pair intent) (fun _ => ch_inv) c.
Proof.
  intros I Hs. unfold dial. wp_step. eapply wp_mono; [by apply wp_alloc_tables|].
  intros got d (Id & (_ & _ & _ & Sd & _) & Td). rewrite Hs in Sd. destruct got; cbn [negb]; [|by apply wp_refuse].
  specialize (Td eq_refl). destruct (v_closed Id Sd) as [Nd Wd]. wp_step. wp_step. wp_step. wp_step.
  match goal with |- wp _ _ ?x => assert (ch_inv x /\ ch_state x = CLOSED /\ tables_there x /\ ch_conn x = None /\ ch_pair_wire x = None) as HX;
    [by destruct pair|revert HX; generalize x; intros e (Ie & Se & Te & Ne & We)] end.
  wp_if; [by apply wp_refuse|]. wp_step. wp_step. wp_step. apply wp_touch. intros t. wp_step. wp_step.
  match goal with |- context [match ch_conn ?x with Some _ => _ | None => _ end] => change (ch_conn x) with (ch_conn e) end.
  rewrite Ne. wp_step. wp_step.
  set (f := e <| ch_incarnation ::= _ |> <| ch_initiated_local := _ |> <| ch_state := _ |> <| ch_last_active_ns := _ |>).
  assert (forall (r : dmesh_peer_refusal), wp (x ← peer_refuse E r; channel_set (fun c => c <| ch_state := CLOSED |>);; mret x) (fun _ => ch_inv) f) as HF.
  { intros r. wp_step. apply wp_refuse. wp_go. by apply (inv_requiet e). }
  destruct (dmesh_peer_prologue _ _ _ _) as [prologue|]; [|apply HF].
  wp_step. apply wp_connect. intros [connected [k|]]; [|apply HF]. wp_if.
  - wp_go. by apply (inv_requiet e).
  - wp_step. apply wp_close. apply HF.
Qed.

Lemma twp_claim_slot i node pair cs :
  table_inv cs -> twp (claim_slot E i node pair) (fun _ cs' => table_inv cs' /\
    ch_state (default zero_channel (cs' !! i)) = CLOSED) cs.
Proof.
  intros H. unfold claim_slot. twp_step. twp_step. twp_step. apply twp_on. wp_step.
  match goal with |- twp _ _ (<[i := ?x]> cs) => assert (ch_inv x /\ ch_state x = CLOSED) as HX;
    [|revert HX; generalize x; intros d [Id Sd]] end.
  { split; [|done]. apply inv_empty; done. }
  pose proof (insert_inv cs i d H Id) as H1. twp_step. apply twp_table_now. intros now. apply twp_on. wp_step.
  split.
  - apply insert_inv; [done|]. apply (at_inv _ i) in H1. exact H1.
  - destruct (decide (i < length cs)%nat) as [Hi|Hi].
    + rewrite at_insert by (by rewrite length_insert). by rewrite at_insert.
    + rewrite lookup_ge_None_2; [done|]. rewrite !length_insert. lia.
Qed.

Lemma wp_adopt inc conn bound key ip port pair c :
  ch_inv c -> ch_state c = CLOSED -> wp (adopt E inc conn bound key ip port pair) (fun _ => ch_inv) c.
Proof.
  intros I Hs. unfold adopt. wp_step. eapply wp_mono; [by apply wp_alloc_tables|].
  intros got d (Id & (_ & _ & _ & Sd & _) & Td). rewrite Hs in Sd. destruct got; cbn [negb].
  2:{ wp_step. apply wp_refuse. wp_step. apply wp_close. by wp_go. }
  specialize (Td eq_refl). wp_step. wp_step. wp_step. apply wp_touch. intros t. wp_step. wp_step.
  eapply wp_mono; [apply wp_authenticated|]; [|by intros r e (Ie & _)].
  destruct pair; by apply (inv_requiet d).
Qed.

Local Abbreviation closed_at cs i := (ch_state (default zero_channel (cs !! i)) = CLOSED).

Lemma twp_on_closed {A} i (m : pm W A) cs :
  (forall c, ch_inv c -> ch_state c = CLOSED -> wp m (fun _ => ch_inv) c) ->
  table_inv cs -> closed_at cs i -> twp (on i m) (fun _ => table_inv) cs.
Proof.
  intros Hm H Hc. apply twp_on. eapply wp_mono; [apply Hm; [by apply at_inv|done]|]. intros a c Hi. by apply insert_inv.
Qed.

(** The slot an open or accept works on, found or claimed. *)
Lemma twp_take_slot {A} node pair channel (m : option nat -> tm W A) (Q : A -> list dmesh_peer_channel -> Prop) cs :
  table_inv cs -> (forall i, channel = Some i -> closed_at cs i) ->
  (forall ds, table_inv ds -> twp (m None) Q ds) ->
  (forall i ds, table_inv ds -> closed_at ds i -> twp (m (Some i)) Q ds) ->
  twp (slot ← match channel with
              | Some i => mret (Some i)
              | None => s ← peer_channel_slot E;
                        match s with
                        | Some i => claim_slot E i node pair;; mret (Some i)
                        | None => mret None
                        end
              end; m slot) Q cs.
Proof.
  intros H Hc HN HS. twp_step. destruct channel as [i|]; [twp_step; apply HS; [done|by apply Hc]|].
  twp_step. eapply twp_mono; [by apply twp_channel_slot|]. intros [i|] ds Hd; [|by twp_step; apply HN].
  twp_step. eapply twp_mono; [by apply twp_claim_slot|]. intros [] es [He Ce]. twp_step. by apply HS.
Qed.

Lemma twp_refuse_result {A} channel r (f : dmesh_peer_refusal -> A) cs :
  table_inv cs -> twp (x ← refuse_at E channel r; mret (f x)) (fun _ => table_inv) cs.
Proof. intros H. twp_step. eapply twp_mono; [by apply twp_refuse_at|]. intros x ds Hd. by twp_step. Qed.

Lemma twp_open_fresh node pair intent channel cs :
  table_inv cs -> (forall i, channel = Some i -> closed_at cs i) ->
  twp (open_fresh E node pair intent channel) (fun _ => table_inv) cs.
Proof.
  intros H Hc. unfold open_fresh. twp_step.
  match goal with |- twp _ (fun a c' => twp (@?f a) ?Q c') cs => assert (forall a, twp (f a) Q cs) as HX; [cbv beta|cbv beta in HX] end.
  2:{ destruct (op_node_binding _); twp_step; [apply (HX a)|exact (HX None)]. }
  intros [[[key|] ip port]|]; [|by apply (twp_refuse_result channel _ (fun r => (None, r)))..].
  apply twp_take_slot; [done|done| |].
  - intros ds Hd. by apply (twp_refuse_result None _ (fun r => (None, r))).
  - intros i ds Hd Cd. twp_step. eapply twp_mono; [by apply twp_on_closed; [apply wp_dial|..]|].
    intros r es He. by twp_step.
Qed.

Lemma twp_peer_open node pair intent cs :
  table_inv cs -> twp (peer_open E node pair intent) (fun _ => table_inv) cs.
Proof.
  intros H. unfold peer_open. twp_step. twp_step. destruct (find_for node pair t) as [i|]; [|by apply twp_open_fresh].
  twp_step. twp_step. twp_step. eapply (twp_mono _ (fun _ => table_inv)).
  { destruct pair; [twp_if|]; [apply twp_keeps; [apply wp_reset_keeps|done]|by twp_go..]. }
  intros [] ds Hd. twp_step. twp_step. destruct (ch_state _) eqn:Hs.
  - twp_step. twp_step. twp_if; [by apply (twp_refuse_result (Some i) _ (fun r => (None, r)))|].
    apply twp_open_fresh; [done|]. intros j [= <-]. exact Hs.
  - by twp_step.
  - twp_step. eapply twp_mono; [by apply twp_keeps; [apply wp_touch_keeps|]|]. intros [] es He. by twp_step.
Qed.

Lemma twp_check_pair node p Q cs : (forall r, Q r cs) -> twp (check_pair E node p) Q cs.
Proof.
  intros H t <-. unfold check_pair.
  destruct (peer_pair_local E node p _) as [r s] eqn:Er. cbn. apply H.
Qed.

Lemma twp_dmesh_peer_open node cs : table_inv cs -> twp (dmesh_peer_open E node) (fun _ => table_inv) cs.
Proof. intros H. unfold dmesh_peer_open. twp_if; [by twp_step|by apply twp_peer_open]. Qed.

Lemma twp_open_stream node intent cs : table_inv cs -> twp (dmesh_peer_open_stream E node intent) (fun _ => table_inv) cs.
Proof.
  intros H. unfold dmesh_peer_open_stream. cbv zeta.
  assert (forall r, twp (x ← refuse_at E None r; mret (None, x)) (fun _ : option nat * dmesh_peer_refusal => table_inv) cs) as HF.
  { intros r. by apply (twp_refuse_result None r (fun x => (None, x))). }
  twp_if; [by apply twp_dmesh_peer_open|]. twp_if; [apply HF|]. destruct (op_local_registration _); [|apply HF].
  twp_step. twp_step. destruct a as [found current]. twp_if; [apply HF|]. twp_step. apply twp_check_pair. intros r.
  twp_if; [apply HF|by apply twp_peer_open].
Qed.

Lemma twp_accept_contend node conn channel cs :
  table_inv cs -> twp (accept_contend E node conn channel) (fun r cs' => table_inv cs' /\
    (r = None -> forall i, channel = Some i -> closed_at cs' i)) cs.
Proof.
  intros H. unfold accept_contend. destruct channel as [i|]; [|by twp_step].
  assert (forall r cs', table_inv cs' -> twp (close_conn E conn;; x ← refuse_at E (Some i) r; mret (Some x))
    (fun r cs' => table_inv cs' /\ (r = None -> forall j, Some i = Some j -> closed_at cs' j)) cs') as HL.
  { intros r cs' Hc. twp_step. apply twp_close_conn. twp_step. eapply twp_mono; [by apply twp_refuse_at|].
    intros x ds Hd. by twp_step. }
  assert (forall r cs', table_inv cs' -> twp (x ← refuse_at E (Some i) r; close_conn E conn;; mret (Some x))
    (fun r cs' => table_inv cs' /\ (r = None -> forall j, Some i = Some j -> closed_at cs' j)) cs') as HR.
  { intros r cs' Hc. twp_step. eapply twp_mono; [by apply twp_refuse_at|]. intros x ds Hd. twp_step. apply twp_close_conn.
    by twp_step. }
  twp_step. twp_step. twp_step.
  eapply (twp_mono _ (fun lost cs' => table_inv cs' /\ (lost = false -> closed_at cs' i))).
  { destruct (is_closed _) eqn:Hc; [twp_step; split; [done|]; intros _; by destruct (ch_state _)|].
    cbv zeta. twp_if; [by twp_step|]. twp_step. apply twp_on. eapply wp_mono; [apply wp_reset, at_inv, H|].
    intros [] d (Id & Sd & _). twp_step. split; [by apply insert_inv|]. intros _.
    destruct (decide (i < length cs)%nat) as [Hi|Hi]; [by rewrite at_insert|].
    rewrite lookup_ge_None_2; [done|]. rewrite length_insert. lia. }
  intros [] ds [Hd Cd]; [by apply HL|]. twp_step. twp_step. twp_if; [by apply HR|]. twp_step. split; [done|].
  intros _ j [= <-]. by apply Cd.
Qed.

Lemma twp_peer_accept node inc conn key pair cs :
  table_inv cs -> twp (peer_accept E node inc conn key pair) (fun _ => table_inv) cs.
Proof.
  intros H. unfold peer_accept. cbv zeta.
  assert (forall channel r ds, table_inv ds -> twp (x ← refuse_at E channel r; close_conn E conn;; mret (None, x))
    (fun _ : option nat * dmesh_peer_refusal => table_inv) ds) as HF.
  { intros channel r ds Hd. twp_step. eapply twp_mono; [by apply twp_refuse_at|]. intros x es He. twp_step.
    apply twp_close_conn. by twp_step. }
  twp_if; [by apply HF|]. twp_step.
  match goal with |- twp _ (fun a c' => twp (@?f a) ?Q c') cs => assert (forall a, twp (f a) Q cs) as HX; [cbv beta|cbv beta in HX] end.
  2:{ destruct (op_node_binding _); twp_step; [apply (HX a)|exact (HX None)]. }
  intros [[[bound|] ip port]|]; [|by apply HF..]. twp_if; [by apply HF|]. twp_step. twp_step. twp_step.
  eapply twp_mono; [by apply twp_accept_contend|]. intros [r|] ds [Hd Cd]; [by twp_step|].
  apply twp_take_slot; [done|by apply Cd| |].
  - intros es He. by apply HF.
  - intros i es He Ce. twp_step. eapply twp_mono; [by apply twp_on_closed; [apply wp_adopt|..]|].
    intros r fs Hf. by twp_step.
Qed.

Lemma twp_accept node inc conn key cs : table_inv cs -> twp (dmesh_peer_accept E node inc conn key) (fun _ => table_inv) cs.
Proof.
  intros H. unfold dmesh_peer_accept. twp_if; [|by apply twp_peer_accept]. twp_step. apply twp_close_conn.
  by apply (twp_refuse_result None _ (fun x => (None, x))).
Qed.

Lemma twp_accept_pair node inc conn key cs :
  table_inv cs -> twp (dmesh_peer_accept_pair E node inc conn key) (fun _ => table_inv) cs.
Proof.
  intros H. unfold dmesh_peer_accept_pair. cbv zeta.
  assert (forall r, twp (close_conn E conn;; x ← refuse_at E None r; mret (None, x)) (fun _ : option nat * dmesh_peer_refusal => table_inv) cs) as HF.
  { intros r. twp_step. apply twp_close_conn. by apply (twp_refuse_result None r (fun x => (None, x))). }
  destruct (tr_connect_pair (pe_transport E)), (tr_pair_ready (pe_transport E)), (tr_pair_admit (pe_transport E)); try apply HF.
  twp_step. twp_step. destruct a as [status certified]. twp_if; [apply HF|]. twp_step. apply twp_check_pair. intros r.
  twp_if; [apply HF|by apply twp_peer_accept].
Qed.
End table.
