(* ===== verification/PeerReach.v ===== *)
(** * Reachable channel tables

    A table starts empty and changes by the calls of [peer_channel.h], in any
    order, on any channel, against seams that answer anything; the world may
    change between calls.  What holds of every reachable table is what the
    proxy may rely on. *)

From S2P Require Import Prelude Cursor PeerIdentity PeerFrame PairWire PeerState PeerChannel PeerTable FreeList PeerHoare PeerChannelInv PeerChannelTx PeerChannelReset PeerChannelLife PeerChannelStream PeerChannelData PeerChannelProgress PeerTableInv.

(** The calls on one channel. *)
Inductive channel_call :=
  | CallAuthenticated (key : list byte)
  | CallReset
  | CallTransportFailed
  | CallStreamOpen (incarnation : Z) (open : dmesh_peer_stream_open)
  | CallData (incarnation handle seq : Z) (bytes : list byte)
  | CallDelivered (handle seq len : Z)
  | CallSourceDelivered (handle seq len : Z)
  | CallStreamFin (incarnation handle : Z)
  | CallPodGone (incarnation : Z) (pod_uid : list byte)
  | CallAckFlush
  | CallTxCharge (handle seq bytes kind cookie : Z)
  | CallTxAck (incarnation : Z) (entry : dmesh_peer_ack_entry)
  | CallTxDrop (handle : Z)
  | CallStreamRequest (open : dmesh_peer_stream_open)
  | CallDataSend (handle seq : Z) (bytes : list byte) (kind cookie : Z)
  | CallFinSend (handle : Z)
  | CallPodGoneSend (pod_uid : list byte)
  | CallProgress (budget : Z).

(** The calls on the table. *)
Inductive table_call :=
  | CallOn (i : nat) (c : channel_call)
  | CallOpen (node : list byte)
  | CallOpenStream (node : list byte) (intent : dmesh_peer_stream_open)
  | CallAccept (node : list byte) (incarnation : Z) (conn : nat) (key : list byte)
  | CallAcceptPair (node : list byte) (incarnation : Z) (conn : nat) (key : list byte)
  | CallEvictIdle
  | CallRebind
  | CallFini.

(** Arguments fit their C types. *)
Definition call_wf (c : table_call) : Prop :=
  match c with CallOn _ (CallTxCharge _ _ bytes _ _) => in_width 32 bytes | _ => True end.

Section reach.
  Context {W : Type} (E : peer_env W).

Definition run_channel_call (c : channel_call) : pm W unit :=
  match c with
  | CallAuthenticated key => dmesh_peer_authenticated E key;; mret tt
  | CallReset => dmesh_peer_reset E
  | CallTransportFailed => dmesh_peer_transport_failed E
  | CallStreamOpen inc open => dmesh_peer_stream_open_op E inc open;; mret tt
  | CallData inc handle seq bytes => dmesh_peer_data E inc handle seq bytes;; mret tt
  | CallDelivered handle seq len => dmesh_peer_delivered E handle seq len
  | CallSourceDelivered handle seq len => dmesh_peer_source_delivered E handle seq len
  | CallStreamFin inc handle => dmesh_peer_stream_fin E inc handle;; mret tt
  | CallPodGone inc uid => dmesh_peer_pod_gone E inc uid;; mret tt
  | CallAckFlush => dmesh_peer_ack_flush E;; mret tt
  | CallTxCharge handle seq bytes kind cookie => tx_charge handle seq bytes kind cookie;; mret tt
  | CallTxAck inc entry => dmesh_peer_tx_ack E inc entry;; mret tt
  | CallTxDrop handle => dmesh_peer_tx_drop E handle
  | CallStreamRequest open => dmesh_peer_stream_request E open;; mret tt
  | CallDataSend handle seq bytes kind cookie => dmesh_peer_stream_data_send E handle seq bytes kind cookie;; mret tt
  | CallFinSend handle => dmesh_peer_stream_fin_send E handle;; mret tt
  | CallPodGoneSend uid => dmesh_peer_pod_gone_send E uid;; mret tt
  | CallProgress budget => dmesh_peer_channel_progress E budget;; mret tt
  end.

Definition run_call (c : table_call) : tm W unit :=
  match c with
  | CallOn i c => on i (run_channel_call c)
  | CallOpen node => dmesh_peer_open E node;; mret tt
  | CallOpenStream node intent => dmesh_peer_open_stream E node intent;; mret tt
  | CallAccept node inc conn key => dmesh_peer_accept E node inc conn key;; mret tt
  | CallAcceptPair node inc conn key => dmesh_peer_accept_pair E node inc conn key;; mret tt
  | CallEvictIdle => dmesh_peer_evict_idle E
  | CallRebind => dmesh_peer_table_rebind E
  | CallFini => dmesh_peer_table_fini E;; mret tt
  end.

Inductive reachable : dmesh_peer_table W -> Prop :=
  | reach_init w : reachable (dmesh_peer_table_init w)
  | reach_call c t : reachable t -> call_wf c -> reachable (run_call c t).2
  | reach_world t w : reachable t -> reachable (t <| tb_world := w |>).

(** ** Every call keeps the invariant of every channel *)

Lemma wp_forget {A} (m : pm W A) Q c : wp m (fun _ => Q) c -> wp (m;; mret tt) (fun _ => Q) c.
Proof. intros H. wp_step. eapply wp_mono; [done|]. intros a d Hd. by wp_step. Qed.
Lemma twp_forget {A} (m : tm W A) Q cs : twp m (fun _ => Q) cs -> twp (m;; mret tt) (fun _ => Q) cs.
Proof. intros H. twp_step. eapply twp_mono; [done|]. intros a d Hd. by twp_step. Qed.
Lemma wp_of_steps {A} (m : pm W A) c : wp m (fun _ => steps E c) c -> wp m (fun _ => ch_inv E) c.
Proof. intros H. eapply wp_mono; [done|]. by intros a d [Hd _]. Qed.

Lemma wp_channel_call call c :
  call_wf (CallOn 0 call) -> ch_inv E c -> wp (run_channel_call call) (fun _ => ch_inv E) c.
Proof.
  intros Hwf I. destruct call; cbn [run_channel_call]; try apply wp_forget.
  - eapply wp_mono; [by apply wp_authenticated|]. by intros r d (Id & _).
  - by apply wp_reset_keeps.
  - eapply wp_mono; [by apply wp_transport_failed|]. by intros [] d [Id _].
  - eapply wp_mono; [by apply wp_stream_open|]. by intros r d (Id & _).
  - by apply wp_of_steps, wp_data.
  - by apply wp_of_steps, wp_delivered.
  - by apply wp_of_steps, wp_source_delivered.
  - by apply wp_of_steps, wp_stream_fin.
  - by apply wp_of_steps, wp_pod_gone.
  - eapply wp_mono; [by apply wp_ack_flush|]. by intros r d (Id & _).
  - apply wp_tx_charge. intros r d Hd. pose proof (inv_tx_charge E c handle seq bytes kind cookie I Hwf) as H.
    by rewrite Hd in H.
  - by apply wp_of_steps, wp_tx_ack.
  - by apply wp_of_steps, wp_tx_drop.
  - by apply wp_of_steps, wp_stream_request.
  - by apply wp_of_steps, wp_stream_data_send.
  - by apply wp_of_steps, wp_stream_fin_send.
  - by apply wp_of_steps, wp_pod_gone_send.
  - by apply wp_progress.
Qed.

Lemma twp_call call cs : call_wf call -> table_inv E cs -> twp (run_call call) (fun _ => table_inv E) cs.
Proof.
  intros Hwf H. destruct call; cbn [run_call]; try apply twp_forget.
  - apply twp_keeps; [|done]. intros d Id. by apply wp_channel_call.
  - by apply twp_dmesh_peer_open.
  - by apply twp_open_stream.
  - by apply twp_accept.
  - by apply twp_accept_pair.
  - by apply twp_evict_idle.
  - by apply twp_rebind.
  - by apply twp_table_fini.
Qed.

Lemma reachable_inv t : reachable t -> table_inv E (tb_channels t).
Proof.
  induction 1 as [w|c t _ IH Hwf|t w _ IH].
  - split; [apply repeat_length|]. intros i c ->%lookup_repeat. apply inv_zero.
  - by apply (twp_call c (tb_channels t)).
  - exact IH.
Qed.

Lemma reachable_ch_inv t i c : reachable t -> tb_channels t !! i = Some c -> ch_inv E c.
Proof. intros [_ H]%reachable_inv. apply H. Qed.
End reach.
