(* ===== verification/PeerProofs.v ===== *)
(** * What holds of every reachable channel table *)

From S2P Require Import Prelude Cursor PeerIdentity PeerFrame PairWire PairWireProofs PeerState PeerChannel PeerTable FreeList PeerHoare PeerChannelInv PeerChannelRx PeerChannelTx PeerChannelReset PeerChannelLife PeerChannelStream PeerChannelData PeerChannelProgress PeerTableInv PeerReach.

(** ** A small world

    A DPU named "a" with a peer "b": the binding, placement and transport
    answer as for a healthy peer; the upstream keeps every delivered extent. *)

Definition demo_key : list byte := repeat x01 32.
Definition node_a : list byte := [x61; x00].
Definition node_b : list byte := [x62; x00].

Definition demo_transport : dmesh_peer_transport unit :=
  Transport (Some (fun w _ _ _ => ((0, Some 7%nat), w))) (Some (fun w _ => (Some demo_key, w)))
    (Some (fun w _ f => (Z.of_nat (length f), w))) (Some (fun w _ _ => (Some [], w)))
    (Some (fun w _ => w)) None None None.
Definition demo_ops : dmesh_peer_ops unit :=
  Ops (Some (fun w _ => (Some (Binding (Some demo_key) 1 2), w))) (fun w _ _ => (true, w)) (fun w _ => ((0, 1), w))
    None (Some (fun w _ _ => (8080, w))) None None (fun w _ _ _ => (1, w)) None None None None None None None None None.
Definition peer_demo_env : peer_env unit :=
  PeerEnv node_a demo_transport demo_ops (fun _ _ => 0) (fun _ _ => 0) (fun w _ => w) (fun w => (true, w)).

Definition demo_stream : dmesh_peer_stream_open :=
  StreamOpen (demo_name 64) (demo_name 64) (demo_name 128) 80 0 42 6.
Definition demo_calls : list table_call :=
  [CallOpen node_b; CallOn 0 (CallAuthenticated demo_key); CallOn 0 (CallStreamOpen 1 demo_stream);
   CallOn 0 (CallData 1 1 5 [x41; x42; x43]); CallOn 0 (CallDataSend 1 9 [x44; x45] 0 77)].
Definition run_calls {W} (E : peer_env W) (calls : list table_call) (t : dmesh_peer_table W) : dmesh_peer_table W :=
  fold_left (fun t c => (run_call E c t).2) calls t.
Definition demo_table : dmesh_peer_table unit := run_calls peer_demo_env demo_calls (dmesh_peer_table_init tt).

Lemma run_calls_reachable {W} (E : peer_env W) calls t :
  Forall call_wf calls -> reachable E t -> reachable E (run_calls E calls t).
Proof.
  intros H. revert t. induction H as [|c calls Hc _ IH]; intros t Ht; [done|].
  cbn. apply IH. by apply reach_call.
Qed.

Lemma reachable_at {W} (E : peer_env W) t i :
  reachable E t -> (i < CHANNELS)%nat -> tb_channels t !! i = Some (channel_at t i).
Proof.
  intros [Hl _]%reachable_inv Hi. unfold channel_at.
  destruct (lookup_lt_is_Some_2 (tb_channels t) i) as [c Hc]; [lia|]. by rewrite Hc.
Qed.

Lemma demo_reachable : reachable peer_demo_env demo_table.
Proof. apply run_calls_reachable; [|apply reach_init]. by repeat constructor. Qed.

(** The channel to "b": open, one stream, one staged extent, one in flight. *)
Definition demo_channel : dmesh_peer_channel := channel_at demo_table 0.
Lemma demo_channel_at : tb_channels demo_table !! 0%nat = Some demo_channel.
Proof. apply (reachable_at peer_demo_env); [apply demo_reachable|]. vm_compute. lia. Qed.

(** ** Budgets *)

Lemma gsum_compose {A B} (w : B -> Z) (f : A -> B) l : gsum w (f <$> l) = gsum (fun a => w (f a)) l.
Proof. induction l as [|a l IH]; [done|]. rewrite fmap_cons, !gsum_cons. by rewrite IH. Qed.

(** One when the handle is live. *)
Definition live_one (o : dmesh_peer_handle) : Z := if hd_in_use o then 1 else 0.

(** C1: In every reachable table, whatever the transport, the topology and the local proxy answer, each counter of a channel is exactly the sum it stands for and within its bound: bytes staged for local delivery (and each stream's share of them), bytes in flight to the peer, live streams, staged acknowledgements, buffered frame bytes, and the open-rate bucket. *)
Theorem peer_budgets {W} (E : peer_env W) t i c :
  reachable E t -> tb_channels t !! i = Some c ->
  (ch_staging_bytes c = gsum w_held (rx_of c) /\ 0 <= ch_staging_bytes c <= DMESH_PEER_STAGING_MAX) /\
  (forall h o, handles_of c !! h = Some o -> hd_in_use o = true ->
     hd_staging_bytes o = gsum (w_of (hd_wire_handle o)) (rx_of c)) /\
  (ch_inflight_bytes c = gsum w_tx (tx_of c) /\ 0 <= ch_inflight_bytes c <= DMESH_PEER_TX_INFLIGHT_MAX) /\
  (ch_handle_count c = gsum live_one (handles_of c) /\ 0 <= ch_handle_count c <= DMESH_PEER_STREAMS_MAX) /\
  ack_staged c <= DMESH_STREAM_ACK_BATCH /\ rx_len c <= FRAME_CAP /\ tx_len c <= FRAME_CAP /\
  0 <= ch_open_tokens_milli c <= DMESH_PEER_OPEN_RATE * 1000.
Proof.
  intros HR Hc. pose proof (reachable_ch_inv E t i c HR Hc) as I.
  split_and!.
  - rewrite (v_staging I). apply Z.add_0_r.
  - apply (v_staging_max I).
  - apply (v_staging_max I).
  - intros h o Ho U. by apply (handle_share E c h o I Ho U).
  - apply (v_inflight I).
  - by apply (inflight_nonneg E).
  - apply (v_inflight_max I).
  - rewrite (v_count I). unfold cores. by rewrite (gsum_compose w_use core).
  - by apply (count_range E).
  - by apply (count_range E).
  - apply (v_acks I).
  - apply (v_frames I).
  - apply (v_frames I).
  - apply (v_tokens I).
  - apply (v_tokens I).
Qed.

Lemma peer_budgets_witness :
  ch_staging_bytes demo_channel = 3 /\ gsum w_held (rx_of demo_channel) = 3 /\
  ch_inflight_bytes demo_channel = 2 /\ gsum w_tx (tx_of demo_channel) = 2 /\ ch_handle_count demo_channel = 1.
Proof.
  destruct (peer_budgets peer_demo_env demo_table 0 demo_channel demo_reachable demo_channel_at)
    as ([H1 _] & _ & [H2 _] & _).
  assert (ch_staging_bytes demo_channel = 3) as E1 by (vm_compute; reflexivity).
  assert (ch_inflight_bytes demo_channel = 2) as E2 by (vm_compute; reflexivity).
  rewrite <-H1, <-H2, E1, E2. split_and!; vm_compute; reflexivity.
Defined.

(** ** Channels that are not open *)

(** No stream, no slot, no staged or buffered byte. *)
Definition holds_nothing (c : dmesh_peer_channel) : Prop :=
  (forall i o, handles_of c !! i = Some o -> hd_in_use o = false) /\
  (forall i r, rx_of c !! i = Some r -> rs_in_use r = false) /\
  (forall i s, tx_of c !! i = Some s -> tx_in_use s = false) /\
  ch_staging_bytes c = 0 /\ ch_inflight_bytes c = 0 /\ ch_ack_stage c = [] /\ rx_len c = 0 /\ tx_len c = 0.

Lemma inv_holds_nothing {W} (E : peer_env W) c : ch_inv E c -> ch_state c <> OPEN -> holds_nothing c.
Proof.
  intros I Hs. destruct (v_quiet I Hs) as (Q1 & Q2 & Q3 & Q4 & Q5 & Q6 & Q7). split_and!; try done.
  - intros i o Ho. destruct (hd_in_use o) eqn:U; [|done]. exfalso. apply Hs. by eapply (live_open E None c).
  - rewrite (v_staging I), (unused_held _ Q3). done.
Qed.

(** ** Free lists *)

(** In every reachable table the free list of the transmit slots and that of the receive slots of a channel each run, from the head and without repetition, through exactly the unused slots; so while a slot is unused an allocation finds one, and it never hands out a slot in use. *)
Lemma channel_free_lists {W} (E : peer_env W) t i c tx rx :
  reachable E t -> tb_channels t !! i = Some c -> ch_tx c = Some tx -> ch_rx c = Some rx ->
  (exists idxs, linked tx_next tx (ch_tx_free c) idxs /\ NoDup idxs /\
     forall j, j ∈ idxs <-> exists s, tx !! j = Some s /\ tx_in_use s = false) /\
  (exists idxs, linked rs_next rx (ch_rx_free c) idxs /\ NoDup idxs /\
     forall j, j ∈ idxs <-> exists s, rx !! j = Some s /\ rs_in_use s = false).
Proof.
  intros HR Hc Ht Hr. pose proof (reachable_ch_inv E t i c HR Hc) as I.
  destruct (v_tx I Ht) as [_ [_ H1]]. destruct (v_rx I Hr) as [_ [_ H2]]. by split.
Qed.

(** ** Handle lookup *)

Lemma wire_stray_all :
  forallb (fun i => (handle_stray (Z.lor (i + 1) 0) =? 0) &&
                    (handle_stray (Z.lor (i + 1) DMESH_PEER_HANDLE_OWNER_BIT) =? 0)) (seqZ 0 4096) = true.
Proof. vm_compute. reflexivity. Qed.

Lemma wire_stray i bit :
  0 <= i < 4096 -> bit = 0 \/ bit = DMESH_PEER_HANDLE_OWNER_BIT -> handle_stray (Z.lor (i + 1) bit) = 0.
Proof.
  intros Hi Hb. pose proof wire_stray_all as H. rewrite forallb_forall in H.
  assert (In i (seqZ 0 4096)) as Hin by (apply list_elem_of_In, elem_of_seqZ; lia).
  specialize (H i Hin). rewrite andb_true_iff, !Z.eqb_eq in H. destruct H. by destruct Hb as [-> | ->].
Qed.

(** The reference lookup: the first live handle with that wire handle. *)
Fixpoint live_from (i : nat) (l : list dmesh_peer_handle) (handle : Z) : option nat :=
  match l with
  | [] => None
  | o :: rest => if hd_in_use o && (hd_wire_handle o =? handle) then Some i else live_from (S i) rest handle
  end.

Lemma live_from_Some i l handle j :
  live_from i l handle = Some j ->
  (i <= j)%nat /\ exists o, l !! (j - i)%nat = Some o /\ hd_in_use o = true /\ hd_wire_handle o = handle.
Proof.
  revert i. induction l as [|o l IH]; intros i; cbn [live_from]; [done|]. destruct (_ && _) eqn:Eb.
  - intros [= <-]. split; [lia|]. exists o. rewrite Nat.sub_diag. rewrite andb_true_iff, Z.eqb_eq in Eb. destruct Eb. by split_and!.
  - intros (Hle & q & Hq & H)%IH. split; [lia|]. exists q. replace (j - i)%nat with (S (j - S i))%nat by lia. done.
Qed.
Lemma live_from_None i l handle :
  live_from i l handle = None -> forall j o, l !! j = Some o -> hd_in_use o = true -> hd_wire_handle o <> handle.
Proof.
  revert i. induction l as [|q l IH]; intros i; cbn [live_from]; [done|]. destruct (_ && _) eqn:Eb; [done|].
  intros Hn [|j] o; [intros [= <-] U Hw|by apply (IH _ Hn)]. by rewrite U, Hw, Z.eqb_refl in Eb.
Qed.

Lemma handle_of_live {W} (E : peer_env W) c h o :
  ch_inv E c -> handles_of c !! h = Some o -> hd_in_use o = true -> peer_handle_of c (hd_wire_handle o) = Some h.
Proof.
  intros I Ho U. pose proof (core_lookup c h o Ho) as Hk. destruct (v_wire I h Hk U) as [Hinc Hw]. cbn in Hinc, Hw.
  pose proof (core_range E None c h _ I Hk) as R. pose proof (owner_bit_cases E c) as HB.
  unfold peer_handle_of. rewrite Hw, (wire_index _ _ R HB), (wire_stray _ _ R HB).
  unfold DMESH_PEER_STREAMS_MAX. destruct (Z.eqb_spec (Z.of_nat h + 1) 0); [lia|].
  destruct (Z.ltb_spec 4096 (Z.of_nat h + 1)); [lia|]. cbn [orb negb Z.eqb].
  replace (Z.to_nat (Z.of_nat h + 1 - 1)) with h by lia. rewrite Ho, U, Hinc, Hw, !Z.eqb_refl. done.
Qed.

(** In every reachable table the constant-time handle lookup, which indexes the handle table by the wire handle, agrees with a scan for the first live handle carrying that wire handle, on every 32-bit value a peer may send; and no two live handles of a channel carry the same wire handle. *)
Lemma channel_handle_lookup {W} (E : peer_env W) t i c :
  reachable E t -> tb_channels t !! i = Some c ->
  (forall handle, peer_handle_of c handle = live_from 0 (handles_of c) handle) /\
  (forall h h' o o', handles_of c !! h = Some o -> handles_of c !! h' = Some o' ->
     hd_in_use o = true -> hd_in_use o' = true -> hd_wire_handle o = hd_wire_handle o' -> h = h').
Proof.
  intros HR Hc. pose proof (reachable_ch_inv E t i c HR Hc) as I.
  assert (forall h h' o o', handles_of c !! h = Some o -> handles_of c !! h' = Some o' ->
     hd_in_use o = true -> hd_in_use o' = true -> hd_wire_handle o = hd_wire_handle o' -> h = h') as HU.
  { intros h h' o o' Ho Ho' U U' Hw. pose proof (handle_of_live E c h o I Ho U) as H1.
    rewrite Hw, (handle_of_live E c h' o' I Ho' U') in H1. congruence. }
  split; [|done]. intros handle. destruct (live_from 0 (handles_of c) handle) as [j|] eqn:Hl.
  - apply live_from_Some in Hl as (_ & o & Ho & U & <-). rewrite Nat.sub_0_r in Ho. by apply (handle_of_live E).
  - destruct (peer_handle_of c handle) as [h|] eqn:Hh; [|done].
    apply handle_of_Some in Hh as (o & Ho & U & _ & Hw & _). by destruct (live_from_None _ _ _ Hl h o Ho U).
Qed.

(** C19: The tables of a channel are exact.  In every reachable table a channel that is
    not open holds nothing (no live stream, no receive or transmit slot, no
    staged, buffered or in-flight byte), a closed channel has no connection and no
    pair wire state, and a channel that is open has its connection and all its
    tables and buffers, with the Pod-pair wire state when it is pair-scoped.  The
    free lists of the transmit and of the receive slots run, without repetition,
    through exactly the unused slots.  The constant-time handle lookup agrees with
    a scan for the first live handle with that wire handle, on every value a peer
    may send, and no two live handles carry the same wire handle. *)
Theorem peer_states {W} (E : peer_env W) t i c :
  reachable E t -> tb_channels t !! i = Some c ->
  (ch_state c <> OPEN -> holds_nothing c) /\
  (ch_state c = CLOSED -> ch_conn c = None /\ ch_pair_wire c = None) /\
  (ch_state c <> CLOSED -> is_Some (ch_conn c) /\ tables_there c) /\
  (ch_state c = OPEN -> ch_pair_scoped c = true ->
     is_Some (ch_pair_wire c) /\ ch_pair_tx_frame c = true /\ ch_pair_rx_payload c = true) /\
  (forall tx rx, ch_tx c = Some tx -> ch_rx c = Some rx ->
     (exists idxs, linked tx_next tx (ch_tx_free c) idxs /\ NoDup idxs /\
        forall j, j ∈ idxs <-> exists s, tx !! j = Some s /\ tx_in_use s = false) /\
     (exists idxs, linked rs_next rx (ch_rx_free c) idxs /\ NoDup idxs /\
        forall j, j ∈ idxs <-> exists s, rx !! j = Some s /\ rs_in_use s = false)) /\
  (forall handle, peer_handle_of c handle = live_from 0 (handles_of c) handle) /\
  (forall h h' o o', handles_of c !! h = Some o -> handles_of c !! h' = Some o' ->
     hd_in_use o = true -> hd_in_use o' = true -> hd_wire_handle o = hd_wire_handle o' -> h = h').
Proof.
  intros HR Hc. pose proof (reachable_ch_inv E t i c HR Hc) as I.
  split; [by apply (inv_holds_nothing E)|]. split; [apply (v_closed I)|]. split.
  { intros Hn. destruct (v_live I Hn) as (A1 & A2 & A3 & A4 & A5 & A6). by split_and!. }
  split; [apply (v_open I)|]. split; [by intros tx rx; apply channel_free_lists with E t i|].
  by apply (channel_handle_lookup E t i c).
Qed.

Lemma peer_states_witness :
  ch_conn (channel_at demo_table 1) = None /\
  (exists tx idxs, ch_tx demo_channel = Some tx /\ linked tx_next tx 1 idxs /\ NoDup idxs) /\
  live_from 0 (handles_of demo_channel) 1 = Some 0%nat.
Proof.
  assert (tb_channels demo_table !! 1%nat = Some (channel_at demo_table 1)) as H1.
  { apply (reachable_at peer_demo_env); [apply demo_reachable|]. vm_compute. lia. }
  destruct (peer_states peer_demo_env demo_table 1 _ demo_reachable H1) as (_ & HC & _).
  assert (ch_state (channel_at demo_table 1) = CLOSED) as HS by (vm_compute; reflexivity).
  split; [exact (proj1 (HC HS))|].
  destruct (peer_states peer_demo_env demo_table 0 _ demo_reachable demo_channel_at) as (_ & _ & HL & _ & HF & HH & _).
  assert (ch_state demo_channel = OPEN) as HO by (vm_compute; reflexivity).
  destruct HL as (_ & _ & [tx Htx] & [rx Hrx] & _); [by rewrite HO|]. destruct (HF tx rx Htx Hrx) as [(idxs & F1 & F2 & _) _].
  assert (ch_tx_free demo_channel = 1) as E1 by (vm_compute; reflexivity). rewrite E1 in F1.
  split; [exact (ex_intro _ tx (ex_intro _ idxs (conj Htx (conj F1 F2))))|].
  assert (peer_handle_of demo_channel 1 = Some 0%nat) as E2 by (vm_compute; reflexivity). exact (eq_trans (eq_sym (HH 1)) E2).
Defined.

(** ** Ownership of handles *)

Lemma owner_bit_land i bit :
  0 <= i < 4096 -> bit = 0 \/ bit = DMESH_PEER_HANDLE_OWNER_BIT ->
  Z.land (Z.lor (i + 1) bit) DMESH_PEER_HANDLE_OWNER_BIT = bit.
Proof.
  intros Hi Hb. assert (Z.land (i + 1) DMESH_PEER_HANDLE_OWNER_BIT = 0) as H.
  { apply Z.bits_inj'. intros n Hn. rewrite Z.land_spec, Z.bits_0. change DMESH_PEER_HANDLE_OWNER_BIT with (2 ^ 31).
    destruct (decide (n = 31)) as [->|Hne]; [|rewrite Z.pow2_bits_false by lia; by rewrite andb_false_r].
    rewrite (Z.bits_above_log2 (i + 1) 31); [done|lia|]. apply Z.log2_lt_pow2; lia. }
  rewrite Z.land_lor_distr_l, H, Z.lor_0_l. by destruct Hb as [-> | ->].
Qed.

(** When two differently named DPUs hold the two ends of a channel, a handle one of them issued for a stream is locally owned at that end and at that end only: a wire handle never names a stream of both ends, so the destination and source tables of a channel cannot be confused. *)
Lemma peer_handle_owner {W W'} (E : peer_env W) (E' : peer_env W') t i c h o c' :
  reachable E t -> tb_channels t !! i = Some c -> handles_of c !! h = Some o -> hd_in_use o = true ->
  str_eq (ch_node_name c) (pe_node_name E') = true -> str_eq (ch_node_name c') (pe_node_name E) = true ->
  str_eq (pe_node_name E) (pe_node_name E') = false ->
  locally_owned E c (hd_wire_handle o) = true /\ locally_owned E' c' (hd_wire_handle o) = false.
Proof.
  intros HR Hc Ho U N1 N2 Hne. pose proof (reachable_ch_inv E t i c HR Hc) as I.
  pose proof (core_lookup c h o Ho) as Hk. destruct (v_wire I h Hk U) as [_ Hw]. cbn in Hw.
  pose proof (core_range E None c h _ I Hk) as R.
  unfold locally_owned. rewrite Hw, (owner_bit_land _ _ R (owner_bit_cases E c)). split; [apply Z.eqb_refl|].
  apply Z.eqb_neq. unfold peer_local_owner_bit.
  rewrite str_eq_spec in N1, N2. unfold str_eq in Hne. apply Z.eqb_neq in Hne.
  rewrite (strcmp_cstr (pe_node_name E) (ch_node_name c)), N1, <-strcmp_cstr.
  rewrite (strcmp_cstr (pe_node_name E') (ch_node_name c')), N2, <-strcmp_cstr.
  rewrite (strcmp_opp (pe_node_name E) (pe_node_name E')).
  destruct (Z.ltb_spec 0 (strcmp (pe_node_name E) (pe_node_name E'))),
           (Z.ltb_spec 0 (- strcmp (pe_node_name E) (pe_node_name E'))); try lia; done.
Qed.

(** ** Authentication *)

(** A channel opens only by authentication: [dmesh_peer_authenticated] on a reachable channel succeeds only while it is authenticating and only for the static key the current binding named, and then the channel is open; any other key or a failed pair check closes the channel with nothing held, and outside authentication the call changes nothing but a refusal counter. *)
Lemma channel_authentication {W} (E : peer_env W) t i c key s r s' :
  reachable E t -> tb_channels t !! i = Some c -> ps_channel s = c ->
  dmesh_peer_authenticated E key s = (r, s') ->
  (r = OK -> ch_state c = AUTHENTICATING /\ bytes_eq (ch_bound_key c) key = true /\ ch_state (ps_channel s') = OPEN) /\
  (r <> OK -> ch_state c = AUTHENTICATING -> ch_state (ps_channel s') = CLOSED /\ holds_nothing (ps_channel s')) /\
  (ch_state c <> AUTHENTICATING -> ps_channel s' = refused_once REFUSE_STATE c).
Proof.
  intros HR Hc Hs Hrun. pose proof (reachable_ch_inv E t i c HR Hc) as I.
  pose proof (wp_authenticated E key c I s Hs) as H. rewrite Hrun in H. cbn [fst snd] in H.
  destruct H as (I' & H1 & H2 & H3). split_and!; [|intros Hn Ha|exact H3].
  - intros Hr. by destruct (H1 Hr) as (A1 & A2 & A3 & _).
  - pose proof (H2 Hn Ha) as HC. split; [done|]. apply (inv_holds_nothing E); [done|]. congruence.
Qed.

Definition demo_dialed : dmesh_peer_table unit := run_calls peer_demo_env [CallOpen node_b] (dmesh_peer_table_init tt).
Lemma demo_dialed_reachable : reachable peer_demo_env demo_dialed.
Proof. apply run_calls_reachable; [|apply reach_init]. by repeat constructor. Qed.

(** ** Receiving terminates *)

(** C36: On an open channel of a reachable table the loop that reads until a whole frame is there always ends: however the transport splits its bytes, with the fuel of the model ([receive_fuel], two more than the frame buffer holds) the model never runs out, and it stops idle, with a frame, or with the channel reset and closed. *)
Theorem peer_receive_terminates {W} (E : peer_env W) t i c s r s' :
  reachable E t -> tb_channels t !! i = Some c -> ch_state c = OPEN -> ps_channel s = c ->
  receive_frame E receive_fuel s = (r, s') ->
  r <> Exhausted /\
  match r with Faulted => ch_state (ps_channel s') = CLOSED | _ => ch_state (ps_channel s') = OPEN end.
Proof.
  intros HR Hc HO Hs Hrun. pose proof (reachable_ch_inv E t i c HR Hc) as I.
  assert (wp (receive_frame E receive_fuel) (received E c) c) as H.
  { apply wp_receive_frame; [by apply steps_same|done|done|].
    unfold receive_fuel, rx_len. change (FRAME_CAP + 2) with 65618.
    unfold FRAME_CAP, HEADER_LEN, DMESH_PEER_FRAME_MAX, DMESH_PEER_EXTENT_MAX. lia. }
  specialize (H s Hs). rewrite Hrun in H. destruct H as (_ & H1 & H2). split; [done|]. destruct r; by destruct H2.
Qed.

Lemma peer_receive_terminates_witness :
  ch_state demo_channel = OPEN /\
  (receive_frame peer_demo_env receive_fuel (PState 0 demo_channel [] tt)).1 <> Exhausted.
Proof.
  assert (ch_state demo_channel = OPEN) as HO by (vm_compute; reflexivity). split; [exact HO|].
  set (s := PState 0 demo_channel [] tt). assert (ps_channel s = demo_channel) as Hs by reflexivity. clearbody s.
  destruct (receive_frame peer_demo_env receive_fuel s) as [r s'] eqn:R. cbn [fst].
  pose proof (peer_receive_terminates peer_demo_env demo_table 0 demo_channel s r s'
    demo_reachable demo_channel_at HO Hs R) as [H _]. exact H.
Defined.

(** ** What the stream operations of a channel admit

    Admission of a stream, the order of its data, and frames of an earlier
    life of the channel. *)

(** ** Admission *)

Lemma opened_fresh {W} (E : peer_env W) open i c r c' o :
  ch_inv E c -> ch_inv E c' -> ch_state c = OPEN -> (i < STREAMS)%nat -> hd_in_use (handle_at c i) = false ->
  opened_handle E c i open o -> r = hd_wire_handle o -> ch_handles c' = fmap <[i := o]> (ch_handles c) ->
  peer_handle_of c r = None /\ peer_handle_of c' r = Some i /\ handle_at c' i = o /\
  forall j, j <> i -> handle_at c' j = handle_at c j.
Proof.
  intros I I' HO Hi Ui Hop -> Hh. destruct (handles_there E c I HO) as (l & Hl & Hlen).
  pose proof Hop as (U & _ & Hw & _).
  assert (handles_of c' = <[i := o]> (handles_of c)) as HH by (unfold handles_of; rewrite Hh, Hl; done).
  assert (handles_of c = l) as HL by (unfold handles_of; by rewrite Hl).
  assert (handles_of c' !! i = Some o) as Ho by (rewrite HH, HL; apply list_lookup_insert_eq; lia).
  split_and!.
  - destruct (peer_handle_of c (hd_wire_handle o)) as [j|] eqn:Hj; [|done]. exfalso.
    apply handle_of_Some in Hj as (q & Hq & Uq & _ & Wq & _).
    pose proof (core_lookup c j q Hq) as Hk. destruct (v_wire I j Hk Uq) as [_ Hwj]. cbn in Hwj.
    pose proof (core_range E None c j _ I Hk) as Rj.
    assert (0 <= Z.of_nat i < 4096) as Ri by (pose proof STREAMS_eq; lia).
    pose proof (wire_index _ _ Rj (owner_bit_cases E c)) as E1.
    pose proof (wire_index _ _ Ri (owner_bit_cases E c)) as E2.
    rewrite <-Hwj, Wq, Hw in E1. assert (i = j) as -> by lia.
    rewrite (handle_at_lookup c j q Hq) in Ui. congruence.
  - by apply (handle_of_live E c' i o).
  - by apply handle_at_lookup.
  - intros j Hj. unfold handle_at. by rewrite HH, list_lookup_insert_ne.
Qed.


Definition demo_opened : dmesh_peer_table unit :=
  run_calls peer_demo_env [CallOpen node_b; CallOn 0 (CallAuthenticated demo_key)] (dmesh_peer_table_init tt).
Lemma demo_opened_reachable : reachable peer_demo_env demo_opened.
Proof. apply run_calls_reachable; [|apply reach_init]. by repeat constructor. Qed.
Definition demo_open_channel : dmesh_peer_channel := channel_at demo_opened 0.
Lemma demo_opened_at : tb_channels demo_opened !! 0%nat = Some demo_open_channel.
Proof. apply (reachable_at peer_demo_env); [apply demo_opened_reachable|]. vm_compute. lia. Qed.


(** ** Frames of another incarnation *)

Section stale.
  Context {W : Type} (E : peer_env W).

Lemma wp_stale inc c :
  ch_state c = OPEN -> inc <> ch_incarnation c ->
  wp (peer_live E inc) (fun r c' => r = REFUSE_INCARNATION /\ c' = refused_once REFUSE_INCARNATION c) c.
Proof.
  intros HO Hne. unfold peer_live. wp_step. wp_step. rewrite HO. cbn [is_open negb].
  destruct (Z.eqb_spec inc (ch_incarnation c)); [done|]. by apply wp_refuse.
Qed.

Lemma wp_stale_bind {A} inc c (f : dmesh_peer_refusal -> A) (m : pm W A) :
  ch_state c = OPEN -> inc <> ch_incarnation c ->
  wp (live ← peer_live E inc; if negb (ok live) then mret (f live) else m)
    (fun r c' => r = f REFUSE_INCARNATION /\ c' = refused_once REFUSE_INCARNATION c) c.
Proof. intros HO Hne. wp_step. eapply wp_mono; [by apply wp_stale|]. intros r d [-> ->]. cbn [ok negb]. by wp_step. Qed.
End stale.

(** The result and the channel of a run. *)
Definition outcome {W A} (m : pm W A) (s : pstate W) : A * dmesh_peer_channel := ((m s).1, ps_channel (m s).2).
Lemma wp_outcome {W A} (m : pm W A) a c c' s :
  ps_channel s = c -> wp m (fun r d => r = a /\ d = c') c -> outcome m s = (a, c').
Proof. intros Hs H. unfold outcome. by destruct (H s Hs) as [-> ->]. Qed.

(** Operations and frames that carry an incarnation other than the current one of an open channel (a stream open, data, FIN, Pod departure or acknowledgement of an earlier connection, or a whole received frame) are refused with the incarnation reason, and nothing of the channel changes but the counter of that refusal. *)
Lemma stale_refused {W} (E : peer_env W) s c inc :
  ps_channel s = c -> ch_state c = OPEN -> inc <> ch_incarnation c ->
  let c' := refused_once REFUSE_INCARNATION c in
  (forall open, outcome (dmesh_peer_stream_open_op E inc open) s = ((REFUSE_INCARNATION, 0), c')) /\
  (forall handle seq bytes, outcome (dmesh_peer_data E inc handle seq bytes) s = (REFUSE_INCARNATION, c')) /\
  (forall handle, outcome (dmesh_peer_stream_fin E inc handle) s = (REFUSE_INCARNATION, c')) /\
  (forall uid, outcome (dmesh_peer_pod_gone E inc uid) s = (REFUSE_INCARNATION, c')) /\
  (forall entry, outcome (dmesh_peer_tx_ack E inc entry) s = (REFUSE_INCARNATION, c')) /\
  (forall header payload, mh_incarnation header = inc -> outcome (peer_dispatch_frame E header payload) s = (false, c')).
Proof.
  intros Hs HO Hne c'. split_and!; intros; apply (wp_outcome _ _ c); try done.
  - by apply (wp_stale_bind E inc c (fun l => (l, 0))).
  - by apply (wp_stale_bind E inc c (fun l => l)).
  - by apply (wp_stale_bind E inc c (fun l => l)).
  - by apply (wp_stale_bind E inc c (fun l => l)).
  - by apply (wp_stale_bind E inc c (fun l => l)).
  - unfold peer_dispatch_frame. wp_step. wp_step. subst inc.
    destruct (Z.eqb_spec (mh_incarnation header) (ch_incarnation c)); [done|]. cbn [negb].
    unfold refuse_frame. wp_step. apply wp_refuse. by wp_step.
Qed.

(** ** Order *)

(** What accepting data on a stream requires. *)
Definition data_in_order (c : dmesh_peer_channel) (handle seq : Z) (bytes : list byte) : Prop :=
  0 < Z.of_nat (length bytes) <= DMESH_PEER_EXTENT_MAX /\
  ch_staging_bytes c + Z.of_nat (length bytes) <= DMESH_PEER_STAGING_MAX /\
  peer_handle_wire_ok handle = true /\
  forall h, peer_handle_of c handle = Some h ->
    hd_rx_fin (handle_at c h) = false /\
    (hd_rx_seq_valid (handle_at c h) = true -> seq = u32 (hd_rx_seq (handle_at c h) + 1)).

Lemma wp_given {W A} (m : pm W A) (P : A -> Prop) (F : Prop) c : F -> wp m (fun r _ => P r -> F) c.
Proof. by intros HF s _ _. Qed.

Lemma wp_refused_data {W} (E : peer_env W) r (F : Prop) c :
  r <> OK -> wp (peer_refuse E r) (fun r _ => r = OK -> F) c.
Proof. intros Hr. by apply wp_refuse. Qed.

Lemma wp_data_order {W} (E : peer_env W) inc handle seq bytes c :
  ch_inv E c ->
  wp (dmesh_peer_data E inc handle seq bytes)
    (fun r _ => r = OK -> ch_state c = OPEN /\ inc = ch_incarnation c /\ data_in_order c handle seq bytes) c.
Proof.
  intros I. unfold dmesh_peer_data. cbv zeta. wp_step. eapply wp_mono; [by apply wp_live|].
  intros r d (Id & Hok & _). destruct (ok r) eqn:Er; cbn [negb]; [|wp_step; by intros ->].
  assert (r = OK) as -> by (by destruct r). destruct (Hok eq_refl) as (HO & Od & Hinc & Hd).
  assert (handles_of d = handles_of c /\ ch_staging_bytes d = ch_staging_bytes c /\ ch_incarnation d = ch_incarnation c)
    as (Hh & Hst & Hi) by (destruct Hd as [->|(p & _ & _ & ->)]; by split_and!). clear Hd Hok.
  wp_if; [by apply wp_refused_data|]. wp_if; [by apply wp_refused_data|].
  assert (0 < Z.of_nat (length bytes) <= DMESH_PEER_EXTENT_MAX) as Hl by (bool_facts; lia).
  rewrite negb_false_iff in *. wp_step. wp_step.
  assert (forall F : Prop, (ch_staging_bytes c + Z.of_nat (length bytes) <= DMESH_PEER_STAGING_MAX -> F) ->
    (DMESH_PEER_STAGING_MAX <? u64 (ch_staging_bytes d + Z.of_nat (length bytes))) = false -> F) as HF.
  { intros F HF Hn. apply HF. rewrite <-Hst. by apply (staging_fits E). }
  assert (peer_handle_of d handle = peer_handle_of c handle) as Hho by (unfold peer_handle_of; by rewrite Hh, Hi).
  destruct (peer_handle_of d handle) as [h|] eqn:Eh.
  - unfold data_destination. cbv zeta. wp_step. wp_step. wp_step.
    match goal with |- wp _ (fun a c' => wp (@?f a) ?Q c') d => assert (forall a, wp (f a) Q d) as HX; [cbv beta|cbv beta in HX] end.
    2:{ destruct (op_pod_generation _); [wp_go; exact (HX (negb _))|wp_step; exact (HX false)]. }
    intros stale. wp_if; [wp_step; apply wp_refuse; by wp_go|]. wp_if; [by apply wp_refused_data|].
    wp_if; [by apply wp_refused_data|]. wp_if; [by apply wp_refused_data|]. apply wp_given.
    assert (handle_at d h = handle_at c h) as Hat by (unfold handle_at; by rewrite Hh). rewrite Hat in *.
    split; [done|]. split; [done|]. split; [done|]. split; [by eapply HF|]. split; [done|]. rewrite <-Hho. intros h' [= <-]. split; [done|]. intros Hv.
    rewrite Hv in *. cbn [andb] in *. rewrite negb_false_iff, Z.eqb_eq in *. done.
  - unfold data_source. cbv zeta. wp_step. wp_step. wp_if; [by apply wp_refused_data|].
    destruct (op_source_deliver _); [|by apply wp_refused_data]. wp_if; [by apply wp_refused_data|]. apply wp_given.
    split; [done|]. split; [done|]. split; [done|]. split; [by eapply HF|]. split; [done|]. by rewrite <-Hho.
Qed.

(** Data is accepted on a channel only in the current incarnation, with a payload of 1 to 64 KiB that fits the remaining staging budget, for a well-formed handle; and on a stream this DPU serves only before its FIN and, once a first sequence number is known, only with exactly the next one (modulo 2^32): a stream's extents are accepted without gap, duplicate or reordering. *)
Lemma data_ordered {W} (E : peer_env W) t i c inc handle seq bytes s :
  reachable E t -> tb_channels t !! i = Some c -> ps_channel s = c ->
  (dmesh_peer_data E inc handle seq bytes s).1 = OK ->
  ch_state c = OPEN /\ inc = ch_incarnation c /\ data_in_order c handle seq bytes.
Proof.
  intros HR Hc Hs Hok. pose proof (reachable_ch_inv E t i c HR Hc) as I.
  exact (wp_data_order E inc handle seq bytes c I s Hs Hok).
Qed.


