(* ===== verification/PeerLedger.v ===== *)
(** * The custody ledger of a channel

    Every extent a channel sends stays in the sender's custody until the peer
    acknowledges it or the channel is lost.  The abstract ledger is the list of
    outstanding extents; the transmit table, its free list and its counters
    implement it, and every extent that leaves the ledger is handed back to its
    owner by exactly one release callback. *)

From S2P Require Import Prelude Cursor PeerIdentity PeerFrame PairWire PairWireProofs PeerState PeerChannel PeerTable FreeList PeerHoare PeerChannelInv PeerChannelRx PeerChannelTx PeerChannelReset PeerChannelLife PeerChannelStream PeerChannelData PeerChannelProgress PeerTableInv PeerReach PeerProofs.

(** ** The ledger *)

Record outstanding := Outstanding { out_handle : Z; out_seq : Z; out_bytes : Z; out_kind : Z; out_cookie : Z }.
Definition entry_of (t : dmesh_peer_txslot) : outstanding :=
  Outstanding (tx_handle t) (tx_seq t) (tx_bytes t) (tx_kind t) (tx_cookie t).
Definition entries (l : list dmesh_peer_txslot) : list outstanding :=
  entry_of <$> filter (fun t => tx_in_use t = true) l.
Definition ledger (c : dmesh_peer_channel) : list outstanding := entries (tx_of c).

(** What an acknowledgement names: a run of sequence numbers of a handle,
    modulo 2^32. *)
Definition acked_by (e : dmesh_peer_ack_entry) (o : outstanding) : bool :=
  (out_handle o =? ae_handle e) && (u32 (out_seq o - ae_seq_first e) <? ae_seq_count e).

(** ** Tables *)

Lemma entries_cons t l : entries (t :: l) = if tx_in_use t then entry_of t :: entries l else entries l.
Proof. unfold entries. rewrite filter_cons. by destruct (tx_in_use t). Qed.

Lemma entries_insert_use l i t t' :
  l !! i = Some t -> tx_in_use t = false -> tx_in_use t' = true -> entries (<[i := t']> l) ≡ₚ entry_of t' :: entries l.
Proof.
  revert i. induction l as [|a l IH]; intros [|i] Hi U U'; simplify_eq/=; rewrite !entries_cons.
  - by rewrite U, U'.
  - destruct (tx_in_use a); [|by apply IH]. rewrite (IH i) by done. constructor.
Qed.

Lemma entries_unused l : (forall i t, l !! i = Some t -> tx_in_use t = false) -> entries l = [].
Proof.
  induction l as [|a l IH]; intros H; [done|]. rewrite entries_cons, (H 0%nat a eq_refl).
  apply IH. intros i. apply (H (S i)).
Qed.

(** [cur] is [orig] with the slots before [k] that satisfy [p] freed. *)
Definition freed_upto (p : dmesh_peer_txslot -> bool) (k : nat) (orig cur : list dmesh_peer_txslot) : Prop :=
  length cur = length orig /\ forall j t, orig !! j = Some t -> exists t', cur !! j = Some t' /\
    if bool_decide (j < k)%nat && p t then tx_in_use t' = false else t' = t.

Lemma freed_start p l : freed_upto p 0 l l.
Proof. split; [done|]. intros j t Hj. exists t. split; [done|]. by rewrite bool_decide_false by lia. Qed.

Lemma freed_at p i l cur t : freed_upto p i l cur -> l !! i = Some t -> cur !! i = Some t.
Proof. intros [_ H] Hi. destruct (H i t Hi) as (t' & Ht & He). rewrite bool_decide_false in He by lia. cbn in He. by subst. Qed.

Lemma freed_skip p i l cur : freed_upto p i l cur -> (forall t, l !! i = Some t -> p t = false) -> freed_upto p (S i) l cur.
Proof.
  intros [Hl H] Hi. split; [done|]. intros j t Hj. destruct (H j t Hj) as (t' & Ht & He). exists t'. split; [done|].
  destruct (decide (j = i)) as [->|Hne].
  - rewrite (Hi t Hj), andb_false_r in *. done.
  - rewrite (bool_decide_ext (j < S i)%nat (j < i)%nat) by lia. done.
Qed.

Lemma freed_free p i l cur t' :
  freed_upto p i l cur -> (i < length l)%nat -> tx_in_use t' = false -> (forall t, l !! i = Some t -> p t = true) ->
  freed_upto p (S i) l (<[i := t']> cur).
Proof.
  intros [Hl H] Hi U Hp. split; [by rewrite length_insert|]. intros j t Hj. destruct (decide (j = i)) as [->|Hne].
  - exists t'. rewrite list_lookup_insert_eq by lia. split; [done|]. rewrite (Hp t Hj), bool_decide_true by lia. done.
  - destruct (H j t Hj) as (q & Hq & He). exists q. rewrite list_lookup_insert_ne by done. split; [done|].
    by rewrite (bool_decide_ext (j < S i)%nat (j < i)%nat) by lia.
Qed.

Lemma freed_end p n l cur :
  freed_upto (fun t => tx_in_use t && p (entry_of t)) n l cur -> (length l <= n)%nat ->
  entries cur = filter (fun o => p o = false) (entries l).
Proof.
  intros [Hl H] Hn.
  assert (Forall2 (fun t t' => if tx_in_use t && p (entry_of t) then tx_in_use t' = false else t' = t) l cur) as HF.
  { apply Forall2_same_length_lookup. split; [done|]. intros j t t' Ht Ht'. destruct (H j t Ht) as (q & Hq & He).
    rewrite bool_decide_true in He by (apply lookup_lt_Some in Ht; lia). by simplify_eq. }
  clear H Hl Hn. induction HF as [|t t' l cur Ht _ IH]; [done|]. rewrite !entries_cons, IH.
  destruct (tx_in_use t) eqn:U; cbn [andb] in Ht.
  - rewrite filter_cons. destruct (p (entry_of t)) eqn:P; [rewrite Ht; done|]. by rewrite Ht, U.
  - by rewrite Ht, U.
Qed.

(** ** Freeing one slot *)

Lemma owner_freed_tx t c : ch_tx (tx_owner_freed t c) = ch_tx c.
Proof.
  unfold tx_owner_freed. destruct (peer_handle_of _ _) as [h|]; [|done]. destruct (_ <=? _); [|done].
  destruct (rx_side_maybe h (set_handle h ((handle_at c h) <| hd_tx_inflight_bytes := hd_tx_inflight_bytes (handle_at c h) - tx_bytes t |>) c))
    as (? & ? & ? & ? & ? & ->). done.
Qed.

Lemma free_slot_tx i c :
  exists t', tx_in_use t' = false /\ tx_of (peer_tx_free_slot i c) = <[i := t']> (tx_of c).
Proof.
  rewrite tx_free_slot_eq. cbv zeta. set (d := tx_owner_freed _ _).
  assert (ch_tx d = ch_tx c) as Hd by (unfold d; by rewrite owner_freed_tx). clearbody d.
  set (t' := (tx_at c i) <| tx_in_use := false |> <| tx_cookie := 0 |> <| tx_next := ch_tx_free d |>).
  exists t'. split; [done|]. unfold tx_of. rewrite <-Hd. destruct (_ <? _); cbn; by destruct (ch_tx d).
Qed.

(** ** The retiring loops, on the whole state *)

Section loops.
  Context {W : Type} (E : peer_env W).
  (** How the slot is marked unused. *)
  Context (free : nat -> dmesh_peer_channel -> dmesh_peer_channel).
  Hypothesis free_tx : forall i c, exists t', tx_in_use t' = false /\ tx_of (free i c) = <[i := t']> (tx_of c).

(** The owner of one extent is told. *)
Definition released (w : W) (o : outstanding) : W :=
  match op_release (pe_ops E) with Some f => f w (out_kind o) (out_cookie o) (out_bytes o) | None => w end.
Definition returned (w : W) (l : list outstanding) : W := fold_left released l w.

Definition retire_if (p : dmesh_peer_txslot -> bool) (i : nat) : pm W bool :=
  c ← channel_of; if p (tx_at c i) then release_tx E i;; channel_set (free i);; mret true else mret false.

Lemma release_tx_run i s :
  release_tx E i s = (tt, PState (ps_self s) (ps_channel s) (ps_refused s)
    (released (ps_world s) (entry_of (tx_at (ps_channel s) i)))).
Proof.
  unfold release_tx, released, mbind, pm_bind, channel_of. destruct (op_release _); [done|]. by destruct s.
Qed.

(** One slot: freed and released when [p] holds of it. *)
Lemma retire_if_run p i s :
  (forall t, p t = true -> tx_in_use t = true) ->
  let t := tx_at (ps_channel s) i in
  (retire_if p i s).1 = p t /\
  ps_world (retire_if p i s).2 = (if p t then released (ps_world s) (entry_of t) else ps_world s) /\
  ps_channel (retire_if p i s).2 = (if p t then free i (ps_channel s) else ps_channel s).
Proof.
  intros Hp t. unfold retire_if, mbind, pm_bind, channel_of. cbn [ps_channel]. fold t.
  destruct (p t); [|done]. rewrite release_tx_run. done.
Qed.

(** What the loop from [k] to the end of the table does. *)
Definition retires (p : dmesh_peer_txslot -> bool) (k : nat) (orig : list dmesh_peer_txslot) (s : pstate W)
    (s' : pstate W) : Prop :=
  freed_upto p (length orig) orig (tx_of (ps_channel s')) /\
  ps_world s' = returned (ps_world s) (entry_of <$> filter (fun t => p t = true) (drop k orig)).

Lemma for_count_retires p n k orig s :
  (forall t, p t = true -> tx_in_use t = true) -> (k + n)%nat = length orig ->
  freed_upto p k orig (tx_of (ps_channel s)) ->
  retires p k orig s (for_count k n (retire_if p) s).2 /\
  (for_count k n (retire_if p) s).1 = length (filter (fun t => p t = true) (drop k orig)).
Proof.
  intros Hp. revert k s. induction n as [|n IH]; intros k s Hn HF; cbn [for_count].
  { rewrite Nat.add_0_r in Hn. subst k. unfold retires. rewrite drop_all, filter_nil. split; [|done]. split; [exact HF|done]. }
  destruct (lookup_lt_is_Some_2 orig k) as [t Ht]; [lia|].
  assert (tx_at (ps_channel s) k = t) as Hat by (unfold tx_at; by rewrite (freed_at _ _ _ _ _ HF Ht)).
  destruct (retire_if_run p k s Hp) as (R1 & R2 & R3). rewrite Hat in R1, R2, R3.
  unfold mbind, pm_bind. destruct (retire_if p k s) as [b s1]. cbn [fst snd] in R1, R2, R3. subst b.
  assert (freed_upto p (S k) orig (tx_of (ps_channel s1))) as HF1.
  { rewrite R3. destruct (p t) eqn:Pt; [|apply freed_skip; [done|congruence]].
    destruct (free_tx k (ps_channel s)) as (t' & U & ->). apply freed_free; [done|lia|done|congruence]. }
  destruct (IH (S k) s1 ltac:(lia) HF1) as [[I1 I2] I3].
  destruct (for_count (S k) n (retire_if p) s1) as [m s2]. cbn [fst snd] in *.
  unfold retires. rewrite (drop_S _ _ _ Ht), filter_cons. subst m. rewrite R2 in I2.
  destruct (p t) eqn:Pt; [rewrite decide_True by done|rewrite decide_False by done]; (split; [split; [exact I1|exact I2]|done]).
Qed.

Lemma for_count_ext (body body' : nat -> pm W bool) n k s :
  (forall i s, body i s = body' i s) -> for_count k n body s = for_count k n body' s.
Proof.
  intros Hb. revert k s. induction n as [|n IH]; intros k s; cbn [for_count]; [done|].
  unfold mbind, pm_bind. rewrite Hb. destruct (body' k s) as [b s1]. by rewrite IH.
Qed.

(** The loops whose body answers nothing. *)
Lemma for_each_count (p : dmesh_peer_txslot -> bool) (body : nat -> pm W unit) n k s :
  (forall i s, (body i s).2 = (retire_if p i s).2) ->
  (for_each k n body s).2 = (for_count k n (retire_if p) s).2.
Proof.
  intros Hb. revert k s. induction n as [|n IH]; intros k s; cbn [for_each for_count]; [done|].
  unfold mbind, pm_bind. specialize (Hb k s). destruct (body k s) as [[] s1], (retire_if p k s) as [b s2]. cbn in Hb. subst s2.
  rewrite IH. destruct (for_count (S k) n (retire_if p) s1). done.
Qed.
End loops.

Lemma tx_there {W} (E : peer_env W) c : ch_inv E c -> ch_state c = OPEN -> length (tx_of c) = SLOTS.
Proof.
  intros I HO. destruct (v_live I) as (_ & [l Hl] & _); [by rewrite HO|]. unfold tx_of. rewrite Hl. by apply (v_tx I).
Qed.

(** ** Acknowledgements and drops *)

Lemma in_run_use entry t : in_run entry t = true -> tx_in_use t = true.
Proof. unfold in_run. rewrite !andb_true_iff. tauto. Qed.
Lemma in_run_named entry t : in_run entry t = tx_in_use t && acked_by entry (entry_of t).
Proof. unfold in_run, acked_by. cbn. by rewrite andb_assoc. Qed.

Lemma filter_named (p : outstanding -> bool) l :
  entry_of <$> filter (fun t => tx_in_use t && p (entry_of t) = true) l = filter (fun o => p o = true) (entries l).
Proof.
  induction l as [|t l IH]; [done|]. rewrite entries_cons, filter_cons. destruct (tx_in_use t) eqn:U.
  - cbn [andb]. rewrite filter_cons. destruct (decide (p (entry_of t) = true)); [rewrite fmap_cons|]; by rewrite IH.
  - rewrite decide_False by done. exact IH.
Qed.

Lemma filter_true {A} (l : list A) : filter (fun _ => true = true) l = l.
Proof. induction l as [|a l IH]; [done|]. by rewrite filter_cons, decide_True, IH by done. Qed.

(** The whole loop over a table: the ledger without what [p] names, and the
    owners of what it names told once each, in slot order. *)
Lemma retire_loop {W} (E : peer_env W) free (q : dmesh_peer_txslot -> bool) (p : outstanding -> bool) s :
  (forall i c, exists t', tx_in_use t' = false /\ tx_of (free i c) = <[i := t']> (tx_of c)) ->
  (forall t, q t = tx_in_use t && p (entry_of t)) -> length (tx_of (ps_channel s)) = SLOTS ->
  let r := for_count 0 SLOTS (retire_if E free q) s in
  ledger (ps_channel r.2) = filter (fun o => p o = false) (ledger (ps_channel s)) /\
  ps_world r.2 = returned E (ps_world s) (filter (fun o => p o = true) (ledger (ps_channel s))) /\
  r.1 = length (filter (fun o => p o = true) (ledger (ps_channel s))).
Proof.
  intros Hfree Hq Hl r. assert (forall t, q t = true -> tx_in_use t = true) as Hu.
  { intros t. rewrite Hq, andb_true_iff. tauto. }
  destruct (for_count_retires E free Hfree q SLOTS 0 (tx_of (ps_channel s)) s Hu) as [[H1 H2] H3]; [by rewrite Hl|apply freed_start|].
  rewrite drop_0 in H2, H3. fold r in H1, H2, H3. unfold ledger.
  assert (forall l : list dmesh_peer_txslot, filter (fun t => q t = true) l = filter (fun t => tx_in_use t && p (entry_of t) = true) l) as HF.
  { intros l. apply list_filter_iff. intros t. by rewrite Hq. }
  rewrite HF in H2, H3. rewrite filter_named in H2. rewrite <-filter_named. split_and!.
  - apply (freed_end p (length (tx_of (ps_channel s)))); [|done].
    destruct H1 as [L1 L2]. split; [done|]. intros j t Hj. destruct (L2 j t Hj) as (t' & Ht & He). exists t'. by rewrite <-Hq.
  - by rewrite filter_named.
  - by rewrite length_fmap.
Qed.

Section claims.
  Context {W : Type} (E : peer_env W).

Lemma live_unscoped inc s :
  ch_state (ps_channel s) = OPEN -> ch_pair_scoped (ps_channel s) = false -> inc = ch_incarnation (ps_channel s) ->
  peer_live E inc s = (OK, s).
Proof.
  intros HO Hs ->. unfold peer_live, mbind, pm_bind, channel_of. rewrite HO, Z.eqb_refl. cbn [is_open negb].
  unfold peer_pair_live, mbind, pm_bind, channel_of. by rewrite Hs.
Qed.

(** The world after the clock is read. *)
Definition ticked (w : W) : W := match op_now_ns (pe_ops E) with Some f => (f w).2 | None => w end.
Lemma touch_run s : exists n, touch E s = (tt, PState (ps_self s) ((ps_channel s) <| ch_last_active_ns := n |>) (ps_refused s) (ticked (ps_world s))).
Proof.
  unfold touch, peer_now, ticked, mbind, pm_bind. destruct (op_now_ns _) as [f|].
  - unfold ask. destruct (f (ps_world s)) as [n w]. by exists n.
  - by exists 0.
Qed.

Lemma tx_ack_loop entry s :
  length (tx_of (ps_channel s)) = SLOTS ->
  let r := for_count 0 SLOTS (fun i => c ← channel_of;
    if in_run entry (tx_at c i) then retire_tx E i;; mret true else mret false) s in
  ledger (ps_channel r.2) = filter (fun o => acked_by entry o = false) (ledger (ps_channel s)) /\
  ps_world r.2 = returned E (ps_world s) (filter (fun o => acked_by entry o = true) (ledger (ps_channel s))) /\
  r.1 = length (filter (fun o => acked_by entry o = true) (ledger (ps_channel s))).
Proof.
  intros Hl r. unfold r. rewrite (for_count_ext _ (retire_if E peer_tx_free_slot (in_run entry))).
  - apply retire_loop; [apply free_slot_tx|apply in_run_named|done].
  - intros i s0. unfold retire_if, retire_tx, mbind, pm_bind, channel_of. destruct (in_run _ _); [|done].
    by destruct (release_tx E i s0).
Qed.

Lemma tx_drop_loop handle s :
  length (tx_of (ps_channel s)) = SLOTS -> is_Some (ch_tx (ps_channel s)) ->
  let s' := (dmesh_peer_tx_drop E handle s).2 in
  ledger (ps_channel s') = filter (fun o => (out_handle o =? handle) = false) (ledger (ps_channel s)) /\
  ps_world s' = returned E (ps_world s) (filter (fun o => (out_handle o =? handle) = true) (ledger (ps_channel s))).
Proof.
  intros Hl [l Htx] s'. set (q := fun t => tx_in_use t && (tx_handle t =? handle)).
  assert (s' = (for_count 0 SLOTS (retire_if E peer_tx_free_slot q) s).2) as ->.
  { unfold s', dmesh_peer_tx_drop, mbind, pm_bind, channel_of. rewrite Htx. apply for_each_count.
    intros i s0. unfold retire_if, mbind, pm_bind, channel_of, q.
    destruct (tx_in_use (tx_at (ps_channel s0) i)); cbn [negb orb andb]; [|done].
    destruct (tx_handle (tx_at (ps_channel s0) i) =? handle); cbn [negb]; [|done].
    unfold retire_tx, mbind, pm_bind. by destruct (release_tx E i s0). }
  destruct (retire_loop E peer_tx_free_slot q (fun o => out_handle o =? handle) s free_slot_tx ltac:(done) Hl) as (H1 & H2 & _).
  done.
Qed.

Lemma mark_tx i c :
  exists t', tx_in_use t' = false /\ tx_of (set_tx i ((tx_at c i) <| tx_in_use := false |>) c) = <[i := t']> (tx_of c).
Proof. eexists. split; [|unfold tx_of, set_tx; cbn; by destruct (ch_tx c)]. done. Qed.

(** Resetting the transmit table tells the owner of every outstanding extent. *)
Lemma reset_tx_world s :
  (forall l, ch_tx (ps_channel s) = Some l -> length l = SLOTS) ->
  ps_world (reset_tx E s).2 = returned E (ps_world s) (ledger (ps_channel s)).
Proof.
  intros Hl. unfold reset_tx, mbind at 1, pm_bind at 1, channel_of at 1. destruct (ch_tx (ps_channel s)) as [l|] eqn:Htx.
  2:{ unfold ledger, tx_of. by rewrite Htx. }
  set (free := fun i c => set_tx i ((tx_at c i) <| tx_in_use := false |>) c).
  unfold mbind at 1, pm_bind at 1.
  match goal with |- context [for_each 0 SLOTS ?b s] => set (body := b) end.
  assert ((for_each 0 SLOTS body s).2 = (for_count 0 SLOTS (retire_if E free tx_in_use) s).2) as HE.
  { apply for_each_count. intros i s0. unfold body, retire_if, mbind, pm_bind, channel_of.
    destruct (tx_in_use (tx_at (ps_channel s0) i)); cbn [negb]; [|done]. by destruct (release_tx E i s0). }
  destruct (retire_loop E free tx_in_use (fun _ => true) s mark_tx) as (_ & H2 & _).
  { intros t. by rewrite andb_true_r. }
  { unfold tx_of. rewrite Htx. by apply Hl. }
  rewrite <-HE in H2. rewrite filter_true in H2. rewrite <-H2.
  by destruct (for_each 0 SLOTS body s).
Qed.

(** The world after the connection, if any, is closed. *)
Definition hung_up (conn : option nat) (w : W) : W :=
  match conn, tr_close (pe_transport E) with Some k, Some f => f w k | _, _ => w end.

Lemma reset_handles_keeps s :
  (forall l, ch_handles (ps_channel s) = Some l -> length l = STREAMS) ->
  ch_tx (ps_channel (reset_handles E s).2) = ch_tx (ps_channel s).
Proof. intros Hh. by destruct (wp_reset_handles E (ps_channel s) Hh s eq_refl) as (_ & _ & _ & H & _). Qed.

Lemma reset_handles_conn s : ch_conn (ps_channel (reset_handles E s).2) = ch_conn (ps_channel s).
Proof.
  assert (wp (reset_handles E) (fun _ c' => ch_conn c' = ch_conn (ps_channel s)) (ps_channel s)) as H; [|by apply H].
  unfold reset_handles. wp_step. wp_step. destruct (ch_handles (ps_channel s)); [|by wp_step].
  apply (wp_for_each (fun _ d => ch_conn d = ch_conn (ps_channel s))); [done| |done].
  intros i d _ Hd. wp_step. wp_step. wp_if; [by wp_step|]. wp_step. apply wp_poison. by wp_step.
Qed.
Lemma reset_tx_conn s : ch_conn (ps_channel (reset_tx E s).2) = ch_conn (ps_channel s).
Proof.
  assert (wp (reset_tx E) (fun _ c' => ch_conn c' = ch_conn (ps_channel s)) (ps_channel s)) as H; [|by apply H].
  unfold reset_tx. wp_step. wp_step. destruct (ch_tx (ps_channel s)); [|by wp_step]. wp_step.
  apply (wp_for_each (fun _ d => ch_conn d = ch_conn (ps_channel s))); [done| |intros d Hd; by wp_step].
  intros i d _ Hd. wp_step. wp_step. wp_if; [by wp_step|]. wp_step. apply wp_release_tx. by wp_step.
Qed.

(** A reset tells every owner, between the poisoning of the streams and the
    closing of the connection. *)
Lemma reset_world s :
  ch_inv E (ps_channel s) ->
  exists w1, ps_world (dmesh_peer_reset E s).2 = hung_up (ch_conn (ps_channel s)) (returned E w1 (ledger (ps_channel s))).
Proof.
  intros I. unfold dmesh_peer_reset, mbind, pm_bind, self_of, channel_of.
  match goal with |- context [match op_source_reset (pe_ops E) with Some _ => _ | None => _ end ?x] =>
    assert (exists w0, match op_source_reset (pe_ops E) with
      | Some f => tell (fun w => f w (ps_self s) (ps_channel s)) | None => mret tt end x = (tt, PState (ps_self s) (ps_channel s) (ps_refused s) w0)) as [w0 ->] end.
  { destruct (op_source_reset _); [by eexists|]. exists (ps_world s). by destruct s. }
  set (s0 := PState (ps_self s) (ps_channel s) (ps_refused s) w0).
  pose proof (reset_handles_keeps s0 (v_handles I)) as HT. pose proof (reset_handles_conn s0) as HC.
  destruct (reset_handles E s0) as [[] s1]. cbn [fst snd] in HT, HC. unfold channel_set at 1.
  set (s2 := PState (ps_self s1) _ (ps_refused s1) (ps_world s1)).
  assert (forall l, ch_tx (ps_channel s2) = Some l -> length l = SLOTS) as HL.
  { intros l Hl. change (ch_tx (ps_channel s1) = Some l) in Hl. rewrite HT in Hl. by apply (v_tx I). }
  pose proof (reset_tx_world s2 HL) as HW. pose proof (reset_tx_conn s2) as HC2.
  destruct (reset_tx E s2) as [[] s3]. cbn [fst snd] in HW, HC2. unfold channel_set at 1. cbn [ps_channel].
  exists (ps_world s1). change (ch_conn (ps_channel s2)) with (ch_conn (ps_channel s1)) in HC2.
  assert (ledger (ps_channel s2) = ledger (ps_channel s)) as HLd.
  { unfold ledger, tx_of. change (ch_tx (ps_channel s2)) with (ch_tx (ps_channel s1)). by rewrite HT. }
  rewrite HLd in HW. change (ps_world s2) with (ps_world s1) in HW.
  match goal with |- context [match ?x with Some conn => peer_close E conn | None => mret tt end] =>
    assert (x = ch_conn (ps_channel s)) as Hx; [|rewrite Hx] end.
  { unfold reset_rx. cbn [ch_rx]. change (ch_conn (ps_channel s0)) with (ch_conn (ps_channel s)) in HC.
    rewrite <-HC, <-HC2. by destruct (ch_rx _). }
  unfold hung_up, peer_close. destruct (ch_conn (ps_channel s)); [destruct (tr_close _)|]; cbn; by rewrite HW.
Qed.
End claims.

(** ** What the proxy relies on *)

Lemma charge_ledger {W} (E : peer_env W) c handle seq bytes kind cookie r c' :
  ch_inv E c -> in_width 32 bytes -> dmesh_peer_tx_charge handle seq bytes kind cookie c = (r, c') ->
  (r = OK -> ch_state c = OPEN /\ ledger c' ≡ₚ Outstanding handle seq bytes kind cookie :: ledger c /\
     ch_inflight_bytes c' = ch_inflight_bytes c + bytes /\ ch_inflight_bytes c' <= DMESH_PEER_TX_INFLIGHT_MAX) /\
  (r <> OK -> ledger c' = ledger c /\ ch_inflight_bytes c' = ch_inflight_bytes c).
Proof.
  intros I Hb. unfold dmesh_peer_tx_charge. destruct (is_open (ch_state c)) eqn:HO; cbn [negb]; [|by intros [= <- <-]].
  assert (ch_state c = OPEN) as HS by (by destruct (ch_state c)).
  destruct (_ || _) eqn:Eg; [by intros [= <- <-]|]. rewrite orb_false_iff, Z.ltb_ge, Z.eqb_neq in Eg. destruct Eg as [G1 G2].
  cbv zeta. destruct (v_live I) as (_ & [l Hl] & _); [by rewrite HS|].
  pose proof (tx_free_ok E c l I Hl) as HF. destruct (free_pop _ _ _ _ HF G2) as (j & a & Hj & Ha & Ua & _).
  rewrite Hj, Nat2Z.id. pose proof (inflight_nonneg E c I) as Hn. pose proof (v_inflight_max I) as Hm.
  assert (u64 (ch_inflight_bytes c + bytes) = ch_inflight_bytes c + bytes) as Hu.
  { apply u64_inflight. unfold in_width, DMESH_PEER_TX_INFLIGHT_MAX in *. lia. }
  rewrite Hu in G1. intros [<- <-]%pair_equal_spec. split; [|done]. intros _. split; [done|].
  set (t' := TxSlot DMESH_PEER_TX_NIL seq bytes handle cookie kind true).
  match goal with |- context [peer_handle_of ?x handle] => set (d := x) end.
  assert (ledger d ≡ₚ entry_of t' :: ledger c) as HL.
  { unfold ledger. assert (tx_of d = <[j := t']> (tx_of c)) as -> by (unfold tx_of; cbn; by rewrite Hl).
    by apply (entries_insert_use _ j a). }
  assert (ch_inflight_bytes d = ch_inflight_bytes c + bytes) as Hd by exact Hu. clearbody d.
  destruct (peer_handle_of d handle); (split; [exact HL|split; [exact Hd|]]); (eapply Z.le_trans; [apply Z.eq_le_incl; exact Hd|exact G1]).
Qed.


