(* ===== verification/PeerTableProofs.v ===== *)
(** * What the channel table guarantees

    Who may take a channel slot, which channels eviction and rebinding touch,
    the handshake prologue, and the rate of admitted opens. *)

From S2P Require Import Prelude Text Cursor PeerIdentity PeerFrame PairWire PairWireProofs PeerState PeerChannel PeerTable FreeList PeerHoare PeerChannelInv PeerChannelRx PeerChannelTx PeerChannelReset PeerChannelLife PeerChannelStream PeerChannelData PeerChannelProgress PeerTableInv PeerReach PeerProofs.

(** ** Accepting *)

Lemma tm_bind_run {W A B} (m : tm W A) (f : A -> tm W B) t a t' : m t = (a, t') -> (m ≫= f) t = f a t'.
Proof. intros H. unfold mbind, tm_bind. by rewrite H. Qed.

(** An inbound connection whose peer proved a key other than the one the held topology generation binds to the claimed node (or whose node it does not bind) takes no channel: every channel of the table is left exactly as it was. *)
Lemma accept_refused {W} (E : peer_env W) t node inc conn key pair f :
  op_node_binding (pe_ops E) = Some f ->
  (forall bound ip port, (f (tb_world t) node).1 = Some (Binding (Some bound) ip port) -> bytes_eq bound key = false) ->
  (peer_accept E node inc conn key pair t).1.1 = None /\
  tb_channels (peer_accept E node inc conn key pair t).2 = tb_channels t.
Proof.
  intros Hf Hk.
  assert (forall r, twp (x ← refuse_at E None r; close_conn E conn;; mret (None, x))
    (fun x cs => x.1 = @None nat /\ cs = tb_channels t) (tb_channels t)) as HF.
  { intros r. twp_step. apply twp_refuse_none. intros x. twp_step. apply twp_close_conn. by twp_step. }
  unfold peer_accept. cbv zeta. destruct (_ || _); [by apply HF|].
  rewrite Hf. destruct (f (tb_world t) node) as [b w] eqn:Ef. cbn [fst] in Hk.
  set (t1 := Table (tb_channels t) (tb_evictions t) (tb_refused t) w).
  assert (on_table (fun w => f w node) t = (b, t1)) as Hrun by (unfold on_table; by rewrite Ef).
  rewrite !(tm_bind_run _ _ t b t1 Hrun).
  destruct b as [[[bound|] ip port]|]; [|by apply (HF REFUSE_NODE_UNBOUND t1)..].
  rewrite (Hk bound ip port eq_refl). by apply (HF REFUSE_NODE_KEY t1).
Qed.

(** Only the bound key gets a channel.  [dmesh_peer_authenticated] on a reachable
    channel succeeds only while it is authenticating and only for the static key
    the current binding named, and then the channel is open; any other key or a
    failed pair check closes the channel with nothing held, and outside
    authentication the call changes nothing but a refusal counter.  An inbound
    connection whose peer proved a key other than the one the held topology
    generation binds to the claimed node, or whose node it does not bind, takes no
    channel: every channel of the table is left exactly as it was. *)
Lemma peer_authentication {W} (E : peer_env W) t : reachable E t ->
  (forall i c key s r s', tb_channels t !! i = Some c -> ps_channel s = c -> dmesh_peer_authenticated E key s = (r, s') ->
     (r = OK -> ch_state c = AUTHENTICATING /\ bytes_eq (ch_bound_key c) key = true /\ ch_state (ps_channel s') = OPEN) /\
     (r <> OK -> ch_state c = AUTHENTICATING -> ch_state (ps_channel s') = CLOSED /\ holds_nothing (ps_channel s')) /\
     (ch_state c <> AUTHENTICATING -> ps_channel s' = refused_once REFUSE_STATE c)) /\
  (forall node inc conn key pair f, op_node_binding (pe_ops E) = Some f ->
     (forall bound ip port, (f (tb_world t) node).1 = Some (Binding (Some bound) ip port) -> bytes_eq bound key = false) ->
     (peer_accept E node inc conn key pair t).1.1 = None /\
     tb_channels (peer_accept E node inc conn key pair t).2 = tb_channels t).
Proof. intros HR. split; intros; [by eapply channel_authentication|by eapply accept_refused]. Qed.

Lemma peer_authentication_witness :
  let s := PState 0 (channel_at demo_dialed 0) (tb_refused demo_dialed) tt in
  ch_state (ps_channel (dmesh_peer_authenticated peer_demo_env demo_key s).2) = OPEN /\
  (peer_accept peer_demo_env node_b 1 9 (repeat x02 32) None demo_dialed).1.1 = None.
Proof.
  cbv zeta. set (s := PState 0 (channel_at demo_dialed 0) (tb_refused demo_dialed) tt).
  assert (tb_channels demo_dialed !! 0%nat = Some (channel_at demo_dialed 0)) as Hc.
  { apply (reachable_at peer_demo_env); [apply demo_dialed_reachable|]. vm_compute. lia. }
  assert ((dmesh_peer_authenticated peer_demo_env demo_key s).1 = OK) as Hok by (vm_compute; reflexivity).
  assert (ps_channel s = channel_at demo_dialed 0) as Hs by reflexivity. clearbody s.
  pose proof (peer_authentication peer_demo_env demo_dialed demo_dialed_reachable) as [H1 H2]. split.
  - destruct (dmesh_peer_authenticated peer_demo_env demo_key s) as [r1 s1] eqn:R1. cbn [fst snd] in *. subst r1.
    exact (proj2 (proj2 (proj1 (H1 0%nat (channel_at demo_dialed 0) demo_key s OK s1 Hc Hs R1) eq_refl))).
  - apply (H2 node_b 1 9%nat (repeat x02 32) None (fun w _ => (Some (Binding (Some demo_key) 1 2), w)) eq_refl).
    intros bound ip port Hb; injection Hb as <- <- <-; vm_compute; reflexivity.
Defined.

(** ** Eviction *)

Section evict.
  Context {W : Type} (E : peer_env W).

Lemma twp_other {A} i j (m : pm W A) c cs :
  i <> j -> cs !! i = Some c -> twp (on j m) (fun _ cs' => cs' !! i = Some c) cs.
Proof.
  intros Hne Hc. apply twp_on. intros s _. by rewrite list_lookup_insert_ne.
Qed.

Lemma twp_evict_other i j c cs :
  i <> j -> cs !! i = Some c -> twp (evict E j) (fun _ cs' => cs' !! i = Some c) cs.
Proof.
  intros Hne Hc. unfold evict. twp_step. eapply twp_mono; [by apply twp_other|]. intros [] ds Hd. twp_step. twp_step.
  twp_if; [by twp_step|]. twp_step. eapply twp_mono; [by apply twp_other|]. intros [] es He. by twp_go.
Qed.

(** A channel with streams or bytes in flight. *)
Definition busy (c : dmesh_peer_channel) : Prop := ch_handle_count c <> 0 \/ ch_inflight_bytes c <> 0.

Lemma busy_pinned i t c : tb_channels t !! i = Some c -> busy c -> pinned E i t = true.
Proof.
  intros Hc Hb. unfold pinned, channel_at. rewrite Hc. cbn.
  destruct Hb as [Hb|Hb]; apply Z.eqb_neq in Hb; rewrite Hb; cbn; [done|]. by rewrite orb_true_r.
Qed.

Lemma slot_scan_spares i l oldest t j c :
  (forall k d, l !! k = Some d -> tb_channels t !! (i + k)%nat = Some d) ->
  (forall o, oldest = Some o -> pinned E o t = false) ->
  slot_scan E i l oldest t = inr (Some j) -> tb_channels t !! j = Some c -> ~ busy c.
Proof.
  revert i oldest. induction l as [|d l IH]; intros i oldest Hl Ho; cbn [slot_scan].
  - intros [= ->] Hc Hb. specialize (Ho j eq_refl). by rewrite (busy_pinned j t c Hc Hb) in Ho.
  - assert (forall k d', l !! k = Some d' -> tb_channels t !! (S i + k)%nat = Some d') as Hl'.
    { intros k d' Hk. replace (S i + k)%nat with (i + S k)%nat by lia. by apply (Hl (S k)). }
    destruct (negb (ch_in_use d)); [done|]. destruct (pinned E i t || _) eqn:Ep; [by apply IH|].
    rewrite orb_false_iff in Ep. destruct Ep as [Ep _]. apply IH; [done|]. intros o.
    destruct (match oldest with Some _ => _ | None => _ end); [by intros [= <-]|apply Ho].
Qed.
End evict.

(** Eviction never touches a channel that carries a stream or has bytes in flight: neither the idle sweep, however long the channel was quiet, nor the search for a slot for a new channel when the table is full. *)
Lemma eviction_spares {W} (E : peer_env W) t i c :
  tb_channels t !! i = Some c -> busy c -> ch_in_use c = true ->
  tb_channels (dmesh_peer_evict_idle E t).2 !! i = Some c /\
  tb_channels (peer_channel_slot E t).2 !! i = Some c /\ (peer_channel_slot E t).1 <> Some i.
Proof.
  intros Hc Hb Hu. split_and!.
  - assert (twp (dmesh_peer_evict_idle E) (fun _ cs => cs !! i = Some c) (tb_channels t)) as H; [|by apply H].
    unfold dmesh_peer_evict_idle. twp_step. apply twp_table_now. intros now. apply twp_each; [done|].
    intros j cs _ Hj. twp_step. twp_step. twp_if; [by twp_step|]. twp_if; [by twp_step|]. twp_step. twp_step.
    destruct (decide (i = j)) as [<-|Hne].
    + rewrite (busy_pinned E i t0 c); [by twp_step|congruence|done].
    + twp_if; [by twp_step|]. twp_step. eapply twp_mono; [by apply twp_evict_other|]. intros b ds Hd. by twp_step.
  - unfold peer_channel_slot, mbind, tm_bind, look.
    destruct (slot_scan E 0 (tb_channels t) None t) as [k|[k|]] eqn:Es; [done| |done].
    destruct (decide (i = k)) as [<-|Hne].
    + by destruct (slot_scan_spares E 0 _ None t i c ltac:(done) ltac:(done) Es Hc).
    + pose proof (twp_evict_other E i k c _ Hne Hc t eq_refl) as H. by destruct (evict E k t).
  - unfold peer_channel_slot, mbind, tm_bind, look.
    destruct (slot_scan E 0 (tb_channels t) None t) as [k|[k|]] eqn:Es; [|destruct (evict E k t) as [[] t'] eqn:Ee|]; try done.
    + intros [= ->]. revert Es. assert (forall l a o, slot_scan E a l o t = inl i -> exists d, l !! (i - a)%nat = Some d /\ (a <= i)%nat /\ ch_in_use d = false) as HS.
      { induction l as [|d l IH]; intros a o; cbn [slot_scan]; [done|]. destruct (ch_in_use d) eqn:U; cbn [negb].
        - assert (forall o', slot_scan E (S a) l o' t = inl i -> exists d0, (d :: l) !! (i - a)%nat = Some d0 /\ (a <= i)%nat /\ ch_in_use d0 = false) as HN.
          { intros o' (d0 & H1 & H2 & H3)%IH. exists d0. replace (i - a)%nat with (S (i - S a))%nat by lia. split_and!; [done|lia|done]. }
          destruct (_ || _); apply HN.
        - intros [= ->]. exists d. rewrite Nat.sub_diag. done. }
      intros (d & H1 & _ & H3)%HS. rewrite Nat.sub_0_r in H1. congruence.
    + intros [= ->]. by destruct (slot_scan_spares E 0 _ None t i c ltac:(done) ltac:(done) Es Hc).
Qed.

(** ** A new topology generation *)

Section rebind.
  Context {W : Type} (E : peer_env W) (binding : W -> list byte -> option node_binding_t * W).

(** Some answer of the generation bound the channel's node to the channel's key. *)
Definition still_bound (c : dmesh_peer_channel) : Prop :=
  exists w b key, (binding w (ch_node_name c)).1 = Some b /\ nb_key b = Some key /\ bytes_eq (ch_bound_key c) key = true.
Definition bound_or_closed (c : dmesh_peer_channel) : Prop :=
  ch_in_use c = true -> ch_state c <> CLOSED -> still_bound c.

Lemma wp_rebind_bound c : ch_inv E c -> wp (rebind_channel E binding) (fun _ c' => ch_inv E c' /\ bound_or_closed c') c.
Proof.
  intros I.
  assert (forall r, wp (refuse_reset E r) (fun _ c' => ch_inv E c' /\ bound_or_closed c') c) as HR.
  { intros r. unfold refuse_reset. wp_step. apply wp_refuse. eapply wp_mono; [by apply wp_reset|].
    intros [] d (Id & Sd & _). split; [done|]. intros _ H. by rewrite Sd in H. }
  unfold rebind_channel. wp_step. wp_step. wp_if.
  { wp_step. split; [done|]. intros U Hn. rewrite U in *. cbn [negb orb] in *. by destruct (ch_state c). }
  wp_step. apply wp_ask_world. intros w. destruct (binding w (ch_node_name c)).1 as [b|] eqn:Hb; cbn [mbind option_bind]; [|done].
  destruct (nb_key b) as [key|] eqn:Hk; [|done]. wp_if; [done|]. rewrite negb_false_iff in *.
  assert (bound_or_closed c) as HB by (intros _ _; by exists w, b, key).
  wp_if; [|by wp_step]. wp_step. apply wp_pair_local. intros r. wp_if; [done|by wp_step].
Qed.
End rebind.

(** After rebinding to a new topology generation every channel in use that is not closed is one whose node that generation binds to exactly the key the channel authenticated; every other channel is closed and holds nothing. *)
Lemma rebind_bound {W} (E : peer_env W) t binding i c :
  reachable E t -> op_node_binding (pe_ops E) = Some binding ->
  tb_channels (dmesh_peer_table_rebind E t).2 !! i = Some c -> ch_in_use c = true ->
  still_bound binding c \/ ch_state c = CLOSED /\ holds_nothing c.
Proof.
  intros HR Hb Hc Hu.
  assert (twp (dmesh_peer_table_rebind E) (fun _ cs => table_inv E cs /\ forall j d, cs !! j = Some d -> bound_or_closed binding d) (tb_channels t)) as H.
  { unfold dmesh_peer_table_rebind. rewrite Hb. pose proof (reachable_inv E t HR) as HT.
    assert (forall n k cs, (k + n)%nat = CHANNELS -> (table_inv E cs /\ forall j d, (j < k)%nat -> cs !! j = Some d -> bound_or_closed binding d) ->
      twp (each k n (fun i => on i (rebind_channel E binding)))
        (fun _ cs => table_inv E cs /\ forall j d, cs !! j = Some d -> bound_or_closed binding d) cs) as HE.
    { induction n as [|n IH]; intros k cs Hk [Ht Hd]; cbn [each].
      - twp_step. split; [done|]. intros j d Hj. apply (Hd j); [|done]. apply lookup_lt_Some in Hj. destruct Ht as [Hl _]. lia.
      - twp_step. apply twp_on. eapply wp_mono; [apply wp_rebind_bound, at_inv, Ht|]. intros [] d [Id Bd].
        apply IH; [lia|]. split; [by apply insert_inv|]. intros j e Hj. rewrite list_lookup_insert_Some.
        intros [(_ & -> & _)|(Hne & He)]; [done|]. apply (Hd j); [lia|done]. }
    apply HE; [done|]. split; [done|lia]. }
  destruct (H t eq_refl) as [[_ HI] HB]. specialize (HB i c Hc). specialize (HI i c Hc).
  destruct (decide (ch_state c = CLOSED)) as [HC|HC]; [right|left; by apply HB].
  split; [done|]. apply (inv_holds_nothing E); [done|]. congruence.
Qed.

Lemma reach_rebind {W} (E : peer_env W) t : reachable E t -> reachable E (dmesh_peer_table_rebind E t).2.
Proof. intros H. exact (reach_call E CallRebind t H I). Qed.

(** Who keeps a channel.  After rebinding to a new topology generation every channel
    in use that is not closed is one whose node that generation binds to exactly
    the key the channel authenticated; every other channel is closed and holds
    nothing.  Eviction never touches a channel that carries a stream or has bytes
    in flight: neither the idle sweep, however long the channel was quiet, nor the
    search for a slot for a new channel when the table is full. *)
Lemma peer_rebind_sound {W} (E : peer_env W) t : reachable E t ->
  (forall binding i c, op_node_binding (pe_ops E) = Some binding ->
     tb_channels (dmesh_peer_table_rebind E t).2 !! i = Some c -> ch_in_use c = true ->
     still_bound binding c \/ ch_state c = CLOSED /\ holds_nothing c) /\
  (forall i c, tb_channels t !! i = Some c -> busy c -> ch_in_use c = true ->
     tb_channels (dmesh_peer_evict_idle E t).2 !! i = Some c /\
     tb_channels (peer_channel_slot E t).2 !! i = Some c /\ (peer_channel_slot E t).1 <> Some i).
Proof. intros HR. split; intros; [by eapply rebind_bound|by apply eviction_spares]. Qed.

Lemma peer_rebind_sound_witness :
  (exists c, tb_channels (dmesh_peer_table_rebind peer_demo_env demo_table).2 !! 0%nat = Some c /\
     (still_bound (fun (w : unit) (_ : list byte) => (Some (Binding (Some demo_key) 1 2), w)) c \/ ch_state c = CLOSED /\ holds_nothing c)) /\
  tb_channels (dmesh_peer_evict_idle peer_demo_env demo_table).2 !! 0%nat = Some demo_channel.
Proof.
  pose proof (peer_rebind_sound peer_demo_env demo_table demo_reachable) as [H1 H2]. split.
  - pose proof (reach_rebind peer_demo_env demo_table demo_reachable) as HR.
    pose proof (reachable_at peer_demo_env _ 0 HR ltac:(vm_compute; lia)) as Hc.
    assert (ch_in_use (channel_at (dmesh_peer_table_rebind peer_demo_env demo_table).2 0) = true) as Hu by (vm_compute; reflexivity).
    revert Hc Hu. generalize (channel_at (dmesh_peer_table_rebind peer_demo_env demo_table).2 0). intros c Hc Hu.
    exists c. split; [exact Hc|]. exact (H1 _ 0%nat c eq_refl Hc Hu).
  - assert (ch_handle_count demo_channel = 1) as E1 by (vm_compute; reflexivity).
    assert (ch_in_use demo_channel = true) as E2 by (vm_compute; reflexivity).
    assert (busy demo_channel) as E3 by (left; rewrite E1; discriminate).
    exact (proj1 (H2 0%nat demo_channel demo_channel_at E3 E2)).
Defined.

(** ** The prologue *)

(** For node names that fit their field and contain no newline, the handshake prologue always fits its buffer, and it determines both names, in order, and the 32-bit incarnation: two sides that agree on the prologue agree on who dials whom in which incarnation. *)
Lemma prologue_binds a b inc a' b' inc' :
  Z.of_nat (length (cstr a)) < Z.of_nat DMESH_K8S_NAME_MAX -> Z.of_nat (length (cstr b)) < Z.of_nat DMESH_K8S_NAME_MAX ->
  NL ∉ cstr a -> NL ∉ cstr b -> NL ∉ cstr a' -> NL ∉ cstr b' -> in_width 32 inc -> in_width 32 inc' ->
  exists text, dmesh_peer_prologue a b inc DMESH_PEER_PROLOGUE_MAX = Some text /\
    (dmesh_peer_prologue a' b' inc' DMESH_PEER_PROLOGUE_MAX = Some text ->
     cstr a' = cstr a /\ cstr b' = cstr b /\ inc' = inc).
Proof.
  intros La Lb Na Nb Na' Nb' Hi Hi'. unfold dmesh_peer_prologue.
  assert (forall n, in_width 32 n -> Z.of_nat (length (decimal n)) <= 10 /\ (NL ∉ decimal n) /\ undecimal (decimal n) 0 = n) as HD.
  { intros n Hn. unfold in_width in Hn. unfold decimal. split; [|split].
    - pose proof (digits_length 10 n []) as H1. cbn [length] in H1. lia.
    - intros HN. pose proof (digits_are_digits 10 n [] ltac:(lia) (Forall_nil_2 _)) as HF.
      rewrite Forall_forall in HF. by specialize (HF NL HN).
    - rewrite digits_value; [done| |lia]. change (10 ^ Z.of_nat 10) with 10000000000. lia. }
  destruct (HD inc Hi) as (D1 & D2 & D3). destruct (HD inc' Hi') as (_ & D2' & D3').
  set (text := prologue_magic ++ cstr a ++ [NL] ++ cstr b ++ [NL] ++ decimal inc ++ [NL]).
  assert (Z.of_nat (length text) < DMESH_PEER_PROLOGUE_MAX) as HL.
  { unfold text, DMESH_PEER_PROLOGUE_MAX. rewrite !length_app. cbn [length]. lia. }
  destruct (Z.leb_spec DMESH_PEER_PROLOGUE_MAX (Z.of_nat (length text))); [lia|]. exists text. split; [done|].
  destruct (_ <=? _); [done|]. intros Heq%(inj Some). apply app_inv_head in Heq.
  apply split_at_sep in Heq as [-> Heq]; [|done..]. apply split_at_sep in Heq as [-> Heq]; [|done..].
  apply split_at_sep in Heq as [Heq _]; [|done..]. split_and!; try done. by rewrite <-D3', Heq, D3.
Qed.

(** ** The open-rate bucket *)

Section rate.
  Context {W : Type} (E : peer_env W).

(** The time the next call reads. *)
Definition clock_reads (s : pstate W) : Z := match op_now_ns (pe_ops E) with Some f => (f (ps_world s)).1 | None => 0 end.

(** Opens asked of one channel, in between any other change that leaves its
    bucket alone; the clock does not go back behind the last refill. *)
Inductive open_trace : pstate W -> Z -> pstate W -> Prop :=
  | trace_none s : open_trace s 0 s
  | trace_open s n s1 : open_trace s n s1 ->
      in_width 64 (clock_reads s1) -> ch_open_refill_ns (ps_channel s1) <= clock_reads s1 ->
      open_trace s (n + if (peer_open_allowed E s1).1 then 1 else 0) (peer_open_allowed E s1).2
  | trace_other s n s1 s2 : open_trace s n s1 ->
      ch_open_tokens_milli (ps_channel s2) = ch_open_tokens_milli (ps_channel s1) ->
      ch_open_refill_ns (ps_channel s2) = ch_open_refill_ns (ps_channel s1) -> open_trace s n s2.

Lemma open_allowed_run s :
  let c := refill (clock_reads s) (ps_channel s) in
  let yes := 1000 <=? ch_open_tokens_milli c in
  (peer_open_allowed E s).1 = yes /\
  ps_channel (peer_open_allowed E s).2 = if yes then c <| ch_open_tokens_milli ::= fun n => n - 1000 |> else c.
Proof.
  unfold peer_open_allowed, peer_now, clock_reads, mbind, pm_bind, channel_set, channel_of, ask.
  destruct (op_now_ns _) as [f|]; [destruct (f (ps_world s)) as [now w]|]; cbn [fst snd ps_channel ps_self ps_refused ps_world mret pm_ret];
    cbv zeta; rewrite Z.leb_antisym; destruct (_ <? 1000); done.
Qed.

Lemma refill_run now c :
  in_width 64 now -> 0 <= ch_open_refill_ns c <= now -> 0 <= ch_open_tokens_milli c <= tokens_max ->
  ch_open_refill_ns (refill now c) = now /\ 0 <= ch_open_tokens_milli (refill now c) <= tokens_max /\
  ch_open_tokens_milli c <= ch_open_tokens_milli (refill now c) <=
    ch_open_tokens_milli c + DMESH_PEER_OPEN_RATE * ((now - ch_open_refill_ns c) / 1000000).
Proof.
  intros Hw Hr Ht. unfold in_width, tokens_max, DMESH_PEER_OPEN_RATE in *. unfold refill. cbv zeta.
  rewrite (wrap_small 64 (now - _)) by (unfold in_width; lia).
  assert (0 <= (now - ch_open_refill_ns c) / 1000000) as Hg by (apply Z.div_pos; lia).
  destruct (Z.eqb_spec (now - ch_open_refill_ns c) 0) as [Hz|Hz].
  { split; [lia|]. split; [lia|]. unfold DMESH_PEER_OPEN_RATE. lia. }
  cbn [ch_open_refill_ns ch_open_tokens_milli]. unfold DMESH_PEER_OPEN_RATE.
  pose proof (Z.mul_div_le (now - ch_open_refill_ns c) 1000000 ltac:(lia)) as Hd.
  rewrite (wrap_small 64 (_ * 1000)) by (unfold in_width; lia).
  cbn. rewrite wrap_small by (unfold in_width; lia). split; [done|].
  destruct (Z.ltb_spec (1000 * 1000) (ch_open_tokens_milli c + (now - ch_open_refill_ns c) / 1000000 * 1000)); lia.
Qed.

Lemma div_add_le a b d : 0 < d -> a / d + b / d <= (a + b) / d.
Proof.
  intros Hd. apply Z.div_le_lower_bound; [done|].
  pose proof (Z.mul_div_le a d Hd). pose proof (Z.mul_div_le b d Hd). lia.
Qed.

(** Whatever a peer sends, the opens a channel admits are bounded by time: over any run of requests, interleaved with anything that leaves the bucket alone, the number admitted is at most the tokens at the start plus 1000 per second of clock elapsed since the bucket was last filled; starting from any reachable channel that is at most 1000 plus 1000 per second. *)
Lemma opens_bounded t i c s n s' :
  reachable E t -> tb_channels t !! i = Some c -> ps_channel s = c -> 0 <= ch_open_refill_ns c ->
  open_trace s n s' ->
  1000 * n <= ch_open_tokens_milli c + DMESH_PEER_OPEN_RATE * ((ch_open_refill_ns (ps_channel s') - ch_open_refill_ns c) / 1000000) /\
  ch_open_tokens_milli c <= DMESH_PEER_OPEN_RATE * 1000.
Proof.
  intros HR Hc Hs H0 HT. pose proof (v_tokens (reachable_ch_inv E t i c HR Hc)) as Htok.
  cut (ch_open_refill_ns c <= ch_open_refill_ns (ps_channel s') /\ 0 <= ch_open_tokens_milli (ps_channel s') <= tokens_max /\
    1000 * n + ch_open_tokens_milli (ps_channel s') <=
      ch_open_tokens_milli c + DMESH_PEER_OPEN_RATE * ((ch_open_refill_ns (ps_channel s') - ch_open_refill_ns c) / 1000000)).
  { unfold tokens_max in *. lia. }
  induction HT as [s|s n s1 _ IH Hw Hle|s n s1 s2 _ IH E1 E2]; [|destruct (IH Hs) as (R1 & T1 & N1)|by rewrite E1, E2; apply IH].
  { rewrite Hs, Z.sub_diag. change (0 / 1000000) with 0. unfold tokens_max in *. lia. }
  destruct (open_allowed_run s1) as [A1 A2]. rewrite A1, A2.
  destruct (refill_run (clock_reads s1) (ps_channel s1) Hw ltac:(lia) T1) as (F1 & F2 & F3).
  set (d := refill (clock_reads s1) (ps_channel s1)) in *. clearbody d.
  pose proof (div_add_le (ch_open_refill_ns (ps_channel s1) - ch_open_refill_ns c) (clock_reads s1 - ch_open_refill_ns (ps_channel s1)) 1000000 ltac:(lia)) as HD.
  replace (ch_open_refill_ns (ps_channel s1) - ch_open_refill_ns c + (clock_reads s1 - ch_open_refill_ns (ps_channel s1)))
    with (clock_reads s1 - ch_open_refill_ns c) in HD by lia.
  unfold DMESH_PEER_OPEN_RATE in *.
  destruct (Z.leb_spec 1000 (ch_open_tokens_milli d)); cbn [ch_open_refill_ns ch_open_tokens_milli]; cbn; rewrite F1; lia.
Qed.
(** Attempts each less than a millisecond after the one before. *)
Inductive polled : pstate W -> Z -> pstate W -> Prop :=
  | polled_none s : polled s 0 s
  | polled_again s n s1 : polled s n s1 -> in_width 64 (clock_reads s1) ->
      ch_open_refill_ns (ps_channel s1) <= clock_reads s1 < ch_open_refill_ns (ps_channel s1) + 1000000 ->
      polled s (n + 1) (peer_open_allowed E s1).2.

(** The bucket drops the part of the elapsed time below a millisecond each time it is asked: once empty it stays empty, and every open is refused, for as long as the attempts come less than a millisecond apart, whatever the total time. *)
Lemma empty_bucket_starves s n s' :
  polled s n s' -> 0 <= ch_open_refill_ns (ps_channel s) -> 0 <= ch_open_tokens_milli (ps_channel s) < 1000 ->
  0 <= ch_open_refill_ns (ps_channel s') /\
  ch_open_tokens_milli (ps_channel s') = ch_open_tokens_milli (ps_channel s) /\
  (in_width 64 (clock_reads s') ->
   ch_open_refill_ns (ps_channel s') <= clock_reads s' < ch_open_refill_ns (ps_channel s') + 1000000 ->
   (peer_open_allowed E s').1 = false).
Proof.
  intros HP H0 Ht.
  assert (forall s1, 0 <= ch_open_refill_ns (ps_channel s1) -> 0 <= ch_open_tokens_milli (ps_channel s1) < 1000 ->
    in_width 64 (clock_reads s1) ->
    ch_open_refill_ns (ps_channel s1) <= clock_reads s1 < ch_open_refill_ns (ps_channel s1) + 1000000 ->
    (peer_open_allowed E s1).1 = false /\ 0 <= ch_open_refill_ns (ps_channel (peer_open_allowed E s1).2) /\
    ch_open_tokens_milli (ps_channel (peer_open_allowed E s1).2) = ch_open_tokens_milli (ps_channel s1)) as Hstep.
  { intros s1 A B Hw Hr. destruct (open_allowed_run s1) as [E1 E2]. rewrite E1, E2.
    destruct (refill_run (clock_reads s1) (ps_channel s1) Hw ltac:(lia) ltac:(unfold tokens_max, DMESH_PEER_OPEN_RATE; lia)) as (F1 & F2 & F3).
    rewrite Z.div_small in F3 by lia.
    destruct (Z.leb_spec 1000 (ch_open_tokens_milli (refill (clock_reads s1) (ps_channel s1)))); [lia|]. split; [done|]. lia. }
  induction HP as [s|s n s1 HP IH Hw Hr]; [|destruct (IH H0 Ht) as (A & B & _)].
  - split; [done|]. split; [done|]. intros Hw Hr. by apply Hstep.
  - destruct (Hstep s1 A ltac:(lia) Hw Hr) as (_ & C & D). split; [done|]. split; [lia|].
    intros Hw' Hr'. apply Hstep; [done|lia|done|done].
Qed.

(** C39: The open-rate bucket.  Whatever a peer sends, the opens a channel admits are
    bounded by time: over any run of requests, interleaved with anything that
    leaves the bucket alone, the number admitted is at most the tokens at the
    start, of which there are at most 1000, plus 1000 per second of clock elapsed
    since the bucket was last filled.  But the bucket drops the part of the
    elapsed time below a millisecond each time it is asked: once empty it stays
    empty, and every open is refused, for as long as the attempts come less than a
    millisecond apart, whatever the total time. *)
Theorem open_rate_bucket t i c s :
  reachable E t -> tb_channels t !! i = Some c -> ps_channel s = c -> 0 <= ch_open_refill_ns c ->
  (forall n s', open_trace s n s' ->
     1000 * n <= ch_open_tokens_milli c + DMESH_PEER_OPEN_RATE * ((ch_open_refill_ns (ps_channel s') - ch_open_refill_ns c) / 1000000) /\
     ch_open_tokens_milli c <= DMESH_PEER_OPEN_RATE * 1000) /\
  (forall n s', polled s n s' -> ch_open_tokens_milli c < 1000 ->
     ch_open_tokens_milli (ps_channel s') = ch_open_tokens_milli c /\
     (in_width 64 (clock_reads s') ->
      ch_open_refill_ns (ps_channel s') <= clock_reads s' < ch_open_refill_ns (ps_channel s') + 1000000 ->
      (peer_open_allowed E s').1 = false)).
Proof.
  intros HR Hc Hs H0. split; [intros n s' HT; by apply (opens_bounded t i c s n s')|]. intros n s' HP Ht.
  pose proof (v_tokens (reachable_ch_inv E t i c HR Hc)) as Htok. subst c. apply (empty_bucket_starves s n s' HP); [done|lia].
Qed.
End rate.

Definition clock_env : peer_env Z :=
  PeerEnv node_a (Transport None None None None None None None None)
    (Ops None (fun w _ _ => (true, w)) (fun w _ => ((0, 1), w)) None None None None (fun w _ _ _ => (1, w))
       None None None None None None None None (Some (fun w => (w, w + 1)))) (fun _ _ => 0) (fun _ _ => 0) (fun w _ => w) (fun w => (true, w)).

Lemma open_rate_bucket_witness :
  (let s := PState 0 zero_channel [] 2000000 in
   1000 * 1 <= 0 + DMESH_PEER_OPEN_RATE * ((ch_open_refill_ns (ps_channel (peer_open_allowed clock_env s).2) - 0) / 1000000)) /\
  (let s := PState 0 zero_channel [] 5 in (peer_open_allowed clock_env (peer_open_allowed clock_env s).2).1 = false).
Proof.
  assert (forall w, (forall n s', open_trace clock_env (PState 0 zero_channel [] w) n s' ->
      1000 * n <= 0 + DMESH_PEER_OPEN_RATE * ((ch_open_refill_ns (ps_channel s') - 0) / 1000000) /\ 0 <= DMESH_PEER_OPEN_RATE * 1000) /\
    (forall n s', polled clock_env (PState 0 zero_channel [] w) n s' -> 0 < 1000 -> ch_open_tokens_milli (ps_channel s') = 0 /\
      (in_width 64 (clock_reads clock_env s') -> ch_open_refill_ns (ps_channel s') <= clock_reads clock_env s' < ch_open_refill_ns (ps_channel s') + 1000000 ->
       (peer_open_allowed clock_env s').1 = false))) as H.
  { intros w. exact (open_rate_bucket clock_env (dmesh_peer_table_init 0) 0 zero_channel (PState 0 zero_channel [] w) (reach_init clock_env 0)
      ltac:(vm_compute; reflexivity) eq_refl ltac:(vm_compute; discriminate)). }
  split; cbv zeta.
  - set (s := PState 0 zero_channel [] 2000000).
    assert ((peer_open_allowed clock_env s).1 = true) as Ha by (vm_compute; reflexivity).
    assert (open_trace clock_env s (0 + if (peer_open_allowed clock_env s).1 then 1 else 0) (peer_open_allowed clock_env s).2) as HT.
    { apply trace_open; [apply trace_none|vm_compute; split; [discriminate|reflexivity]|vm_compute; discriminate]. }
    rewrite Ha in HT. exact (proj1 (proj1 (H 2000000) _ _ HT)).
  - set (s := PState 0 zero_channel [] 5).
    assert (polled clock_env s (0 + 1) (peer_open_allowed clock_env s).2) as HP.
    { apply polled_again; [apply polled_none|vm_compute; split; [discriminate|reflexivity]|vm_compute; split; [discriminate|reflexivity]]. }
    apply (proj2 (proj2 (H 5) _ _ HP ltac:(lia))); vm_compute; split; (discriminate || reflexivity).
Defined.
