(* ===== verification/ForwardRing.v ===== *)
(** * The forward ring from the host to the DPA

    ([doca/ring.h], [dpumesh_enqueue] of [src/core/dmesh_core.c],
    [process_fwd_ring] of [doca/device/dpa_kernel.c], [doca/dpa_common.h])

    Any number of host threads put descriptors into one ring of shared memory
    without locks; one execution unit of the DPA takes them out and starts a
    DMA copy for each.  A thread draws a ticket, withdraws it when the ring is
    full, and otherwise stores the descriptor and publishes it under the ticket.

    The threads and the execution unit are state machines whose steps are the
    accesses to shared memory, one per step, in the order of the code; a run is
    any sequence of their steps.  So every interleaving of sequentially
    consistent accesses is a run; reordering that the acquire and release
    operations allow is not modelled.  The weak compare-exchange may fail
    without reason, the clock may find the ring stalled at any time, and the
    DPU's consumer may have no receive credit at any time: these are inputs of
    a step. *)

From S2P Require Import Prelude.

(** [(int8_t)z] *)
Definition int8 (z : Z) : Z := let u := u8 z in if u <? 128 then u else u - 256.

Definition DMA_RING_SIZE : Z := 4096.
Definition DPUMESH_SLOT_SIZE : Z := 8192.
Definition DPA_DMA_COPY_ALIGN : Z := 128.
Definition DPA_DMA_COPY_MAX : Z := DPUMESH_SLOT_SIZE.
Definition DPA_PRODUCER_REPORT_BATCH : Z := 512.
Definition RING_BATCH_CAP : Z := 32.
Definition DPA_MSG_FWD_DONE : Z := 3.

Definition dpa_dma_copy_prefix (offset : Z) : Z := u32 (Z.land offset (DPA_DMA_COPY_ALIGN - 1)).
Definition dpa_dma_payload_cap (offset logical_cap : Z) : Z :=
  let cap := u32 (DPA_DMA_COPY_MAX - dpa_dma_copy_prefix offset) in
  if logical_cap <? cap then logical_cap else cap.
Definition dpa_dma_aligned_copy_len (offset payload_len : Z) : Z :=
  let covered := u32 (dpa_dma_copy_prefix offset + payload_len) in
  Z.land (u32 (covered + DPA_DMA_COPY_ALIGN - 1)) (u32 (Z.lnot (DPA_DMA_COPY_ALIGN - 1))).
(** Whether a report is due, and the new count. *)
Definition dpa_producer_report_due (deferred : Z) : bool * Z :=
  let deferred := u32 (deferred + 1) in
  if deferred <? DPA_PRODUCER_REPORT_BATCH then (false, deferred) else (true, 0).
Definition dmesh_forward_ring (port forward_rings : Z) : Z :=
  if 1 <? forward_rings then port mod u32 forward_rings else 0.

(** ** Descriptors *)

Record sw_descriptor := SwDescriptor {
  sd_body_buf_slot : Z; sd_body_len : Z; sd_src_pod : Z; sd_src_port : Z; sd_src_service : Z;
  sd_dst_service : Z; sd_dst_pod : Z; sd_dst_port : Z; sd_seq : Z; sd_valid : Z }.

Record dma_desc := DmaDesc {
  dd_mmap : Z; dd_addr : Z; dd_size : Z; dd_seq : Z; dd_src_port : Z; dd_dst_port : Z;
  dd_src_service : Z; dd_dst_service : Z; dd_dst_pod_id : Z; dd_src_pod_id : Z; dd_publish_seq : Z }.
#[export] Instance eta_dma_desc : Eta dma_desc := fun x =>
  DmaDesc (dd_mmap x) (dd_addr x) (dd_size x) (dd_seq x) (dd_src_port x) (dd_dst_port x) (dd_src_service x)
    (dd_dst_service x) (dd_dst_pod_id x) (dd_src_pod_id x) (dd_publish_seq x).
Definition zero_desc : dma_desc := DmaDesc 0 0 0 0 0 0 0 0 0 0 0.

(** [ctrl->consumer_head] is [dr_consumer_head]. *)
Record dma_ring := DmaRing {
  dr_size : Z; dr_descs : list dma_desc; dr_consumer_head : Z; dr_enq_pos : Z; dr_dead : bool }.
#[export] Instance eta_dma_ring : Eta dma_ring := fun r =>
  DmaRing (dr_size r) (dr_descs r) (dr_consumer_head r) (dr_enq_pos r) (dr_dead r).
Definition desc_at (r : dma_ring) (idx : Z) : dma_desc := default zero_desc (dr_descs r !! Z.to_nat idx).
Definition desc_set (idx : Z) (f : dma_desc -> dma_desc) (r : dma_ring) : dma_ring :=
  r <| dr_descs ::= alter f (Z.to_nat idx) |>.

(** ** A host thread in [dpumesh_enqueue] *)

(** What the function reads of the context; [ec_ring] is the ring modelled. *)
Record enqueue_ctx := EnqueueCtx {
  ec_num_slots : Z; ec_slot_size : Z; ec_k_rings : Z; ec_ring : Z;
  ec_mmap : Z; ec_service_id : Z; ec_pod_id : Z }.

Definition enqueue_checks (ctx : enqueue_ctx) (d : sw_descriptor) : bool :=
  negb ((sd_body_buf_slot d <? 0) ||
        (u64 (ec_num_slots ctx * ec_slot_size ctx) <? u64 (sd_body_buf_slot d + sd_body_len d))) &&
  negb (u32 (ec_slot_size ctx) <? sd_body_len d) &&
  negb (negb (sd_body_len d =? 0) &&
        (dpa_dma_payload_cap (sd_body_buf_slot d) (u32 (ec_slot_size ctx)) <? sd_body_len d)).

(** The stores into the descriptor, in order. *)
Definition STORES : nat := 10.
Definition desc_store (ctx : enqueue_ctx) (d : sw_descriptor) (k : nat) (x : dma_desc) : dma_desc :=
  match k with
  | 0%nat => x <| dd_mmap := ec_mmap ctx |>
  | 1%nat => x <| dd_addr := u64 (sd_body_buf_slot d) |>
  | 2%nat => x <| dd_size := sd_body_len d |>
  | 3%nat => x <| dd_seq := sd_seq d |>
  | 4%nat => x <| dd_src_port := sd_src_port d |>
  | 5%nat => x <| dd_dst_port := sd_dst_port d |>
  | 6%nat => x <| dd_src_service := int8 (ec_service_id ctx) |>
  | 7%nat => x <| dd_dst_service := int8 (sd_dst_service d) |>
  | 8%nat => x <| dd_dst_pod_id := sd_dst_pod d |>
  | 9%nat => x <| dd_src_pod_id := ec_pod_id ctx |>
  | _ => x
  end.

(** Where a thread stands: outside; about to load [dead]; about to draw a
    ticket; with a ticket, about to load the consumer's head; having found the
    ring full, about to withdraw; refused, about to wait; claimed, with [k]
    stores done. *)
Inductive producer :=
  | Outside
  | Entering (d : sw_descriptor)
  | Claiming (d : sw_descriptor)
  | Holding (d : sw_descriptor) (ticket : Z)
  | Withdrawing (d : sw_descriptor) (ticket : Z)
  | Refused (d : sw_descriptor)
  | Storing (d : sw_descriptor) (ticket : Z) (k : nat).

(** [dma_ring_try_claim], one access per step. *)
Definition claim_draw (d : sw_descriptor) (r : dma_ring) : producer * dma_ring :=
  (Holding d (dr_enq_pos r), r <| dr_enq_pos ::= fun n => u64 (n + 1) |>).
Definition claim_load (d : sw_descriptor) (ticket : Z) (r : dma_ring) : producer * dma_ring :=
  (if u64 (ticket - dr_consumer_head r) <? dr_size r then Storing d ticket 0 else Withdrawing d ticket, r).
Definition claim_withdraw (spurious : bool) (d : sw_descriptor) (ticket : Z) (r : dma_ring) : producer * dma_ring :=
  if (dr_enq_pos r =? u64 (ticket + 1)) && negb spurious
  then (Refused d, r <| dr_enq_pos := ticket |>) else (Holding d ticket, r).
Definition dma_ring_publish_desc (ticket : Z) (r : dma_ring) : dma_ring :=
  desc_set (ticket mod dr_size r) (fun x => x <| dd_publish_seq := u64 (ticket + 1) |>) r.

(** A refused thread returns when the ring is dead or its deadline has passed,
    and tries again otherwise. *)
Definition refused_step (stalled : bool) (d : sw_descriptor) (r : dma_ring) : producer * dma_ring :=
  if dr_dead r then (Outside, r)
  else if stalled then (Outside, r <| dr_dead := true |>) else (Claiming d, r).

(** One step; the third part is the descriptor a return of 0 reports. *)
Definition enqueue_step (ctx : enqueue_ctx) (spurious stalled : bool) (p : producer) (r : dma_ring)
    : producer * dma_ring * option sw_descriptor :=
  match p with
  | Outside => (Outside, r, None)
  | Entering d => (if dr_dead r then Outside else Claiming d, r, None)
  | Claiming d => (claim_draw d r, None)
  | Holding d ticket => (claim_load d ticket r, None)
  | Withdrawing d ticket => (claim_withdraw spurious d ticket r, None)
  | Refused d => (refused_step stalled d r, None)
  | Storing d ticket k =>
    if (k <? STORES)%nat then (Storing d ticket (S k), desc_set (ticket mod dr_size r) (desc_store ctx d k) r, None)
    else (Outside, dma_ring_publish_desc ticket r, Some d)
  end.

(** ** The execution unit in [process_fwd_ring] *)

Record dpa_ring_info := RingInfo {
  ri_buf_arr_size : Z; ri_host_mmap : Z; ri_host_addr : Z; ri_dpu_mmap : Z; ri_dpu_addr : Z;
  ri_pod_id : Z; ri_region_off : Z; ri_host_buf_size : Z; ri_generation : Z }.

Record comch_dma_comp_msg := CompMsg {
  cm_type : Z; cm_src_pod_id : Z; cm_dst_pod_id : Z; cm_dst_service : Z; cm_src_port : Z;
  cm_dst_port : Z; cm_seq : Z; cm_length : Z; cm_pos : Z; cm_generation : Z }.

(** The copy started for a descriptor, or none. *)
Inductive fwd_outcome :=
  | Dropped
  | Forwarded (comp : comch_dma_comp_msg) (dst_mmap dst src_mmap src chunk : Z).

Definition copy_chunk (off size : Z) : Z :=
  let chunk := dpa_dma_aligned_copy_len (u32 off) size in if chunk =? 0 then DPA_DMA_COPY_ALIGN else chunk.
Definition copy_start (off : Z) : Z := u32 (u32 off - dpa_dma_copy_prefix (u32 off)).
Definition span_refused (ring : dpa_ring_info) (off size : Z) : bool :=
  (DPA_DMA_COPY_MAX <? copy_chunk off size) || (ri_host_buf_size ring <=? off) ||
  (ri_host_buf_size ring <? u64 (copy_start off + copy_chunk off size)).
Definition forwarded (ring : dpa_ring_info) (off size : Z) (x : dma_desc) : fwd_outcome :=
  Forwarded (CompMsg DPA_MSG_FWD_DONE (int8 (ri_pod_id ring)) (int8 (dd_dst_pod_id x)) (dd_dst_service x)
               (dd_src_port x) (dd_dst_port x) (dd_seq x) (u16 size) (u32 off) (ri_generation ring))
    (ri_dpu_mmap ring) (u64 (u64 (ri_dpu_addr ring - ri_region_off ring) + u32 off - dpa_dma_copy_prefix (u32 off)))
    (ri_host_mmap ring) (u64 (ri_host_addr ring + copy_start off)) (copy_chunk off size).
(** What becomes of a published descriptor. *)
Definition fate (ring : dpa_ring_info) (x : dma_desc) : fwd_outcome :=
  if (DPA_DMA_COPY_MAX <? dd_size x) || span_refused ring (dd_addr x) (dd_size x) then Dropped
  else forwarded ring (dd_addr x) (dd_size x) x.

(** The locals of one call: [desc_idx], [b], [total_chunks], [budget]. *)
Record quantum := Quantum { q_idx : Z; q_b : Z; q_total : Z; q_budget : Z }.
(** Between calls; at the head of the loop; the descriptor is published; its
    offset and size are read; they are admissible; leaving with a count. *)
Inductive consumer_pc :=
  | Polling
  | Scanning (q : quantum)
  | Seen (q : quantum)
  | Sized (q : quantum) (off size : Z)
  | Bounded (q : quantum) (off size : Z)
  | Leaving (total : Z).
(** [consumer_head[r]] and [producer_deferred] of the thread argument. *)
Record consumer := Consumer { cn_head : Z; cn_deferred : Z; cn_pc : consumer_pc }.
#[export] Instance eta_consumer : Eta consumer := fun c => Consumer (cn_head c) (cn_deferred c) (cn_pc c).

Definition poll_start (ring : dpa_ring_info) (budget : Z) (c : consumer) : consumer :=
  c <| cn_pc := Scanning (Quantum (u32 (cn_head c mod ri_buf_arr_size ring)) 0 0 budget) |>.
(** The next descriptor. *)
Definition advance (ring : dpa_ring_info) (q : quantum) (c : consumer) : consumer :=
  let idx := u32 (q_idx q + 1) in
  (c <| cn_head ::= fun n => u64 (n + 1) |>)
    <| cn_pc := Scanning (Quantum (if idx =? ri_buf_arr_size ring then 0 else idx) (u32 (q_b q + 1)) (q_total q + 1) (q_budget q)) |>.

(** After a call that took something, [drain_all_rings] hands the slots back. *)
Definition drain_release (total : Z) (c : consumer) (r : dma_ring) : dma_ring :=
  if 0 <? total then r <| dr_consumer_head := cn_head c |> else r.
(** One step; the last part is the outcome of a descriptor, with whether its
    completion is reported. *)
Definition process_step (ring : dpa_ring_info) (no_credit : bool) (c : consumer) (r : dma_ring)
    : consumer * dma_ring * option (fwd_outcome * bool) :=
  match cn_pc c with
  | Polling => (c, r, None)
  | Scanning q =>
    (c <| cn_pc := if (q_b q <? RING_BATCH_CAP) && (q_b q <? q_budget q) &&
                      (dd_publish_seq (desc_at r (q_idx q)) =? u64 (cn_head c + 1))
                   then Seen q else Leaving (q_total q) |>, r, None)
  | Seen q =>
    let x := desc_at r (q_idx q) in
    if DPA_DMA_COPY_MAX <? dd_size x then (advance ring q c, r, Some (Dropped, false))
    else (c <| cn_pc := Sized q (dd_addr x) (dd_size x) |>, r, None)
  | Sized q off size =>
    if no_credit then (c <| cn_pc := Leaving (q_total q) |>, r, None)
    else if span_refused ring off size then (advance ring q c, r, Some (Dropped, false))
    else (c <| cn_pc := Bounded q off size |>, r, None)
  | Bounded q off size =>
    let '(report, deferred) := dpa_producer_report_due (cn_deferred c) in
    (advance ring q (c <| cn_deferred := deferred |>), r,
     Some (forwarded ring off size (desc_at r (q_idx q)), report))
  | Leaving total => (c <| cn_pc := Polling |>, drain_release total c r, None)
  end.

(** ** Runs *)

(** [fs_log]: what became of each descriptor, in order; [fs_done]: the returns
    of 0, with their threads, in order. *)
Record fwd_state := Fwd {
  fs_ring : dma_ring; fs_producers : list producer; fs_consumer : consumer;
  fs_log : list (fwd_outcome * bool); fs_done : list (nat * sw_descriptor) }.

Inductive fwd_move :=
  | Enqueue (i : nat) (d : sw_descriptor)
  | Produce (i : nat) (spurious stalled : bool)
  | Poll (budget : Z)
  | Consume (no_credit : bool).

Definition fwd_exec (ctx : enqueue_ctx) (ring : dpa_ring_info) (s : fwd_state) (m : fwd_move) : fwd_state :=
  let '(Fwd r ps c log done) := s in
  match m with
  | Enqueue i d =>
    match ps !! i with
    | Some Outside =>
      if enqueue_checks ctx d && (dmesh_forward_ring (sd_src_port d) (ec_k_rings ctx) =? ec_ring ctx)
      then Fwd r (<[i := Entering d]> ps) c log done else s
    | _ => s
    end
  | Produce i spurious stalled =>
    match ps !! i with
    | Some p =>
      let '(p', r', returned) := enqueue_step ctx spurious stalled p r in
      Fwd r' (<[i := p']> ps) c log (done ++ match returned with Some d => [(i, d)] | None => [] end)
    | None => s
    end
  | Poll budget => match cn_pc c with Polling => Fwd r ps (poll_start ring budget c) log done | _ => s end
  | Consume no_credit =>
    let '(c', r', out) := process_step ring no_credit c r in
    Fwd r' ps c' (log ++ match out with Some o => [o] | None => [] end) done
  end.
Definition fwd_run (ctx : enqueue_ctx) (ring : dpa_ring_info) (s : fwd_state) (moves : list fwd_move) : fwd_state :=
  fold_left (fwd_exec ctx ring) moves s.

(** A ring as [setup_dma_ring] leaves it, with [n] threads. *)
Definition fresh_ring (size : Z) : dma_ring := DmaRing size (repeat zero_desc (Z.to_nat size)) 0 0 false.
Definition fwd_start (size : Z) (n : nat) : fwd_state :=
  Fwd (fresh_ring size) (repeat Outside n) (Consumer 0 0 Polling) [] [].
