(* ===== verification/ForwardRingInv.v ===== *)
(** * The invariant of the forward ring

    Tickets and heads of the ring wrap at 64 bits; the invariant relates them to
    unbounded numbers.  A ticket below the next one to be drawn is either held
    by exactly one thread or published; what is published and not yet consumed
    is intact in its slot; a claimed slot is its holder's alone. *)

From Stdlib Require Import Sorting.Sorted.
From stdpp Require Import functions.
From S2P Require Import Prelude ForwardRing.

(** Two numbers in a window of the ring's size share a slot only if equal. *)
Lemma same_slot size lo a b :
  0 < size -> lo <= a < lo + size -> lo <= b < lo + size -> a mod size = b mod size -> a = b.
Proof.
  intros Hs Ha Hb E. pose proof (Z.div_mod a size ltac:(lia)). pose proof (Z.div_mod b size ltac:(lia)).
  assert (a / size = b / size) by nia. nia.
Qed.
Lemma mod_u64 size a : 0 < size -> (size | 2 ^ 64) -> u64 a mod size = a mod size.
Proof. intros Hs Hd. unfold wrap. by apply Z.mod_mod_divide. Qed.
Lemma u64_inj a b : u64 a = u64 b -> - 2 ^ 64 < a - b < 2 ^ 64 -> a = b.
Proof.
  unfold wrap. intros E H. pose proof (Z.div_mod a (2 ^ 64) ltac:(lia)). pose proof (Z.div_mod b (2 ^ 64) ltac:(lia)). nia.
Qed.
Lemma u64_sub a b : 0 <= a - b < 2 ^ 64 -> u64 (u64 a - u64 b) = a - b.
Proof. intros H. unfold wrap. rewrite <-Zminus_mod. by apply Z.mod_small. Qed.
Lemma u64_succ a : u64 (u64 a + 1) = u64 (a + 1).
Proof. unfold wrap. by rewrite Zplus_mod_idemp_l. Qed.

(** ** Slots *)

Lemma desc_at_set r idx f j :
  0 <= idx < Z.of_nat (length (dr_descs r)) -> 0 <= j ->
  desc_at (desc_set idx f r) j = if decide (j = idx) then f (desc_at r j) else desc_at r j.
Proof.
  intros Hi Hj. unfold desc_at, desc_set. cbn. destruct (decide (j = idx)) as [->|Hn].
  - destruct (lookup_lt_is_Some_2 (dr_descs r) (Z.to_nat idx) ltac:(lia)) as [x Hx].
    rewrite list_lookup_alter_eq, Hx. done.
  - rewrite list_lookup_alter_ne; [done|]. lia.
Qed.

(** The fields a thread stores. *)
Definition fields (x : dma_desc) : list Z :=
  [dd_mmap x; dd_addr x; dd_size x; dd_seq x; dd_src_port x; dd_dst_port x; dd_src_service x; dd_dst_service x;
   dd_dst_pod_id x; dd_src_pod_id x].

(** Thread, descriptor and ticket of a published descriptor. *)
Abbreviation pub_entry := (nat * sw_descriptor * Z)%type.
Definition thread (x : pub_entry) : nat := x.1.1.
Definition payload (x : pub_entry) : sw_descriptor := x.1.2.

Section inv.
  Context (ctx : enqueue_ctx) (ring : dpa_ring_info).

Definition desc_of (d : sw_descriptor) : dma_desc :=
  fold_left (fun x k => desc_store ctx d k x) (seq 0 STORES) zero_desc.
(** The first [k] stores of [d] are in [x]. *)
Definition stored (k : nat) (d : sw_descriptor) (x : dma_desc) : Prop :=
  take k (fields x) = take k (fields (desc_of d)).

Lemma stored_next k d x : (k < STORES)%nat -> stored k d x -> stored (S k) d (desc_store ctx d k x).
Proof.
  unfold STORES. intros Hk. unfold stored, fields, desc_of.
  do 10 (destruct k as [|k]; [cbn; congruence|]). lia.
Qed.
Lemma stored_publish k d n x : stored k d (x <| dd_publish_seq := n |>) <-> stored k d x.
Proof. done. Qed.
Lemma store_keeps_publish d k x : dd_publish_seq (desc_store ctx d k x) = dd_publish_seq x.
Proof. do 10 (destruct k as [|k]; [done|]). done. Qed.
Lemma stored_fields d x : stored STORES d x -> fields x = fields (desc_of d).
Proof. intros H. exact H. Qed.
Lemma fields_fate x y :
  fields x = fields y ->
  dd_addr x = dd_addr y /\ dd_size x = dd_size y /\ (forall off size, forwarded ring off size x = forwarded ring off size y).
Proof. unfold fields. intros [= E1 E2 E3 E4 E5 E6 E7 E8 E9 E10]. unfold forwarded. by rewrite E4, E5, E6, E8, E9. Qed.

(** ** Tickets *)

Context (size : Z) (n : nat).

(** [next]: the ticket to be drawn next; [released], [head]: what the consumer
    has given back and consumed; [tk]: the tickets held; [pub]: published. *)
Record ticket_core (next released head : Z) (tk : nat -> option Z) (pub : list pub_entry) : Prop := Core {
  c_order : 0 <= released <= head /\ head <= next;
  c_held : forall i T, tk i = Some T -> (i < n)%nat /\ head <= T < next /\ T ∉ pub.*2;
  c_inj : forall i j T, tk i = Some T -> tk j = Some T -> i = j;
  c_pub : forall x, x ∈ pub -> 0 <= x.2 < next /\ x.2 < released + size;
  c_nodup : NoDup pub.*2;
  c_cover : forall T, 0 <= T < next -> T ∈ pub.*2 \/ exists i, tk i = Some T;
  c_sorted : StronglySorted (fun x y => thread x = thread y -> x.2 < y.2) pub;
  c_own : forall i T x, tk i = Some T -> x ∈ pub -> thread x = i -> x.2 < T }.

Lemma core_draw next released head tk pub i :
  ticket_core next released head tk pub -> tk i = None -> (i < n)%nat ->
  ticket_core (next + 1) released head (<[i := Some next]> tk) pub.
Proof.
  intros C Hi Hn. destruct C as [O Hh Inj P N Cov So Own]. split; try done.
  - lia.
  - intros j T. destruct (decide (i = j)) as [<-|Hj]; [rewrite fn_lookup_insert|rewrite fn_lookup_insert_ne by done].
    + intros [= <-]. split; [done|]. split; [lia|]. intros (x & -> & Hx)%list_elem_of_fmap. destruct (P x Hx). lia.
    + intros HT. destruct (Hh j T HT) as (A & B & D). split; [done|]. split; [lia|done].
  - intros j k T. destruct (decide (i = j)) as [<-|Hj]; [rewrite fn_lookup_insert|rewrite fn_lookup_insert_ne by done];
      (destruct (decide (i = k)) as [<-|Hk]; [rewrite fn_lookup_insert|rewrite fn_lookup_insert_ne by done]); try done.
    + intros [= <-] HT. destruct (Hh k next HT). lia.
    + intros HT [= <-]. destruct (Hh j next HT). lia.
    + apply Inj.
  - intros x Hx. destruct (P x Hx). lia.
  - intros T HT. destruct (decide (T = next)) as [->|Hne]; [right; exists i; by rewrite fn_lookup_insert|].
    destruct (Cov T ltac:(lia)) as [H|[j H]]; [by left|right]. exists j. rewrite fn_lookup_insert_ne; [done|congruence].
  - intros j T x. destruct (decide (i = j)) as [<-|Hj]; [rewrite fn_lookup_insert|rewrite fn_lookup_insert_ne by done; apply Own].
    intros [= <-] Hx _. destruct (P x Hx). lia.
Qed.

Lemma core_withdraw next released head tk pub i :
  ticket_core next released head tk pub -> tk i = Some (next - 1) ->
  ticket_core (next - 1) released head (<[i := None]> tk) pub.
Proof.
  intros C Hi. destruct C as [O Hh Inj P N Cov So Own]. destruct (Hh i _ Hi) as (In & Hr & Hnp). split; try done.
  - lia.
  - intros j T. destruct (decide (i = j)) as [<-|Hj]; [by rewrite fn_lookup_insert|rewrite fn_lookup_insert_ne by done].
    intros HT. destruct (Hh j T HT) as (A & B & D). split; [done|]. split; [|done].
    destruct (decide (T = next - 1)) as [->|]; [destruct Hj; by apply (Inj i j (next - 1))|lia].
  - intros j k T. destruct (decide (i = j)) as [<-|Hj]; [by rewrite fn_lookup_insert|rewrite fn_lookup_insert_ne by done].
    destruct (decide (i = k)) as [<-|Hk]; [by rewrite fn_lookup_insert|rewrite fn_lookup_insert_ne by done]. apply Inj.
  - intros x Hx. destruct (P x Hx). split; [|lia].
    assert (x.2 <> next - 1) by (intros E; apply Hnp; rewrite <-E; by apply list_elem_of_fmap_2). lia.
  - intros T HT. destruct (Cov T ltac:(lia)) as [H|[j H]]; [by left|right]. exists j.
    rewrite fn_lookup_insert_ne; [done|]. intros ->. rewrite Hi in H. injection H as <-. lia.
  - intros j T x. destruct (decide (i = j)) as [<-|Hj]; [by rewrite fn_lookup_insert|rewrite fn_lookup_insert_ne by done; apply Own].
Qed.

Lemma sorted_snoc {A} (R : A -> A -> Prop) l x :
  StronglySorted R l -> Forall (fun y => R y x) l -> StronglySorted R (l ++ [x]).
Proof.
  induction 1 as [|y l Hs IH Hf]; intros F; [by repeat constructor|].
  inversion F as [|? ? Hy F']; subst. cbn. constructor; [by apply IH|]. apply Forall_app. split; [done|]. by constructor.
Qed.

Lemma core_publish next released head tk pub i d T :
  ticket_core next released head tk pub -> tk i = Some T -> T < released + size ->
  ticket_core next released head (<[i := None]> tk) (pub ++ [(i, d, T)]).
Proof.
  intros C Hi Hw. destruct C as [O Hh Inj P N Cov So Own]. destruct (Hh i T Hi) as (In & Hr & Hnp). split; try done.
  - intros j T'. destruct (decide (i = j)) as [<-|Hj]; [by rewrite fn_lookup_insert|rewrite fn_lookup_insert_ne by done].
    intros HT. destruct (Hh j T' HT) as (A & B & D). split; [done|]. split; [done|].
    rewrite fmap_app, elem_of_app. intros [H|H]; [done|]. apply list_elem_of_singleton in H. cbn in H. subst T'.
    destruct Hj. by apply (Inj i j T).
  - intros j k T'. destruct (decide (i = j)) as [<-|Hj]; [by rewrite fn_lookup_insert|rewrite fn_lookup_insert_ne by done].
    destruct (decide (i = k)) as [<-|Hk]; [by rewrite fn_lookup_insert|rewrite fn_lookup_insert_ne by done]. apply Inj.
  - intros x [Hx|Hx]%elem_of_app; [by apply P|]. apply list_elem_of_singleton in Hx as ->. cbn. lia.
  - rewrite fmap_app. apply NoDup_app. split; [done|]. split; [|apply NoDup_singleton].
    intros x Hx Hx'. apply list_elem_of_singleton in Hx'. cbn in Hx'. by subst.
  - intros T' HT. destruct (decide (T' = T)) as [->|Hne]; [left; rewrite fmap_app, elem_of_app; right; by apply list_elem_of_singleton|].
    destruct (Cov T' HT) as [H|[j H]]; [left; rewrite fmap_app, elem_of_app; by left|right]. exists j.
    rewrite fn_lookup_insert_ne; [done|]. intros ->. congruence.
  - apply sorted_snoc; [done|]. apply Forall_forall. intros x Hx E. cbn in *. by apply (Own i T x).
  - intros j T' x. destruct (decide (i = j)) as [<-|Hj]; [by rewrite fn_lookup_insert|rewrite fn_lookup_insert_ne by done].
    intros HT [Hx|Hx]%elem_of_app; [by apply Own|]. apply list_elem_of_singleton in Hx as ->. intros E. cbn in E. done.
Qed.

Lemma core_consume next released head tk pub :
  ticket_core next released head tk pub -> head ∈ pub.*2 -> ticket_core next released (head + 1) tk pub.
Proof.
  intros C Hp. destruct C as [O Hh Inj P N Cov So Own]. split; try done.
  - apply list_elem_of_fmap in Hp as (x & -> & Hx). destruct (P x Hx). lia.
  - intros i T HT. destruct (Hh i T HT) as (A & B & D). split; [done|]. split; [|done].
    assert (T <> head) by (intros ->; done). lia.
Qed.

Lemma core_release next released head tk pub :
  ticket_core next released head tk pub -> ticket_core next head head tk pub.
Proof.
  intros C. destruct C as [O Hh Inj P N Cov So Own]. split; try done; [lia|].
  intros x Hx. destruct (P x Hx). lia.
Qed.

(** Tickets run at most the number of threads beyond the ring. *)
Lemma core_bound next released head tk pub : ticket_core next released head tk pub -> 0 <= size -> next <= released + size + Z.of_nat n.
Proof.
  intros C Hs. destruct (Z.le_gt_cases next (released + size)) as [H|H]; [lia|].
  assert (seqZ (released + size) (next - (released + size)) ⊆+ omap tk (seq 0 n)) as L.
  { apply NoDup_submseteq; [apply NoDup_seqZ|]. intros T HT%elem_of_seqZ. destruct C as [O Hh Inj P N Cov So Own].
    destruct (Cov T ltac:(lia)) as [(x & -> & Hx)%list_elem_of_fmap|[i Hi]]; [destruct (P x Hx); lia|].
    apply list_elem_of_omap. exists i. split; [|done]. apply elem_of_seq. destruct (Hh i T Hi). lia. }
  apply submseteq_length in L. rewrite length_seqZ in L.
  assert (length (omap tk (seq 0 n)) <= length (seq 0 n))%nat as Ho.
  { generalize (seq 0 n). intros l. induction l as [|i l IH]; [done|]. cbn. destruct (tk i); cbn; lia. }
  rewrite length_seq in Ho.
  lia.
Qed.
(** ** The whole ring *)

Hypothesis size_ok : 0 < size < 2 ^ 32.
Hypothesis size_div : (size | 2 ^ 64).
Hypothesis ring_size : ri_buf_arr_size ring = size.
Hypothesis room : size + Z.of_nat n < 2 ^ 64.

(** What is published and not consumed is intact; a slot's sequence names the
    last ticket published there. *)
Record mem (r : dma_ring) (head : Z) (pub : list pub_entry) : Prop := Mem {
  m_size : dr_size r = size;
  m_len : Z.of_nat (length (dr_descs r)) = size;
  m_pub : forall x, x ∈ pub -> head <= x.2 ->
    stored STORES (payload x) (desc_at r (x.2 mod size)) /\ dd_publish_seq (desc_at r (x.2 mod size)) = u64 (x.2 + 1);
  m_seq : forall j, 0 <= j < size ->
    (dd_publish_seq (desc_at r j) = 0 /\ forall x, x ∈ pub -> x.2 mod size <> j) \/
    exists x, x ∈ pub /\ x.2 mod size = j /\ dd_publish_seq (desc_at r j) = u64 (x.2 + 1) /\
      forall y, y ∈ pub -> y.2 mod size = j -> y.2 <= x.2 }.

Definition thread_ok (r : dma_ring) (released : Z) (tk : nat -> option Z) (i : nat) (p : producer) : Prop :=
  match p with
  | Outside | Entering _ | Claiming _ | Refused _ => tk i = None
  | Holding _ t | Withdrawing _ t => exists T, tk i = Some T /\ t = u64 T
  | Storing d t k =>
    exists T, tk i = Some T /\ t = u64 T /\ T < released + size /\ (k <= STORES)%nat /\ stored k d (desc_at r (T mod size))
  end.

Definition pc_ok (head : Z) (pub : list pub_entry) (pc : consumer_pc) : Prop :=
  let reads (off sz : Z) := exists x, x ∈ pub /\ x.2 = head /\ off = dd_addr (desc_of (payload x)) /\
    sz = dd_size (desc_of (payload x)) /\ sz <= DPA_DMA_COPY_MAX in
  match pc with
  | Polling | Leaving _ => True
  | Scanning q => q_idx q = head mod size
  | Seen q => q_idx q = head mod size /\ head ∈ pub.*2
  | Sized q off sz => q_idx q = head mod size /\ reads off sz
  | Bounded q off sz => q_idx q = head mod size /\ reads off sz /\ span_refused ring off sz = false
  end.

Record fwd_inv (s : fwd_state) (next released head : Z) (tk : nat -> option Z) (pub ord : list pub_entry) : Prop := FwdInv {
  v_core : ticket_core next released head tk pub;
  v_enq : dr_enq_pos (fs_ring s) = u64 next;
  v_released : dr_consumer_head (fs_ring s) = u64 released;
  v_mem : mem (fs_ring s) head pub;
  v_count : length (fs_producers s) = n;
  v_threads : forall i p, fs_producers s !! i = Some p -> thread_ok (fs_ring s) released tk i p;
  v_head : cn_head (fs_consumer s) = u64 head;
  v_pc : pc_ok head pub (cn_pc (fs_consumer s));
  v_ord : ord.*2 = seqZ 0 head;
  v_ord_pub : Forall (.∈ pub) ord;
  v_log : (fs_log s).*1 = (fun x => fate ring (desc_of (payload x))) <$> ord;
  v_done : fs_done s = fst <$> pub }.

(** A change of one thread that leaves the memory of the others alone. *)
Lemma threads_set r r' released tk v (ps : list producer) i p' :
  (forall i p, ps !! i = Some p -> thread_ok r released tk i p) ->
  (forall j T k d, j <> i -> tk j = Some T -> T < released + size -> stored k d (desc_at r (T mod size)) -> stored k d (desc_at r' (T mod size))) ->
  thread_ok r' released (<[i := v]> tk) i p' ->
  forall j p, <[i := p']> ps !! j = Some p -> thread_ok r' released (<[i := v]> tk) j p.
Proof.
  intros H Hm Hi j p. destruct (decide (i = j)) as [<-|Hj].
  - intros Hl. destruct (decide (i < length ps)%nat) as [Hlt|Hlt].
    + rewrite list_lookup_insert_eq in Hl by done. by injection Hl as <-.
    + rewrite list_insert_ge in Hl by lia. apply lookup_lt_Some in Hl. lia.
  - rewrite list_lookup_insert_ne by done. intros Hl. specialize (H j p Hl).
    destruct p; cbn in *; rewrite ?fn_lookup_insert_ne by done; try done.
    destruct H as (T & A & B & D & F & G). exists T. split_and!; [done..|].
    by apply (Hm j T k d).
Qed.

Lemma tk_same (tk : nat -> option Z) i v j : tk i = v -> (<[i := v]> tk) j = tk j.
Proof. intros <-. destruct (decide (i = j)) as [<-|H]; [apply fn_lookup_insert|by apply fn_lookup_insert_ne]. Qed.

(** Claimed or published and not released: one slot each. *)
Lemma other_slot next released head tk pub i T T' :
  ticket_core next released head tk pub -> tk i = Some T -> T < released + size ->
  head <= T' -> T' < released + size -> T' <> T -> T' mod size <> T mod size.
Proof.
  intros C Hi Hw H1 H2 Hne E. destruct (c_held _ _ _ _ _ C i T Hi) as (_ & B & _).
  pose proof (c_order _ _ _ _ _ C). apply Hne, (same_slot size released); lia.
Qed.

(** A holder's store into its slot. *)
Lemma mem_store next released head tk pub i T f r :
  ticket_core next released head tk pub -> tk i = Some T -> T < released + size ->
  mem r head pub -> (forall x, dd_publish_seq (f x) = dd_publish_seq x) -> mem (desc_set (T mod size) f r) head pub.
Proof.
  intros C Hi Hw [M1 M2 M3 M4] Hf. pose proof (Z.mod_pos_bound T size ltac:(lia)) as Hb. split.
  - done.
  - unfold desc_set. cbn. by rewrite length_alter.
  - intros x Hx Hh. destruct (c_pub _ _ _ _ _ C x Hx) as [P1 P2].
    rewrite desc_at_set by (rewrite ?M2; try apply Z.mod_pos_bound; lia). rewrite decide_False; [by apply M3|].
    apply (other_slot next released head tk pub i T); try done. intros E.
    destruct (c_held _ _ _ _ _ C i T Hi) as (_ & _ & Hn). apply Hn. rewrite <-E. by apply list_elem_of_fmap_2.
  - intros j Hj. rewrite desc_at_set by (rewrite ?M2; lia). specialize (M4 j Hj).
    destruct (decide (j = T mod size)) as [->|]; [by rewrite Hf|done].
Qed.

(** Publication of a fully stored descriptor. *)
Lemma mem_publish next released head tk pub i d T r :
  ticket_core next released head tk pub -> tk i = Some T -> T < released + size ->
  mem r head pub -> stored STORES d (desc_at r (T mod size)) ->
  mem (desc_set (T mod size) (fun x => x <| dd_publish_seq := u64 (T + 1) |>) r) head (pub ++ [(i, d, T)]).
Proof.
  intros C Hi Hw [M1 M2 M3 M4] Hst. pose proof (Z.mod_pos_bound T size ltac:(lia)) as Hb.
  destruct (c_held _ _ _ _ _ C i T Hi) as (_ & Hr & Hn). split.
  - done.
  - unfold desc_set. cbn. by rewrite length_alter.
  - intros x Hx Hh. rewrite desc_at_set by (rewrite ?M2; try apply Z.mod_pos_bound; lia).
    apply elem_of_app in Hx as [Hx|Hx].
    + destruct (c_pub _ _ _ _ _ C x Hx) as [P1 P2]. rewrite decide_False; [by apply M3|].
      apply (other_slot next released head tk pub i T); try done. intros E. apply Hn. rewrite <-E. by apply list_elem_of_fmap_2.
    + apply list_elem_of_singleton in Hx as ->. cbn [snd]. by rewrite decide_True.
  - intros j Hj. rewrite desc_at_set by (rewrite ?M2; lia). destruct (decide (j = T mod size)) as [->|Hne].
    + right. exists (i, d, T). split; [apply elem_of_app; right; by apply list_elem_of_singleton|]. split; [done|]. split; [done|].
      intros y [Hy|Hy]%elem_of_app E; [|apply list_elem_of_singleton in Hy as ->; done].
      destruct (c_pub _ _ _ _ _ C y Hy) as [P1 P2]. pose proof (c_order _ _ _ _ _ C). cbn [snd] in *.
      destruct (Z.le_gt_cases y.2 T) as [|Hgt]; [done|]. assert (y.2 = T); [|lia].
      apply (same_slot size T); lia.
    + destruct (M4 j Hj) as [[A B]|(x & A & B & D & F)].
      * left. split; [done|]. intros x [Hx|Hx]%elem_of_app; [by apply B|]. apply list_elem_of_singleton in Hx as ->. cbn. congruence.
      * right. exists x. split; [apply elem_of_app; by left|]. split; [done|]. split; [done|].
        intros y [Hy|Hy]%elem_of_app E; [by apply F|]. apply list_elem_of_singleton in Hy as ->. cbn in E. congruence.
Qed.

(** The sequence the consumer waits for means that its ticket is published. *)
Lemma seen_published next released head tk pub r :
  ticket_core next released head tk pub -> mem r head pub ->
  dd_publish_seq (desc_at r (head mod size)) = u64 (head + 1) -> head ∈ pub.*2.
Proof.
  intros C [M1 M2 M3 M4] E. pose proof (c_order _ _ _ _ _ C) as O. pose proof (core_bound _ _ _ _ _ C ltac:(lia)) as B.
  assert (head - size >= 0 -> exists x, x ∈ pub /\ x.2 = head - size) as Hprev.
  { intros H. destruct (c_cover _ _ _ _ _ C (head - size) ltac:(lia)) as [(x & Hx & Hin)%list_elem_of_fmap|[i Hi]]; [by exists x|].
    destruct (c_held _ _ _ _ _ C i _ Hi). lia. }
  assert ((head - size) mod size = head mod size) as Hm.
  { replace (head - size) with (head + (-1) * size) by lia. apply Z.mod_add. lia. }
  destruct (M4 (head mod size)) as [[A F]|(x & Hx & Hj & A & F)]; [apply Z.mod_pos_bound; lia| |]; rewrite A in E.
  - exfalso. symmetry in E. apply Z.mod_divide in E; [|lia]. apply Z.divide_pos_le in E; [|lia].
    destruct Hprev as (x & Hx & Hx2); [lia|]. apply (F x Hx). by rewrite Hx2.
  - apply list_elem_of_fmap. exists x. split; [|done]. destruct (c_pub _ _ _ _ _ C x Hx) as [P1 P2].
    assert (head - size <= x.2).
    { destruct (Z.le_gt_cases 0 (head - size)) as [H|H]; [|lia]. destruct Hprev as (y & Hy & Hy2); [lia|].
      rewrite <-Hy2. apply F; [done|]. by rewrite Hy2. }
    apply u64_inj in E; lia.
Qed.
(** ** Every step keeps the invariant *)

Definition fwd_ok (s : fwd_state) : Prop := exists next released head tk pub ord, fwd_inv s next released head tk pub ord.

(** A thread changes its place, holds what it held, and the ring stays. *)
Lemma keep_place s next released head tk pub ord i p' :
  fwd_inv s next released head tk pub ord -> thread_ok (fs_ring s) released tk i p' ->
  fwd_inv (Fwd (fs_ring s) (<[i := p']> (fs_producers s)) (fs_consumer s) (fs_log s) (fs_done s)) next released head tk pub ord.
Proof.
  intros [V1 V2 V3 V4 V5 V6 V7 V8 V9 V10 V11 V12] Hp. split; try done; cbn [fs_producers fs_ring].
  - by rewrite length_insert.
  - intros j p Hj. assert (forall j, (<[i := tk i]> tk) j = tk j) as Hsame by (intros k; by apply tk_same).
    assert (thread_ok (fs_ring s) released (<[i := tk i]> tk) j p) as H.
    { apply (threads_set (fs_ring s) (fs_ring s) released tk (tk i) (fs_producers s) i p'); try done.
      destruct p'; cbn in *; by rewrite Hsame. }
    destruct p; cbn in *; by rewrite Hsame in H.
Qed.

Lemma draw_keeps s next released head tk pub ord i d :
  fwd_inv s next released head tk pub ord -> fs_producers s !! i = Some (Claiming d) ->
  let '(p', r') := claim_draw d (fs_ring s) in
  fwd_ok (Fwd r' (<[i := p']> (fs_producers s)) (fs_consumer s) (fs_log s) (fs_done s)).
Proof.
  intros [V1 V2 V3 V4 V5 V6 V7 V8 V9 V10 V11 V12] Hp. cbn.
  exists (next + 1), released, head, (<[i := Some next]> tk), pub, ord. split; try done; cbn [fs_ring fs_producers].
  - apply core_draw; [done|apply (V6 _ _ Hp)|]. rewrite <-V5. by eapply lookup_lt_Some.
  - cbn. by rewrite V2, u64_succ.
  - by destruct V4.
  - by rewrite length_insert.
  - apply (threads_set (fs_ring s)); [done|done|]. exists next. split; [by rewrite fn_lookup_insert|done].
Qed.

Lemma withdraw_keeps s next released head tk pub ord i d t spurious :
  fwd_inv s next released head tk pub ord -> fs_producers s !! i = Some (Withdrawing d t) ->
  let '(p', r') := claim_withdraw spurious d t (fs_ring s) in
  fwd_ok (Fwd r' (<[i := p']> (fs_producers s)) (fs_consumer s) (fs_log s) (fs_done s)).
Proof.
  intros V Hp. pose proof (v_threads _ _ _ _ _ _ _ V _ _ Hp) as (T & HT & Ht). unfold claim_withdraw.
  destruct (_ && _) eqn:Hc; [|by exists next, released, head, tk, pub, ord; apply keep_place; [|exists T]].
  destruct V as [V1 V2 V3 V4 V5 V6 V7 V8 V9 V10 V11 V12].
  apply andb_true_iff in Hc as [Hc%Z.eqb_eq _]. rewrite V2, Ht, u64_succ in Hc.
  destruct (c_held _ _ _ _ _ V1 i T HT) as (_ & Hr & _). pose proof (core_bound _ _ _ _ _ V1 ltac:(lia)).
  pose proof (c_order _ _ _ _ _ V1). apply u64_inj in Hc; [|lia]. assert (T = next - 1) as -> by lia.
  exists (next - 1), released, head, (<[i := None]> tk), pub, ord. split; try done; cbn [fs_ring fs_producers].
  - by apply core_withdraw.
  - by destruct V4.
  - by rewrite length_insert.
  - apply (threads_set (fs_ring s)); [done|done|]. cbn. by rewrite fn_lookup_insert.
Qed.

Lemma load_keeps s next released head tk pub ord i d t :
  fwd_inv s next released head tk pub ord -> fs_producers s !! i = Some (Holding d t) ->
  let '(p', r') := claim_load d t (fs_ring s) in
  fwd_ok (Fwd r' (<[i := p']> (fs_producers s)) (fs_consumer s) (fs_log s) (fs_done s)).
Proof.
  intros V Hp. pose proof (v_threads _ _ _ _ _ _ _ V _ _ Hp) as (T & HT & Ht). unfold claim_load.
  exists next, released, head, tk, pub, ord. apply keep_place; [done|].
  pose proof (v_core _ _ _ _ _ _ _ V) as C. destruct (c_held _ _ _ _ _ C i T HT) as (_ & Hr & _).
  pose proof (core_bound _ _ _ _ _ C ltac:(lia)). pose proof (c_order _ _ _ _ _ C).
  rewrite (v_released _ _ _ _ _ _ _ V), Ht, u64_sub, (m_size _ _ _ (v_mem _ _ _ _ _ _ _ V)) by lia.
  destruct (Z.ltb_spec (T - released) size); exists T; split_and!; try done; lia.
Qed.

Lemma store_keeps s next released head tk pub ord i d t k :
  fwd_inv s next released head tk pub ord -> fs_producers s !! i = Some (Storing d t k) -> (k < STORES)%nat ->
  fwd_ok (Fwd (desc_set (t mod dr_size (fs_ring s)) (desc_store ctx d k) (fs_ring s))
    (<[i := Storing d t (S k)]> (fs_producers s)) (fs_consumer s) (fs_log s) (fs_done s)).
Proof.
  intros [V1 V2 V3 V4 V5 V6 V7 V8 V9 V10 V11 V12] Hp Hk. destruct (V6 _ _ Hp) as (T & HT & Ht & Hw & _ & Hst).
  exists next, released, head, (<[i := tk i]> tk), pub, ord.
  rewrite (m_size _ _ _ V4), Ht, mod_u64 by (done || lia). pose proof (Z.mod_pos_bound T size ltac:(lia)) as Hb.
  assert (forall j, (<[i := tk i]> tk) j = tk j) as Hsame by (intros j; by apply tk_same).
  split; try done; cbn [fs_ring fs_producers].
  - destruct V1. split; try done; intros *; rewrite ?Hsame; try done; eauto.
    intros HT'. destruct (c_cover0 _ HT') as [|[j Hj]]; [by left|right]. exists j. by rewrite Hsame.
  - by apply (mem_store next released head tk pub i T); [..|apply store_keeps_publish].
  - by rewrite length_insert.
  - apply (threads_set (fs_ring s)); [done| |].
    + intros j T' k' d' Hj HT' Hw'. rewrite desc_at_set by (rewrite ?(m_len _ _ _ V4); try apply Z.mod_pos_bound; lia).
      destruct (c_held _ _ _ _ _ V1 j T' HT') as (_ & Hr' & _). rewrite decide_False; [done|].
      apply (other_slot next released head tk pub i T); try done; [lia|]. intros ->. by apply Hj, (c_inj _ _ _ _ _ V1 j i T).
    + exists T. rewrite Hsame. split_and!; try done. rewrite desc_at_set by (rewrite ?(m_len _ _ _ V4); lia).
      rewrite decide_True by done. by apply stored_next.
Qed.

Lemma pc_ok_more head pub x pc : pc_ok head pub pc -> pc_ok head (pub ++ [x]) pc.
Proof.
  destruct pc; cbn; try done.
  - intros [H1 H2]. split; [done|]. rewrite fmap_app, elem_of_app. by left.
  - intros [H1 (y & H2 & H3)]. split; [done|]. exists y. split; [apply elem_of_app; by left|done].
  - intros [H1 [(y & H2 & H3) H4]]. split; [done|]. split; [|done]. exists y. split; [apply elem_of_app; by left|done].
Qed.

Lemma publish_keeps s next released head tk pub ord i d t :
  fwd_inv s next released head tk pub ord -> fs_producers s !! i = Some (Storing d t STORES) ->
  fwd_ok (Fwd (dma_ring_publish_desc t (fs_ring s)) (<[i := Outside]> (fs_producers s)) (fs_consumer s) (fs_log s) (fs_done s ++ [(i, d)])).
Proof.
  intros [V1 V2 V3 V4 V5 V6 V7 V8 V9 V10 V11 V12] Hp. destruct (V6 _ _ Hp) as (T & HT & Ht & Hw & _ & Hst).
  exists next, released, head, (<[i := None]> tk), (pub ++ [(i, d, T)]), ord.
  unfold dma_ring_publish_desc. rewrite (m_size _ _ _ V4), Ht, mod_u64, u64_succ by (done || lia).
  pose proof (Z.mod_pos_bound T size ltac:(lia)) as Hb.
  split; try done; cbn [fs_ring fs_producers fs_consumer fs_done].
  - by apply core_publish.
  - by apply (mem_publish next released head tk).
  - by rewrite length_insert.
  - apply (threads_set (fs_ring s)); [done| |cbn; by rewrite fn_lookup_insert].
    intros j T' k' d' Hj HT' Hw'. rewrite desc_at_set by (rewrite ?(m_len _ _ _ V4); try apply Z.mod_pos_bound; lia).
    by destruct (decide _).
  - by apply pc_ok_more.
  - eapply Forall_impl; [exact V10|]. intros x Hx. apply elem_of_app. by left.
  - by rewrite fmap_app, V12.
Qed.

Lemma produce_keeps s next released head tk pub ord i spurious stalled :
  fwd_inv s next released head tk pub ord -> fwd_ok (fwd_exec ctx ring s (Produce i spurious stalled)).
Proof.
  intros V. destruct s as [r ps c log done']. cbn [fwd_exec]. destruct (ps !! i) as [p|] eqn:Hp;
    [|by exists next, released, head, tk, pub, ord].
  pose proof (v_threads _ _ _ _ _ _ _ V i p Hp) as Ht.
  assert (forall p', thread_ok r released tk i p' -> fwd_ok (Fwd r (<[i := p']> ps) c log (done' ++ []))) as Hkeep.
  { intros p' H. exists next, released, head, tk, pub, ord. rewrite app_nil_r. by apply (keep_place _ _ _ _ _ _ _ i p' V). }
  destruct p as [|d|d|d t|d t|d|d t k]; cbn [enqueue_step].
  - by apply Hkeep.
  - apply Hkeep. by destruct (dr_dead r).
  - rewrite app_nil_r. by apply (draw_keeps _ next released head tk pub ord i d V).
  - rewrite app_nil_r. by apply (load_keeps _ next released head tk pub ord i d t V).
  - pose proof (withdraw_keeps _ next released head tk pub ord i d t spurious V Hp) as H. cbn in H.
    destruct (claim_withdraw _ _ _ _). by rewrite app_nil_r.
  - unfold refused_step. destruct (dr_dead r); [by apply Hkeep|]. destruct stalled; [|by apply Hkeep].
    rewrite app_nil_r. pose proof (keep_place _ _ _ _ _ _ _ i Outside V Ht) as [V1 V2 V3 V4 V5 V6 V7 V8 V9 V10 V11 V12].
    exists next, released, head, tk, pub, ord. split; try done. by destruct V4.
  - destruct Ht as (T & HT & Htt & Hw & Hk & Hst). destruct (Nat.ltb_spec k STORES) as [Hlt|Hge].
    + rewrite app_nil_r. by apply (store_keeps _ next released head tk pub ord i d t k V).
    + assert (k = STORES) as -> by lia. by apply (publish_keeps _ next released head tk pub ord i d t V).
Qed.
(** The consumer changes its place only. *)
Lemma keep_pc s next released head tk pub ord pc :
  fwd_inv s next released head tk pub ord -> pc_ok head pub pc ->
  fwd_inv (Fwd (fs_ring s) (fs_producers s) ((fs_consumer s) <| cn_pc := pc |>) (fs_log s) (fs_done s)) next released head tk pub ord.
Proof. intros V Hpc. by destruct V. Qed.

Lemma next_idx head : (if u32 (head mod size + 1) =? size then 0 else u32 (head mod size + 1)) = (head + 1) mod size.
Proof.
  pose proof (Z.mod_pos_bound head size ltac:(lia)) as Hb. rewrite wrap_small by (unfold in_width; lia).
  rewrite <-(Zplus_mod_idemp_l head 1 size). destruct (Z.eqb_spec (head mod size + 1) size) as [->|H].
  - by rewrite Z.mod_same by lia.
  - rewrite (Z.mod_small (head mod size + 1)) by lia. done.
Qed.

(** The consumer is done with the descriptor [x]. *)
Lemma advance_keeps s next released head tk pub ord x q deferred o :
  fwd_inv s next released head tk pub ord -> x ∈ pub -> x.2 = head -> q_idx q = head mod size ->
  o.1 = fate ring (desc_of (payload x)) ->
  fwd_ok (Fwd (fs_ring s) (fs_producers s) (advance ring q ((fs_consumer s) <| cn_deferred := deferred |>)) (fs_log s ++ [o]) (fs_done s)).
Proof.
  intros [V1 V2 V3 V4 V5 V6 V7 V8 V9 V10 V11 V12] Hx Hh Hq Ho.
  assert (head ∈ pub.*2) as Hp by (rewrite <-Hh; by apply list_elem_of_fmap_2).
  pose proof (c_order _ _ _ _ _ V1). exists next, released, (head + 1), tk, pub, (ord ++ [x]).
  split; try done; cbn [fs_ring fs_consumer fs_log].
  - by apply core_consume.
  - destruct V4 as [M1 M2 M3 M4]. split; try done. intros y Hy Hle. apply M3; [done|lia].
  - unfold advance. cbn. by rewrite V7, u64_succ.
  - unfold advance, pc_ok. cbn [cn_pc q_idx]. rewrite Hq, ring_size. apply next_idx.
  - rewrite fmap_app, V9, seqZ_app by lia. cbn. by rewrite Hh.
  - apply Forall_app. split; [done|by constructor].
  - rewrite !fmap_app, V11. cbn. by rewrite Ho.
Qed.

Lemma release_keeps s next released head tk pub ord :
  fwd_inv s next released head tk pub ord ->
  fwd_ok (Fwd ((fs_ring s) <| dr_consumer_head := cn_head (fs_consumer s) |>) (fs_producers s)
    ((fs_consumer s) <| cn_pc := Polling |>) (fs_log s) (fs_done s)).
Proof.
  intros [V1 V2 V3 V4 V5 V6 V7 V8 V9 V10 V11 V12]. exists next, head, head, tk, pub, ord.
  split; try done; cbn [fs_ring fs_producers].
  - by eapply core_release.
  - by destruct V4.
  - intros i p Hp. specialize (V6 i p Hp). pose proof (c_order _ _ _ _ _ V1). destruct p; try done.
    destruct V6 as (T & A & B & D & F & G). exists T. split_and!; try done. lia.
Qed.

Lemma consume_keeps s next released head tk pub ord no_credit :
  fwd_inv s next released head tk pub ord -> fwd_ok (fwd_exec ctx ring s (Consume no_credit)).
Proof.
  intros V. destruct s as [r ps c log done']. cbn [fwd_exec]. unfold process_step.
  assert (forall pc, pc_ok head pub pc -> fwd_ok (Fwd r ps (c <| cn_pc := pc |>) (log ++ []) done')) as Hkeep.
  { intros pc H. exists next, released, head, tk, pub, ord. rewrite app_nil_r. by apply (keep_pc _ _ _ _ _ _ _ pc V). }
  assert (forall x q deferred o, x ∈ pub -> x.2 = head -> q_idx q = head mod size -> o.1 = fate ring (desc_of (payload x)) ->
    fwd_ok (Fwd r ps (advance ring q (c <| cn_deferred := deferred |>)) (log ++ [o]) done')) as Hadv.
  { intros x q deferred o H1 H2 H3 H4. by apply (advance_keeps _ next released head tk pub ord x q deferred o V). }
  assert (forall q : quantum, q_idx q = head mod size -> forall x, x ∈ pub -> x.2 = head ->
    fields (desc_at r (q_idx q)) = fields (desc_of (payload x))) as Hread.
  { intros q Hq x Hx Hh. apply stored_fields. rewrite Hq, <-Hh. apply (m_pub _ _ _ (v_mem _ _ _ _ _ _ _ V)); [done|]. cbn. lia. }
  assert (c <| cn_deferred := cn_deferred c |> = c) as Hc by (by destruct c).
  pose proof (v_pc _ _ _ _ _ _ _ V) as Hpc. cbn [fs_consumer] in Hpc.
  destruct (cn_pc c) as [|q|q|q off sz|q off sz|total] eqn:Epc.
  - exists next, released, head, tk, pub, ord. rewrite app_nil_r. done.
  - apply Hkeep. destruct (_ && _ && _) eqn:Hg; [|done]. apply andb_true_iff in Hg as [_ Hg%Z.eqb_eq].
    split; [done|]. cbn in Hpc. rewrite Hpc in Hg. apply (seen_published next released head tk pub r); try apply V.
    rewrite Hg. pose proof (v_head _ _ _ _ _ _ _ V) as Hh. cbn in Hh. by rewrite Hh, u64_succ.
  - destruct Hpc as [Hq (x & Hh & Hx)%list_elem_of_fmap]. pose proof (Hread q Hq x Hx (eq_sym Hh)) as Hf.
    destruct (fields_fate _ _ Hf) as (F1 & F2 & _). rewrite F1, F2. destruct (Z.ltb_spec DPA_DMA_COPY_MAX (dd_size (desc_of (payload x)))) as [Hlt|Hge].
    + rewrite <-Hc. apply (Hadv x q); try done. unfold fate. by rewrite (proj2 (Z.ltb_lt _ _) Hlt).
    + apply Hkeep. split; [done|]. by exists x.
  - destruct Hpc as [Hq (x & Hx & Hh & -> & -> & Hm)]. destruct no_credit; [by apply Hkeep|].
    destruct (span_refused _ _ _) eqn:Hs; [|by apply Hkeep; split; [done|]; split; [by exists x|]].
    rewrite <-Hc. apply (Hadv x q); try done. unfold fate. by rewrite Hs, orb_true_r.
  - destruct Hpc as [Hq [(x & Hx & Hh & -> & -> & Hm) Hs]]. destruct (dpa_producer_report_due _) as [report deferred].
    apply (Hadv x q deferred); try done. pose proof (Hread q Hq x Hx Hh) as Hf. destruct (fields_fate _ _ Hf) as (_ & _ & F).
    cbn [fst]. unfold fate. rewrite (proj2 (Z.ltb_ge _ _) Hm), Hs. cbn [orb]. by rewrite F.
  - unfold drain_release. destruct (0 <? total); [|by apply Hkeep]. rewrite app_nil_r. by apply (release_keeps _ next released head tk pub ord V).
Qed.

Lemma exec_ok s m : fwd_ok s -> fwd_ok (fwd_exec ctx ring s m).
Proof.
  intros (next & released & head & tk & pub & ord & V). destruct m as [i d|i spurious stalled|budget|no_credit].
  - destruct s as [r ps c log done']. cbn [fwd_exec]. destruct (ps !! i) as [[| | | | | |]|] eqn:Hp;
      try by exists next, released, head, tk, pub, ord.
    destruct (_ && _); exists next, released, head, tk, pub, ord; [|done].
    by apply (keep_place _ _ _ _ _ _ _ i (Entering d) V), (v_threads _ _ _ _ _ _ _ V i Outside Hp).
  - by eapply produce_keeps.
  - destruct s as [r ps c log done']. cbn [fwd_exec]. exists next, released, head, tk, pub, ord.
    destruct (cn_pc c) eqn:Hpc; try done. apply (keep_pc _ _ _ _ _ _ _ _ V). cbn.
    pose proof (v_head _ _ _ _ _ _ _ V) as Hh. cbn in Hh. rewrite Hh, ring_size, mod_u64 by (done || lia).
    apply wrap_small. pose proof (Z.mod_pos_bound head size ltac:(lia)). unfold in_width. lia.
  - by eapply consume_keeps.
Qed.
Lemma run_ok moves s : fwd_ok s -> fwd_ok (fwd_run ctx ring s moves).
Proof. revert s. induction moves as [|m moves IH]; intros s H; [done|]. by apply IH, exec_ok. Qed.

Lemma start_ok : fwd_ok (fwd_start size n).
Proof.
  exists 0, 0, 0, (fun _ => None), [], []. split; try done; cbn.
  - split; try done; try lia; try (intros x Hx; by apply not_elem_of_nil in Hx); try constructor.
  - split; try done; cbn.
    + rewrite repeat_length. lia.
    + intros x Hx. by apply not_elem_of_nil in Hx.
    + intros j Hj. left. split; [|intros x Hx; by apply not_elem_of_nil in Hx]. unfold desc_at. cbn.
      destruct (repeat _ _ !! _) as [x|] eqn:E; [|done]. apply list_elem_of_lookup_2, list_elem_of_In, repeat_spec in E. by subst.
  - by rewrite repeat_length.
  - intros i p Hp. apply list_elem_of_lookup_2, list_elem_of_In, repeat_spec in Hp. by subst.
Qed.
End inv.
