(* ===== verification/ForwardRingProofs.v ===== *)
(** * What the forward ring guarantees

    Every interleaving of the threads and the execution unit: each descriptor
    accepted is consumed at most once, unchanged and in the order of its thread;
    none is stuck behind a withdrawn ticket; threads alone can always finish;
    and no copy leaves the registered buffers. *)

From Stdlib Require Import Sorting.Sorted.
From stdpp Require Import functions.
From S2P Require Import Prelude ForwardRing ForwardRingInv.

(** ** Order *)

Lemma filter_sorted_thread i l :
  StronglySorted (fun x y : pub_entry => thread x = thread y -> x.2 < y.2) l ->
  StronglySorted (fun x y : pub_entry => x.2 < y.2) (filter (fun x => thread x = i) l).
Proof.
  induction 1 as [|x l Hs IH Hf]; [constructor|]. rewrite filter_cons. destruct (decide _) as [<-|]; [|done].
  constructor; [done|]. rewrite Forall_forall in *. intros y [Hy Hin]%list_elem_of_filter. by apply Hf.
Qed.
Lemma filter_sorted (P : pub_entry -> Prop) `{!forall x, Decision (P x)} l :
  StronglySorted (fun x y : pub_entry => x.2 < y.2) l -> StronglySorted (fun x y : pub_entry => x.2 < y.2) (filter P l).
Proof.
  induction 1 as [|x l Hs IH Hf]; [constructor|]. rewrite filter_cons. destruct (decide _); [|done].
  constructor; [done|]. rewrite Forall_forall in *. intros y [Hy Hin]%list_elem_of_filter. by apply Hf.
Qed.
Lemma numbered_sorted (l : list pub_entry) m k : l.*2 = seqZ m k -> StronglySorted (fun x y : pub_entry => x.2 < y.2) l.
Proof.
  revert m k. induction l as [|x l IH]; intros m k E; [constructor|]. cbn in E.
  destruct (Z.le_gt_cases k 0); [by rewrite seqZ_nil in E by lia|]. rewrite seqZ_cons in E by lia. injection E as E1 E2.
  constructor; [by eapply IH|]. apply Forall_forall. intros y Hy.
  assert (y.2 ∈ l.*2) as H' by (by apply list_elem_of_fmap_2). rewrite E2 in H'. apply elem_of_seqZ in H'. lia.
Qed.

(** A part of a sorted list that is closed downwards is a prefix of it. *)
Lemma sorted_prefix (a b : list pub_entry) :
  StronglySorted (fun x y : pub_entry => x.2 < y.2) a -> StronglySorted (fun x y : pub_entry => x.2 < y.2) b ->
  (forall x, x ∈ a -> x ∈ b) -> (forall x y, x ∈ b -> y ∈ a -> x.2 <= y.2 -> x ∈ a) -> a `prefix_of` b.
Proof.
  intros Ha. revert b. induction Ha as [|x a Ha IH Hfa]; intros b Hb Hsub Hdown; [apply prefix_nil|].
  rewrite Forall_forall in Hfa. pose proof (Hsub x (list_elem_of_here _ _)) as Hx.
  destruct Hb as [|y b Hb Hfb]; [by apply not_elem_of_nil in Hx|]. rewrite Forall_forall in Hfb.
  assert (y = x) as ->.
  { apply elem_of_cons in Hx as [->|Hx]; [done|]. pose proof (Hfb x Hx).
    assert (y ∈ x :: a) as [->|Hy]%elem_of_cons; [|done|pose proof (Hfa y Hy); lia].
    apply (Hdown y x); [apply list_elem_of_here|apply list_elem_of_here|lia]. }
  apply prefix_cons, IH; [done| |].
  - intros z Hz. pose proof (Hfa z Hz). assert (z ∈ x :: b) as [->|]%elem_of_cons; [|lia|done].
    apply Hsub. by apply list_elem_of_further.
  - intros z y Hz Hy Hle. pose proof (Hfb z Hz). assert (z ∈ x :: a) as [->|]%elem_of_cons; [|lia|done].
    apply (Hdown z y); [by apply list_elem_of_further..|done].
Qed.

Lemma fst_prefix (a b : list pub_entry) : a `prefix_of` b -> (fst <$> a) `prefix_of` (fst <$> b).
Proof. intros [k ->]. rewrite fmap_app. by eexists. Qed.
Lemma filter_thread i (l : list pub_entry) :
  filter (fun x => x.1 = i) (fst <$> l) = fst <$> filter (fun x => thread x = i) l.
Proof.
  induction l as [|x l IH]; [done|]. rewrite fmap_cons, !filter_cons. unfold thread at 1.
  destruct (decide (x.1.1 = i)); cbn; by rewrite IH.
Qed.

Lemma distinct_tickets (l : list pub_entry) x y : NoDup l.*2 -> x ∈ l -> y ∈ l -> x.2 = y.2 -> x = y.
Proof.
  intros N [i Hi]%list_elem_of_lookup [j Hj]%list_elem_of_lookup E.
  assert (i = j) as ->; [|congruence]. apply (NoDup_lookup l.*2 i j x.2); [done| |]; rewrite list_lookup_fmap;
    [by rewrite Hi|by rewrite Hj, E].
Qed.

Section ring.
  Context (ctx : enqueue_ctx) (ring : dpa_ring_info) (size : Z) (n : nat).
  Hypothesis size_ok : 0 < size < 2 ^ 32.
  Hypothesis size_div : (size | 2 ^ 64).
  Hypothesis ring_size : ri_buf_arr_size ring = size.
  Hypothesis room : size + Z.of_nat n < 2 ^ 64.

Lemma reached moves : fwd_ok ctx ring size n (fwd_run ctx ring (fwd_start size n) moves).
Proof. apply run_ok; try done. by apply start_ok. Qed.

(** Descriptors are delivered at most once, unchanged, in their thread's order. Whatever the interleaving of the threads in [dpumesh_enqueue] and of the execution unit in [process_fwd_ring], the descriptors consumed are, in order, a list of calls that returned 0, each call at most once and each thread's calls in the order it made them, and what the execution unit does for each is what the descriptor its caller passed calls for, however the ticket and head counters wrap. At most the ring's size of accepted descriptors is outstanding; and when no thread is inside the call and a descriptor is outstanding, the next one is visible to the execution unit: a withdrawn ticket never leaves a gap. *)
Lemma ring_order moves :
  let s := fwd_run ctx ring (fwd_start size n) moves in
  exists order,
    (fs_log s).*1 = (fun x => fate ring (desc_of ctx x.2)) <$> order /\ order ⊆+ fs_done s /\
    (forall i, filter (fun x => x.1 = i) order `prefix_of` filter (fun x => x.1 = i) (fs_done s)) /\
    Z.of_nat (length (fs_done s)) <= Z.of_nat (length order) + size /\
    (Forall (eq Outside) (fs_producers s) -> (length order < length (fs_done s))%nat ->
     dd_publish_seq (desc_at (fs_ring s) (cn_head (fs_consumer s) mod size)) = u64 (cn_head (fs_consumer s) + 1)).
Proof.
  intros s. destruct (reached moves) as (next & released & head & tk & pub & ord & V). fold s in V.
  destruct V as [V1 V2 V3 V4 V5 V6 V7 V8 V9 V10 V11 V12]. rewrite Forall_forall in V10.
  pose proof (c_order _ _ _ _ _ _ _ V1) as O.
  assert (Z.of_nat (length ord) = head) as Hl.
  { pose proof (f_equal length V9) as Hl. rewrite length_fmap, length_seqZ in Hl. lia. }
  assert (forall lo hi, (forall T, T ∈ pub.*2 -> lo <= T < hi) -> lo <= hi -> Z.of_nat (length pub) <= hi - lo) as Hcount.
  { intros lo hi H Hle. assert (pub.*2 ⊆+ seqZ lo (hi - lo)) as L%submseteq_length.
    { apply NoDup_submseteq; [apply (c_nodup _ _ _ _ _ _ _ V1)|]. intros T HT. apply elem_of_seqZ. specialize (H T HT). lia. }
    rewrite length_fmap, length_seqZ in L. lia. }
  exists (fst <$> ord). rewrite V12, !length_fmap. split_and!.
  - rewrite V11, <-list_fmap_compose. unfold payload, compose. reflexivity.
  - apply fmap_submseteq, NoDup_submseteq; [|done]. apply (NoDup_fmap_1 snd). rewrite V9. apply NoDup_seqZ.
  - intros i. rewrite !filter_thread. apply fst_prefix, sorted_prefix.
    + eapply filter_sorted, numbered_sorted, V9.
    + apply filter_sorted_thread, V1.
    + intros x [Hi Hx]%list_elem_of_filter. apply list_elem_of_filter. auto.
    + intros x y [Hi Hx]%list_elem_of_filter [_ Hy]%list_elem_of_filter Hle. apply list_elem_of_filter. split; [done|].
      assert (y.2 ∈ ord.*2) as Hy2 by (by apply list_elem_of_fmap_2). rewrite V9 in Hy2. apply elem_of_seqZ in Hy2.
      destruct (c_pub _ _ _ _ _ _ _ V1 x Hx) as [P _].
      assert (x.2 ∈ ord.*2) as (z & Hz & Hin)%list_elem_of_fmap by (rewrite V9; apply elem_of_seqZ; lia).
      rewrite (distinct_tickets pub x z); [done|apply V1|done|by apply V10|done].
  - pose proof (Hcount 0 (released + size)) as H. lapply H; [|intros T (x & -> & Hx)%list_elem_of_fmap; destruct (c_pub _ _ _ _ _ _ _ V1 x Hx); lia]. lia.
  - intros Hout Hlt. assert (forall i, tk i = None) as Hnone.
    { intros i. destruct (tk i) as [T|] eqn:HT; [|done]. destruct (c_held _ _ _ _ _ _ _ V1 i T HT) as (Hi & _).
      destruct (lookup_lt_is_Some_2 (fs_producers s) i ltac:(lia)) as [p Hp]. rewrite Forall_lookup in Hout.
      pose proof (V6 i p Hp) as Ht. rewrite <-(Hout i p Hp) in Ht. cbn in Ht. congruence. }
    pose proof (Hcount 0 next) as H. lapply H; [|intros T (x & -> & Hx)%list_elem_of_fmap; destruct (c_pub _ _ _ _ _ _ _ V1 x Hx); lia].
    intros H'. destruct (c_cover _ _ _ _ _ _ _ V1 head ltac:(lia)) as [(x & Hx & Hin)%list_elem_of_fmap|[i Hi]]; [|by rewrite Hnone in Hi].
    rewrite V7, mod_u64, u64_succ, Hx by (done || lia). apply (m_pub _ _ _ _ _ V4); [done|lia].
Qed.
(** ** Threads alone can finish *)

Definition weight (r : dma_ring) (p : producer) : nat :=
  match p with
  | Outside => 0
  | Refused _ => 1
  | Storing _ _ k => S STORES - k
  | Withdrawing _ t => if u64 (t - dr_consumer_head r) <? dr_size r then 15 else 13
  | Holding _ _ => 14
  | Claiming _ => 16
  | Entering _ => 17
  end.
Definition weights (s : fwd_state) : nat := sum_list_with (weight (fs_ring s)) (fs_producers s).

Lemma weights_insert r (ps : list producer) i p p' :
  ps !! i = Some p -> (weight r p' < weight r p)%nat ->
  (sum_list_with (weight r) (<[i := p']> ps) < sum_list_with (weight r) ps)%nat.
Proof.
  revert i. induction ps as [|q ps IH]; intros [|i] Hp Hw; try done; cbn in *; [injection Hp as ->; lia|].
  apply Nat.add_lt_mono_l, (IH i Hp Hw).
Qed.
Lemma weight_same r r' p : dr_consumer_head r' = dr_consumer_head r -> dr_size r' = dr_size r -> weight r' p = weight r p.
Proof. intros E1 E2. destruct p; cbn; by rewrite ?E1, ?E2. Qed.

(** A step of a thread that is not about to withdraw, when the thread below is
    free to wait no longer, brings it nearer to its return. *)
Lemma step_lighter spurious p r :
  (forall k d t, p = Storing d t k -> (k <= STORES)%nat) ->
  match p with Outside => False | Withdrawing _ t => (u64 (t - dr_consumer_head r) <? dr_size r) = true /\ spurious = true | _ => True end ->
  (weight r (enqueue_step ctx spurious true p r).1.1 < weight r p)%nat.
Proof.
  intros Hk H. destruct p as [|d|d|d t|d t|d|d t k]; cbn [enqueue_step]; try done.
  - destruct (dr_dead r); cbn; lia.
  - cbn. lia.
  - unfold claim_load. cbn [fst]. destruct (_ <? _) eqn:E; cbn [weight]; rewrite ?E; unfold STORES; lia.
  - destruct H as [E ->]. unfold claim_withdraw. rewrite andb_false_r. cbn. rewrite E. lia.
  - unfold refused_step. destruct (dr_dead r); cbn; lia.
  - specialize (Hk k d t eq_refl). destruct (Nat.ltb_spec k STORES); cbn [fst weight]; unfold STORES in *; lia.
Qed.
Lemma step_head spurious stalled p r :
  dr_consumer_head (enqueue_step ctx spurious stalled p r).1.2 = dr_consumer_head r /\
  dr_size (enqueue_step ctx spurious stalled p r).1.2 = dr_size r.
Proof.
  destruct p; cbn [enqueue_step]; try done; unfold claim_withdraw, refused_step.
  - by destruct (_ && _).
  - destruct (dr_dead r); [done|]. by destruct stalled.
  - by destruct (_ <? _)%nat.
Qed.
Lemma exec_lighter s i p spurious :
  fs_producers s !! i = Some p -> (weight (fs_ring s) (enqueue_step ctx spurious true p (fs_ring s)).1.1 < weight (fs_ring s) p)%nat ->
  (weights (fwd_exec ctx ring s (Produce i spurious true)) < weights s)%nat.
Proof.
  destruct s as [r ps c log done']. unfold weights. cbn [fs_ring fs_producers fwd_exec]. intros Hp Hw. rewrite Hp.
  pose proof (step_head spurious true p r) as [E1 E2]. destruct (enqueue_step _ _ _ _ _) as [[p' r'] ret]. cbn [fst snd fs_ring fs_producers] in *.
  assert (forall l, sum_list_with (weight r') l = sum_list_with (weight r) l) as ->.
  { intros l. induction l as [|q l IH]; [done|]. cbn. by rewrite IH, (weight_same r r' q). }
  by eapply weights_insert.
Qed.

#[local] Instance outside_dec p : Decision (Outside = p).
Proof. destruct p; (by left) || (by right). Defined.
Lemma withdrawing_or p : (exists d t, p = Withdrawing d t) \/ ~ exists d t, p = Withdrawing d t.
Proof. destruct p; try (right; by intros (? & ? & ?)). left. eauto. Qed.

Lemma someone_moves s :
  fwd_ok ctx ring size n s -> ~ Forall (eq Outside) (fs_producers s) ->
  exists i spurious, (weights (fwd_exec ctx ring s (Produce i spurious true)) < weights s)%nat.
Proof.
  intros (next & released & head & tk & pub & ord & V) Hn.
  assert (exists i p, fs_producers s !! i = Some p /\ p <> Outside) as (i & p & Hp & Hout).
  { apply not_Forall_Exists in Hn; [|apply _]. apply Exists_exists in Hn as (p & Hin & Hp).
    apply list_elem_of_lookup in Hin as [i Hi]. exists i, p. split; [done|congruence]. }
  pose proof (v_threads _ _ _ _ _ _ _ _ _ _ _ V) as Hth.
  assert (forall j q, fs_producers s !! j = Some q -> forall k d t, q = Storing d t k -> (k <= STORES)%nat) as Hk.
  { intros j q Hq k d t ->. destruct (Hth _ _ Hq) as (T & _ & _ & _ & H & _). done. }
  destruct (withdrawing_or p) as [(d & t & ->)|Hw];
    [|exists i, true; eapply exec_lighter; [done|]; apply step_lighter; [by eapply Hk|]; destruct p; try done; destruct Hw; eauto].
  destruct (u64 (t - dr_consumer_head (fs_ring s)) <? dr_size (fs_ring s)) eqn:Hfree;
    [exists i, true; eapply exec_lighter; [done|]; by apply step_lighter; [by eapply Hk|]|].
  destruct (Hth _ _ Hp) as (T & HT & Ht). pose proof (v_core _ _ _ _ _ _ _ _ _ _ _ V) as C.
  pose proof (c_order _ _ _ _ _ _ _ C). pose proof (core_bound _ _ _ _ _ _ _ C ltac:(lia)).
  destruct (c_held _ _ _ _ _ _ _ C i T HT) as (_ & HR & _).
  rewrite Ht, (v_released _ _ _ _ _ _ _ _ _ _ _ V), u64_sub, (m_size _ _ _ _ _ (v_mem _ _ _ _ _ _ _ _ _ _ _ V)) in Hfree by lia.
  apply Z.ltb_ge in Hfree.
  destruct (c_cover _ _ _ _ _ _ _ C (next - 1) ltac:(lia)) as [(x & Hx & Hin)%list_elem_of_fmap|[j Hj]];
    [destruct (c_pub _ _ _ _ _ _ _ C x Hin); lia|].
  destruct (c_held _ _ _ _ _ _ _ C j _ Hj) as (Hjn & _ & _).
  destruct (lookup_lt_is_Some_2 (fs_producers s) j) as [q Hq]; [by rewrite (v_count _ _ _ _ _ _ _ _ _ _ _ V)|].
  pose proof (Hth _ _ Hq) as Htj. exists j, false. eapply exec_lighter; [done|].
  destruct (withdrawing_or q) as [(d' & t' & ->)|Hw'].
  - destruct Htj as (T' & HT' & ->). assert (T' = next - 1) as -> by congruence.
    cbn [enqueue_step]. unfold claim_withdraw. rewrite (v_enq _ _ _ _ _ _ _ _ _ _ _ V), u64_succ.
    replace (next - 1 + 1) with next by lia. rewrite Z.eqb_refl. cbn [andb negb fst weight].
    destruct (_ <? _); lia.
  - apply step_lighter; [by eapply Hk|]. destruct q; try done; cbn in Htj; try congruence. destruct Hw'; eauto.
Qed.

(** Threads never wait for each other or for the execution unit: from every reachable state of the ring, with any number of threads anywhere in [dpumesh_enqueue], steps of these threads alone, at most 17 for each, bring all of them out of the call. *)
Lemma producers_finish moves :
  let s := fwd_run ctx ring (fwd_start size n) moves in
  exists steps : list (nat * bool * bool),
    (length steps <= 17 * n)%nat /\
    Forall (eq Outside) (fs_producers (fwd_run ctx ring s ((fun m => Produce m.1.1 m.1.2 m.2) <$> steps))).
Proof.
  intros s. assert (fwd_ok ctx ring size n s) as Hok by apply reached.
  assert (weights s <= 17 * n)%nat as Hw.
  { destruct Hok as (next & released & head & tk & pub & ord & V). rewrite <-(v_count _ _ _ _ _ _ _ _ _ _ _ V). unfold weights.
    generalize (fs_producers s). intros ps. induction ps as [|p ps IH]; [done|]. cbn [sum_list_with length].
    assert (weight (fs_ring s) p <= 17)%nat by (destruct p; cbn; try destruct (_ <? _); unfold STORES; lia). cbn in *. lia. }
  cut (forall w s, fwd_ok ctx ring size n s -> (weights s <= w)%nat -> exists steps : list (nat * bool * bool), (length steps <= w)%nat /\
    Forall (eq Outside) (fs_producers (fwd_run ctx ring s ((fun m => Produce m.1.1 m.1.2 m.2) <$> steps)))).
  { intros H. destruct (H _ _ Hok Hw) as (steps & H1 & H2). exists steps. split; [lia|done]. }
  clear - size_ok size_div ring_size room. intros w. induction w as [|w IH]; intros s Hok Hw; (destruct (decide (Forall (eq Outside) (fs_producers s))) as [|Hn]; [exists []; split; [cbn; lia|done]|]);
    destruct (someone_moves s Hok Hn) as (i & spurious & Hlt); [lia|].
  destruct (IH (fwd_exec ctx ring s (Produce i spurious true))) as (steps & H1 & H2); [by apply exec_ok|lia|].
  exists ((i, spurious, true) :: steps). split; [cbn; lia|done].
Qed.

End ring.

(** ** Bounds of the copies *)

Lemma prefix_mod off : 0 <= off -> dpa_dma_copy_prefix off = off mod 128.
Proof.
  intros H. unfold dpa_dma_copy_prefix, DPA_DMA_COPY_ALIGN. change (128 - 1) with (Z.ones 7).
  rewrite Z.land_ones by lia. change (2 ^ 7) with 128. apply wrap_small. pose proof (Z.mod_pos_bound off 128 ltac:(lia)). unfold in_width. lia.
Qed.
Lemma land_align y : in_width 32 y -> Z.land y (u32 (Z.lnot (DPA_DMA_COPY_ALIGN - 1))) = 128 * (y / 128).
Proof.
  intros Hy. change (u32 (Z.lnot (DPA_DMA_COPY_ALIGN - 1))) with (Z.shiftl (Z.ones 25) 7).
  transitivity (Z.shiftl (Z.shiftr y 7) 7); [|rewrite Z.shiftl_mul_pow2, Z.shiftr_div_pow2 by lia; change (2 ^ 7) with 128; lia].
  apply Z.bits_inj'. intros k Hk. rewrite Z.land_spec, !Z.shiftl_spec by lia.
  destruct (Z.lt_ge_cases k 7) as [Hlt|Hge]; [rewrite !(Z.testbit_neg_r _ (k - 7)) by lia; apply andb_false_r|].
  rewrite Z.shiftr_spec by lia. replace (k - 7 + 7) with k by lia.
  destruct (Z.lt_ge_cases k 32) as [H32|H32]; [rewrite Z.ones_spec_low by lia; apply andb_true_r|].
  assert (Z.testbit y k = false) as ->; [|done]. apply Z.testbit_false; [lia|]. rewrite Z.div_small; [done|].
  split; [apply Hy|]. apply Z.lt_le_trans with (2 ^ 32); [apply Hy|]. apply Z.pow_le_mono_r; lia.
Qed.
Lemma aligned_len off len :
  0 <= off -> 0 <= len <= DPA_DMA_COPY_MAX -> dpa_dma_aligned_copy_len off len = 128 * ((off mod 128 + len + 127) / 128).
Proof.
  unfold DPA_DMA_COPY_MAX, DPUMESH_SLOT_SIZE. intros Ho Hl. unfold dpa_dma_aligned_copy_len. rewrite prefix_mod by lia.
  pose proof (Z.mod_pos_bound off 128 ltac:(lia)) as Hb. cbv zeta.
  assert (u32 (off mod 128 + len) = off mod 128 + len) as -> by (apply wrap_small; unfold in_width; lia).
  assert (u32 (off mod 128 + len + DPA_DMA_COPY_ALIGN - 1) = off mod 128 + len + 127) as ->.
  { unfold DPA_DMA_COPY_ALIGN. replace (off mod 128 + len + 128 - 1) with (off mod 128 + len + 127) by lia. apply wrap_small. unfold in_width. lia. }
  apply land_align. unfold in_width. lia.
Qed.
(** Start and length of the copy for an offset within the buffer. *)
Lemma copy_span off len :
  in_width 32 off -> 0 <= len <= DPA_DMA_COPY_MAX ->
  copy_start off = 128 * (off / 128) /\ exists c, copy_chunk off len = 128 * c /\ 0 < c /\
    off mod 128 + len <= 128 * c /\ (off mod 128 + len <= 128 * (c - 1) -> off mod 128 + len = 0 /\ c = 1).
Proof.
  intros Ho Hl. unfold copy_start, copy_chunk. assert (u32 off = off) as -> by (by apply wrap_small).
  assert (0 <= off < 2 ^ 32) as Ho' by exact Ho. rewrite aligned_len by (lia || done). rewrite prefix_mod by lia.
  pose proof (Z.mod_pos_bound off 128 ltac:(lia)) as Hb. pose proof (Z.div_mod off 128 ltac:(lia)) as Hd. split.
  { rewrite wrap_small by (unfold in_width; lia). lia. }
  unfold DPA_DMA_COPY_MAX, DPUMESH_SLOT_SIZE, DPA_DMA_COPY_ALIGN in *.
  set (z := off mod 128 + len + 127). pose proof (Z.div_mod z 128 ltac:(lia)). pose proof (Z.mod_pos_bound z 128 ltac:(lia)).
  destruct (Z.eqb_spec (128 * (z / 128)) 0) as [Hz|Hz]; [exists 1|exists (z / 128)]; unfold z in *; lia.
Qed.

Section bounds.
  Context (ctx : enqueue_ctx) (ring : dpa_ring_info).
  Hypothesis host_size : in_width 32 (ri_host_buf_size ring).

Lemma span_accepted off len :
  0 <= off -> 0 <= len <= DPA_DMA_COPY_MAX -> span_refused ring off len = false ->
  off < ri_host_buf_size ring /\ copy_chunk off len <= DPA_DMA_COPY_MAX /\
  copy_start off + copy_chunk off len <= ri_host_buf_size ring.
Proof.
  intros Ho Hl H. unfold span_refused in H. rewrite !orb_false_iff, !Z.ltb_ge, Z.leb_gt in H. destruct H as [[H1 H2] H3].
  unfold in_width in host_size. destruct (copy_span off len) as (E & c & Hc & H0 & _); [unfold in_width; lia|done|].
  rewrite wrap_small in H3; [done|]. rewrite E, Hc in *. unfold DPA_DMA_COPY_MAX, DPUMESH_SLOT_SIZE, in_width in *.
  pose proof (Z.div_mod off 128 ltac:(lia)). pose proof (Z.mod_pos_bound off 128 ltac:(lia)). lia.
Qed.

(** An admitted descriptor passes the checks of the execution unit. *)
Lemma admitted_accepted d :
  enqueue_checks ctx d = true -> in_width 31 (sd_body_buf_slot d) -> in_width 32 (sd_body_len d) ->
  ec_num_slots ctx * ec_slot_size ctx = ri_host_buf_size ring -> (128 | ri_host_buf_size ring) ->
  (0 < sd_body_len d \/ sd_body_buf_slot d < ri_host_buf_size ring) ->
  sd_body_len d <= DPA_DMA_COPY_MAX /\ span_refused ring (sd_body_buf_slot d) (sd_body_len d) = false.
Proof.
  unfold enqueue_checks. rewrite !andb_true_iff, !negb_true_iff, orb_false_iff, andb_false_iff, negb_false_iff, Z.eqb_eq, !Z.ltb_ge.
  intros [[[_ H1] _] H2] Ho Hl Hb [u Hu] Hne. rewrite Hb in H1. unfold in_width in *.
  set (off := sd_body_buf_slot d) in *. set (len := sd_body_len d) in *.
  rewrite !wrap_small in H1 by (unfold in_width; lia).
  pose proof (Z.mod_pos_bound off 128 ltac:(lia)) as Hm. pose proof (Z.div_mod off 128 ltac:(lia)) as Hd.
  assert (off mod 128 + len <= DPA_DMA_COPY_MAX) as Hcap.
  { unfold dpa_dma_payload_cap, DPA_DMA_COPY_MAX, DPUMESH_SLOT_SIZE in *. rewrite prefix_mod in H2 by lia.
    rewrite (wrap_small 32 (8192 - _)) in H2 by (unfold in_width; lia). cbv zeta in H2.
    destruct H2 as [H2|H2]; [lia|]. destruct (Z.ltb_spec (u32 (ec_slot_size ctx)) (8192 - off mod 128)); lia. }
  unfold DPA_DMA_COPY_MAX, DPUMESH_SLOT_SIZE in *. split; [lia|].
  destruct (copy_span off len) as (E & c & Hc & H0 & H3 & H4);
    [unfold in_width; lia|unfold DPA_DMA_COPY_MAX, DPUMESH_SLOT_SIZE; lia|].
  unfold span_refused. rewrite !orb_false_iff, !Z.ltb_ge, Z.leb_gt. unfold DPA_DMA_COPY_MAX, DPUMESH_SLOT_SIZE.
  rewrite E, Hc. destruct (Z.le_gt_cases (off mod 128 + len) (128 * (c - 1))) as [Hle|Hgt]; [destruct (H4 Hle) as [? ->]|];
    (rewrite wrap_small by (unfold in_width; lia)); lia.
Qed.
End bounds.

(** No copy leaves the registered buffers, and no admitted descriptor is dropped. Whatever a workload writes into a descriptor, a copy the execution unit starts reads only inside the host buffer and writes the same offsets of the staging area, is aligned, at most [DPA_DMA_COPY_MAX] long and covers exactly the announced payload range; and every descriptor [dpumesh_enqueue] admits, for a buffer of whole alignment units and with a non-empty body or an offset inside it, is forwarded with its endpoint tuple. *)
Lemma forward_dma_bounded ctx ring :
  in_width 32 (ri_host_buf_size ring) -> ri_region_off ring = 0 -> 0 <= ri_host_addr ring -> 0 <= ri_dpu_addr ring ->
  ri_host_addr ring + ri_host_buf_size ring < 2 ^ 64 -> ri_dpu_addr ring + ri_host_buf_size ring < 2 ^ 64 ->
  (forall x comp dm dst sm src chunk, 0 <= dd_addr x -> 0 <= dd_size x -> fate ring x = Forwarded comp dm dst sm src chunk ->
     exists at_, src = ri_host_addr ring + at_ /\ dst = ri_dpu_addr ring + at_ /\ (128 | at_) /\ (128 | chunk) /\
       0 < chunk <= DPA_DMA_COPY_MAX /\ 0 <= at_ /\ at_ + chunk <= ri_host_buf_size ring /\
       cm_pos comp = dd_addr x /\ cm_length comp = dd_size x /\ at_ <= cm_pos comp /\ cm_pos comp + cm_length comp <= at_ + chunk) /\
  (forall d, enqueue_checks ctx d = true -> in_width 31 (sd_body_buf_slot d) -> in_width 32 (sd_body_len d) ->
     ec_num_slots ctx * ec_slot_size ctx = ri_host_buf_size ring -> (128 | ri_host_buf_size ring) ->
     (0 < sd_body_len d \/ sd_body_buf_slot d < ri_host_buf_size ring) ->
     exists dst src chunk, fate ring (desc_of ctx d) =
       Forwarded (CompMsg DPA_MSG_FWD_DONE (int8 (ri_pod_id ring)) (int8 (sd_dst_pod d)) (int8 (sd_dst_service d)) (sd_src_port d)
                    (sd_dst_port d) (sd_seq d) (sd_body_len d) (sd_body_buf_slot d) (ri_generation ring))
         (ri_dpu_mmap ring) dst (ri_host_mmap ring) src chunk).
Proof.
  intros Hb Hr Ha Hd Hha Hda. split.
  - intros x comp dm dst sm src chunk Hx Hs. unfold fate. destruct (_ || _) eqn:Hf; [done|].
    apply orb_false_iff in Hf as [Hm%Z.ltb_ge Hf]. apply span_accepted in Hf as (S1 & S2 & S3); [|done..].
    unfold forwarded. rewrite Hr, Z.sub_0_r. intros [= <- <- <- <- <- <-]. cbn [cm_pos cm_length].
    unfold in_width in Hb. destruct (copy_span (dd_addr x) (dd_size x)) as (E & c & Hc & H0 & H1 & H2); [unfold in_width; lia|done|].
    rewrite Hc, E in *. unfold DPA_DMA_COPY_MAX, DPUMESH_SLOT_SIZE in *.
    pose proof (Z.div_mod (dd_addr x) 128 ltac:(lia)). pose proof (Z.mod_pos_bound (dd_addr x) 128 ltac:(lia)).
    assert (u32 (dd_addr x) = dd_addr x) as -> by (apply wrap_small; unfold in_width; lia).
    assert (u16 (dd_size x) = dd_size x) as -> by (apply wrap_small; unfold in_width; lia).
    rewrite prefix_mod by lia. exists (128 * (dd_addr x / 128)).
    rewrite !wrap_small by (unfold in_width; rewrite ?wrap_small by (unfold in_width; lia); lia).
    split_and!; try lia; [by exists (dd_addr x / 128); lia|by exists c; lia].
  - intros d Hc Ho Hl Hn H128 Hne. destruct (admitted_accepted ctx ring Hb d Hc Ho Hl Hn H128 Hne) as [H1 H2].
    unfold in_width in *. assert (u64 (sd_body_buf_slot d) = sd_body_buf_slot d) as Hu by (apply wrap_small; unfold in_width; lia).
    unfold fate. change (dd_size (desc_of ctx d)) with (sd_body_len d). change (dd_addr (desc_of ctx d)) with (u64 (sd_body_buf_slot d)).
    rewrite Hu, H2, (proj2 (Z.ltb_ge _ _) H1). cbn [orb]. unfold forwarded.
    assert (u32 (sd_body_buf_slot d) = sd_body_buf_slot d) as -> by (apply wrap_small; unfold in_width; lia).
    unfold DPA_DMA_COPY_MAX, DPUMESH_SLOT_SIZE in H1.
    assert (u16 (sd_body_len d) = sd_body_len d) as -> by (apply wrap_small; unfold in_width; lia).
    by eexists _, _, _.
Qed.

(** ** A ring of two slots and two threads *)

Definition fwd_ctx : enqueue_ctx := EnqueueCtx 2 8192 1 0 1 5 3.
Definition fwd_info : dpa_ring_info := RingInfo 2 1 4096 2 65536 3 0 16384 7.
Definition fwd_desc (k : Z) : sw_descriptor := SwDescriptor (200 * k) 100 3 9 5 6 (-1) 0 k 1.
Definition steps_of (i k : nat) : list fwd_move := repeat (Produce i false false) k.
(** Two calls fill the ring; the third finds it full. *)
Definition fwd_filled : list fwd_move :=
  Enqueue 0 (fwd_desc 0) :: steps_of 0 14 ++ Enqueue 1 (fwd_desc 1) :: steps_of 1 14 ++
  Enqueue 0 (fwd_desc 2) :: steps_of 0 3 ++ Enqueue 1 (fwd_desc 3) :: steps_of 1 2.
(** Both withdraw, the ring is drained, and the third call goes through. *)
Definition fwd_moves : list fwd_move :=
  fwd_filled ++ steps_of 1 1 ++ steps_of 1 1 ++ steps_of 0 1 ++ Poll 32 :: repeat (Consume false) 10 ++ steps_of 0 14.

Lemma fwd_info_divides : (2 | 2 ^ 64).
Proof. by exists (2 ^ 63). Qed.

Lemma forward_dma_bounded_witness :
  exists dst src chunk, fate fwd_info (desc_of fwd_ctx (fwd_desc 1)) =
    Forwarded (CompMsg DPA_MSG_FWD_DONE 3 (-1) 6 9 0 1 100 200 7) 2 dst 1 src chunk.
Proof.
  destruct (forward_dma_bounded fwd_ctx fwd_info) as [_ H]; try (vm_compute; split; congruence); try (vm_compute; congruence).
  apply (H (fwd_desc 1)); try (vm_compute; reflexivity); try (vm_compute; split; congruence); [by exists 128|left; vm_compute; reflexivity].
Defined.

