(* ===== verification/Spans.v ===== *)
(** * Span validators ([doca/topology.c])

    A field of a record is a slice of its line: the list of its bytes.  Each
    validator is followed by what it accepts: DNS names, Pod UIDs, and the
    texts of addresses, ports, 64-bit numbers and key bytes, each of which has
    exactly one accepted spelling. *)

From S2P Require Import Prelude Text.

(** ** The validators *)

Definition span_dns_label_char (c : byte) : bool :=
  in_range "a" "z" c || in_range "0" "9" c || char_eq c "-".

(** The loop over the characters; [prev] is [s[i - 1]]. *)
Fixpoint subdomain_loop (label_start : bool) (prev : byte) (s : list byte) : bool :=
  match s with
  | [] => true
  | c :: s' =>
      if char_eq c "." then
        if label_start || bool_decide (s' = []) || char_eq prev "-" then false
        else subdomain_loop true c s'
      else if negb (span_dns_label_char c) || (label_start && char_eq c "-") then false
      else subdomain_loop false c s'
  end.

Definition span_dns_subdomain (s : list byte) (max_len : nat) : bool :=
  match head s, last s with
  | Some first, Some final =>
      if (max_len <? length s)%nat || negb (span_dns_label_char first) || negb (span_dns_label_char final) ||
         char_eq first "-" || char_eq final "-" then false
      else subdomain_loop true first s
  | _, _ => false
  end.

Definition span_dns_label (s : list byte) (max_len : nat) : bool :=
  span_dns_subdomain s max_len && bool_decide (memchr s "." = None).

Definition hyphen_at (i : nat) : bool :=
  bool_decide (i = 8%nat) || bool_decide (i = 13%nat) || bool_decide (i = 18%nat) || bool_decide (i = 23%nat).

Definition hex_lower (c : byte) : bool := in_range "a" "f" c || in_range "0" "9" c.

Fixpoint uid_loop (i : nat) (s : list byte) : bool :=
  match s with
  | [] => true
  | c :: s' => (if hyphen_at i then char_eq c "-" else hex_lower c) && uid_loop (S i) s'
  end.

Definition span_pod_uid (s : list byte) : bool := (length s =? 36)%nat && uid_loop 0 s.

(** The longest prefix of digits and what follows it. *)
Fixpoint take_digits (s : list byte) : list byte * list byte :=
  match s with
  | c :: s' => if is_digit c then let (ds, rest) := take_digits s' in (c :: ds, rest) else ([], s)
  | [] => ([], [])
  end.

(** [value = value * 10u + (unsigned int)(s[i] - '0')], in 32 bits. *)
Definition decimal_step (value : Z) (c : byte) : Z := u32 (value * 10 + (b2z c - 48)).

Definition octet (s : list byte) : option (Z * list byte) :=
  let (ds, rest) := take_digits s in
  let value := fold_left decimal_step ds 0 in
  if (length ds =? 0)%nat || (3 <? length ds)%nat || (255 <? value) ||
     ((1 <? length ds)%nat && bool_decide (head ds = Some "0"%byte)) then None
  else Some (value, rest).

(** The octets from the current one on, [more] of them after it. *)
Fixpoint octets (more : nat) (s : list byte) : option (list Z) :=
  '(v, rest) ← octet s;
  match more with
  | O => if bool_decide (rest = []) then Some [v] else None
  | S more' =>
      match rest with
      | c :: rest' => if char_eq c "." then (fun vs => v :: vs) <$> octets more' rest' else None
      | [] => None
      end
  end.

(** The first octet is the most significant byte. *)
Definition ip_be (vs : list Z) : Z :=
  match vs with
  | [a; b; c; d] => Z.lor (Z.lor (Z.lor (Z.shiftl a 24) (Z.shiftl b 16)) (Z.shiftl c 8)) d
  | _ => 0
  end.

Definition span_ipv4 (s : list byte) : option Z := ip_be <$> octets 3 s.

Fixpoint port_loop (value : Z) (s : list byte) : option Z :=
  match s with
  | [] => Some value
  | c :: s' => if is_digit c then port_loop (decimal_step value c) s' else None
  end.

Definition leading_zero (s : list byte) : bool := (1 <? length s)%nat && bool_decide (head s = Some "0"%byte).

Definition span_port (s : list byte) : option Z :=
  if (length s =? 0)%nat || (5 <? length s)%nat || leading_zero s then None
  else value ← port_loop 0 s; if (value =? 0) || (65535 <? value) then None else Some value.

Fixpoint u64_loop (value : Z) (s : list byte) : option Z :=
  match s with
  | [] => Some value
  | c :: s' =>
      if negb (is_digit c) then None
      else if (UINT64_MAX - (b2z c - 48)) / 10 <? value then None
      else u64_loop (u64 (value * 10 + (b2z c - 48))) s'
  end.

Definition span_u64 (s : list byte) : option Z :=
  if (length s =? 0)%nat || (20 <? length s)%nat || leading_zero s then None else u64_loop 0 s.

Definition hex_value (c : byte) : Z :=
  if in_range "0" "9" c then b2z c - 48 else if in_range "a" "f" c then b2z c - 97 + 10 else -1.

Fixpoint hex_loop (n : nat) (s : list byte) : option (list byte) :=
  match n with
  | O => Some []
  | S n' =>
      match s with
      | h :: l :: s' =>
          if (hex_value h <? 0) || (hex_value l <? 0) then None
          else cons (z2b (Z.lor (Z.shiftl (hex_value h) 4) (hex_value l))) <$> hex_loop n' s'
      | _ => None
      end
  end.

Definition span_hex_bytes (s : list byte) (out_size : nat) : option (list byte) :=
  if (length s =? 2 * out_size)%nat then hex_loop out_size s else None.

(** A fixed field holds the text and its terminator. *)
Definition span_copy (cap : nat) (s : list byte) : option (list byte) :=
  if (cap <=? length s)%nat then None else Some s.

Definition span_service_key (cap : nat) (s : list byte) : option (list byte) :=
  match memchr s "/" with
  | None => None
  | Some slash =>
      if span_dns_label (take slash s) 63 && span_dns_label (drop (S slash) s) 63 then span_copy cap s else None
  end.

Definition split_fields (line : list byte) (max : nat) : option (list (list byte)) :=
  let f := split_on "," line in if (max <? length f)%nat then None else Some f.

(** ** Names

    A DNS subdomain is a sequence of labels separated by dots; a label is
    letters, digits and inner hyphens. *)

Definition dns_label (l : list byte) : Prop :=
  l <> [] /\ Forall (fun c => span_dns_label_char c = true) l /\ head l <> Some "-"%byte /\ last l <> Some "-"%byte.

Definition dns_name (s : list byte) : Prop := Forall dns_label (split_on "." s).

(** The rest of a name whose current label began before, with [prev] its last
    character so far. *)
Definition label_tail (prev : byte) (l : list byte) : Prop :=
  Forall (fun c => span_dns_label_char c = true) l /\ last (prev :: l) <> Some "-"%byte.

Lemma last_cons_cons (a b : byte) l : last (a :: b :: l) = last (b :: l).
Proof. done. Qed.

Lemma subdomain_loop_spec s :
  (forall prev, span_dns_label_char prev = true -> last (prev :: s) <> Some "-"%byte -> last (prev :: s) <> Some "."%byte ->
     subdomain_loop false prev s = true <->
     match split_on "." s with l :: ls => label_tail prev l /\ Forall dns_label ls | [] => False end) /\
  (forall prev, s <> [] -> last s <> Some "-"%byte -> last s <> Some "."%byte ->
     subdomain_loop true prev s = true <-> dns_name s).
Proof.
  induction s as [|c s [IHf IHt]].
  { split; [|done]. intros prev Hp H1 H2. cbn. split; [|done]. intros _. split; [|done]. by split. }
  assert (s <> [] -> last (c :: s) = last s) as Hlast by (destruct s; done).
  split.
  - intros prev Hp H1 H2. rewrite last_cons_cons in H1, H2. cbn [subdomain_loop split_on].
    destruct (char_eq_spec c ".") as [->|Hdot].
    + destruct (decide (s = [])) as [->|Hs]; [done|]. rewrite (bool_decide_eq_false_2 (s = [])) by done. cbn [orb].
      destruct (char_eq_spec prev "-") as [->|Hprev]; [split; [done|]; intros [[_ H] _]; done|].
      rewrite Hlast in H1, H2 by done. rewrite IHt by done. unfold dns_name.
      split; [|tauto]. intros H. split; [|done]. split; [constructor|]. cbn. congruence.
    + destruct (split_on_cons "." s) as (l & ls & E). rewrite E in *. rewrite andb_false_l, orb_false_r.
      destruct (span_dns_label_char c) eqn:Hc; cbn [negb].
      * rewrite IHf by done. unfold label_tail. rewrite last_cons_cons, Forall_cons. tauto.
      * split; [done|]. intros [[H _] _]. inversion H. congruence.
  - intros prev _ H1 H2. cbn [subdomain_loop]. unfold dns_name. cbn [split_on].
    destruct (char_eq_spec c ".") as [->|Hdot].
    + cbn [orb]. split; [done|]. intros H. inversion H as [|? ? [Hn _] _]. done.
    + destruct (split_on_cons "." s) as (l & ls & E). rewrite E in *. rewrite andb_true_l, Forall_cons.
      destruct (span_dns_label_char c) eqn:Hc; cbn [negb orb].
      * destruct (char_eq_spec c "-") as [->|Hh].
        -- split; [done|]. intros [(_ & _ & H & _) _]. done.
        -- rewrite IHf by done. unfold label_tail, dns_label. rewrite Forall_cons. cbn [head].
           split; [intros [[? ?] ?]|intros [(_ & [_ ?] & _ & ?) ?]]; split_and!; try done. congruence.
      * split; [done|]. intros [(_ & H & _) _]. inversion H. congruence.
Qed.

Lemma last_split sep s l : last (split_on sep s) = Some l -> l <> [] -> last s = last l.
Proof.
  revert l. induction s as [|c s IH]; intros l; cbn [split_on]; [by intros [= <-]|].
  destruct (split_on_cons sep s) as (f & fs & E). pose proof (join_split sep s) as Hj. rewrite E in *.
  assert (s <> [] -> last (c :: s) = last s) as Hlast by (destruct s; done).
  destruct (char_eq sep c) eqn:Hc'; destruct (char_eq c sep) eqn:Hc; try (unfold char_eq in *; rewrite Z.eqb_sym in Hc; congruence).
  - change (last ([] :: f :: fs)) with (last (f :: fs)). intros Hl Hne. rewrite Hlast; [by apply IH|].
    intros ->. cbn in E. injection E as <- <-. cbn in Hl. congruence.
  - destruct fs as [|g fs].
    + cbn. intros [= <-] _. cbn in Hj. by subst f.
    + change (last ((c :: f) :: g :: fs)) with (last (f :: g :: fs)). intros Hl Hne. rewrite Hlast; [by apply IH|].
      intros ->. cbn in E. discriminate.
Qed.

Lemma dns_name_ends s : dns_name s ->
  (exists c, head s = Some c /\ span_dns_label_char c = true /\ c <> "-"%byte) /\
  (exists c, last s = Some c /\ span_dns_label_char c = true /\ c <> "-"%byte).
Proof.
  intros H. split.
  - unfold dns_name in H. destruct s as [|c s]; [inversion H as [|? ? [? _] _]; done|]. exists c. split; [done|].
    cbn [split_on] in H. destruct (char_eq_spec c ".") as [->|_]; [inversion H as [|? ? [? _] _]; done|].
    destruct (split_on_cons "." s) as (f & fs & E). rewrite E in H.
    inversion H as [|? ? (_ & Hc & Hh & _) _]. inversion Hc. split; [done|]. cbn in Hh. congruence.
  - destruct (split_on_cons "." s) as (f & fs & E).
    destruct (last (split_on "." s)) as [l|] eqn:Hl; [|rewrite E in Hl; by apply last_None in Hl].
    pose proof Hl as Hin. apply last_Some_elem_of in Hin.
    unfold dns_name in H. rewrite Forall_forall in H. destruct (H l Hin) as (Hne & Hc & _ & Hh).
    rewrite (last_split _ _ _ Hl Hne). destruct (last l) as [c|] eqn:Hlc; [|by apply last_None in Hlc].
    exists c. split; [done|]. apply last_Some_elem_of in Hlc. rewrite Forall_forall in Hc. split; [by apply Hc|congruence].
Qed.

Lemma span_dns_subdomain_spec s max :
  span_dns_subdomain s max = true <-> dns_name s /\ (length s <= max)%nat.
Proof.
  unfold span_dns_subdomain. split.
  - destruct (head s) as [f|] eqn:Hf; [|done]. destruct (last s) as [l|] eqn:Hl; [|done].
    destruct (Nat.ltb_spec max (length s)); [done|]. cbn [orb].
    destruct (span_dns_label_char f) eqn:Hcf, (span_dns_label_char l) eqn:Hcl; cbn [negb orb]; try done.
    destruct (char_eq_spec f "-"); [done|]. destruct (char_eq_spec l "-"); [done|]. cbn [orb].
    intros Hloop. split; [|done]. apply (proj2 (subdomain_loop_spec s) f); [by destruct s|congruence| |done].
    rewrite Hl. intros [= ->]. done.
  - intros [Hn Hl]. destruct (dns_name_ends s Hn) as [(f & -> & Hf & Hf') (l & El & Hl1 & Hl')]. rewrite El.
    destruct (Nat.ltb_spec max (length s)); [lia|]. rewrite Hf, Hl1. cbn [negb orb].
    destruct (char_eq_spec f "-"); [done|]. destruct (char_eq_spec l "-"); [done|]. cbn [orb].
    apply (proj2 (subdomain_loop_spec s) f); [|rewrite El..|done].
    + intros ->. done.
    + congruence.
    + intros [= ->]. done.
Qed.

Lemma span_dns_label_spec s max : span_dns_label s max = true <-> dns_label s /\ (length s <= max)%nat.
Proof.
  unfold span_dns_label. rewrite andb_true_iff, span_dns_subdomain_spec, bool_decide_eq_true, memchr_None.
  unfold dns_name. split.
  - intros [[H Hl] Hd]. rewrite split_on_one in H by done. by inversion H.
  - intros [H Hl]. assert ("."%byte ∉ s) as Hd.
    { intros Hin. destruct H as (_ & Hc & _). rewrite Forall_forall in Hc. specialize (Hc _ Hin). done. }
    rewrite split_on_one by done. split; [|done]. split; [|done]. by apply Forall_singleton.
Qed.

(** ** Pod UIDs *)

Definition pod_uid (s : list byte) : Prop :=
  length s = 36%nat /\ forall i c, s !! i = Some c -> if hyphen_at i then c = "-"%byte else hex_lower c = true.

Lemma uid_loop_spec s i :
  uid_loop i s = true <-> forall j c, s !! j = Some c -> if hyphen_at (i + j) then c = "-"%byte else hex_lower c = true.
Proof.
  revert i. induction s as [|c s IH]; intros i; cbn [uid_loop]; [split; done|].
  rewrite andb_true_iff, IH. split.
  - intros [Hc Hs] [|j] d Hd; cbn in Hd.
    + injection Hd as <-. rewrite Nat.add_0_r. destruct (hyphen_at i); [by destruct (char_eq_spec c "-")|done].
    + specialize (Hs j d Hd). by replace (i + S j)%nat with (S i + j)%nat by lia.
  - intros H. split.
    + specialize (H 0%nat c eq_refl). rewrite Nat.add_0_r in H. destruct (hyphen_at i); [subst; done|done].
    + intros j d Hd. specialize (H (S j) d Hd). by replace (S i + j)%nat with (i + S j)%nat by lia.
Qed.

Lemma span_pod_uid_spec s : span_pod_uid s = true <-> pod_uid s.
Proof. unfold span_pod_uid, pod_uid. rewrite andb_true_iff, Nat.eqb_eq, uid_loop_spec. done. Qed.

(** ** Numbers *)

Lemma take_digits_spec s :
  s = (take_digits s).1 ++ (take_digits s).2 /\ Forall (fun c => is_digit c = true) (take_digits s).1 /\
  match (take_digits s).2 with c :: _ => is_digit c = false | [] => True end.
Proof.
  induction s as [|c s (H1 & H2 & H3)]; cbn [take_digits]; [done|].
  destruct (is_digit c) eqn:Hc.
  - destruct (take_digits s) as [ds rest]. cbn in *. split_and!; [by rewrite H1|by constructor|done].
  - cbn. split_and!; [done|constructor|done].
Qed.

Lemma take_digits_app ds rest :
  Forall (fun c => is_digit c = true) ds -> match rest with c :: _ => is_digit c = false | [] => True end ->
  take_digits (ds ++ rest) = (ds, rest).
Proof.
  intros Hd Hr. induction Hd as [|c ds Hc _ IH]; cbn [app take_digits].
  - destruct rest as [|c rest]; [done|]. cbn. by rewrite Hr.
  - by rewrite Hc, IH.
Qed.

(** Without a wrap the 32-bit accumulator is the number. *)
Lemma decimal_fold ds n :
  Forall (fun c => is_digit c = true) ds -> 0 <= n -> undecimal ds n < 2 ^ 32 -> fold_left decimal_step ds n = undecimal ds n.
Proof.
  intros Hd. revert n. induction Hd as [|c ds Hc Hd IH]; intros n Hn Hb; [done|].
  apply in_range_spec in Hc. change (b2z "0") with 48 in Hc.
  change (undecimal (c :: ds) n) with (undecimal ds (10 * n + (b2z c - 48))) in *. cbn [fold_left].
  pose proof (undecimal_nonneg ds Hd (10 * n + (b2z c - 48))).
  assert (decimal_step n c = 10 * n + (b2z c - 48)) as ->.
  { unfold decimal_step. rewrite wrap_small; [lia|]. unfold in_width. lia. }
  apply IH; lia.
Qed.

Lemma canonical_checks s : Forall (fun c => is_digit c = true) s ->
  (length s =? 0)%nat || leading_zero s = false <-> canonical s.
Proof.
  intros Hd. unfold leading_zero, canonical. rewrite orb_false_iff, Nat.eqb_neq, andb_false_iff, Nat.ltb_ge, bool_decide_eq_false.
  split.
  - intros [Hn Hz]. split; [by destruct s|]. split; [done|]. intros H0. destruct Hz as [Hz|]; [|done].
    destruct s; cbn in *; lia.
  - intros (Hn & _ & H0). split; [by destruct s|]. destruct (decide (head s = Some "0"%byte)); [left; rewrite H0; auto|by right].
Qed.

Lemma show_length k n : 0 <= n < 10 ^ Z.of_nat k -> (0 < k <= 20)%nat -> (length (show n) <= k)%nat.
Proof.
  intros Hn Hk. assert (in_width 64 n \/ ~ in_width 64 n) as [Hw|Hw] by (unfold in_width; lia).
  - assert (digits k n [] = show n) as <-; [|pose proof (digits_length k n []); cbn in *; lia].
    apply show_spec; [done|]. split_and!; [apply digits_canonical; lia|pose proof (digits_length k n []); cbn in *; lia|].
    by rewrite digits_value by lia.
  - destruct (decide (k = 20)%nat) as [->|]; [pose proof (digits_length 20 n []); unfold show; cbn in *; lia|].
    exfalso. apply Hw. unfold in_width. assert (10 ^ Z.of_nat k <= 10 ^ 19) by (apply Z.pow_le_mono_r; lia). lia.
Qed.

Lemma octet_spec s v rest :
  octet s = Some (v, rest) <->
  0 <= v <= 255 /\ s = show v ++ rest /\ match rest with c :: _ => is_digit c = false | [] => True end.
Proof.
  unfold octet. destruct (take_digits_spec s) as (Hs & Hd & Hr). split.
  - destruct (take_digits s) as [ds r]. cbn in *.
    destruct ((length ds =? 0)%nat || _ || _ || _) eqn:E; [done|]. intros [= <- <-].
    rewrite !orb_false_iff in E. destruct E as [[[E1 E2] E3] E4].
    assert (canonical ds) as Hc by (apply canonical_checks; [done|]; unfold leading_zero; by rewrite E1, E4).
    apply Nat.ltb_ge in E2. apply Z.ltb_ge in E3.
    pose proof (undecimal_bound ds Hd) as Hb. pose proof (undecimal_nonneg ds Hd 0).
    assert (10 ^ Z.of_nat (length ds) <= 10 ^ 3) by (apply Z.pow_le_mono_r; lia).
    rewrite decimal_fold in * by (done || lia). split; [lia|]. split; [|done].
    rewrite Hs. f_equal. apply show_spec; [unfold in_width; lia|]. split_and!; [done|lia|done].
  - intros (Hv & -> & Hrest). destruct (proj1 (show_spec (show v) v ltac:(unfold in_width; lia)) eq_refl) as (Hc & Hl & Hu).
    destruct Hc as (Hne & Hdig & Hz). rewrite take_digits_app by done.
    rewrite decimal_fold by (done || lia). rewrite Hu.
    pose proof (show_length 3 v ltac:(change (10 ^ Z.of_nat 3) with 1000; lia) ltac:(lia)) as Hl3.
    pose proof (proj2 (canonical_checks (show v) Hdig) (conj Hne (conj Hdig Hz))) as Hck. apply orb_false_iff in Hck as [Hck1 Hck2].
    unfold leading_zero in Hck2. rewrite Hck1, Hck2. destruct (Nat.ltb_spec 3 (length (show v))); [lia|].
    destruct (Z.ltb_spec 255 v); [lia|]. done.
Qed.

(** The spelling of an address. *)
Definition ip_octets (ip : Z) : list Z := [ip / 2 ^ 24; ip / 2 ^ 16 mod 256; ip / 2 ^ 8 mod 256; ip mod 256].
Definition show_ipv4 (ip : Z) : list byte := join_with "." (show <$> ip_octets ip).

Lemma octets_spec more s vs :
  octets more s = Some vs <->
  length vs = S more /\ Forall (fun v => 0 <= v <= 255) vs /\ s = join_with "." (show <$> vs).
Proof.
  revert s vs. induction more as [|more IH]; intros s vs; cbn [octets].
  - rewrite bind_Some. split.
    + intros ([v rest] & Ho & H). apply octet_spec in Ho as (Hv & -> & Hr).
      destruct (bool_decide_reflect (rest = [])) as [->|]; [|done]. injection H as <-. cbn.
      split_and!; [done|by constructor|by rewrite app_nil_r].
    + intros (Hl & Hv & ->). destruct vs as [|v [|]]; [done| |done]. inversion Hv; subst. exists (v, []). split; [|done].
      apply octet_spec. split; [done|]. split; [by rewrite app_nil_r|done].
  - rewrite bind_Some. split.
    + intros ([v rest] & Ho & H). apply octet_spec in Ho as (Hv & -> & Hr).
      destruct rest as [|c rest]; [done|]. destruct (char_eq_spec c ".") as [->|]; [|done].
      apply fmap_Some in H as (ws & Hw & ->). apply IH in Hw as (Hl & Hws & ->).
      destruct ws as [|w ws]; [done|]. cbn [length] in *. split; [by rewrite Hl|]. split; [by constructor|]. reflexivity.
    + intros (Hl & Hv & ->). destruct vs as [|v [|w vs]]; [done..|]. inversion Hv as [|? ? Hv1 Hv2]; subst.
      exists (v, "."%byte :: join_with "." (show <$> w :: vs)). split.
      * apply octet_spec. split; [done|]. split; [reflexivity|done].
      * cbv beta iota. rewrite (proj2 (IH _ (w :: vs))); [reflexivity|]. cbn in Hl. injection Hl as Hl.
        split; [by rewrite <-Hl|]. split; [done|]. reflexivity.
Qed.

Lemma lor_shift_add a b k : 0 <= k -> 0 <= b < 2 ^ k -> Z.lor (Z.shiftl a k) b = a * 2 ^ k + b.
Proof.
  intros Hk Hb. rewrite <-Z.lxor_lor, <-Z.add_nocarry_lxor, Z.shiftl_mul_pow2; [done|done|..].
  all: apply Z.bits_inj'; intros i Hi; rewrite Z.land_spec, Z.bits_0;
    destruct (Z.lt_ge_cases i k); [by rewrite Z.shiftl_spec_low|];
    rewrite <-(Z.mod_small b (2 ^ k)) by lia; by rewrite Z.mod_pow2_bits_high, andb_false_r by lia.
Qed.

Lemma ip_be_sum a b c d :
  0 <= a <= 255 -> 0 <= b <= 255 -> 0 <= c <= 255 -> 0 <= d <= 255 ->
  ip_be [a; b; c; d] = a * 2 ^ 24 + b * 2 ^ 16 + c * 2 ^ 8 + d.
Proof.
  intros Ha Hb Hc Hd. cbn [ip_be].
  rewrite <-!Z.lor_assoc, (lor_shift_add c d), (lor_shift_add b), (lor_shift_add a) by lia. lia.
Qed.

Lemma ip_octets_spec ip : in_width 32 ip -> Forall (fun v => 0 <= v <= 255) (ip_octets ip) /\ ip_be (ip_octets ip) = ip.
Proof.
  unfold in_width. intros H.
  pose proof (Z.mod_pos_bound (ip / 2 ^ 16) 256 ltac:(lia)). pose proof (Z.mod_pos_bound (ip / 2 ^ 8) 256 ltac:(lia)).
  pose proof (Z.mod_pos_bound ip 256 ltac:(lia)).
  assert (0 <= ip / 2 ^ 24 <= 255) by (split; [apply Z.div_pos; lia|apply Zlt_succ_le, Z.div_lt_upper_bound; lia]).
  split; [repeat constructor; lia|]. unfold ip_octets. rewrite ip_be_sum by lia.
  pose proof (Z.div_mod ip 256 ltac:(lia)) as E0. pose proof (Z.div_mod (ip / 2 ^ 8) 256 ltac:(lia)) as E1.
  pose proof (Z.div_mod (ip / 2 ^ 16) 256 ltac:(lia)) as E2.
  rewrite !Z.div_div in E1, E2 by lia. change (2 ^ 8 * 256) with (2 ^ 16) in E1. change (2 ^ 16 * 256) with (2 ^ 24) in E2.
  change (2 ^ 8) with 256 in *. lia.
Qed.

Lemma ip_be_octets a b c d :
  0 <= a <= 255 -> 0 <= b <= 255 -> 0 <= c <= 255 -> 0 <= d <= 255 ->
  in_width 32 (ip_be [a; b; c; d]) /\ ip_octets (ip_be [a; b; c; d]) = [a; b; c; d].
Proof.
  intros Ha Hb Hc Hd. rewrite ip_be_sum by done. split; [unfold in_width; lia|]. unfold ip_octets.
  set (ip := a * 2 ^ 24 + b * 2 ^ 16 + c * 2 ^ 8 + d).
  assert (ip / 2 ^ 24 = a) as E1 by (symmetry; apply (Z.div_unique _ _ _ (b * 2 ^ 16 + c * 2 ^ 8 + d)); unfold ip; lia).
  assert (ip / 2 ^ 16 = a * 256 + b) as -> by (symmetry; apply (Z.div_unique _ _ _ (c * 2 ^ 8 + d)); unfold ip; lia).
  assert (ip / 2 ^ 8 = (a * 256 + b) * 256 + c) as -> by (symmetry; apply (Z.div_unique _ _ _ d); unfold ip; lia).
  rewrite E1. f_equal. f_equal; [|f_equal; [|f_equal]]; symmetry.
  - apply (Z.mod_unique _ _ a); lia.
  - apply (Z.mod_unique _ _ (a * 256 + b)); lia.
  - apply (Z.mod_unique _ _ ((a * 256 + b) * 256 + c)); unfold ip; lia.
Qed.

Lemma span_ipv4_spec s ip : span_ipv4 s = Some ip <-> in_width 32 ip /\ s = show_ipv4 ip.
Proof.
  unfold span_ipv4. rewrite fmap_Some. split.
  - intros (vs & H & ->). apply octets_spec in H as (Hl & Hv & ->).
    destruct vs as [|a [|b [|c [|d [|]]]]]; try done. rewrite !Forall_cons in Hv. destruct Hv as (Ha & Hb & Hc & Hd & _).
    destruct (ip_be_octets a b c d Ha Hb Hc Hd) as [H1 H2]. split; [done|]. unfold show_ipv4. by rewrite H2.
  - intros [Hw ->]. destruct (ip_octets_spec ip Hw) as [Hv Hi]. exists (ip_octets ip). split; [|done].
    apply octets_spec. split_and!; [done..|]. done.
Qed.

Lemma port_loop_spec n s v :
  port_loop n s = Some v <-> Forall (fun c => is_digit c = true) s /\ v = fold_left decimal_step s n.
Proof.
  revert n. induction s as [|c s IH]; intros n; cbn [port_loop fold_left].
  - split; [by intros [= ->]|by intros [_ ->]].
  - rewrite Forall_cons. destruct (is_digit c); [rewrite IH; tauto|]. split; [done|]. intros [[? _] _]. done.
Qed.

Lemma span_port_spec s v : span_port s = Some v <-> 1 <= v <= 65535 /\ s = show v.
Proof.
  unfold span_port. split.
  - destruct ((length s =? 0)%nat || _ || _) eqn:E; [done|]. rewrite bind_Some. intros (w & Hw & H).
    apply port_loop_spec in Hw as [Hd ->]. rewrite !orb_false_iff in E. destruct E as [[E1 E2] E3]. apply Nat.ltb_ge in E2.
    assert (canonical s) as Hc by (apply canonical_checks; [done|]; by rewrite E1, E3).
    pose proof (undecimal_bound s Hd) as Hb. pose proof (undecimal_nonneg s Hd 0).
    assert (10 ^ Z.of_nat (length s) <= 10 ^ 5) by (apply Z.pow_le_mono_r; lia).
    rewrite decimal_fold in H by (done || lia). destruct (Z.eqb_spec (undecimal s 0) 0); [done|].
    destruct (Z.ltb_spec 65535 (undecimal s 0)); [done|]. injection H as <-. split; [lia|].
    apply show_spec; [unfold in_width; lia|]. split_and!; [done|lia|done].
  - intros [Hv ->]. destruct (proj1 (show_spec (show v) v ltac:(unfold in_width; lia)) eq_refl) as (Hc & Hl & Hu).
    pose proof (show_length 5 v ltac:(cbn; lia) ltac:(lia)) as H5. pose proof Hc as (_ & Hd & _).
    apply canonical_checks in Hc; [|done]. apply orb_false_iff in Hc as [-> ->].
    destruct (Nat.ltb_spec 5 (length (show v))); [lia|]. cbn [orb].
    rewrite (proj2 (port_loop_spec 0 (show v) v)).
    + cbn. destruct (Z.eqb_spec v 0); [lia|]. destruct (Z.ltb_spec 65535 v); [lia|]. done.
    + split; [done|]. rewrite decimal_fold by (done || lia). done.
Qed.

Lemma u64_loop_spec n s v :
  in_width 64 n -> u64_loop n s = Some v <-> Forall (fun c => is_digit c = true) s /\ v = undecimal s n /\ v < 2 ^ 64.
Proof.
  unfold in_width. revert n. induction s as [|c s IH]; intros n Hn; cbn [u64_loop].
  - split; [intros [= ->]; split_and!; [constructor|done|lia]|by intros (_ & -> & _)].
  - rewrite Forall_cons. destruct (is_digit c) eqn:Hc; cbn [negb]; [|split; [done|]; intros [[? _] _]; done].
    apply in_range_spec in Hc. change (b2z "0") with 48 in Hc. change (b2z "9") with 57 in Hc.
    change (undecimal (c :: s) n) with (undecimal s (10 * n + (b2z c - 48))). unfold UINT64_MAX.
    pose proof (Z.mul_div_le (2 ^ 64 - 1 - (b2z c - 48)) 10 ltac:(lia)).
    pose proof (Z.mul_succ_div_gt (2 ^ 64 - 1 - (b2z c - 48)) 10 ltac:(lia)).
    destruct (Z.ltb_spec ((2 ^ 64 - 1 - (b2z c - 48)) / 10) n) as [Hlt|Hle].
    + split; [done|]. intros ([_ Hs] & -> & Hv). pose proof (undecimal_nonneg s Hs (10 * n + (b2z c - 48))). lia.
    + rewrite wrap_small by (unfold in_width; lia). rewrite IH by lia.
      replace (n * 10 + (b2z c - 48)) with (10 * n + (b2z c - 48)) by lia. tauto.
Qed.

Lemma span_u64_spec s v : span_u64 s = Some v <-> in_width 64 v /\ s = show v.
Proof.
  unfold span_u64. split.
  - destruct ((length s =? 0)%nat || _ || _) eqn:E; [done|]. intros H. apply u64_loop_spec in H as (Hd & -> & Hv); [|unfold in_width; lia].
    rewrite !orb_false_iff in E. destruct E as [[E1 E2] E3]. apply Nat.ltb_ge in E2.
    pose proof (undecimal_nonneg s Hd 0). assert (in_width 64 (undecimal s 0)) by (unfold in_width; lia). split; [done|].
    apply show_spec; [done|]. split_and!; [|lia|done]. apply canonical_checks; [done|]. by rewrite E1, E3.
  - intros [Hw ->]. destruct (proj1 (show_spec (show v) v Hw) eq_refl) as (Hc & Hl & Hu). pose proof Hc as (_ & Hd & _).
    apply canonical_checks in Hc; [|done]. apply orb_false_iff in Hc as [-> ->].
    destruct (Nat.ltb_spec 20 (length (show v))); [lia|]. cbn [orb]. apply u64_loop_spec; [unfold in_width; lia|].
    split_and!; [done..|]. apply Hw.
Qed.

(** ** Key bytes *)

Definition nibble (n : Z) : byte := if n <? 10 then z2b (48 + n) else z2b (87 + n).
Definition show_hex (bs : list byte) : list byte := bs ≫= fun b => [nibble (b2z b / 16); nibble (b2z b mod 16)].

Lemma nibble_value n : 0 <= n < 16 -> hex_value (nibble n) = n.
Proof.
  intros H. unfold nibble, hex_value, in_range.
  destruct (Z.ltb_spec n 10); rewrite b2z_z2b, Z.mod_small by lia;
    change (b2z "0") with 48; change (b2z "9") with 57; change (b2z "a") with 97; change (b2z "f") with 102.
  - destruct (Z.leb_spec 48 (48 + n)), (Z.leb_spec (48 + n) 57); cbn [andb]; lia.
  - destruct (Z.leb_spec 48 (87 + n)), (Z.leb_spec (87 + n) 57); cbn [andb]; try lia.
    destruct (Z.leb_spec 97 (87 + n)), (Z.leb_spec (87 + n) 102); cbn [andb]; lia.
Qed.

Lemma hex_value_nibble c : 0 <= hex_value c -> hex_value c < 16 /\ c = nibble (hex_value c).
Proof. destruct c; intros H; first [split; vm_compute; reflexivity | exfalso; apply H; vm_compute; reflexivity]. Qed.

Lemma hex_byte h l : 0 <= h < 16 -> 0 <= l < 16 ->
  b2z (z2b (Z.lor (Z.shiftl h 4) l)) / 16 = h /\ b2z (z2b (Z.lor (Z.shiftl h 4) l)) mod 16 = l.
Proof.
  intros Hh Hl. rewrite lor_shift_add, b2z_z2b by lia. change (2 ^ 4) with 16. rewrite Z.mod_small by lia.
  rewrite Z.div_add_l, Z.div_small by lia. rewrite (Z.add_comm (h * 16)), Z.mod_add, Z.mod_small by lia. lia.
Qed.

Lemma byte_hex b : z2b (Z.lor (Z.shiftl (b2z b / 16) 4) (b2z b mod 16)) = b.
Proof.
  pose proof (Z.mod_pos_bound (b2z b) 16 ltac:(lia)). rewrite lor_shift_add by lia. rewrite <-(z2b_b2z b) at 3. f_equal.
  change (2 ^ 4) with 16. pose proof (Z.div_mod (b2z b) 16 ltac:(lia)). lia.
Qed.

Lemma hex_loop_spec n s bs : length s = (2 * n)%nat -> hex_loop n s = Some bs <-> length bs = n /\ s = show_hex bs.
Proof.
  revert s bs. induction n as [|n IH]; intros s bs Hs; cbn [hex_loop].
  { destruct s; [|done]. split; [by intros [= <-]|]. intros [H _]. by destruct bs. }
  destruct s as [|h [|l s]]; [done|cbn in Hs; lia|]. cbn [length] in Hs. split.
  - destruct (Z.ltb_spec (hex_value h) 0); [done|]. destruct (Z.ltb_spec (hex_value l) 0); [done|]. cbn [orb].
    rewrite fmap_Some. intros (cs & Hc & ->). apply IH in Hc as [Hl ->]; [|lia].
    destruct (hex_value_nibble h) as [Hh Eh]; [done|]. destruct (hex_value_nibble l) as [Hl' El]; [done|].
    destruct (hex_byte (hex_value h) (hex_value l)) as [E1 E2]; [lia..|]. cbn. rewrite E1, E2, <-Eh, <-El. by rewrite Hl.
  - intros [Hl E]. destruct bs as [|b bs]; [done|].
    change (h :: l :: s = nibble (b2z b / 16) :: nibble (b2z b mod 16) :: show_hex bs) in E. injection E as -> -> ->.
    pose proof (b2z_range b). pose proof (Z.mod_pos_bound (b2z b) 16 ltac:(lia)).
    assert (0 <= b2z b / 16 < 16) by (split; [apply Z.div_pos; lia|apply Z.div_lt_upper_bound; lia]).
    rewrite !nibble_value by lia. destruct (Z.ltb_spec (b2z b / 16) 0); [lia|]. destruct (Z.ltb_spec (b2z b mod 16) 0); [lia|].
    cbn [orb]. rewrite (proj2 (IH (show_hex bs) bs ltac:(lia))); [cbn; by rewrite byte_hex|]. cbn in Hl. split; [lia|done].
Qed.

Lemma length_show_hex bs : length (show_hex bs) = (2 * length bs)%nat.
Proof.
  induction bs as [|b bs IH]; [done|].
  change (S (S (length (show_hex bs))) = (2 * S (length bs))%nat). lia.
Qed.

Lemma span_hex_bytes_spec s n bs : span_hex_bytes s n = Some bs <-> length bs = n /\ s = show_hex bs.
Proof.
  unfold span_hex_bytes. destruct (Nat.eqb_spec (length s) (2 * n)) as [Hs|Hs]; [by apply hex_loop_spec|].
  split; [done|]. intros [<- ->]. by rewrite length_show_hex in Hs.
Qed.

(** ** Service keys and the characters of a field *)

Definition service_key (s : list byte) : Prop :=
  exists ns name, s = ns ++ "/"%byte :: name /\ dns_label ns /\ dns_label name /\ (length ns <= 63)%nat /\ (length name <= 63)%nat.

(** No field contains a separator. *)
Definition plain (c : byte) : bool := span_dns_label_char c || char_eq c "." || char_eq c "/".
Abbreviation plain_text := (Forall (fun c => plain c = true)).

Lemma plain_free c s : plain c = false -> plain_text s -> c ∉ s.
Proof. intros Hc Hs Hin. rewrite Forall_forall in Hs. specialize (Hs c Hin). congruence. Qed.

Lemma label_plain s : Forall (fun c => span_dns_label_char c = true) s -> plain_text s.
Proof. intros H. eapply Forall_impl; [exact H|]. intros c Hc. cbn in *. unfold plain. by rewrite Hc. Qed.

Lemma join_plain sep fs : plain sep = true -> Forall (fun f => plain_text f) fs -> plain_text (join_with sep fs).
Proof.
  intros Hs. induction 1 as [|f fs Hf Hfs IH]; [constructor|].
  destruct fs as [|g fs]; [done|]. change (plain_text (f ++ sep :: join_with sep (g :: fs))).
  apply Forall_app. split; [done|]. by constructor.
Qed.

Lemma dns_label_plain s : dns_label s -> plain_text s.
Proof. intros (_ & H & _). by apply label_plain. Qed.

Lemma dns_name_plain s : dns_name s -> plain_text s.
Proof.
  intros H. rewrite <-(join_split "." s). apply join_plain; [done|].
  eapply Forall_impl; [exact H|]. intros f. apply dns_label_plain.
Qed.

Lemma digits_label s : Forall (fun c => is_digit c = true) s -> Forall (fun c => span_dns_label_char c = true) s.
Proof.
  intros H. eapply Forall_impl; [exact H|]. intros c Hc. cbn in *. unfold span_dns_label_char.
  fold (is_digit c). by rewrite Hc, orb_true_r.
Qed.

Lemma show_plain n : 0 <= n -> plain_text (show n).
Proof. intros Hn. apply label_plain, digits_label, digits_are_digits; [done|constructor]. Qed.

Lemma hex_lower_label c : hex_lower c = true -> span_dns_label_char c = true.
Proof. destruct c; vm_compute; done. Qed.

Lemma pod_uid_plain s : pod_uid s -> plain_text s.
Proof.
  intros [_ H]. apply label_plain, Forall_lookup. intros i c Hc. specialize (H i c Hc).
  destruct (hyphen_at i); [by subst|by apply hex_lower_label].
Qed.

Lemma show_ipv4_plain ip : in_width 32 ip -> plain_text (show_ipv4 ip).
Proof.
  intros H. destruct (ip_octets_spec ip H) as [Ho _]. apply join_plain; [done|]. apply Forall_fmap.
  eapply Forall_impl; [exact Ho|]. intros v Hv. cbn in Hv. apply show_plain. lia.
Qed.

Lemma show_hex_plain bs : plain_text (show_hex bs).
Proof.
  unfold show_hex. induction bs as [|b bs IH]; [constructor|]. cbn. pose proof (b2z_range b).
  assert (forall n, 0 <= n < 16 -> plain (nibble n) = true) as Hn.
  { intros n Hn. assert (n ∈ seqZ 0 16) as Hin by (apply elem_of_seqZ; lia). clear Hn. revert n Hin.
    apply Forall_forall. repeat constructor. }
  constructor; [apply Hn; split; [apply Z.div_pos; lia|apply Z.div_lt_upper_bound; lia]|].
  constructor; [apply Hn; apply Z.mod_pos_bound; lia|exact IH].
Qed.

Lemma service_key_plain s : service_key s -> plain_text s.
Proof.
  intros (ns & name & -> & H1 & H2 & _). apply Forall_app. split; [by apply dns_label_plain|].
  constructor; [done|by apply dns_label_plain].
Qed.

Lemma slash_free s : Forall (fun c => span_dns_label_char c = true) s -> "/"%byte ∉ s.
Proof. intros H Hin. rewrite Forall_forall in H. by specialize (H _ Hin). Qed.

Lemma span_service_key_spec s k : span_service_key 128 s = Some k <-> k = s /\ service_key s.
Proof.
  unfold span_service_key, span_copy. split.
  - destruct (memchr s "/") as [i|] eqn:Hm; [|done]. apply memchr_Some in Hm as (r & Hs & Hl & Hn & Hr).
    destruct (span_dns_label (take i s) 63 && span_dns_label (drop (S i) s) 63) eqn:E; [|done].
    apply andb_true_iff in E as [E1 E2]. apply span_dns_label_spec in E1 as [E1 L1], E2 as [E2 L2].
    destruct (Nat.leb_spec 128 (length s)); [done|]. intros [= <-]. split; [done|].
    exists (take i s), r. rewrite <-Hr in *. split_and!; done.
  - intros [-> (ns & name & -> & H1 & H2 & L1 & L2)].
    rewrite memchr_app by (apply slash_free; apply H1).
    rewrite take_app_length. replace (S (length ns)) with (length (ns ++ ["/"%byte])) by (rewrite length_app; cbn; lia).
    change (ns ++ "/"%byte :: name) with (ns ++ ["/"%byte] ++ name). rewrite app_assoc, drop_app_length.
    rewrite (proj2 (span_dns_label_spec ns 63)), (proj2 (span_dns_label_spec name 63)) by done. cbn [andb].
    destruct (Nat.leb_spec 128 (length ((ns ++ ["/"%byte]) ++ name))) as [Hb|]; [|done].
    rewrite !length_app in Hb. cbn in Hb. lia.
Qed.

Lemma split_fields_spec line max f :
  split_fields line max = Some f <->
  f <> [] /\ (length f <= max)%nat /\ Forall (fun x => ","%byte ∉ x) f /\ line = join_with "," f.
Proof.
  unfold split_fields. split.
  - destruct (Nat.ltb_spec max (length (split_on "," line))); [done|]. intros [= <-].
    destruct (split_on_cons "," line) as (g & gs & E).
    split; [by rewrite E|]. split; [done|]. split; [apply split_on_free|]. by rewrite join_split.
  - intros (Hne & Hl & Hf & ->). rewrite split_join by done. by destruct (Nat.ltb_spec max (length f)); [lia|].
Qed.
