(* ===== verification/WorkloadIdentity.v ===== *)
(** * Workload identity and signed feeds ([doca/workload_identity.c])

    The fixed record by which a connection states its workload, its seal under
    the paired-host control session, the key files, and the envelope of the
    signed documents.  The HMAC and Ed25519 of OpenSSL are fields of [crypto];
    what the system calls on a key file answer is an [opened_file]. *)

From S2P Require Import Prelude Text Spans PeerIdentity.

Definition DMESH_KEY_SIZE : nat := 32.
Definition DMESH_ASSERT_CLOCK_SKEW_SEC : Z := 30.
Definition DMESH_ASSERT_MAX_LIFETIME_SEC : Z := 300.
Definition DMESH_WORKLOAD_MAX : nat := 384.
Definition DMESH_IDENTITY_VERSION : Z := 1.
Definition DMESH_IDENTITY_TYPE : Z := 1.
Definition DMESH_FEED_MAC_SIZE : nat := 32.
Definition DMESH_KEY_ID_MAX : nat := 32.
Definition DMESH_POD_IP_MAX : nat := 16.
Definition DMESH_CLUSTER_ID_MAX : nat := 64.
Definition DMESH_CONTAINER_ID_MAX : nat := 65.
Definition DMESH_CONTROL_SESSION_SIZE : nat := 16.
Definition DMESH_REG_MAC_SIZE : nat := 32.
Definition PATH_SIZE : nat := 4096.

Inductive dmesh_identity_result :=
  | IDENTITY_OK | IDENTITY_BAD_TYPE | IDENTITY_BAD_VERSION | IDENTITY_NONCANONICAL | IDENTITY_WRONG_NODE
  | IDENTITY_BAD_TIME | IDENTITY_BAD_NONCE | IDENTITY_WRONG_CHANNEL | IDENTITY_WRONG_INCARNATION.
#[export] Instance identity_result_dec : EqDecision dmesh_identity_result.
Proof. solve_decision. Defined.

Definition dmesh_identity_result_name (r : dmesh_identity_result) : list byte :=
  match r with
  | IDENTITY_OK => txt "ok"
  | IDENTITY_BAD_TYPE => txt "bad-type"
  | IDENTITY_BAD_VERSION => txt "bad-version"
  | IDENTITY_NONCANONICAL => txt "noncanonical"
  | IDENTITY_WRONG_NODE => txt "wrong-node"
  | IDENTITY_BAD_TIME => txt "bad-time"
  | IDENTITY_BAD_NONCE => txt "bad-nonce"
  | IDENTITY_WRONG_CHANNEL => txt "wrong-channel"
  | IDENTITY_WRONG_INCARNATION => txt "wrong-incarnation"
  end.

Inductive dmesh_feed_result := FEED_OK | FEED_UNSIGNED | FEED_BAD_KEY_ID | FEED_BAD_MAC | FEED_INTERNAL.
#[export] Instance feed_result_dec : EqDecision dmesh_feed_result.
Proof. solve_decision. Defined.

(** [struct dmesh_workload_identity]: every array has its full size. *)
Record dmesh_workload_identity := Identity {
  wi_type : Z; wi_version : Z; wi_flags : Z; wi_reserved : Z;
  wi_issued_at_le : list byte; wi_expires_at_le : list byte;
  wi_nonce : list byte; wi_channel_slot_le : list byte; wi_channel_generation_le : list byte;
  wi_daemon_incarnation : list byte;
  wi_cluster_id : list byte; wi_node_name : list byte; wi_pod_uid : list byte; wi_namespace_name : list byte;
  wi_pod_name : list byte; wi_service_account : list byte; wi_container_name : list byte;
  wi_container_id : list byte; wi_service_name : list byte; wi_pod_ip : list byte }.

Record dmesh_registration_assertion_msg := Assertion {
  am_type : Z; am_version : Z; am_reserved : list byte; am_identity : dmesh_workload_identity; am_mac : list byte }.
#[export] Instance eta_assertion : Eta dmesh_registration_assertion_msg := fun a =>
  Assertion (am_type a) (am_version a) (am_reserved a) (am_identity a) (am_mac a).

Record dmesh_identity_claims := Claims {
  cl_workload : list byte; cl_pod_uid : list byte; cl_namespace_name : list byte; cl_service_account : list byte;
  cl_service_name : list byte; cl_pod_ip : list byte; cl_daemon_incarnation : list byte;
  cl_channel_slot : Z; cl_channel_generation : Z }.

(** ** Wire integers *)

Definition dmesh_wire_put_u64_le (value : Z) : list byte := (fun i => z2b (Z.shiftr value (8 * i))) <$> seqZ 0 8.
Definition dmesh_wire_put_u32_le (value : Z) : list byte := (fun i => z2b (Z.shiftr value (8 * i))) <$> seqZ 0 4.

(** The loop [v |= (uint64_t)in[i] << (8u * i)]. *)
Fixpoint get_le (w : Z) (i : Z) (v : Z) (bs : list byte) : Z :=
  match bs with
  | [] => v
  | b :: bs' => get_le w (i + 1) (Z.lor v (wrap w (Z.shiftl (b2z b) (8 * i)))) bs'
  end.
Definition dmesh_wire_get_u64_le (bs : list byte) : Z := get_le 64 0 0 (take 8 bs).
Definition dmesh_wire_get_u32_le (bs : list byte) : Z := get_le 32 0 0 (take 4 bs).

(** ** Text fields

    A field is canonical when it holds a terminated, non-empty text and zeros
    after it. *)

Definition all_zero (bs : list byte) : bool := or_bytes bs =? 0.

Definition canonical_text (text : list byte) : option nat :=
  match memchr text x00 with
  | None => None
  | Some O => None
  | Some len => if forallb (fun b => char_eq b x00) (drop (S len) text) then Some len else None
  end.

Definition dns_label_char (c : byte) : bool :=
  in_range "a" "z" c || in_range "0" "9" c || char_eq c "-".

Fixpoint dns_loop (label_start : bool) (prev : byte) (s : list byte) : bool :=
  match s with
  | [] => true
  | c :: s' =>
      if char_eq c "." then
        if label_start || bool_decide (s' = []) || char_eq prev "-" then false
        else dns_loop true c s'
      else if negb (dns_label_char c) || (label_start && char_eq c "-") then false
      else dns_loop false c s'
  end.

Definition dns_subdomain (text : list byte) (max_len : nat) : bool :=
  match canonical_text text with
  | None => false
  | Some len =>
      let s := take len text in
      match head s, last s with
      | Some first, Some final =>
          if (max_len <? len)%nat || negb (dns_label_char first) || negb (dns_label_char final) ||
             char_eq first "-" || char_eq final "-" then false
          else dns_loop true first s
      | _, _ => false
      end
  end.

Fixpoint uid_chars (i : nat) (s : list byte) : bool :=
  match s with
  | [] => true
  | c :: s' =>
      let hyphen := hyphen_at i in
      if (hyphen && negb (char_eq c "-")) || (negb hyphen && negb (in_range "a" "f" c || in_range "0" "9" c)) then false
      else uid_chars (S i) s'
  end.

Definition pod_uid_text (text : list byte) : bool :=
  match canonical_text text with
  | None => false
  | Some len => (len =? 36)%nat && uid_chars 0 (take len text)
  end.

Definition container_id_text (text : list byte) : bool :=
  match canonical_text text with
  | None => false
  | Some len => (len =? 64)%nat && forallb (fun c => in_range "0" "9" c || in_range "a" "f" c) (take len text)
  end.

(** The outer loop: one octet, and the separator unless the text ends there. *)
Fixpoint ipv4_loop (fuel : nat) (octets : nat) (s : list byte) : bool :=
  match fuel with
  | O => false
  | S f =>
      match s with
      | [] => (octets =? 4)%nat
      | c :: _ =>
          if negb (is_digit c) then false
          else
            let (ds, rest) := take_digits s in
            let value := fold_left decimal_step ds 0 in
            if (length ds =? 0)%nat || (3 <? length ds)%nat || (255 <? value) ||
               ((1 <? length ds)%nat && bool_decide (head ds = Some "0"%byte)) then false
            else
              let octets' := S octets in
              match rest with
              | [] => ipv4_loop f octets' []
              | d :: rest' =>
                  if negb (char_eq d ".") || (octets' =? 4)%nat then false
                  else if bool_decide (rest' = []) then false
                  else ipv4_loop f octets' rest'
              end
      end
  end.

Definition ipv4_text (text : list byte) : bool :=
  match canonical_text text with
  | None => false
  | Some len => if (15 <? len)%nat then false else ipv4_loop (S len) 0 (take len text)
  end.

Definition service_name_text (text : list byte) : bool :=
  match text with
  | c :: rest => if char_eq c x00 then forallb (fun b => char_eq b x00) rest else dns_subdomain text 63
  | [] => false
  end.

Definition validate_canonical (a : dmesh_workload_identity) : dmesh_identity_result :=
  if negb (wi_type a =? DMESH_IDENTITY_TYPE) then IDENTITY_BAD_TYPE
  else if negb (wi_flags a =? 0) || negb (wi_reserved a =? 0) ||
          all_zero (wi_nonce a) || all_zero (wi_daemon_incarnation a) ||
          (dmesh_wire_get_u64_le (wi_channel_generation_le a) =? 0) ||
          negb (dns_subdomain (wi_cluster_id a) 63) ||
          negb (pod_uid_text (wi_pod_uid a)) ||
          negb (dns_subdomain (wi_namespace_name a) 63) ||
          negb (dns_subdomain (wi_pod_name a) 253) ||
          negb (dns_subdomain (wi_service_account a) 253) ||
          negb (dns_subdomain (wi_container_name a) 253) ||
          negb (container_id_text (wi_container_id a)) ||
          negb (dns_subdomain (wi_node_name a) 253) ||
          negb (service_name_text (wi_service_name a)) ||
          negb (ipv4_text (wi_pod_ip a)) then IDENTITY_NONCANONICAL
  else if negb (wi_version a =? DMESH_IDENTITY_VERSION) then IDENTITY_BAD_VERSION
  else IDENTITY_OK.

(** ** Decoding an assertion *)

Definition workload_json (ns pod : list byte) : list byte :=
  txt "{" ++ [x22] ++ txt "ns" ++ [x22] ++ txt ":" ++ [x22] ++ cstr ns ++ [x22] ++ txt "," ++ [x22] ++ txt "pod" ++ [x22] ++
  txt ":" ++ [x22] ++ cstr pod ++ [x22] ++ txt "}".

Definition dmesh_identity_decode (a : dmesh_workload_identity) (expected_cluster expected_node : option (list byte))
    (expected_nonce : list byte) (now_sec : Z) : dmesh_identity_result * option dmesh_identity_claims :=
  match validate_canonical a with
  | IDENTITY_OK =>
      match expected_cluster, expected_node with
      | Some cluster, Some node =>
          if negb (str_eq (wi_cluster_id a) cluster) || negb (str_eq (wi_node_name a) node)
          then (IDENTITY_WRONG_NODE, None)
          else
            let issued := dmesh_wire_get_u64_le (wi_issued_at_le a) in
            let expires := dmesh_wire_get_u64_le (wi_expires_at_le a) in
            if (expires <? issued) || (DMESH_ASSERT_MAX_LIFETIME_SEC <? u64 (expires - issued)) ||
               (u64 (now_sec + DMESH_ASSERT_CLOCK_SKEW_SEC) <? issued) || (expires <=? now_sec)
            then (IDENTITY_BAD_TIME, None)
            else if negb (bytes_eq (wi_nonce a) expected_nonce) then (IDENTITY_BAD_NONCE, None)
            else
              let workload := workload_json (wi_namespace_name a) (wi_pod_name a) in
              if (DMESH_WORKLOAD_MAX <=? length workload)%nat then (IDENTITY_NONCANONICAL, None)
              else
                (IDENTITY_OK,
                 Some (Claims workload (wi_pod_uid a) (wi_namespace_name a) (wi_service_account a)
                         (wi_service_name a) (wi_pod_ip a) (wi_daemon_incarnation a)
                         (dmesh_wire_get_u32_le (wi_channel_slot_le a))
                         (dmesh_wire_get_u64_le (wi_channel_generation_le a))))
      | _, _ => (IDENTITY_WRONG_NODE, None)
      end
  | r => (r, None)
  end.

(** ** OpenSSL

    [HMAC (EVP_sha256 ())] answers a digest or NULL.  Ed25519 verification is
    one predicate on key, signature and message; making the key object and the
    digest context may fail. *)

Record crypto := Crypto {
  hmac_sha256 : list byte -> list byte -> option (list byte);
  ed25519_key : list byte -> bool;
  md_ctx_new : bool;
  ed25519_verify : list byte -> list byte -> list byte -> bool }.

(** ** The seal *)

Definition identity_image (a : dmesh_workload_identity) : list byte :=
  [z2b (wi_type a); z2b (wi_version a); z2b (wi_flags a); z2b (wi_reserved a)] ++
  wi_issued_at_le a ++ wi_expires_at_le a ++ wi_nonce a ++ wi_channel_slot_le a ++ wi_channel_generation_le a ++
  wi_daemon_incarnation a ++ wi_cluster_id a ++ wi_node_name a ++ wi_pod_uid a ++ wi_namespace_name a ++
  wi_pod_name a ++ wi_service_account a ++ wi_container_name a ++ wi_container_id a ++ wi_service_name a ++ wi_pod_ip a.

(** The bytes of the message before [mac]. *)
Definition assertion_image (m : dmesh_registration_assertion_msg) : list byte :=
  [z2b (am_type m); z2b (am_version m)] ++ am_reserved m ++ identity_image (am_identity m).

Definition DMESH_REG_KEY_LABEL : list byte := txt "dpumesh-registration".

Section crypto.
  Context (C : crypto).

(** A digest of the expected size, or a failure. *)
Definition hmac_sized (size : nat) (key message : list byte) : option (list byte) :=
  d ← hmac_sha256 C key message; if (length d =? size)%nat then Some d else None.

Definition registration_mac (session : list byte) (m : dmesh_registration_assertion_msg) : option (list byte) :=
  key ← hmac_sized DMESH_REG_MAC_SIZE session DMESH_REG_KEY_LABEL;
  hmac_sized DMESH_REG_MAC_SIZE key (assertion_image m).

Definition dmesh_registration_seal (session : list byte) (m : dmesh_registration_assertion_msg)
    : option dmesh_registration_assertion_msg :=
  mac ← registration_mac session m; Some (m <| am_mac := mac |>).

Definition dmesh_registration_verify (session : list byte) (m : dmesh_registration_assertion_msg) : bool :=
  match registration_mac session m with
  | Some expected => bytes_eq expected (am_mac m)
  | None => false
  end.
End crypto.

(** ** Key files *)

Definition hex_nibble (c : byte) : Z :=
  if in_range "0" "9" c then b2z c - 48
  else if in_range "a" "f" c then b2z c - 97 + 10
  else if in_range "A" "F" c then b2z c - 65 + 10
  else -1.

Fixpoint nibble_loop (n : nat) (s : list byte) : option (list byte) :=
  match n with
  | O => Some []
  | S n' =>
      match s with
      | h :: l :: s' =>
          if (hex_nibble h <? 0) || (hex_nibble l <? 0) then None
          else cons (z2b (Z.lor (Z.shiftl (hex_nibble h) 4) (hex_nibble l))) <$> nibble_loop n' s'
      | _ => None
      end
  end.

(** [fstat]: a regular file, its owner and its permission bits. *)
Record file_stat := FileStat { fs_regular : bool; fs_uid : Z; fs_mode : Z }.
(** An open file: what [fstat], the read of up to 66 bytes and the read of one
    more byte return. *)
Record opened_file := OpenedFile { of_stat : option file_stat; of_read : option (list byte); of_more : Z }.
(** [open] on a path, and the effective uid. *)
Record file_system := FileSystem { fsys_open : list byte -> option opened_file; fsys_euid : Z }.

(** Octal 0077, 0400, 0100 and 07000. *)
Definition key_mode_ok (mode : Z) : bool :=
  (Z.land mode 63 =? 0) && negb (Z.land mode 256 =? 0) && (Z.land mode 64 =? 0) && (Z.land mode 3584 =? 0).

Definition key_bytes (input : list byte) : option (list byte) :=
  if (length input =? 32)%nat then Some input
  else
    let input := if (length input =? 65)%nat && bool_decide (input !! 64%nat = Some NL) then take 64 input else input in
    if negb (length input =? 64)%nat then None else nibble_loop 32 input.

Definition dmesh_load_key (S : file_system) (path : list byte) : option (list byte) :=
  if bool_decide (path = []) then None
  else
    file ← fsys_open S path;
    st ← of_stat file;
    if negb (fs_regular st) then None
    else if negb (fs_uid st =? fsys_euid S) || negb (key_mode_ok (fs_mode st)) then None
    else
      input ← of_read file;
      if negb (of_more file =? 0) then None
      else
        key ← key_bytes (take 66 input);
        if all_zero key then None else Some key.

(** ** Signed documents *)

Definition key_id_char (c : byte) : bool :=
  in_range "a" "z" c || in_range "A" "Z" c || in_range "0" "9" c || char_eq c "-" || char_eq c "_" || char_eq c ".".

Definition feed_key_id (text : list byte) : option (list byte) :=
  match text with
  | [] => None
  | c :: _ =>
      if (DMESH_KEY_ID_MAX <=? length text)%nat || char_eq c "." then None
      else if forallb key_id_char text then Some text else None
  end.

Definition MARKER : list byte := NL :: txt "signature=".

(** The loop downwards from [i] for the last marker. *)
Fixpoint marker_from (i : nat) (document : list byte) : option nat :=
  if starts MARKER (drop i document) then Some i
  else match i with O => None | S i' => marker_from i' document end.

Record feed_envelope := Envelope { fe_key_id : list byte; fe_signature : list byte; fe_prefix_len : nat }.

Definition feed_envelope_split (document : list byte) (sig_size : nat) : dmesh_feed_result + feed_envelope :=
  if (length document <? length MARKER)%nat then inl FEED_UNSIGNED
  else
    match marker_from (length document - length MARKER) document with
    | None => inl FEED_UNSIGNED
    | Some marker =>
        let prefix_len := S marker in
        let value := drop (marker + length MARKER) document in
        let value := match last value with
                     | Some c => if char_eq c NL then take (length value - 1) value else value
                     | None => value
                     end in
        if bool_decide (memchr value NL <> None) then inl FEED_UNSIGNED
        else
          match memchr value "," with
          | None => inl FEED_UNSIGNED
          | Some comma =>
              match feed_key_id (take comma value) with
              | None => inl FEED_BAD_KEY_ID
              | Some key_id =>
                  let hex := drop (S comma) value in
                  if negb (length hex =? 2 * sig_size)%nat then inl FEED_UNSIGNED
                  else match nibble_loop sig_size hex with
                       | None => inl FEED_UNSIGNED
                       | Some signature => inr (Envelope key_id signature prefix_len)
                       end
              end
          end
    end.

(** ["%s/%s.key"], when it fits the buffer. *)
Definition key_path (key_dir key_id : list byte) : option (list byte) :=
  let path := key_dir ++ txt "/" ++ key_id ++ txt ".key" in
  if (PATH_SIZE <=? length path)%nat then None else Some path.

Definition load_named_key (S : file_system) (key_dir key_id : list byte) : option (list byte) :=
  path ← key_path key_dir key_id; dmesh_load_key S path.

Definition dmesh_feed_verify (C : crypto) (S : file_system) (document key_dir : list byte) : dmesh_feed_result * option nat :=
  if bool_decide (key_dir = []) then (FEED_UNSIGNED, None)
  else
    match feed_envelope_split document DMESH_FEED_MAC_SIZE with
    | inl r => (r, None)
    | inr e =>
        match load_named_key S key_dir (fe_key_id e) with
        | None => (FEED_BAD_KEY_ID, None)
        | Some key =>
            match hmac_sized C DMESH_FEED_MAC_SIZE key (take (fe_prefix_len e) document) with
            | None => (FEED_INTERNAL, None)
            | Some expected =>
                if negb (bytes_eq (fe_signature e) expected) then (FEED_BAD_MAC, None)
                else (FEED_OK, Some (fe_prefix_len e))
            end
        end
    end.

Definition dmesh_gen_verify (C : crypto) (S : file_system) (document key_dir : list byte) : dmesh_feed_result * option nat :=
  if bool_decide (key_dir = []) then (FEED_UNSIGNED, None)
  else
    match feed_envelope_split document 64 with
    | inl r => (r, None)
    | inr e =>
        match load_named_key S key_dir (fe_key_id e) with
        | None => (FEED_BAD_KEY_ID, None)
        | Some public_key =>
            if negb (ed25519_key C public_key) then (FEED_INTERNAL, None)
            else if negb (md_ctx_new C) then (FEED_INTERNAL, None)
            else if negb (ed25519_verify C public_key (fe_signature e) (take (fe_prefix_len e) document))
            then (FEED_BAD_MAC, None)
            else (FEED_OK, Some (fe_prefix_len e))
        end
    end.

(** The variable [DPUMESH_FEED_KEY_DIR], when it is set and fits. *)
Definition dmesh_feed_configure (path : option (list byte)) : option (list byte) :=
  match path with
  | None | Some [] => None
  | Some path => if (PATH_SIZE <=? length path)%nat then None else Some path
  end.
