(* ===== verification/WorkloadProofs.v ===== *)
(** * Workload identity: theorems

    The envelope of a signed document, the agreement of the two sets of text
    validators, what a decoded identity guarantees and what a seal covers. *)

From S2P Require Import Prelude Text Spans PeerIdentity WorkloadIdentity.

(** ** The envelope *)

Lemma marker_from_Some n doc i :
  marker_from n doc = Some i <->
  (i <= n)%nat /\ starts MARKER (drop i doc) = true /\ forall j, (i < j <= n)%nat -> starts MARKER (drop j doc) = false.
Proof.
  revert i. induction n as [|n IH]; intros i; cbn [marker_from].
  - destruct (starts MARKER (drop 0 doc)) eqn:E; split.
    + intros [= <-]. split; [done|]. split; [done|lia].
    + intros (Hi & _). f_equal. lia.
    + done.
    + intros (Hi & H & _). replace i with 0%nat in H by lia. congruence.
  - destruct (starts MARKER (drop (S n) doc)) eqn:E.
    + split; [intros [= <-]; split; [done|]; split; [done|lia]|]. intros (Hi & H & Hl). f_equal.
      destruct (decide (i = S n)) as [|Hne]; [done|]. rewrite Hl in E by lia. done.
    + rewrite IH. split; intros (Hi & H & Hl).
      * split; [lia|]. split; [done|]. intros j Hj. destruct (decide (j = S n)) as [->|]; [done|]. apply Hl. lia.
      * assert (i <> S n) by (intros ->; congruence). split; [lia|]. split; [done|]. intros j Hj. apply Hl. lia.
Qed.

Definition key_id_ok (id : list byte) : Prop := feed_key_id id = Some id.

Lemma feed_key_id_same t id : feed_key_id t = Some id -> id = t.
Proof. unfold feed_key_id. destruct t; [done|]. destruct (_ || _); [done|]. destruct (forallb _ _); [|done]. by intros [= <-]. Qed.

Lemma key_id_chars id : key_id_ok id -> Forall (fun c => key_id_char c = true) id.
Proof.
  unfold key_id_ok, feed_key_id. destruct id as [|c id]; [done|]. destruct (_ || _); [done|].
  destruct (forallb key_id_char (c :: id)) eqn:E; [|done]. intros _. apply Forall_forall. intros x Hx.
  rewrite forallb_forall in E. apply E. by apply list_elem_of_In.
Qed.

Lemma nibble_chars n s bs : nibble_loop n s = Some bs -> length s = (2 * n)%nat -> length bs = n /\ Forall (fun c => 0 <= hex_nibble c) s.
Proof.
  revert s bs. induction n as [|n IH]; intros s bs; cbn [nibble_loop]; [destruct s; [|done]; intros [= <-] _; by split|].
  destruct s as [|h [|l s]]; [done..|]. destruct (Z.ltb_spec (hex_nibble h) 0); [done|]. destruct (Z.ltb_spec (hex_nibble l) 0); [done|].
  cbn [orb]. intros (cs & Hc & ->)%fmap_Some Hl. cbn in Hl. destruct (IH s cs Hc) as [H1 H2]; [lia|].
  split; [cbn; by rewrite H1|]. by repeat constructor.
Qed.

(** What is left of the value when a final newline is dropped. *)
Definition strip_nl (value : list byte) : list byte :=
  match last value with
  | Some c => if char_eq c NL then take (length value - 1) value else value
  | None => value
  end.

Lemma strip_nl_spec value v : NL ∉ v -> strip_nl value = v <-> value = v \/ value = v ++ [NL].
Proof.
  intros Hv. unfold strip_nl. destruct value as [|c l] using rev_ind.
  - cbn. split; [by left|]. intros [|H]; [done|]. by destruct v.
  - rewrite last_snoc, length_app. cbn [length]. replace (length l + 1 - 1)%nat with (length l) by lia.
    rewrite take_app_length. destruct (char_eq_spec c NL) as [->|Hne]; split.
    + intros ->. by right.
    + intros [<-|H]; [|by apply app_inj_tail in H as [? _]]. exfalso. apply Hv. apply elem_of_app. right. by left.
    + intros <-. by left.
    + intros [<-|H]; [done|]. by apply app_inj_tail in H as [_ ?].
Qed.

(** The document is a signed part that ends in a newline, and one envelope
    line, with or without its own newline. *)
Definition enveloped (doc prefix : list byte) (n : nat) (e : feed_envelope) : Prop :=
  exists hex tail, doc = prefix ++ txt "signature=" ++ fe_key_id e ++ ","%byte :: hex ++ tail /\ last prefix = Some NL /\
    (tail = [] \/ tail = [NL]) /\ fe_prefix_len e = length prefix /\ key_id_ok (fe_key_id e) /\
    length hex = (2 * n)%nat /\ nibble_loop n hex = Some (fe_signature e).

Lemma key_id_free id c : key_id_char c = false -> key_id_ok id -> c ∉ id.
Proof. intros Hc Hid Hin. apply key_id_chars in Hid. rewrite Forall_forall in Hid. rewrite Hid in Hc by done. done. Qed.

Lemma hex_free n s bs c : hex_nibble c < 0 -> nibble_loop n s = Some bs -> length s = (2 * n)%nat -> c ∉ s.
Proof. intros Hc Hn Hl Hin. destruct (nibble_chars n s bs Hn Hl) as [_ H]. rewrite Forall_forall in H. specialize (H c Hin). lia. Qed.

Lemma value_free id hex n bs : key_id_ok id -> nibble_loop n hex = Some bs -> length hex = (2 * n)%nat -> NL ∉ id ++ ","%byte :: hex.
Proof.
  intros Hid Hn Hl. rewrite not_elem_of_app, not_elem_of_cons. split; [by apply key_id_free|]. split; [done|].
  by eapply hex_free.
Qed.

Lemma split_sound doc n e : feed_envelope_split doc n = inr e -> exists prefix, enveloped doc prefix n e.
Proof.
  unfold feed_envelope_split. destruct (Nat.ltb_spec (length doc) (length MARKER)) as [|Hlen]; [done|].
  destruct (marker_from _ doc) as [i|] eqn:Em; [|done]. apply marker_from_Some in Em as (Hi & Hs & _).
  apply starts_spec in Hs as [r Hr]. change (length MARKER) with 11%nat in *.
  assert (drop (i + 11) doc = r) as -> by (rewrite <-drop_drop, Hr; done).
  fold (strip_nl r). destruct (bool_decide _) eqn:Hnl; [done|]. apply bool_decide_eq_false in Hnl.
  destruct (memchr (strip_nl r) NL) eqn:Hf; [by destruct Hnl|]. apply memchr_None in Hf.
  destruct (memchr (strip_nl r) ",") as [k|] eqn:Hk; [|done]. apply memchr_Some in Hk as (hex & Hv & _ & _ & Eh).
  rewrite Eh. destruct (feed_key_id _) as [id|] eqn:Hid; [|done]. pose proof (feed_key_id_same _ _ Hid) as Ei.
  rewrite <-Ei in Hv, Hid. destruct (Nat.eqb_spec (length hex) (2 * n)) as [Hl|]; [|done]. cbn [negb].
  destruct (nibble_loop n _) as [sg|] eqn:Hn; [|done]. intros [= <-].
  assert (doc = take i doc ++ MARKER ++ r) as Hdoc by (rewrite <-Hr; by rewrite take_drop).
  assert (length (take i doc) = i) as Hti by (rewrite length_take; lia).
  apply strip_nl_spec in Hv as Hr'; [|by rewrite <-Hv].
  exists (take i doc ++ [NL]), hex, (if decide (r = strip_nl r) then [] else [NL]).
  cbn [fe_key_id fe_prefix_len fe_signature]. split; [|split; [by rewrite last_snoc|]].
  - rewrite <-app_assoc. rewrite Hdoc at 1. rewrite Hv. destruct Hr' as [->| ->].
    + rewrite decide_True by done. by rewrite app_nil_r.
    + rewrite decide_False; [by rewrite <-(app_assoc id)|]. intros E%(f_equal length). rewrite !length_app in E. cbn in E. lia.
  - split; [destruct (decide _); auto|]. split; [rewrite length_app; cbn; lia|]. done.
Qed.

Lemma split_complete doc prefix n e : enveloped doc prefix n e -> feed_envelope_split doc n = inr e.
Proof.
  intros (hex & tail & Hdoc & Hlast & Ht & Hp & Hid & Hl & Hn). destruct e as [id sg len]. cbn in *.
  apply last_Some in Hlast as [q ->]. rewrite <-app_assoc in Hdoc. change (doc = q ++ MARKER ++ id ++ ","%byte :: hex ++ tail) in Hdoc.
  assert (NL ∉ id ++ ","%byte :: hex) as Hf by by eapply value_free.
  assert (id ++ ","%byte :: hex ++ tail = (id ++ ","%byte :: hex) ++ tail) as Ev by by rewrite <-app_assoc.
  rewrite Ev in Hdoc. set (v := id ++ ","%byte :: hex) in *.
  unfold feed_envelope_split. assert (length doc = length q + (11 + length (v ++ tail)))%nat as Hdl by (by rewrite Hdoc, !length_app).
  change (length MARKER) with 11%nat. destruct (Nat.ltb_spec (length doc) 11); [lia|].
  assert (marker_from (length doc - 11) doc = Some (length q)) as ->.
  { apply marker_from_Some. split; [lia|]. split; [rewrite Hdoc, drop_app_length; by apply starts_spec; eexists|].
    intros j Hj. apply not_true_iff_false. intros [r Hr]%starts_spec.
    assert (doc !! j = Some NL) as Hjn by (rewrite <-(Nat.add_0_r j), <-lookup_drop, Hr; done).
    assert (doc = (q ++ [NL]) ++ (txt "signature=" ++ v) ++ tail) as E by (rewrite Hdoc, <-!app_assoc; done).
    rewrite E, lookup_app_r in Hjn by (rewrite length_app; cbn; lia).
    rewrite lookup_app_l in Hjn.
    - apply list_elem_of_lookup_2, elem_of_app in Hjn as [Hin|]; [|done]. revert Hin. by apply memchr_None.
    - rewrite !length_app in *. cbn [length]. change (length (txt "signature=")) with 10%nat. destruct Ht as [->| ->]; cbn in *; lia. }
  assert (drop (length q + 11) doc = v ++ tail) as ->.
  { rewrite <-drop_drop, Hdoc, drop_app_length. done. }
  fold (strip_nl (v ++ tail)). assert (strip_nl (v ++ tail) = v) as ->.
  { apply strip_nl_spec; [done|]. destruct Ht as [->| ->]; [left; apply app_nil_r|by right]. }
  rewrite (proj2 (memchr_None v NL) Hf). rewrite bool_decide_eq_false_2 by auto.
  unfold v. rewrite memchr_app by by apply key_id_free. rewrite take_app_length, Hid.
  assert (drop (S (length id)) (id ++ ","%byte :: hex) = hex) as ->.
  { rewrite drop_app_ge by lia. by replace (S (length id) - length id)%nat with 1%nat by lia. }
  rewrite Hl, Nat.eqb_refl. cbn [negb]. rewrite Hn, Hp. do 3 f_equal. rewrite length_app. cbn. lia.
Qed.

(** The envelope of a signed document is recognised exactly.  The split
    answers an envelope just when the document is a part that ends in a newline
    followed by one line [signature=<key id>,<hex>], a key id of the allowed
    characters and a signature of the expected size; the signed part it reports
    is the whole of what precedes that line, and there is only one way to read
    a document so. *)
Lemma envelope_exact doc n e :
  feed_envelope_split doc n = inr e <-> enveloped doc (take (fe_prefix_len e) doc) n e.
Proof.
  split; [|apply split_complete]. intros H. destruct (split_sound doc n e H) as [p Hp].
  assert (take (fe_prefix_len e) doc = p) as ->; [|done]. destruct Hp as (hex & tail & -> & _ & _ & -> & _). apply take_app_length.
Qed.

(** ** The two sets of validators

    [workload_identity.c] validates fixed fields and [topology.c] spans of a
    document. *)

(** Zeros follow the text, at least one. *)
Definition text_ends (text : list byte) : bool :=
  (length (cstr text) <? length text)%nat && forallb (fun b => char_eq b x00) (drop (length (cstr text)) text).

Lemma cstr_memchr text : match memchr text x00 with Some i => cstr text = take i text /\ (i < length text)%nat | None => cstr text = text end.
Proof.
  induction text as [|c text IH]; [done|]. cbn [memchr cstr]. unfold char_eq. change (b2z x00) with 0.
  destruct (Z.eqb_spec (b2z c) 0); [cbn; split; [done|lia]|].
  destruct (memchr text x00); cbn; [|by rewrite IH]. destruct IH as [-> ?]. split; [done|lia].
Qed.

Lemma take_cstr text : take (length (cstr text)) text = cstr text.
Proof.
  pose proof (cstr_memchr text) as H. destruct (memchr text x00) as [i|].
  - destruct H as [-> Hi]. by rewrite length_take, Nat.min_l by lia.
  - rewrite H. apply firstn_all.
Qed.

Lemma canonical_text_eq text :
  canonical_text text = if text_ends text && negb (bool_decide (cstr text = [])) then Some (length (cstr text)) else None.
Proof.
  unfold canonical_text, text_ends. pose proof (cstr_memchr text) as H. destruct (memchr text x00) as [i|] eqn:Em.
  - destruct H as [E Hi]. rewrite E, length_take, Nat.min_l by lia. rewrite (proj2 (Nat.ltb_lt _ _) Hi). cbn [andb].
    destruct i as [|i]; [by rewrite andb_false_r|]. rewrite bool_decide_eq_false_2 by (destruct text; [cbn in Hi; lia|done]).
    cbn [negb]. rewrite andb_true_r. apply memchr_Some in Em as (r & Ht & Hl & _ & _).
    assert (text !! S i = Some x00) as Hx by (rewrite Ht; by apply list_lookup_middle).
    by rewrite (drop_S text x00 (S i) Hx).
  - rewrite H, Nat.ltb_irrefl. done.
Qed.

Lemma uid_chars_loop i s : uid_chars i s = uid_loop i s.
Proof.
  revert i. induction s as [|c s IH]; intros i; [done|]. cbn [uid_chars uid_loop]. rewrite IH. unfold hex_lower.
  destruct (hyphen_at i); cbn [andb orb negb].
  - rewrite orb_false_r. by destruct (char_eq c "-").
  - by destruct (in_range "a" "f" c || in_range "0" "9" c).
Qed.

Lemma dns_loops ls prev s : dns_loop ls prev s = subdomain_loop ls prev s.
Proof. reflexivity. Qed.

Lemma octet_digit c s : is_digit c = false -> octet (c :: s) = None.
Proof. intros H. unfold octet. cbn [take_digits]. by rewrite H. Qed.

Lemma octets_eq more s :
  octets more s =
  '(v, rest) ← octet s;
  match more with
  | O => if bool_decide (rest = []) then Some [v] else None
  | S more' => match rest with c :: rest' => if char_eq c "." then (fun vs => v :: vs) <$> octets more' rest' else None | [] => None end
  end.
Proof. by destruct more. Qed.

Lemma octets_nil more : octets more [] = None.
Proof. by destruct more. Qed.

Definition defined_b {A} (o : option A) : bool := match o with Some _ => true | None => false end.

Lemma take_digits_length c s : is_digit c = true -> (length (take_digits (c :: s)).2 <= length s)%nat.
Proof.
  intros Hc. cbn [take_digits]. rewrite Hc. destruct (take_digits_spec s) as (E & _). destruct (take_digits s) as [d r].
  cbn in *. rewrite E, length_app. lia.
Qed.

Lemma ipv4_loop_octets fuel more s : (length s < fuel)%nat -> s <> [] -> (more <= 3)%nat ->
  ipv4_loop fuel (3 - more) s = defined_b (octets more s).
Proof.
  revert more s. induction fuel as [|f IH]; intros more s Hf Hs Hm; [lia|]. destruct s as [|c s]; [done|].
  cbn [ipv4_loop]. rewrite octets_eq. destruct (is_digit c) eqn:Ed; [|by rewrite octet_digit].
  cbn [negb]. pose proof (take_digits_length c s Ed) as Hr. unfold octet.
  destruct (take_digits (c :: s)) as [ds rest]. cbn [snd] in Hr. cbn [length] in Hf.
  destruct (_ || _ || _ || _); [done|]. cbn [mbind option_bind].
  destruct rest as [|d rest].
  - destruct f; [cbn in *; lia|]. cbn [ipv4_loop]. destruct more as [|more]; [done|].
    apply Nat.eqb_neq. lia.
  - destruct more as [|more]; [by rewrite orb_true_r|]. destruct (char_eq d "."); [|done].
    cbn [negb orb]. replace (S (3 - S more)) with (3 - more)%nat by lia.
    destruct (Nat.eqb_spec (3 - more) 4); [lia|]. destruct rest as [|b rest]; [by rewrite octets_nil|].
    rewrite bool_decide_eq_false_2 by done. cbn [length] in Hr. rewrite IH by (cbn; lia || done). by destruct (octets more (b :: rest)).
Qed.

Lemma ipv4_length s ip : span_ipv4 s = Some ip -> (length s <= 15)%nat.
Proof.
  intros [Hw ->]%span_ipv4_spec. destruct (ip_octets_spec ip Hw) as [Ho _]. unfold show_ipv4, ip_octets in *.
  assert (forall v, 0 <= v <= 255 -> (length (show v) <= 3)%nat) as Hs by (intros v Hv; apply show_length; lia).
  rewrite !Forall_cons in Ho. destruct Ho as (H1 & H2 & H3 & H4 & _). apply Hs in H1, H2, H3, H4.
  rewrite !fmap_cons. cbn [join_with fmap list_fmap]. rewrite !length_app. cbn [length]. rewrite !length_app. cbn [length].
  rewrite !length_app. cbn [length]. lia.
Qed.

Lemma dns_subdomain_eq text max : dns_subdomain text max = text_ends text && span_dns_subdomain (cstr text) max.
Proof.
  unfold dns_subdomain. rewrite canonical_text_eq. destruct (text_ends text); [|done].
  case_bool_decide as E; cbn [andb negb]; [by rewrite E|]. rewrite take_cstr. reflexivity.
Qed.

Lemma pod_uid_text_eq text : pod_uid_text text = text_ends text && span_pod_uid (cstr text).
Proof.
  unfold pod_uid_text. rewrite canonical_text_eq. destruct (text_ends text); [|done].
  case_bool_decide as E; cbn [andb negb]; [by rewrite E|]. rewrite take_cstr. unfold span_pod_uid. by rewrite uid_chars_loop.
Qed.

Lemma ipv4_text_eq text : ipv4_text text = text_ends text && bool_decide (span_ipv4 (cstr text) <> None).
Proof.
  unfold ipv4_text. rewrite canonical_text_eq. destruct (text_ends text); [|done].
  case_bool_decide as E; cbn [andb negb]; [by rewrite E|]. rewrite take_cstr.
  destruct (Nat.ltb_spec 15 (length (cstr text))) as [Hl|].
  - rewrite bool_decide_eq_false_2; [done|]. intros Hn. destruct (span_ipv4 (cstr text)) as [ip|] eqn:Ei; [|done].
    apply ipv4_length in Ei. lia.
  - change 0%nat with (3 - 3)%nat. rewrite ipv4_loop_octets by (lia || done). unfold span_ipv4.
    destruct (octets 3 (cstr text)); [by rewrite bool_decide_eq_true_2|by rewrite bool_decide_eq_false_2 by auto].
Qed.

Lemma service_name_text_eq text :
  service_name_text text = text_ends text && (bool_decide (cstr text = []) || span_dns_subdomain (cstr text) 63).
Proof.
  destruct text as [|c text]; [done|]. cbn [service_name_text]. destruct (char_eq_spec c x00) as [->|Hne].
  - unfold text_ends. cbn. by rewrite andb_true_r.
  - rewrite dns_subdomain_eq. cbn [cstr]. destruct (Z.eqb_spec (b2z c) 0) as [E|]; [by apply (b2z_inj c x00) in E|].
    by rewrite bool_decide_eq_false_2.
Qed.

(** The two sets of validators agree.  On every fixed field the validators of
    the identity record accept exactly the terminated, zero-padded texts the
    validators of the topology document accept: DNS names, Pod UIDs and IPv4
    addresses; a Service name may besides be absent.  The fuel of the octet
    loop, one more than the length of the text, is enough. *)
Lemma validators_equal text :
  (forall max, dns_subdomain text max = text_ends text && span_dns_subdomain (cstr text) max) /\
  pod_uid_text text = text_ends text && span_pod_uid (cstr text) /\
  ipv4_text text = text_ends text && bool_decide (span_ipv4 (cstr text) <> None) /\
  service_name_text text = text_ends text && (bool_decide (cstr text = []) || span_dns_subdomain (cstr text) 63).
Proof. split_and!; [intros; apply dns_subdomain_eq|apply pod_uid_text_eq|apply ipv4_text_eq|apply service_name_text_eq]. Qed.

(** The texts of signed documents and identity records are recognised exactly.  The
    envelope split answers just when the document is a part that ends in a newline
    followed by one line [signature=<key id>,<hex>], a key id of the allowed
    characters and a signature of the expected size; the signed part it reports is
    the whole of what precedes that line, and there is only one way to read a
    document so.  On every fixed field the validators of the identity record accept
    exactly the terminated, zero-padded texts the validators of the topology
    document accept: DNS names, Pod UIDs and IPv4 addresses; a Service name may
    besides be absent.  The fuel of the octet loop, one more than the length of
    the text, is enough. *)
Lemma feed_envelope_exact :
  (forall doc n e, feed_envelope_split doc n = inr e <-> enveloped doc (take (fe_prefix_len e) doc) n e) /\
  (forall text,
     (forall max, dns_subdomain text max = text_ends text && span_dns_subdomain (cstr text) max) /\
     pod_uid_text text = text_ends text && span_pod_uid (cstr text) /\
     ipv4_text text = text_ends text && bool_decide (span_ipv4 (cstr text) <> None) /\
     service_name_text text = text_ends text && (bool_decide (cstr text = []) || span_dns_subdomain (cstr text) 63)).
Proof. split; [exact envelope_exact|exact validators_equal]. Qed.

(** ** Wire integers *)

Lemma le_num_cons b bs : (length bs <= 7)%nat -> le_num (b :: bs) = b2z b + 256 * le_num bs.
Proof.
  intros Hl. unfold le_num. rewrite reverse_cons, be_num_snoc.
  pose proof (be_num_bound (reverse bs) ltac:(rewrite length_reverse; lia)) as Hb. rewrite length_reverse in Hb.
  assert (2 ^ (8 * Z.of_nat (length bs)) <= 2 ^ 56) by (apply Z.pow_le_mono_r; lia).
  rewrite be_step_arith by lia. lia.
Qed.

Lemma get_le_num w bs i v : 0 <= i -> i + Z.of_nat (length bs) <= 8 -> 8 * (i + Z.of_nat (length bs)) <= w -> 0 <= v < 2 ^ (8 * i) ->
  get_le w i v bs = v + 2 ^ (8 * i) * le_num bs.
Proof.
  revert i v. induction bs as [|b bs IH]; intros i v Hi Hl Hw Hv; cbn [get_le]; [unfold le_num; cbn; lia|].
  cbn [length] in *. pose proof (b2z_range b) as Hb. assert (0 < 2 ^ (8 * i)) by (apply Z.pow_pos_nonneg; lia).
  assert (2 ^ (8 * (i + 1)) = 256 * 2 ^ (8 * i)) as Ep by (replace (8 * (i + 1)) with (8 + 8 * i) by lia; by rewrite Z.pow_add_r by lia).
  assert (Z.shiftl (b2z b) (8 * i) = b2z b * 2 ^ (8 * i)) as Es by (by rewrite Z.shiftl_mul_pow2 by lia).
  rewrite wrap_small.
  - rewrite Z.lor_comm, lor_shift_add by lia. rewrite IH by nia. rewrite le_num_cons by lia. rewrite Ep. lia.
  - rewrite Es. unfold in_width. assert (2 ^ (8 * (i + 1)) <= 2 ^ w) by (apply Z.pow_le_mono_r; lia). nia.
Qed.

Lemma get_u64_num bs : length bs = 8%nat -> dmesh_wire_get_u64_le bs = le_num bs.
Proof. intros H. unfold dmesh_wire_get_u64_le. rewrite take_ge, get_le_num by (rewrite ?H; cbn; lia). lia. Qed.
Lemma get_u32_num bs : length bs = 4%nat -> dmesh_wire_get_u32_le bs = le_num bs.
Proof. intros H. unfold dmesh_wire_get_u32_le. rewrite take_ge, get_le_num by (rewrite ?H; cbn; lia). lia. Qed.

Lemma put_u64_num v : dmesh_wire_put_u64_le v = le_bytes 8 v.
Proof. unfold dmesh_wire_put_u64_le, le_bytes. cbn -[z2b Z.shiftr]. rewrite ?Z.shiftr_shiftr by lia. reflexivity. Qed.
Lemma put_u32_num v : dmesh_wire_put_u32_le v = le_bytes 4 v.
Proof. unfold dmesh_wire_put_u32_le, le_bytes. cbn -[z2b Z.shiftr]. rewrite ?Z.shiftr_shiftr by lia. reflexivity. Qed.

(** The accessors read back what was written, at both widths. *)
Lemma wire_round_trip v : (in_width 64 v -> dmesh_wire_get_u64_le (dmesh_wire_put_u64_le v) = v) /\
  (in_width 32 v -> dmesh_wire_get_u32_le (dmesh_wire_put_u32_le v) = v).
Proof.
  rewrite put_u64_num, put_u32_num, get_u64_num, get_u32_num by apply length_le_bytes.
  split; intros; by apply le_num_le_bytes; [lia|].
Qed.

Lemma get_le_width bs : in_width 64 (get_le 64 0 0 bs).
Proof.
  assert (forall i v, in_width 64 v -> in_width 64 (get_le 64 i v bs)) as H; [|apply H; by unfold in_width].
  induction bs as [|b bs IH]; intros i v Hv; cbn [get_le]; [done|]. apply IH. unfold in_width.
  pose proof (wrap_in_width 64 (Z.shiftl (b2z b) (8 * i)) ltac:(lia)) as Hw. unfold in_width in Hv, Hw.
  split; [apply Z.lor_nonneg; lia|]. apply Z.log2_lt_cancel. rewrite Z.log2_lor by lia. rewrite Z.log2_pow2 by lia.
  apply Z.max_lub_lt.
  - destruct (Z.eq_dec v 0) as [->|]; [cbn; lia|]. apply Z.log2_lt_pow2; lia.
  - destruct (Z.eq_dec (wrap 64 (Z.shiftl (b2z b) (8 * i))) 0) as [E|]; [rewrite E; cbn; lia|]. apply Z.log2_lt_pow2; lia.
Qed.

(** ** Decoding *)

(** A fixed field that holds a text with the property. *)
Definition field_holds (P : list byte -> Prop) (text : list byte) : Prop := text_ends text = true /\ P (cstr text).
Definition name_upto (max : nat) (s : list byte) : Prop := dns_name s /\ (length s <= max)%nat.
Definition container_id (s : list byte) : Prop := length s = 64%nat /\ Forall (fun c => hex_lower c = true) s.

(** The canonical form of an identity record. *)
Record identity_ok (a : dmesh_workload_identity) : Prop := {
  ok_header : wi_type a = 1 /\ wi_version a = 1 /\ wi_flags a = 0 /\ wi_reserved a = 0;
  ok_nonce : nonzero (wi_nonce a) = true;
  ok_incarnation : nonzero (wi_daemon_incarnation a) = true;
  ok_generation : dmesh_wire_get_u64_le (wi_channel_generation_le a) <> 0;
  ok_cluster : field_holds (name_upto 63) (wi_cluster_id a);
  ok_uid : field_holds pod_uid (wi_pod_uid a);
  ok_namespace : field_holds (name_upto 63) (wi_namespace_name a);
  ok_pod : field_holds (name_upto 253) (wi_pod_name a);
  ok_account : field_holds (name_upto 253) (wi_service_account a);
  ok_container : field_holds (name_upto 253) (wi_container_name a);
  ok_container_id : field_holds container_id (wi_container_id a);
  ok_node : field_holds (name_upto 253) (wi_node_name a);
  ok_service : field_holds (fun s => s = [] \/ name_upto 63 s) (wi_service_name a);
  ok_ip : field_holds (fun s => exists ip, in_width 32 ip /\ s = show_ipv4 ip) (wi_pod_ip a) }.

Lemma dns_subdomain_holds text max : dns_subdomain text max = true <-> field_holds (name_upto max) text.
Proof. rewrite dns_subdomain_eq, andb_true_iff, span_dns_subdomain_spec. done. Qed.
Lemma pod_uid_holds text : pod_uid_text text = true <-> field_holds pod_uid text.
Proof. rewrite pod_uid_text_eq, andb_true_iff, span_pod_uid_spec. done. Qed.
Lemma ipv4_holds text : ipv4_text text = true <-> field_holds (fun s => exists ip, in_width 32 ip /\ s = show_ipv4 ip) text.
Proof.
  rewrite ipv4_text_eq, andb_true_iff, bool_decide_eq_true. unfold field_holds. f_equiv.
  setoid_rewrite <-span_ipv4_spec. destruct (span_ipv4 (cstr text)); split; try done; [by eexists|]. intros [? ?]. done.
Qed.
Lemma service_name_holds text : service_name_text text = true <-> field_holds (fun s => s = [] \/ name_upto 63 s) text.
Proof. rewrite service_name_text_eq, andb_true_iff, orb_true_iff, bool_decide_eq_true, span_dns_subdomain_spec. done. Qed.
Lemma container_id_holds text : container_id_text text = true <-> field_holds container_id text.
Proof.
  unfold container_id_text, field_holds, container_id. rewrite canonical_text_eq. destruct (text_ends text); [|split; [done|by intros [? _]]].
  case_bool_decide as E; cbn [andb negb].
  - rewrite E. split; [done|]. intros (_ & H & _). done.
  - rewrite take_cstr, andb_true_iff, Nat.eqb_eq, forallb_forall, Forall_forall. split.
    + intros [H1 H2]. split; [done|]. split; [done|]. intros c Hc%list_elem_of_In%H2. unfold hex_lower. by rewrite orb_comm.
    + intros (_ & H1 & H2). split; [done|]. intros c Hc%list_elem_of_In%H2. unfold hex_lower in Hc. by rewrite orb_comm.
Qed.

Lemma not_zero bs : all_zero bs = false <-> nonzero bs = true.
Proof. unfold all_zero, nonzero. destruct (or_bytes bs =? 0); done. Qed.

Lemma validate_canonical_ok a : validate_canonical a = IDENTITY_OK <-> identity_ok a.
Proof.
  unfold validate_canonical. split.
  - destruct (Z.eqb_spec (wi_type a) DMESH_IDENTITY_TYPE) as [Ht|]; [|done]. cbn [negb].
    destruct (_ || _) eqn:E; [done|]. destruct (Z.eqb_spec (wi_version a) DMESH_IDENTITY_VERSION) as [Hv|]; [|done]. intros _.
    rewrite !orb_false_iff, !negb_false_iff in E.
    destruct E as [[[[[[[[[[[[[[E1 E2] E3] E4] E5] E6] E7] E8] E9] E10] E11] E12] E13] E14] E15].
    apply Z.eqb_eq in E1, E2. apply Z.eqb_neq in E5. apply not_zero in E3, E4.
    constructor; rewrite <-?dns_subdomain_holds, <-?pod_uid_holds, <-?ipv4_holds, <-?service_name_holds, <-?container_id_holds; done.
  - intros []. destruct ok_header0 as (-> & -> & -> & ->). cbn [Z.eqb negb orb DMESH_IDENTITY_TYPE].
    rewrite <-!not_zero in *. rewrite <-!dns_subdomain_holds in *. rewrite <-pod_uid_holds, <-ipv4_holds, <-service_name_holds, <-container_id_holds in *.
    rewrite (proj2 (Z.eqb_neq _ _) ok_generation0).
    rewrite ok_nonce0, ok_incarnation0, ok_cluster0, ok_uid0, ok_namespace0, ok_pod0, ok_account0, ok_container0, ok_container_id0, ok_node0, ok_service0, ok_ip0.
    reflexivity.
Qed.

Definition issued_at (a : dmesh_workload_identity) : Z := dmesh_wire_get_u64_le (wi_issued_at_le a).
Definition expires_at (a : dmesh_workload_identity) : Z := dmesh_wire_get_u64_le (wi_expires_at_le a).
Definition claims_of (a : dmesh_workload_identity) : dmesh_identity_claims :=
  Claims (workload_json (wi_namespace_name a) (wi_pod_name a)) (wi_pod_uid a) (wi_namespace_name a) (wi_service_account a)
    (wi_service_name a) (wi_pod_ip a) (wi_daemon_incarnation a)
    (dmesh_wire_get_u32_le (wi_channel_slot_le a)) (dmesh_wire_get_u64_le (wi_channel_generation_le a)).

Lemma identity_fits a : identity_ok a -> (length (workload_json (wi_namespace_name a) (wi_pod_name a)) < DMESH_WORKLOAD_MAX)%nat.
Proof.
  intros H. destruct (ok_namespace a H) as (_ & _ & Hn). destruct (ok_pod a H) as (_ & _ & Hp).
  unfold workload_json, DMESH_WORKLOAD_MAX. rewrite !length_app. change (length (txt "{")) with 1%nat.
  change (length (txt "ns")) with 2%nat. change (length (txt "pod")) with 3%nat. change (length (txt ":")) with 1%nat.
  change (length (txt ",")) with 1%nat. change (length (txt "}")) with 1%nat. cbn [length]. lia.
Qed.

(** Accepted: canonical, of this cluster and node, inside its time window,
    and for the challenge this connection was given. *)
Record identity_accepted (a : dmesh_workload_identity) (cluster node nonce : list byte) (now : Z) : Prop := {
  ia_ok : identity_ok a;
  ia_cluster : cstr (wi_cluster_id a) = cstr cluster;
  ia_node : cstr (wi_node_name a) = cstr node;
  ia_nonce : wi_nonce a = nonce;
  ia_issued : issued_at a <= now + DMESH_ASSERT_CLOCK_SKEW_SEC;
  ia_expires : now < expires_at a;
  ia_lifetime : issued_at a <= expires_at a <= issued_at a + DMESH_ASSERT_MAX_LIFETIME_SEC }.

Lemma decode_exact a cluster node nonce now c : 0 <= now < 2 ^ 64 - DMESH_ASSERT_CLOCK_SKEW_SEC ->
  dmesh_identity_decode a (Some cluster) (Some node) nonce now = (IDENTITY_OK, Some c) <->
  identity_accepted a cluster node nonce now /\ c = claims_of a.
Proof.
  intros Hnow. assert (DMESH_ASSERT_CLOCK_SKEW_SEC = 30) as Esk by done. unfold dmesh_identity_decode. fold (issued_at a) (expires_at a).
  pose proof (get_le_width (take 8 (wi_issued_at_le a))) as Hi. change (in_width 64 (issued_at a)) in Hi.
  pose proof (get_le_width (take 8 (wi_expires_at_le a))) as He. change (in_width 64 (expires_at a)) in He. unfold in_width in Hi, He.
  rewrite (wrap_small 64 (now + _)) by (unfold in_width; lia).
  destruct (validate_canonical a) eqn:Ev; try (split; [done|]; intros [[Hok _ _ _ _ _ _] _]; apply validate_canonical_ok in Hok; congruence).
  apply validate_canonical_ok in Ev. destruct (str_eq (wi_cluster_id a) cluster) eqn:Ec; cbn [negb orb].
  2:{ split; [done|]. intros [[_ H _ _ _ _ _] _]. apply str_eq_spec in H. congruence. }
  destruct (str_eq (wi_node_name a) node) eqn:En; cbn [negb orb].
  2:{ split; [done|]. intros [[_ _ H _ _ _ _] _]. apply str_eq_spec in H. congruence. }
  apply str_eq_spec in Ec, En. destruct (_ || _) eqn:Et.
  { split; [done|]. intros [[_ _ _ _ H1 H2 H3] _]. exfalso. revert Et. apply not_true_iff_false.
    rewrite !orb_false_iff, !Z.ltb_ge, Z.leb_gt. rewrite (wrap_small 64 (expires_at a - _)) by (unfold in_width; lia). lia. }
  rewrite !orb_false_iff, !Z.ltb_ge, Z.leb_gt in Et. destruct Et as [[[T1 T2] T3] T4]. rewrite wrap_small in T2 by (unfold in_width; lia).
  unfold bytes_eq. case_bool_decide as Enn; cbn [negb]; [|split; [done|by intros [[] _]]].
  rewrite (proj2 (Nat.leb_gt _ _) (identity_fits a Ev)). fold (claims_of a). split.
  - intros [= <-]. split; [|done]. constructor; done || lia.
  - by intros [_ ->].
Qed.

(** Whatever the clock says, an accepted identity is canonical and answers the
    challenge. *)
Lemma decode_accepts a cluster node nonce now c :
  dmesh_identity_decode a cluster node nonce now = (IDENTITY_OK, Some c) -> identity_ok a /\ c = claims_of a /\ wi_nonce a = nonce.
Proof.
  unfold dmesh_identity_decode. destruct (validate_canonical a) eqn:Ev; try done. apply validate_canonical_ok in Ev.
  destruct cluster as [cluster|]; [|done]. destruct node as [node|]; [|done]. destruct (negb _ || _); [done|].
  destruct (_ || _ || _ || _); [done|]. unfold bytes_eq. case_bool_decide; [|done]. cbn [negb]. destruct (_ <=? _)%nat; [done|].
  intros [= <-]. done.
Qed.

(** C23: an identity is accepted exactly when it is canonical, names this cluster
    and this node, answers this connection's challenge, is inside its window (at
    most 30 seconds of clock skew before, at most 300 seconds of lifetime) and not
    expired; the claims are then the fields of the record, and the workload text,
    which always fits its buffer, determines the namespace and the Pod name. *)
Theorem identity_decode_exact a cluster node nonce now (Hnow : 0 <= now < 2 ^ 64 - DMESH_ASSERT_CLOCK_SKEW_SEC) :
  (forall c, dmesh_identity_decode a (Some cluster) (Some node) nonce now = (IDENTITY_OK, Some c) <->
     identity_accepted a cluster node nonce now /\ c = claims_of a) /\
  (forall b, identity_ok a -> identity_ok b -> cl_workload (claims_of a) = cl_workload (claims_of b) ->
     cstr (wi_namespace_name a) = cstr (wi_namespace_name b) /\ cstr (wi_pod_name a) = cstr (wi_pod_name b)).
Proof.
  split; [intros c; by apply decode_exact|]. intros b Ha Hb. unfold claims_of, workload_json. cbn [cl_workload].
  assert (forall x, field_holds (name_upto 63) x \/ field_holds (name_upto 253) x -> x22 ∉ cstr x) as Hq.
  { intros x Hx. apply plain_free; [done|]. apply dns_name_plain. by destruct Hx as [(_ & H & _)|(_ & H & _)]. }
  rewrite !app_assoc. rewrite <-!app_assoc. intros H.
  do 6 apply app_inv_head in H. apply split_at_sep in H as [E H]; [|apply Hq; left; apply ok_namespace; done..].
  split; [done|]. do 6 apply app_inv_head in H.
  apply split_at_sep in H as [H _]; [done|apply Hq; right; apply ok_pod; done..].
Qed.

Definition field_text (n : nat) (s : list byte) : list byte := s ++ repeat x00 (n - length s).

Definition demo_identity : dmesh_workload_identity :=
  Identity 1 1 0 0 (dmesh_wire_put_u64_le 1000) (dmesh_wire_put_u64_le 1300) (repeat x01 32) (dmesh_wire_put_u32_le 7)
    (dmesh_wire_put_u64_le 3) (repeat x02 16) (field_text 64 (txt "prod")) (field_text 254 (txt "node-a"))
    (field_text 64 (txt "12345678-1234-1234-1234-123456789abc")) (field_text 64 (txt "shop")) (field_text 254 (txt "web-0"))
    (field_text 254 (txt "default")) (field_text 254 (txt "app")) (field_text 65 (repeat "a"%byte 64)) (field_text 64 (txt "web"))
    (field_text 16 (txt "10.244.1.17")).

Lemma identity_decode_exact_witness :
  identity_accepted demo_identity (txt "prod") (txt "node-a") (repeat x01 32) 1010 /\
  (forall b, identity_ok demo_identity -> identity_ok b -> cl_workload (claims_of demo_identity) = cl_workload (claims_of b) ->
     cstr (wi_namespace_name demo_identity) = cstr (wi_namespace_name b) /\ cstr (wi_pod_name demo_identity) = cstr (wi_pod_name b)).
Proof.
  destruct (identity_decode_exact demo_identity (txt "prod") (txt "node-a") (repeat x01 32) 1010 ltac:(vm_compute; done)) as [H1 H2].
  split; [|exact H2]. apply (H1 (claims_of demo_identity)). vm_compute. reflexivity.
Defined.

(** ** The seal *)

(** Every array of the record has its declared size, every scalar its width. *)
Definition identity_sized (a : dmesh_workload_identity) : Prop :=
  Forall (in_width 8) [wi_type a; wi_version a; wi_flags a; wi_reserved a] /\
  length <$> [wi_issued_at_le a; wi_expires_at_le a; wi_nonce a; wi_channel_slot_le a; wi_channel_generation_le a;
    wi_daemon_incarnation a; wi_cluster_id a; wi_node_name a; wi_pod_uid a; wi_namespace_name a; wi_pod_name a;
    wi_service_account a; wi_container_name a; wi_container_id a; wi_service_name a; wi_pod_ip a] =
  [8; 8; DMESH_REG_NONCE_SIZE; 4; 8; DMESH_DAEMON_INCARNATION_SIZE; DMESH_CLUSTER_ID_MAX; DMESH_K8S_NAME_MAX; DMESH_POD_UID_MAX;
   DMESH_K8S_NAMESPACE_MAX; DMESH_K8S_NAME_MAX; DMESH_K8S_NAME_MAX; DMESH_K8S_NAME_MAX; DMESH_CONTAINER_ID_MAX;
   DMESH_SVC_NAME_MAX; DMESH_POD_IP_MAX]%nat.
Definition assertion_sized (m : dmesh_registration_assertion_msg) : Prop :=
  in_width 8 (am_type m) /\ in_width 8 (am_version m) /\ length (am_reserved m) = 2%nat /\ identity_sized (am_identity m).

Lemma z2b_width a b : in_width 8 a -> in_width 8 b -> z2b a = z2b b -> a = b.
Proof.
  intros Ha Hb E%(f_equal b2z). rewrite !b2z_z2b, !Z.mod_small in E by (unfold in_width in *; lia). done.
Qed.

Lemma identity_image_inj a b : identity_sized a -> identity_sized b -> identity_image a = identity_image b -> a = b.
Proof.
  destruct a, b. intros [Ha La] [Hb Lb]. cbn in Ha, Hb, La, Lb. unfold identity_image. cbn -[z2b].
  rewrite !Forall_cons in Ha, Hb. destruct Ha as (? & ? & ? & ? & _), Hb as (? & ? & ? & ? & _).
  intros [= E1 E2 E3 E4 E]. apply z2b_width in E1, E2, E3, E4; [|done..]. subst.
  injection La as La1 La2 La3 La4 La5 La6 La7 La8 La9 La10 La11 La12 La13 La14 La15 La16.
  injection Lb as Lb1 Lb2 Lb3 Lb4 Lb5 Lb6 Lb7 Lb8 Lb9 Lb10 Lb11 Lb12 Lb13 Lb14 Lb15 Lb16.
  repeat match type of E with
  | _ ++ _ = _ ++ _ => apply app_inj_1 in E as [-> E]; [|congruence]
  end. by subst.
Qed.

(** The message without its seal. *)
Definition unsealed (m : dmesh_registration_assertion_msg) : dmesh_registration_assertion_msg := m <| am_mac := [] |>.

Lemma assertion_image_inj m m' : assertion_sized m -> assertion_sized m' -> assertion_image m = assertion_image m' -> unsealed m = unsealed m'.
Proof.
  destruct m, m'. intros (? & ? & L & Hi) (? & ? & L' & Hi') E. unfold assertion_image in E. cbn -[z2b identity_image] in *.
  injection E as E1 E2 E. apply z2b_width in E1, E2; [|done..]. apply app_inj_1 in E as [-> E]; [|congruence].
  apply identity_image_inj in E; [|done..]. by subst.
Qed.

Lemma verify_spec C session m : dmesh_registration_verify C session m = true <-> registration_mac C session m = Some (am_mac m).
Proof.
  unfold dmesh_registration_verify, bytes_eq. destruct (registration_mac C session m); [|done].
  rewrite bool_decide_eq_true. split; [by intros ->|by intros [= ->]].
Qed.

Lemma registration_mac_image C session m m' : assertion_image m = assertion_image m' -> registration_mac C session m = registration_mac C session m'.
Proof. intros E. unfold registration_mac. by rewrite E. Qed.

Definition hmac_collision (C : crypto) : Prop :=
  exists key x y d, x <> y /\ hmac_sha256 C key x = Some d /\ hmac_sha256 C key y = Some d.

Lemma hmac_sized_Some C n key x d : hmac_sized C n key x = Some d -> hmac_sha256 C key x = Some d.
Proof. unfold hmac_sized. intros (d' & H & E)%bind_Some. destruct (_ =? n)%nat; [|done]. congruence. Qed.

(** C24: a seal covers the whole message.  The seal the daemon writes verifies under
    the same session, and it verifies on nothing else: a message of the declared
    sizes that carries the same seal and verifies has the same type, version,
    reserved bytes and every field of the identity, or SHA-256 HMAC has a
    collision. *)
Theorem registration_seal_binds (C : crypto) session m m1 (Hseal : dmesh_registration_seal C session m = Some m1) :
  unsealed m1 = unsealed m /\ dmesh_registration_verify C session m1 = true /\
  forall m', assertion_sized m' -> assertion_sized m1 -> am_mac m' = am_mac m1 -> dmesh_registration_verify C session m' = true ->
    m' = m1 \/ hmac_collision C.
Proof.
  unfold dmesh_registration_seal in Hseal. apply bind_Some in Hseal as (mac & Hm & [= <-]).
  split; [done|]. split; [by apply verify_spec|]. intros m' S' S1 E Hv. apply verify_spec in Hv. rewrite E in Hv. cbn [am_mac] in Hv.
  destruct (decide (assertion_image m' = assertion_image (m <| am_mac := mac |>))) as [Ei|Hne].
  - left. apply assertion_image_inj in Ei; [|done..]. destruct m', m. cbn in *. injection Ei as -> -> -> ->. by subst.
  - right. unfold registration_mac in Hm, Hv. apply bind_Some in Hm as (key & Hk & Hm). rewrite Hk in Hv. cbn [mbind option_bind] in Hv.
    apply hmac_sized_Some in Hm, Hv. exists key, (assertion_image m'), (assertion_image m), mac. split; [exact Hne|]. split; done.
Qed.

(** A digest that is a function of its inputs, for the witness. *)
Definition toy_crypto : crypto :=
  Crypto (fun key x => Some (take 32 (reverse x ++ key ++ repeat x00 32))) (fun _ => true) true (fun k s m => bytes_eq s (take 64 (k ++ reverse m ++ repeat x00 64))).

Definition demo_assertion : dmesh_registration_assertion_msg := Assertion 9 1 [x00; x00] demo_identity (repeat x00 32).
Definition demo_sealed : dmesh_registration_assertion_msg :=
  default demo_assertion (dmesh_registration_seal toy_crypto (repeat x05 16) demo_assertion).

Lemma registration_seal_binds_witness : dmesh_registration_verify toy_crypto (repeat x05 16) demo_sealed = true.
Proof. apply (registration_seal_binds toy_crypto (repeat x05 16) demo_assertion demo_sealed). vm_compute. reflexivity. Defined.
