(* ===== verification/Topology.v ===== *)
(** * The topology generation ([doca/topology.c])

    One signed, versioned document carries what a DPU knows of the cluster:
    nodes, Pods, Services, their endpoints and which Services are protected.
    The parser fills freshly allocated tables; a refresh adopts them only when
    the document is signed, complete and newer than the tables held; lookups
    read the tables.

    A text field of a table entry is the list of its characters before the
    terminator.  Counts of the C structure are lengths of the lists.  [qsort]
    is [merge_sort] by the comparison of the source; elements that compare
    equal are refused as duplicates, or are identical. *)

From S2P Require Import Prelude Text Spans PeerIdentity WorkloadIdentity.

Definition DMESH_GEN_POD_MAX : nat := N.to_nat 65536.
Definition DMESH_GEN_NODE_MAX : nat := N.to_nat 1024.
Definition DMESH_GEN_SERVICE_MAX : nat := N.to_nat 4096.
Definition DMESH_GEN_ENDPOINT_MAX : nat := N.to_nat 65536.
Definition DMESH_TOPOLOGY_MAX_BYTES : Z := 16 * 1024 * 1024.
Definition DMESH_TOPOLOGY_INTERN_MAX : nat := 128.
Definition TOPOLOGY_CHECK_INTERVAL_NS : Z := 1000000000.
Definition TOPOLOGY_STAMP_SETTLE_SEC : Z := 2.
(** [sizeof] of a Service key field. *)
Definition SERVICE_KEY_SIZE : nat := DMESH_K8S_NAMESPACE_MAX + DMESH_SVC_NAME_MAX.

Inductive dmesh_topology_result :=
  | TOPOLOGY_UNCHANGED | TOPOLOGY_SAME_VERSION | TOPOLOGY_ADOPTED | TOPOLOGY_UNREADABLE | TOPOLOGY_MALFORMED
  | TOPOLOGY_ROLLBACK | TOPOLOGY_OVERFLOW | TOPOLOGY_UNSIGNED | TOPOLOGY_BAD_KEY_ID | TOPOLOGY_BAD_SIG.
#[export] Instance topology_result_dec : EqDecision dmesh_topology_result.
Proof. solve_decision. Defined.

Definition dmesh_topology_result_name (r : dmesh_topology_result) : list byte :=
  match r with
  | TOPOLOGY_UNCHANGED => txt "unchanged"
  | TOPOLOGY_SAME_VERSION => txt "unchanged"
  | TOPOLOGY_ADOPTED => txt "adopted"
  | TOPOLOGY_UNREADABLE => txt "unreadable"
  | TOPOLOGY_MALFORMED => txt "malformed"
  | TOPOLOGY_ROLLBACK => txt "rollback"
  | TOPOLOGY_OVERFLOW => txt "overflow"
  | TOPOLOGY_UNSIGNED => txt "unsigned"
  | TOPOLOGY_BAD_KEY_ID => txt "bad-key-id"
  | TOPOLOGY_BAD_SIG => txt "bad-sig"
  end.

(** ** The tables *)

Record dmesh_gen_node := GenNode {
  gn_name : list byte; gn_rdma_ip_be : Z; gn_rdma_port : Z; gn_dpu_static_public_key : list byte }.
Record dmesh_gen_service := GenService {
  gs_key : list byte; gs_cluster_ip_be : Z; gs_port : Z; gs_is_protected : bool; gs_interned : Z;
  gs_endpoint_first : nat; gs_endpoint_count : nat }.
#[export] Instance eta_gen_service : Eta dmesh_gen_service := fun s =>
  GenService (gs_key s) (gs_cluster_ip_be s) (gs_port s) (gs_is_protected s) (gs_interned s)
    (gs_endpoint_first s) (gs_endpoint_count s).
Record dmesh_gen_pod := GenPod {
  gp_uid : list byte; gp_node_name : list byte; gp_namespace_name : list byte; gp_service_account : list byte;
  gp_ip_be : Z }.
Record dmesh_gen_endpoint := GenEndpoint { ge_service : nat; ge_pod : nat }.
Record dmesh_topology_tables := Tables {
  tt_version : Z; tt_nodes : list dmesh_gen_node; tt_services : list dmesh_gen_service;
  tt_pods : list dmesh_gen_pod; tt_endpoints : list dmesh_gen_endpoint }.
#[export] Instance eta_tables : Eta dmesh_topology_tables := fun t =>
  Tables (tt_version t) (tt_nodes t) (tt_services t) (tt_pods t) (tt_endpoints t).
Record dmesh_topology_intern := Intern { in_key : list byte; in_in_use : bool }.

(** [compare_endpoint]: by Service, then by Pod. *)
Definition compare_endpoint (x y : dmesh_gen_endpoint) : Z :=
  if negb (ge_service x =? ge_service y)%nat then (if (ge_service x <? ge_service y)%nat then -1 else 1)
  else if (ge_pod x <? ge_pod y)%nat then -1 else if (ge_pod y <? ge_pod x)%nat then 1 else 0.
Definition endpoint_le (x y : dmesh_gen_endpoint) : Prop := compare_endpoint x y <= 0.
#[export] Instance endpoint_le_dec : RelDecision endpoint_le.
Proof. intros x y. unfold endpoint_le. apply _. Defined.

(** ** Stable ids of Services *)

Definition index_of {A} (p : A -> bool) (l : list A) : option nat := fst <$> list_find (fun a => p a = true) l.

(** The first loop: an id in use keeps its Service, or is freed. *)
Fixpoint keep_ids (id : nat) (interned : list dmesh_topology_intern) (services : list dmesh_gen_service)
    : list dmesh_topology_intern * list dmesh_gen_service :=
  match interned with
  | [] => ([], services)
  | slot :: rest =>
      if negb (in_in_use slot) then let (r, s) := keep_ids (S id) rest services in (slot :: r, s)
      else
        match index_of (fun s => str_eq (gs_key s) (in_key slot)) services with
        | Some i =>
            let (r, s) := keep_ids (S id) rest (alter (fun s => s <| gs_interned := Z.of_nat id |>) i services) in (slot :: r, s)
        | None => let (r, s) := keep_ids (S id) rest services in (Intern [] false :: r, s)
        end
  end.

(** The second loop: a Service without an id takes the lowest free one. *)
Fixpoint give_ids (interned : list dmesh_topology_intern) (services : list dmesh_gen_service)
    : list dmesh_topology_intern * list dmesh_gen_service :=
  match services with
  | [] => (interned, [])
  | s :: rest =>
      if 0 <=? gs_interned s then let (r, ss) := give_ids interned rest in (r, s :: ss)
      else
        match index_of (fun slot => negb (in_in_use slot)) interned with
        | Some id =>
            let (r, ss) := give_ids (<[id := Intern (take (SERVICE_KEY_SIZE - 1) (gs_key s)) true]> interned) rest in
            (r, s <| gs_interned := Z.of_nat id |> :: ss)
        | None => let (r, ss) := give_ids interned rest in (r, s :: ss)
        end
  end.

Definition intern_services (interned : list dmesh_topology_intern) (services : list dmesh_gen_service)
    : list dmesh_topology_intern * list dmesh_gen_service :=
  let (interned, services) := keep_ids 0 interned services in give_ids interned services.

(** ** Pass 1: the lines and how many records of each kind they hold *)

(** The terminated lines; [None] when text follows the last newline. *)
Definition document_lines (document : list byte) : option (list (list byte)) :=
  match reverse (split_on NL document) with
  | [] :: lines => Some (reverse lines)
  | _ => None
  end.

Record record_counts := Counts {
  have_version : bool; node_seen : nat; pod_seen : nat; service_seen : nat; endpoint_seen : nat; protected_seen : nat }.
#[export] Instance eta_counts : Eta record_counts := fun c =>
  Counts (have_version c) (node_seen c) (pod_seen c) (service_seen c) (endpoint_seen c) (protected_seen c).

Definition K_VERSION : list byte := txt "version=".
Definition K_NODE : list byte := txt "node=".
Definition K_POD : list byte := txt "pod=".
Definition K_SERVICE : list byte := txt "service=".
Definition K_ENDPOINT : list byte := txt "endpoint=".
Definition K_PROTECTED : list byte := txt "protected=".

(** [len > n && memcmp(line, keyword, n) == 0] *)
Definition line_is (keyword line : list byte) : bool := (length keyword <? length line)%nat && starts keyword line.

Definition count_line (c : record_counts) (line : list byte) : option record_counts :=
  match line with
  | [] => None
  | b :: _ =>
      if char_eq b "#" then (if have_version c then None else Some c)
      else if negb (have_version c) then
        if line_is K_VERSION line then Some (c <| have_version := true |>) else None
      else if line_is K_NODE line then Some (c <| node_seen ::= S |>)
      else if line_is K_POD line then Some (c <| pod_seen ::= S |>)
      else if line_is K_SERVICE line then Some (c <| service_seen ::= S |>)
      else if line_is K_ENDPOINT line then Some (c <| endpoint_seen ::= S |>)
      else if line_is K_PROTECTED line then Some (c <| protected_seen ::= S |>)
      else None
  end.

Fixpoint count_lines (c : record_counts) (lines : list (list byte)) : option record_counts :=
  match lines with
  | [] => Some c
  | l :: ls => c' ← count_line c l; count_lines c' ls
  end.

(** ** Pass 2: every field *)

Record parse_state := ParseState {
  pz_version : option Z; pz_nodes : list dmesh_gen_node; pz_pods : list dmesh_gen_pod;
  pz_services : list dmesh_gen_service; pz_endpoint_lines : list (list byte); pz_protected_lines : list (list byte) }.
#[export] Instance eta_parse_state : Eta parse_state := fun p =>
  ParseState (pz_version p) (pz_nodes p) (pz_pods p) (pz_services p) (pz_endpoint_lines p) (pz_protected_lines p).

(** What follows the first ['=']; every line pass 1 admits has one. *)
Definition line_body (line : list byte) : option (list byte) := (fun i => drop (S i) line) <$> memchr line "=".

Definition require (b : bool) : option unit := if b then Some tt else None.

(** ["ip:port"] *)
Definition parse_address (s : list byte) : option (Z * Z) :=
  colon ← memchr s ":";
  ip ← span_ipv4 (take colon s);
  port ← span_port (drop (S colon) s);
  Some (ip, port).

Definition parse_node (body : list byte) : option dmesh_gen_node :=
  f ← split_fields body 8;
  match f with
  | [f0; f1; f2] =>
      require (span_dns_subdomain f0 253);;
      name ← span_copy DMESH_K8S_NAME_MAX f0;
      '(ip, port) ← parse_address f1;
      key ← span_hex_bytes f2 32;
      Some (GenNode name ip port key)
  | _ => None
  end.

Definition parse_pod (body : list byte) : option dmesh_gen_pod :=
  f ← split_fields body 8;
  match f with
  | [f0; f1; f2; f3; f4] =>
      require (span_pod_uid f0);;
      uid ← span_copy DMESH_POD_UID_MAX f0;
      require (span_dns_subdomain f1 253);;
      node ← span_copy DMESH_K8S_NAME_MAX f1;
      require (span_dns_label f2 63);;
      ns ← span_copy DMESH_K8S_NAMESPACE_MAX f2;
      require (span_dns_subdomain f3 253);;
      sa ← span_copy DMESH_K8S_NAME_MAX f3;
      ip ← span_ipv4 f4;
      Some (GenPod uid node ns sa ip)
  | _ => None
  end.

Definition parse_service (body : list byte) : option dmesh_gen_service :=
  f ← split_fields body 8;
  match f with
  | [f0; f1] =>
      key ← span_service_key SERVICE_KEY_SIZE f0;
      '(ip, port) ← parse_address f1;
      Some (GenService key ip port false (-1) 0 0)
  | _ => None
  end.

Definition parse_line (p : parse_state) (line : list byte) : option parse_state :=
  match head line with
  | None => None
  | Some b =>
      if char_eq b "#" then Some p
      else
        body ← line_body line;
        match pz_version p with
        | None => v ← span_u64 body; if v =? 0 then None else Some (p <| pz_version := Some v |>)
        | Some _ =>
            if starts K_NODE line then n ← parse_node body; Some (p <| pz_nodes ::= fun l => l ++ [n] |>)
            else if starts K_POD line then x ← parse_pod body; Some (p <| pz_pods ::= fun l => l ++ [x] |>)
            else if starts K_SERVICE line then s ← parse_service body; Some (p <| pz_services ::= fun l => l ++ [s] |>)
            else if starts K_ENDPOINT line then Some (p <| pz_endpoint_lines ::= fun l => l ++ [body] |>)
            else Some (p <| pz_protected_lines ::= fun l => l ++ [body] |>)
        end
  end.

Fixpoint parse_lines (p : parse_state) (lines : list (list byte)) : option parse_state :=
  match lines with
  | [] => Some p
  | l :: ls => p' ← parse_line p l; parse_lines p' ls
  end.

(** ** Resolution against the sorted tables *)

Definition find_pod (pods : list dmesh_gen_pod) (uid : list byte) : option nat :=
  bsearch (fun p => strcmp uid (gp_uid p)) pods.
Definition find_service (services : list dmesh_gen_service) (key : list byte) : option nat :=
  bsearch (fun s => strcmp key (gs_key s)) services.

Definition parse_endpoint (services : list dmesh_gen_service) (pods : list dmesh_gen_pod) (line : list byte)
    : option dmesh_gen_endpoint :=
  f ← split_fields line 4;
  match f with
  | [f0; f1] =>
      key ← span_service_key SERVICE_KEY_SIZE f0;
      require (span_pod_uid f1);;
      uid ← span_copy DMESH_POD_UID_MAX f1;
      service ← find_service services key;
      pod ← find_pod pods uid;
      Some (GenEndpoint service pod)
  | _ => None
  end.

(** How many endpoints from the front belong to the Service [s]. *)
Fixpoint run_length (s : nat) (endpoints : list dmesh_gen_endpoint) : nat :=
  match endpoints with
  | e :: es => if (ge_service e =? s)%nat then S (run_length s es) else O
  | [] => O
  end.

(** [s] and [e] are the loop's counters; [rest] the endpoints from [e] on. *)
Fixpoint group_endpoints (s e : nat) (services : list dmesh_gen_service) (rest : list dmesh_gen_endpoint)
    : list dmesh_gen_service :=
  match services with
  | [] => []
  | x :: xs =>
      let n := run_length s rest in
      x <| gs_endpoint_first := e |> <| gs_endpoint_count := n |> ::
        group_endpoints (S s) (e + n) xs (drop n rest)
  end.

Definition protect (services : list dmesh_gen_service) (line : list byte) : option (list dmesh_gen_service) :=
  key ← span_service_key SERVICE_KEY_SIZE line;
  i ← find_service services key;
  Some (alter (fun s => s <| gs_is_protected := true |>) i services).

Fixpoint protect_all (services : list dmesh_gen_service) (lines : list (list byte)) : option (list dmesh_gen_service) :=
  match lines with
  | [] => Some services
  | l :: ls => services' ← protect services l; protect_all services' ls
  end.

(** After pass 2: sort, refuse duplicates, resolve, group. *)
Definition resolve (p : parse_state) : option dmesh_topology_tables :=
  let pods := merge_sort (by_key gp_uid) (pz_pods p) in
  require (negb (adjacent_equal gp_uid pods));;
  let services := merge_sort (by_key gs_key) (pz_services p) in
  require (negb (adjacent_equal gs_key services));;
  endpoints ← mapM (parse_endpoint services pods) (pz_endpoint_lines p);
  let endpoints := merge_sort endpoint_le endpoints in
  let services := group_endpoints 0 0 services endpoints in
  services ← protect_all services (pz_protected_lines p);
  version ← pz_version p;
  Some (Tables version (pz_nodes p) services pods endpoints).

Definition over_bound (c : record_counts) : bool :=
  (DMESH_GEN_NODE_MAX <? node_seen c)%nat || (DMESH_GEN_POD_MAX <? pod_seen c)%nat ||
  (DMESH_GEN_SERVICE_MAX <? service_seen c)%nat || (DMESH_GEN_ENDPOINT_MAX <? endpoint_seen c)%nat.

Definition no_counts : record_counts := Counts false 0 0 0 0 0.
Definition no_records : parse_state := ParseState None [] [] [] [] [].

(** [alloc] tells whether the allocations between the passes succeed. *)
Definition dmesh_topology_parse (alloc : bool) (document : list byte) (interned : option (list dmesh_topology_intern))
    : dmesh_topology_result * option (dmesh_topology_tables * option (list dmesh_topology_intern)) :=
  match document_lines document with
  | None => (TOPOLOGY_MALFORMED, None)
  | Some lines =>
      match count_lines no_counts lines with
      | None => (TOPOLOGY_MALFORMED, None)
      | Some c =>
          if negb (have_version c) then (TOPOLOGY_MALFORMED, None)
          else if over_bound c then (TOPOLOGY_OVERFLOW, None)
          else if negb alloc then (TOPOLOGY_UNREADABLE, None)
          else
            match parse_lines no_records lines ≫= resolve with
            | None => (TOPOLOGY_MALFORMED, None)
            | Some t =>
                match interned with
                | None => (TOPOLOGY_ADOPTED, Some (t, None))
                | Some slots =>
                    let (slots, services) := intern_services slots (tt_services t) in
                    (TOPOLOGY_ADOPTED, Some (t <| tt_services := services |>, Some slots))
                end
            end
      end
  end.

(** ** The consumer *)

Record dmesh_topology := Topology {
  tp_path : list byte; tp_key_dir : list byte; tp_enabled : bool;
  tp_tables : option dmesh_topology_tables; tp_retired : option dmesh_topology_tables;
  tp_interned : list dmesh_topology_intern;
  tp_stamp_ino : Z; tp_stamp_sec : Z; tp_stamp_nsec : Z; tp_stamp_size : Z;
  tp_rejected : Z; tp_next_check_ns : Z }.
#[export] Instance eta_topology : Eta dmesh_topology := fun t =>
  Topology (tp_path t) (tp_key_dir t) (tp_enabled t) (tp_tables t) (tp_retired t) (tp_interned t)
    (tp_stamp_ino t) (tp_stamp_sec t) (tp_stamp_nsec t) (tp_stamp_size t) (tp_rejected t) (tp_next_check_ns t).

Definition topology_zero : dmesh_topology :=
  Topology [] [] false None None (repeat (Intern [] false) DMESH_TOPOLOGY_INTERN_MAX) 0 0 0 0 0 0.

Definition DMESH_CONTROLLER_KEYS_MAX : nat := 4.

Definition is_key_file (name : list byte) : bool :=
  (4 <? length name)%nat && bytes_eq (drop (length name - 4) name) (txt ".key").

(** The environment's two values, and the key directory: whether its owner and
    mode are right, and its entries; [None] when it does not open. *)
Definition dmesh_topology_configure (path key_dir : option (list byte)) (directory : list byte -> option (bool * list (list byte)))
    : bool * dmesh_topology :=
  match path with
  | None | Some [] => (true, topology_zero)
  | Some path =>
      if (PATH_SIZE <=? length path)%nat then (false, topology_zero)
      else
        match key_dir with
        | None | Some [] => (false, topology_zero)
        | Some dir =>
            if (PATH_SIZE <=? length dir + DMESH_KEY_ID_MAX + 8)%nat then (false, topology_zero)
            else
              match directory dir with
              | None => (false, topology_zero)
              | Some (dir_ok, names) =>
                  let keys := length (filter (fun n => is_key_file n = true) names) in
                  if negb dir_ok then (false, topology_zero)
                  else if (keys =? 0)%nat || (DMESH_CONTROLLER_KEYS_MAX <? keys)%nat then (false, topology_zero)
                  else (true, topology_zero <| tp_path := path |> <| tp_key_dir := dir |> <| tp_enabled := true |>)
              end
        end
  end.

(** [stat] on the document. *)
Record document_stat := DocumentStat {
  ds_regular : bool; ds_size : Z; ds_ino : Z; ds_sec : Z; ds_nsec : Z }.

(** What the system calls of one refresh return, in their order. *)
Record refresh_io := RefreshIo {
  io_stat : option document_stat; io_wall_sec : option Z; io_open : bool; io_malloc : bool;
  io_read : option (list byte); io_alloc : bool }.

Definition stamped (t : dmesh_topology) (st : document_stat) : bool :=
  (ds_ino st =? tp_stamp_ino t) && (ds_sec st =? tp_stamp_sec t) && (ds_nsec st =? tp_stamp_nsec t) &&
  (u64 (ds_size st) =? tp_stamp_size t).

Definition settled (wall : option Z) (st : document_stat) : bool :=
  match wall with Some sec => TOPOLOGY_STAMP_SETTLE_SEC <? sec - ds_sec st | None => false end.

Definition held_version (t : dmesh_topology) : Z :=
  match tp_tables t with Some tables => tt_version tables | None => 0 end.

Definition stamp (t : dmesh_topology) (st : document_stat) : dmesh_topology :=
  t <| tp_stamp_ino := u64 (ds_ino st) |> <| tp_stamp_sec := ds_sec st |> <| tp_stamp_nsec := ds_nsec st |>
    <| tp_stamp_size := u64 (ds_size st) |>.

(** From the parsed document on: rollback, same version or adoption. *)
Definition topology_adopt (t : dmesh_topology) (st : document_stat) (staged : dmesh_topology_tables)
    (staged_interned : list dmesh_topology_intern) : dmesh_topology_result * dmesh_topology :=
  if tt_version staged <? held_version t then (TOPOLOGY_ROLLBACK, t)
  else
    let t' := stamp t st in
    if bool_decide (tp_tables t <> None) && (tt_version staged =? held_version t) then (TOPOLOGY_SAME_VERSION, t')
    else (TOPOLOGY_ADOPTED,
          t' <| tp_retired := tp_tables t |> <| tp_interned := staged_interned |> <| tp_tables := Some staged |>).

Definition dmesh_topology_refresh (C : crypto) (S : file_system) (io : refresh_io) (t : dmesh_topology)
    : dmesh_topology_result * dmesh_topology :=
  if negb (tp_enabled t) then (TOPOLOGY_UNCHANGED, t)
  else
    match io_stat io with
    | None => (TOPOLOGY_UNREADABLE, t)
    | Some st =>
        if negb (ds_regular st) then (TOPOLOGY_UNREADABLE, t)
        else if DMESH_TOPOLOGY_MAX_BYTES <? u64 (ds_size st) then (TOPOLOGY_OVERFLOW, t)
        else if settled (io_wall_sec io) st && stamped t st then (TOPOLOGY_UNCHANGED, t)
        else if negb (io_open io) || negb (io_malloc io) then (TOPOLOGY_UNREADABLE, t)
        else
          match io_read io with
          | None => (TOPOLOGY_UNREADABLE, t)
          | Some bytes =>
              let document := take (Z.to_nat (ds_size st)) bytes in
              match dmesh_gen_verify C S document (tp_key_dir t) with
              | (FEED_OK, Some signed_length) =>
                  match dmesh_topology_parse (io_alloc io) (take signed_length document) (Some (tp_interned t)) with
                  | (TOPOLOGY_ADOPTED, Some (staged, Some staged_interned)) => topology_adopt t st staged staged_interned
                  | (r, _) => (r, t)
                  end
              | (FEED_BAD_KEY_ID, _) => (TOPOLOGY_BAD_KEY_ID, t)
              | (FEED_BAD_MAC, _) => (TOPOLOGY_BAD_SIG, t)
              | _ => (TOPOLOGY_UNSIGNED, t)
              end
          end
    end.

(** What a poll does besides changing the consumer. *)
Inductive topology_effect :=
  | CountEvent (reason : list byte) | ProtectionRefresh | ScopeRefresh | PeerGenerationChanged.

Definition dmesh_topology_progress (C : crypto) (S : file_system) (now_ns : option Z) (io : refresh_io) (t : dmesh_topology)
    : bool * list topology_effect * dmesh_topology :=
  if negb (tp_enabled t) then (false, [], t)
  else
    match now_ns with
    | None => (false, [], t)
    | Some now =>
        if now <? tp_next_check_ns t then (false, [], t)
        else
          let t := t <| tp_next_check_ns := u64 (now + TOPOLOGY_CHECK_INTERVAL_NS) |> in
          let (result, t) := dmesh_topology_refresh C S io t in
          match result with
          | TOPOLOGY_UNCHANGED => (false, [], t)
          | TOPOLOGY_SAME_VERSION => (false, [CountEvent (txt "unchanged")], t)
          | TOPOLOGY_ADOPTED =>
              (true, [ProtectionRefresh; ScopeRefresh; PeerGenerationChanged; CountEvent (txt "adopted")], t)
          | r => (false, [CountEvent (dmesh_topology_result_name r)], t <| tp_rejected ::= fun n => u64 (n + 1) |>)
          end
    end.

(** ** Lookups *)

Definition dmesh_topology_pod (t : dmesh_topology) (pod_uid : option (list byte)) : option dmesh_gen_pod :=
  tables ← tp_tables t;
  uid ← pod_uid;
  if (DMESH_POD_UID_MAX <=? length (cstr uid))%nat then None
  else i ← find_pod (tt_pods tables) (cstr uid); tt_pods tables !! i.

Definition dmesh_topology_service (t : dmesh_topology) (key : option (list byte)) : option dmesh_gen_service :=
  tables ← tp_tables t;
  key ← key;
  if (SERVICE_KEY_SIZE <=? length (cstr key))%nat then None
  else i ← find_service (tt_services tables) (cstr key); tt_services tables !! i.

Definition dmesh_topology_interned_id (t : dmesh_topology) (key : option (list byte)) : Z :=
  match dmesh_topology_service t key with Some s => gs_interned s | None => -1 end.

Record dmesh_endpoint_ref := EndpointRef { er_pod_uid : list byte; er_node_name : list byte; er_ip_be : Z }.
Definition endpoint_ref (p : dmesh_gen_pod) : dmesh_endpoint_ref := EndpointRef (gp_uid p) (gp_node_name p) (gp_ip_be p).

(** The first Service with an id. *)
Definition service_interned_as (tables : dmesh_topology_tables) (svc : Z) : option dmesh_gen_service :=
  snd <$> list_find (fun s => gs_interned s = svc) (tt_services tables).

(** The Pods of the endpoints [endpoint_first .. endpoint_first + endpoint_count - 1]. *)
Definition endpoint_pods (tables : dmesh_topology_tables) (s : dmesh_gen_service) : list dmesh_gen_pod :=
  omap (fun e => ep ← tt_endpoints tables !! (gs_endpoint_first s + e)%nat; tt_pods tables !! ge_pod ep)
    (seq 0 (gs_endpoint_count s)).

(** [node_name != NULL && strcmp(pod->node_name, node_name) == 0] *)
Definition local_to (node_name : option (list byte)) (p : dmesh_gen_pod) : bool :=
  match node_name with Some n => str_eq (gp_node_name p) n | None => false end.

Fixpoint collect_remote (node_name : option (list byte)) (pods : list dmesh_gen_pod) (room : nat) : list dmesh_endpoint_ref :=
  match pods, room with
  | p :: ps, S room' =>
      if local_to node_name p then collect_remote node_name ps room
      else endpoint_ref p :: collect_remote node_name ps room'
  | _, _ => []
  end.

Definition dmesh_topology_remote_endpoints (t : dmesh_topology) (svc : Z) (node_name : option (list byte)) (max : nat)
    : list dmesh_endpoint_ref :=
  match tp_tables t with
  | None => []
  | Some tables =>
      if (svc <? 0) || (max =? 0)%nat then []
      else match service_interned_as tables svc with
           | Some s => collect_remote node_name (endpoint_pods tables s) max
           | None => []
           end
  end.

(** The first loop: the Pod asked for, or how many remote ones there are. *)
Fixpoint match_remote (node_name pod_uid : option (list byte)) (pods : list dmesh_gen_pod) (remote_count : Z)
    : dmesh_gen_pod + Z :=
  match pods with
  | [] => inr remote_count
  | p :: ps =>
      if local_to node_name p then match_remote node_name pod_uid ps remote_count
      else if match pod_uid with Some u => str_eq (gp_uid p) u | None => false end then inl p
      else match_remote node_name pod_uid ps (u32 (remote_count + 1))
  end.

(** The second loop: the one [selected] counts down to. *)
Fixpoint select_remote (node_name : option (list byte)) (pods : list dmesh_gen_pod) (selected : Z) : option dmesh_gen_pod :=
  match pods with
  | [] => None
  | p :: ps =>
      if local_to node_name p then select_remote node_name ps selected
      else if selected =? 0 then Some p else select_remote node_name ps (u32 (selected - 1))
  end.

Definition dmesh_topology_remote_endpoint (t : dmesh_topology) (svc : Z) (node_name pod_uid : option (list byte)) (ordinal : Z)
    : option dmesh_endpoint_ref :=
  match tp_tables t with
  | None => None
  | Some tables =>
      if svc <? 0 then None
      else
        s ← service_interned_as tables svc;
        match match_remote node_name pod_uid (endpoint_pods tables s) 0 with
        | inl p => Some (endpoint_ref p)
        | inr remote_count =>
            if bool_decide (pod_uid <> None) || (remote_count =? 0) then None
            else endpoint_ref <$> select_remote node_name (endpoint_pods tables s) (u32 (ordinal mod remote_count))
        end
  end.

Definition dmesh_topology_service_protection (t : dmesh_topology) (svc : Z) : Z :=
  match tp_tables t with
  | None => -1
  | Some tables =>
      if svc <? 0 then -1
      else match service_interned_as tables svc with
           | Some s => if gs_is_protected s then 1 else 0
           | None => -1
           end
  end.

Definition dmesh_topology_service_port (t : dmesh_topology) (svc : Z) : Z :=
  match tp_tables t with
  | None => 0
  | Some tables =>
      if svc <? 0 then 0
      else match service_interned_as tables svc with Some s => gs_port s | None => 0 end
  end.

Definition dmesh_topology_pod_on_node (t : dmesh_topology) (pod_uid node_name : option (list byte)) : bool :=
  match dmesh_topology_pod t pod_uid, node_name with
  | Some p, Some n => str_eq (gp_node_name p) n
  | _, _ => false
  end.

Definition dmesh_topology_pod_in_service (t : dmesh_topology) (pod_uid service_key : option (list byte)) : bool :=
  match tp_tables t, pod_uid, service_key with
  | Some tables, Some uid, Some key =>
      match index_of (fun p => str_eq (gp_uid p) uid) (tt_pods tables) with
      | None => false
      | Some pod_index =>
          match snd <$> list_find (fun s => str_eq (gs_key s) key = true) (tt_services tables) with
          | None => false
          | Some s =>
              existsb (fun e => match tt_endpoints tables !! (gs_endpoint_first s + e)%nat with
                                | Some ep => (ge_pod ep =? pod_index)%nat
                                | None => false
                                end) (seq 0 (gs_endpoint_count s))
          end
      end
  | _, _, _ => false
  end.

Definition ZERO_KEY : list byte := repeat x00 32.

(** The loop over the nodes: a second node with the key answers none. *)
Fixpoint node_with_key (static_key : list byte) (found : option dmesh_gen_node) (nodes : list dmesh_gen_node)
    : option dmesh_gen_node :=
  match nodes with
  | [] => found
  | n :: ns =>
      if negb (bytes_eq (gn_dpu_static_public_key n) static_key) then node_with_key static_key found ns
      else match found with Some _ => None | None => node_with_key static_key (Some n) ns end
  end.

Definition dmesh_topology_node_by_key (t : dmesh_topology) (static_key : option (list byte)) : option (list byte) :=
  tables ← tp_tables t;
  key ← static_key;
  if bytes_eq key ZERO_KEY then None
  else n ← node_with_key key None (tt_nodes tables); Some (take (DMESH_K8S_NAME_MAX - 1) (gn_name n)).

Definition dmesh_topology_node_peer (t : dmesh_topology) (node_name : option (list byte)) : option (list byte * Z * Z) :=
  tables ← tp_tables t;
  name ← node_name;
  n ← snd <$> list_find (fun n => str_eq (gn_name n) name = true) (tt_nodes tables);
  if bytes_eq (gn_dpu_static_public_key n) ZERO_KEY then None
  else Some (gn_dpu_static_public_key n, gn_rdma_ip_be n, gn_rdma_port n).
