(* ===== verification/TopologyGrammar.v ===== *)
(** * The grammar of a topology document

    The records a document states, their spelling, and that the parser of
    [Topology] reads a line as a record exactly when the line is the spelling
    of a well-formed record. *)

From S2P Require Import Prelude Text Spans PeerIdentity WorkloadIdentity Topology.

(** ** Records *)

Definition port_ok (port : Z) : Prop := 1 <= port <= 65535.

Definition node_ok (n : dmesh_gen_node) : Prop :=
  dns_name (gn_name n) /\ (length (gn_name n) <= 253)%nat /\ in_width 32 (gn_rdma_ip_be n) /\ port_ok (gn_rdma_port n) /\
  length (gn_dpu_static_public_key n) = 32%nat.
Definition pod_ok (p : dmesh_gen_pod) : Prop :=
  pod_uid (gp_uid p) /\ (dns_name (gp_node_name p) /\ (length (gp_node_name p) <= 253)%nat) /\
  (dns_label (gp_namespace_name p) /\ (length (gp_namespace_name p) <= 63)%nat) /\
  (dns_name (gp_service_account p) /\ (length (gp_service_account p) <= 253)%nat) /\ in_width 32 (gp_ip_be p).
(** A Service as its line states it. *)
Definition fresh_service (key : list byte) (ip port : Z) : dmesh_gen_service := GenService key ip port false (-1) 0 0.

Inductive gen_record :=
  | RNode (n : dmesh_gen_node)
  | RPod (p : dmesh_gen_pod)
  | RService (key : list byte) (ip port : Z)
  | REndpoint (key uid : list byte)
  | RProtected (key : list byte).

Definition record_ok (r : gen_record) : Prop :=
  match r with
  | RNode n => node_ok n
  | RPod p => pod_ok p
  | RService key ip port => service_key key /\ in_width 32 ip /\ port_ok port
  | REndpoint key uid => service_key key /\ pod_uid uid
  | RProtected key => service_key key
  end.

Definition show_address (ip port : Z) : list byte := show_ipv4 ip ++ ":"%byte :: show port.
Definition show_node (n : dmesh_gen_node) : list byte :=
  join_with "," [gn_name n; show_address (gn_rdma_ip_be n) (gn_rdma_port n); show_hex (gn_dpu_static_public_key n)].
Definition show_pod (p : dmesh_gen_pod) : list byte :=
  join_with "," [gp_uid p; gp_node_name p; gp_namespace_name p; gp_service_account p; show_ipv4 (gp_ip_be p)].
Definition show_service (key : list byte) (ip port : Z) : list byte := join_with "," [key; show_address ip port].
Definition show_endpoint (key uid : list byte) : list byte := join_with "," [key; uid].

Definition show_record (r : gen_record) : list byte :=
  match r with
  | RNode n => K_NODE ++ show_node n
  | RPod p => K_POD ++ show_pod p
  | RService key ip port => K_SERVICE ++ show_service key ip port
  | REndpoint key uid => K_ENDPOINT ++ show_endpoint key uid
  | RProtected key => K_PROTECTED ++ key
  end.

(** A document: comments, its version, records; every line terminated. *)
Definition unlines (ls : list (list byte)) : list byte := ls ≫= fun l => l ++ [NL].
Definition comment_ok (l : list byte) : Prop := head l = Some "#"%byte /\ NL ∉ l.
Definition show_document (comments : list (list byte)) (version : Z) (records : list gen_record) : list byte :=
  unlines (comments ++ (K_VERSION ++ show version) :: (show_record <$> records)).

(** ** Lines *)

Lemma unlines_cons l ls : unlines (l :: ls) = l ++ NL :: unlines ls.
Proof. unfold unlines. cbn. by rewrite <-app_assoc. Qed.

Lemma split_unlines ls : Forall (fun l => NL ∉ l) ls -> split_on NL (unlines ls) = ls ++ [[]].
Proof.
  induction 1 as [|l ls Hl _ IH]; [done|]. rewrite unlines_cons, split_on_app by done. by rewrite IH.
Qed.

Lemma join_unlines ls : join_with NL (ls ++ [[]]) = unlines ls.
Proof.
  induction ls as [|l ls IH]; [done|]. rewrite unlines_cons, <-IH. cbn [app].
  by destruct (ls ++ [[]]) eqn:E; [apply app_eq_nil in E as [_ ?]|].
Qed.

Lemma document_lines_spec doc ls : document_lines doc = Some ls <-> doc = unlines ls /\ Forall (fun l => NL ∉ l) ls.
Proof.
  unfold document_lines. split.
  - destruct (reverse (split_on NL doc)) as [|[|] r] eqn:E; [done| |done]. intros [= <-].
    apply (f_equal reverse) in E. rewrite reverse_involutive, reverse_cons in E.
    pose proof (split_on_free NL doc) as Hf. rewrite E in Hf. apply Forall_app in Hf as [Hf _]. split; [|done].
    rewrite <-join_unlines, <-E. by rewrite join_split.
  - intros [-> Hf]. rewrite split_unlines, reverse_snoc by done. by rewrite reverse_involutive.
Qed.

(** ** Fields *)

Lemma show_colon_free ip : in_width 32 ip -> ":"%byte ∉ show_ipv4 ip.
Proof. intros H. apply plain_free; [done|by apply show_ipv4_plain]. Qed.

Lemma parse_address_spec s ip port :
  parse_address s = Some (ip, port) <-> (in_width 32 ip /\ port_ok port) /\ s = show_address ip port.
Proof.
  unfold parse_address, show_address, port_ok. split.
  - rewrite bind_Some. intros (i & Hm & H). apply memchr_Some in Hm as (r & Hs & Hl & Hn & Hr).
    apply bind_Some in H as (ip' & Hi & H). apply bind_Some in H as (port' & Hp & [= -> ->]).
    apply span_ipv4_spec in Hi as [Hi Ei]. apply span_port_spec in Hp as [Hp Ep]. split; [done|].
    rewrite Hr in Ep. by rewrite Hs, Ei, Ep.
  - intros [[Hi Hp] ->]. rewrite memchr_app by by apply show_colon_free. cbn [mbind option_bind].
    rewrite take_app_length, (proj2 (span_ipv4_spec _ ip)) by done. cbn [mbind option_bind].
    replace (S (length (show_ipv4 ip))) with (length (show_ipv4 ip ++ [":"%byte])) by (rewrite length_app; cbn; lia).
    change (show_ipv4 ip ++ ":"%byte :: show port) with (show_ipv4 ip ++ [":"%byte] ++ show port).
    by rewrite app_assoc, drop_app_length, (proj2 (span_port_spec _ port)).
Qed.

Lemma require_Some b : require b = Some tt <-> b = true.
Proof. by destruct b. Qed.

Lemma span_copy_Some cap s x : span_copy cap s = Some x <-> x = s /\ (length s < cap)%nat.
Proof.
  unfold span_copy. destruct (Nat.leb_spec cap (length s)); split; try done; [lia|by intros [= ->]|by intros [-> _]].
Qed.

Lemma comma_free_plain f : plain_text f -> ","%byte ∉ f.
Proof. by apply plain_free. Qed.

Lemma comma_free_address ip port : in_width 32 ip -> port_ok port -> ","%byte ∉ show_address ip port.
Proof.
  intros Hi Hp. unfold show_address. rewrite not_elem_of_app, not_elem_of_cons. split; [by apply comma_free_plain, show_ipv4_plain|].
  split; [done|]. apply comma_free_plain, show_plain. unfold port_ok in Hp. lia.
Qed.

Create HintDb fields.
#[export] Hint Resolve comma_free_plain comma_free_address dns_name_plain dns_label_plain pod_uid_plain show_ipv4_plain
  show_hex_plain service_key_plain : fields.

(** Invert a chain of checked fields. *)
Ltac fields :=
  repeat match goal with
    | H : (_ ≫= _) = Some _ |- _ => apply bind_Some in H as (? & ? & H)
    | H : require _ = Some _ |- _ => apply require_Some in H
    | H : span_copy _ _ = Some _ |- _ => apply span_copy_Some in H as [-> H]
    | H : span_dns_subdomain _ _ = true |- _ => apply span_dns_subdomain_spec in H as [? ?]
    | H : span_dns_label _ _ = true |- _ => apply span_dns_label_spec in H as [? ?]
    | H : span_pod_uid _ = true |- _ => apply span_pod_uid_spec in H
    | H : span_ipv4 _ = Some _ |- _ => apply span_ipv4_spec in H as [? ->]
    | H : span_hex_bytes _ _ = Some _ |- _ => apply span_hex_bytes_spec in H as [? ->]
    | H : span_service_key SERVICE_KEY_SIZE _ = Some _ |- _ => apply span_service_key_spec in H as [-> ?]
    | p : Z * Z |- _ => destruct p
    | H : parse_address _ = Some _ |- _ => apply parse_address_spec in H as [[? ?] ->]
    | u : unit |- _ => destruct u
    end.

(** Give back the fields of a spelling. *)
Lemma split_fields_show f max :
  f <> [] -> (length f <= max)%nat -> Forall (fun x => ","%byte ∉ x) f -> split_fields (join_with "," f) max = Some f.
Proof. intros. by apply split_fields_spec. Qed.
Lemma require_true b : b = true -> require b = Some tt.
Proof. by intros ->. Qed.
Lemma span_copy_fits cap s : (length s < cap)%nat -> span_copy cap s = Some s.
Proof. intros. by apply span_copy_Some. Qed.
Lemma span_service_key_show s : service_key s -> span_service_key SERVICE_KEY_SIZE s = Some s.
Proof. intros. by apply span_service_key_spec. Qed.
Lemma parse_address_show ip port : in_width 32 ip -> port_ok port -> parse_address (show_address ip port) = Some (ip, port).
Proof. intros. by apply parse_address_spec. Qed.
Lemma span_ipv4_show ip : in_width 32 ip -> span_ipv4 (show_ipv4 ip) = Some ip.
Proof. intros. by apply span_ipv4_spec. Qed.
Lemma span_hex_show n bs : length bs = n -> span_hex_bytes (show_hex bs) n = Some bs.
Proof. intros. by apply span_hex_bytes_spec. Qed.

Lemma uid_fits s : pod_uid s -> (length s < DMESH_POD_UID_MAX)%nat.
Proof. intros [-> _]. unfold DMESH_POD_UID_MAX. lia. Qed.

Ltac field :=
  first
    [ apply split_fields_show; [done|cbn; lia|repeat constructor; auto with fields]
    | apply require_true; first [by apply span_dns_subdomain_spec | by apply span_dns_label_spec | by apply span_pod_uid_spec]
    | apply span_copy_fits; first [by apply uid_fits | unfold DMESH_K8S_NAME_MAX, DMESH_K8S_NAMESPACE_MAX; lia]
    | by apply span_service_key_show | by apply parse_address_show | by apply span_ipv4_show | by apply span_hex_show ].
Ltac show_fields := repeat (apply bind_Some; eexists; split; [field|cbv beta iota]).

Lemma parse_node_spec body n : parse_node body = Some n <-> node_ok n /\ body = show_node n.
Proof.
  unfold parse_node. split.
  - rewrite bind_Some. intros (f & Hf & H). apply split_fields_spec in Hf as (_ & _ & _ & ->).
    destruct f as [|f0 [|f1 [|f2 [|]]]]; try done. fields. injection H as <-. split; [|done].
    unfold node_ok. cbn. tauto.
  - intros [(H1 & H2 & H3 & H4 & H5) ->]. unfold show_node. show_fields. by destruct n.
Qed.

Lemma parse_pod_spec body p : parse_pod body = Some p <-> pod_ok p /\ body = show_pod p.
Proof.
  unfold parse_pod. split.
  - rewrite bind_Some. intros (f & Hf & H). apply split_fields_spec in Hf as (_ & _ & _ & ->).
    destruct f as [|f0 [|f1 [|f2 [|f3 [|f4 [|]]]]]]; try done. fields. injection H as <-. split; [|done].
    unfold pod_ok. cbn. tauto.
  - intros [(H1 & [H2 H2'] & [H3 H3'] & [H4 H4'] & H5) ->]. unfold show_pod. show_fields. by destruct p.
Qed.

Lemma parse_service_spec body s :
  parse_service body = Some s <->
  exists key ip port, s = fresh_service key ip port /\ record_ok (RService key ip port) /\ body = show_service key ip port.
Proof.
  unfold parse_service. split.
  - rewrite bind_Some. intros (f & Hf & H). apply split_fields_spec in Hf as (_ & _ & _ & ->).
    destruct f as [|f0 [|f1 [|]]]; try done. fields. injection H as <-. eexists _, _, _. split; [reflexivity|]. done.
  - intros (key & ip & port & -> & (H1 & H2 & H3) & ->). unfold show_service. show_fields. done.
Qed.

Lemma parse_endpoint_spec services pods line e :
  parse_endpoint services pods line = Some e <->
  exists key uid, record_ok (REndpoint key uid) /\ line = show_endpoint key uid /\
    find_service services key = Some (ge_service e) /\ find_pod pods uid = Some (ge_pod e).
Proof.
  unfold parse_endpoint. split.
  - rewrite bind_Some. intros (f & Hf & H). apply split_fields_spec in Hf as (_ & _ & _ & ->).
    destruct f as [|f0 [|f1 [|]]]; try done. fields. injection H as <-. eexists f0, f1. done.
  - intros (key & uid & [H1 H2] & -> & Hs & Hp). unfold show_endpoint. show_fields.
    rewrite Hs, Hp. by destruct e.
Qed.

Lemma protect_spec services line services' :
  protect services line = Some services' <->
  service_key line /\ exists i, find_service services line = Some i /\
    services' = alter (fun s => s <| gs_is_protected := true |>) i services.
Proof.
  unfold protect. split.
  - intros H. fields. injection H as <-. eauto.
  - intros (Hk & i & Hi & ->). show_fields. by rewrite Hi.
Qed.

(** ** Lines after the version

    What the two passes make of one line; endpoint and protected lines keep
    their text until the tables are sorted. *)

Inductive raw_line :=
  | QNode (n : dmesh_gen_node) | QPod (p : dmesh_gen_pod) | QService (key : list byte) (ip port : Z)
  | QEndpoint (body : list byte) | QProtected (body : list byte).

Definition raw_ok (q : raw_line) : Prop :=
  match q with
  | QNode n => node_ok n
  | QPod p => pod_ok p
  | QService key ip port => record_ok (RService key ip port)
  | QEndpoint body | QProtected body => body <> []
  end.
Definition show_raw (q : raw_line) : list byte :=
  match q with
  | QNode n => K_NODE ++ show_node n
  | QPod p => K_POD ++ show_pod p
  | QService key ip port => K_SERVICE ++ show_service key ip port
  | QEndpoint body => K_ENDPOINT ++ body
  | QProtected body => K_PROTECTED ++ body
  end.
Definition count_raw (c : record_counts) (q : raw_line) : record_counts :=
  match q with
  | QNode _ => c <| node_seen ::= S |>
  | QPod _ => c <| pod_seen ::= S |>
  | QService _ _ _ => c <| service_seen ::= S |>
  | QEndpoint _ => c <| endpoint_seen ::= S |>
  | QProtected _ => c <| protected_seen ::= S |>
  end.
Definition add_raw (p : parse_state) (q : raw_line) : parse_state :=
  match q with
  | QNode n => p <| pz_nodes ::= fun l => l ++ [n] |>
  | QPod x => p <| pz_pods ::= fun l => l ++ [x] |>
  | QService key ip port => p <| pz_services ::= fun l => l ++ [fresh_service key ip port] |>
  | QEndpoint body => p <| pz_endpoint_lines ::= fun l => l ++ [body] |>
  | QProtected body => p <| pz_protected_lines ::= fun l => l ++ [body] |>
  end.

Lemma line_is_app k r : line_is k (k ++ r) = true <-> r <> [].
Proof.
  unfold line_is. rewrite andb_true_iff, Nat.ltb_lt, starts_spec, length_app. split.
  - intros [H _] ->. cbn in H. lia.
  - intros H. split; [destruct r; [done|cbn; lia]|eauto].
Qed.

Lemma line_is_Some k l : line_is k l = true -> exists r, l = k ++ r /\ r <> [].
Proof.
  intros H. pose proof H as H'. unfold line_is in H'. apply andb_true_iff in H' as [_ [r ->]%starts_spec].
  exists r. split; [done|]. by apply line_is_app in H.
Qed.

Lemma show_node_nonempty n : node_ok n -> show_node n <> [].
Proof. intros (H & _). destruct (dns_name_ends _ H) as [(c & Hc & _) _]. apply join_nonempty. by intros E; rewrite E in Hc. Qed.
Lemma show_pod_nonempty p : pod_ok p -> show_pod p <> [].
Proof. intros ((H & _) & _). apply join_nonempty. by intros E; rewrite E in H. Qed.
Lemma service_key_nonempty k : service_key k -> k <> [].
Proof. intros (ns & name & -> & _). by destruct ns. Qed.
Lemma show_service_nonempty k ip port : service_key k -> show_service k ip port <> [].
Proof. intros H%service_key_nonempty. by apply join_nonempty. Qed.

Lemma line_is_starts k l : starts k l = false -> line_is k l = false.
Proof. intros H. unfold line_is. by rewrite H, andb_false_r. Qed.

Section line.
  Context (c : record_counts) (p : parse_state) (v : Z).
  Hypothesis (Hc : have_version c = true) (Hp : pz_version p = Some v).

(** The two passes on a line of each kind. *)
Lemma parse_node_line r : parse_line p (K_NODE ++ r) = n ← parse_node r; Some (p <| pz_nodes ::= fun l => l ++ [n] |>).
Proof. unfold parse_line. rewrite Hp. reflexivity. Qed.
Lemma pod_line r : parse_line p (K_POD ++ r) = x ← parse_pod r; Some (p <| pz_pods ::= fun l => l ++ [x] |>).
Proof. unfold parse_line. rewrite Hp. destruct r; reflexivity. Qed.
Lemma service_line r : parse_line p (K_SERVICE ++ r) = s ← parse_service r; Some (p <| pz_services ::= fun l => l ++ [s] |>).
Proof. unfold parse_line. rewrite Hp. reflexivity. Qed.
Lemma endpoint_line r : parse_line p (K_ENDPOINT ++ r) = Some (p <| pz_endpoint_lines ::= fun l => l ++ [r] |>).
Proof. unfold parse_line. rewrite Hp. reflexivity. Qed.
Lemma protected_line r : parse_line p (K_PROTECTED ++ r) = Some (p <| pz_protected_lines ::= fun l => l ++ [r] |>).
Proof. unfold parse_line. rewrite Hp. reflexivity. Qed.

Lemma count_keyword r : r <> [] ->
  count_line c (K_NODE ++ r) = Some (c <| node_seen ::= S |>) /\ count_line c (K_POD ++ r) = Some (c <| pod_seen ::= S |>) /\
  count_line c (K_SERVICE ++ r) = Some (c <| service_seen ::= S |>) /\
  count_line c (K_ENDPOINT ++ r) = Some (c <| endpoint_seen ::= S |>) /\
  count_line c (K_PROTECTED ++ r) = Some (c <| protected_seen ::= S |>).
Proof.
  intros Hr. unfold count_line. rewrite Hc. split_and!;
  rewrite ?(line_is_starts K_NODE), ?(line_is_starts K_POD), ?(line_is_starts K_SERVICE), ?(line_is_starts K_ENDPOINT) by reflexivity;
  by rewrite (proj2 (line_is_app _ r) Hr).
Qed.

Lemma count_parse_raw q : raw_ok q -> count_line c (show_raw q) = Some (count_raw c q) /\ parse_line p (show_raw q) = Some (add_raw p q).
Proof.
  destruct q as [n|x|key ip port|body|body]; cbn [show_raw raw_ok]; intros Hq.
  - rewrite parse_node_line, (proj2 (parse_node_spec _ n)) by done. split; [|done]. by apply count_keyword, show_node_nonempty.
  - rewrite pod_line, (proj2 (parse_pod_spec _ x)) by done. split; [|done]. by apply count_keyword, show_pod_nonempty.
  - rewrite service_line, (proj2 (parse_service_spec _ (fresh_service key ip port))) by (exists key, ip, port; done). split; [|done].
    by apply count_keyword, show_service_nonempty, Hq.
  - rewrite endpoint_line. split; [by apply count_keyword|done].
  - rewrite protected_line. split; [by apply count_keyword|done].
Qed.

Lemma counted_keyword line c' : count_line c line = Some c' ->
  exists r, r <> [] /\ (line = K_NODE ++ r \/ line = K_POD ++ r \/ line = K_SERVICE ++ r \/ line = K_ENDPOINT ++ r \/ line = K_PROTECTED ++ r).
Proof.
  unfold count_line. rewrite Hc. destruct line as [|b line]; [done|]. destruct (char_eq b "#"); [done|]. cbn [negb].
  repeat match goal with
    | |- (if line_is ?k ?l then _ else _) = _ -> _ =>
        let E := fresh in destruct (line_is k l) eqn:E; [apply line_is_Some in E as (r & -> & Hr); intros _; exists r; tauto|]
    end. done.
Qed.

Lemma count_parse_line line c' p' :
  count_line c line = Some c' -> parse_line p line = Some p' -> exists q, raw_ok q /\ line = show_raw q.
Proof.
  intros (r & Hr & H)%counted_keyword.
  destruct H as [->|[->|[->|[->| ->]]]]; rewrite ?parse_node_line, ?pod_line, ?service_line; intros H; fields.
  - match goal with H : parse_node _ = Some ?n |- _ => apply parse_node_spec in H as [H ->]; by exists (QNode n) end.
  - match goal with H : parse_pod _ = Some ?n |- _ => apply parse_pod_spec in H as [H ->]; by exists (QPod n) end.
  - match goal with H : parse_service _ = Some _ |- _ => apply parse_service_spec in H as (key & ip & port & _ & H & ->) end.
    by exists (QService key ip port).
  - by exists (QEndpoint r).
  - by exists (QProtected r).
Qed.
End line.

(** ** The lines of a document *)

Definition version_only (v : Z) : parse_state := no_records <| pz_version := Some v |>.
Definition versioned : record_counts := no_counts <| have_version := true |>.

Lemma raw_lines qs c p v :
  have_version c = true -> pz_version p = Some v -> Forall raw_ok qs ->
  count_lines c (show_raw <$> qs) = Some (fold_left count_raw qs c) /\
  parse_lines p (show_raw <$> qs) = Some (fold_left add_raw qs p).
Proof.
  intros Hc Hp Hq. revert c p Hc Hp. induction Hq as [|q qs Hq _ IH]; intros c p Hc Hp; [done|].
  rewrite fmap_cons. cbn [count_lines parse_lines fold_left].
  destruct (count_parse_raw c p v Hc Hp q Hq) as [-> ->]. cbn [mbind option_bind].
  apply IH; by destruct q.
Qed.

Lemma lines_raw ls c p v c' p' :
  have_version c = true -> pz_version p = Some v -> count_lines c ls = Some c' -> parse_lines p ls = Some p' ->
  exists qs, Forall raw_ok qs /\ ls = show_raw <$> qs.
Proof.
  revert c p. induction ls as [|l ls IH]; intros c p Hc Hp; cbn [count_lines parse_lines]; [exists []; done|].
  intros (c1 & H1 & H2)%bind_Some (p1 & H3 & H4)%bind_Some.
  destruct (count_parse_line c p v Hc Hp l c1 p1 H1 H3) as (q & Hq & ->).
  destruct (count_parse_raw c p v Hc Hp q Hq) as [E1 E2]. rewrite H1 in E1. rewrite H3 in E2. injection E1 as ->. injection E2 as ->.
  destruct (IH (count_raw c q) (add_raw p q)) as (qs & Hqs & ->); [by destruct q|by destruct q|done..|].
  exists (q :: qs). split; [by constructor|done].
Qed.

Lemma comment_line l : comment_ok l -> count_line no_counts l = Some no_counts /\ parse_line no_records l = Some no_records.
Proof. intros [H _]. destruct l as [|b l]; [done|]. cbn in H. injection H as ->. done. Qed.

Lemma version_line v : 0 < v < 2 ^ 64 ->
  count_line no_counts (K_VERSION ++ show v) = Some versioned /\ parse_line no_records (K_VERSION ++ show v) = Some (version_only v).
Proof.
  intros Hv. assert (in_width 64 v) as Hw by (unfold in_width; lia).
  destruct (proj1 (show_spec (show v) v Hw) eq_refl) as ((Hne & _) & _). split.
  - change (count_line no_counts (K_VERSION ++ show v)) with
      (if line_is K_VERSION (K_VERSION ++ show v) then Some versioned else None).
    by rewrite (proj2 (line_is_app K_VERSION (show v))).
  - change (parse_line no_records (K_VERSION ++ show v)) with
      (w ← span_u64 (show v); if w =? 0 then None else Some (no_records <| pz_version := Some w |>)).
    rewrite (proj2 (span_u64_spec _ v)) by done. cbn [mbind option_bind]. by destruct (Z.eqb_spec v 0); [lia|].
Qed.

Lemma comment_lines comments ls :
  Forall comment_ok comments ->
  count_lines no_counts (comments ++ ls) = count_lines no_counts ls /\ parse_lines no_records (comments ++ ls) = parse_lines no_records ls.
Proof.
  induction 1 as [|l cs Hl _ IH]; [done|]. cbn [app count_lines parse_lines].
  destruct (comment_line l Hl) as [-> ->]. exact IH.
Qed.

(** What pass 1 and pass 2 accept. *)
Lemma accepted_lines ls c p :
  Forall (fun l => NL ∉ l) ls -> count_lines no_counts ls = Some c -> have_version c = true -> parse_lines no_records ls = Some p ->
  exists comments v qs, Forall comment_ok comments /\ 0 < v < 2 ^ 64 /\ Forall raw_ok qs /\
    ls = comments ++ (K_VERSION ++ show v) :: (show_raw <$> qs) /\
    c = fold_left count_raw qs versioned /\ p = fold_left add_raw qs (version_only v).
Proof.
  intros Hnl Hcl Hc Hpl. induction Hnl as [|l ls Hl _ IH]; cbn [count_lines parse_lines] in *; [by injection Hcl as <-|].
  apply bind_Some in Hcl as (c1 & H1 & H2). apply bind_Some in Hpl as (p1 & H3 & H4).
  destruct l as [|b l]; [done|]. destruct (char_eq_spec b "#") as [->|Hb].
  - destruct (comment_line ("#"%byte :: l)) as [E1 E2]; [done|]. rewrite E1 in H1. rewrite E2 in H3.
    injection H1 as <-. injection H3 as <-. destruct (IH H2 H4) as (cs & v & qs & Hcs & Hv & Hqs & -> & -> & ->).
    exists (("#"%byte :: l) :: cs), v, qs. split; [by constructor|]. done.
  - assert (exists v, 0 < v < 2 ^ 64 /\ b :: l = K_VERSION ++ show v) as (v & Hv & E).
    { unfold count_line, no_counts in H1. cbn [have_version negb] in H1. destruct (char_eq_spec b "#"); [done|].
      destruct (line_is K_VERSION (b :: l)) eqn:EV; [|done]. apply line_is_Some in EV as (r & E & _). rewrite E in H3 |- *.
      change (parse_line no_records (K_VERSION ++ r)) with
        (w ← span_u64 r; if w =? 0 then None else Some (no_records <| pz_version := Some w |>)) in H3.
      apply bind_Some in H3 as (w & Hw & H3). apply span_u64_spec in Hw as [Hw ->]. unfold in_width in Hw.
      exists w. split; [|done]. destruct (Z.eqb_spec w 0); [done|lia]. }
    rewrite E in *. destruct (version_line v Hv) as [E1 E2]. rewrite E1 in H1. rewrite E2 in H3.
    injection H1 as <-. injection H3 as <-.
    destruct (lines_raw ls versioned (version_only v) v c p) as (qs & Hqs & ->); [done..|].
    destruct (raw_lines qs versioned (version_only v) v) as [F1 F2]; [done..|]. rewrite F1 in H2. rewrite F2 in H4.
    injection H2 as <-. injection H4 as <-. exists [], v, qs. done.
Qed.
