(* ===== verification/TopologyParse.v ===== *)
(** * The parser of the topology document is exact

    [dmesh_topology_parse] accepts exactly the documents that spell a
    consistent set of records, and the tables it builds represent those
    records; the passes write only inside the arrays pass 1 allocated. *)

From S2P Require Import Prelude Text Spans PeerIdentity WorkloadIdentity Topology TopologyGrammar.

(** ** What a document says *)

Definition nodes_of (rs : list gen_record) : list dmesh_gen_node := omap (fun r => match r with RNode n => Some n | _ => None end) rs.
Definition pods_of (rs : list gen_record) : list dmesh_gen_pod := omap (fun r => match r with RPod p => Some p | _ => None end) rs.
Definition services_of (rs : list gen_record) : list (list byte * Z * Z) :=
  omap (fun r => match r with RService key ip port => Some (key, ip, port) | _ => None end) rs.
Definition endpoints_of (rs : list gen_record) : list (list byte * list byte) :=
  omap (fun r => match r with REndpoint key uid => Some (key, uid) | _ => None end) rs.
Definition protected_of (rs : list gen_record) : list (list byte) :=
  omap (fun r => match r with RProtected key => Some key | _ => None end) rs.
Definition service_name (x : list byte * Z * Z) : list byte := x.1.1.

(** Names are unique, references are defined, the bounds are kept. *)
Record consistent (rs : list gen_record) : Prop := {
  cs_records : Forall record_ok rs;
  cs_pods : NoDup (gp_uid <$> pods_of rs);
  cs_services : NoDup (service_name <$> services_of rs);
  cs_endpoints : forall key uid, (key, uid) ∈ endpoints_of rs -> key ∈ service_name <$> services_of rs /\ uid ∈ gp_uid <$> pods_of rs;
  cs_protected : forall key, key ∈ protected_of rs -> key ∈ service_name <$> services_of rs;
  cs_bounds : (length (nodes_of rs) <= DMESH_GEN_NODE_MAX)%nat /\ (length (pods_of rs) <= DMESH_GEN_POD_MAX)%nat /\
    (length (services_of rs) <= DMESH_GEN_SERVICE_MAX)%nat /\ (length (endpoints_of rs) <= DMESH_GEN_ENDPOINT_MAX)%nat }.

Definition valid_document (comments : list (list byte)) (version : Z) (rs : list gen_record) : Prop :=
  Forall comment_ok comments /\ 0 < version < 2 ^ 64 /\ consistent rs.

(** The uids of the endpoints of one Service. *)
Definition backends (key : list byte) (rs : list gen_record) : list (list byte) :=
  snd <$> filter (fun x => x.1 = key) (endpoints_of rs).

Record represents (version : Z) (rs : list gen_record) (t : dmesh_topology_tables) : Prop := {
  rp_version : tt_version t = version;
  rp_nodes : tt_nodes t = nodes_of rs;
  rp_pods : tt_pods t ≡ₚ pods_of rs;
  rp_services : (fun s => (gs_key s, gs_cluster_ip_be s, gs_port s)) <$> tt_services t ≡ₚ services_of rs;
  rp_protected : forall s, s ∈ tt_services t -> gs_is_protected s = true <-> gs_key s ∈ protected_of rs;
  rp_endpoints : forall s, s ∈ tt_services t -> gp_uid <$> endpoint_pods t s ≡ₚ backends (gs_key s) rs }.

(** The shape lookups rely on. *)
Record tables_sound (t : dmesh_topology_tables) : Prop := {
  to_pods : StronglySorted (key_lt gp_uid) (tt_pods t);
  to_services : StronglySorted (key_lt gs_key) (tt_services t);
  to_texts : Forall pod_ok (tt_pods t) /\ Forall (fun s => service_key (gs_key s)) (tt_services t);
  to_slices : forall i s, tt_services t !! i = Some s ->
    (gs_endpoint_first s + gs_endpoint_count s <= length (tt_endpoints t))%nat /\
    forall k ep, tt_endpoints t !! k = Some ep ->
      (gs_endpoint_first s <= k < gs_endpoint_first s + gs_endpoint_count s)%nat <-> ge_service ep = i;
  to_endpoints : forall k ep, tt_endpoints t !! k = Some ep ->
    (ge_service ep < length (tt_services t))%nat /\ (ge_pod ep < length (tt_pods t))%nat }.

(** ** From records to the state after pass 2 *)

Definition raw_of (r : gen_record) : raw_line :=
  match r with
  | RNode n => QNode n
  | RPod p => QPod p
  | RService key ip port => QService key ip port
  | REndpoint key uid => QEndpoint (show_endpoint key uid)
  | RProtected key => QProtected key
  end.

Lemma show_raw_of r : show_raw (raw_of r) = show_record r.
Proof. by destruct r. Qed.

Lemma raw_of_ok r : record_ok r -> raw_ok (raw_of r).
Proof.
  destruct r; cbn [record_ok raw_of raw_ok]; try done.
  - intros [H _]. by apply join_nonempty, service_key_nonempty.
  - apply service_key_nonempty.
Qed.

Definition blank_service (x : list byte * Z * Z) : dmesh_gen_service := fresh_service x.1.1 x.1.2 x.2.

Lemma add_records rs p :
  fold_left add_raw (raw_of <$> rs) p =
  ParseState (pz_version p) (pz_nodes p ++ nodes_of rs) (pz_pods p ++ pods_of rs)
    (pz_services p ++ (blank_service <$> services_of rs))
    (pz_endpoint_lines p ++ ((fun x => show_endpoint x.1 x.2) <$> endpoints_of rs))
    (pz_protected_lines p ++ protected_of rs).
Proof.
  revert p. induction rs as [|r rs IH]; intros p; [by destruct p; cbn; rewrite !app_nil_r|].
  rewrite fmap_cons. cbn [fold_left]. rewrite IH.
  destruct p, r; cbn; rewrite <-?app_assoc; reflexivity.
Qed.

Definition records_state (v : Z) (rs : list gen_record) : parse_state :=
  ParseState (Some v) (nodes_of rs) (pods_of rs) (blank_service <$> services_of rs)
    ((fun x => show_endpoint x.1 x.2) <$> endpoints_of rs) (protected_of rs).

Lemma fold_add_raw v rs : fold_left add_raw (raw_of <$> rs) (version_only v) = records_state v rs.
Proof. rewrite add_records. reflexivity. Qed.

Lemma count_records rs c :
  fold_left count_raw (raw_of <$> rs) c =
  Counts (have_version c) (node_seen c + length (nodes_of rs)) (pod_seen c + length (pods_of rs))
    (service_seen c + length (services_of rs)) (endpoint_seen c + length (endpoints_of rs))
    (protected_seen c + length (protected_of rs)).
Proof.
  revert c. induction rs as [|r rs IH]; intros c; [destruct c; cbn; f_equal; lia|].
  rewrite fmap_cons. cbn [fold_left]. rewrite IH. unfold nodes_of, pods_of, services_of, endpoints_of, protected_of.
  destruct c, r; cbn; f_equal; lia.
Qed.

Lemma over_bound_records rs :
  over_bound (fold_left count_raw (raw_of <$> rs) versioned) = false <->
  (length (nodes_of rs) <= DMESH_GEN_NODE_MAX)%nat /\ (length (pods_of rs) <= DMESH_GEN_POD_MAX)%nat /\
  (length (services_of rs) <= DMESH_GEN_SERVICE_MAX)%nat /\ (length (endpoints_of rs) <= DMESH_GEN_ENDPOINT_MAX)%nat.
Proof.
  rewrite count_records. unfold over_bound. cbn [node_seen pod_seen service_seen endpoint_seen versioned].
  change (node_seen versioned) with 0%nat. change (pod_seen versioned) with 0%nat.
  change (service_seen versioned) with 0%nat. change (endpoint_seen versioned) with 0%nat.
  rewrite !Nat.add_0_l, !orb_false_iff, !Nat.ltb_ge. tauto.
Qed.

(** ** Sorted tables *)

Lemma plain_cstr s : plain_text s -> cstr s = s.
Proof.
  induction 1 as [|c s Hc _ IH]; [done|]. cbn [cstr]. destruct (Z.eqb_spec (b2z c) 0) as [E|]; [|by rewrite IH].
  apply (b2z_inj c x00) in E. by subst.
Qed.

Lemma sort_by_key {A} (key : A -> list byte) (l : list A) :
  adjacent_equal key (merge_sort (by_key key) l) = false -> StronglySorted (key_lt key) (merge_sort (by_key key) l).
Proof. intros H. apply adjacent_distinct; [apply (StronglySorted_merge_sort (by_key key) l)|done]. Qed.

Lemma sort_distinct {A} (key : A -> list byte) (l : list A) :
  NoDup ((cstr ∘ key) <$> l) -> adjacent_equal key (merge_sort (by_key key) l) = false.
Proof. intros H. apply distinct_adjacent. by rewrite merge_sort_Permutation. Qed.

Lemma find_service_Some services key i :
  StronglySorted (key_lt gs_key) services -> Forall (fun s => service_key (gs_key s)) services -> service_key key ->
  find_service services key = Some i <-> exists s, services !! i = Some s /\ gs_key s = key.
Proof.
  intros Hs Hk Hkey. unfold find_service. rewrite (bsearch_sorted gs_key) by done. rewrite (plain_cstr key) by by apply service_key_plain.
  rewrite Forall_lookup in Hk.
  split; intros (s & Hi & E); exists s; (split; [done|]);
    pose proof (plain_cstr (gs_key s) (service_key_plain _ (Hk i s Hi))); congruence.
Qed.

Lemma find_pod_Some pods uid i :
  StronglySorted (key_lt gp_uid) pods -> Forall pod_ok pods -> pod_uid uid ->
  find_pod pods uid = Some i <-> exists p, pods !! i = Some p /\ gp_uid p = uid.
Proof.
  intros Hs Hk Hkey. unfold find_pod. rewrite (bsearch_sorted gp_uid) by done. rewrite (plain_cstr uid) by by apply pod_uid_plain.
  rewrite Forall_lookup in Hk.
  split; intros (s & Hi & E); exists s; (split; [done|]);
    pose proof (plain_cstr (gp_uid s) (pod_uid_plain _ (proj1 (Hk i s Hi)))); congruence.
Qed.

(** ** Grouping endpoints by Service *)

Lemma endpoint_le_iff x y :
  endpoint_le x y <-> (ge_service x < ge_service y)%nat \/ ge_service x = ge_service y /\ (ge_pod x <= ge_pod y)%nat.
Proof.
  unfold endpoint_le, compare_endpoint. destruct (Nat.eqb_spec (ge_service x) (ge_service y)); cbn [negb].
  - destruct (Nat.ltb_spec (ge_pod x) (ge_pod y)); [lia|]. destruct (Nat.ltb_spec (ge_pod y) (ge_pod x)); lia.
  - destruct (Nat.ltb_spec (ge_service x) (ge_service y)); lia.
Qed.
#[export] Instance endpoint_le_trans : Transitive endpoint_le.
Proof. intros x y z. rewrite !endpoint_le_iff. lia. Qed.
#[export] Instance endpoint_le_total : Total endpoint_le.
Proof. intros x y. rewrite !endpoint_le_iff. lia. Qed.
Lemma endpoint_le_service x y : endpoint_le x y -> (ge_service x <= ge_service y)%nat.
Proof. rewrite endpoint_le_iff. lia. Qed.

Lemma run_length_spec s es :
  (run_length s es <= length es)%nat /\
  (forall k ep, es !! k = Some ep -> (k < run_length s es)%nat -> ge_service ep = s) /\
  (forall ep, es !! run_length s es = Some ep -> ge_service ep <> s).
Proof.
  induction es as [|e es (IH1 & IH2 & IH3)]; cbn [run_length]; [split; [done|split; [intros k ep Hk; lia|done]]|].
  destruct (Nat.eqb_spec (ge_service e) s) as [E|E].
  - cbn [length]. split; [lia|]. split; [|exact IH3]. intros [|k] ep Hk Hlt; cbn in Hk; [by simplify_eq|]. eapply IH2; [done|lia].
  - split; [lia|]. split; [lia|]. intros ep [= ->]. done.
Qed.

Lemma group_spec all s e xs :
  StronglySorted endpoint_le all -> (e <= length all)%nat ->
  (forall k ep, all !! k = Some ep -> (k < e)%nat <-> (ge_service ep < s)%nat) ->
  Forall2 (fun x' x => exists first count, x' = x <| gs_endpoint_first := first |> <| gs_endpoint_count := count |>)
    (group_endpoints s e xs (drop e all)) xs /\
  forall i x', group_endpoints s e xs (drop e all) !! i = Some x' ->
    (gs_endpoint_first x' + gs_endpoint_count x' <= length all)%nat /\
    forall k ep, all !! k = Some ep ->
      (gs_endpoint_first x' <= k < gs_endpoint_first x' + gs_endpoint_count x')%nat <-> ge_service ep = (s + i)%nat.
Proof.
  intros Hs. revert s e. induction xs as [|x xs IH]; intros s e He Hlt; cbn [group_endpoints]; [by split; [constructor|]|].
  set (n := run_length s (drop e all)).
  destruct (run_length_spec s (drop e all)) as (R1 & R2 & R3). fold n in R1, R2, R3. rewrite length_drop in R1.
  assert (forall k ep, all !! k = Some ep -> (k < e + n)%nat <-> (ge_service ep < S s)%nat) as Hlt'.
  { intros k ep Hk. pose proof (Hlt k ep Hk) as Hlk. destruct (decide (k < e)%nat) as [H|H]; [lia|].
    destruct (decide (k < e + n)%nat) as [H'|H'].
    - assert (ge_service ep = s) as ->; [|lia]. apply (R2 (k - e)%nat); [|lia]. rewrite lookup_drop.
      by replace (e + (k - e))%nat with k by lia.
    - destruct (lookup_lt_is_Some_2 all (e + n)) as [en Hen]; [apply lookup_lt_Some in Hk; lia|].
      specialize (R3 en ltac:(by rewrite lookup_drop)). pose proof (Hlt (e + n)%nat en Hen) as Hln.
      destruct (decide (k = e + n)%nat) as [->|Hne]; [simplify_eq; lia|].
      pose proof (endpoint_le_service en ep (StronglySorted_lookup _ _ (e + n) k en ep Hs Hen Hk ltac:(lia))). lia. }
  destruct (IH (S s) (e + n)%nat ltac:(lia) Hlt') as [IH1 IH2]. rewrite drop_drop. split.
  - constructor; [by exists e, n|exact IH1].
  - intros [|i] x' Hx.
    + cbn in Hx. injection Hx as <-. cbn [gs_endpoint_first gs_endpoint_count set]. split; [lia|].
      intros k ep Hk. specialize (Hlt k ep Hk). specialize (Hlt' k ep Hk). lia.
    + cbn in Hx. replace (s + S i)%nat with (S s + i)%nat by lia. by apply IH2.
Qed.

(** A contiguous run that holds exactly the elements with a property is the
    filter by that property. *)
Lemma slice_filter {A} (P : A -> Prop) `{!forall x, Decision (P x)} (l : list A) first count :
  (first + count <= length l)%nat ->
  (forall k x, l !! k = Some x -> (first <= k < first + count)%nat <-> P x) ->
  take count (drop first l) = filter P l.
Proof.
  revert first count. induction l as [|a l IH]; intros first count Hb HP.
  { by rewrite drop_nil, take_nil. }
  assert (forall k x, l !! k = Some x -> (first <= S k < first + count)%nat <-> P x) as H' by (intros k x Hk; exact (HP (S k) x Hk)).
  specialize (HP 0%nat a eq_refl). cbn [length] in Hb. rewrite filter_cons. destruct first as [|first].
  - destruct count as [|count].
    + rewrite decide_False by (rewrite <-HP; lia). cbn. rewrite <-(IH 0%nat 0%nat); [by rewrite take_0|lia|].
      intros k x Hk. rewrite <-(H' k x Hk). lia.
    + rewrite decide_True by (rewrite <-HP; lia). cbn [drop take]. f_equal. rewrite <-(IH 0%nat count); [by rewrite drop_0|lia|].
      intros k x Hk. rewrite <-(H' k x Hk). lia.
  - rewrite decide_False by (rewrite <-HP; lia). cbn [drop]. apply IH; [lia|]. intros k x Hk. rewrite <-(H' k x Hk). lia.
Qed.

Lemma omap_seq {A B} (f : A -> option B) (l : list A) first count :
  (first + count <= length l)%nat ->
  omap (fun e => x ← l !! (first + e)%nat; f x) (seq 0 count) = omap f (take count (drop first l)).
Proof.
  intros Hb. apply list_omap_ext, Forall2_same_length_lookup. split.
  - rewrite length_seq, length_take, length_drop. lia.
  - intros i e x [-> Hi]%lookup_seq Hx. apply lookup_take_Some in Hx as [Hx _]. rewrite lookup_drop in Hx.
    cbn [Nat.add]. by rewrite Hx.
Qed.

Lemma endpoint_pods_filter t i s :
  tables_sound t -> tt_services t !! i = Some s ->
  endpoint_pods t s = omap (fun ep => tt_pods t !! ge_pod ep) (filter (fun ep => ge_service ep = i) (tt_endpoints t)).
Proof.
  intros Hok Hs. destruct (to_slices t Hok i s Hs) as [Hb Hsl]. unfold endpoint_pods.
  rewrite (omap_seq (fun ep => tt_pods t !! ge_pod ep)) by done. by rewrite <-(slice_filter (fun ep => ge_service ep = i) _ _ _ Hb Hsl).
Qed.

(** ** Keys and their order *)

Lemma sorted_keys {A} (key : A -> list byte) l :
  StronglySorted (key_lt key) l <-> StronglySorted (fun a b => strcmp a b < 0) (key <$> l).
Proof.
  induction l as [|x l IH]; [split; constructor|]. rewrite fmap_cons. split; inversion 1; subst; constructor;
    try (by apply IH); rewrite ?Forall_fmap in *; done.
Qed.

Lemma same_keys_sorted {A B} (key : A -> list byte) (key' : B -> list byte) l l' :
  key' <$> l' = key <$> l -> StronglySorted (key_lt key) l -> StronglySorted (key_lt key') l'.
Proof. rewrite !sorted_keys. by intros ->. Qed.

Lemma same_keys_ok (l l' : list dmesh_gen_service) :
  gs_key <$> l' = gs_key <$> l -> Forall (fun s => service_key (gs_key s)) l -> Forall (fun s => service_key (gs_key s)) l'.
Proof. intros E H. apply (Forall_fmap gs_key service_key). rewrite E. by apply Forall_fmap. Qed.

(** Entries of a sorted table are identified by their key. *)
Lemma sorted_key_inj {A} (key : A -> list byte) l i j x y :
  StronglySorted (key_lt key) l -> l !! i = Some x -> l !! j = Some y -> key x = key y -> i = j.
Proof.
  intros Hs Hi Hj E. destruct (lt_eq_lt_dec i j) as [[H|H]|H]; [|done|].
  - pose proof (StronglySorted_lookup _ _ i j x y Hs Hi Hj H) as Hlt. unfold key_lt in Hlt. rewrite E, strcmp_refl in Hlt. lia.
  - pose proof (StronglySorted_lookup _ _ j i y x Hs Hj Hi H) as Hlt. unfold key_lt in Hlt. rewrite E, strcmp_refl in Hlt. lia.
Qed.

(** ** Protected Services *)

Definition mark (lines : list (list byte)) (s : dmesh_gen_service) : dmesh_gen_service :=
  s <| gs_is_protected := gs_is_protected s || bool_decide (gs_key s ∈ lines) |>.

Lemma mark_keys lines (services : list dmesh_gen_service) : gs_key <$> (mark lines <$> services) = gs_key <$> services.
Proof. rewrite <-list_fmap_compose. by apply list_fmap_ext. Qed.

Lemma mark_one services i l s :
  StronglySorted (key_lt gs_key) services -> services !! i = Some s -> gs_key s = l ->
  alter (fun s => s <| gs_is_protected := true |>) i services = mark [l] <$> services.
Proof.
  intros Hs Hi El. apply list_eq. intros j. rewrite list_lookup_fmap. destruct (decide (i = j)) as [<-|Hne].
  - rewrite list_lookup_alter_eq, Hi. cbn. f_equal. unfold mark. rewrite bool_decide_eq_true_2 by (subst l; by left).
    by rewrite orb_true_r.
  - rewrite list_lookup_alter_ne by done. destruct (services !! j) as [x|] eqn:Hj; [|done]. cbn. f_equal. unfold mark.
    rewrite bool_decide_eq_false_2; [by rewrite orb_false_r; destruct x|].
    rewrite list_elem_of_singleton. intros E. apply Hne. eapply (sorted_key_inj gs_key); [done..|]. congruence.
Qed.

Lemma mark_mark l ls (services : list dmesh_gen_service) : mark ls <$> (mark [l] <$> services) = mark (l :: ls) <$> services.
Proof.
  rewrite <-list_fmap_compose. apply list_fmap_ext. intros i s _. unfold mark. destruct s; cbn. f_equal.
  rewrite <-orb_assoc, <-bool_decide_or. f_equal. apply bool_decide_ext. rewrite (elem_of_cons ls), list_elem_of_singleton. done.
Qed.

Lemma protect_all_spec services lines services' :
  StronglySorted (key_lt gs_key) services -> Forall (fun s => service_key (gs_key s)) services ->
  protect_all services lines = Some services' <->
  Forall (fun l => service_key l /\ l ∈ gs_key <$> services) lines /\ services' = mark lines <$> services.
Proof.
  revert services. induction lines as [|l ls IH]; intros services Hs Hk; cbn [protect_all].
  - assert (mark [] <$> services = services) as ->.
    { rewrite <-(list_fmap_id services) at 2. apply list_fmap_ext. intros i s _. unfold mark. cbn. rewrite orb_false_r. by destruct s. }
    split; [intros [= ->]; split; [constructor|done]|by intros [_ ->]].
  - rewrite bind_Some. split.
    + intros (s1 & (Hl & i & Hi & ->)%protect_spec & H2). apply find_service_Some in Hi as (s & Hi & E); [|done..].
      rewrite (mark_one services i l s) in H2 by done.
      apply IH in H2 as [H2 ->]; [|by eapply same_keys_sorted; [apply mark_keys|]|by eapply same_keys_ok; [apply mark_keys|]].
      rewrite mark_keys in H2. rewrite mark_mark. split; [|done]. constructor; [|done]. split; [done|].
      apply list_elem_of_fmap. exists s. split; [done|]. by eapply list_elem_of_lookup_2.
    + intros [Hf ->]. inversion Hf as [|? ? [Hl Hin] Hrest]; subst. apply list_elem_of_fmap in Hin as (s & E & [i Hi]%list_elem_of_lookup).
      exists (mark [l] <$> services). split.
      * apply protect_spec. split; [done|]. exists i. split; [apply find_service_Some; eauto|]. symmetry. by eapply mark_one.
      * apply IH; [by eapply same_keys_sorted; [apply mark_keys|]|by eapply same_keys_ok; [apply mark_keys|]|].
        rewrite mark_keys, mark_mark. done.
Qed.

(** ** Resolving records *)

Section resolve.
  Context (v : Z) (rs : list gen_record).
  Hypothesis (Hrec : Forall record_ok rs).

Definition sorted_pods : list dmesh_gen_pod := merge_sort (by_key gp_uid) (pods_of rs).
Definition sorted_services : list dmesh_gen_service := merge_sort (by_key gs_key) (blank_service <$> services_of rs).

Lemma record_in r : r ∈ rs -> record_ok r.
Proof. apply (proj1 (Forall_forall _ _) Hrec). Qed.

Lemma records_pods_ok : Forall pod_ok sorted_pods.
Proof.
  unfold sorted_pods. rewrite merge_sort_Permutation. unfold pods_of. apply Forall_forall.
  intros p (r & Hr & E)%list_elem_of_omap. apply record_in in Hr. by destruct r; simplify_eq.
Qed.

Lemma records_services_ok : Forall (fun s => service_key (gs_key s)) sorted_services.
Proof.
  unfold sorted_services. rewrite merge_sort_Permutation. unfold services_of. apply Forall_forall.
  intros s (x & -> & (r & Hr & E)%list_elem_of_omap)%list_elem_of_fmap. apply record_in in Hr. destruct r; simplify_eq. apply Hr.
Qed.

Lemma record_endpoint key uid : (key, uid) ∈ endpoints_of rs -> service_key key /\ pod_uid uid.
Proof. intros (r & Hr & E)%list_elem_of_omap. apply record_in in Hr. by destruct r; simplify_eq. Qed.
Lemma record_protected key : key ∈ protected_of rs -> service_key key.
Proof. intros (r & Hr & E)%list_elem_of_omap. apply record_in in Hr. by destruct r; simplify_eq. Qed.

Lemma sorted_service_keys : gs_key <$> sorted_services ≡ₚ service_name <$> services_of rs.
Proof. unfold sorted_services. rewrite merge_sort_Permutation, <-list_fmap_compose. done. Qed.
Lemma sorted_pod_uids : gp_uid <$> sorted_pods ≡ₚ gp_uid <$> pods_of rs.
Proof. unfold sorted_pods. by rewrite merge_sort_Permutation. Qed.

(** Endpoint lines against the sorted tables. *)
Definition resolved (x : list byte * list byte) (e : dmesh_gen_endpoint) : Prop :=
  (exists s, sorted_services !! ge_service e = Some s /\ gs_key s = x.1) /\ (exists p, sorted_pods !! ge_pod e = Some p /\ gp_uid p = x.2).

Lemma resolve_endpoints es :
  StronglySorted (key_lt gs_key) sorted_services -> StronglySorted (key_lt gp_uid) sorted_pods ->
  mapM (parse_endpoint sorted_services sorted_pods) ((fun x => show_endpoint x.1 x.2) <$> endpoints_of rs) = Some es <->
  Forall2 resolved (endpoints_of rs) es.
Proof.
  intros Hs Hp. rewrite mapM_Some, Forall2_fmap_l.
  assert (forall x e, x ∈ endpoints_of rs ->
    parse_endpoint sorted_services sorted_pods (show_endpoint x.1 x.2) = Some e <-> resolved x e) as Hx.
  { intros [key uid] e Hin. destruct (record_endpoint key uid Hin) as [H1 H2]. rewrite parse_endpoint_spec. unfold resolved. cbn. split.
    - intros (k & u & [Hk Hu] & E & Hfs & Hfp). assert (k = key /\ u = uid) as [-> ->].
      { unfold show_endpoint in E. cbn in E. apply split_at_sep in E as [-> ->]; [done|..]; apply comma_free_plain; by apply service_key_plain. }
      apply find_service_Some in Hfs; [|done|apply records_services_ok|done].
      apply find_pod_Some in Hfp; [|done|apply records_pods_ok|done]. done.
    - intros [Hfs Hfp]. exists key, uid. split; [done|]. split; [done|].
      split; [apply find_service_Some; [done|apply records_services_ok|done..]|apply find_pod_Some; [done|apply records_pods_ok|done..]]. }
  rewrite !Forall2_same_length_lookup. split; intros [Hl H]; (split; [done|]); intros i x e Hi He; apply Hx;
    first [by eapply list_elem_of_lookup_2 | by eapply H].
Qed.

(** The tables built from resolved endpoints. *)
Definition built (es : list dmesh_gen_endpoint) : dmesh_topology_tables :=
  Tables v (nodes_of rs) (mark (protected_of rs) <$> group_endpoints 0 0 sorted_services (merge_sort endpoint_le es))
    sorted_pods (merge_sort endpoint_le es).

Lemma grouped es :
  Forall2 (fun x' x => exists first count, x' = x <| gs_endpoint_first := first |> <| gs_endpoint_count := count |>)
    (group_endpoints 0 0 sorted_services (merge_sort endpoint_le es)) sorted_services /\
  forall i x', group_endpoints 0 0 sorted_services (merge_sort endpoint_le es) !! i = Some x' ->
    (gs_endpoint_first x' + gs_endpoint_count x' <= length (merge_sort endpoint_le es))%nat /\
    forall k ep, merge_sort endpoint_le es !! k = Some ep ->
      (gs_endpoint_first x' <= k < gs_endpoint_first x' + gs_endpoint_count x')%nat <-> ge_service ep = i.
Proof.
  destruct (group_spec (merge_sort endpoint_le es) 0 0 sorted_services) as [H1 H2].
  - apply (StronglySorted_merge_sort endpoint_le es).
  - lia.
  - intros k ep _. lia.
  - rewrite drop_0 in H1, H2. done.
Qed.

(** Grouping and marking change neither key, address nor port. *)
Lemma built_fmap {B} (f : dmesh_gen_service -> B) es :
  (forall s a b c, f (s <| gs_endpoint_first := a |> <| gs_endpoint_count := b |> <| gs_is_protected := c |>) = f s) ->
  f <$> tt_services (built es) = f <$> sorted_services.
Proof.
  intros Hf. destruct (grouped es) as [H _]. cbn [built tt_services]. rewrite <-list_fmap_compose.
  set (l1 := group_endpoints _ _ _ _) in *. clearbody l1. set (l2 := sorted_services) in *. clearbody l2.
  induction H as [|x' x l' l (a & b & ->) _ IH]; [done|]. rewrite !fmap_cons. apply (f_equal2 cons); [|exact IH].
  cbn [compose]. unfold mark. apply Hf.
Qed.

Lemma built_keys es : gs_key <$> tt_services (built es) = gs_key <$> sorted_services.
Proof. by apply (built_fmap gs_key). Qed.

Lemma built_lookup es i s :
  tt_services (built es) !! i = Some s -> exists g, group_endpoints 0 0 sorted_services (merge_sort endpoint_le es) !! i = Some g /\
    gs_is_protected g = false /\ s = mark (protected_of rs) g /\ exists x, sorted_services !! i = Some x /\ gs_key s = gs_key x.
Proof.
  cbn [built tt_services]. rewrite list_lookup_fmap, fmap_Some. intros (g & Hg & ->). exists g. split; [done|].
  destruct (grouped es) as [H _]. destruct (Forall2_lookup_l _ _ _ _ _ H Hg) as (x & Hx & a & b & ->).
  split; [|split; [done|by exists x]]. cbn. apply list_elem_of_lookup_2 in Hx. unfold sorted_services in Hx.
  rewrite merge_sort_Permutation in Hx. by apply list_elem_of_fmap in Hx as (y & -> & _).
Qed.

Section sorted.
  Context (es : list dmesh_gen_endpoint).
  Hypothesis (Hs : StronglySorted (key_lt gs_key) sorted_services) (Hp : StronglySorted (key_lt gp_uid) sorted_pods).
  Hypothesis (Hes : Forall2 resolved (endpoints_of rs) es).

Lemma built_ok : tables_sound (built es).
Proof.
  constructor.
  - exact Hp.
  - eapply same_keys_sorted; [apply built_keys|exact Hs].
  - split; [apply records_pods_ok|]. eapply same_keys_ok; [apply built_keys|apply records_services_ok].
  - intros i s (g & Hg & _ & -> & _)%built_lookup. destruct (grouped es) as [_ H]. apply (H i g Hg).
  - intros k ep Hk. cbn in Hk. apply list_elem_of_lookup_2 in Hk. rewrite merge_sort_Permutation in Hk.
    apply list_elem_of_lookup in Hk as [j Hj]. destruct (Forall2_lookup_r _ _ _ _ _ Hes Hj) as (x & _ & (s & Hsv & _) & (p & Hpd & _)).
    apply lookup_lt_Some in Hsv, Hpd. rewrite <-(length_fmap gs_key (tt_services _)), built_keys, length_fmap. done.
Qed.

Lemma built_backends i s :
  tt_services (built es) !! i = Some s -> gp_uid <$> endpoint_pods (built es) s ≡ₚ backends (gs_key s) rs.
Proof.
  intros Hi. rewrite (endpoint_pods_filter _ i s built_ok Hi). cbn [built tt_endpoints tt_pods].
  rewrite merge_sort_Permutation, list_fmap_omap. unfold backends.
  destruct (built_lookup es i s Hi) as (_ & _ & _ & _ & x & Hx & ->). clear Hi s.
  assert (forall l, Forall2 resolved l es -> omap (fun ep => gp_uid <$> sorted_pods !! ge_pod ep) (filter (fun ep => ge_service ep = i) es) =
    snd <$> filter (fun y => y.1 = gs_key x) l) as H; [|by rewrite (H _ Hes)].
  clear Hes. induction 1 as [|y e l es' ((s & Hse & Es) & (p & Hpe & Ep)) _ IH]; [done|]. rewrite !filter_cons.
  assert (ge_service e = i <-> y.1 = gs_key x) as Hiff.
  { split; [intros <-; congruence|]. intros E. eapply (sorted_key_inj gs_key); [exact Hs|done..|]. congruence. }
  destruct (decide (ge_service e = i)) as [E|E].
  - rewrite decide_True by tauto. rewrite fmap_cons, <-IH. cbn. rewrite Hpe. cbn. by rewrite Ep.
  - rewrite decide_False by tauto. exact IH.
Qed.

Lemma built_represents : represents v rs (built es).
Proof.
  constructor.
  - done.
  - done.
  - cbn [built tt_pods]. apply merge_sort_Permutation.
  - rewrite (built_fmap (fun s => (gs_key s, gs_cluster_ip_be s, gs_port s))) by done. unfold sorted_services.
    rewrite merge_sort_Permutation, <-list_fmap_compose. rewrite (list_fmap_ext _ id); [by rewrite list_fmap_id|].
    by intros i [[k ip] port] _.
  - intros s [i Hi]%list_elem_of_lookup. destruct (built_lookup es i s Hi) as (g & _ & Hg & -> & _). cbn. rewrite Hg. cbn.
    by rewrite bool_decide_eq_true.
  - intros s [i Hi]%list_elem_of_lookup. by eapply built_backends.
Qed.
End sorted.

Lemma pod_uids_cstr : (cstr ∘ gp_uid) <$> sorted_pods = gp_uid <$> sorted_pods.
Proof.
  apply list_fmap_ext. intros i p Hi. pose proof records_pods_ok as H. rewrite Forall_lookup in H.
  apply plain_cstr, pod_uid_plain. by apply (H i).
Qed.
Lemma service_keys_cstr : (cstr ∘ gs_key) <$> sorted_services = gs_key <$> sorted_services.
Proof.
  apply list_fmap_ext. intros i p Hi. pose proof records_services_ok as H. rewrite Forall_lookup in H.
  apply plain_cstr, service_key_plain. by apply (H i).
Qed.

(** References to defined Services and Pods resolve, and only those. *)
Definition defined : Prop :=
  (forall key uid, (key, uid) ∈ endpoints_of rs -> key ∈ service_name <$> services_of rs /\ uid ∈ gp_uid <$> pods_of rs) /\
  (forall key, key ∈ protected_of rs -> key ∈ service_name <$> services_of rs).

Lemma group_keys es : gs_key <$> group_endpoints 0 0 sorted_services (merge_sort endpoint_le es) = gs_key <$> sorted_services.
Proof. pose proof (built_keys es) as H. cbn [built tt_services] in H. by rewrite mark_keys in H. Qed.

Lemma protect_built es services :
  StronglySorted (key_lt gs_key) sorted_services ->
  protect_all (group_endpoints 0 0 sorted_services (merge_sort endpoint_le es)) (protected_of rs) = Some services <->
  (forall key, key ∈ protected_of rs -> key ∈ service_name <$> services_of rs) /\ services = tt_services (built es).
Proof.
  intros Hs. rewrite protect_all_spec; cycle 1.
  - eapply same_keys_sorted; [apply group_keys|done].
  - eapply same_keys_ok; [apply group_keys|apply records_services_ok].
  - rewrite group_keys, Forall_forall. apply and_iff_compat_r. split.
    + intros H key Hk. rewrite <-sorted_service_keys. by apply H.
    + intros H key Hk. split; [by apply record_protected|]. rewrite sorted_service_keys. by apply H.
Qed.

Lemma resolve_spec t :
  resolve (records_state v rs) = Some t ->
  NoDup (gp_uid <$> pods_of rs) /\ NoDup (service_name <$> services_of rs) /\ defined /\ represents v rs t /\ tables_sound t.
Proof.
  unfold resolve, records_state. cbn [pz_pods pz_services pz_endpoint_lines pz_protected_lines pz_version pz_nodes].
  fold sorted_pods sorted_services. intros H.
  apply bind_Some in H as ([] & Ep & H). apply bind_Some in H as ([] & Es & H).
  apply require_Some, negb_true_iff in Ep, Es. apply sort_by_key in Ep, Es. fold sorted_pods in Ep. fold sorted_services in Es.
  apply bind_Some in H as (es & Hes & H). apply resolve_endpoints in Hes; [|done..].
  apply bind_Some in H as (services & [Hprot ->]%protect_built & [= <-]); [|done].
  change (Tables v (nodes_of rs) (tt_services (built es)) sorted_pods (merge_sort endpoint_le es)) with (built es).
  split; [rewrite <-sorted_pod_uids, <-pod_uids_cstr; by apply key_lt_NoDup|].
  split; [rewrite <-sorted_service_keys, <-service_keys_cstr; by apply key_lt_NoDup|].
  split; [|split; [by apply built_represents|by apply built_ok]]. split; [|done].
  intros key uid Hin. apply list_elem_of_lookup in Hin as [i Hi].
  destruct (Forall2_lookup_l _ _ _ _ _ Hes Hi) as (e & _ & (s & Hse & E1) & (p & Hpe & E2)). cbn in E1, E2. subst key uid.
  rewrite <-sorted_service_keys, <-sorted_pod_uids. split; apply list_elem_of_fmap_2; by eapply list_elem_of_lookup_2.
Qed.

Lemma resolve_defined :
  NoDup (gp_uid <$> pods_of rs) -> NoDup (service_name <$> services_of rs) -> defined -> exists t, resolve (records_state v rs) = Some t.
Proof.
  intros Hpods Hservices [Hend Hprot].
  assert (adjacent_equal gp_uid sorted_pods = false) as Ep.
  { apply distinct_adjacent. rewrite pod_uids_cstr. by rewrite sorted_pod_uids. }
  assert (adjacent_equal gs_key sorted_services = false) as Es.
  { apply distinct_adjacent. rewrite service_keys_cstr. by rewrite sorted_service_keys. }
  pose proof (sort_by_key gp_uid (pods_of rs) Ep) as Hp. pose proof (sort_by_key gs_key (blank_service <$> services_of rs) Es) as Hs.
  fold sorted_pods in Hp. fold sorted_services in Hs.
  assert (exists es, Forall2 resolved (endpoints_of rs) es) as [es Hes].
  { assert (Forall (fun x => exists e, resolved x e) (endpoints_of rs)) as H.
    { apply Forall_forall. intros [key uid] Hin. destruct (Hend key uid Hin) as [H1 H2].
      rewrite <-sorted_service_keys in H1. rewrite <-sorted_pod_uids in H2.
      apply list_elem_of_fmap in H1 as (s & -> & [i Hi]%list_elem_of_lookup). apply list_elem_of_fmap in H2 as (p & -> & [j Hj]%list_elem_of_lookup).
      exists (GenEndpoint i j). split; eauto. }
    clear -H. induction H as [|x l [e He] _ [es IH]]; [by exists []|]. exists (e :: es). by constructor. }
  exists (built es). unfold resolve, records_state. cbn [pz_pods pz_services pz_endpoint_lines pz_protected_lines pz_version pz_nodes].
  fold sorted_pods sorted_services. rewrite Ep, Es. cbn [negb require mbind option_bind].
  rewrite (proj2 (resolve_endpoints es Hs Hp) Hes). cbn [mbind option_bind].
  rewrite (proj2 (protect_built es (tt_services (built es)) Hs)) by done. done.
Qed.
End resolve.

(** ** Spelled lines hold no newline *)

Lemma join_free (c sep : byte) fs : c <> sep -> Forall (fun f => c ∉ f) fs -> c ∉ join_with sep fs.
Proof.
  intros Hc. induction 1 as [|f fs Hf Hfs IH]; [apply not_elem_of_nil|].
  destruct fs as [|g fs]; [done|]. change (c ∉ f ++ sep :: join_with sep (g :: fs)).
  rewrite not_elem_of_app, not_elem_of_cons. done.
Qed.

Lemma nl_free_plain f : plain_text f -> NL ∉ f.
Proof. by apply plain_free. Qed.

Lemma nl_free_address ip port : in_width 32 ip -> port_ok port -> NL ∉ show_address ip port.
Proof.
  intros Hi Hp. unfold show_address. rewrite not_elem_of_app, not_elem_of_cons.
  split; [by apply nl_free_plain, show_ipv4_plain|]. split; [done|]. apply nl_free_plain, show_plain. unfold port_ok in Hp. lia.
Qed.
#[export] Hint Resolve nl_free_plain nl_free_address : fields.

Lemma record_line_free r : record_ok r -> NL ∉ show_record r.
Proof.
  assert (forall k f, (NL ∉ k) -> (NL ∉ f) -> NL ∉ k ++ f) as Happ by (intros; rewrite not_elem_of_app; done).
  destruct r as [n|p|key ip port|key uid|key]; cbn [record_ok show_record].
  - intros (H1 & _ & H3 & H4 & _). apply Happ; [by apply (bool_decide_unpack _)|]. apply join_free; [done|]. repeat constructor; auto with fields.
  - intros (H1 & [H2 _] & [H3 _] & [H4 _] & H5). apply Happ; [by apply (bool_decide_unpack _)|]. apply join_free; [done|].
    repeat constructor; auto with fields.
  - intros (H1 & H2 & H3). apply Happ; [by apply (bool_decide_unpack _)|]. apply join_free; [done|]. repeat constructor; auto with fields.
  - intros (H1 & H2). apply Happ; [by apply (bool_decide_unpack _)|]. apply join_free; [done|]. repeat constructor; auto with fields.
  - intros H. apply Happ; [by apply (bool_decide_unpack _)|]. auto with fields.
Qed.

Lemma document_free cs v rs :
  Forall comment_ok cs -> 0 <= v -> Forall record_ok rs ->
  Forall (fun l => NL ∉ l) (cs ++ (K_VERSION ++ show v) :: (show_record <$> rs)).
Proof.
  intros Hcs Hv Hrs. apply Forall_app. split; [eapply Forall_impl; [exact Hcs|]; by intros l [_ ?]|]. constructor.
  - rewrite not_elem_of_app. split; [by apply (bool_decide_unpack _)|]. by apply nl_free_plain, show_plain.
  - apply Forall_fmap. eapply Forall_impl; [exact Hrs|]. intros r. apply record_line_free.
Qed.

(** ** Every accepted document spells records *)

Lemma add_raw_lines qs p :
  (forall b, QEndpoint b ∈ qs -> b ∈ pz_endpoint_lines (fold_left add_raw qs p)) /\
  (forall b, QProtected b ∈ qs -> b ∈ pz_protected_lines (fold_left add_raw qs p)) /\
  pz_endpoint_lines p ⊆ pz_endpoint_lines (fold_left add_raw qs p) /\
  pz_protected_lines p ⊆ pz_protected_lines (fold_left add_raw qs p).
Proof.
  revert p. induction qs as [|q qs IH]; intros p; cbn [fold_left]; [set_solver|].
  destruct (IH (add_raw p q)) as (I1 & I2 & I3 & I4). split_and!.
  - intros b [<-|Hb]%elem_of_cons; [|by apply I1]. apply I3, elem_of_app. right. by left.
  - intros b [<-|Hb]%elem_of_cons; [|by apply I2]. apply I4, elem_of_app. right. by left.
  - etrans; [|exact I3]. intros b Hb. destruct q; try done. apply elem_of_app. by left.
  - etrans; [|exact I4]. intros b Hb. destruct q; try done. apply elem_of_app. by left.
Qed.

Lemma protect_all_keys services lines services' : protect_all services lines = Some services' -> Forall service_key lines.
Proof.
  revert services. induction lines as [|l ls IH]; intros services; cbn [protect_all]; [constructor|].
  intros (s1 & [Hl _]%protect_spec & H)%bind_Some. constructor; [done|by eapply IH].
Qed.

Lemma resolve_spells p t : resolve p = Some t ->
  Forall (fun b => exists key uid, record_ok (REndpoint key uid) /\ b = show_endpoint key uid) (pz_endpoint_lines p) /\
  Forall service_key (pz_protected_lines p).
Proof.
  unfold resolve. intros H. apply bind_Some in H as (_ & _ & H). apply bind_Some in H as (_ & _ & H).
  apply bind_Some in H as (es & Hes & H). apply bind_Some in H as (ss & Hss & _). split; [|by eapply protect_all_keys].
  apply mapM_Some in Hes. eapply Forall2_Forall_l; [exact Hes|]. apply Forall_forall. intros e _ b.
  intros (key & uid & Hok & E & _)%parse_endpoint_spec. eauto.
Qed.

Lemma raw_records qs v t :
  Forall raw_ok qs -> resolve (fold_left add_raw qs (version_only v)) = Some t -> exists rs, Forall record_ok rs /\ qs = raw_of <$> rs.
Proof.
  intros Hq Ht. apply resolve_spells in Ht as [He Hp].
  destruct (add_raw_lines qs (version_only v)) as (I1 & I2 & _). rewrite Forall_forall in He, Hp.
  assert (Forall (fun q => exists r, record_ok r /\ q = raw_of r) qs) as H.
  { apply Forall_forall. intros q Hin. rewrite Forall_forall in Hq. specialize (Hq q Hin).
    destruct q as [n|x|key ip port|b|b].
    - by exists (RNode n).
    - by exists (RPod x).
    - by exists (RService key ip port).
    - destruct (He b (I1 b Hin)) as (key & uid & Hok & ->). by exists (REndpoint key uid).
    - exists (RProtected b). split; [|done]. by apply Hp, I2. }
  clear -H. induction H as [|q qs (r & Hr & ->) _ (rs & Hrs & ->)]; [by exists []|]. exists (r :: rs). split; [by constructor|done].
Qed.

(** ** Exactness *)

Lemma parse_accepts cs v rs slots :
  valid_document cs v rs ->
  exists t, resolve (records_state v rs) = Some t /\ represents v rs t /\ tables_sound t /\
    dmesh_topology_parse true (show_document cs v rs) slots =
    (TOPOLOGY_ADOPTED, Some (match slots with
                             | None => (t, None)
                             | Some i => (t <| tt_services := (intern_services i (tt_services t)).2 |>, Some (intern_services i (tt_services t)).1)
                             end)).
Proof.
  intros (Hcs & Hv & Hc). pose proof (cs_records _ Hc) as Hrec.
  destruct (resolve_defined v rs Hrec (cs_pods _ Hc) (cs_services _ Hc)) as [t Ht]; [split; [apply (cs_endpoints _ Hc)|apply (cs_protected _ Hc)]|].
  exists t. split; [done|]. destruct (resolve_spec v rs Hrec t Ht) as (_ & _ & _ & Hr & Ho). split; [done|]. split; [done|].
  unfold dmesh_topology_parse, show_document.
  rewrite (proj2 (document_lines_spec _ _) (conj eq_refl (document_free cs v rs Hcs ltac:(lia) Hrec))).
  assert (show_record <$> rs = show_raw <$> (raw_of <$> rs)) as ->.
  { rewrite <-list_fmap_compose. apply list_fmap_ext. intros i r _. cbn. by rewrite show_raw_of. }
  destruct (comment_lines cs ((K_VERSION ++ show v) :: (show_raw <$> (raw_of <$> rs))) Hcs) as [-> ->].
  cbn [count_lines parse_lines]. destruct (version_line v Hv) as [-> ->]. cbn [mbind option_bind].
  destruct (raw_lines (raw_of <$> rs) versioned (version_only v) v) as [-> ->]; [done..| |].
  { apply Forall_fmap. eapply Forall_impl; [exact Hrec|]. intros r. apply raw_of_ok. }
  cbn [mbind option_bind]. rewrite (proj2 (over_bound_records rs) (cs_bounds _ Hc)), fold_add_raw, Ht, count_records.
  cbn [have_version versioned set negb]. destruct slots as [i|]; [|done]. by destruct (intern_services i (tt_services t)).
Qed.

Lemma parse_accepted doc slots r :
  dmesh_topology_parse true doc slots = (TOPOLOGY_ADOPTED, r) -> exists cs v rs, valid_document cs v rs /\ doc = show_document cs v rs.
Proof.
  unfold dmesh_topology_parse. destruct (document_lines doc) as [ls|] eqn:El; [|done]. apply document_lines_spec in El as [-> Hnl].
  destruct (count_lines no_counts ls) as [c|] eqn:Ec; [|done]. destruct (have_version c) eqn:Hv; [|done]. cbn [negb].
  destruct (over_bound c) eqn:Ho; [done|]. destruct (parse_lines no_records ls) as [p|] eqn:Ep; [|done]. cbn [mbind option_bind].
  destruct (resolve p) as [t|] eqn:Et; [|done]. intros _.
  destruct (accepted_lines ls c p Hnl Ec Hv Ep) as (cs & v & qs & Hcs & Hv' & Hqs & -> & -> & ->).
  destruct (raw_records qs v t Hqs Et) as (rs & Hrs & ->). rewrite fold_add_raw in Et.
  destruct (resolve_spec v rs Hrs t Et) as (H1 & H2 & [H3 H4] & _). exists cs, v, rs. split.
  - split; [done|]. split; [done|]. constructor; try done. by apply over_bound_records.
  - unfold show_document. do 3 f_equal. rewrite <-list_fmap_compose. apply list_fmap_ext. intros i r' _. apply show_raw_of.
Qed.

(** ** Interning changes ids only *)

Definition relabelled (l' l : list dmesh_gen_service) : Prop := Forall2 (fun s' s => exists id, s' = s <| gs_interned := id |>) l' l.

#[export] Instance relabelled_refl : Reflexive relabelled.
Proof. intros l. apply Forall_Forall2_diag, Forall_true. intros s. exists (gs_interned s). by destruct s. Qed.
#[export] Instance relabelled_trans : Transitive relabelled.
Proof.
  intros l1 l2 l3 H. revert l3. induction H as [|a b l1 l2 [n ->] _ IH]; intros l3 H3; [done|].
  inversion H3 as [|? c ? l3' [m ->] H3']; subst. constructor; [by exists n|by apply IH].
Qed.

Lemma relabelled_alter i id l : relabelled (alter (fun s => s <| gs_interned := id |>) i l) l.
Proof.
  revert i. induction l as [|s l IH]; intros [|i]; cbn; [constructor..| |].
  - constructor; [by exists id|apply relabelled_refl].
  - constructor; [exists (gs_interned s); by destruct s|apply IH].
Qed.

Lemma keep_ids_relabelled id slots services : relabelled (keep_ids id slots services).2 services.
Proof.
  revert id services. induction slots as [|x slots IH]; intros id services; cbn [keep_ids]; [reflexivity|].
  destruct (negb (in_in_use x)).
  - specialize (IH (S id) services). by destruct (keep_ids _ _ _).
  - destruct (index_of _ _) as [i|].
    + pose proof (IH (S id) (alter (fun s => s <| gs_interned := Z.of_nat id |>) i services)) as H.
      destruct (keep_ids _ _ _). cbn in *. etrans; [exact H|apply relabelled_alter].
    + specialize (IH (S id) services). by destruct (keep_ids _ _ _).
Qed.

Lemma give_ids_relabelled slots services : relabelled (give_ids slots services).2 services.
Proof.
  revert slots. induction services as [|s services IH]; intros slots; cbn [give_ids]; [constructor|].
  destruct (0 <=? gs_interned s).
  - specialize (IH slots). destruct (give_ids _ _). constructor; [exists (gs_interned s); by destruct s|done].
  - destruct (index_of _ _) as [i|].
    + match goal with |- context [give_ids ?x services] => specialize (IH x); destruct (give_ids x services) end.
      constructor; [by eexists|done].
    + specialize (IH slots). destruct (give_ids _ _). constructor; [exists (gs_interned s); by destruct s|done].
Qed.

Lemma intern_relabelled slots services : relabelled (intern_services slots services).2 services.
Proof.
  unfold intern_services. pose proof (keep_ids_relabelled 0 slots services) as H. destruct (keep_ids 0 slots services) as [i ss].
  etrans; [apply give_ids_relabelled|exact H].
Qed.

Lemma relabelled_fmap {B} (f : dmesh_gen_service -> B) l' l :
  (forall s id, f (s <| gs_interned := id |>) = f s) -> relabelled l' l -> f <$> l' = f <$> l.
Proof. intros Hf. induction 1 as [|s' s l' l [id ->] _ IH]; [done|]. rewrite !fmap_cons. by rewrite Hf, IH. Qed.

Lemma relabelled_in l' l s' : relabelled l' l -> s' ∈ l' -> exists s id, s ∈ l /\ s' = s <| gs_interned := id |>.
Proof.
  intros H [i Hi]%list_elem_of_lookup. destruct (Forall2_lookup_l _ _ _ _ _ H Hi) as (s & Hs & id & ->).
  exists s, id. split; [by eapply list_elem_of_lookup_2|done].
Qed.

Lemma represents_relabelled v rs t ss :
  relabelled ss (tt_services t) -> represents v rs t -> represents v rs (t <| tt_services := ss |>).
Proof.
  intros Hss [H1 H2 H3 H4 H5 H6]. constructor; try done.
  - cbn [tt_services set]. rewrite (relabelled_fmap _ ss (tt_services t)) by done. exact H4.
  - intros s (x & id & Hx & ->)%(relabelled_in ss (tt_services t)); [|done]. apply (H5 x Hx).
  - intros s (x & id & Hx & ->)%(relabelled_in ss (tt_services t)); [|done]. apply (H6 x Hx).
Qed.

Lemma tables_ok_relabelled t ss : relabelled ss (tt_services t) -> tables_sound t -> tables_sound (t <| tt_services := ss |>).
Proof.
  intros Hss [H1 H2 [H3 H3'] H4 H5]. assert (gs_key <$> ss = gs_key <$> tt_services t) as Ek by by apply relabelled_fmap.
  constructor; try done.
  - by eapply same_keys_sorted.
  - split; [done|]. by eapply same_keys_ok.
  - intros i s Hi. destruct (Forall2_lookup_l _ _ _ _ _ Hss Hi) as (x & Hx & id & ->). exact (H4 i x Hx).
  - intros k ep Hk. cbn [tt_services set]. rewrite (Forall2_length _ _ _ Hss). by eapply H5.
Qed.

(** [dmesh_topology_parse] is exact for the grammar of a generation.  It adopts a document if and only if the document spells, after comments, a version from 1 to 2^64-1 and records with valid names, addresses, ports and keys, without a repeated Pod or Service, with every endpoint and protected entry referring to defined Services and Pods, within the bounds.  The tables it then builds represent exactly those records: the nodes in order, the Pods and Services of the document, each Service with exactly its endpoints and protected exactly when a record says so; and they are sorted, with every endpoint in range and each Service's endpoints in one contiguous run. *)
Lemma parse_grammar :
  (forall doc slots, (dmesh_topology_parse true doc slots).1 = TOPOLOGY_ADOPTED <->
     exists comments version records, valid_document comments version records /\ doc = show_document comments version records) /\
  (forall comments version records slots, valid_document comments version records ->
     exists t slots', dmesh_topology_parse true (show_document comments version records) slots = (TOPOLOGY_ADOPTED, Some (t, slots')) /\
       represents version records t /\ tables_sound t).
Proof.
  split.
  - intros doc slots. split.
    + destruct (dmesh_topology_parse true doc slots) as [r x] eqn:E. cbn. intros ->. by eapply parse_accepted.
    + intros (cs & v & rs & Hv & ->). destruct (parse_accepts cs v rs slots Hv) as (t & _ & _ & _ & ->). done.
  - intros cs v rs slots Hv. destruct (parse_accepts cs v rs slots Hv) as (t & _ & Hr & Ho & ->).
    destruct slots as [i|]; [|by exists t, None].
    exists (t <| tt_services := (intern_services i (tt_services t)).2 |>), (Some (intern_services i (tt_services t)).1).
    split; [done|]. split; [apply represents_relabelled|apply tables_ok_relabelled]; try done; apply intern_relabelled.
Qed.

(** ** Pass 2 writes inside what pass 1 counted *)

Record agree (c : record_counts) (p : parse_state) : Prop := {
  ag_version : have_version c = bool_decide (pz_version p <> None);
  ag_nodes : node_seen c = length (pz_nodes p); ag_pods : pod_seen c = length (pz_pods p);
  ag_services : service_seen c = length (pz_services p); ag_endpoints : endpoint_seen c = length (pz_endpoint_lines p);
  ag_protected : protected_seen c = length (pz_protected_lines p) }.

Definition counts_le (c c' : record_counts) : Prop :=
  (node_seen c <= node_seen c')%nat /\ (pod_seen c <= pod_seen c')%nat /\ (service_seen c <= service_seen c')%nat /\
  (endpoint_seen c <= endpoint_seen c')%nat /\ (protected_seen c <= protected_seen c')%nat.

Lemma agree_raw c p q : agree c p -> agree (count_raw c q) (add_raw p q).
Proof. intros [H1 H2 H3 H4 H5 H6]. destruct q; constructor; cbn in *; rewrite ?length_app; cbn; rewrite ?Nat.add_1_r; congruence. Qed.

Lemma agree_line c p line c' p' : agree c p -> count_line c line = Some c' -> parse_line p line = Some p' -> agree c' p'.
Proof.
  intros Ha Hc Hp. destruct (pz_version p) as [v|] eqn:Hv.
  - assert (have_version c = true) as Hh by (rewrite (ag_version _ _ Ha), Hv; done).
    destruct (count_parse_line c p v Hh Hv line c' p' Hc Hp) as (q & Hq & ->).
    destruct (count_parse_raw c p v Hh Hv q Hq) as [E1 E2]. simplify_eq. by apply agree_raw.
  - assert (have_version c = false) as Hh by (rewrite (ag_version _ _ Ha), Hv; done).
    unfold count_line in Hc. unfold parse_line in Hp. rewrite Hh in Hc. rewrite Hv in Hp.
    destruct line as [|b line]; [done|]. cbn [head] in Hp. destruct (char_eq b "#"); [by simplify_eq|]. cbn [negb] in Hc.
    destruct (line_is K_VERSION (b :: line)); [|done]. fields. destruct (_ =? 0) in Hp; [done|]. simplify_eq.
    destruct Ha. by constructor.
Qed.

Lemma count_line_le c line c' : count_line c line = Some c' -> counts_le c c'.
Proof.
  unfold count_line. destruct line as [|b line]; [done|].
  repeat match goal with |- context [if ?x then _ else _] => destruct x end; intros [= <-]; unfold counts_le; cbn; lia.
Qed.

Lemma count_lines_le c lines c' : count_lines c lines = Some c' -> counts_le c c'.
Proof.
  revert c. induction lines as [|l ls IH]; intros c; cbn [count_lines]; [intros [= <-]; unfold counts_le; lia|].
  intros (c1 & H1%count_line_le & H2%IH)%bind_Some. unfold counts_le in *. lia.
Qed.

Lemma passes_agree k lines c0 p0 c p :
  agree c0 p0 -> count_lines c0 lines = Some c -> parse_lines p0 (take k lines) = Some p ->
  exists ck, agree ck p /\ count_lines ck (drop k lines) = Some c.
Proof.
  revert k c0 p0. induction lines as [|l ls IH]; intros k c0 p0 Ha Hc Hp.
  { rewrite take_nil in Hp. rewrite drop_nil. injection Hp as <-. by exists c0. }
  destruct k as [|k]; [injection Hp as <-; by exists c0|]. cbn [take drop count_lines parse_lines] in *.
  apply bind_Some in Hc as (c1 & H1 & H2). apply bind_Some in Hp as (p1 & H3 & H4).
  apply (IH k c1 p1); [by eapply agree_line|done..].
Qed.

(** The array entry pass 2 fills for a line, and the size of that array. *)
Definition entry_written (p : parse_state) (c : record_counts) (line : list byte) : nat * nat :=
  if starts K_NODE line then (length (pz_nodes p), node_seen c)
  else if starts K_POD line then (length (pz_pods p), pod_seen c)
  else if starts K_SERVICE line then (length (pz_services p), service_seen c)
  else if starts K_ENDPOINT line then (length (pz_endpoint_lines p), endpoint_seen c)
  else (length (pz_protected_lines p), protected_seen c).

(** Pass 2 of [dmesh_topology_parse] writes only inside the arrays pass 1 sized.  For any lines pass 1 accepts, whatever their fields turn out to be, whenever pass 2 has parsed some of them and reaches a record line, the entry it fills for that line (the node, Pod or Service it parses, or the endpoint or protected line it remembers) has an index below the number of such records pass 1 counted. *)
Lemma writes_in_bounds lines c k p v line :
  count_lines no_counts lines = Some c -> parse_lines no_records (take k lines) = Some p ->
  pz_version p = Some v -> lines !! k = Some line ->
  ((entry_written p c line).1 < (entry_written p c line).2)%nat.
Proof.
  intros Hc Hp Hv Hk. destruct (passes_agree k lines no_counts no_records c p) as (ck & Ha & Hck); [by constructor|done..|].
  rewrite (drop_S _ _ _ Hk) in Hck. cbn [count_lines] in Hck. apply bind_Some in Hck as (c1 & H1 & H2%count_lines_le).
  assert (have_version ck = true) as Hh by (rewrite (ag_version _ _ Ha), Hv; done).
  destruct (counted_keyword ck Hh line c1 H1) as (r & Hr & Hline).
  destruct (count_keyword ck Hh r Hr) as (E1 & E2 & E3 & E4 & E5). destruct Ha as [_ A1 A2 A3 A4 A5].
  unfold counts_le in H2. destruct Hline as [->|[->|[->|[->| ->]]]].
  - rewrite E1 in H1. simplify_eq. change (length (pz_nodes p) < node_seen c)%nat. cbn in H2. lia.
  - rewrite E2 in H1. simplify_eq. unfold entry_written. destruct r as [|b r]; [done|].
    change (length (pz_pods p) < pod_seen c)%nat. cbn in H2. lia.
  - rewrite E3 in H1. simplify_eq. change (length (pz_services p) < service_seen c)%nat. cbn in H2. lia.
  - rewrite E4 in H1. simplify_eq. change (length (pz_endpoint_lines p) < endpoint_seen c)%nat. cbn in H2. lia.
  - rewrite E5 in H1. simplify_eq. change (length (pz_protected_lines p) < protected_seen c)%nat. cbn in H2. lia.
Qed.

Definition demo_lines : list (list byte) :=
  [txt "# a"; txt "version=7"; txt "service=ns/a,10.0.0.1:80"; txt "service=ns/b,broken"].

(** C4: [dmesh_topology_parse] is exact for the grammar of a generation, and safe on
    anything else.  It adopts a document if and only if the document spells, after
    comments, a version from 1 to 2^64-1 and records with valid names, addresses,
    ports and keys, without a repeated Pod or Service, with every endpoint and
    protected entry referring to defined Services and Pods, within the bounds.  The
    tables it then builds represent exactly those records: the nodes in order, the
    Pods and Services of the document, each Service with exactly its endpoints and
    protected exactly when a record says so; and they are sorted, with every
    endpoint in range and each Service's endpoints in one contiguous run.  Its
    second pass writes only inside the arrays the first pass sized: for any lines
    the first pass accepts, whatever their fields turn out to be, the entry it
    fills for a record line has an index below the number of such records the
    first pass counted. *)
Theorem topology_parse_exact :
  (forall doc slots, (dmesh_topology_parse true doc slots).1 = TOPOLOGY_ADOPTED <->
     exists comments version records, valid_document comments version records /\ doc = show_document comments version records) /\
  (forall comments version records slots, valid_document comments version records ->
     exists t slots', dmesh_topology_parse true (show_document comments version records) slots = (TOPOLOGY_ADOPTED, Some (t, slots')) /\
       represents version records t /\ tables_sound t) /\
  (forall lines c k p v line,
     count_lines no_counts lines = Some c -> parse_lines no_records (take k lines) = Some p ->
     pz_version p = Some v -> lines !! k = Some line ->
     ((entry_written p c line).1 < (entry_written p c line).2)%nat).
Proof. destruct parse_grammar as [H1 H2]. split; [exact H1|]. split; [exact H2|exact writes_in_bounds]. Qed.

Lemma topology_parse_exact_witness :
  exists c p, count_lines no_counts demo_lines = Some c /\ parse_lines no_records (take 3 demo_lines) = Some p /\
    ((entry_written p c (txt "service=ns/b,broken")).1 < (entry_written p c (txt "service=ns/b,broken")).2)%nat.
Proof.
  destruct (count_lines no_counts demo_lines) as [c|] eqn:Ec; [|vm_compute in Ec; discriminate].
  destruct (parse_lines no_records (take 3 demo_lines)) as [p|] eqn:Ep; [|vm_compute in Ep; discriminate].
  exists c, p. split; [done|]. split; [done|].
  apply (proj2 (proj2 topology_parse_exact) demo_lines c 3%nat p 7); [exact Ec|exact Ep| |reflexivity].
  assert (pz_version <$> parse_lines no_records (take 3 demo_lines) = Some (Some 7)) as H by (vm_compute; reflexivity).
  rewrite Ep in H. by injection H.
Defined.
