(* ===== verification/TopologyIntern.v ===== *)
(** * Stable ids of Services ([intern_services] of [doca/topology.c])

    Which ids the two loops leave with which Services. *)

From S2P Require Import Prelude Text PeerIdentity Spans WorkloadIdentity WorkloadProofs Topology TopologyGrammar TopologyParse.

(** ** Slots *)

Definition slots_ok (slots : list dmesh_topology_intern) : Prop :=
  (forall j x, slots !! j = Some x -> in_in_use x = true -> service_key (in_key x)) /\
  (forall i j x y, slots !! i = Some x -> slots !! j = Some y -> in_in_use x = true -> in_in_use y = true -> in_key x = in_key y -> i = j).

Definition services_keyed (ss : list dmesh_gen_service) : Prop :=
  Forall (fun s => service_key (gs_key s)) ss /\ NoDup (gs_key <$> ss).

Lemma tables_keyed t : tables_sound t -> services_keyed (tt_services t).
Proof.
  intros H. destruct (to_texts t H) as [_ Hk]. split; [done|]. pose proof (key_lt_NoDup _ _ (to_services t H)) as HN.
  erewrite list_fmap_ext in HN; [exact HN|]. intros i s Hi. cbn. rewrite Forall_lookup in Hk.
  by apply plain_cstr, service_key_plain, (Hk i).
Qed.

Lemma keyed_inj ss i j x y : services_keyed ss -> ss !! i = Some x -> ss !! j = Some y -> gs_key x = gs_key y -> i = j.
Proof.
  intros [_ HN] Hi Hj E. eapply NoDup_lookup; [exact HN|..]; rewrite list_lookup_fmap, ?Hi, ?Hj; cbn; by rewrite ?E.
Qed.

Lemma str_eq_keys a b : service_key a -> service_key b -> str_eq a b = true <-> a = b.
Proof. intros Ha Hb. rewrite str_eq_spec, !plain_cstr by by apply service_key_plain. done. Qed.

Lemma index_of_Some {A} (p : A -> bool) l i :
  index_of p l = Some i <-> exists x, l !! i = Some x /\ p x = true /\ forall j y, (j < i)%nat -> l !! j = Some y -> p y = false.
Proof.
  unfold index_of. rewrite fmap_Some. split.
  - intros ([k x] & H & ->). apply list_find_Some in H as (H1 & H2 & H3). exists x. split; [done|]. split; [done|].
    intros j y Hj Hy. apply not_true_iff_false. by eapply H3.
  - intros (x & H1 & H2 & H3). exists (i, x). split; [|done]. apply list_find_Some. split; [done|]. split; [done|].
    intros j y Hy Hj. rewrite (H3 j y Hj Hy). done.
Qed.

Lemma index_of_None {A} (p : A -> bool) l : index_of p l = None <-> Forall (fun x => p x = false) l.
Proof.
  unfold index_of. rewrite fmap_None, list_find_None. split; apply Forall_impl || idtac; intros H;
    (eapply Forall_impl; [exact H|]); intros x; cbn; destruct (p x); done.
Qed.

(** ** The first loop *)

Definition slot_holds (k : list byte) (x : dmesh_topology_intern) : bool := in_in_use x && bool_decide (in_key x = k).

(** The id a Service has after the first loop over the ids from [id] on. *)
Definition kept_id (id : nat) (slots : list dmesh_topology_intern) (before : Z) (k : list byte) : Z :=
  match index_of (slot_holds k) slots with Some j => Z.of_nat (id + j) | None => before end.

Definition kept_slot (ss : list dmesh_gen_service) (x : dmesh_topology_intern) : dmesh_topology_intern :=
  if in_in_use x && negb (bool_decide (in_key x ∈ gs_key <$> ss)) then Intern [] false else x.

Lemma kept_cons id x slots before k :
  kept_id id (x :: slots) before k = if slot_holds k x then Z.of_nat id else kept_id (S id) slots before k.
Proof.
  unfold kept_id, index_of. cbn [list_find]. destruct (slot_holds k x) eqn:E.
  - rewrite decide_True by done. cbn. by rewrite Nat.add_0_r.
  - rewrite decide_False by congruence. destruct (list_find _ slots) as [[j y]|]; [|done]. cbn. f_equal. lia.
Qed.

Lemma slots_ok_tail x slots : slots_ok (x :: slots) -> slots_ok slots.
Proof.
  intros [H1 H2]. split; [intros j y; apply (H1 (S j))|]. intros i j y z Hy Hz Uy Uz E.
  assert (S i = S j) as Hij by by apply (H2 (S i) (S j) y z). lia.
Qed.

Lemma kept_other x slots id before :
  slots_ok (x :: slots) -> in_in_use x = true -> kept_id id slots before (in_key x) = before.
Proof.
  intros [_ H2] Ux. unfold kept_id. destruct (index_of (slot_holds (in_key x)) slots) as [j|] eqn:E; [|done]. exfalso.
  apply index_of_Some in E as (y & Hy & Hh & _). unfold slot_holds in Hh. apply andb_true_iff in Hh as [Uy Ey].
  apply bool_decide_eq_true in Ey. assert (0 = S j)%nat by (by apply (H2 0%nat (S j) x y)). lia.
Qed.

Lemma found_service ss k i :
  services_keyed ss -> service_key k ->
  index_of (fun s => str_eq (gs_key s) k) ss = Some i <-> exists s, ss !! i = Some s /\ gs_key s = k.
Proof.
  intros Hss Hk. pose proof Hss as [Hkeys _]. rewrite Forall_lookup in Hkeys. rewrite index_of_Some. split.
  - intros (s & Hs & E & _). exists s. split; [done|]. apply str_eq_keys in E; [done|by apply (Hkeys i)|done].
  - intros (s & Hs & E). exists s. split; [done|]. split; [apply str_eq_keys; [by apply (Hkeys i)|done|done]|].
    intros j y Hj Hy. apply not_true_iff_false. rewrite str_eq_keys by (by apply (Hkeys j) || done). intros Ey.
    assert (j = i); [|lia]. eapply keyed_inj; [exact Hss|done..|congruence].
Qed.

Lemma keyed_same ss ss' : gs_key <$> ss' = gs_key <$> ss -> services_keyed ss -> services_keyed ss'.
Proof. intros E [H1 H2]. split; [by eapply same_keys_ok|]. by rewrite E. Qed.

Lemma alter_keys (ss : list dmesh_gen_service) i id : gs_key <$> alter (fun s => s <| gs_interned := id |>) i ss = gs_key <$> ss.
Proof. apply (relabelled_fmap gs_key); [done|apply relabelled_alter]. Qed.

Lemma keep_ids_spec id slots ss :
  slots_ok slots -> services_keyed ss ->
  (keep_ids id slots ss).1 = kept_slot ss <$> slots /\
  (keep_ids id slots ss).2 = (fun s => s <| gs_interned := kept_id id slots (gs_interned s) (gs_key s) |>) <$> ss.
Proof.
  revert id ss. induction slots as [|x slots IH]; intros id ss Hsl Hss; cbn [keep_ids].
  { split; [done|]. cbn. symmetry. rewrite <-(list_fmap_id ss) at 2. apply list_fmap_ext. intros i s _. by destruct s. }
  pose proof (slots_ok_tail x slots Hsl) as Htl. rewrite fmap_cons. destruct (in_in_use x) eqn:Ux; cbn [negb].
  - destruct (index_of (fun s => str_eq (gs_key s) (in_key x)) ss) as [i|] eqn:Ei.
    + assert (service_key (in_key x)) as Hkx by by apply (proj1 Hsl 0%nat x).
      apply found_service in Ei as (s & Hs & Es); [|done..].
      set (ss1 := alter (fun s => s <| gs_interned := Z.of_nat id |>) i ss).
      destruct (IH (S id) ss1) as [I1 I2]; [done|by eapply keyed_same; [apply alter_keys|]|].
      destruct (keep_ids (S id) slots ss1) as [r s']. cbn [fst snd] in *. split.
      * rewrite I1. f_equal; [|unfold kept_slot; apply list_fmap_ext; intros; unfold ss1; by rewrite alter_keys].
        unfold kept_slot. rewrite bool_decide_eq_true_2, andb_false_r; [done|]. rewrite <-Es. apply list_elem_of_fmap_2.
        by eapply list_elem_of_lookup_2.
      * rewrite I2. unfold ss1. apply list_eq. intros j. rewrite !list_lookup_fmap. destruct (decide (i = j)) as [<-|Hne].
        -- rewrite list_lookup_alter_eq, Hs. cbn. f_equal. rewrite kept_cons. unfold slot_holds. rewrite Ux, bool_decide_eq_true_2 by done.
           cbn [andb]. rewrite Es, kept_other by done. by destruct s.
        -- rewrite list_lookup_alter_ne by done. destruct (ss !! j) as [y|] eqn:Hj; [|done]. cbn. f_equal. rewrite kept_cons.
           unfold slot_holds at 1. rewrite (bool_decide_eq_false_2 (in_key x = gs_key y)); [by rewrite andb_false_r|].
           intros E. apply Hne. eapply keyed_inj; [exact Hss|done..|congruence].
    + assert (service_key (in_key x)) as Hkx by by apply (proj1 Hsl 0%nat x).
      assert (forall y, y ∈ ss -> gs_key y <> in_key x) as Hn.
      { intros y [j Hj]%list_elem_of_lookup E. assert (index_of (fun s => str_eq (gs_key s) (in_key x)) ss = Some j) as Hc by (apply found_service; eauto).
        congruence. }
      destruct (IH (S id) ss Htl Hss) as [I1 I2]. destruct (keep_ids (S id) slots ss) as [r s']. cbn [fst snd] in *. split.
      * rewrite I1. f_equal. unfold kept_slot. rewrite Ux, bool_decide_eq_false_2; [done|].
        intros (y & E & Hy)%list_elem_of_fmap. by apply (Hn y Hy).
      * rewrite I2. apply list_fmap_ext. intros j y Hy. f_equal. rewrite kept_cons. unfold slot_holds at 1.
        rewrite bool_decide_eq_false_2; [by rewrite andb_false_r|]. intros E. by apply (Hn y (list_elem_of_lookup_2 _ _ _ Hy)).
  - destruct (IH (S id) ss Htl Hss) as [I1 I2]. destruct (keep_ids (S id) slots ss) as [r s']. cbn [fst snd] in *. split.
    + rewrite I1. f_equal. unfold kept_slot. by rewrite Ux.
    + rewrite I2. apply list_fmap_ext. intros j y Hy. f_equal. rewrite kept_cons. unfold slot_holds at 1. by rewrite Ux.
Qed.

(** ** The second loop *)

Definition in_use (x : dmesh_topology_intern) : Prop := in_in_use x = true.

(** What the loop does to one Service: it keeps its id, takes a free one, or
    goes without when none is left. *)
Definition given_id (slots slots' : list dmesh_topology_intern) (s' s : dmesh_gen_service) : Prop :=
  (0 <= gs_interned s /\ s' = s) \/
  (gs_interned s < 0 /\ exists id, s' = s <| gs_interned := Z.of_nat id |> /\ slots' !! id = Some (Intern (gs_key s) true) /\
     exists x, slots !! id = Some x /\ in_in_use x = false) \/
  (gs_interned s < 0 /\ s' = s /\ Forall in_use slots').

Record given (slots : list dmesh_topology_intern) (ss : list dmesh_gen_service)
    (slots' : list dmesh_topology_intern) (ss' : list dmesh_gen_service) : Prop := {
  gv_length : length slots' = length slots;
  gv_keep : forall j x, slots !! j = Some x -> in_use x -> slots' !! j = Some x;
  gv_new : forall j x, slots' !! j = Some x -> in_use x ->
    slots !! j = Some x \/ exists s, s ∈ ss' /\ gs_interned s = Z.of_nat j /\ gs_key s = in_key x;
  gv_services : Forall2 (given_id slots slots') ss' ss }.

Lemma service_key_fits k : service_key k -> take (SERVICE_KEY_SIZE - 1) k = k.
Proof.
  intros (ns & name & -> & _ & _ & L1 & L2). apply take_ge. rewrite length_app. cbn [length].
  change (SERVICE_KEY_SIZE - 1)%nat with 127%nat. lia.
Qed.

Lemma given_cons slots ss slots' ss' s' s :
  given slots ss slots' ss' -> given_id slots slots' s' s -> given slots (s :: ss) slots' (s' :: ss').
Proof.
  intros [G1 G2 G3 G4] Hs. constructor; try done.
  - intros j x Hj Ux. destruct (G3 j x Hj Ux) as [?|(y & Hy & E)]; [by left|right]. exists y. split; [by right|done].
  - by constructor.
Qed.

Lemma given_take slots ss slots' ss' s id x0 :
  gs_interned s < 0 -> slots !! id = Some x0 -> in_in_use x0 = false ->
  given (<[id := Intern (gs_key s) true]> slots) ss slots' ss' ->
  given slots (s :: ss) slots' (s <| gs_interned := Z.of_nat id |> :: ss').
Proof.
  intros Hn Hid Hfree [G1 G2 G3 G4].
  assert (slots' !! id = Some (Intern (gs_key s) true)) as Hid'.
  { apply G2; [|done]. apply list_lookup_insert_eq. by eapply lookup_lt_Some. }
  assert (forall j x, slots !! j = Some x -> in_use x -> j <> id) as Hne.
  { intros j x Hj Ux ->. unfold in_use in Ux. congruence. }
  constructor.
  - by rewrite G1, length_insert.
  - intros j x Hj Ux. apply G2; [|done]. rewrite list_lookup_insert_ne; [done|]. intros ->. by apply (Hne j x).
  - intros j x Hj Ux. destruct (decide (j = id)) as [->|Hj'].
    + right. exists (s <| gs_interned := Z.of_nat id |>). split; [by left|]. split; [done|]. rewrite Hid' in Hj. by injection Hj as <-.
    + destruct (G3 j x Hj Ux) as [H|(y & Hy & E)]; [left; by rewrite list_lookup_insert_ne in H|right]. exists y. split; [by right|done].
  - constructor; [right; left; split; [done|]; exists id; eauto|]. eapply Forall2_impl; [exact G4|].
    intros a b [H|[(Ha & i & -> & Hi & x & Hx & Ux)|H]]; [by left|right; left|by right; right].
    split; [done|]. exists i. split; [done|]. split; [done|]. destruct (decide (i = id)) as [->|]; [eauto|].
    exists x. by rewrite list_lookup_insert_ne in Hx.
Qed.

Lemma give_ids_spec slots ss :
  Forall (fun s => service_key (gs_key s)) ss -> given slots ss (give_ids slots ss).1 (give_ids slots ss).2.
Proof.
  intros Hk. revert slots. induction Hk as [|s ss Hs _ IH]; intros slots; cbn [give_ids].
  { constructor; [done|done|by left|constructor]. }
  destruct (Z.leb_spec 0 (gs_interned s)) as [Hn|Hn].
  - specialize (IH slots). destruct (give_ids slots ss). apply given_cons; [done|by left].
  - destruct (index_of _ slots) as [id|] eqn:Ei.
    + apply index_of_Some in Ei as (x & Hx & Hf & _). rewrite negb_true_iff in Hf. rewrite service_key_fits by done.
      specialize (IH (<[id:=Intern (gs_key s) true]> slots)). destruct (give_ids _ ss). by eapply given_take.
    + specialize (IH slots). destruct (give_ids slots ss) as [r ss']. cbn [fst snd] in *. apply given_cons; [done|right; right].
      split; [done|]. split; [done|]. apply index_of_None in Ei. rewrite Forall_lookup in Ei |- *. intros j x Hj.
      destruct (lookup_lt_is_Some_2 slots j) as [y Hy]; [rewrite <-(gv_length _ _ _ _ IH); by eapply lookup_lt_Some|].
      assert (in_use y) as Uy by (specialize (Ei j y Hy); by apply negb_false_iff in Ei).
      rewrite (gv_keep _ _ _ _ IH j y Hy Uy) in Hj. by injection Hj as <-.
Qed.

(** ** The interning of a generation *)

Record interning_ok (slots : list dmesh_topology_intern) (ss : list dmesh_gen_service) : Prop := {
  nt_length : length slots = DMESH_TOPOLOGY_INTERN_MAX;
  nt_slots : slots_ok slots;
  nt_range : forall s, s ∈ ss -> -1 <= gs_interned s < Z.of_nat DMESH_TOPOLOGY_INTERN_MAX;
  nt_held : forall j x, slots !! j = Some x -> in_use x -> exists s, s ∈ ss /\ gs_interned s = Z.of_nat j /\ gs_key s = in_key x;
  nt_named : forall s, s ∈ ss -> 0 <= gs_interned s -> slots !! Z.to_nat (gs_interned s) = Some (Intern (gs_key s) true);
  nt_full : forall s, s ∈ ss -> gs_interned s < 0 -> Forall in_use slots }.

Section intern.
  Context (slots : list dmesh_topology_intern) (ss : list dmesh_gen_service).
  Hypothesis (Hlen : length slots = DMESH_TOPOLOGY_INTERN_MAX) (Hsl : slots_ok slots).
  Hypothesis (Hss : services_keyed ss) (Hfresh : Forall (fun s => gs_interned s = -1) ss).

Definition slots1 : list dmesh_topology_intern := kept_slot ss <$> slots.
Definition ss1 : list dmesh_gen_service := (fun s => s <| gs_interned := kept_id 0 slots (gs_interned s) (gs_key s) |>) <$> ss.

Lemma ss1_keyed : services_keyed ss1.
Proof. eapply keyed_same; [|exact Hss]. unfold ss1. rewrite <-list_fmap_compose. by apply list_fmap_ext. Qed.

Lemma intern_given : given slots1 ss1 (intern_services slots ss).1 (intern_services slots ss).2.
Proof.
  unfold intern_services. destruct (keep_ids_spec 0 slots ss Hsl Hss) as [E1 E2]. destruct (keep_ids 0 slots ss) as [a b].
  cbn [fst snd] in E1, E2. subst a b. apply give_ids_spec, ss1_keyed.
Qed.

(** After the first loop a Service has the id of the slot that holds its key. *)
Lemma kept_service s1 : s1 ∈ ss1 ->
  (gs_interned s1 = -1 /\ forall j x, slots !! j = Some x -> in_use x -> in_key x <> gs_key s1) \/
  exists j x, gs_interned s1 = Z.of_nat j /\ slots !! j = Some x /\ in_use x /\ in_key x = gs_key s1 /\ slots1 !! j = Some x.
Proof.
  intros (s & -> & Hs)%list_elem_of_fmap. cbn [gs_interned gs_key set]. unfold kept_id.
  destruct (index_of (slot_holds (gs_key s)) slots) as [j|] eqn:E.
  - right. apply index_of_Some in E as (x & Hx & Hh & _). unfold slot_holds in Hh. apply andb_true_iff in Hh as [Ux Ek].
    apply bool_decide_eq_true in Ek. exists j, x. split; [done|]. split; [done|]. split; [done|]. split; [done|].
    unfold slots1. rewrite list_lookup_fmap, Hx. cbn. f_equal. unfold kept_slot.
    rewrite (bool_decide_eq_true_2 (in_key x ∈ _)), andb_false_r; [done|]. rewrite Ek. by apply list_elem_of_fmap_2.
  - left. rewrite Forall_forall in Hfresh. split; [by apply Hfresh|]. intros j x Hx Ux Ek. apply index_of_None in E.
    rewrite Forall_lookup in E. specialize (E j x Hx). unfold slot_holds in E. rewrite Ux, bool_decide_eq_true_2 in E by done. done.
Qed.

Lemma slots1_used j x : slots1 !! j = Some x -> in_use x -> slots !! j = Some x /\ in_key x ∈ gs_key <$> ss.
Proof.
  unfold slots1. rewrite list_lookup_fmap, fmap_Some. intros (y & Hy & ->). unfold kept_slot, in_use.
  destruct (in_in_use y) eqn:Uy; cbn [andb]; [|rewrite Uy; done].
  destruct (bool_decide_reflect (in_key y ∈ gs_key <$> ss)); cbn [negb]; [done|done].
Qed.

Lemma slots1_holds j x : slots1 !! j = Some x -> in_use x -> exists s1, s1 ∈ ss1 /\ gs_interned s1 = Z.of_nat j /\ gs_key s1 = in_key x.
Proof.
  intros Hj Ux. destruct (slots1_used j x Hj Ux) as [Hx (s & E & Hs)%list_elem_of_fmap].
  exists (s <| gs_interned := kept_id 0 slots (gs_interned s) (gs_key s) |>). split; [apply list_elem_of_fmap; by exists s|]. split; [|done].
  cbn [gs_interned set]. unfold kept_id. destruct (index_of (slot_holds (gs_key s)) slots) as [i|] eqn:Ei.
  - apply index_of_Some in Ei as (y & Hy & Hh & _). unfold slot_holds in Hh. apply andb_true_iff in Hh as [Uy Ey].
    apply bool_decide_eq_true in Ey. f_equal. apply (proj2 Hsl i j y x); [done..|]. congruence.
  - exfalso. apply index_of_None in Ei. rewrite Forall_lookup in Ei. specialize (Ei j x Hx). unfold slot_holds in Ei.
    rewrite Ux, bool_decide_eq_true_2 in Ei by done. done.
Qed.
Abbreviation slots' := ((intern_services slots ss).1).
Abbreviation ss' := ((intern_services slots ss).2).

(** Every Service after both loops, with what the first loop left it. *)
Lemma given_service s' : s' ∈ ss' -> exists s1, s1 ∈ ss1 /\ gs_key s' = gs_key s1 /\ given_id slots1 slots' s' s1.
Proof.
  intros [i Hi]%list_elem_of_lookup. destruct (Forall2_lookup_l _ _ _ _ _ (gv_services _ _ _ _ intern_given) Hi) as (s1 & Hs1 & Hg).
  exists s1. split; [by eapply list_elem_of_lookup_2|]. split; [|done]. destruct Hg as [[_ ->]|[(_ & id & -> & _)|(_ & -> & _)]]; done.
Qed.

Lemma service_given s1 : s1 ∈ ss1 -> exists s', s' ∈ ss' /\ gs_key s' = gs_key s1 /\ given_id slots1 slots' s' s1.
Proof.
  intros [i Hi]%list_elem_of_lookup. destruct (Forall2_lookup_r _ _ _ _ _ (gv_services _ _ _ _ intern_given) Hi) as (s' & Hs' & Hg).
  exists s'. split; [by eapply list_elem_of_lookup_2|]. split; [|done]. destruct Hg as [[_ ->]|[(_ & id & -> & _)|(_ & -> & _)]]; done.
Qed.

Lemma slot_named s' : s' ∈ ss' -> 0 <= gs_interned s' -> slots' !! Z.to_nat (gs_interned s') = Some (Intern (gs_key s') true).
Proof.
  intros Hs' Hn. destruct (given_service s' Hs') as (s1 & Hs1 & Ek & [[_ ->]|[(_ & id & -> & Hid & _)|(Hneg & -> & _)]]); [| |lia].
  - destruct (kept_service s1 Hs1) as [[Hm _]|(j & x & Ej & Hx & Ux & Hkx & Hx1)]; [lia|]. rewrite Ej, Nat2Z.id.
    rewrite (gv_keep _ _ _ _ intern_given j x Hx1 Ux). f_equal. unfold in_use in Ux. destruct x. cbn in *. by subst.
  - cbn [gs_interned set]. by rewrite Nat2Z.id.
Qed.

Lemma held_by j x : slots' !! j = Some x -> in_use x -> exists s', s' ∈ ss' /\ gs_interned s' = Z.of_nat j /\ gs_key s' = in_key x.
Proof.
  intros Hj Ux. destruct (gv_new _ _ _ _ intern_given j x Hj Ux) as [H|H]; [|done].
  destruct (slots1_holds j x H Ux) as (s1 & Hs1 & Ei & Ek). destruct (service_given s1 Hs1) as (s' & Hs' & Ek' & Hg).
  exists s'. split; [done|]. split; [|congruence]. destruct Hg as [[_ ->]|[(Hneg & _)|(Hneg & _)]]; [done|lia..].
Qed.

Lemma ss'_keyed : services_keyed ss'.
Proof. eapply keyed_same; [|exact Hss]. apply relabelled_fmap; [done|apply intern_relabelled]. Qed.

Lemma intern_services_ok : interning_ok slots' ss'.
Proof.
  assert (length slots' = DMESH_TOPOLOGY_INTERN_MAX) as Hl.
  { rewrite (gv_length _ _ _ _ intern_given). unfold slots1. by rewrite length_fmap. }
  constructor.
  - done.
  - split.
    + intros j x Hj Ux. destruct (held_by j x Hj Ux) as (s' & [i Hi]%list_elem_of_lookup & _ & <-).
      destruct ss'_keyed as [Hk _]. rewrite Forall_lookup in Hk. by apply (Hk i).
    + intros i j x y Hi Hj Ux Uy E. destruct (held_by i x Hi Ux) as (a & Ha & Ea & Eka). destruct (held_by j y Hj Uy) as (b & Hb & Eb & Ekb).
      apply list_elem_of_lookup in Ha as [n Hn], Hb as [m Hm].
      assert (n = m) as <- by (eapply keyed_inj; [exact ss'_keyed|done..|congruence]). simplify_eq. lia.
  - intros s' Hs'. destruct (decide (0 <= gs_interned s')) as [Hn|Hn].
    + pose proof (lookup_lt_Some _ _ _ (slot_named s' Hs' Hn)). lia.
    + destruct (given_service s' Hs') as (s1 & Hs1 & _ & [[? ->]|[(_ & id & -> & _)|(Hneg & -> & _)]]); [lia|cbn in Hn; lia|].
      destruct (kept_service s1 Hs1) as [[-> _]|(j & x & Ej & _)]; [unfold DMESH_TOPOLOGY_INTERN_MAX; lia|lia].
  - apply held_by.
  - apply slot_named.
  - intros s' Hs' Hn. destruct (given_service s' Hs') as (s1 & Hs1 & _ & [[? ->]|[(_ & id & -> & _)|(_ & _ & H)]]); [lia|cbn in Hn; lia|done].
Qed.

(** A slot in use whose Service is still there keeps it. *)
Lemma intern_services_stable j x : slots !! j = Some x -> in_use x -> in_key x ∈ gs_key <$> ss -> slots' !! j = Some x.
Proof.
  intros Hx Ux Hin. apply (gv_keep _ _ _ _ intern_given); [|done]. unfold slots1. rewrite list_lookup_fmap, Hx. cbn. f_equal.
  unfold kept_slot. by rewrite bool_decide_eq_true_2, andb_false_r by done.
Qed.
End intern.

(** In an interning the id of a Service determines it. *)
Lemma interning_inj slots ss s s' :
  interning_ok slots ss -> services_keyed ss -> s ∈ ss -> s' ∈ ss -> 0 <= gs_interned s -> gs_interned s = gs_interned s' -> s = s'.
Proof.
  intros Hok Hk Hs Hs' Hn E. pose proof (nt_named _ _ Hok s Hs Hn) as H1. pose proof (nt_named _ _ Hok s' Hs' ltac:(lia)) as H2.
  rewrite E, H2 in H1. injection H1 as Ek. apply list_elem_of_lookup in Hs as [i Hi], Hs' as [j Hj].
  assert (i = j) as <- by (by eapply keyed_inj; [exact Hk|..]). congruence.
Qed.

(** ** The topology consumer over time ([doca/topology.c])

    What one refresh may change, which documents it adopts, and the invariant
    every refresh and every poll keeps. *)

(** ** Freshly parsed Services have no id *)

Abbreviation unlabelled := (Forall (fun s => gs_interned s = -1)).

Lemma same_labels (l l' : list dmesh_gen_service) : gs_interned <$> l' = gs_interned <$> l -> unlabelled l -> unlabelled l'.
Proof. intros E H. apply (Forall_fmap gs_interned (fun n => n = -1)). rewrite E. by apply Forall_fmap. Qed.

Lemma group_labels s e xs rest : gs_interned <$> group_endpoints s e xs rest = gs_interned <$> xs.
Proof. revert s e rest. induction xs as [|x xs IH]; intros s e rest; [done|]. cbn [group_endpoints]. rewrite !fmap_cons, IH. done. Qed.

Lemma protect_all_labels xs lines ys : protect_all xs lines = Some ys -> gs_interned <$> ys = gs_interned <$> xs.
Proof.
  revert xs. induction lines as [|l lines IH]; intros xs; cbn [protect_all]; [by intros [= ->]|].
  intros (zs & Hz & Hys)%bind_Some. rewrite (IH zs Hys). unfold protect in Hz.
  apply bind_Some in Hz as (k & _ & Hz). apply bind_Some in Hz as (i & _ & [= <-]). clear.
  revert i. induction xs as [|x xs IH]; intros [|i]; [done..|]. cbn. apply (f_equal2 cons); [done|]. apply IH.
Qed.

Lemma resolve_unlabelled v rs t : resolve (records_state v rs) = Some t -> unlabelled (tt_services t).
Proof.
  unfold resolve. cbn [records_state pz_pods pz_services pz_endpoint_lines pz_protected_lines pz_version pz_nodes].
  intros (_ & _ & H)%bind_Some. apply bind_Some in H as (_ & _ & H). apply bind_Some in H as (es & _ & H).
  apply bind_Some in H as (ss & Hss & [= <-]). cbn [tt_services]. eapply same_labels; [by eapply protect_all_labels|].
  eapply same_labels; [apply group_labels|]. rewrite merge_sort_Permutation. apply Forall_fmap, Forall_true. done.
Qed.

(** ** The invariant *)

(** A consumer that holds the tables of a document with these records. *)
Record holding (t : dmesh_topology) (tb : dmesh_topology_tables) (rs : list gen_record) : Prop := {
  hd_tables : tp_tables t = Some tb;
  hd_ok : tables_sound tb;
  hd_records : consistent rs;
  hd_represents : represents (tt_version tb) rs tb;
  hd_interning : interning_ok (tp_interned t) (tt_services tb) }.

Record topology_inv (t : dmesh_topology) : Prop := {
  ti_length : length (tp_interned t) = DMESH_TOPOLOGY_INTERN_MAX;
  ti_slots : slots_ok (tp_interned t);
  ti_held : forall tb, tp_tables t = Some tb -> 0 < tt_version tb /\ exists rs, holding t tb rs }.

(** What the consumer knows of the cluster. *)
Definition knowledge (t : dmesh_topology) : option dmesh_topology_tables * option dmesh_topology_tables * list dmesh_topology_intern :=
  (tp_tables t, tp_retired t, tp_interned t).

Lemma topology_inv_knowledge t t' : knowledge t' = knowledge t -> topology_inv t -> topology_inv t'.
Proof.
  intros [= E1 E2 E3] [H1 H2 H3]. constructor; [by rewrite E3..|]. rewrite E1. intros tb Htb. destruct (H3 tb Htb) as [Hv [rs []]].
  split; [done|]. exists rs. constructor; congruence || done.
Qed.

Lemma slots_ok_empty n : slots_ok (repeat (Intern [] false) n).
Proof. split; [intros j x Hj|intros i j x y Hi]; [apply lookup_repeat in Hj as ->|apply lookup_repeat in Hi as ->]; done. Qed.

Lemma topology_inv_zero t : tp_tables t = None -> tp_interned t = repeat (Intern [] false) DMESH_TOPOLOGY_INTERN_MAX -> topology_inv t.
Proof. intros E1 E2. constructor; [by rewrite E2..|rewrite E2; apply slots_ok_empty|by rewrite E1]. Qed.

Lemma configure_inv path key_dir directory ok t : dmesh_topology_configure path key_dir directory = (ok, t) -> topology_inv t.
Proof.
  unfold dmesh_topology_configure. intros E.
  repeat match type of E with
  | context [match ?x with _ => _ end] => destruct x
  end; injection E as <- <-; by apply topology_inv_zero.
Qed.

(** ** One refresh *)

(** The document found carries the signature of a controller key and spells
    these records. *)
Record offered (C : crypto) (F : file_system) (io : refresh_io) (t : dmesh_topology) (cs : list (list byte)) (v : Z)
    (rs : list gen_record) : Prop := {
  of_enabled : tp_enabled t = true;
  of_document : exists st bytes e key, io_stat io = Some st /\ ds_regular st = true /\ u64 (ds_size st) <= DMESH_TOPOLOGY_MAX_BYTES /\
    settled (io_wall_sec io) st && stamped t st = false /\ io_read io = Some bytes /\
    enveloped (take (Z.to_nat (ds_size st)) bytes) (show_document cs v rs) 64 e /\
    tp_key_dir t <> [] /\ load_named_key F (tp_key_dir t) (fe_key_id e) = Some key /\ ed25519_key C key = true /\
    ed25519_verify C key (fe_signature e) (show_document cs v rs) = true;
  of_resources : io_open io = true /\ io_malloc io = true /\ io_alloc io = true /\ md_ctx_new C = true;
  of_valid : valid_document cs v rs }.

Lemma gen_verify_ok C F doc dir n :
  dmesh_gen_verify C F doc dir = (FEED_OK, Some n) <->
  dir <> [] /\ md_ctx_new C = true /\ exists e key, feed_envelope_split doc 64 = inr e /\ n = fe_prefix_len e /\
    load_named_key F dir (fe_key_id e) = Some key /\ ed25519_key C key = true /\
    ed25519_verify C key (fe_signature e) (take n doc) = true.
Proof.
  unfold dmesh_gen_verify. split.
  - case_bool_decide; [done|]. destruct (feed_envelope_split doc 64) as [r|e] eqn:Es; [by intros [= -> ?]|].
    destruct (load_named_key _ _ _) as [key|] eqn:Ek; [|done]. destruct (ed25519_key C key) eqn:E1; [|done].
    destruct (md_ctx_new C) eqn:E2; [|done]. cbn [negb]. destruct (ed25519_verify _ _ _ _) eqn:E3; [|done]. intros [= <-].
    split; [done|]. split; [done|]. by exists e, key.
  - intros (Hd & -> & e & key & -> & -> & -> & -> & ->). by rewrite bool_decide_eq_false_2.
Qed.

Lemma gen_verify_result C F doc dir r n : dmesh_gen_verify C F doc dir = (r, Some n) -> r = FEED_OK.
Proof.
  unfold dmesh_gen_verify. case_bool_decide; [done|]. destruct (feed_envelope_split doc 64) as [r'|e]; [done|].
  destruct (load_named_key _ _ _) as [key|]; [|done]. destruct (ed25519_key C key); [|done].
  destruct (md_ctx_new C); [|done]. cbn [negb]. by destruct (ed25519_verify _ _ _ _); intros [= <-].
Qed.

Lemma parse_no_alloc doc slots : (dmesh_topology_parse false doc slots).1 <> TOPOLOGY_ADOPTED.
Proof.
  unfold dmesh_topology_parse. destruct (document_lines doc); [|done]. destruct (count_lines _ _); [|done].
  destruct (negb (have_version _)); [done|]. by destruct (over_bound _).
Qed.

(** What the parser returns for a valid document when the ids are kept. *)
Record parsed_to (slots : list dmesh_topology_intern) (v : Z) (rs : list gen_record) (tb : dmesh_topology_tables)
    (slots' : list dmesh_topology_intern) : Prop := {
  pd_version : tt_version tb = v;
  pd_ok : tables_sound tb;
  pd_represents : represents v rs tb;
  pd_interning : interning_ok slots' (tt_services tb);
  pd_stable : forall j x, slots !! j = Some x -> in_use x -> in_key x ∈ gs_key <$> tt_services tb -> slots' !! j = Some x }.

Lemma parse_parsed cs v rs slots : length slots = DMESH_TOPOLOGY_INTERN_MAX -> slots_ok slots -> valid_document cs v rs ->
  exists tb slots', dmesh_topology_parse true (show_document cs v rs) (Some slots) = (TOPOLOGY_ADOPTED, Some (tb, Some slots')) /\
    parsed_to slots v rs tb slots'.
Proof.
  intros Hl Hs Hv. destruct (parse_accepts cs v rs (Some slots) Hv) as (t & Ht & Hr & Ho & ->).
  pose proof (resolve_unlabelled v rs t Ht) as Hu. pose proof (tables_keyed t Ho) as Hk.
  pose proof (intern_relabelled slots (tt_services t)) as Hrl.
  eexists _, _. split; [reflexivity|]. constructor; cbn [tt_services set].
  - apply (rp_version _ _ _ Hr).
  - by apply tables_ok_relabelled.
  - by apply represents_relabelled.
  - by apply intern_services_ok.
  - intros j x Hj Ux Hin. apply (intern_services_stable slots (tt_services t)); try done.
    revert Hin. cbn. by rewrite (relabelled_fmap gs_key _ (tt_services t)) by done.
Qed.

Lemma refresh_offered C F io t cs v rs : topology_inv t -> offered C F io t cs v rs ->
  exists st tb slots, dmesh_topology_refresh C F io t = topology_adopt t st tb slots /\ parsed_to (tp_interned t) v rs tb slots.
Proof.
  intros Hi [H1 (st & bytes & e & key & Hst & Hr & Hsz & Hf & Hb & He & Hd & Hk & Hek & Hv) (R1 & R2 & R3 & R4) Hval].
  destruct (parse_parsed cs v rs (tp_interned t) (ti_length _ Hi) (ti_slots _ Hi) Hval) as (tb & slots & Hp & Hpd).
  exists st, tb, slots. split; [|done]. unfold dmesh_topology_refresh. rewrite H1, Hst, Hr, Hf, R1, R2, R3, Hb. cbn [negb orb].
  rewrite (proj2 (Z.ltb_ge _ _) Hsz). pose proof (split_complete _ _ _ _ He) as Hs.
  destruct He as (hex & tail & Hdoc & _ & _ & Hlen & _).
  rewrite (proj2 (gen_verify_ok C F _ (tp_key_dir t) (fe_prefix_len e))); cycle 1.
  { split; [done|]. split; [done|]. exists e, key. repeat (split; [done|]). by rewrite Hdoc, Hlen, take_app_length. }
  rewrite Hdoc, Hlen, take_app_length, Hp. done.
Qed.

Lemma refresh_otherwise C F io t r t' : dmesh_topology_refresh C F io t = (r, t') ->
  (t' = t /\ r <> TOPOLOGY_ADOPTED) \/ exists cs v rs, offered C F io t cs v rs.
Proof.
  unfold dmesh_topology_refresh. destruct (tp_enabled t) eqn:H1; cbn [negb]; [|intros [= <- <-]; by left].
  destruct (io_stat io) as [st|] eqn:Hst; [|intros [= <- <-]; by left].
  destruct (ds_regular st) eqn:Hr; cbn [negb]; [|intros [= <- <-]; by left].
  destruct (Z.ltb_spec DMESH_TOPOLOGY_MAX_BYTES (u64 (ds_size st))) as [|Hsz]; [intros [= <- <-]; by left|].
  destruct (settled _ _ && _) eqn:Hf; [intros [= <- <-]; by left|].
  destruct (io_open io) eqn:R1; cbn [negb orb]; [|intros [= <- <-]; by left].
  destruct (io_malloc io) eqn:R2; cbn [negb orb]; [|intros [= <- <-]; by left].
  destruct (io_read io) as [bytes|] eqn:Hb; [|intros [= <- <-]; by left]. set (doc := take _ bytes).
  destruct (dmesh_gen_verify C F doc (tp_key_dir t)) as [f [n|]] eqn:Hg; [|destruct f; intros [= <- <-]; by left].
  pose proof (gen_verify_result _ _ _ _ _ _ Hg) as ->. apply gen_verify_ok in Hg as (Hd & R4 & e & key & Hs & -> & Hk & Hek & Hv).
  destruct (split_sound _ _ _ Hs) as (prefix & He). pose proof He as (hex & tail & Hdoc & _ & _ & Hlen & _).
  assert (take (fe_prefix_len e) doc = prefix) as Et by (by rewrite Hdoc, Hlen, take_app_length). rewrite Et in Hv |- *.
  destruct (io_alloc io) eqn:R3.
  - destruct (dmesh_topology_parse true prefix (Some (tp_interned t))) as [r0 x] eqn:Hp.
    destruct (decide (r0 = TOPOLOGY_ADOPTED)) as [->|Hne].
    + intros _. right. destruct (parse_accepted _ _ _ Hp) as (cs & v & rs & Hval & ->). exists cs, v, rs.
      constructor; [done| |done|done]. exists st, bytes, e, key. done.
    + intros E. left. destruct r0; try done; by destruct x as [[? [?|]]|]; injection E as <- <-.
  - pose proof (parse_no_alloc prefix (Some (tp_interned t))) as Hne. destruct (dmesh_topology_parse false _ _) as [r0 x]. cbn in Hne.
    intros E. left. destruct r0; try done; by destruct x as [[? [?|]]|]; injection E as <- <-.
Qed.

Lemma adopt_cases t st tb slots : topology_inv t -> 0 < tt_version tb ->
  (held_version t < tt_version tb /\ (topology_adopt t st tb slots).1 = TOPOLOGY_ADOPTED /\
   knowledge (topology_adopt t st tb slots).2 = (Some tb, tp_tables t, slots)) \/
  (tt_version tb <= held_version t /\ (topology_adopt t st tb slots).1 <> TOPOLOGY_ADOPTED /\ knowledge (topology_adopt t st tb slots).2 = knowledge t).
Proof.
  intros Hi Hv. unfold topology_adopt. destruct (Z.ltb_spec (tt_version tb) (held_version t)); [right; split; [lia|done]|].
  destruct (bool_decide (tp_tables t <> None) && (tt_version tb =? held_version t)) eqn:E.
  - apply andb_true_iff in E as [_ E%Z.eqb_eq]. right. split; [lia|done].
  - left. split; [|done]. apply andb_false_iff in E as [E|E]; [|apply Z.eqb_neq in E; lia].
    apply bool_decide_eq_false in E. unfold held_version. destruct (tp_tables t); [by destruct E|done].
Qed.

(** The effect of a refresh on what the consumer knows. *)
Lemma refresh_effect C F io t : topology_inv t ->
  (exists cs v rs tb slots, offered C F io t cs v rs /\ held_version t < v /\ parsed_to (tp_interned t) v rs tb slots /\
     (dmesh_topology_refresh C F io t).1 = TOPOLOGY_ADOPTED /\
     knowledge (dmesh_topology_refresh C F io t).2 = (Some tb, tp_tables t, slots)) \/
  ((forall cs v rs, offered C F io t cs v rs -> v <= held_version t) /\
   (dmesh_topology_refresh C F io t).1 <> TOPOLOGY_ADOPTED /\ knowledge (dmesh_topology_refresh C F io t).2 = knowledge t).
Proof.
  intros Hi. assert (forall cs v rs, offered C F io t cs v rs -> 0 < v) as Hpos by (intros cs v rs [_ _ _ (_ & ? & _)]; lia).
  destruct (dmesh_topology_refresh C F io t) as [r t'] eqn:E. pose proof (refresh_otherwise _ _ _ _ _ _ E) as [[-> Hne]|(cs & v & rs & Ho)].
  - right. cbn. split; [|done]. intros cs v rs Ho. destruct (refresh_offered _ _ _ _ _ _ _ Hi Ho) as (st & tb & slots & E' & Hp).
    pose proof (pd_version _ _ _ _ _ Hp) as Ev. pose proof (Hpos _ _ _ Ho).
    destruct (adopt_cases t st tb slots Hi ltac:(lia)) as [(_ & H2 & _)|(H1 & _)]; [|lia]. rewrite E in E'. rewrite <-E' in H2. done.
  - destruct (refresh_offered _ _ _ _ _ _ _ Hi Ho) as (st & tb & slots & E' & Hp). rewrite E in E'.
    pose proof (pd_version _ _ _ _ _ Hp) as Ev. pose proof (Hpos _ _ _ Ho).
    destruct (adopt_cases t st tb slots Hi ltac:(lia)) as [(H1 & H2 & H3)|(H1 & H2 & H3)]; rewrite <-E' in H2, H3; cbn in *.
    + left. exists cs, v, rs, tb, slots. rewrite Ev in H1. done.
    + right. split; [|done]. intros cs' v' rs' Ho'. destruct (refresh_offered _ _ _ _ _ _ _ Hi Ho') as (st' & tb' & slots' & E'' & Hp').
      rewrite E in E''. pose proof (pd_version _ _ _ _ _ Hp') as Ev'. pose proof (Hpos _ _ _ Ho').
      destruct (adopt_cases t st' tb' slots' Hi ltac:(lia)) as [(_ & K2 & _)|(K1 & _)]; [|lia]. rewrite <-E'' in K2. done.
Qed.

Lemma parsed_inv t t' cs v rs tb slots : topology_inv t -> valid_document cs v rs -> parsed_to (tp_interned t) v rs tb slots ->
  knowledge t' = (Some tb, tp_tables t, slots) -> topology_inv t' /\ holding t' tb rs.
Proof.
  intros Hi (_ & Hv & Hc) Hp [= E1 E2 E3]. pose proof (pd_interning _ _ _ _ _ Hp) as Hn.
  assert (holding t' tb rs) as Hh.
  { constructor; [done|apply (pd_ok _ _ _ _ _ Hp)|done|rewrite (pd_version _ _ _ _ _ Hp); apply (pd_represents _ _ _ _ _ Hp)|by rewrite E3]. }
  split; [|done]. constructor; rewrite ?E3; [apply (nt_length _ _ Hn)|apply (nt_slots _ _ Hn)|].
  intros tb' Htb. assert (tb' = tb) as -> by congruence. rewrite (pd_version _ _ _ _ _ Hp). split; [lia|]. by exists rs.
Qed.

Lemma refresh_keeps C F io t : topology_inv t -> topology_inv (dmesh_topology_refresh C F io t).2.
Proof.
  intros Hi. destruct (refresh_effect C F io t Hi) as [(cs & v & rs & tb & slots & Ho & _ & Hp & _ & Hk)|(_ & _ & Hk)].
  - by eapply parsed_inv; [| |exact Hp|]; [|apply Ho|].
  - by eapply topology_inv_knowledge.
Qed.


(** ** Polls *)

Lemma progress_effect C F now io t : topology_inv t ->
  (exists t0, knowledge t0 = knowledge t /\ topology_inv t0 /\
     knowledge (dmesh_topology_progress C F now io t).2 = knowledge (dmesh_topology_refresh C F io t0).2) \/
  knowledge (dmesh_topology_progress C F now io t).2 = knowledge t.
Proof.
  intros Hi. unfold dmesh_topology_progress. destruct (negb (tp_enabled t)); [by right|]. destruct now as [now|]; [|by right].
  destruct (now <? tp_next_check_ns t); [by right|]. left. set (t0 := t <| tp_next_check_ns := _ |>).
  exists t0. split; [done|]. split; [by apply (topology_inv_knowledge t t0)|].
  destruct (dmesh_topology_refresh C F io t0) as [r t1]. by destruct r.
Qed.

Lemma poll_keeps C F now io t : topology_inv t -> topology_inv (dmesh_topology_progress C F now io t).2.
Proof.
  intros Hi. destruct (progress_effect C F now io t Hi) as [(t0 & _ & Hi0 & E)|E]; (eapply topology_inv_knowledge; [exact E|]); [|done].
  by apply refresh_keeps.
Qed.

(** ** A run *)

Definition feed_path : list byte := txt "/etc/dpumesh/topology".
Definition demo_dir : list byte := txt "/etc/dpumesh/keys".
Definition feed_key : list byte := repeat x07 32.
Definition demo_uid : list byte := txt "12345678-1234-1234-1234-123456789abc".
Definition demo_pod : dmesh_gen_pod := GenPod demo_uid (txt "node-b") (txt "shop") (txt "default") 180945169.
Definition demo_records : list gen_record :=
  [RNode (GenNode (txt "node-b") 167837953 4420 (repeat x09 32)); RPod demo_pod; RService (txt "shop/web") 174325761 80;
   REndpoint (txt "shop/web") demo_uid; RProtected (txt "shop/web")].
Definition demo_document (v : Z) (records : list gen_record) : list byte :=
  let prefix := show_document [] v records in
  prefix ++ txt "signature=ctl-1," ++ show_hex (take 64 (feed_key ++ reverse prefix ++ repeat x00 64)).

Definition demo_files : file_system :=
  FileSystem (fun path => if bytes_eq path (demo_dir ++ txt "/ctl-1.key")
                          then Some (OpenedFile (Some (FileStat true 0 256)) (Some feed_key) 0) else None) 0.
Definition document_io (ino : Z) (document : list byte) : refresh_io :=
  RefreshIo (Some (DocumentStat true (Z.of_nat (length document)) ino 0 0)) None true true (Some document) true.
Definition demo_io (v : Z) : refresh_io := document_io 12 (demo_document v demo_records).
Definition demo_consumer : dmesh_topology :=
  (dmesh_topology_configure (Some feed_path) (Some demo_dir) (fun _ => Some (true, [txt "ctl-1.key"]))).2.
Definition demo_adopted : dmesh_topology := (dmesh_topology_refresh toy_crypto demo_files (demo_io 5) demo_consumer).2.

Lemma demo_consumer_inv : topology_inv demo_consumer.
Proof. exact (configure_inv (Some feed_path) (Some demo_dir) (fun _ => Some (true, [txt "ctl-1.key"])) _ _ (surjective_pairing _)). Qed.


Definition demo_tables : dmesh_topology_tables := default (Tables 0 [] [] [] []) (tp_tables demo_adopted).

(** After the adoption the consumer holds the tables of some document. *)
Lemma demo_holding : exists rs, holding demo_adopted demo_tables rs.
Proof.
  destruct (refresh_effect toy_crypto demo_files (demo_io 5) demo_consumer demo_consumer_inv) as [(cs & v & rs & tb & slots & Ho & _ & Hp & _ & E)|(_ & Hne & _)].
  - fold demo_adopted in E. exists rs. destruct (parsed_inv _ _ _ _ _ _ _ demo_consumer_inv (of_valid _ _ _ _ _ _ _ Ho) Hp E) as [_ Hh].
    unfold demo_tables. rewrite (hd_tables _ _ _ Hh). exact Hh.
  - exfalso. apply Hne. vm_compute. reflexivity.
Qed.
