(* ===== verification/TopologyLookups.v ===== *)
(** * Lookups of the topology ([doca/topology.c])

    Every lookup answers what the records of the adopted document say. *)

From S2P Require Import Prelude Text Spans PeerIdentity WorkloadIdentity WorkloadProofs Topology TopologyGrammar TopologyParse TopologyIntern.

Lemma service_key_length k : service_key k -> (length k < SERVICE_KEY_SIZE)%nat.
Proof.
  intros (ns & n & -> & _ & _ & H1 & H2). rewrite length_app. cbn [length]. change SERVICE_KEY_SIZE with 128%nat. lia.
Qed.

Lemma cstr_idem s : cstr (cstr s) = cstr s.
Proof. induction s as [|c s IH]; [done|]. cbn [cstr]. destruct (b2z c =? 0) eqn:E; [done|]. cbn [cstr]. by rewrite E, IH. Qed.

Section held.
  Context (t : dmesh_topology) (tb : dmesh_topology_tables) (rs : list gen_record).
  Hypothesis (H : holding t tb rs).

Lemma held_service_key s : s ∈ tt_services tb -> service_key (gs_key s) /\ cstr (gs_key s) = gs_key s.
Proof.
  intros Hs. destruct (to_texts tb (hd_ok _ _ _ H)) as [_ Hk]. rewrite Forall_forall in Hk. specialize (Hk s Hs).
  split; [done|]. by apply plain_cstr, service_key_plain.
Qed.

Lemma held_pod_ok p : p ∈ tt_pods tb -> pod_ok p /\ cstr (gp_uid p) = gp_uid p /\ cstr (gp_node_name p) = gp_node_name p.
Proof.
  intros Hp. destruct (to_texts tb (hd_ok _ _ _ H)) as [Hk _]. rewrite Forall_forall in Hk. specialize (Hk p Hp).
  split; [done|]. split; apply plain_cstr; [by apply pod_uid_plain, Hk|by apply dns_name_plain, Hk].
Qed.

Lemma held_pods p : p ∈ tt_pods tb <-> p ∈ pods_of rs.
Proof. by rewrite (rp_pods _ _ _ (hd_represents _ _ _ H)). Qed.

Lemma held_services key ip port :
  (key, ip, port) ∈ services_of rs <-> exists s, s ∈ tt_services tb /\ gs_key s = key /\ gs_cluster_ip_be s = ip /\ gs_port s = port.
Proof.
  rewrite <-(rp_services _ _ _ (hd_represents _ _ _ H)), list_elem_of_fmap. split.
  - intros (s & [= -> -> ->] & Hs). by exists s.
  - intros (s & Hs & <- & <- & <-). by exists s.
Qed.

Lemma pod_found uid p : dmesh_topology_pod t (Some uid) = Some p <-> p ∈ tt_pods tb /\ gp_uid p = cstr uid.
Proof.
  unfold dmesh_topology_pod. rewrite (hd_tables _ _ _ H). cbn [mbind option_bind]. split.
  - destruct (_ <=? _)%nat; [done|]. intros (i & Hi & Hp)%bind_Some.
    apply (bsearch_sorted gp_uid) in Hi as (p' & Hp' & E); [|apply to_pods, H]. rewrite Hp in Hp'. injection Hp' as <-.
    apply list_elem_of_lookup_2 in Hp. destruct (held_pod_ok p Hp) as (_ & Ec & _). split; [done|]. by rewrite <-Ec, <-E, cstr_idem.
  - intros [Hp E]. destruct (held_pod_ok p Hp) as ([[Hl _] _] & Ec & _). rewrite E in Hl.
    destruct (Nat.leb_spec DMESH_POD_UID_MAX (length (cstr uid))) as [Hb|]; [unfold DMESH_POD_UID_MAX in Hb; lia|].
    apply list_elem_of_lookup in Hp as [i Hi]. assert (find_pod (tt_pods tb) (cstr uid) = Some i) as ->; [|done].
    apply (bsearch_sorted gp_uid); [apply to_pods, H|]. exists p. split; [done|]. by rewrite cstr_idem, E, cstr_idem.
Qed.

Lemma service_found key s : dmesh_topology_service t (Some key) = Some s <-> s ∈ tt_services tb /\ gs_key s = cstr key.
Proof.
  unfold dmesh_topology_service. rewrite (hd_tables _ _ _ H). cbn [mbind option_bind]. split.
  - destruct (_ <=? _)%nat; [done|]. intros (i & Hi & Hp)%bind_Some.
    apply (bsearch_sorted gs_key) in Hi as (p' & Hp' & E); [|apply to_services, H]. rewrite Hp in Hp'. injection Hp' as <-.
    apply list_elem_of_lookup_2 in Hp. destruct (held_service_key s Hp) as (_ & Ec). split; [done|]. by rewrite <-Ec, <-E, cstr_idem.
  - intros [Hp E]. destruct (held_service_key s Hp) as (Hk & Ec). apply service_key_length in Hk. rewrite E in Hk.
    destruct (Nat.leb_spec SERVICE_KEY_SIZE (length (cstr key))) as [Hb|]; [lia|].
    apply list_elem_of_lookup in Hp as [i Hi]. assert (find_service (tt_services tb) (cstr key) = Some i) as ->; [|done].
    apply (bsearch_sorted gs_key); [apply to_services, H|]. exists s. split; [done|]. by rewrite cstr_idem, E, cstr_idem.
Qed.

Lemma interned_service id s : 0 <= id -> service_interned_as tb id = Some s <-> s ∈ tt_services tb /\ gs_interned s = id.
Proof.
  intros Hid. unfold service_interned_as. rewrite fmap_Some. split.
  - intros ([i x] & (Hx & E & _)%list_find_Some & ->). split; [by eapply list_elem_of_lookup_2|done].
  - intros [Hs E]. destruct (list_find (fun s => gs_interned s = id) (tt_services tb)) as [[i x]|] eqn:Ef.
    + exists (i, x). split; [done|]. apply list_find_Some in Ef as (Hx & Ex & _). cbn.
      apply (interning_inj _ _ s x (hd_interning _ _ _ H)); [apply tables_keyed, H|done|by eapply list_elem_of_lookup_2|lia|congruence].
    + rewrite list_find_None, Forall_forall in Ef. by destruct (Ef s Hs).
Qed.

Lemma pod_index uid p i : tt_pods tb !! i = Some p -> gp_uid p = cstr uid -> index_of (fun p => str_eq (gp_uid p) uid) (tt_pods tb) = Some i.
Proof.
  intros Hi E. apply index_of_Some. exists p. split; [done|]. pose proof (list_elem_of_lookup_2 _ _ _ Hi) as Hp.
  split; [apply str_eq_spec; by rewrite E, cstr_idem|].
  intros j y Hj Hy. apply not_true_iff_false. rewrite str_eq_spec. intros E'.
  destruct (held_pod_ok y (list_elem_of_lookup_2 _ _ _ Hy)) as (_ & Ey & _). rewrite Ey, <-E in E'.
  assert (j = i) by (by eapply (sorted_key_inj gp_uid); [apply to_pods, H|..]). lia.
Qed.

Lemma backend_listed s uid : s ∈ tt_services tb ->
  (exists p, p ∈ endpoint_pods tb s /\ gp_uid p = uid) <-> (gs_key s, uid) ∈ endpoints_of rs.
Proof.
  intros Hs. pose proof (rp_endpoints _ _ _ (hd_represents _ _ _ H) s Hs) as Hp. split.
  - intros (p & Hin & <-). apply (list_elem_of_fmap_2 gp_uid) in Hin. rewrite Hp in Hin. unfold backends in Hin.
    apply list_elem_of_fmap in Hin as ([k u] & E & [Hk Hin]%list_elem_of_filter). cbn in *. by subst.
  - intros Hin. assert (uid ∈ gp_uid <$> endpoint_pods tb s) as Hu.
    { rewrite Hp. unfold backends. apply list_elem_of_fmap. exists (gs_key s, uid). split; [done|]. by apply list_elem_of_filter. }
    apply list_elem_of_fmap in Hu as (p & -> & Hin'). by exists p.
Qed.

Lemma endpoint_pod_in s p : p ∈ endpoint_pods tb s -> p ∈ tt_pods tb.
Proof. unfold endpoint_pods. intros (e & _ & He)%list_elem_of_omap. apply bind_Some in He as (ep & _ & He). by eapply list_elem_of_lookup_2. Qed.

Lemma pod_listed s i p : tt_pods tb !! i = Some p ->
  existsb (fun e => match tt_endpoints tb !! (gs_endpoint_first s + e)%nat with Some ep => (ge_pod ep =? i)%nat | None => false end)
    (seq 0 (gs_endpoint_count s)) = true <-> p ∈ endpoint_pods tb s.
Proof.
  intros Hi. rewrite existsb_exists. unfold endpoint_pods. rewrite list_elem_of_omap. split.
  - intros (e & He%list_elem_of_In & Hx). exists e. split; [done|]. destruct (tt_endpoints tb !! _) as [ep|]; [|done].
    apply Nat.eqb_eq in Hx as <-. done.
  - intros (e & He & (ep & Hep & Hx)%bind_Some). exists e. split; [by apply list_elem_of_In|]. rewrite Hep. apply Nat.eqb_eq.
    by eapply (sorted_key_inj gp_uid); [apply to_pods, H|..].
Qed.

Lemma service_linear key s : s ∈ tt_services tb -> gs_key s = cstr key ->
  snd <$> list_find (fun s => str_eq (gs_key s) key = true) (tt_services tb) = Some s.
Proof.
  intros Hs E. destruct (list_find _ _) as [[i x]|] eqn:Ef.
  - apply list_find_Some in Ef as (Hx & Ex & _). cbn. f_equal. apply str_eq_spec in Ex.
    destruct (held_service_key x (list_elem_of_lookup_2 _ _ _ Hx)) as (_ & Ec). apply list_elem_of_lookup in Hs as [j Hj].
    assert (i = j) as <-; [|congruence]. eapply (sorted_key_inj gs_key); [apply to_services, H|done..|congruence].
  - rewrite list_find_None, Forall_forall in Ef. destruct (Ef s Hs). apply str_eq_spec. by rewrite E, cstr_idem.
Qed.

Lemma pod_in_service_exact uid key :
  dmesh_topology_pod_in_service t (Some uid) (Some key) = true <-> (cstr key, cstr uid) ∈ endpoints_of rs.
Proof.
  unfold dmesh_topology_pod_in_service. rewrite (hd_tables _ _ _ H). split.
  - destruct (index_of _ _) as [i|] eqn:Ei; [|done]. apply index_of_Some in Ei as (p & Hi & Ep & _). apply str_eq_spec in Ep.
    destruct (held_pod_ok p (list_elem_of_lookup_2 _ _ _ Hi)) as (_ & Ec & _).
    destruct (snd <$> _) as [s|] eqn:Es; [|done]. apply fmap_Some in Es as ([j x] & (Hx & Ex & _)%list_find_Some & ->).
    apply str_eq_spec in Ex. cbn [snd]. pose proof (list_elem_of_lookup_2 _ _ _ Hx) as Hs. destruct (held_service_key x Hs) as (_ & Ek).
    intros Hex. apply (pod_listed x i p Hi) in Hex. rewrite <-Ex, Ek. apply backend_listed; [done|]. exists p. split; [done|congruence].
  - intros Hin. destruct (cs_endpoints _ (hd_records _ _ _ H) _ _ Hin) as [Hk Hu].
    apply list_elem_of_fmap in Hk as ([[k ip] port] & Ek & Hk), Hu as (p & Eu & Hu). cbn in Ek. subst k.
    apply held_services in Hk as (s & Hs & Es & _). apply held_pods, list_elem_of_lookup in Hu as [i Hi].
    rewrite (pod_index uid p i Hi (eq_sym Eu)), (service_linear key s Hs Es). apply (pod_listed s i p Hi).
    rewrite <-Es in Hin. apply backend_listed in Hin as (q & Hq & Eq); [|done]. assert (q = p) as <-; [|done].
    pose proof (endpoint_pod_in s q Hq) as Hq'. apply list_elem_of_lookup in Hq' as [j Hj].
    assert (i = j) as <-; [|congruence]. eapply (sorted_key_inj gp_uid); [apply to_pods, H|done..|congruence].
Qed.
End held.

(** Every lookup answers what the adopted document says.  A Pod, its node and
    its membership in a Service, and a Service with its address, are found exactly
    when the document has such a record; the id of a Service, when it has one,
    leads to exactly that Service's protection and port. *)
Lemma records_found t tb rs (H : holding t tb rs) :
  (forall uid p, dmesh_topology_pod t (Some uid) = Some p <-> p ∈ pods_of rs /\ gp_uid p = cstr uid) /\
  (forall uid node, dmesh_topology_pod_on_node t (Some uid) (Some node) = true <->
     exists p, p ∈ pods_of rs /\ gp_uid p = cstr uid /\ gp_node_name p = cstr node) /\
  (forall uid key, dmesh_topology_pod_in_service t (Some uid) (Some key) = true <-> (cstr key, cstr uid) ∈ endpoints_of rs) /\
  (forall key ip port, (exists s, dmesh_topology_service t (Some key) = Some s /\ gs_cluster_ip_be s = ip /\ gs_port s = port) <->
     (cstr key, ip, port) ∈ services_of rs) /\
  (forall key id, dmesh_topology_interned_id t (Some key) = id -> 0 <= id ->
     dmesh_topology_service_protection t id = (if bool_decide (cstr key ∈ protected_of rs) then 1 else 0) /\
     exists ip, (cstr key, ip, dmesh_topology_service_port t id) ∈ services_of rs).
Proof.
  split; [intros uid p; by rewrite (pod_found t tb rs), (held_pods t tb rs)|]. split; [|split; [|split]].
  - intros uid node. unfold dmesh_topology_pod_on_node. destruct (dmesh_topology_pod t (Some uid)) as [p|] eqn:E.
    + apply (pod_found t tb rs H) in E as [Hp Eu]. destruct (held_pod_ok t tb rs H p Hp) as (_ & _ & Ec).
      rewrite str_eq_spec, Ec. split; [intros En; exists p; by rewrite <-(held_pods t tb rs)|]. intros (q & Hq & Equ & En).
      assert (Some q = Some p) as [= ->]; [|done]. rewrite <-(proj2 (pod_found t tb rs H uid p) (conj Hp Eu)). symmetry. apply (pod_found t tb rs H).
      by rewrite (held_pods t tb rs).
    + split; [done|]. intros (p & Hp & Eu & _). rewrite <-(held_pods t tb rs) in Hp by done.
      by rewrite (proj2 (pod_found t tb rs H uid p) (conj Hp Eu)) in E.
  - intros uid key. by apply (pod_in_service_exact t tb rs).
  - intros key ip port. rewrite (held_services t tb rs H). f_equiv. intros s. rewrite (service_found t tb rs H). tauto.
  - intros key id Hid Hn. unfold dmesh_topology_interned_id in Hid. destruct (dmesh_topology_service t (Some key)) as [s|] eqn:E; [|lia].
    apply (service_found t tb rs H) in E as [Hs Ek].
    pose proof (proj2 (interned_service t tb rs H id s Hn) (conj Hs Hid)) as Hi.
    unfold dmesh_topology_service_protection, dmesh_topology_service_port. rewrite (hd_tables _ _ _ H).
    destruct (Z.ltb_spec id 0); [lia|]. rewrite Hi. split.
    + pose proof (rp_protected _ _ _ (hd_represents _ _ _ H) s Hs) as Hp. rewrite Ek in Hp.
      destruct (gs_is_protected s); [rewrite bool_decide_eq_true_2|rewrite bool_decide_eq_false_2]; [done|by apply Hp|done|].
      intros Hin. by apply Hp in Hin.
    + exists (gs_cluster_ip_be s). apply (held_services t tb rs H). by exists s.
Qed.

(** ** Endpoints on other nodes *)

(** The backends of a Service that are not on the node. *)
Definition remotes (tb : dmesh_topology_tables) (s : dmesh_gen_service) (node : option (list byte)) : list dmesh_gen_pod :=
  filter (fun p => local_to node p = false) (endpoint_pods tb s).

Lemma collect_remote_take node pods room :
  collect_remote node pods room = endpoint_ref <$> take room (filter (fun p => local_to node p = false) pods).
Proof.
  revert room. induction pods as [|p pods IH]; intros [|room]; cbn [collect_remote]; try done.
  rewrite filter_cons. destruct (local_to node p); [by rewrite decide_False, IH by done|].
  rewrite decide_True by done. cbn [take]. by rewrite fmap_cons, IH.
Qed.

Definition uid_is (uid : option (list byte)) (p : dmesh_gen_pod) : bool := match uid with Some u => str_eq (gp_uid p) u | None => false end.

Lemma match_remote_spec node uid pods n : 0 <= n -> n + Z.of_nat (length pods) < 2 ^ 32 ->
  match_remote node uid pods n =
  match list_find (fun p => uid_is uid p = true) (filter (fun p => local_to node p = false) pods) with
  | Some (_, p) => inl p
  | None => inr (n + Z.of_nat (length (filter (fun p => local_to node p = false) pods)))
  end.
Proof.
  revert n. induction pods as [|p pods IH]; intros n Hn Hb; cbn [match_remote]; [cbn; f_equal; lia|].
  cbn [length] in Hb. rewrite filter_cons. destruct (local_to node p); [rewrite decide_False by done; apply IH; lia|].
  rewrite decide_True by done. cbn [list_find]. fold (uid_is uid p). destruct (uid_is uid p) eqn:Eu; [by rewrite decide_True|].
  rewrite decide_False by done. rewrite wrap_small by (unfold in_width; lia). rewrite IH by lia.
  destruct (list_find _ _) as [[]|]; cbn; [done|]. f_equal. lia.
Qed.

Lemma select_remote_spec node pods (k : nat) : Z.of_nat k < 2 ^ 32 ->
  select_remote node pods (Z.of_nat k) = filter (fun p => local_to node p = false) pods !! k.
Proof.
  revert k. induction pods as [|p pods IH]; intros k Hk; cbn [select_remote]; [done|]. rewrite filter_cons.
  destruct (local_to node p); [rewrite decide_False by done; by apply IH|]. rewrite decide_True by done.
  destruct k as [|k]; [done|]. destruct (Z.eqb_spec (Z.of_nat (S k)) 0); [lia|].
  replace (Z.of_nat (S k) - 1) with (Z.of_nat k) by lia. rewrite wrap_small by (unfold in_width; lia). by rewrite IH by lia.
Qed.

Lemma endpoint_pods_bound t tb rs s : holding t tb rs -> s ∈ tt_services tb -> Z.of_nat (length (endpoint_pods tb s)) < 2 ^ 32.
Proof.
  intros H Hs. destruct (cs_bounds _ (hd_records _ _ _ H)) as (_ & _ & _ & Hb). unfold DMESH_GEN_ENDPOINT_MAX in Hb.
  pose proof (Permutation_length (rp_endpoints _ _ _ (hd_represents _ _ _ H) s Hs)) as E. unfold backends in E. rewrite !length_fmap in E.
  pose proof (length_filter (fun x => x.1 = gs_key s) (endpoints_of rs)). lia.
Qed.

Lemma endpoint_pods_NoDup_uid t tb rs s p q : holding t tb rs -> p ∈ endpoint_pods tb s -> q ∈ endpoint_pods tb s -> gp_uid p = gp_uid q -> p = q.
Proof.
  intros H Hp Hq E. apply endpoint_pod_in, list_elem_of_lookup in Hp as [i Hi], Hq as [j Hj].
  assert (i = j) as <-; [|congruence]. by eapply (sorted_key_inj gp_uid); [apply to_pods, H|..].
Qed.

(** The choice of a remote endpoint.  The candidates of a Service are exactly the
    Pods its endpoint records name that are on another node.  The list asked for
    is the first of them; an ordinal picks the one at that position, round robin
    over all of them; and a Pod asked for by UID is answered exactly when it is
    a candidate.  The 32-bit counters do not wrap. *)
Lemma remote_selection_exact t tb rs s node (H : holding t tb rs) (Hs : s ∈ tt_services tb) (Hid : 0 <= gs_interned s) :
  (forall p, p ∈ remotes tb s node <-> p ∈ pods_of rs /\ (gs_key s, gp_uid p) ∈ endpoints_of rs /\ local_to node p = false) /\
  (forall max, dmesh_topology_remote_endpoints t (gs_interned s) node max = endpoint_ref <$> take max (remotes tb s node)) /\
  (forall ordinal, in_width 32 ordinal ->
     dmesh_topology_remote_endpoint t (gs_interned s) node None ordinal =
     endpoint_ref <$> remotes tb s node !! Z.to_nat (ordinal mod Z.of_nat (length (remotes tb s node)))) /\
  (forall uid ordinal r, dmesh_topology_remote_endpoint t (gs_interned s) node (Some uid) ordinal = Some r <->
     exists p, p ∈ remotes tb s node /\ gp_uid p = cstr uid /\ r = endpoint_ref p).
Proof.
  pose proof (proj2 (interned_service t tb rs H _ s Hid) (conj Hs eq_refl)) as Hi.
  pose proof (endpoint_pods_bound t tb rs s H Hs) as Hb. assert (length (remotes tb s node) <= length (endpoint_pods tb s))%nat as Hl by apply length_filter.
  split; [|split; [|split]].
  - intros p. unfold remotes. rewrite list_elem_of_filter, <-(backend_listed t tb rs H s _ Hs). split.
    + intros [Hn Hp]. split; [apply (held_pods t tb rs H); by eapply endpoint_pod_in|]. split; [by exists p|done].
    + intros (Hp & (q & Hq & E) & Hn). split; [done|]. assert (q = p) as <-; [|done].
      apply endpoint_pod_in in Hq. apply (held_pods t tb rs H) in Hp. apply list_elem_of_lookup in Hq as [i Hqi], Hp as [j Hpj].
      assert (i = j) as <-; [|congruence]. by eapply (sorted_key_inj gp_uid); [apply to_pods, H|..].
  - intros max. unfold dmesh_topology_remote_endpoints. rewrite (hd_tables _ _ _ H), Hi. destruct (Z.ltb_spec (gs_interned s) 0); [lia|].
    cbn [orb]. destruct max as [|max]; [by rewrite take_0|]. cbn [Nat.eqb]. by rewrite collect_remote_take.
  - intros ordinal Ho. unfold dmesh_topology_remote_endpoint. rewrite (hd_tables _ _ _ H). destruct (Z.ltb_spec (gs_interned s) 0); [lia|].
    rewrite Hi. cbn [mbind option_bind]. rewrite match_remote_spec by lia. fold (remotes tb s node).
    assert (list_find (fun p => uid_is None p = true) (remotes tb s node) = None) as -> by (apply list_find_None, Forall_forall; done).
    rewrite Z.add_0_l. set (R := remotes tb s node) in *. destruct (Z.eqb_spec (Z.of_nat (length R)) 0) as [E|Hne].
    + destruct R; [done|cbn in E; lia].
    + cbn [bool_decide orb]. rewrite bool_decide_eq_false_2 by (intros []; done). cbn [orb].
      pose proof (Z.mod_pos_bound ordinal (Z.of_nat (length R)) ltac:(lia)).
      rewrite wrap_small by (unfold in_width; lia). rewrite <-(Z2Nat.id (ordinal mod _)) at 1 by lia. by rewrite select_remote_spec by lia.
  - intros uid ordinal r. unfold dmesh_topology_remote_endpoint. rewrite (hd_tables _ _ _ H). destruct (Z.ltb_spec (gs_interned s) 0); [lia|].
    rewrite Hi. cbn [mbind option_bind]. rewrite match_remote_spec by lia. fold (remotes tb s node).
    assert (forall p, p ∈ remotes tb s node -> uid_is (Some uid) p = true <-> gp_uid p = cstr uid) as Hu.
    { intros p [_ Hp]%list_elem_of_filter. destruct (held_pod_ok t tb rs H p (endpoint_pod_in tb s p Hp)) as (_ & Ec & _).
      cbn [uid_is]. by rewrite str_eq_spec, Ec. }
    destruct (list_find _ _) as [[i p]|] eqn:Ef.
    + apply list_find_Some in Ef as (Hp & Ep & _). apply list_elem_of_lookup_2 in Hp. apply Hu in Ep; [|done]. split.
      * intros [= <-]. by exists p.
      * intros (q & Hq & Eq & ->). f_equal. f_equal. apply list_elem_of_filter in Hp as [_ Hp], Hq as [_ Hq].
        eapply endpoint_pods_NoDup_uid; [done..|congruence].
    + rewrite bool_decide_eq_true_2 by done. split; [done|]. intros (p & Hp & Ep & _). rewrite list_find_None, Forall_forall in Ef.
      destruct (Ef p Hp). by apply Hu.
Qed.

(** ** Nodes and their keys *)

Lemma node_with_key_spec key found nodes :
  node_with_key key found nodes =
  match found, filter (fun n => gn_dpu_static_public_key n = key) nodes with
  | None, [n] => Some n
  | Some f, [] => Some f
  | _, _ => None
  end.
Proof.
  revert found. induction nodes as [|n nodes IH]; intros found; [by destruct found|]. cbn [node_with_key]. rewrite filter_cons.
  unfold bytes_eq. case_bool_decide as E; cbn [negb].
  - rewrite decide_True by done. destruct found; [done|]. rewrite IH. by destruct (filter _ nodes).
  - rewrite decide_False by done. apply IH.
Qed.

Lemma node_in rs n : consistent rs -> n ∈ nodes_of rs -> node_ok n.
Proof.
  intros H Hn. unfold nodes_of in Hn. apply list_elem_of_omap in Hn as (r & Hr & E). pose proof (cs_records _ H) as Hk.
  rewrite Forall_forall in Hk. specialize (Hk r Hr). destruct r; try done. by injection E as ->.
Qed.

Lemma node_name_text n : node_ok n -> cstr (gn_name n) = gn_name n /\ take (DMESH_K8S_NAME_MAX - 1) (gn_name n) = gn_name n.
Proof.
  intros (Hd & Hl & _). split; [by apply plain_cstr, dns_name_plain|]. apply take_ge. by unfold DMESH_K8S_NAME_MAX.
Qed.

(** The binding of DPU keys to nodes.  A key leads to a node exactly when it is not
    zero and one node record alone carries it; so a key that two records claim
    leads to none.  Where node names are unique, the node a key leads to is the
    one whose peer entry carries that key, and a peer entry is found exactly for
    the nodes with a key. *)
Lemma keys_bound t tb rs (H : holding t tb rs) :
  (forall key name, dmesh_topology_node_by_key t (Some key) = Some name <->
     key <> ZERO_KEY /\ exists n, filter (fun n => gn_dpu_static_public_key n = key) (nodes_of rs) = [n] /\ gn_name n = name) /\
  (NoDup (gn_name <$> nodes_of rs) ->
     (forall key name, dmesh_topology_node_by_key t (Some key) = Some name ->
        exists ip port, dmesh_topology_node_peer t (Some name) = Some (key, ip, port)) /\
     (forall name key ip port, dmesh_topology_node_peer t (Some name) = Some (key, ip, port) <->
        key <> ZERO_KEY /\ GenNode (cstr name) ip port key ∈ nodes_of rs)).
Proof.
  assert (forall key name, dmesh_topology_node_by_key t (Some key) = Some name <->
     key <> ZERO_KEY /\ exists n, filter (fun n => gn_dpu_static_public_key n = key) (nodes_of rs) = [n] /\ gn_name n = name) as H1.
  { intros key name. unfold dmesh_topology_node_by_key. rewrite (hd_tables _ _ _ H). cbn [mbind option_bind]. unfold bytes_eq.
    case_bool_decide as E; [split; [done|by intros [? _]]|]. rewrite (rp_nodes _ _ _ (hd_represents _ _ _ H)), node_with_key_spec. split.
    - intros (n & Hn & [= <-])%bind_Some. destruct (filter _ _) as [|n' [|]] eqn:Ef; try done. injection Hn as ->. split; [done|].
      exists n. split; [done|]. assert (n ∈ nodes_of rs) as Hin by (eapply (list_elem_of_filter _ _ n); rewrite Ef; by left).
      symmetry. by apply node_name_text, (node_in rs), Hin; apply H.
    - intros (_ & n & Hn & <-). assert (n ∈ nodes_of rs) as Hin by (eapply (list_elem_of_filter _ _ n); rewrite Hn; by left).
      rewrite Hn. cbn [mbind option_bind]. f_equal. by apply node_name_text, (node_in rs), Hin; apply H. }
  split; [exact H1|]. intros HN.
  assert (forall name key ip port, dmesh_topology_node_peer t (Some name) = Some (key, ip, port) <->
        key <> ZERO_KEY /\ GenNode (cstr name) ip port key ∈ nodes_of rs) as H2.
  { intros name key ip port. unfold dmesh_topology_node_peer. rewrite (hd_tables _ _ _ H). cbn [mbind option_bind].
    rewrite (rp_nodes _ _ _ (hd_represents _ _ _ H)). split.
    - intros (n & Hn & Hb)%bind_Some. apply fmap_Some in Hn as ([i x] & (Hx & Ex & _)%list_find_Some & ->). cbn [snd] in *.
      unfold bytes_eq in Hb. case_bool_decide as Ez; [done|]. injection Hb as <- <- <-. split; [done|].
      apply list_elem_of_lookup_2 in Hx. apply str_eq_spec in Ex.
      destruct (node_name_text x (node_in rs x (hd_records _ _ _ H) Hx)) as [Ec _]. rewrite <-Ex, Ec. by destruct x.
    - intros [Hz Hin]. destruct (list_find _ _) as [[i x]|] eqn:Ef.
      + apply list_find_Some in Ef as (Hx & Ex & _). apply str_eq_spec in Ex.
        destruct (node_name_text x (node_in rs x (hd_records _ _ _ H) (list_elem_of_lookup_2 _ _ _ Hx))) as [Ec _].
        apply list_elem_of_lookup in Hin as [j Hj]. assert (i = j) as <-.
        { eapply NoDup_lookup; [exact HN|..]; rewrite list_lookup_fmap, ?Hx, ?Hj; cbn; [done|]. congruence. }
        rewrite Hx in Hj. injection Hj as ->. cbn. unfold bytes_eq. by rewrite bool_decide_eq_false_2.
      + rewrite list_find_None, Forall_forall in Ef. destruct (Ef _ Hin). apply str_eq_spec. cbn. apply cstr_idem. }
  split; [|exact H2]. intros key name (Hz & n & Hn & <-)%H1.
  assert (n ∈ nodes_of rs /\ gn_dpu_static_public_key n = key) as [Hin <-].
  { assert (n ∈ filter (fun n => gn_dpu_static_public_key n = key) (nodes_of rs)) as Hf by (rewrite Hn; by left).
    by apply list_elem_of_filter in Hf as [? ?]. }
  exists (gn_rdma_ip_be n), (gn_rdma_port n). apply H2. split; [done|].
  destruct (node_name_text n (node_in rs n (hd_records _ _ _ H) Hin)) as [-> _]. by destruct n.
Qed.


(** ** Ids of Services *)

Lemma interned_as t tb rs key id : holding t tb rs -> 0 <= id ->
  dmesh_topology_interned_id t (Some key) = id <-> exists s, s ∈ tt_services tb /\ gs_key s = cstr key /\ gs_interned s = id.
Proof.
  intros H Hn. unfold dmesh_topology_interned_id. split.
  - destruct (dmesh_topology_service t (Some key)) as [s|] eqn:E; [|lia]. apply (service_found t tb rs H) in E as [Hs Ek]. by exists s.
  - intros (s & Hs & Ek & <-). by rewrite (proj2 (service_found t tb rs H key s) (conj Hs Ek)).
Qed.

Lemma no_tables_service t key : tp_tables t = None -> dmesh_topology_service t key = None.
Proof. intros E. unfold dmesh_topology_service. by rewrite E. Qed.

(** The id of a Service that both the old and the new tables have. *)
Lemma refresh_stable C F io t key : topology_inv t -> 0 <= dmesh_topology_interned_id t (Some key) ->
  let t' := (dmesh_topology_refresh C F io t).2 in
  dmesh_topology_service t' (Some key) <> None -> dmesh_topology_interned_id t' (Some key) = dmesh_topology_interned_id t (Some key).
Proof.
  intros Hi Hn t' Hs'. set (id := dmesh_topology_interned_id t (Some key)) in *.
  destruct (refresh_effect C F io t Hi) as [(cs & v & rs & tb & slots & Ho & _ & Hp & _ & E)|(_ & _ & E)].
  - destruct (parsed_inv _ t' _ _ _ _ _ Hi (of_valid _ _ _ _ _ _ _ Ho) Hp E) as [_ Hh'].
    destruct (dmesh_topology_service t' (Some key)) as [s'|] eqn:Es'; [|done]. apply (service_found t' tb rs Hh') in Es' as [Hin' Ek'].
    destruct (tp_tables t) as [tb0|] eqn:Et; [|unfold id, dmesh_topology_interned_id in Hn; rewrite no_tables_service in Hn by done; lia].
    destruct (ti_held t Hi tb0 Et) as (_ & rs0 & Hh). destruct (proj1 (interned_as t tb0 rs0 key id Hh Hn) eq_refl) as (s & Hs & Ek & Eid).
    pose proof (nt_named _ _ (hd_interning _ _ _ Hh) s Hs ltac:(lia)) as Hslot.
    pose proof (pd_stable _ _ _ _ _ Hp _ _ Hslot eq_refl) as Hkept. cbn [in_key] in Hkept.
    rewrite Ek, <-Ek' in Hkept. specialize (Hkept (list_elem_of_fmap_2 _ _ _ Hin')).
    destruct (nt_held _ _ (pd_interning _ _ _ _ _ Hp) _ _ Hkept eq_refl) as (x & Hx & Ex & Ekx). cbn [in_key] in Ekx.
    apply (interned_as t' tb rs key id Hh' Hn). exists x. split; [done|]. split; [congruence|lia].
  - unfold id, dmesh_topology_interned_id, dmesh_topology_service. unfold t'. injection E as E _ _. by rewrite E.
Qed.

Lemma same_knowledge_service t t' key : knowledge t' = knowledge t -> dmesh_topology_service t' key = dmesh_topology_service t key.
Proof. intros [= E _ _]. unfold dmesh_topology_service. by rewrite E. Qed.
Lemma same_knowledge_id t t' key : knowledge t' = knowledge t -> dmesh_topology_interned_id t' key = dmesh_topology_interned_id t key.
Proof. intros E. unfold dmesh_topology_interned_id. by rewrite (same_knowledge_service t t'). Qed.

(** One poll after which the Service is still published. *)
Definition poll_with (key : list byte) (t t' : dmesh_topology) : Prop :=
  exists C F now io, (dmesh_topology_progress C F now io t).2 = t' /\ dmesh_topology_service t' (Some key) <> None.

Lemma poll_stable key t t' : topology_inv t -> poll_with key t t' -> 0 <= dmesh_topology_interned_id t (Some key) ->
  topology_inv t' /\ dmesh_topology_interned_id t' (Some key) = dmesh_topology_interned_id t (Some key).
Proof.
  intros Hi (C & F & now & io & <- & Hs) Hn. split; [by apply poll_keeps|].
  destruct (progress_effect C F now io t Hi) as [(t0 & E0 & Hi0 & E)|E]; [|by apply same_knowledge_id].
  rewrite (same_knowledge_service _ _ _ E) in Hs. rewrite (same_knowledge_id _ _ _ E). rewrite <-(same_knowledge_id _ _ _ E0) in Hn |- *.
  by apply refresh_stable.
Qed.

(** The ids of Services are stable and unambiguous.  While a Service stays published,
    through any number of polls, it keeps its id; at every moment an id from 0 to
    127 stands for one Service only; and a published Service is without an id only
    when all 128 ids are held by published Services. *)
Lemma service_ids_stable t t' key (Hi : topology_inv t) (Hrun : rtc (poll_with key) t t')
    (Hid : 0 <= dmesh_topology_interned_id t (Some key)) :
  dmesh_topology_interned_id t' (Some key) = dmesh_topology_interned_id t (Some key) /\
  dmesh_topology_interned_id t' (Some key) < Z.of_nat DMESH_TOPOLOGY_INTERN_MAX /\
  (forall other, dmesh_topology_interned_id t' (Some other) = dmesh_topology_interned_id t' (Some key) -> cstr other = cstr key) /\
  (forall other, dmesh_topology_service t' (Some other) <> None -> dmesh_topology_interned_id t' (Some other) < 0 ->
     forall id, 0 <= id < Z.of_nat DMESH_TOPOLOGY_INTERN_MAX -> exists holder, dmesh_topology_interned_id t' (Some holder) = id).
Proof.
  assert (topology_inv t' /\ dmesh_topology_interned_id t' (Some key) = dmesh_topology_interned_id t (Some key)) as [Hi' E].
  { induction Hrun as [t|t t1 t' Hp _ IH]; [done|]. destruct (poll_stable key t t1 Hi Hp Hid) as [Hi1 E1]. rewrite <-E1. apply IH; [done|lia]. }
  split; [done|]. rewrite <-E in Hid. set (id := dmesh_topology_interned_id t' (Some key)) in *.
  destruct (tp_tables t') as [tb|] eqn:Et; [|unfold id, dmesh_topology_interned_id in Hid; rewrite no_tables_service in Hid by done; lia].
  destruct (ti_held t' Hi' tb Et) as (_ & rs & Hh). pose proof (hd_interning _ _ _ Hh) as Hok.
  destruct (proj1 (interned_as t' tb rs key id Hh Hid) eq_refl) as (s & Hs & Ek & Es). split; [rewrite <-Es; by apply (nt_range _ _ Hok)|]. split.
  - intros other (x & Hx & Ekx & Ex)%(interned_as t' tb rs other id Hh Hid).
    assert (x = s) as ->; [|congruence]. eapply interning_inj; [exact Hok|apply tables_keyed, Hh|done..|lia|lia].
  - intros other Hso Hneg j Hj. unfold dmesh_topology_interned_id in Hneg. destruct (dmesh_topology_service t' (Some other)) as [x|] eqn:Ex; [|done].
    apply (service_found t' tb rs Hh) in Ex as [Hx _]. pose proof (nt_full _ _ Hok x Hx Hneg) as Hfull. rewrite Forall_lookup in Hfull.
    destruct (lookup_lt_is_Some_2 (tp_interned t') (Z.to_nat j)) as [slot Hslot]; [rewrite (nt_length _ _ Hok); lia|].
    destruct (nt_held _ _ Hok _ _ Hslot (Hfull _ _ Hslot)) as (y & Hy & Ey & _). exists (gs_key y).
    apply (interned_as t' tb rs (gs_key y) j Hh ltac:(lia)). exists y. split; [done|]. split; [|lia].
    symmetry. by apply (held_service_key t' tb rs Hh).
Qed.

(** ** The theorems at the adopted document *)

Lemma demo_inv : topology_inv demo_adopted.
Proof. exact (refresh_keeps toy_crypto demo_files (demo_io 5) demo_consumer demo_consumer_inv). Qed.

Definition demo_service : dmesh_gen_service := GenService (txt "shop/web") 174325761 80 true 0 0 1.

Lemma demo_service_in : demo_service ∈ tt_services demo_tables.
Proof. apply (list_elem_of_lookup_2 _ 0). vm_compute. reflexivity. Qed.

Lemma remote_selection_exact_witness :
  dmesh_topology_remote_endpoint demo_adopted 0 (Some (txt "node-a")) None 7 =
  endpoint_ref <$> remotes demo_tables demo_service (Some (txt "node-a")) !! 0%nat /\
  remotes demo_tables demo_service (Some (txt "node-b")) = [].
Proof.
  split; [|vm_compute; reflexivity]. destruct demo_holding as [rs H].
  destruct (remote_selection_exact demo_adopted demo_tables rs demo_service (Some (txt "node-a")) H demo_service_in ltac:(done)) as (_ & _ & H3 & _).
  exact (H3 7 ltac:(done)).
Defined.

Lemma service_ids_stable_witness :
  dmesh_topology_interned_id (dmesh_topology_progress toy_crypto demo_files (Some 3) (demo_io 6) demo_adopted).2 (Some (txt "shop/web")) = 0.
Proof.
  apply (service_ids_stable demo_adopted (dmesh_topology_progress toy_crypto demo_files (Some 3) (demo_io 6) demo_adopted).2 (txt "shop/web") demo_inv).
  - apply rtc_once. exists toy_crypto, demo_files, (Some 3), (demo_io 6). split; [reflexivity|]. vm_compute. discriminate.
  - vm_compute. discriminate.
Defined.

