(* ===== verification/LocalControl.v ===== *)
(** * The paired-host control session ([doca/local_control.c])

    One TLS peer at a time, authenticated by its certificate, holds a session
    with a fresh id and exchanges fixed frames with the DPU: requests of 64 bytes
    and responses of 36.  OpenSSL, the sockets, the clock and the random source
    are what a [progress_io] says they answered; the registration server behind
    the session is the [owner] with its three callbacks. *)

From S2P Require Import Prelude Text PeerIdentity WorkloadIdentity.

Definition DMESH_LOCAL_MAGIC : list byte := txt "DMESHLC2".
Definition DMESH_LOCAL_PING : Z := 1.
Definition DMESH_LOCAL_UNREGISTER : Z := 3.
Definition DMESH_LOCAL_STATUS : Z := 4.
Definition DMESH_LOCAL_OK : Z := 0.
Definition DMESH_LOCAL_INVALID : Z := 1.
Definition DMESH_LOCAL_STALE : Z := 2.
Definition DMESH_LOCAL_PENDING : Z := 3.
Definition REQUEST_SIZE : nat := 64.
Definition RESPONSE_SIZE : nat := 36.

(** ** Frames *)

(** [struct dmesh_local_request] as its 64 bytes. *)
Definition req_operation (r : list byte) : Z := b2z (default x00 (head r)).
Definition req_reserved (r : list byte) : list byte := take 7 (drop 1 r).
Definition req_sequence (r : list byte) : list byte := take 8 (drop 8 r).
Definition req_session (r : list byte) : list byte := take 16 (drop 16 r).
Definition req_connection_id (r : list byte) : list byte := take 32 (drop 32 r).

(** The loop [v |= (uint64_t)p[i] << (i * 8)]. *)
Definition decode (p : list byte) : Z := get_le 64 0 0 p.
(** The loop [p[i] = (uint8_t)(v >> (i * 8))]. *)
Definition encode (v : Z) (n : nat) : list byte := (fun i => z2b (Z.shiftr v (8 * i))) <$> seqZ 0 (Z.of_nat n).
Definition zeros (p : list byte) : bool := forallb (fun b => b2z b =? 0) p.

(** ** State *)

Record dmesh_local_control := LocalControl {
  lc_ssl : bool; lc_authenticated : bool; lc_host_uri : list byte; lc_session : list byte; lc_sequence : Z; lc_activity : Z;
  lc_received : list byte; lc_sent : nat; lc_pending : nat;
  lc_previous : list byte; lc_response : list byte; lc_previous_response : list byte }.
#[export] Instance eta_local_control : Eta dmesh_local_control := fun c =>
  LocalControl (lc_ssl c) (lc_authenticated c) (lc_host_uri c) (lc_session c) (lc_sequence c) (lc_activity c)
    (lc_received c) (lc_sent c) (lc_pending c) (lc_previous c) (lc_response c) (lc_previous_response c).

(** What a call does besides changing the state. *)
Inductive local_event :=
  | Refused
  | Hello (session : list byte)
  | Wrote (bytes : list byte)
  | Read (bytes : list byte)
  | Answered (request : list byte) (status : Z)
  | Repeated (request : list byte)
  | Retired.

(** The callbacks of the registration server. *)
Record local_owner (O : Type) := LocalOwner {
  lo_dispatch : O -> list byte -> Z * O; lo_retire : O -> O; lo_available : O -> bool }.
Arguments lo_dispatch {_}. Arguments lo_retire {_}. Arguments lo_available {_}.

(** A TLS call: its result, a retry, or an error. *)
Inductive tls_result (A : Type) := TlsDone (a : A) | TlsWants | TlsFailed.
Arguments TlsDone {_}. Arguments TlsWants {_}. Arguments TlsFailed {_}.

(** A subject alternative name: a URI or another kind. *)
Inductive general_name := NameUri (uri : list byte) | NameOther.

(** What one call of [dmesh_local_control_progress] finds. *)
Record progress_io := ProgressIo {
  pi_accept : bool; pi_ssl_new : bool; pi_now_accept : Z; pi_now : Z;
  pi_ssl_accept : tls_result unit; pi_verified : bool; pi_certificate : option (list general_name);
  pi_random : option (list byte); pi_now_session : Z;
  pi_write : tls_result nat; pi_read : tls_result (list byte); pi_now_request : Z }.

Section control.
  Context {O : Type} (owner : local_owner O).

(** Without a peer: what [disconnect_peer] leaves. *)
Definition closed (c : dmesh_local_control) : dmesh_local_control :=
  LocalControl false false (lc_host_uri c) (repeat x00 DMESH_CONTROL_SESSION_SIZE) 0 (lc_activity c) [] 0 0
    (lc_previous c) (lc_response c) (lc_previous_response c).

Definition disconnect_peer (c : dmesh_local_control) (o : O) : dmesh_local_control * O * list local_event :=
  let o' := if lc_authenticated c then lo_retire owner o else o in
  (closed c, o', if lc_authenticated c then [Retired] else []).

(** The loop over the names: [count] of URIs, and whether the last one matched. *)
Fixpoint scan_names (host_uri : list byte) (names : list general_name) (count : nat) (matched : bool) : nat * bool :=
  match names with
  | [] => (count, matched)
  | NameUri uri :: rest => scan_names host_uri rest (S count) (bytes_eq uri host_uri)
  | NameOther :: rest => scan_names host_uri rest count matched
  end.

Definition peer_allowed (c : dmesh_local_control) (io : progress_io) : bool :=
  if negb (pi_verified io) then false
  else match pi_certificate io with
       | None => false
       | Some names => let (count, matched) := scan_names (lc_host_uri c) names 0 false in (count =? 1)%nat && matched
       end.

Definition response_bytes (session : list byte) (seq status : Z) : list byte :=
  DMESH_LOCAL_MAGIC ++ session ++ encode seq 8 ++ encode status 4.

Definition reply (seq status : Z) (c : dmesh_local_control) : dmesh_local_control :=
  c <| lc_response := response_bytes (lc_session c) seq status |> <| lc_sent := 0%nat |> <| lc_pending := RESPONSE_SIZE |>.

(** After the end of a call: the value returned, the state and what was done. *)
Definition poll_outcome : Type := Z * dmesh_local_control * O * list local_event.

Definition failed (c : dmesh_local_control) (o : O) (events : list local_event) : poll_outcome :=
  let '(c', o', e) := disconnect_peer c o in (1, c', o', events ++ e).

(** The last request again: its response is sent again. *)
Definition repeat_last (now : Z) (c : dmesh_local_control) : dmesh_local_control :=
  c <| lc_received := [] |> <| lc_response := lc_previous_response c |> <| lc_pending := RESPONSE_SIZE |> <| lc_activity := now |>.

(** A new request with its status: remembered with its response. *)
Definition answer (request : list byte) (seq status now : Z) (c : dmesh_local_control) : dmesh_local_control :=
  let c := reply seq status (c <| lc_received := [] |> <| lc_sequence := seq |> <| lc_previous := request |>) in
  c <| lc_previous_response := lc_response c |> <| lc_activity := now |>.

(** A complete request, from [received = 0] on. *)
Definition handle_request (c : dmesh_local_control) (o : O) (now : Z) (request : list byte) (events : list local_event) : poll_outcome :=
  let seq := decode (req_sequence request) in
  if negb (bytes_eq (lc_session c) (req_session request)) || negb (zeros (req_reserved request))
  then failed (c <| lc_received := [] |>) o events
  else if negb (seq =? 0) && (seq =? lc_sequence c) && bytes_eq request (lc_previous c)
  then (1, repeat_last now c, o, events ++ [Repeated request])
  else if (seq =? 0) || (seq <=? lc_sequence c) then failed (c <| lc_received := [] |>) o events
  else
    let (status, o') :=
      if req_operation request =? DMESH_LOCAL_PING
      then ((if zeros (req_connection_id request) then DMESH_LOCAL_OK else DMESH_LOCAL_INVALID), o)
      else lo_dispatch owner o request in
    (1, answer request seq status now c, o', events ++ [Answered request status]).

(** [sent] bytes of the response are written. *)
Definition wrote (sent : nat) (c : dmesh_local_control) : dmesh_local_control :=
  if (sent =? lc_pending c)%nat then c <| lc_pending := 0%nat |> <| lc_sent := 0%nat |> else c <| lc_sent := sent |>.

(** From the authenticated session on: a write, or else a read. *)
Definition exchange (c : dmesh_local_control) (o : O) (io : progress_io) (events : list local_event) : poll_outcome :=
  if negb (lc_pending c =? 0)%nat then
    match pi_write io with
    | TlsDone r =>
        let bytes := take r (drop (lc_sent c) (lc_response c)) in
        let sent := (lc_sent c + r)%nat in
        (1, wrote sent c, o, events ++ [Wrote bytes])
    | TlsWants => (0, c, o, events)
    | TlsFailed => failed c o events
    end
  else
    match pi_read io with
    | TlsDone bytes =>
        let request := lc_received c ++ bytes in
        let events := events ++ [Read bytes] in
        if negb (length request =? REQUEST_SIZE)%nat then (1, c <| lc_received := request |>, o, events)
        else handle_request c o (pi_now_request io) request events
    | TlsWants => (0, c, o, events)
    | TlsFailed => failed c o events
    end.

(** A new session, with the greeting to send. *)
Definition open_session (session : list byte) (now : Z) (c : dmesh_local_control) : dmesh_local_control :=
  reply 0 DMESH_LOCAL_OK (c <| lc_session := session |> <| lc_authenticated := true |> <| lc_activity := now |>).

(** From the time check on. *)
Definition continue_peer (c : dmesh_local_control) (o : O) (io : progress_io) (events : list local_event) : poll_outcome :=
  if (if lc_authenticated c then 15 else 3) <=? pi_now io - lc_activity c then failed c o events
  else if lc_authenticated c then exchange c o io events
  else
    match pi_ssl_accept io with
    | TlsWants => (0, c, o, events)
    | TlsFailed => failed c o events
    | TlsDone _ =>
        if negb (peer_allowed c io) || negb (lo_available owner o) then failed c o events
        else match pi_random io with
             | None => failed c o events
             | Some session =>
                 exchange (open_session session (pi_now_session io) c) o io (events ++ [Hello session])
             end
    end.

Definition dmesh_local_control_progress (c : option dmesh_local_control) (o : O) (io : progress_io)
    : Z * option dmesh_local_control * O * list local_event :=
  match c with
  | None => (0, None, o, [])
  | Some c =>
      let finish (x : poll_outcome) := let '(r, c', o', e) := x in (r, Some c', o', e) in
      if pi_accept io then
        if lc_ssl c || negb (lo_available owner o) then
          if negb (lc_ssl c) then (0, Some c, o, [Refused]) else finish (continue_peer c o io [Refused])
        else if negb (pi_ssl_new io) then finish (failed c o [])
        else finish (continue_peer (c <| lc_ssl := true |> <| lc_activity := pi_now_accept io |>) o io [])
      else if negb (lc_ssl c) then (0, Some c, o, [])
      else finish (continue_peer c o io [])
  end.

Definition dmesh_local_control_session (c : option dmesh_local_control) : option (list byte) :=
  c ← c; if negb (lc_ssl c) || negb (lc_authenticated c) then None else Some (lc_session c).

Definition dmesh_local_control_destroy (c : option dmesh_local_control) (o : O) : O * list local_event :=
  match c with
  | None => (o, [])
  | Some c => let '(_, o', e) := disconnect_peer c o in (o', e)
  end.
End control.

(** A freshly created control, when every step of the creation succeeds. *)
Definition dmesh_local_control_create (host_uri : list byte) (port : Z) (resources : bool) : option dmesh_local_control :=
  if bool_decide (host_uri = []) || (port =? 0) || (65535 <? port) || negb resources then None
  else Some (LocalControl false false host_uri (repeat x00 DMESH_CONTROL_SESSION_SIZE) 0 0 [] 0 0
               (repeat x00 REQUEST_SIZE) (repeat x00 RESPONSE_SIZE) (repeat x00 RESPONSE_SIZE)).
