(* ===== verification/LocalControlProofs.v ===== *)
(** * The paired-host control session: theorems

    Over every sequence of calls, the bytes exchanged in a session are those of a
    simple request and response protocol, and sessions open and close in order. *)

From S2P Require Import Prelude Text PeerIdentity WorkloadIdentity WorkloadProofs LocalControl.

(** ** The protocol *)

Definition request_seq (r : list byte) : Z := decode (req_sequence r).
Definition last_seq (log : list (list byte * Z)) : Z := match last log with Some (r, _) => request_seq r | None => 0 end.
Definition addressed (session r : list byte) : Prop := req_session r = session /\ zeros (req_reserved r) = true.

(** The requests of a session, the answers given to new ones, and the responses
    sent: first the greeting; then a request with a higher sequence number than
    all before is answered, and a repetition of the last one gets the last answer. *)
Inductive served (session : list byte) : list (list byte) -> list (list byte * Z) -> list (list byte) -> Prop :=
  | served_hello : served session [] [] [response_bytes session 0 DMESH_LOCAL_OK]
  | served_new reqs log resps r status :
      served session reqs log resps -> addressed session r -> last_seq log < request_seq r ->
      (req_operation r = DMESH_LOCAL_PING -> status = if zeros (req_connection_id r) then DMESH_LOCAL_OK else DMESH_LOCAL_INVALID) ->
      served session (reqs ++ [r]) (log ++ [(r, status)]) (resps ++ [response_bytes session (request_seq r) status])
  | served_again reqs log resps r status :
      served session reqs log resps -> addressed session r -> last log = Some (r, status) ->
      served session (reqs ++ [r]) log (resps ++ [response_bytes session (request_seq r) status]).

(** ** Histories *)

Record local_history := History { lh_in : list byte; lh_out : list byte; lh_requests : list (list byte); lh_log : list (list byte * Z) }.
#[export] Instance eta_local_history : Eta local_history := fun h => History (lh_in h) (lh_out h) (lh_requests h) (lh_log h).
Definition no_history : local_history := History [] [] [] [].

(** What happened in the current session. *)
Definition record_event (h : local_history) (e : local_event) : local_history :=
  match e with
  | Refused => h
  | Hello _ | Retired => no_history
  | Wrote bytes => h <| lh_out ::= fun l => l ++ bytes |>
  | Read bytes => h <| lh_in ::= fun l => l ++ bytes |>
  | Answered r status => h <| lh_requests ::= fun l => l ++ [r] |> <| lh_log ::= fun l => l ++ [(r, status)] |>
  | Repeated r => h <| lh_requests ::= fun l => l ++ [r] |>
  end.
Definition history (events : list local_event) : local_history := fold_left record_event events no_history.

Lemma history_snoc es es' : history (es ++ es') = fold_left record_event es' (history es).
Proof. unfold history. apply fold_left_app. Qed.

(** Where the order of events stands: in no session, or in one with the sequence
    number of its last answer; [None] when an event is out of place. *)
Definition order_event (st : option (list byte * Z)) (e : local_event) : option (option (list byte * Z)) :=
  match e, st with
  | Refused, _ => Some st
  | Hello s, None => Some (Some (s, 0))
  | Wrote _, Some _ | Read _, Some _ | Repeated _, Some _ => Some st
  | Answered r _, Some (s, seq) =>
      if bool_decide (req_session r = s) && (seq <? request_seq r) then Some (Some (s, request_seq r)) else None
  | Retired, Some _ => Some None
  | _, _ => None
  end.
Definition order (events : list local_event) : option (option (list byte * Z)) :=
  fold_left (fun acc e => st ← acc; order_event st e) events (Some None).

Lemma order_snoc es es' st : order es = Some st -> order (es ++ es') = fold_left (fun acc e => st ← acc; order_event st e) es' (Some st).
Proof. intros H. unfold order in *. by rewrite fold_left_app, H. Qed.

(** ** The invariant *)

Definition last_answer (c : dmesh_local_control) (log : list (list byte * Z)) : Prop :=
  match last log with
  | Some (r, status) => lc_previous c = r /\ lc_previous_response c = response_bytes (lc_session c) (request_seq r) status
  | None => True
  end.

(** What is still to be written of the current response. *)
Definition unsent (c : dmesh_local_control) : list byte := if (lc_pending c =? 0)%nat then [] else drop (lc_sent c) (lc_response c).

Record in_session (c : dmesh_local_control) (h : local_history) : Prop := {
  is_ssl : lc_ssl c = true;
  is_id : length (lc_session c) = DMESH_CONTROL_SESSION_SIZE;
  is_sizes : Forall (fun r => length r = REQUEST_SIZE) (lh_requests h) /\ (length (lc_received c) < REQUEST_SIZE)%nat;
  is_in : lh_in h = concat (lh_requests h) ++ lc_received c;
  is_served : exists resps, served (lc_session c) (lh_requests h) (lh_log h) resps /\ lh_out h ++ unsent c = concat resps;
  is_pending : (lc_pending c = 0%nat /\ lc_sent c = 0%nat) \/
    (lc_pending c = RESPONSE_SIZE /\ (lc_sent c < RESPONSE_SIZE)%nat /\ length (lc_response c) = RESPONSE_SIZE);
  is_sequence : lc_sequence c = last_seq (lh_log h);
  is_last : last_answer c (lh_log h);
  is_logged : Forall (fun x => length x.1 = REQUEST_SIZE) (lh_log h) }.

Record out_of_session (c : dmesh_local_control) (h : local_history) : Prop := {
  os_history : h = no_history;
  os_clear : lc_sequence c = 0 /\ lc_received c = [] /\ lc_pending c = 0%nat /\ lc_sent c = 0%nat /\
    lc_session c = repeat x00 DMESH_CONTROL_SESSION_SIZE }.

Definition control_inv (c : dmesh_local_control) (events : list local_event) : Prop :=
  if lc_authenticated c then in_session c (history events) /\ order events = Some (Some (lc_session c, lc_sequence c))
  else out_of_session c (history events) /\ order events = Some None.

(** What OpenSSL promises: a write takes between one byte and all it was given, a
    read delivers between one byte and all it was asked for, and random bytes fill
    the buffer. *)
Record tls_contract (c : dmesh_local_control) (io : progress_io) : Prop := {
  tc_write : forall r, pi_write io = TlsDone r -> (0 < r <= RESPONSE_SIZE - lc_sent c)%nat;
  tc_read : forall bytes, pi_read io = TlsDone bytes -> (0 < length bytes <= REQUEST_SIZE - length (lc_received c))%nat;
  tc_random : forall s, pi_random io = Some s -> length s = DMESH_CONTROL_SESSION_SIZE }.

Lemma encode_length v n : length (encode v n) = n.
Proof. unfold encode. rewrite length_fmap, length_seqZ. lia. Qed.

Lemma response_length session seq status : length session = DMESH_CONTROL_SESSION_SIZE -> length (response_bytes session seq status) = RESPONSE_SIZE.
Proof. intros H. unfold response_bytes. rewrite !length_app, !encode_length, H. reflexivity. Qed.

Lemma decode_nonneg p : 0 <= decode p.
Proof. unfold decode. by apply (get_le_width p). Qed.

(** ** One exchange *)

Section session.
  Context (c : dmesh_local_control) (h : local_history).
  Hypothesis (H : in_session c h).

Lemma wrote_session n : lc_pending c <> 0%nat -> (0 < n <= RESPONSE_SIZE - lc_sent c)%nat ->
  in_session (wrote (lc_sent c + n) c)
    (record_event h (Wrote (take n (drop (lc_sent c) (lc_response c))))).
Proof.
  intros Hp Hn. destruct H as [H1 H2 H3 H4 (resps & Hs & Hout) [[? _]|(Ep & Es & El)] H7 H8 H9]; [done|].
  unfold unsent in Hout. destruct (Nat.eqb_spec (lc_pending c) 0); [done|]. unfold wrote. rewrite Ep.
  destruct (Nat.eqb_spec (lc_sent c + n) RESPONSE_SIZE) as [E|E]; constructor; cbn; try done.
  - exists resps. split; [done|]. rewrite <-Hout. unfold unsent. cbn. rewrite app_nil_r. f_equal. apply take_ge. rewrite length_drop. lia.
  - by left.
  - exists resps. split; [done|]. rewrite <-Hout. unfold unsent. cbn. destruct (Nat.eqb_spec (lc_pending c) 0); [lia|].
    by rewrite <-app_assoc, <-drop_drop, take_drop.
  - right. split; [done|]. split; [lia|done].
Qed.

Lemma read_session bytes : (0 < length bytes <= REQUEST_SIZE - length (lc_received c))%nat -> length (lc_received c ++ bytes) <> REQUEST_SIZE ->
  in_session (c <| lc_received := lc_received c ++ bytes |>) (record_event h (Read bytes)).
Proof.
  intros Hb Hne. destruct H as [H1 H2 [H3 H3'] H4 H5 H6 H7 H8 H9]. rewrite length_app in Hne. constructor; cbn; try done.
  - split; [done|]. rewrite length_app. lia.
  - by rewrite H4, <-app_assoc.
Qed.

Section request.
  Context (bytes : list byte) (now : Z).
  Hypothesis (Hidle : lc_pending c = 0%nat) (Hfull : length (lc_received c ++ bytes) = REQUEST_SIZE).
  Hypothesis (Haddr : addressed (lc_session c) (lc_received c ++ bytes)).

Lemma request_in : lh_in h ++ bytes = concat (lh_requests h ++ [lc_received c ++ bytes]) ++ [].
Proof. rewrite (is_in c h H), concat_app. cbn. by rewrite !app_nil_r, <-app_assoc. Qed.

Lemma request_sizes : Forall (fun r => length r = REQUEST_SIZE) (lh_requests h ++ [lc_received c ++ bytes]) /\ (length (@nil byte) < REQUEST_SIZE)%nat.
Proof.
  destruct (is_sizes c h H) as [Hs _]. split; [|cbn; unfold REQUEST_SIZE; lia]. apply Forall_app. split; [done|]. by apply Forall_singleton.
Qed.

Lemma repeated_session :
  request_seq (lc_received c ++ bytes) <> 0 -> request_seq (lc_received c ++ bytes) = lc_sequence c -> lc_received c ++ bytes = lc_previous c ->
  in_session (repeat_last now c)
    (record_event (record_event h (Read bytes)) (Repeated (lc_received c ++ bytes))).
Proof.
  intros Hn Hs Hp. pose proof request_in as Hin. pose proof request_sizes as Hsz.
  destruct H as [H1 H2 _ _ (resps & Hsv & Hout) Hpd H7 H8 H9]. pose proof H8 as H8'. unfold last_answer in H8. pose proof H7 as H7'. unfold last_seq in H7.
  assert (lc_sent c = 0%nat) as Hsent by (destruct Hpd as [[_ ?]|[E _]]; [done|rewrite Hidle in E; done]).
  destruct (last (lh_log h)) as [[r status]|] eqn:El; [|congruence]. destruct H8 as [E1 E2].
  constructor; cbn; try done.
  - exists (resps ++ [response_bytes (lc_session c) (request_seq (lc_received c ++ bytes)) status]). split.
    + apply served_again; [done|done|]. by rewrite El, Hp, E1.
    + rewrite concat_app, <-Hout. unfold unsent. cbn. rewrite Hidle, Hsent, E2, Hp, E1. cbn. by rewrite !app_nil_r.
  - right. rewrite Hsent. split; [done|]. split; [unfold RESPONSE_SIZE; lia|]. rewrite E2. by apply response_length.
Qed.

Lemma answered_session status :
  lc_sequence c < request_seq (lc_received c ++ bytes) ->
  (req_operation (lc_received c ++ bytes) = DMESH_LOCAL_PING ->
     status = if zeros (req_connection_id (lc_received c ++ bytes)) then DMESH_LOCAL_OK else DMESH_LOCAL_INVALID) ->
  let r := lc_received c ++ bytes in
  in_session (answer r (request_seq r) status now c) (record_event (record_event h (Read bytes)) (Answered r status)).
Proof.
  intros Hlt Hping r. pose proof request_in as Hin. pose proof request_sizes as Hsz. fold r in Hin, Hsz.
  destruct H as [H1 H2 _ _ (resps & Hsv & Hout) Hpd H7 H8 H9].
  constructor; cbn; try done.
  - exists (resps ++ [response_bytes (lc_session c) (request_seq r) status]). split.
    + apply served_new; [done|done|by rewrite <-H7|done].
    + rewrite concat_app, <-Hout. unfold unsent. cbn. rewrite Hidle. cbn. by rewrite !app_nil_r.
  - right. split; [done|]. split; [unfold RESPONSE_SIZE; lia|]. by apply response_length.
  - unfold last_seq. by rewrite last_snoc.
  - unfold last_answer. cbn. by rewrite last_snoc.
  - apply Forall_app. split; [done|]. by apply Forall_singleton.
Qed.
End request.
End session.

Section proofs.
  Context {O : Type} (owner : local_owner O).

Lemma failed_inv c o events es st r c' o' es' :
  order (events ++ es) = Some st -> (if lc_authenticated c then st <> None else st = None /\ history (events ++ es) = no_history) ->
  failed owner c o es = (r, c', o', es') -> control_inv c' (events ++ es').
Proof.
  unfold failed, disconnect_peer. intros Ho Hs. destruct (lc_authenticated c) eqn:Ea; intros [= <- <- <- <-]; unfold control_inv; cbn.
  - rewrite (app_assoc events). rewrite (order_snoc _ _ _ Ho), history_snoc. destruct st as [st|]; [|done]. cbn. split; [|done].
    constructor; [done|]. by repeat split.
  - rewrite app_nil_r. destruct Hs as [-> Hh]. split; [|done]. constructor; [done|]. by repeat split.
Qed.

Lemma in_session_inv c events : lc_authenticated c = true -> control_inv c events <->
  in_session c (history events) /\ order events = Some (Some (lc_session c, lc_sequence c)).
Proof. intros E. unfold control_inv. by rewrite E. Qed.

Lemma inside_snoc c events e : lc_authenticated c = true -> control_inv c events ->
  history (events ++ [e]) = record_event (history events) e /\
  order (events ++ [e]) = order_event (Some (lc_session c, lc_sequence c)) e.
Proof. intros Ea Hi. apply in_session_inv in Hi as [_ Ho]; [|done]. split; [apply history_snoc|]. by rewrite (order_snoc _ _ _ Ho). Qed.

Lemma inside_read c events es bytes : lc_authenticated c = true -> control_inv c (events ++ es) ->
  order (events ++ es ++ [Read bytes]) = Some (Some (lc_session c, lc_sequence c)) /\
  history (events ++ es ++ [Read bytes]) = record_event (history (events ++ es)) (Read bytes).
Proof. intros Ea Hi. destruct (inside_snoc c _ (Read bytes) Ea Hi) as [E1 E2]. by rewrite <-app_assoc in E1, E2. Qed.

Lemma handle_request_inv c o now bytes events es r c' o' es' :
  lc_authenticated c = true -> control_inv c (events ++ es) -> lc_pending c = 0%nat -> length (lc_received c ++ bytes) = REQUEST_SIZE ->
  handle_request owner c o now (lc_received c ++ bytes) (es ++ [Read bytes]) = (r, c', o', es') -> control_inv c' (events ++ es').
Proof.
  intros Ea Hi Hp Hl. destruct (inside_read c events es bytes Ea Hi) as [Ho Hh]. apply in_session_inv in Hi as [Hs Ho']; [|done].
  set (q := lc_received c ++ bytes) in *. unfold handle_request. fold (request_seq q).
  assert (forall x, failed owner (c <| lc_received := [] |>) o (es ++ [Read bytes]) = x -> x = (r, c', o', es') -> control_inv c' (events ++ es')) as Hfail.
  { intros x <- E. eapply failed_inv; [exact Ho| |exact E]. cbn. by rewrite Ea. }
  unfold bytes_eq. case_bool_decide as Es; cbn [negb orb]; [|by apply Hfail]. destruct (zeros (req_reserved q)) eqn:Ez; cbn [negb]; [|by apply Hfail].
  assert (addressed (lc_session c) q) as Had by (split; [by symmetry|done]).
  assert (forall e, order (events ++ (es ++ [Read bytes]) ++ [e]) = order_event (Some (lc_session c, lc_sequence c)) e /\
    history (events ++ (es ++ [Read bytes]) ++ [e]) = record_event (record_event (history (events ++ es)) (Read bytes)) e) as Hev.
  { intros e. rewrite (app_assoc events). rewrite (order_snoc _ _ _ Ho), history_snoc, Hh. done. }
  destruct (negb (request_seq q =? 0) && (request_seq q =? lc_sequence c) && bool_decide (q = lc_previous c)) eqn:Er.
  - rewrite !andb_true_iff, negb_true_iff, Z.eqb_neq, Z.eqb_eq, bool_decide_eq_true in Er. destruct Er as [[Hn Hsq] Hpr].
    intros [= <- <- <- <-]. destruct (Hev (Repeated q)) as [Ho1 Hh1]. apply in_session_inv; [done|]. rewrite Ho1, Hh1. split; [|done].
    by apply repeated_session.
  - destruct ((request_seq q =? 0) || (request_seq q <=? lc_sequence c)) eqn:Ele; [by apply Hfail|].
    apply orb_false_iff in Ele as [_ Hlt%Z.leb_gt].
    destruct (if req_operation q =? DMESH_LOCAL_PING then _ else _) as [status o1] eqn:Est. intros [= <- <- <- <-].
    destruct (Hev (Answered q status)) as [Ho1 Hh1]. apply in_session_inv; [done|]. rewrite Ho1, Hh1. split.
    + apply answered_session; try done. intros Hping. fold q in Hping |- *. rewrite Hping in Est. cbn in Est. by injection Est.
    + cbn [order_event]. rewrite bool_decide_eq_true_2 by by destruct Had. rewrite (proj2 (Z.ltb_lt _ _) Hlt). done.
Qed.

Lemma exchange_inv c o io events es r c' o' es' :
  lc_authenticated c = true -> control_inv c (events ++ es) -> tls_contract c io ->
  exchange owner c o io es = (r, c', o', es') -> control_inv c' (events ++ es').
Proof.
  intros Ea Hi Hc. pose proof Hi as Hi0. apply in_session_inv in Hi0 as [Hs Ho]; [|done]. unfold exchange.
  assert (failed owner c o es = (r, c', o', es') -> control_inv c' (events ++ es')) as Hfail.
  { intros E. eapply failed_inv; [exact Ho| |exact E]. by rewrite Ea. }
  destruct (Nat.eqb_spec (lc_pending c) 0) as [Ep|Ep]; cbn [negb].
  - destruct (pi_read io) as [bytes| |] eqn:Er; [|by intros [= <- <- <- <-]|exact Hfail].
    pose proof (tc_read _ _ Hc bytes Er) as Hb. destruct (Nat.eqb_spec (length (lc_received c ++ bytes)) REQUEST_SIZE) as [Hl|Hl]; cbn [negb].
    + by apply handle_request_inv.
    + intros [= <- <- <- <-]. destruct (inside_read c events es bytes Ea Hi) as [Ho1 Hh1]. apply in_session_inv; [done|].
      rewrite Ho1, Hh1. split; [by apply read_session|done].
  - destruct (pi_write io) as [n| |] eqn:Ew; [|by intros [= <- <- <- <-]|exact Hfail].
    pose proof (tc_write _ _ Hc n Ew) as Hn. intros [= <- <- <- <-]. rewrite app_assoc.
    destruct (inside_snoc c _ (Wrote (take n (drop (lc_sent c) (lc_response c)))) Ea Hi) as [Hh1 Ho1].
    assert (lc_session (wrote (lc_sent c + n) c) = lc_session c /\ lc_sequence (wrote (lc_sent c + n) c) = lc_sequence c /\
            lc_authenticated (wrote (lc_sent c + n) c) = true) as (E1 & E2 & E3).
    { unfold wrote. destruct (_ =? _)%nat; done. }
    apply in_session_inv; [done|]. rewrite Hh1, Ho1, E1, E2. split; [by apply wrote_session|done].
Qed.

Lemma open_inv c s now events es :
  lc_authenticated c = false -> lc_ssl c = true -> control_inv c (events ++ es) -> length s = DMESH_CONTROL_SESSION_SIZE ->
  control_inv (open_session s now c) (events ++ es ++ [Hello s]).
Proof.
  intros Ea Hssl Hi Hl. unfold control_inv in Hi. rewrite Ea in Hi. destruct Hi as [[Hh (E1 & E2 & E3 & E4 & E5)] Ho].
  apply in_session_inv; [done|]. rewrite app_assoc, history_snoc, (order_snoc _ _ _ Ho). split; [|cbn; by rewrite E1].
  constructor; cbn; rewrite ?E2; try done.
  - split; [constructor|cbn; unfold REQUEST_SIZE; lia].
  - eexists. split; [apply served_hello|]. cbn. by rewrite app_nil_r.
  - right. split; [done|]. split; [unfold RESPONSE_SIZE; lia|]. by apply response_length.
Qed.

Lemma continue_inv c o io events es r c' o' es' :
  lc_ssl c = true -> control_inv c (events ++ es) -> tls_contract c io ->
  continue_peer owner c o io es = (r, c', o', es') -> control_inv c' (events ++ es').
Proof.
  intros Hssl Hi Hc. unfold continue_peer.
  assert (failed owner c o es = (r, c', o', es') -> control_inv c' (events ++ es')) as Hfail.
  { intros E. unfold control_inv in Hi. destruct (lc_authenticated c) eqn:Ea; destruct Hi as [Hi Ho]; (eapply failed_inv; [exact Ho| |exact E]); rewrite Ea; [done|].
    split; [done|apply Hi]. }
  destruct (_ <=? _); [exact Hfail|]. destruct (lc_authenticated c) eqn:Ea; [by apply exchange_inv|].
  destruct (pi_ssl_accept io); [|by intros [= <- <- <- <-]|exact Hfail]. destruct (_ || _); [exact Hfail|].
  destruct (pi_random io) as [s|] eqn:Er; [|exact Hfail].
  apply exchange_inv; [done|apply open_inv; try done; by apply (tc_random _ _ Hc)|].
  unfold control_inv in Hi. rewrite Ea in Hi. destruct Hi as [[_ (_ & E2 & _ & E4 & _)] _]. destruct Hc as [H1 H2 H3].
  constructor; [|exact H2|exact H3]. intros n Hn. specialize (H1 n Hn). rewrite E4 in H1. exact H1.
Qed.

Lemma progress_inv c o io events r c' o' es' :
  control_inv c events -> tls_contract c io ->
  dmesh_local_control_progress owner (Some c) o io = (r, Some c', o', es') -> control_inv c' (events ++ es').
Proof.
  intros Hi Hc. unfold dmesh_local_control_progress.
  assert (forall es, es = [] \/ es = [Refused] -> control_inv c (events ++ es)) as Hes.
  { intros es [->| ->]; [by rewrite app_nil_r|]. unfold control_inv in *. rewrite history_snoc.
    destruct (lc_authenticated c); destruct Hi as [Hi Ho]; by rewrite (order_snoc _ _ _ Ho). }
  assert (forall c0 es x, continue_peer owner c0 o io es = x -> lc_ssl c0 = true -> control_inv c0 (events ++ es) -> tls_contract c0 io ->
    (let '(r, c', o', e) := x in (r, Some c', o', e)) = (r, Some c', o', es') -> control_inv c' (events ++ es')) as Hcont.
  { intros c0 es [[[r0 c1] o1] e1] E H1 H2 H3 [= -> -> -> ->]. by eapply continue_inv. }
  destruct (pi_accept io).
  - destruct (lc_ssl c) eqn:Essl; cbn [orb negb]; [eapply Hcont; eauto|].
    assert (lc_authenticated c = false) as Ea.
    { unfold control_inv in Hi. destruct (lc_authenticated c); [|done]. destruct Hi as [Hi _]. by rewrite (is_ssl _ _ Hi) in Essl. }
    destruct (lo_available owner o); cbn [negb]; [|intros [= <- <- <- <-]; by apply Hes; right].
    destruct (pi_ssl_new io); cbn [negb].
    + eapply Hcont; [reflexivity|done| |destruct Hc; by constructor]. unfold control_inv in *. cbn. rewrite Ea in *.
      rewrite app_nil_r. destruct Hi as [[H1 H2] H3]. split; [|done]. by constructor.
    + destruct (failed owner c o []) as [[[r0 c1] o1] e1] eqn:E. intros [= -> -> -> ->]. unfold control_inv in Hi. rewrite Ea in Hi. destruct Hi as [[H1 _] H3].
      eapply failed_inv; [| |exact E]; rewrite app_nil_r; [exact H3|]. by rewrite Ea.
  - destruct (lc_ssl c) eqn:Essl; cbn [negb]; [eapply Hcont; eauto|]. intros [= <- <- <- <-]. by apply Hes; left.
Qed.
End proofs.

(** ** Runs *)

(** Any number of calls, each with an owner in any state: other threads change it
    between calls. *)
Inductive local_run {O} (owner : local_owner O) (host_uri : list byte) : dmesh_local_control -> list local_event -> Prop :=
  | run_create port c : dmesh_local_control_create host_uri port true = Some c -> local_run owner host_uri c []
  | run_progress c events o io r c' o' es :
      local_run owner host_uri c events -> tls_contract c io ->
      dmesh_local_control_progress owner (Some c) o io = (r, Some c', o', es) -> local_run owner host_uri c' (events ++ es).

Lemma run_inv {O} (owner : local_owner O) host_uri c events : local_run owner host_uri c events -> control_inv c events.
Proof.
  induction 1 as [port c E|c events o io r c' o' es _ IH Hc E]; [|by eapply progress_inv].
  unfold dmesh_local_control_create in E. destruct (_ || _); [done|]. injection E as <-. unfold control_inv. cbn. split; [|done].
  constructor; [done|]. by repeat split.
Qed.

(** What a session exchanges.  At every moment of every run in which a session is
    open, the bytes read are its requests of 64 bytes and a part of the next; the
    bytes written, with those still to be written of the current response, are
    exactly the greeting and one response per request, in order; and they follow
    the protocol: a request names the session, a new one has a higher sequence
    number than all before it, a repetition of the last one is answered with the
    same bytes without being dispatched again. *)
Lemma session_refines {O} (owner : local_owner O) host_uri c events s
    (Hrun : local_run owner host_uri c events) (Hs : dmesh_local_control_session (Some c) = Some s) :
  exists resps, served s (lh_requests (history events)) (lh_log (history events)) resps /\
    lh_in (history events) = concat (lh_requests (history events)) ++ lc_received c /\
    Forall (fun r => length r = REQUEST_SIZE) (lh_requests (history events)) /\ (length (lc_received c) < REQUEST_SIZE)%nat /\
    lh_out (history events) ++ unsent c = concat resps.
Proof.
  apply run_inv in Hrun. unfold dmesh_local_control_session in Hs. cbn [mbind option_bind] in Hs. unfold control_inv in Hrun.
  destruct (lc_ssl c); [|done]. destruct (lc_authenticated c); [|done]. injection Hs as <-. destruct Hrun as [[H1 H2 [H3 H3'] H4 (resps & H5 & H5') _ _ _ _] _].
  by exists resps.
Qed.

(** ** Who is let in *)

Definition uris (names : list general_name) : list (list byte) := omap (fun n => match n with NameUri u => Some u | NameOther => None end) names.

Lemma scan_names_spec host names n m :
  scan_names host names n m = ((n + length (uris names))%nat, match last (uris names) with Some u => bytes_eq u host | None => m end).
Proof.
  revert n m. induction names as [|[u|] names IH]; intros n m; cbn [scan_names]; [by cbn; rewrite Nat.add_0_r| |apply IH].
  rewrite IH. unfold uris. cbn. fold (uris names). f_equal; [lia|]. destruct (uris names) as [|x l] eqn:E; [done|].
  change (last (u :: x :: l)) with (last (x :: l)). destruct (last (x :: l)) eqn:El; [done|]. by apply last_None in El.
Qed.

Lemma peer_allowed_spec c io : peer_allowed c io = true <->
  pi_verified io = true /\ exists names, pi_certificate io = Some names /\ uris names = [lc_host_uri c].
Proof.
  unfold peer_allowed. destruct (pi_verified io); cbn [negb]; [|split; [done|by intros [? _]]].
  destruct (pi_certificate io) as [names|]; [|split; [done|by intros (_ & ? & ? & _)]].
  rewrite scan_names_spec. cbn [Nat.add]. rewrite andb_true_iff, Nat.eqb_eq. unfold bytes_eq. split.
  - intros [Hl Hm]. split; [done|]. exists names. split; [done|]. destruct (uris names) as [|u [|]]; try done. cbn in Hm.
    by apply bool_decide_eq_true in Hm as ->.
  - intros (_ & names' & [= <-] & ->). split; [done|]. by apply bool_decide_eq_true.
Qed.

Definition is_hello (e : local_event) : bool := match e with Hello _ => true | _ => false end.

(** The state keeps its host, and only [continue_peer] adds a greeting. *)
Definition no_greeting {O} (x : poll_outcome) (c : dmesh_local_control) (es : list local_event) : Prop :=
  let '(_, c', _, es') := (x : Z * dmesh_local_control * O * list local_event) in
  lc_host_uri c' = lc_host_uri c /\ exists tail, es' = es ++ tail /\ Forall (fun e => is_hello e = false) tail.

Lemma failed_no_greeting {O} (owner : local_owner O) c o es : no_greeting (failed owner c o es) c es.
Proof. unfold failed, disconnect_peer. cbn. split; [done|]. eexists. split; [done|]. destruct (lc_authenticated c); by repeat constructor. Qed.

Lemma handle_no_greeting {O} (owner : local_owner O) c o now q es : no_greeting (handle_request owner c o now q es) c es.
Proof.
  unfold handle_request. destruct (_ || _); [exact (failed_no_greeting owner (c <| lc_received := [] |>) o es)|].
  destruct (_ && _ && _); [split; [done|]; eexists; split; [done|]; by repeat constructor|].
  destruct (_ || _); [exact (failed_no_greeting owner (c <| lc_received := [] |>) o es)|].
  destruct (req_operation q =? DMESH_LOCAL_PING); [|destruct (lo_dispatch owner o q) as [status o']]; (split; [done|]; eexists; split; [done|]; by repeat constructor).
Qed.

Lemma exchange_no_greeting {O} (owner : local_owner O) c o io es : no_greeting (exchange owner c o io es) c es.
Proof.
  unfold exchange. destruct (negb _).
  - destruct (pi_write io) as [n| |]; [|split; [done|]; exists []; by rewrite app_nil_r|apply failed_no_greeting].
    split; [unfold wrote; by destruct (_ =? _)%nat|]. eexists; split; [done|]. by repeat constructor.
  - destruct (pi_read io) as [bytes| |]; [|split; [done|]; exists []; by rewrite app_nil_r|apply failed_no_greeting].
    destruct (negb _); [split; [done|]; eexists; split; [done|]; by repeat constructor|].
    pose proof (handle_no_greeting owner c o (pi_now_request io) (lc_received c ++ bytes) (es ++ [Read bytes])) as Hq.
    destruct (handle_request _ _ _ _ _ _) as [[[? ?] ?] ?]. destruct Hq as [E (tail & -> & Ht)]. split; [done|].
    exists (Read bytes :: tail). by rewrite <-app_assoc; split; [|constructor].
Qed.

(** What a greeting takes: a TLS peer with a valid certificate whose only URI name
    is the host's, a server ready for it and fresh random bytes. *)
Definition session_admitted {O} (owner : local_owner O) (host_uri : list byte) (o : O) (io : progress_io) (s : list byte) : Prop :=
  (exists u, pi_ssl_accept io = TlsDone u) /\ pi_verified io = true /\ lo_available owner o = true /\ pi_random io = Some s /\
  exists names, pi_certificate io = Some names /\ uris names = [host_uri].

Lemma continue_hello {O} (owner : local_owner O) c o io es r c' o' es' :
  continue_peer owner c o io es = (r, c', o', es') -> lc_host_uri c' = lc_host_uri c /\
  exists tail, es' = es ++ tail /\ forall s, Hello s ∈ tail -> session_admitted owner (lc_host_uri c) o io s.
Proof.
  assert (forall x c0 es0, no_greeting x c0 es0 -> x = (r, c', o', es') -> lc_host_uri c0 = lc_host_uri c -> es0 = es ->
    lc_host_uri c' = lc_host_uri c /\ exists tail, es' = es ++ tail /\ forall s, Hello s ∈ tail -> session_admitted owner (lc_host_uri c) o io s) as Hq.
  { intros x c0 es0 Hq -> Hc ->. destruct Hq as [E (tail & -> & Ht)]. split; [congruence|]. exists tail. split; [done|].
    intros s Hs. rewrite Forall_forall in Ht. by specialize (Ht _ Hs). }
  unfold continue_peer. destruct (_ <=? _); [intros E; by eapply Hq; [apply (failed_no_greeting owner c o es)|..]|].
  destruct (lc_authenticated c); [intros E; by eapply Hq; [apply (exchange_no_greeting owner c o io es)|..]|].
  destruct (pi_ssl_accept io) as [u| |] eqn:Ea; [|intros [= <- <- <- <-]; split; [done|]; exists []; rewrite app_nil_r; split; [done|]; intros s Hs; by apply elem_of_nil in Hs
    |intros E; by eapply Hq; [apply (failed_no_greeting owner c o es)|..]].
  destruct (peer_allowed c io) eqn:Ep; cbn [negb orb]; [|intros E; by eapply Hq; [apply (failed_no_greeting owner c o es)|..]].
  destruct (lo_available owner o) eqn:Eav; cbn [negb]; [|intros E; by eapply Hq; [apply (failed_no_greeting owner c o es)|..]].
  destruct (pi_random io) as [s|] eqn:Er; [|intros E; by eapply Hq; [apply (failed_no_greeting owner c o es)|..]].
  intros E. pose proof (exchange_no_greeting owner (open_session s (pi_now_session io) c) o io (es ++ [Hello s])) as Hx. rewrite E in Hx.
  destruct Hx as [Eh (tail & -> & Ht)]. split; [done|]. exists (Hello s :: tail). rewrite <-app_assoc. split; [done|].
  intros s' [[= ->]|Hin]%elem_of_cons; [|rewrite Forall_forall in Ht; by specialize (Ht _ Hin)].
  apply peer_allowed_spec in Ep as [Hv Hn]. split; [by exists u|]. done.
Qed.

Lemma progress_hello {O} (owner : local_owner O) c o io r c' o' es :
  dmesh_local_control_progress owner (Some c) o io = (r, Some c', o', es) -> lc_host_uri c' = lc_host_uri c /\
  forall s, Hello s ∈ es -> session_admitted owner (lc_host_uri c) o io s.
Proof.
  assert (forall c0 es0 x, lc_host_uri c0 = lc_host_uri c -> (es0 = [] \/ es0 = [Refused]) -> continue_peer owner c0 o io es0 = x ->
    (let '(r, c', o', e) := x in (r, Some c', o', e)) = (r, Some c', o', es) -> lc_host_uri c' = lc_host_uri c /\
    forall s, Hello s ∈ es -> session_admitted owner (lc_host_uri c) o io s) as Hc.
  { intros c0 es0 [[[r0 c1] o1] e1] Eh Hes E [= -> -> -> ->]. apply continue_hello in E as [E1 (tail & -> & Ht)]. rewrite Eh in *.
    split; [done|]. intros s [Hs|Hs]%elem_of_app; [|by apply Ht]. destruct Hes as [->| ->]; [by apply elem_of_nil in Hs|by apply list_elem_of_singleton in Hs]. }
  unfold dmesh_local_control_progress. destruct (pi_accept io).
  - destruct (lc_ssl c || _).
    + destruct (negb (lc_ssl c)); [|exact (Hc c [Refused] _ eq_refl (or_intror eq_refl) eq_refl)]. intros [= <- <- <- <-]. split; [done|]. intros s Hs. by apply list_elem_of_singleton in Hs.
    + destruct (negb (pi_ssl_new io)); [|by apply (Hc (c <| lc_ssl := true |> <| lc_activity := pi_now_accept io |>) [] _); [|left|]]. pose proof (failed_no_greeting owner c o []) as Hq.
      destruct (failed owner c o []) as [[[r0 c1] o1] e1]. destruct Hq as [E (tail & -> & Ht)]. intros [= -> -> -> ->]. split; [done|].
      intros s Hs. rewrite Forall_forall in Ht. by specialize (Ht _ Hs).
  - destruct (negb (lc_ssl c)); [|exact (Hc c [] _ eq_refl (or_introl eq_refl) eq_refl)]. intros [= <- <- <- <-]. split; [done|]. intros s Hs. by apply elem_of_nil in Hs.
Qed.

Lemma run_host {O} (owner : local_owner O) host_uri c events : local_run owner host_uri c events -> lc_host_uri c = host_uri.
Proof.
  induction 1 as [port c E|c events o io r c' o' es _ IH Hc E].
  - unfold dmesh_local_control_create in E. destruct (_ || _); [done|]. by injection E as <-.
  - apply progress_hello in E as [E _]. congruence.
Qed.

(** Sessions in order.  In every run a session opens only for a peer whose verified
    certificate names the configured host as its only URI, while the server is
    ready, and only when none is open; requests are answered only inside a session
    and only if they name it, each with a higher sequence number than the last, so
    none is dispatched twice; and every session that ends is retired, once.  The
    state always agrees with that order. *)
Lemma sessions_ordered {O} (owner : local_owner O) host_uri c events (Hrun : local_run owner host_uri c events) :
  order events = Some (if lc_authenticated c then Some (lc_session c, lc_sequence c) else None) /\
  dmesh_local_control_session (Some c) = (if lc_authenticated c then Some (lc_session c) else None) /\
  (forall o io r c' o' es s, dmesh_local_control_progress owner (Some c) o io = (r, Some c', o', es) -> Hello s ∈ es ->
     session_admitted owner host_uri o io s).
Proof.
  pose proof (run_inv owner host_uri c events Hrun) as Hi. pose proof (run_host owner host_uri c events Hrun) as <-. unfold control_inv in Hi.
  split; [by destruct (lc_authenticated c); destruct Hi|]. split.
  - unfold dmesh_local_control_session. cbn [mbind option_bind]. destruct (lc_authenticated c).
    + destruct Hi as [Hi _]. by rewrite (is_ssl _ _ Hi).
    + by rewrite orb_true_r.
  - intros o io r c' o' es s E Hs. apply progress_hello in E as [_ E]. by apply E.
Qed.

(** C13: the paired-host session.  In every run a session opens only for a peer whose
    verified certificate names the configured host as its only URI, while the
    server is ready, and only when none is open; requests are answered only inside
    a session and only if they name it, each with a higher sequence number than
    the last, so none is dispatched twice; and every session that ends is retired,
    once.  The state always agrees with that order.  While a session is open, the
    bytes read are its requests of 64 bytes and a part of the next; the bytes
    written, with those still to be written of the current response, are exactly
    the greeting and one response per request, in order; and they follow the
    protocol: a request names the session, a new one has a higher sequence number
    than all before it, a repetition of the last one is answered with the same
    bytes without being dispatched again. *)
Theorem local_sessions_ordered {O} (owner : local_owner O) host_uri c events (Hrun : local_run owner host_uri c events) :
  order events = Some (if lc_authenticated c then Some (lc_session c, lc_sequence c) else None) /\
  dmesh_local_control_session (Some c) = (if lc_authenticated c then Some (lc_session c) else None) /\
  (forall o io r c' o' es s, dmesh_local_control_progress owner (Some c) o io = (r, Some c', o', es) -> Hello s ∈ es ->
     session_admitted owner host_uri o io s) /\
  (forall s, dmesh_local_control_session (Some c) = Some s ->
     exists resps, served s (lh_requests (history events)) (lh_log (history events)) resps /\
       lh_in (history events) = concat (lh_requests (history events)) ++ lc_received c /\
       Forall (fun r => length r = REQUEST_SIZE) (lh_requests (history events)) /\ (length (lc_received c) < REQUEST_SIZE)%nat /\
       lh_out (history events) ++ unsent c = concat resps).
Proof.
  destruct (sessions_ordered owner host_uri c events Hrun) as (H1 & H2 & H3). split; [exact H1|]. split; [exact H2|]. split; [exact H3|].
  intros s Hs. by apply (session_refines owner host_uri c events s).
Qed.

(** ** What a call does to the owner *)

Definition ssl_ok (c : dmesh_local_control) : Prop := lc_authenticated c = true -> lc_ssl c = true.
Abbreviation session_of c := (dmesh_local_control_session (Some c)).

(** The session stays and at most one request is dispatched; or it ends and the
    owner retires it; or the owner, found available, gets a new one. *)
Definition owner_step {O} (owner : local_owner O) (c : dmesh_local_control) (o : O) (c' : dmesh_local_control) (o' : O) : Prop :=
  ssl_ok c' /\
  ((session_of c' = session_of c /\ (o' = o \/ exists q, o' = (lo_dispatch owner o q).2)) \/
   (session_of c' = None /\ o' = lo_retire owner o) \/
   (session_of c = None /\ lo_available owner o = true /\ o' = o)).

Definition outcome_step {O} (owner : local_owner O) (c : dmesh_local_control) (o : O) (x : poll_outcome) : Prop :=
  let '(_, c', o', _) := (x : Z * dmesh_local_control * O * list local_event) in owner_step owner c o c' o'.

Lemma session_same c c' : lc_ssl c' = lc_ssl c -> lc_authenticated c' = lc_authenticated c -> lc_session c' = lc_session c -> session_of c' = session_of c.
Proof. intros E1 E2 E3. unfold dmesh_local_control_session. cbn. by rewrite E1, E2, E3. Qed.

Lemma step_same {O} (owner : local_owner O) c o c' o' : ssl_ok c -> lc_ssl c' = lc_ssl c -> lc_authenticated c' = lc_authenticated c ->
  lc_session c' = lc_session c -> (o' = o \/ exists q, o' = (lo_dispatch owner o q).2) -> owner_step owner c o c' o'.
Proof. intros Hs E1 E2 E3 Ho. split; [unfold ssl_ok in *; by rewrite E1, E2|]. left. split; [by apply session_same|done]. Qed.

Lemma failed_step {O} (owner : local_owner O) c c0 o es : ssl_ok c -> lc_authenticated c0 = lc_authenticated c -> outcome_step owner c o (failed owner c0 o es).
Proof.
  intros Hs E. unfold failed, disconnect_peer. cbn. rewrite E. split; [done|]. destruct (lc_authenticated c) eqn:Ea; [right; by left|].
  left. split; [|by left]. unfold dmesh_local_control_session. cbn. by rewrite Ea, orb_true_r.
Qed.

Lemma handle_step {O} (owner : local_owner O) c o now q es : ssl_ok c -> outcome_step owner c o (handle_request owner c o now q es).
Proof.
  intros Hs. unfold handle_request. destruct (_ || _); [by apply failed_step|]. destruct (_ && _ && _); [apply step_same; auto|].
  destruct (_ || _); [by apply failed_step|].
  destruct (req_operation q =? DMESH_LOCAL_PING); [apply step_same; auto|].
  pose proof (step_same owner c o (answer q (decode (req_sequence q)) (lo_dispatch owner o q).1 now c) (lo_dispatch owner o q).2 Hs eq_refl eq_refl eq_refl) as H.
  destruct (lo_dispatch owner o q) as [status o'] eqn:E. apply H. right. exists q. by rewrite E.
Qed.

Lemma exchange_step {O} (owner : local_owner O) c o io es : ssl_ok c -> outcome_step owner c o (exchange owner c o io es).
Proof.
  intros Hs. unfold exchange. destruct (negb _).
  - destruct (pi_write io) as [n| |]; [|apply step_same; auto|by apply failed_step].
    apply step_same; auto; unfold wrote; by destruct (_ =? _)%nat.
  - destruct (pi_read io) as [bytes| |]; [|apply step_same; auto|by apply failed_step].
    destruct (negb _); [apply step_same; auto|by apply handle_step].
Qed.

Lemma continue_step {O} (owner : local_owner O) c o io es : lc_ssl c = true -> outcome_step owner c o (continue_peer owner c o io es).
Proof.
  intros Hssl. assert (ssl_ok c) as Hs by (intros _; exact Hssl). unfold continue_peer. destruct (_ <=? _); [by apply failed_step|].
  destruct (lc_authenticated c) eqn:Ea; [by apply exchange_step|]. destruct (pi_ssl_accept io); [|apply step_same; auto|by apply failed_step].
  destruct (lo_available owner o) eqn:Eav; [|rewrite orb_true_r; by apply failed_step]. destruct (_ || _); [by apply failed_step|].
  destruct (pi_random io) as [s|]; [|by apply failed_step]. assert (session_of c = None) as Hnone by (unfold dmesh_local_control_session; cbn; by rewrite Ea, orb_true_r).
  unfold exchange. cbn [lc_pending open_session reply set].
  change (lc_pending (open_session s (pi_now_session io) c)) with RESPONSE_SIZE. cbn [RESPONSE_SIZE Nat.eqb negb].
  destruct (pi_write io) as [n| |].
  - split; [unfold wrote; destruct (_ =? _)%nat; intros _; exact Hssl|]. right. by right.
  - split; [intros _; exact Hssl|]. right. by right.
  - unfold failed, disconnect_peer. cbn. split; [done|]. right. by left.
Qed.

Lemma progress_owner {O} (owner : local_owner O) c o io r c' o' es : ssl_ok c ->
  dmesh_local_control_progress owner (Some c) o io = (r, Some c', o', es) -> owner_step owner c o c' o'.
Proof.
  intros Hs. assert (forall c0 x, session_of c0 = session_of c -> outcome_step owner c0 o x ->
    (let '(r, c', o', e) := x in (r, Some c', o', e)) = (r, Some c', o', es) -> owner_step owner c o c' o') as Hx.
  { intros c0 [[[r0 c1] o1] e1] E [H1 H2] [= -> -> -> ->]. split; [done|]. by rewrite E in H2. }
  unfold dmesh_local_control_progress. destruct (pi_accept io).
  - destruct (lc_ssl c) eqn:Essl; cbn [orb negb].
    + apply Hx with c; [done|]. by apply continue_step.
    + assert (lc_authenticated c = false) as Ea by (unfold ssl_ok in Hs; destruct (lc_authenticated c); [by rewrite Hs in Essl|done]).
      destruct (lo_available owner o); cbn [negb]; [|intros [= <- <- <- <-]; apply step_same; auto].
      destruct (pi_ssl_new io); cbn [negb]; [|apply Hx with c; [done|]; by apply failed_step].
      apply Hx with (c <| lc_ssl := true |> <| lc_activity := pi_now_accept io |>); [|by apply continue_step].
      unfold dmesh_local_control_session. cbn. by rewrite Ea, !orb_true_r.
  - destruct (lc_ssl c) eqn:Essl; cbn [negb]; [apply Hx with c; [done|]; by apply continue_step|]. intros [= <- <- <- <-]. apply step_same; auto.
Qed.

(** ** A run *)

Definition demo_owner : local_owner (list (list byte)) := LocalOwner _ (fun o r => (DMESH_LOCAL_OK, o ++ [r])) (fun _ => []) (fun _ => true).
Definition demo_host : list byte := txt "spiffe://prod/host/node-a".
Definition demo_session : list byte := repeat x05 16.
Definition demo_unregister : list byte := [x03] ++ repeat x00 7 ++ encode 1 8 ++ demo_session ++ repeat x06 32.

Definition demo_connect : progress_io :=
  ProgressIo true true 10 10 (TlsDone tt) true (Some [NameOther; NameUri demo_host]) (Some demo_session) 10 (TlsDone 36%nat) TlsWants 10.
Definition demo_request_io : progress_io :=
  ProgressIo false true 11 11 TlsWants true None None 11 TlsWants (TlsDone demo_unregister) 11.
Definition demo_initial : dmesh_local_control :=
  default (LocalControl false false [] [] 0 0 [] 0 0 [] [] []) (dmesh_local_control_create demo_host 4430 true).

(** The state and the events after a call. *)
Definition polled_once (c : dmesh_local_control) (io : progress_io) : dmesh_local_control * list local_event :=
  match dmesh_local_control_progress demo_owner (Some c) [] io with
  | (_, Some c', _, es) => (c', es)
  | (_, None, _, es) => (c, es)
  end.
Definition local_greeted : dmesh_local_control := (polled_once demo_initial demo_connect).1.
Definition demo_served : dmesh_local_control := (polled_once local_greeted demo_request_io).1.

Lemma local_demo_run : local_run demo_owner demo_host demo_served ([Hello demo_session; Wrote (response_bytes demo_session 0 0)] ++ [Read demo_unregister; Answered demo_unregister 0]).
Proof.
  eapply (run_progress _ _ local_greeted _ [] demo_request_io 1 demo_served [demo_unregister]); [|split; cbn; intros; simplify_eq; vm_compute; lia|vm_compute; reflexivity].
  eapply (run_progress _ _ demo_initial [] [] demo_connect 1 local_greeted []); [|split; cbn; intros; simplify_eq; vm_compute; lia|vm_compute; reflexivity].
  apply (run_create _ _ 4430). reflexivity.
Qed.

Lemma local_sessions_ordered_witness :
  order ([Hello demo_session; Wrote (response_bytes demo_session 0 0)] ++ [Read demo_unregister; Answered demo_unregister 0]) = Some (Some (demo_session, 1)) /\
  exists resps, served demo_session [demo_unregister] [(demo_unregister, 0)] resps /\
    response_bytes demo_session 0 0 ++ unsent demo_served = concat resps.
Proof.
  destruct (local_sessions_ordered demo_owner demo_host demo_served _ local_demo_run) as (H1 & _ & _ & H4). split; [exact H1|].
  destruct (H4 demo_session eq_refl) as (resps & R1 & _ & _ & _ & R2). exists resps. split; [exact R1|exact R2].
Defined.
