(* ===== verification/ControlScope.v ===== *)
(** * The mediated control-plane scope ([doca/control_scope.c])

    The DPU asks the controller, by one HTTP request, whether it may act for a
    Pod.  What the network answers is a parameter: nothing, or the bytes read. *)

From S2P Require Import Prelude Text Spans PeerIdentity.

Definition SCOPE_REPLY_MAX : nat := N.to_nat 2048.
Definition SCOPE_HOST_SIZE : nat := N.to_nat 256.

Inductive dmesh_scope_state := SCOPE_REFUSED | SCOPE_UNKNOWN | SCOPE_ALLOWED.
#[export] Instance scope_state_dec : EqDecision dmesh_scope_state.
Proof. solve_decision. Defined.

(** [scope_host] and [scope_port] of [struct objects]. *)
Record scope_config := ScopeConfig { sc_host : list byte; sc_port : Z }.

(** [isspace] *)
Definition is_space (c : byte) : bool := in_range x09 x0d c || char_eq c " ".

Fixpoint skip_spaces (s : list byte) : list byte :=
  match s with c :: s' => if is_space c then skip_spaces s' else s | [] => [] end.

Definition LONG_MAX : Z := 2 ^ 63 - 1.

(** [strtol(s, NULL, 10)] on the characters before the terminator: white space, a
    sign, the longest run of digits, clamped to the range of [long]. *)
Definition strtol (s : list byte) : Z :=
  let s := skip_spaces s in
  let (negative, s) :=
    match s with
    | c :: s' => if char_eq c "-" then (true, s') else if char_eq c "+" then (false, s') else (false, s)
    | [] => (false, [])
    end in
  let value := undecimal (take_digits s).1 0 in
  if negative then Z.max (- LONG_MAX - 1) (- value) else Z.min LONG_MAX value.

(** The last ['c'] of a text. *)
Definition strrchr (s : list byte) (c : byte) : option nat := (fun i => (length s - 1 - i)%nat) <$> memchr (reverse s) c.

Definition dmesh_scope_configure (url : option (list byte)) : bool * scope_config :=
  let off := ScopeConfig [] 0 in
  match url with
  | None | Some [] => (true, off)
  | Some url =>
      let rest := if starts (txt "http://") url then drop 7 url else url in
      match strrchr rest ":" with
      | None | Some O => (false, off)
      | Some colon =>
          if (SCOPE_HOST_SIZE <=? colon)%nat then (false, off)
          else
            let port := strtol (drop (S colon) rest) in
            if (port <=? 0) || (65535 <? port) then (false, off)
            else (true, ScopeConfig (take colon rest) (u16 port))
      end
  end.

Fixpoint scope_uid_chars (i : nat) (s : list byte) : bool :=
  match s with
  | [] => true
  | c :: s' =>
      if hyphen_at i then (if negb (char_eq c "-") then false else scope_uid_chars (S i) s')
      else if negb (in_range "0" "9" c || in_range "a" "f" c) then false
      else scope_uid_chars (S i) s'
  end.

Definition scope_uid_ok (pod_uid : option (list byte)) : bool :=
  match pod_uid with
  | None => false
  | Some uid => (length (cstr uid) =? 36)%nat && scope_uid_chars 0 (cstr uid)
  end.

(** The request line and headers, when they fit the buffer. *)
Definition CRLF : list byte := [x0d; x0a].
Definition scope_request (host uid : list byte) : option (list byte) :=
  let request := txt "GET /workload-scope?pod_uid=" ++ uid ++ txt " HTTP/1.0" ++ CRLF ++ txt "Host: " ++ host ++ CRLF ++
                 txt "Connection: close" ++ CRLF ++ CRLF in
  if (512 <=? length request)%nat then None else Some request.

(** What the reply says: the status code at offset 9. *)
Definition scope_answer (reply : list byte) : dmesh_scope_state :=
  if (length reply <? 12)%nat || negb (starts (txt "HTTP/1.") reply) then SCOPE_UNKNOWN
  else if starts (txt "200") (drop 9 reply) then SCOPE_ALLOWED
  else if starts (txt "403") (drop 9 reply) || starts (txt "404") (drop 9 reply) then SCOPE_REFUSED
  else SCOPE_UNKNOWN.

(** [network] answers a host, a port and a request: [None] when resolving,
    connecting or writing fails, and otherwise what was read, up to the bound. *)
Definition scope_network : Type := list byte -> Z -> list byte -> option (list byte).

Definition dmesh_scope_query (network : scope_network) (config : scope_config) (pod_uid : option (list byte)) : dmesh_scope_state :=
  if bool_decide (sc_host config = []) || (sc_port config =? 0) then SCOPE_UNKNOWN
  else if negb (scope_uid_ok pod_uid) then SCOPE_REFUSED
  else
    match scope_request (sc_host config) (cstr (default [] pod_uid)) with
    | None => SCOPE_UNKNOWN
    | Some request =>
        match network (sc_host config) (sc_port config) request with
        | None => SCOPE_UNKNOWN
        | Some reply => scope_answer (take SCOPE_REPLY_MAX reply)
        end
    end.

(** ** What an answer takes *)

Lemma scope_uid_chars_loop i s : scope_uid_chars i s = uid_loop i s.
Proof.
  revert i. induction s as [|c s IH]; intros i; [done|]. cbn [scope_uid_chars uid_loop]. rewrite IH. unfold hex_lower.
  destruct (hyphen_at i).
  - by destruct (char_eq c "-").
  - rewrite orb_comm. by destruct (in_range "a" "f" c || in_range "0" "9" c).
Qed.

Lemma scope_uid_ok_spec uid : scope_uid_ok (Some uid) = true <-> pod_uid (cstr uid).
Proof. cbn [scope_uid_ok]. rewrite scope_uid_chars_loop. apply (span_pod_uid_spec (cstr uid)). Qed.

(** A configured host and port, from the whole of the URL. *)
Lemma scope_configured url config : dmesh_scope_configure url = (true, config) ->
  config = ScopeConfig [] 0 \/ (sc_host config <> [] /\ (length (sc_host config) < SCOPE_HOST_SIZE)%nat /\ 1 <= sc_port config <= 65535).
Proof.
  unfold dmesh_scope_configure. intros H. destruct url as [[|c url]|]; [injection H as <-; by left| |injection H as <-; by left].
  set (rest := if starts (txt "http://") (c :: url) then drop 7 (c :: url) else c :: url) in H. destruct (strrchr rest ":") as [[|colon]|] eqn:Ec; try done.
  destruct (Nat.leb_spec SCOPE_HOST_SIZE (S colon)); [done|]. set (port := strtol _) in H.
  destruct (Z.leb_spec port 0); [done|]. destruct (Z.ltb_spec 65535 port); [done|]. injection H as <-. right. cbn [sc_host sc_port].
  unfold strrchr in Ec. apply fmap_Some in Ec as (i & Hi & Ei). rewrite wrap_small by (unfold in_width; lia).
  apply memchr_Some in Hi as (r & E & Hl & _). apply (f_equal length) in E. rewrite length_reverse, length_app, Hl in E. cbn [length] in E.
  split; [|split; [|lia]].
  - intros E'. apply (f_equal length) in E'. rewrite length_take in E'. cbn [length] in E'. lia.
  - rewrite length_take. lia.
Qed.

(** The controller's word is needed: only an HTTP 200 to the request for this very
    Pod allows, and a refusal is a 403, a 404 or a name that is no Pod UID. *)
Lemma scope_query_allowed network config uid :
  dmesh_scope_query network config uid = SCOPE_ALLOWED ->
  exists u request reply, uid = Some u /\ pod_uid (cstr u) /\ scope_request (sc_host config) (cstr u) = Some request /\
    network (sc_host config) (sc_port config) request = Some reply /\ starts (txt "200") (drop 9 (take SCOPE_REPLY_MAX reply)) = true.
Proof.
  unfold dmesh_scope_query. destruct (_ || _); [done|]. destruct (scope_uid_ok uid) eqn:Eu; [|done]. cbn [negb].
  destruct uid as [u|]; [|done]. apply scope_uid_ok_spec in Eu. cbn [default]. destruct (scope_request _ _) as [request|] eqn:Er; [|done].
  destruct (network _ _ _) as [reply|] eqn:En; [|done]. unfold scope_answer. destruct (_ || _); [done|].
  destruct (starts (txt "200") _) eqn:Es; [|by destruct (_ || _)]. intros _. by exists u, request, reply.
Qed.
