(* ===== verification/Registration.v ===== *)
(** * Registration of Pods ([doca/comch_server.c])

    The control server's table of connections: challenges, sealed assertions,
    registration, teardown, and the callbacks of the paired-host session.  The
    table is an array of [MAX_PODS] slots of which the first [num_pods] have been
    used; a connection is a number.  The DMA and DPA engines that import and tear
    down a Pod's mappings are other components: whether a slot holds imported
    resources is [ps_imported], and what they answer is an argument. *)

From S2P Require Import Prelude Text Spans PeerIdentity WorkloadIdentity Topology LocalControl ControlScope.

Definition MAX_PODS : nat := 127.
Definition POD_ID_SPACE : nat := 128.
Definition MAX_DPA_RINGS : Z := 16.
Definition DMESH_SVC_NONE : Z := -1.
Definition DMESH_LOCAL_VERSION : Z := 6.
Definition DMESH_REGISTRATION_TIMEOUT_NS : Z := 30 * 1000000000.
Definition ADMISSION_CHECK_INTERVAL_NS : Z := 1000000000.

Inductive dmesh_pod_init_result := INIT_PENDING | INIT_READY | INIT_REGISTER_FAILED | INIT_MMAP_FAILED | INIT_DPA_FAILED.
#[export] Instance init_result_dec : EqDecision dmesh_pod_init_result.
Proof. solve_decision. Defined.

(** ** State *)

Record pod_state := Pod {
  ps_connection : option nat; ps_connected_ns : Z; ps_disconnect_pending : bool; ps_closed : bool; ps_pod_id : Z; ps_service_id : Z;
  ps_workload : list byte; ps_pod_uid : list byte; ps_namespace : list byte; ps_account : list byte; ps_pod_ip : list byte;
  ps_service : list byte; ps_nonce : list byte; ps_peer : dmesh_peer_registration; ps_scope : dmesh_scope_state;
  ps_issued : bool; ps_sent : bool; ps_verified : bool; ps_consumed : bool; ps_registered : bool; ps_dma_ready : bool;
  ps_init : dmesh_pod_init_result; ps_init_sent : bool; ps_cleanup : bool; ps_cleanup_sent : bool;
  ps_imported : bool; ps_k_rings : Z; ps_stripes : Z }.
#[export] Instance eta_pod : Eta pod_state := fun p =>
  Pod (ps_connection p) (ps_connected_ns p) (ps_disconnect_pending p) (ps_closed p) (ps_pod_id p) (ps_service_id p)
    (ps_workload p) (ps_pod_uid p) (ps_namespace p) (ps_account p) (ps_pod_ip p) (ps_service p) (ps_nonce p) (ps_peer p) (ps_scope p)
    (ps_issued p) (ps_sent p) (ps_verified p) (ps_consumed p) (ps_registered p) (ps_dma_ready p)
    (ps_init p) (ps_init_sent p) (ps_cleanup p) (ps_cleanup_sent p) (ps_imported p) (ps_k_rings p) (ps_stripes p).

Definition unused_pod : pod_state :=
  Pod None 0 false false 0 0 [] [] [] [] [] [] (repeat x00 DMESH_REG_NONCE_SIZE) zero_registration SCOPE_UNKNOWN
    false false false false false false INIT_PENDING false false false false 0 0.

Record objects := Objects {
  ob_pods : list pod_state; ob_num_pods : nat; ob_map : list Z;
  ob_incarnation : list byte; ob_generations : list Z; ob_shutting_down : bool;
  ob_cluster : option (list byte); ob_node : option (list byte);
  ob_topology : dmesh_topology; ob_control : option dmesh_local_control; ob_scope : scope_config;
  ob_threads : Z; ob_rings : Z; ob_workers : Z }.
#[export] Instance eta_objects : Eta objects := fun o =>
  Objects (ob_pods o) (ob_num_pods o) (ob_map o) (ob_incarnation o) (ob_generations o) (ob_shutting_down o) (ob_cluster o) (ob_node o)
    (ob_topology o) (ob_control o) (ob_scope o) (ob_threads o) (ob_rings o) (ob_workers o).

(** What the server does besides changing its state. *)
Inductive server_effect :=
  | SendChallenge (conn : nat) (nonce : list byte)
  | SendAssigned (conn : nat) (pod_id stripes service_id : Z)
  | SendInitResult (conn : nat) (pod_id : Z) (result : dmesh_pod_init_result) (stripes : Z)
  | SendQuiesced (conn : nat) (pod_id : Z)
  | SubmitDisconnect (conn : nat)
  | InboundForget (workload : list byte)
  | PeerUnregister (pod_uid : list byte)
  | TeardownDma (slot : nat)
  | L7Event (kind reason : list byte).

(** The slots in use, with their numbers. *)
Definition slots_in_use (o : objects) : list (nat * pod_state) := imap pair (take (ob_num_pods o) (ob_pods o)).
Definition first_slot (p : pod_state -> bool) (o : objects) : option nat := index_of p (take (ob_num_pods o) (ob_pods o)).
Definition update_pod (i : nat) (f : pod_state -> pod_state) (o : objects) : objects := o <| ob_pods ::= alter f i |>.
Definition store_map (pod_id : Z) (slot : Z) (o : objects) : objects := o <| ob_map ::= insert (Z.to_nat pod_id) slot |>.
Definition in_id_space (pod_id : Z) : bool := (0 <=? pod_id) && (pod_id <? Z.of_nat POD_ID_SPACE).

Definition connected_as (conn : nat) (p : pod_state) : bool := bool_decide (ps_connection p = Some conn).
Definition is_connected (p : pod_state) : bool := bool_decide (ps_connection p <> None).

Definition find_pod_by_connection (o : objects) (conn : nat) : option nat := first_slot (connected_as conn) o.

Definition find_pod_by_id (o : objects) (pod_id : Z) : option nat :=
  if negb (in_id_space pod_id) then None
  else
    idx ← ob_map o !! Z.to_nat pod_id;
    if (idx <? 0) || (Z.of_nat MAX_PODS <=? idx) then None
    else
      p ← ob_pods o !! Z.to_nat idx;
      if ps_registered p && (ps_pod_id p =? pod_id) then Some (Z.to_nat idx) else None.

(** ** Connections *)

Definition dmesh_registration_should_expire (connected_ns now_ns : Z) (registered disconnect_pending : bool) (timeout_ns : Z) : bool :=
  negb (connected_ns =? 0) && negb registered && negb disconnect_pending && (connected_ns <=? now_ns) &&
  (timeout_ns <=? u64 (now_ns - connected_ns)).

(** A slot for a new connection; what the DMA engines own of it stays. *)
Definition fresh_pod (conn : nat) (now_ns : Z) (workers : Z) (p : pod_state) : pod_state :=
  Pod (Some conn) now_ns false false (-1) DMESH_SVC_NONE [] [] [] [] [] [] (repeat x00 DMESH_REG_NONCE_SIZE) zero_registration
    (ps_scope p) false false false false false (ps_dma_ready p) INIT_PENDING false false false (ps_imported p) (ps_k_rings p) workers.

Definition recyclable (p : pod_state) : bool := negb (is_connected p) && negb (ps_registered p) && negb (ps_cleanup p).

Definition live_cap (o : objects) : Z := Z.min (Z.quot (MAX_DPA_RINGS * ob_threads o) (ob_rings o)) (Z.of_nat MAX_PODS).

(** [now_ns] is the monotonic clock, or 1 when it cannot be read. *)
Definition pods_add_connection (conn : nat) (now_ns : Z) (o : objects) : bool * objects :=
  if ob_shutting_down o then (false, o)
  else
    match first_slot recyclable o with
    | Some idx => (true, update_pod idx (fresh_pod conn now_ns (ob_workers o)) o)
    | None =>
        if live_cap o <=? Z.of_nat (ob_num_pods o) then (false, o)
        else (true, update_pod (ob_num_pods o) (fresh_pod conn now_ns (ob_workers o)) o <| ob_num_pods ::= S |>)
    end.

(** [random] is what [RAND_bytes] delivers; [send_ok] whether the message is
    submitted. *)
Definition server_send_registration_challenge (slot : nat) (random : option (list byte)) (send_ok : bool) (o : objects)
    : bool * objects * list server_effect :=
  match ob_pods o !! slot with
  | None => (false, o, [])
  | Some p =>
      match ps_connection p with
      | None => (false, o, [])
      | Some conn =>
          let issued := if ps_issued p then Some p
                        else nonce ← random; Some (p <| ps_nonce := nonce |> <| ps_issued := true |>) in
          match issued with
          | None => (false, o, [])
          | Some p =>
              let o := update_pod slot (fun _ => p) o in
              if ps_sent p then (true, o, [])
              else if send_ok then (true, update_pod slot (fun p => p <| ps_sent := true |>) o, [SendChallenge conn (ps_nonce p)])
              else (false, o, [])
          end
      end
  end.

Definition server_connection_event (conn : nat) (now_ns : Z) (random : option (list byte)) (send_ok : bool) (o : objects)
    : objects * list server_effect :=
  let (added, o) := pods_add_connection conn now_ns o in
  if negb added then (o, [])
  else
    match find_pod_by_connection o conn with
    | None => (o, [])
    | Some slot => let '(_, o, e) := server_send_registration_challenge slot random send_ok o in (o, e)
    end.

(** ** Sealed assertions *)

Definition other_verified (current : nat) (o : objects) : bool :=
  existsb (fun x => negb (x.1 =? current)%nat && is_connected x.2 && ps_verified x.2) (slots_in_use o).

Definition registration_lifecycle_accept (current : nat) (c : dmesh_identity_claims) (o : objects) : dmesh_identity_result * objects :=
  if Z.of_nat MAX_PODS <=? cl_channel_slot c then (IDENTITY_WRONG_CHANNEL, o)
  else
    let switch := all_zero (ob_incarnation o) || negb (bytes_eq (ob_incarnation o) (cl_daemon_incarnation c)) in
    if switch && other_verified current o then (IDENTITY_WRONG_INCARNATION, o)
    else
      let o := if switch
               then o <| ob_incarnation := cl_daemon_incarnation c |> <| ob_generations := repeat 0 MAX_PODS |>
               else o in
      let slot := Z.to_nat (cl_channel_slot c) in
      if cl_channel_generation c <=? default 0 (ob_generations o !! slot) then (IDENTITY_WRONG_CHANNEL, o)
      else (IDENTITY_OK, o <| ob_generations ::= insert slot (cl_channel_generation c) |>).

Definition registration_bind (c : dmesh_identity_claims) (p : pod_state) : pod_state :=
  Pod (ps_connection p) (ps_connected_ns p) (ps_disconnect_pending p) (ps_closed p) (ps_pod_id p) (ps_service_id p)
    (cl_workload c) (cl_pod_uid c) (cl_namespace_name c) (cl_service_account c) (cl_pod_ip c) (cl_service_name c) (ps_nonce p)
    (Registration (cl_daemon_incarnation c) (cl_channel_slot c) (cl_channel_generation c) (ps_nonce p)) (ps_scope p)
    (ps_issued p) (ps_sent p) true (ps_consumed p) (ps_registered p) (ps_dma_ready p)
    (ps_init p) (ps_init_sent p) (ps_cleanup p) (ps_cleanup_sent p) (ps_imported p) (ps_k_rings p) (ps_stripes p).

Definition registration_session (o : objects) : option (list byte) := dmesh_local_control_session (ob_control o).

(** May this connection state its identity now? *)
Definition awaiting_assertion (p : pod_state) : bool :=
  ps_issued p && negb (ps_closed p) && negb (ps_cleanup p) && negb (ps_verified p) && negb (ps_disconnect_pending p).

Definition framed_assertion (m : dmesh_registration_assertion_msg) : bool :=
  (am_version m =? DMESH_LOCAL_VERSION) && forallb (fun b => b2z b =? 0) (am_reserved m).

(** [now_sec] is the wall clock.  The result is whether the assertion was accepted. *)
Definition registration_accept_assertion (C : crypto) (conn : nat) (m : dmesh_registration_assertion_msg) (now_sec : Z) (o : objects)
    : bool * objects :=
  if negb (framed_assertion m) then (false, o)
  else
    match find_pod_by_connection o conn with
    | None => (false, o)
    | Some slot =>
        match ob_pods o !! slot with
        | None => (false, o)
        | Some p =>
            if ob_shutting_down o || negb (awaiting_assertion p) then (false, o)
            else
              match registration_session o with
              | None => (false, o)
              | Some session =>
                  if negb (dmesh_registration_verify C session m) then (false, o)
                  else
                    match dmesh_identity_decode (am_identity m) (ob_cluster o) (ob_node o) (ps_nonce p) now_sec with
                    | (IDENTITY_OK, Some c) =>
                        match registration_lifecycle_accept slot c o with
                        | (IDENTITY_OK, o) => (true, update_pod slot (registration_bind c) o)
                        | (_, o) => (false, o)
                        end
                    | _ => (false, o)
                    end
              end
        end
    end.

(** ** Registration *)

(** ["%.*s/%.*s"] with at most 63 characters of each. *)
Definition service_key_of (namespace service : list byte) : list byte :=
  take (DMESH_K8S_NAMESPACE_MAX - 1) (cstr namespace) ++ txt "/" ++ take (DMESH_SVC_NAME_MAX - 1) (cstr service).

(** The id of the Service a registration names, when it names one. *)
Definition registered_service_id (o : objects) (p : pod_state) (service_name : list byte) : option Z :=
  if bool_decide (cstr service_name = []) then Some DMESH_SVC_NONE
  else
    let id := dmesh_topology_interned_id (ob_topology o) (Some (service_key_of (ps_namespace p) service_name)) in
    if id <? 0 then None else Some id.

Definition may_register (o : objects) (p : pod_state) (service_name : list byte) : bool :=
  negb (ob_shutting_down o) && negb (ps_closed p) && ps_verified p && negb (ps_consumed p) && str_eq service_name (ps_service p).

Definition publish_registration (pod_id service_id : Z) (p : pod_state) : pod_state :=
  p <| ps_pod_id := pod_id |> <| ps_service_id := service_id |> <| ps_consumed := true |> <| ps_connected_ns := 0 |> <| ps_registered := true |>.

Definition protection_reason (protection : Z) : list byte :=
  if 0 <? protection then txt "protected" else if protection =? 0 then txt "unprotected" else txt "ungraded".

Definition pods_register (network : scope_network) (conn : nat) (pod_id : Z) (service_name : list byte) (o : objects)
    : Z * objects * list server_effect :=
  if (pod_id <? -1) || (Z.of_nat POD_ID_SPACE <=? pod_id) || (DMESH_SVC_NAME_MAX <=? length (cstr service_name))%nat then (-1, o, [])
  else
    match find_pod_by_connection o conn with
    | None => (-1, o, [])
    | Some i =>
        match ob_pods o !! i with
        | None => (-1, o, [])
        | Some p =>
            if ps_cleanup p then (-1, o, [])
            else if ps_registered p then
              if ((pod_id <? 0) || (pod_id =? ps_pod_id p)) && str_eq service_name (ps_service p) then (ps_pod_id p, o, []) else (-1, o, [])
            else if negb (may_register o p service_name) then (-1, o, [])
            else
              match registered_service_id o p service_name with
              | None => (-1, o, [])
              | Some service_id =>
                  let pod_id := if pod_id <? 0 then Z.of_nat i else pod_id in
                  if 0 <=? default (-1) (ob_map o !! Z.to_nat pod_id) then (-1, o, [])
                  else
                    let o := update_pod i (publish_registration pod_id service_id) o in
                    let o := store_map pod_id (Z.of_nat i) o in
                    let o := update_pod i (fun p => p <| ps_scope := dmesh_scope_query network (ob_scope o) (Some (ps_pod_uid p)) |>) o in
                    (pod_id, o, [L7Event (txt "registration") (protection_reason (dmesh_topology_service_protection (ob_topology o) service_id))])
              end
        end
    end.

(** The message handler: the registration and the replies it tries to send. *)
Definition register_replies (conn : nat) (assigned : Z) (o : objects) : list server_effect :=
  if 0 <=? assigned then
    match i ← find_pod_by_connection o conn; ob_pods o !! i with
    | Some p =>
        SendAssigned conn assigned (ob_workers o) (ps_service_id p) ::
        (if bool_decide (ps_init p = INIT_PENDING) then [] else [SendInitResult conn (ps_pod_id p) (ps_init p) (ps_stripes p)])
    | None => [SendAssigned conn assigned (ob_workers o) DMESH_SVC_NONE]
    end
  else [SendInitResult conn (-1) INIT_REGISTER_FAILED (ob_workers o)].

Definition server_register (network : scope_network) (conn : nat) (pod_id : Z) (service_name : list byte) (o : objects)
    : objects * list server_effect :=
  if bool_decide (memchr service_name x00 = None) then (o, [])
  else let '(assigned, o, e) := pods_register network conn pod_id service_name o in (o, e ++ register_replies conn assigned o).

(** ** Teardown *)

Definition begin_cleanup_pod (p : pod_state) : pod_state :=
  p <| ps_dma_ready := false |> <| ps_registered := false |> <| ps_cleanup_sent := false |> <| ps_cleanup := true |>.

Definition clear_map (pod_id : Z) (o : objects) : objects := if in_id_space pod_id then store_map pod_id (-1) o else o.

(** The peer manager's hook is installed. *)
Definition pod_begin_cleanup (i : nat) (o : objects) : objects * list server_effect :=
  match ob_pods o !! i with
  | None => (o, [])
  | Some p =>
      if ps_cleanup p then (o, [])
      else
        (update_pod i begin_cleanup_pod (clear_map (ps_pod_id p) o),
         (if bool_decide (cstr (ps_pod_uid p) = []) then [] else [PeerUnregister (ps_pod_uid p)]) ++ [TeardownDma i])
  end.

Definition pods_unregister_connection (conn : nat) (pod_id : Z) (o : objects) : bool * objects * list server_effect :=
  match find_pod_by_connection o conn with
  | None => (false, o, [])
  | Some i =>
      match ob_pods o !! i with
      | None => (false, o, [])
      | Some p =>
          if negb (ps_pod_id p =? pod_id) then (false, o, [])
          else let (o, e) := pod_begin_cleanup i o in (true, o, e)
      end
  end.

Definition forget_connection (p : pod_state) : pod_state :=
  let p := p <| ps_connection := None |> <| ps_connected_ns := 0 |> <| ps_disconnect_pending := false |> in
  if ps_cleanup p then p else p <| ps_pod_id := -1 |>.

Definition pods_remove_connection (conn : nat) (o : objects) : bool * objects * list server_effect :=
  match find_pod_by_connection o conn with
  | None => (false, o, [])
  | Some i =>
      match ob_pods o !! i with
      | None => (false, o, [])
      | Some p =>
          let forget := if bool_decide (cstr (ps_workload p) = []) then [] else [InboundForget (ps_workload p)] in
          let (o, e) :=
            if (0 <=? ps_pod_id p) && (ps_imported p || (0 <? ps_k_rings p)) && negb (ps_cleanup p) then pod_begin_cleanup i o
            else (clear_map (ps_pod_id p) (update_pod i (fun p => p <| ps_dma_ready := false |> <| ps_registered := false |>) o), []) in
          (true, update_pod i forget_connection o, forget ++ e)
      end
  end.

(** After the imported resources are gone. *)
Definition reclaimed_pod (p : pod_state) : pod_state :=
  Pod (ps_connection p) (ps_connected_ns p) (ps_disconnect_pending p) (ps_closed p) (ps_pod_id p) (ps_service_id p)
    (ps_workload p) (ps_pod_uid p) (ps_namespace p) (ps_account p) (ps_pod_ip p) (ps_service p) (ps_nonce p) (ps_peer p) (ps_scope p)
    (ps_issued p) (ps_sent p) (ps_verified p) (ps_consumed p) (ps_registered p) (ps_dma_ready p)
    INIT_PENDING false (ps_cleanup p) (ps_cleanup_sent p) false 0 0.

Definition end_cleanup (p : pod_state) : pod_state :=
  let p := p <| ps_cleanup := false |> in
  if is_connected p then p else p <| ps_pod_id := -1 |>.

(** What the engines answer for one slot: the teardown is done and every handle
    destroyed; and whether the reply could be submitted. *)
Record cleanup_io := CleanupIo { ci_destroyed : bool; ci_send : bool }.

Definition cleanup_slot (i : nat) (io : cleanup_io) (o : objects) : bool * objects * list server_effect :=
  match ob_pods o !! i with
  | None => (false, o, [])
  | Some p =>
      if negb (ps_cleanup p) || negb (ci_destroyed io) then (false, o, [])
      else
        let o := update_pod i reclaimed_pod o in
        match ps_connection p with
        | Some conn =>
            if ps_cleanup_sent p then (true, update_pod i end_cleanup o, [])
            else if ci_send io then
              (true, update_pod i (fun p => end_cleanup (p <| ps_cleanup_sent := true |>)) o, [SendQuiesced conn (ps_pod_id p)])
            else (false, o, [])
        | None => (true, update_pod i end_cleanup o, [])
        end
  end.

(** A pass over slots, in order. *)
Fixpoint over_slots (f : nat -> objects -> objects * list server_effect) (slots : list nat) (o : objects) : objects * list server_effect :=
  match slots with
  | [] => (o, [])
  | i :: rest => let (o, e) := f i o in let (o, e') := over_slots f rest o in (o, e ++ e')
  end.

Definition server_progress_pod_cleanup (io : nat -> cleanup_io) (o : objects) : objects * list server_effect :=
  over_slots (fun i o => let '(_, o, e) := cleanup_slot i (io i) o in (o, e)) (seq 0 (ob_num_pods o)) o.

(** ** Results of initialization *)

Definition send_pod_init_result (i : nat) (send_ok : bool) (o : objects) : bool * objects * list server_effect :=
  match ob_pods o !! i with
  | None => (false, o, [])
  | Some p =>
      match ps_connection p with
      | None => (false, o, [])
      | Some conn =>
          if bool_decide (ps_init p = INIT_PENDING) then (false, o, [])
          else if ps_init_sent p then (true, o, [])
          else if send_ok then
            (true, update_pod i (fun p => p <| ps_init_sent := true |>) o, [SendInitResult conn (ps_pod_id p) (ps_init p) (ps_stripes p)])
          else (false, o, [])
      end
  end.

Definition server_publish_pod_init_result (i : nat) (result : dmesh_pod_init_result) (send_ok : bool) (o : objects)
    : bool * objects * list server_effect :=
  match ob_pods o !! i with
  | None => (false, o, [])
  | Some p =>
      if bool_decide (result = INIT_PENDING) then (false, o, [])
      else if bool_decide (ps_init p = INIT_PENDING) then send_pod_init_result i send_ok (update_pod i (fun p => p <| ps_init := result |>) o)
      else if bool_decide (ps_init p = result) then send_pod_init_result i send_ok o
      else (false, o, [])
  end.

(** What [doca_comch_server_disconnect] answers. *)
Inductive disconnect_answer := DisconnectOk | DisconnectAgain | DisconnectError.

(** For one slot of the flush: the answer of a disconnect, random bytes, and
    whether each of the two messages can be submitted. *)
Record flush_io := FlushIo {
  fl_disconnect : disconnect_answer; fl_random : option (list byte); fl_send_challenge : bool; fl_send_result : bool }.

Definition expire_slot (now_ns : Z) (i : nat) (answer : disconnect_answer) (o : objects) : objects * list server_effect :=
  match ob_pods o !! i with
  | None => (o, [])
  | Some p =>
      match ps_connection p with
      | Some conn =>
          if negb (now_ns =? 0) && dmesh_registration_should_expire (ps_connected_ns p) now_ns (ps_registered p) (ps_disconnect_pending p)
                                     DMESH_REGISTRATION_TIMEOUT_NS
          then match answer with
               | DisconnectOk =>
                   (update_pod i (fun p => p <| ps_disconnect_pending := true |>) o,
                    [SubmitDisconnect conn; L7Event (txt "registration-timeout") (txt "disconnect")])
               | DisconnectAgain => (o, [L7Event (txt "registration-timeout") (txt "retry")])
               | DisconnectError => (o, [L7Event (txt "registration-timeout") (txt "error")])
               end
          else (o, [])
      | None => (o, [])
      end
  end.

Definition awaiting_result (p : pod_state) : bool :=
  is_connected p && ps_registered p && negb (ps_cleanup p) && negb (bool_decide (ps_init p = INIT_PENDING)) && negb (ps_init_sent p).

Definition flush_slot (now_ns : Z) (io : nat -> flush_io) (i : nat) (o : objects) : objects * list server_effect :=
  let (o, e1) := expire_slot now_ns i (fl_disconnect (io i)) o in
  match ob_pods o !! i with
  | None => (o, e1)
  | Some p =>
      if ps_disconnect_pending p then (o, e1)
      else
        let '(_, o, e2) := if is_connected p && negb (ps_sent p)
                           then server_send_registration_challenge i (fl_random (io i)) (fl_send_challenge (io i)) o
                           else (true, o, []) in
        match ob_pods o !! i with
        | None => (o, e1 ++ e2)
        | Some p =>
            if awaiting_result p then let '(_, o, e3) := send_pod_init_result i (fl_send_result (io i)) o in (o, e1 ++ e2 ++ e3)
            else (o, e1 ++ e2)
        end
  end.

(** [now_ns] is 0 when the clock cannot be read. *)
Definition server_flush_pod_init_results (now_ns : Z) (io : nat -> flush_io) (o : objects) : objects * list server_effect :=
  over_slots (flush_slot now_ns io) (seq 0 (ob_num_pods o)) o.

(** ** The callbacks of the paired-host session *)

Definition local_registration_outstanding (p : pod_state) : bool :=
  ps_registered p || ps_cleanup p || (ps_verified p && negb (ps_closed p)).

Definition local_registration_close (i : nat) (o : objects) : objects * list server_effect :=
  let o := update_pod i (fun p => p <| ps_closed := true |>) o in
  match ob_pods o !! i with
  | None => (o, [])
  | Some p => if is_connected p || ps_registered p then pod_begin_cleanup i o else (o, [])
  end.

Definition server_local_available (o : objects) : bool :=
  negb (ob_shutting_down o) && forallb (fun p => negb (local_registration_outstanding p)) (take (ob_num_pods o) (ob_pods o)).

Definition server_local_retire (o : objects) : objects * list server_effect :=
  over_slots local_registration_close (seq 0 (ob_num_pods o)) o.

Definition names_connection (id : list byte) (p : pod_state) : bool := ps_issued p && bytes_eq (ps_nonce p) id.

Definition server_local_dispatch (o : objects) (r : list byte) : Z * objects * list server_effect :=
  if ob_shutting_down o then (DMESH_LOCAL_STALE, o, [])
  else if negb (req_operation r =? DMESH_LOCAL_STATUS) && negb (req_operation r =? DMESH_LOCAL_UNREGISTER) then (DMESH_LOCAL_INVALID, o, [])
  else
    match first_slot (names_connection (req_connection_id r)) o with
    | None => (DMESH_LOCAL_OK, o, [])
    | Some i =>
        match ob_pods o !! i with
        | None => (DMESH_LOCAL_OK, o, [])
        | Some p =>
            let (o, e) := if (req_operation r =? DMESH_LOCAL_UNREGISTER) && negb (ps_closed p) then local_registration_close i o else (o, []) in
            match ob_pods o !! i with
            | None => (DMESH_LOCAL_OK, o, e)
            | Some p => ((if local_registration_outstanding p then DMESH_LOCAL_PENDING else DMESH_LOCAL_OK), o, e)
            end
        end
    end.

(** The registration server behind the paired-host session. *)
Definition local_server : local_owner objects :=
  LocalOwner objects (fun o r => let '(status, o, _) := server_local_dispatch o r in (status, o))
    (fun o => (server_local_retire o).1) server_local_available.

(** ** Resolution of Services *)

Definition resolve_dns_label (text : list byte) : bool :=
  match head text, last text with
  | Some first, Some final =>
      (length text <=? 63)%nat && negb (char_eq first "-") && negb (char_eq final "-") &&
      forallb (fun c => in_range "a" "z" c || in_range "0" "9" c || char_eq c "-") text
  | _, _ => false
  end.

(** [name] in the namespace given, or [name.namespace]. *)
Definition dmesh_resolve_service_key (namespace query : list byte) (out_len : nat) : option (list byte) :=
  let query := cstr query in
  let '(name, ns, dotted) :=
    match memchr query "." with
    | Some dot => (take dot query, drop (S dot) query, bool_decide (memchr (drop (S dot) query) "." <> None))
    | None => (query, cstr namespace, false)
    end in
  if (out_len =? 0)%nat || dotted || negb (resolve_dns_label name) || negb (resolve_dns_label ns) || (out_len <? length ns + 1 + length name + 1)%nat
  then None
  else Some (ns ++ txt "/" ++ name).

Record dmesh_resolve_msg := ResolveMsg { rm_version : Z; rm_by_name : Z; rm_reserved : Z; rm_reserved2 : Z; rm_ipv4 : Z; rm_port : Z; rm_name : list byte }.
Record dmesh_resolve_ack := ResolveAck { ra_status : Z; ra_svc : Z; ra_generation : Z; ra_namespace : list byte; ra_service : list byte }.

(** The Service asked for, by name or by address. *)
Definition resolve_lookup (o : objects) (p : pod_state) (req : dmesh_resolve_msg) : option dmesh_gen_service :=
  tables ← tp_tables (ob_topology o);
  if rm_by_name req =? 1 then
    key ← dmesh_resolve_service_key (ps_namespace p) (rm_name req) SERVICE_KEY_SIZE;
    dmesh_topology_service (ob_topology o) (Some key)
  else snd <$> list_find (fun s => gs_cluster_ip_be s = rm_ipv4 req /\ gs_port s = rm_port req) (tt_services tables).

(** A live backend here, or an endpoint elsewhere. *)
Definition service_served (o : objects) (svc : Z) : bool :=
  existsb (fun p => ps_registered p && (ps_service_id p =? svc)) (take (ob_num_pods o) (ob_pods o)) ||
  (0 <? length (dmesh_topology_remote_endpoints (ob_topology o) svc (ob_node o) 1))%nat.

Definition resolve_ack (o : objects) (p : pod_state) (req : dmesh_resolve_msg) : dmesh_resolve_ack :=
  match tp_tables (ob_topology o) with
  | None => ResolveAck 2 (-1) 0 [] []
  | Some tables =>
      match resolve_lookup o p req with
      | Some s =>
          if (0 <=? gs_interned s) && ((rm_by_name req =? 1) || service_served o (gs_interned s)) then
            let slash := default O (memchr (gs_key s) "/") in
            ResolveAck 0 (gs_interned s) (tt_version tables) (take slash (gs_key s)) (drop (S slash) (gs_key s))
          else ResolveAck 1 (-1) (tt_version tables) [] []
      | None => ResolveAck 1 (-1) (tt_version tables) [] []
      end
  end.

(** The message handler: [None] when nothing is sent. *)
Definition server_resolve (conn : nat) (req : dmesh_resolve_msg) (o : objects) : option dmesh_resolve_ack :=
  if negb (rm_version req =? 1) || (1 <? rm_by_name req) || negb (rm_reserved req =? 0) || negb (rm_reserved2 req =? 0) ||
     bool_decide (memchr (rm_name req) x00 = None) then None
  else i ← find_pod_by_connection o conn; p ← ob_pods o !! i; Some (resolve_ack o p req).

(** ** Backends and scope *)

(** [collect_live_hosts] of [doca/dpu_worker.c]: the ids of the local backends of a Service. *)
Definition collect_live_hosts (o : objects) (svc : Z) : list Z :=
  if negb (in_id_space svc) then []
  else ps_pod_id <$> filter (fun p => ps_registered p && (ps_service_id p =? svc) && ps_dma_ready p = true) (take (ob_num_pods o) (ob_pods o)).

Definition scope_refresh_pod (network : scope_network) (config : scope_config) (p : pod_state) : pod_state :=
  if negb (ps_registered p) || bool_decide (cstr (ps_pod_uid p) = []) then p
  else match dmesh_scope_query network config (Some (ps_pod_uid p)) with
       | SCOPE_UNKNOWN => p
       | state => p <| ps_scope := state |>
       end.

Definition dmesh_scope_refresh (network : scope_network) (o : objects) : objects :=
  if bool_decide (sc_host (ob_scope o) = []) then o
  else o <| ob_pods ::= fun ps => (scope_refresh_pod network (ob_scope o) <$> take (ob_num_pods o) ps) ++ drop (ob_num_pods o) ps |>.

(** ** Admission *)

Record admission := Admission { ad_path : list byte; ad_enabled : bool; ad_drain : bool; ad_next_check_ns : Z }.
#[export] Instance eta_admission : Eta admission := fun a => Admission (ad_path a) (ad_enabled a) (ad_drain a) (ad_next_check_ns a).

Definition dmesh_admission_configure (path : option (list byte)) : bool * admission :=
  match path with
  | None | Some [] => (true, Admission [] false false 0)
  | Some path => if (PATH_SIZE <=? length path)%nat then (false, Admission [] false false 0) else (true, Admission path true false 0)
  end.

(** The text before the first carriage return or newline. *)
Fixpoint line_text (s : list byte) : list byte :=
  match s with c :: s' => if char_eq c x0d || char_eq c x0a then [] else c :: line_text s' | [] => [] end.

(** [line] is what [fgets] read into 32 bytes; [None] when the file cannot be read. *)
Definition server_progress_admission (now_ns : option Z) (line : option (list byte)) (a : admission) : bool * admission * list server_effect :=
  if negb (ad_enabled a) then (false, a, [])
  else
    match now_ns with
    | None => (false, a, [])
    | Some now =>
        if now <? ad_next_check_ns a then (false, a, [])
        else
          let a := a <| ad_next_check_ns := u64 (now + ADMISSION_CHECK_INTERVAL_NS) |> in
          let drain := match line with Some s => str_eq (line_text s) (txt "drain") | None => false end in
          if bool_decide (drain = ad_drain a) then (false, a, [])
          else (true, a <| ad_drain := drain |>, [L7Event (txt "admission") (if drain then txt "drain" else txt "open")])
    end.
