(* ===== verification/RegistrationInv.v ===== *)
(** * Registration of Pods: the invariant

    Most operations only take something away from a slot: [weaker] says so, and is
    all the invariant needs of them.  Connecting, stating an identity and
    registering are treated one by one. *)

From S2P Require Import Prelude Text Spans PeerIdentity WorkloadIdentity WorkloadProofs Topology TopologyIntern LocalControl ControlScope Registration.

(** ** Operations that only take away *)

(** What a verified identity left in the slot. *)
Definition identity_of (p : pod_state) : list (list byte) * dmesh_peer_registration :=
  ([ps_workload p; ps_pod_uid p; ps_namespace p; ps_account p; ps_pod_ip p; ps_service p; ps_nonce p], ps_peer p).

Record weaker (p p' : pod_state) : Prop := {
  wk_connection : ps_connection p' = ps_connection p \/ ps_connection p' = None;
  wk_verified : ps_verified p' = ps_verified p;
  wk_issued : ps_issued p = true -> ps_issued p' = true;
  wk_identity : ps_issued p = true -> identity_of p' = identity_of p;
  wk_closed : ps_closed p = true -> ps_closed p' = true;
  wk_consumed : ps_consumed p = true -> ps_consumed p' = true;
  wk_registered : ps_registered p' = true -> ps_registered p = true /\ ps_connection p' = ps_connection p /\ ps_closed p' = ps_closed p /\
    ps_cleanup p' = ps_cleanup p /\ ps_pod_id p' = ps_pod_id p /\ ps_service_id p' = ps_service_id p }.

#[export] Instance weaker_refl : Reflexive weaker.
Proof. intros p. by constructor; auto. Qed.
#[export] Instance weaker_trans : Transitive weaker.
Proof.
  intros p q r [A1 A2 A3 A4 A5 A6 A7] [B1 B2 B3 B4 B5 B6 B7]. constructor; [destruct B1 as [->|]; auto|congruence|auto| |auto|auto|].
  - intros H. rewrite B4 by auto. auto.
  - intros H. destruct (B7 H) as (H1 & E1 & E2 & E3 & E4 & E5). destruct (A7 H1) as (H2 & F1 & F2 & F3 & F4 & F5).
    split; [done|]. split_and!; congruence.
Qed.

(** The globals an operation on slots leaves alone. *)
Definition same_globals (o o' : objects) : Prop :=
  ob_num_pods o' = ob_num_pods o /\ ob_incarnation o' = ob_incarnation o /\ ob_generations o' = ob_generations o /\
  ob_control o' = ob_control o /\ ob_topology o' = ob_topology o /\ length (ob_map o') = length (ob_map o).

Record lesser (o o' : objects) : Prop := {
  ls_globals : same_globals o o';
  ls_pods : Forall2 weaker (ob_pods o) (ob_pods o') }.

#[export] Instance lesser_refl : Reflexive lesser.
Proof. intros o. constructor; [by repeat split|]. apply Forall_Forall2_diag, Forall_true. intros p. reflexivity. Qed.
#[export] Instance lesser_trans : Transitive lesser.
Proof.
  intros o1 o2 o3 [(?&?&?&?&?&?) A] [(?&?&?&?&?&?) B]. constructor; [split_and!; congruence|].
  etrans; [exact A|exact B].
Qed.

Lemma Forall2_alter_r {A} (R : A -> A -> Prop) `{!Reflexive R} f i l : (forall x, l !! i = Some x -> R x (f x)) -> Forall2 R l (alter f i l).
Proof.
  revert i. induction l as [|x l IH]; intros [|i] H; [constructor..| |].
  - constructor; [by apply H|]. apply Forall_Forall2_diag, Forall_true. intros y. reflexivity.
  - constructor; [done|]. by apply IH.
Qed.

Lemma update_lesser i f o : (forall p, ob_pods o !! i = Some p -> weaker p (f p)) -> lesser o (update_pod i f o).
Proof. intros H. constructor; [by repeat split|]. by apply (Forall2_alter_r weaker). Qed.

Lemma clear_map_lesser pod_id o : lesser o (clear_map pod_id o).
Proof.
  unfold clear_map, store_map. destruct (in_id_space pod_id); [|reflexivity]. constructor; [|apply (ls_pods _ _ (reflexivity o))].
  split_and!; try done. apply length_insert.
Qed.

(** A slot being cleaned up is not registered. *)
Definition tidy (o : objects) : Prop := Forall (fun p => ps_cleanup p = true -> ps_registered p = false) (ob_pods o).

Lemma tidy_lesser o o' : lesser o o' -> tidy o -> tidy o'.
Proof.
  intros [_ H] Ht. unfold tidy in *. rewrite Forall_lookup in *. intros i p' Hi Hc. apply not_true_iff_false. intros Hr.
  destruct (Forall2_lookup_r _ _ _ _ _ H Hi) as (p & Hp & Hw). destruct (wk_registered _ _ Hw Hr) as (H1 & _ & _ & E & _).
  rewrite (Ht i p Hp) in H1; [done|]. congruence.
Qed.

Lemma over_slots_lesser f slots o : (forall i o, tidy o -> lesser o (f i o).1) -> tidy o -> lesser o (over_slots f slots o).1.
Proof.
  intros Hf. revert o. induction slots as [|i slots IH]; intros o Ht; cbn [over_slots]; [reflexivity|].
  pose proof (Hf i o Ht) as H1. destruct (f i o) as [o1 e1]. specialize (IH o1 (tidy_lesser _ _ H1 Ht)).
  destruct (over_slots f slots o1) as [o2 e2]. cbn in *. by etrans.
Qed.

Ltac weak := constructor; cbn; auto; try done.

Lemma begin_cleanup_weaker p : weaker p (begin_cleanup_pod p).
Proof. weak. Qed.

Lemma pod_begin_cleanup_lesser i o : lesser o (pod_begin_cleanup i o).1.
Proof.
  unfold pod_begin_cleanup. destruct (ob_pods o !! i) as [p|]; [|reflexivity]. destruct (ps_cleanup p); [reflexivity|]. cbn [fst].
  etrans; [apply clear_map_lesser|]. apply update_lesser. intros q _. apply begin_cleanup_weaker.
Qed.

Lemma unregister_lesser conn pod_id o : lesser o (pods_unregister_connection conn pod_id o).1.2.
Proof.
  unfold pods_unregister_connection. destruct (find_pod_by_connection o conn) as [i|]; [|reflexivity]. destruct (ob_pods o !! i) as [p|]; [|reflexivity].
  destruct (negb _); [reflexivity|]. pose proof (pod_begin_cleanup_lesser i o) as H. by destruct (pod_begin_cleanup i o).
Qed.

Lemma update_lookup i f o j : ob_pods (update_pod i f o) !! j = if decide (i = j) then f <$> ob_pods o !! j else ob_pods o !! j.
Proof.
  cbn [update_pod ob_pods set]. unfold update_pod. cbn. destruct (decide (i = j)) as [->|Hne]; [apply list_lookup_alter_eq|by apply list_lookup_alter_ne].
Qed.

Lemma update_here i f o p : ob_pods o !! i = Some p -> ob_pods (update_pod i f o) !! i = Some (f p).
Proof. intros H. by rewrite update_lookup, decide_True, H. Qed.

Lemma update_missing i f o : ob_pods o !! i = None -> ob_pods (update_pod i f o) !! i = None.
Proof. intros H. by rewrite update_lookup, decide_True, H. Qed.

Lemma clear_map_pods pod_id o : ob_pods (clear_map pod_id o) = ob_pods o.
Proof. unfold clear_map. by destruct (in_id_space pod_id). Qed.

(** Two updates of one slot are one. *)
Lemma update_update i f g o : update_pod i g (update_pod i f o) = update_pod i (fun p => g (f p)) o.
Proof. unfold update_pod. destruct o. cbn. f_equal. apply list_alter_alter_eq. Qed.

Lemma update_ext i f g o : (forall p, ob_pods o !! i = Some p -> f p = g p) -> update_pod i f o = update_pod i g o.
Proof. intros H. unfold update_pod. destruct o. cbn in *. f_equal. apply list_alter_ext; [|done]. intros x Hx. by apply H. Qed.

Lemma update_clear i f pod_id o : clear_map pod_id (update_pod i f o) = update_pod i f (clear_map pod_id o).
Proof. unfold clear_map. by destruct (in_id_space pod_id), o. Qed.

(** The state after a slot is closed. *)
Definition close_pod (p : pod_state) : pod_state :=
  let p1 := p <| ps_closed := true |> in
  if (is_connected p || ps_registered p) && negb (ps_cleanup p) then begin_cleanup_pod p1 else p1.

Lemma close_weaker p : (ps_cleanup p = true -> ps_registered p = false) -> weaker p (close_pod p).
Proof.
  intros Ht. unfold close_pod. destruct (ps_cleanup p) eqn:Ec; cbn [negb andb]; rewrite ?andb_false_r, ?andb_true_r.
  - weak. by rewrite Ht.
  - destruct (is_connected p || ps_registered p) eqn:E; weak. apply orb_false_iff in E as [_ ->]. done.
Qed.

Lemma close_state i o : exists o1, lesser o o1 /\ ob_pods o1 = ob_pods o /\ (local_registration_close i o).1 = update_pod i close_pod o1.
Proof.
  unfold local_registration_close. destruct (ob_pods o !! i) as [p|] eqn:E.
  - rewrite (update_here i _ o p E).
    change (is_connected (p <| ps_closed := true |>)) with (is_connected p). change (ps_registered (p <| ps_closed := true |>)) with (ps_registered p).
    destruct (is_connected p || ps_registered p) eqn:Eb.
    + unfold pod_begin_cleanup. rewrite (update_here i _ o p E). change (ps_cleanup (p <| ps_closed := true |>)) with (ps_cleanup p).
      destruct (ps_cleanup p) eqn:Ec; cbn [fst].
      * exists o. split; [reflexivity|]. split; [done|]. apply update_ext. intros q Hq. assert (q = p) as -> by congruence.
        unfold close_pod. by rewrite Ec, andb_false_r.
      * change (ps_pod_id (p <| ps_closed := true |>)) with (ps_pod_id p). exists (clear_map (ps_pod_id p) o).
        split; [apply clear_map_lesser|]. split; [apply clear_map_pods|]. rewrite update_clear, update_update.
        apply update_ext. rewrite clear_map_pods. intros q Hq. assert (q = p) as -> by congruence. unfold close_pod. by rewrite Ec, Eb.
    + exists o. split; [reflexivity|]. split; [done|]. cbn [fst]. apply update_ext. intros q Hq. assert (q = p) as -> by congruence.
      unfold close_pod. by rewrite Eb.
  - rewrite (update_missing i _ o E). cbn [fst]. exists o. split; [reflexivity|]. split; [done|]. apply update_ext. congruence.
Qed.

Lemma close_lesser i o : tidy o -> lesser o (local_registration_close i o).1.
Proof.
  intros Ht. destruct (close_state i o) as (o1 & H1 & E & ->). etrans; [exact H1|]. apply update_lesser. intros p Hp.
  apply close_weaker. unfold tidy in Ht. rewrite Forall_lookup, <-E in Ht. by apply (Ht i).
Qed.

Lemma retire_lesser o : tidy o -> lesser o (server_local_retire o).1.
Proof. apply over_slots_lesser. intros i o1. apply close_lesser. Qed.

Lemma dispatch_lesser o r : tidy o -> lesser o (server_local_dispatch o r).1.2.
Proof.
  intros Ht. unfold server_local_dispatch. destruct (ob_shutting_down o); [reflexivity|]. destruct (_ && _); [reflexivity|].
  destruct (first_slot _ o) as [i|]; [|reflexivity]. destruct (ob_pods o !! i) as [p|]; [|reflexivity].
  destruct (_ && _).
  - pose proof (close_lesser i o Ht) as H. destruct (local_registration_close i o) as [o1 e]. by destruct (ob_pods o1 !! i).
  - destruct (ob_pods o !! i); reflexivity.
Qed.

Lemma remove_lesser conn o : lesser o (pods_remove_connection conn o).1.2.
Proof.
  unfold pods_remove_connection. destruct (find_pod_by_connection o conn) as [i|]; [|reflexivity]. destruct (ob_pods o !! i) as [p|] eqn:E; [|reflexivity].
  destruct (_ && _ && _) eqn:Eb.
  - pose proof (pod_begin_cleanup_lesser i o) as H. assert (ob_pods (pod_begin_cleanup i o).1 !! i = Some (begin_cleanup_pod p)) as Hp.
    { apply andb_true_iff in Eb as [_ Ec%negb_true_iff]. unfold pod_begin_cleanup. rewrite E, Ec. cbn [fst]. apply update_here. by rewrite clear_map_pods. }
    destruct (pod_begin_cleanup i o) as [o1 e]. cbn in *. etrans; [exact H|]. apply update_lesser. intros q Hq. assert (q = begin_cleanup_pod p) as -> by congruence. weak.
  - cbn [fst snd]. rewrite update_clear, update_update. etrans; [apply clear_map_lesser|]. apply update_lesser. intros q _.
    unfold forget_connection. cbn. destruct (ps_cleanup q) eqn:Ec; weak.
Qed.

Lemma cleanup_slot_lesser i io o : tidy o -> lesser o (cleanup_slot i io o).1.2.
Proof.
  intros Ht. unfold cleanup_slot. destruct (ob_pods o !! i) as [p|] eqn:E; [|reflexivity]. destruct (negb _ || _) eqn:Eb; [reflexivity|].
  apply orb_false_iff in Eb as [Ec%negb_false_iff _]. unfold tidy in Ht. rewrite Forall_lookup in Ht. pose proof (Ht i p E Ec) as Hr.
  assert (forall f, (forall q, q = p -> weaker q (f (reclaimed_pod q))) -> lesser o (update_pod i f (update_pod i reclaimed_pod o))) as Hu.
  { intros f Hf. rewrite update_update. apply update_lesser. intros q Hq. apply Hf. congruence. }
  assert (weaker p (end_cleanup (reclaimed_pod p))) as H1 by (unfold end_cleanup; cbn; destruct (is_connected _); weak; by rewrite Hr).
  assert (weaker p (end_cleanup (reclaimed_pod p <| ps_cleanup_sent := true |>))) as H2 by (unfold end_cleanup; cbn; destruct (is_connected _); weak; by rewrite Hr).
  destruct (ps_connection p) as [conn|]; [|cbn [fst snd]; apply Hu; by intros q ->].
  destruct (ps_cleanup_sent p); [cbn [fst snd]; apply Hu; by intros q ->|]. destruct (ci_send io); cbn [fst snd].
  - apply (Hu (fun p => end_cleanup (p <| ps_cleanup_sent := true |>))). by intros q ->.
  - apply update_lesser. intros q Hq. weak.
Qed.

Lemma progress_cleanup_lesser io o : tidy o -> lesser o (server_progress_pod_cleanup io o).1.
Proof.
  apply over_slots_lesser. intros i o1 Ht. pose proof (cleanup_slot_lesser i (io i) o1 Ht) as H. by destruct (cleanup_slot i (io i) o1) as [[? ?] ?].
Qed.

(** ** Operations that leave registrations alone *)

Definition still (p p' : pod_state) : Prop := weaker p p' /\ ps_registered p' = ps_registered p /\ ps_pod_id p' = ps_pod_id p.

#[export] Instance still_refl : Reflexive still.
Proof. intros p. split; [reflexivity|]. split; reflexivity. Qed.
#[export] Instance still_trans : Transitive still.
Proof. intros p q r (A & ? & ?) (B & ? & ?). split; [by etrans|]. split; congruence. Qed.

Record undisturbed (o o' : objects) : Prop := {
  qu_globals : same_globals o o';
  qu_map : ob_map o' = ob_map o;
  qu_pods : Forall2 still (ob_pods o) (ob_pods o') }.

#[export] Instance quiet_refl : Reflexive undisturbed.
Proof. intros o. constructor; [by repeat split|done|]. apply Forall_Forall2_diag, Forall_true. intros p. reflexivity. Qed.
#[export] Instance quiet_trans : Transitive undisturbed.
Proof.
  intros o1 o2 o3 [(?&?&?&?&?&?) ? A] [(?&?&?&?&?&?) ? B]. constructor; [split_and!; congruence|congruence|]. etrans; [exact A|exact B].
Qed.

Lemma quiet_lesser o o' : undisturbed o o' -> lesser o o'.
Proof. intros [H1 _ H2]. constructor; [done|]. eapply Forall2_impl; [exact H2|]. by intros p p' [? _]. Qed.

Lemma update_quiet i f o : (forall p, ob_pods o !! i = Some p -> still p (f p)) -> undisturbed o (update_pod i f o).
Proof. intros H. constructor; [by repeat split|done|]. by apply (Forall2_alter_r still). Qed.

Ltac stay := split; [weak|split; reflexivity].

Lemma challenge_quiet i random send o : (forall p, ob_pods o !! i = Some p -> ps_verified p = true -> ps_issued p = true) ->
  undisturbed o (server_send_registration_challenge i random send o).1.2.
Proof.
  intros Hv. unfold server_send_registration_challenge. destruct (ob_pods o !! i) as [p|] eqn:E; [|reflexivity].
  destruct (ps_connection p) as [conn|] eqn:Ec; [|reflexivity].
  assert (forall q, still p q -> undisturbed o (update_pod i (fun _ => q) o)) as Hu.
  { intros q Hq. apply update_quiet. intros x Hx. by assert (x = p) as -> by congruence. }
  assert (forall q, (if ps_issued p then Some p else nonce ← random; Some (p <| ps_nonce := nonce |> <| ps_issued := true |>)) = Some q ->
    still p q /\ still p (q <| ps_sent := true |>)) as Hq.
  { intros q. destruct (ps_issued p) eqn:Ei; [intros [= <-]; split; stay|]. destruct random as [nonce|]; [|done].
    intros [= <-]. split; (split; [weak; rewrite Ei; done|split; reflexivity]). }
  destruct (if ps_issued p then _ else _) as [q|] eqn:Eq; [|reflexivity]. destruct (Hq q eq_refl) as [H1 H2].
  destruct (ps_sent q); [by apply Hu|]. destruct send; cbn [fst snd]; [|by apply Hu]. rewrite update_update. by apply Hu.
Qed.

Lemma send_init_quiet i send o : undisturbed o (send_pod_init_result i send o).1.2.
Proof.
  unfold send_pod_init_result. destruct (ob_pods o !! i) as [p|]; [|reflexivity]. destruct (ps_connection p); [|reflexivity].
  destruct (bool_decide _); [reflexivity|]. destruct (ps_init_sent p); [reflexivity|]. destruct send; [|reflexivity]. cbn [fst snd].
  apply update_quiet. intros q _. stay.
Qed.

Lemma publish_init_quiet i result send o : undisturbed o (server_publish_pod_init_result i result send o).1.2.
Proof.
  unfold server_publish_pod_init_result. destruct (ob_pods o !! i) as [p|]; [|reflexivity]. destruct (bool_decide _); [reflexivity|].
  destruct (bool_decide _); [etrans; [|apply send_init_quiet]; apply update_quiet; intros q _; stay|].
  destruct (bool_decide _); [apply send_init_quiet|reflexivity].
Qed.

Lemma expire_quiet now i answer o : undisturbed o (expire_slot now i answer o).1.
Proof.
  unfold expire_slot. destruct (ob_pods o !! i) as [p|]; [|reflexivity]. destruct (ps_connection p); [|reflexivity].
  destruct (_ && _); [|reflexivity]. destruct answer; [|reflexivity..]. cbn [fst]. apply update_quiet. intros q _. stay.
Qed.

(** Identities are verified only after a challenge was issued. *)
Definition challenged (o : objects) : Prop := Forall (fun p => ps_verified p = true -> ps_issued p = true) (ob_pods o).

Lemma challenged_lesser o o' : lesser o o' -> challenged o -> challenged o'.
Proof.
  intros [_ H] Hc. unfold challenged in *. rewrite Forall_lookup in *. intros i p' Hi Hv.
  destruct (Forall2_lookup_r _ _ _ _ _ H Hi) as (p & Hp & Hw). apply (wk_issued _ _ Hw), (Hc i p Hp). by rewrite <-(wk_verified _ _ Hw).
Qed.

Lemma challenged_at o i p : challenged o -> ob_pods o !! i = Some p -> ps_verified p = true -> ps_issued p = true.
Proof. unfold challenged. rewrite Forall_lookup. eauto. Qed.

Lemma flush_slot_quiet now io i o : challenged o -> undisturbed o (flush_slot now io i o).1.
Proof.
  intros Hc. unfold flush_slot. pose proof (expire_quiet now i (fl_disconnect (io i)) o) as H1. destruct (expire_slot _ _ _ o) as [o1 e1]. cbn [fst] in H1.
  pose proof (challenged_lesser _ _ (quiet_lesser _ _ H1) Hc) as Hc1. destruct (ob_pods o1 !! i) as [p|] eqn:E1; [|done]. destruct (ps_disconnect_pending p); [done|].
  assert (undisturbed o1 ((if is_connected p && negb (ps_sent p) then server_send_registration_challenge i (fl_random (io i)) (fl_send_challenge (io i)) o1 else (true, o1, [])).1.2)) as H2.
  { destruct (_ && _); [|reflexivity]. apply challenge_quiet. intros q. by apply challenged_at. }
  match type of H2 with undisturbed _ (fst ?x).2 => destruct x as [[b o2] e2] end. cbn [fst snd] in H2.
  destruct (ob_pods o2 !! i) as [q|]; [|by cbn; etrans]. destruct (awaiting_result q); [|by cbn; etrans].
  pose proof (send_init_quiet i (fl_send_result (io i)) o2) as H3. destruct (send_pod_init_result _ _ o2) as [[b3 o3] e3]. cbn in *. etrans; [exact H1|]. by etrans.
Qed.

Lemma flush_quiet now io o : challenged o -> undisturbed o (server_flush_pod_init_results now io o).1.
Proof.
  unfold server_flush_pod_init_results. generalize (seq 0 (ob_num_pods o)) as slots. intros slots. revert o.
  induction slots as [|i slots IH]; intros o Hc; cbn [over_slots]; [reflexivity|].
  pose proof (flush_slot_quiet now io i o Hc) as H1. destruct (flush_slot now io i o) as [o1 e1]. cbn [fst] in H1.
  specialize (IH o1 (challenged_lesser _ _ (quiet_lesser _ _ H1) Hc)). destruct (over_slots _ slots o1) as [o2 e2]. cbn in *. by etrans.
Qed.

Lemma scope_refresh_quiet network o : undisturbed o (dmesh_scope_refresh network o).
Proof.
  unfold dmesh_scope_refresh. destruct (bool_decide _); [reflexivity|]. constructor; [by repeat split|done|]. cbn.
  rewrite <-(take_drop (ob_num_pods o) (ob_pods o)) at 1. apply Forall2_app.
  - apply Forall2_fmap_r, Forall_Forall2_diag, Forall_true. intros p. cbn. unfold scope_refresh_pod.
    destruct (negb (ps_registered p) || bool_decide (cstr (ps_pod_uid p) = [])); [reflexivity|].
    destruct (dmesh_scope_query _ _ _); [stay|reflexivity|stay].
  - apply Forall_Forall2_diag, Forall_true. intros p. reflexivity.
Qed.

(** ** The invariant *)

(** A slot holds exactly what this assertion states, and it was sealed under this
    session for the challenge of this slot. *)
Record vouched (C : crypto) (p : pod_state) (session : list byte) (m : dmesh_registration_assertion_msg) : Prop := {
  vc_seal : dmesh_registration_verify C session m = true;
  vc_identity : identity_ok (am_identity m);
  vc_nonce : wi_nonce (am_identity m) = ps_nonce p;
  vc_bound : identity_of p =
    (let c := claims_of (am_identity m) in
     ([cl_workload c; cl_pod_uid c; cl_namespace_name c; cl_service_account c; cl_pod_ip c; cl_service_name c; ps_nonce p],
      Registration (cl_daemon_incarnation c) (cl_channel_slot c) (cl_channel_generation c) (ps_nonce p))) }.

Definition voucher : Type := list byte * dmesh_registration_assertion_msg.

Definition live_identity (p : pod_state) : bool := is_connected p && ps_verified p.

Record slot_ok (C : crypto) (o : objects) (v : option voucher) (i : nat) (p : pod_state) : Prop := {
  so_used : is_connected p || ps_verified p || ps_registered p = true -> (i < ob_num_pods o)%nat;
  so_registered : ps_registered p = true ->
    is_connected p = true /\ ps_verified p = true /\ ps_consumed p = true /\ ps_closed p = false /\ ps_cleanup p = false;
  so_verified : ps_verified p = true -> ps_issued p = true /\ exists session m, v = Some (session, m) /\ vouched C p session m /\
    (ps_closed p = false -> registration_session o = Some session);
  so_live : live_identity p = true ->
    rg_daemon (ps_peer p) = ob_incarnation o /\ 0 <= rg_slot (ps_peer p) < Z.of_nat MAX_PODS /\
    rg_generation (ps_peer p) <= default 0 (ob_generations o !! Z.to_nat (rg_slot (ps_peer p))) }.

Record server_inv (C : crypto) (o : objects) (v : nat -> option voucher) : Prop := {
  si_sizes : length (ob_pods o) = MAX_PODS /\ length (ob_map o) = POD_ID_SPACE /\ length (ob_generations o) = MAX_PODS /\ (ob_num_pods o <= MAX_PODS)%nat;
  si_slots : forall i p, ob_pods o !! i = Some p -> slot_ok C o (v i) i p;
  si_connections : forall i j p q c, ob_pods o !! i = Some p -> ob_pods o !! j = Some q ->
    ps_connection p = Some c -> ps_connection q = Some c -> i = j;
  si_distinct : forall i j p q, ob_pods o !! i = Some p -> ob_pods o !! j = Some q -> live_identity p = true -> live_identity q = true ->
    rg_slot (ps_peer p) = rg_slot (ps_peer q) -> rg_generation (ps_peer p) = rg_generation (ps_peer q) -> i = j;
  si_control : forall c, ob_control o = Some c -> lc_authenticated c = true -> lc_ssl c = true }.

Lemma inv_tidy C o v : server_inv C o v -> tidy o.
Proof.
  intros H. unfold tidy. rewrite Forall_lookup. intros i p Hi Hc. apply not_true_iff_false. intros Hr.
  destruct (so_registered _ _ _ _ _ (si_slots _ _ _ H i p Hi) Hr) as (_ & _ & _ & _ & E). congruence.
Qed.

Lemma inv_challenged C o v : server_inv C o v -> challenged o.
Proof. intros H. unfold challenged. rewrite Forall_lookup. intros i p Hi Hv. by apply (so_verified _ _ _ _ _ (si_slots _ _ _ H i p Hi)). Qed.

Lemma vouched_identity C p p' session m : identity_of p' = identity_of p -> vouched C p session m -> vouched C p' session m.
Proof.
  intros E [H1 H2 H3 H4]. assert (ps_nonce p' = ps_nonce p) as En by (by injection E). constructor; [done|done|by rewrite En|by rewrite E, En].
Qed.

Lemma weaker_connected p p' : weaker p p' -> is_connected p' = true -> ps_connection p' = ps_connection p.
Proof. intros Hw. unfold is_connected. rewrite bool_decide_eq_true. by destruct (wk_connection _ _ Hw) as [->|]. Qed.

Lemma weaker_is_connected p p' : weaker p p' -> is_connected p' = true -> is_connected p = true.
Proof. intros Hw H. pose proof (weaker_connected _ _ Hw H) as E. unfold is_connected in *. by rewrite <-E. Qed.

Lemma weaker_live p p' : weaker p p' -> live_identity p' = true -> (ps_verified p = true -> ps_issued p = true) ->
  live_identity p = true /\ ps_peer p' = ps_peer p.
Proof.
  intros Hw H Hi. unfold live_identity in *. apply andb_true_iff in H as [Hc Hv]. rewrite (wk_verified _ _ Hw) in Hv.
  split; [by rewrite (weaker_is_connected _ _ Hw Hc), Hv|]. pose proof (wk_identity _ _ Hw (Hi Hv)) as E. by injection E.
Qed.

Lemma inv_lesser C o o' v : lesser o o' -> server_inv C o v -> server_inv C o' v.
Proof.
  intros [(E1 & E2 & E3 & E4 & E5 & E6) Hp] H. pose proof (inv_challenged _ _ _ H) as Hch. destruct H as [(S1 & S2 & S3 & S4) H2 H3 H4 H5].
  assert (forall i p', ob_pods o' !! i = Some p' -> exists p, ob_pods o !! i = Some p /\ weaker p p' /\ (ps_verified p = true -> ps_issued p = true)) as Hl.
  { intros i p' Hi. destruct (Forall2_lookup_r _ _ _ _ _ Hp Hi) as (p & Hpi & Hw). exists p. split; [done|]. split; [done|]. by eapply challenged_at. }
  constructor; rewrite ?E1, ?E3, ?E4.
  - rewrite <-(Forall2_length _ _ _ Hp). split_and!; congruence || done.
  - intros i p' Hi. destruct (Hl i p' Hi) as (p & Hpi & Hw & Hiss). destruct (H2 i p Hpi) as [K1 K2 K3 K4]. constructor; rewrite ?E1, ?E2, ?E3.
    + intros Hu. apply K1. rewrite !orb_true_iff in *. destruct Hu as [[Hu|Hu]|Hu].
      * left. left. by eapply weaker_is_connected.
      * left. right. by rewrite <-(wk_verified _ _ Hw).
      * right. by apply (wk_registered _ _ Hw).
    + intros Hr. destruct (wk_registered _ _ Hw Hr) as (R1 & R2 & R3 & R4 & _ & _). destruct (K2 R1) as (L1 & L2 & L3 & L4 & L5).
      split; [unfold is_connected in *; by rewrite R2|]. rewrite (wk_verified _ _ Hw). split; [done|]. split; [by apply (wk_consumed _ _ Hw)|].
      split; congruence.
    + intros Hv. rewrite (wk_verified _ _ Hw) in Hv. destruct (K3 Hv) as (Hi' & s & m & Ev & Hvc & Hs). split; [by apply (wk_issued _ _ Hw)|].
      exists s, m. split; [done|]. split; [by eapply vouched_identity; [apply (wk_identity _ _ Hw)|]|]. intros Hc. unfold registration_session in *. rewrite E4.
      apply Hs. apply not_true_iff_false. intros Hc'. by rewrite (wk_closed _ _ Hw Hc') in Hc.
    + intros Hli. destruct (weaker_live p p' Hw Hli Hiss) as [L1 ->]. by apply K4.
  - intros i j p' q' c Hi Hj Ep Eq. destruct (Hl i p' Hi) as (p & Hpi & Hw & _), (Hl j q' Hj) as (q & Hqj & Hw' & _).
    apply (H3 i j p q c Hpi Hqj); [destruct (wk_connection _ _ Hw)|destruct (wk_connection _ _ Hw')]; congruence.
  - intros i j p' q' Hi Hj Lp Lq. destruct (Hl i p' Hi) as (p & Hpi & Hw & Hiss), (Hl j q' Hj) as (q & Hqj & Hw' & Hiss').
    destruct (weaker_live p p' Hw Lp Hiss) as [Lp' ->], (weaker_live q q' Hw' Lq Hiss') as [Lq' ->]. by apply (H4 i j p q).
  - done.
Qed.
