(* ===== verification/RegistrationSteps.v ===== *)
(** * Registration of Pods: the steps that add something

    A new connection, an accepted assertion, a registration, and the opening and
    closing of the paired-host session keep the invariant. *)

From S2P Require Import Prelude Text Spans PeerIdentity WorkloadIdentity WorkloadProofs Topology TopologyIntern LocalControl ControlScope Registration RegistrationInv.

(** ** Finding slots *)

Lemma first_slot_Some p o i : first_slot p o = Some i ->
  (i < ob_num_pods o)%nat /\ exists x, ob_pods o !! i = Some x /\ p x = true /\
    forall j y, (j < i)%nat -> ob_pods o !! j = Some y -> p y = false.
Proof.
  intros (x & Hx & Hp & Hmin)%index_of_Some. apply lookup_take_Some in Hx as [Hx Hi]. split; [done|]. exists x. split; [done|]. split; [done|].
  intros j y Hj Hy. apply (Hmin j y Hj). apply lookup_take_Some. split; [done|lia].
Qed.

Lemma first_slot_None p o : first_slot p o = None -> forall i x, (i < ob_num_pods o)%nat -> ob_pods o !! i = Some x -> p x = false.
Proof.
  intros H i x Hi Hx. unfold first_slot in H. apply index_of_None in H. rewrite Forall_lookup in H. apply (H i). by apply lookup_take_Some.
Qed.

Lemma find_connection_Some o conn i : find_pod_by_connection o conn = Some i ->
  (i < ob_num_pods o)%nat /\ exists p, ob_pods o !! i = Some p /\ ps_connection p = Some conn.
Proof.
  intros H. apply first_slot_Some in H as (Hi & p & Hp & Hc & _). split; [done|]. exists p. split; [done|].
  unfold connected_as in Hc. by apply bool_decide_eq_true in Hc.
Qed.

Definition set_voucher (i : nat) (x : option voucher) (v : nat -> option voucher) : nat -> option voucher :=
  fun j => if decide (i = j) then x else v j.

Lemma set_voucher_here i x v : set_voucher i x v i = x.
Proof. unfold set_voucher. by rewrite decide_True. Qed.
Lemma set_voucher_other i j x v : i <> j -> set_voucher i x v j = v j.
Proof. intros H. unfold set_voucher. by rewrite decide_False. Qed.

(** ** Changing one slot *)

(** The invariant after a change of slot [i] and of the globals, from what holds of
    that slot and of the others. *)
Lemma inv_change C o v o' x i p' :
  server_inv C o v -> length (ob_map o') = POD_ID_SPACE -> length (ob_generations o') = MAX_PODS ->
  (ob_num_pods o <= ob_num_pods o' <= MAX_PODS)%nat -> ob_control o' = ob_control o ->
  (exists f, ob_pods o' = alter f i (ob_pods o)) -> ob_pods o' !! i = Some p' -> slot_ok C o' x i p' ->
  (forall j q, j <> i -> ob_pods o !! j = Some q -> ps_connection q <> None -> ps_connection q <> ps_connection p') ->
  (forall j q, j <> i -> ob_pods o !! j = Some q -> live_identity q = true ->
     (rg_daemon (ps_peer q) = ob_incarnation o' /\
      rg_generation (ps_peer q) <= default 0 (ob_generations o' !! Z.to_nat (rg_slot (ps_peer q)))) /\
     (live_identity p' = true -> rg_slot (ps_peer q) = rg_slot (ps_peer p') -> rg_generation (ps_peer q) <> rg_generation (ps_peer p'))) ->
  server_inv C o' (set_voucher i x v).
Proof.
  intros [(S1 & S2 & S3 & S4) H2 H3 H4 H5] M1 M2 M3 Ec [f Ef] Hi Hok Hconn Hlive.
  assert (forall j q, j <> i -> ob_pods o' !! j = Some q <-> ob_pods o !! j = Some q) as Hj.
  { intros j q Hne. rewrite Ef. by rewrite list_lookup_alter_ne by congruence. }
  constructor.
  - rewrite Ef, length_alter. split_and!; done || lia.
  - intros j q Hq. destruct (decide (j = i)) as [->|Hne]; [rewrite set_voucher_here; congruence|]. rewrite set_voucher_other by done.
    apply Hj in Hq as Hq'; [|done]. destruct (H2 j q Hq') as [K1 K2 K3 K4]. constructor; [intros Hu; specialize (K1 Hu); lia|done| |].
    + intros Hv. destruct (K3 Hv) as (Hiss & s & m & Ev & Hvc & Hs). split; [done|]. exists s, m. unfold registration_session in *. by rewrite Ec.
    + intros Hl. destruct (K4 Hl) as (_ & R & _). destruct (Hlive j q Hne Hq' Hl) as [(R1 & R2) _]. done.
  - intros a b p q c Ha Hb Ep Eq. destruct (decide (a = i)) as [->|Hna], (decide (b = i)) as [->|Hnb]; [done|..].
    + assert (p = p') as -> by congruence. apply Hj in Hb; [|done]. exfalso. apply (Hconn b q Hnb Hb); congruence.
    + assert (q = p') as -> by congruence. apply Hj in Ha; [|done]. exfalso. apply (Hconn a p Hna Ha); congruence.
    + apply Hj in Ha, Hb; [|done..]. by apply (H3 a b p q c).
  - intros a b p q Ha Hb Lp Lq Es Eg. destruct (decide (a = i)) as [->|Hna], (decide (b = i)) as [->|Hnb]; [done|..].
    + assert (p = p') as -> by congruence. apply Hj in Hb; [|done]. exfalso. apply (Hlive b q Hnb Hb Lq); congruence.
    + assert (q = p') as -> by congruence. apply Hj in Ha; [|done]. exfalso. apply (Hlive a p Hna Ha Lp); congruence.
    + apply Hj in Ha, Hb; [|done..]. by apply (H4 a b p q).
  - intros c. rewrite Ec. apply H5.
Qed.

Lemma inv_sizes C o v : server_inv C o v ->
  length (ob_pods o) = MAX_PODS /\ length (ob_map o) = POD_ID_SPACE /\ length (ob_generations o) = MAX_PODS /\ (ob_num_pods o <= MAX_PODS)%nat.
Proof. intros H. apply (si_sizes _ _ _ H). Qed.

(** Others keep what they have of the incarnation and the generations. *)
Lemma others_live C o v j q : server_inv C o v -> ob_pods o !! j = Some q -> live_identity q = true ->
  rg_daemon (ps_peer q) = ob_incarnation o /\ rg_generation (ps_peer q) <= default 0 (ob_generations o !! Z.to_nat (rg_slot (ps_peer q))).
Proof. intros H Hq Hl. destruct (so_live _ _ _ _ _ (si_slots _ _ _ H j q Hq) Hl) as (? & _ & ?). done. Qed.

(** ** A new connection *)

Definition connect_slot (o : objects) : nat := default (ob_num_pods o) (first_slot recyclable o).
Definition unknown (conn : nat) (o : objects) : Prop := forall i p, ob_pods o !! i = Some p -> ps_connection p <> Some conn.

Lemma add_inv C o v conn now o' : server_inv C o v -> unknown conn o -> pods_add_connection conn now o = (true, o') ->
  server_inv C o' (set_voucher (connect_slot o) None v).
Proof.
  intros H Hnew. pose proof (inv_sizes _ _ _ H) as (S1 & S2 & S3 & S4). unfold pods_add_connection, connect_slot. destruct (ob_shutting_down o); [done|].
  assert (forall i o1 p, o1 = update_pod i (fresh_pod conn now (ob_workers o)) o \/ o1 = update_pod i (fresh_pod conn now (ob_workers o)) o <| ob_num_pods ::= S |> ->
    ob_pods o !! i = Some p -> (i < ob_num_pods o1)%nat -> (ob_num_pods o1 <= MAX_PODS)%nat -> server_inv C o1 (set_voucher i None v)) as Hgo.
  { intros i o1 p Ho1 Hp Hi Hb. eapply (inv_change C o v o1 None i (fresh_pod conn now (ob_workers o) p)); try done.
    - by destruct Ho1 as [->| ->].
    - by destruct Ho1 as [->| ->].
    - destruct Ho1 as [->| ->]; cbn in *; lia.
    - by destruct Ho1 as [->| ->].
    - exists (fresh_pod conn now (ob_workers o)). by destruct Ho1 as [->| ->].
    - destruct Ho1 as [->| ->]; cbn; rewrite list_lookup_alter_eq, Hp; done.
    - intros j q _ Hq _. cbn. by apply (Hnew j q Hq).
    - intros j q _ Hq Hl. split; [|done]. pose proof (others_live _ _ _ _ _ H Hq Hl) as Hx. by destruct Ho1 as [->| ->]. }
  destruct (first_slot recyclable o) as [i|] eqn:Ef; cbn [default].
  - intros [= <-]. apply first_slot_Some in Ef as (Hi & p & Hp & _). by eapply Hgo; [left|..].
  - destruct (Z.leb_spec (live_cap o) (Z.of_nat (ob_num_pods o))) as [|Hc]; [done|]. intros [= <-]. unfold live_cap in Hc.
    destruct (lookup_lt_is_Some_2 (ob_pods o) (ob_num_pods o)) as [p Hp]; [lia|]. eapply Hgo; [by right|done|cbn; lia|cbn; lia].
Qed.

Lemma add_refused conn now o o' : pods_add_connection conn now o = (false, o') -> o' = o.
Proof.
  unfold pods_add_connection. destruct (ob_shutting_down o); [congruence|]. destruct (first_slot recyclable o); [done|]. destruct (_ <=? _); [congruence|done].
Qed.

Lemma connect_inv C o v conn now random send : server_inv C o v -> unknown conn o ->
  server_inv C (server_connection_event conn now random send o).1
    (if (pods_add_connection conn now o).1 then set_voucher (connect_slot o) None v else v).
Proof.
  intros H Hnew. unfold server_connection_event. destruct (pods_add_connection conn now o) as [added o1] eqn:Ea. destruct added; cbn [negb fst].
  - pose proof (add_inv C o v conn now o1 H Hnew Ea) as H1. destruct (find_pod_by_connection o1 conn) as [i|]; [|done].
    pose proof (quiet_lesser _ _ (challenge_quiet i random send o1 (fun p => challenged_at o1 i p (inv_challenged _ _ _ H1)))) as Hl.
    destruct (server_send_registration_challenge i random send o1) as [[b o2] e]. by eapply inv_lesser.
  - by rewrite (add_refused _ _ _ _ Ea).
Qed.

(** ** An accepted assertion *)

Lemma generation_positive a : identity_ok a -> 0 < cl_channel_generation (claims_of a).
Proof.
  intros H. pose proof (ok_generation a H) as Hn. pose proof (get_le_width (take 8 (wi_channel_generation_le a))) as [Hw _].
  unfold claims_of. cbn [cl_channel_generation]. unfold dmesh_wire_get_u64_le in *. lia.
Qed.

(** The lifecycle check, for claims with a positive generation: a refusal leaves the
    state, and an acceptance records the generation above all earlier ones. *)
Lemma lifecycle_cases current c o r o' : 0 < cl_channel_generation c -> length (ob_generations o) = MAX_PODS ->
  registration_lifecycle_accept current c o = (r, o') ->
  (r <> IDENTITY_OK /\ o' = o) \/
  (r = IDENTITY_OK /\ cl_channel_slot c < Z.of_nat MAX_PODS /\ exists gens,
     o' = o <| ob_incarnation := cl_daemon_incarnation c |> <| ob_generations := <[Z.to_nat (cl_channel_slot c) := cl_channel_generation c]> gens |> /\
     length gens = MAX_PODS /\ default 0 (gens !! Z.to_nat (cl_channel_slot c)) < cl_channel_generation c /\
     ((gens = ob_generations o /\ ob_incarnation o = cl_daemon_incarnation c) \/
      (other_verified current o = false /\ (all_zero (ob_incarnation o) = true \/ ob_incarnation o <> cl_daemon_incarnation c)))).
Proof.
  intros Hg Hl. unfold registration_lifecycle_accept. destruct (Z.leb_spec (Z.of_nat MAX_PODS) (cl_channel_slot c)) as [|Hs]; [intros [= <- <-]; by left|].
  destruct (all_zero (ob_incarnation o) || negb (bytes_eq (ob_incarnation o) (cl_daemon_incarnation c))) eqn:Esw; cbn [andb].
  - destruct (other_verified current o) eqn:Eo; [intros [= <- <-]; by left|].
    assert (default 0 (repeat 0 MAX_PODS !! Z.to_nat (cl_channel_slot c)) = 0) as E0.
    { destruct (repeat 0 MAX_PODS !! _) as [x|] eqn:Ex; [|done]. by apply lookup_repeat in Ex. }
    cbn [ob_generations set]. change (ob_generations (o <| ob_incarnation := cl_daemon_incarnation c |> <| ob_generations := repeat 0 MAX_PODS |>)) with (repeat 0 MAX_PODS).
    rewrite E0. destruct (Z.leb_spec (cl_channel_generation c) 0); [lia|]. intros [= <- <-]. right. split; [done|]. split; [done|].
    exists (repeat 0 MAX_PODS). split; [by destruct o|]. split; [apply repeat_length|]. split; [lia|]. right.
    split; [done|]. apply orb_true_iff in Esw as [Ez|Eb%negb_true_iff]; [by left|right]. unfold bytes_eq in Eb. by apply bool_decide_eq_false in Eb.
  - apply orb_false_iff in Esw as [_ Eb%negb_false_iff]. unfold bytes_eq in Eb. apply bool_decide_eq_true in Eb.
    destruct (Z.leb_spec (cl_channel_generation c) (default 0 (ob_generations o !! Z.to_nat (cl_channel_slot c)))); [intros [= <- <-]; by left|].
    intros [= <- <-]. right. split; [done|]. split; [done|]. exists (ob_generations o). split; [destruct o; cbn in *; by subst|]. split; [done|]. split; [done|]. by left.
Qed.

(** What an acceptance takes and what it does. *)
Record accepted_assertion (C : crypto) (conn : nat) (m : dmesh_registration_assertion_msg) (o : objects) (i : nat) (p : pod_state)
    (session : list byte) (o1 : objects) : Prop := {
  aa_slot : find_pod_by_connection o conn = Some i /\ ob_pods o !! i = Some p /\ ps_connection p = Some conn;
  aa_waiting : awaiting_assertion p = true;
  aa_session : registration_session o = Some session;
  aa_seal : dmesh_registration_verify C session m = true;
  aa_identity : identity_ok (am_identity m) /\ wi_nonce (am_identity m) = ps_nonce p;
  aa_lifecycle : registration_lifecycle_accept i (claims_of (am_identity m)) o = (IDENTITY_OK, o1) }.

Lemma assertion_cases C conn m now o b o' : length (ob_generations o) = MAX_PODS ->
  registration_accept_assertion C conn m now o = (b, o') ->
  (b = false /\ o' = o) \/
  (b = true /\ exists i p session o1, accepted_assertion C conn m o i p session o1 /\ o' = update_pod i (registration_bind (claims_of (am_identity m))) o1).
Proof.
  intros Hl. unfold registration_accept_assertion. destruct (framed_assertion m); cbn [negb]; [|intros [= <- <-]; by left].
  destruct (find_pod_by_connection o conn) as [i|] eqn:Ef; [|intros [= <- <-]; by left].
  destruct (find_connection_Some _ _ _ Ef) as (Hi & p & Hp & Ec). rewrite Hp. destruct (ob_shutting_down o || _) eqn:Ew; [intros [= <- <-]; by left|].
  apply orb_false_iff in Ew as [_ Ew%negb_false_iff]. destruct (registration_session o) as [s|] eqn:Es; [|intros [= <- <-]; by left].
  destruct (dmesh_registration_verify C s m) eqn:Ev; cbn [negb]; [|intros [= <- <-]; by left].
  destruct (dmesh_identity_decode _ _ _ _ _) as [r [c|]] eqn:Ed; [|destruct r; intros [= <- <-]; by left].
  destruct (decide (r = IDENTITY_OK)) as [->|Hne]; [|destruct r; try done; intros [= <- <-]; by left].
  apply decode_accepts in Ed as (Hok & -> & Hn). destruct (registration_lifecycle_accept i _ o) as [r o1] eqn:El.
  destruct (lifecycle_cases _ _ _ _ _ (generation_positive _ Hok) Hl El) as [[Hne ->]|(-> & _)].
  - destruct r; try done; intros [= <- <-]; by left.
  - intros [= <- <-]. right. split; [done|]. by exists i, p, s, o1.
Qed.

Lemma other_verified_false i o j q : other_verified i o = false -> (j < ob_num_pods o)%nat -> ob_pods o !! j = Some q -> j <> i -> live_identity q = false.
Proof.
  unfold other_verified, live_identity. intros H Hj Hq Hne. apply not_true_iff_false. intros Hl. revert H. apply not_false_iff_true.
  apply existsb_exists. exists (j, q). cbn. split.
  - apply list_elem_of_In. unfold slots_in_use. apply (list_elem_of_lookup_2 _ j). rewrite list_lookup_imap.
    assert (take (ob_num_pods o) (ob_pods o) !! j = Some q) as -> by (by apply lookup_take_Some). done.
  - rewrite (proj2 (Nat.eqb_neq j i)) by done. exact Hl.
Qed.

Lemma get_le_nonneg w i v bs : 0 <= w -> 0 <= v -> 0 <= get_le w i v bs.
Proof.
  intros Hw. revert i v. induction bs as [|b bs IH]; intros i v Hv; cbn [get_le]; [done|]. apply IH. apply Z.lor_nonneg. split; [done|].
  by apply (wrap_in_width w (Z.shiftl (b2z b) (8 * i)) Hw).
Qed.

Lemma insert_default (l : list Z) i x j : (i < length l)%nat -> default 0 (<[i := x]> l !! j) = if decide (i = j) then x else default 0 (l !! j).
Proof.
  intros Hi. destruct (decide (i = j)) as [->|Hne]; [by rewrite list_lookup_insert_eq|by rewrite list_lookup_insert_ne].
Qed.

Lemma assertion_inv C conn m o v i p s o1 : server_inv C o v -> accepted_assertion C conn m o i p s o1 ->
  server_inv C (update_pod i (registration_bind (claims_of (am_identity m))) o1) (set_voucher i (Some (s, m)) v).
Proof.
  intros H [(Hf & Hp & Hc) Hw Hs Hseal [Hok Hn] Hl]. pose proof (inv_sizes _ _ _ H) as (S1 & S2 & S3 & S4).
  set (c := claims_of (am_identity m)) in *. pose proof (generation_positive _ Hok) as Hg. fold c in Hg.
  destruct (lifecycle_cases _ _ _ _ _ Hg S3 Hl) as [[? _]|(_ & Hslot & gens & Eo1 & Hgl & Hlt & Hcase)]; [done|].
  destruct (find_connection_Some _ _ _ Hf) as (Hi & _). assert (0 <= cl_channel_slot c) as Hs0 by (by apply get_le_nonneg).
  set (o' := update_pod i (registration_bind c) o1).
  assert (ob_num_pods o' = ob_num_pods o /\ ob_control o' = ob_control o /\ ob_map o' = ob_map o /\ ob_incarnation o' = cl_daemon_incarnation c /\
    ob_generations o' = <[Z.to_nat (cl_channel_slot c) := cl_channel_generation c]> gens /\ ob_pods o' = alter (registration_bind c) i (ob_pods o))
    as (E1 & E2 & E3 & E4 & E5 & E6) by (unfold o'; rewrite Eo1; done).
  clearbody o'. unfold awaiting_assertion in Hw. rewrite !andb_true_iff, !negb_true_iff in Hw. destruct Hw as ((((W1 & W2) & W3) & W4) & W5).
  pose proof (si_slots _ _ _ H i p Hp) as Hslot_p.
  assert (ps_registered p = false) as Wr.
  { apply not_true_iff_false. intros Hr. destruct (so_registered _ _ _ _ _ Hslot_p Hr) as (_ & Hv & _). congruence. }
  assert (Z.to_nat (cl_channel_slot c) < length gens)%nat as Hin by lia.
  eapply (inv_change C o v o' (Some (s, m)) i (registration_bind c p)); rewrite ?E1, ?E2, ?E3, ?E4, ?E5, ?E6; try done.
  - by rewrite length_insert.
  - by eexists.
  - by rewrite list_lookup_alter_eq, Hp.
  - constructor.
    + intros _. by rewrite E1.
    + cbn. by rewrite Wr.
    + intros _. split; [done|]. exists s, m. split; [done|]. split; [by constructor|]. intros _. unfold registration_session in *. by rewrite E2.
    + intros _. cbn [registration_bind ps_peer rg_daemon rg_slot rg_generation]. rewrite E4, E5, insert_default, decide_True by done. split; [done|]. lia.
  - intros j q Hne Hq Hcq E. cbn in E. apply Hne. by apply (si_connections _ _ _ H j i q p conn Hq Hp); congruence.
  - intros j q Hne Hq Hlq. pose proof (so_used _ _ _ _ _ (si_slots _ _ _ H j q Hq)) as Hu.
    destruct Hcase as [[-> Einc]|[Hov _]].
    + destruct (others_live _ _ _ _ _ H Hq Hlq) as [D1 D2]. cbn [registration_bind ps_peer rg_daemon rg_slot rg_generation]. rewrite insert_default by done.
      destruct (decide _) as [Es|Es]; [split; [split; [congruence|rewrite Es in Hlt; lia]|intros _ Esl; rewrite Es in Hlt; lia]|].
      split; [split; [congruence|done]|]. intros _ Esl. by rewrite Esl in Es.
    + exfalso. assert (live_identity q = false) as E; [|congruence]. eapply other_verified_false; [exact Hov| |exact Hq|done].
      apply Hu. unfold live_identity in Hlq. apply andb_true_iff in Hlq as [-> _]. done.
Qed.

(** ** A registration *)

(** What a new registration takes and what it publishes. *)
Record registers (network : scope_network) (conn : nat) (wanted : Z) (name : list byte) (o : objects) (i : nat) (p : pod_state)
    (pod_id service_id : Z) : Prop := {
  rg_found : find_pod_by_connection o conn = Some i /\ ob_pods o !! i = Some p /\ ps_connection p = Some conn;
  rg_idle : ps_cleanup p = false /\ ps_registered p = false;
  rg_allowed : may_register o p name = true;
  rg_service : registered_service_id o p name = Some service_id;
  rg_id : pod_id = (if wanted <? 0 then Z.of_nat i else wanted) /\ 0 <= pod_id < Z.of_nat POD_ID_SPACE;
  rg_free : default (-1) (ob_map o !! Z.to_nat pod_id) < 0 }.

Definition registered_state (network : scope_network) (i : nat) (pod_id service_id : Z) (o : objects) : objects :=
  update_pod i (fun p => publish_registration pod_id service_id p <| ps_scope := dmesh_scope_query network (ob_scope o) (Some (ps_pod_uid p)) |>)
    (store_map pod_id (Z.of_nat i) o).

Lemma register_cases network conn wanted name o r o' e : (ob_num_pods o <= MAX_PODS)%nat ->
  pods_register network conn wanted name o = (r, o', e) ->
  o' = o \/ exists i p service_id, registers network conn wanted name o i p r service_id /\ o' = registered_state network i r service_id o.
Proof.
  intros Hn. unfold pods_register. destruct (wanted <? -1) eqn:E1; [intros [= <- <- <-]; by left|]. destruct (Z.leb_spec (Z.of_nat POD_ID_SPACE) wanted); [intros [= <- <- <-]; by left|].
  cbn [orb]. destruct (_ <=? _)%nat; [intros [= <- <- <-]; by left|].
  destruct (find_pod_by_connection o conn) as [i|] eqn:Ef; [|intros [= <- <- <-]; by left].
  destruct (find_connection_Some _ _ _ Ef) as (Hi & p & Hp & Ec). rewrite Hp. destruct (ps_cleanup p) eqn:Ecl; [intros [= <- <- <-]; by left|].
  destruct (ps_registered p) eqn:Er; [destruct (_ && _); intros [= <- <- <-]; by left|].
  destruct (may_register o p name) eqn:Em; cbn [negb]; [|intros [= <- <- <-]; by left].
  destruct (registered_service_id o p name) as [sid|] eqn:Es; [|intros [= <- <- <-]; by left].
  set (pid := if wanted <? 0 then Z.of_nat i else wanted). destruct (Z.leb_spec 0 (default (-1) (ob_map o !! Z.to_nat pid))); [intros [= <- <- <-]; by left|].
  intros [= <- <- <-]. right. exists i, p, sid. split.
  - constructor; try done. split; [done|]. unfold pid, POD_ID_SPACE, MAX_PODS in *. destruct (Z.ltb_spec wanted 0); lia.
  - unfold registered_state. unfold update_pod, store_map. destruct o. cbn. f_equal. by rewrite list_alter_alter_eq.
Qed.

Lemma handler_cases network conn wanted name o : (ob_num_pods o <= MAX_PODS)%nat ->
  (server_register network conn wanted name o).1 = o \/
  exists i p r service_id, registers network conn wanted name o i p r service_id /\ (server_register network conn wanted name o).1 = registered_state network i r service_id o.
Proof.
  intros Hn. unfold server_register. destruct (bool_decide _); [by left|]. destruct (pods_register network conn wanted name o) as [[r o1] e] eqn:E.
  destruct (register_cases _ _ _ _ _ _ _ _ Hn E) as [->|(i & p & sid & Hr & ->)]; [by left|right]. by exists i, p, r, sid.
Qed.

Lemma register_inv C network conn wanted name o v i p pid sid : server_inv C o v -> registers network conn wanted name o i p pid sid ->
  server_inv C (registered_state network i pid sid o) v.
Proof.
  intros H [(Hf & Hp & Hc) [Hcl Hr] Hm Hs [_ Hid] _]. pose proof (inv_sizes _ _ _ H) as (S1 & S2 & S3 & S4).
  destruct (find_connection_Some _ _ _ Hf) as (Hi & _).
  set (f := fun p => publish_registration pid sid p <| ps_scope := dmesh_scope_query network (ob_scope o) (Some (ps_pod_uid p)) |>).
  set (o' := registered_state network i pid sid o).
  assert (ob_num_pods o' = ob_num_pods o /\ ob_control o' = ob_control o /\ length (ob_map o') = length (ob_map o) /\ ob_incarnation o' = ob_incarnation o /\
    ob_generations o' = ob_generations o /\ ob_pods o' = alter f i (ob_pods o)) as (E1 & E2 & E3 & E4 & E5 & E6).
  { unfold o', registered_state. split_and!; try done. cbn. apply length_insert. }
  clearbody o'. unfold may_register in Hm. rewrite !andb_true_iff, !negb_true_iff in Hm. destruct Hm as ((((W1 & W2) & W3) & W4) & W5).
  destruct (si_slots _ _ _ H i p Hp) as [K1 K2 K3 K4].
  assert (is_connected p = true) as Hcon by (unfold is_connected; rewrite Hc; done).
  assert (forall j, set_voucher i (v i) v j = v j) as Hv by (intros j; unfold set_voucher; by destruct (decide (i = j)) as [->|]).
  assert (server_inv C o' (set_voucher i (v i) v)) as Hinv.
  { eapply (inv_change C o v o' (v i) i (f p)); rewrite ?E1, ?E2, ?E3, ?E4, ?E5, ?E6; try done.
    - by exists f.
    - by rewrite list_lookup_alter_eq, Hp.
    - constructor; [intros _; by rewrite E1|by intros _| |].
      + intros _. destruct (K3 W3) as (Hiss & s & m & Ev & Hvc & Hses). split; [done|]. exists s, m. split; [done|]. split; [by eapply vouched_identity; [|exact Hvc]|].
        unfold registration_session in *. by rewrite E2.
      + intros _. rewrite E4, E5. apply K4. unfold live_identity. by rewrite Hcon, W3.
    - intros j q Hne Hq Hcq E. apply Hne. apply (si_connections _ _ _ H j i q p conn Hq Hp); [|done]. rewrite E. exact Hc.
    - intros j q Hne Hq Hl. split; [by eapply others_live|]. intros _ Esl Eg. apply Hne.
      apply (si_distinct _ _ _ H j i q p Hq Hp Hl); [unfold live_identity; by rewrite Hcon, W3|exact Esl|exact Eg]. }
  destruct Hinv as [J1 J2 J3 J4 J5]. constructor; try done. intros j q Hq. rewrite <-Hv. by apply J2.
Qed.

(** ** The paired-host session *)

(** The registration session after the control changes. *)
Lemma inv_control C o v c : server_inv C o v -> (lc_authenticated c = true -> lc_ssl c = true) ->
  (dmesh_local_control_session (Some c) = registration_session o \/ forall i p, ob_pods o !! i = Some p -> ps_verified p = true -> ps_closed p = true) ->
  server_inv C (o <| ob_control := Some c |>) v.
Proof.
  intros [S H2 H3 H4 H5] Hc Hs. constructor; try done; [|intros c' [= <-]; done].
  intros i p Hp. destruct (H2 i p Hp) as [K1 K2 K3 K4]. constructor; try done.
  intros Hv. destruct (K3 Hv) as (Hiss & s & m & Ev & Hvc & Hses). split; [done|]. exists s, m. split; [done|]. split; [done|]. intros Hcl.
  destruct Hs as [Hs|Hs]; [|by rewrite (Hs i p Hp Hv) in Hcl]. unfold registration_session. cbn. change (dmesh_local_control_session (Some c) = Some s).
  rewrite Hs. by apply Hses.
Qed.

Lemma over_close_closes slots o : tidy o -> forall i p, i ∈ slots -> ob_pods (over_slots local_registration_close slots o).1 !! i = Some p -> ps_closed p = true.
Proof.
  revert o. induction slots as [|j slots IH]; intros o Ht i p Hin Hp; [by apply elem_of_nil in Hin|]. cbn [over_slots] in Hp.
  pose proof (close_lesser j o Ht) as Hl. pose proof (close_state j o) as (o1' & _ & _ & Ec).
  destruct (local_registration_close j o) as [o1 e1]. cbn [fst] in *. pose proof (tidy_lesser _ _ Hl Ht) as Ht1.
  pose proof (over_slots_lesser local_registration_close slots o1 close_lesser Ht1) as Hl2.
  specialize (IH o1 Ht1). destruct (over_slots local_registration_close slots o1) as [o2 e2]. cbn [fst] in *.
  destruct (decide (i ∈ slots)) as [Hs|Hs]; [by apply (IH i p Hs)|]. apply elem_of_cons in Hin as [->|]; [|done].
  destruct (Forall2_lookup_r _ _ _ _ _ (ls_pods _ _ Hl2) Hp) as (q & Hq & Hw). apply (wk_closed _ _ Hw).
  rewrite Ec, update_lookup, decide_True in Hq by done. apply fmap_Some in Hq as (q0 & _ & ->). unfold close_pod. by destruct (_ && _).
Qed.

Lemma retire_closes C o v i p : server_inv C o v -> ob_pods (server_local_retire o).1 !! i = Some p -> ps_verified p = true -> ps_closed p = true.
Proof.
  intros H Hp Hv. pose proof (inv_tidy _ _ _ H) as Ht. pose proof (retire_lesser o Ht) as Hl. apply (over_close_closes (seq 0 (ob_num_pods o)) o Ht i p); [|exact Hp].
  destruct (Forall2_lookup_r _ _ _ _ _ (ls_pods _ _ Hl) Hp) as (q & Hq & Hw). apply elem_of_seq. split; [lia|].
  apply (so_used _ _ _ _ _ (si_slots _ _ _ H i q Hq)). rewrite <-(wk_verified _ _ Hw), Hv. by rewrite orb_true_r.
Qed.

Lemma available_closed C o v i p : server_inv C o v -> server_local_available o = true -> ob_pods o !! i = Some p -> ps_verified p = true -> ps_closed p = true.
Proof.
  intros H Ha Hp Hv. unfold server_local_available in Ha. apply andb_true_iff in Ha as [_ Ha]. rewrite forallb_forall in Ha.
  assert (negb (local_registration_outstanding p) = true) as Ho.
  { apply Ha, list_elem_of_In, (list_elem_of_lookup_2 _ i). apply lookup_take_Some. split; [done|].
    apply (so_used _ _ _ _ _ (si_slots _ _ _ H i p Hp)). rewrite Hv. by rewrite orb_true_r. }
  unfold local_registration_outstanding in Ho. rewrite Hv in Ho. destruct (ps_closed p); [done|]. by rewrite orb_true_r in Ho.
Qed.
