(* ===== verification/RegistrationProofs.v ===== *)
(** * Registration of Pods: theorems

    Over every interleaving of the server's events: connections, assertions,
    registrations, teardowns, polls and the paired-host session. *)

From S2P Require Import Prelude Text Spans PeerIdentity WorkloadIdentity WorkloadProofs Topology TopologyGrammar TopologyParse TopologyIntern TopologyLookups LocalControl LocalControlProofs ControlScope Registration RegistrationInv RegistrationSteps.

(** ** Events *)

Definition accept_voucher (conn : nat) (m : dmesh_registration_assertion_msg) (o : objects) (v : nat -> option voucher) : nat -> option voucher :=
  match find_pod_by_connection o conn, registration_session o with
  | Some i, Some session => set_voucher i (Some (session, m)) v
  | _, _ => v
  end.

Definition engine_change (imported : bool) (k_rings : Z) (dma_ready : bool) (p : pod_state) : pod_state :=
  p <| ps_imported := imported |> <| ps_k_rings := k_rings |> <| ps_dma_ready := dma_ready |>.

(** What can happen to the server.  The DMA engines may change their part of a slot
    at any time. *)
Inductive server_event :=
  | Connect (conn : nat) (now_ns : Z) (random : option (list byte)) (send_ok : bool)
  | Disconnect (conn : nat)
  | Assert (conn : nat) (m : dmesh_registration_assertion_msg) (now_sec : Z)
  | Register (network : scope_network) (conn : nat) (wanted : Z) (name : list byte)
  | Unregister (conn : nat) (pod_id : Z)
  | Cleanup (io : nat -> cleanup_io)
  | Flush (now_ns : Z) (io : nat -> flush_io)
  | InitResult (i : nat) (result : dmesh_pod_init_result) (send_ok : bool)
  | ScopeRefresh (network : scope_network)
  | Engines (i : nat) (imported : bool) (k_rings : Z) (dma_ready : bool)
  | Control (io : progress_io)
  | Topology (C : crypto) (F : file_system) (now : option Z) (io : refresh_io)
  | Shutdown.

(** Beside the state goes, for every slot, the assertion accepted there since its
    connection and the session it was sealed under. *)
Definition server_state : Type := objects * (nat -> option voucher).

Definition server_apply (C : crypto) (e : server_event) (s : server_state) : server_state :=
  let (o, v) := s in
  match e with
  | Connect conn now random send =>
      ((server_connection_event conn now random send o).1,
       if (pods_add_connection conn now o).1 then set_voucher (connect_slot o) None v else v)
  | Disconnect conn => ((pods_remove_connection conn o).1.2, v)
  | Assert conn m now => let (b, o') := registration_accept_assertion C conn m now o in (o', if b then accept_voucher conn m o v else v)
  | Register network conn wanted name => ((server_register network conn wanted name o).1, v)
  | Unregister conn pod_id => ((pods_unregister_connection conn pod_id o).1.2, v)
  | Cleanup io => ((server_progress_pod_cleanup io o).1, v)
  | Flush now io => ((server_flush_pod_init_results now io o).1, v)
  | InitResult i result send => ((server_publish_pod_init_result i result send o).1.2, v)
  | ScopeRefresh network => (dmesh_scope_refresh network o, v)
  | Engines i imported k ready => (update_pod i (engine_change imported k ready) o, v)
  | Control io => let '(_, c, o', _) := dmesh_local_control_progress local_server (ob_control o) o io in (o' <| ob_control := c |>, v)
  | Topology C' F now io => (o <| ob_topology := (dmesh_topology_progress C' F now io (ob_topology o)).2 |>, v)
  | Shutdown => (o <| ob_shutting_down := true |>, v)
  end.

(** A new connection is one the table does not know; [ids] restricts the Pod ids
    that registrations ask for. *)
Definition permitted (ids : Z -> bool) (e : server_event) (o : objects) : bool :=
  match e with
  | Connect conn _ _ _ => forallb (fun p => negb (connected_as conn p)) (ob_pods o)
  | Register _ _ wanted _ => ids wanted
  | _ => true
  end.

(** The state at start. *)
Definition server_start (cluster node : option (list byte)) (topology : dmesh_topology) (control : option dmesh_local_control)
    (scope : scope_config) (threads rings workers : Z) : objects :=
  Objects (repeat unused_pod MAX_PODS) 0 (repeat (-1) POD_ID_SPACE) (repeat x00 DMESH_DAEMON_INCARNATION_SIZE) (repeat 0 MAX_PODS) false
    cluster node topology control scope threads rings workers.

Inductive server_run (C : crypto) (ids : Z -> bool) : server_state -> Prop :=
  | run_start cluster node topology host_uri port resources scope threads rings workers :
      server_run C ids (server_start cluster node topology (dmesh_local_control_create host_uri port resources) scope threads rings workers, fun _ => None)
  | run_event s e : server_run C ids s -> permitted ids e s.1 = true -> server_run C ids (server_apply C e s).

(** A run of given events. *)
Fixpoint server_trace (C : crypto) (ids : Z -> bool) (es : list server_event) (s : server_state) : option server_state :=
  match es with
  | [] => Some s
  | e :: es => if permitted ids e s.1 then server_trace C ids es (server_apply C e s) else None
  end.

Lemma trace_run C ids es s s' : server_run C ids s -> server_trace C ids es s = Some s' -> server_run C ids s'.
Proof.
  revert s. induction es as [|e es IH]; intros s Hs; cbn [server_trace]; [by intros [= <-]|]. destruct (permitted ids e s.1) eqn:E; [|done].
  apply IH. by apply run_event.
Qed.

Lemma start_inv C cluster node topology control scope threads rings workers :
  (forall c, control = Some c -> ssl_ok c) -> server_inv C (server_start cluster node topology control scope threads rings workers) (fun _ => None).
Proof.
  intros Hc. assert (forall i p, repeat unused_pod MAX_PODS !! i = Some p -> p = unused_pod) as Hu by (intros i p; apply lookup_repeat).
  constructor; cbn [server_start ob_pods ob_map ob_generations ob_num_pods ob_control].
  - rewrite !repeat_length. split_and!; try done. lia.
  - intros i p ->%Hu. by constructor.
  - by intros i j p q c ->%Hu.
  - by intros i j p q ->%Hu.
  - exact Hc.
Qed.

Lemma inv_other C o o' v : server_inv C o v -> ob_pods o' = ob_pods o -> ob_num_pods o' = ob_num_pods o -> ob_map o' = ob_map o ->
  ob_incarnation o' = ob_incarnation o -> ob_generations o' = ob_generations o -> ob_control o' = ob_control o -> server_inv C o' v.
Proof.
  intros H E1 E2 E3 E4 E5 E6. destruct H as [S H2 H3 H4 H5]. constructor; rewrite ?E1, ?E2, ?E3, ?E5, ?E6; try done.
  intros i p Hp. destruct (H2 i p Hp) as [K1 K2 K3 K4]. constructor; rewrite ?E2, ?E4, ?E5; try done. unfold registration_session. by rewrite E6.
Qed.

Lemma engine_weaker a k d p : weaker p (engine_change a k d p).
Proof. by constructor; cbn; auto. Qed.

Lemma control_step_inv C o v io r c c' o' es : server_inv C o v -> ob_control o = Some c ->
  dmesh_local_control_progress local_server (Some c) o io = (r, Some c', o', es) -> server_inv C (o' <| ob_control := Some c' |>) v.
Proof.
  intros H Ec E. pose proof (inv_tidy _ _ _ H) as Ht. assert (ssl_ok c) as Hs by (intros Ha; by apply (si_control _ _ _ H c Ec)).
  apply progress_owner in E as [Hok E]; [|done]. assert (registration_session o = dmesh_local_control_session (Some c)) as Hses by (unfold registration_session; by rewrite Ec).
  destruct E as [[E Ho]|[[E ->]|(E & Ha & ->)]].
  - assert (lesser o o') as Hl.
    { destruct Ho as [->|[q ->]]; [reflexivity|]. cbn [lo_dispatch local_server]. pose proof (dispatch_lesser o q Ht) as Hd. by destruct (server_local_dispatch o q) as [[? ?] ?]. }
    apply inv_control; [by eapply inv_lesser|done|left]. rewrite E, <-Hses. unfold registration_session. destruct (ls_globals _ _ Hl) as (_ & _ & _ & -> & _). done.
  - cbn [lo_retire local_server]. pose proof (retire_lesser o Ht) as Hl. apply inv_control; [by eapply inv_lesser|done|right].
    intros i p. by apply (retire_closes C o v).
  - apply inv_control; [done|done|right]. intros i p. by apply (available_closed C o v).
Qed.

Lemma permitted_unknown ids conn now random send o : permitted ids (Connect conn now random send) o = true -> unknown conn o.
Proof.
  intros Hf i p Hp E. cbn in Hf. rewrite forallb_forall in Hf. specialize (Hf p ltac:(apply list_elem_of_In; by eapply list_elem_of_lookup_2)).
  unfold connected_as in Hf. by rewrite bool_decide_true in Hf.
Qed.

(** A polled session stays a session: it is there afterwards iff it was before. *)
Lemma progress_some {O} (owner : local_owner O) c o io : exists r c' o' es, dmesh_local_control_progress owner (Some c) o io = (r, Some c', o', es).
Proof. unfold dmesh_local_control_progress. repeat case_match; simplify_eq; eauto. Qed.

Lemma apply_inv C ids e s : server_inv C s.1 s.2 -> permitted ids e s.1 = true -> server_inv C (server_apply C e s).1 (server_apply C e s).2.
Proof.
  destruct s as [o v]. cbn [fst snd]. intros H Hp. pose proof (inv_tidy _ _ _ H) as Ht. pose proof (inv_challenged _ _ _ H) as Hc. pose proof (inv_sizes _ _ _ H) as (S1 & S2 & S3 & S4).
  destruct e; cbn [server_apply fst snd].
  - apply connect_inv; [done|by eapply permitted_unknown].
  - eapply inv_lesser; [apply remove_lesser|done].
  - destruct (registration_accept_assertion C conn m now_sec o) as [b o'] eqn:E. cbn [fst snd].
    destruct (assertion_cases _ _ _ _ _ _ _ S3 E) as [[-> ->]|(-> & i & p & s & o1 & Ha & ->)]; [done|].
    unfold accept_voucher. destruct (aa_slot _ _ _ _ _ _ _ _ Ha) as (-> & _). rewrite (aa_session _ _ _ _ _ _ _ _ Ha). by eapply assertion_inv.
  - destruct (handler_cases network conn wanted name o S4) as [->|(i & p & r & sid & Hr & ->)]; [done|]. by eapply register_inv.
  - eapply inv_lesser; [apply unregister_lesser|done].
  - eapply inv_lesser; [by apply progress_cleanup_lesser|done].
  - eapply inv_lesser; [by apply quiet_lesser, flush_quiet|done].
  - eapply inv_lesser; [apply quiet_lesser, publish_init_quiet|done].
  - eapply inv_lesser; [apply quiet_lesser, scope_refresh_quiet|done].
  - eapply inv_lesser; [apply update_lesser; intros p _; apply engine_weaker|done].
  - destruct (ob_control o) as [c|] eqn:Ec; [|by eapply inv_other].
    destruct (progress_some local_server c o io) as (r & c' & o' & es & E). rewrite E. by eapply control_step_inv.
  - by eapply inv_other.
  - by eapply inv_other.
Qed.

Lemma server_run_inv C ids s : server_run C ids s -> server_inv C s.1 s.2.
Proof.
  induction 1 as [|s e _ IH Hs]; [|by eapply apply_inv]. apply start_inv. intros c Hc. unfold dmesh_local_control_create in Hc.
  destruct (_ || _); [done|]. by injection Hc as <-.
Qed.

(** ** Who is registered *)

(** C3: a registered Pod is vouched for, by the session that is open.  In every state
    the server can reach, whatever ids registrations asked for, a slot that is
    registered has a live connection, and holds exactly the identity of an
    assertion accepted on that connection: its seal verifies under the paired-host
    session that is open now, it answers the challenge issued to that connection,
    and it was canonical.  So when no session is open nothing is registered: the
    end of a session withdraws every registration made in it. *)
Theorem registered_vouched C ids o v i p (Hrun : server_run C ids (o, v)) (Hp : ob_pods o !! i = Some p) (Hr : ps_registered p = true) :
  is_connected p = true /\ ps_consumed p = true /\ ps_cleanup p = false /\
  exists session m, registration_session o = Some session /\ v i = Some (session, m) /\ vouched C p session m.
Proof.
  apply server_run_inv in Hrun. cbn [fst snd] in Hrun. destruct (si_slots _ _ _ Hrun i p Hp) as [_ K2 K3 _]. destruct (K2 Hr) as (H1 & H2 & H3 & H4 & H5).
  split; [done|]. split; [done|]. split; [done|]. destruct (K3 H2) as (_ & s & m & Ev & Hvc & Hs). exists s, m. split; [by apply Hs|]. done.
Qed.


(** ** A run *)

(** A workload with channel slot [n], whose challenge is [n] repeated. *)
Definition demo_nonce (n : nat) : list byte := repeat (z2b (Z.of_nat n)) 32.
Definition workload_identity (n : nat) (service : list byte) : dmesh_workload_identity :=
  Identity 1 1 0 0 (dmesh_wire_put_u64_le 1000) (dmesh_wire_put_u64_le 1300) (demo_nonce n) (dmesh_wire_put_u32_le (Z.of_nat n))
    (dmesh_wire_put_u64_le 3) (repeat x02 16) (field_text 64 (txt "prod")) (field_text 254 (txt "node-a"))
    (field_text 64 demo_uid) (field_text 64 (txt "shop")) (field_text 254 (txt "web-0"))
    (field_text 254 (txt "default")) (field_text 254 (txt "app")) (field_text 65 (repeat "a"%byte 64)) (field_text 64 service)
    (field_text 16 (txt "10.244.1.17")).
Definition workload_assertion (n : nat) (service : list byte) : dmesh_registration_assertion_msg :=
  let m := Assertion 9 DMESH_LOCAL_VERSION [x00; x00] (workload_identity n service) (repeat x00 32) in
  default m (dmesh_registration_seal toy_crypto demo_session m).

(** It connects, states its identity and registers under an id. *)
Definition workload_joins (n : nat) (service : list byte) (wanted : Z) : list server_event :=
  [Connect n 1 (Some (demo_nonce n)) true; Assert n (workload_assertion n service) 1010;
   Register (fun _ _ _ => None) n wanted (field_text 64 service)].

Definition demo_server : server_state :=
  (server_start (Some (txt "prod")) (Some (txt "node-a")) demo_consumer (dmesh_local_control_create demo_host 4430 true) (ScopeConfig [] 0) 8 1 1, fun _ => None).
Definition run_of (ids : Z -> bool) (es : list server_event) : server_state := default demo_server (server_trace toy_crypto ids es demo_server).

Lemma run_of_run ids es : server_run toy_crypto ids ((run_of ids es).1, (run_of ids es).2).
Proof.
  assert (server_run toy_crypto ids demo_server) as Hs by apply run_start. rewrite <-surjective_pairing. unfold run_of.
  destruct (server_trace toy_crypto ids es demo_server) as [s|] eqn:E; [by eapply trace_run|done].
Qed.

Definition demo_events : list server_event := Control demo_connect :: workload_joins 1 [] (-1).
Definition demo_objects : objects := (run_of (fun _ => true) demo_events).1.
Definition demo_slot : pod_state := default unused_pod (ob_pods demo_objects !! 0%nat).

Lemma registered_vouched_witness : exists session m, registration_session demo_objects = Some session /\ vouched toy_crypto demo_slot session m.
Proof.
  destruct (registered_vouched toy_crypto (fun _ => true) demo_objects (run_of (fun _ => true) demo_events).2 0 demo_slot
              (run_of_run (fun _ => true) demo_events) ltac:(vm_compute; reflexivity) ltac:(vm_compute; reflexivity)) as (_ & _ & _ & s & m & E1 & _ & H).
  exact (ex_intro _ s (ex_intro _ m (conj E1 H))).
Defined.

