(* ===== verification/RegistrationIds.v ===== *)
(** * Registration of Pods: ids

    Where the server assigns the Pod ids, its map leads to exactly the registered
    slots; where workloads choose them, two live Pods can end up with one id. *)

From S2P Require Import Prelude Text Spans PeerIdentity WorkloadIdentity WorkloadProofs Topology TopologyGrammar TopologyParse TopologyIntern TopologyLookups LocalControl LocalControlProofs ControlScope Registration RegistrationInv RegistrationSteps RegistrationProofs.

(** ** Assigned ids *)

(** The id of a slot is its number, and the map says which slots are registered. *)
Record coupled (o : objects) : Prop := {
  cp_sizes : length (ob_pods o) = MAX_PODS /\ length (ob_map o) = POD_ID_SPACE /\ (ob_num_pods o <= MAX_PODS)%nat;
  cp_id : forall i p, ob_pods o !! i = Some p -> (i < ob_num_pods o)%nat -> ps_pod_id p = -1 \/ ps_pod_id p = Z.of_nat i;
  cp_registered : forall i p, ob_pods o !! i = Some p -> ps_registered p = true -> ps_pod_id p = Z.of_nat i;
  cp_map : forall i p, ob_pods o !! i = Some p -> ob_map o !! i = Some (if ps_registered p then Z.of_nat i else -1);
  cp_rest : forall k, (MAX_PODS <= k < POD_ID_SPACE)%nat -> ob_map o !! k = Some (-1) }.

(** A change of one slot that ends its registration, if it has one. *)
Lemma coupled_end o i p f : coupled o -> ob_pods o !! i = Some p -> (i < ob_num_pods o)%nat -> ps_registered (f p) = false ->
  (ps_pod_id (f p) = -1 \/ ps_pod_id (f p) = ps_pod_id p) -> coupled (update_pod i f (clear_map (ps_pod_id p) o)).
Proof.
  intros [(S1 & S2 & S3) H2 H3 H4 H5] Hp Hi Hr Hid. destruct (H2 i p Hp Hi) as [Ei|Ei].
  - assert (clear_map (ps_pod_id p) o = o) as -> by (unfold clear_map; by rewrite Ei).
    assert (ps_registered p = false) as Hrp by (destruct (ps_registered p) eqn:E; [rewrite (H3 i p Hp E) in Ei; lia|done]).
    constructor; [split_and!; try done; cbn; by rewrite length_alter|..|done]; intros j q; rewrite update_lookup; destruct (decide (i = j)) as [<-|Hne]; try (by eauto);
      rewrite Hp; cbn; intros [= <-].
    + intros _. destruct Hid as [->| ->]; [by left|by left].
    + by rewrite Hr.
    + rewrite Hr. specialize (H4 i p Hp). by rewrite Hrp in H4.
  - assert (in_id_space (ps_pod_id p) = true) as Hin.
    { unfold in_id_space. rewrite Ei, andb_true_iff, Z.leb_le, Z.ltb_lt. unfold POD_ID_SPACE, MAX_PODS in *. lia. }
    assert (forall k, ob_map (clear_map (ps_pod_id p) o) !! k = if decide (k = i) then Some (-1) else ob_map o !! k) as Hm.
    { intros k. unfold clear_map. rewrite Hin, Ei. cbn. rewrite Nat2Z.id. destruct (decide (k = i)) as [->|Hne]; [|by apply list_lookup_insert_ne].
      apply list_lookup_insert_eq. rewrite S2. unfold POD_ID_SPACE, MAX_PODS in *. lia. }
    assert (ob_pods (clear_map (ps_pod_id p) o) = ob_pods o /\ ob_num_pods (clear_map (ps_pod_id p) o) = ob_num_pods o /\ length (ob_map (clear_map (ps_pod_id p) o)) = length (ob_map o)) as (E1 & E2 & E3).
    { unfold clear_map. rewrite Hin. split_and!; try done. cbn. apply length_insert. }
    set (o1 := clear_map (ps_pod_id p) o) in *. clearbody o1.
    constructor; [split_and!; cbn; rewrite ?length_alter, ?E1, ?E2, ?E3; done|..]; cbn [update_pod ob_map ob_num_pods set];
      try (intros j q; rewrite update_lookup, E1; destruct (decide (i = j)) as [<-|Hne]; [rewrite Hp; cbn; intros [= <-]|intros Hq]).
    + intros _. destruct Hid as [->| ->]; [by left|by right].
    + intros Hj. apply (H2 j q Hq). change (j < ob_num_pods o1)%nat in Hj. by rewrite E2 in Hj.
    + by rewrite Hr.
    + by apply (H3 j q).
    + change (ob_map o1 !! i = Some (if ps_registered (f p) then Z.of_nat i else -1)). rewrite Hm, decide_True by done. by rewrite Hr.
    + change (ob_map o1 !! j = Some (if ps_registered q then Z.of_nat j else -1)). rewrite Hm, decide_False by done. by apply H4.
    + intros k Hk. change (ob_map o1 !! k = Some (-1)). rewrite Hm. destruct (decide (k = i)) as [->|]; [done|by apply H5].
Qed.

(** A change of one slot that leaves its registration as it is. *)
Lemma coupled_keep o i f : coupled o ->
  (forall p, ob_pods o !! i = Some p -> ps_registered (f p) = ps_registered p /\ (ps_pod_id (f p) = ps_pod_id p \/ (ps_registered p = false /\ ps_pod_id (f p) = -1))) ->
  coupled (update_pod i f o).
Proof.
  intros [(S1 & S2 & S3) H2 H3 H4 H5] Hf. constructor; [split_and!; try done; cbn; by rewrite length_alter|..|done];
    intros j q; rewrite update_lookup; destruct (decide (i = j)) as [<-|Hne]; try (by eauto); intros (p & Hp & ->)%fmap_Some; destruct (Hf p Hp) as [Er Hid].
  - intros Hi. destruct Hid as [->|[_ ->]]; [by apply H2|by left].
  - rewrite Er. intros Hr. destruct Hid as [->|[E _]]; [by apply H3|congruence].
  - rewrite Er. by apply H4.
Qed.

Lemma coupled_quiet o o' : undisturbed o o' -> coupled o -> coupled o'.
Proof.
  intros [(E1 & _) Em Hp] [(S1 & S2 & S3) H2 H3 H4 H5].
  assert (forall i p', ob_pods o' !! i = Some p' -> exists p, ob_pods o !! i = Some p /\ ps_registered p' = ps_registered p /\ ps_pod_id p' = ps_pod_id p) as Hl.
  { intros i p' Hi. destruct (Forall2_lookup_r _ _ _ _ _ Hp Hi) as (p & Hpi & _ & ? & ?). by exists p. }
  constructor; rewrite ?E1, ?Em; [rewrite <-(Forall2_length _ _ _ Hp); done|..|done];
    intros i p' (p & Hpi & Er & Ei)%Hl; rewrite ?Er, ?Ei; eauto.
Qed.

Lemma begin_cleanup_coupled i o : (i < ob_num_pods o)%nat -> coupled o -> coupled (pod_begin_cleanup i o).1.
Proof.
  intros Hi H. unfold pod_begin_cleanup. destruct (ob_pods o !! i) as [p|] eqn:E; [|done]. destruct (ps_cleanup p); [done|]. cbn [fst].
  apply coupled_end; try done. by right.
Qed.

Lemma close_coupled i o : (i < ob_num_pods o)%nat -> coupled o -> coupled (local_registration_close i o).1.
Proof.
  intros Hi H. unfold local_registration_close. assert (coupled (update_pod i (fun p => p <| ps_closed := true |>) o)) as H1 by (apply coupled_keep; [done|]; intros p _; by split; [|left]).
  set (o1 := update_pod i _ o) in *. destruct (ob_pods o1 !! i) as [p|]; [|done]. destruct (_ || _); [|done]. by apply begin_cleanup_coupled.
Qed.

(** A pass over slots in use keeps what each of its steps keeps. *)
Lemma over_slots_keeps (P : objects -> Prop) n f slots o :
  (forall i o, (i < n)%nat -> ob_num_pods o = n -> P o -> P (f i o).1 /\ ob_num_pods (f i o).1 = n) ->
  Forall (fun i => (i < n)%nat) slots -> ob_num_pods o = n -> P o -> P (over_slots f slots o).1.
Proof.
  intros Hf Hs. revert o. induction Hs as [|i slots Hi _ IH]; intros o Hn HP; cbn [over_slots]; [done|].
  destruct (Hf i o Hi Hn HP) as [H1 H2]. destruct (f i o) as [o1 e1]. cbn [fst] in *. specialize (IH o1 H2 H1). by destruct (over_slots f slots o1).
Qed.

Lemma seq_below n : Forall (fun i => (i < n)%nat) (seq 0 n).
Proof. apply Forall_forall. intros i Hi%elem_of_seq. lia. Qed.

Lemma retire_coupled o : tidy o -> coupled o -> coupled (server_local_retire o).1.
Proof.
  intros Ht H. apply (over_slots_keeps (fun o => tidy o /\ coupled o) (ob_num_pods o)); [|apply seq_below|done|done].
  intros i o1 Hi Hn [Ht1 H1]. pose proof (close_lesser i o1 Ht1) as Hl. split; [split; [by eapply tidy_lesser|apply close_coupled; [lia|done]]|].
  destruct (ls_globals _ _ Hl) as (-> & _). done.
Qed.

Lemma dispatch_coupled o r : coupled o -> coupled (server_local_dispatch o r).1.2.
Proof.
  intros H. unfold server_local_dispatch. destruct (ob_shutting_down o); [done|]. destruct (_ && _); [done|].
  destruct (first_slot _ o) as [i|] eqn:Ef; [|done]. apply first_slot_Some in Ef as (Hi & p & Hp & _). rewrite Hp.
  destruct (_ && _); [|by rewrite Hp]. pose proof (close_coupled i o Hi H) as H1. destruct (local_registration_close i o) as [o1 e]. by destruct (ob_pods o1 !! i).
Qed.

Lemma unregister_coupled conn pod_id o : coupled o -> coupled (pods_unregister_connection conn pod_id o).1.2.
Proof.
  intros H. unfold pods_unregister_connection. destruct (find_pod_by_connection o conn) as [i|] eqn:Ef; [|done].
  destruct (find_connection_Some _ _ _ Ef) as (Hi & p & Hp & _). rewrite Hp. destruct (negb _); [done|].
  pose proof (begin_cleanup_coupled i o Hi H) as H1. by destruct (pod_begin_cleanup i o).
Qed.

Lemma remove_coupled conn o : coupled o -> coupled (pods_remove_connection conn o).1.2.
Proof.
  intros H. unfold pods_remove_connection. destruct (find_pod_by_connection o conn) as [i|] eqn:Ef; [|done].
  destruct (find_connection_Some _ _ _ Ef) as (Hi & p & Hp & _). rewrite Hp. destruct (_ && _ && _) eqn:Eb.
  - apply andb_true_iff in Eb as [_ Ec%negb_true_iff]. unfold pod_begin_cleanup. rewrite Hp, Ec. cbn [fst snd]. rewrite update_update. apply coupled_end; try done. by right.
  - cbn [fst snd]. rewrite update_clear, update_update. apply coupled_end; try done; unfold forget_connection; cbn; destruct (ps_cleanup p); cbn; auto.
Qed.

Lemma cleanup_slot_coupled i io o : tidy o -> coupled o -> coupled (cleanup_slot i io o).1.2.
Proof.
  intros Ht H. unfold cleanup_slot. destruct (ob_pods o !! i) as [p|] eqn:E; [|done]. destruct (negb _ || _) eqn:Eb; [done|].
  apply orb_false_iff in Eb as [Ec%negb_false_iff _]. unfold tidy in Ht. rewrite Forall_lookup in Ht. pose proof (Ht i p E Ec) as Hr.
  assert (forall f, (ps_registered (f (reclaimed_pod p)) = false /\ (ps_pod_id (f (reclaimed_pod p)) = ps_pod_id p \/ ps_pod_id (f (reclaimed_pod p)) = -1)) ->
    coupled (update_pod i f (update_pod i reclaimed_pod o))) as Hu.
  { intros f [Hf1 Hf2]. rewrite update_update. apply coupled_keep; [done|]. intros q Hq. assert (q = p) as -> by congruence. rewrite Hf1, Hr. split; [done|]. destruct Hf2; auto. }
  assert (forall q, ps_registered q = false -> ps_registered (end_cleanup q) = false /\ (ps_pod_id (end_cleanup q) = ps_pod_id q \/ ps_pod_id (end_cleanup q) = -1)) as He.
  { intros q Hq. unfold end_cleanup. destruct (is_connected _); cbn; auto. }
  destruct (ps_connection p) as [conn|]; [|exact (Hu end_cleanup (He (reclaimed_pod p) Hr))].
  destruct (ps_cleanup_sent p); [exact (Hu end_cleanup (He (reclaimed_pod p) Hr))|]. destruct (ci_send io); cbn [fst snd].
  - apply (Hu (fun p => end_cleanup (p <| ps_cleanup_sent := true |>))). set (q := reclaimed_pod p <| ps_cleanup_sent := true |>). exact (He q Hr).
  - apply coupled_keep; [done|]. intros q _. by split; [|left].
Qed.

Lemma progress_cleanup_coupled io o : tidy o -> coupled o -> coupled (server_progress_pod_cleanup io o).1.
Proof.
  intros Ht H. apply (over_slots_keeps (fun o => tidy o /\ coupled o) (ob_num_pods o)); [|apply seq_below|done|done].
  intros i o1 Hi Hn [Ht1 H1]. pose proof (cleanup_slot_lesser i (io i) o1 Ht1) as Hl. pose proof (cleanup_slot_coupled i (io i) o1 Ht1 H1) as Hc.
  destruct (cleanup_slot i (io i) o1) as [[b o2] e]. cbn [fst snd] in *. split; [split; [by eapply tidy_lesser|done]|].
  destruct (ls_globals _ _ Hl) as (-> & _). done.
Qed.

Lemma add_coupled C o v conn now o' : server_inv C o v -> coupled o -> pods_add_connection conn now o = (true, o') -> coupled o'.
Proof.
  intros H Hc. unfold pods_add_connection. destruct (ob_shutting_down o); [done|]. destruct (first_slot recyclable o) as [i|] eqn:Ef.
  - intros [= <-]. apply first_slot_Some in Ef as (Hi & p & Hp & Hr & _). unfold recyclable in Hr. rewrite !andb_true_iff, !negb_true_iff in Hr.
    apply coupled_keep; [done|]. intros q Hq. assert (q = p) as -> by congruence. destruct Hr as ((_ & Hreg) & _). cbn. rewrite Hreg. by auto.
  - destruct (Z.leb_spec (live_cap o) (Z.of_nat (ob_num_pods o))) as [|Hl]; [done|]. intros [= <-].
    assert (coupled (update_pod (ob_num_pods o) (fresh_pod conn now (ob_workers o)) o)) as [(S1 & S2 & S3) H2 H3 H4 H5].
    { apply coupled_keep; [done|]. intros p Hp. destruct (ps_registered p) eqn:E; [|by split; [|right]].
      pose proof (so_used _ _ _ _ _ (si_slots _ _ _ H _ _ Hp)) as Hu. rewrite E, orb_true_r in Hu. specialize (Hu eq_refl). lia. }
    constructor; try done; [split_and!; try done; cbn; unfold live_cap in Hl; lia|]. intros i p Hp Hi. cbn in Hi.
    destruct (decide (i = ob_num_pods o)) as [->|]; [|apply (H2 i p Hp); cbn; lia].
    left. revert Hp. change (ob_pods (update_pod (ob_num_pods o) (fresh_pod conn now (ob_workers o)) o) !! ob_num_pods o = Some p -> ps_pod_id p = -1).
    rewrite update_lookup, decide_True by done. by intros (q & _ & ->)%fmap_Some.
Qed.

Lemma register_coupled network conn name o i p pid sid : coupled o -> registers network conn (-1) name o i p pid sid ->
  coupled (registered_state network i pid sid o).
Proof.
  intros [(S1 & S2 & S3) H2 H3 H4 H5] [(Hf & Hp & _) _ _ _ [Eid Hid] _]. change (pid = Z.of_nat i) in Eid. subst pid.
  assert (forall k, ob_map (registered_state network i (Z.of_nat i) sid o) !! k = if decide (k = i) then Some (Z.of_nat i) else ob_map o !! k) as Hm.
  { intros k. cbn. rewrite Nat2Z.id. destruct (decide (k = i)) as [->|Hne]; [apply list_lookup_insert_eq; rewrite S2; lia|by apply list_lookup_insert_ne]. }
  assert (forall j q, ob_pods (registered_state network i (Z.of_nat i) sid o) !! j = Some q ->
    (j = i /\ ps_registered q = true /\ ps_pod_id q = Z.of_nat i) \/ (j <> i /\ ob_pods o !! j = Some q)) as Hl.
  { intros j q. unfold registered_state. rewrite update_lookup. destruct (decide (i = j)) as [<-|Hne]; [|by right]. cbn [store_map ob_pods set]. intros (q' & _ & ->)%fmap_Some. by left. }
  assert (ob_num_pods (registered_state network i (Z.of_nat i) sid o) = ob_num_pods o) as En by done.
  assert (length (ob_pods (registered_state network i (Z.of_nat i) sid o)) = MAX_PODS /\ length (ob_map (registered_state network i (Z.of_nat i) sid o)) = POD_ID_SPACE) as [L1 L2]
    by (cbn; by rewrite length_alter, length_insert).
  destruct (find_connection_Some _ _ _ Hf) as (Hi & _). set (o' := registered_state _ _ _ _ _) in *. clearbody o'.
  constructor; rewrite ?En; [done|..].
  - intros j q [(-> & _ & Eq)|[_ Hq]]%Hl Hj; [by right|by apply H2].
  - intros j q [(-> & _ & Eq)|[_ Hq]]%Hl; [done|by apply H3].
  - intros j q [(-> & Er & _)|[Hne Hq]]%Hl; rewrite Hm; [by rewrite decide_True, Er|rewrite decide_False by done; by apply H4].
  - intros k Hk. rewrite Hm, decide_False; [by apply H5|lia].
Qed.

Lemma coupled_other o o' : ob_pods o' = ob_pods o -> ob_num_pods o' = ob_num_pods o -> ob_map o' = ob_map o -> coupled o -> coupled o'.
Proof. intros E1 E2 E3 [H1 H2 H3 H4 H5]. constructor; rewrite ?E1, ?E2, ?E3; done. Qed.

Lemma control_step_coupled o io r c c' o' es : tidy o -> ssl_ok c -> coupled o ->
  dmesh_local_control_progress local_server (Some c) o io = (r, Some c', o', es) -> coupled (o' <| ob_control := Some c' |>).
Proof.
  intros Ht Hs H E. apply (coupled_other o'); try done. apply progress_owner in E as [_ E]; [|done].
  destruct E as [[_ [->|[q ->]]]|[[_ ->]|(_ & _ & ->)]]; cbn [lo_dispatch lo_retire local_server]; [done| |by apply retire_coupled|done].
  pose proof (dispatch_coupled o q H) as Hd. by destruct (server_local_dispatch o q) as [[? ?] ?].
Qed.

Lemma assertion_coupled C conn m now o b o' : length (ob_generations o) = MAX_PODS ->
  registration_accept_assertion C conn m now o = (b, o') -> coupled o -> coupled o'.
Proof.
  intros S3 E H. destruct (assertion_cases _ _ _ _ _ _ _ S3 E) as [[-> ->]|(-> & i & p & s & o1 & [_ _ _ _ [Hok _] Hl] & ->)]; [done|].
  apply coupled_keep; [|intros q _; by split; [|left]]. pose proof (generation_positive _ Hok) as Hg.
  destruct (lifecycle_cases _ _ _ _ _ Hg S3 Hl) as [[? _]|(_ & _ & gens & -> & _)]; [done|]. by apply (coupled_other o).
Qed.

(** Every registration leaves the id to the server. *)
Definition assigned (wanted : Z) : bool := wanted =? -1.

Lemma apply_coupled C e s : server_inv C s.1 s.2 -> coupled s.1 -> permitted assigned e s.1 = true -> coupled (server_apply C e s).1.
Proof.
  destruct s as [o v]. cbn [fst snd]. intros H Hc Hp. pose proof (inv_tidy _ _ _ H) as Ht. pose proof (inv_challenged _ _ _ H) as Hch. pose proof (inv_sizes _ _ _ H) as (S1 & S2 & S3 & S4).
  destruct e; cbn [server_apply fst snd].
  - apply permitted_unknown in Hp. unfold server_connection_event. destruct (pods_add_connection conn now_ns o) as [added o1] eqn:Ea. destruct added; cbn [negb fst].
    + pose proof (add_coupled _ _ _ _ _ _ H Hc Ea) as Hc1. pose proof (add_inv C o v conn now_ns o1 H Hp Ea) as Hi1.
      destruct (find_pod_by_connection o1 conn) as [i|]; [|done].
      pose proof (challenge_quiet i random send_ok o1 (fun p => challenged_at o1 i p (inv_challenged _ _ _ Hi1))) as Hq.
      destruct (server_send_registration_challenge i random send_ok o1) as [[b o2] e]. by eapply coupled_quiet.
    + by rewrite (add_refused _ _ _ _ Ea).
  - by apply remove_coupled.
  - destruct (registration_accept_assertion C conn m now_sec o) as [b o'] eqn:E. by eapply assertion_coupled.
  - apply Z.eqb_eq in Hp as ->. destruct (handler_cases network conn (-1) name o S4) as [->|(i & p & r & sid & Hr & ->)]; [done|]. by eapply register_coupled.
  - by apply unregister_coupled.
  - by apply progress_cleanup_coupled.
  - eapply coupled_quiet; [by apply flush_quiet|done].
  - eapply coupled_quiet; [apply publish_init_quiet|done].
  - eapply coupled_quiet; [apply scope_refresh_quiet|done].
  - apply coupled_keep; [done|]. intros p _. by split; [|left].
  - destruct (ob_control o) as [c|] eqn:Ec; [|by apply (coupled_other o)].
    destruct (progress_some local_server c o io) as (r & c' & o' & es & E). rewrite E. eapply control_step_coupled; try done.
    intros Ha. by eapply (si_control _ _ _ H).
  - by apply (coupled_other o).
  - by apply (coupled_other o).
Qed.

Lemma start_coupled cluster node topology control scope threads rings workers :
  coupled (server_start cluster node topology control scope threads rings workers).
Proof.
  assert (forall i p, repeat unused_pod MAX_PODS !! i = Some p -> p = unused_pod /\ (i < MAX_PODS)%nat) as Hu.
  { intros i p Hp. split; [by eapply lookup_repeat|]. apply lookup_lt_Some in Hp. by rewrite repeat_length in Hp. }
  assert (forall k, (k < POD_ID_SPACE)%nat -> repeat (-1) POD_ID_SPACE !! k = Some (-1)) as Hm by (intros k; change (repeat (-1) POD_ID_SPACE) with (replicate POD_ID_SPACE (-1)); apply lookup_replicate_2).
  constructor; cbn [server_start ob_pods ob_map ob_num_pods].
  - rewrite !repeat_length. split_and!; try done. lia.
  - intros i p _ Hi. lia.
  - by intros i p [-> _]%Hu.
  - intros i p [-> Hi]%Hu. apply Hm. unfold MAX_PODS, POD_ID_SPACE in *. lia.
  - intros k Hk. apply Hm. lia.
Qed.

Lemma server_run_coupled C s : server_run C assigned s -> coupled s.1.
Proof. induction 1 as [|s e Hr IH Hs]; [apply start_coupled|]. eapply apply_coupled; [by eapply server_run_inv|done|done]. Qed.

(** Assigned ids lead to their Pods.  When every registration leaves the id to the
    server, as the host library does, then in every reachable state an id leads
    to a slot exactly when that slot is registered under it, and it is the slot's
    number; so registered Pods have distinct ids and each can be found. *)
Lemma assigned_found C o v pod_id i (Hrun : server_run C assigned (o, v)) :
  find_pod_by_id o pod_id = Some i <->
  exists p, ob_pods o !! i = Some p /\ ps_registered p = true /\ ps_pod_id p = pod_id.
Proof.
  apply server_run_coupled in Hrun. destruct Hrun as [(S1 & S2 & S3) H2 H3 H4 H5]. cbn [fst] in *. unfold find_pod_by_id. split.
  - destruct (in_id_space pod_id); cbn [negb]; [|done]. destruct (ob_map o !! Z.to_nat pod_id) as [idx|]; [|done]. cbn [mbind option_bind].
    destruct (_ || _); [done|]. destruct (ob_pods o !! Z.to_nat idx) as [p|] eqn:Hp; [|done]. cbn [mbind option_bind].
    destruct (ps_registered p) eqn:Er; [|done]. destruct (Z.eqb_spec (ps_pod_id p) pod_id) as [E|]; [|done]. cbn. intros [= <-]. by exists p.
  - intros (p & Hp & Hr & <-). pose proof (lookup_lt_Some _ _ _ Hp) as Hi. rewrite S1 in Hi. rewrite (H3 i p Hp Hr).
    assert (in_id_space (Z.of_nat i) = true) as -> by (unfold in_id_space; rewrite andb_true_iff, Z.leb_le, Z.ltb_lt; unfold POD_ID_SPACE, MAX_PODS in *; lia).
    cbn [negb]. rewrite Nat2Z.id, (H4 i p Hp), Hr. cbn [mbind option_bind]. destruct (Z.ltb_spec (Z.of_nat i) 0); [lia|].
    destruct (Z.leb_spec (Z.of_nat MAX_PODS) (Z.of_nat i)); [lia|]. cbn [orb]. rewrite Nat2Z.id, Hp. cbn [mbind option_bind].
    by rewrite Hr, (H3 i p Hp Hr), Z.eqb_refl.
Qed.

(** ** Chosen ids *)

(** The first workload registers under id 5 and unregisters, which leaves the id in
    its slot; the second registers under id 5. *)
Definition handover : list server_event :=
  Control demo_connect :: workload_joins 1 [] 5 ++ [Unregister 1 5; Cleanup (fun _ => CleanupIo true true)] ++ workload_joins 2 [] 5.

(** The registered slots with an id. *)
Definition holders (o : objects) (pod_id : Z) : list nat :=
  fst <$> filter (fun x => ps_registered x.2 && (ps_pod_id x.2 =? pod_id) = true) (slots_in_use o).

(** An id can be lost and taken twice.  A workload that unregistered keeps its id
    while it is connected, and its disconnection clears the map entry of that id
    without asking whose it is by then.  So there is a run in which a registered,
    connected Pod cannot be found by its id, and from there one in which two
    registered Pods have the same id. *)
Lemma chosen_collide :
  (exists s, server_run toy_crypto (fun _ => true) s /\ holders s.1 5 = [1%nat] /\ find_pod_by_id s.1 5 = None) /\
  (exists s, server_run toy_crypto (fun _ => true) s /\ holders s.1 5 = [0; 1]%nat /\ find_pod_by_id s.1 5 = Some 0%nat).
Proof.
  split.
  - exists (run_of (fun _ => true) (handover ++ [Disconnect 1])). split; [rewrite (surjective_pairing (run_of _ _)); apply run_of_run|split; vm_compute; reflexivity].
  - exists (run_of (fun _ => true) (handover ++ [Disconnect 1] ++ workload_joins 3 [] 5)).
    split; [rewrite (surjective_pairing (run_of _ _)); apply run_of_run|split; vm_compute; reflexivity].
Qed.

(** C30: ids lead to their Pods where the server assigns them.  When every registration
    leaves the id to the server, as the host library does, then in every reachable
    state an id leads to a slot exactly when that slot is registered under it, and
    it is the slot's number; so registered Pods have distinct ids and each can be
    found.  Where workloads choose ids this fails: a workload that unregistered
    keeps its id while it is connected, and its disconnection clears the map entry
    of that id without asking whose it is by then.  So there is a run in which a
    registered, connected Pod cannot be found by its id, and one in which two
    registered Pods have the same id. *)
Theorem assigned_ids_exact :
  (forall C o v pod_id i, server_run C assigned (o, v) ->
     (find_pod_by_id o pod_id = Some i <-> exists p, ob_pods o !! i = Some p /\ ps_registered p = true /\ ps_pod_id p = pod_id) /\
     (forall p, ob_pods o !! i = Some p -> ps_registered p = true -> ps_pod_id p = Z.of_nat i)) /\
  (exists s, server_run toy_crypto (fun _ => true) s /\ holders s.1 5 = [1%nat] /\ find_pod_by_id s.1 5 = None) /\
  (exists s, server_run toy_crypto (fun _ => true) s /\ holders s.1 5 = [0; 1]%nat /\ find_pod_by_id s.1 5 = Some 0%nat).
Proof.
  split; [|exact chosen_collide]. intros C o v pod_id i Hrun. split; [by eapply assigned_found|]. apply server_run_coupled in Hrun. apply (cp_registered _ Hrun).
Qed.

Lemma assigned_ids_exact_witness : find_pod_by_id (run_of assigned demo_events).1 0 = Some 0%nat.
Proof.
  apply (proj1 (proj1 assigned_ids_exact toy_crypto (run_of assigned demo_events).1 (run_of assigned demo_events).2 0 0%nat (run_of_run assigned demo_events))).
  exists (default unused_pod (ob_pods (run_of assigned demo_events).1 !! 0%nat)). split_and!; vm_compute; reflexivity.
Defined.

(** ** Ids of Services *)

Definition one_service (key : list byte) : list gen_record := [RService key 174325761 80].
Definition generation (now v : Z) (key : list byte) : server_event :=
  Topology toy_crypto demo_files (Some now) (document_io v (demo_document v (one_service key))).

(** C32: a Service can be handed another Service's Pods.  A generation that drops a
    Service frees its id for the next one, but a Pod registered for the dropped
    Service keeps that id.  So there is a run in which the only Pod registered for
    shop/web is the backend set of shop/api. *)
Theorem service_id_reused : exists s, server_run toy_crypto assigned s /\
  server_run toy_crypto assigned (server_apply toy_crypto (generation 3000000000000 6 (txt "shop/api")) s) /\
  let o := s.1 in
  let o' := (server_apply toy_crypto (generation 3000000000000 6 (txt "shop/api")) s).1 in
  collect_live_hosts o (dmesh_topology_interned_id (ob_topology o) (Some (txt "shop/web"))) = [0] /\
  dmesh_topology_interned_id (ob_topology o') (Some (txt "shop/web")) = -1 /\
  collect_live_hosts o' (dmesh_topology_interned_id (ob_topology o') (Some (txt "shop/api"))) = [0] /\
  (cstr ∘ ps_service) <$> take 1 (ob_pods o') = [txt "web"].
Proof.
  exists (run_of assigned ([generation 3 5 (txt "shop/web"); Control demo_connect] ++ workload_joins 1 (txt "web") (-1) ++ [Engines 0 true 1 true])).
  assert (forall es, server_run toy_crypto assigned (run_of assigned es)) as Hrun by (intros es; rewrite (surjective_pairing (run_of _ _)); apply run_of_run).
  split; [apply Hrun|]. split; [by apply run_event; [apply Hrun|]|]. cbv zeta. split_and!; vm_compute; reflexivity.
Qed.
