(* ===== verification/RegistrationServe.v ===== *)
(** * Registration of Pods: teardown and resolution

    An unregistration the paired host asks for is final for that connection, and
    Services resolve to the ids their Pods register under. *)

From S2P Require Import Prelude Text Spans PeerIdentity WorkloadIdentity WorkloadProofs Topology TopologyGrammar TopologyParse TopologyIntern TopologyLookups LocalControl LocalControlProofs ControlScope Registration RegistrationInv RegistrationSteps RegistrationProofs.

(** ** Teardown *)

(** The slot is closed and not registered. *)
Definition shut (i : nat) (o : objects) : Prop := exists p, ob_pods o !! i = Some p /\ ps_closed p = true /\ ps_registered p = false.

Lemma shut_lesser i o o' : lesser o o' -> shut i o -> shut i o'.
Proof.
  intros Hl (p & Hp & Hc & Hr). destruct (Forall2_lookup_l _ _ _ _ _ (ls_pods _ _ Hl) Hp) as (p' & Hp' & Hw). exists p'. split; [done|].
  split; [by apply (wk_closed _ _ Hw)|]. apply not_true_iff_false. intros Hr'. destruct (wk_registered _ _ Hw Hr') as [E _]. congruence.
Qed.

Lemma shut_pods i o o' : ob_pods o' = ob_pods o -> shut i o -> shut i o'.
Proof. unfold shut. by intros ->. Qed.

Lemma shut_update i j f o : (i = j -> forall p, ob_pods o !! i = Some p -> ps_closed p = false) -> shut i o -> shut i (update_pod j f o).
Proof.
  intros Hn (p & Hp & Hc & Hr). exists p. split; [|done]. rewrite update_lookup, decide_False; [done|]. intros ->. specialize (Hn eq_refl p Hp). congruence.
Qed.

(** The event does not give the slot to a new connection. *)
Definition spares (i : nat) (e : server_event) (o : objects) : Prop :=
  match e with Connect conn now _ _ => (pods_add_connection conn now o).1 = true -> connect_slot o <> i | _ => True end.

Lemma shut_add i conn now o o' : connect_slot o <> i -> pods_add_connection conn now o = (true, o') -> shut i o -> shut i o'.
Proof.
  intros Hne E Hs. unfold pods_add_connection, connect_slot in *. destruct (ob_shutting_down o); [done|]. destruct (first_slot recyclable o) as [j|]; cbn [default] in Hne.
  - injection E as <-. by apply shut_update.
  - destruct (_ <=? _); [done|]. injection E as <-.
    apply (shut_pods i (update_pod (ob_num_pods o) (fresh_pod conn now (ob_workers o)) o)); [done|]. by apply shut_update.
Qed.

Lemma shut_control i o io : tidy o -> (forall c, ob_control o = Some c -> ssl_ok c) -> shut i o ->
  shut i (dmesh_local_control_progress local_server (ob_control o) o io).1.2.
Proof.
  intros Ht Hc Hs. destruct (ob_control o) as [c|] eqn:Ec; [|done]. destruct (progress_some local_server c o io) as (r & c' & o' & es & E). rewrite E. cbn [fst snd].
  apply progress_owner in E as [_ E]; [|by apply Hc]. destruct E as [[_ [->|[q ->]]]|[[_ ->]|(_ & _ & ->)]]; cbn [lo_dispatch lo_retire local_server]; try done.
  - pose proof (dispatch_lesser o q Ht) as Hl. destruct (server_local_dispatch o q) as [[? ?] ?]. by eapply shut_lesser.
  - eapply shut_lesser; [by apply retire_lesser|done].
Qed.

(** Every event keeps a shut slot shut, unless it gives it away. *)
Lemma apply_shut C ids e s i : server_inv C s.1 s.2 -> permitted ids e s.1 = true -> spares i e s.1 -> shut i s.1 -> shut i (server_apply C e s).1.
Proof.
  destruct s as [o v]. cbn [fst snd]. intros H Hp Hsp Hs. pose proof (inv_tidy _ _ _ H) as Ht. pose proof (inv_challenged _ _ _ H) as Hc. pose proof (inv_sizes _ _ _ H) as (S1 & S2 & S3 & S4).
  destruct e; cbn [server_apply fst snd].
  - apply permitted_unknown in Hp. unfold server_connection_event. cbn [spares] in Hsp. destruct (pods_add_connection conn now_ns o) as [[] o1] eqn:Ea; cbn [negb fst] in *; [|by rewrite (add_refused _ _ _ _ Ea)].
    pose proof (shut_add i conn now_ns o o1 (Hsp eq_refl) Ea Hs) as Hs1. pose proof (add_inv C o v conn now_ns o1 H Hp Ea) as Hi1.
    destruct (find_pod_by_connection o1 conn) as [j|]; [|done].
    pose proof (quiet_lesser _ _ (challenge_quiet j random send_ok o1 (fun p => challenged_at o1 j p (inv_challenged _ _ _ Hi1)))) as Hl.
    destruct (server_send_registration_challenge j random send_ok o1) as [[b o2] e]. by eapply shut_lesser.
  - eapply shut_lesser; [apply remove_lesser|done].
  - destruct (registration_accept_assertion C conn m now_sec o) as [b o'] eqn:E. cbn [fst].
    destruct (assertion_cases _ _ _ _ _ _ _ S3 E) as [[-> ->]|(-> & j & p & s & o1 & [(_ & Hj & _) Hw _ _ [Hok _] Hl] & ->)]; [done|].
    destruct (lifecycle_cases _ _ _ _ _ (generation_positive _ Hok) S3 Hl) as [[? _]|(_ & _ & gens & -> & _)]; [done|].
    apply shut_update; [|done]. intros -> q Hq. assert (q = p) as -> by (cbn in Hq; congruence).
    unfold awaiting_assertion in Hw. by rewrite !andb_true_iff, !negb_true_iff in Hw; destruct Hw as ((((_ & ?) & _) & _) & _).
  - destruct (handler_cases network conn wanted name o S4) as [->|(j & p & r & sid & [(_ & Hj & _) _ Hm _ _ _] & ->)]; [done|]. apply shut_update; [|done].
    intros -> q Hq. assert (q = p) as -> by (cbn in Hq; congruence). unfold may_register in Hm.
    rewrite !andb_true_iff, !negb_true_iff in Hm. by destruct Hm as ((((_ & ?) & _) & _) & _).
  - eapply shut_lesser; [apply unregister_lesser|done].
  - eapply shut_lesser; [by apply progress_cleanup_lesser|done].
  - eapply shut_lesser; [by apply quiet_lesser, flush_quiet|done].
  - eapply shut_lesser; [apply quiet_lesser, publish_init_quiet|done].
  - eapply shut_lesser; [apply quiet_lesser, scope_refresh_quiet|done].
  - eapply shut_lesser; [apply update_lesser; intros p _; apply engine_weaker|done].
  - pose proof (shut_control i o io Ht (fun c Ec Ha => si_control _ _ _ H c Ec Ha) Hs) as Hs'. by destruct (dmesh_local_control_progress _ _ _ _) as [[[? ?] ?] ?].
  - done.
  - done.
Qed.

(** Later states, while no new connection takes the slot. *)
Definition later (C : crypto) (ids : Z -> bool) (i : nat) : server_state -> server_state -> Prop :=
  rtc (fun s s' => exists e, permitted ids e s.1 = true /\ spares i e s.1 /\ s' = server_apply C e s).

Lemma later_shut C ids i s s' : later C ids i s s' -> server_inv C s.1 s.2 -> shut i s.1 -> shut i s'.1.
Proof.
  induction 1 as [s|s s1 s' (e & Hp & Hsp & ->) _ IH]; intros H Hs; [done|]. apply IH; [by eapply apply_inv|by eapply apply_shut].
Qed.

Lemma close_shut i o p : tidy o -> ob_pods o !! i = Some p -> shut i (local_registration_close i o).1.
Proof.
  intros Ht Hp. pose proof (close_lesser i o Ht) as Hl. destruct (close_state i o) as (o1 & _ & Eo & Ec). rewrite Ec in *.
  assert (ob_pods (update_pod i close_pod o1) !! i = Some (close_pod p)) as Hp' by (apply update_here; by rewrite Eo). exists (close_pod p). split; [done|].
  assert (ps_closed (close_pod p) = true) as Hc by (unfold close_pod; by destruct (_ && _)). split; [done|]. apply not_true_iff_false. intros Hr.
  unfold close_pod in Hr. destruct (_ && _) eqn:E in Hr; [done|]. cbn in Hr. rewrite Hr, orb_true_r in E. cbn in E. apply negb_false_iff in E.
  unfold tidy in Ht. rewrite Forall_lookup in Ht. rewrite (Ht i p Hp E) in Hr. done.
Qed.


(** The paired host unregisters the workload of the run. *)
Definition demo_farewell : list byte := [x03] ++ repeat x00 7 ++ encode 1 8 ++ demo_session ++ demo_nonce 1.

Lemma triple_eta {A B D} (x : A * B * D) : x = (x.1.1, x.1.2, x.2).
Proof. by destruct x as [[? ?] ?]. Qed.

Lemma demo_named : first_slot (names_connection (req_connection_id demo_farewell)) demo_objects = Some 0%nat.
Proof. vm_compute. reflexivity. Qed.
Lemma demo_up : ob_shutting_down demo_objects = false.
Proof. vm_compute. reflexivity. Qed.

Definition demo_closed : server_state := ((server_local_dispatch demo_objects demo_farewell).1.2, (run_of (fun _ => true) demo_events).2).


(** ** Resolution *)

Lemma char_eq_no c d : char_eq c d = false <-> c <> d.
Proof. by destruct (char_eq_spec c d). Qed.

Lemma resolve_dns_label_spec l : resolve_dns_label l = true <-> dns_label l /\ (length l <= 63)%nat.
Proof.
  unfold resolve_dns_label, dns_label. destruct l as [|b l]; [cbn; split; [done|by intros [[? _] _]]|]. destruct (last (b :: l)) as [z|] eqn:El; [|by apply last_None in El].
  cbn [head]. rewrite !andb_true_iff, !negb_true_iff, Nat.leb_le, !char_eq_no, forallb_forall, Forall_forall. setoid_rewrite list_elem_of_In.
  unfold span_dns_label_char. split.
  - intros (((? & ?) & ?) & Hall). split; [|done]. split_and!; [done|exact Hall|congruence|congruence].
  - intros ((? & Hall & ? & ?) & ?). split_and!; [done|congruence|congruence|exact Hall].
Qed.

(** A query names a Service: in the asker's namespace, or with the namespace after
    a dot. *)
Definition names_service (namespace query ns name : list byte) : Prop :=
  (dns_label ns /\ (length ns <= 63)%nat) /\ (dns_label name /\ (length name <= 63)%nat) /\
  ((cstr query = name /\ ns = cstr namespace) \/ cstr query = name ++ "."%byte :: ns).

Lemma label_no_dot l : dns_label l -> "."%byte ∉ l.
Proof. intros (_ & Hc & _) Hin. rewrite Forall_forall in Hc. by specialize (Hc _ Hin). Qed.

Lemma drop_past {A} (a : list A) c r : drop (S (length a)) (a ++ c :: r) = r.
Proof. by induction a. Qed.

Lemma resolve_key_spec namespace query key : dmesh_resolve_service_key namespace query SERVICE_KEY_SIZE = Some key <->
  exists ns name, names_service namespace query ns name /\ key = ns ++ "/"%byte :: name.
Proof.
  unfold dmesh_resolve_service_key, names_service. cbn zeta. set (q := cstr query). split.
  - destruct (memchr q ".") as [dot|] eqn:Ed.
    + apply memchr_Some in Ed as (r & Hq & Hl & Hn & Hr). rewrite Hr. destruct (resolve_dns_label (take dot q)) eqn:E1; [|by rewrite orb_true_r].
      destruct (resolve_dns_label r) eqn:E2; [|by rewrite orb_true_r]. destruct (_ || _); [done|]. intros [= <-].
      apply resolve_dns_label_spec in E1, E2. exists r, (take dot q). split; [|done]. split; [done|]. split; [done|]. by right.
    + cbn [orb]. destruct (resolve_dns_label q) eqn:E1; [|by rewrite orb_true_r]. destruct (resolve_dns_label (cstr namespace)) eqn:E2; [|by rewrite orb_true_r].
      destruct (_ || _); [done|]. intros [= <-]. apply resolve_dns_label_spec in E1, E2. exists (cstr namespace), q. split; [|done]. split; [done|]. split; [done|]. by left.
  - intros (ns & name & (L1 & L2 & Hq) & ->). pose proof (proj2 L1) as N1. pose proof (proj2 L2) as N2.
    assert (memchr ns "." = None /\ memchr name "." = None) as [M1 M2] by (rewrite !memchr_None; split; apply label_no_dot; [apply L1|apply L2]).
    apply resolve_dns_label_spec in L1, L2. assert ((SERVICE_KEY_SIZE <? length ns + 1 + length name + 1)%nat = false) as Hlen by (apply Nat.ltb_ge; change SERVICE_KEY_SIZE with 128%nat; lia).
    destruct Hq as [[Eq En]|Eq]; rewrite Eq.
    + rewrite M2, <-En, L1, L2, Hlen. done.
    + rewrite (memchr_app "." name ns) by (by apply memchr_None). rewrite take_app_length.
      rewrite drop_past, M1, L1, L2, Hlen. done.
Qed.

Lemma service_key_split s : service_key s -> exists ns name, s = ns ++ "/"%byte :: name /\ ("/"%byte ∉ ns) /\ dns_label ns /\ dns_label name /\
  default O (memchr s "/") = length ns.
Proof.
  intros (ns & name & -> & (H1 & Hc & H2) & Hn & _). exists ns, name. assert ("/"%byte ∉ ns) as Hf by (by apply slash_free). split_and!; try done.
  by rewrite (memchr_app "/" ns name).
Qed.

(** It splits in one way only. *)
Lemma key_parts ns name ns' name' : service_key (ns ++ "/"%byte :: name) -> ns ++ "/"%byte :: name = ns' ++ "/"%byte :: name' -> ns = ns' /\ name = name'.
Proof.
  intros (n0 & m0 & E0 & (_ & C1 & _) & (_ & C2 & _) & _) E.
  assert (forall a b, n0 ++ "/"%byte :: m0 = a ++ "/"%byte :: b -> length a = length n0) as Hl.
  { intros a b Ea. assert ((n0 ++ "/"%byte :: m0) !! length a = Some "/"%byte) as Hx by (rewrite Ea; by apply list_lookup_middle).
    apply lookup_app_Some in Hx as [Hx|[Hle Hx]]; [by apply slash_free in C1; destruct C1; eapply list_elem_of_lookup_2|].
    destruct (length a - length n0)%nat as [|k] eqn:Ek; [lia|]. cbn in Hx. apply slash_free in C2. destruct C2. by eapply list_elem_of_lookup_2. }
  assert (length ns = length ns') as El by (rewrite (Hl ns name) by done; rewrite E in E0; by rewrite (Hl ns' name')).
  apply app_inj_1 in E as [-> E]; [|done]. by injection E as ->.
Qed.

(** The answer that names a Service. *)
Definition ack_names (o : objects) (tb : dmesh_topology_tables) (s : dmesh_gen_service) (a : dmesh_resolve_ack) : Prop :=
  ra_status a = 0 /\ ra_svc a = gs_interned s /\ ra_generation a = tt_version tb /\ gs_key s = ra_namespace a ++ "/"%byte :: ra_service a.

Lemma resolve_ack_cases o tb rs p req : holding (ob_topology o) tb rs ->
  match resolve_lookup o p req with
  | Some s => if (0 <=? gs_interned s) && ((rm_by_name req =? 1) || service_served o (gs_interned s))
              then s ∈ tt_services tb -> ack_names o tb s (resolve_ack o p req) else resolve_ack o p req = ResolveAck 1 (-1) (tt_version tb) [] []
  | None => resolve_ack o p req = ResolveAck 1 (-1) (tt_version tb) [] []
  end.
Proof.
  intros H. unfold resolve_ack. rewrite (hd_tables _ _ _ H). destruct (resolve_lookup o p req) as [s|]; [|done]. destruct (_ && _); [|done].
  intros Hs. destruct (held_service_key _ _ _ H s Hs) as [Hk _]. destruct (service_key_split _ Hk) as (ns & name & Ek & _ & _ & _ & ->).
  split_and!; try done. cbn. by rewrite Ek, take_app_length, drop_past.
Qed.

Lemma lookup_name o tb rs p req s : holding (ob_topology o) tb rs -> rm_by_name req = 1 ->
  resolve_lookup o p req = Some s <->
  s ∈ tt_services tb /\ exists ns name, names_service (ps_namespace p) (rm_name req) ns name /\ gs_key s = ns ++ "/"%byte :: name.
Proof.
  intros H Eb. unfold resolve_lookup. rewrite (hd_tables _ _ _ H), Eb. cbn [mbind option_bind Z.eqb Pos.eqb].
  assert (forall ns name, names_service (ps_namespace p) (rm_name req) ns name -> cstr (ns ++ "/"%byte :: name) = ns ++ "/"%byte :: name) as Hc.
  { intros ns name ((L1 & N1) & (L2 & N2) & _). apply plain_cstr, service_key_plain. by exists ns, name. }
  split.
  - destruct (dmesh_resolve_service_key _ _ _) as [key|] eqn:Ek; [|done]. cbn [mbind option_bind]. apply resolve_key_spec in Ek as (ns & name & Hn & ->).
    intros [Hs Eg]%(service_found _ _ _ H). split; [done|]. exists ns, name. rewrite Eg. by rewrite Hc.
  - intros (Hs & ns & name & Hn & Eg). rewrite (proj2 (resolve_key_spec (ps_namespace p) (rm_name req) (ns ++ "/"%byte :: name))) by (by exists ns, name).
    cbn [mbind option_bind]. apply (service_found _ _ _ H). rewrite Hc; done.
Qed.

Lemma lookup_held o tb rs p req s : holding (ob_topology o) tb rs -> resolve_lookup o p req = Some s -> s ∈ tt_services tb.
Proof.
  intros H. destruct (Z.eqb_spec (rm_by_name req) 1) as [Eb|Eb].
  - by intros [? _]%(lookup_name _ _ _ _ _ _ H Eb).
  - unfold resolve_lookup. rewrite (hd_tables _ _ _ H). cbn [mbind option_bind]. destruct (Z.eqb_spec (rm_by_name req) 1); [done|].
    intros ([i x] & (Hx & _ & _)%list_find_Some & ->)%fmap_Some. by eapply list_elem_of_lookup_2.
Qed.

(** A registration under a Service name of the workload's own namespace. *)
Lemma registered_id o tb rs p name id : holding (ob_topology o) tb rs -> names_service (ps_namespace p) name (cstr (ps_namespace p)) (cstr name) ->
  registered_service_id o p name = Some id <->
  0 <= id /\ exists s, s ∈ tt_services tb /\ gs_key s = cstr (ps_namespace p) ++ "/"%byte :: cstr name /\ gs_interned s = id.
Proof.
  intros H ((L1 & N1) & (L2 & N2) & _). unfold registered_service_id. rewrite bool_decide_false by (by destruct L2).
  assert (service_key_of (ps_namespace p) name = cstr (ps_namespace p) ++ "/"%byte :: cstr name) as Ek.
  { unfold service_key_of. rewrite !take_ge by (unfold DMESH_K8S_NAMESPACE_MAX, DMESH_SVC_NAME_MAX; lia). done. }
  rewrite Ek. clear Ek. set (key := cstr (ps_namespace p) ++ "/"%byte :: cstr name).
  assert (cstr key = key) as Hc by (apply plain_cstr, service_key_plain; by exists (cstr (ps_namespace p)), (cstr name)).
  destruct (Z.ltb_spec (dmesh_topology_interned_id (ob_topology o) (Some key)) 0) as [Hn|Hn].
  - split; [done|]. intros [Hid Hs]. rewrite <-Hc in Hs. apply (interned_as _ _ _ _ _ H Hid) in Hs. lia.
  - split; [intros [= <-]; split; [done|]|].
    + destruct (proj1 (interned_as _ _ _ key _ H Hn) eq_refl) as (s & Hs & Eg & Ei). rewrite Hc in Eg. by exists s.
    + intros [Hid Hs]. rewrite <-Hc in Hs. apply (interned_as _ _ _ _ _ H Hid) in Hs. by rewrite Hs.
Qed.

Lemma resolve_answer o tb rs p req id gen ns name : holding (ob_topology o) tb rs ->
  resolve_ack o p req = ResolveAck 0 id gen ns name <->
  gen = tt_version tb /\ 0 <= id /\ (rm_by_name req = 1 \/ service_served o id = true) /\
  exists s, resolve_lookup o p req = Some s /\ gs_interned s = id /\ gs_key s = ns ++ "/"%byte :: name.
Proof.
  intros H. pose proof (resolve_ack_cases o tb rs p req H) as Hc. split.
  - intros E. destruct (resolve_lookup o p req) as [s|] eqn:El; [|congruence]. destruct (_ && _) eqn:Eb in Hc; [|congruence].
    specialize (Hc (lookup_held _ _ _ _ _ _ H El)). rewrite E in Hc. destruct Hc as (_ & E1 & E2 & E3). cbn in E1, E2, E3. subst.
    apply andb_true_iff in Eb as [E1%Z.leb_le E2]. rewrite orb_true_iff, Z.eqb_eq in E2. split_and!; try done. by exists s.
  - intros (-> & Hid & Hv & s & El & Ei & Ek). rewrite El in Hc. subst id. pose proof (lookup_held _ _ _ _ _ _ H El) as Hs. revert Hc.
    rewrite (proj2 (Z.leb_le _ _) Hid). cbn [andb]. assert (((rm_by_name req =? 1) || service_served o (gs_interned s)) = true) as -> by (by rewrite orb_true_iff, Z.eqb_eq).
    intros Hc. specialize (Hc Hs). destruct (resolve_ack o p req). destruct Hc as (E1 & E2 & E3 & E4). cbn in *. subst.
    destruct (held_service_key _ _ _ H s Hs) as [Hk _]. rewrite E4 in Hk, Ek. destruct (key_parts _ _ _ _ Hk Ek) as [-> ->]. done.
Qed.

Lemma names_service_unique namespace query ns name ns' name' :
  names_service namespace query ns name -> names_service namespace query ns' name' -> ns = ns' /\ name = name'.
Proof.
  intros H H'. assert (forall a b, names_service namespace query a b -> dmesh_resolve_service_key namespace query SERVICE_KEY_SIZE = Some (a ++ "/"%byte :: b)) as Hk.
  { intros a b Ha. apply resolve_key_spec. by exists a, b. }
  pose proof (Hk _ _ H) as E. rewrite (Hk _ _ H') in E. injection E as E. destruct H as ((L1 & N1) & (L2 & N2) & _).
  apply key_parts; [|done]. by exists ns, name.
Qed.

(** C31: resolution is exact.  A query by name is answered with a Service exactly when it
    names one that the held generation has and that has an id: [name] in the
    asker's namespace, or [name.namespace].  A query by address is answered with
    the first Service at that address and port, if it has an id and is served
    here or elsewhere.  Any other query gets the refusal, which carries no id.
    And a name resolves to the id that a workload of the same namespace gets when
    it registers under that name. *)
Theorem resolve_exact o tb rs p req (H : holding (ob_topology o) tb rs) :
  (rm_by_name req = 1 -> forall id gen ns name, resolve_ack o p req = ResolveAck 0 id gen ns name <->
     gen = tt_version tb /\ names_service (ps_namespace p) (rm_name req) ns name /\ 0 <= id /\
     exists s, s ∈ tt_services tb /\ gs_key s = ns ++ "/"%byte :: name /\ gs_interned s = id) /\
  (rm_by_name req <> 1 -> forall id gen ns name, resolve_ack o p req = ResolveAck 0 id gen ns name <->
     gen = tt_version tb /\ 0 <= id /\ service_served o id = true /\
     exists i s, tt_services tb !! i = Some s /\ (gs_cluster_ip_be s = rm_ipv4 req /\ gs_port s = rm_port req) /\
       (forall j s', tt_services tb !! j = Some s' -> (j < i)%nat -> ~ (gs_cluster_ip_be s' = rm_ipv4 req /\ gs_port s' = rm_port req)) /\
       gs_key s = ns ++ "/"%byte :: name /\ gs_interned s = id) /\
  (ra_status (resolve_ack o p req) <> 0 -> resolve_ack o p req = ResolveAck 1 (-1) (tt_version tb) [] []) /\
  (rm_by_name req = 1 -> forall id, names_service (ps_namespace p) (rm_name req) (cstr (ps_namespace p)) (cstr (rm_name req)) ->
     registered_service_id o p (rm_name req) = Some id <-> ra_status (resolve_ack o p req) = 0 /\ ra_svc (resolve_ack o p req) = id).
Proof.
  split_and!.
  - intros Eb id gen ns name. rewrite (resolve_answer o tb rs p req id gen ns name H). split.
    + intros (-> & Hid & _ & s & Hl & Ei & Ek). apply (lookup_name _ _ _ _ _ _ H Eb) in Hl as (Hs & ns' & name' & Hn & Ek').
      destruct (held_service_key _ _ _ H s Hs) as [Hk _]. rewrite Ek' in Hk, Ek. destruct (key_parts _ _ _ _ Hk Ek) as [-> ->]. split_and!; try done. by exists s.
    + intros (-> & Hn & Hid & s & Hs & Ek & Ei). split_and!; auto. exists s. split_and!; try done. apply (lookup_name _ _ _ _ _ _ H Eb). split; [done|]. by exists ns, name.
  - intros Eb id gen ns name. rewrite (resolve_answer o tb rs p req id gen ns name H).
    assert (forall s, resolve_lookup o p req = Some s <-> exists i, list_find (fun s => gs_cluster_ip_be s = rm_ipv4 req /\ gs_port s = rm_port req) (tt_services tb) = Some (i, s)) as Hf.
    { intros s. unfold resolve_lookup. rewrite (hd_tables _ _ _ H). cbn [mbind option_bind]. destruct (Z.eqb_spec (rm_by_name req) 1); [done|]. rewrite fmap_Some. split.
      - intros ([i x] & E & ->). by exists i.
      - intros [i E]. by exists (i, s). }
    split.
    + intros (-> & Hid & Hv & s & (i & E)%Hf & Ei & Ek). apply list_find_Some in E as (E1 & E2 & E3). split_and!; try done; [by destruct Hv|].
      exists i, s. split; [done|]. split; [done|]. split; [|done]. intros j s' Hj Hlt. by apply (E3 j s').
    + intros (-> & Hid & Hv & i & s & E1 & E2 & E3 & Ek & Ei). split_and!; auto. exists s. split_and!; try done. apply Hf. exists i. apply list_find_Some.
      split; [done|]. split; [done|]. intros j s' Hj Hlt. by apply (E3 j s').
  - intros Hne. pose proof (resolve_ack_cases o tb rs p req H) as Hc. destruct (resolve_lookup o p req) as [s|] eqn:El; [|done]. destruct (_ && _) in Hc; [|done].
    destruct (Hc (lookup_held _ _ _ _ _ _ H El)) as [E _]. done.
  - intros Eb id Hn. rewrite (registered_id o tb rs p (rm_name req) id H Hn). split.
    + intros (Hid & s & Hs & Ek & Ei). rewrite (proj2 (resolve_answer o tb rs p req id (tt_version tb) (cstr (ps_namespace p)) (cstr (rm_name req)) H)); [done|].
      split_and!; auto. exists s. split_and!; try done. apply (lookup_name _ _ _ _ _ _ H Eb). split; [done|]. by exists (cstr (ps_namespace p)), (cstr (rm_name req)).
    + intros [E1 E2]. destruct (resolve_ack o p req) as [st sv gen ns name] eqn:E. cbn in E1, E2. subst st sv.
      apply (resolve_answer o tb rs p req id gen ns name H) in E as (-> & Hid & _ & s & Hl & Ei & Ek).
      apply (lookup_name _ _ _ _ _ _ H Eb) in Hl as (Hs & ns' & name' & Hn' & Ek'). split; [done|]. exists s. split_and!; try done. rewrite Ek'.
      by destruct (names_service_unique _ _ _ _ _ _ Hn Hn') as [-> ->].
Qed.

Definition demo_node : objects := server_start (Some (txt "prod")) (Some (txt "node-a")) demo_adopted None (ScopeConfig [] 0) 8 1 1.
Definition demo_asker : pod_state := unused_pod <| ps_namespace := txt "shop" |>.

Lemma resolve_exact_witness : exists s, s ∈ tt_services demo_tables /\ gs_key s = txt "shop" ++ "/"%byte :: txt "web" /\ gs_interned s = 0.
Proof.
  destruct demo_holding as [rs H]. destruct (resolve_exact demo_node demo_tables rs demo_asker (ResolveMsg 1 1 0 0 0 0 (field_text 64 (txt "web"))) H) as (H1 & _).
  destruct (proj1 (H1 eq_refl 0 5 (txt "shop") (txt "web")) ltac:(vm_compute; reflexivity)) as (_ & _ & _ & Hs). exact Hs.
Defined.
