(* ===== verification/PyText.v ===== *)
(** * Python text

    The operations on [str] that the control plane's programs use, on ASCII text
    as the list of its characters, with regular expressions under [fullmatch], the
    insertion-ordered [dict], and results that may be exceptions. *)

From S2P Require Import Prelude Text Spans.

Abbreviation text := (list byte).

(** ** Exceptions *)

(** The exceptions the handlers of the sources tell apart: the program's own
    error, those of the system, and all others. *)
Inductive py_exn := OwnError | OSError | ValueError.
#[export] Instance py_exn_dec : EqDecision py_exn.
Proof. solve_decision. Defined.

Definition result (A : Type) : Type := py_exn + A.
#[export] Instance result_ret : MRet result := fun A x => inr x.
#[export] Instance result_bind : MBind result :=
  fun A B f r => match r with inl e => inl e | inr x => f x end.
Definition raise {A} (e : py_exn) : result A := inl e.
Definition raise_if (b : bool) (e : py_exn) : result unit := if b then inl e else inr tt.
Definition or_raise {A} (o : option A) (e : py_exn) : result A := match o with Some x => inr x | None => inl e end.

Lemma bind_inr {A B} (f : A -> result B) r y : (r ≫= f) = inr y <-> exists x, r = inr x /\ f x = inr y.
Proof. destruct r as [e|x]; cbn; split; [done|by intros (? & ? & _)|by exists x|by intros (? & [= <-] & ?)]. Qed.
Lemma raise_if_inr b e x : raise_if b e = inr x <-> b = false.
Proof. destruct x. by destruct b. Qed.
Lemma or_raise_inr {A} (o : option A) e x : or_raise o e = inr x <-> o = Some x.
Proof. destruct o; cbn; naive_solver. Qed.

(** ** Characters and strings *)

Definition alnum (c : byte) : bool := in_range "a" "z" c || in_range "0" "9" c.
Definition py_space (c : byte) : bool := in_range x09 x0d c || in_range x1c x20 c.
Definition is_ascii (c : byte) : bool := b2z c <? 128.

(** [s.encode("ascii")], [b.decode("ascii")] *)
Definition py_ascii (s : text) : result text := if forallb is_ascii s then inr s else inl ValueError.

(** [s.isdigit()] *)
Definition isdigit (s : text) : bool := bool_decide (s <> []) && forallb is_digit s.

Fixpoint lstrip (s : text) : text :=
  match s with c :: s' => if py_space c then lstrip s' else s | [] => [] end.
Definition rstrip (s : text) : text := reverse (lstrip (reverse s)).
Definition strip (s : text) : text := rstrip (lstrip s).

(** [s.split()] *)
Fixpoint words_from (word : text) (s : text) : list text :=
  match s with
  | [] => if bool_decide (word = []) then [] else [word]
  | c :: s' =>
      if py_space c then (if bool_decide (word = []) then words_from [] s' else word :: words_from [] s')
      else words_from (word ++ [c]) s'
  end.
Definition words (s : text) : list text := words_from [] s.

(** [s.splitlines()] *)
Definition line_end (c : byte) : bool := in_range x0a x0d c || in_range x1c x1e c.
Fixpoint lines_from (line : text) (s : text) : list text :=
  match s with
  | [] => if bool_decide (line = []) then [] else [line]
  | c :: s' =>
      if negb (line_end c) then lines_from (line ++ [c]) s'
      else line :: match s' with
                   | d :: s'' => if char_eq c x0d && char_eq d x0a then lines_from [] s'' else lines_from [] s'
                   | [] => []
                   end
  end.
Definition splitlines (s : text) : list text := lines_from [] s.

(** [s.partition(c)]: the parts, and whether the separator was found. *)
Definition partition (c : byte) (s : text) : text * bool * text :=
  match memchr s c with
  | Some i => (take i s, true, drop (S i) s)
  | None => (s, false, [])
  end.
(** [s.rpartition(c)[2]] *)
Definition after_last (c : byte) (s : text) : text := default [] (last (split_on c s)).
(** [s.split(c, 1)[0]] *)
Definition before_first (c : byte) (s : text) : text := (partition c s).1.1.
(** [s[len(p):]] of a string that starts with [p], if it does. *)
Definition suffix_of (p s : text) : option text := if starts p s then Some (drop (length p) s) else None.

(** [int(s)]: white space around, a sign, digits with single underscores between. *)
Definition py_int (s : text) : option Z :=
  let s := strip s in
  let (negative, s) :=
    match s with
    | c :: s' => if char_eq c "-" then (true, s') else if char_eq c "+" then (false, s') else (false, s)
    | [] => (false, s)
    end in
  let pieces := split_on "_" s in
  if forallb isdigit pieces then let v := undecimal (concat pieces) 0 in Some (if negative then - v else v) else None.

(** [str.join] of lines each followed by a newline. *)
Definition py_lines (ls : list text) : text := concat ((fun l => l ++ [NL]) <$> ls).

(** The order of strings, by code points. *)
Fixpoint text_leb (a b : text) : bool :=
  match a, b with
  | [], _ => true
  | _ :: _, [] => false
  | x :: a', y :: b' => if b2z x <? b2z y then true else if b2z y <? b2z x then false else text_leb a' b'
  end.
Definition text_le (a b : text) : Prop := text_leb a b = true.
#[export] Instance text_le_dec : RelDecision text_le.
Proof. intros a b. unfold text_le. apply _. Defined.

Lemma forallb_spec {A} (f : A -> bool) l : forallb f l = true <-> Forall (fun x => f x = true) l.
Proof. rewrite List.forallb_forall, List.Forall_forall. done. Qed.

Lemma isdigit_spec s : isdigit s = true <-> s <> [] /\ Forall (fun c => is_digit c = true) s.
Proof. unfold isdigit. by rewrite andb_true_iff, bool_decide_eq_true, forallb_spec. Qed.

(** ** Dictionaries *)

Definition dict (A : Type) : Type := list (text * A).
Definition dict_get {A} (d : dict A) (k : text) : option A := (fun x => snd (snd x)) <$> list_find (fun e => e.1 = k) d.
Fixpoint dict_set {A} (k : text) (v : A) (d : dict A) : dict A :=
  match d with
  | [] => [(k, v)]
  | (k', v') :: d' => if bool_decide (k' = k) then (k', v) :: d' else (k', v') :: dict_set k v d'
  end.

(** ** Regular expressions *)

Inductive regex :=
  | Void
  | Eps
  | Chr (p : byte -> bool)
  | Seq (r s : regex)
  | Alt (r s : regex)
  | Star (r : regex).

Inductive matches : regex -> text -> Prop :=
  | m_eps : matches Eps []
  | m_chr p c : p c = true -> matches (Chr p) [c]
  | m_seq r s a b : matches r a -> matches s b -> matches (Seq r s) (a ++ b)
  | m_left r s a : matches r a -> matches (Alt r s) a
  | m_right r s a : matches s a -> matches (Alt r s) a
  | m_stop r : matches (Star r) []
  | m_more r a b : matches r a -> matches (Star r) b -> matches (Star r) (a ++ b).

(** [(r)?], [r{n}] and [r{0,n}] *)
Definition Opt (r : regex) : regex := Alt r Eps.
Fixpoint Times (n : nat) (r : regex) : regex := match n with O => Eps | S n' => Seq r (Times n' r) end.
Fixpoint UpTo (n : nat) (r : regex) : regex := match n with O => Eps | S n' => Opt (Seq r (UpTo n' r)) end.
Definition Lit (c : byte) : regex := Chr (fun d => char_eq d c).

Fixpoint nullable (r : regex) : bool :=
  match r with
  | Void | Chr _ => false
  | Eps | Star _ => true
  | Seq r s => nullable r && nullable s
  | Alt r s => nullable r || nullable s
  end.

Definition seq_ (r s : regex) : regex :=
  match r with Void => Void | Eps => s | _ => match s with Void => Void | _ => Seq r s end end.
Definition alt_ (r s : regex) : regex :=
  match r with Void => s | _ => match s with Void => r | _ => Alt r s end end.

(** What may follow the character [c]. *)
Fixpoint deriv (c : byte) (r : regex) : regex :=
  match r with
  | Void | Eps => Void
  | Chr p => if p c then Eps else Void
  | Seq r s => alt_ (seq_ (deriv c r) s) (if nullable r then deriv c s else Void)
  | Alt r s => alt_ (deriv c r) (deriv c s)
  | Star r => seq_ (deriv c r) (Star r)
  end.

Fixpoint fullmatch (r : regex) (s : text) : bool :=
  match s with [] => nullable r | c :: s' => fullmatch (deriv c r) s' end.

(** *** [fullmatch] decides [matches] *)

Lemma matches_void s : ~ matches Void s.
Proof. inversion 1. Qed.
Lemma matches_eps s : matches Eps s <-> s = [].
Proof. split; [by inversion 1|intros ->; constructor]. Qed.
Lemma matches_chr p s : matches (Chr p) s <-> exists c, s = [c] /\ p c = true.
Proof. split; [inversion 1; eauto|intros (c & -> & ?); by constructor]. Qed.
Lemma matches_seq r s x : matches (Seq r s) x <-> exists a b, x = a ++ b /\ matches r a /\ matches s b.
Proof. split; [inversion 1; eauto 6|intros (a & b & -> & ? & ?); by constructor]. Qed.
Lemma matches_alt r s x : matches (Alt r s) x <-> matches r x \/ matches s x.
Proof. split; [inversion 1; eauto|intros [?|?]; by constructor]. Qed.

Lemma matches_nil r : nullable r = true <-> matches r [].
Proof.
  induction r; cbn [nullable]; rewrite ?andb_true_iff, ?orb_true_iff.
  - split; [done|]. intros []%matches_void.
  - by rewrite matches_eps.
  - rewrite matches_chr. split; [done|by intros (? & ? & _)].
  - rewrite matches_seq, IHr1, IHr2. split.
    + intros [? ?]. by exists [], [].
    + intros (a & b & E & ? & ?). symmetry in E. by apply app_eq_nil in E as [-> ->].
  - by rewrite matches_alt, IHr1, IHr2.
  - split; [constructor|done].
Qed.

Lemma matches_star_cons r c s : matches (Star r) (c :: s) <-> exists a b, s = a ++ b /\ matches r (c :: a) /\ matches (Star r) b.
Proof.
  split.
  - intros H. remember (Star r) as q eqn:Eq. remember (c :: s) as x eqn:Ex. revert c s Ex. induction H; intros c' s' Ex; try done.
    injection Eq as ->. destruct a as [|d a]; cbn [app] in Ex; [by apply IHmatches2|].
    injection Ex as -> <-. by exists a, b.
  - intros (a & b & -> & Ha & Hb). by apply (m_more r (c :: a) b).
Qed.

Lemma matches_seq_ r s x : matches (seq_ r s) x <-> matches (Seq r s) x.
Proof.
  assert (forall y, ~ matches (Seq r Void) y) as Hv by (intros y (a & b & _ & _ & []%matches_void)%matches_seq).
  destruct r; cbn [seq_];
    try (destruct s; try done; split; [by intros []%matches_void|by intros []%Hv]).
  - split; [by intros []%matches_void|]. intros (a & b & _ & []%matches_void & _)%matches_seq.
  - rewrite matches_seq. split; [intros H; by exists [], x; repeat split; [constructor|]|].
    intros (a & b & -> & ->%matches_eps & H). done.
Qed.

Lemma matches_alt_ r s x : matches (alt_ r s) x <-> matches (Alt r s) x.
Proof.
  rewrite matches_alt. pose proof (matches_void x) as Hv.
  destruct r; cbn [alt_]; [tauto|..]; (destruct s; [tauto|..]); by rewrite matches_alt.
Qed.

Lemma matches_deriv c r s : matches (deriv c r) s <-> matches r (c :: s).
Proof.
  revert s. induction r; intros x; cbn [deriv].
  - split; intros []%matches_void.
  - rewrite matches_eps. split; [intros []%matches_void|done].
  - rewrite matches_chr. destruct (p c) eqn:E.
    + rewrite matches_eps. split; [intros ->; eauto|]. intros (d & [= -> ->] & _). done.
    + split; [intros []%matches_void|]. intros (d & [= -> ->] & ?). congruence.
  - rewrite matches_alt_, matches_alt, matches_seq_, !matches_seq. split.
    + intros [(a & b & -> & H1%IHr1 & H2)|H]; [by exists (c :: a), b|].
      destruct (nullable r1) eqn:En; [|by apply matches_void in H]. apply matches_nil in En. exists [], (c :: x). by rewrite <-IHr2.
    + intros ([|d a] & b & E & H1 & H2).
      * right. cbn [app] in E. subst b. rewrite (proj2 (matches_nil r1) H1). by apply IHr2.
      * left. injection E as <- ->. exists a, b. by rewrite IHr1.
  - rewrite matches_alt_, !matches_alt. by rewrite IHr1, IHr2.
  - rewrite matches_seq_, matches_seq, matches_star_cons. split; intros (a & b & ? & H & ?); exists a, b; by rewrite IHr in *.
Qed.

Lemma fullmatch_spec r s : fullmatch r s = true <-> matches r s.
Proof.
  revert r. induction s as [|c s IH]; intros r; cbn [fullmatch]; [apply matches_nil|]. by rewrite IH, matches_deriv.
Qed.

(** ** What common patterns match *)

Lemma matches_opt r s : matches (Opt r) s <-> matches r s \/ s = [].
Proof. unfold Opt. by rewrite matches_alt, matches_eps. Qed.

Lemma matches_lit c s : matches (Lit c) s <-> s = [c].
Proof.
  unfold Lit. rewrite matches_chr. split; [|intros ->; exists c; split; [done|by destruct (char_eq_spec c c)]].
  intros (d & -> & H). destruct (char_eq_spec d c); congruence.
Qed.

Lemma matches_lit_seq c r s : matches (Seq (Lit c) r) s <-> exists s', s = c :: s' /\ matches r s'.
Proof.
  rewrite matches_seq. split; [intros (a & b & -> & ->%matches_lit & ?); by exists b|].
  intros (s' & -> & ?). exists [c], s'. by rewrite matches_lit.
Qed.

Lemma matches_times n p s : matches (Times n (Chr p)) s <-> length s = n /\ Forall (fun c => p c = true) s.
Proof.
  revert s. induction n as [|n IH]; intros s; cbn [Times].
  - rewrite matches_eps. split; [by intros ->|]. by destruct s; intros [? _].
  - rewrite matches_seq. split.
    + intros (a & b & -> & (c & -> & ?)%matches_chr & [<- ?]%IH). split; [done|by constructor].
    + destruct s as [|c s]; intros [Hl Hf]; [done|]. inversion_clear Hf as [|? ? Hc Hs]. exists [c], s. split; [done|].
      split; [by constructor|]. apply IH. split; [by injection Hl|done].
Qed.

Lemma matches_upto n p s : matches (UpTo n (Chr p)) s <-> (length s <= n)%nat /\ Forall (fun c => p c = true) s.
Proof.
  revert s. induction n as [|n IH]; intros s; cbn [UpTo].
  - rewrite matches_eps. split; [by intros ->|]. destruct s; [done|]. cbn. intros [? _]. lia.
  - rewrite matches_opt, matches_seq. split.
    + intros [(a & b & -> & (c & -> & ?)%matches_chr & [? ?]%IH)| ->]; [|split; [cbn; lia|constructor]].
      split; [cbn; lia|by constructor].
    + destruct s as [|c s]; intros [Hl Hf]; [by right|]. left. inversion_clear Hf as [|? ? Hc Hs]. exists [c], s. split; [done|].
      split; [by constructor|]. apply IH. cbn in Hl. split; [lia|done].
Qed.

Lemma matches_star_chr p s : matches (Star (Chr p)) s <-> Forall (fun c => p c = true) s.
Proof.
  split.
  - induction s as [|c s IH]; [constructor|]. intros (a & b & -> & Ha & Hb)%matches_star_cons.
    apply matches_chr in Ha as (d & E & Hd). injection E as E1 E2. subst. constructor; [done|by apply IH].
  - induction 1 as [|c s Hc _ IH]; [constructor|]. apply matches_star_cons. exists [], s. split; [done|]. split; [by constructor|done].
Qed.

(** Labels, each after the same character. *)
Lemma matches_star_lit c r s :
  matches (Star (Seq (Lit c) r)) s <-> exists ls, Forall (matches r) ls /\ s = concat (cons c <$> ls).
Proof.
  split.
  - intros H. remember (Star (Seq (Lit c) r)) as q eqn:Eq. induction H; try done; injection Eq as ->.
    + by exists [].
    + apply matches_lit_seq in H as (a' & -> & Ha). destruct (IHmatches2 eq_refl) as (ls & Hls & ->).
      exists (a' :: ls). split; [by constructor|done].
  - intros (ls & H & ->). induction H as [|l ls Hl _ IH]; [constructor|]. cbn [fmap list_fmap concat].
    apply (m_more _ (c :: l)); [|done]. apply matches_lit_seq. by exists l.
Qed.

Lemma concat_join sep f fs : f ++ concat (cons sep <$> fs) = join_with sep (f :: fs).
Proof.
  revert f. induction fs as [|g fs IH]; intros f; [by rewrite app_nil_r|].
  cbn [fmap list_fmap concat]. change (join_with sep (f :: g :: fs)) with (f ++ sep :: join_with sep (g :: fs)).
  rewrite <-IH. done.
Qed.

(** Letters and digits outside, [r] inside. *)
Lemma matches_edges p r s :
  matches (Seq (Chr p) (Opt (Seq r (Chr p)))) s <->
  exists c, p c = true /\ (s = [c] \/ exists m d, s = c :: m ++ [d] /\ matches r m /\ p d = true).
Proof.
  rewrite matches_seq. split.
  - intros (a & b & -> & (c & -> & Hc)%matches_chr & [(m & e & -> & Hm & (d & -> & Hd)%matches_chr)%matches_seq| ->]%matches_opt).
    + exists c. split; [done|]. right. by exists m, d.
    + exists c. by rewrite app_nil_r; auto.
  - intros (c & Hc & [->|(m & d & -> & Hm & Hd)]).
    + exists [c], []. split; [done|]. split; [by constructor|]. rewrite matches_opt. by right.
    + exists [c], (m ++ [d]). split; [done|]. split; [by constructor|]. rewrite matches_opt, matches_seq. left.
      exists m, [d]. repeat split; [done|by constructor].
Qed.

Lemma alnum_label c : span_dns_label_char c = true <-> alnum c = true \/ c = "-"%byte.
Proof.
  unfold span_dns_label_char, alnum. rewrite orb_true_iff. split; intros [?|H]; [by left| |by left|right].
  - right. by destruct (char_eq_spec c "-").
  - subst. done.
Qed.

Lemma alnum_edge c : alnum c = true <-> span_dns_label_char c = true /\ c <> "-"%byte.
Proof. rewrite alnum_label. split; [intros H; split; [by left|intros ->; done]|]. by intros [[?| ->] ?]. Qed.

Lemma label_edges s (r : regex) (ok : text -> Prop) :
  (forall m, matches r m <-> Forall (fun c => span_dns_label_char c = true) m /\ ok m) ->
  matches (Seq (Chr alnum) (Opt (Seq r (Chr alnum)))) s <->
  dns_label s /\ (length s = 1%nat \/ exists c m d, s = c :: m ++ [d] /\ ok m).
Proof.
  intros Hr. rewrite matches_edges. unfold dns_label. split.
  - intros (c & Ec & H). apply alnum_edge in Ec as [Hc Hh]. destruct H as [->|(m & d & -> & Em & Ed)].
    + split; [|by left]. split; [done|]. split; [by repeat constructor|]. by split; intros [= ->].
    + apply Hr in Em as [Hm Hok]. apply alnum_edge in Ed as [Hd Hl].
      split; [|right; by exists c, m, d]. split; [done|]. split; [constructor; [done|]; apply Forall_app; by repeat constructor|].
      split; [by intros [= ->]|]. rewrite app_comm_cons, last_snoc. by intros [= ->].
  - intros [(Hn & Hf & Hh & Hl) H]. destruct s as [|c s]; [done|]. exists c. inversion_clear Hf as [|? ? Hc Hs].
    split; [apply alnum_edge; split; [done|by intros ->]|]. destruct H as [H|(c' & m & d & [= <- ->] & Hok)].
    + left. by destruct s.
    + right. exists m, d. split; [done|]. apply Forall_app in Hs as [Hm Hd]. inversion_clear Hd as [|? ? Hd' _].
      rewrite app_comm_cons, last_snoc in Hl. split; [by apply Hr|]. apply alnum_edge. split; [done|by intros ->].
Qed.

Lemma label_shape (s : text) : s <> [] -> length s = 1%nat \/ exists c m d, s = c :: m ++ [d].
Proof.
  destruct s as [|c s]; [done|]. intros _. destruct s as [|x s] using rev_ind; [by left|]. right. by exists c, s, x.
Qed.

(** ** Patterns of fixed length *)

(** [r] is one class of characters after the other. *)
Definition spelled (r : regex) (cs : list (byte -> bool)) : Prop :=
  forall s, matches r s <-> Forall2 (fun p c => p c = true) cs s.

Lemma spelled_chr p : spelled (Chr p) [p].
Proof.
  intros s. rewrite matches_chr. split; [intros (c & -> & ?); by repeat constructor|].
  intros H. apply Forall2_cons_inv_l in H as (c & s' & Hc & Hs & ->). apply Forall2_nil_inv_l in Hs as ->. by exists c.
Qed.

Lemma spelled_seq r s cs ds : spelled r cs -> spelled s ds -> spelled (Seq r s) (cs ++ ds).
Proof.
  intros Hr Hs x. rewrite matches_seq. split.
  - intros (a & b & -> & Ha%Hr & Hb%Hs). by apply Forall2_app.
  - intros H. apply Forall2_app_inv_l in H as (a & b & Ha%Hr & Hb%Hs & ->). by exists a, b.
Qed.

Lemma spelled_times n p : spelled (Times n (Chr p)) (repeat p n).
Proof.
  induction n as [|n IH]; cbn [Times repeat].
  - intros s. rewrite matches_eps. split; [intros ->; constructor|by intros ->%Forall2_nil_inv_l].
  - apply (spelled_seq _ _ [p]); [apply spelled_chr|done].
Qed.
Create HintDb spelling.
#[export] Hint Resolve spelled_chr spelled_seq spelled_times : spelling.

(** ** Looking up *)

Lemma dict_get_cons {A} (d : dict A) k k' v : dict_get ((k', v) :: d) k = if bool_decide (k' = k) then Some v else dict_get d k.
Proof. unfold dict_get. cbn [list_find]. case_decide as E; cbn in E; [by rewrite bool_decide_eq_true_2|]. rewrite bool_decide_eq_false_2 by done. destruct (list_find _ d) as [[? ?]|]; done. Qed.

Lemma dict_get_set {A} (d : dict A) k k' v : dict_get (dict_set k v d) k' = if bool_decide (k = k') then Some v else dict_get d k'.
Proof.
  induction d as [|[q w] d IH]; cbn [dict_set]; [by rewrite dict_get_cons|].
  destruct (bool_decide_reflect (q = k)) as [->|E]; rewrite !dict_get_cons; [by case_bool_decide|]. rewrite IH.
  destruct (bool_decide_reflect (k = k')) as [->|]; [|done]. by rewrite bool_decide_eq_false_2.
Qed.

Lemma dict_set_Forall {A} (P : text * A -> Prop) k v (d : dict A) : Forall P d -> P (k, v) -> Forall P (dict_set k v d).
Proof.
  intros H Hv. induction H as [|[q w] d Hq Hd IH]; cbn [dict_set]; [by repeat constructor|].
  case_bool_decide; [subst q|]; by constructor.
Qed.

(** ** Numbers *)

Lemma lstrip_id s : Forall (fun c => py_space c = false) s -> lstrip s = s.
Proof. destruct 1 as [|c s Hc _]; [done|]. cbn. by rewrite Hc. Qed.
Lemma strip_id s : Forall (fun c => py_space c = false) s -> strip s = s.
Proof. intros H. unfold strip, rstrip. rewrite (lstrip_id s) by done. rewrite lstrip_id by by apply Forall_reverse. apply reverse_involutive. Qed.

Lemma py_int_digits s : isdigit s = true -> py_int s = Some (undecimal s 0).
Proof.
  intros Hs. pose proof (proj1 (isdigit_spec s) Hs) as [Hn Hd]. unfold py_int.
  assert (forall c, is_digit c = true -> py_space c = false /\ char_eq c "-" = false /\ char_eq c "+" = false /\ c <> "_"%byte) as Hc
    by (intros c H; destruct c; done).
  rewrite strip_id by (eapply Forall_impl; [exact Hd|]; intros c ?; by apply Hc).
  assert (split_on "_" s = [s]) as Hu.
  { apply split_on_one. intros Hin. by apply (proj1 (Forall_forall _ _) Hd), Hc in Hin as (_ & _ & _ & ?). }
  destruct s as [|c s]; [done|]. inversion_clear Hd as [|? ? H1 _]. destruct (Hc c H1) as (_ & -> & -> & _).
  cbv beta iota zeta. rewrite Hu. cbn [forallb concat]. rewrite Hs, app_nil_r. done.
Qed.

(** ** Kubernetes objects

    The parts of Pods, Services and EndpointSlices that the controller and the
    node daemon read, as the JSON of the API gives them: an attribute is [None]
    when it is absent, and an absent list or mapping is an empty one. *)

(** A resource quantity, which JSON gives as a number or as a string. *)
Inductive quantity := QInt (n : Z) | QStr (s : text).

Record k8s_container := Container {
  kc_name : option text;
  kc_requests : dict quantity;
  kc_limits : dict quantity }.

(** An entry of [status.containerStatuses]: whether [state] has [running]. *)
Record k8s_status := ContainerStatus {
  ks_name : option text;
  ks_running : bool;
  ks_container_id : option text }.

(** [kp_token_volumes]: for each volume, for each of its projected sources, whether
    the source has [serviceAccountToken]. *)
Record k8s_pod := Pod {
  kp_uid : option text;
  kp_namespace : option text;
  kp_name : option text;
  kp_labels : dict text;
  kp_deletion : option text;
  kp_node_name : option text;
  kp_account : option text;
  kp_automount : option bool;
  kp_token_volumes : list (list bool);
  kp_containers : list k8s_container;
  kp_ip : option text;
  kp_statuses : list k8s_status }.

Record k8s_service := Service {
  sv_namespace : option text;
  sv_name : option text;
  sv_selector : dict text;
  sv_cluster_ip : option text;
  sv_ports : list (option Z) }.

Record k8s_endpoint := Endpoint {
  ke_ready : option bool;
  ke_kind : option text;
  ke_uid : option text }.

(** [kl_service]: the label [kubernetes.io/service-name]. *)
Record k8s_slice := Slice {
  kl_namespace : option text;
  kl_service : option text;
  kl_endpoints : list k8s_endpoint }.

(** [x.get(k, "")] and [str(x.get(k) or "")] of a string attribute. *)
Definition or_empty (o : option text) : text := default [] o.
(** [str(x.get(k) or d)] *)
Definition or_default (d : text) (o : option text) : text :=
  match o with None | Some [] => d | Some s => s end.

(** ** Names the API guarantees

    Objects are admitted only with names of these forms, and Services and Pods
    are unique by name and by UID. *)

Definition label63 (s : text) : Prop := dns_label s /\ (length s <= 63)%nat.
Definition name253 (s : text) : Prop := dns_name s /\ (length s <= 253)%nat.

Record pod_admitted (p : k8s_pod) : Prop := {
  pa_namespace : exists ns, kp_namespace p = Some ns /\ label63 ns;
  pa_name : exists n, kp_name p = Some n /\ name253 n;
  pa_containers : Forall (fun c => exists n, kc_name c = Some n /\ label63 n) (kp_containers p);
  pa_node : forall n, kp_node_name p = Some n -> n = [] \/ name253 n;
  pa_account : forall a, kp_account p = Some a -> a = [] \/ name253 a }.

Record service_admitted (s : k8s_service) : Prop := {
  sa_namespace : exists ns, sv_namespace s = Some ns /\ label63 ns;
  sa_name : exists n, sv_name s = Some n /\ label63 n }.

Record cluster_admitted (pods : list k8s_pod) (services : list k8s_service) : Prop := {
  ca_pods : Forall pod_admitted pods;
  ca_uids : NoDup (kp_uid <$> pods);
  ca_services : Forall service_admitted services;
  ca_names : NoDup ((fun s => (sv_namespace s, sv_name s)) <$> services) }.
