(* ===== verification/Controller.v ===== *)
(** * The controller ([controller/dpumesh_controller.py])

    It publishes signed generations of the topology from the objects of the
    Kubernetes API, the operator's node file and the keys the nodes report, and
    serves them to the nodes, with the Service map for the Linkerd adapter and
    the answer whether a Pod is placed on the asking node.

    What the file system, the API server, the clock and the TLS layer answer is an
    input of each operation.  Ed25519 and HMAC-SHA256 are the functions [sign]
    and [mac]. *)

From S2P Require Import Prelude Text Spans PyText.

Definition GEN_NODE_MAX : nat := N.to_nat 1024.
Definition GEN_POD_MAX : nat := N.to_nat 65536.
Definition GEN_SERVICE_MAX : nat := N.to_nat 4096.
Definition GEN_ENDPOINT_MAX : nat := N.to_nat 65536.
Definition TOPOLOGY_MAX_BYTES : Z := 16 * 1024 * 1024.
Definition NODE_REPORT_MAX : Z := 4096.
Definition SERVICE_TARGETS_MAX_BYTES : Z := 1024 * 1024.

Definition ZERO_HEX : text := repeat "0"%byte 64.

Definition hex_digit : regex := Chr hex_lower.
Definition label_char : regex := Chr span_dns_label_char.
Definition POD_UID_RE : regex :=
  Seq (Times 8 hex_digit) (Seq (Lit "-") (Seq (Times 4 hex_digit) (Seq (Lit "-") (Seq (Times 4 hex_digit) (Seq (Lit "-")
    (Seq (Times 4 hex_digit) (Seq (Lit "-") (Times 12 hex_digit)))))))).
Definition key_id_edge (c : byte) : bool := in_range "A" "Z" c || in_range "a" "z" c || in_range "0" "9" c.
Definition key_id_inner (c : byte) : bool :=
  key_id_edge c || char_eq c "_" || char_eq c "." || char_eq c ":" || char_eq c "-".
Definition KEY_ID_RE : regex := Seq (Chr key_id_edge) (Seq (UpTo 30 (Chr key_id_inner)) (Chr key_id_edge)).
Definition SERVICE_NAME_RE : regex := Seq (Chr alnum) (Opt (Seq (UpTo 61 label_char) (Chr alnum))).
Definition DNS_LABEL_RE : regex := Seq (Chr alnum) (Opt (Seq (Star label_char) (Chr alnum))).
Definition DNS_RE : regex := Seq DNS_LABEL_RE (Star (Seq (Lit ".") DNS_LABEL_RE)).
Definition HEX64_RE : regex := Times 64 hex_digit.

(** ** Keys *)

(** What resolving and examining a key file answers; [st_inside]: the resolved path
    is in the key directory or below it. *)
Record key_stat := KeyStat { st_inside : bool; st_regular : bool; st_uid : Z; st_gid : Z; st_mode : Z }.
Record key_file := KeyFile { kf_stat : option key_stat; kf_data : option text }.
Record process := Process { pr_euid : Z; pr_egid : Z; pr_groups : list Z }.

Definition has_bits (mode bits : Z) : bool := negb (Z.land mode bits =? 0).
(** The octal constants 0o400, 0o100, 0o040, 0o020 and 0o010. *)
Definition S_IRUSR : Z := 256.
Definition S_IXUSR : Z := 64.
Definition S_IRGRP : Z := 32.
Definition S_IWGRP : Z := 16.
Definition S_IXGRP : Z := 8.

Definition hex_any (c : byte) : option Z :=
  if is_digit c then Some (b2z c - 48)
  else if in_range "a" "f" c then Some (b2z c - 87)
  else if in_range "A" "F" c then Some (b2z c - 55) else None.

(** [bytes.fromhex]: pairs of digits, white space between the pairs. *)
Fixpoint fromhex (s : text) : option (list byte) :=
  match s with
  | [] => Some []
  | c :: s' =>
      if in_range x09 x0d c || char_eq c " " then fromhex s'
      else match s' with
           | [] => None
           | d :: s'' => top ← hex_any c; bot ← hex_any d; cons (z2b (top * 16 + bot)) <$> fromhex s''
           end
  end.

Definition load_key (p : process) (f : key_file) : result (list byte) :=
  st ← or_raise (kf_stat f) OwnError;
  raise_if (negb (st_inside st)) OwnError;;
  let mode := Z.land (st_mode st) 4095 in
  let owner_readable := (st_uid st =? pr_euid p) && has_bits mode S_IRUSR in
  let group_readable := (st_uid st =? 0) && bool_decide (st_gid st ∈ pr_egid p :: pr_groups p) && has_bits mode S_IRGRP &&
                        negb (has_bits mode (S_IWGRP + S_IXGRP)) in
  raise_if (negb (st_regular st) || negb ((st_uid st =? 0) || (st_uid st =? pr_euid p)) || has_bits mode 7 ||
            negb (owner_readable || group_readable) || has_bits mode (S_IXUSR + S_IWGRP + S_IXGRP)) OwnError;;
  data ← or_raise (kf_data f) OSError;
  key ← (if (length data =? 32)%nat then mret data
         else if negb (forallb is_ascii data) then raise OwnError
         else or_raise (fromhex (strip data)) OwnError);
  raise_if (negb (length key =? 32)%nat || forallb (fun b => char_eq b x00) key) OwnError;;
  mret key.

(** A key directory: the file [active] and the file of every key id. *)
Record key_directory := KeyDirectory { kd_active : option text; kd_key : text -> key_file }.

Definition read_ascii (contents : option text) : result text := data ← or_raise contents OSError; py_ascii data.

Definition load_active_key (p : process) (d : key_directory) : result (text * list byte) :=
  active ← read_ascii (kd_active d);
  let key_id := strip active in
  raise_if (negb (fullmatch KEY_ID_RE key_id)) OwnError;;
  key ← load_key p (kd_key d key_id);
  mret (key_id, key).

(** ** Node records *)

(** [strtoul(s, &end, 0)] of a text that begins with a digit. *)
Definition oct_digit (c : byte) : bool := in_range "0" "7" c.
Fixpoint take_class (p : byte -> bool) (s : text) : text * text :=
  match s with
  | c :: s' => if p c then let (d, r) := take_class p s' in (c :: d, r) else ([], s)
  | [] => ([], [])
  end.
Definition in_base (base : Z) (ds : text) : Z := fold_left (fun v c => v * base + default 0 (hex_any c)) ds 0.
Definition is_hex (c : byte) : bool := bool_decide (is_Some (hex_any c)).
Definition strtoul0 (s : text) : Z * text :=
  match s with
  | z :: rest =>
      if char_eq z "0" then
        match rest with
        | x :: ((h :: _) as digits) =>
            if (char_eq x "x" || char_eq x "X") && is_hex h then let (ds, r) := take_class is_hex digits in (in_base 16 ds, r)
            else let (ds, r) := take_class oct_digit s in (in_base 8 ds, r)
        | _ => let (ds, r) := take_class oct_digit s in (in_base 8 ds, r)
        end
      else let (ds, r) := take_class is_digit s in (in_base 10 ds, r)
  | [] => (0, [])
  end.

(** [inet_aton]: up to four numbers, white space and anything after it. *)
Fixpoint inet_aton_from (parts : nat) (s : text) : bool :=
  match s with
  | [] => false
  | c :: _ =>
      if negb (is_digit c) then false
      else
        let (v, rest) := strtoul0 s in
        if 2 ^ 32 <=? v then false
        else
          match rest, parts with
          | d :: rest', S parts' =>
              if char_eq d "." then (if 255 <? v then false else inet_aton_from parts' rest')
              else (in_range x09 x0d d || char_eq d " ") && (v <? 2 ^ (8 * Z.of_nat (S parts)))
          | d :: _, O => (in_range x09 x0d d || char_eq d " ") && (v <? 256)
          | [], _ => v <? 2 ^ (8 * Z.of_nat (S parts))
          end
  end.
Definition inet_aton_ok (s : text) : bool := inet_aton_from 3 s.

Definition valid_ipv4 (address : text) : bool :=
  if negb (inet_aton_ok address) then false
  else
    let parts := split_on "." address in
    (length parts =? 4)%nat && forallb (fun p => isdigit p && bool_decide (show (undecimal p 0) = p)) parts.

Definition valid_rdma (address : text) : bool :=
  let '(ip, separator, port) := partition ":" address in
  separator && valid_ipv4 ip && isdigit port && (0 <? undecimal port 0) && (undecimal port 0 <? 65536).

Definition valid_node_record (name rdma dpu_pub : text) : bool :=
  fullmatch DNS_RE name && (length name <=? 253)%nat && forallb (fun l => (length l <=? 63)%nat) (split_on "." name) &&
  valid_rdma rdma && fullmatch HEX64_RE dpu_pub.

Fixpoint read_node_lines (records : dict (text * text)) (ls : list text) : result (dict (text * text)) :=
  match ls with
  | [] => mret records
  | raw :: ls' =>
      match words (strip (before_first "#" raw)) with
      | [] => read_node_lines records ls'
      | [name; rdma; dpu_pub] =>
          raise_if (negb (valid_node_record name rdma dpu_pub)) OwnError;;
          raise_if (bool_decide (is_Some (dict_get records name))) OwnError;;
          read_node_lines (dict_set name (rdma, dpu_pub) records) ls'
      | _ => raise OwnError
      end
  end.
Definition read_nodes_file (contents : option text) : result (dict (text * text)) :=
  data ← read_ascii contents; read_node_lines [] (splitlines data).

(** [NodeRegistry.report]: the reports kept. *)
Definition report (nodes_file : option text) (name rdma dpu_public_key : text) (reports : dict text) : result (dict text) :=
  raise_if (negb (valid_rdma rdma) || negb (fullmatch HEX64_RE dpu_public_key)) OwnError;;
  raise_if (bool_decide (dpu_public_key = ZERO_HEX)) OwnError;;
  configured ← read_nodes_file nodes_file;
  record ← or_raise (dict_get configured name) OwnError;
  raise_if (bool_decide (rdma <> record.1)) OwnError;;
  mret (dict_set name dpu_public_key reports).

(** [NodeRegistry.names] *)
Definition names (nodes_file : option text) : result (list text) := d ← read_nodes_file nodes_file; mret (d.*1).

Definition COMMA : text := txt ",".
Definition node_line (reports : dict text) (n : text * (text * text)) : text :=
  txt "node=" ++ n.1 ++ COMMA ++ n.2.1 ++ COMMA ++ default n.2.2 (dict_get reports n.1).
Definition name_le {A} (a b : text * A) : Prop := text_le a.1 b.1.
#[export] Instance name_le_dec {A} : RelDecision (@name_le A).
Proof. intros a b. unfold name_le. apply _. Defined.
Definition node_lines (nodes_file : option text) (reports : dict text) : result (list text) :=
  configured ← read_nodes_file nodes_file;
  mret (node_line reports <$> merge_sort name_le configured).

(** ** The body of a generation *)

Fixpoint pod_lines (pod_uids : list text) (pods : list k8s_pod) : list text * list text :=
  match pods with
  | [] => ([], pod_uids)
  | p :: ps =>
      let uid := or_empty (kp_uid p) in
      let node := or_empty (kp_node_name p) in
      let namespace := or_empty (kp_namespace p) in
      let account := or_default (txt "default") (kp_account p) in
      let ip := or_empty (kp_ip p) in
      if negb (fullmatch POD_UID_RE uid) || bool_decide (node = []) || negb (valid_ipv4 ip) then pod_lines pod_uids ps
      else if bool_decide (uid ∈ pod_uids) then pod_lines pod_uids ps
      else
        let (ls, uids) := pod_lines (pod_uids ++ [uid]) ps in
        ((txt "pod=" ++ uid ++ COMMA ++ node ++ COMMA ++ namespace ++ COMMA ++ account ++ COMMA ++ ip) :: ls, uids)
  end.

Definition add_once (k : text) (keys : list text) : list text := if bool_decide (k ∈ keys) then keys else keys ++ [k].
Definition service_key_text (namespace name : text) : text := namespace ++ txt "/" ++ name.

Fixpoint service_lines (service_keys : list text) (services : list k8s_service) : list text * list text :=
  match services with
  | [] => ([], service_keys)
  | s :: ss =>
      let key := service_key_text (or_empty (sv_namespace s)) (or_empty (sv_name s)) in
      let cluster_ip := or_empty (sv_cluster_ip s) in
      match sv_ports s with
      | Some port :: _ =>
          if negb (valid_ipv4 cluster_ip) || negb ((0 <? port) && (port <? 65536)) then service_lines service_keys ss
          else
            let (ls, keys) := service_lines (add_once key service_keys) ss in
            ((txt "service=" ++ key ++ COMMA ++ cluster_ip ++ txt ":" ++ show port) :: ls, keys)
      | _ => service_lines service_keys ss
      end
  end.

(** The endpoints of one slice, and the pairs seen. *)
Fixpoint endpoint_entries (key : text) (pod_uids : list text) (seen : list (text * text)) (endpoints : list k8s_endpoint)
    : list (text * text) :=
  match endpoints with
  | [] => seen
  | e :: es =>
      if negb (bool_decide (ke_ready e = Some true)) then endpoint_entries key pod_uids seen es
      else
        let uid := or_empty (ke_uid e) in
        if negb (bool_decide (ke_kind e = Some (txt "Pod"))) || bool_decide (uid ∉ pod_uids) then endpoint_entries key pod_uids seen es
        else if bool_decide ((key, uid) ∈ seen) then endpoint_entries key pod_uids seen es
        else endpoint_entries key pod_uids (seen ++ [(key, uid)]) es
  end.
Fixpoint slice_entries (service_keys pod_uids : list text) (seen : list (text * text)) (slices : list k8s_slice)
    : list (text * text) :=
  match slices with
  | [] => seen
  | l :: ls =>
      let service_name := or_empty (kl_service l) in
      let key := service_key_text (or_empty (kl_namespace l)) service_name in
      if bool_decide (service_name = []) || bool_decide (key ∉ service_keys) then slice_entries service_keys pod_uids seen ls
      else slice_entries service_keys pod_uids (endpoint_entries key pod_uids seen (kl_endpoints l)) ls
  end.

Definition build_body (version : Z) (nodes : list text) (pods : list k8s_pod) (services : list k8s_service)
    (slices : list k8s_slice) (protected : list text) : result text :=
  raise_if (GEN_NODE_MAX <? length nodes)%nat OwnError;;
  let (pods, pod_uids) := pod_lines [] pods in
  raise_if (GEN_POD_MAX <? length pod_uids)%nat OwnError;;
  let (services, service_keys) := service_lines [] services in
  raise_if (GEN_SERVICE_MAX <? length service_keys)%nat OwnError;;
  let seen_endpoints := slice_entries service_keys pod_uids [] slices in
  raise_if (GEN_ENDPOINT_MAX <? length seen_endpoints)%nat OwnError;;
  mret (py_lines ((txt "version=" ++ show version) :: nodes ++ pods ++ services ++
          ((fun e => txt "endpoint=" ++ e.1 ++ COMMA ++ e.2) <$> seen_endpoints) ++
          ((fun k => txt "protected=" ++ k) <$> filter (fun k => k ∈ service_keys) protected))).

(** ** Documents *)

Definition NEWLINE : text := [NL].
Definition signature_line (key_id : text) (signature : list byte) : text :=
  txt "signature=" ++ key_id ++ COMMA ++ show_hex signature ++ NEWLINE.

Section signing.
Context (sign mac : list byte -> text -> list byte).

Definition sign_document (body key_id : text) (key : list byte) : result text :=
  bytes ← py_ascii body; mret (body ++ signature_line key_id (sign key bytes)).
Definition sign_feed (body key_id : text) (key : list byte) : result text :=
  bytes ← py_ascii body; mret (body ++ signature_line key_id (mac key bytes)).
End signing.

(** What [service_targets_body] gathers from the lines before the signature. *)
Record targets := Targets { tg_services : dict text; tg_pod_ips : dict text; tg_endpoints : list (text * text) }.
#[export] Instance eta_targets : Eta targets := fun r => Targets (tg_services r) (tg_pod_ips r) (tg_endpoints r).

Definition gather_line (line : text) (t : targets) : targets :=
  match suffix_of (txt "service=") line with
  | Some rest => let '(key, separator, address) := partition "," rest in
                 if separator then t <| tg_services ::= dict_set key address |> else t
  | None =>
      match suffix_of (txt "pod=") line with
      | Some rest =>
          match split_on "," rest with
          | [uid; _; _; _; ip] => t <| tg_pod_ips ::= dict_set uid ip |>
          | _ => t
          end
      | None =>
          match suffix_of (txt "endpoint=") line with
          | Some rest => let '(key, separator, uid) := partition "," rest in
                         if separator then t <| tg_endpoints ::= fun l => l ++ [(key, uid)] |> else t
          | None => t
          end
      end
  end.
Fixpoint gather (ls : list text) (t : targets) : targets :=
  match ls with
  | [] => t
  | l :: ls' => if starts (txt "signature=") l then t else gather ls' (gather_line l t)
  end.

Definition pair_leb (a b : text * text) : bool := if bool_decide (a.1 = b.1) then text_leb a.2 b.2 else text_leb a.1 b.1.
Definition pair_le (a b : text * text) : Prop := pair_leb a b = true.
#[export] Instance pair_le_dec : RelDecision pair_le.
Proof. intros a b. unfold pair_le. apply _. Defined.

Fixpoint target_lines (t : targets) (seen : list (text * text)) (endpoints : list (text * text)) : list text :=
  match endpoints with
  | [] => []
  | (key, uid) :: es =>
      match dict_get (tg_services t) key, dict_get (tg_pod_ips t) uid with
      | Some address, Some ip =>
          if bool_decide ((key, ip) ∈ seen) then target_lines t seen es
          else (txt "endpoint=" ++ key ++ COMMA ++ ip ++ txt ":" ++ after_last ":" address ++ COMMA ++ uid) ::
                 target_lines t (seen ++ [(key, ip)]) es
      | _, _ => target_lines t seen es
      end
  end.

Definition service_target_lines (topology : text) : list text :=
  let t := gather (splitlines topology) (Targets [] [] []) in
  ((fun s => s.1 ++ txt "=" ++ s.2) <$> merge_sort name_le (tg_services t)) ++
  target_lines t [] (merge_sort pair_le (tg_endpoints t)).
Definition service_targets_body (version : Z) (topology : text) : text :=
  py_lines ((txt "version=" ++ show version) :: service_target_lines topology).

(** The first line that starts with a prefix, after the prefix. *)
Fixpoint first_with (p : text) (ls : list text) : option text :=
  match ls with
  | [] => None
  | l :: ls' => match suffix_of p l with Some rest => Some rest | None => first_with p ls' end
  end.

Definition published_version (contents : option text) : Z :=
  match read_ascii contents with
  | inl _ => 0
  | inr data =>
      match first_with (txt "version=") (splitlines data) with
      | Some rest => default 0 (py_int rest)
      | None => 0
      end
  end.

Definition signature_key_id (document : text) : text :=
  match first_with (txt "signature=") (splitlines document) with
  | Some rest => before_first "," rest
  | None => []
  end.

Definition is_record (line : text) : bool :=
  negb (starts (txt "version=") line || starts (txt "signature=") line || starts (txt "#") line).
Definition generation_records (document : text) : text := join_with NL (filter (fun l => is_record l = true) (splitlines document)).

Definition place_line (line : text) (placements : dict text) : dict text :=
  match suffix_of (txt "pod=") line with
  | Some rest =>
      match split_on "," rest with
      | [uid; node; _; _; _] => dict_set uid node placements
      | _ => placements
      end
  | None => placements
  end.
Fixpoint place_lines (ls : list text) (placements : dict text) : dict text :=
  match ls with
  | [] => placements
  | l :: ls' => if negb (starts (txt "pod=") l) && starts (txt "signature=") l then placements else place_lines ls' (place_line l placements)
  end.
Definition pod_placements (document : text) : dict text := place_lines (splitlines document) [].

(** ** The controller *)

Record service_cache := Cache { sc_records : text; sc_key_id : text; sc_document : text; sc_version : Z }.

(** [ct_installed] is the output file. *)
Record controller := Controller {
  ct_version : Z;
  ct_document : text;
  ct_placements : dict text;
  ct_cache : option service_cache;
  ct_reports : dict text;
  ct_installed : option text }.
#[export] Instance eta_controller : Eta controller := fun r =>
  Controller (ct_version r) (ct_document r) (ct_placements r) (ct_cache r) (ct_reports r) (ct_installed r).

(** One publication's inputs: the clock, the node file, what the API server lists,
    the keys, and whether directory, temporary file and rename succeed. *)
Record publish_io := PublishIo {
  pi_time_ns : Z;
  pi_nodes : option text;
  pi_pods : option (list k8s_pod);
  pi_services : option (list k8s_service);
  pi_slices : option (list k8s_slice);
  pi_process : process;
  pi_keys : key_directory;
  pi_written : bool }.

Definition controller_init (p : process) (keys : key_directory) (output : option text) : result controller :=
  load_active_key p keys;;
  let document := match read_ascii output with inr d => d | inl _ => [] end in
  mret (Controller (published_version output) document (if bool_decide (document = []) then [] else pod_placements document) None [] output).

Section publishing.
Context (sign mac : list byte -> text -> list byte) (protected : list text).

(** The document to install with its version, or nothing when the facts are
    unchanged. *)
Definition prepare (io : publish_io) (c : controller) : result (option (Z * text)) :=
  let version := Z.max (pi_time_ns io) (ct_version c + 1) in
  nodes ← node_lines (pi_nodes io) (ct_reports c);
  pods ← or_raise (pi_pods io) OwnError;
  services ← or_raise (pi_services io) OwnError;
  slices ← or_raise (pi_slices io) OwnError;
  body ← build_body version nodes pods services slices protected;
  key ← load_active_key (pi_process io) (pi_keys io);
  let held := ct_document c in
  if bool_decide (held <> []) && bool_decide (generation_records body = generation_records held) &&
     bool_decide (signature_key_id held = key.1) then mret None
  else
    document ← sign_document sign body key.1 key.2;
    raise_if (TOPOLOGY_MAX_BYTES <? Z.of_nat (length document)) OwnError;;
    raise_if (negb (pi_written io)) OSError;;
    mret (Some (version, document)).

Definition publish (io : publish_io) (c : controller) : result (option Z) * controller :=
  match prepare io c with
  | inl e => (inl e, c)
  | inr None => (inr None, c)
  | inr (Some (version, document)) =>
      (inr (Some version),
       c <| ct_installed := Some document |> <| ct_version := version |> <| ct_document := document |>
         <| ct_placements := pod_placements document |>)
  end.

(** One turn of [run]: an error of any other kind ends the process. *)
Definition run_turn (io : publish_io) (c : controller) : option controller :=
  match publish io c with
  | (inl ValueError, _) => None
  | (_, c') => Some c'
  end.

Definition service_targets (p : process) (feed_keys : key_directory) (time_ns : Z) (c : controller) : result text * controller :=
  match load_active_key p feed_keys with
  | inl e => (inl e, c)
  | inr (key_id, key) =>
      if bool_decide (ct_document c = []) then (inl OwnError, c)
      else
        let records := py_lines (service_target_lines (ct_document c)) in
        let fresh :=
          let version := Z.max time_ns (match ct_cache c with None => 0 | Some held => sc_version held end + 1) in
          match sign_feed mac (py_lines [txt "version=" ++ show version] ++ records) key_id key with
          | inl e => (inl e, c)
          | inr document =>
              if SERVICE_TARGETS_MAX_BYTES <? Z.of_nat (length document) then (inl OwnError, c)
              else (inr document, c <| ct_cache := Some (Cache records key_id document version) |>)
          end in
        match ct_cache c with
        | Some held => if bool_decide (sc_records held = records) && bool_decide (sc_key_id held = key_id)
                       then (inr (sc_document held), c) else fresh
        | None => fresh
        end
  end.
End publishing.

(** ** Requests *)

(** The subject alternative names of the caller's certificate, if it showed one. *)
Definition certificate : Type := option (list (bool * text)).
Definition SPIFFE : text := txt "spiffe://dpumesh.io/node/".

Definition node_from_peer_certificate (c : certificate) : option text :=
  names ← c;
  match snd <$> filter (fun n => n.1 = true) names with
  | [uri] => name ← suffix_of SPIFFE uri; if fullmatch DNS_RE name then Some name else None
  | _ => None
  end.

Definition reporter (nodes_file : option text) (cert : certificate) : result (option text) :=
  let node := node_from_peer_certificate cert in
  known ← names nodes_file;
  mret (n ← node; if bool_decide (n ∈ known) then Some n else None).

(** A reply: status and body; the body that is the message of an exception is left
    empty. *)
Definition http_reply : Type := Z * text.
Definition line_reply (status : Z) (message : text) : http_reply := (status, message ++ NEWLINE).

(** The path and the query of a request target without escapes, parameters and
    fragment. *)
Definition target_path (target : text) : text := before_first "?" target.
Definition target_query (target : text) : list (text * text) :=
  let '(_, _, query) := partition "?" target in
  omap (fun field => let '(k, separator, v) := partition "=" field in
                     if separator && bool_decide (v <> []) then Some (k, v) else None) (split_on "&" query).

Definition QUOTE : text := [x22].
Definition quoted (s : text) : text := QUOTE ++ s ++ QUOTE.
Definition scope_json (uid node : text) : text :=
  txt "{" ++ quoted (txt "pod_uid") ++ txt ": " ++ quoted uid ++ txt ", " ++ quoted (txt "node") ++ txt ": " ++ quoted node ++ txt "}".

Definition workload_scope (nodes_file : option text) (cert : certificate) (query : list (text * text)) (c : controller) : result http_reply :=
  caller ← reporter nodes_file cert;
  match caller with
  | None => mret (line_reply 403 (txt "caller is not a known node"))
  | Some node =>
      match snd <$> filter (fun q => q.1 = txt "pod_uid") query with
      | [uid] =>
          if negb (fullmatch POD_UID_RE uid) then mret (line_reply 400 (txt "one well-formed pod_uid is required"))
          else
            match dict_get (ct_placements c) uid with
            | None => mret (line_reply 404 (txt "no generation places that Pod"))
            | Some placed =>
                if bool_decide (placed <> node) then mret (line_reply 403 (txt "the generation places that Pod on another node"))
                else mret (200, scope_json uid node)
            end
      | _ => mret (line_reply 400 (txt "one well-formed pod_uid is required"))
      end
  end.

Section handlers.
Context (mac : list byte -> text -> list byte).

Definition do_GET (nodes_file : option text) (cert : certificate) (target : text) (p : process) (feed_keys : key_directory)
    (time_ns : Z) (c : controller) : result http_reply * controller :=
  let path := target_path target in
  let document := ct_document c in
  if bool_decide (path = txt "/healthz") then
    (mret (if bool_decide (document = []) then line_reply 503 (txt "not ready") else line_reply 200 (txt "ok")), c)
  else if bool_decide (path = txt "/topology.v1") then
    (caller ← reporter nodes_file cert;
     match caller with
     | None => mret (line_reply 403 (txt "a node client certificate is required"))
     | Some _ => if bool_decide (document = []) then mret (line_reply 503 (txt "no generation published yet"))
                 else body ← py_ascii document; mret (200, body)
     end, c)
  else if bool_decide (path = txt "/service-targets.v1") then
    match reporter nodes_file cert with
    | inl e => (inl e, c)
    | inr None => (mret (line_reply 403 (txt "a configured node client certificate is required")), c)
    | inr (Some _) =>
        match service_targets mac p feed_keys time_ns c with
        | (inl ValueError, c') => (inl ValueError, c')
        | (inl _, c') => (mret (503, []), c')
        | (inr document, c') => (body ← py_ascii document; mret (200, body), c')
        end
    end
  else if bool_decide (path = txt "/workload-scope") then (workload_scope nodes_file cert (target_query target) c, c)
  else (mret (line_reply 404 (txt "no such route")), c).

(** [body]: the report read from the request, if it is well-formed. *)
Definition do_POST (nodes_file : option text) (cert : certificate) (target : text) (content_length : option text)
    (body : option (text * text * text)) (c : controller) : result http_reply * controller :=
  if bool_decide (target_path target <> txt "/node") then (mret (line_reply 404 (txt "no such route")), c)
  else
    match reporter nodes_file cert with
    | inl e => (inl e, c)
    | inr None => (mret (line_reply 403 (txt "caller is not a known node")), c)
    | inr (Some node) =>
        match py_int (default (txt "0") content_length) with
        | None => (mret (line_reply 400 (txt "malformed Content-Length")), c)
        | Some length =>
            if negb ((0 <? length) && (length <=? NODE_REPORT_MAX)) then (mret (line_reply 413 (txt "report over bound")), c)
            else
              match body with
              | None => (mret (line_reply 400 (txt "malformed report")), c)
              | Some (name, rdma, dpu_public_key) =>
                  if bool_decide (name <> node) then (mret (line_reply 403 (txt "a node may report only for itself")), c)
                  else
                    match names nodes_file with
                    | inl e => (inl e, c)
                    | inr known =>
                        if bool_decide (name ∉ known) then (mret (line_reply 403 (txt "node is not configured")), c)
                        else
                          match report nodes_file name rdma dpu_public_key (ct_reports c) with
                          | inl OwnError => (mret (400, []), c)
                          | inl e => (inl e, c)
                          | inr reports => (mret (line_reply 200 (txt "ok")), c <| ct_reports := reports |>)
                          end
                    end
              end
        end
    end.
End handlers.

(** A reply on the wire; [tail] is the reason phrase and the header lines. *)
Definition http_response (tail : text) (r : http_reply) : text := txt "HTTP/1.1 " ++ show r.1 ++ txt " " ++ tail ++ r.2.
