(* ===== verification/ControllerText.v ===== *)
(** * The controller's validators

    The regular expressions and address checks of
    [controller/dpumesh_controller.py] accept the texts that the DPU's parser
    accepts, up to the differences stated here. *)

From S2P Require Import Prelude Text PeerIdentity Spans WorkloadIdentity Topology TopologyGrammar TopologyParse PyText Controller.

(** ** Names *)

Lemma label_re s : fullmatch DNS_LABEL_RE s = true <-> dns_label s.
Proof.
  rewrite fullmatch_spec. unfold DNS_LABEL_RE, label_char.
  rewrite (label_edges s _ (fun _ => True)); [|intros m; rewrite matches_star_chr; tauto].
  split; [by intros [? _]|]. intros H. split; [done|]. destruct (label_shape s) as [?|(c & m & d & ->)]; [apply H|by left|right; by exists c, m, d].
Qed.

Lemma service_name_re s : fullmatch SERVICE_NAME_RE s = true <-> label63 s.
Proof.
  rewrite fullmatch_spec. unfold SERVICE_NAME_RE, label_char, label63.
  rewrite (label_edges s _ (fun m => (length m <= 61)%nat)); [|intros m; rewrite matches_upto; tauto].
  split.
  - intros [H [Hl|(c & m & d & -> & Hm)]]; (split; [done|]); [lia|]. cbn [length]. rewrite length_app. cbn [length]. lia.
  - intros [H Hl]. split; [done|]. destruct (label_shape s) as [?|(c & m & d & ->)]; [apply H|by left|]. right. exists c, m, d. split; [done|].
    cbn [length] in Hl. rewrite length_app in Hl. cbn [length] in Hl. lia.
Qed.

Lemma dot_free l : dns_label l -> "."%byte ∉ l.
Proof. intros (_ & H & _) Hin. by apply (proj1 (Forall_forall _ _) H) in Hin. Qed.

Lemma dns_re s : fullmatch DNS_RE s = true <-> dns_name s.
Proof.
  rewrite fullmatch_spec. unfold DNS_RE. rewrite matches_seq. unfold dns_name. split.
  - intros (f & b & -> & Hf & Hb). apply matches_star_lit in Hb as (ls & Hls & ->). rewrite concat_join.
    assert (Forall dns_label (f :: ls)) as H.
    { constructor; [by apply label_re, fullmatch_spec|]. eapply Forall_impl; [exact Hls|]. intros l Hl. by apply label_re, fullmatch_spec. }
    rewrite split_join; [done|done|]. eapply Forall_impl; [exact H|]. apply dot_free.
  - intros H. destruct (split_on_cons "." s) as (f & fs & E). rewrite E in H. inversion_clear H as [|? ? Hf Hfs].
    exists f, (concat (cons "."%byte <$> fs)). split; [by rewrite concat_join, <-E, join_split|].
    split; [by apply fullmatch_spec, label_re|]. apply matches_star_lit. exists fs. split; [|done].
    eapply Forall_impl; [exact Hfs|]. intros l Hl. by apply fullmatch_spec, label_re.
Qed.

(** ** Pod UIDs *)

Definition uid_class (i : nat) : byte -> bool := if hyphen_at i then (fun c => char_eq c "-") else hex_lower.

Lemma uid_loop_classes n i s :
  Forall2 (fun p c => p c = true) (uid_class <$> seq i n) s <-> length s = n /\ uid_loop i s = true.
Proof.
  revert i s. induction n as [|n IH]; intros i s; cbn [seq fmap list_fmap].
  - split; [by intros ->%Forall2_nil_inv_l|]. intros [H _]. by destruct s.
  - destruct s as [|c s]; [split; [by intros ?%Forall2_nil_inv_r|by intros [? _]]|]. cbn [length uid_loop].
    rewrite Forall2_cons, IH, andb_true_iff. unfold uid_class.
    split; [intros (? & <- & ?)|intros ([= <-] & ? & ?)]; (split; [by destruct (hyphen_at i) || done|]); by destruct (hyphen_at i).
Qed.

Lemma uid_re s : fullmatch POD_UID_RE s = true <-> pod_uid s.
Proof.
  rewrite fullmatch_spec, <-span_pod_uid_spec. unfold span_pod_uid. rewrite andb_true_iff, Nat.eqb_eq, <-uid_loop_classes.
  assert (spelled POD_UID_RE (uid_class <$> seq 0 36)) as H; [|apply H]. change (uid_class <$> seq 0 36) with
    (repeat hex_lower 8 ++ [fun c => char_eq c "-"] ++ repeat hex_lower 4 ++ [fun c => char_eq c "-"] ++ repeat hex_lower 4 ++
     [fun c => char_eq c "-"] ++ repeat hex_lower 4 ++ [fun c => char_eq c "-"] ++ repeat hex_lower 12).
  unfold POD_UID_RE, hex_digit, Lit. auto 20 with spelling.
Qed.

(** ** Keys *)

Lemma hex_loop_total n s : length s = (2 * n)%nat -> Forall (fun c => hex_lower c = true) s -> is_Some (hex_loop n s).
Proof.
  revert s. induction n as [|n IH]; intros s Hl Hs; [by eexists|].
  destruct s as [|a [|b s]]; [done|cbn in Hl; lia|]. rewrite !Forall_cons in Hs. destruct Hs as (Ha & Hb & Hs).
  assert (forall c, hex_lower c = true -> (hex_value c <? 0) = false) as Hn.
  { intros c. unfold hex_lower, hex_value. rewrite orb_comm. destruct (in_range "0" "9" c) eqn:E0; cbn [orb].
    - apply in_range_spec in E0. change (b2z "0") with 48 in E0. intros _. apply Z.ltb_ge. lia.
    - intros E1. rewrite E1. apply in_range_spec in E1. change (b2z "a") with 97 in E1. apply Z.ltb_ge. lia. }
  cbn [hex_loop]. rewrite (Hn a Ha), (Hn b Hb). cbn [orb]. apply fmap_is_Some, IH; [cbn in Hl; lia|done].
Qed.

Lemma hex64_re s : fullmatch HEX64_RE s = true <-> exists bs, length bs = 32%nat /\ s = show_hex bs.
Proof.
  rewrite fullmatch_spec. unfold HEX64_RE, hex_digit. rewrite matches_times. split.
  - intros [Hl Hs]. destruct (hex_loop_total 32 s Hl Hs) as (bs & E). exists bs. by apply hex_loop_spec in E.
  - intros (bs & Hl & ->). rewrite length_show_hex, Hl. split; [done|].
    unfold show_hex. apply Forall_forall. intros c Hc. apply list_elem_of_bind in Hc as (b & Hc & _).
    pose proof (b2z_range b). pose proof (Z.mod_pos_bound (b2z b) 16 ltac:(lia)).
    assert (forall n, 0 <= n < 16 -> hex_lower (nibble n) = true) as Hn.
    { intros n Hn. rewrite <-(Z2Nat.id n) by lia.
      apply (proj1 (List.forallb_forall (fun k => hex_lower (nibble (Z.of_nat k))) (seq 0 16)) eq_refl), List.in_seq. lia. }
    assert (0 <= b2z b / 16 < 16) by (split; [apply Z.div_pos; lia|apply Z.div_lt_upper_bound; lia]).
    rewrite !elem_of_cons, elem_of_nil in Hc. destruct Hc as [->|[->|[]]]; by apply Hn.
Qed.

(** ** Addresses *)

Lemma take_class_app p ds rest :
  Forall (fun c => p c = true) ds -> match rest with c :: _ => p c = false | [] => True end -> take_class p (ds ++ rest) = (ds, rest).
Proof.
  intros Hd Hr. induction Hd as [|c ds Hc _ IH]; cbn [app take_class]; [destruct rest; [done|cbn; by rewrite Hr]|by rewrite Hc, IH].
Qed.

Lemma in_base_10 ds v : Forall (fun c => is_digit c = true) ds ->
  fold_left (fun v c => v * 10 + default 0 (hex_any c)) ds v = undecimal ds v.
Proof.
  intros H. revert v. induction H as [|c ds Hc _ IH]; intros v; [done|]. cbn [fold_left]. rewrite IH.
  unfold hex_any. rewrite Hc. cbn [default from_option id].
  change (undecimal (c :: ds) v) with (undecimal ds (10 * v + (b2z c - 48))). f_equal. lia.
Qed.

(** A decimal number without leading zeros is read as itself. *)
Lemma strtoul0_canonical p rest : canonical p -> match rest with c :: _ => c = "."%byte | [] => True end ->
  strtoul0 (p ++ rest) = (undecimal p 0, rest).
Proof.
  intros (Hn & Hd & Hz) Hr. assert (match rest with c :: _ => is_digit c = false /\ oct_digit c = false | [] => True end) as Hr'
    by (destruct rest; subst; done).
  destruct p as [|c p]; [done|]. cbn [app strtoul0]. destruct (char_eq_spec c "0") as [->|Hc].
  - destruct p; [|by specialize (Hz eq_refl)]. cbn [app].
    assert (take_class oct_digit ("0"%byte :: rest) = (["0"%byte], rest)) as E
      by (apply (take_class_app oct_digit ["0"%byte]); [by repeat constructor|by destruct rest; [|apply Hr']]).
    rewrite E. destruct rest as [|d [|h rest]]; [done|done|]. by rewrite Hr.
  - rewrite app_comm_cons, take_class_app; [|done|by destruct rest; [|apply Hr']]. unfold in_base. by rewrite in_base_10.
Qed.

Lemma inet_aton_octets parts ps : Forall canonical ps -> length ps = S parts ->
  inet_aton_from parts (join_with "." ps) = forallb (fun p => undecimal p 0 <=? 255) ps.
Proof.
  revert ps. induction parts as [|parts IH]; intros ps Hp Hl; (destruct ps as [|p ps]; [done|]); inversion_clear Hp as [|? ? Hc Hps].
  - destruct ps; [|done]. cbn [join_with forallb]. rewrite andb_true_r. pose proof (strtoul0_canonical p [] Hc I) as E. rewrite app_nil_r in E.
    destruct Hc as (Hn & Hd & _). destruct p as [|c p]; [done|]. cbn [inet_aton_from]. inversion_clear Hd as [|? ? Hc' _]. rewrite Hc'. cbn [negb].
    rewrite E. set (v := undecimal _ _). change (2 ^ (8 * Z.of_nat 1)) with 256.
    destruct (Z.leb_spec (2 ^ 32) v), (Z.leb_spec v 255), (Z.ltb_spec v 256); lia.
  - destruct ps as [|q ps]; [done|]. change (join_with "." (p :: q :: ps)) with (p ++ "."%byte :: join_with "." (q :: ps)).
    pose proof (strtoul0_canonical p ("."%byte :: join_with "." (q :: ps)) Hc eq_refl) as E.
    destruct Hc as (Hn & Hd & _). destruct p as [|c p]; [done|]. rewrite <-app_comm_cons in *. cbn [inet_aton_from].
    inversion_clear Hd as [|? ? Hc' _]. rewrite Hc'. cbn [negb]. rewrite E.
    change (forallb ?f ((c :: p) :: q :: ps)) with (f (c :: p) && forallb f (q :: ps)). rewrite <-(IH (q :: ps)) by (done || (cbn in Hl |- *; lia)).
    cbv beta. set (v := undecimal _ _). change (char_eq "." ".") with true. cbv iota beta.
    destruct (Z.leb_spec (2 ^ 32) v), (Z.leb_spec v 255), (Z.ltb_spec 255 v); try lia; done.
Qed.

Lemma decimal_part p : isdigit p && bool_decide (show (undecimal p 0) = p) = true <-> canonical p /\ (length p <= 20)%nat.
Proof.
  rewrite andb_true_iff, bool_decide_eq_true, isdigit_spec. split.
  - intros [[Hn Hd] E]. assert (length p <= 20)%nat as Hl
      by (rewrite <-E; pose proof (digits_length 20 (undecimal p 0) []); unfold show; cbn in *; lia).
    split; [|done]. rewrite <-E. apply digits_canonical; [|lia]. pose proof (undecimal_bound p Hd). pose proof (undecimal_nonneg p Hd 0).
    assert (10 ^ Z.of_nat (length p) <= 10 ^ Z.of_nat 20) by (apply Z.pow_le_mono_r; lia). lia.
  - intros [Hc Hl]. split; [by destruct Hc as (? & ? & _)|]. by apply digits_undecimal.
Qed.

(** The controller accepts exactly the addresses the DPU reads. *)
Lemma valid_ipv4_spec s : valid_ipv4 s = true <-> exists ip, in_width 32 ip /\ s = show_ipv4 ip.
Proof.
  unfold valid_ipv4, inet_aton_ok. split.
  - destruct (inet_aton_from 3 s) eqn:E; cbn [negb]; [|done]. rewrite andb_true_iff, Nat.eqb_eq, forallb_spec. intros [Hl Hp].
    assert (Forall canonical (split_on "." s) /\ Forall (fun p => (length p <= 20)%nat) (split_on "." s)) as [Hc H20].
    { rewrite <-Forall_and. eapply Forall_impl; [exact Hp|]. intros p. apply decimal_part. }
    rewrite <-(join_split "." s), (inet_aton_octets 3) in E by done. apply forallb_spec in E.
    assert (octets 3 s = Some ((fun p => undecimal p 0) <$> split_on "." s)) as Ho.
    { apply octets_spec. rewrite length_fmap. split; [done|]. split.
      - apply Forall_fmap. pose proof (proj2 (Forall_and _ _) (conj E Hc)) as EH. eapply Forall_impl; [exact EH|].
        cbn. intros p [H1 (_ & Hd & _)]. pose proof (undecimal_nonneg p Hd 0). lia.
      - rewrite <-(join_split "." s) at 1. f_equal. rewrite <-list_fmap_compose. symmetry. etransitivity; [|apply list_fmap_id].
        apply list_fmap_ext. intros i p Hi. apply (digits_undecimal 20); [by eapply (Forall_lookup_1 _ _ _ _ Hc)|by eapply (Forall_lookup_1 _ _ _ _ H20)]. }
    exists (ip_be ((fun p => undecimal p 0) <$> split_on "." s)). apply span_ipv4_spec. unfold span_ipv4. by rewrite Ho.
  - intros (ip & Hi & ->). destruct (ip_octets_spec ip Hi) as [Ho _]. unfold show_ipv4.
    assert (Forall (fun p => canonical p /\ undecimal p 0 <= 255) (show <$> ip_octets ip)) as Hc.
    { apply Forall_fmap. eapply Forall_impl; [exact Ho|]. intros v Hv. cbv beta in Hv.
      change (canonical (show v) /\ undecimal (show v) 0 <= 255). assert (in_width 64 v) as Hw by (unfold in_width; lia).
      destruct (proj1 (show_spec (show v) v Hw) eq_refl) as (H1 & H2 & H3). split; [done|lia]. }
    apply Forall_and in Hc as [Hc H255]. rewrite (inet_aton_octets 3) by done.
    rewrite (proj2 (forallb_spec _ _)); [|eapply Forall_impl; [exact H255|]; intros p; apply Z.leb_le]. cbn [negb].
    rewrite split_join; [|done|eapply Forall_impl; [exact Hc|]; intros p (_ & Hd & _) Hin; by apply (proj1 (Forall_forall _ _) Hd) in Hin].
    apply andb_true_iff. split; [done|]. apply forallb_spec. apply Forall_fmap. eapply Forall_impl; [exact Ho|]. intros v Hv. cbv beta in Hv.
    apply decimal_part. assert (in_width 64 v) as Hw by (unfold in_width; lia).
    by destruct (proj1 (show_spec (show v) v Hw) eq_refl) as (H1 & H2 & H3).
Qed.

(** The port of an address, as written. *)
Definition port_text (rdma : text) : text := (partition ":" rdma).2.

Lemma partition_app c a b : c ∉ a -> partition c (a ++ c :: b) = (a, true, b).
Proof.
  intros H. unfold partition. rewrite memchr_app by done. rewrite take_app_length. f_equal.
  by rewrite (drop_app_ge a) by lia; replace (S (length a) - length a)%nat with 1%nat by lia.
Qed.

Lemma partition_Some c s a b : partition c s = (a, true, b) -> s = a ++ c :: b /\ c ∉ a.
Proof.
  unfold partition. destruct (memchr s c) as [i|] eqn:E; [|done]. intros [= <- <-].
  apply memchr_Some in E as (r & Hs & _ & Hn & Hr). split; [|done]. by rewrite Hr.
Qed.

Lemma undecimal_scale s from : Forall (fun c => is_digit c = true) s -> 0 <= from -> from * 10 ^ Z.of_nat (length s) <= undecimal s from.
Proof.
  intros H. revert from. induction H as [|c s Hc _ IH]; intros from Hf; [cbn; lia|].
  apply in_range_spec in Hc. change (b2z "0") with 48 in Hc.
  change (undecimal (c :: s) from) with (undecimal s (10 * from + (b2z c - 48))). etransitivity; [|apply IH; lia].
  cbn [length]. rewrite Nat2Z.inj_succ, Z.pow_succ_r by lia. pose proof (Z.pow_nonneg 10 (Z.of_nat (length s))). nia.
Qed.

Lemma canonical_short s k : canonical s -> undecimal s 0 < 10 ^ Z.of_nat k -> (0 < k)%nat -> (length s <= k)%nat.
Proof.
  intros (Hn & Hd & Hz) Hb Hk. destruct s as [|c s]; [done|]. inversion_clear Hd as [|? ? Hc Hs].
  destruct s as [|d s]; [cbn; lia|]. apply in_range_spec in Hc. change (b2z "0") with 48 in Hc.
  assert (b2z c <> 48) by (intros E; specialize (Hz ltac:(cbn; f_equal; by apply b2z_inj)); done).
  change (undecimal (c :: d :: s) 0) with (undecimal (d :: s) (10 * 0 + (b2z c - 48))) in Hb.
  pose proof (undecimal_scale (d :: s) (10 * 0 + (b2z c - 48)) Hs ltac:(lia)) as Hl.
  pose proof (Z.pow_nonneg 10 (Z.of_nat (length (d :: s)))). assert (10 ^ Z.of_nat (length (d :: s)) < 10 ^ Z.of_nat k) as H1 by nia.
  apply Z.pow_lt_mono_r_iff in H1; [|lia|lia]. cbn [length] in *. lia.
Qed.

(** The controller accepts an address and port the DPU reads, except that the port
    may have leading zeros. *)
Lemma valid_rdma_spec s : valid_rdma s = true /\ leading_zero (port_text s) = false <->
  exists ip port, in_width 32 ip /\ port_ok port /\ s = show_address ip port.
Proof.
  unfold valid_rdma, port_text. split.
  - destruct (partition ":" s) as [[a f] b] eqn:E. rewrite !andb_true_iff, !Z.ltb_lt. intros [[[[[-> Ha] Hb] H0] H1] Hz]. cbn [snd] in Hz.
    apply partition_Some in E as [-> _]. apply valid_ipv4_spec in Ha as (ip & Hi & ->). apply isdigit_spec in Hb as [Hn Hd].
    exists ip, (undecimal b 0). split; [done|]. split; [unfold port_ok; lia|]. unfold show_address. f_equal. f_equal.
    assert (canonical b) as Hc by (apply canonical_checks; [done|]; rewrite Hz; by destruct b).
    apply show_spec; [unfold in_width; lia|]. split; [done|]. split; [|done].
    pose proof (canonical_short b 5 Hc ltac:(change (10 ^ Z.of_nat 5) with 100000; lia) ltac:(lia)). lia.
  - intros (ip & port & Hi & Hp & ->). unfold show_address. rewrite partition_app by by apply show_colon_free.
    assert (in_width 64 port) as Hw by (unfold in_width, port_ok in *; lia). unfold port_ok in Hp.
    destruct (proj1 (show_spec (show port) port Hw) eq_refl) as (Hc & _ & Hv). rewrite Hv. pose proof Hc as (Hn & Hd & _).
    rewrite (proj2 (valid_ipv4_spec _)) by eauto. rewrite (proj2 (isdigit_spec _)) by done.
    apply canonical_checks in Hc; [|done]. apply orb_false_iff in Hc as [_ Hc]. split; [|done].
    destruct (Z.ltb_spec 0 port), (Z.ltb_spec port 65536); lia || done.
Qed.

(** ** The body of a generation

    [build_body] of the controller spells a document of the DPU's grammar, whose
    records are the facts of the cluster. *)

(** ** Facts *)

Definition node_fact (reports : dict text) (e : text * (text * text)) (n : dmesh_gen_node) : Prop :=
  gn_name n = e.1 /\ show_address (gn_rdma_ip_be n) (gn_rdma_port n) = e.2.1 /\
  show_hex (gn_dpu_static_public_key n) = default e.2.2 (dict_get reports e.1) /\ node_ok n.

(** A Pod with a UID, a node and an address. *)
Definition placed (p : k8s_pod) : Prop :=
  pod_uid (or_empty (kp_uid p)) /\ or_empty (kp_node_name p) <> [] /\ valid_ipv4 (or_empty (kp_ip p)) = true.
Definition pod_fact (p : k8s_pod) (x : dmesh_gen_pod) : Prop :=
  gp_uid x = or_empty (kp_uid p) /\ gp_node_name x = or_empty (kp_node_name p) /\ gp_namespace_name x = or_empty (kp_namespace p) /\
  gp_service_account x = or_default (txt "default") (kp_account p) /\ show_ipv4 (gp_ip_be x) = or_empty (kp_ip p) /\ pod_ok x.

Definition object_key (s : k8s_service) : text := service_key_text (or_empty (sv_namespace s)) (or_empty (sv_name s)).
(** A Service with an address and a first port, and what is published of it. *)
Definition service_fact (s : k8s_service) (x : text * Z * Z) : Prop :=
  x.1.1 = object_key s /\ show_ipv4 x.1.2 = or_empty (sv_cluster_ip s) /\ head (sv_ports s) = Some (Some x.2) /\
  in_width 32 x.1.2 /\ port_ok x.2.

Definition slice_key (l : k8s_slice) : text := service_key_text (or_empty (kl_namespace l)) (or_empty (kl_service l)).
(** A ready Pod behind a slice of a named Service. *)
Definition endpoint_fact (slices : list k8s_slice) (k u : text) : Prop :=
  exists l e, l ∈ slices /\ e ∈ kl_endpoints l /\ or_empty (kl_service l) <> [] /\ k = slice_key l /\
    ke_ready e = Some true /\ ke_kind e = Some (txt "Pod") /\ u = or_empty (ke_uid e).

(** The records say what the cluster is. *)
Record states (reports : dict text) (nodes : dict (text * text)) (pods : list k8s_pod) (services : list k8s_service)
    (slices : list k8s_slice) (protected : list text) (rs : list gen_record) : Prop := {
  sf_nodes : Forall2 (node_fact reports) (merge_sort name_le nodes) (nodes_of rs);
  sf_pods : forall x, x ∈ pods_of rs <-> exists p, p ∈ pods /\ placed p /\ pod_fact p x;
  sf_services : forall x, x ∈ services_of rs <-> exists s, s ∈ services /\ service_fact s x;
  sf_endpoints : forall k u, (k, u) ∈ endpoints_of rs <->
    endpoint_fact slices k u /\ k ∈ service_name <$> services_of rs /\ u ∈ gp_uid <$> pods_of rs;
  sf_protected : forall k, k ∈ protected_of rs <-> k ∈ protected /\ k ∈ service_name <$> services_of rs }.

(** ** Nodes *)

(** What [read_nodes_file] guarantees of an entry, and that its port has no leading
    zero. *)
Definition node_entry (e : text * (text * text)) : Prop := valid_node_record e.1 e.2.1 e.2.2 = true.
Definition plain_ports (nodes : dict (text * text)) : Prop := Forall (fun e => leading_zero (port_text e.2.1) = false) nodes.
Definition reports_ok (reports : dict text) : Prop := Forall (fun e => fullmatch HEX64_RE e.2 = true) reports.

Lemma dict_get_in {A} (d : dict A) k v : dict_get d k = Some v -> (k, v) ∈ d.
Proof.
  unfold dict_get. rewrite fmap_Some. intros ([i [k' v']] & H & ->). apply list_find_Some in H as (Hi & Hk & _). cbn in *. subst.
  by eapply list_elem_of_lookup_2.
Qed.

Lemma node_fact_exists reports e : reports_ok reports -> node_entry e -> leading_zero (port_text e.2.1) = false ->
  exists n, node_fact reports e n /\ node_line reports e = show_record (RNode n).
Proof.
  intros Hr He Hz. unfold node_entry, valid_node_record in He. rewrite !andb_true_iff in He. destruct He as [[[[Hn Hl] _] Ha] Hk].
  apply dns_re in Hn. apply Nat.leb_le in Hl. destruct (proj1 (valid_rdma_spec e.2.1) (conj Ha Hz)) as (ip & port & Hi & Hp & Ea).
  assert (fullmatch HEX64_RE (default e.2.2 (dict_get reports e.1)) = true) as Hx.
  { destruct (dict_get reports e.1) as [k|] eqn:E; [|done]. cbn. apply dict_get_in in E. by apply (proj1 (Forall_forall _ _) Hr) in E. }
  apply hex64_re in Hx as (bs & Hb & Eb). exists (GenNode e.1 ip port bs).
  unfold node_fact, node_ok, node_line. cbn [gn_name gn_rdma_ip_be gn_rdma_port gn_dpu_static_public_key]. rewrite Eb, Ea. by split_and!.
Qed.

Lemma node_facts reports nodes : reports_ok reports -> Forall node_entry nodes -> plain_ports nodes ->
  exists ns, Forall2 (node_fact reports) nodes ns /\ node_line reports <$> nodes = show_record <$> (RNode <$> ns).
Proof.
  intros Hr. induction nodes as [|e nodes IH]; intros He Hp; [by exists []|].
  inversion_clear He as [|? ? He1 He2]. inversion_clear Hp as [|? ? Hp1 Hp2].
  destruct (node_fact_exists reports e Hr He1 Hp1) as (n & Hn & En). destruct (IH He2 Hp2) as (ns & Hns & Es).
  exists (n :: ns). split; [by constructor|]. cbn [fmap list_fmap] in *. by rewrite En, Es.
Qed.

(** ** Pods *)

Lemma pod_fact_exists p : pod_admitted p -> placed p -> exists x, pod_fact p x.
Proof.
  intros [(ns & Ens & Hns) _ _ Hnode Hacc] (Hu & Hn & Hi). apply valid_ipv4_spec in Hi as (ip & Hi & Ei).
  exists (GenPod (or_empty (kp_uid p)) (or_empty (kp_node_name p)) ns (or_default (txt "default") (kp_account p)) ip).
  unfold pod_fact, pod_ok. cbn. rewrite Ens. split_and!; try done.
  - destruct (kp_node_name p) as [n|] eqn:En; [|done]. by destruct (Hnode n eq_refl) as [->|[? ?]].
  - destruct (kp_node_name p) as [n|] eqn:En; [|done]. by destruct (Hnode n eq_refl) as [->|[? ?]].
  - apply Hns.
  - apply Hns.
  - destruct (kp_account p) as [[|c a]|] eqn:Ea; cbn; try (by apply dns_re). by destruct (Hacc _ eq_refl) as [|[? ?]].
  - destruct (kp_account p) as [[|c a]|] eqn:Ea; cbn [or_default]; try (cbn; lia). by destruct (Hacc _ eq_refl) as [|[? ?]].
Qed.

Lemma show_ipv4_inj a b : in_width 32 a -> in_width 32 b -> show_ipv4 a = show_ipv4 b -> a = b.
Proof.
  intros Ha Hb E. assert (span_ipv4 (show_ipv4 a) = Some a) as H by by apply span_ipv4_spec. rewrite E in H.
  assert (span_ipv4 (show_ipv4 b) = Some b) as H' by by apply span_ipv4_spec. congruence.
Qed.

Lemma pod_fact_fun p x y : pod_fact p x -> pod_fact p y -> x = y.
Proof.
  unfold pod_fact, pod_ok. destruct x as [x1 x2 x3 x4 x5], y as [y1 y2 y3 y4 y5].
  cbn [gp_uid gp_node_name gp_namespace_name gp_service_account gp_ip_be].
  intros (-> & -> & -> & -> & E & (_ & _ & _ & _ & Hx)) (-> & -> & -> & -> & E' & (_ & _ & _ & _ & Hy)).
  f_equal. apply show_ipv4_inj; [done..|congruence].
Qed.

Record pods_listed (seen : list text) (pods : list k8s_pod) (ls uids : list text) (xs : list dmesh_gen_pod) : Prop := {
  pl_lines : ls = show_record <$> (RPod <$> xs);
  pl_uids : uids = seen ++ (gp_uid <$> xs);
  pl_unique : NoDup seen -> NoDup uids;
  pl_sound : forall x, x ∈ xs -> exists p, p ∈ pods /\ placed p /\ pod_fact p x;
  pl_complete : forall p, p ∈ pods -> placed p -> or_empty (kp_uid p) ∈ uids }.

Lemma pod_lines_listed seen pods : Forall pod_admitted pods ->
  exists xs, pods_listed seen pods (pod_lines seen pods).1 (pod_lines seen pods).2 xs.
Proof.
  intros H. revert seen. induction H as [|p pods Hp _ IH]; intros seen; cbn [pod_lines].
  { exists []. split; cbn; [done|by rewrite app_nil_r|done|by intros x ?%elem_of_nil|by intros x ?%elem_of_nil]. }
  destruct (negb _ || _ || _) eqn:Eskip.
  { destruct (IH seen) as (xs & [? ? ? Hs Hc]). exists xs. split; [done..| |]; [intros x Hx; destruct (Hs x Hx) as (q & ? & ?); exists q; by split; [right|]|]. intros q [->|Hq]%elem_of_cons Hpl; [|by apply Hc].
    exfalso. destruct Hpl as (H1 & H2 & H3). apply uid_re in H1. rewrite H1, H3, bool_decide_eq_false_2 in Eskip by done. done. }
  rewrite !orb_false_iff, !negb_false_iff, bool_decide_eq_false in Eskip. destruct Eskip as [[E1 E2] E3].
  assert (placed p) as Hpl by (split; [by apply uid_re|done]).
  case_bool_decide as Hin.
  { destruct (IH seen) as (xs & [? Eu ? Hs Hc]). exists xs. split; [done..| |]; [intros x Hx; destruct (Hs x Hx) as (q & ? & ?); exists q; by split; [right|]|]. intros q [->|Hq]%elem_of_cons Hq'; [|by apply Hc].
    rewrite Eu. apply elem_of_app. by left. }
  destruct (pod_fact_exists p Hp Hpl) as (x & Hx). destruct (IH (seen ++ [or_empty (kp_uid p)])) as (xs & [El Eu Hn Hs Hc]).
  destruct (pod_lines _ pods) as [ls uids]. cbn [fst snd] in *. exists (x :: xs). pose proof Hx as (X1 & X2 & X3 & X4 & X5 & _). split.
  - cbn [fmap list_fmap]. rewrite El. f_equal. cbn [show_record]. unfold show_pod. rewrite X1, X2, X3, X4, X5. reflexivity.
  - rewrite Eu. cbn [fmap list_fmap]. by rewrite X1, <-app_assoc.
  - intros Hnd. apply Hn, NoDup_app. split; [done|]. split; [|apply NoDup_singleton]. by intros u Hu ->%list_elem_of_singleton.
  - intros y [->|Hy]%elem_of_cons; [by exists p; split; [left|]|]. destruct (Hs y Hy) as (q & ? & ?). exists q. by split; [right|].
  - intros q [->|Hq]%elem_of_cons Hq'; [|by apply Hc]. rewrite Eu, !elem_of_app, list_elem_of_singleton. auto.
Qed.

(** ** Services *)

Lemma object_key_ok s : service_admitted s -> service_key (object_key s).
Proof.
  intros [(ns & Ens & Hns & Lns) (n & En & Hn & Ln)]. exists ns, n. unfold object_key. rewrite Ens, En. by split_and!.
Qed.

Lemma key_of_inj s s' : service_admitted s -> service_admitted s' -> object_key s = object_key s' -> (sv_namespace s, sv_name s) = (sv_namespace s', sv_name s').
Proof.
  intros [(a & Ea & Ha & _) (b & Eb & _)] [(a' & Ea' & Ha' & _) (b' & Eb' & _)]. unfold object_key. rewrite Ea, Eb, Ea', Eb'.
  cbn [or_empty default from_option id]. unfold service_key_text. intros E.
  apply (split_at_sep "/") in E as [-> ->]; [done|apply slash_free, Ha|apply slash_free, Ha'].
Qed.

Lemma key_of_unique services : Forall service_admitted services ->
  NoDup ((fun s => (sv_namespace s, sv_name s)) <$> services) -> NoDup (object_key <$> services).
Proof.
  induction services as [|s services IH]; [constructor|]. intros Ha Hn. inversion_clear Ha as [|? ? Hs Hss].
  cbn [fmap list_fmap] in *. inversion_clear Hn as [|? ? Hn1 Hn2]. constructor; [|by apply IH].
  intros (s' & E & Hs')%list_elem_of_fmap. apply Hn1, list_elem_of_fmap. exists s'. split; [|done].
  apply key_of_inj; [done| |done]. by eapply Forall_forall in Hss.
Qed.

Record services_listed (seen : list text) (services : list k8s_service) (ls keys : list text) (xs : list (text * Z * Z)) : Prop := {
  sl_lines : ls = show_record <$> ((fun x => RService x.1.1 x.1.2 x.2) <$> xs);
  sl_keys : keys = seen ++ (service_name <$> xs);
  sl_facts : forall x, x ∈ xs <-> exists s, s ∈ services /\ service_fact s x;
  sl_unique : NoDup (service_name <$> xs) }.

Lemma service_fact_fun s x y : service_fact s x -> service_fact s y -> x = y.
Proof.
  destruct x as [[k i] p], y as [[k' i'] p']. unfold service_fact. cbn [fst snd].
  intros (-> & E & P & Hi & _) (-> & E' & P' & Hi' & _). rewrite P in P'. injection P' as ->. f_equal. f_equal.
  apply show_ipv4_inj; [done..|congruence].
Qed.

(** The port a Service is published with, if it is. *)
Definition dialable (s : k8s_service) : option Z :=
  match sv_ports s with
  | Some port :: _ => if negb (valid_ipv4 (or_empty (sv_cluster_ip s))) || negb ((0 <? port) && (port <? 65536)) then None else Some port
  | _ => None
  end.

Lemma service_lines_cons keys s ss : service_lines keys (s :: ss) =
  match dialable s with
  | None => service_lines keys ss
  | Some port =>
      let (ls, ks) := service_lines (add_once (object_key s) keys) ss in
      ((txt "service=" ++ object_key s ++ COMMA ++ or_empty (sv_cluster_ip s) ++ txt ":" ++ show port) :: ls, ks)
  end.
Proof. unfold dialable. cbn [service_lines]. destruct (sv_ports s) as [|[port|] ports]; [done| |done]. by destruct (negb _ || _). Qed.

Lemma dialable_spec s :
  match dialable s with None => forall x, ~ service_fact s x | Some port => exists ip, service_fact s (object_key s, ip, port) end.
Proof.
  assert (forall x, service_fact s x -> valid_ipv4 (or_empty (sv_cluster_ip s)) = true /\ head (sv_ports s) = Some (Some x.2) /\ port_ok x.2) as Hf.
  { intros x (_ & E & Hp & Hi & Ho). split; [|done]. apply valid_ipv4_spec. by exists x.1.2. }
  unfold dialable. destruct (sv_ports s) as [|[port|] ports] eqn:Ep; [by intros x (_ & ? & _)%Hf| |by intros x (_ & ? & _)%Hf].
  destruct (negb _ || _) eqn:E.
  - intros x Hx. destruct (Hf x Hx) as (Hv & Hh & Ho). injection Hh as Eh. rewrite Hv, Eh in E. cbn [negb orb] in E. unfold port_ok in Ho.
    destruct (Z.ltb_spec 0 x.2), (Z.ltb_spec x.2 65536); try lia; done.
  - rewrite orb_false_iff, !negb_false_iff, andb_true_iff, !Z.ltb_lt in E. destruct E as [Hv Hp].
    apply valid_ipv4_spec in Hv as (ip & Hi & Ei). exists ip. unfold service_fact. cbn [fst snd]. rewrite Ep. unfold port_ok.
    split_and!; (done || lia).
Qed.

Lemma service_lines_listed seen services :
  Forall service_admitted services -> NoDup (object_key <$> services) -> (forall k, k ∈ seen -> k ∉ object_key <$> services) ->
  exists xs, services_listed seen services (service_lines seen services).1 (service_lines seen services).2 xs.
Proof.
  revert seen. induction services as [|s services IH]; intros seen Ha Hn Hd.
  { exists []. split; cbn; [done|by rewrite app_nil_r| |constructor]. intros x. split; [by intros ?%elem_of_nil|by intros (? & ?%elem_of_nil & _)]. }
  inversion_clear Ha as [|? ? Hs Hss]. cbn [fmap list_fmap] in *. inversion_clear Hn as [|? ? Hn1 Hn2].
  rewrite service_lines_cons. pose proof (dialable_spec s) as Hf. destruct (dialable s) as [port|].
  - destruct Hf as (ip & Hf). assert (object_key s ∉ seen) as Hns by (intros Hin; apply (Hd _ Hin); by left).
    unfold add_once. rewrite bool_decide_eq_false_2 by done.
    destruct (IH (seen ++ [object_key s])) as (xs & [El Ek Hx Hu]); [done..| |].
    { intros k [Hk| ->%list_elem_of_singleton]%elem_of_app; [|done]. intros Hin. apply (Hd _ Hk). by right. }
    destruct (service_lines _ services) as [ls ks]. cbn [fst snd] in *. exists ((object_key s, ip, port) :: xs). split.
    + cbn [fmap list_fmap]. rewrite El. f_equal. destruct Hf as (_ & E & _). cbn [fst snd] in E. rewrite <-E. reflexivity.
    + rewrite Ek, <-app_assoc. done.
    + intros x. rewrite elem_of_cons, Hx. split.
      * intros [->|(s' & ? & ?)]; [exists s; split; [by left|done]|exists s'; split; [by right|done]].
      * intros (s' & [->|Hs']%elem_of_cons & H); [left; by eapply service_fact_fun|right; by exists s'].
    + cbn [fmap list_fmap]. constructor; [|done]. intros (x & E & Hin)%list_elem_of_fmap. apply Hx in Hin as (s' & Hs' & (E' & _)).
      apply Hn1, list_elem_of_fmap. exists s'. split; [|done]. unfold service_name in E. cbn in E. congruence.
  - destruct (IH seen) as (xs & [? ? Hx ?]); [done..|intros k Hk Hin; apply (Hd _ Hk); by right|]. exists xs. split; [done..| |done].
    intros x. rewrite Hx. split; [intros (s' & ? & ?); exists s'; split; [by right|done]|].
    intros (s' & [->|Hs']%elem_of_cons & H); [by destruct (Hf x)|by exists s'].
Qed.

(** ** Endpoints *)

Lemma endpoint_entries_spec key uids seen es :
  (NoDup seen -> NoDup (endpoint_entries key uids seen es)) /\
  forall k u, (k, u) ∈ endpoint_entries key uids seen es <->
    (k, u) ∈ seen \/ k = key /\ u ∈ uids /\ exists e, e ∈ es /\ ke_ready e = Some true /\ ke_kind e = Some (txt "Pod") /\ u = or_empty (ke_uid e).
Proof.
  revert seen. induction es as [|e es IH]; intros seen; cbn [endpoint_entries].
  { split; [done|]. intros k u. split; [by left|]. by intros [?|(_ & _ & ? & ?%elem_of_nil & _)]. }
  assert (forall k u, k = key /\ u ∈ uids /\ (exists e', e' ∈ e :: es /\ ke_ready e' = Some true /\ ke_kind e' = Some (txt "Pod") /\ u = or_empty (ke_uid e')) <->
    k = key /\ u ∈ uids /\ ke_ready e = Some true /\ ke_kind e = Some (txt "Pod") /\ u = or_empty (ke_uid e) \/
    k = key /\ u ∈ uids /\ (exists e', e' ∈ es /\ ke_ready e' = Some true /\ ke_kind e' = Some (txt "Pod") /\ u = or_empty (ke_uid e'))) as Hc.
  { intros k u. setoid_rewrite elem_of_cons. split.
    - intros (-> & Hu & e' & [->|He] & H); [by left|right]. split; [done|]. split; [done|]. by exists e'.
    - intros [(-> & Hu & H)|(-> & Hu & e' & He & H)]; (split; [done|]; split; [done|]); [exists e|exists e']; auto. }
  setoid_rewrite Hc. clear Hc. case_bool_decide as Hr; cbn [negb]; [|destruct (IH seen) as [H1 H2]; split; [done|]; intros k u; rewrite H2; tauto].
  destruct (negb _ || _) eqn:Ek.
  { destruct (IH seen) as [H1 H2]. split; [done|]. intros k u. rewrite H2. apply orb_true_iff in Ek as [Ek|Ek].
    - apply negb_true_iff, bool_decide_eq_false in Ek. tauto.
    - apply bool_decide_eq_true in Ek. split; [tauto|]. intros [?|[(_ & ? & _ & _ & ->)|?]]; [tauto|done|tauto]. }
  rewrite orb_false_iff, negb_false_iff, bool_decide_eq_true, bool_decide_eq_false in Ek. destruct Ek as [Ek Eu]. apply dec_stable in Eu.
  case_bool_decide as Hs.
  - destruct (IH seen) as [H1 H2]. split; [done|]. intros k u. rewrite H2. split; [tauto|].
    intros [?|[(-> & _ & _ & _ & ->)|?]]; tauto.
  - destruct (IH (seen ++ [(key, or_empty (ke_uid e))])) as [H1 H2]. split.
    + intros Hn. apply H1, NoDup_app. split; [done|]. split; [|apply NoDup_singleton]. by intros x Hx ->%list_elem_of_singleton.
    + intros k u. rewrite H2, elem_of_app, list_elem_of_singleton. split.
      * intros [[?|[= -> ->]]|?]; tauto.
      * intros [?|[(-> & _ & _ & _ & ->)|?]]; tauto.
Qed.

Lemma slice_entries_spec keys uids seen slices :
  (NoDup seen -> NoDup (slice_entries keys uids seen slices)) /\
  forall k u, (k, u) ∈ slice_entries keys uids seen slices <->
    (k, u) ∈ seen \/ endpoint_fact slices k u /\ k ∈ keys /\ u ∈ uids.
Proof.
  revert seen. induction slices as [|l slices IH]; intros seen; cbn [slice_entries].
  { split; [done|]. intros k u. split; [by left|]. by intros [?|((? & ? & ?%elem_of_nil & _) & _)]. }
  assert (forall k u, endpoint_fact (l :: slices) k u <-> endpoint_fact [l] k u \/ endpoint_fact slices k u) as Hc.
  { intros k u. unfold endpoint_fact. setoid_rewrite elem_of_cons. setoid_rewrite elem_of_nil. naive_solver. }
  assert (forall k u, endpoint_fact [l] k u <-> or_empty (kl_service l) <> [] /\ k = slice_key l /\
    exists e, e ∈ kl_endpoints l /\ ke_ready e = Some true /\ ke_kind e = Some (txt "Pod") /\ u = or_empty (ke_uid e)) as Hl.
  { intros k u. unfold endpoint_fact. setoid_rewrite list_elem_of_singleton. naive_solver. }
  setoid_rewrite Hc. setoid_rewrite Hl. fold (slice_key l). destruct (bool_decide _ || _) eqn:E.
  - destruct (IH seen) as [H1 H2]. split; [done|]. intros k u. rewrite H2. split; [tauto|].
    rewrite orb_true_iff, !bool_decide_eq_true in E. intros [?|([(Hn & -> & _)|?] & ? & ?)]; tauto.
  - rewrite orb_false_iff, !bool_decide_eq_false in E. destruct E as [En Ek]. apply dec_stable in Ek.
    destruct (endpoint_entries_spec (slice_key l) uids seen (kl_endpoints l)) as [N1 M1].
    destruct (IH (endpoint_entries (slice_key l) uids seen (kl_endpoints l))) as [H1 H2]. split; [by intros Hn; apply H1, N1|].
    intros k u. rewrite H2, M1. split.
    + intros [[?|(-> & ? & ?)]|?]; tauto.
    + intros [?|([(_ & -> & ?)|?] & ? & ?)]; tauto.
Qed.

(** ** The document *)

Lemma NoDup_fmap_inj_elem {A B} (f : A -> B) l x y : NoDup (f <$> l) -> x ∈ l -> y ∈ l -> f x = f y -> x = y.
Proof.
  intros Hn (i & Hi)%list_elem_of_lookup_1 (j & Hj)%list_elem_of_lookup_1 E.
  assert (i = j) as ->; [|congruence]. eapply (NoDup_lookup _ _ _ (f x) Hn); rewrite list_lookup_fmap, ?Hi, ?Hj; cbn; congruence.
Qed.

Lemma py_lines_unlines ls : py_lines ls = unlines ls.
Proof. induction ls as [|l ls IH]; [done|]. unfold py_lines in *. cbn [fmap list_fmap concat]. rewrite IH, unlines_cons, <-app_assoc. done. Qed.

Section assembly.
Context (ns : list dmesh_gen_node) (ps : list dmesh_gen_pod) (ss : list (text * Z * Z)) (es : list (text * text)) (ks : list text).

Definition assembled : list gen_record :=
  (RNode <$> ns) ++ (RPod <$> ps) ++ ((fun x => RService x.1.1 x.1.2 x.2) <$> ss) ++ ((fun e => REndpoint e.1 e.2) <$> es) ++ (RProtected <$> ks).

Lemma omap_none {A B C} (f : B -> option C) (g : A -> B) (l : list A) : (forall x, f (g x) = None) -> omap f (g <$> l) = [].
Proof. intros H. induction l as [|x l IH]; [done|]. cbn. by rewrite H. Qed.
Lemma omap_some {A B C} (f : B -> option C) (g : A -> B) (h : A -> C) (l : list A) : (forall x, f (g x) = Some (h x)) -> omap f (g <$> l) = h <$> l.
Proof. intros H. induction l as [|x l IH]; [done|]. cbn. rewrite H. f_equal. exact IH. Qed.

Lemma assembled_of :
  nodes_of assembled = ns /\ pods_of assembled = ps /\ services_of assembled = ss /\ endpoints_of assembled = es /\ protected_of assembled = ks.
Proof.
  unfold nodes_of, pods_of, services_of, endpoints_of, protected_of, assembled. rewrite !omap_app.
  split_and!; repeat match goal with
    | |- context [omap ?f (?g <$> ?l)] =>
        first [rewrite (omap_none f g l) by done | rewrite (omap_some f g id l) by (intros x; first [done | destruct x as [[? ?] ?]; done | destruct x as [? ?]; done])]
    end; by rewrite list_fmap_id, ?app_nil_r.
Qed.

Lemma assembled_consistent :
  Forall node_ok ns -> Forall pod_ok ps -> Forall (fun x => service_key x.1.1 /\ in_width 32 x.1.2 /\ port_ok x.2) ss ->
  NoDup (gp_uid <$> ps) -> NoDup (service_name <$> ss) ->
  (forall k u, (k, u) ∈ es -> k ∈ service_name <$> ss /\ u ∈ gp_uid <$> ps) -> (forall k, k ∈ ks -> k ∈ service_name <$> ss) ->
  (length ns <= GEN_NODE_MAX)%nat -> (length ps <= GEN_POD_MAX)%nat -> (length ss <= GEN_SERVICE_MAX)%nat -> (length es <= GEN_ENDPOINT_MAX)%nat ->
  consistent assembled.
Proof.
  intros Hns Hps Hss Np Ns He Hk B1 B2 B3 B4. destruct assembled_of as (O1 & O2 & O3 & O4 & O5).
  assert (forall k, k ∈ service_name <$> ss -> service_key k) as Hsk.
  { intros k (x & -> & Hx)%list_elem_of_fmap. by apply (proj1 (Forall_forall _ _) Hss) in Hx as [? _]. }
  split; rewrite ?O1, ?O2, ?O3, ?O4, ?O5; try done.
  unfold assembled. rewrite !Forall_app, !Forall_fmap. split_and!; [done..| |].
  - apply Forall_forall. intros [k u] Hin. destruct (He k u Hin) as [Hk' (x & -> & Hx)%list_elem_of_fmap].
    split; [by apply Hsk|]. by apply (proj1 (Forall_forall _ _) Hps) in Hx as [? _].
  - apply Forall_forall. intros k Hin. by apply Hsk, Hk.
Qed.
End assembly.

(** The body spells a valid document that states the facts of the cluster. *)
Lemma build_body_states version reports nodes pods services slices protected body :
  build_body version (node_line reports <$> merge_sort name_le nodes) pods services slices protected = inr body ->
  Forall node_entry nodes -> plain_ports nodes -> reports_ok reports -> cluster_admitted pods services -> 0 < version < 2 ^ 64 ->
  exists rs, valid_document [] version rs /\ body = show_document [] version rs /\ states reports nodes pods services slices protected rs.
Proof.
  intros H He Hp Hr [Cp Cu Cs Cn] Hv. unfold build_body in H.
  rewrite <-(merge_sort_Permutation name_le nodes) in He. unfold plain_ports in Hp. rewrite <-(merge_sort_Permutation name_le nodes) in Hp.
  destruct (node_facts reports _ Hr He Hp) as (ns & Hns & Ens).
  destruct (pod_lines_listed [] pods Cp) as (ps & [Ep Eu Hu Hs Hc]).
  destruct (service_lines_listed [] services Cs) as (ss & [Es Ek Hf Hn]); [by apply key_of_unique|by intros k ?%elem_of_nil|].
  apply bind_inr in H as ([] & B1 & H). apply raise_if_inr, Nat.ltb_ge in B1.
  destruct (pod_lines [] pods) as [pl uids]. cbn [fst snd app] in Ep, Eu, Hu, Hc. subst uids.
  apply bind_inr in H as ([] & B2 & H). apply raise_if_inr, Nat.ltb_ge in B2.
  destruct (service_lines [] services) as [sl keys]. cbn [fst snd app] in Es, Ek. subst keys.
  apply bind_inr in H as ([] & B3 & H). apply raise_if_inr, Nat.ltb_ge in B3.
  destruct (slice_entries_spec (service_name <$> ss) (gp_uid <$> ps) [] slices) as [En Em].
  set (es := slice_entries _ _ _ _) in *. apply bind_inr in H as ([] & B4 & H). apply raise_if_inr, Nat.ltb_ge in B4.
  set (ks := filter _ protected) in H. injection H as <-. specialize (Hu ltac:(constructor)).
  rewrite length_fmap in B1. rewrite length_fmap in B2. rewrite length_fmap in B3.
  pose proof (Forall2_length _ _ _ Hns) as Ln. exists (assembled ns ps ss es ks).
  destruct (assembled_of ns ps ss es ks) as (O1 & O2 & O3 & O4 & O5).
  assert (forall k u, (k, u) ∈ es <-> endpoint_fact slices k u /\ k ∈ service_name <$> ss /\ u ∈ gp_uid <$> ps) as Em'.
  { intros k u. rewrite Em, elem_of_nil. tauto. }
  assert (forall k, k ∈ ks <-> k ∈ protected /\ k ∈ service_name <$> ss) as Hks by (intros k; unfold ks; rewrite list_elem_of_filter; tauto).
  split; [split; [constructor|]; split; [done|]|split].
  - apply assembled_consistent; try done; [..|intros k u Hin; apply Em' in Hin; tauto|intros k Hin; apply Hks in Hin; tauto|lia].
    + apply Forall_forall. intros n (i & Hi)%list_elem_of_lookup_1. destruct (Forall2_lookup_r _ _ _ _ _ Hns Hi) as (e & _ & Hok). apply Hok.
    + apply Forall_forall. intros x (q & _ & _ & (_ & _ & _ & _ & _ & Ho))%Hs. exact Ho.
    + apply Forall_forall. intros x (s & Hin & (E & _ & _ & Hi & Ho))%Hf. split; [|done]. rewrite E. apply object_key_ok. by eapply Forall_forall in Cs.
  - rewrite py_lines_unlines, Ens, Ep, Es. unfold show_document, assembled. cbn [app]. rewrite !fmap_app. f_equal. f_equal. f_equal. f_equal. f_equal.
    f_equal; rewrite <-list_fmap_compose; done.
  - split; rewrite ?O1, ?O2, ?O3, ?O4, ?O5; [done| |done|done|done].
    intros x. split; [apply Hs|]. intros (p & Hp' & Hpl & Hfact).
    pose proof (Hc p Hp' Hpl) as Hin. apply list_elem_of_fmap in Hin as (y & Ey & Hy). destruct (Hs y Hy) as (q & Hq & Hql & Hqf).
    assert (kp_uid p = kp_uid q) as Eq.
    { destruct Hqf as (E1 & _). destruct Hpl as ((L1 & _) & _), Hql as ((L2 & _) & _). rewrite E1 in Ey.
      destruct (kp_uid p), (kp_uid q); cbn in *; congruence || done. }
    assert (p = q) as <- by (by apply (NoDup_fmap_inj_elem kp_uid pods)). by rewrite (pod_fact_fun p x y Hfact Hqf).
Qed.
