(* ===== verification/ControllerProofs.v ===== *)
(** * The controller: theorems *)

From S2P Require Import Prelude Text Spans PeerIdentity WorkloadIdentity WorkloadProofs Topology TopologyGrammar TopologyParse TopologyIntern TopologyLookups ControlScope PyText Controller ControllerText.

(** ** Lines *)

(** Characters that stay inside a line. *)
Definition inner (c : byte) : bool := negb (line_end c) && is_ascii c.
Abbreviation clean := (Forall (fun c => inner c = true)).

Lemma lines_from_app line l rest : clean l -> lines_from line (l ++ NL :: rest) = (line ++ l) :: splitlines rest.
Proof.
  intros H. revert line. induction H as [|c l Hc _ IH]; intros line; cbn [app lines_from].
  - change (line_end NL) with true. cbn [negb]. rewrite app_nil_r. f_equal. by destruct rest.
  - apply andb_true_iff in Hc as [-> _]. rewrite IH. by rewrite <-app_assoc.
Qed.

Lemma splitlines_unlines ls : Forall clean ls -> splitlines (unlines ls) = ls.
Proof.
  induction 1 as [|l ls Hl _ IH]; [done|]. rewrite unlines_cons. unfold splitlines. rewrite lines_from_app by done. by rewrite IH.
Qed.

Lemma plain_clean s : plain_text s -> clean s.
Proof. intros H. eapply Forall_impl; [exact H|]. intros c Hc. by destruct c. Qed.

Lemma join_clean sep fs : inner sep = true -> Forall clean fs -> clean (join_with sep fs).
Proof.
  intros Hs. induction 1 as [|f fs Hf _ IH]; [constructor|]. destruct fs as [|g fs]; [done|].
  change (clean (f ++ sep :: join_with sep (g :: fs))). apply Forall_app. split; [done|]. by constructor.
Qed.

Lemma show_clean n : 0 <= n -> clean (show n).
Proof. intros H. by apply plain_clean, show_plain. Qed.

Lemma address_clean ip port : in_width 32 ip -> port_ok port -> clean (show_address ip port).
Proof.
  intros Hi Hp. unfold show_address. apply Forall_app. split; [by apply plain_clean, show_ipv4_plain|]. constructor; [done|].
  apply show_clean. unfold port_ok in Hp. lia.
Qed.

Lemma record_clean r : record_ok r -> clean (show_record r).
Proof.
  destruct r as [n|p|k ip port|k u|k]; cbn [record_ok show_record]; intros H; (apply Forall_app; split; [by repeat constructor|]).
  - destruct H as (Hn & _ & Hi & Hp & _). apply join_clean; [done|]. repeat constructor; [by apply plain_clean, dns_name_plain|by apply address_clean|apply plain_clean, show_hex_plain].
  - destruct H as (Hu & [Hn _] & [Hs _] & [Ha _] & Hi). apply join_clean; [done|].
    repeat constructor; apply plain_clean; [by apply pod_uid_plain|by apply dns_name_plain|by apply dns_label_plain|by apply dns_name_plain|by apply show_ipv4_plain].
  - destruct H as (Hk & Hi & Hp). apply join_clean; [done|]. repeat constructor; [by apply plain_clean, service_key_plain|by apply address_clean].
  - destruct H as (Hk & Hu). apply join_clean; [done|]. repeat constructor; apply plain_clean; [by apply service_key_plain|by apply pod_uid_plain].
  - by apply plain_clean, service_key_plain.
Qed.

(** ** Signed documents *)

Definition signature_text (key_id : text) (signature : list byte) : text := txt "signature=" ++ key_id ++ COMMA ++ show_hex signature.
Definition signed (v : Z) (rs : list gen_record) (key_id : text) (signature : list byte) : text :=
  show_document [] v rs ++ signature_line key_id signature.

Lemma unlines_app a b : unlines (a ++ b) = unlines a ++ unlines b.
Proof. apply bind_app. Qed.

Lemma signed_unlines v rs key_id signature :
  signed v rs key_id signature = unlines ((K_VERSION ++ show v) :: (show_record <$> rs) ++ [signature_text key_id signature]).
Proof.
  unfold signed, show_document. cbn [app]. rewrite app_comm_cons, unlines_app. f_equal. unfold unlines, signature_text, signature_line. cbn.
  by rewrite app_nil_r, <-!app_assoc.
Qed.

Lemma suffix_of_app p s : suffix_of p (p ++ s) = Some s.
Proof. unfold suffix_of. rewrite (proj2 (starts_spec p (p ++ s))) by eauto. by rewrite drop_app_length. Qed.

Lemma unlines_ascii ls : Forall clean ls -> forallb is_ascii (unlines ls) = true.
Proof.
  intros H. apply forallb_spec. induction H as [|l ls Hl _ IH]; [constructor|]. rewrite unlines_cons. apply Forall_app.
  split; [|by constructor]. eapply Forall_impl; [exact Hl|]. intros c [_ Hc]%andb_true_iff. exact Hc.
Qed.

Section document.
Context (v : Z) (rs : list gen_record) (key_id : text) (signature : list byte).
Hypotheses (Hrs : Forall record_ok rs) (Hid : clean key_id) (Hv : in_width 64 v).

Lemma lines_clean : Forall clean ((K_VERSION ++ show v) :: (show_record <$> rs) ++ [signature_text key_id signature]).
Proof.
  constructor; [apply Forall_app; split; [by repeat constructor|apply show_clean, Hv]|].
  apply Forall_app. split; [apply Forall_fmap; eapply Forall_impl; [exact Hrs|apply record_clean]|]. constructor; [|constructor].
  unfold signature_text. apply Forall_app. split; [by repeat constructor|]. apply Forall_app. split; [done|].
  apply Forall_app. split; [by repeat constructor|apply plain_clean, show_hex_plain].
Qed.

Lemma signed_lines : splitlines (signed v rs key_id signature) = (K_VERSION ++ show v) :: (show_record <$> rs) ++ [signature_text key_id signature].
Proof. rewrite signed_unlines. apply splitlines_unlines, lines_clean. Qed.

Lemma read_signed : read_ascii (Some (signed v rs key_id signature)) = inr (signed v rs key_id signature).
Proof. change (py_ascii (signed v rs key_id signature) = inr (signed v rs key_id signature)). unfold py_ascii. rewrite signed_unlines, unlines_ascii; [done|apply lines_clean]. Qed.

(** The version is read back. *)
Lemma published_version_signed : published_version (Some (signed v rs key_id signature)) = v.
Proof.
  unfold published_version. rewrite read_signed, signed_lines. cbn [first_with]. rewrite suffix_of_app.
  destruct (proj1 (show_spec (show v) v Hv) eq_refl) as ((Hn & Hd & _) & _ & Hu).
  rewrite py_int_digits by by apply isdigit_spec. by rewrite Hu.
Qed.
End document.

(** ** Placements *)

Lemma place_records rs d key_id signature : Forall record_ok rs ->
  place_lines ((show_record <$> rs) ++ [signature_text key_id signature]) d =
  fold_left (fun d p => dict_set (gp_uid p) (gp_node_name p) d) (pods_of rs) d.
Proof.
  intros H. revert d. induction H as [|r rs Hr _ IH]; intros d; [done|]. cbn [fmap list_fmap app place_lines].
  destruct r as [n|p|k ip port|k u|k]; cbn [show_record]; unfold place_line; try (change (suffix_of (txt "pod=") _) with (@None text); exact (IH d)).
  change (starts (txt "pod=") (K_POD ++ show_pod p)) with (starts (txt "pod=") (txt "pod=" ++ show_pod p)).
  rewrite (proj2 (starts_spec _ _)) by eauto. cbn [negb andb]. change (K_POD ++ show_pod p) with (txt "pod=" ++ show_pod p). rewrite suffix_of_app.
  unfold show_pod. rewrite split_join; [exact (IH _)|done|].
  destruct Hr as (Hu & [Hn _] & [Hs _] & [Ha _] & Hi). repeat constructor; apply comma_free_plain;
    [by apply pod_uid_plain|by apply dns_name_plain|by apply dns_label_plain|by apply dns_name_plain|by apply show_ipv4_plain].
Qed.

Lemma fold_placements ps d uid :
  dict_get (fold_left (fun d p => dict_set (gp_uid p) (gp_node_name p) d) ps d) uid =
  match last (filter (fun p => gp_uid p = uid) ps) with Some p => Some (gp_node_name p) | None => dict_get d uid end.
Proof.
  revert d. induction ps as [|p ps IH]; intros d; [done|]. cbn [fold_left]. rewrite IH, filter_cons. case_decide as E.
  - destruct (filter _ ps) as [|q qs]; [cbn; rewrite dict_get_set, bool_decide_eq_true_2 by done; done|].
    change (last (p :: q :: qs)) with (last (q :: qs)). destruct (last (q :: qs)) eqn:El; [done|by apply last_None in El].
  - rewrite dict_get_set, bool_decide_eq_false_2 by done. done.
Qed.

(** The placements of a document are those of its Pods. *)
Lemma placements_spec v rs key_id signature uid node :
  consistent rs -> clean key_id -> in_width 64 v ->
  dict_get (pod_placements (signed v rs key_id signature)) uid = Some node <->
  exists p, p ∈ pods_of rs /\ gp_uid p = uid /\ gp_node_name p = node.
Proof.
  intros Hc Hk Hv. unfold pod_placements. rewrite signed_lines by (done || apply Hc). cbn [place_lines].
  change (starts (txt "pod=") (K_VERSION ++ show v)) with false. change (starts (txt "signature=") (K_VERSION ++ show v)) with false.
  cbn [negb andb]. unfold place_line. change (suffix_of (txt "pod=") (K_VERSION ++ show v)) with (@None text). cbv iota beta.
  rewrite place_records, fold_placements by apply Hc. pose proof (cs_pods _ Hc) as Hn. split.
  - destruct (last _) as [p|] eqn:E; [|done]. intros [= <-]. apply last_Some in E as [l E].
    assert (p ∈ filter (fun p => gp_uid p = uid) (pods_of rs)) as Hin by (rewrite E; apply elem_of_app; right; by left).
    apply list_elem_of_filter in Hin as [? ?]. by exists p.
  - intros (p & Hp & Hu & <-). assert (p ∈ filter (fun p => gp_uid p = uid) (pods_of rs)) as Hin by by apply list_elem_of_filter.
    destruct (last _) as [q|] eqn:E; [|apply last_None in E; rewrite E in Hin; by apply elem_of_nil in Hin].
    apply last_Some in E as [l E].
    assert (q ∈ filter (fun p => gp_uid p = uid) (pods_of rs)) as Hq by (rewrite E; apply elem_of_app; right; by left).
    apply list_elem_of_filter in Hq as [Hq1 Hq2]. do 2 f_equal. apply (NoDup_fmap_inj_elem gp_uid (pods_of rs)); [done..|congruence].
Qed.

(** ** Inputs of a publication *)

Lemma read_node_lines_entries d ls d' : read_node_lines d ls = inr d' -> Forall node_entry d -> Forall node_entry d'.
Proof.
  revert d. induction ls as [|raw ls IH]; intros d H Hd; cbn [read_node_lines] in H; [by injection H as <-|].
  destruct (words _) as [|name [|rdma [|pub [|? ?]]]]; try done; [by apply (IH d)|].
  apply bind_inr in H as ([] & H1 & H). apply raise_if_inr, negb_false_iff in H1.
  apply bind_inr in H as ([] & _ & H). apply (IH _ H). by apply dict_set_Forall.
Qed.

Lemma read_nodes_entries contents d : read_nodes_file contents = inr d -> Forall node_entry d.
Proof. unfold read_nodes_file. rewrite bind_inr. intros (data & _ & H). eapply read_node_lines_entries; [exact H|constructor]. Qed.

Lemma key_id_chars_clean id : fullmatch KEY_ID_RE id = true -> clean id.
Proof.
  rewrite fullmatch_spec. unfold KEY_ID_RE. rewrite matches_seq. intros (a & b & -> & (c & -> & Hc)%matches_chr & Hb).
  apply matches_seq in Hb as (m & e & -> & Hm & He). apply matches_upto in Hm as [_ Hm]. apply matches_chr in He as (d & -> & Hd).
  assert (forall x, key_id_edge x = true -> inner x = true) as H1 by (intros x; by destruct x).
  assert (forall x, key_id_inner x = true -> inner x = true) as H2 by (intros x; by destruct x).
  constructor; [by apply H1|]. apply Forall_app. split; [eapply Forall_impl; [exact Hm|exact H2]|by constructor; [apply H1|]].
Qed.

Lemma load_active_clean p d id key : load_active_key p d = inr (id, key) -> clean id.
Proof.
  unfold load_active_key. rewrite bind_inr. intros (active & _ & H). apply bind_inr in H as ([] & H1 & H).
  apply raise_if_inr, negb_false_iff in H1. apply bind_inr in H as (k & _ & [= <- _]). by apply key_id_chars_clean.
Qed.

(** The facts a publication starts from: what the API server lists is admitted, and
    no port of the node file has a leading zero. *)
Record facts := Facts { fc_nodes : dict (text * text); fc_pods : list k8s_pod; fc_services : list k8s_service; fc_slices : list k8s_slice }.
Record observes (io : publish_io) (f : facts) : Prop := {
  ob_read : read_nodes_file (pi_nodes io) = inr (fc_nodes f);
  ob_listed : pi_pods io = Some (fc_pods f) /\ pi_services io = Some (fc_services f) /\ pi_slices io = Some (fc_slices f);
  ob_plain : plain_ports (fc_nodes f);
  ob_admitted : cluster_admitted (fc_pods f) (fc_services f) }.

Definition says (reports : dict text) (f : facts) (protected : list text) (rs : list gen_record) : Prop :=
  states reports (fc_nodes f) (fc_pods f) (fc_services f) (fc_slices f) protected rs.

Section publications.
Context (sign : list byte -> text -> list byte) (protected : list text).

Lemma prepare_document io c f v doc :
  prepare sign protected io c = inr (Some (v, doc)) -> observes io f -> reports_ok (ct_reports c) -> 0 < v < 2 ^ 64 ->
  exists rs key_id key, load_active_key (pi_process io) (pi_keys io) = inr (key_id, key) /\
    doc = signed v rs key_id (sign key (show_document [] v rs)) /\ valid_document [] v rs /\ says (ct_reports c) f protected rs /\
    Z.of_nat (length doc) <= TOPOLOGY_MAX_BYTES /\ v = Z.max (pi_time_ns io) (ct_version c + 1).
Proof.
  intros H [Hn (Ep & Es & El) Hp Ha] Hr Hv. unfold prepare in H.
  apply bind_inr in H as (ls & Hls & H). unfold node_lines in Hls. rewrite Hn in Hls. injection Hls as <-.
  rewrite Ep, Es, El in H. cbn [or_raise mbind result_bind] in H. apply bind_inr in H as (body & Hb & H).
  apply bind_inr in H as ([key_id key] & Hk & H). cbn [fst snd] in H. destruct (_ && _ && _); [done|].
  apply bind_inr in H as (document & Hs & H). apply bind_inr in H as ([] & Hl & H). apply raise_if_inr, Z.ltb_ge in Hl.
  apply bind_inr in H as ([] & _ & H). injection H as <- <-.
  destruct (build_body_states _ _ _ _ _ _ _ _ Hb (read_nodes_entries _ _ Hn) Hp Hr Ha Hv) as (rs & Hvd & -> & Hst).
  exists rs, key_id, key. split; [done|]. unfold sign_document in Hs. apply bind_inr in Hs as (bytes & Hb' & Hs).
  unfold py_ascii in Hb'. destruct (forallb _ _); [|done]. injection Hb' as <-. injection Hs as <-. done.
Qed.
End publications.

(** ** Adoption on a DPU *)

Lemma nibble_loop_show bs : nibble_loop (length bs) (show_hex bs) = Some bs.
Proof.
  induction bs as [|b bs IH]; [done|]. change (show_hex (b :: bs)) with (nibble (b2z b / 16) :: nibble (b2z b mod 16) :: show_hex bs).
  cbn [length nibble_loop]. rewrite IH.
  assert (forall n, 0 <= n < 16 -> hex_nibble (nibble n) = n) as Hn.
  { intros n Hn. rewrite <-(Z2Nat.id n) by lia. apply Z.eqb_eq.
    apply (proj1 (List.forallb_forall (fun k => hex_nibble (nibble (Z.of_nat k)) =? Z.of_nat k) (seq 0 16)) eq_refl), List.in_seq. lia. }
  pose proof (b2z_range b). pose proof (Z.mod_pos_bound (b2z b) 16 ltac:(lia)).
  assert (0 <= b2z b / 16 < 16) by (split; [apply Z.div_pos; lia|apply Z.div_lt_upper_bound; lia]).
  rewrite !Hn by lia. rewrite (proj2 (Z.ltb_ge (b2z b / 16) 0)), (proj2 (Z.ltb_ge (b2z b mod 16) 0)) by lia. cbn [orb fmap option_fmap option_map].
  by rewrite byte_hex.
Qed.

Lemma last_unlines ls : ls <> [] -> last (unlines ls) = Some NL.
Proof.
  destruct ls as [|l ls _] using rev_ind; [done|]. intros _. rewrite unlines_app. unfold unlines at 2. cbn.
  by rewrite app_nil_r, app_assoc, last_snoc.
Qed.

Lemma signed_enveloped v rs key_id signature : key_id_ok key_id -> length signature = 64%nat ->
  enveloped (signed v rs key_id signature) (show_document [] v rs) 64 (Envelope key_id signature (length (show_document [] v rs))).
Proof.
  intros Hk Hl. exists (show_hex signature), [NL]. cbn [fe_key_id fe_signature fe_prefix_len]. unfold signed, signature_line.
  split; [done|]. split; [by apply last_unlines|].
  split; [by right|]. split; [done|]. split; [done|]. split; [rewrite length_show_hex; lia|]. rewrite <-Hl. apply nibble_loop_show.
Qed.

(** The DPU finds the document in its feed file, whole and not seen before. *)
Record delivered (t : dmesh_topology) (doc : text) (io : refresh_io) : Prop := {
  dl_stat : exists st, io_stat io = Some st /\ ds_regular st = true /\ ds_size st = Z.of_nat (length doc) /\
    settled (io_wall_sec io) st && stamped t st = false;
  dl_read : io_read io = Some doc;
  dl_resources : io_open io = true /\ io_malloc io = true /\ io_alloc io = true }.

(** The DPU holds the public half of the key under the name of its file, and what
    the key signs verifies. *)
Definition trusted (C : crypto) (F : file_system) (sign : list byte -> text -> list byte) (key_dir key_id : text) (key : list byte) : Prop :=
  key_dir <> [] /\ md_ctx_new C = true /\ exists pub, load_named_key F key_dir key_id = Some pub /\ ed25519_key C pub = true /\
    forall m, length (sign key m) = 64%nat /\ ed25519_verify C pub (sign key m) m = true.

Lemma signed_offered C F sign io t v rs key_id key :
  tp_enabled t = true -> trusted C F sign (tp_key_dir t) key_id key -> key_id_ok key_id -> valid_document [] v rs ->
  let doc := signed v rs key_id (sign key (show_document [] v rs)) in
  Z.of_nat (length doc) <= TOPOLOGY_MAX_BYTES -> delivered t doc io -> offered C F io t [] v rs.
Proof.
  intros He (Hd & Hm & pub & Hp & Hk & Hs) Hid Hv doc Hl [(st & Est & Hr & Hsz & Hf) Hb (R1 & R2 & R3)].
  constructor; [done| |done|done]. exists st, doc, (Envelope key_id (sign key (show_document [] v rs)) (length (show_document [] v rs))), pub.
  rewrite Hsz, Nat2Z.id, firstn_all. split_and!; try done.
  - rewrite wrap_small; [done|]. unfold in_width. change TOPOLOGY_MAX_BYTES with 16777216 in Hl. lia.
  - by apply signed_enveloped, Hs.
  - apply Hs.
Qed.

(** ** A cluster *)

Definition demo_sign (key : list byte) (m : text) : list byte := take 64 (key ++ reverse m ++ repeat x00 64).
Definition operator : process := Process 0 0 [].
Definition demo_keys (id : text) : key_directory :=
  KeyDirectory (Some (id ++ NEWLINE)) (fun _ => KeyFile (Some (KeyStat true true 0 0 256)) (Some feed_key)).
Definition node_file (port : text) : text :=
  txt "# name address key" ++ NEWLINE ++ txt "node-b 10.1.0.1:" ++ port ++ txt " " ++ show_hex (repeat x09 32) ++ NEWLINE.
Definition cluster_pod : k8s_pod :=
  Pod (Some demo_uid) (Some (txt "shop")) (Some (txt "web-0")) [] None (Some (txt "node-b")) None (Some false) [] [] (Some (txt "10.201.0.17")) [].
Definition pending_pod : k8s_pod :=
  Pod (Some (txt "22345678-1234-1234-1234-123456789abc")) (Some (txt "shop")) (Some (txt "web-1")) [] None None None None [] [] None [].
Definition cluster_service : k8s_service := Service (Some (txt "shop")) (Some (txt "web")) [] (Some (txt "10.100.0.1")) [Some 80].
Definition cluster_slice : k8s_slice :=
  Slice (Some (txt "shop")) (Some (txt "web")) [Endpoint (Some true) (Some (txt "Pod")) (Some demo_uid); Endpoint (Some false) (Some (txt "Pod")) (Some demo_uid)].
Definition publish_inputs (port id : text) : publish_io :=
  PublishIo 1700000000000000000 (Some (node_file port)) (Some [cluster_pod; pending_pod]) (Some [cluster_service]) (Some [cluster_slice])
    operator (demo_keys id) true.
Definition fresh_controller : controller := Controller 0 [] [] None [] None.
Definition demo_published (port id : text) : controller := (publish demo_sign [txt "shop/web"] (publish_inputs port id) fresh_controller).2.

(** A DPU that finds the public key under every id. *)
Definition open_files : file_system := FileSystem (fun _ => Some (OpenedFile (Some (FileStat true 0 256)) (Some feed_key) 0)) 0.

Lemma demo_admitted : cluster_admitted [cluster_pod; pending_pod] [cluster_service].
Proof.
  assert (label63 (txt "shop")) as Hs by (apply service_name_re; reflexivity).
  assert (label63 (txt "web")) as Hw by (apply service_name_re; reflexivity).
  assert (name253 (txt "node-b")) as Hn by (split; [by apply dns_re|cbn; lia]).
  split; [|apply (bool_decide_eq_true_1 _); vm_compute; reflexivity| |apply (bool_decide_eq_true_1 _); vm_compute; reflexivity].
  - assert (forall i, name253 (txt "web-" ++ [i]) <-> span_dns_subdomain (txt "web-" ++ [i]) 253 = true) as Hp
      by (intros i; by rewrite span_dns_subdomain_spec).
    constructor; [|constructor; [|constructor]]; (split; cbn [kp_namespace kp_name kp_containers kp_node_name kp_account cluster_pod pending_pod];
      [eauto|eexists; split; [reflexivity|apply Hp; reflexivity]|constructor| |done]); [|done]. intros n [= <-]. by right.
  - constructor; [|constructor]. split; cbn; eauto.
Qed.

Definition demo_facts : facts :=
  Facts [(txt "node-b", (txt "10.1.0.1:4420", show_hex (repeat x09 32)))] [cluster_pod; pending_pod] [cluster_service] [cluster_slice].

Lemma demo_observed : observes (publish_inputs (txt "4420") (txt "ctl-1")) demo_facts.
Proof. split; [vm_compute; reflexivity|done|by repeat constructor|exact demo_admitted]. Qed.

Lemma demo_trusted : trusted toy_crypto demo_files demo_sign demo_dir (txt "ctl-1") feed_key.
Proof.
  split; [done|]. split; [done|]. exists feed_key. split; [vm_compute; reflexivity|]. split; [done|]. intros m. unfold demo_sign.
  split; [rewrite length_take, !length_app, repeat_length; lia|]. by apply bool_decide_eq_true.
Qed.

Lemma demo_active : load_active_key operator (demo_keys (txt "ctl-1")) = inr (txt "ctl-1", feed_key).
Proof. vm_compute. reflexivity. Qed.

Lemma demo_publish : publish demo_sign [txt "shop/web"] (publish_inputs (txt "4420") (txt "ctl-1")) fresh_controller =
  (inr (Some 1700000000000000000), demo_published (txt "4420") (txt "ctl-1")).
Proof. unfold demo_published. vm_compute. reflexivity. Qed.

Lemma document_delivered t ino doc : delivered t doc (document_io ino doc).
Proof. split; [by eexists|done|done]. Qed.

Section adoption.
Context (sign : list byte -> text -> list byte) (protected : list text).

Lemma published_held C F io c c' f v key_id key t dio :
  publish sign protected io c = (inr (Some v), c') -> observes io f -> reports_ok (ct_reports c) -> 0 < v < 2 ^ 64 ->
  load_active_key (pi_process io) (pi_keys io) = inr (key_id, key) -> key_id_ok key_id ->
  topology_inv t -> tp_enabled t = true -> trusted C F sign (tp_key_dir t) key_id key ->
  delivered t (ct_document c') dio -> held_version t < v ->
  exists t' tb rs, dmesh_topology_refresh C F dio t = (TOPOLOGY_ADOPTED, t') /\
    holding t' tb rs /\ tt_version tb = v /\ says (ct_reports c) f protected rs /\
    ct_document c' = signed v rs key_id (sign key (show_document [] v rs)).
Proof.
  intros Hp Ho Hr Hv Hk Hid Hi He Ht Hd Hh. unfold publish in Hp.
  destruct (prepare sign protected io c) as [e|[[v' doc]|]] eqn:Ep; try done. injection Hp as -> <-. cbn [ct_document set] in Hd.
  destruct (prepare_document sign protected io c f v doc Ep Ho Hr Hv) as (rs & id' & key' & Hk' & Edoc & Hval & Hs & Hl & _).
  rewrite Hk in Hk'. injection Hk' as <- <-. rewrite Edoc in Hl, Hd. cbn in Hd.
  pose proof (signed_offered C F sign dio t v rs key_id key He Ht Hid Hval Hl Hd) as Hoff.
  destruct (refresh_offered C F dio t [] v rs Hi Hoff) as (st & tb & slots & E & Hpd).
  pose proof (pd_version _ _ _ _ _ Hpd) as Ev. destruct (adopt_cases t st tb slots Hi ltac:(lia)) as [(_ & Ha & Hn)|(Hle & _)]; [|lia].
  rewrite <-E in Ha, Hn. destruct (dmesh_topology_refresh C F dio t) as [r t']. cbn [fst snd] in Ha, Hn. subst r.
  exists t', tb, rs. split; [done|]. split; [|by rewrite Edoc]. by apply (parsed_inv t t' [] v rs tb slots).
Qed.

(** A generation reaches the DPUs and says what the cluster is.  When a
    publication succeeds from admitted objects, a node file without leading zeros
    in its ports and reported keys that were accepted, under a key whose id the
    DPU can name and whose public half it holds, then a DPU that finds the
    document in its feed file and holds an older generation adopts it; its tables
    hold the version just published, and their records are exactly the configured
    nodes with their reported keys, the Pods that have UID, node and address, the
    Services with an address and a port, the ready endpoints among those, and the
    protected ones that are published. *)
Lemma publication_adopted C F io c c' f v key_id key t dio :
  publish sign protected io c = (inr (Some v), c') -> observes io f -> reports_ok (ct_reports c) -> 0 < v < 2 ^ 64 ->
  load_active_key (pi_process io) (pi_keys io) = inr (key_id, key) -> key_id_ok key_id ->
  topology_inv t -> tp_enabled t = true -> trusted C F sign (tp_key_dir t) key_id key ->
  delivered t (ct_document c') dio -> held_version t < v ->
  exists t' tb rs, dmesh_topology_refresh C F dio t = (TOPOLOGY_ADOPTED, t') /\
    holding t' tb rs /\ tt_version tb = v /\ says (ct_reports c) f protected rs.
Proof.
  intros H1 H2 H3 H4 H5 H6 H7 H8 H9 H10 H11.
  destruct (published_held C F io c c' f v key_id key t dio H1 H2 H3 H4 H5 H6 H7 H8 H9 H10 H11) as (t' & tb & rs & ? & ? & ? & ? & _).
  by exists t', tb, rs.
Qed.
End adoption.

Lemma publication_adopted_witness : exists t' tb rs,
  dmesh_topology_refresh toy_crypto demo_files (document_io 12 (ct_document (demo_published (txt "4420") (txt "ctl-1")))) demo_consumer = (TOPOLOGY_ADOPTED, t') /\
  holding t' tb rs /\ tt_version tb = 1700000000000000000 /\ says [] demo_facts [txt "shop/web"] rs.
Proof.
  eapply (publication_adopted demo_sign [txt "shop/web"] toy_crypto demo_files (publish_inputs (txt "4420") (txt "ctl-1")) fresh_controller).
  - exact demo_publish.
  - exact demo_observed.
  - constructor.
  - lia.
  - exact demo_active.
  - reflexivity.
  - exact demo_consumer_inv.
  - reflexivity.
  - exact demo_trusted.
  - apply document_delivered.
  - reflexivity.
Defined.

