(* ===== verification/ControllerRuns.v ===== *)
(** * Runs of the controller, and its answers about Pods *)

From S2P Require Import Prelude Text Spans PeerIdentity WorkloadIdentity WorkloadProofs Topology TopologyGrammar TopologyParse TopologyIntern TopologyLookups ControlScope PyText Controller ControllerText ControllerProofs.

(** ** Runs *)

Inductive controller_event :=
  | EvPublish (io : publish_io)
  | EvGet (nodes : option text) (cert : certificate) (target : text) (p : process) (feed_keys : key_directory) (time_ns : Z)
  | EvPost (nodes : option text) (cert : certificate) (target : text) (content_length : option text) (body : option (text * text * text))
  | EvRestart (p : process) (keys : key_directory).

Section runs.
Context (sign mac : list byte -> text -> list byte) (protected : list text).

(** One event, with the version it published; [None] when the process ends. *)
Definition controller_step (e : controller_event) (c : controller) : option (controller * option Z) :=
  match e with
  | EvPublish io =>
      c' ← run_turn sign protected io c;
      Some (c', match publish sign protected io c with (inr v, _) => v | _ => None end)
  | EvGet nodes cert target p keys time => Some ((do_GET mac nodes cert target p keys time c).2, None)
  | EvPost nodes cert target len body => Some ((do_POST nodes cert target len body c).2, None)
  | EvRestart p keys => match controller_init p keys (ct_installed c) with inr c' => Some (c', None) | inl _ => None end
  end.

Fixpoint controller_run (es : list controller_event) (c : controller) : option (controller * list Z) :=
  match es with
  | [] => Some (c, [])
  | e :: es' =>
      '(c1, v) ← controller_step e c;
      '(c2, log) ← controller_run es' c1;
      Some (c2, option_list v ++ log)
  end.

(** What is held is what is installed. *)
Record controller_inv (c : controller) : Prop := {
  ci_version : ct_version c = published_version (ct_installed c);
  ci_document : ct_document c = match read_ascii (ct_installed c) with inr d => d | inl _ => [] end;
  ci_placements : ct_placements c = pod_placements (ct_document c);
  ci_reports : reports_ok (ct_reports c) }.

Lemma init_inv p keys out c : controller_init p keys out = inr c -> controller_inv c /\ ct_installed c = out.
Proof.
  unfold controller_init. rewrite bind_inr. intros (? & _ & H). injection H as <-. split; [|done].
  split; cbn [ct_version ct_installed ct_document ct_placements ct_reports]; [done|done| |constructor].
  by case_bool_decide as E; [rewrite E|].
Qed.

(** Every body starts with its version. *)
Lemma build_body_version v ns pods services slices ps body :
  build_body v ns pods services slices ps = inr body -> exists ls, body = py_lines ((txt "version=" ++ show v) :: ls).
Proof.
  unfold build_body. intros H. apply bind_inr in H as (? & _ & H). destruct (pod_lines _ _) as [pl uids].
  apply bind_inr in H as (? & _ & H). destruct (service_lines _ _) as [sl keys].
  apply bind_inr in H as (? & _ & H). apply bind_inr in H as (? & _ & H). injection H as <-. eauto.
Qed.

Lemma signature_ascii key_id signature : clean key_id -> forallb is_ascii (signature_line key_id signature) = true.
Proof.
  intros Hk. apply forallb_spec. unfold signature_line. rewrite !Forall_app.
  assert (forall s : text, clean s -> Forall (fun c => is_ascii c = true) s) as Hc.
  { intros s H. eapply Forall_impl; [exact H|]. intros ch [_ Hch]%andb_true_iff. exact Hch. }
  split_and!; [by repeat constructor|by apply Hc|by repeat constructor|apply Hc, plain_clean, show_hex_plain|by repeat constructor].
Qed.

Lemma version_first v ls tail : in_width 64 v -> let doc := py_lines ((txt "version=" ++ show v) :: ls) ++ tail in
  forallb is_ascii doc = true -> read_ascii (Some doc) = inr doc /\ published_version (Some doc) = v.
Proof.
  intros Hv doc Ha. assert (read_ascii (Some doc) = inr doc) as Er by (cbn [read_ascii or_raise mbind result_bind]; unfold py_ascii; by rewrite Ha).
  split; [done|]. unfold published_version. rewrite Er. unfold doc. rewrite py_lines_unlines, unlines_cons, <-app_assoc.
  cbn [app]. unfold splitlines. rewrite lines_from_app; [|apply Forall_app; split; [by repeat constructor|apply show_clean, Hv]].
  cbn [first_with]. rewrite app_nil_l, suffix_of_app.
  destruct (proj1 (show_spec (show v) v Hv) eq_refl) as ((Hn & Hd & _) & _ & Hu). rewrite py_int_digits by by apply isdigit_spec. by rewrite Hu.
Qed.

Lemma prepare_version io c v doc : prepare sign protected io c = inr (Some (v, doc)) -> in_width 64 v ->
  ct_version c < v /\ read_ascii (Some doc) = inr doc /\ published_version (Some doc) = v.
Proof.
  unfold prepare. intros H Hv. apply bind_inr in H as (ns & _ & H). apply bind_inr in H as (pods & _ & H).
  apply bind_inr in H as (services & _ & H). apply bind_inr in H as (slices & _ & H). apply bind_inr in H as (body & Hb & H).
  apply bind_inr in H as ([key_id key] & Hk & H). cbn [fst snd] in H. destruct (_ && _ && _); [done|].
  apply bind_inr in H as (document & Hs & H). apply bind_inr in H as (? & _ & H). apply bind_inr in H as (? & _ & H). injection H as E1 <-.
  rewrite E1 in Hb. split; [lia|]. apply build_body_version in Hb as (ls & ->).
  unfold sign_document in Hs. apply bind_inr in Hs as (bytes & Ha & Hs). injection Hs as <-.
  unfold py_ascii in Ha. destruct (forallb is_ascii _) eqn:Eb; [|done].
  apply version_first; [done|]. rewrite forallb_app, Eb. cbn [andb]. by eapply signature_ascii, load_active_clean.
Qed.

(** Serving changes at most the cache, a report at most the reports. *)
Lemma get_keeps nodes cert target p keys time c : exists k, (do_GET mac nodes cert target p keys time c).2 = c <| ct_cache := k |>.
Proof.
  assert (exists k, c = c <| ct_cache := k |>) as Hc by (exists (ct_cache c); by destruct c).
  unfold do_GET. repeat case_bool_decide; try exact Hc. destruct (reporter nodes cert) as [e|[n|]]; try exact Hc.
  assert (exists k, (service_targets mac p keys time c).2 = c <| ct_cache := k |>) as Hs.
  { unfold service_targets. destruct (load_active_key p keys) as [e|[id key]]; [exact Hc|]. case_bool_decide; [exact Hc|].
    set (fresh := match sign_feed _ _ _ _ with inl e => _ | inr d => _ end). assert (exists k, fresh.2 = c <| ct_cache := k |>) as Hf.
    { unfold fresh. destruct (sign_feed _ _ _ _) as [e|doc]; [exact Hc|]. destruct (_ <? _); [exact Hc|]. eexists. reflexivity. }
    destruct (ct_cache c) as [held|]; [|exact Hf]. destruct (_ && _); [exact Hc|exact Hf]. }
  destruct (service_targets mac p keys time c) as [[[]|doc] c']; exact Hs.
Qed.

Lemma report_ok nodes name rdma key reports reports' : report nodes name rdma key reports = inr reports' -> reports_ok reports -> reports_ok reports'.
Proof.
  unfold report. intros H Hr. apply bind_inr in H as (? & H1 & H). apply raise_if_inr, orb_false_iff in H1 as [_ H1]. apply negb_false_iff in H1.
  apply bind_inr in H as (? & _ & H). apply bind_inr in H as (? & _ & H). apply bind_inr in H as (? & _ & H). apply bind_inr in H as (? & _ & H).
  injection H as <-. by apply dict_set_Forall.
Qed.

Lemma post_keeps nodes cert target len body c : reports_ok (ct_reports c) ->
  exists reports, (do_POST nodes cert target len body c).2 = c <| ct_reports := reports |> /\ reports_ok reports.
Proof.
  intros Hr. assert (exists r, c = c <| ct_reports := r |> /\ reports_ok r) as Hc by (exists (ct_reports c); by destruct c).
  unfold do_POST. case_bool_decide; [exact Hc|]. destruct (reporter nodes cert) as [e|[n|]]; try exact Hc.
  destruct (py_int _) as [l|]; [|exact Hc]. destruct (negb _); [exact Hc|]. destruct body as [[[name rdma] key]|]; [|exact Hc].
  case_bool_decide; [exact Hc|]. destruct (names nodes); [exact Hc|]. case_bool_decide; [exact Hc|].
  destruct (report nodes name rdma key (ct_reports c)) as [[]|reports] eqn:E; try exact Hc. exists reports. split; [done|]. by eapply report_ok.
Qed.

Lemma step_inv e c c' v : controller_inv c -> controller_step e c = Some (c', v) -> (forall n, v = Some n -> in_width 64 n) ->
  controller_inv c' /\ match v with None => ct_installed c' = ct_installed c | Some n => ct_version c < n /\ ct_version c' = n end.
Proof.
  intros Hi H Hv. destruct e as [io|nodes cert target p keys time|nodes cert target len body|p keys]; cbn [controller_step] in H.
  - apply bind_Some in H as (c1 & Hr & [= -> <-]). unfold run_turn in Hr. unfold publish in *.
    destruct (prepare sign protected io c) as [[]|[[n doc]|]] eqn:Ep; try done; injection Hr as <-; try done.
    specialize (Hv n eq_refl). destruct (prepare_version io c n doc Ep Hv) as (Hlt & Hd & Hp). split; [|done].
    split; cbn [ct_version ct_installed ct_document ct_placements ct_reports set]; [done|by rewrite Hd|done|apply Hi].
  - injection H as <- <-. destruct (get_keeps nodes cert target p keys time c) as (k & ->). split; [|done]. by destruct Hi; split.
  - injection H as <- <-. destruct (post_keeps nodes cert target len body c) as (r & -> & Hr); [apply Hi|]. split; [|done]. by destruct Hi; split.
  - destruct (controller_init p keys (ct_installed c)) as [|c1] eqn:E; [done|]. injection H as <- <-. by apply init_inv in E.
Qed.

Lemma controller_run_inv es c c' log : controller_inv c -> controller_run es c = Some (c', log) -> Forall (in_width 64) log ->
  controller_inv c' /\ StronglySorted Z.lt (ct_version c :: log) /\ last (ct_version c :: log) = Some (ct_version c').
Proof.
  revert c c' log. induction es as [|e es IH]; intros c c' log Hi H Hl; cbn [controller_run] in H.
  { injection H as <- <-. split; [done|]. split; [repeat constructor|done]. }
  apply bind_Some in H as ([c1 v] & Hs & H). apply bind_Some in H as ([c2 log2] & Hr & [= -> <-]).
  apply Forall_app in Hl as [Hv Hl]. destruct (step_inv e c c1 v Hi Hs) as [Hi1 Hstep]; [by intros n ->; inversion Hv|].
  destruct (IH c1 c' log2 Hi1 Hr Hl) as (Hi' & Hss & Hla). split; [done|]. destruct v as [n|]; cbn [option_list app].
  - destruct Hstep as [Hlt <-]. split; [|exact Hla]. constructor; [done|]. inversion_clear Hss as [|? ? _ Hall]. constructor; [done|].
    eapply Forall_impl; [exact Hall|]. intros x Hx. lia.
  - rewrite (ci_version _ Hi), <-Hstep, <-(ci_version _ Hi1). done.
Qed.

(** C11: the controller only moves forward, and fails static.  From any start on any
    output file and through any requests, reports, failed and successful
    publications and restarts, the versions published rise strictly, beginning
    above the version of the file found at the start; what is served and the
    placements it answers from are always those of the installed file, every
    reported key kept is 32 bytes in hexadecimal, and the version carried is the
    installed one.  A turn that publishes nothing - facts unchanged, an
    unreadable file, an API failure, a bound exceeded, a write that fails -
    changes nothing at all; and it finds the facts unchanged only if the records
    of the new body are the records served, under the same key. *)
Theorem controller_forward p keys out es c0 c log :
  controller_init p keys out = inr c0 -> controller_run es c0 = Some (c, log) -> Forall (in_width 64) log ->
  StronglySorted Z.lt (published_version out :: log) /\ last (published_version out :: log) = Some (ct_version c) /\ controller_inv c /\
  (forall io, match publish sign protected io c with
              | (inr (Some v), _) => ct_version c < v
              | (inr None, c') => c' = c /\ exists body key_id key, load_active_key (pi_process io) (pi_keys io) = inr (key_id, key) /\
                  generation_records body = generation_records (ct_document c) /\ signature_key_id (ct_document c) = key_id /\
                  exists ns pods services slices, build_body (Z.max (pi_time_ns io) (ct_version c + 1)) ns pods services slices protected = inr body
              | (inl _, c') => c' = c
              end).
Proof.
  intros H0 Hr Hl. destruct (init_inv p keys out c0 H0) as [Hi E0]. destruct (controller_run_inv es c0 c log Hi Hr Hl) as (Hc & Hs & Hla).
  rewrite (ci_version _ Hi), E0 in Hs, Hla. split; [done|]. split; [done|]. split; [done|]. intros io. unfold publish.
  destruct (prepare sign protected io c) as [e|[[v doc]|]] eqn:Ep; [done| |].
  - unfold prepare in Ep. repeat (apply bind_inr in Ep as (? & _ & Ep)). destruct (_ && _ && _); [done|].
    repeat (apply bind_inr in Ep as (? & _ & Ep)). injection Ep as <- _. lia.
  - split; [done|]. unfold prepare in Ep. apply bind_inr in Ep as (ns & _ & Ep). apply bind_inr in Ep as (pods & _ & Ep).
    apply bind_inr in Ep as (services & _ & Ep). apply bind_inr in Ep as (slices & _ & Ep). apply bind_inr in Ep as (body & Hb & Ep).
    apply bind_inr in Ep as ([key_id key] & Hk & Ep). destruct (_ && _ && _) eqn:Ec; [|repeat (apply bind_inr in Ep as (? & _ & Ep)); done].
    rewrite !andb_true_iff, !bool_decide_eq_true in Ec. destruct Ec as [[_ Eg] Ek]. exists body, key_id, key. split_and!; [done..|].
    by exists ns, pods, services, slices.
Qed.
End runs.

(** A start without a file, a publication, a turn that finds the facts unchanged, one
    without the node file, and a restart. *)
Definition demo_turns : list controller_event :=
  [EvPublish (publish_inputs (txt "4420") (txt "ctl-1")); EvPublish (publish_inputs (txt "4420") (txt "ctl-1"));
   EvPublish (PublishIo 1700000000000000000 None (Some [cluster_pod]) (Some []) (Some []) operator (demo_keys (txt "ctl-1")) true); EvRestart operator (demo_keys (txt "ctl-1"))].

Lemma controller_started : controller_init operator (demo_keys (txt "ctl-1")) None = inr fresh_controller.
Proof. vm_compute. reflexivity. Qed.

Lemma demo_turns_run : controller_run demo_sign demo_sign [txt "shop/web"] demo_turns fresh_controller =
  Some (demo_published (txt "4420") (txt "ctl-1"), [1700000000000000000]).
Proof. vm_compute. reflexivity. Qed.

Lemma controller_forward_witness :
  StronglySorted Z.lt [0; 1700000000000000000] /\ controller_inv (demo_published (txt "4420") (txt "ctl-1")).
Proof.
  destruct (controller_forward demo_sign demo_sign [txt "shop/web"] operator (demo_keys (txt "ctl-1")) None demo_turns fresh_controller
    (demo_published (txt "4420") (txt "ctl-1")) [1700000000000000000] controller_started demo_turns_run ltac:(by repeat constructor)) as (H & _ & Hi & _).
  exact (conj H Hi).
Defined.

(** ** Scope *)

(** The target of a request: the second word of its first line. *)
Definition request_target (request : text) : option text :=
  match words (before_first x0d request) with _ :: target :: _ => Some target | _ => None end.

(** The tunnel to the controller: the reply of [do_GET], or nothing when the
    handler fails. *)
Definition tunnel (mac : list byte -> text -> list byte) (nodes : option text) (cert : certificate) (p : process) (keys : key_directory)
    (time_ns : Z) (tail : text) (c : controller) : scope_network := fun _ _ request =>
  target ← request_target request;
  match (do_GET mac nodes cert target p keys time_ns c).1 with
  | inr reply => Some (http_response tail reply)
  | inl _ => None
  end.

Lemma words_from_app w s rest : Forall (fun c => py_space c = false) s -> w ++ s <> [] ->
  words_from w (s ++ " "%byte :: rest) = (w ++ s) :: words rest.
Proof.
  intros H. revert w. induction H as [|c s Hc _ IH]; intros w Hw; cbn [app words_from].
  - change (py_space " ") with true. rewrite app_nil_r in *. by rewrite bool_decide_eq_false_2.
  - rewrite Hc. rewrite IH; [by rewrite <-app_assoc|]. by rewrite <-app_assoc.
Qed.

Lemma request_target_scope host uid request : pod_uid uid -> scope_request host uid = Some request ->
  request_target request = Some (txt "/workload-scope?pod_uid=" ++ uid).
Proof.
  intros Hu. unfold scope_request. destruct (_ <=? _)%nat; [done|]. intros E. apply (inj Some) in E. subst request. unfold request_target, before_first.
  assert (Forall (fun c => py_space c = false /\ c <> x0d) uid) as Hc
    by (eapply Forall_impl; [exact (pod_uid_plain uid Hu)|]; intros c H; destruct c; done).
  rewrite app_assoc. rewrite (app_assoc _ (txt " HTTP/1.0")). change (CRLF ++ ?x) with (x0d :: x0a :: x).
  rewrite partition_app.
  - cbn [fst]. unfold words. rewrite <-app_assoc.
    change (txt "GET /workload-scope?pod_uid=") with (txt "GET" ++ " "%byte :: txt "/workload-scope?pod_uid=").
    rewrite <-!app_assoc, <-app_comm_cons. rewrite (words_from_app []); [|by repeat constructor|done].
    unfold words. change (txt " HTTP/1.0") with (" "%byte :: txt "HTTP/1.0"). rewrite app_assoc, (words_from_app []); [done| |done].
    apply Forall_app. split; [by repeat constructor|]. eapply Forall_impl; [exact Hc|]. by intros c [? _].
  - rewrite !elem_of_app. intros [[H|H]|H].
    + by apply (proj1 (Forall_forall (fun c => c <> x0d) _)) in H; [|by repeat constructor].
    + apply (proj1 (Forall_forall _ _) Hc) in H as [_ H]. done.
    + by apply (proj1 (Forall_forall (fun c => c <> x0d) _)) in H; [|by repeat constructor].
Qed.

Lemma scope_reply tail status body : (status = 200 \/ status = 403 \/ status = 404) ->
  scope_answer (take SCOPE_REPLY_MAX (http_response tail (status, body))) = if status =? 200 then SCOPE_ALLOWED else SCOPE_REFUSED.
Proof.
  intros Hs. unfold http_response. cbn [fst snd].
  assert (forall a b : text, length a = 12%nat -> take SCOPE_REPLY_MAX (a ++ b) = a ++ take (SCOPE_REPLY_MAX - 12) b) as Ht.
  { intros a b Ha. rewrite take_app_ge, Ha; [done|]. rewrite Ha. unfold SCOPE_REPLY_MAX. lia. }
  rewrite app_assoc.
  destruct Hs as [->|[->| ->]]; (rewrite Ht; [|reflexivity]); generalize (take (SCOPE_REPLY_MAX - 12) (txt " " ++ tail ++ body)); intros r; reflexivity.
Qed.

Lemma scope_target uid : pod_uid uid ->
  target_path (txt "/workload-scope?pod_uid=" ++ uid) = txt "/workload-scope" /\
  target_query (txt "/workload-scope?pod_uid=" ++ uid) = [(txt "pod_uid", uid)].
Proof.
  intros Hu. change (txt "/workload-scope?pod_uid=" ++ uid) with (txt "/workload-scope" ++ "?"%byte :: txt "pod_uid=" ++ uid).
  assert ("?"%byte ∉ txt "/workload-scope") as Hq by (apply memchr_None; reflexivity).
  split; [unfold target_path, before_first; by rewrite partition_app|]. unfold target_query. rewrite partition_app by done.
  assert (Forall (fun c => c <> "&"%byte) uid) as Hc by (eapply Forall_impl; [exact (pod_uid_plain uid Hu)|]; intros c H ->; done).
  rewrite split_on_one.
  - change (txt "pod_uid=" ++ uid) with (txt "pod_uid" ++ "="%byte :: uid). cbn [omap list_omap].
    rewrite partition_app by (apply memchr_None; reflexivity). cbn [andb]. rewrite bool_decide_eq_true_2; [done|].
    intros ->. by destruct Hu.
  - rewrite elem_of_app. intros [H|H].
    + assert ("&"%byte ∉ txt "pod_uid=") by (apply memchr_None; reflexivity). done.
    + by apply (proj1 (Forall_forall _ _) Hc) in H.
Qed.

Lemma reporter_named nodes cert node : reporter nodes cert = inr (Some node) -> cstr node = node.
Proof.
  unfold reporter. intros (known & _ & H)%bind_inr. apply (inj inr) in H. apply bind_Some in H as (n & Hn & H).
  case_bool_decide; [|done]. injection H as ->. unfold node_from_peer_certificate in Hn. apply bind_Some in Hn as (sans & _ & Hn).
  destruct (snd <$> _) as [|uri [|]]; try done. apply bind_Some in Hn as (name & _ & Hn).
  destruct (fullmatch DNS_RE name) eqn:E; [|done]. injection Hn as <-. by apply plain_cstr, dns_name_plain, dns_re.
Qed.

Lemma scope_request_fits host uid : (length host < SCOPE_HOST_SIZE)%nat -> pod_uid uid -> is_Some (scope_request host uid).
Proof.
  intros Hh [Hu _]. unfold scope_request. set (request := _ ++ _). assert (length request < 512)%nat as Hl.
  { unfold request. rewrite !length_app, Hu. change SCOPE_HOST_SIZE with 256%nat in Hh. cbn [length list_byte_of_string txt CRLF]. unfold txt. cbn. lia. }
  destruct (Nat.leb_spec 512 (length request)); [lia|by eexists].
Qed.

(** C12: controller and DPU agree on where a Pod is.  A DPU that holds the generation
    the controller serves, and reaches the controller through its node's
    tunnel, gets the answer that its own tables give: a query for a Pod is
    allowed exactly if the generation places that Pod on the node the tunnel
    authenticates as, and refused otherwise, never left unknown. *)
Theorem scope_agrees mac nodes cert p keys time tail c v rs key_id signature t tb config node uid :
  controller_inv c -> ct_document c = signed v rs key_id signature -> clean key_id -> in_width 64 v -> holding t tb rs ->
  reporter nodes cert = inr (Some node) -> pod_uid uid ->
  sc_host config <> [] -> (length (sc_host config) < SCOPE_HOST_SIZE)%nat -> sc_port config <> 0 ->
  dmesh_scope_query (tunnel mac nodes cert p keys time tail c) config (Some uid) =
  if dmesh_topology_pod_on_node t (Some uid) (Some node) then SCOPE_ALLOWED else SCOPE_REFUSED.
Proof.
  intros Hi Hd Hk Hv Hh Hr Hu H1 H2 H3. pose proof (reporter_named _ _ _ Hr) as Hn. unfold dmesh_scope_query.
  assert (cstr uid = uid) as Ec by by apply plain_cstr, pod_uid_plain.
  rewrite bool_decide_eq_false_2, (proj2 (Z.eqb_neq _ _) H3) by done. cbn [orb].
  rewrite (proj2 (scope_uid_ok_spec uid)) by by rewrite Ec. cbn [negb default from_option id]. rewrite Ec.
  destruct (scope_request_fits (sc_host config) uid H2 Hu) as (request & Er). rewrite Er.
  unfold tunnel. rewrite (request_target_scope _ _ _ Hu Er). cbn [mbind option_bind]. unfold do_GET.
  destruct (scope_target uid Hu) as [-> ->]. rewrite !bool_decide_eq_false_2, bool_decide_eq_true_2 by done. cbn [fst].
  unfold workload_scope. rewrite Hr. cbn [mbind result_bind]. rewrite filter_cons_True by done.
  change (snd <$> (txt "pod_uid", uid) :: filter _ []) with [uid]. cbv iota beta. rewrite (proj2 (uid_re uid) Hu). cbn [negb].
  pose proof (fun n => placements_spec v rs key_id signature uid n (hd_records _ _ _ Hh) Hk Hv) as Hp.
  destruct (records_found t tb rs Hh) as (_ & Hon & _). specialize (Hon uid node). rewrite Ec, Hn in Hon.
  rewrite (ci_placements _ Hi), Hd. destruct (dict_get _ uid) as [placed|] eqn:Eg.
  - destruct (proj1 (Hp placed) eq_refl) as (x & Hx & Ex & En).
    destruct (bool_decide_reflect (placed = node)) as [->|Hne].
    + rewrite bool_decide_eq_false_2 by tauto. rewrite (proj2 Hon) by eauto. apply scope_reply. tauto.
    + rewrite bool_decide_eq_true_2 by done. destruct (dmesh_topology_pod_on_node t _ _) eqn:Eo.
      * exfalso. destruct (proj1 Hon eq_refl) as (y & Hy). apply Hne. assert (Some placed = Some node) as E by (apply Hp; by exists y). congruence.
      * apply scope_reply. tauto.
  - destruct (dmesh_topology_pod_on_node t _ _) eqn:Eo; [|apply scope_reply; tauto].
    destruct (proj1 Hon eq_refl) as (y & Hy). assert (None = Some node) as E by (apply Hp; by exists y). done.
Qed.

(** ** A query *)

Definition node_certificate : certificate := Some [(true, SPIFFE ++ txt "node-b")].
Definition demo_tunnel : scope_network :=
  tunnel demo_sign (Some (node_file (txt "4420"))) node_certificate operator (demo_keys (txt "ctl-1")) 0 CRLF (demo_published (txt "4420") (txt "ctl-1")).

Lemma demo_held : exists t' tb rs,
  dmesh_topology_refresh toy_crypto demo_files (document_io 12 (ct_document (demo_published (txt "4420") (txt "ctl-1")))) demo_consumer = (TOPOLOGY_ADOPTED, t') /\
  holding t' tb rs /\ tt_version tb = 1700000000000000000 /\ says [] demo_facts [txt "shop/web"] rs /\
  ct_document (demo_published (txt "4420") (txt "ctl-1")) = signed 1700000000000000000 rs (txt "ctl-1") (demo_sign feed_key (show_document [] 1700000000000000000 rs)).
Proof.
  eapply (published_held demo_sign [txt "shop/web"] toy_crypto demo_files (publish_inputs (txt "4420") (txt "ctl-1")) fresh_controller);
    [exact demo_publish|exact demo_observed|constructor|lia|exact demo_active|reflexivity|exact demo_consumer_inv|reflexivity|exact demo_trusted
    |apply document_delivered|reflexivity].
Qed.

Lemma demo_published_inv : controller_inv (demo_published (txt "4420") (txt "ctl-1")).
Proof.
  destruct (init_inv _ _ _ _ controller_started) as [Hi _].
  by destruct (controller_run_inv _ _ _ _ _ _ _ Hi demo_turns_run ltac:(by repeat constructor)) as (Hc & _).
Qed.

Lemma demo_reporter : reporter (Some (node_file (txt "4420"))) node_certificate = inr (Some (txt "node-b")).
Proof. vm_compute. reflexivity. Qed.

Lemma scope_agrees_witness : exists t',
  dmesh_topology_refresh toy_crypto demo_files (document_io 12 (ct_document (demo_published (txt "4420") (txt "ctl-1")))) demo_consumer = (TOPOLOGY_ADOPTED, t') /\
  dmesh_scope_query demo_tunnel (ScopeConfig (txt "10.0.0.1") 8443) (Some demo_uid) =
  if dmesh_topology_pod_on_node t' (Some demo_uid) (Some (txt "node-b")) then SCOPE_ALLOWED else SCOPE_REFUSED.
Proof.
  pose proof (fun rs signature t tb => scope_agrees demo_sign (Some (node_file (txt "4420"))) node_certificate operator (demo_keys (txt "ctl-1")) 0 CRLF
    (demo_published (txt "4420") (txt "ctl-1")) 1700000000000000000 rs (txt "ctl-1") signature t tb (ScopeConfig (txt "10.0.0.1") 8443) (txt "node-b") demo_uid
    demo_published_inv) as H.
  assert (clean (txt "ctl-1")) as H1 by by repeat constructor. assert (in_width 64 1700000000000000000) as H2 by done.
  assert (pod_uid demo_uid) as H3 by by apply uid_re. assert (length (txt "10.0.0.1") < SCOPE_HOST_SIZE)%nat as H4 by by apply Nat.ltb_lt.
  destruct demo_held as (t' & tb & rs & E & Hh & _ & _ & Ed). exists t'. split; [exact E|].
  exact (H rs _ t' tb Ed H1 H2 Hh demo_reporter H3 (fun x => ltac:(discriminate x)) H4 (fun x => ltac:(discriminate x))).
Defined.
