(* ===== verification/FeedReceiver.v ===== *)
(** * Delivery of feeds to a DPU ([dpu/feed_receiver.py], [node/dpumeshd.py])

    The receiver on the DPU installs two files that the host runtime brings: a
    request is one line with name, length and SHA-256 of a document, the receiver
    asks for the document only when it does not hold it, and installs it by
    rename.  A second request reads the public half of the node's key.

    The receiver is a function of the bytes that arrive on a connection before it
    ends; what the file system and the socket answer is an input.  SHA-256 is the
    function [sha]. *)

From S2P Require Import Prelude Text Spans PyText Controller.

Definition FEED_MAGIC : text := txt "DMESHFEED1".
Definition NODE_MAGIC : text := txt "DMESHNODE1".
Definition HEADER_MAX : nat := N.to_nat 160.
Definition NAME_RE : regex := Seq (Chr (in_range "a" "z")) (UpTo 31 label_char).

(** Target, bound and mode (0o644) of a feed. *)
Record feed_file := Feed { fd_target : text; fd_bound : Z; fd_mode : Z }.
Definition FEEDS : dict feed_file :=
  [(txt "topology", Feed (txt "topology.v1") (16 * 1024 * 1024) 420);
   (txt "service-targets", Feed (txt "service-targets.v1") (1024 * 1024) 420)].

(** The feed directory and the file with the node's public key. *)
Record receiver := Receiver { rc_files : dict text; rc_node_key : option text }.
#[export] Instance eta_receiver : Eta receiver := fun r => Receiver (rc_files r) (rc_node_key r).

(** What the system answers to one connection: whether the held file can be read
    and the first reply sent, the results of [write], and whether the other calls
    of the installation succeed. *)
Record receive_io := ReceiveIo { ri_readable : bool; ri_sent : bool; ri_writes : list nat; ri_installed : bool }.

(** A value, or the reason of a refusal. *)
Abbreviation refusal A := (text + A)%type.
Definition system_reason : text := txt "system error".

(** ** The receiver *)

(** The payload and what follows it. *)
Definition read_exactly (input : text) (count : nat) : refusal (text * text) :=
  if (length input <? count)%nat then inl (txt "payload truncated") else inr (take count input, drop count input).

Definition read_node_key (contents : option text) : refusal text :=
  match contents with
  | None => inl (txt "no node credential")
  | Some data =>
      if negb (forallb is_ascii data) then inl system_reason
      else if fullmatch HEX64_RE (strip data) then inr (strip data) else inl (txt "malformed node credential")
  end.

Inductive header := NodeHeader | FeedHeader (name : text) (size : Z) (digest : text).

Definition parse_header (line : text) : refusal header :=
  match split_on " " line with
  | [magic; name; len; digest] =>
      if bool_decide (magic <> FEED_MAGIC) then inl (txt "unknown framing")
      else if negb (fullmatch NAME_RE name) then inl (txt "unknown feed")
      else match dict_get FEEDS name with
           | None => inl (txt "unknown feed")
           | Some f =>
               if negb (isdigit len) then inl (txt "malformed length")
               else if negb ((1 <=? undecimal len 0) && (undecimal len 0 <=? fd_bound f)) then inl (txt "over bound")
               else if negb (fullmatch HEX64_RE digest) then inl (txt "malformed digest")
               else inr (FeedHeader name (undecimal len 0) digest)
           end
  | _ => inl (txt "malformed header")
  end.

(** The bytes up to a newline, with [room] left. *)
Fixpoint read_line (room : nat) (line : text) (input : text) : refusal (text * text) :=
  match room with
  | O => inl (txt "header over bound")
  | S room' =>
      match input with
      | [] => inl (txt "header truncated")
      | c :: rest => if char_eq c NL then inr (line, rest) else read_line room' (line ++ [c]) rest
      end
  end.

Definition read_header (input : text) : refusal (header * text) :=
  match read_line HEADER_MAX [] input with
  | inl reason => inl reason
  | inr (line, rest) =>
      if negb (forallb is_ascii line) then inl (txt "malformed header")
      else if bool_decide (line = NODE_MAGIC) then inr (NodeHeader, rest)
      else match parse_header line with inl reason => inl reason | inr h => inr (h, rest) end
  end.

(** The contents of the temporary file after the loop of [write]s. *)
Fixpoint write_all (writes : list nat) (remaining : text) : refusal text :=
  match remaining with
  | [] => inr []
  | _ :: _ =>
      match writes with
      | [] => inl system_reason
      | O :: _ => inl (txt "feed write made no progress")
      | n :: ws => match write_all ws (drop n remaining) with inl reason => inl reason | inr s => inr (take n remaining ++ s) end
      end
  end.

(** The target changes only with the rename at the end. *)
Definition install_file (io : receive_io) (target payload : text) (r : receiver) : refusal receiver :=
  match write_all (ri_writes io) payload with
  | inl reason => inl reason
  | inr contents => if ri_installed io then inr (r <| rc_files ::= dict_set target contents |>) else inl system_reason
  end.

Section receiving.
Context (sha : text -> list byte).

Definition hexdigest (payload : text) : text := show_hex (sha payload).

Definition held_digest (io : receive_io) (r : receiver) (name : text) : option text :=
  f ← dict_get FEEDS name;
  payload ← (if ri_readable io then dict_get (rc_files r) (fd_target f) else None);
  if fd_bound f <? Z.of_nat (length payload) then None else Some (hexdigest payload).

Definition install_feed (io : receive_io) (r : receiver) (name payload : text) : refusal receiver :=
  match dict_get FEEDS name with
  | Some f => install_file io (fd_target f) payload r
  | None => inl system_reason
  end.

(** [str(exc).replace("\n", " ")[:64] or "refused"] *)
Definition refused (reason : text) : text :=
  let reason := take 64 ((fun c => if char_eq c NL then " "%byte else c) <$> reason) in
  txt "refused " ++ (if bool_decide (reason = []) then txt "refused" else reason) ++ NEWLINE.

(** The replies sent on a connection on which [input] arrives, and the files. *)
Definition handle (io : receive_io) (input : text) (r : receiver) : list text * receiver :=
  match read_header input with
  | inl reason => ([refused reason], r)
  | inr (NodeHeader, _) =>
      match read_node_key (rc_node_key r) with
      | inl reason => ([refused reason], r)
      | inr key => ([txt "key " ++ key ++ NEWLINE], r)
      end
  | inr (FeedHeader name size digest, rest) =>
      if negb (ri_sent io) then ([refused system_reason], r)
      else if bool_decide (held_digest io r name = Some digest) then ([txt "have" ++ NEWLINE], r)
      else
        let send := txt "send" ++ NEWLINE in
        match read_exactly rest (Z.to_nat size) with
        | inl reason => ([send; refused reason], r)
        | inr (payload, _) =>
            if bool_decide (hexdigest payload <> digest) then ([send; refused (txt "payload does not match its digest")], r)
            else match install_feed io r name payload with
                 | inl reason => ([send; refused reason], r)
                 | inr r' => ([send; txt "ok " ++ name ++ txt " " ++ show size ++ NEWLINE], r')
                 end
        end
  end.

(** ** The host runtime *)

Definition feed_header (name payload : text) : text :=
  FEED_MAGIC ++ txt " " ++ name ++ txt " " ++ show (Z.of_nat (length payload)) ++ txt " " ++ hexdigest payload ++ NEWLINE.

(** A connection: how many of the bytes sent reach the receiver, and how many of the
    bytes waiting each [recv] returns. *)
Record wire := Wire { wi_arrive : nat; wi_first : nat; wi_second : nat }.
Definition recv (n : nat) (waiting : text) : text := take (Nat.min 128 n) waiting.

(** [deliver_feed] against the receiver: the outcome, and the receiver's files. *)
Definition deliver_feed (w : wire) (io : receive_io) (name payload : text) (r : receiver) : result unit * receiver :=
  let header := feed_header name payload in
  let (first, r1) := handle io (take (wi_arrive w) header) r in
  let got := recv (wi_first w) (concat first) in
  if bool_decide (strip got = txt "have") then (mret tt, r1)
  else if bool_decide (strip got <> txt "send") then (inl OwnError, r1)
  else
    let (replies, r2) := handle io (take (wi_arrive w) (header ++ payload)) r in
    let reply := strip (recv (wi_second w) (drop (length got) (concat replies))) in
    (if starts (txt "ok ") reply then mret tt else inl OwnError, r2).

Definition dpu_node_key (w : wire) (io : receive_io) (r : receiver) : result text :=
  let (replies, _) := handle io (take (wi_arrive w) (NODE_MAGIC ++ NEWLINE)) r in
  let reply := strip (recv (wi_first w) (concat replies)) in
  match suffix_of (txt "key ") reply with
  | Some key => if fullmatch HEX64_RE key then mret key else inl OwnError
  | None => inl OwnError
  end.
End receiving.
