(* ===== verification/FeedProofs.v ===== *)
(** * Deliveries *)

From S2P Require Import Prelude Text Spans TopologyGrammar PyText Controller ControllerText ControllerProofs FeedReceiver.

(** ** Lines *)

Lemma read_line_full room acc line rest : NL ∉ line -> (length line < room)%nat -> read_line room acc (line ++ NL :: rest) = inr (acc ++ line, rest).
Proof.
  revert room acc. induction line as [|c line IH]; intros room acc Hf Hl; cbn [length] in Hl; (destruct room as [|room]; [lia|]); cbn [app read_line].
  - by rewrite app_nil_r.
  - apply not_elem_of_cons in Hf as [Hc Hf]. destruct (char_eq_spec c NL) as [->|_]; [done|].
    rewrite IH by (done || lia). by rewrite <-app_assoc.
Qed.

Lemma read_line_part room acc s : NL ∉ s -> exists reason, read_line room acc s = inl reason.
Proof.
  revert room acc. induction s as [|c s IH]; intros [|room] acc Hf; cbn [read_line]; eauto.
  apply not_elem_of_cons in Hf as [Hc Hf]. destruct (char_eq_spec c NL) as [->|_]; [done|]. by apply IH.
Qed.

Lemma lstrip_keeps s c : py_space c = false -> exists s', lstrip (s ++ [c]) = s' ++ [c].
Proof.
  intros Hc. induction s as [|d s (s' & IH)]; cbn [app lstrip]; [exists []; by rewrite Hc|].
  destruct (py_space d); [eauto|by exists (d :: s)].
Qed.

Lemma strip_keeps d a c b : py_space d = false -> py_space c = false -> exists b', strip (d :: a ++ c :: b) = d :: a ++ c :: b'.
Proof.
  intros Hd Hc. unfold strip. cbn [lstrip]. rewrite Hd. unfold rstrip.
  rewrite reverse_cons, reverse_app, reverse_cons, <-!app_assoc. revert b. intros b.
  assert (exists s', lstrip (reverse b ++ [c] ++ reverse a ++ [d]) = s' ++ [c] ++ reverse a ++ [d]) as (s' & ->).
  { induction (reverse b) as [|e s (s' & IH)]; cbn [app lstrip]; [exists []; by rewrite Hc|].
    destruct (py_space e); [by exists s'|by exists (e :: s)]. }
  exists (reverse s'). rewrite !reverse_app, !reverse_singleton, reverse_involutive. cbn [app]. by rewrite <-app_assoc.
Qed.

Lemma strip_head c s : py_space c = false -> exists s', strip (c :: s) = c :: s'.
Proof.
  intros Hc. unfold strip. cbn [lstrip]. rewrite Hc. unfold rstrip. rewrite reverse_cons.
  destruct (lstrip_keeps (reverse s) c Hc) as (s' & ->). exists (reverse s'). by rewrite reverse_app, reverse_singleton.
Qed.

Lemma lstrip_spaces sp s : Forall (fun c => py_space c = true) sp -> lstrip (sp ++ s) = lstrip s.
Proof. induction 1 as [|c sp Hc _ IH]; [done|]. cbn [app lstrip]. by rewrite Hc. Qed.

Lemma strip_exact d a c sp : py_space d = false -> py_space c = false -> Forall (fun c => py_space c = true) sp ->
  strip (d :: a ++ c :: sp) = d :: a ++ [c].
Proof.
  intros Hd Hc Hs. unfold strip. cbn [lstrip]. rewrite Hd. unfold rstrip. rewrite reverse_cons, reverse_app, reverse_cons, <-!app_assoc.
  rewrite lstrip_spaces by by apply Forall_reverse. cbn [app lstrip]. rewrite Hc, reverse_cons, reverse_app, reverse_involutive. done.
Qed.

(** ** Replies *)

(** A refusal, however much of it arrives, is neither consent nor success. *)
Lemma refused_got n x : let s := strip (take n (refused x)) in s <> txt "have" /\ s <> txt "send" /\ starts (txt "ok ") s = false.
Proof.
  cbv zeta. unfold refused. change (txt "refused ") with ("r"%byte :: txt "efused "). cbn [app]. destruct n as [|n]; [done|]. cbn [take firstn].
  destruct (strip_head "r" (take n (txt "efused " ++ (if bool_decide (take 64 ((fun c => if char_eq c NL then " "%byte else c) <$> x) = [])
    then txt "refused" else take 64 ((fun c => if char_eq c NL then " "%byte else c) <$> x)) ++ NEWLINE)) eq_refl) as (s' & E).
  rewrite E. done.
Qed.

Lemma got_have n : strip (take n (txt "have" ++ NEWLINE)) <> txt "send" /\ ((4 <= n)%nat -> strip (take n (txt "have" ++ NEWLINE)) = txt "have").
Proof. do 5 (destruct n as [|n]; [split; [done|lia || done]|]). split; [|intros _]; by destruct n. Qed.

(** What is read of a consent followed by anything else that is not white space. *)
Lemma got_send n c x : py_space c = false -> let s := strip (take n (txt "send" ++ NEWLINE ++ c :: x)) in
  s <> txt "have" /\ (s = txt "send" <-> n = 4%nat \/ n = 5%nat).
Proof.
  intros Hc. cbv zeta. do 6 (destruct n as [|n]; [split; [done|split; [try done; tauto|by intros [?|?]]]|]).
  change (take _ _) with ("s"%byte :: txt "end" ++ NL :: c :: take n x).
  destruct (strip_keeps "s" (txt "end" ++ [NL]) c (take n x) eq_refl Hc) as (b & E). rewrite <-app_assoc in E. cbn [app] in E. rewrite E.
  split; [done|]. split; [done|]. intros [?|?]; lia.
Qed.

(** ** Headers *)

Lemma feeds_known name f : dict_get FEEDS name = Some f ->
  plain_text name /\ (length name <= 15)%nat /\ fullmatch NAME_RE name = true /\ 1 <= fd_bound f < 10 ^ 8.
Proof.
  unfold FEEDS. rewrite !dict_get_cons. do 2 (case_bool_decide; [subst; intros [= <-]; split_and!; [by repeat constructor|cbn; lia|vm_compute; reflexivity|cbn; lia..]|]).
  intros Hn. discriminate Hn.
Qed.

Section deliveries.
Context (sha : text -> list byte) (sha_length : forall x, length (sha x) = 32%nat).

Definition header_line (name payload : text) : text :=
  FEED_MAGIC ++ txt " " ++ name ++ txt " " ++ show (Z.of_nat (length payload)) ++ txt " " ++ hexdigest sha payload.

Lemma feed_header_line name payload : feed_header sha name payload = header_line name payload ++ [NL].
Proof. unfold feed_header, header_line. by rewrite <-!app_assoc. Qed.

Lemma digest_ok payload : fullmatch HEX64_RE (hexdigest sha payload) = true.
Proof. apply hex64_re. exists (sha payload). split; [apply sha_length|done]. Qed.

Lemma header_line_ok name payload f : dict_get FEEDS name = Some f -> Z.of_nat (length payload) < 2 ^ 64 ->
  (NL ∉ header_line name payload) /\ (length (header_line name payload) < HEADER_MAX)%nat /\ forallb is_ascii (header_line name payload) = true /\
  split_on " " (header_line name payload) = [FEED_MAGIC; name; show (Z.of_nat (length payload)); hexdigest sha payload].
Proof.
  intros (Hn & Hl & _)%feeds_known Hp. set (n := Z.of_nat (length payload)) in *. assert (in_width 64 n) as Hw by (split; lia).
  pose proof (show_plain n ltac:(lia)) as Hs. pose proof (show_hex_plain (sha payload)) as Hh. fold (hexdigest sha payload) in Hh.
  assert ((NL ∉ FEED_MAGIC) /\ (" "%byte ∉ FEED_MAGIC)) as [Hm1 Hm2] by (split; apply memchr_None; reflexivity).
  assert (forall c s, plain_text s -> plain c = false -> c ∉ s) as Hf by (intros c s H1 H2; by apply plain_free).
  unfold header_line. fold n. split_and!.
  - rewrite !not_elem_of_app. split_and!; try done; try (by apply Hf); by apply not_elem_of_cons; split; [|apply not_elem_of_nil].
  - rewrite !length_app. unfold hexdigest. rewrite length_show_hex, sha_length.
    assert (length (show n) <= 20)%nat by (pose proof (proj1 (show_spec (show n) n Hw) eq_refl); tauto).
    change HEADER_MAX with 160%nat. change (length FEED_MAGIC) with 10%nat. change (length (txt " ")) with 1%nat. lia.
  - apply forallb_spec. rewrite !Forall_app. assert (forall s, plain_text s -> Forall (fun c => is_ascii c = true) s) as Ha.
    { intros s H. eapply Forall_impl; [exact H|]. intros c. by destruct c. }
    split_and!; try (by apply Ha); by repeat constructor.
  - change (txt " ") with [" "%byte]. cbn [app]. rewrite split_on_app by done. do 2 (rewrite split_on_app by by apply Hf). by rewrite split_on_one by by apply Hf.
Qed.

(** A whole header is read as what it says, and one of an empty or too long document
    is refused. *)
Lemma read_header_full name payload f rest : dict_get FEEDS name = Some f -> Z.of_nat (length payload) < 2 ^ 64 ->
  read_header (feed_header sha name payload ++ rest) =
  if (1 <=? Z.of_nat (length payload)) && (Z.of_nat (length payload) <=? fd_bound f)
  then inr (FeedHeader name (Z.of_nat (length payload)) (hexdigest sha payload), rest) else inl (txt "over bound").
Proof.
  intros Hf Hp. destruct (header_line_ok name payload f Hf Hp) as (H1 & H2 & H3 & H4). destruct (feeds_known name f Hf) as (_ & _ & Hr & _).
  rewrite feed_header_line, <-app_assoc. cbn [app]. unfold read_header. rewrite read_line_full by done. cbn [app]. rewrite H3. cbn [negb].
  rewrite bool_decide_eq_false_2; [|intros E; apply (f_equal (split_on " ")) in E; rewrite H4 in E;
    change (split_on " " NODE_MAGIC) with [NODE_MAGIC] in E; discriminate E].
  unfold parse_header. rewrite H4. rewrite bool_decide_eq_false_2 by tauto. rewrite Hr, Hf, digest_ok. cbn [negb].
  destruct (proj1 (show_spec (show (Z.of_nat (length payload))) (Z.of_nat (length payload)) ltac:(split; lia)) eq_refl) as ((Hn & Hd & _) & _ & ->).
  rewrite (proj2 (isdigit_spec _)) by done. cbn [negb]. by destruct (_ && _).
Qed.

Lemma read_header_part name payload f a : dict_get FEEDS name = Some f -> Z.of_nat (length payload) < 2 ^ 64 ->
  (a < length (feed_header sha name payload))%nat -> exists reason, read_header (take a (feed_header sha name payload)) = inl reason.
Proof.
  intros Hf Hp Ha. destruct (header_line_ok name payload f Hf Hp) as (H1 & _). rewrite feed_header_line in *. rewrite length_app in Ha. cbn [length] in Ha.
  rewrite take_app_le by lia. destruct (read_line_part HEADER_MAX [] (take a (header_line name payload))) as (reason & E).
  - intros H. apply H1. rewrite <-(take_drop a). apply elem_of_app. by left.
  - exists reason. unfold read_header. by rewrite E.
Qed.

(** ** Installation *)

Definition installed (f : feed_file) (payload : text) (r : receiver) : receiver := r <| rc_files ::= dict_set (fd_target f) payload |>.

Lemma write_all_whole ws payload contents : write_all ws payload = inr contents -> contents = payload.
Proof.
  revert payload contents. induction ws as [|n ws IH]; intros [|c payload] contents H; cbn [write_all] in H; try done; try (by injection H as <-).
  destruct n as [|n]; [done|]. destruct (write_all ws _) as [|s] eqn:E; [done|]. injection H as <-. rewrite (IH _ _ E). apply (take_drop (S n) (c :: payload)).
Qed.

Lemma install_feed_whole io r name payload r' : install_feed io r name payload = inr r' ->
  exists f, dict_get FEEDS name = Some f /\ r' = installed f payload r.
Proof.
  unfold install_feed. destruct (dict_get FEEDS name) as [f|]; [|done]. unfold install_file. destruct (write_all _ _) as [|s] eqn:E; [done|].
  apply write_all_whole in E. subst s. destruct (ri_installed io); [|done]. intros [= <-]. by exists f.
Qed.

Lemma read_header_feed input name size digest rest : read_header input = inr (FeedHeader name size digest, rest) ->
  exists f, dict_get FEEDS name = Some f /\ 1 <= size <= fd_bound f.
Proof.
  unfold read_header. destruct (read_line _ _ _) as [|[line rest']]; [done|]. destruct (negb _); [done|]. case_bool_decide; [done|].
  destruct (parse_header line) as [|h] eqn:E; [done|]. intros [= -> ->]. unfold parse_header in E.
  destruct (split_on " " line) as [|m [|n [|l [|d [|? ?]]]]]; try done. case_bool_decide; [done|]. destruct (negb _); [done|].
  destruct (dict_get FEEDS n) as [f|] eqn:Ef; [|done]. destruct (negb (isdigit l)); [done|]. destruct (negb ((1 <=? _) && _)) eqn:Eb; [done|].
  destruct (negb (fullmatch HEX64_RE d)); [done|]. injection E as <- <- <-. exists f. split; [done|]. apply negb_false_iff, andb_true_iff in Eb as [?%Z.leb_le ?%Z.leb_le]. done.
Qed.

(** Whatever arrives on a connection, the files stay, or one of the two documents is
    replaced by a whole one within its bound that has the digest announced. *)
Lemma handle_installs io input r : let r' := (handle sha io input r).2 in
  r' = r \/ exists name f size digest rest payload, read_header input = inr (FeedHeader name size digest, rest) /\
    dict_get FEEDS name = Some f /\ payload = take (Z.to_nat size) rest /\ Z.of_nat (length payload) = size /\ 1 <= size <= fd_bound f /\
    hexdigest sha payload = digest /\ r' = installed f payload r.
Proof.
  cbv zeta. unfold handle. destruct (read_header input) as [reason|[[|name size digest] rest]] eqn:Eh; [by left| |].
  { destruct (read_node_key _); by left. }
  destruct (read_header_feed _ _ _ _ _ Eh) as (f & Hf & Hs). destruct (negb _); [by left|]. case_bool_decide; [by left|].
  unfold read_exactly. destruct (Nat.ltb_spec (length rest) (Z.to_nat size)); [by left|]. case_bool_decide as Ed; [by left|].
  destruct (install_feed _ _ _ _) as [reason|r'] eqn:Ei; [by left|]. right.
  apply install_feed_whole in Ei as (f' & Hf' & ->). replace f' with f by congruence.
  exists name, f, size, digest, rest, (take (Z.to_nat size) rest). split_and!; try done; try tauto. rewrite length_take; lia.
Qed.

(** ** One delivery *)

Definition within (f : feed_file) (payload : text) : Prop := 1 <= Z.of_nat (length payload) <= fd_bound f.
Definition ok_reply (name payload : text) : text := txt "ok " ++ name ++ txt " " ++ show (Z.of_nat (length payload)) ++ NEWLINE.

Lemma handle_full io name payload f rest r : dict_get FEEDS name = Some f -> within f payload ->
  handle sha io (feed_header sha name payload ++ rest) r =
  if negb (ri_sent io) then ([refused system_reason], r)
  else if bool_decide (held_digest sha io r name = Some (hexdigest sha payload)) then ([txt "have" ++ NEWLINE], r)
  else if (length rest <? length payload)%nat then ([txt "send" ++ NEWLINE; refused (txt "payload truncated")], r)
  else if bool_decide (hexdigest sha (take (length payload) rest) <> hexdigest sha payload)
       then ([txt "send" ++ NEWLINE; refused (txt "payload does not match its digest")], r)
  else match install_feed io r name (take (length payload) rest) with
       | inl reason => ([txt "send" ++ NEWLINE; refused reason], r)
       | inr r' => ([txt "send" ++ NEWLINE; ok_reply name payload], r')
       end.
Proof.
  intros Hf Hw. destruct (feeds_known name f Hf) as (_ & _ & _ & Hb). unfold within in Hw. unfold handle.
  rewrite (read_header_full name payload f rest Hf) by lia. rewrite (proj2 (andb_true_iff _ _)) by (split; apply Z.leb_le; lia).
  unfold read_exactly. rewrite Nat2Z.id. by destruct (_ <? _)%nat.
Qed.

(** The replies to any part of what a delivery sends. *)
Inductive feed_answered (name payload : text) (f : feed_file) (r : receiver) : list text * receiver -> Prop :=
  | an_refused reason : feed_answered name payload f r ([refused reason], r)
  | an_have io : held_digest sha io r name = Some (hexdigest sha payload) -> feed_answered name payload f r ([txt "have" ++ NEWLINE], r)
  | an_failed reason : feed_answered name payload f r ([txt "send" ++ NEWLINE; refused reason], r)
  | an_ok : within f payload -> feed_answered name payload f r ([txt "send" ++ NEWLINE; ok_reply name payload], installed f payload r).

Lemma handle_answered io name payload f a r : dict_get FEEDS name = Some f -> Z.of_nat (length payload) < 2 ^ 64 ->
  feed_answered name payload f r (handle sha io (take a (feed_header sha name payload ++ payload)) r).
Proof.
  intros Hf Hp. destruct (Nat.lt_ge_cases a (length (feed_header sha name payload))) as [Ha|Ha].
  { rewrite take_app_le by lia. destruct (read_header_part name payload f a Hf Hp Ha) as (reason & E). unfold handle. rewrite E. constructor. }
  rewrite take_app_ge by lia. set (rest := take _ payload). destruct (decide (within f payload)) as [Hw|Hw].
  - rewrite (handle_full io name payload f rest r Hf Hw). destruct (negb _); [constructor|]. case_bool_decide as Eh; [by apply (an_have _ _ _ _ io)|].
    destruct (Nat.ltb_spec (length rest) (length payload)) as [_|Hl]; [constructor|].
    assert (take (length payload) rest = payload) as -> by (unfold rest in *; rewrite length_take in Hl; rewrite take_take, take_ge by lia; done).
    rewrite bool_decide_eq_false_2 by tauto. destruct (install_feed _ _ _ _) as [reason|r'] eqn:Ei; [constructor|].
    apply install_feed_whole in Ei as (f' & Hf' & ->). replace f' with f by congruence. by constructor.
  - unfold handle. rewrite (read_header_full name payload f rest Hf Hp).
    destruct (_ && _) eqn:E; [|constructor]. exfalso. apply Hw. apply andb_true_iff in E as [?%Z.leb_le ?%Z.leb_le]. done.
Qed.

Lemma ok_head name payload : exists x, ok_reply name payload = "o"%byte :: x.
Proof. eexists. reflexivity. Qed.
Lemma refused_head reason : exists x, refused reason = "r"%byte :: x.
Proof. eexists. reflexivity. Qed.

(** Consent is read only when the receiver consents, as its first four or five
    bytes. *)
Lemma first_read name payload f r first r1 n : feed_answered name payload f r (first, r1) -> let got := recv n (concat first) in
  (r1 = r \/ r1 = installed f payload r) /\
  (strip got = txt "have" -> exists io, held_digest sha io r name = Some (hexdigest sha payload) /\ r1 = r) /\
  (strip got = txt "send" -> length got = 4%nat \/ length got = 5%nat).
Proof.
  intros H. cbv zeta. unfold recv. set (k := Nat.min 128 n). inversion H as [reason|io Hh|reason|Hw]; subst; cbn [concat]; rewrite ?app_nil_r.
  - destruct (refused_got k reason) as (H1 & H2 & _). split; [by left|]. done.
  - split; [by left|]. split; [by exists io|]. intros E. by apply got_have in E.
  - split; [by left|]. destruct (refused_head reason) as (x & ->).
    change (_ ++ "r"%byte :: x) with (txt "send" ++ NEWLINE ++ "r"%byte :: x). destruct (got_send k "r" x eq_refl) as [H1 H2]. split; [done|].
    intros E%H2. rewrite length_take, !length_app. change (length (txt "send")) with 4%nat. change (length NEWLINE) with 1%nat. lia.
  - split; [by right|]. destruct (ok_head name payload) as (x & ->).
    change (_ ++ "o"%byte :: x) with (txt "send" ++ NEWLINE ++ "o"%byte :: x). destruct (got_send k "o" x eq_refl) as [H1 H2]. split; [done|].
    intros E%H2. rewrite length_take, !length_app. change (length (txt "send")) with 4%nat. change (length NEWLINE) with 1%nat. lia.
Qed.

Lemma strip_take_nl n x : strip (take n (NL :: x)) = strip (take (n - 1) x).
Proof. destruct n as [|n]; [done|]. by replace (S n - 1)%nat with n by lia. Qed.

(** Success is read only when the document has been installed. *)
Lemma second_read name payload f r replies r2 k n : feed_answered name payload f r (replies, r2) -> k = 4%nat \/ k = 5%nat ->
  starts (txt "ok ") (strip (recv n (drop k (concat replies)))) = true -> r2 = installed f payload r /\ within f payload.
Proof.
  intros H Hk. unfold recv. generalize (Nat.min 128 n). clear n. intros n.
  assert (forall c x, py_space c = false -> c <> "o"%byte -> forall m, starts (txt "ok ") (strip (take m (c :: x))) = false) as Hs.
  { intros c x Hc Ho [|m]; [done|]. cbn [take firstn]. destruct (strip_head c (take m x) Hc) as (s & ->).
    destruct (starts _ _) eqn:E; [|done]. apply starts_spec in E as (q & E). by injection E as -> _. }
  inversion H as [reason|io Hh|reason|Hw]; subst; cbn [concat]; rewrite ?app_nil_r; [| | |done].
  - unfold refused. intros E. exfalso. revert E. set (y := (if bool_decide _ then _ else _) ++ NEWLINE).
    destruct Hk as [-> | ->]; [change (drop 4 _) with ("s"%byte :: txt "ed " ++ y)|change (drop 5 _) with ("e"%byte :: txt "d " ++ y)]; by rewrite Hs.
  - intros E. exfalso. destruct Hk as [-> | ->]; cbn in E; [|by destruct n]. by do 2 (destruct n as [|n]; [done|]).
  - destruct (refused_head reason) as (x & ->). intros E. exfalso. revert E.
    destruct Hk as [-> | ->]; [change (drop 4 _) with (NL :: "r"%byte :: x); rewrite strip_take_nl|change (drop 5 _) with ("r"%byte :: x)]; by rewrite Hs.
Qed.

Lemma deliver_effect w io name payload f r : dict_get FEEDS name = Some f -> Z.of_nat (length payload) < 2 ^ 64 ->
  let (res, r') := deliver_feed sha w io name payload r in
  (r' = r \/ r' = installed f payload r) /\
  (res = inr tt -> (exists io', held_digest sha io' r name = Some (hexdigest sha payload)) /\ r' = r \/ r' = installed f payload r /\ within f payload).
Proof.
  intros Hf Hp. unfold deliver_feed.
  pose proof (handle_answered io name payload f (Nat.min (wi_arrive w) (length (feed_header sha name payload))) r Hf Hp) as H1.
  rewrite take_app_le in H1 by lia. replace (take (Nat.min _ _) _) with (take (wi_arrive w) (feed_header sha name payload)) in H1
    by (destruct (Nat.min_spec (wi_arrive w) (length (feed_header sha name payload))) as [[_ ->]|[? ->]]; [done|]; by rewrite !take_ge by lia).
  pose proof (handle_answered io name payload f (wi_arrive w) r Hf Hp) as H2.
  destruct (handle sha io (take (wi_arrive w) (feed_header sha name payload)) r) as [first r1].
  destruct (first_read _ _ _ _ _ _ (wi_first w) H1) as (Hr & Hh & Hs). set (got := recv _ _) in *.
  case_bool_decide as E1; [split; [done|]; intros _; left; destruct (Hh E1) as (io' & ? & ->); by split; [exists io'|]|].
  case_bool_decide as E2; [by split|]. assert (strip got = txt "send") as E3 by (by destruct (decide (strip got = txt "send"))).
  destruct (handle sha io (take (wi_arrive w) (feed_header sha name payload ++ payload)) r) as [replies r2].
  split; [inversion H2; subst; tauto|]. intros E. destruct (starts _ _) eqn:Eo; [|done].
  right. by apply (second_read _ _ _ _ _ _ _ _ H2 (Hs E3) Eo).
Qed.

(** Nothing fails: all bytes arrive, each [recv] returns the line that waits, and the
    system's calls succeed. *)
Record undisturbed_wire (w : wire) (io : receive_io) (name payload : text) : Prop := {
  un_arrive : (length (feed_header sha name payload ++ payload) <= wi_arrive w)%nat;
  un_first : wi_first w = 5%nat;
  un_second : (4 <= wi_second w)%nat;
  un_sent : ri_sent io = true;
  un_written : write_all (ri_writes io) payload = inr payload;
  un_installed : ri_installed io = true }.

Lemma ok_read name payload f n : dict_get FEEDS name = Some f -> (4 <= n)%nat -> starts (txt "ok ") (strip (take n (ok_reply name payload))) = true.
Proof.
  intros Hf Hn. assert (exists c x, name = c :: x /\ py_space c = false) as (c & x & -> & Hc).
  { revert Hf. unfold FEEDS. rewrite !dict_get_cons. do 2 (case_bool_decide; [subst; intros _; by eexists _, _|]). intros Hx. discriminate Hx. }
  destruct n as [|[|[|[|n]]]]; [lia..|]. unfold ok_reply.
  change (take _ _) with ("o"%byte :: (txt "k " ++ c :: take n (x ++ txt " " ++ show (Z.of_nat (length payload)) ++ NEWLINE))).
  destruct (strip_keeps "o" (txt "k ") c (take n (x ++ txt " " ++ show (Z.of_nat (length payload)) ++ NEWLINE)) eq_refl Hc) as (b & ->).
  apply starts_spec. by exists (c :: b).
Qed.

Lemma deliver_completes w io name payload f r : dict_get FEEDS name = Some f -> within f payload -> undisturbed_wire w io name payload ->
  (deliver_feed sha w io name payload r).1 = inr tt.
Proof.
  intros Hf Hw [Ha H5 H4 Hs Hwr Hi]. unfold deliver_feed. rewrite length_app in Ha. rewrite (take_ge (feed_header _ _ _)) by lia.
  pose proof (handle_full io name payload f [] r Hf Hw) as E1. rewrite app_nil_r in E1. rewrite E1. rewrite Hs. cbn [negb].
  case_bool_decide as Eh; [by rewrite H5|]. unfold within in Hw. cbn [length]. rewrite (proj2 (Nat.ltb_lt 0 (length payload))) by lia.
  cbn [concat]. rewrite app_nil_r, H5. destruct (refused_head (txt "payload truncated")) as (x & ->).
  change (recv 5 _) with (txt "send" ++ NEWLINE). cbn [strip]. rewrite !bool_decide_eq_false_2 by (vm_compute; tauto || discriminate).
  rewrite take_ge by (rewrite length_app; lia). rewrite (handle_full io name payload f payload r Hf Hw). rewrite Hs. cbn [negb].
  rewrite bool_decide_eq_false_2 by done. rewrite Nat.ltb_irrefl, take_ge, bool_decide_eq_false_2 by (done || tauto).
  unfold install_feed, install_file. rewrite Hf, Hwr, Hi. cbn [concat fst]. rewrite app_nil_r.
  change (drop _ _) with (ok_reply name payload). unfold recv. by rewrite (ok_read name payload f _ Hf) by lia.
Qed.

(** The key the host runtime gets is the one in the file. *)
Lemma node_key_read w io r key : dpu_node_key sha w io r = inr key -> read_node_key (rc_node_key r) = inr key.
Proof.
  unfold dpu_node_key, handle. unfold recv. generalize (Nat.min 128 (wi_first w)). intros n.
  assert (forall reason, suffix_of (txt "key ") (strip (take n (refused reason))) = None) as Hr.
  { intros reason. destruct (refused_head reason) as (x & ->). destruct n as [|n]; [done|]. cbn [take firstn].
    by destruct (strip_head "r" (take n x) eq_refl) as (s & ->). }
  assert (forall reason, concat [refused reason] = refused reason) as Hc by (intros; cbn [concat]; apply app_nil_r).
  destruct (read_header _) as [reason|[[|name size digest] rest]] eqn:Eh; [by rewrite Hc, Hr| |].
  - destruct (read_node_key _) as [reason|k] eqn:Ek; [by rewrite Hc, Hr|]. cbn [concat]. rewrite app_nil_r.
    assert (fullmatch HEX64_RE k = true) as Hk.
    { unfold read_node_key in Ek. destruct (rc_node_key r) as [data|]; [|done]. destruct (negb _); [done|].
      destruct (fullmatch HEX64_RE (strip data)) eqn:E; [|done]. by injection Ek as <-. }
    apply hex64_re in Hk as (bs & Hb & Ekk). pose proof (show_hex_plain bs) as Hp. rewrite <-Ekk in Hp.
    assert (length k = 64%nat) as Hl by (rewrite Ekk, length_show_hex; lia).
    destruct n as [|[|[|[|[|n]]]]]; [done..|]. change (take _ _) with (txt "key " ++ take (S n) (k ++ NEWLINE)).
    destruct k as [|c k]; [done|]. cbn [app take firstn].
    assert (exists q sp, take n (k ++ NEWLINE) = q ++ sp /\ Forall (fun c => py_space c = true) sp /\ q `prefix_of` k) as (q & sp & -> & Hsp & Hq).
    { destruct (Nat.le_gt_cases n (length k)).
      - exists (take n k), []. rewrite app_nil_r, take_app_le by done. split_and!; [done|constructor|]. exists (drop n k). by rewrite take_drop.
      - exists k, NEWLINE. rewrite take_ge by (rewrite length_app; cbn; lia). split_and!; [done|by repeat constructor|done]. }
    assert (strip (txt "key " ++ c :: q ++ sp) = txt "key " ++ c :: q) as ->.
    { assert (Forall (fun c => py_space c = false) (c :: q)) as Hq'.
      { destruct Hq as (k' & ->). apply (Forall_app _ (c :: q) k') in Hp as [Hp _]. eapply Forall_impl; [exact Hp|]. intros b. by destruct b. }
      destruct (exists_last (l := c :: q)) as (q' & z & E); [done|]. rewrite app_comm_cons, E, <-app_assoc in *.
      change (txt "key " ++ q' ++ [z] ++ sp) with ("k"%byte :: txt "ey " ++ q' ++ z :: sp). rewrite app_assoc, strip_exact; [|done| |done].
      - by rewrite <-app_assoc.
      - apply Forall_app in Hq' as [_ Hz]. by inversion Hz. }
    rewrite suffix_of_app. destruct (fullmatch HEX64_RE (c :: q)) eqn:Em; [|done]. intros [= <-].
    apply hex64_re in Em as (bs' & Hb' & E). apply (f_equal length) in E. rewrite length_show_hex, Hb' in E. destruct Hq as (k' & ->).
    cbn [length] in *. rewrite length_app in Hl. destruct k' as [|? ?]; [by rewrite app_nil_r|]. cbn [length] in Hl. lia.
  - exfalso. clear Hr Hc n. revert Eh. generalize (wi_arrive w). intros a Eh. unfold read_header in Eh.
    destruct (Nat.le_gt_cases a 10).
    + rewrite take_app_le in Eh by done. destruct (read_line_part HEADER_MAX [] (take a NODE_MAGIC)) as (reason & E); [|by rewrite E in Eh].
      intros H'. assert (NL ∉ NODE_MAGIC) as Hn by (apply memchr_None; reflexivity). apply Hn. rewrite <-(take_drop a). apply elem_of_app. by left.
    + rewrite take_ge in Eh by (cbn; lia). by vm_compute in Eh.
Qed.
End deliveries.

(** C15: feeds arrive whole or not at all.  Whatever bytes a caller sends, the receiver's
    files stay as they are, or one of its two documents is replaced by the whole
    document that was announced, within its bound and with the digest it was
    announced with.  However the bytes of a delivery are lost, and however
    replies are split, the delivery reports success only if the receiver
    already held a document of that digest or has installed exactly this one;
    otherwise at most this document has been installed.  And when nothing
    fails a document within the bound is delivered. *)
Theorem feed_delivery_exact sha (sha_length : forall x, length (sha x) = 32%nat) :
  (forall io input r, let r' := (handle sha io input r).2 in
     r' = r \/ exists name f size digest rest payload, read_header input = inr (FeedHeader name size digest, rest) /\
       dict_get FEEDS name = Some f /\ payload = take (Z.to_nat size) rest /\ Z.of_nat (length payload) = size /\ 1 <= size <= fd_bound f /\
       hexdigest sha payload = digest /\ r' = installed f payload r) /\
  (forall w io name payload f r, dict_get FEEDS name = Some f -> Z.of_nat (length payload) < 2 ^ 64 ->
     let (res, r') := deliver_feed sha w io name payload r in
     (r' = r \/ r' = installed f payload r) /\
     (res = inr tt -> (exists io', held_digest sha io' r name = Some (hexdigest sha payload)) /\ r' = r \/ r' = installed f payload r /\ within f payload)) /\
  (forall w io name payload f r, dict_get FEEDS name = Some f -> within f payload -> undisturbed_wire sha w io name payload ->
     (deliver_feed sha w io name payload r).1 = inr tt).
Proof.
  split; [exact (handle_installs sha)|]. split; [|intros; by eapply deliver_completes].
  intros w io name payload f r. by apply deliver_effect.
Qed.

Definition feed_sha (x : text) : list byte := repeat (z2b (Z.of_nat (length x) mod 256)) 32.
Definition demo_payload : text := txt "version=1" ++ NEWLINE.
Definition demo_tcp : wire := Wire 1000 5 128.
Definition demo_receive : receive_io := ReceiveIo true true [4; 100]%nat true.

Lemma demo_sha_length x : length (feed_sha x) = 32%nat.
Proof. apply repeat_length. Qed.

Lemma feed_delivery_exact_witness :
  (deliver_feed feed_sha demo_tcp demo_receive (txt "topology") demo_payload (Receiver [] None)).1 = inr tt /\
  dict_get (rc_files (deliver_feed feed_sha demo_tcp demo_receive (txt "topology") demo_payload (Receiver [] None)).2) (txt "topology.v1") = Some demo_payload.
Proof.
  split; [|vm_compute; reflexivity]. destruct (feed_delivery_exact feed_sha demo_sha_length) as (_ & _ & H).
  apply (H _ _ _ _ (Feed (txt "topology.v1") (16 * 1024 * 1024) 420)); [reflexivity|unfold within; cbn; lia|].
  split; [apply Nat.leb_le; vm_compute; reflexivity|reflexivity|cbn; lia|reflexivity|vm_compute; reflexivity|reflexivity].
Defined.
