(* ===== verification/NodeFeed.v ===== *)
(** * The feed loop of the host runtime ([node/dpumeshd.py])

    One turn fetches the two documents from the controller, delivers them to the
    DPU, asks the DPU for its public key and reports it to the controller.  The
    turn runs against the controller and the receiver of the other files; the
    replies of the controller travel through [do_GET] and [do_POST], a request
    whose handler ends in an exception gets no reply. *)

From S2P Require Import Prelude Text PeerIdentity Spans WorkloadIdentity WorkloadProofs Topology TopologyGrammar TopologyIntern PyText Controller ControllerText ControllerProofs ControllerRuns FeedReceiver FeedProofs.

(** The caller's side of the controller's server: its certificate, and what the
    server finds when it handles the request. *)
Record controller_link := ControllerLink {
  cl_nodes : option text;
  cl_cert : certificate;
  cl_process : process;
  cl_feed_keys : key_directory;
  cl_time_ns : Z }.

Section feed.
Context (sha : text -> list byte) (mac : list byte -> text -> list byte).

(** [ControllerClient.get]: [urlopen] raises on a status other than success. *)
Definition controller_get (l : controller_link) (path : text) (bound : Z) (c : controller) : result text * controller :=
  let (reply, c') := do_GET mac (cl_nodes l) (cl_cert l) path (cl_process l) (cl_feed_keys l) (cl_time_ns l) c in
  (match reply with
   | inr (status, payload) =>
       if negb (status =? 200) || bool_decide (payload = []) || (bound <? Z.of_nat (length payload)) then inl OwnError else inr payload
   | inl _ => inl OwnError
   end, c').

Definition report_json (node_name rdma public_key : text) : text :=
  txt "{" ++ quoted (txt "name") ++ txt ":" ++ quoted node_name ++ COMMA ++ quoted (txt "rdma") ++ txt ":" ++ quoted rdma ++ COMMA ++
  quoted (txt "dpu_public_key") ++ txt ":" ++ quoted public_key ++ txt "}".

(** [ControllerClient.report_node] *)
Definition report_node (l : controller_link) (node_name rdma public_key : text) (c : controller) : result unit * controller :=
  let length := show (Z.of_nat (length (report_json node_name rdma public_key))) in
  let (reply, c') := do_POST (cl_nodes l) (cl_cert l) (txt "/node") (Some length) (Some (node_name, rdma, public_key)) c in
  (match reply with inr (status, _) => if status =? 200 then inr tt else inl OwnError | inl _ => inl OwnError end, c').

Record once_io := OnceIo {
  oi_topology : controller_link;
  oi_targets : controller_link;
  oi_report : controller_link;
  oi_deliver : wire * receive_io;
  oi_deliver_targets : wire * receive_io;
  oi_key : wire * receive_io }.

(** [DPUFeed.once] *)
Definition once (node_name node_rdma : text) (io : once_io) (c : controller) (r : receiver) : result unit * controller * receiver :=
  match controller_get (oi_topology io) (txt "/topology.v1") (16 * 1024 * 1024) c with
  | (inl e, c) => (inl e, c, r)
  | (inr topology, c) =>
      match controller_get (oi_targets io) (txt "/service-targets.v1") (1024 * 1024) c with
      | (inl e, c) => (inl e, c, r)
      | (inr service_targets, c) =>
          match deliver_feed sha (oi_deliver io).1 (oi_deliver io).2 (txt "topology") topology r with
          | (inl e, r) => (inl e, c, r)
          | (inr _, r) =>
              match deliver_feed sha (oi_deliver_targets io).1 (oi_deliver_targets io).2 (txt "service-targets") service_targets r with
              | (inl e, r) => (inl e, c, r)
              | (inr _, r) =>
                  match dpu_node_key sha (oi_key io).1 (oi_key io).2 r with
                  | inl e => (inl e, c, r)
                  | inr key => let (reply, c) := report_node (oi_report io) node_name node_rdma key c in (reply, c, r)
                  end
              end
          end
      end
  end.

(** ** What a turn does *)

Lemma get_topology l bound c payload c' : controller_get l (txt "/topology.v1") bound c = (inr payload, c') ->
  payload = ct_document c /\ c' = c /\ payload <> [] /\ Z.of_nat (length payload) <= bound.
Proof.
  unfold controller_get, do_GET. change (target_path (txt "/topology.v1")) with (txt "/topology.v1").
  rewrite bool_decide_eq_false_2, bool_decide_eq_true_2 by done.
  destruct (reporter _ _) as [e|[n|]]; [done| |done]. cbn [mbind result_bind]. case_bool_decide; [done|]. unfold py_ascii.
  destruct (forallb _ _); [|done]. cbn [mbind result_bind mret result_ret]. change (200 =? 200) with true. cbn [negb orb].
  case_bool_decide; [done|]. destruct (Z.ltb_spec bound (Z.of_nat (length (ct_document c)))); [done|]. intros [= <- <-]. done.
Qed.

Lemma get_path l path bound c payload c' : controller_get l path bound c = (inr payload, c') ->
  (exists k, c' = c <| ct_cache := k |>) /\ payload <> [] /\ Z.of_nat (length payload) <= bound.
Proof.
  unfold controller_get. pose proof (get_keeps mac (cl_nodes l) (cl_cert l) path (cl_process l) (cl_feed_keys l) (cl_time_ns l) c) as H.
  destruct (do_GET _ _ _ _ _ _ _ _) as [[e|[status body]] c1]; [done|]. destruct (negb _ || _ || _) eqn:E; [done|]. intros [= <- <-].
  split; [done|]. apply orb_false_iff in E as [[_ H1%bool_decide_eq_false]%orb_false_iff H2%Z.ltb_ge]. done.
Qed.

Lemma report_node_effect l node rdma key c c' : report_node l node rdma key c = (inr tt, c') ->
  c' = c <| ct_reports := dict_set node key (ct_reports c) |>.
Proof.
  unfold report_node, do_POST. case_bool_decide; [done|]. destruct (reporter _ _) as [e|[n|]]; [done| |done].
  destruct (py_int _) as [len|]; [|done]. destruct (negb _); [done|]. case_bool_decide; [done|]. destruct (names _) as [e|known]; [done|].
  case_bool_decide; [done|]. destruct (report _ _ _ _ _) as [[| |]|reports] eqn:E; try done. intros [= <-].
  unfold report in E. repeat (apply bind_inr in E as (? & _ & E)). by injection E as <-.
Qed.

Context (sha_length : forall x, length (sha x) = 32%nat).

Lemma hexdigest_inj a b : hexdigest sha a = hexdigest sha b -> sha a = sha b.
Proof.
  intros H. pose proof (proj2 (span_hex_bytes_spec _ 32 (sha a)) (conj (sha_length a) eq_refl)) as H1.
  pose proof (proj2 (span_hex_bytes_spec _ 32 (sha b)) (conj (sha_length b) eq_refl)) as H2. unfold hexdigest in H. rewrite H in H1. congruence.
Qed.

(** After a delivery the receiver holds a document with the digest of the one
    delivered, and no other file has changed. *)
Lemma delivered_held w io name payload f r r' : dict_get FEEDS name = Some f -> Z.of_nat (length payload) < 2 ^ 64 ->
  deliver_feed sha w io name payload r = (inr tt, r') ->
  (exists held, dict_get (rc_files r') (fd_target f) = Some held /\ sha held = sha payload) /\ rc_node_key r' = rc_node_key r /\
  (forall t, t <> fd_target f -> dict_get (rc_files r') t = dict_get (rc_files r) t).
Proof.
  intros Hf Hp H. pose proof (deliver_effect sha sha_length w io name payload f r Hf Hp) as Hd. rewrite H in Hd. destruct Hd as [_ Hd].
  destruct (Hd eq_refl) as [[(io' & Hh) ->]|[-> _]].
  - split; [|done]. unfold held_digest in Hh. rewrite Hf in Hh. cbn [mbind option_bind] in Hh. apply bind_Some in Hh as (held & Hr & Hh).
    destruct (ri_readable io'); [|done]. destruct (_ <? _); [done|]. injection Hh as Hh. exists held. split; [done|]. by apply hexdigest_inj.
  - unfold installed. cbn [rc_files rc_node_key set]. split; [|split; [done|]].
    + exists payload. by rewrite dict_get_set, bool_decide_eq_true_2.
    + intros t Ht. by rewrite dict_get_set, bool_decide_eq_false_2.
Qed.

Lemma once_effect node rdma io c r c' r' : once node rdma io c r = (inr tt, c', r') -> exists key held,
  dict_get (rc_files r') (txt "topology.v1") = Some held /\ sha held = sha (ct_document c) /\ ct_document c' = ct_document c /\
  read_node_key (rc_node_key r) = inr key /\ ct_reports c' = dict_set node key (ct_reports c).
Proof.
  unfold once. destruct (controller_get _ _ _ c) as [[e|topology] c1] eqn:E1; [done|].
  apply get_topology in E1 as (-> & -> & Hn & Hl).
  destruct (controller_get _ _ _ c) as [[e|targets] c2] eqn:E2; [done|]. apply get_path in E2 as ((k & ->) & _ & Hl2).
  destruct (deliver_feed _ _ _ _ _ r) as [[e|[]] r1] eqn:E3; [done|].
  destruct (deliver_feed _ _ _ _ _ r1) as [[e|[]] r2] eqn:E4; [done|].
  eapply delivered_held in E3 as ((held & Hh & Hs) & Hk & _); [|reflexivity|lia].
  eapply delivered_held in E4 as (_ & Hk2 & Hother); [|reflexivity|lia].
  destruct (dpu_node_key _ _ _ r2) as [e|key] eqn:E5; [done|]. apply node_key_read in E5. rewrite Hk2, Hk in E5.
  destruct (report_node _ _ _ _ _) as [res c3] eqn:E6. intros [= -> -> ->]. apply report_node_effect in E6 as ->.
  exists key, held. cbn [fd_target] in Hh, Hother. rewrite Hother by done. done.
Qed.
End feed.


(** ** A turn *)

Definition demo_generation : text := ct_document (demo_published (txt "4420") (txt "ctl-1")).
Definition exact_sha (x : text) : list byte := repeat (if bool_decide (x = demo_generation) then x01 else x02) 32.
Definition demo_link : controller_link := ControllerLink (Some (node_file (txt "4420"))) node_certificate operator (demo_keys (txt "feed-1")) 1700000000000000001.
Definition demo_once : once_io :=
  let quiet := (Wire (N.to_nat 65536) 5 128, ReceiveIo true true [N.to_nat 65536] true) in
  OnceIo demo_link demo_link demo_link quiet quiet (Wire 16 128 0, ReceiveIo true true [] true).
Definition dpu_files : receiver := Receiver [(txt "topology.v1", txt "version=1" ++ NEWLINE)] (Some (show_hex (repeat x0b 32) ++ NEWLINE)).
Definition after_turn : result unit * controller * receiver :=
  once exact_sha demo_sign (txt "node-b") (txt "10.1.0.1:4420") demo_once (demo_published (txt "4420") (txt "ctl-1")) dpu_files.

Lemma turn_succeeded : after_turn = (inr tt, after_turn.1.2, after_turn.2).
Proof. vm_compute. reflexivity. Qed.

Lemma demo_arrived : dict_get (rc_files after_turn.2) (txt "topology.v1") = Some demo_generation.
Proof. vm_compute. reflexivity. Qed.

Lemma exact_sha_only x : exact_sha x = exact_sha demo_generation -> x = demo_generation.
Proof.
  unfold exact_sha. rewrite (bool_decide_eq_true_2 (demo_generation = demo_generation)) by done.
  case_bool_decide; [done|]. intros E. discriminate E.
Qed.

