(* ===== verification/NodeIdentity.v ===== *)
(** * Workloads on the host ([node/workload_identity.py],
      [node/local_registration.py], [node/dpumeshd.py])

    The host runtime finds out which container has connected to a channel socket
    from the kernel, finds its Pod among the objects of the API server, and packs
    and seals the identity record that the DPU decodes.

    What the kernel, the API server and the kubelet answer is an input; HMAC-SHA256
    is the function [mac]. *)

From S2P Require Import Prelude Text Spans PyText Controller.

(** ** Text *)

Definition lower_char (c : byte) : byte := if in_range "A" "Z" c then z2b (b2z c + 32) else c.
Definition lower (s : text) : text := lower_char <$> s.

(** The first place where a text occurs: what is before it and what is after. *)
Fixpoint partition_at (sep s : text) : option (text * text) :=
  if starts sep s then Some ([], drop (length sep) s)
  else match s with
       | [] => None
       | c :: s' => '(a, b) ← partition_at sep s'; Some (c :: a, b)
       end.
Definition contains (sub s : text) : bool := bool_decide (is_Some (partition_at sub s)).

(** [inet_pton]: four decimal numbers up to 255 without leading zeros; [inet_ntop] is
    [show_ipv4]. *)
Definition pton_part (p : text) : bool :=
  isdigit p && (length p <=? 3)%nat && negb (leading_zero p) && (undecimal p 0 <=? 255).
Definition inet_pton (s : text) : option Z :=
  match split_on "." s with
  | [a; b; c; d] =>
      if pton_part a && pton_part b && pton_part c && pton_part d
      then Some (((undecimal a 0 * 256 + undecimal b 0) * 256 + undecimal c 0) * 256 + undecimal d 0) else None
  | _ => None
  end.

(** ** Evidence from the kernel *)

Definition hex_fold (c : byte) : bool := hex_lower (lower_char c).
Definition uid_separator (c : byte) : bool := char_eq c "-" || char_eq c "_".
Definition CGROUP_UID_RE : regex :=
  let hex := Chr hex_fold in let sep := Chr uid_separator in
  Seq (Times 8 hex) (Seq sep (Seq (Times 4 hex) (Seq sep (Seq (Times 4 hex) (Seq sep (Seq (Times 4 hex) (Seq sep (Times 12 hex)))))))).

(** [POD_UID_RE.search]: all matches have 36 characters. *)
Fixpoint search_uid (s : text) : option text :=
  if fullmatch CGROUP_UID_RE (take 36 s) then Some (take 36 s)
  else match s with [] => None | _ :: s' => search_uid s' end.

(** [(?:\.scope)?(?:/|$)] at the start of a text without newlines. *)
Definition id_ends (s : text) : bool :=
  let slash_or_end s := match s with [] => true | c :: _ => char_eq c "/" end in
  slash_or_end s || (starts (txt ".scope") (lower s) && slash_or_end (drop 6 s)).
(** The runtime's prefix of a container's scope, if the text starts with one. *)
Definition after_runtime (s : text) : option text :=
  let l := lower s in
  if starts (txt "cri-containerd-") l then Some (drop 15 s)
  else if starts (txt "crio-") l then Some (drop 5 s)
  else if starts (txt "docker-") l then Some (drop 7 s) else None.
Definition container_at (s : text) : option text :=
  rest ← after_runtime s;
  if (length (take 64 rest) =? 64)%nat && forallb hex_fold (take 64 rest) && id_ends (drop 64 rest) then Some (take 64 rest) else None.
Fixpoint search_container (s : text) : option text :=
  match container_at s with
  | Some id => Some id
  | None => match s with [] => None | _ :: s' => search_container s' end
  end.

Definition hyphens (s : text) : text := (fun c => if char_eq c "_" then "-"%byte else c) <$> s.

Definition parse_cgroup_identity (document : text) : result (text * text) :=
  unified ← or_raise (first_with (txt "0::") (splitlines document)) OwnError;
  raise_if (negb (contains (txt "kubepods") unified)) OwnError;;
  match search_uid unified, search_container unified with
  | Some pod, Some container => mret (lower (hyphens pod), lower container)
  | _, _ => raise OwnError
  end.

Definition process_starttime (stat : option text) : result text :=
  raw ← or_raise stat OwnError;
  raise_if (negb (forallb is_ascii raw)) OwnError;;
  or_raise (words (after_last ")" raw) !! 19%nat) OwnError.

Record process_evidence := ProcessEvidence { pe_pod_uid : text; pe_container_id : text }.

(** [before], [cgroup], [after]: what the files of the peer's process contain when
    they are read. *)
Definition kernel_evidence (before cgroup after : option text) : result process_evidence :=
  start ← process_starttime before;
  document ← or_raise cgroup OwnError;
  raise_if (negb (forallb is_ascii document)) OwnError;;
  finish ← process_starttime after;
  raise_if (bool_decide (start <> finish)) OwnError;;
  ids ← parse_cgroup_identity document;
  mret (ProcessEvidence ids.1 ids.2).

(** [struct "<8sBB2x64s"] *)
Definition BROKER_HELLO_SIZE : nat := 76.
Definition BROKER_IPC_VERSION : Z := 3.

Definition parse_hello (packet : list byte) : result text :=
  raise_if (negb (length packet =? BROKER_HELLO_SIZE)%nat) OwnError;;
  let magic := take 8 packet in
  let service_field := drop 12 packet in
  raise_if (bool_decide (magic <> txt "DMESHBR1") || bool_decide (packet !! 8%nat <> Some x01) ||
            bool_decide (packet !! 9%nat <> Some (z2b BROKER_IPC_VERSION))) OwnError;;
  raise_if (bool_decide (x00 ∉ service_field)) OwnError;;
  let service := before_first x00 service_field in
  raise_if (negb (forallb is_ascii service)) OwnError;;
  raise_if (bool_decide (service <> []) && negb (fullmatch SERVICE_NAME_RE service)) OwnError;;
  mret service.

(** ** Eligibility *)

Definition fixed_text (value : text) (size : nat) (allow_empty : bool) : result (list byte) :=
  raise_if (negb (forallb is_ascii value)) OwnError;;
  raise_if ((bool_decide (value = []) && negb allow_empty) || (size <=? length value)%nat || bool_decide (x00 ∈ value)) OwnError;;
  mret (value ++ repeat x00 (size - length value)).

Definition canonical_ipv4 (address : text) : result text :=
  packed ← or_raise (inet_pton address) OwnError;
  raise_if (bool_decide (show_ipv4 packed <> address)) OwnError;;
  mret address.
Definition pod_ipv4 (pod : k8s_pod) : result text := canonical_ipv4 (or_empty (kp_ip pod)).

Definition one (q : option quantity) : bool :=
  match q with
  | Some (QInt n) => n =? 1
  | Some (QStr s) => bool_decide (s = txt "1")
  | None => false
  end.

Fixpoint resource_targets (resource : text) (containers : list k8s_container) : result (list k8s_container) :=
  match containers with
  | [] => mret []
  | c :: cs =>
      let request := dict_get (kc_requests c) resource in
      let limit := dict_get (kc_limits c) resource in
      if one request && one limit then targets ← resource_targets resource cs; mret (c :: targets)
      else if bool_decide (is_Some request) || bool_decide (is_Some limit) then raise OwnError
      else resource_targets resource cs
  end.
Definition resource_target (pod : k8s_pod) (resource : text) : result k8s_container :=
  targets ← resource_targets resource (kp_containers pod);
  match targets with [target] => mret target | _ => raise OwnError end.

Definition service_account_token_disabled (pod : k8s_pod) : bool :=
  bool_decide (kp_automount pod = Some false) && negb (existsb (existsb id) (kp_token_volumes pod)).

Definition status_id (container_name : text) (s : k8s_status) : option text :=
  if bool_decide (ks_name s <> Some container_name) || negb (ks_running s) then None
  else '(_, container_id) ← partition_at (txt "://") (or_empty (ks_container_id s));
       if bool_decide (container_id = []) then None else Some container_id.
Definition running_container_id (pod : k8s_pod) (container_name : text) : result text :=
  match omap (status_id container_name) (kp_statuses pod) with [id] => mret id | _ => raise OwnError end.

Definition selects (selector labels : dict text) : bool :=
  bool_decide (selector <> []) && forallb (fun e => bool_decide (dict_get labels e.1 = Some e.2)) selector.

Definition authorize_service (service_name : text) (pod : k8s_pod) (services : list k8s_service) : result unit :=
  if bool_decide (service_name = []) then mret tt
  else
    raise_if (negb (fullmatch SERVICE_NAME_RE service_name)) OwnError;;
    match filter (fun s => sv_namespace s = kp_namespace pod /\ sv_name s = Some service_name) services with
    | [service] =>
        raise_if (negb (selects (sv_selector service) (kp_labels pod))) OwnError;;
        let cluster_ip := or_empty (sv_cluster_ip service) in
        packed ← or_raise (inet_pton cluster_ip) OwnError;
        match sv_ports service with
        | Some port :: _ => raise_if (bool_decide (show_ipv4 packed <> cluster_ip) || negb ((0 <? port) && (port <? 65536))) OwnError
        | _ => raise OwnError
        end
    | _ => raise OwnError
    end.

Definition resolve_authorized_pod (pod_uid node_name container_id service_name : text) (pods : list k8s_pod) (services : list k8s_service)
    (resource : text) : result k8s_pod :=
  match filter (fun p => kp_uid p = Some pod_uid) pods with
  | [pod] =>
      raise_if (bool_decide (or_empty (kp_deletion pod) <> [])) OwnError;;
      raise_if (bool_decide (kp_node_name pod <> Some node_name)) OwnError;;
      raise_if (negb (service_account_token_disabled pod)) OwnError;;
      target ← resource_target pod resource;
      expected ← running_container_id pod (or_empty (kc_name target));
      raise_if (bool_decide (expected <> container_id)) OwnError;;
      authorize_service service_name pod services;;
      pod_ipv4 pod;;
      mret pod
  | _ => raise OwnError
  end.

(** ** Records *)

(** The parts of a [Worker] that a record states. *)
Record worker := Worker { wk_slot : Z; wk_generation : Z; wk_pod_uid : text; wk_container_id : text; wk_service : text }.

(** A device of the kubelet's listing: Pod, namespace, container, resource and ids. *)
Record allocation := Allocation { al_pod : text; al_namespace : text; al_container : text; al_resource : text; al_ids : list text }.

Definition CHANNEL : text := txt "dpumesh.io/channel".
(** [f'channel-{slot:03d}'] *)
Definition device_id (slot : Z) : text := let s := show slot in txt "channel-" ++ repeat "0"%byte (3 - length s) ++ s.

(** [WorkloadVerifier.resolve]; [listing] is what the kubelet answers when the
    allocation is checked. *)
Definition resolve_worker (node : text) (w : worker) (snapshot : list k8s_pod * list k8s_service) (check_allocation : bool)
    (listing : option (list allocation)) : result (k8s_pod * k8s_container) :=
  pod ← resolve_authorized_pod (wk_pod_uid w) node (wk_container_id w) (wk_service w) snapshot.1 snapshot.2 CHANNEL;
  target ← resource_target pod CHANNEL;
  if negb check_allocation then mret (pod, target)
  else
    devices ← or_raise listing OSError;
    name ← or_raise (kp_name pod) ValueError;
    namespace ← or_raise (kp_namespace pod) ValueError;
    container ← or_raise (kc_name target) ValueError;
    match filter (fun d => al_pod d = name /\ al_namespace d = namespace /\ al_container d = container /\ al_resource d = CHANNEL) devices with
    | [d] => raise_if (bool_decide (al_ids d <> [device_id (wk_slot w)])) ValueError;; mret (pod, target)
    | _ => raise ValueError
    end.

(** The views a registration is checked against: the watched one when it is synced,
    and the answer of the API server. *)
Record views := Views {
  vw_observed : option (list k8s_pod * list k8s_service);
  vw_snapshot : option (list k8s_pod * list k8s_service);
  vw_listing : option (list allocation);
  vw_relisting : option (list allocation) }.

Definition observed_pod (node : text) (w : worker) (v : views) : result (k8s_pod * k8s_container) :=
  let watched := match vw_observed v with None => raise OwnError | Some s => resolve_worker node w s true (vw_listing v) end in
  match watched with
  | inl OwnError => snapshot ← or_raise (vw_snapshot v) OSError; resolve_worker node w snapshot true (vw_relisting v)
  | r => r
  end.

(** [struct.pack]: integers little-endian, refused when they do not fit. *)
Definition pack_le (bytes : nat) (n : Z) : result (list byte) :=
  raise_if (negb ((0 <=? n) && (n <? 2 ^ (8 * Z.of_nat bytes)))) ValueError;;
  mret ((fun i => z2b (Z.shiftr n (8 * Z.of_nat i))) <$> seq 0 bytes).
Definition pack_s (size : nat) (s : list byte) : list byte := take size s ++ repeat x00 (size - length s).
Definition IDENTITY_TTL_SECONDS : Z := 30.
Definition IDENTITY_SIZE : nat := N.to_nat 1433.

(** [WorkloadVerifier.metadata] *)
Definition metadata (cluster node : text) (w : worker) (connection_id incarnation : list byte) (now : Z) (v : views) : result (list byte) :=
  found ← observed_pod node w v;
  let (pod, target) := found : k8s_pod * k8s_container in
  issued ← pack_le 8 now;
  expires ← pack_le 8 (now + IDENTITY_TTL_SECONDS);
  slot ← pack_le 4 (wk_slot w);
  generation ← pack_le 8 (wk_generation w);
  f1 ← fixed_text cluster 64 false;
  f2 ← fixed_text node 254 false;
  f3 ← fixed_text (wk_pod_uid w) 64 false;
  namespace ← or_raise (kp_namespace pod) ValueError;
  f4 ← fixed_text namespace 64 false;
  name ← or_raise (kp_name pod) ValueError;
  f5 ← fixed_text name 254 false;
  f6 ← fixed_text (default (txt "default") (kp_account pod)) 254 false;
  container ← or_raise (kc_name target) ValueError;
  f7 ← fixed_text container 254 false;
  f8 ← fixed_text (wk_container_id w) 65 false;
  f9 ← fixed_text (wk_service w) 64 true;
  ip ← pod_ipv4 pod;
  f10 ← fixed_text ip 16 false;
  mret ([x01; x01; x00; x00] ++ issued ++ expires ++ pack_s 32 connection_id ++ slot ++ generation ++ pack_s 16 incarnation ++
        f1 ++ f2 ++ f3 ++ f4 ++ f5 ++ f6 ++ f7 ++ f8 ++ f9 ++ f10).

Definition SEAL_LABEL : text := txt "dpumesh-registration".
(** [REG_ASSERTION] and [PROTOCOL_VERSION] are 16 and 6. *)
Definition seal (mac : list byte -> list byte -> list byte) (session record : list byte) : result (list byte) :=
  raise_if (negb (length session =? 16)%nat || negb (length record =? IDENTITY_SIZE)%nat) ValueError;;
  let body := [z2b 16; z2b 6; x00; x00] ++ record in
  mret (body ++ mac (mac session SEAL_LABEL) body).
