(* ===== verification/NodeIdentityProofs.v ===== *)
(** * Identity records from the host to the DPU *)

From S2P Require Import Prelude Text PeerIdentity Spans WorkloadIdentity WorkloadProofs Topology TopologyParse TopologyIntern LocalControl LocalControlProofs ControlScope Registration RegistrationInv RegistrationSteps RegistrationProofs PyText Controller ControllerText ControllerRuns NodeIdentity.

(** ** Addresses *)

Lemma pton_part_spec p : pton_part p = true <-> canonical p /\ undecimal p 0 <= 255.
Proof.
  unfold pton_part. rewrite !andb_true_iff, isdigit_spec, Nat.leb_le, negb_true_iff, Z.leb_le. split.
  - intros [[[[Hn Hd] Hl] Hz] Hv]. split; [|done]. apply canonical_checks; [done|]. rewrite Hz. destruct p; done.
  - intros [Hc Hv]. pose proof Hc as (Hn & Hd & _). apply canonical_checks in Hc; [|done]. apply orb_false_iff in Hc as [_ Hz]. split_and!; try done.
    assert (canonical p) as Hc by (apply canonical_checks; [done|]; rewrite Hz; by destruct p). apply (canonical_short p 3 Hc); lia.
Qed.

(** The host accepts exactly the addresses that the DPU reads. *)
Lemma canonical_ipv4_spec a x : canonical_ipv4 a = inr x <-> x = a /\ exists ip, in_width 32 ip /\ a = show_ipv4 ip.
Proof.
  unfold canonical_ipv4. split.
  - intros (packed & Hp%or_raise_inr & H)%bind_inr. apply bind_inr in H as ([] & He%raise_if_inr%bool_decide_eq_false & H). injection H as <-.
    split; [done|]. unfold inet_pton in Hp. destruct (split_on "." a) as [|p1 [|p2 [|p3 [|p4 [|? ?]]]]]; try done.
    destruct (pton_part p1 && pton_part p2 && pton_part p3 && pton_part p4) eqn:E; [|done]. apply (inj Some) in Hp.
    rewrite !andb_true_iff, !pton_part_spec in E. destruct E as [[[[(? & D1 & _) ?] [(? & D2 & _) ?]] [(? & D3 & _) ?]] [(? & D4 & _) ?]].
    pose proof (undecimal_nonneg p1 D1 0). pose proof (undecimal_nonneg p2 D2 0). pose proof (undecimal_nonneg p3 D3 0). pose proof (undecimal_nonneg p4 D4 0).
    exists packed. split; [unfold in_width; lia|]. destruct (decide (show_ipv4 packed = a)); [done|]. by exfalso.
  - intros (-> & ip & Hi & ->). pose proof (ip_octets_spec ip Hi) as [Ho Hb].
    assert (inet_pton (show_ipv4 ip) = Some ip) as ->; [|cbn [or_raise mbind result_bind]; by rewrite bool_decide_eq_false_2 by tauto].
    assert (forall v, 0 <= v <= 255 -> pton_part (show v) = true /\ undecimal (show v) 0 = v /\ "."%byte ∉ show v) as Hs.
    { intros v Hv. destruct (proj1 (show_spec (show v) v ltac:(unfold in_width; lia)) eq_refl) as (Hc & _ & E).
      split; [apply pton_part_spec; split; [done|lia]|]. split; [done|]. destruct Hc as (_ & Hd & _). intros Hin. by apply (proj1 (Forall_forall _ _) Hd) in Hin. }
    unfold inet_pton, show_ipv4. unfold ip_octets in *. cbn [fmap list_fmap] in *. rewrite !Forall_cons in Ho. destruct Ho as (H1 & H2 & H3 & H4 & _).
    rewrite split_join; [|done|repeat constructor; by apply Hs]. rewrite ip_be_sum in Hb by lia.
    destruct (Hs _ H1) as (-> & -> & _), (Hs _ H2) as (-> & -> & _), (Hs _ H3) as (-> & -> & _), (Hs _ H4) as (-> & -> & _). cbn [andb]. f_equal. lia.
Qed.

(** ** Evidence *)

Definition tidy_char (c : byte) : byte := lower_char (if char_eq c "_" then "-"%byte else c).
Lemma tidy_hex c : hex_fold c = true -> hex_lower (tidy_char c) = true.
Proof. unfold hex_fold, tidy_char. destruct (char_eq_spec c "_") as [->|]; [by vm_compute|done]. Qed.
Lemma tidy_separator c : uid_separator c = true -> tidy_char c = "-"%byte.
Proof. unfold uid_separator. destruct (char_eq_spec c "-") as [->|]; [done|]. by destruct (char_eq_spec c "_") as [->|]. Qed.

Lemma cgroup_uid s : fullmatch CGROUP_UID_RE s = true -> pod_uid (lower (hyphens s)).
Proof.
  intros H. apply fullmatch_spec in H.
  assert (spelled CGROUP_UID_RE (repeat hex_fold 8 ++ [uid_separator] ++ repeat hex_fold 4 ++ [uid_separator] ++ repeat hex_fold 4 ++
     [uid_separator] ++ repeat hex_fold 4 ++ [uid_separator] ++ repeat hex_fold 12)) as Hs by (unfold CGROUP_UID_RE; auto 20 with spelling).
  apply Hs in H. apply span_pod_uid_spec. unfold span_pod_uid. rewrite andb_true_iff, Nat.eqb_eq. apply uid_loop_classes.
  unfold lower, hyphens. rewrite <-list_fmap_compose. change (lower_char ∘ _) with tidy_char.
  apply Forall2_fmap_r. apply Forall2_same_length_lookup_2; [by apply Forall2_length in H|]. intros i p c Hp Hc.
  assert (i < 36)%nat as Hi by (apply lookup_lt_Some in Hp; done).
  destruct (Forall2_lookup_r _ _ _ _ _ H Hc) as (q & Hq & Hqc).
  assert (exists b, (b = true /\ q = hex_fold /\ p = hex_lower) \/ (q = uid_separator /\ p = fun c => char_eq c "-")) as (b & [(_ & -> & ->)|[-> ->]]).
  { do 36 (destruct i as [|i]; [injection Hp as <-; injection Hq as <-; (exists true; left; done) || (exists false; by right)|]). lia. }
  - by apply tidy_hex.
  - apply tidy_separator in Hqc. change (char_eq (tidy_char c) "-" = true). by rewrite Hqc.
Qed.

Lemma search_uid_found s pod : search_uid s = Some pod -> fullmatch CGROUP_UID_RE pod = true.
Proof.
  induction s as [|c s IH]; cbn [search_uid].
  - destruct (fullmatch _ _) eqn:E; [|done]. by intros [= <-].
  - destruct (fullmatch _ (take 36 (c :: s))) eqn:E; [|done]. by intros [= <-].
Qed.

Lemma container_at_found s id : container_at s = Some id -> length id = 64%nat /\ Forall (fun c => hex_fold c = true) id.
Proof.
  unfold container_at. intros (rest & _ & H)%bind_Some. destruct (_ && _ && _) eqn:E; [|done]. injection H as <-.
  rewrite !andb_true_iff, Nat.eqb_eq, forallb_spec in E. tauto.
Qed.
Lemma search_container_found s id : search_container s = Some id -> length id = 64%nat /\ Forall (fun c => hex_fold c = true) id.
Proof.
  induction s as [|c s IH]; cbn [search_container]; (destruct (container_at _) eqn:E; [intros [= <-]; by eapply container_at_found|done]).
Qed.

(** What the kernel's evidence names has the canonical forms of the record. *)
Lemma evidence_canonical before cgroup after ev : kernel_evidence before cgroup after = inr ev ->
  pod_uid (pe_pod_uid ev) /\ container_id (pe_container_id ev).
Proof.
  unfold kernel_evidence. intros (? & _ & H)%bind_inr. apply bind_inr in H as (doc & _ & H). apply bind_inr in H as (? & _ & H).
  apply bind_inr in H as (? & _ & H). apply bind_inr in H as (? & _ & H). apply bind_inr in H as (ids & Hids & H). injection H as <-.
  unfold parse_cgroup_identity in Hids. apply bind_inr in Hids as (unified & _ & Hids). apply bind_inr in Hids as (? & _ & Hids).
  destruct (search_uid unified) as [pod|] eqn:Ep; [|done]. destruct (search_container unified) as [container|] eqn:Ec; [|done]. injection Hids as <-.
  split; [by apply cgroup_uid, (search_uid_found unified)|]. apply search_container_found in Ec as [Hl Hh].
  split; [unfold lower; cbn; by rewrite length_fmap|]. cbn. unfold lower. by apply Forall_fmap.
Qed.

Lemma hello_service packet service : parse_hello packet = inr service -> service = [] \/ label63 service.
Proof.
  unfold parse_hello. intros (? & _ & H)%bind_inr. cbv zeta in H. apply bind_inr in H as (? & _ & H). apply bind_inr in H as (? & _ & H).
  apply bind_inr in H as (? & _ & H). apply bind_inr in H as (? & Hs%raise_if_inr & H). injection H as <-.
  apply andb_false_iff in Hs as [Hs%bool_decide_eq_false|Hs%negb_false_iff]; [left|right; by apply service_name_re].
  destruct (decide (before_first x00 (drop 12 packet) = [])); [done|]. by exfalso.
Qed.

(** ** Fields *)

Lemma fixed_text_spec v n e b : fixed_text v n e = inr b ->
  b = field_text n v /\ (length v < n)%nat /\ (x00 ∉ v) /\ (v = [] -> e = true).
Proof.
  unfold fixed_text. intros (? & _ & H)%bind_inr. apply bind_inr in H as (? & Hc%raise_if_inr & H). injection H as <-.
  rewrite !orb_false_iff, andb_false_iff, bool_decide_eq_false, Nat.leb_gt, bool_decide_eq_false, negb_false_iff in Hc.
  split; [done|]. tauto.
Qed.

Lemma field_text_spec n v : (length v < n)%nat -> x00 ∉ v ->
  cstr (field_text n v) = v /\ text_ends (field_text n v) = true /\ length (field_text n v) = n.
Proof.
  intros Hl Hv. unfold field_text. destruct (n - length v)%nat as [|k] eqn:E; [lia|]. cbn [repeat].
  assert (cstr (v ++ x00 :: repeat x00 k) = v) as Ec.
  { pose proof (cstr_memchr (v ++ x00 :: repeat x00 k)) as H. rewrite memchr_app in H by done. destruct H as [-> _]. apply take_app_length. }
  split; [done|]. split.
  - unfold text_ends. rewrite Ec, drop_app_length, length_app. cbn [length]. apply andb_true_iff. split; [apply Nat.ltb_lt; lia|].
    apply (forallb_spec _ (repeat x00 (S k))). apply Forall_forall. intros c Hc. apply list_elem_of_In in Hc. by apply repeat_spec in Hc as ->.
  - rewrite length_app. cbn [length]. rewrite repeat_length. lia.
Qed.

(** ** Eligibility *)

Lemma resource_targets_in resource cs targets t : resource_targets resource cs = inr targets -> t ∈ targets -> t ∈ cs.
Proof.
  revert targets. induction cs as [|c cs IH]; intros targets H Ht; cbn [resource_targets] in H; [injection H as <-; by apply elem_of_nil in Ht|].
  destruct (one _ && one _).
  - apply bind_inr in H as (ts & Hts & H). injection H as <-. apply elem_of_cons in Ht as [->|Ht]; [by left|]. right. by apply (IH ts).
  - destruct (_ || _); [done|]. right. by apply (IH targets).
Qed.

Lemma resource_target_in pod resource t : resource_target pod resource = inr t -> t ∈ kp_containers pod.
Proof.
  unfold resource_target. intros (targets & H & Ht)%bind_inr. destruct targets as [|x [|? ?]]; try done. injection Ht as ->.
  eapply resource_targets_in; [exact H|]. by left.
Qed.

Lemma resolved_pod uid node cid service pods services resource pod :
  resolve_authorized_pod uid node cid service pods services resource = inr pod ->
  pod ∈ pods /\ kp_uid pod = Some uid /\ kp_node_name pod = Some node /\ pod_ipv4 pod = inr (or_empty (kp_ip pod)).
Proof.
  unfold resolve_authorized_pod. destruct (filter _ pods) as [|p [|? ?]] eqn:Ef; [done| |done].
  assert (p ∈ filter (fun p => kp_uid p = Some uid) pods) as Hp by (rewrite Ef; by left). apply list_elem_of_filter in Hp as [Hu Hp].
  intros H. apply bind_inr in H as (? & _ & H). apply bind_inr in H as (? & Hn%raise_if_inr%bool_decide_eq_false & H). apply bind_inr in H as (? & _ & H).
  apply bind_inr in H as (? & _ & H). apply bind_inr in H as (? & _ & H). apply bind_inr in H as (? & _ & H). apply bind_inr in H as (? & _ & H).
  apply bind_inr in H as (a & Ha & H). injection H as <-. split; [done|]. split; [done|].
  split; [destruct (decide (kp_node_name p = Some node)); [done|by exfalso]|]. unfold pod_ipv4 in *. pose proof Ha as Ha'.
  apply canonical_ipv4_spec in Ha' as [-> _]. done.
Qed.

Definition views_admitted (v : views) : Prop := forall s, vw_observed v = Some s \/ vw_snapshot v = Some s -> Forall pod_admitted s.1.

Lemma observed_pod_ok node w v pod target : observed_pod node w v = inr (pod, target) -> views_admitted v ->
  pod_admitted pod /\ kp_uid pod = Some (wk_pod_uid w) /\ kp_node_name pod = Some node /\ pod_ipv4 pod = inr (or_empty (kp_ip pod)) /\
  target ∈ kp_containers pod.
Proof.
  intros H Hv. assert (exists s chk listing, Forall pod_admitted s.1 /\ resolve_worker node w s chk listing = inr (pod, target)) as (s & chk & listing & Ha & Hr).
  { unfold observed_pod in H. destruct (vw_observed v) as [s|] eqn:Eo.
    - destruct (resolve_worker node w s true (vw_listing v)) as [[| |]|x] eqn:Er; try done.
      + apply bind_inr in H as (s' & Hs%or_raise_inr & H). exists s', true, (vw_relisting v). split; [apply Hv; by right|done].
      + injection H as ->. exists s, true, (vw_listing v). split; [apply Hv; by left|done].
    - cbn [raise] in H. apply bind_inr in H as (s' & Hs%or_raise_inr & H). exists s', true, (vw_relisting v). split; [apply Hv; by right|done]. }
  unfold resolve_worker in Hr. apply bind_inr in Hr as (p & Hp & Hr). apply bind_inr in Hr as (t & Ht & Hr).
  assert ((p, t) = (pod, target)) as E.
  { destruct (negb chk); [by injection Hr as -> ->|]. repeat (apply bind_inr in Hr as (? & _ & Hr)).
    destruct (filter _ _) as [|d [|? ?]]; [done| |done]. apply bind_inr in Hr as (? & _ & Hr). by injection Hr as -> ->. }
  injection E as -> ->. apply resolved_pod in Hp as (Hin & Hu & Hn & Hi). split_and!; try done; [by eapply Forall_forall in Ha|].
  by eapply resource_target_in.
Qed.

(** ** Records *)

Lemma pack_le_spec k n b : pack_le k n = inr b -> 0 <= n < 2 ^ (8 * Z.of_nat k) /\ b = (fun i => z2b (Z.shiftr n (8 * Z.of_nat i))) <$> seq 0 k.
Proof.
  unfold pack_le. intros (? & H%raise_if_inr%negb_false_iff & E)%bind_inr. injection E as <-. apply andb_true_iff in H as [?%Z.leb_le ?%Z.ltb_lt]. done.
Qed.
Lemma pack_s_id n s : length s = n -> pack_s n s = s.
Proof. intros <-. unfold pack_s. rewrite firstn_all, Nat.sub_diag. apply app_nil_r. Qed.

(** The record a registration states, as the DPU's structure. *)
Definition sealed_identity (cluster node : text) (w : worker) (connection_id incarnation : list byte) (now : Z)
    (namespace name account container ip : text) : dmesh_workload_identity :=
  Identity 1 1 0 0 (dmesh_wire_put_u64_le now) (dmesh_wire_put_u64_le (now + IDENTITY_TTL_SECONDS)) connection_id
    (dmesh_wire_put_u32_le (wk_slot w)) (dmesh_wire_put_u64_le (wk_generation w)) incarnation
    (field_text 64 cluster) (field_text 254 node) (field_text 64 (wk_pod_uid w)) (field_text 64 namespace) (field_text 254 name)
    (field_text 254 account) (field_text 254 container) (field_text 65 (wk_container_id w)) (field_text 64 (wk_service w)) (field_text 16 ip).

(** What the inputs of a registration satisfy. *)
Record registration_inputs (cluster node : text) (w : worker) (connection_id incarnation : list byte) (v : views) : Prop := {
  in_cluster : name_upto 63 cluster;
  in_node : name_upto 253 node;
  in_uid : pod_uid (wk_pod_uid w);
  in_container : container_id (wk_container_id w);
  in_service : wk_service w = [] \/ label63 (wk_service w);
  in_generation : 0 < wk_generation w;
  in_connection : length connection_id = 32%nat /\ nonzero connection_id = true;
  in_incarnation : length incarnation = 16%nat /\ nonzero incarnation = true;
  in_views : views_admitted v }.

Record states_pod (pod : k8s_pod) (target : k8s_container) (namespace name account container ip : text) : Prop := {
  sp_namespace : kp_namespace pod = Some namespace;
  sp_name : kp_name pod = Some name;
  sp_account : account = default (txt "default") (kp_account pod);
  sp_container : kc_name target = Some container;
  sp_ip : kp_ip pod = Some ip }.

Lemma label_name63 s : label63 s -> name_upto 63 s.
Proof.
  intros [H Hl]. split; [|done]. unfold dns_name. rewrite split_on_one; [by constructor|].
  destruct H as (_ & Hd & _). intros Hin. by apply (proj1 (Forall_forall _ _) Hd) in Hin.
Qed.
Lemma label_name253 s : label63 s -> name_upto 253 s.
Proof. intros H. destruct (label_name63 s H) as [? ?]. split; [done|lia]. Qed.

Ltac field_in H :=
  let L := fresh "Hlen" in let X := fresh "Hfree" in let E := fresh "Hempty" in
  apply bind_inr in H as (? & (-> & L & X & E)%fixed_text_spec & H).
(** A field that must not be empty is. *)
Ltac empty_field := match goal with H : _ = [] -> false = true |- _ => discriminate (H eq_refl) end.

Lemma metadata_identity cluster node w connection_id incarnation now v record :
  metadata cluster node w connection_id incarnation now v = inr record -> registration_inputs cluster node w connection_id incarnation v ->
  exists pod target namespace name account container ip, observed_pod node w v = inr (pod, target) /\
    states_pod pod target namespace name account container ip /\ 0 <= now < 2 ^ 64 - IDENTITY_TTL_SECONDS /\ 0 <= wk_slot w < 2 ^ 32 /\ wk_generation w < 2 ^ 64 /\
    let a := sealed_identity cluster node w connection_id incarnation now namespace name account container ip in
    record = identity_image a /\ identity_sized a /\ identity_ok a /\
    cstr (wi_cluster_id a) = cluster /\ cstr (wi_node_name a) = node /\ cstr (wi_pod_uid a) = wk_pod_uid w /\
    cstr (wi_namespace_name a) = namespace /\ cstr (wi_service_account a) = account /\ cstr (wi_pod_ip a) = ip /\ cstr (wi_service_name a) = wk_service w.
Proof.
  intros H Hin. unfold metadata in H. apply bind_inr in H as ([pod target] & Hf & H).
  apply bind_inr in H as (? & (Hnow & ->)%pack_le_spec & H). apply bind_inr in H as (? & (Hexp & ->)%pack_le_spec & H).
  apply bind_inr in H as (? & (Hslot & ->)%pack_le_spec & H). apply bind_inr in H as (? & (Hgen & ->)%pack_le_spec & H).
  field_in H. field_in H. field_in H. apply bind_inr in H as (namespace & Ens%or_raise_inr & H). field_in H.
  apply bind_inr in H as (name & Enm%or_raise_inr & H). field_in H. field_in H. apply bind_inr in H as (container & Ec%or_raise_inr & H).
  field_in H. field_in H. field_in H. apply bind_inr in H as (ip & Hip & H). field_in H. injection H as <-.
  destruct (observed_pod_ok _ _ _ _ _ Hf (in_views _ _ _ _ _ _ Hin)) as (Hadm & _ & _ & Hip' & Ht).
  pose proof Hip as Hip2. unfold pod_ipv4 in Hip2. apply canonical_ipv4_spec in Hip2 as (-> & ipn & Hipn & Eip).
  exists pod, target, namespace, name, (default (txt "default") (kp_account pod)), container, (or_empty (kp_ip pod)).
  split; [done|]. split. { split; try done. destruct (kp_ip pod) as [a|]; [done|]. by empty_field. }
  change (2 ^ (8 * Z.of_nat 8)) with (2 ^ 64) in *. change (2 ^ (8 * Z.of_nat 4)) with (2 ^ 32) in *.
  split; [lia|]. split; [done|]. split; [lia|]. cbv zeta. destruct Hin as [I1 I2 I3 I4 I5 I6 [I7 I7'] [I8 I8'] _].
  split; [|split; [|split]]; [| | |unfold sealed_identity; cbn [wi_cluster_id wi_node_name wi_pod_uid wi_namespace_name wi_service_account wi_pod_ip
      wi_service_name]; by rewrite !(fun n v Hl Hv => proj1 (field_text_spec n v Hl Hv)) by done].
  - unfold identity_image, sealed_identity. rewrite !pack_s_id by done. reflexivity.
  - split; [repeat constructor; done|]. unfold sealed_identity. cbn [wi_issued_at_le wi_expires_at_le wi_nonce wi_channel_slot_le wi_channel_generation_le
      wi_daemon_incarnation wi_cluster_id wi_node_name wi_pod_uid wi_namespace_name wi_pod_name wi_service_account wi_container_name
      wi_container_id wi_service_name wi_pod_ip fmap list_fmap]. rewrite I7, I8. rewrite !(fun n v Hl Hv => proj2 (proj2 (field_text_spec n v Hl Hv))) by done. done.
  - destruct Hadm as [(ns & Ens' & Hns) (nm & Enm' & Hnm) Hcs _ Hacc]. replace ns with namespace in * by congruence. replace nm with name in * by congruence.
    pose proof (proj1 (Forall_forall _ _) Hcs _ Ht) as (cn & Ecn & Hcn). replace cn with container in * by congruence.
    assert (forall P n v, (length v < n)%nat -> x00 ∉ v -> P v -> field_holds P (field_text n v)) as Hfield.
    { intros P n u Hl Hu HP. destruct (field_text_spec n u Hl Hu) as (E & ? & _). split; [done|]. by rewrite E. }
    unfold sealed_identity. split; cbn [wi_type wi_version wi_flags wi_reserved wi_nonce wi_daemon_incarnation wi_channel_generation_le wi_cluster_id
      wi_node_name wi_pod_uid wi_namespace_name wi_pod_name wi_service_account wi_container_name wi_container_id wi_service_name wi_pod_ip];
      try done; try (by split_and!); try (by apply Hfield; [done|done|]); try (apply Hfield; [done|done|]).
    + rewrite (proj1 (wire_round_trip _)) by (split; lia). lia.
    + by apply label_name63.
    + destruct (kp_account pod) as [a|] eqn:Ea; [|split; [apply dns_re; reflexivity|cbn; lia]]. destruct (Hacc a eq_refl) as [->|?]; [|done]. by empty_field.
    + by apply label_name253.
    + destruct I5 as [->|?]; [by left|right; by apply label_name63].
    + by exists ipn.
Qed.

(** ** Registration on the DPU *)

Section sealing.
Context (C : crypto) (mac : list byte -> list byte -> list byte).
Context (mac_hmac : forall k x, hmac_sha256 C k x = Some (mac k x) /\ length (mac k x) = 32%nat).

Definition sealed_message (session : list byte) (a : dmesh_workload_identity) : dmesh_registration_assertion_msg :=
  Assertion 16 6 [x00; x00] a (mac (mac session SEAL_LABEL) (assertion_image (Assertion 16 6 [x00; x00] a []))).

Lemma seal_message session a bytes : seal mac session (identity_image a) = inr bytes ->
  bytes = assertion_image (sealed_message session a) ++ am_mac (sealed_message session a) /\
  dmesh_registration_verify C session (sealed_message session a) = true.
Proof.
  unfold seal. intros (? & _ & H)%bind_inr. injection H as <-. split; [done|].
  apply verify_spec. unfold registration_mac, hmac_sized.
  destruct (mac_hmac session DMESH_REG_KEY_LABEL) as [-> L1]. cbn [mbind option_bind]. rewrite L1.
  change ((32 =? DMESH_REG_MAC_SIZE)%nat) with true. cbn [mbind option_bind].
  destruct (mac_hmac (mac session DMESH_REG_KEY_LABEL) (assertion_image (sealed_message session a))) as [-> L2].
  cbn [mbind option_bind]. rewrite L2. done.
Qed.

(** The channel [slot] of this daemon incarnation is still open to [generation], or
    another incarnation can be taken over. *)
Definition channel_current (i : nat) (slot generation : Z) (incarnation : list byte) (o : objects) : Prop :=
  0 <= slot < Z.of_nat MAX_PODS /\
  (ob_incarnation o = incarnation /\ default 0 (ob_generations o !! Z.to_nat slot) < generation \/
   ob_incarnation o <> incarnation /\ other_verified i o = false).

Lemma channel_accepts i c o : channel_current i (cl_channel_slot c) (cl_channel_generation c) (cl_daemon_incarnation c) o ->
  nonzero (cl_daemon_incarnation c) = true -> 0 < cl_channel_generation c -> (registration_lifecycle_accept i c o).1 = IDENTITY_OK.
Proof.
  intros [Hs Hc] Hz Hg. unfold registration_lifecycle_accept. rewrite (proj2 (Z.leb_gt _ _)) by lia. unfold bytes_eq. apply not_zero in Hz.
  destruct Hc as [[E Hlt]|[Hne Ho]].
  - rewrite E, Hz, bool_decide_eq_true_2 by done. cbn [negb orb andb]. by rewrite (proj2 (Z.leb_gt _ _)) by done.
  - rewrite bool_decide_eq_false_2, orb_true_r, Ho by done. cbn [negb andb ob_generations set].
    rewrite (proj2 (Z.leb_gt _ _)); [done|]. destruct (repeat 0 MAX_PODS !! _) as [x|] eqn:E; [|done].
    apply list_elem_of_lookup_2, list_elem_of_In, repeat_spec in E as ->. done.
Qed.

(** An accepted identity binds the slot to the fields of the record. *)
Lemma accept_sealed session a cluster node o conn i p t :
  dmesh_registration_verify C session (sealed_message session a) = true ->
  find_pod_by_connection o conn = Some i -> ob_pods o !! i = Some p -> awaiting_assertion p = true -> ob_shutting_down o = false ->
  registration_session o = Some session -> ob_cluster o = Some cluster -> ob_node o = Some node ->
  0 <= t < 2 ^ 64 - DMESH_ASSERT_CLOCK_SKEW_SEC -> identity_accepted a cluster node (ps_nonce p) t ->
  (registration_lifecycle_accept i (claims_of a) o).1 = IDENTITY_OK ->
  exists o', registration_accept_assertion C conn (sealed_message session a) t o = (true, o') /\
    ob_pods o' !! i = Some (registration_bind (claims_of a) p).
Proof.
  intros Hv Hf Hp Ha Hs Hse Hc Hn Ht Hacc Hl. unfold registration_accept_assertion.
  change (framed_assertion (sealed_message session a)) with true. cbn [negb]. rewrite Hf, Hp, Hs, Ha, Hse, Hv, Hc, Hn. cbn [orb negb].
  change (am_identity (sealed_message session a)) with a.
  rewrite (proj2 (decode_exact a cluster node (ps_nonce p) t (claims_of a) Ht)) by done.
  destruct (registration_lifecycle_accept i (claims_of a) o) as [r o1] eqn:El. cbn [fst] in Hl. subst r.
  assert (ob_pods o1 = ob_pods o) as Eo.
  { unfold registration_lifecycle_accept in El. cbv zeta in El. destruct (_ <=? _); [done|]. destruct (_ && _); [done|].
    destruct (_ || _); (destruct (_ <=? _); [done|]); by injection El as <-. }
  eexists. split; [done|]. unfold update_pod. cbn [ob_pods set]. by rewrite list_lookup_alter_eq, Eo, Hp.
Qed.
End sealing.


(** ** A registration *)

Definition proc_stat : text := txt "42 (app) S 1 42 42 0 -1 4194560 0 0 0 0 0 0 0 0 20 0 1 0 777 0".
Definition proc_cgroup : text :=
  txt "0::/kubepods.slice/kubepods-pod12345678_1234_1234_1234_123456789ABC.slice/cri-containerd-" ++ repeat "a"%byte 64 ++ txt ".scope" ++ [NL].
Definition app_hello : list byte := txt "DMESHBR1" ++ [x01; x03; x00; x00] ++ field_text 64 (txt "web").
Definition app_pod : k8s_pod :=
  PyText.Pod (Some demo_uid) (Some (txt "shop")) (Some (txt "web-0")) [(txt "app", txt "web")] None (Some (txt "node-a")) None (Some false) []
    [Container (Some (txt "app")) [(CHANNEL, QStr (txt "1"))] [(CHANNEL, QInt 1)]; Container (Some (txt "log")) [] []]
    (Some (txt "10.244.1.17")) [ContainerStatus (Some (txt "app")) true (Some (txt "containerd://" ++ repeat "a"%byte 64))].
Definition app_service : k8s_service := Service (Some (txt "shop")) (Some (txt "web")) [(txt "app", txt "web")] (Some (txt "10.100.0.1")) [Some 80].
Definition app_views : views :=
  Views None (Some ([app_pod], [app_service])) None (Some [Allocation (txt "web-0") (txt "shop") (txt "app") CHANNEL [txt "channel-001"]]).
Definition app_evidence : process_evidence := ProcessEvidence demo_uid (repeat "a"%byte 64).
Definition app_worker : worker := Worker 1 3 demo_uid (repeat "a"%byte 64) (txt "web").
Definition demo_mac (key x : list byte) : list byte := take 32 (reverse x ++ key ++ repeat x00 32).
Definition app_record : list byte := match metadata (txt "prod") (txt "node-a") app_worker (demo_nonce 1) (repeat x02 16) 1000 app_views with inr r => r | inl _ => [] end.
Definition app_sealed : list byte := match seal demo_mac demo_session app_record with inr b => b | inl _ => [] end.
(** The DPU has an open control session and has challenged connection 1. *)
Definition waiting_objects : objects := (run_of (fun _ => true) [Control demo_connect; Connect 1 1 (Some (demo_nonce 1)) true]).1.
Definition waiting_slot : pod_state := default unused_pod (ob_pods waiting_objects !! 0%nat).

Lemma demo_mac_hmac k x : hmac_sha256 toy_crypto k x = Some (demo_mac k x) /\ length (demo_mac k x) = 32%nat.
Proof. split; [done|]. unfold demo_mac. rewrite length_take, !length_app, repeat_length. lia. Qed.

Lemma app_views_admitted : views_admitted app_views.
Proof.
  assert (label63 (txt "shop") /\ label63 (txt "app") /\ label63 (txt "log")) as (H1 & H2 & H3) by (split_and!; apply service_name_re; reflexivity).
  intros s [H|H]; [done|]. injection H as <-. constructor; [|constructor]. split; cbn [app_pod kp_namespace kp_name kp_containers kp_node_name kp_account].
  - eauto.
  - eexists. split; [reflexivity|]. apply span_dns_subdomain_spec. reflexivity.
  - repeat constructor; eauto.
  - intros n [= <-]. right. apply span_dns_subdomain_spec. reflexivity.
  - done.
Qed.

Lemma app_packed : metadata (txt "prod") (txt "node-a") app_worker (demo_nonce 1) (repeat x02 16) 1000 app_views = inr app_record.
Proof. vm_compute. reflexivity. Qed.
Lemma app_seals : seal demo_mac demo_session app_record = inr app_sealed.
Proof. vm_compute. reflexivity. Qed.

Lemma waiting_state : find_pod_by_connection waiting_objects 1 = Some 0%nat /\ ob_pods waiting_objects !! 0%nat = Some waiting_slot /\
  ps_nonce waiting_slot = demo_nonce 1 /\ awaiting_assertion waiting_slot = true /\ ob_shutting_down waiting_objects = false /\
  registration_session waiting_objects = Some demo_session /\ ob_cluster waiting_objects = Some (txt "prod") /\ ob_node waiting_objects = Some (txt "node-a").
Proof. split_and!; vm_compute; reflexivity. Qed.

Lemma waiting_channel : channel_current 0 1 3 (repeat x02 16) waiting_objects.
Proof. split; [split; [lia|apply Z.ltb_lt; reflexivity]|]. right. split; [|vm_compute; reflexivity]. vm_compute. intros E. discriminate E. Qed.


(** ** Which Pods may register *)

(** [x] is the only element of [l] with [P]. *)
Definition only {A} (P : A -> Prop) (l : list A) (x : A) : Prop :=
  exists l1 l2, l = l1 ++ x :: l2 /\ P x /\ Forall (fun y => ~ P y) (l1 ++ l2).

Lemma filter_none {A} (P : A -> Prop) `{!forall x, Decision (P x)} l : filter P l = [] <-> Forall (fun y => ~ P y) l.
Proof.
  induction l as [|x l IH]; [done|]. rewrite Forall_cons. destruct (decide (P x)).
  - rewrite filter_cons_True by done. split; [done|]. by intros [? _].
  - rewrite filter_cons_False, IH by done. tauto.
Qed.

Lemma filter_only {A} (P : A -> Prop) `{!forall x, Decision (P x)} l x : filter P l = [x] <-> only P l x.
Proof.
  split.
  - induction l as [|y l IH]; [done|]. destruct (decide (P y)).
    + rewrite filter_cons_True by done. intros [= <- Hn%filter_none]. by exists [], l.
    + rewrite filter_cons_False by done. intros (l1 & l2 & -> & Hx & Hf)%IH. exists (y :: l1), l2. split; [done|]. split; [done|]. by constructor.
  - intros (l1 & l2 & -> & Hx & [H1 H2]%Forall_app). rewrite filter_app, filter_cons_True by done.
    by rewrite (proj2 (filter_none P l1) H1), (proj2 (filter_none P l2) H2).
Qed.

Lemma omap_only {A B} (f : A -> option B) l y : omap f l = [y] <-> exists x, only (fun x => is_Some (f x)) l x /\ f x = Some y.
Proof.
  assert (forall l, omap f l = [] <-> Forall (fun x => ~ is_Some (f x)) l) as Hn.
  { intros m. induction m as [|x m IH]; [done|]. cbn [omap list_omap]. rewrite Forall_cons, <-IH. destruct (f x); [|naive_solver eauto using is_Some_None].
    split; [done|]. intros [H _]. by destruct H. }
  split.
  - induction l as [|x l IH]; [done|]. cbn [omap list_omap]. destruct (f x) as [z|] eqn:E.
    + intros [= -> H%Hn]. exists x. split; [|done]. exists [], l. by rewrite E.
    + intros (x' & (l1 & l2 & -> & Hx & Hf) & Ey)%IH. exists x'. split; [|done]. exists (x :: l1), l2. split; [done|]. split; [done|].
      constructor; [rewrite E; by intros [? ?]|done].
  - intros (x & (l1 & l2 & -> & Hx & [H1 H2]%Forall_app) & E). rewrite omap_app. cbn [omap list_omap].
    by rewrite (proj2 (Hn l1) H1), (proj2 (Hn l2) H2), E.
Qed.

(** ** The conditions *)

(** The container asks for one unit, or the resource does not occur in it. *)
Definition asks (resource : text) (c : k8s_container) : Prop :=
  one (dict_get (kc_requests c) resource) = true /\ one (dict_get (kc_limits c) resource) = true.
Definition silent (resource : text) (c : k8s_container) : Prop := dict_get (kc_requests c) resource = None /\ dict_get (kc_limits c) resource = None.

(** A running container with that name and its id. *)
Definition runs (name id : text) (s : k8s_status) : Prop :=
  ks_name s = Some name /\ ks_running s = true /\ id <> [] /\ exists rest, partition_at (txt "://") (or_empty (ks_container_id s)) = Some (rest, id).

Definition serves (service : text) (pod : k8s_pod) (services : list k8s_service) : Prop :=
  label63 service /\ exists s, only (fun s => sv_namespace s = kp_namespace pod /\ sv_name s = Some service) services s /\
    sv_selector s <> [] /\ (forall k v, (k, v) ∈ sv_selector s -> dict_get (kp_labels pod) k = Some v) /\
    (exists ip, in_width 32 ip /\ or_empty (sv_cluster_ip s) = show_ipv4 ip) /\ exists port, head (sv_ports s) = Some (Some port) /\ 0 < port < 65536.

Record eligible (uid node container service : text) (pods : list k8s_pod) (services : list k8s_service) (resource : text) (pod : k8s_pod) : Prop := {
  el_pod : only (fun p => kp_uid p = Some uid) pods pod;
  el_alive : or_empty (kp_deletion pod) = [];
  el_node : kp_node_name pod = Some node;
  el_token : kp_automount pod = Some false /\ Forall (Forall (fun token => token = false)) (kp_token_volumes pod);
  el_containers : Forall (fun c => asks resource c \/ silent resource c) (kp_containers pod);
  el_target : exists target, only (asks resource) (kp_containers pod) target /\
    exists status, only (fun s => exists id, runs (or_empty (kc_name target)) id s) (kp_statuses pod) status /\
      runs (or_empty (kc_name target)) container status;
  el_service : service = [] \/ serves service pod services;
  el_ip : exists ip, in_width 32 ip /\ or_empty (kp_ip pod) = show_ipv4 ip }.

(** ** They are what is checked *)

Lemma only_ext {A} (P Q : A -> Prop) l x : (forall y, P y <-> Q y) -> only P l x -> only Q l x.
Proof. intros H (l1 & l2 & -> & Hx & Hf). exists l1, l2. split; [done|]. split; [by apply H|]. eapply Forall_impl; [exact Hf|]. intros y Hy HQ. by apply Hy, H. Qed.

Lemma status_id_runs name s id : status_id name s = Some id <-> runs name id s.
Proof.
  unfold status_id, runs. destruct (decide (ks_name s = Some name)) as [E|E]; [|rewrite bool_decide_eq_true_2 by done; cbn [orb]; split; [done|by intros [? _]]].
  rewrite bool_decide_eq_false_2 by tauto. destruct (ks_running s); cbn [negb orb]; [|split; [done|by intros (_ & ? & _)]].
  destruct (partition_at _ _) as [[rest i]|]; cbn [mbind option_bind]; [|split; [done|by intros (_ & _ & _ & ? & ?)]].
  case_bool_decide as Ei; split; [done| |intros [= <-]; eauto 6|].
  - intros (_ & _ & Hi & ? & [= -> ->]). done.
  - by intros (_ & _ & _ & ? & [= -> ->]).
Qed.

Lemma running_exact pod name id : running_container_id pod name = inr id <->
  exists status, only (fun s => exists id, runs name id s) (kp_statuses pod) status /\ runs name id status.
Proof.
  unfold running_container_id. assert (forall y, is_Some (status_id name y) <-> exists id, runs name id y) as Hs.
  { intros y. unfold is_Some. by setoid_rewrite status_id_runs. }
  split.
  - destruct (omap _ _) as [|i [|? ?]] eqn:E; try done. intros [= <-]. apply omap_only in E as (s & Ho & Ei). exists s.
    split; [by eapply only_ext; [|exact Ho]|by apply status_id_runs].
  - intros (s & Ho & Hr%status_id_runs). assert (omap (status_id name) (kp_statuses pod) = [id]) as ->; [|done].
    apply omap_only. exists s. split; [|done]. eapply only_ext; [|exact Ho]. intros y. by rewrite Hs.
Qed.

Lemma targets_exact resource cs targets : resource_targets resource cs = inr targets <->
  Forall (fun c => asks resource c \/ silent resource c) cs /\ filter (asks resource) cs = targets.
Proof.
  revert targets. induction cs as [|c cs IH]; intros targets; cbn [resource_targets].
  - split; [intros [= <-]|intros [_ <-]]; done.
  - assert (one (dict_get (kc_requests c) resource) && one (dict_get (kc_limits c) resource) = true <-> asks resource c) as Ha by (by rewrite andb_true_iff).
    rewrite Forall_cons. destruct (one _ && one _).
    + assert (asks resource c) by by apply Ha. rewrite filter_cons_True by done. rewrite bind_inr. setoid_rewrite IH. split.
      * intros (ts & [? <-] & [= <-]). split; [|done]. split; [by left|done].
      * intros [[_ ?] <-]. eauto.
    + assert (~ asks resource c) by (by rewrite <-Ha). rewrite filter_cons_False by done.
      destruct (bool_decide_reflect (is_Some (dict_get (kc_requests c) resource))) as [Hr|Hr]; cbn [orb];
        [split; [done|]; intros [[[?|[E _]] _] _]; [done|]; rewrite E in Hr; by destruct Hr|].
      destruct (bool_decide_reflect (is_Some (dict_get (kc_limits c) resource))) as [Hl|Hl];
        [split; [done|]; intros [[[?|[_ E]] _] _]; [done|]; rewrite E in Hl; by destruct Hl|].
      rewrite IH. assert (silent resource c) by (split; by apply eq_None_not_Some). naive_solver.
Qed.

Lemma token_exact pod : service_account_token_disabled pod = true <->
  kp_automount pod = Some false /\ Forall (Forall (fun token => token = false)) (kp_token_volumes pod).
Proof.
  unfold service_account_token_disabled. rewrite andb_true_iff, bool_decide_eq_true, negb_true_iff. f_equiv.
  induction (kp_token_volumes pod) as [|v vs IH]; [done|]. cbn [existsb]. rewrite orb_false_iff, Forall_cons, IH. f_equiv.
  clear IH. induction v as [|t v IH]; [done|]. cbn [existsb]. rewrite orb_false_iff, Forall_cons, IH. done.
Qed.

Lemma selects_exact selector labels : selects selector labels = true <->
  selector <> [] /\ forall k v, (k, v) ∈ selector -> dict_get labels k = Some v.
Proof.
  unfold selects. rewrite andb_true_iff, bool_decide_eq_true, forallb_spec, Forall_forall. f_equiv. split.
  - intros H k v Hkv. apply H, bool_decide_eq_true in Hkv. done.
  - intros H [k v] Hkv. apply bool_decide_eq_true. by apply H.
Qed.

Lemma service_exact service pod services : authorize_service service pod services = inr tt <-> service = [] \/ serves service pod services.
Proof.
  unfold authorize_service, serves. destruct (decide (service = [])) as [->|Hne]; [rewrite bool_decide_eq_true_2 by done; tauto|].
  rewrite bool_decide_eq_false_2, <-service_name_re by done. split.
  - intros (? & Hn%raise_if_inr%negb_false_iff & H)%bind_inr. right. split; [done|].
    destruct (filter _ services) as [|s [|? ?]] eqn:Ef; try done. apply filter_only in Ef. exists s. split; [done|].
    apply bind_inr in H as (? & Hs%raise_if_inr%negb_false_iff & H). apply selects_exact in Hs as [Hs1 Hs2]. split; [done|]. split; [done|].
    apply bind_inr in H as (packed & Hp%or_raise_inr & H). destruct (sv_ports s) as [|[port|] ports]; try done.
    apply raise_if_inr, orb_false_iff in H as [Hi%bool_decide_eq_false Hport%negb_false_iff]. split; [|exists port; split; [done|]; lia].
    assert (canonical_ipv4 (or_empty (sv_cluster_ip s)) = inr (or_empty (sv_cluster_ip s))) as Hc
      by (unfold canonical_ipv4; rewrite Hp; cbn [or_raise mbind result_bind]; by rewrite bool_decide_eq_false_2 by done).
    by apply canonical_ipv4_spec in Hc as [_ ?].
  - intros [?|(Hn & s & Ho & Hs1 & Hs2 & Hip & port & Hport & Hr)]; [done|]. rewrite Hn. cbn [negb raise_if mbind result_bind].
    rewrite (proj2 (filter_only _ services s)) by done. rewrite (proj2 (selects_exact _ _)) by done. cbn [negb raise_if mbind result_bind].
    assert (canonical_ipv4 (or_empty (sv_cluster_ip s)) = inr (or_empty (sv_cluster_ip s))) as Hc by (by apply canonical_ipv4_spec).
    unfold canonical_ipv4 in Hc. apply bind_inr in Hc as (packed & Hp & Hc). rewrite Hp. cbn [mbind result_bind].
    apply bind_inr in Hc as (? & He%raise_if_inr & _). destruct (sv_ports s) as [|q ports]; [done|]. injection Hport as ->. rewrite He. cbn [orb].
    apply raise_if_inr, negb_false_iff, andb_true_iff. split; lia.
Qed.

(** C16: exactly the eligible Pods may register.  A Pod is found for a container exactly
    if one listed Pod has the UID, it is not being deleted, it is assigned to this
    node, no service account token is mounted into it, one of its containers asks
    for exactly one channel and no other mentions the resource, exactly one running
    container has that container's name and it is the container the kernel named,
    the Service asked for, if any, is the one Service of that name in the Pod's
    namespace, selects the Pod and can be dialled, and the Pod's address is
    canonical. *)
Theorem eligible_exact uid node container service pods services resource pod :
  resolve_authorized_pod uid node container service pods services resource = inr pod <->
  eligible uid node container service pods services resource pod.
Proof.
  unfold resolve_authorized_pod. split.
  - destruct (filter _ pods) as [|p [|? ?]] eqn:Ef; try done. apply filter_only in Ef. intros H.
    apply bind_inr in H as (? & Hd%raise_if_inr%bool_decide_eq_false & H). apply bind_inr in H as (? & Hn%raise_if_inr%bool_decide_eq_false & H).
    apply bind_inr in H as (? & Ht%raise_if_inr%negb_false_iff%token_exact & H). apply bind_inr in H as (target & Hr & H).
    apply bind_inr in H as (id & Hi & H). apply bind_inr in H as (? & He%raise_if_inr%bool_decide_eq_false & H).
    apply bind_inr in H as ([] & Hs%service_exact & H). apply bind_inr in H as (a & Ha & H). injection H as <-.
    apply bind_inr in Hr as (targets & (Hc & Hf)%targets_exact & Hr). destruct targets as [|t [|? ?]]; try done. injection Hr as ->.
    apply filter_only in Hf. apply running_exact in Hi as (st & Ho & Hrun). apply canonical_ipv4_spec in Ha as [_ Ha].
    assert (id = container) as <- by (destruct (decide (id = container)); [done|by exfalso]).
    split; try done; [destruct (decide (or_empty (kp_deletion p) = [])); [done|by exfalso]
      |destruct (decide (kp_node_name p = Some node)); [done|by exfalso]|eauto].
  - intros [Ho Hd Hn Ht Hc (target & Htg & st & Hst & Hrun) Hs Hip]. rewrite (proj2 (filter_only _ pods pod)) by done.
    rewrite Hd, Hn, !bool_decide_eq_false_2 by tauto. rewrite (proj2 (token_exact pod) Ht). cbn [negb raise_if mbind result_bind].
    assert (resource_target pod resource = inr target) as -> by (apply bind_inr; exists [target]; split; [apply targets_exact; split; [done|by apply filter_only]|done]).
    cbn [mbind result_bind]. assert (running_container_id pod (or_empty (kc_name target)) = inr container) as -> by (apply running_exact; eauto).
    cbn [mbind result_bind]. rewrite bool_decide_eq_false_2 by tauto. cbn [raise_if mbind result_bind].
    rewrite (proj2 (service_exact service pod services) Hs). cbn [mbind result_bind].
    assert (pod_ipv4 pod = inr (or_empty (kp_ip pod))) as -> by by apply canonical_ipv4_spec. done.
Qed.
