(* ===== verification/LocalClient.v ===== *)
(** * The host's end of the control session ([node/local_registration.py])

    [LocalControl]: one TLS stream to the DPU, a session id from its greeting, and
    requests that are numbered and answered one at a time.  What the stream
    delivers is an input.  With the DPU's end of [LocalControl.v] on the other side
    of the stream, every answer the host gets is the one given to its request. *)

From S2P Require Import Prelude Text PeerIdentity WorkloadIdentity WorkloadProofs LocalControl LocalControlProofs PyText NodeIdentity NodeIdentityProofs.

Record local_client := LocalClient { lk_stream : bool; lk_session : list byte; lk_sequence : Z }.
#[export] Instance eta_local_client : Eta local_client := fun k => LocalClient (lk_stream k) (lk_session k) (lk_sequence k).
Definition no_client : local_client := LocalClient false [] 0.

(** [RESPONSE.unpack] of [struct "<8s16sQI"] *)
Record response := Response { rp_magic : list byte; rp_session : list byte; rp_sequence : Z; rp_status : Z }.
Definition unpack_response (b : list byte) : response :=
  Response (take 8 b) (take 16 (drop 8 b)) (decode (take 8 (drop 24 b))) (decode (take 4 (drop 32 b))).

(** [receive]: all the bytes, or the connection has failed. *)
Definition receive (delivered : option (list byte)) : result response :=
  b ← or_raise delivered OSError;
  raise_if (negb (length b =? 36)%nat) OSError;;
  mret (unpack_response b).

Definition local_connect (delivered : option (list byte)) (k : local_client) : result unit * local_client :=
  if lk_stream k then (mret tt, k)
  else
    match receive delivered with
    | inl e => (inl e, k)
    | inr r =>
        if bool_decide (rp_magic r <> DMESH_LOCAL_MAGIC) || negb (rp_sequence r =? 0) || negb (rp_status r =? 0) || negb (nonzero (rp_session r))
        then (inl OSError, k) else (mret tt, LocalClient true (rp_session r) 0)
    end.

(** [REQUEST.pack] of [struct "<B7xQ16s32s"] *)
Definition pack_request (operation sequence : Z) (session connection_id : list byte) : result (list byte) :=
  op ← pack_le 1 operation;
  seq ← pack_le 8 sequence;
  mret (op ++ repeat x00 7 ++ seq ++ pack_s 16 session ++ pack_s 32 connection_id).

(** The status, the bytes sent, and the client. *)
Definition request (operation : Z) (connection_id : list byte) (expected_session : option (list byte)) (delivered : option (list byte))
    (k : local_client) : result Z * list byte * local_client :=
  if negb (lk_stream k) || bool_decide (expected_session <> None /\ expected_session <> Some (lk_session k)) then (inl OSError, [], k)
  else
    let k := k <| lk_sequence ::= Z.succ |> in
    let broken := k <| lk_stream := false |> in
    match pack_request operation (lk_sequence k) (lk_session k) connection_id with
    | inl e => (inl e, [], broken)
    | inr sent =>
        match receive delivered with
        | inl e => (inl e, sent, broken)
        | inr r =>
            if bool_decide (rp_magic r <> DMESH_LOCAL_MAGIC) || bool_decide (rp_session r <> lk_session k) || negb (rp_sequence r =? lk_sequence k)
            then (inl OSError, sent, broken) else (mret (rp_status r), sent, k)
        end
    end.

(** [LocalControl.seal] *)
Definition seal_record (mac : list byte -> list byte -> list byte) (record : list byte) (k : local_client) : result (list byte * list byte) :=
  raise_if (negb (lk_stream k)) OSError;;
  assertion ← seal mac (lk_session k) record;
  mret (assertion, lk_session k).

Definition close (k : local_client) : local_client := k <| lk_stream := false |>.

(** Requests in sequence, each with the bytes its response is read from: the requests
    as sent, with the status returned for each. *)
Record call := Call { ca_operation : Z; ca_connection : list byte; ca_expected : option (list byte); ca_delivered : list byte }.
Fixpoint calls (xs : list call) (k : local_client) : option (local_client * list (list byte * Z)) :=
  match xs with
  | [] => Some (k, [])
  | x :: xs' =>
      match request (ca_operation x) (ca_connection x) (ca_expected x) (Some (ca_delivered x)) k with
      | (inr status, sent, k') => '(k'', log) ← calls xs' k'; Some (k'', (sent, status) :: log)
      | (inl _, _, _) => None
      end
  end.

(** ** Frames of one size *)

Lemma chunks_prefix (n : nat) (xs ys : list (list byte)) : (0 < n)%nat -> Forall (fun x => length x = n) xs -> Forall (fun y => length y = n) ys ->
  concat xs `prefix_of` concat ys -> xs `prefix_of` ys.
Proof.
  intros Hn Hx. revert ys. induction Hx as [|x xs Lx _ IH]; intros ys Hy [t E]; [by exists ys|].
  destruct Hy as [|y ys Ly Hy]; cbn [concat app] in E.
  - symmetry in E. apply (f_equal length) in E. rewrite !length_app in E. cbn in E. lia.
  - rewrite <-app_assoc in E. apply app_inj_1 in E as [-> E]; [|congruence].
    destruct (IH ys Hy) as [zs ->]; [by exists t|]. by exists zs.
Qed.

(** ** The client's numbers *)

Lemma decode_u64 p : length p = 8%nat -> decode p = dmesh_wire_get_u64_le p.
Proof. intros H. unfold decode, dmesh_wire_get_u64_le. by rewrite take_ge by lia. Qed.
Lemma decode_put n : in_width 64 n -> decode (dmesh_wire_put_u64_le n) = n.
Proof. intros H. rewrite decode_u64 by done. by apply (proj1 (wire_round_trip n)). Qed.

Lemma pack_request_spec op n session conn b : pack_request op n session conn = inr b -> length session = 16%nat ->
  0 <= n < 2 ^ 64 /\ length b = REQUEST_SIZE /\ request_seq b = n /\ req_session b = session.
Proof.
  unfold pack_request. intros H Hs. apply bind_inr in H as (o & (Hop & Eo)%pack_le_spec & H). apply bind_inr in H as (sq & (Hseq & Esq)%pack_le_spec & H).
  injection H as <-. rewrite (pack_s_id 16 session Hs). change (2 ^ (8 * Z.of_nat 8)) with (2 ^ 64) in Hseq. split; [done|].
  assert (length sq = 8%nat) as L by (by subst sq). assert (length o = 1%nat) as Lo by (by subst o).
  assert (length (pack_s 32 conn) = 32%nat) as Lc by (unfold pack_s; rewrite length_app, length_take, repeat_length; lia).
  destruct o as [|o [|? ?]]; try done. split; [|split].
  - cbn [app length]. rewrite !length_app, L, Hs, Lc. reflexivity.
  - unfold request_seq, req_sequence. change (drop 8 _) with (sq ++ session ++ pack_s 32 conn).
    rewrite take_app_ge, L, Nat.sub_diag, take_0, app_nil_r by lia. rewrite Esq. apply decode_put. unfold in_width. lia.
  - unfold req_session. do 8 (destruct sq as [|? sq]; [done|]). destruct sq; [|done]. change (drop 16 _) with (session ++ pack_s 32 conn). rewrite take_app_ge, Hs, Nat.sub_diag, take_0, app_nil_r by lia. done.
Qed.

(** What a call has sent and read. *)
Definition answered_call (session : list byte) (n : Z) (x : call) (y : list byte * Z) : Prop :=
  length y.1 = REQUEST_SIZE /\ request_seq y.1 = n /\ length (ca_delivered x) = RESPONSE_SIZE /\ rp_status (unpack_response (ca_delivered x)) = y.2.

Lemma calls_spec xs k k' log : calls xs k = Some (k', log) -> length (lk_session k) = 16%nat ->
  lk_session k' = lk_session k /\ length log = length xs /\
  forall i x y, xs !! i = Some x -> log !! i = Some y -> answered_call (lk_session k) (lk_sequence k + 1 + Z.of_nat i) x y.
Proof.
  revert k log. induction xs as [|x xs IH]; intros k log H Hs; cbn [calls] in H; [by injection H as <- <-|].
  destruct (request _ _ _ _ _) as [[[e|status] sent] k1] eqn:Er; [done|]. apply bind_Some in H as ([k2 log'] & Hc & [= <- <-]).
  assert (lk_session k1 = lk_session k /\ lk_sequence k1 = lk_sequence k + 1 /\ answered_call (lk_session k) (lk_sequence k + 1) x (sent, status)) as (E1 & E2 & Ha).
  { unfold request in Er. destruct (_ || _); [done|]. destruct (pack_request _ _ _ _) as [|b] eqn:Ep; [done|].
    destruct (receive _) as [|r] eqn:Erc; [done|]. destruct (_ || _ || _); [done|]. injection Er as <- <- <-. split; [done|]. split; [done|].
    apply bind_inr in Erc as (d & Hd%or_raise_inr & Erc). injection Hd as <-. apply bind_inr in Erc as (? & Hl%raise_if_inr%negb_false_iff%Nat.eqb_eq & Erc).
    injection Erc as <-. apply pack_request_spec in Ep as (_ & L & Eq & _); [|done]. by split_and!. }
  destruct (IH k1 log' Hc) as (F1 & F2 & F3); [by rewrite E1|]. split; [congruence|]. split; [by cbn; rewrite F2|].
  intros [|i] x' y Hx Hy; [injection Hx as <-; injection Hy as <-; by rewrite Z.add_0_r|]. specialize (F3 i x' y Hx Hy). rewrite E1, E2 in F3.
  replace (lk_sequence k + 1 + Z.of_nat (S i)) with (lk_sequence k + 1 + 1 + Z.of_nat i) by lia. done.
Qed.

(** ** The server's log *)

Definition logged_response (session : list byte) (x : list byte * Z) : list byte := response_bytes session (request_seq x.1) x.2.

(** When no number occurs twice, every request is new. *)
Lemma served_new_only s reqs log resps all : served s reqs log resps -> reqs `prefix_of` all ->
  (forall i j q q', all !! i = Some q -> all !! j = Some q' -> request_seq q = request_seq q' -> i = j) ->
  log.*1 = reqs /\ resps = response_bytes s 0 DMESH_LOCAL_OK :: (logged_response s <$> log).
Proof.
  intros H Hp Hd. induction H as [|reqs log resps r status H IH Ha Hl Hping|reqs log resps r status H IH Ha Hl]; [done| |].
  - destruct IH as [E1 E2]; [etransitivity; [|exact Hp]; by exists [r]|]. rewrite fmap_app, E1, E2. cbn [fmap list_fmap]. split; [done|].
    rewrite fmap_app. done.
  - exfalso. destruct IH as [E1 E2]; [etransitivity; [|exact Hp]; by exists [r]|]. destruct Hp as [rest ->].
    rewrite last_lookup in Hl. assert (reqs !! pred (length log) = Some r) as H1 by (rewrite <-E1, list_lookup_fmap, Hl; done).
    assert (pred (length log) = length reqs) as E; [|apply lookup_lt_Some in H1; lia].
    apply (Hd _ _ r r); [|rewrite <-app_assoc; by apply list_lookup_middle|done]. rewrite <-app_assoc. by apply lookup_app_l_Some.
Qed.

Lemma unpack_response_bytes s n status : length s = 16%nat -> in_width 64 n -> in_width 32 status ->
  unpack_response (response_bytes s n status) = Response DMESH_LOCAL_MAGIC s n status.
Proof.
  intros Hs Hn Hst. unfold unpack_response, response_bytes. assert (length (encode n 8) = 8%nat) as L1 by apply encode_length.
  assert (length (encode status 4) = 4%nat) as L2 by apply encode_length. f_equal.
  - change (drop 8 _) with (s ++ encode n 8 ++ encode status 4). rewrite take_app_ge, Hs, Nat.sub_diag, take_0, app_nil_r by lia. done.
  - change (drop 24 _) with (drop 16 (s ++ encode n 8 ++ encode status 4)). rewrite drop_app_ge, Hs, Nat.sub_diag, drop_0 by lia.
    rewrite take_app_ge, L1, Nat.sub_diag, take_0, app_nil_r by lia. by apply decode_put.
  - change (drop 32 _) with (drop 24 (s ++ encode n 8 ++ encode status 4)). rewrite drop_app_ge, Hs by lia. change (24 - 16)%nat with 8%nat.
    rewrite drop_app_ge, L1, Nat.sub_diag, drop_0, take_ge by lia.
    change (encode status 4) with (dmesh_wire_put_u32_le status). unfold decode.
    rewrite get_le_num by (rewrite ?(encode_length status 4 : length (dmesh_wire_put_u32_le status) = 4%nat); cbn; lia).
    rewrite <-get_u32_num by apply (encode_length status 4). rewrite (proj2 (wire_round_trip status)) by done. lia.
Qed.

Lemma served_sizes s reqs log resps : length s = 16%nat -> served s reqs log resps -> Forall (fun r => length r = RESPONSE_SIZE) resps.
Proof.
  intros Hs H. assert (forall n st, length (response_bytes s n st) = RESPONSE_SIZE) as Hl by (intros; by apply response_length).
  induction H; [by constructor|apply Forall_app; split; [done|by constructor]..].
Qed.

Lemma session_length {O} (owner : local_owner O) host_uri c events s :
  local_run owner host_uri c events -> dmesh_local_control_session (Some c) = Some s -> length s = 16%nat.
Proof.
  intros H%run_inv Hs. unfold dmesh_local_control_session in Hs. cbn [mbind option_bind] in Hs. unfold control_inv in H.
  destruct (lc_ssl c); [|done]. destruct (lc_authenticated c); [|done]. injection Hs as <-. apply H.
Qed.

(** What is read of a log of responses determines the log. *)
Lemma logs_equal s xs log slog : length s = 16%nat -> length log = length xs -> slog.*1 `prefix_of` log.*1 ->
  (ca_delivered <$> xs) `prefix_of` (logged_response s <$> slog) -> Forall (fun x => in_width 32 x.2) slog ->
  (forall i x y, xs !! i = Some x -> log !! i = Some y -> in_width 64 (request_seq y.1) /\ rp_status (unpack_response (ca_delivered x)) = y.2) ->
  slog = log.
Proof.
  intros Hs Hl Hp1 Hp2 Hw Hx. pose proof (prefix_length _ _ Hp1) as L1. pose proof (prefix_length _ _ Hp2) as L2. rewrite 2!length_fmap in L1. rewrite 2!length_fmap in L2.
  apply prefix_length_eq in Hp1; [|rewrite !length_fmap; lia]. apply prefix_length_eq in Hp2; [|rewrite !length_fmap; lia].
  apply list_eq_same_length with (length log); [done|lia|]. intros i a b Hi Ha Hb.
  assert (a.1 = b.1) as E1.
  { assert (slog.*1 !! i = Some a.1) as H1 by (by rewrite list_lookup_fmap, Ha). rewrite Hp1, list_lookup_fmap, Hb in H1. by injection H1. }
  destruct (lookup_lt_is_Some_2 xs i ltac:(lia)) as [x Hxi]. destruct (Hx i x b Hxi Hb) as [Hr Hst].
  assert (ca_delivered x = logged_response s a) as E2.
  { assert ((ca_delivered <$> xs) !! i = Some (ca_delivered x)) as H1 by (by rewrite list_lookup_fmap, Hxi). rewrite Hp2, list_lookup_fmap, Ha in H1. by injection H1. }
  rewrite E2 in Hst. unfold logged_response in Hst. rewrite E1, unpack_response_bytes in Hst; [|done|done|by apply (Forall_lookup_1 _ _ _ _ Hw Ha)].
  destruct a, b. cbn in *. congruence.
Qed.

(** The host and the DPU agree on every request.  A host that has been greeted and
    whose calls have all returned holds the session that the DPU has open, and its
    calls with the statuses returned are exactly, in order, the requests the DPU has
    dispatched with the statuses it gave them: provided that the stream delivers
    what was written - what the host has read is what the DPU wrote, and the DPU
    has read nothing that the host did not send. *)
Lemma local_client_agrees {O} (owner : local_owner O) host_uri c events s greeting k xs k' log :
  local_run owner host_uri c events -> dmesh_local_control_session (Some c) = Some s ->
  local_connect (Some greeting) no_client = (inr tt, k) -> calls xs k = Some (k', log) ->
  greeting ++ concat (ca_delivered <$> xs) `prefix_of` lh_out (history events) -> lh_in (history events) `prefix_of` concat log.*1 ->
  Forall (fun x => in_width 32 x.2) (lh_log (history events)) ->
  lk_session k' = s /\ lh_log (history events) = log.
Proof.
  intros Hrun Hs Hc Hx Hout Hin Hw. destruct (session_refines owner host_uri c events s Hrun Hs) as (resps & Hsv & Ein & Hreq & _ & Eout).
  pose proof (session_length owner host_uri c events s Hrun Hs) as Ls.
  unfold local_connect in Hc. cbn [lk_stream no_client] in Hc. destruct (receive (Some greeting)) as [|g] eqn:Eg; [done|].
  apply bind_inr in Eg as (d & Hd%or_raise_inr & Eg). injection Hd as <-. apply bind_inr in Eg as ([] & Lg%raise_if_inr%negb_false_iff%Nat.eqb_eq & Eg).
  injection Eg as <-. destruct (_ || _ || _ || _); [done|]. injection Hc as <-.
  destruct (calls_spec _ _ _ _ Hx) as (Es & Ll & Hcalls); [cbn; rewrite length_take, length_drop; lia|]. cbn [lk_session lk_sequence] in Es, Hcalls.
  assert (Forall (fun r => length r = RESPONSE_SIZE) (greeting :: (ca_delivered <$> xs))) as Hd.
  { constructor; [done|]. apply Forall_fmap, Forall_lookup_2. intros i x Hi. destruct (lookup_lt_is_Some_2 log i) as [y Hy]; [apply lookup_lt_Some in Hi; lia|].
    by destruct (Hcalls i x y Hi Hy) as (_ & _ & ? & _). }
  assert (forall i q, log.*1 !! i = Some q -> length q = REQUEST_SIZE /\ request_seq q = 1 + Z.of_nat i) as Hq.
  { intros i q Hi. rewrite list_lookup_fmap in Hi. apply fmap_Some in Hi as (y & Hy & ->). destruct (lookup_lt_is_Some_2 xs i) as [x Hxi]; [apply lookup_lt_Some in Hy; lia|].
    destruct (Hcalls i x y Hxi Hy) as (? & ? & _). split; [done|lia]. }
  assert (lh_requests (history events) `prefix_of` log.*1) as Hpr.
  { apply (chunks_prefix REQUEST_SIZE); [unfold REQUEST_SIZE; lia|done|apply Forall_lookup_2; intros i q Hi; by apply (Hq i)|].
    etransitivity; [|exact Hin]. rewrite Ein. by apply prefix_app_r. }
  destruct (served_new_only _ _ _ _ log.*1 Hsv Hpr) as [E1 E2].
  { intros i j q q' Hi Hj E. apply Hq in Hi as [_ Hi], Hj as [_ Hj]. lia. }
  assert ((greeting :: (ca_delivered <$> xs)) `prefix_of` resps) as Hpd.
  { apply (chunks_prefix RESPONSE_SIZE); [unfold RESPONSE_SIZE; lia|done|by eapply served_sizes|]. rewrite <-Eout. etransitivity; [exact Hout|]. by apply prefix_app_r. }
  rewrite E2 in Hpd. pose proof (prefix_cons_inv_1 _ _ _ _ Hpd) as Egr. apply prefix_cons_inv_2 in Hpd.
  split; [rewrite Es, Egr; by apply (f_equal rp_session (unpack_response_bytes s 0 DMESH_LOCAL_OK Ls ltac:(done) ltac:(done)))|]. rewrite <-E1 in Hpr.
  apply (logs_equal s xs log _ Ls Ll Hpr Hpd Hw). intros i x y Hi Hy. destruct (Hcalls i x y Hi Hy) as (_ & _ & _ & ?). split; [|done].
  apply get_le_width.
Qed.
