(* ===== verification/DaemonSlots.v ===== *)
(** * Channel slots of the node daemon ([node/dpumeshd.py])

    A slot is a socket that a container of one Pod is given by the kubelet.  The
    thread of the slot ([Daemon._serve_slot]) admits one connection at a time, has a
    broker started for it ([BrokerSupervisor.launch]), and two threads follow the
    broker: one registers it with the DPU ([register_private]), one waits for its
    end and for the DPU's proof that it was cleaned up ([_watch]).  The feed's thread
    and the control session's thread ([DPUFeed.run], [Daemon._local_loop]) set which
    slots are offered.

    The threads interleave.  A step is what a thread does between two of its waits
    or locks: a function of the daemon's state and of what the system delivers,
    with nothing where the thread is not at that point.  [Worker] objects are shared
    by reference ([is]): [da_heap] holds them.  Starting a thread and writing to the
    log do not fail here. *)

From S2P Require Import Prelude Text PeerIdentity WorkloadIdentity LocalControl PyText NodeIdentity LocalClient.

(** ** State *)

Inductive slot_state := UNHEALTHY | FREE_LISTENING | AUTHORIZING | STARTING | REGISTERING | CLEANUP_WAIT.
#[export] Instance slot_state_dec : EqDecision slot_state.
Proof. solve_decision. Defined.

(** Where the thread of a slot is: before [accept], before the checks of the peer,
    in [launch] before the broker's handshake, after the broker is among the
    workers, after it is the slot's, and after it was told to go on; in the handler
    of [launch], with the broker's process, and in the [finally] of the loop. *)
Inductive serving :=
  | Accepting
  | Authorizing (generation : Z)
  | Starting (generation : Z) (service : text) (evidence : process_evidence)
  | Launched (w : nat)
  | Assigned (w : nat)
  | HandedOver (w : nat)
  | Failing (pid : Z)
  | Denying.

Record slot := Slot { sl_generation : Z; sl_state : slot_state; sl_worker : option nat; sl_thread : serving }.
#[export] Instance eta_slot : Eta slot := fun s => Slot (sl_generation s) (sl_state s) (sl_worker s) (sl_thread s).

(** [register_private]: before the report, before the Pod is observed, before the
    record is sealed, before the worker is marked, before the assertion is sent, and
    at its end, with what was sent. *)
Inductive registering :=
  | NotReporting
  | AwaitReport
  | Reported (connection_id : list byte)
  | Observed (connection_id record : list byte)
  | Sealed (connection_id assertion session : list byte)
  | Marked (assertion : list byte)
  | ReportDone (sent : option (list byte)).

(** [_watch]: before the broker's cgroup is empty, before the worker is removed,
    before the slot is released, in the loop before either request, after the loop,
    and at its end; or after an exception. *)
Inductive watching :=
  | NotWatched
  | Reaping
  | Empty
  | Removed (registered : bool)
  | Unregistering
  | Querying
  | Cleaned (cleaned : bool)
  | WatchDone
  | WatchDied.

(** A [Worker] with the threads that follow it. *)
Record broker := Broker {
  br_worker : worker; br_pid : Z; br_starttime : text; br_wrapper_pid : Z;
  br_registered : bool; br_connection_id : option (list byte); br_control_session : option (list byte);
  br_register : registering; br_watch : watching }.
#[export] Instance eta_broker : Eta broker := fun b =>
  Broker (br_worker b) (br_pid b) (br_starttime b) (br_wrapper_pid b) (br_registered b) (br_connection_id b) (br_control_session b) (br_register b) (br_watch b).

(** [_local_loop]: at its top, before the heartbeat, with a readiness read and to be
    set, inside [set_ready], before the Pods are observed, with workers left to
    check; after an exception, and in [terminate_all] before and after the grace. *)
Inductive looping :=
  | LoopTop
  | LoopHeartbeat
  | LoopSetting (alive ready : bool)
  | LoopInside (alive : bool)
  | LoopObserving
  | LoopChecking (snapshot : list k8s_pod * list k8s_service) (ws : list nat)
  | LoopFailed
  | LoopTerminating
  | LoopWaiting (ws : list nat).

(** [da_setting]: in [set_ready], by which thread (the session's or the feed's), with
    the readiness to set and the next slot. *)
Record daemon := Daemon {
  da_slots : list slot; da_heap : list broker; da_workers : list (Z * nat); da_local : local_client;
  da_runtime_ready : bool; da_control_ready : bool; da_feed_ready : bool;
  da_setting : option (bool * bool * nat); da_loop : looping }.
#[export] Instance eta_daemon : Eta daemon := fun d =>
  Daemon (da_slots d) (da_heap d) (da_workers d) (da_local d) (da_runtime_ready d) (da_control_ready d) (da_feed_ready d) (da_setting d) (da_loop d).

Definition MAX_CHANNEL_SLOTS : Z := 127.
(** [SlotRegistry], with [control_ready] as [Daemon] leaves it *)
Definition daemon_init (count : Z) : option daemon :=
  if (1 <=? count) && (count <=? MAX_CHANNEL_SLOTS)
  then Some (Daemon (repeat (Slot 0 UNHEALTHY None Accepting) (Z.to_nat count)) [] [] no_client false false false None LoopTop) else None.

(** What a run is described by. *)
Inductive daemon_event :=
  | Accepted (i : nat) (generation : Z)
  | Handed (i w : nat)
  | Emptied (w : nat)
  | Registered (w : nat) (connection_id : list byte)
  | AssertionSent (w : nat) (assertion : list byte)
  | Greeted (greeting : list byte)
  | Replied (request delivered : list byte) (status : Z).

Abbreviation outcome := (option (daemon * list daemon_event)).
Definition quietly (d : daemon) : outcome := Some (d, []).
Definition on_slot (i : nat) (f : slot -> slot) (d : daemon) : daemon := d <| da_slots ::= alter f i |>.
Definition on_broker (w : nat) (f : broker -> broker) (d : daemon) : daemon := d <| da_heap ::= alter f w |>.

(** The [dict] of workers by process. *)
Definition workers_get (pid : Z) (l : list (Z * nat)) : option nat := snd <$> head (filter (fun x => x.1 = pid) l).
Definition workers_pop (pid : Z) (l : list (Z * nat)) : list (Z * nat) := filter (fun x => x.1 <> pid) l.

(** ** The slot's thread *)

Definition accept (i : nat) (d : daemon) : outcome :=
  s ← da_slots d !! i;
  match sl_thread s with
  | Accepting =>
      if bool_decide (sl_state s <> FREE_LISTENING) || bool_decide (sl_worker s <> None) then quietly d
      else
        let g := sl_generation s + 1 in
        Some (on_slot i (fun s => s <| sl_state := AUTHORIZING |> <| sl_generation := g |> <| sl_thread := Authorizing g |>) d, [Accepted i g])
  | _ => None
  end.

Definition authorize (i : nat) (packet : list byte) (before cgroup after : option text) (d : daemon) : outcome :=
  s ← da_slots d !! i;
  match sl_thread s with
  | Authorizing g =>
      match (service ← parse_hello packet; evidence ← kernel_evidence before cgroup after; mret (service, evidence)) : result (text * process_evidence) with
      | inl _ => quietly (on_slot i (fun s => s <| sl_thread := Denying |>) d)
      | inr (service, evidence) => quietly (on_slot i (fun s => s <| sl_state := STARTING |> <| sl_thread := Starting g service evidence |>) d)
      end
  | _ => None
  end.

Definition process_parent (stat : option text) : result Z :=
  raw ← or_raise stat OwnError;
  raise_if (negb (forallb is_ascii raw)) OwnError;;
  field ← or_raise (words (after_last ")" raw) !! 1%nat) OwnError;
  parent ← or_raise (py_int field) OwnError;
  raise_if (parent <=? 1) OwnError;;
  mret parent.

Definition leaf_name (pod_uid : text) (generation : Z) : text := txt "pod" ++ pod_uid ++ txt ".g" ++ show generation.
(** [CgroupManager.create]; [made]: the directory and its limits could be written. *)
Definition cgroup_create (made : bool) (pod_uid : text) (generation : Z) : result text :=
  raise_if (negb (fullmatch CGROUP_UID_RE pod_uid) || (generation <? 1)) OwnError;;
  raise_if (negb made) OwnError;;
  mret (leaf_name pod_uid generation).

(** The peer of the launch socket: its credentials, what it presents, the files of
    its process, and whether it answered that it had moved. *)
Record launch_peer := LaunchPeer {
  lp_pid : Z; lp_uid : Z; lp_presented : list byte; lp_parent : option text; lp_moved : bool; lp_stat : option text; lp_cgroup : option text }.
(** Without a peer: an exception before it has connected. *)
Record launch_io := LaunchIo { li_leaf : bool; li_wrapper_pid : Z; li_peer : option launch_peer }.

Definition bootstrap (leaf : text) (wrapper_pid : Z) (p : launch_peer) : result text :=
  raise_if (negb (lp_uid p =? 0) || bool_decide (lp_presented p <> txt "B")) OwnError;;
  parent ← process_parent (lp_parent p);
  raise_if (negb (parent =? wrapper_pid)) OwnError;;
  raise_if (negb (lp_moved p)) OwnError;;
  started ← process_starttime (lp_stat p);
  current ← or_raise (lp_cgroup p) OSError;
  raise_if (negb (forallb is_ascii current)) ValueError;;
  raise_if (negb (contains (txt "/" ++ leaf) current)) OwnError;;
  mret started.

Definition launch (i : nat) (io : launch_io) (d : daemon) : outcome :=
  s ← da_slots d !! i;
  match sl_thread s with
  | Starting g service evidence =>
      let go t := on_slot i (fun s => s <| sl_thread := t |>) in
      match cgroup_create (li_leaf io) (pe_pod_uid evidence) g, li_peer io with
      | inl _, _ => quietly (go Denying d)
      | inr _, None => quietly (go (Failing (-1)) d)
      | inr leaf, Some p =>
          match bootstrap leaf (li_wrapper_pid io) p with
          | inl _ => quietly (go (Failing (lp_pid p)) d)
          | inr started =>
              if bool_decide (is_Some (workers_get (lp_pid p) (da_workers d))) then quietly (go (Failing (lp_pid p)) d)
              else
                let w := length (da_heap d) in
                let b := Broker (Worker (Z.of_nat i) g (pe_pod_uid evidence) (pe_container_id evidence) service)
                  (lp_pid p) started (li_wrapper_pid io) false None None NotReporting NotWatched in
                quietly (go (Launched w) d <| da_heap ::= fun l => l ++ [b] |> <| da_workers ::= fun l => l ++ [(lp_pid p, w)] |>)
          end
      end
  | _ => None
  end.

Definition assign (i : nat) (d : daemon) : outcome :=
  s ← da_slots d !! i;
  match sl_thread s with
  | Launched w => quietly (on_slot i (fun s => s <| sl_worker := Some w |> <| sl_state := REGISTERING |> <| sl_thread := Assigned w |>) d)
  | _ => None
  end.

(** [told]: the socket was duplicated and took the word to go on. *)
Definition hand (i : nat) (told : bool) (d : daemon) : outcome :=
  s ← da_slots d !! i;
  match sl_thread s with
  | Assigned w =>
      b ← da_heap d !! w;
      if told then
        Some (on_broker w (fun b => b <| br_register := AwaitReport |>) (on_slot i (fun s => s <| sl_thread := HandedOver w |>) d), [Handed i w])
      else quietly (on_slot i (fun s => s <| sl_thread := Failing (br_pid b) |>) d <| da_workers ::= workers_pop (br_pid b) |>)
  | _ => None
  end.

Definition launched (i : nat) (d : daemon) : outcome :=
  s ← da_slots d !! i;
  match sl_thread s with
  | HandedOver w => quietly (on_broker w (fun b => b <| br_watch := Reaping |>) (on_slot i (fun s => s <| sl_thread := Accepting |>) d))
  | _ => None
  end.

Definition launch_failed (i : nat) (d : daemon) : outcome :=
  s ← da_slots d !! i;
  match sl_thread s with
  | Failing pid => quietly (on_slot i (fun s => s <| sl_thread := Denying |>) d <| da_workers ::= if 1 <? pid then workers_pop pid else id |>)
  | _ => None
  end.

Definition deny (i : nat) (d : daemon) : outcome :=
  s ← da_slots d !! i;
  match sl_thread s with
  | Denying =>
      quietly (on_slot i (fun s => s <| sl_worker := None |> <| sl_state := if da_runtime_ready d then FREE_LISTENING else UNHEALTHY |> <| sl_thread := Accepting |>) d)
  | _ => None
  end.

(** ** Readiness *)

(** [set_ready] up to its loop; [local]: called by the thread of the session. *)
Definition begin_ready (local ready : bool) (d : daemon) : daemon :=
  let r := ready && da_control_ready d in
  d <| da_feed_ready := ready |> <| da_runtime_ready := r |> <| da_setting := Some (local, r, 0%nat) |>.

Definition ready_slot (ready : bool) (s : slot) : slot :=
  if bool_decide (sl_state s = UNHEALTHY) && ready then s <| sl_state := FREE_LISTENING |>
  else if negb ready && bool_decide (sl_worker s = None) && bool_decide (sl_state s <> CLEANUP_WAIT) then s <| sl_state := UNHEALTHY |>
  else s.

Definition set_ready_slot (d : daemon) : outcome :=
  match da_setting d with
  | Some (local, ready, i) =>
      match da_slots d !! i with
      | Some _ => quietly (on_slot i (ready_slot ready) d <| da_setting := Some (local, ready, S i) |>)
      | None =>
          let d := d <| da_setting := None |> in
          quietly (match da_loop d, local with
                   | LoopInside alive, true => d <| da_loop := if alive then LoopObserving else LoopTerminating |>
                   | _, _ => d
                   end)
      end
  | None => None
  end.

(** [DPUFeed.run] after [once] *)
Definition feed_ready (ready : bool) (d : daemon) : outcome :=
  match da_setting d with None => quietly (begin_ready false ready d) | Some _ => None end.

(** ** The DPU's control session *)

Definition ask_dpu (operation : Z) (connection_id : list byte) (expected delivered : option (list byte)) (d : daemon) : result Z * daemon * list daemon_event :=
  let '(r, sent, k) := request operation connection_id expected delivered (da_local d) in
  (r, d <| da_local := k |>, match r with inr status => [Replied sent (default [] delivered) status] | inl _ => [] end).

Definition loop_to (l : looping) (d : daemon) : daemon := d <| da_loop := l |>.

Definition loop_connect (delivered : option (list byte)) (d : daemon) : outcome :=
  match da_loop d with
  | LoopTop =>
      let (r, k) := local_connect delivered (da_local d) in
      Some (loop_to (match r with inr _ => LoopHeartbeat | inl _ => LoopFailed end) (d <| da_local := k |>),
            match r with inr _ => if lk_stream (da_local d) then [] else [Greeted (default [] delivered)] | inl _ => [] end)
  | _ => None
  end.

Definition loop_heartbeat (delivered : option (list byte)) (d : daemon) : outcome :=
  match da_loop d with
  | LoopHeartbeat =>
      let '(r, d, es) := ask_dpu 1 (repeat x00 32) None delivered d in
      Some (match r with
            | inr 0 => loop_to (LoopSetting true (da_feed_ready d)) (d <| da_control_ready := true |>)
            | _ => loop_to LoopFailed d
            end, es)
  | _ => None
  end.

Definition loop_failed (d : daemon) : outcome :=
  match da_loop d with
  | LoopFailed => quietly (loop_to (LoopSetting false (da_feed_ready d)) (d <| da_local ::= close |> <| da_control_ready := false |>))
  | _ => None
  end.

Definition loop_set (d : daemon) : outcome :=
  match da_loop d, da_setting d with
  | LoopSetting alive ready, None => quietly (loop_to (LoopInside alive) (begin_ready true ready d))
  | _, _ => None
  end.

Definition loop_observe (snapshot : option (list k8s_pod * list k8s_service)) (d : daemon) : outcome :=
  match da_loop d with
  | LoopObserving => quietly (loop_to (match snapshot with Some s => LoopChecking s (da_workers d).*2 | None => LoopTop end) d)
  | _ => None
  end.

(** A worker that is no longer authorized is unregistered in the session it was
    sealed in, and its broker is told to stop. *)
Definition loop_check (node : text) (delivered : option (list byte)) (d : daemon) : outcome :=
  match da_loop d with
  | LoopChecking s (w :: ws) =>
      b ← da_heap d !! w;
      match br_connection_id b with
      | None => quietly (loop_to (LoopChecking s ws) d)
      | Some connection_id =>
          match resolve_worker node (br_worker b) s false None with
          | inr _ => quietly (loop_to (LoopChecking s ws) d)
          | inl _ =>
              let '(r, d, es) := ask_dpu 3 connection_id (br_control_session b) delivered d in
              Some (loop_to (match r with inr _ => LoopChecking s ws | inl _ => LoopFailed end) d, es)
          end
      end
  | LoopChecking _ [] => quietly (loop_to LoopTop d)
  | _ => None
  end.

(** [terminate_all]: the workers left at the end of the grace are killed, and waited for. *)
Definition loop_grace_over (d : daemon) : outcome :=
  match da_loop d with LoopTerminating => quietly (loop_to (LoopWaiting (da_workers d).*2) d) | _ => None end.
Definition loop_terminated (d : daemon) : outcome :=
  match da_loop d with
  | LoopWaiting ws =>
      if existsb (fun w => match da_heap d !! w with Some b => bool_decide (workers_get (br_pid b) (da_workers d) = Some w) | None => false end) ws
      then quietly d else quietly (loop_to LoopTop d)
  | _ => None
  end.

(** ** Registration of a broker *)

(** [struct "<8sB3x64s32s"] *)
Definition LOCAL_REPORT_SIZE : nat := 108.
Definition LOCAL_VERSION : Z := 6.
Definition parse_report (service : text) (packet : option (list byte)) : result (list byte) :=
  packet ← or_raise packet OSError;
  raise_if (negb (length packet =? LOCAL_REPORT_SIZE)%nat) OwnError;;
  let connection_id := drop 76 packet in
  named ← py_ascii (before_first x00 (take 64 (drop 12 packet)));
  raise_if (bool_decide (take 8 packet <> DMESH_LOCAL_MAGIC) || bool_decide (packet !! 8%nat <> Some (z2b LOCAL_VERSION)) ||
            bool_decide (named <> service) || negb (nonzero connection_id)) OwnError;;
  mret connection_id.

Definition register_to (w : nat) (t : registering) (d : daemon) : daemon := on_broker w (fun b => b <| br_register := t |>) d.

Definition receive_report (w : nat) (packet : option (list byte)) (d : daemon) : outcome :=
  b ← da_heap d !! w;
  match br_register b with
  | AwaitReport => quietly (register_to w (match parse_report (wk_service (br_worker b)) packet with inr c => Reported c | inl _ => ReportDone None end) d)
  | _ => None
  end.

Definition OBSERVE_ATTEMPTS : nat := 15.
(** The first of the attempts that gives a record; nothing yet when there may be more. *)
Fixpoint observe_within (n : nat) (attempts : list (result (list byte))) : option (option (list byte)) :=
  match n, attempts with
  | O, _ => Some None
  | S n', inr record :: _ => Some (Some record)
  | S n', inl _ :: attempts' => observe_within n' attempts'
  | S _, [] => None
  end.

Definition observe (cluster node : text) (incarnation : list byte) (w : nat) (attempts : list (Z * views)) (d : daemon) : outcome :=
  b ← da_heap d !! w;
  match br_register b with
  | Reported connection_id =>
      found ← observe_within OBSERVE_ATTEMPTS ((fun a => metadata cluster node (br_worker b) connection_id incarnation a.1 a.2) <$> attempts);
      quietly (register_to w (match found with Some record => Observed connection_id record | None => ReportDone None end) d)
  | _ => None
  end.

Definition seal_worker (mac : list byte -> list byte -> list byte) (w : nat) (d : daemon) : outcome :=
  b ← da_heap d !! w;
  match br_register b with
  | Observed connection_id record =>
      quietly (register_to w (match seal_record mac record (da_local d) with
                              | inr (assertion, session) => Sealed connection_id assertion session
                              | inl _ => ReportDone None
                              end) d)
  | _ => None
  end.

Definition mark_registered (w : nat) (stat : option text) (d : daemon) : outcome :=
  b ← da_heap d !! w;
  match br_register b with
  | Sealed connection_id assertion session =>
      if bool_decide (workers_get (br_pid b) (da_workers d) = Some w) && bool_decide (process_starttime stat = inr (br_starttime b)) then
        Some (on_broker w (fun b => b <| br_connection_id := Some connection_id |> <| br_control_session := Some session |>
                                      <| br_registered := true |> <| br_register := Marked assertion |>) d, [Registered w connection_id])
      else quietly (register_to w (ReportDone None) d)
  | _ => None
  end.

Definition send_assertion (w : nat) (sent : bool) (d : daemon) : outcome :=
  b ← da_heap d !! w;
  match br_register b with
  | Marked assertion =>
      if sent then Some (register_to w (ReportDone (Some assertion)) d, [AssertionSent w assertion])
      else quietly (register_to w (ReportDone None) d)
  | _ => None
  end.

(** ** The end of a broker *)

Definition watch_to (w : nat) (t : watching) (d : daemon) : daemon := on_broker w (fun b => b <| br_watch := t |>) d.

(** [populated]: a process is left in the broker's cgroup. *)
Definition reap (w : nat) (populated : bool) (d : daemon) : outcome :=
  b ← da_heap d !! w;
  match br_watch b with
  | Reaping => if populated then quietly d else Some (watch_to w Empty d, [Emptied w])
  | _ => None
  end.

Definition remove_worker (w : nat) (d : daemon) : outcome :=
  b ← da_heap d !! w;
  match br_watch b with
  | Empty => quietly (watch_to w (Removed (br_registered b)) d <| da_workers ::= workers_pop (br_pid b) |>)
  | _ => None
  end.

Definition release_slot (w : nat) (registered : bool) (s : slot) : slot :=
  if bool_decide (sl_worker s = Some w) then s <| sl_worker := None |> <| sl_state := if registered then CLEANUP_WAIT else FREE_LISTENING |> else s.

Definition release (w : nat) (d : daemon) : outcome :=
  b ← da_heap d !! w;
  match br_watch b with
  | Removed registered =>
      let next := if negb registered then WatchDone
                  else match br_connection_id b with Some _ => Unregistering | None => Cleaned false end in
      quietly (watch_to w next (on_slot (Z.to_nat (wk_slot (br_worker b))) (release_slot w registered) d))
  | _ => None
  end.

(** The loop retries on [OSError] and [ValueError]; an exception of the packing
    ([struct.error]) is neither. *)
Definition unregister_worker (w : nat) (delivered : option (list byte)) (d : daemon) : outcome :=
  b ← da_heap d !! w;
  match br_watch b, br_connection_id b with
  | Unregistering, Some connection_id =>
      let '(r, d, es) := ask_dpu 3 connection_id None delivered d in
      Some (watch_to w (match r with inr _ => Querying | inl OSError => Unregistering | inl _ => WatchDied end) d, es)
  | _, _ => None
  end.

Definition query_worker (w : nat) (delivered : option (list byte)) (d : daemon) : outcome :=
  b ← da_heap d !! w;
  match br_watch b, br_connection_id b with
  | Querying, Some connection_id =>
      let '(r, d, es) := ask_dpu 4 connection_id None delivered d in
      Some (watch_to w (match r with inr 0 => Cleaned true | inr _ => Unregistering | inl OSError => Unregistering | inl _ => WatchDied end) d, es)
  | _, _ => None
  end.

Definition reopen_slot (cleaned : bool) (s : slot) : slot :=
  if cleaned && bool_decide (sl_worker s = None) && bool_decide (sl_state s = CLEANUP_WAIT) then s <| sl_state := FREE_LISTENING |> else s.

Definition reopen (w : nat) (d : daemon) : outcome :=
  b ← da_heap d !! w;
  match br_watch b with
  | Cleaned cleaned => quietly (watch_to w WatchDone (on_slot (Z.to_nat (wk_slot (br_worker b))) (reopen_slot cleaned) d))
  | _ => None
  end.

(** ** Device plugin *)

Definition health (s : slot) (runtime_ready : bool) : bool := runtime_ready && bool_decide (sl_state s <> UNHEALTHY).
Definition slot_path (directory : text) (i : nat) : text := directory ++ txt "/" ++ device_id (Z.of_nat i) ++ txt ".sock".
Definition devices (d : daemon) : list (text * bool) := imap (fun i s => (device_id (Z.of_nat i), health s (da_runtime_ready d))) (da_slots d).
Definition by_id (id : text) (d : daemon) : result nat :=
  match filter (fun i => device_id (Z.of_nat i) = id) (seq 0 (length (da_slots d))) with [i] => mret i | _ => raise OwnError end.

(** One container's allocation: the socket to mount. *)
Definition allocate_container (directory : text) (d : daemon) (ids : list text) : result text :=
  match ids with
  | [id] =>
      i ← by_id id d;
      s ← or_raise (da_slots d !! i) OwnError;
      raise_if (negb (health s (da_runtime_ready d))) OwnError;;
      mret (slot_path directory i)
  | _ => raise OwnError
  end.
(** Each container's request with the state it meets. *)
Fixpoint Allocate (directory : text) (requests : list (daemon * list text)) : result (list text) :=
  match requests with
  | [] => mret []
  | (d, ids) :: requests' => m ← allocate_container directory d ids; ms ← Allocate directory requests'; mret (m :: ms)
  end.

(** ** Runs *)

Section runs.
  Context (mac : list byte -> list byte -> list byte) (cluster node : text) (incarnation : list byte).

Inductive action :=
  | Accept (i : nat)
  | Authorize (i : nat) (packet : list byte) (before cgroup after : option text)
  | Launch (i : nat) (io : launch_io)
  | Assign (i : nat)
  | Hand (i : nat) (told : bool)
  | LaunchEnds (i : nat)
  | LaunchFails (i : nat)
  | Deny (i : nat)
  | FeedReady (ready : bool)
  | SetReadySlot
  | LoopConnect (delivered : option (list byte))
  | LoopBeats (delivered : option (list byte))
  | LoopFails
  | LoopSets
  | LoopObserves (snapshot : option (list k8s_pod * list k8s_service))
  | LoopChecks (delivered : option (list byte))
  | LoopGraceOver
  | LoopTerminated
  | Report (w : nat) (packet : option (list byte))
  | Observe (w : nat) (attempts : list (Z * views))
  | SealWorker (w : nat)
  | Mark (w : nat) (stat : option text)
  | SendAssertion (w : nat) (sent : bool)
  | Reap (w : nat) (populated : bool)
  | RemoveWorker (w : nat)
  | Release (w : nat)
  | UnregisterWorker (w : nat) (delivered : option (list byte))
  | QueryWorker (w : nat) (delivered : option (list byte))
  | Reopen (w : nat).

Definition daemon_step (a : action) (d : daemon) : outcome :=
  match a with
  | Accept i => accept i d
  | Authorize i packet before cgroup after => authorize i packet before cgroup after d
  | Launch i io => launch i io d
  | Assign i => assign i d
  | Hand i told => hand i told d
  | LaunchEnds i => launched i d
  | LaunchFails i => launch_failed i d
  | Deny i => deny i d
  | FeedReady ready => feed_ready ready d
  | SetReadySlot => set_ready_slot d
  | LoopConnect delivered => loop_connect delivered d
  | LoopBeats delivered => loop_heartbeat delivered d
  | LoopFails => loop_failed d
  | LoopSets => loop_set d
  | LoopObserves snapshot => loop_observe snapshot d
  | LoopChecks delivered => loop_check node delivered d
  | LoopGraceOver => loop_grace_over d
  | LoopTerminated => loop_terminated d
  | Report w packet => receive_report w packet d
  | Observe w attempts => observe cluster node incarnation w attempts d
  | SealWorker w => seal_worker mac w d
  | Mark w stat => mark_registered w stat d
  | SendAssertion w sent => send_assertion w sent d
  | Reap w populated => reap w populated d
  | RemoveWorker w => remove_worker w d
  | Release w => release w d
  | UnregisterWorker w delivered => unregister_worker w delivered d
  | QueryWorker w delivered => query_worker w delivered d
  | Reopen w => reopen w d
  end.

Fixpoint daemon_steps (actions : list action) (d : daemon) : outcome :=
  match actions with
  | [] => quietly d
  | a :: actions' => '(d1, es1) ← daemon_step a d; '(d2, es2) ← daemon_steps actions' d1; Some (d2, es1 ++ es2)
  end.

Inductive daemon_run : daemon -> list daemon_event -> Prop :=
  | daemon_starts count d : daemon_init count = Some d -> daemon_run d []
  | daemon_steps_on d d' es es' a : daemon_run d es -> daemon_step a d = Some (d', es') -> daemon_run d' (es ++ es').

End runs.
