(* ===== verification/DaemonInv.v ===== *)
(** * Channel slots: the invariant

    At any time at most one broker holds a slot, from its launch until the slot is
    released or, when the broker was registered, until the DPU has proved its
    cleanup.  All other brokers of the slot either were never told to go on or are at
    their end. *)

From S2P Require Import Prelude Text PeerIdentity WorkloadIdentity WorkloadProofs LocalControl LocalControlProofs PyText NodeIdentity NodeIdentityProofs LocalClient DaemonSlots.

(** ** A slot and its brokers *)

Definition unstarted (b : broker) : Prop := br_register b = NotReporting /\ br_watch b = NotWatched /\ br_registered b = false.
Definition retired_broker (b : broker) : Prop := unstarted b \/ br_watch b = WatchDone.
Definition of_slot (i : nat) (b : broker) : Prop := wk_slot (br_worker b) = Z.of_nat i.
Definition in_cleanup (t : watching) : Prop := t = Unregistering \/ t = Querying \/ t = Cleaned true \/ t = WatchDied.

(** The ways a broker holds a slot. *)
Inductive holds_slot (w : nat) (b : broker) (s : slot) : Prop :=
  | hold_launched : sl_thread s = Launched w -> sl_worker s = None -> unstarted b -> holds_slot w b s
  | hold_assigned : sl_thread s = Assigned w -> sl_worker s = Some w -> unstarted b -> holds_slot w b s
  | hold_handed : sl_thread s = HandedOver w -> sl_worker s = Some w -> br_register b <> NotReporting -> br_watch b = NotWatched -> holds_slot w b s
  | hold_watched : sl_thread s = Accepting -> sl_worker s = Some w -> br_register b <> NotReporting ->
      br_watch b = Reaping \/ br_watch b = Empty \/ br_watch b = Removed (br_registered b) -> holds_slot w b s
  | hold_cleanup : sl_thread s = Accepting -> sl_worker s = None -> sl_state s = CLEANUP_WAIT -> br_register b <> NotReporting ->
      br_registered b = true -> in_cleanup (br_watch b) -> holds_slot w b s.

Inductive idle_slot (s : slot) : Prop :=
  | idle_accepting : sl_thread s = Accepting -> sl_worker s = None -> idle_slot s
  | idle_authorizing : sl_thread s = Authorizing (sl_generation s) -> sl_worker s = None -> idle_slot s
  | idle_starting service evidence : sl_thread s = Starting (sl_generation s) service evidence -> sl_worker s = None -> idle_slot s
  | idle_failing pid : sl_thread s = Failing pid -> idle_slot s
  | idle_denying : sl_thread s = Denying -> idle_slot s.

(** Of the slot, and launched at its last admission. *)
Definition current_of (i : nat) (s : slot) (b : broker) : Prop := of_slot i b /\ wk_generation (br_worker b) = sl_generation s.
Definition slot_holder (heap : list broker) (i : nat) (s : slot) (h : option nat) : Prop :=
  match h with None => idle_slot s | Some w => exists b, heap !! w = Some b /\ current_of i s b /\ holds_slot w b s end.

(** The generation of the last broker the slot's thread may have launched. *)
Definition floor (s : slot) : Z :=
  match sl_thread s with Authorizing _ | Starting _ _ _ => sl_generation s - 1 | _ => sl_generation s end.

Record channel_ok (heap : list broker) (i : nat) (s : slot) : Prop := {
  so_holder : exists h, slot_holder heap i s h /\ forall w b, heap !! w = Some b -> of_slot i b -> h = Some w \/ retired_broker b;
  so_floor : forall w b, heap !! w = Some b -> of_slot i b -> wk_generation (br_worker b) <= floor s }.

Definition before_removal (t : watching) : Prop := t = NotWatched \/ t = Reaping \/ t = Empty.
Definition listed (heap : list broker) (pid : Z) (w : nat) : Prop :=
  exists b, heap !! w = Some b /\ br_pid b = pid /\ before_removal (br_watch b).

Definition named_broker (b : broker) : Prop := br_registered b = true -> is_Some (br_connection_id b).

Record daemon_inv (d : daemon) : Prop := {
  di_slots : forall i s, da_slots d !! i = Some s -> channel_ok (da_heap d) i s;
  di_brokers : forall w b, da_heap d !! w = Some b -> exists i, of_slot i b /\ (i < length (da_slots d))%nat;
  di_rising : forall w b w' b', da_heap d !! w = Some b -> da_heap d !! w' = Some b' -> (w < w')%nat ->
    wk_slot (br_worker b) = wk_slot (br_worker b') -> wk_generation (br_worker b) < wk_generation (br_worker b');
  di_named : forall w b, da_heap d !! w = Some b -> named_broker b;
  di_workers : forall pid w, (pid, w) ∈ da_workers d -> listed (da_heap d) pid w }.

(** ** Changes of one broker, of one slot *)

(** A change of a broker that its slot does not see. *)
Definition minor (f : broker -> broker) (b : broker) : Prop :=
  br_worker (f b) = br_worker b /\ br_pid (f b) = br_pid b /\ (before_removal (br_watch b) -> before_removal (br_watch (f b))) /\
  (named_broker b -> named_broker (f b)) /\
  (retired_broker b -> retired_broker (f b)) /\ forall w s, holds_slot w b s -> holds_slot w (f b) s.

Lemma alter_broker (heap : list broker) (w : nat) f (v : nat) b : alter f w heap !! v = Some b -> exists b0, heap !! v = Some b0 /\ ((v = w /\ b = f b0) \/ (v <> w /\ b = b0)).
Proof.
  destruct (decide (v = w)) as [->|Hv].
  - rewrite list_lookup_alter_eq. intros (b0 & H & ->)%fmap_Some. exists b0. eauto.
  - rewrite list_lookup_alter_ne by done. eauto.
Qed.

Lemma of_slot_inj i j b : of_slot i b -> of_slot j b -> i = j.
Proof. unfold of_slot. lia. Qed.

(** A slot and a broker change together: the broker is its holder, before and after. *)
Lemma slot_ok_holder heap i s s' (w : nat) f b : heap !! w = Some b -> of_slot i b -> br_worker (f b) = br_worker b ->
  channel_ok heap i s -> (forall h, slot_holder heap i s h -> retired_broker b -> h = Some w) -> holds_slot w (f b) s' \/ (idle_slot s' /\ retired_broker (f b)) -> floor s <= floor s' -> sl_generation s' = sl_generation s -> channel_ok (alter f w heap) i s'.
Proof.
  intros Hw Hi Hf [(h & Hh & Ho) Hg] Hr Hn Hfl Hge. assert (alter f w heap !! w = Some (f b)) as Hw' by (by rewrite list_lookup_alter_eq, Hw).
  assert (h = Some w) as -> by (destruct (Ho w b Hw Hi); [done|by apply Hr]). split.
  - destruct Hn as [Hn|[Hn Hret]].
    + destruct Hh as (b1 & Hb1 & [_ Hcur] & _). assert (b1 = b) as -> by congruence.
      exists (Some w). split; [exists (f b); unfold current_of, of_slot; rewrite Hf, Hge; done|]. intros v c (b0 & H0 & [[-> ->]|[Hv ->]])%alter_broker Hc; [by left|].
      destruct (Ho v b0 H0 Hc); [congruence|by right].
    + exists None. split; [done|]. intros v c (b0 & H0 & [[-> ->]|[Hv ->]])%alter_broker Hc; [right; by simplify_eq|].
      destruct (Ho v b0 H0 Hc); [congruence|by right].
  - intros v c (b0 & H0 & [[-> ->]|[Hv ->]])%alter_broker Hc; [simplify_eq; rewrite Hf|]; etransitivity; [by eapply Hg|done|by eapply Hg|done].
Qed.

(** The broker of another slot changes. *)
Lemma slot_ok_other heap i s (w : nat) f b : heap !! w = Some b -> ~ of_slot i b -> br_worker (f b) = br_worker b -> channel_ok heap i s -> channel_ok (alter f w heap) i s.
Proof.
  intros Hw Hi Hf [(h & Hh & Ho) Hg]. assert (forall v c, alter f w heap !! v = Some c -> of_slot i c -> heap !! v = Some c) as Hsame.
  { intros v c (b0 & H0 & [[-> ->]|[Hv ->]])%alter_broker Hc; [|done]. simplify_eq. unfold of_slot in Hc. by rewrite Hf in Hc. }
  split; [|eauto]. exists h. split; [|eauto]. destruct h as [v|]; [|done]. destruct Hh as (c & Hv & Hc & Hh). exists c. split; [|done].
  rewrite list_lookup_alter_ne; [done|]. intros ->. simplify_eq. by destruct Hc.
Qed.

Lemma slot_ok_minor heap i s (w : nat) f b : heap !! w = Some b -> minor f b -> channel_ok heap i s -> channel_ok (alter f w heap) i s.
Proof.
  intros Hw (Hf & _ & _ & _ & Hr & Hm) [(h & Hh & Ho) Hg]. split.
  - exists h. split.
    + destruct h as [v|]; [|done]. destruct Hh as (c & Hv & Hc & Hh). destruct (decide (v = w)) as [->|Hvw].
      * simplify_eq. exists (f b). unfold current_of, of_slot. rewrite list_lookup_alter_eq, Hw, Hf. eauto.
      * exists c. by rewrite list_lookup_alter_ne.
    + intros v c (b0 & H0 & [[-> ->]|[Hv ->]])%alter_broker Hc; [|by eapply Ho]. simplify_eq. unfold of_slot in Hc. rewrite Hf in Hc.
      destruct (Ho w b Hw Hc); eauto.
  - intros v c (b0 & H0 & [[-> ->]|[Hv ->]])%alter_broker Hc; [|by eapply Hg]. simplify_eq. unfold of_slot in Hc. rewrite Hf in Hc |- *. eauto.
Qed.

(** Only the slot changes. *)
Lemma slot_ok_slot heap i s s' : channel_ok heap i s -> (idle_slot s -> idle_slot s') -> (forall w b, holds_slot w b s -> holds_slot w b s') -> floor s <= floor s' ->
  sl_generation s' = sl_generation s \/ (forall w b, ~ holds_slot w b s) -> channel_ok heap i s'.
Proof.
  intros [(h & Hh & Ho) Hg] Hi Hho Hf Hge. split; [|intros w b Hw Hb; etransitivity; [by eapply Hg|done]].
  exists h. split; [|done]. destruct h as [w|]; [|by apply Hi]. destruct Hh as (b & ? & [? ?] & ?).
  destruct Hge as [Hge|Hge]; [|by destruct (Hge w b)]. exists b. unfold current_of. rewrite Hge. auto.
Qed.

(** ** The daemon's state *)

Lemma inv_same d d' : da_slots d' = da_slots d -> da_heap d' = da_heap d -> da_workers d' = da_workers d -> daemon_inv d -> daemon_inv d'.
Proof. intros E1 E2 E3 [H1 H2 H3 H4 H5]. split; rewrite ?E1, ?E2, ?E3; done. Qed.

Lemma pop_incl pid x l : x ∈ workers_pop pid l -> x ∈ l.
Proof. unfold workers_pop. rewrite list_elem_of_filter. by intros [_ ?]. Qed.
Lemma pop_not pid w l : (pid, w) ∉ workers_pop pid l.
Proof. unfold workers_pop. rewrite list_elem_of_filter. by intros [? _]. Qed.
Lemma get_elem pid l w : workers_get pid l = Some w -> (pid, w) ∈ l.
Proof.
  unfold workers_get. destruct (filter _ l) as [|[p v] t] eqn:E; [done|]. intros [= <-].
  assert ((p, v) ∈ filter (fun x : Z * nat => x.1 = pid) l) as H by (rewrite E; by left). apply list_elem_of_filter in H as [<- H]. done.
Qed.

Lemma inv_fewer d l : (forall x, x ∈ l -> x ∈ da_workers d) -> daemon_inv d -> daemon_inv (d <| da_workers := l |>).
Proof. intros H [H1 H2 H3 H4 H5]. split; try done. intros pid w Hw. by apply H5, H. Qed.

Lemma inv_slot d i f : (forall s, da_slots d !! i = Some s -> channel_ok (da_heap d) i s -> channel_ok (da_heap d) i (f s)) -> daemon_inv d -> daemon_inv (on_slot i f d).
Proof.
  intros Hf [H1 H2 H3 H4 H5]. split; try done.
  - intros j s. cbn. destruct (decide (i = j)) as [->|Hj].
    + rewrite list_lookup_alter_eq. intros (s0 & Hs & ->)%fmap_Some. auto.
    + rewrite list_lookup_alter_ne by done. apply H1.
  - intros w b Hw. destruct (H2 w b Hw) as (j & ? & ?). exists j. split; [done|]. cbn. by rewrite length_alter.
Qed.

Lemma listed_change heap (w : nat) f b pid v : heap !! w = Some b -> br_pid (f b) = br_pid b ->
  (v = w -> before_removal (br_watch b) -> before_removal (br_watch (f b))) -> listed heap pid v -> listed (alter f w heap) pid v.
Proof.
  intros Hw Hp Hb (c & Hv & Hc & Hr). destruct (decide (v = w)) as [->|Hvw].
  - simplify_eq. exists (f b). rewrite list_lookup_alter_eq, Hw. rewrite Hp. split; [done|]. split; [done|]. by apply Hb.
  - exists c. by rewrite list_lookup_alter_ne.
Qed.

(** A broker, the list of the workers and possibly its slot change. *)
Lemma inv_broker d (w : nat) i f g b l : da_heap d !! w = Some b -> of_slot i b -> br_worker (f b) = br_worker b -> br_pid (f b) = br_pid b -> (named_broker b -> named_broker (f b)) ->
  (forall s, da_slots d !! i = Some s -> channel_ok (da_heap d) i s -> channel_ok (alter f w (da_heap d)) i (g s)) ->
  (forall pid v, (pid, v) ∈ l -> (pid, v) ∈ da_workers d /\ (v = w -> before_removal (br_watch b) -> before_removal (br_watch (f b)))) ->
  daemon_inv d -> daemon_inv (on_broker w f (on_slot i g d) <| da_workers := l |>).
Proof.
  intros Hw Hi Hf Hp Hn Hs Hl [H1 H2 H3 H4 H5]. assert (forall v c, alter f w (da_heap d) !! v = Some c -> exists c0, da_heap d !! v = Some c0 /\ br_worker c = br_worker c0) as Hsame.
  { intros v c (b0 & H0 & [[-> ->]|[Hv ->]])%alter_broker; [simplify_eq|]; eauto. }
  split; cbn.
  - intros j s. destruct (decide (i = j)) as [->|Hj].
    + rewrite list_lookup_alter_eq. intros (s0 & E & ->)%fmap_Some. auto.
    + rewrite list_lookup_alter_ne by done. intros E. eapply slot_ok_other; eauto. intros ?. by destruct Hj; eapply of_slot_inj.
  - intros v c (c0 & Hv & E)%Hsame. unfold of_slot. rewrite E, length_alter. by eapply H2.
  - intros v c v' c' (c0 & Hv & E)%Hsame (c0' & Hv' & E')%Hsame. rewrite E, E'. by eapply H3.
  - intros v c (b0 & H0 & [[-> ->]|[Hv ->]])%alter_broker; [simplify_eq; apply Hn|]; by eapply H4.
  - intros pid v [Hv Hr]%Hl. eapply listed_change; eauto.
Qed.

Lemma on_slot_same d i (g : slot -> slot) : (forall s, g s = s) -> on_slot i g d = d.
Proof.
  intros H. unfold on_slot. destruct d. cbn. f_equal. apply list_eq. intros j. destruct (decide (i = j)) as [->|?]; [|by rewrite list_lookup_alter_ne].
  rewrite list_lookup_alter_eq. destruct (_ !! j); cbn; by rewrite ?H.
Qed.

Lemma inv_minor d (w : nat) f b : da_heap d !! w = Some b -> minor f b -> daemon_inv d -> daemon_inv (on_broker w f d).
Proof.
  intros Hw Hm Hd. pose proof Hm as (Hf & Hp & Hb & Hn & _ & _). destruct (di_brokers d Hd w b Hw) as (i & Hi & _).
  pose proof (inv_broker d w i f id b (da_workers d) Hw Hi Hf Hp Hn) as H. rewrite (on_slot_same d i id) in H by done.
  apply H; [|by intros; split|done]. intros s Hs Hok. by eapply slot_ok_minor.
Qed.

Lemma minor_register t b : br_register b <> NotReporting -> t <> NotReporting -> minor (fun b => b <| br_register := t |>) b.
Proof.
  intros Hb Ht. split_and!; try done.
  - intros [[? _]|?]; [done|by right].
  - intros w s H. destruct H as [? ? [? _]|? ? [? _]| | |]; try done; [by apply hold_handed|by apply hold_watched|by apply hold_cleanup].
Qed.

Lemma minor_reaped b : br_watch b = Reaping -> minor (fun b => b <| br_watch := Empty |>) b.
Proof.
  intros Hb. split_and!; try done.
  - intros _. right. by right.
  - intros [(_ & ? & _)|?]; congruence.
  - intros w s H. destruct H as [? ? (_ & ? & _)|? ? (_ & ? & _)| |? ? ? [?|[?|?]]|? ? ? ? ? [?|[?|[?|?]]]]; try congruence. apply hold_watched; auto.
Qed.

Lemma minor_cleanup t b : br_register b <> NotReporting -> in_cleanup (br_watch b) -> in_cleanup t -> minor (fun b => b <| br_watch := t |>) b.
Proof.
  intros Hr Hb Ht. split_and!; try done.
  - intros H. exfalso. unfold before_removal, in_cleanup in *. intuition congruence.
  - intros [[? _]|?]; [done|]. exfalso. unfold in_cleanup in Hb. intuition congruence.
  - intros w s H. destruct H as [? ? [? _]|? ? [? _]| | |]; try done; [..|by apply hold_cleanup]; unfold in_cleanup in Hb; intuition congruence.
Qed.

Lemma minor_marked connection_id session assertion b : br_register b <> NotReporting -> before_removal (br_watch b) ->
  minor (fun b => b <| br_connection_id := Some connection_id |> <| br_control_session := Some session |> <| br_registered := true |> <| br_register := Marked assertion |>) b.
Proof.
  intros Hr Hb. split_and!; try done.
  - intros _ _. by eexists.
  - intros [[? _]|?]; [done|by right].
  - intros w s H. destruct H as [? ? [? _]|? ? [? _]| |? ? ? Hw|]; try done; [by apply hold_handed|apply hold_watched; try done|by apply hold_cleanup].
    cbn. destruct Hw as [?|[?|E]]; [by left|by right; left|]. unfold before_removal in Hb. rewrite E in Hb. intuition congruence.
Qed.

(** ** The steps *)

Lemma accept_inv i d d' es : daemon_inv d -> accept i d = Some (d', es) -> daemon_inv d'.
Proof.
  intros Hd H. unfold accept in H. apply bind_Some in H as (s & Hs & H). destruct (sl_thread s) eqn:Et; try done.
  case_bool_decide as Ef; [by injection H as <- <-|]. case_bool_decide as Ew; [by injection H as <- <-|]. injection H as <- _.
  apply inv_slot; [|done]. intros s0 Hs0 Hok. simplify_eq. destruct Hok as [(h & Hh & Ho) Hg].
  assert (h = None) as ->. { destruct h as [w|]; [|done]. destruct Hh as (b & _ & _ & H). exfalso. destruct H; congruence. }
  split.
  - exists None. split; [|done]. by apply idle_authorizing.
  - intros w b Hw Hb. pose proof (Hg w b Hw Hb) as H. unfold floor in *. cbn. rewrite Et in H. lia.
Qed.

(** The thread of an idle slot goes on. *)
Lemma idle_goes_on d i s f : da_slots d !! i = Some s -> idle_slot s -> (forall w b, ~ holds_slot w b s) -> idle_slot (f s) -> floor s <= floor (f s) ->
  daemon_inv d -> daemon_inv (on_slot i f d).
Proof. intros Hs Hi Hh Hf Hg Hd. apply inv_slot; [|done]. intros s0 Hs0 Hok. simplify_eq. apply (slot_ok_slot _ _ s); try done; [|by right]. intros w b H. by destruct (Hh w b). Qed.

Definition waits (t : serving) : Prop := match t with Authorizing _ | Starting _ _ _ | Failing _ | Denying => True | _ => False end.
Lemma waits_idle d i s : daemon_inv d -> da_slots d !! i = Some s -> waits (sl_thread s) -> idle_slot s /\ forall w b, ~ holds_slot w b s.
Proof.
  intros Hd Hs Ht. assert (forall w b, ~ holds_slot w b s) as Hn by (intros w b []; by rewrite H in Ht). split; [|done].
  destruct (so_holder _ _ _ (di_slots d Hd i s Hs)) as (h & Hh & _). destruct h as [w|]; [|done]. destruct Hh as (b & _ & _ & H). by destruct (Hn w b).
Qed.

Lemma authorize_inv i packet before cgroup after d d' es : daemon_inv d -> authorize i packet before cgroup after d = Some (d', es) -> daemon_inv d'.
Proof.
  intros Hd H. unfold authorize in H. apply bind_Some in H as (s & Hs & H). destruct (sl_thread s) eqn:Et; try done.
  destruct (waits_idle d i s Hd Hs) as [Hi Hn]; [by rewrite Et|]. assert (sl_worker s = None /\ generation = sl_generation s) as [Ew ->].
  { destruct Hi; rewrite Et in *; simplify_eq; done. }
  destruct (_ : result _) as [|[service evidence]]; injection H as <- _; eapply idle_goes_on; try done.
  - by apply idle_denying.
  - unfold floor. rewrite Et. cbn. lia.
  - by eapply idle_starting.
  - unfold floor. by rewrite Et.
Qed.

(** The object of a new worker is in no slot but its own. *)
Lemma lookup_new (heap : list broker) b v c : (heap ++ [b]) !! v = Some c -> heap !! v = Some c \/ (v = length heap /\ c = b).
Proof. intros [?|[? E]]%lookup_app_Some; [by left|]. right. apply list_lookup_singleton_Some in E as [? <-]. split; [lia|done]. Qed.

Lemma slot_ok_new heap i s b : ~ of_slot i b -> channel_ok heap i s -> channel_ok (heap ++ [b]) i s.
Proof.
  intros Hb [(h & Hh & Ho) Hg]. split.
  - exists h. split.
    + destruct h as [w|]; [|done]. destruct Hh as (c & Hw & ? & ?). exists c. split; [by apply lookup_app_l_Some|done].
    + intros v c [Hv|[_ ->]]%lookup_new Hc; [by eapply Ho|done].
  - intros v c [Hv|[_ ->]]%lookup_new Hc; [by eapply Hg|done].
Qed.

Lemma launch_new_inv d i s g service evidence b pid : daemon_inv d -> da_slots d !! i = Some s -> sl_thread s = Starting g service evidence ->
  of_slot i b -> wk_generation (br_worker b) = g -> unstarted b -> br_pid b = pid ->
  daemon_inv (on_slot i (fun s => s <| sl_thread := Launched (length (da_heap d)) |>) d <| da_heap ::= fun l => l ++ [b] |> <| da_workers ::= fun l => l ++ [(pid, length (da_heap d))] |>).
Proof.
  intros Hd Hs Et Hb Hbg Hu Hp. destruct (waits_idle d i s Hd Hs) as [Hi Hn]; [by rewrite Et|].
  assert (sl_worker s = None /\ g = sl_generation s) as [Ew ->] by (destruct Hi; rewrite Et in *; simplify_eq; done).
  assert (forall v c, da_heap d !! v = Some c -> of_slot i c -> wk_generation (br_worker c) < sl_generation s) as Hlt.
  { intros v c Hv Hc. pose proof (so_floor _ _ _ (di_slots d Hd i s Hs) v c Hv Hc) as H. unfold floor in H. rewrite Et in H. lia. }
  split; cbn.
  - intros j t. destruct (decide (i = j)) as [<-|Hj].
    + rewrite list_lookup_alter_eq, Hs. intros [= <-]. destruct (di_slots d Hd i s Hs) as [(h & Hh & Ho) _]. split.
      * exists (Some (length (da_heap d))). split; [exists b; rewrite list_lookup_middle by done; split; [done|]; split; [by split|by apply hold_launched]|].
        intros v c [Hv|[-> ->]]%lookup_new Hc; [|by left]. right. destruct (Ho v c Hv Hc) as [->|?]; [|done]. destruct Hh as (? & _ & _ & Hh). by destruct (Hn v x).
      * intros v c [Hv|[-> ->]]%lookup_new Hc; unfold floor; cbn; [specialize (Hlt v c Hv Hc); lia|lia].
    + rewrite list_lookup_alter_ne by done. intros Ht. apply slot_ok_new; [|by apply (di_slots d Hd)]. intros ?. by destruct Hj; eapply of_slot_inj.
  - rewrite length_alter. intros v c [Hv|[-> ->]]%lookup_new; [by apply (di_brokers d Hd v c)|]. exists i. split; [done|]. by eapply lookup_lt_Some.
  - intros v c v' c' [Hv|[-> ->]]%lookup_new [Hv'|[-> ->]]%lookup_new Hlt' E; [by apply (di_rising d Hd v c v' c')| |apply lookup_lt_Some in Hv'; lia|lia].
    rewrite Hbg. apply (Hlt v c Hv). unfold of_slot in *. congruence.
  - intros v c [Hv|[-> ->]]%lookup_new; [by apply (di_named d Hd v c)|]. intros E. destruct Hu as (_ & _ & ?). congruence.
  - intros p v [Hv| [= -> ->]%list_elem_of_singleton]%elem_of_app.
    + destruct (di_workers d Hd p v Hv) as (c & Hc & ? & ?). exists c. split; [by apply lookup_app_l_Some|done].
    + exists b. rewrite list_lookup_middle by done. split; [done|]. split; [done|]. left. apply Hu.
Qed.

Lemma launch_inv i io d d' es : daemon_inv d -> launch i io d = Some (d', es) -> daemon_inv d'.
Proof.
  intros Hd H. unfold launch in H. apply bind_Some in H as (s & Hs & H). destruct (sl_thread s) as [| |g service evidence| | | | |] eqn:Et; try done.
  destruct (waits_idle d i s Hd Hs) as [Hi Hn]; [by rewrite Et|].
  assert (forall t, (t = Denying \/ exists pid, t = Failing pid) -> daemon_inv (on_slot i (fun s => s <| sl_thread := t |>) d)) as Hgo.
  { intros t Ht. eapply idle_goes_on; try done.
    - destruct Ht as [->|[pid ->]]; [by apply idle_denying|by eapply idle_failing].
    - unfold floor. rewrite Et. destruct Ht as [->|[pid ->]]; cbn; lia. }
  destruct (cgroup_create _ _ _) as [|leaf]; [injection H as <- _; apply Hgo; by left|].
  destruct (li_peer io) as [p|]; [|injection H as <- _; apply Hgo; right; by eexists].
  destruct (bootstrap _ _ _) as [|started]; [injection H as <- _; apply Hgo; right; by eexists|].
  case_bool_decide; injection H as <- _; [apply Hgo; right; by eexists|]. by eapply (launch_new_inv d i s g service evidence).
Qed.

(** The thread of a slot names the broker that holds it. *)
Lemma thread_names d i s w : daemon_inv d -> da_slots d !! i = Some s -> sl_thread s = Launched w \/ sl_thread s = Assigned w \/ sl_thread s = HandedOver w ->
  (forall h, slot_holder (da_heap d) i s h -> h = Some w) /\ exists b, da_heap d !! w = Some b /\ of_slot i b /\ holds_slot w b s.
Proof.
  intros Hd Hs Ht. assert (forall h, slot_holder (da_heap d) i s h -> h = Some w) as Hu.
  { intros [v|]; [intros (b & _ & _ & [E|E|E|E|E])|intros [E|E|? ? E|? E|E]]; rewrite E in Ht; intuition congruence. }
  split; [done|]. destruct (so_holder _ _ _ (di_slots d Hd i s Hs)) as (h & Hh & _). rewrite (Hu h Hh) in Hh. destruct Hh as (b & ? & [? _] & ?). eauto.
Qed.

Lemma assign_inv i d d' es : daemon_inv d -> assign i d = Some (d', es) -> daemon_inv d'.
Proof.
  intros Hd H. unfold assign in H. apply bind_Some in H as (s & Hs & H). destruct (sl_thread s) eqn:Et; try done. injection H as <- _.
  apply inv_slot; [|done]. intros s0 Hs0 Hok. simplify_eq. apply (slot_ok_slot _ _ s); [done|..].
  - intros [E|E|? ? E|? E|E]; congruence.
  - intros v b [E ? ?|E|E|E|E]; rewrite Et in E; simplify_eq. by apply hold_assigned.
  - unfold floor. rewrite Et. cbn. lia.
  - by left.
Qed.

Lemma holding_unstarted w b s : sl_thread s = Assigned w -> holds_slot w b s -> unstarted b /\ sl_worker s = Some w.
Proof. intros Et [E ? ?|E|E|E|E]; rewrite Et in E; simplify_eq; done. Qed.

Lemma hand_inv i told d d' es : daemon_inv d -> hand i told d = Some (d', es) -> daemon_inv d'.
Proof.
  intros Hd H. unfold hand in H. apply bind_Some in H as (s & Hs & H). destruct (sl_thread s) as [| | | |w| | |] eqn:Et; try done.
  apply bind_Some in H as (b & Hw & H). destruct (thread_names d i s w Hd Hs) as (Hu & c0 & Hb & Hi & Hh); [auto|]. simplify_eq.
  destruct (holding_unstarted w b s Et Hh) as [Hun Ew]. destruct told; injection H as <- _.
  - eapply (inv_broker d w i _ _ b (da_workers d)); try done. intros s0 Hs0 Hok. simplify_eq. eapply slot_ok_holder; try done; [by intros; apply Hu| |].
    + left. apply hold_handed; try done. apply Hun.
    + unfold floor. rewrite Et. cbn. lia.
  - apply (inv_fewer (on_slot i _ d)); [intros x; apply pop_incl|]. apply inv_slot; [|done]. intros s0 Hs0 [(h & Hho & Ho) Hg]. simplify_eq.
    rewrite (Hu h Hho) in Ho. split.
    + exists None. split; [by eapply idle_failing|]. intros v c Hv Hc. right. destruct (Ho v c Hv Hc) as [[= <-]|?]; [|done]. simplify_eq. by left.
    + intros v c Hv Hc. specialize (Hg v c Hv Hc). unfold floor in *. by rewrite Et in Hg.
Qed.

Lemma launched_inv i d d' es : daemon_inv d -> launched i d = Some (d', es) -> daemon_inv d'.
Proof.
  intros Hd H. unfold launched in H. apply bind_Some in H as (s & Hs & H). destruct (sl_thread s) as [| | | | |w| |] eqn:Et; try done. injection H as <- _.
  destruct (thread_names d i s w Hd Hs) as (Hu & b & Hb & Hi & Hh); [auto|].
  assert (sl_worker s = Some w /\ br_register b <> NotReporting /\ br_watch b = NotWatched) as (Ew & Hr & Hw).
  { destruct Hh as [E|E|E|E|E]; rewrite Et in E; simplify_eq; done. }
  eapply (inv_broker d w i _ _ b (da_workers d)); try done.
  - intros s0 Hs0 Hok. simplify_eq. eapply slot_ok_holder; try done; [by intros; apply Hu| |].
    + left. apply hold_watched; auto.
    + unfold floor. rewrite Et. cbn. lia.
  - intros pid v Hv. split; [done|]. intros _ _. right. by left.
Qed.

Lemma launch_failed_inv i d d' es : daemon_inv d -> launch_failed i d = Some (d', es) -> daemon_inv d'.
Proof.
  intros Hd H. unfold launch_failed in H. apply bind_Some in H as (s & Hs & H). destruct (sl_thread s) eqn:Et; try done. injection H as <- _.
  destruct (waits_idle d i s Hd Hs) as [Hi Hn]; [by rewrite Et|].
  eapply idle_goes_on; [exact Hs|done|done|by apply idle_denying|unfold floor; by rewrite Et|].
  apply (inv_fewer d); [|done]. intros x. destruct (1 <? pid); [apply pop_incl|done].
Qed.

Lemma deny_inv i d d' es : daemon_inv d -> deny i d = Some (d', es) -> daemon_inv d'.
Proof.
  intros Hd H. unfold deny in H. apply bind_Some in H as (s & Hs & H). destruct (sl_thread s) eqn:Et; try done. injection H as <- _.
  destruct (waits_idle d i s Hd Hs) as [Hi Hn]; [by rewrite Et|]. eapply idle_goes_on; try done; [by apply idle_accepting|]. unfold floor. by rewrite Et.
Qed.

(** Readiness leaves the thread, the worker and a pending cleanup alone. *)
Lemma ready_slot_ok heap i ready s : channel_ok heap i s -> channel_ok heap i (ready_slot ready s).
Proof.
  intros H. assert (sl_thread (ready_slot ready s) = sl_thread s /\ sl_worker (ready_slot ready s) = sl_worker s /\ sl_generation (ready_slot ready s) = sl_generation s /\
    (sl_state s = CLEANUP_WAIT -> sl_state (ready_slot ready s) = CLEANUP_WAIT)) as (E1 & E2 & E3 & E4).
  { unfold ready_slot. case_bool_decide as Eu; case_bool_decide; case_bool_decide as Ec; destruct ready; cbn; split_and!; try done; congruence. }
  apply (slot_ok_slot _ _ s); [done|..].
  - intros [? ?|? ?|? ? ? ?|? ?|?]; [apply idle_accepting|apply idle_authorizing|eapply idle_starting|eapply idle_failing|apply idle_denying]; by rewrite ?E1, ?E2, ?E3.
  - intros w b [? ? ?|? ? ?|? ? ? ?|? ? ? ?|? ? ? ? ? ?];
      [apply hold_launched|apply hold_assigned|apply hold_handed|apply hold_watched|apply hold_cleanup]; try done; rewrite ?E1, ?E2; auto.
  - unfold floor. by rewrite E1, E3.
  - by left.
Qed.

Lemma set_ready_inv d d' es : daemon_inv d -> set_ready_slot d = Some (d', es) -> daemon_inv d'.
Proof.
  intros Hd H. unfold set_ready_slot in H. destruct (da_setting d) as [[[local ready] i]|]; [|done]. destruct (da_slots d !! i) eqn:Ei.
  - injection H as <- _. eapply (inv_same (on_slot i (ready_slot ready) d)); try done. apply inv_slot; [|done]. intros s0 Hs0. apply ready_slot_ok.
  - injection H as <- _. cbn [da_loop]. destruct (da_loop _); try destruct local; by apply (inv_same d).
Qed.

(** ** The steps of the threads that follow a broker *)

Lemma holder_of d w b : daemon_inv d -> da_heap d !! w = Some b -> ~ retired_broker b ->
  exists i s, of_slot i b /\ da_slots d !! i = Some s /\ holds_slot w b s.
Proof.
  intros Hd Hw Hr. destruct (di_brokers d Hd w b Hw) as (i & Hi & Hl). destruct (lookup_lt_is_Some_2 _ _ Hl) as [s Hs]. exists i, s. split; [done|]. split; [done|].
  destruct (so_holder _ _ _ (di_slots d Hd i s Hs)) as (h & Hh & Ho). destruct (Ho w b Hw Hi) as [->|?]; [|done]. destruct Hh as (c & Hc & _ & ?). by simplify_eq.
Qed.

Lemma register_to_inv d w b t : daemon_inv d -> da_heap d !! w = Some b -> br_register b <> NotReporting -> t <> NotReporting -> daemon_inv (register_to w t d).
Proof. intros Hd Hw Hb Ht. eapply inv_minor; [done|by apply minor_register|done]. Qed.

Lemma receive_report_inv w packet d d' es : daemon_inv d -> receive_report w packet d = Some (d', es) -> daemon_inv d'.
Proof.
  intros Hd H. unfold receive_report in H. apply bind_Some in H as (b & Hw & H). destruct (br_register b) eqn:Er; try done. injection H as <- _.
  eapply register_to_inv; [done..|by rewrite Er|]. by destruct (parse_report _ _).
Qed.

Lemma observe_inv cluster node incarnation w attempts d d' es : daemon_inv d -> observe cluster node incarnation w attempts d = Some (d', es) -> daemon_inv d'.
Proof.
  intros Hd H. unfold observe in H. apply bind_Some in H as (b & Hw & H). destruct (br_register b) eqn:Er; try done. apply bind_Some in H as (found & _ & H).
  injection H as <- _. eapply register_to_inv; [done..|by rewrite Er|]. by destruct found.
Qed.

Lemma seal_worker_inv mac w d d' es : daemon_inv d -> seal_worker mac w d = Some (d', es) -> daemon_inv d'.
Proof.
  intros Hd H. unfold seal_worker in H. apply bind_Some in H as (b & Hw & H). destruct (br_register b) eqn:Er; try done.
  injection H as <- _. eapply register_to_inv; [done..|by rewrite Er|]. by destruct (seal_record _ _ _) as [|[? ?]].
Qed.

Lemma mark_registered_inv w stat d d' es : daemon_inv d -> mark_registered w stat d = Some (d', es) -> daemon_inv d'.
Proof.
  intros Hd H. unfold mark_registered in H. apply bind_Some in H as (b & Hw & H). destruct (br_register b) eqn:Er; try done.
  case_bool_decide as Eg; [|injection H as <- _; by eapply register_to_inv; [done..|rewrite Er|]]. case_bool_decide; cbn [andb] in H;
    injection H as <- _; [|by eapply register_to_inv; [done..|rewrite Er|]].
  apply get_elem, (di_workers d Hd) in Eg as (c & Hc & _ & Hb). simplify_eq. eapply inv_minor; [done|apply minor_marked; [by rewrite Er|done]|done].
Qed.

Lemma send_assertion_inv w sent d d' es : daemon_inv d -> send_assertion w sent d = Some (d', es) -> daemon_inv d'.
Proof.
  intros Hd H. unfold send_assertion in H. apply bind_Some in H as (b & Hw & H). destruct (br_register b) eqn:Er; try done.
  destruct sent; injection H as <- _; eapply register_to_inv; try done; by rewrite Er.
Qed.

Lemma reap_inv w populated d d' es : daemon_inv d -> reap w populated d = Some (d', es) -> daemon_inv d'.
Proof.
  intros Hd H. unfold reap in H. apply bind_Some in H as (b & Hw & H). destruct (br_watch b) eqn:Er; try done.
  destruct populated; injection H as <- _; [done|]. eapply inv_minor; [done|by apply minor_reaped|done].
Qed.

Lemma remove_worker_inv w d d' es : daemon_inv d -> remove_worker w d = Some (d', es) -> daemon_inv d'.
Proof.
  intros Hd H. unfold remove_worker in H. apply bind_Some in H as (b & Hw & H). destruct (br_watch b) eqn:Er; try done. injection H as <- _.
  assert (~ retired_broker b) as Hr by (unfold retired_broker, unstarted; intuition congruence). destruct (holder_of d w b Hd Hw Hr) as (i & s & Hi & Hs & Hh).
  assert (sl_thread s = Accepting /\ sl_worker s = Some w /\ br_register b <> NotReporting) as (Et & Ew & Hre).
  { destruct Hh as [? ? (_ & ? & _)|? ? (_ & ? & _)| | |? ? ? ? ? Hc]; try congruence; [done|]. unfold in_cleanup in Hc. intuition congruence. }
  assert (forall x : broker, br_worker (x <| br_watch := Removed (br_registered b) |>) = br_worker x) as Ef by done.
  pose proof (inv_broker d w i (fun x : broker => x <| br_watch := Removed (br_registered b) |>) id b (workers_pop (br_pid b) (da_workers d)) Hw Hi (Ef b)) as H.
  rewrite (on_slot_same d i id) in H by done. apply H; [done..| | |done].
  - intros s0 Hs0 Hok. simplify_eq. eapply slot_ok_holder; try done. left. apply hold_watched; auto.
  - intros pid v Hv. split; [by eapply pop_incl|]. intros -> _. pose proof (pop_incl _ _ _ Hv) as Hv'. apply (di_workers d Hd) in Hv' as (c & Hc & <- & _). simplify_eq.
    by destruct (pop_not (br_pid b) w (da_workers d)).
Qed.

Lemma release_inv w d d' es : daemon_inv d -> release w d = Some (d', es) -> daemon_inv d'.
Proof.
  intros Hd H. unfold release in H. apply bind_Some in H as (b & Hw & H). destruct (br_watch b) as [| | |registered| | | | |] eqn:Er; try done. injection H as <- _.
  assert (~ retired_broker b) as Hr by (unfold retired_broker, unstarted; intuition congruence). destruct (holder_of d w b Hd Hw Hr) as (i & s & Hi & Hs & Hh).
  assert (sl_thread s = Accepting /\ sl_worker s = Some w /\ br_register b <> NotReporting /\ registered = br_registered b) as (Et & Ew & Hre & ->).
  { destruct Hh as [? ? (_ & ? & _)|? ? (_ & ? & _)| |? ? ? [?|[?|?]]|? ? ? ? ? Hc]; try congruence; [by split_and!; congruence|]. unfold in_cleanup in Hc. intuition congruence. }
  unfold of_slot in Hi. rewrite Hi, Nat2Z.id. eapply (inv_broker d w i _ _ b (da_workers d)); try done.
  - intros s0 Hs0 Hok. simplify_eq. eapply slot_ok_holder; try done.
    + unfold release_slot. rewrite bool_decide_true by done. pose proof (di_named d Hd w b Hw) as Hn. unfold named_broker in Hn. destruct (br_registered b) eqn:Eb; cbn [negb].
      * left. destruct Hn as [cid ->]; [done|]. apply hold_cleanup; try done. by left.
      * right. split; [by apply idle_accepting|]. by right.
    + unfold release_slot. case_bool_decide; [|lia]. unfold floor. cbn. rewrite Et. lia.
    + unfold release_slot. by case_bool_decide.
  - intros pid v Hv. split; [done|]. intros -> Hbr. exfalso. unfold before_removal in Hbr. rewrite Er in Hbr. intuition congruence.
Qed.

Lemma ask_same operation connection_id expected delivered d r d' es : ask_dpu operation connection_id expected delivered d = (r, d', es) ->
  da_slots d' = da_slots d /\ da_heap d' = da_heap d /\ da_workers d' = da_workers d.
Proof. unfold ask_dpu. destruct (request _ _ _ _ _) as [[? ?] ?]. by intros [= <- <- <-]. Qed.

Lemma in_cleanup_held d w b : daemon_inv d -> da_heap d !! w = Some b -> in_cleanup (br_watch b) \/ (exists c, br_watch b = Cleaned c) ->
  exists i s, of_slot i b /\ da_slots d !! i = Some s /\ sl_thread s = Accepting /\ sl_worker s = None /\ sl_state s = CLEANUP_WAIT /\ in_cleanup (br_watch b) /\ br_register b <> NotReporting.
Proof.
  intros Hd Hw Hc. assert (~ retired_broker b) as Hr. { unfold retired_broker, unstarted, in_cleanup in *. intros [(_ & E & _)|E]; rewrite E in Hc; destruct Hc as [?|[? ?]]; intuition congruence. }
  destruct (holder_of d w b Hd Hw Hr) as (i & s & Hi & Hs & Hh). exists i, s. split; [done|]. split; [done|].
  destruct Hh as [? ? (_ & E & _)|? ? (_ & E & _)|? ? ? E|? ? ? [E|[E|E]]|]; [..|done]; exfalso; rewrite E in Hc; unfold in_cleanup in Hc; destruct Hc as [?|[? ?]]; intuition congruence.
Qed.

Lemma cleanup_step d d1 w b t : daemon_inv d -> da_heap d !! w = Some b -> in_cleanup (br_watch b) -> in_cleanup t ->
  da_slots d1 = da_slots d /\ da_heap d1 = da_heap d /\ da_workers d1 = da_workers d -> daemon_inv (watch_to w t d1).
Proof.
  intros Hd Hw Hc Ht (E1 & E2 & E3). destruct (in_cleanup_held d w b Hd Hw (or_introl Hc)) as (i & s & _ & _ & _ & _ & _ & _ & Hre).
  eapply inv_minor; [by rewrite E2|by apply minor_cleanup|by apply (inv_same d)].
Qed.

Lemma unregister_worker_inv w delivered d d' es : daemon_inv d -> unregister_worker w delivered d = Some (d', es) -> daemon_inv d'.
Proof.
  intros Hd H. unfold unregister_worker in H. apply bind_Some in H as (b & Hw & H). destruct (br_watch b) eqn:Er; try done.
  destruct (br_connection_id b) as [cid|]; [|done]. destruct (ask_dpu _ _ _ _ _) as [[r d1] es1] eqn:Ea. injection H as <- _.
  eapply cleanup_step; [done..|rewrite Er; by left| |by eapply ask_same]. unfold in_cleanup. destruct r as [[]|]; auto.
Qed.

Lemma query_worker_inv w delivered d d' es : daemon_inv d -> query_worker w delivered d = Some (d', es) -> daemon_inv d'.
Proof.
  intros Hd H. unfold query_worker in H. apply bind_Some in H as (b & Hw & H). destruct (br_watch b) eqn:Er; try done.
  destruct (br_connection_id b) as [cid|]; [|done]. destruct (ask_dpu _ _ _ _ _) as [[r d1] es1] eqn:Ea. injection H as <- _.
  eapply cleanup_step; [done..|rewrite Er; by right; left| |by eapply ask_same]. unfold in_cleanup. destruct r as [[]|[]]; auto.
Qed.

Lemma reopen_inv w d d' es : daemon_inv d -> reopen w d = Some (d', es) -> daemon_inv d'.
Proof.
  intros Hd H. unfold reopen in H. apply bind_Some in H as (b & Hw & H). destruct (br_watch b) as [| | | | | |c| |] eqn:Er; try done. injection H as <- _.
  destruct (in_cleanup_held d w b Hd Hw) as (i & s & Hi & Hs & Et & Ew & Es & Hc & Hre); [right; eauto|]. rewrite Er in Hc.
  assert (c = true) as -> by (unfold in_cleanup in Hc; intuition congruence).
  assert (~ retired_broker b) as Hr by (unfold retired_broker, unstarted; intuition congruence).
  pose proof Hi as Hi'. unfold of_slot in Hi'. rewrite Hi', Nat2Z.id. eapply (inv_broker d w i _ _ b (da_workers d)); try done.
  - intros s0 Hs0 Hok. simplify_eq. eapply slot_ok_holder; try done; unfold reopen_slot; rewrite Ew, Es; cbn.
    + right. split; [by apply idle_accepting|]. by right.
    + rewrite bool_decide_true by done. unfold floor. cbn. rewrite Et. lia.
    + by case_bool_decide.
  - intros pid v Hv. split; [done|]. intros -> Hbr. exfalso. unfold before_removal in Hbr. rewrite Er in Hbr. intuition congruence.
Qed.

(** ** All steps *)

Lemma loop_check_inv node delivered d d' es : daemon_inv d -> loop_check node delivered d = Some (d', es) -> daemon_inv d'.
Proof.
  intros Hd H. unfold loop_check in H. destruct (da_loop d) as [| | | | |s [|w ws]| | |]; try done; [by injection H as <- _; apply (inv_same d)|].
  apply bind_Some in H as (b & _ & H). destruct (br_connection_id b) as [cid|]; [|by injection H as <- _; apply (inv_same d)].
  destruct (resolve_worker _ _ _ _ _); [|by injection H as <- _; apply (inv_same d)]. destruct (ask_dpu _ _ _ _ _) as [[r d1] es1] eqn:Ea. injection H as <- _.
  apply ask_same in Ea as (E1 & E2 & E3). by apply (inv_same d).
Qed.

Lemma loop_heartbeat_inv delivered d d' es : daemon_inv d -> loop_heartbeat delivered d = Some (d', es) -> daemon_inv d'.
Proof.
  intros Hd H. unfold loop_heartbeat in H. destruct (da_loop d); try done. destruct (ask_dpu _ _ _ _ _) as [[r d1] es1] eqn:Ea. injection H as <- _.
  apply ask_same in Ea as (E1 & E2 & E3). destruct r as [|[]]; by apply (inv_same d).
Qed.

Lemma daemon_step_inv mac cluster node incarnation a d d' es : daemon_inv d -> daemon_step mac cluster node incarnation a d = Some (d', es) -> daemon_inv d'.
Proof.
  intros Hd H. destruct a; cbn [daemon_step] in H;
    [by eapply accept_inv|by eapply authorize_inv|by eapply launch_inv|by eapply assign_inv|by eapply hand_inv|by eapply launched_inv|by eapply launch_failed_inv
    |by eapply deny_inv| |by eapply set_ready_inv| |by eapply loop_heartbeat_inv| | | |by eapply loop_check_inv| | |by eapply receive_report_inv|by eapply observe_inv
    |by eapply seal_worker_inv|by eapply mark_registered_inv|by eapply send_assertion_inv|by eapply reap_inv|by eapply remove_worker_inv|by eapply release_inv
    |by eapply unregister_worker_inv|by eapply query_worker_inv|by eapply reopen_inv].
  - unfold feed_ready in H. destruct (da_setting d); [done|]. injection H as <- _. by apply (inv_same d).
  - unfold loop_connect in H. destruct (da_loop d); try done. destruct (local_connect _ _). injection H as <- _. by apply (inv_same d).
  - unfold loop_failed in H. destruct (da_loop d); try done. injection H as <- _. by apply (inv_same d).
  - unfold loop_set in H. destruct (da_loop d); try done. destruct (da_setting d); [done|]. injection H as <- _. by apply (inv_same d).
  - unfold loop_observe in H. destruct (da_loop d); try done. injection H as <- _. by apply (inv_same d).
  - unfold loop_grace_over in H. destruct (da_loop d); try done. injection H as <- _. by apply (inv_same d).
  - unfold loop_terminated in H. destruct (da_loop d); try done. destruct (existsb _ _); injection H as <- _; by apply (inv_same d).
Qed.

Lemma daemon_init_inv count d : daemon_init count = Some d -> daemon_inv d.
Proof.
  unfold daemon_init. destruct (_ && _); [|done]. intros [= <-]. split; cbn; try done.
  - intros i s Hs. apply list_elem_of_lookup_2, list_elem_of_In, repeat_spec in Hs as ->. split; [|done]. exists None. split; [by apply idle_accepting|done].
  - by intros pid w ?%elem_of_nil.
Qed.
