(* ===== verification/DaemonTrace.v ===== *)
(** * Channel slots: what the runs show

    The events of a run: when a slot is admitted to again, every broker that was told
    to go on before has left its cgroup, and if it was registered the DPU has since
    answered that the connection is cleaned up. *)

From S2P Require Import Prelude Text PeerIdentity WorkloadIdentity WorkloadProofs LocalControl LocalControlProofs Registration PyText NodeIdentity NodeIdentityProofs LocalClient DaemonSlots DaemonInv.

(** A request for the state of a connection. *)
Definition status_request (connection_id r : list byte) : Prop := req_operation r = DMESH_LOCAL_STATUS /\ req_connection_id r = connection_id.

Definition pending_id (t : registering) : option (list byte) :=
  match t with Reported c | Observed c _ | Sealed c _ _ => Some c | _ => None end.
Definition before_mark (t : registering) : Prop := match t with Marked _ | ReportDone _ => False | _ => True end.
Definition emptied_yet (t : watching) : Prop := t <> NotWatched /\ t <> Reaping.
Definition watch_ended (t : watching) : Prop := t = Cleaned true \/ t = WatchDone.

(** What the events say of a broker. *)
Record traced (tr : list daemon_event) (w : nat) (b : broker) : Prop := {
  tr_handed : forall i, Handed i w ∈ tr -> of_slot i b /\ br_register b <> NotReporting;
  tr_emptied : emptied_yet (br_watch b) -> Emptied w ∈ tr;
  tr_marked : forall c, Registered w c ∈ tr -> br_registered b = true /\ br_connection_id b = Some c;
  tr_registered : br_registered b = true -> exists c, br_connection_id b = Some c /\ length c = 32%nat /\ Registered w c ∈ tr;
  tr_pending : forall c, pending_id (br_register b) = Some c -> length c = 32%nat;
  tr_unmarked : before_mark (br_register b) -> br_registered b = false;
  tr_cleaned : br_registered b = true -> watch_ended (br_watch b) -> forall c, br_connection_id b = Some c ->
    exists r delivered, status_request c r /\ [Registered w c; Replied r delivered 0] `sublist_of` tr;
  tr_current : before_removal (br_watch b) -> forall i g, ~ [Handed i w; Accepted i g] `sublist_of` tr }.

(** A slot is admitted to again only after its brokers are gone. *)
Definition reuse_safe (tr : list daemon_event) : Prop :=
  forall i g w, [Handed i w; Accepted i g] `sublist_of` tr ->
    [Emptied w; Accepted i g] `sublist_of` tr /\
    forall c, Registered w c ∈ tr -> exists r delivered, status_request c r /\ [Registered w c; Replied r delivered 0; Accepted i g] `sublist_of` tr.

Record trace_inv (d : daemon) (tr : list daemon_event) : Prop := {
  ti_brokers : forall w b, da_heap d !! w = Some b -> traced tr w b;
  ti_known : forall w, ((exists i, Handed i w ∈ tr) \/ (exists c, Registered w c ∈ tr)) -> (w < length (da_heap d))%nat;
  ti_reuse : reuse_safe tr;
  ti_admitted : forall i g, Accepted i g ∈ tr -> exists s, da_slots d !! i = Some s /\ g <= sl_generation s;
  ti_rising : forall i g g', [Accepted i g; Accepted i g'] `sublist_of` tr -> g < g' }.

(** ** Orders of events *)

Lemma pair_snoc {A} (x y e : A) l : [x; y] `sublist_of` l ++ [e] -> [x; y] `sublist_of` l \/ (y = e /\ x ∈ l).
Proof.
  intros (k1 & k2 & E & H1 & H2)%sublist_app_r. apply sublist_cons_r in H2 as [H2%sublist_nil_r|(k & -> & ->%sublist_nil_r)].
  - subst k2. rewrite app_nil_r in E. subst k1. by left.
  - destruct k1 as [|a [|? ?]]; [done| |exfalso; apply (f_equal length) in E; cbn in E; rewrite length_app in E; cbn in E; lia]. injection E as -> ->. right. split; [done|]. apply sublist_subseteq in H1. apply H1. by left.
Qed.

Lemma pair_last {A} (x e : A) l : x ∈ l -> [x; e] `sublist_of` l ++ [e].
Proof. intros H. apply (sublist_app [x] l [e] [e]); [|done]. by apply singleton_sublist_l. Qed.

Lemma grows_l {A} (k l l' : list A) : k `sublist_of` l -> k `sublist_of` l ++ l'.
Proof. apply sublist_inserts_r. Qed.

(** An event that says nothing of a broker's start or registration. *)
Definition plain_event (e : daemon_event) : Prop := match e with Accepted _ _ | Handed _ _ | Registered _ _ => False | _ => True end.

Lemma reuse_plain tr e : plain_event e -> reuse_safe tr -> reuse_safe (tr ++ [e]).
Proof.
  intros He H i g w [Hs|[<- _]]%pair_snoc; [|done]. destruct (H i g w Hs) as [H1 H2]. split; [by apply grows_l|].
  intros c [Hc|Hc%list_elem_of_singleton]%elem_of_app; [|by subst e]. destruct (H2 c Hc) as (r & dl & ? & ?). exists r, dl. split; [done|by apply grows_l].
Qed.

Lemma traced_plain tr e w b : plain_event e -> traced tr w b -> traced (tr ++ [e]) w b.
Proof.
  intros He [H1 H2 H3 H4 H5 H0 H6 H7].
  assert (forall x, x ∈ tr ++ [e] -> ~ plain_event x -> x ∈ tr) as Hin by (intros x [?|Hx%list_elem_of_singleton]%elem_of_app Hp; [done|by subst x]).
  split.
  - intros i Hi. apply H1, Hin; [done|]. auto.
  - intros Hx. apply elem_of_app. left. auto.
  - intros c Hc. apply H3, Hin; [done|]. auto.
  - intros Hr. destruct (H4 Hr) as (c & ? & ? & ?). exists c. split_and!; [done..|]. apply elem_of_app. by left.
  - done.
  - done.
  - intros Hr Ht c Hc. destruct (H6 Hr Ht c Hc) as (r & dl & ? & ?). exists r, dl. split; [done|by apply grows_l].
  - intros Hb i g [Hs|[<- _]]%pair_snoc; [by eapply H7|done].
Qed.

(** ** Quiet changes of a broker *)

Record quiet_change (b b' : broker) : Prop := {
  qu_worker : br_worker b' = br_worker b;
  qu_registered : br_registered b' = br_registered b;
  qu_connection : br_connection_id b' = br_connection_id b;
  qu_started : br_register b' = NotReporting -> br_register b = NotReporting;
  qu_pending : forall c, pending_id (br_register b') = Some c -> pending_id (br_register b) = Some c \/ length c = 32%nat;
  qu_unmarked : before_mark (br_register b') -> before_mark (br_register b);
  qu_removal : before_removal (br_watch b') -> before_removal (br_watch b);
  qu_emptied : emptied_yet (br_watch b') -> emptied_yet (br_watch b);
  qu_ended : br_registered b = true -> watch_ended (br_watch b') -> watch_ended (br_watch b) }.

Lemma quiet_refl b : quiet_change b b.
Proof. split; auto. Qed.

Lemma traced_quiet tr w b b' : quiet_change b b' -> traced tr w b -> traced tr w b'.
Proof.
  intros [Q1 Q2 Q3 Q4 Q5 Q0 Q6 Q7 Q8] [H1 H2 H3 H4 H5 H0 H6 H7]. split; rewrite ?Q2, ?Q3; auto.
  - intros i Hi. destruct (H1 i Hi) as [? ?]. unfold of_slot. rewrite Q1. auto.
  - intros c Hc. destruct (Q5 c Hc); auto.
Qed.

Definition same_generations (d d' : daemon) : Prop := forall i, sl_generation <$> da_slots d' !! i = sl_generation <$> da_slots d !! i.

Lemma generation_of d d' i s g : same_generations d d' -> da_slots d !! i = Some s -> g <= sl_generation s -> exists s', da_slots d' !! i = Some s' /\ g <= sl_generation s'.
Proof. intros Hg Hs Hl. specialize (Hg i). rewrite Hs in Hg. apply fmap_Some in Hg as (s' & ? & E). exists s'. split; [done|]. lia. Qed.

(** A step that says nothing, or has an answer of the DPU. *)
Lemma trace_quiet d d' tr es : trace_inv d tr -> same_generations d d' -> length (da_heap d') = length (da_heap d) -> (es = [] \/ exists e, es = [e] /\ plain_event e) ->
  (forall w b', da_heap d' !! w = Some b' -> exists b, da_heap d !! w = Some b /\ (traced (tr ++ es) w b -> traced (tr ++ es) w b')) -> trace_inv d' (tr ++ es).
Proof.
  intros [H1 H2 H3 H4 H5] Hg Hl He Hb. assert (forall x, x ∈ tr ++ es -> ~ plain_event x -> x ∈ tr) as Hin.
  { intros x [?|Hx]%elem_of_app Hp; [done|]. destruct He as [->|(e & -> & ?)]; [by apply elem_of_nil in Hx|]. apply list_elem_of_singleton in Hx. by subst x. }
  split.
  - intros w b' Hw. destruct (Hb w b' Hw) as (b & Hb0 & Hq). apply Hq. destruct He as [->|(e & -> & ?)]; [rewrite app_nil_r; auto|]. apply traced_plain; auto.
  - rewrite Hl. intros w [[i Hi]|[c Hc]]; apply H2; [left; exists i|right; exists c]; apply Hin; auto.
  - destruct He as [->|(e & -> & ?)]; [by rewrite app_nil_r|by apply reuse_plain].
  - intros i g Hi. destruct (H4 i g) as (s & Hs & ?); [apply Hin; auto|]. by eapply generation_of.
  - destruct He as [->|(e & -> & He)]; [by rewrite app_nil_r|]. intros i g g' [?|[<- _]]%pair_snoc; [by eapply H5|done].
Qed.

Lemma same_slots d d' : da_slots d' = da_slots d -> same_generations d d'.
Proof. intros E i. by rewrite E. Qed.

Lemma same_on_slot d d' i f : da_slots d' = alter f i (da_slots d) -> (forall s, sl_generation (f s) = sl_generation s) -> same_generations d d'.
Proof.
  intros E Hf j. rewrite E. destruct (decide (i = j)) as [->|?]; [|by rewrite list_lookup_alter_ne]. rewrite list_lookup_alter_eq. by destruct (_ !! j); cbn; rewrite ?Hf.
Qed.

(** Quiet steps: of no broker, of one broker. *)
Lemma trace_same d d' tr es : trace_inv d tr -> same_generations d d' -> da_heap d' = da_heap d -> (es = [] \/ exists e, es = [e] /\ plain_event e) -> trace_inv d' (tr ++ es).
Proof. intros H Hg Hh He. eapply trace_quiet; try done; rewrite Hh; [done|]. intros w b Hw. by exists b. Qed.

Lemma trace_broker d d' tr es (w : nat) f b : trace_inv d tr -> same_generations d d' -> da_heap d' = alter f w (da_heap d) -> da_heap d !! w = Some b ->
  (es = [] \/ exists e, es = [e] /\ plain_event e) -> (traced (tr ++ es) w b -> traced (tr ++ es) w (f b)) -> trace_inv d' (tr ++ es).
Proof.
  intros H Hg Hh Hw He Hq. eapply trace_quiet; try done; rewrite Hh; [by rewrite length_alter|].
  intros v c (b0 & H0 & [[-> ->]|[Hv ->]])%alter_broker; exists b0; split; try done. by simplify_eq.
Qed.

(** ** The requests *)

Lemma request_names operation c expected delivered k status sent k' :
  request operation c expected delivered k = (inr status, sent, k') -> length c = 32%nat -> req_operation sent = operation /\ req_connection_id sent = c.
Proof.
  intros H Hc. unfold request in H. destruct (_ || _); [done|]. destruct (pack_request _ _ _ _) as [|b] eqn:Ep; [done|]. destruct (receive _); [done|].
  destruct (_ || _ || _); [done|]. injection H as _ <- _. unfold pack_request in Ep.
  apply bind_inr in Ep as (o & (Hop & Eo)%pack_le_spec & Ep). apply bind_inr in Ep as (sq & (Hseq & Esq)%pack_le_spec & Ep). injection Ep as <-.
  rewrite (pack_s_id 32 c Hc). assert (length sq = 8%nat) as L by (by subst sq). set (q := pack_s 16 _). assert (length q = 16%nat) as Lq.
  { unfold q, pack_s. rewrite length_app, length_take, repeat_length. lia. }
  subst o. split.
  - unfold req_operation. cbn [dmesh_wire_put_u64_le take app head default]. change (b2z (z2b operation) = operation). rewrite b2z_z2b. apply Z.mod_small. exact Hop.
  - unfold req_connection_id. change (drop 32 _) with (drop 24 (sq ++ q ++ c)). rewrite app_assoc, drop_app_ge; rewrite length_app, L, Lq; [|cbn; lia].
    cbn [Nat.add Nat.sub]. by rewrite drop_0, take_ge by lia.
Qed.

Lemma ask_replies operation c expected delivered d r d' es : ask_dpu operation c expected delivered d = (r, d', es) ->
  match r with
  | inr status => exists sent, es = [Replied sent (default [] delivered) status] /\ (length c = 32%nat -> req_operation sent = operation /\ req_connection_id sent = c)
  | inl _ => es = []
  end.
Proof.
  unfold ask_dpu. destruct (request _ _ _ _ _) as [[[e|status] sent] k] eqn:E; intros [= <- <- <-]; [done|]. exists sent. split; [done|]. intros Hc. by eapply request_names.
Qed.

Lemma ask_plain operation c expected delivered d r d' es : ask_dpu operation c expected delivered d = (r, d', es) -> es = [] \/ exists e, es = [e] /\ plain_event e.
Proof. intros H. apply ask_replies in H. destruct r; [by left|]. destruct H as (sent & -> & _). right. by eexists. Qed.

(** ** The slot's thread *)

Ltac by_slot := solve [eapply trace_same; [eassumption|by eapply same_on_slot|done|by left] | eapply trace_same; [eassumption|by apply same_slots|done|by left]].

(** What is known when a slot is admitted to. *)
Lemma admitted_retired d i s w b : daemon_inv d -> da_slots d !! i = Some s -> sl_thread s = Accepting -> sl_state s = FREE_LISTENING -> sl_worker s = None ->
  da_heap d !! w = Some b -> of_slot i b -> retired_broker b.
Proof.
  intros Hd Hs Et Es Ew Hw Hb. destruct (so_holder _ _ _ (di_slots d Hd i s Hs)) as (h & Hh & Ho). destruct (Ho w b Hw Hb) as [->|?]; [|done].
  destruct Hh as (c & _ & _ & Hc). exfalso. destruct Hc; congruence.
Qed.

Lemma admitted_trace d tr i s : daemon_inv d -> trace_inv d tr -> da_slots d !! i = Some s -> sl_thread s = Accepting -> sl_state s = FREE_LISTENING -> sl_worker s = None ->
  trace_inv (on_slot i (fun s0 => s0 <| sl_state := AUTHORIZING |> <| sl_generation := sl_generation s + 1 |> <| sl_thread := Authorizing (sl_generation s + 1) |>) d)
    (tr ++ [Accepted i (sl_generation s + 1)]).
Proof.
  intros Hd [H1 H2 H3 H4 H5] Hs Et Es Ew. set (g := sl_generation s + 1).
  assert (forall v x, Handed x v ∈ tr ++ [Accepted i g] -> Handed x v ∈ tr) as Hh by (intros v x [?|?%list_elem_of_singleton]%elem_of_app; done).
  assert (forall v c, Registered v c ∈ tr ++ [Accepted i g] -> Registered v c ∈ tr) as Hr by (intros v x [?|?%list_elem_of_singleton]%elem_of_app; done).
  assert (forall w, Handed i w ∈ tr -> exists b, da_heap d !! w = Some b /\ traced tr w b /\ br_watch b = WatchDone) as Hgone.
  { intros w Hw. destruct (lookup_lt_is_Some_2 (da_heap d) w) as [b Hb]; [apply H2; eauto|]. exists b. split; [done|]. split; [auto|].
    destruct (tr_handed _ _ _ (H1 w b Hb) i Hw) as [Hi Hn]. by destruct (admitted_retired d i s w b Hd Hs Et Es Ew Hb Hi) as [[? _]|?]. }
  split.
  - intros w b Hw. change (da_heap d !! w = Some b) in Hw. destruct (H1 w b Hw) as [T1 T2 T3 T4 T5 T0 T6 T7]. split; [eauto|intros Hx; apply elem_of_app; eauto|eauto| |done|done| |].
    + intros E. destruct (T4 E) as (c & ? & ? & ?). exists c. split_and!; [done..|]. apply elem_of_app. by left.
    + intros E Ht c Hc. destruct (T6 E Ht c Hc) as (r & dl & ? & ?). exists r, dl. split; [done|by apply grows_l].
    + intros Hb j g' [?|[[= -> ->] Hj]]%pair_snoc; [by eapply T7|]. destruct (Hgone w Hj) as (b0 & ? & _ & E). assert (b0 = b) as -> by congruence. rewrite E in Hb. by destruct Hb as [?|[?|?]].
  - intros w [[x Hx]|[c Hc]]; apply H2; eauto.
  - intros j g' w [Hp|[[= -> ->] Hj]]%pair_snoc.
    + destruct (H3 j g' w Hp) as [E1 E2]. split; [by apply grows_l|]. intros c Hc%Hr. destruct (E2 c Hc) as (r & dl & ? & ?). exists r, dl. split; [done|by apply grows_l].
    + destruct (Hgone w Hj) as (b & Hb & T & E). split; [apply pair_last; apply (tr_emptied _ _ _ T); rewrite E; split; done|].
      intros c Hc%Hr. destruct (tr_marked _ _ _ T c Hc) as [Er Ec]. destruct (tr_cleaned _ _ _ T Er) with c as (r & dl & Hreq & Hsub); [by right|done|].
      exists r, dl. split; [done|]. by apply (sublist_app [_; _] tr [_] [_]).
  - intros j g' [Hj|[= -> ->]%list_elem_of_singleton]%elem_of_app; cbn.
    + destruct (H4 j g' Hj) as (s0 & Hs0 & ?). destruct (decide (i = j)) as [<-|?]; [|rewrite list_lookup_alter_ne; eauto].
      simplify_eq. rewrite list_lookup_alter_eq, Hs. eexists. split; [done|]. cbn. lia.
    + rewrite list_lookup_alter_eq, Hs. eexists. split; [done|]. cbn. lia.
  - intros j g1 g2 [?|[[= -> ->] Hj]]%pair_snoc; [by eapply H5|]. destruct (H4 i g1 Hj) as (s0 & Hs0 & ?). simplify_eq. unfold g. lia.
Qed.

Lemma accept_trace i d d' tr es : daemon_inv d -> trace_inv d tr -> accept i d = Some (d', es) -> trace_inv d' (tr ++ es).
Proof.
  intros Hd Ht H. unfold accept in H. apply bind_Some in H as (s & Hs & H). destruct (sl_thread s) eqn:Et; try done.
  case_bool_decide as Ef; [injection H as <- <-; by rewrite app_nil_r|]. case_bool_decide as Ew; [injection H as <- <-; by rewrite app_nil_r|].
  injection H as <- <-. by apply admitted_trace.
Qed.

Lemma authorize_trace i packet before cgroup after d d' tr es : trace_inv d tr -> authorize i packet before cgroup after d = Some (d', es) -> trace_inv d' (tr ++ es).
Proof.
  intros Ht H. unfold authorize in H. apply bind_Some in H as (s & Hs & H). destruct (sl_thread s); try done.
  destruct (_ : result _) as [|[service evidence]]; injection H as <- <-; by_slot.
Qed.

(** A new worker has no history. *)
Lemma traced_new d tr b : trace_inv d tr -> unstarted b -> traced tr (length (da_heap d)) b.
Proof.
  intros [_ H2 _ _ _] (E1 & E2 & E3). assert (forall i, Handed i (length (da_heap d)) ∉ tr) as Hn. { intros i Hi. assert (length (da_heap d) < length (da_heap d))%nat by eauto. lia. }
  split.
  - intros i Hi. by destruct (Hn i).
  - rewrite E2. by intros [? _].
  - intros c Hc. assert (length (da_heap d) < length (da_heap d))%nat by eauto. lia.
  - congruence.
  - by rewrite E1.
  - done.
  - congruence.
  - intros _ i g Hs. apply (Hn i). apply sublist_subseteq in Hs. apply Hs. by left.
Qed.

Lemma launch_trace i io d d' tr es : trace_inv d tr -> launch i io d = Some (d', es) -> trace_inv d' (tr ++ es).
Proof.
  intros Ht H. unfold launch in H. apply bind_Some in H as (s & Hs & H). destruct (sl_thread s) as [| |g service evidence| | | | |]; try done.
  destruct (cgroup_create _ _ _) as [|leaf]; [injection H as <- <-; by_slot|]. destruct (li_peer io) as [p|]; [|injection H as <- <-; by_slot].
  destruct (bootstrap _ _ _) as [|started]; [injection H as <- <-; by_slot|]. case_bool_decide; injection H as <- <-; [by_slot|].
  rewrite app_nil_r. pose proof Ht as [H1 H2 H3 H4 H5]. split; [cbn|cbn; intros w Hw; rewrite length_app; apply H2 in Hw; cbn; lia|done| |done].
  - intros w b [Hw|[-> ->]]%lookup_new; [auto|]. by apply traced_new.
  - intros j g' (s0 & ? & ?)%H4. eapply generation_of; [|done..]. by eapply same_on_slot.
Qed.

Lemma assign_trace i d d' tr es : trace_inv d tr -> assign i d = Some (d', es) -> trace_inv d' (tr ++ es).
Proof. intros Ht H. unfold assign in H. apply bind_Some in H as (s & Hs & H). destruct (sl_thread s); try done. injection H as <- <-. by_slot. Qed.

Lemma hand_trace i told d d' tr es : daemon_inv d -> trace_inv d tr -> hand i told d = Some (d', es) -> trace_inv d' (tr ++ es).
Proof.
  intros Hd Ht H. unfold hand in H. apply bind_Some in H as (s & Hs & H). destruct (sl_thread s) as [| | | |w| | |] eqn:Et; try done.
  apply bind_Some in H as (b & Hw & H). destruct (thread_names d i s w Hd Hs) as (_ & c & Hc & Hi & Hh); [auto|]. replace c with b in * by congruence.
  destruct (holding_unstarted w b s Et Hh) as [(E1 & E2 & E3) Ew]. destruct told; injection H as <- <-; [|by_slot].
  pose proof Ht as [H1 H2 H3 H4 H5]. assert (forall j, Handed j w ∉ tr) as Hnew by (intros j Hj; by destruct (tr_handed _ _ _ (H1 w b Hw) j Hj)).
  assert (forall v g j, [Handed j v; Accepted j g] `sublist_of` tr ++ [Handed i w] -> [Handed j v; Accepted j g] `sublist_of` tr) as Hp by (intros v g j [?|[? _]]%pair_snoc; done).
  assert (forall v x, Registered v x ∈ tr ++ [Handed i w] -> Registered v x ∈ tr) as Hr by (intros v x [?|?%list_elem_of_singleton]%elem_of_app; done).
  split; cbn [da_heap on_broker on_slot].
  - intros v x. cbn. intros (b0 & H0 & Hx)%alter_broker. pose proof (H1 v b0 H0) as [T1 T2 T3 T4 T5 T0 T6 T7].
    assert (traced (tr ++ [Handed i w]) v b0 \/ v = w) as Hv.
    { destruct (decide (v = w)) as [->|Hv]; [by right|left]. split; [|intros ?; apply elem_of_app; left; by apply T2|intros y Hy%Hr; by apply T3| |done|done| |intros ? j g Hj%Hp; by eapply T7].
      - intros j [?|[= -> ->]%list_elem_of_singleton]%elem_of_app; [eauto|done].
      - intros E. destruct (T4 E) as (y & ? & ? & ?). exists y. split_and!; [done..|]. apply elem_of_app. by left.
      - intros E T y Hy. destruct (T6 E T y Hy) as (r & dl & ? & ?). exists r, dl. split; [done|by apply grows_l]. }
    destruct Hx as [[-> ->]|[Hvw ->]]; [|by destruct Hv]. assert (b0 = b) as -> by congruence. split; cbn; try congruence; try done.
    + intros j [?|[= -> ]%list_elem_of_singleton]%elem_of_app; [by destruct (Hnew j)|]. done.
    + rewrite E2. by intros [? _].
    + intros y Hy%Hr. destruct (T3 y Hy). congruence.
    + intros _ j g Hs'%Hp. eapply T7; [left|]; done.
  - intros v. cbn. rewrite length_alter. intros [[x [Hx|[= -> ->]%list_elem_of_singleton]%elem_of_app]|[x Hx%Hr]]; [by apply H2; eauto|by eapply lookup_lt_Some|by apply H2; eauto].
  - intros j g v Hx%Hp. destruct (H3 j g v Hx) as [F1 F2]. split; [by apply grows_l|]. intros y Hy%Hr. destruct (F2 y Hy) as (r & dl & ? & ?). exists r, dl. split; [done|by apply grows_l].
  - intros j g [(s0 & ? & ?)%H4|?%list_elem_of_singleton]%elem_of_app; [|done]. eapply generation_of; [|done..]. by eapply same_on_slot.
  - intros j g g' [?|[? _]]%pair_snoc; [by eapply H5|done].
Qed.

Lemma launched_trace i d d' tr es : daemon_inv d -> trace_inv d tr -> launched i d = Some (d', es) -> trace_inv d' (tr ++ es).
Proof.
  intros Hd Ht H. unfold launched in H. apply bind_Some in H as (s & Hs & H). destruct (sl_thread s) as [| | | | |w| |] eqn:Et; try done. injection H as <- <-.
  destruct (thread_names d i s w Hd Hs) as (_ & b & Hb & Hi & Hh); [auto|].
  assert (br_watch b = NotWatched) as Ew by (destruct Hh as [E|E|E|E|E]; rewrite Et in E; simplify_eq; done).
  eapply trace_broker; [done|by eapply same_on_slot|done|done|by left|]. apply traced_quiet. split; cbn; auto; [by left|by intros [_ ?]|].
  intros _ [?|?]; done.
Qed.

Lemma launch_failed_trace i d d' tr es : trace_inv d tr -> launch_failed i d = Some (d', es) -> trace_inv d' (tr ++ es).
Proof. intros Ht H. unfold launch_failed in H. apply bind_Some in H as (s & Hs & H). destruct (sl_thread s); try done. injection H as <- <-. by_slot. Qed.

Lemma deny_trace i d d' tr es : trace_inv d tr -> deny i d = Some (d', es) -> trace_inv d' (tr ++ es).
Proof. intros Ht H. unfold deny in H. apply bind_Some in H as (s & Hs & H). destruct (sl_thread s); try done. injection H as <- <-. by_slot. Qed.

Lemma set_ready_trace d d' tr es : trace_inv d tr -> set_ready_slot d = Some (d', es) -> trace_inv d' (tr ++ es).
Proof.
  intros Ht H. unfold set_ready_slot in H. destruct (da_setting d) as [[[local ready] i]|]; [|done]. destruct (da_slots d !! i) eqn:Ei; injection H as <- <-.
  - eapply trace_same; [done|eapply same_on_slot; [done|]|done|by left]. intros s0. unfold ready_slot. repeat case_match; done.
  - cbn [da_loop]. destruct (da_loop _); try destruct local; by_slot.
Qed.

(** ** The threads that follow a broker *)

Lemma quiet_register t b : t <> NotReporting -> (before_mark t -> before_mark (br_register b)) -> (forall c, pending_id t = Some c -> pending_id (br_register b) = Some c \/ length c = 32%nat) ->
  quiet_change b (b <| br_register := t |>).
Proof. intros Hb Hm Ht. by split. Qed.

Lemma register_trace d tr (w : nat) b t : trace_inv d tr -> da_heap d !! w = Some b -> t <> NotReporting -> (before_mark t -> before_mark (br_register b)) ->
  (forall c, pending_id t = Some c -> pending_id (br_register b) = Some c \/ length c = 32%nat) -> forall es, (es = [] \/ exists e, es = [e] /\ plain_event e) ->
  trace_inv (register_to w t d) (tr ++ es).
Proof.
  intros Ht Hw Hn Hm Hp es He. eapply trace_broker; [done|by apply same_slots|done|done|done|]. apply traced_quiet. by apply quiet_register.
Qed.

Lemma parse_report_length service packet c : parse_report service packet = inr c -> length c = 32%nat.
Proof.
  unfold parse_report. intros (p & _ & H)%bind_inr. apply bind_inr in H as (? & Hl%raise_if_inr%negb_false_iff%Nat.eqb_eq & H).
  apply bind_inr in H as (named & _ & H). apply bind_inr in H as (? & _ & [= <-]). rewrite length_drop, Hl. reflexivity.
Qed.

Lemma receive_report_trace w packet d d' tr es : trace_inv d tr -> receive_report w packet d = Some (d', es) -> trace_inv d' (tr ++ es).
Proof.
  intros Ht H. unfold receive_report in H. apply bind_Some in H as (b & Hw & H). destruct (br_register b) eqn:Er; try done. injection H as <- <-.
  eapply register_trace; [done..|by destruct (parse_report _ _)|by rewrite Er| |by left]. intros c Hc. right. destruct (parse_report _ _) eqn:Ep; [done|]. injection Hc as ->. by eapply parse_report_length.
Qed.

Lemma observe_trace cluster node incarnation w attempts d d' tr es : trace_inv d tr -> observe cluster node incarnation w attempts d = Some (d', es) -> trace_inv d' (tr ++ es).
Proof.
  intros Ht H. unfold observe in H. apply bind_Some in H as (b & Hw & H). destruct (br_register b) eqn:Er; try done. apply bind_Some in H as (found & _ & H).
  injection H as <- <-. eapply register_trace; [done..|by destruct found|by rewrite Er| |by left]. intros c Hc. left. rewrite Er. by destruct found.
Qed.

Lemma seal_worker_trace mac w d d' tr es : trace_inv d tr -> seal_worker mac w d = Some (d', es) -> trace_inv d' (tr ++ es).
Proof.
  intros Ht H. unfold seal_worker in H. apply bind_Some in H as (b & Hw & H). destruct (br_register b) eqn:Er; try done.
  injection H as <- <-. eapply register_trace; [done..|by destruct (seal_record _ _ _) as [|[? ?]]|by rewrite Er| |by left]. intros c Hc. left. rewrite Er. by destruct (seal_record _ _ _) as [|[? ?]].
Qed.

Lemma send_assertion_trace w sent d d' tr es : trace_inv d tr -> send_assertion w sent d = Some (d', es) -> trace_inv d' (tr ++ es).
Proof.
  intros Ht H. unfold send_assertion in H. apply bind_Some in H as (b & Hw & H). destruct (br_register b) eqn:Er; try done.
  destruct sent; injection H as <- <-; (eapply register_trace; [done..|]); [right; by eexists|by left].
Qed.

Lemma mark_trace d tr (w : nat) b c assertion session : daemon_inv d -> trace_inv d tr -> da_heap d !! w = Some b -> br_register b = Sealed c assertion session ->
  before_removal (br_watch b) ->
  trace_inv (on_broker w (fun b => b <| br_connection_id := Some c |> <| br_control_session := Some session |> <| br_registered := true |> <| br_register := Marked assertion |>) d)
    (tr ++ [Registered w c]).
Proof.
  intros Hd Ht Hw Er Hb. pose proof Ht as [H1 H2 H3 H4 H5]. pose proof (H1 w b Hw) as T.
  assert (forall x, x ∈ tr ++ [Registered w c] -> x = Registered w c \/ x ∈ tr) as Hin by (intros x [?|?%list_elem_of_singleton]%elem_of_app; auto).
  assert (forall v g j, [Handed j v; Accepted j g] `sublist_of` tr ++ [Registered w c] -> [Handed j v; Accepted j g] `sublist_of` tr) as Hp by (intros v g j [?|[? _]]%pair_snoc; done).
  assert (br_registered b = false) as Eb by (apply (tr_unmarked _ _ _ T); by rewrite Er).
  assert (length c = 32%nat) as Lc by (apply (tr_pending _ _ _ T); by rewrite Er).
  assert (forall y, Registered w y ∉ tr) as Hnone by (intros y Hy; destruct (tr_marked _ _ _ T y Hy); congruence). split.
  - intros v x. cbn [da_heap on_broker]. intros (b0 & H0 & [[-> ->]|[Hv ->]])%alter_broker.
    + replace b0 with b in * by congruence. destruct T as [T1 T2 T3 T4 T5 T0 T6 T7]. split; cbn; try done.
      * intros j [?|?]%Hin; [done|]. split; [by apply T1|done].
      * intros ?. apply elem_of_app. left. auto.
      * intros y [[= ->]|Hy]%Hin; [done|]. by destruct (Hnone y).
      * intros _. exists c. split_and!; [done..|]. apply elem_of_app. right. by left.
      * intros _ [E|E]; rewrite E in Hb; by destruct Hb as [?|[?|?]].
      * intros _ j g Hs%Hp. by eapply T7.
    + destruct (H1 v b0 H0) as [T1 T2 T3 T4 T5 T0 T6 T7]. split; try done.
      * intros j [?|?]%Hin; [done|]. by apply T1.
      * intros ?. apply elem_of_app. left. auto.
      * intros y [[= ? ?]|Hy]%Hin; [done|]. by apply T3.
      * intros E. destruct (T4 E) as (y & ? & ? & ?). exists y. split_and!; [done..|]. apply elem_of_app. by left.
      * intros E T' y Hy. destruct (T6 E T' y Hy) as (r & dl & ? & ?). exists r, dl. split; [done|by apply grows_l].
      * intros ? j g Hs%Hp. by eapply T7.
  - intros v. cbn. rewrite length_alter. intros [[x [?|Hx]%Hin]|[x [[= -> _]|Hx]%Hin]]; [done|apply H2; eauto|by eapply lookup_lt_Some|apply H2; eauto].
  - intros j g v Hx%Hp. destruct (H3 j g v Hx) as [F1 F2]. split; [by apply grows_l|]. intros y [[= -> ->]|Hy]%Hin.
    + exfalso. by eapply (tr_current _ _ _ T Hb).
    + destruct (F2 y Hy) as (r & dl & ? & ?). exists r, dl. split; [done|by apply grows_l].
  - intros j g [?|Hx]%Hin; [done|]. by apply H4.
  - intros j g g' [?|[? _]]%pair_snoc; [by eapply H5|done].
Qed.

Lemma mark_registered_trace w stat d d' tr es : daemon_inv d -> trace_inv d tr -> mark_registered w stat d = Some (d', es) -> trace_inv d' (tr ++ es).
Proof.
  intros Hd Ht H. unfold mark_registered in H. apply bind_Some in H as (b & Hw & H). destruct (br_register b) as [| | | |c assertion session| |] eqn:Er; try done.
  case_bool_decide as Eg; [case_bool_decide|]; cbn [andb] in H; injection H as <- <-; [|by eapply register_trace; [done..|by left]|by eapply register_trace; [done..|by left]].
  apply get_elem, (di_workers d Hd) in Eg as (b0 & Hb0 & _ & Hr). replace b0 with b in * by congruence. by eapply mark_trace.
Qed.

Lemma reap_trace w populated d d' tr es : trace_inv d tr -> reap w populated d = Some (d', es) -> trace_inv d' (tr ++ es).
Proof.
  intros Ht H. unfold reap in H. apply bind_Some in H as (b & Hw & H). destruct (br_watch b) eqn:Er; try done.
  destruct populated; injection H as <- <-; [by rewrite app_nil_r|]. eapply trace_broker; [done|by apply same_slots|done|done|right; by eexists|].
  intros [T1 T2 T3 T4 T5 T0 T6 T7]. split; cbn; try done.
  - intros _. apply elem_of_app. right. by left.
  - intros _ [?|?]; done.
  - intros _. apply T7. rewrite Er. by right; left.
Qed.

(** A quiet change of what the watching thread does. *)
Lemma watch_trace d d1 tr es (w : nat) b t : trace_inv d tr -> da_heap d !! w = Some b -> same_generations d d1 -> da_heap d1 = da_heap d ->
  (es = [] \/ exists e, es = [e] /\ plain_event e) -> emptied_yet (br_watch b) -> ~ before_removal t -> (br_registered b = true -> watch_ended t -> watch_ended (br_watch b)) -> trace_inv (watch_to w t d1) (tr ++ es).
Proof.
  intros Ht Hw Hg Hh He Hb Hr Hc. eapply (trace_broker d _ _ _ w _ b); [done|done|cbn; by rewrite Hh|done|done|]. apply traced_quiet. split; cbn; auto. by intros ?%Hr.
Qed.

Lemma remove_worker_trace w d d' tr es : trace_inv d tr -> remove_worker w d = Some (d', es) -> trace_inv d' (tr ++ es).
Proof.
  intros Ht H. unfold remove_worker in H. apply bind_Some in H as (b & Hw & H). destruct (br_watch b) eqn:Er; try done. injection H as <- <-.
  eapply (watch_trace d); [done..|by apply same_slots|done|by left|by rewrite Er| |]; [by intros [?|[?|?]]|by intros _ [?|?]].
Qed.

Lemma release_trace w d d' tr es : daemon_inv d -> trace_inv d tr -> release w d = Some (d', es) -> trace_inv d' (tr ++ es).
Proof.
  intros Hd Ht H. unfold release in H. apply bind_Some in H as (b & Hw & H). destruct (br_watch b) as [| | |registered| | | | |] eqn:Er; try done. injection H as <- <-.
  assert (registered = br_registered b) as ->.
  { destruct (holder_of d w b Hd Hw) as (i & s & _ & _ & Hh); [unfold retired_broker, unstarted; intuition congruence|].
    destruct Hh as [? ? (_ & ? & _)|? ? (_ & ? & _)| |? ? ? [?|[?|?]]|? ? ? ? ? Hc]; try congruence. unfold in_cleanup in Hc. intuition congruence. }
  eapply (watch_trace d); [done..| |done|by left|by rewrite Er| |].
  - eapply same_on_slot; [done|]. intros s. unfold release_slot. by case_bool_decide.
  - destruct (br_registered b), (br_connection_id b); by intros [?|[?|?]].
  - intros ->. cbn [negb]. destruct (br_connection_id b); by intros [?|?].
Qed.

Lemma unregister_worker_trace w delivered d d' tr es : trace_inv d tr -> unregister_worker w delivered d = Some (d', es) -> trace_inv d' (tr ++ es).
Proof.
  intros Ht H. unfold unregister_worker in H. apply bind_Some in H as (b & Hw & H). destruct (br_watch b) eqn:Er; try done.
  destruct (br_connection_id b) as [cid|]; [|done]. destruct (ask_dpu _ _ _ _ _) as [[r d1] es1] eqn:Ea. injection H as <- <-.
  pose proof (ask_same _ _ _ _ _ _ _ _ Ea) as (E1 & E2 & E3).
  eapply (watch_trace d); [done..|by apply same_slots|done|by eapply ask_plain|by rewrite Er| |]; destruct r as [[]|]; try (by intros [?|[?|?]]); by intros _ [?|?].
Qed.

Lemma query_worker_trace w delivered d d' tr es : trace_inv d tr -> query_worker w delivered d = Some (d', es) -> trace_inv d' (tr ++ es).
Proof.
  intros Ht H. unfold query_worker in H. apply bind_Some in H as (b & Hw & H). destruct (br_watch b) eqn:Er; try done.
  destruct (br_connection_id b) as [cid|] eqn:Ec; [|done]. destruct (ask_dpu _ _ _ _ _) as [[r d1] es1] eqn:Ea. injection H as <- <-.
  pose proof (ask_same _ _ _ _ _ _ _ _ Ea) as (E1 & E2 & E3). assert (r = inr 0 \/ r <> inr 0) as [->|Hr] by (destruct r as [|[]]; auto).
  - apply ask_replies in Ea as (sent & -> & Hsent). eapply (trace_broker d _ _ _ w _ b); [done|by apply same_slots|cbn; by rewrite E2|done|right; by eexists|].
    intros [T1 T2 T3 T4 T5 T0 T6 T7]. split; cbn; try done.
    + intros _. apply T2. by rewrite Er.
    + intros E _ c Hc. destruct (T4 E) as (c' & Hc' & Lc & [Hin|?%list_elem_of_singleton]%elem_of_app); [|done]. assert (c' = c /\ cid = c) as [-> ->] by (split; congruence).
      exists sent, (default [] delivered). split; [by apply Hsent|by apply pair_last].
    + intros [?|[?|?]]; done.
  - eapply (watch_trace d); [done..|by apply same_slots|done|by eapply ask_plain|by rewrite Er| |]; destruct r as [[]|[]]; try (by intros [?|[?|?]]); try (by intros _ [?|?]); done.
Qed.

Lemma reopen_trace w d d' tr es : daemon_inv d -> trace_inv d tr -> reopen w d = Some (d', es) -> trace_inv d' (tr ++ es).
Proof.
  intros Hd Ht H. unfold reopen in H. apply bind_Some in H as (b & Hw & H). destruct (br_watch b) as [| | | | | |c| |] eqn:Er; try done. injection H as <- <-.
  eapply (watch_trace d); [done..| |done|by left|by rewrite Er| |].
  - eapply same_on_slot; [done|]. intros s. unfold reopen_slot. by repeat case_match.
  - by intros [?|[?|?]].
  - intros _ _. destruct (in_cleanup_held d w b Hd Hw) as (_ & _ & _ & _ & _ & _ & _ & Hc & _); [right; eauto|]. rewrite Er in Hc |- *.
    destruct Hc as [?|[?|[[= ->]|?]]]; try done. by left.
Qed.

(** ** All steps *)

Lemma loop_check_trace node delivered d d' tr es : trace_inv d tr -> loop_check node delivered d = Some (d', es) -> trace_inv d' (tr ++ es).
Proof.
  intros Ht H. unfold loop_check in H. destruct (da_loop d) as [| | | | |s [|w ws]| | |]; try done; [injection H as <- <-; by_slot|].
  apply bind_Some in H as (b & _ & H). destruct (br_connection_id b) as [cid|]; [|injection H as <- <-; by_slot].
  destruct (resolve_worker _ _ _ _ _); [|injection H as <- <-; by_slot]. destruct (ask_dpu _ _ _ _ _) as [[r d1] es1] eqn:Ea. injection H as <- <-.
  pose proof (ask_same _ _ _ _ _ _ _ _ Ea) as (E1 & E2 & E3). eapply trace_same; [done|by apply same_slots|done|by eapply ask_plain].
Qed.

Lemma loop_heartbeat_trace delivered d d' tr es : trace_inv d tr -> loop_heartbeat delivered d = Some (d', es) -> trace_inv d' (tr ++ es).
Proof.
  intros Ht H. unfold loop_heartbeat in H. destruct (da_loop d); try done. destruct (ask_dpu _ _ _ _ _) as [[r d1] es1] eqn:Ea. injection H as <- <-.
  pose proof (ask_same _ _ _ _ _ _ _ _ Ea) as (E1 & E2 & E3). eapply trace_same; [done|..|by eapply ask_plain]; destruct r as [|[]]; (by apply same_slots) || done.
Qed.

Lemma step_trace mac cluster node incarnation a d d' tr es : daemon_inv d -> trace_inv d tr -> daemon_step mac cluster node incarnation a d = Some (d', es) -> trace_inv d' (tr ++ es).
Proof.
  intros Hd Ht H. destruct a; cbn [daemon_step] in H;
    [by eapply accept_trace|by eapply authorize_trace|by eapply launch_trace|by eapply assign_trace|by eapply hand_trace|by eapply launched_trace|by eapply launch_failed_trace
    |by eapply deny_trace| |by eapply set_ready_trace| |by eapply loop_heartbeat_trace| | | |by eapply loop_check_trace| | |by eapply receive_report_trace|by eapply observe_trace
    |by eapply seal_worker_trace|by eapply mark_registered_trace|by eapply send_assertion_trace|by eapply reap_trace|by eapply remove_worker_trace|by eapply release_trace
    |by eapply unregister_worker_trace|by eapply query_worker_trace|by eapply reopen_trace].
  - unfold feed_ready in H. destruct (da_setting d); [done|]. injection H as <- <-. by_slot.
  - unfold loop_connect in H. destruct (da_loop d); try done. destruct (local_connect _ _) as [r k]. injection H as <- <-.
    eapply trace_same; [done|by apply same_slots|done|]. destruct r; [by left|]. destruct (lk_stream _); [by left|]. right. by eexists.
  - unfold loop_failed in H. destruct (da_loop d); try done. injection H as <- <-. by_slot.
  - unfold loop_set in H. destruct (da_loop d); try done. destruct (da_setting d); [done|]. injection H as <- <-. by_slot.
  - unfold loop_observe in H. destruct (da_loop d); try done. injection H as <- <-. by_slot.
  - unfold loop_grace_over in H. destruct (da_loop d); try done. injection H as <- <-. by_slot.
  - unfold loop_terminated in H. destruct (da_loop d); try done. destruct (existsb _ _); injection H as <- <-; by_slot.
Qed.

Lemma daemon_run_inv mac cluster node incarnation d tr : daemon_run mac cluster node incarnation d tr -> daemon_inv d /\ trace_inv d tr.
Proof.
  induction 1 as [count d H|d d' tr es a _ [IH1 IH2] H]; [|split; [by eapply daemon_step_inv|by eapply step_trace]].
  split; [by eapply daemon_init_inv|]. unfold daemon_init in H. destruct (_ && _); [|done]. injection H as <-. split; cbn; try done.
  - intros w [[i ?%elem_of_nil]|[c ?%elem_of_nil]]; done.
  - by intros i g w ?%sublist_nil_r.
  - by intros i g ?%elem_of_nil.
  - by intros i g g' ?%sublist_nil_r.
Qed.

(** ** Channel slots: the session with the DPU

    What the daemon has exchanged in its current session is a sequence of calls of
    [LocalClient.v]; and what the DPU's side has answered comes from the
    registration server's states. *)

(** ** The daemon's side *)

(** The greeting of the last session and what was exchanged in it: requests,
    responses and the statuses returned. *)
Definition session_event (s : option (list byte * list (list byte * list byte * Z))) (e : daemon_event) : option (list byte * list (list byte * list byte * Z)) :=
  match e, s with
  | Greeted greeting, _ => Some (greeting, [])
  | Replied r delivered status, Some (greeting, l) => Some (greeting, l ++ [(r, delivered, status)])
  | _, _ => s
  end.
Definition session_of (tr : list daemon_event) : option (list byte * list (list byte * list byte * Z)) := fold_left session_event tr None.

Definition silent_event (e : daemon_event) : Prop := match e with Greeted _ | Replied _ _ _ => False | _ => True end.

(** What a step does to the session. *)
Inductive session_step (k k' : local_client) : list daemon_event -> Prop :=
  | session_same es : k' = k \/ lk_stream k' = false -> Forall silent_event es -> session_step k k' es
  | session_opened greeting : local_connect (Some greeting) no_client = (inr tt, k') -> session_step k k' [Greeted greeting]
  | session_called operation c expected delivered sent status :
      request operation c expected (Some delivered) k = (inr status, sent, k') -> session_step k k' [Replied sent delivered status].

Lemma ask_session operation c expected delivered d r d' es : ask_dpu operation c expected delivered d = (r, d', es) -> session_step (da_local d) (da_local d') es.
Proof.
  unfold ask_dpu. destruct (request _ _ _ _ _) as [[[e|status] sent] k] eqn:E; intros [= <- <- <-]; cbn.
  - apply session_same; [|by constructor]. unfold request in E. destruct (_ || _); [injection E as _ _ <-; by left|].
    destruct (pack_request _ _ _ _); [injection E as _ _ <-; by right|]. destruct (receive _); [injection E as _ _ <-; by right|].
    destruct (_ || _ || _); [injection E as _ _ <-; by right|done].
  - destruct delivered as [b|]; [by eapply session_called|]. unfold request in E. destruct (_ || _); [done|]. by destruct (pack_request _ _ _ _).
Qed.

Lemma connect_session delivered k r k' : local_connect delivered k = (r, k') ->
  session_step k k' (match r with inr _ => if lk_stream k then [] else [Greeted (default [] delivered)] | inl _ => [] end).
Proof.
  unfold local_connect. destruct (lk_stream k); [intros [= <- <-]; by apply session_same; [left|constructor]|].
  destruct (receive delivered) as [e|g] eqn:Er; [intros [= <- <-]; by apply session_same; [left|constructor]|].
  destruct (_ || _ || _ || _) eqn:Eb; [intros [= <- <-]; by apply session_same; [left|constructor]|]. intros [= <- <-].
  destruct delivered as [b|]; [|done]. change (default [] (Some b)) with b. apply session_opened. unfold local_connect. cbn [lk_stream no_client]. rewrite Er. by rewrite Eb.
Qed.

(** The cases of a step, with its result. *)
Ltac open_step H :=
  cbn [daemon_step] in H;
  unfold accept, authorize, launch, assign, hand, launched, launch_failed, deny, feed_ready, set_ready_slot, loop_connect, loop_heartbeat, loop_failed, loop_set,
    loop_observe, loop_check, loop_grace_over, loop_terminated, receive_report, observe, seal_worker, mark_registered, send_assertion, reap, remove_worker, release,
    unregister_worker, query_worker, reopen in H;
  repeat match type of H with
    | _ ≫= _ = _ => let x := fresh "x" in let E := fresh "E" in apply bind_Some in H as (x & E & H)
    | (if ?b then _ else _) = _ => destruct b
    | match ?x with _ => _ end = _ => let E := fresh "E" in destruct x eqn:E; try done
    end;
  try done.

Lemma step_session mac cluster node incarnation a d d' es : daemon_step mac cluster node incarnation a d = Some (d', es) -> session_step (da_local d) (da_local d') es.
Proof.
  intros H. destruct a; open_step H.
  all: try (injection H as <- <-; apply session_same; [by left|by repeat constructor]).
  all: try (injection H as <- <-; match goal with E : ask_dpu _ _ _ _ _ = (?r, _, _) |- _ => apply ask_session in E; by destruct r as [|[]] end).
  - injection H as <- <-. cbn [da_loop]. apply session_same; [left|by constructor]. by repeat case_match.
  - injection H as <- <-. by apply connect_session.
  - injection H as <- <-. apply session_same; [by right|by constructor].
Qed.

(** The calls of a session, as the daemon has made them. *)
Definition session_calls (tr : list daemon_event) (k : local_client) : Prop :=
  forall greeting l, session_of tr = Some (greeting, l) ->
    exists xs k0 k1, local_connect (Some greeting) no_client = (inr tt, k0) /\ calls xs k0 = Some (k1, (fun x => (x.1.1, x.2)) <$> l) /\
      ca_delivered <$> xs = (fun x => x.1.2) <$> l /\ (lk_stream k = true -> k1 = k).

Lemma calls_snoc xs x k0 k log status sent k' : calls xs k0 = Some (k, log) ->
  request (ca_operation x) (ca_connection x) (ca_expected x) (Some (ca_delivered x)) k = (inr status, sent, k') -> calls (xs ++ [x]) k0 = Some (k', log ++ [(sent, status)]).
Proof.
  revert k0 log. induction xs as [|y xs IH]; intros k0 log H Hr; cbn [calls app] in *.
  - injection H as -> <-. by rewrite Hr.
  - destruct (request _ _ _ _ k0) as [[[|st] se] k2]; [done|]. apply bind_Some in H as ([k3 log'] & Hc & [= -> <-]). by rewrite (IH _ _ Hc Hr).
Qed.

Lemma request_stream operation c expected delivered k status sent k' : request operation c expected delivered k = (inr status, sent, k') -> lk_stream k = true.
Proof. unfold request. destruct (lk_stream k); [done|]. done. Qed.

Lemma session_of_silent tr es : Forall silent_event es -> session_of (tr ++ es) = session_of tr.
Proof.
  intros H. unfold session_of. rewrite fold_left_app. generalize (fold_left session_event tr None). induction H as [|e es He _ IH]; intros s; [done|]. cbn [fold_left].
  assert (session_event s e = s) as -> by (destruct e, s; done). apply IH.
Qed.

Lemma session_of_snoc tr e : session_of (tr ++ [e]) = session_event (session_of tr) e.
Proof. unfold session_of. by rewrite fold_left_app. Qed.

Lemma session_calls_step tr k k' es : session_calls tr k -> (lk_stream k = true -> is_Some (session_of tr)) -> session_step k k' es ->
  session_calls (tr ++ es) k' /\ (lk_stream k' = true -> is_Some (session_of (tr ++ es))).
Proof.
  intros H Hs [es' Hk He|greeting Hg|operation c expected delivered sent status Hr].
  - rewrite session_of_silent by done. split; [|destruct Hk as [->|E]; [done|congruence]]. intros greeting l E. rewrite session_of_silent in E by done.
    destruct (H greeting l E) as (xs & k0 & k1 & ? & ? & ? & Hk1). exists xs, k0, k1. split_and!; [done..|]. destruct Hk as [->|Ef]; [done|congruence].
  - rewrite session_of_snoc. split; [|by eexists]. intros g l. rewrite session_of_snoc. cbn. intros [= <- <-]. by exists [], k', k'.
  - pose proof (request_stream _ _ _ _ _ _ _ _ Hr) as Hk. destruct (Hs Hk) as [[greeting l] E]. rewrite session_of_snoc, E. split; [|by eexists].
    intros g l'. rewrite session_of_snoc, E. cbn. intros [= <- <-]. destruct (H greeting l E) as (xs & k0 & k1 & H1 & H2 & H3 & H4). rewrite (H4 Hk) in H2.
    exists (xs ++ [Call operation c expected delivered]), k0, k'. split; [done|]. rewrite !fmap_app. split; [by eapply calls_snoc|]. by rewrite H3.
Qed.

Lemma daemon_run_session mac cluster node incarnation d tr : daemon_run mac cluster node incarnation d tr ->
  session_calls tr (da_local d) /\ (lk_stream (da_local d) = true -> is_Some (session_of tr)).
Proof.
  induction 1 as [count d H|d d' tr es a _ [IH1 IH2] H]; [|eapply session_calls_step; [done..|by eapply step_session]].
  unfold daemon_init in H. destruct (_ && _); [|done]. injection H as <-. split; done.
Qed.

(** ** The DPU's side *)

(** [local_run] with an owner in one of the given states at each call. *)
Inductive local_run_over {O} (P : O -> Prop) (owner : local_owner O) (host_uri : list byte) : dmesh_local_control -> list local_event -> Prop :=
  | over_create port c : dmesh_local_control_create host_uri port true = Some c -> local_run_over P owner host_uri c []
  | over_progress c events o io r c' o' es :
      local_run_over P owner host_uri c events -> P o -> tls_contract c io ->
      dmesh_local_control_progress owner (Some c) o io = (r, Some c', o', es) -> local_run_over P owner host_uri c' (events ++ es).

Lemma over_run {O} (P : O -> Prop) (owner : local_owner O) host_uri c events : local_run_over P owner host_uri c events -> local_run owner host_uri c events.
Proof. induction 1; [by eapply run_create|by eapply run_progress]. Qed.

Section answers_from.
  Context {O : Type} (owner : local_owner O) (o : O).

(** Where the answers of a call come from. *)
Definition answer_of (q : list byte) (status : Z) : Prop :=
  if req_operation q =? DMESH_LOCAL_PING then status = DMESH_LOCAL_OK \/ status = DMESH_LOCAL_INVALID else (lo_dispatch owner o q).1 = status.
Definition answers_from (events : list local_event) : Prop := forall q status, Answered q status ∈ events -> answer_of q status.

Lemma answers_snoc events e : answers_from events -> (forall q status, e = Answered q status -> answer_of q status) -> answers_from (events ++ [e]).
Proof. intros H He q status [?|?%list_elem_of_singleton]%elem_of_app; [by apply H|by apply He]. Qed.

Lemma failed_answers c events : answers_from events -> answers_from (failed owner c o events).2.
Proof.
  intros H. unfold failed, disconnect_peer. cbn. destruct (lc_authenticated c); [|by rewrite app_nil_r]. by apply answers_snoc.
Qed.

Lemma handle_answers c now q events : answers_from events -> answers_from (handle_request owner c o now q events).2.
Proof.
  intros H. unfold handle_request. destruct (_ || _); [by apply failed_answers|]. destruct (_ && _); [by apply answers_snoc|].
  destruct (_ || _); [by apply failed_answers|].
  assert (forall st o', (if req_operation q =? DMESH_LOCAL_PING then ((if zeros (req_connection_id q) then DMESH_LOCAL_OK else DMESH_LOCAL_INVALID), o) else lo_dispatch owner o q) = (st, o') ->
    answer_of q st) as Hq.
  { intros st o'. unfold answer_of. destruct (req_operation q =? DMESH_LOCAL_PING); [intros [= <- _]; destruct (zeros _); auto|by intros ->]. }
  destruct (if req_operation q =? DMESH_LOCAL_PING then _ else _) as [st o'] eqn:E. cbn. apply answers_snoc; [done|]. intros ? ? [= <- <-]. by eapply Hq.
Qed.

Lemma exchange_answers c io events : answers_from events -> answers_from (exchange owner c o io events).2.
Proof.
  intros H. unfold exchange. destruct (negb _).
  - destruct (pi_write io); [by apply answers_snoc|done|by apply failed_answers].
  - destruct (pi_read io); [|done|by apply failed_answers]. destruct (negb _); [by apply answers_snoc|]. apply handle_answers. by apply answers_snoc.
Qed.

Lemma continue_answers c io events : answers_from events -> answers_from (continue_peer owner c o io events).2.
Proof.
  intros H. unfold continue_peer. destruct (_ <=? _); [by apply failed_answers|]. destruct (lc_authenticated c); [by apply exchange_answers|].
  destruct (pi_ssl_accept io); [|done|by apply failed_answers]. destruct (_ || _); [by apply failed_answers|]. destruct (pi_random io); [|by apply failed_answers].
  apply exchange_answers. by apply answers_snoc.
Qed.

Lemma progress_answers c io : answers_from (dmesh_local_control_progress owner (Some c) o io).2.
Proof.
  assert (forall x : poll_outcome (O := O), answers_from x.2 -> answers_from (let '(r, c', o', e) := x in (r, Some c', o', e)).2) as Hf by (by intros [[[? ?] ?] ?]).
  assert (answers_from []) as Hn by (by intros ? ? ?%elem_of_nil). assert (answers_from [Refused]) as Hr by (by intros ? ? ?%list_elem_of_singleton).
  unfold dmesh_local_control_progress. destruct (pi_accept io); [destruct (_ || _); [destruct (negb (lc_ssl c))|destruct (negb (pi_ssl_new io))]|destruct (negb (lc_ssl c))];
    try done; apply Hf; (by apply continue_answers) || by apply failed_answers.
Qed.
End answers_from.

Lemma logged_answered events h q status : (q, status) ∈ lh_log (fold_left record_event events h) -> (q, status) ∈ lh_log h \/ Answered q status ∈ events.
Proof.
  revert h. induction events as [|e events IH]; intros h H; [by left|]. apply IH in H as [H|H]; [|right; by right]. destruct e; cbn in H; auto; try by apply elem_of_nil in H.
  apply elem_of_app in H as [?|[= -> ->]%list_elem_of_singleton]; [by left|]. right. by left.
Qed.

Lemma over_answers {O} (P : O -> Prop) (owner : local_owner O) host_uri c events q status : local_run_over P owner host_uri c events ->
  (q, status) ∈ lh_log (history events) -> exists o, P o /\ answer_of owner o q status.
Proof.
  induction 1 as [port c _|c events o io r c' o' es _ IH Ho _ E]; intros Hq; [by apply elem_of_nil in Hq|]. rewrite history_snoc in Hq. apply logged_answered in Hq as [Hq|Hq]; [auto|].
  exists o. split; [done|]. pose proof (progress_answers owner o c io) as Ha. rewrite E in Ha. by apply Ha.
Qed.

(** The statuses fit their field. *)
Lemma dispatch_status o r : in_width 32 (server_local_dispatch o r).1.1.
Proof.
  unfold server_local_dispatch, in_width. repeat case_match; cbn; unfold DMESH_LOCAL_STALE, DMESH_LOCAL_INVALID, DMESH_LOCAL_OK, DMESH_LOCAL_PENDING; lia.
Qed.

Lemma over_widths (P : objects -> Prop) host_uri c events : local_run_over P local_server host_uri c events -> Forall (fun x => in_width 32 x.2) (lh_log (history events)).
Proof.
  intros H. apply Forall_forall. intros [q status] Hq. destruct (over_answers P _ _ _ _ q status H Hq) as (o & _ & Ha). unfold answer_of in Ha.
  destruct (req_operation q =? DMESH_LOCAL_PING); [destruct Ha as [->| ->]; by vm_compute|]. cbn [lo_dispatch local_server] in Ha. cbn [snd].
  pose proof (dispatch_status o q) as Hd. destruct (server_local_dispatch o q) as [[st ?] ?]. cbn in Ha, Hd. by subst st.
Qed.

(** What a positive answer about a connection says of the server. *)
Lemma dispatch_clean o r : req_operation r = DMESH_LOCAL_STATUS -> (server_local_dispatch o r).1.1 = DMESH_LOCAL_OK ->
  ob_shutting_down o = false /\ forall i p, first_slot (names_connection (req_connection_id r)) o = Some i -> ob_pods o !! i = Some p -> local_registration_outstanding p = false.
Proof.
  intros Hop H. unfold server_local_dispatch in H. destruct (ob_shutting_down o); [done|]. split; [done|]. rewrite Hop in H. cbn [Z.eqb negb andb] in H.
  intros i p Hi Hp. rewrite Hi, Hp in H. change (DMESH_LOCAL_STATUS =? DMESH_LOCAL_STATUS) with true in H. cbn [negb andb] in H.
  change (DMESH_LOCAL_STATUS =? DMESH_LOCAL_UNREGISTER) with false in H. cbn [andb] in H. rewrite Hp in H. by destruct (local_registration_outstanding p).
Qed.
