(* ===== verification/DaemonProofs.v ===== *)
(** * Channel slots: reuse, exclusion and recovery *)

From S2P Require Import Prelude Text PeerIdentity WorkloadIdentity WorkloadProofs Topology TopologyIntern LocalControl LocalControlProofs ControlScope Registration RegistrationInv RegistrationSteps RegistrationProofs PyText Controller ControllerText ControllerRuns NodeIdentity NodeIdentityProofs LocalClient DaemonSlots DaemonInv DaemonTrace.

(** ** Prefixes of a run *)

Lemma step_short mac cluster node incarnation a d d' es : daemon_step mac cluster node incarnation a d = Some (d', es) -> (length es <= 1)%nat.
Proof.
  intros H. pose proof (step_session _ _ _ _ _ _ _ _ H) as Hs. destruct a; open_step H.
  all: injection H as <- <-; try (cbn; lia).
  all: try (match goal with E : ask_dpu _ _ _ _ _ = _ |- _ => apply ask_plain in E as [->|(? & -> & _)]; cbn; lia end).
  repeat case_match; cbn; lia.
Qed.

Lemma prefix_run mac cluster node incarnation d tr pre : daemon_run mac cluster node incarnation d tr -> pre `prefix_of` tr ->
  exists d1, daemon_run mac cluster node incarnation d1 pre.
Proof.
  intros H. revert pre. induction H as [count d H|d d' tr es a Hr IH H]; intros pre Hp.
  - apply prefix_nil_inv in Hp as ->. exists d. by eapply daemon_starts.
  - destruct Hp as [k Hk]. destruct k as [|x k _] using rev_ind; [rewrite app_nil_r in Hk; subst pre; exists d'; by eapply daemon_steps_on|]. apply IH.
    rewrite app_assoc in Hk. apply step_short in H. destruct es as [|e [|? ?]]; cbn in H; [| |lia].
    + rewrite app_nil_r in Hk. exists (k ++ [x]). by rewrite app_assoc.
    + apply app_inj_tail in Hk as [Hk _]. by exists k.
Qed.

Lemma triple_split {A} (x y z : A) l : [x; y; z] `sublist_of` l -> exists l1 l2, l = l1 ++ y :: l2 /\ x ∈ l1 /\ z ∈ l2.
Proof.
  intros (a & b & -> & H)%sublist_cons_l. apply sublist_cons_l in H as (c & e & -> & H). exists (a ++ x :: c), e. rewrite <-app_assoc. split; [done|]. split.
  - apply elem_of_app. right. by left.
  - apply singleton_sublist_l in H. done.
Qed.

(** ** Reuse *)

(** The stream of the daemon's session delivers what was written: the daemon has read
    what the DPU wrote, and the DPU has read nothing that the daemon did not send. *)
Definition session_link (tr : list daemon_event) (events : list local_event) : Prop :=
  exists greeting l, session_of tr = Some (greeting, l) /\
    greeting ++ concat ((fun x => x.1.2) <$> l) `prefix_of` lh_out (history events) /\ lh_in (history events) `prefix_of` concat ((fun x => x.1.1) <$> l).

(** The DPU's end of the session, served by the registration server of a run. *)
Definition server_control (C : crypto) (ids : Z -> bool) : list byte -> dmesh_local_control -> list local_event -> Prop :=
  local_run_over (fun o => exists v, server_run C ids (o, v)) local_server.

Lemma cleanup_answered mac cluster node incarnation d tr1 r delivered c C ids host_uri control events s :
  daemon_run mac cluster node incarnation d (tr1 ++ [Replied r delivered 0]) -> status_request c r ->
  server_control C ids host_uri control events -> dmesh_local_control_session (Some control) = Some s -> session_link (tr1 ++ [Replied r delivered 0]) events ->
  exists o v, server_run C ids (o, v) /\ ob_shutting_down o = false /\
    forall i p, first_slot (names_connection c) o = Some i -> ob_pods o !! i = Some p -> local_registration_outstanding p = false.
Proof.
  intros Hrun [Hop <-] Hc Hs (greeting & l & El & Hout & Hin). destruct (daemon_run_session _ _ _ _ _ _ Hrun) as [Hcalls _].
  destruct (Hcalls greeting l El) as (xs & k0 & k1 & Hg & Hx & Ed & _). pose proof (over_widths _ _ _ _ Hc) as Hw.
  assert (lh_log (history events) = (fun x => (x.1.1, x.2)) <$> l) as Hlog.
  { apply (local_client_agrees local_server host_uri control events s greeting k0 xs k1 _ (over_run _ _ _ _ _ Hc) Hs Hg Hx); [by rewrite Ed| |done].
    by rewrite <-list_fmap_compose. }
  assert ((r, 0) ∈ lh_log (history events)) as Hr.
  { rewrite Hlog. rewrite session_of_snoc in El. destruct (session_of tr1) as [[g l0]|]; [|done]. injection El as <- <-. rewrite fmap_app. apply elem_of_app. right. by left. }
  destruct (over_answers _ _ _ _ _ r 0 Hc Hr) as (o & (v & Hv) & Ha). unfold answer_of in Ha. rewrite Hop in Ha. cbn in Ha. exists o, v. split; [done|].
  apply dispatch_clean; [done|]. by destruct (server_local_dispatch o r) as [[? ?] ?].
Qed.


(** ** Exclusion *)

Lemma handed_started mac cluster node incarnation d tr i w b : daemon_run mac cluster node incarnation d tr -> da_heap d !! w = Some b -> Handed i w ∈ tr ->
  of_slot i b /\ br_register b <> NotReporting /\ traced tr w b.
Proof.
  intros Hrun Hw Hh. destruct (daemon_run_inv _ _ _ _ _ _ Hrun) as [_ Ht]. pose proof (ti_brokers _ _ Ht w b Hw) as T. by destruct (tr_handed _ _ _ T i Hh).
Qed.

(** Of the brokers of a slot, only the last launched can hold it. *)
Lemma older_retired d w b w' b' : daemon_inv d -> da_heap d !! w = Some b -> da_heap d !! w' = Some b' -> (w < w')%nat ->
  wk_slot (br_worker b) = wk_slot (br_worker b') -> retired_broker b.
Proof.
  intros Hd Hw Hw' Hlt Hs. destruct (di_brokers d Hd w b Hw) as (i & Hi & Hl). destruct (lookup_lt_is_Some_2 _ _ Hl) as [s Hsl].
  pose proof (di_slots d Hd i s Hsl) as [(h & Hh & Ho) Hg]. destruct (Ho w b Hw Hi) as [->|?]; [|done]. destruct Hh as (b1 & Hb1 & [_ Hcur] & _). exfalso.
  assert (b1 = b) as -> by congruence. assert (of_slot i b') as Hi' by (unfold of_slot in *; congruence). specialize (Hg w' b' Hw' Hi').
  pose proof (di_rising d Hd w b w' b' Hw Hw' Hlt Hs). unfold floor in Hg. destruct (sl_thread s); lia.
Qed.


(** ** A run *)

Definition broker_stat : text := txt "52 (broker) S 51 52 52 0 -1 4194560 0 0 0 0 0 0 0 0 20 0 1 0 888 0".
Definition broker_cgroup : text := txt "0::/dpumesh.slice/workers/" ++ leaf_name demo_uid 1 ++ [NL].
Definition broker_launch : launch_io := LaunchIo true 51 (Some (LaunchPeer 52 0 (txt "B") (Some broker_stat) true (Some broker_stat) (Some broker_cgroup))).
Definition broker_report : list byte := txt "DMESHLC2" ++ [x06; x00; x00; x00] ++ field_text 64 (txt "web") ++ demo_nonce 1.
Definition answered_ok (n : Z) : option (list byte) := Some (response_bytes demo_session n 0).

(** Slot 1: opened, given to a broker that is registered and ends, and admitted to again. *)
Definition demo_opening : list action :=
  [LoopConnect (answered_ok 0); LoopBeats (answered_ok 1); LoopSets; SetReadySlot; SetReadySlot; SetReadySlot; FeedReady true; SetReadySlot; SetReadySlot; SetReadySlot].
Definition demo_brokering : list action :=
  [Accept 1; Authorize 1 app_hello (Some proc_stat) (Some proc_cgroup) (Some proc_stat); Launch 1 broker_launch; Assign 1; Hand 1 true; LaunchEnds 1;
   Report 0 (Some broker_report); Observe 0 [(1000, app_views)]; SealWorker 0; Mark 0 (Some broker_stat); SendAssertion 0 true].
Definition demo_ending : list action :=
  [Reap 0 true; Reap 0 false; RemoveWorker 0; Release 0; UnregisterWorker 0 (answered_ok 2); QueryWorker 0 (answered_ok 3); Reopen 0].
Definition demo_daemon : daemon := default (Daemon [] [] [] no_client false false false None LoopTop) (daemon_init 2).
Definition demo_lifetime : option (daemon * list daemon_event) :=
  daemon_steps demo_mac (txt "prod") (txt "node-a") (repeat x02 16) (demo_opening ++ demo_brokering ++ demo_ending ++ [Accept 1]) demo_daemon.

Lemma steps_run mac cluster node incarnation actions d tr d' es : daemon_run mac cluster node incarnation d tr ->
  daemon_steps mac cluster node incarnation actions d = Some (d', es) -> daemon_run mac cluster node incarnation d' (tr ++ es).
Proof.
  revert d tr es. induction actions as [|a actions IH]; intros d tr es Hd H; cbn [daemon_steps] in H; [injection H as <- <-; by rewrite app_nil_r|].
  apply bind_Some in H as ([d1 es1] & H1 & H). apply bind_Some in H as ([d2 es2] & H2 & [= <- <-]). rewrite app_assoc. eapply IH; [|done]. by eapply daemon_steps_on.
Qed.

Definition demo_events_of : list daemon_event := default [] (snd <$> demo_lifetime).
Definition lifetime_end : daemon := default demo_daemon (fst <$> demo_lifetime).

Lemma started_run mac cluster node incarnation count actions d d' es : daemon_init count = Some d ->
  daemon_steps mac cluster node incarnation actions d = Some (d', es) -> daemon_run mac cluster node incarnation d' es.
Proof. intros H1 H2. apply (steps_run _ _ _ _ actions d [] d' es); [by apply (daemon_starts _ _ _ _ count)|done]. Qed.

Lemma demo_daemon_starts : daemon_init 2 = Some demo_daemon.
Proof. vm_compute. reflexivity. Qed.
Lemma demo_lifetime_steps :
  daemon_steps demo_mac (txt "prod") (txt "node-a") (repeat x02 16) (demo_opening ++ demo_brokering ++ demo_ending ++ [Accept 1]) demo_daemon = Some (lifetime_end, demo_events_of).
Proof. vm_compute. reflexivity. Qed.

Lemma demo_lifetime_run : daemon_run demo_mac (txt "prod") (txt "node-a") (repeat x02 16) lifetime_end demo_events_of.
Proof.
  exact (started_run _ _ _ _ 2 _ demo_daemon lifetime_end demo_events_of demo_daemon_starts demo_lifetime_steps).
Qed.

(** The DPU's end: an empty registration server answers the three requests. *)
Definition request_bytes (operation n : Z) (c : list byte) : list byte :=
  match pack_request operation n demo_session c with inr b => b | inl _ => [] end.
Definition control_reads (bytes : list byte) : progress_io := ProgressIo false true 11 11 TlsWants true None None 11 TlsWants (TlsDone bytes) 11.
Definition control_writes : progress_io := ProgressIo false true 12 12 TlsWants true None None 12 (TlsDone 36%nat) TlsWants 12.
Definition demo_ping : list byte := request_bytes 1 1 (repeat x00 32).
Definition demo_revoke : list byte := request_bytes 3 2 (demo_nonce 1).
Definition demo_status : list byte := request_bytes 4 3 (demo_nonce 1).
Definition control_polled (c : dmesh_local_control) (io : progress_io) : dmesh_local_control :=
  match dmesh_local_control_progress local_server (Some c) demo_server.1 io with (_, Some c', _, _) => c' | (_, None, _, _) => c end.
Definition control_after (ios : list progress_io) : dmesh_local_control := fold_left control_polled ios demo_initial.
Definition control_script : list progress_io := [demo_connect; control_reads demo_ping; control_writes; control_reads demo_revoke; control_writes; control_reads demo_status; control_writes].
Definition exchange_events (n : Z) (q : list byte) : list local_event := [Read q; Answered q 0; Wrote (response_bytes demo_session n 0)].
Definition control_events : list local_event :=
  [Hello demo_session; Wrote (response_bytes demo_session 0 0)] ++ exchange_events 1 demo_ping ++ exchange_events 2 demo_revoke ++ exchange_events 3 demo_status.

Lemma control_step n io c c' events es : control_after (take n control_script) = c -> server_control toy_crypto (fun _ => true) demo_host c events ->
  tls_contract c io -> dmesh_local_control_progress local_server (Some c) demo_server.1 io = (1, Some c', demo_server.1, es) ->
  server_control toy_crypto (fun _ => true) demo_host c' (events ++ es).
Proof.
  intros _ H Ht E. eapply over_progress; [exact H| |exact Ht|exact E]. exists demo_server.2. apply run_start.
Qed.

Ltac control_step_at n io :=
  apply (control_step n io (control_after (take n control_script))); [reflexivity| |split; cbn; intros; simplify_eq; vm_compute; lia|vm_compute; reflexivity].

Lemma control_run_demo : server_control toy_crypto (fun _ => true) demo_host (control_after control_script) control_events.
Proof.
  change control_events with (((((([] ++ [Hello demo_session; Wrote (response_bytes demo_session 0 0)]) ++ [Read demo_ping; Answered demo_ping 0]) ++ [Wrote (response_bytes demo_session 1 0)]) ++
    [Read demo_revoke; Answered demo_revoke 0]) ++ [Wrote (response_bytes demo_session 2 0)]) ++ [Read demo_status; Answered demo_status 0] ++ [Wrote (response_bytes demo_session 3 0)]).
  rewrite app_assoc.
  control_step_at 6%nat (control_writes).
  control_step_at 5%nat ((control_reads demo_status)).
  control_step_at 4%nat (control_writes).
  control_step_at 3%nat ((control_reads demo_revoke)).
  control_step_at 2%nat (control_writes).
  control_step_at 1%nat ((control_reads demo_ping)).
  control_step_at 0%nat (demo_connect).
  apply (over_create _ _ _ 4430). reflexivity.
Qed.

Definition brokered_assertion : list byte := match br_register <$> da_heap lifetime_end !! 0%nat with Some (ReportDone (Some a)) => a | _ => [] end.
Lemma demo_events_list : demo_events_of =
  [Greeted (response_bytes demo_session 0 0); Replied demo_ping (response_bytes demo_session 1 0) 0; Accepted 1 1; Handed 1 0; Registered 0 (demo_nonce 1);
   AssertionSent 0 brokered_assertion; Emptied 0; Replied demo_revoke (response_bytes demo_session 2 0) 0; Replied demo_status (response_bytes demo_session 3 0) 0; Accepted 1 2].
Proof. vm_compute. reflexivity. Qed.

Lemma demo_operations : req_operation demo_ping = 1 /\ req_operation demo_revoke = 3.
Proof. split; vm_compute; reflexivity. Qed.

(** The only answer about the state of a connection. *)
Lemma demo_reply_split tr1 r delivered tr2 : demo_events_of = tr1 ++ Replied r delivered 0 :: tr2 -> status_request (demo_nonce 1) r ->
  tr1 ++ [Replied r delivered 0] = take 9 demo_events_of.
Proof.
  rewrite demo_events_list. intros E [Hop _]. destruct demo_operations as [O1 O3].
  do 8 (destruct tr1 as [|? tr1]; [first [discriminate E|injection E as <- _ _; unfold DMESH_LOCAL_STATUS in Hop; congruence]|injection E as <- E]).
  destruct tr1 as [|? tr1]; [by injection E as <- <- _|injection E as <- E]. destruct tr1 as [|? tr1]; [discriminate E|injection E as <- E]. by destruct tr1.
Qed.

Lemma demo_link_holds : session_link (take 9 demo_events_of) control_events.
Proof.
  exists (response_bytes demo_session 0 0),
    [(demo_ping, response_bytes demo_session 1 0, 0); (demo_revoke, response_bytes demo_session 2 0, 0); (demo_status, response_bytes demo_session 3 0, 0)].
  rewrite demo_events_list. split; [reflexivity|]. split; exists []; vm_compute; reflexivity.
Qed.

Lemma demo_control_session : dmesh_local_control_session (Some (control_after control_script)) = Some demo_session.
Proof. vm_compute. reflexivity. Qed.

Lemma demo_reused : [Handed 1 0; Accepted 1 2] `sublist_of` demo_events_of /\ Registered 0 (demo_nonce 1) ∈ demo_events_of.
Proof. rewrite demo_events_list. split; [repeat constructor|]. do 4 right. by left. Qed.


(** The slot is given to a second broker. *)
Definition second_launch : launch_io :=
  LaunchIo true 61 (Some (LaunchPeer 62 0 (txt "B") (Some (txt "62 (broker) S 61 62 62 0 -1 4194560 0 0 0 0 0 0 0 0 20 0 1 0 999 0")) true
    (Some (txt "62 (broker) S 61 62 62 0 -1 4194560 0 0 0 0 0 0 0 0 20 0 1 0 999 0")) (Some (txt "0::/dpumesh.slice/workers/" ++ leaf_name demo_uid 2 ++ [NL])))).
Definition demo_twice : list action :=
  demo_opening ++ demo_brokering ++ demo_ending ++
  [Accept 1; Authorize 1 app_hello (Some proc_stat) (Some proc_cgroup) (Some proc_stat); Launch 1 second_launch; Assign 1; Hand 1 true; LaunchEnds 1].
Definition twice_steps : option (daemon * list daemon_event) := daemon_steps demo_mac (txt "prod") (txt "node-a") (repeat x02 16) demo_twice demo_daemon.
Definition twice_end : daemon := default demo_daemon (fst <$> twice_steps).
Definition twice_events : list daemon_event := default [] (snd <$> twice_steps).
Definition broker_at (w : nat) (d : daemon) : broker :=
  default (Broker (Worker 0 0 [] [] []) 0 [] 0 false None None NotReporting NotWatched) (da_heap d !! w).

Lemma twice_stepped : daemon_steps demo_mac (txt "prod") (txt "node-a") (repeat x02 16) demo_twice demo_daemon = Some (twice_end, twice_events).
Proof. vm_compute. reflexivity. Qed.
Lemma twice_brokers : da_heap twice_end !! 0%nat = Some (broker_at 0 twice_end) /\ da_heap twice_end !! 1%nat = Some (broker_at 1 twice_end) /\
  wk_slot (br_worker (broker_at 0 twice_end)) = wk_slot (br_worker (broker_at 1 twice_end)).
Proof. split_and!; vm_compute; reflexivity. Qed.
Lemma twice_handed : Handed 1 0 ∈ twice_events /\ Handed 1 1 ∈ twice_events.
Proof. split; apply list_elem_of_lookup; [exists 3%nat|exists 10%nat]; vm_compute; reflexivity. Qed.

