(* ===== verification/DaemonRecovery.v ===== *)
(** * Channel slots: recovery and readiness

    A slot whose broker has ended becomes free again when the DPU answers, and what
    the two threads that set readiness can do to each other. *)

From S2P Require Import Prelude Text PeerIdentity WorkloadIdentity WorkloadProofs Topology TopologyIntern LocalControl LocalControlProofs ControlScope Registration RegistrationInv RegistrationSteps RegistrationProofs PyText Controller ControllerText ControllerRuns NodeIdentity NodeIdentityProofs LocalClient DaemonSlots DaemonInv DaemonTrace DaemonProofs.

(** ** The daemon's session *)

Lemma calls_sequence xs k k' log : calls xs k = Some (k', log) -> lk_sequence k' = lk_sequence k + Z.of_nat (length xs).
Proof.
  revert k log. induction xs as [|x xs IH]; intros k log H; cbn [calls] in H; [injection H as <- _; cbn; lia|].
  destruct (request _ _ _ _ _) as [[[e|st] sent] k1] eqn:Er; [done|]. apply bind_Some in H as ([k2 log'] & Hc & [= <- <-]). rewrite (IH k1 log' Hc).
  unfold request in Er. destruct (_ || _); [done|]. destruct (pack_request _ _ _ _); [done|]. destruct (receive _); [done|]. destruct (_ || _ || _); [done|].
  injection Er as _ _ <-. cbn. lia.
Qed.

Lemma live_session mac cluster node incarnation d tr : daemon_run mac cluster node incarnation d tr -> lk_stream (da_local d) = true ->
  length (lk_session (da_local d)) = 16%nat /\ 0 <= lk_sequence (da_local d).
Proof.
  intros Hrun Hk. destruct (daemon_run_session _ _ _ _ _ _ Hrun) as [Hc Hs]. destruct (Hs Hk) as [[greeting l] E]. destruct (Hc greeting l E) as (xs & k0 & k1 & Hg & Hx & _ & H).
  rewrite <-(H Hk). unfold local_connect in Hg. cbn [lk_stream no_client] in Hg. destruct (receive _) as [|g] eqn:Er; [done|]. destruct (_ || _ || _ || _); [done|].
  injection Hg as <-. apply bind_inr in Er as (b & Hb%or_raise_inr & Er). injection Hb as <-. apply bind_inr in Er as ([] & Hl%raise_if_inr%negb_false_iff%Nat.eqb_eq & [= <-]).
  assert (length (rp_session (unpack_response greeting)) = 16%nat) as L by (cbn; rewrite length_take, length_drop; lia).
  destruct (calls_spec _ _ _ _ Hx L) as (-> & _ & _). split; [done|]. rewrite (calls_sequence _ _ _ _ Hx). cbn. lia.
Qed.

(** A request in a live session whose answer arrives. *)
Lemma request_answered operation c s n status : length s = 16%nat -> 0 <= operation < 256 -> 0 <= n -> n + 1 < 2 ^ 64 -> in_width 32 status ->
  exists sent, request operation c None (Some (response_bytes s (n + 1) status)) (LocalClient true s n) = (inr status, sent, LocalClient true s (n + 1)).
Proof.
  intros Hs Hop Hn Hlt Hst. unfold request. cbn [lk_stream negb orb]. rewrite bool_decide_false by naive_solver.
  change ((LocalClient true s n) <| lk_sequence ::= Z.succ |>) with (LocalClient true s (Z.succ n)). cbn [lk_sequence lk_session]. unfold Z.succ.
  destruct (pack_request operation (n + 1) s c) as [e|sent] eqn:Ep.
  - exfalso. unfold pack_request, pack_le in Ep. change (2 ^ (8 * Z.of_nat 1)) with 256 in Ep. change (2 ^ (8 * Z.of_nat 8)) with (2 ^ 64) in Ep.
    rewrite !(proj2 (Z.leb_le _ _)), !(proj2 (Z.ltb_lt _ _)) in Ep by lia. done.
  - exists sent. unfold receive. cbn [or_raise mbind result_bind].
    assert ((length (response_bytes s (n + 1) status) =? 36)%nat = true) as -> by (apply Nat.eqb_eq; by apply (response_length s)). cbn [negb raise_if].
    unfold mret, result_ret. rewrite unpack_response_bytes by (try done; unfold in_width; lia). cbn [rp_magic rp_session rp_sequence rp_status].
    cbn [mbind result_bind rp_magic rp_session rp_sequence rp_status]. rewrite !bool_decide_false by naive_solver. rewrite Z.eqb_refl. done.
Qed.

(** ** Recovery *)

(** The broker's cgroup is empty, and the DPU answers. *)
Definition ending (w : nat) (registered : bool) (k : local_client) (status : Z) : list action :=
  [Reap w false; RemoveWorker w; Release w] ++
  if registered then
    [UnregisterWorker w (Some (response_bytes (lk_session k) (lk_sequence k + 1) status)); QueryWorker w (Some (response_bytes (lk_session k) (lk_sequence k + 2) 0)); Reopen w]
  else [].

Lemma reaped_held d w b : daemon_inv d -> da_heap d !! w = Some b -> br_watch b = Reaping ->
  exists i s, of_slot i b /\ da_slots d !! i = Some s /\ sl_worker s = Some w /\ sl_thread s = Accepting.
Proof.
  intros Hd Hw Hr. destruct (holder_of d w b Hd Hw) as (i & s & Hi & Hs & Hh); [unfold retired_broker, unstarted; intuition congruence|]. exists i, s.
  destruct Hh as [? ? (_ & ? & _)|? ? (_ & ? & _)| | |? ? ? ? ? Hc]; try congruence; [done|]. unfold in_cleanup in Hc. intuition congruence.
Qed.

Lemma steps_cons mac cluster node incarnation a actions d d1 es1 d2 es2 : daemon_step mac cluster node incarnation a d = Some (d1, es1) ->
  daemon_steps mac cluster node incarnation actions d1 = Some (d2, es2) -> daemon_steps mac cluster node incarnation (a :: actions) d = Some (d2, es1 ++ es2).
Proof. intros H1 H2. cbn [daemon_steps]. rewrite H1. cbn. by rewrite H2. Qed.

Lemma steps_app mac cluster node incarnation as1 as2 d d1 es1 d2 es2 : daemon_steps mac cluster node incarnation as1 d = Some (d1, es1) ->
  daemon_steps mac cluster node incarnation as2 d1 = Some (d2, es2) -> daemon_steps mac cluster node incarnation (as1 ++ as2) d = Some (d2, es1 ++ es2).
Proof.
  revert d es1. induction as1 as [|a as1 IH]; intros d es1 H1 H2; cbn [daemon_steps app] in *; [by injection H1 as -> <-|].
  apply bind_Some in H1 as ([d3 es3] & Ha & H1). apply bind_Some in H1 as ([d4 es4] & Hb & [= -> <-]). rewrite <-app_assoc. eapply steps_cons; [done|]. by apply IH.
Qed.

Lemma watch_lookup d w b t : da_heap d !! w = Some b -> da_heap (watch_to w t d) !! w = Some (b <| br_watch := t |>).
Proof. intros H. cbn. by rewrite list_lookup_alter_eq, H. Qed.

(** The steps of a broker's end, up to the release of the slot. *)
Lemma released_steps mac cluster node incarnation d i w b s : daemon_inv d -> da_heap d !! w = Some b -> of_slot i b -> br_watch b = Reaping ->
  da_slots d !! i = Some s -> sl_worker s = Some w -> sl_thread s = Accepting ->
  exists d' es b' s', daemon_steps mac cluster node incarnation [Reap w false; RemoveWorker w; Release w] d = Some (d', es) /\ da_local d' = da_local d /\
    da_heap d' !! w = Some b' /\ br_worker b' = br_worker b /\ br_connection_id b' = br_connection_id b /\ br_watch b' = (if br_registered b then Unregistering else WatchDone) /\
    da_slots d' !! i = Some s' /\ sl_worker s' = None /\ sl_thread s' = Accepting /\ sl_state s' = (if br_registered b then CLEANUP_WAIT else FREE_LISTENING).
Proof.
  intros Hd Hw Hi Hr Hs Ew Et. pose proof (di_named d Hd w b Hw) as Hn. unfold of_slot in Hi.
  pose (b1 := b <| br_watch := Empty |>). pose (b2 := b <| br_watch := Removed (br_registered b) |>).
  pose (d1 := watch_to w Empty d). pose (d2 := watch_to w (Removed (br_registered b)) (d1 <| da_workers ::= workers_pop (br_pid b) |>)).
  pose (next := if negb (br_registered b) then WatchDone else match br_connection_id b with Some _ => Unregistering | None => Cleaned false end).
  assert (da_heap d1 !! w = Some b1) as H1 by (by apply watch_lookup). assert (da_heap d2 !! w = Some b2) as H2 by (by apply (watch_lookup (d1 <| da_workers ::= workers_pop (br_pid b) |>) w b1)).
  exists (watch_to w next (on_slot i (release_slot w (br_registered b)) d2)), [Emptied w], (b2 <| br_watch := next |>), (release_slot w (br_registered b) s). split.
  { eapply (steps_cons _ _ _ _ _ _ _ d1 [Emptied w] _ []); [cbn [daemon_step]; unfold reap; by rewrite Hw; cbn; rewrite Hr|].
    eapply (steps_cons _ _ _ _ _ _ _ d2 [] _ []); [cbn [daemon_step]; unfold remove_worker; by rewrite H1|].
    eapply (steps_cons _ _ _ _ _ _ _ _ [] _ []); [|reflexivity]. cbn [daemon_step]. unfold release. rewrite H2. cbn [mbind option_bind b2 br_watch br_worker set]. rewrite Hi, Nat2Z.id. reflexivity. }
  split; [done|]. split; [by apply (watch_lookup (on_slot i (release_slot w (br_registered b)) d2) w b2)|]. split; [done|]. split; [done|]. split.
  { cbn. unfold next. destruct (br_registered b) eqn:Eb; [|done]. cbn. by destruct (Hn Eb) as [c ->]. }
  split; [cbn; by rewrite list_lookup_alter_eq, Hs|]. unfold release_slot. rewrite bool_decide_true by done. cbn. by destruct (br_registered b).
Qed.

(** The steps of the cleanup. *)
Lemma cleaned_steps mac cluster node incarnation d i w b c s status : da_heap d !! w = Some b -> of_slot i b -> br_watch b = Unregistering -> br_connection_id b = Some c ->
  da_slots d !! i = Some s -> sl_worker s = None -> sl_thread s = Accepting -> sl_state s = CLEANUP_WAIT ->
  lk_stream (da_local d) = true -> length (lk_session (da_local d)) = 16%nat -> 0 <= lk_sequence (da_local d) -> lk_sequence (da_local d) + 2 < 2 ^ 64 -> in_width 32 status ->
  exists d' es s', daemon_steps mac cluster node incarnation
      [UnregisterWorker w (Some (response_bytes (lk_session (da_local d)) (lk_sequence (da_local d) + 1) status));
       QueryWorker w (Some (response_bytes (lk_session (da_local d)) (lk_sequence (da_local d) + 2) 0)); Reopen w] d = Some (d', es) /\
    da_slots d' !! i = Some s' /\ sl_state s' = FREE_LISTENING /\ sl_worker s' = None /\ sl_thread s' = Accepting.
Proof.
  intros Hw Hi Hr Hc Hs Ew Et Es Hk Hl Hn Hlt Hst. unfold of_slot in Hi. destruct (da_local d) as [stream session n] eqn:Ek. cbn [lk_stream lk_session lk_sequence] in *. subst stream.
  destruct (request_answered 3 c session n status Hl) as (q3 & E3); [lia..|done|]. destruct (request_answered 4 c session (n + 1) 0 Hl) as (q4 & E4); [lia..|by vm_compute|].
  pose (d1 := watch_to w Querying (d <| da_local := LocalClient true session (n + 1) |>)). pose (b1 := b <| br_watch := Querying |>).
  pose (d2 := watch_to w (Cleaned true) (d1 <| da_local := LocalClient true session (n + 1 + 1) |>)). pose (b2 := b <| br_watch := Cleaned true |>).
  assert (da_heap d1 !! w = Some b1) as H1 by (by apply (watch_lookup (d <| da_local := LocalClient true session (n + 1) |>) w b)).
  assert (da_heap d2 !! w = Some b2) as H2 by (by apply (watch_lookup (d1 <| da_local := LocalClient true session (n + 1 + 1) |>) w b1)).
  exists (watch_to w WatchDone (on_slot i (reopen_slot true) d2)). eexists. exists (reopen_slot true s). split.
  { eapply (steps_cons _ _ _ _ _ _ _ d1 [Replied q3 (response_bytes session (n + 1) status) status] _ ([Replied q4 (response_bytes session (n + 1 + 1) 0) 0] ++ [] ++ [])).
    - cbn [daemon_step]. unfold unregister_worker. rewrite Hw. cbn [mbind option_bind]. rewrite Hr, Hc. unfold ask_dpu. rewrite Ek, E3. reflexivity.
    - replace (n + 2) with (n + 1 + 1) by lia. eapply (steps_cons _ _ _ _ _ _ _ d2 [Replied q4 (response_bytes session (n + 1 + 1) 0) 0]).
      + cbn [daemon_step]. unfold query_worker. rewrite H1. cbn [mbind option_bind b1 br_watch br_connection_id set]. rewrite Hc. unfold ask_dpu.
        change (da_local d1) with (LocalClient true session (n + 1)). rewrite E4. reflexivity.
      + eapply (steps_cons _ _ _ _ _ _ _ _ []); [|reflexivity]. cbn [daemon_step]. unfold reopen. rewrite H2. cbn [mbind option_bind b2 br_watch br_worker set]. rewrite Hi, Nat2Z.id. reflexivity. }
  split; [cbn; by rewrite list_lookup_alter_eq, Hs|]. unfold reopen_slot. rewrite !bool_decide_true by done. done.
Qed.


(** The broker of [demo_brokering] is registered, and its slot recovers. *)
Definition brokered_steps : option (daemon * list daemon_event) :=
  daemon_steps demo_mac (txt "prod") (txt "node-a") (repeat x02 16) (demo_opening ++ demo_brokering) demo_daemon.
Definition brokered : daemon := default demo_daemon (fst <$> brokered_steps).
Definition brokered_events : list daemon_event := default [] (snd <$> brokered_steps).

Lemma brokered_stepped : daemon_steps demo_mac (txt "prod") (txt "node-a") (repeat x02 16) (demo_opening ++ demo_brokering) demo_daemon = Some (brokered, brokered_events).
Proof. vm_compute. reflexivity. Qed.
Lemma brokered_broker : da_heap brokered !! 0%nat = Some (broker_at 0 brokered) /\ br_watch (broker_at 0 brokered) = Reaping /\ br_registered (broker_at 0 brokered) = true.
Proof. split_and!; vm_compute; reflexivity. Qed.
Lemma brokered_session : lk_stream (da_local brokered) = true /\ lk_sequence (da_local brokered) + 2 < 2 ^ 64.
Proof. split; [vm_compute; reflexivity|apply Z.ltb_lt; vm_compute; reflexivity]. Qed.

Lemma pending_width : in_width 32 DMESH_LOCAL_PENDING.
Proof. by vm_compute. Qed.


(** ** Readiness *)

(** The feed's thread reports a failure after the session's thread has read that the
    feed was ready, and before it sets it. *)
Definition overtaken : list action :=
  demo_opening ++ [LoopObserves None; LoopConnect None; LoopBeats (answered_ok 2); FeedReady false; SetReadySlot; SetReadySlot; SetReadySlot; LoopSets; SetReadySlot; SetReadySlot; SetReadySlot].

(** C38: a failure of the feed can be forgotten.  [_local_loop] hands [set_ready] a value of
    [feed_ready] that it has read before it has the lock, and [set_ready] stores it.
    There is a run in which the feed's thread reports a failure in between: at the
    end no later report has been made, and yet [feed_ready] is set, the runtime is
    ready, and all slots are healthy and free. *)
Theorem feed_failure_forgotten mac cluster node incarnation : exists d1 es1 d es,
  daemon_steps mac cluster node incarnation (take 17 overtaken) demo_daemon = Some (d1, es1) /\ da_feed_ready d1 = false /\ da_runtime_ready d1 = false /\
  daemon_steps mac cluster node incarnation overtaken demo_daemon = Some (d, es) /\ da_feed_ready d = true /\ da_runtime_ready d = true /\
  Forall (fun s => health s (da_runtime_ready d) = true /\ sl_state s = FREE_LISTENING) (da_slots d).
Proof.
  eexists _, _, _, _. split; [vm_compute; reflexivity|]. split; [reflexivity|]. split; [reflexivity|]. split; [vm_compute; reflexivity|].
  split; [reflexivity|]. split; [reflexivity|]. repeat constructor.
Qed.

(** ** Allocation *)

Lemma undecimal_zeros k s : undecimal (repeat "0"%byte k ++ s) 0 = undecimal s 0.
Proof. unfold undecimal. rewrite fold_left_app. f_equal. induction k as [|k IH]; [done|]. cbn [repeat fold_left]. exact IH. Qed.

(** No step changes how many slots there are. *)
Lemma step_slots mac cluster node incarnation a d d' es : daemon_step mac cluster node incarnation a d = Some (d', es) -> length (da_slots d') = length (da_slots d).
Proof.
  intros H. destruct a; open_step H.
  all: injection H as <- <-; try (cbn; rewrite ?length_alter; done).
  all: try (match goal with E : ask_dpu _ _ _ _ _ = (?r, _, _) |- _ => apply ask_same in E as (E & _ & _); destruct r as [|[]]; cbn; by rewrite E end).
  cbn [da_loop]. by repeat case_match.
Qed.

Lemma device_id_inj i j : (i < 128)%nat -> (j < 128)%nat -> device_id (Z.of_nat i) = device_id (Z.of_nat j) -> i = j.
Proof.
  intros Hi Hj H. assert (forall n : nat, (n < 128)%nat -> undecimal (drop 8 (device_id (Z.of_nat n))) 0 = Z.of_nat n) as Hn.
  { intros n Hb. unfold device_id. change (drop 8 (txt "channel-" ++ ?x)) with x. rewrite undecimal_zeros.
    apply (proj1 (show_spec (show (Z.of_nat n)) (Z.of_nat n) ltac:(unfold in_width; lia)) eq_refl). }
  apply (f_equal (fun x => undecimal (drop 8 x) 0)) in H. rewrite !Hn in H by done. lia.
Qed.

Lemma by_id_exact id d i : (length (da_slots d) <= 127)%nat -> by_id id d = inr i <-> id = device_id (Z.of_nat i) /\ (i < length (da_slots d))%nat.
Proof.
  intros Hb. unfold by_id. set (l := filter _ _). assert (forall j, j ∈ l <-> device_id (Z.of_nat j) = id /\ (j < length (da_slots d))%nat) as Hl.
  { intros j. unfold l. rewrite list_elem_of_filter, elem_of_seq. intuition lia. }
  assert (NoDup l) as Hd by (apply NoDup_filter, NoDup_seq). split.
  - destruct l as [|j [|? ?]]; try done. intros [= ->]. assert (i ∈ [i]) as Hi by by left. apply Hl in Hi as [<- ?]. done.
  - intros [-> Hi]. assert (i ∈ l) as Hin by (by apply Hl). assert (forall j, j ∈ l -> j = i) as Hu by (intros j [E ?]%Hl; apply device_id_inj; [lia..|done]).
    destruct l as [|j [|k l']]; [by apply elem_of_nil in Hin|by rewrite (Hu j) by by left|]. exfalso. apply NoDup_cons in Hd as [Hd _].
    rewrite (Hu j), (Hu k) in Hd by (by left || (right; by left)). apply Hd. by left.
Qed.

Lemma run_slots mac cluster node incarnation d tr : daemon_run mac cluster node incarnation d tr -> (1 <= length (da_slots d) <= 127)%nat.
Proof.
  induction 1 as [count d H|d d' tr es a _ IH H].
  - unfold daemon_init, MAX_CHANNEL_SLOTS in H. destruct (1 <=? count) eqn:E1, (count <=? 127) eqn:E2; try done. injection H as <-. cbn. rewrite repeat_length. lia.
  - replace (length (da_slots d')) with (length (da_slots d)); [done|]. symmetry. by eapply step_slots.
Qed.

(** A container is given a socket exactly when it asks for one channel that exists and
    is healthy, and the socket is that channel's. *)
Lemma allocate_exact mac cluster node incarnation d tr directory ids path : daemon_run mac cluster node incarnation d tr ->
  allocate_container directory d ids = inr path <->
  exists i s, ids = [device_id (Z.of_nat i)] /\ da_slots d !! i = Some s /\ da_runtime_ready d = true /\ sl_state s <> UNHEALTHY /\ path = slot_path directory i.
Proof.
  intros Hrun. apply run_slots in Hrun as [_ Hb]. unfold allocate_container, health. split.
  - destruct ids as [|id [|? ?]]; try done. intros (i & [-> _]%by_id_exact & H)%bind_inr; [|done]. apply bind_inr in H as (s & Hs%or_raise_inr & H).
    apply bind_inr in H as (? & [Hr Hu%bool_decide_eq_true]%raise_if_inr%negb_false_iff%andb_true_iff & [= <-]). by exists i, s.
  - intros (i & s & -> & Hs & Hr & Hu & ->). rewrite (proj2 (by_id_exact _ d i Hb)) by (split; [done|by eapply lookup_lt_Some]). cbn [mbind result_bind].
    rewrite Hs. cbn [or_raise mbind result_bind]. by rewrite Hr, bool_decide_true by done.
Qed.
